(* ===== verification/_CoqProject ===== *)
-Q . S2P
Prelude.v
ArithUint.v
Uint256.v
Arith256.v
Binary64.v
Binary64Proofs.v
Params.v
FeeModel.v
Blake3.v
Blake3Spec.v
Blake3Hasher.v
Sha256.v
Sha256Proofs.v
MerkleDamgard.v
Ripemd160.v
Sha512.v
Hashes.v
Serialize.v
PubKey.v
Primitives.v
Opcodes.v
Script.v
ScriptFlags.v
Interpreter.v
InterpreterProofs.v
SigHash.v
VerifyScript.v
CheckerOrder.v
CuckooCache.v
SigCache.v
BlockIndex.v
Chain.v
Coins.v
CoinsDB.v
TxVerify.v
MempoolEntry.v
TxMempool.v
PoolGraph.v
PoolInvariant.v
PoolBooks.v
PoolRemoval.v
PoolAdd.v
PoolOps.v
PoolUpkeep.v
PoolPriority.v
PoolTheorems.v
Merkle.v
MerklePath.v
MerkleBlock.v
ChainParams.v
Pow.v
BlockCheck.v
VersionBits.v
Connect.v
Compressor.v
Miner.v
MinerSelect.v
MinerLoop.v
MinerComplete.v
MinerTheorems.v
MinerTemplate.v
ConnectProofs.v
Supply.v
ScriptCheck.v
