(* ===== verification/Prelude.v ===== *)
(** * ADONAI: a verification development of the node's consensus core

    ADONAI is a fork of Bitcoin Core in C++ (with BLAKE3 in C) whose blocks are hashed with BLAKE3 and whose difficulty follows a
    linearly weighted moving average.  This library is a shallow embedding of its consensus code: the sources under src/ become
    executable definitions with the names of the source, and the theorems say what they compute.  Paths below are relative to
    the src/ directory of the sources.

    ** The program and its model

    A block arrives as bytes; its header is checked and entered in the block index; the block is checked by itself and then
    connected to the set of unspent coins, which lives in a stack of caches over a database.  From the bottom up:

    - Prelude.v: integers at their width ([u32], [i64], ...), byte lists, loops and the tactics and hint databases of the development.
    - ArithUint.v, Arith256.v (arith_uint256.h, .cpp): [base_uint] on its 32-bit limbs, [arith_uint256] and the compact target encoding.
      Uint256.v (uint256.h, crypto/common.h): byte blobs and byte orders.  Binary64.v, Binary64Proofs.v: the C++ [double] and the error of its
      operations.  FeeModel.v (policy/feemodel.cpp, feerate.cpp, hybridfee.h): fee rates, the fee model and the relay fee.
    - Blake3.v, Blake3Spec.v, Blake3Hasher.v (blake3/): the portable compression function, the incremental hasher, the tree hash it
      refines.  Sha256.v, Sha256Proofs.v (crypto/sha256.cpp).  MerkleDamgard.v: the buffering that RIPEMD-160, SHA-1 (Ripemd160.v) and
      SHA-512 (Sha512.v, with HMAC and [BIP32Hash]) share, as the class [MDHash].  Hashes.v (hash.h, hash.cpp): the hash writers.
    - Serialize.v (serialize.h): the formats, with the class [Codec] that every serializable type instantiates.
      Primitives.v (primitives/): transactions, headers, blocks.  Opcodes.v, Script.v (script/script.h, .cpp).
    - PubKey.v (pubkey.h, pubkey.cpp): public keys over the class [Secp256k1], whose fields are the functions of libsecp256k1.
    - ScriptFlags.v, Interpreter.v, SigHash.v, VerifyScript.v (script/interpreter.h, .cpp): [EvalScript] with one definition for each group
      of opcodes, the signature hashes and the checker of a transaction, [VerifyScript].  The class [BaseSignatureChecker] is the
      interface between interpreter and checker; InterpreterProofs.v states what the interpreter needs of a checker
      ([LawfulSignatureChecker]) and SigHash.v discharges it.  A script runs in the monad [outcome], whose failures are an error that
      was set, an exception and a failed assertion; stacks have their top in front.
    - CuckooCache.v (cuckoocache.h), SigCache.v (script/sigcache.cpp): the signature cache.
    - Params.v (consensus/params.h, [GetBlockSubsidy]), ChainParams.v (kernel/chainparams.cpp): parameters and the five networks.
    - BlockIndex.v (chain.h, chain.cpp, [AddToBlockIndex]): the tree of block index entries with its skip list.  Chain.v: [CChain],
      forks and locators.  Pow.v (pow.cpp): retargeting and the check of work.
    - Merkle.v, MerklePath.v (consensus/merkle.cpp), MerkleBlock.v (merkleblock.cpp): roots, paths and partial trees.
    - Coins.v (coins.h, coins.cpp): the class [CCoinsView] is the interface between the levels of the coin hierarchy and [LawfulView]
      what a level promises; a cache over a lawful view is one.  CoinsDB.v (txdb.cpp): the database at the bottom.  Compressor.v
      (compressor.h, undo.h): the formats of coins and undo records on disk.
    - TxVerify.v (consensus/tx_check.cpp, tx_verify.cpp), BlockCheck.v (validation.cpp): the checks of transactions, headers and blocks,
      and [AcceptBlockHeader].
    - MempoolEntry.v, TxMempool.v (kernel/mempool_entry.h, txmempool.h, .cpp): the transaction pool, a map from identifiers to entries
      with their parents, children and running totals, with the books kept beside it.  The class [MempoolEnv] has what the pool
      reads of its surroundings: the fee model and the sizes of allocations.  PoolGraph.v has the relations of parents and ancestors
      and the walks over them; PoolInvariant.v, PoolBooks.v, PoolRemoval.v, PoolAdd.v, PoolOps.v, PoolUpkeep.v and PoolPriority.v
      have the invariant of the pool and what each operation does to it; PoolTheorems.v the pool's histories.
    - VersionBits.v (versionbits.cpp, deploymentinfo.cpp): BIP9 deployments with their caches; the class
      [AbstractThresholdConditionChecker] has two instances, for deployments and for unknown bits.
    - Connect.v, ConnectProofs.v, Supply.v (validation.cpp): [ConnectBlock], [DisconnectBlock] and the chain they build.  They use script
      checks through the class [ScriptVerifier]; ScriptCheck.v instantiates it with [VerifyScript].
    - Miner.v (node/miner.h, miner.cpp, [TestBlockValidity] of validation.cpp): the choice of packages from the pool and the
      block template made of them.  MinerSelect.v and MinerLoop.v have the order, the counters and the loop of the selection,
      MinerComplete.v what it takes when nothing is refused; MinerTheorems.v and MinerTemplate.v the properties.

    ** Conventions

    State is passed explicitly and returned; a pointer into the block index is a position in the list of its entries; a [CCoinsView]
    returns the view after a call because reads fill caches.  An outer [None] is a failed assertion, a null dereference or an
    uncaught exception, a [verdict] is what a validation state records.  Theorems about results also say that the code returns.
    Integers are in [Z] with the wrap-around of their C++ type written out where it can occur.

    Loops are structural or take fuel: the distance in heights bounds [ancestor_walk], a byte string's length bounds the decoding of its
    operations, the height of a tree bounds the Merkle loops, the number of entries bounds the walks over the pool's graph and the
    evictions of [TrimToSize], a square in the number of entries bounds the turns of the block assembler, and the theorems show that the fuel given is enough.

    ** What the theorems show

    - Hashing: both hashers give the specified hash of the concatenation of their updates for every way of cutting the input
      and every SIMD width; identifiers and Merkle roots bind what they hash, up to a collision that the theorem exhibits.
    - Scripts: every operation keeps the machine within its types and limits, [EvalScript] and [VerifyScript] return on every script and
      witness with no assertion failing, and every flag is a soft fork.  A signed spend is accepted; multiple signatures match keys in
      order; the signature hashes are those of the copying reference and do not depend on what was precomputed; taproot paths lead
      to the root of BIP 341.  The signature cache answers as the curve, on a cuckoo cache that is a lossy set.  [CheckInputScripts]
      accepts exactly the transactions whose inputs all verify.
    - Formats: readers accept exactly what writers produce; compact targets and disk entries round-trip.
    - Block index: every sequence of insertions keeps the tree well formed, skip-list ancestors are the naive ones, forks and locators
      are what their names say.
    - Work: the retarget is the weighted average it is meant to be while its product stays within 256 bits, and what happens
      beyond; headers are accepted exactly under the stated rules, and only if the bits are read before [GetNextWorkRequired] runs.
    - Deployments: whatever queries and growth of the index filled the version-bits caches, they answer as the cache-free automaton of
      BIP9, and nothing becomes active without a period of sufficient signalling.
    - Coins: a stack of caches refines a map, a crash during a flush leaves old and new coins under a marker.
    - Blocks: [CheckBlock], [CheckTransaction], [CheckTxInputs] and [SequenceLocks] accept exactly the stated inputs; connecting a
      block creates at most its subsidy, disconnecting it restores the coins, and the supply stays bounded along every history.
    - Pool: every history of additions, removals, blocks, reorganisations, expiry, trimming and prioritisation keeps the graph, the
      totals and the books consistent, and none of the operations fails; a block leaves the entries that it neither confirms nor
      contradicts, and trimming ends within the limit.  Relay and the miner do not ask for the same fee.
    - Assembly: the selection for a block returns, in an order in which parents come first, within the limits; it takes all of a pool
      that pays and fits, and nothing of a pool whose most expensive entry underpays; the template passes the contextual checks.

    ** What is not modelled

    The arithmetic of the curve (the class [Secp256k1]), the cache of script executions and the order in which a queue of checks reports
    (fields of [ScriptVerifier]), files and LevelDB (a parameter or a map), threads, time and logging, the policy of relay
    (standardness, replacement, packages, fee estimation), the pool's check of itself, chain selection with its files and
    notifications, the network, the wallet and the RPC interface. *)

From Stdlib Require Import ZArith Lia Bool.
From stdpp Require Import base numbers list.

Open Scope Z_scope.

(** ** Fixed-width integers

    A [w]-bit unsigned integer of the source is a [Z] in [[0, 2^w)]; every
    operation that can leave the range is followed by the wrap-around of its
    C++ type. Signed types are two's complement. *)

Definition wrap (w z : Z) : Z := z mod 2 ^ w.
Definition swrap (w z : Z) : Z := (z + 2 ^ (w - 1)) mod 2 ^ w - 2 ^ (w - 1).

Notation u8 := (wrap 8).
Notation u16 := (wrap 16).
Notation u32 := (wrap 32).
Notation u64 := (wrap 64).
Notation i32 := (swrap 32).
Notation i64 := (swrap 64).

(** [fits w z]: [z] is a value of the unsigned [w]-bit type. *)
Definition fits (w z : Z) : Prop := 0 <= z < 2 ^ w.
(** [sfits w z]: [z] is a value of the signed [w]-bit type. *)
Definition sfits (w z : Z) : Prop := - 2 ^ (w - 1) <= z < 2 ^ (w - 1).

#[export] Instance fits_dec w z : Decision (fits w z).
Proof. unfold fits. apply _. Defined.
#[export] Instance sfits_dec w z : Decision (sfits w z).
Proof. unfold sfits. apply _. Defined.

(** ** Positional notation, least significant digit first *)

Fixpoint digits (B : Z) (l : list Z) : Z :=
  match l with
  | [] => 0
  | x :: t => x + B * digits B t
  end.

(** The [n] least significant digits of [z] in base [2^w]. *)
Fixpoint split_digits (w : Z) (n : nat) (z : Z) : list Z :=
  match n with
  | O => []
  | S n => z mod 2 ^ w :: split_digits w n (Z.shiftr z w)
  end.

(** ** Arrays and counted loops

    A fixed-size array is a list read with [l.[i]] and written with stdpp's
    insert [<[i:=x]> l]; every array access of the source is in range, and the
    lemmas that read an array carry the range as a hypothesis. *)

Declare Scope adonai_scope.
Delimit Scope adonai_scope with adonai.
Notation "l .[ i ]" := (nth i l 0) (at level 1, left associativity, format "l .[ i ]")
  : adonai_scope.
Open Scope adonai_scope.

(** [for (i = 0; i < n; i++) body] *)
Definition for_up {St : Type} (n : nat) (body : nat -> St -> St) (s : St) : St :=
  foldl (fun s i => body i s) s (seq 0 n).

(** ** Automation *)

Create HintDb adonai discriminated.
#[export] Hint Constants Opaque : adonai.
#[export] Hint Extern 5 (_ <= _) => lia : adonai.
#[export] Hint Extern 5 (_ < _) => lia : adonai.

(** Decide closed arithmetic side conditions by evaluation, the others by
    [lia]. *)
Ltac zeval :=
  first [ assumption | lia | (vm_compute; first [reflexivity | intuition congruence]) ].

(** Linear goals about wrap-around: [div] and [mod] by constants become
    equations. *)
Ltac wrap_lia := unfold wrap, fits in *; Z.div_mod_to_equations; lia.

(** Turn every boolean test of the context into the proposition it decides. *)
Ltac bool_to_prop :=
  repeat match goal with
  | H : (_ && _)%bool = true |- _ => apply andb_true_iff in H; destruct H
  | H : (_ && _)%bool = false |- _ => apply andb_false_iff in H
  | H : (_ || _)%bool = true |- _ => apply orb_true_iff in H
  | H : (_ || _)%bool = false |- _ => apply orb_false_iff in H; destruct H
  | H : negb _ = true |- _ => apply negb_true_iff in H
  | H : negb _ = false |- _ => apply negb_false_iff in H
  | H : (_ =? _) = true |- _ => apply Z.eqb_eq in H
  | H : (_ =? _) = false |- _ => apply Z.eqb_neq in H
  | H : (_ <? _) = true |- _ => apply Z.ltb_lt in H
  | H : (_ <? _) = false |- _ => apply Z.ltb_ge in H
  | H : (_ <=? _) = true |- _ => apply Z.leb_le in H
  | H : (_ <=? _) = false |- _ => apply Z.leb_gt in H
  | H : (_ >? _) = true |- _ => rewrite Z.gtb_ltb in H; apply Z.ltb_lt in H
  | H : (_ >? _) = false |- _ => rewrite Z.gtb_ltb in H; apply Z.ltb_ge in H
  | H : (_ >=? _) = true |- _ => rewrite Z.geb_leb in H; apply Z.leb_le in H
  | H : (_ >=? _) = false |- _ => rewrite Z.geb_leb in H; apply Z.leb_gt in H
  end.

(** Split the goal (or a hypothesis) on every boolean comparison it tests. *)
Ltac case_bool :=
  match goal with
  | |- context [if ?b then _ else _] => destruct b eqn:?
  | H : context [if ?b then _ else _] |- _ => destruct b eqn:?
  end; bool_to_prop.

(** ** Lemmas on powers and wrap-around *)

Lemma pow2_pos w : 0 <= w -> 0 < 2 ^ w.
Proof. intros; apply Z.pow_pos_nonneg; lia. Qed.

Lemma pow2_nonneg w : 0 <= 2 ^ w.
Proof. apply Z.pow_nonneg; lia. Qed.

(** [a & (1 << i)] tests bit [i]. *)
Lemma land_bit a i : 0 <= i -> (Z.land a (Z.shiftl 1 i) =? 0) = negb (Z.testbit a i).
Proof.
  intros Hi. rewrite Z.shiftl_1_l. destruct (Z.testbit a i) eqn:E; cbn [negb].
  - apply Z.eqb_neq. intros H0. apply (f_equal (fun z => Z.testbit z i)) in H0.
    rewrite Z.land_spec, E, Z.pow2_bits_true, Z.bits_0 in H0 by lia. done.
  - apply Z.eqb_eq. apply Z.bits_inj'. intros j Hj. rewrite Z.land_spec, Z.bits_0.
    destruct (Z.eq_dec j i) as [->|]; [rewrite E; done|].
    rewrite Z.pow2_bits_false by lia. apply andb_false_r.
Qed.

Lemma wrap_fits w z : 0 <= w -> fits w (wrap w z).
Proof. intros; apply Z.mod_pos_bound, pow2_pos; lia. Qed.

Lemma wrap_small w z : fits w z -> wrap w z = z.
Proof. intros; apply Z.mod_small; assumption. Qed.

Lemma swrap_fits w z : 0 < w -> sfits w (swrap w z).
Proof.
  intros Hw. unfold sfits, swrap.
  assert (Hp : 2 ^ w = 2 * 2 ^ (w - 1)).
  { rewrite <- Z.pow_succ_r by lia. f_equal; lia. }
  pose proof (Z.mod_pos_bound (z + 2 ^ (w - 1)) (2 ^ w) (pow2_pos w ltac:(lia))). lia.
Qed.

Lemma swrap_small w z : 0 < w -> sfits w z -> swrap w z = z.
Proof.
  intros Hw Hz. unfold sfits, swrap in *.
  assert (Hp : 2 ^ w = 2 * 2 ^ (w - 1)).
  { rewrite <- Z.pow_succ_r by lia. f_equal; lia. }
  rewrite Z.mod_small; lia.
Qed.

Lemma swrap_wrap w z : swrap w (wrap w z) = swrap w z.
Proof. unfold swrap, wrap. rewrite Zplus_mod_idemp_l. done. Qed.

Lemma wrap_swrap w z : wrap w (swrap w z) = wrap w z.
Proof. unfold swrap, wrap. rewrite Zminus_mod_idemp_l. f_equal. lia. Qed.

#[export] Hint Resolve pow2_pos pow2_nonneg wrap_fits swrap_fits : adonai.

Lemma testbit_fits w z n : fits w z -> w <= n -> Z.testbit z n = false.
Proof.
  intros [H0 H1] Hn. destruct (Z.eq_dec z 0) as [->|Hz]; [apply Z.testbit_0_l|].
  apply Z.bits_above_log2; [lia|]. apply Z.log2_lt_pow2; [lia|].
  eapply Z.lt_le_trans; [exact H1|]. apply Z.pow_le_mono_r; lia.
Qed.

Lemma fits_testbit w z :
  0 <= w -> 0 <= z -> (forall n, w <= n -> Z.testbit z n = false) -> fits w z.
Proof.
  intros Hw Hz H. split; [assumption|].
  destruct (Z.eq_dec z 0) as [->|Hnz]; [auto with adonai|].
  apply Z.log2_lt_pow2; [lia|].
  destruct (Z.lt_ge_cases (Z.log2 z) w) as [|Hge]; [assumption|].
  specialize (H _ Hge). rewrite Z.bit_log2 in H by lia. discriminate.
Qed.

Lemma lor_fits w a b : 0 <= w -> fits w a -> fits w b -> fits w (Z.lor a b).
Proof.
  intros Hw Ha Hb. apply fits_testbit; [assumption|apply Z.lor_nonneg; unfold fits in *; lia|].
  intros n Hn. rewrite Z.lor_spec, (testbit_fits w a), (testbit_fits w b); auto.
Qed.

Lemma lxor_fits w a b : 0 <= w -> fits w a -> fits w b -> fits w (Z.lxor a b).
Proof.
  intros Hw Ha Hb. apply fits_testbit; [assumption|apply Z.lxor_nonneg; unfold fits in *; lia|].
  intros n Hn. rewrite Z.lxor_spec, (testbit_fits w a), (testbit_fits w b); auto.
Qed.

Lemma land_fits_l w a b : 0 <= w -> fits w a -> fits w (Z.land a b).
Proof.
  intros Hw Ha. apply fits_testbit; [assumption|apply Z.land_nonneg; unfold fits in *; lia|].
  intros n Hn. rewrite Z.land_spec, (testbit_fits w a); auto.
Qed.

Lemma shiftr_fits w a s : 0 <= w -> 0 <= s -> fits w a -> fits w (Z.shiftr a s).
Proof.
  intros Hw Hs [H0 H1]. split; [apply Z.shiftr_nonneg; lia|].
  rewrite Z.shiftr_div_pow2 by lia. pose proof (pow2_pos s Hs).
  apply Z.div_lt_upper_bound; [lia|]. nia.
Qed.

#[export] Hint Resolve lor_fits lxor_fits land_fits_l shiftr_fits : adonai.

(** Disjoint bits: a bitwise or is a sum. *)
Lemma lor_add w a b :
  0 <= w -> fits w a -> Z.lor a (Z.shiftl b w) = a + 2 ^ w * b.
Proof.
  intros Hw Ha. pose proof (Z.add_lor_land a (Z.shiftl b w)) as E.
  replace (Z.land a (Z.shiftl b w)) with 0 in E.
  - rewrite Z.shiftl_mul_pow2 in * by lia. lia.
  - symmetry. apply Z.bits_inj'. intros n Hn. rewrite Z.land_spec, Z.testbit_0_l.
    destruct (Z.lt_ge_cases n w).
    + rewrite Z.shiftl_spec_low by lia. apply andb_false_r.
    + rewrite (testbit_fits w a); auto.
Qed.

(** ** Lemmas on positional notation *)

Definition limbs_ok (w : Z) (l : list Z) : Prop := Forall (fits w) l.

#[export] Instance limbs_ok_dec w l : Decision (limbs_ok w l).
Proof. unfold limbs_ok. apply _. Defined.

Lemma digits_app B l1 l2 :
  digits B (l1 ++ l2) = digits B l1 + B ^ Z.of_nat (length l1) * digits B l2.
Proof.
  induction l1 as [|x l1 IH]; cbn -[Z.pow Z.of_nat Z.mul].
  - rewrite Z.pow_0_r. lia.
  - rewrite IH, Nat2Z.inj_succ, Z.pow_succ_r by lia. ring.
Qed.

Lemma digits_bound w l :
  0 <= w -> limbs_ok w l -> 0 <= digits (2 ^ w) l < 2 ^ (w * Z.of_nat (length l)).
Proof.
  intros Hw. induction 1 as [|x l Hx _ IH]; cbn -[Z.pow Z.of_nat Z.mul].
  - rewrite Z.mul_0_r, Z.pow_0_r. lia.
  - rewrite Nat2Z.inj_succ, Z.mul_succ_r, Z.pow_add_r by lia.
    destruct Hx as [Hx0 Hx1]. pose proof (pow2_pos w Hw). nia.
Qed.

Lemma digits_nonneg w l : 0 <= w -> limbs_ok w l -> 0 <= digits (2 ^ w) l.
Proof. intros Hw Hl. apply (digits_bound w l Hw Hl). Qed.

(** A value is determined by its digits. *)
Lemma digits_inj w l1 l2 :
  0 <= w -> limbs_ok w l1 -> limbs_ok w l2 -> length l1 = length l2 ->
  digits (2 ^ w) l1 = digits (2 ^ w) l2 -> l1 = l2.
Proof.
  intros Hw H1. revert l2.
  induction H1 as [|x l1 Hx _ IH]; intros [|y l2] H2 Hlen Heq; try discriminate; [done|].
  inversion H2 as [|? ? Hy Hl2]; subst. cbn -[Z.pow Z.mul] in Heq.
  assert (x = y).
  { apply (f_equal (fun z => z mod 2 ^ w)) in Heq.
    rewrite !(Z.mul_comm (2 ^ w)), !Z_mod_plus_full in Heq.
    unfold fits in *. rewrite !Z.mod_small in Heq by lia. assumption. }
  subst y. f_equal. apply IH; auto. unfold fits in *. pose proof (pow2_pos w Hw). nia.
Qed.

(** Bit [n] of a value is bit [n mod w] of its digit [n / w]. *)
Lemma testbit_digits w l n :
  0 < w -> limbs_ok w l -> 0 <= n ->
  Z.testbit (digits (2 ^ w) l) n = Z.testbit (l.[Z.to_nat (n / w)]) (n mod w).
Proof.
  intros Hw Hl. revert n. induction Hl as [|x l Hx Hl IH]; intros n Hn.
  - destruct (Z.to_nat (n / w)); cbn; rewrite ?Z.testbit_0_l; done.
  - cbn -[Z.pow Z.mul nth]. rewrite <- lor_add by (auto; lia). rewrite Z.lor_spec.
    destruct (Z.lt_ge_cases n w) as [Hlt|Hge].
    + rewrite Z.shiftl_spec_low, orb_false_r by lia.
      rewrite Z.div_small, Z.mod_small by lia. done.
    + rewrite (testbit_fits w x) by (auto; lia). rewrite Z.shiftl_spec by lia. cbn [orb].
      rewrite IH by lia.
      replace (n / w) with (Z.succ ((n - w) / w)).
      2:{ replace n with ((n - w) + 1 * w) at 2 by lia. rewrite Z.div_add by lia. lia. }
      rewrite Z2Nat.inj_succ by (apply Z.div_pos; lia). cbn [nth].
      f_equal. replace n with ((n - w) + 1 * w) at 2 by lia. rewrite Z_mod_plus_full. done.
Qed.

Lemma digits_snoc B l x : digits B (l ++ [x]) = digits B l + B ^ Z.of_nat (length l) * x.
Proof. rewrite digits_app. cbn -[Z.pow]. lia. Qed.

(** The invariant rule of a counted loop. *)
Lemma for_up_ind {St : Type} (P : nat -> St -> Prop) n body s :
  P 0%nat s -> (forall i s, (i < n)%nat -> P i s -> P (S i) (body i s)) ->
  P n (for_up n body s).
Proof.
  intros H0 HS. unfold for_up.
  enough (forall k, (k <= n)%nat -> P k (foldl (fun s i => body i s) s (seq 0 k))) by auto.
  intros k. induction k as [|k IH]; intros Hk; [exact H0|].
  rewrite seq_S, foldl_app. cbn. apply HS; [lia|]. apply IH. lia.
Qed.

Lemma nth_insert_eq {A} (l : list A) i x d : (i < length l)%nat -> nth i (<[i:=x]> l) d = x.
Proof. intros. rewrite nth_lookup, list_lookup_insert_eq by assumption. done. Qed.

Lemma nth_insert_ne {A} (l : list A) i j x d : i <> j -> nth j (<[i:=x]> l) d = nth j l d.
Proof. intros. rewrite !nth_lookup, list_lookup_insert_ne by assumption. done. Qed.

Lemma nth_lookup_Some (l : list Z) i : (i < length l)%nat -> l !! i = Some l.[i].
Proof.
  intros H. rewrite nth_lookup. destruct (lookup_lt_is_Some_2 l i H) as [x ->]. done.
Qed.

Lemma nth_limb w l i : 0 <= w -> limbs_ok w l -> fits w l.[i].
Proof.
  intros Hw Hl. rewrite nth_lookup. destruct (l !! i) eqn:E; cbn.
  - eapply Forall_lookup_1 in Hl; eauto.
  - split; [lia|auto with adonai].
Qed.

Lemma digits_insert B l i x :
  (i < length l)%nat ->
  digits B (<[i:=x]> l) = digits B l + (x - l.[i]) * B ^ Z.of_nat i.
Proof.
  revert i. induction l as [|y l IH]; intros [|i] Hi; cbn -[Z.pow Z.of_nat Z.mul] in *; try lia.
  change (list_insert i x l) with (<[i:=x]> l).
  rewrite IH, Nat2Z.inj_succ, Z.pow_succ_r by lia. ring.
Qed.

Lemma digits_take_S B l i :
  (i < length l)%nat ->
  digits B (take (S i) l) = digits B (take i l) + B ^ Z.of_nat i * l.[i].
Proof.
  intros Hi. rewrite (take_S_r l i l.[i]) by (apply nth_lookup_Some; assumption).
  rewrite digits_snoc, length_take. rewrite Nat.min_l by lia. done.
Qed.

Lemma digits_replicate_0 B n : digits B (replicate n 0) = 0.
Proof. induction n as [|n IH]; cbn -[Z.mul]; [done|rewrite IH; lia]. Qed.

Lemma length_split_digits w n z : length (split_digits w n z) = n.
Proof. revert z; induction n; intros; cbn; auto. Qed.

Lemma split_digits_ok w n z : 0 <= w -> limbs_ok w (split_digits w n z).
Proof.
  intros Hw. revert z; induction n; intros; cbn; constructor.
  - apply wrap_fits; assumption.
  - apply IHn.
Qed.

Lemma digits_split w n z :
  0 <= w -> digits (2 ^ w) (split_digits w n z) = z mod 2 ^ (w * Z.of_nat n).
Proof.
  intros Hw. revert z. induction n as [|n IH]; intros z; cbn -[Z.pow Z.of_nat Z.mul].
  - rewrite Z.mul_0_r, Z.pow_0_r, Z.mod_1_r. done.
  - rewrite IH, Nat2Z.inj_succ, Z.mul_succ_r, Z.add_comm, Z.pow_add_r by lia.
    pose proof (pow2_pos w Hw). pose proof (pow2_pos (w * Z.of_nat n) ltac:(lia)).
    rewrite Z.shiftr_div_pow2 by lia.
    rewrite (Z.mul_comm (2 ^ (w * Z.of_nat n))), Z.rem_mul_r by lia. ring.
Qed.

Lemma split_digits_digits w l :
  0 <= w -> limbs_ok w l -> split_digits w (length l) (digits (2 ^ w) l) = l.
Proof.
  intros Hw Hl. apply (digits_inj w); auto using split_digits_ok.
  - apply length_split_digits.
  - rewrite digits_split by assumption. apply Z.mod_small, digits_bound; assumption.
Qed.

#[export] Hint Resolve split_digits_ok digits_nonneg : adonai.

(** ** Byte strings with integer lengths

    A pointer with its length is a list; lengths and offsets of the source are
    integers. *)

Notation zlen l := (Z.of_nat (length l)).
Definition ztake {A} (n : Z) (l : list A) : list A := take (Z.to_nat n) l.
Definition zdrop {A} (n : Z) (l : list A) : list A := drop (Z.to_nat n) l.
Definition zrep {A} (n : Z) (x : A) : list A := replicate (Z.to_nat n) x.

Lemma zlen_ztake {A} n (l : list A) : 0 <= n <= zlen l -> zlen (ztake n l) = n.
Proof. intros H. unfold ztake. rewrite length_take. lia. Qed.

Lemma zlen_zdrop {A} n (l : list A) : 0 <= n <= zlen l -> zlen (zdrop n l) = zlen l - n.
Proof. intros H. unfold zdrop. rewrite length_drop. lia. Qed.

Lemma zlen_zrep {A} n (x : A) : 0 <= n -> zlen (zrep n x) = n.
Proof. intros H. unfold zrep. rewrite length_replicate. lia. Qed.

Lemma zlen_app {A} (a b : list A) : zlen (a ++ b) = zlen a + zlen b.
Proof. rewrite length_app. lia. Qed.

Lemma zlen_nonneg {A} (l : list A) : 0 <= zlen l.
Proof. lia. Qed.

Lemma zlen_nil_inv {A} (l : list A) : zlen l = 0 -> l = [].
Proof. intros H. apply length_zero_iff_nil. lia. Qed.

Lemma ztake_zdrop {A} n (l : list A) : ztake n l ++ zdrop n l = l.
Proof. apply take_drop. Qed.

Lemma ztake_all {A} n (l : list A) : zlen l <= n -> ztake n l = l.
Proof. intros H. apply take_ge. lia. Qed.

Lemma zdrop_all {A} n (l : list A) : zlen l <= n -> zdrop n l = [].
Proof. intros H. apply drop_ge. lia. Qed.

Lemma ztake_0 {A} (l : list A) : ztake 0 l = [].
Proof. reflexivity. Qed.

Lemma zdrop_0 {A} (l : list A) : zdrop 0 l = l.
Proof. reflexivity. Qed.

Lemma ztake_app {A} n (a b : list A) : n = zlen a -> ztake n (a ++ b) = a.
Proof. intros ->. unfold ztake. rewrite Nat2Z.id. apply take_app_length. Qed.

Lemma zdrop_app {A} n (a b : list A) : n = zlen a -> zdrop n (a ++ b) = b.
Proof. intros ->. unfold zdrop. rewrite Nat2Z.id. apply drop_app_length. Qed.

Lemma ztake_app_le {A} n (a b : list A) : n <= zlen a -> ztake n (a ++ b) = ztake n a.
Proof. intros H. apply take_app_le. lia. Qed.

Lemma zdrop_app_le {A} n (a b : list A) : n <= zlen a -> zdrop n (a ++ b) = zdrop n a ++ b.
Proof. intros H. apply drop_app_le. lia. Qed.

Lemma zdrop_zdrop {A} n m (l : list A) : 0 <= n -> 0 <= m -> zdrop n (zdrop m l) = zdrop (n + m) l.
Proof. intros. unfold zdrop. rewrite drop_drop. f_equal. lia. Qed.

(** Lengths of [ztake], [zdrop], [zrep] and [++], with side conditions by [lia]. *)
Ltac zlens :=
  repeat first
    [ rewrite zlen_app in * | rewrite zlen_ztake in * by lia | rewrite zlen_zdrop in * by lia
    | rewrite zlen_zrep in * by lia ].

(** A slice read element by element. *)
Lemma slice_nth (l : list Z) n : forall k, (k + n <= length l)%nat ->
  take n (drop k l) = map (fun i => l.[(k + i)%nat]) (seq 0 n).
Proof.
  induction n as [|n IH]; intros k H; [done|].
  rewrite (drop_S l l.[k] k) by (apply nth_lookup_Some; lia). cbn [take seq map].
  rewrite Nat.add_0_r. f_equal.
  rewrite IH by lia. rewrite <- seq_shift, map_map. apply map_ext. intros i. f_equal. lia.
Qed.
