(* ===== verification/ArithUint.v ===== *)
(** * Multi-limb unsigned integers (src/arith_uint256.h, src/arith_uint256.cpp)

    [base_uint<BITS>] keeps its value in [WIDTH = BITS / 32] limbs [pn] of 32
    bits, least significant first. The model keeps the template's width as a
    section variable; the operations are the loops of the source over the limb
    array. The lemmas show that each operation is the corresponding operation
    on [Z] modulo [2^BITS] (or exact, where the source does not wrap). *)

From Stdlib Require Import ZArith Lia Bool.
From stdpp Require Import base numbers list.
From S2P Require Import Prelude.

Open Scope Z_scope.
Open Scope adonai_scope.

(** [uint32_t pn[WIDTH]] *)
Notation base_uint := (list Z).

Section Operations.
  Context (WIDTH : nat).

(** [base_uint()] *)
Definition base_uint_zero : base_uint := replicate WIDTH 0.

(** [base_uint(uint64_t b)] and [operator=(uint64_t b)] *)
Definition of_uint64 (b : Z) : base_uint :=
  for_up (WIDTH - 2) (fun i pn => <[(i + 2)%nat := 0]> pn)
    (<[1%nat := u32 (Z.shiftr b 32)]> (<[0%nat := u32 b]> base_uint_zero)).

(** [operator~] *)
Definition base_uint_not (a : base_uint) : base_uint :=
  for_up WIDTH (fun i ret => <[i := u32 (Z.lnot a.[i])]> ret) base_uint_zero.

(** [operator++], [n = WIDTH - i] limbs left to visit. *)
Fixpoint incr_loop (n i : nat) (pn : base_uint) : base_uint :=
  match n with
  | O => pn
  | S n =>
      let pn := <[i := u32 (pn.[i] + 1)]> pn in
      if pn.[i] =? 0 then incr_loop n (S i) pn else pn
  end.
Definition base_uint_incr (a : base_uint) : base_uint := incr_loop WIDTH 0 a.

(** [operator--] *)
Fixpoint decr_loop (n i : nat) (pn : base_uint) : base_uint :=
  match n with
  | O => pn
  | S n =>
      let pn := <[i := u32 (pn.[i] - 1)]> pn in
      if pn.[i] =? 2 ^ 32 - 1 then decr_loop n (S i) pn else pn
  end.
Definition base_uint_decr (a : base_uint) : base_uint := decr_loop WIDTH 0 a.

(** unary [operator-] *)
Definition base_uint_neg (a : base_uint) : base_uint := base_uint_incr (base_uint_not a).

(** [operator^=], [operator&=], [operator|=] *)
Definition base_uint_bitop (op : Z -> Z -> Z) (a b : base_uint) : base_uint :=
  for_up WIDTH (fun i pn => <[i := op pn.[i] b.[i]]> pn) a.
Definition base_uint_xor := base_uint_bitop Z.lxor.
Definition base_uint_and := base_uint_bitop Z.land.
Definition base_uint_or := base_uint_bitop Z.lor.

(** [operator+=(const base_uint&)] *)
Definition add_step (b : base_uint) (i : nat) (st : base_uint * Z) : base_uint * Z :=
  let '(pn, carry) := st in
  let n := u64 (carry + pn.[i] + b.[i]) in
  (<[i := Z.land n 0xffffffff]> pn, Z.shiftr n 32).
Definition base_uint_add (a b : base_uint) : base_uint :=
  fst (for_up WIDTH (add_step b) (a, 0)).

(** [operator-=(const base_uint&)] *)
Definition base_uint_sub (a b : base_uint) : base_uint := base_uint_add a (base_uint_neg b).

(** [operator*=(uint32_t)] *)
Definition mul32_step (b32 : Z) (i : nat) (st : base_uint * Z) : base_uint * Z :=
  let '(pn, carry) := st in
  let n := u64 (carry + u64 (b32 * pn.[i])) in
  (<[i := Z.land n 0xffffffff]> pn, Z.shiftr n 32).
Definition base_uint_mul32 (a : base_uint) (b32 : Z) : base_uint :=
  fst (for_up WIDTH (mul32_step b32) (a, 0)).

(** [operator*=(const base_uint&)]: [mul_row] is the inner loop for one [j]. *)
Definition mul_step (x : Z) (b : base_uint) (j i : nat) (st : base_uint * Z) : base_uint * Z :=
  let '(a, carry) := st in
  let n := u64 (carry + a.[(i + j)%nat] + u64 (x * b.[i])) in
  (<[(i + j)%nat := Z.land n 0xffffffff]> a, Z.shiftr n 32).
Definition mul_row (pn b : base_uint) (j : nat) (a : base_uint) : base_uint :=
  fst (for_up (WIDTH - j) (mul_step pn.[j] b j) (a, 0)).
Definition base_uint_mul (pn b : base_uint) : base_uint :=
  for_up WIDTH (mul_row pn b) base_uint_zero.

(** [operator<<=]: [k = shift / 32], then [shift = shift % 32]. *)
Definition shl_step (a : base_uint) (k shift : Z) (i : nat) (pn : base_uint) : base_uint :=
  let i' := Z.of_nat i in
  let pn := if (i' + k + 1 <? Z.of_nat WIDTH) && negb (shift =? 0)
            then let j := Z.to_nat (i' + k + 1) in
                 <[j := Z.lor pn.[j] (Z.shiftr a.[i] (32 - shift))]> pn
            else pn in
  if i' + k <? Z.of_nat WIDTH
  then let j := Z.to_nat (i' + k) in
       <[j := Z.lor pn.[j] (u32 (Z.shiftl a.[i] shift))]> pn
  else pn.
Definition base_uint_shl (a : base_uint) (shift : Z) : base_uint :=
  for_up WIDTH (shl_step a (shift / 32) (shift mod 32)) base_uint_zero.

(** [operator>>=] *)
Definition shr_step (a : base_uint) (k shift : Z) (i : nat) (pn : base_uint) : base_uint :=
  let i' := Z.of_nat i in
  let pn := if (i' - k - 1 >=? 0) && negb (shift =? 0)
            then let j := Z.to_nat (i' - k - 1) in
                 <[j := Z.lor pn.[j] (u32 (Z.shiftl a.[i] (32 - shift)))]> pn
            else pn in
  if i' - k >=? 0
  then let j := Z.to_nat (i' - k) in
       <[j := Z.lor pn.[j] (Z.shiftr a.[i] shift)]> pn
  else pn.
Definition base_uint_shr (a : base_uint) (shift : Z) : base_uint :=
  for_up WIDTH (shr_step a (shift / 32) (shift mod 32)) base_uint_zero.

(** [CompareTo]: limbs [n - 1] down to [0]. *)
Fixpoint compare_loop (n : nat) (a b : base_uint) : Z :=
  match n with
  | O => 0
  | S i => if a.[i] <? b.[i] then -1
           else if a.[i] >? b.[i] then 1
           else compare_loop i a b
  end.
Definition CompareTo (a b : base_uint) : Z := compare_loop WIDTH a b.

(** the comparison operators, all through [operator<=>] *)
Definition base_uint_lt (a b : base_uint) : bool := CompareTo a b <? 0.
Definition base_uint_gt (a b : base_uint) : bool := CompareTo a b >? 0.
Definition base_uint_ge (a b : base_uint) : bool := CompareTo a b >=? 0.

(** [EqualTo(uint64_t b)]: limbs [n - 1] down to [2] are zero. *)
Fixpoint high_limbs_zero (n : nat) (a : base_uint) : bool :=
  match n with
  | O => true
  | S i => if (2 <=? i)%nat then (if negb (a.[i] =? 0) then false else high_limbs_zero i a)
           else true
  end.
Definition EqualTo (a : base_uint) (b : Z) : bool :=
  if negb (high_limbs_zero WIDTH a) then false
  else if negb (a.[1%nat] =? Z.shiftr b 32) then false
  else if negb (a.[0%nat] =? Z.land b 0xffffffff) then false
  else true.

(** [bits()]: the inner loop from [nbits = n] down to [1] in limb [x]. *)
Fixpoint limb_bits (n : nat) (x : Z) : Z :=
  match n with
  | O => 1
  | S n' => if negb (Z.land x (u32 (Z.shiftl 1 (Z.of_nat n))) =? 0)
            then Z.of_nat n + 1 else limb_bits n' x
  end.
Fixpoint bits_loop (n : nat) (a : base_uint) : Z :=
  match n with
  | O => 0
  | S pos => if negb (a.[pos] =? 0)
             then 32 * Z.of_nat pos + limb_bits 31 a.[pos]
             else bits_loop pos a
  end.
Definition base_uint_bits (a : base_uint) : Z := bits_loop WIDTH a.

(** [operator/=]: [n = shift + 1] rounds of the [while (shift >= 0)] loop;
    [None] is the [uint_error] exception. *)
Fixpoint div_loop (n : nat) (num div pn : base_uint) : base_uint :=
  match n with
  | O => pn
  | S shift =>
      let '(num, pn) :=
        if base_uint_ge num div
        then (base_uint_sub num div,
              let j := (shift / 32)%nat in
              <[j := Z.lor pn.[j] (u32 (Z.shiftl 1 (Z.land (Z.of_nat shift) 31)))]> pn)
        else (num, pn) in
      div_loop shift num (base_uint_shr div 1) pn
  end.
Definition base_uint_div (a b : base_uint) : option base_uint :=
  let num_bits := base_uint_bits a in
  let div_bits := base_uint_bits b in
  if div_bits =? 0 then None
  else if div_bits >? num_bits then Some (of_uint64 0)
  else
    let shift := num_bits - div_bits in
    Some (div_loop (Z.to_nat (shift + 1)) a (base_uint_shl b shift) (of_uint64 0)).

(** [GetLow64()] *)
Definition GetLow64 (a : base_uint) : Z := Z.lor a.[0%nat] (u64 (Z.shiftl a.[1%nat] 32)).

End Operations.

(** The number a limb array denotes, and the arrays of a given width. *)
Definition to_Z (a : base_uint) : Z := digits (2 ^ 32) a.
Definition uint_ok (WIDTH : nat) (a : base_uint) : Prop := length a = WIDTH /\ limbs_ok 32 a.

Arguments to_Z : simpl never.

#[export] Instance uint_ok_dec W a : Decision (uint_ok W a).
Proof. unfold uint_ok. apply _. Defined.

(** ** Correctness *)

Lemma to_Z_nil : to_Z [] = 0.
Proof. reflexivity. Qed.

Section Theory.
  Context (WIDTH : nat).
Local Notation ok := (uint_ok WIDTH).
Local Notation BITS := (32 * Z.of_nat WIDTH).

Lemma land_mask32 n : Z.land n 0xffffffff = n mod 2 ^ 32.
Proof. apply (Z.land_ones n 32). lia. Qed.

Lemma uint_ok_insert a i x : ok a -> fits 32 x -> ok (<[i:=x]> a).
Proof.
  intros [Hl Ha] Hx. split; [rewrite length_insert; assumption|]. apply Forall_insert; assumption.
Qed.

Lemma uint_ok_zero : ok (base_uint_zero WIDTH).
Proof.
  split; [apply length_replicate|]. apply Forall_replicate. split; [lia|auto with adonai].
Qed.

Lemma to_Z_zero : to_Z (base_uint_zero WIDTH) = 0.
Proof. apply digits_replicate_0. Qed.

Lemma to_Z_bound a : ok a -> 0 <= to_Z a < 2 ^ BITS.
Proof. intros [<- Ha]. apply digits_bound; [lia|assumption]. Qed.

Lemma to_Z_inj a b : ok a -> ok b -> to_Z a = to_Z b -> a = b.
Proof. intros [Ha ?] [Hb ?]. apply (digits_inj 32); auto; congruence || lia. Qed.

Lemma limb_range a i : ok a -> 0 <= a.[i] < 2 ^ 32.
Proof. intros [_ Ha]. apply nth_limb; [lia|assumption]. Qed.

Lemma to_Z_insert a i x :
  ok a -> (i < WIDTH)%nat ->
  to_Z (<[i:=x]> a) = to_Z a + (x - a.[i]) * 2 ^ (32 * Z.of_nat i).
Proof.
  intros [Hl _] Hi. unfold to_Z. rewrite digits_insert, Z.pow_mul_r by lia. done.
Qed.

Lemma to_Z_take_S a i :
  ok a -> (i < WIDTH)%nat ->
  to_Z (take (S i) a) = to_Z (take i a) + 2 ^ (32 * Z.of_nat i) * a.[i].
Proof.
  intros [Hl _] Hi. unfold to_Z. rewrite digits_take_S, Z.pow_mul_r by lia. done.
Qed.

Lemma to_Z_take_all a : ok a -> to_Z (take WIDTH a) = to_Z a.
Proof. intros [<- _]. rewrite firstn_all. done. Qed.

Lemma pow32_S i : 2 ^ (32 * Z.of_nat (S i)) = 2 ^ 32 * 2 ^ (32 * Z.of_nat i).
Proof. rewrite <- Z.pow_add_r by lia. f_equal. lia. Qed.

(** One limb of a carry chain: the limb and the carry split the 64-bit sum. *)
Lemma carry_split n : 0 <= n -> n = Z.land n 0xffffffff + 2 ^ 32 * Z.shiftr n 32.
Proof.
  intros Hn. rewrite land_mask32, Z.shiftr_div_pow2 by lia.
  rewrite (Z.div_mod n (2 ^ 32)) at 1 by lia. lia.
Qed.

Lemma carry_limb n : fits 32 (Z.land n 0xffffffff).
Proof. rewrite land_mask32. apply wrap_fits. lia. Qed.

Lemma carry_bound n c : 0 <= n < 2 ^ 32 * c -> 0 <= Z.shiftr n 32 < c.
Proof.
  intros Hn. rewrite Z.shiftr_div_pow2 by lia. split; [apply Z.div_pos; lia|].
  apply Z.div_lt_upper_bound; lia.
Qed.

(** A value in range that agrees up to a multiple of the modulus is the
    remainder. *)
Lemma mod_unique_mul a x q : ok a -> x = to_Z a + 2 ^ BITS * q -> to_Z a = x mod 2 ^ BITS.
Proof.
  intros Ha ->. pose proof (to_Z_bound a Ha).
  rewrite (Z.mul_comm _ q), Z_mod_plus_full. symmetry. apply Z.mod_small. assumption.
Qed.

Lemma add_spec_ok a b :
  ok a -> ok b ->
  ok (base_uint_add WIDTH a b) /\
  to_Z (base_uint_add WIDTH a b) = (to_Z a + to_Z b) mod 2 ^ BITS.
Proof.
  intros Ha Hb. unfold base_uint_add.
  set (P := fun i (st : list Z * Z) =>
    ok st.1 /\ 0 <= st.2 <= 1 /\ (forall j, (i <= j)%nat -> st.1.[j] = a.[j]) /\
    to_Z st.1 + 2 ^ (32 * Z.of_nat i) * st.2 = to_Z a + to_Z (take i b)).
  assert (HP : P WIDTH (for_up WIDTH (add_step b) (a, 0))).
  { apply for_up_ind.
    - split_and!; cbn -[Z.pow]; [assumption|lia|lia|done|].
      rewrite take_0, to_Z_nil. lia.
    - intros i [pn carry] Hi (Hok & Hc & Hrest & Hval). cbn -[Z.pow Z.land] in *.
      pose proof (limb_range pn i Hok). pose proof (limb_range b i Hb).
      rewrite wrap_small by (unfold fits; lia).
      set (n := carry + pn.[i] + b.[i]) in *.
      assert (Hn : 0 <= n < 2 ^ 32 * 2) by lia.
      pose proof (carry_bound n 2 Hn). pose proof (carry_split n ltac:(lia)) as Hs.
      split_and!; cbn -[Z.pow Z.land]; [|lia|lia| |].
      + apply uint_ok_insert; [assumption|apply carry_limb].
      + cbn -[Z.pow Z.land]. intros j Hj. rewrite nth_insert_ne by lia. apply Hrest. lia.
      + cbn -[Z.pow Z.land]. rewrite to_Z_insert, to_Z_take_S, pow32_S by assumption. nia. }
  destruct (for_up WIDTH (add_step b) (a, 0)) as [r c].
  destruct HP as (Hok & Hc & _ & Hval); cbn -[Z.pow] in *.
  split; [assumption|]. apply (mod_unique_mul _ _ c); [assumption|].
  rewrite to_Z_take_all in Hval by assumption. lia.
Qed.

(** [cong x y]: [x] and [y] agree modulo [2^BITS]. *)
Definition cong (x y : Z) : Prop := exists q, x = y + 2 ^ BITS * q.

Lemma cong_mod x a : ok a -> cong x (to_Z a) -> to_Z a = x mod 2 ^ BITS.
Proof. intros Ha [q ->]. eapply mod_unique_mul; eauto. Qed.

Lemma incr_loop_spec n i pn :
  (n + i = WIDTH)%nat -> ok pn ->
  ok (incr_loop n i pn) /\ cong (to_Z pn + 2 ^ (32 * Z.of_nat i)) (to_Z (incr_loop n i pn)).
Proof.
  revert i pn. induction n as [|n IH]; intros i pn Hn Hok; cbn -[Z.pow Z.of_nat].
  - split; [assumption|]. exists 1. replace i with WIDTH by lia. lia.
  - pose proof (limb_range pn i Hok). assert (Hlen : (i < length pn)%nat) by (destruct Hok; lia).
    rewrite nth_insert_eq by assumption.
    assert (Hins : ok (<[i:=u32 (pn.[i] + 1)]> pn)).
    { apply uint_ok_insert; auto with adonai. }
    case_bool.
    + destruct (IH (S i) (<[i:=u32 (pn.[i] + 1)]> pn) ltac:(lia) Hins) as [Hok' [q Hq]].
      split; [assumption|]. exists q. rewrite <- Hq, to_Z_insert, pow32_S by (auto; lia).
      assert (pn.[i] = 2 ^ 32 - 1) by wrap_lia.
      replace (u32 (pn.[i] + 1)) with 0 by lia. nia.
    + split; [assumption|]. exists 0. rewrite to_Z_insert by (auto; lia).
      rewrite wrap_small; [nia|]. wrap_lia.
Qed.

Lemma decr_loop_spec n i pn :
  (n + i = WIDTH)%nat -> ok pn ->
  ok (decr_loop n i pn) /\ cong (to_Z pn - 2 ^ (32 * Z.of_nat i)) (to_Z (decr_loop n i pn)).
Proof.
  revert i pn. induction n as [|n IH]; intros i pn Hn Hok; cbn -[Z.pow Z.of_nat Z.sub].
  - split; [assumption|]. exists (-1). replace i with WIDTH by lia. lia.
  - pose proof (limb_range pn i Hok). assert (Hlen : (i < length pn)%nat) by (destruct Hok; lia).
    rewrite nth_insert_eq by assumption.
    assert (Hins : ok (<[i:=u32 (pn.[i] - 1)]> pn)).
    { apply uint_ok_insert; auto with adonai. }
    case_bool.
    + destruct (IH (S i) (<[i:=u32 (pn.[i] - 1)]> pn) ltac:(lia) Hins) as [Hok' [q Hq]].
      split; [assumption|]. exists q. rewrite <- Hq, to_Z_insert, pow32_S by (auto; lia).
      assert (pn.[i] = 0) by wrap_lia.
      replace (u32 (pn.[i] - 1)) with (2 ^ 32 - 1) by lia. nia.
    + split; [assumption|]. exists 0. rewrite to_Z_insert by (auto; lia).
      rewrite wrap_small; [nia|]. wrap_lia.
Qed.

Lemma not_limb x : 0 <= x < 2 ^ 32 -> u32 (Z.lnot x) = 2 ^ 32 - 1 - x.
Proof.
  intros Hx. unfold wrap. replace (Z.lnot x) with ((2 ^ 32 - 1 - x) + (-1) * 2 ^ 32).
  - rewrite Z_mod_plus_full. apply Z.mod_small. lia.
  - unfold Z.lnot. lia.
Qed.

Lemma not_spec a :
  ok a -> ok (base_uint_not WIDTH a) /\ to_Z (base_uint_not WIDTH a) = 2 ^ BITS - 1 - to_Z a.
Proof.
  intros Ha. unfold base_uint_not.
  set (P := fun i (r : list Z) =>
    ok r /\ (forall j, (i <= j < WIDTH)%nat -> r.[j] = 0) /\
    to_Z r = 2 ^ (32 * Z.of_nat i) - 1 - to_Z (take i a)).
  enough (HP : P WIDTH (for_up WIDTH (fun i ret => <[i := u32 (Z.lnot a.[i])]> ret)
                          (base_uint_zero WIDTH))).
  { destruct HP as (Hok & _ & ->). rewrite to_Z_take_all by assumption. auto. }
  apply for_up_ind.
  - split_and!; [apply uint_ok_zero| |rewrite to_Z_zero, take_0, to_Z_nil; done].
    intros j Hj. unfold base_uint_zero. rewrite nth_lookup, lookup_replicate_2 by lia. done.
  - intros i r Hi (Hok & Hz & Hval). pose proof (limb_range a i Ha).
    split_and!.
    + apply uint_ok_insert; auto with adonai.
    + intros j Hj. rewrite nth_insert_ne by lia. apply Hz. lia.
    + rewrite to_Z_insert, Hval, not_limb, to_Z_take_S, pow32_S, Hz by (auto; lia). nia.
Qed.

Lemma neg_spec a :
  ok a -> ok (base_uint_neg WIDTH a) /\ cong (- to_Z a) (to_Z (base_uint_neg WIDTH a)).
Proof.
  intros Ha. destruct (not_spec a Ha) as [Hn Hv].
  destruct (incr_loop_spec WIDTH 0 (base_uint_not WIDTH a) ltac:(lia) Hn) as [Hok [q Hq]].
  split; [exact Hok|]. exists (q - 1). fold (base_uint_incr WIDTH (base_uint_not WIDTH a)) in Hq.
  fold (base_uint_neg WIDTH a) in Hq. rewrite Hv in Hq. cbn -[Z.pow Z.mul] in Hq. nia.
Qed.

Lemma sub_spec a b :
  ok a -> ok b ->
  ok (base_uint_sub WIDTH a b) /\
  to_Z (base_uint_sub WIDTH a b) = (to_Z a - to_Z b) mod 2 ^ BITS.
Proof.
  intros Ha Hb. destruct (neg_spec b Hb) as [Hn [q Hq]].
  destruct (add_spec_ok a _ Ha Hn) as [Hok Hv]. split; [exact Hok|].
  unfold base_uint_sub. rewrite Hv.
  replace (to_Z a - to_Z b) with (to_Z a + to_Z (base_uint_neg WIDTH b) + q * 2 ^ BITS) by lia.
  rewrite Z_mod_plus_full. done.
Qed.

Lemma mul32_spec a b :
  ok a -> fits 32 b ->
  ok (base_uint_mul32 WIDTH a b) /\
  to_Z (base_uint_mul32 WIDTH a b) = (to_Z a * b) mod 2 ^ BITS.
Proof.
  intros Ha Hb. unfold base_uint_mul32.
  set (P := fun i (st : list Z * Z) =>
    ok st.1 /\ 0 <= st.2 < 2 ^ 32 /\ (forall j, (i <= j)%nat -> st.1.[j] = a.[j]) /\
    to_Z st.1 + 2 ^ (32 * Z.of_nat i) * st.2 = to_Z a + (b - 1) * to_Z (take i a)).
  assert (HP : P WIDTH (for_up WIDTH (mul32_step b) (a, 0))).
  { apply for_up_ind.
    - split_and!; cbn -[Z.pow]; [assumption|lia|lia|done|].
      rewrite take_0, to_Z_nil. lia.
    - intros i [pn carry] Hi (Hok & Hc & Hrest & Hval). cbn -[Z.pow Z.land] in *.
      pose proof (limb_range pn i Hok). unfold fits in Hb.
      rewrite (wrap_small 64 (b * _)) by (unfold fits; nia).
      rewrite wrap_small by (unfold fits; nia).
      set (n := carry + b * pn.[i]) in *.
      assert (Hn : 0 <= n < 2 ^ 32 * 2 ^ 32) by nia.
      pose proof (carry_bound n _ Hn). pose proof (carry_split n ltac:(lia)) as Hs.
      split_and!; cbn -[Z.pow Z.land]; [|lia|lia| |].
      + apply uint_ok_insert; [assumption|apply carry_limb].
      + intros j Hj. rewrite nth_insert_ne by lia. apply Hrest. lia.
      + rewrite to_Z_insert, to_Z_take_S, pow32_S by assumption.
        rewrite <- (Hrest i) by lia. nia. }
  destruct (for_up WIDTH (mul32_step b) (a, 0)) as [r c].
  destruct HP as (Hok & Hc & _ & Hval); cbn -[Z.pow] in *.
  split; [assumption|]. apply (mod_unique_mul _ _ c); [assumption|].
  rewrite to_Z_take_all in Hval by assumption. lia.
Qed.

Lemma to_Z_take_bound a i : ok a -> (i <= WIDTH)%nat -> 0 <= to_Z (take i a) < 2 ^ (32 * Z.of_nat i).
Proof.
  intros [Hl Ha] Hi.
  pose proof (digits_bound 32 (take i a) ltac:(lia) (Forall_take _ _ _ Ha)) as H.
  rewrite length_take, Nat.min_l in H by lia. exact H.
Qed.

(** A value is its low [i] limbs plus a multiple of [2^(32 i)]. *)
Lemma to_Z_split a i : exists q, to_Z a = to_Z (take i a) + 2 ^ (32 * Z.of_nat i) * q \/ (length a < i)%nat.
Proof.
  exists (to_Z (drop i a)). destruct (decide (i <= length a)%nat); [left|right; lia].
  rewrite <- (take_drop i a) at 1. unfold to_Z. rewrite digits_app, length_take, Nat.min_l by lia.
  rewrite Z.pow_mul_r by lia. done.
Qed.

Lemma mul_row_spec pn b j a :
  ok pn -> ok b -> ok a -> (j < WIDTH)%nat ->
  ok (mul_row WIDTH pn b j a) /\
  cong (to_Z a + pn.[j] * to_Z b * 2 ^ (32 * Z.of_nat j)) (to_Z (mul_row WIDTH pn b j a)).
Proof.
  intros Hpn Hb Ha Hj. unfold mul_row. pose proof (limb_range pn j Hpn) as Hx.
  set (x := pn.[j]) in *.
  set (P := fun i (st : list Z * Z) =>
    ok st.1 /\ 0 <= st.2 < 2 ^ 32 /\
    to_Z st.1 + 2 ^ (32 * Z.of_nat (i + j)) * st.2 =
      to_Z a + x * to_Z (take i b) * 2 ^ (32 * Z.of_nat j)).
  assert (HP : P (WIDTH - j)%nat (for_up (WIDTH - j) (mul_step x b j) (a, 0))).
  { apply for_up_ind.
    - split_and!; cbn -[Z.pow Z.mul]; [assumption|lia|lia|]. rewrite take_0, to_Z_nil. lia.
    - intros i [r carry] Hi (Hok & Hc & Hval). cbn -[Z.pow Z.land Z.mul] in *.
      pose proof (limb_range r (i + j) Hok). pose proof (limb_range b i Hb).
      rewrite (wrap_small 64 (x * _)) by (unfold fits; nia).
      rewrite wrap_small by (unfold fits; nia).
      set (n := carry + r.[(i + j)%nat] + x * b.[i]) in *.
      assert (Hn : 0 <= n < 2 ^ 32 * 2 ^ 32) by nia.
      pose proof (carry_bound n _ Hn). pose proof (carry_split n ltac:(lia)) as Hs.
      split_and!; cbn -[Z.pow Z.land Z.mul]; [|lia|lia|].
      + apply uint_ok_insert; [assumption|apply carry_limb].
      + rewrite to_Z_insert, to_Z_take_S by (auto; lia).
        change (S (i + j)) with (S (i + j))%nat. rewrite pow32_S.
        replace (2 ^ (32 * Z.of_nat (i + j))) with (2 ^ (32 * Z.of_nat i) * 2 ^ (32 * Z.of_nat j)) in *
          by (rewrite <- Z.pow_add_r by lia; f_equal; lia).
        nia. }
  destruct (for_up (WIDTH - j) (mul_step x b j) (a, 0)) as [r c].
  destruct HP as (Hok & Hc & Hval); cbn -[Z.pow Z.mul] in *. split; [assumption|].
  destruct (to_Z_split b (WIDTH - j)) as [q [Hq|Hq]]; [|destruct Hb; lia].
  exists (c + x * q). rewrite Hq. replace (WIDTH - j + j)%nat with WIDTH in Hval by lia.
  replace (2 ^ BITS) with (2 ^ (32 * Z.of_nat (WIDTH - j)) * 2 ^ (32 * Z.of_nat j)) in *
    by (rewrite <- Z.pow_add_r by lia; f_equal; lia).
  nia.
Qed.

Lemma mul_spec a b :
  ok a -> ok b ->
  ok (base_uint_mul WIDTH a b) /\
  to_Z (base_uint_mul WIDTH a b) = (to_Z a * to_Z b) mod 2 ^ BITS.
Proof.
  intros Ha Hb. unfold base_uint_mul.
  set (P := fun j (r : list Z) => ok r /\ cong (to_Z (take j a) * to_Z b) (to_Z r)).
  assert (HP : P WIDTH (for_up WIDTH (mul_row WIDTH a b) (base_uint_zero WIDTH))).
  { apply for_up_ind.
    - split; [apply uint_ok_zero|]. exists 0. rewrite to_Z_zero, take_0, to_Z_nil. lia.
    - intros j r Hj [Hok [q Hq]].
      destruct (mul_row_spec a b j r Ha Hb Hok Hj) as [Hok' [q' Hq']].
      split; [assumption|]. exists (q + q'). rewrite to_Z_take_S by assumption. nia. }
  destruct HP as [Hok Hq]. split; [assumption|].
  rewrite to_Z_take_all in Hq by assumption. apply cong_mod; assumption.
Qed.

Lemma compare_loop_spec n a b :
  ok a -> ok b -> (n <= WIDTH)%nat ->
  compare_loop n a b = Z.sgn (to_Z (take n a) - to_Z (take n b)).
Proof.
  intros Ha Hb. induction n as [|n IH]; intros Hn; cbn [compare_loop]; [done|].
  rewrite !to_Z_take_S by (auto; lia).
  pose proof (to_Z_take_bound a n Ha ltac:(lia)). pose proof (to_Z_take_bound b n Hb ltac:(lia)).
  pose proof (limb_range a n Ha). pose proof (limb_range b n Hb).
  repeat case_bool.
  - rewrite Z.sgn_neg; nia.
  - rewrite Z.sgn_pos; nia.
  - rewrite IH by lia. f_equal. assert (a.[n] = b.[n]) as -> by lia. lia.
Qed.

Lemma CompareTo_spec a b : ok a -> ok b -> CompareTo WIDTH a b = Z.sgn (to_Z a - to_Z b).
Proof.
  intros Ha Hb. unfold CompareTo. rewrite compare_loop_spec, !to_Z_take_all by auto. done.
Qed.

Lemma gt_spec a b : ok a -> ok b -> base_uint_gt WIDTH a b = (to_Z a >? to_Z b).
Proof. intros. unfold base_uint_gt. rewrite CompareTo_spec by assumption. lia. Qed.
Lemma lt_spec a b : ok a -> ok b -> base_uint_lt WIDTH a b = (to_Z a <? to_Z b).
Proof. intros. unfold base_uint_lt. rewrite CompareTo_spec by assumption. lia. Qed.
Lemma ge_spec a b : ok a -> ok b -> base_uint_ge WIDTH a b = (to_Z a >=? to_Z b).
Proof. intros. unfold base_uint_ge. rewrite CompareTo_spec by assumption. lia. Qed.

(** *** Shifts *)

Lemma div_mod_32 n : 0 <= n -> n = 32 * (n / 32) + n mod 32 /\ 0 <= n mod 32 < 32 /\ 0 <= n / 32.
Proof.
  intros Hn. split_and!; [apply Z.div_mod; lia|apply Z.mod_pos_bound; lia..|apply Z.div_pos; lia].
Qed.

Definition shl_hi (a : list Z) (k s j : Z) : Z :=
  if (k + 1 <=? j) && negb (s =? 0) then Z.shiftr a.[Z.to_nat (j - k - 1)] (32 - s) else 0.
Definition shl_lo (a : list Z) (k s j : Z) : Z :=
  if k <=? j then u32 (Z.shiftl a.[Z.to_nat (j - k)] s) else 0.

Lemma zero_limb j : (j < WIDTH)%nat -> (base_uint_zero WIDTH).[j] = 0.
Proof. intros. unfold base_uint_zero. rewrite nth_lookup, lookup_replicate_2 by lia. done. Qed.

Lemma shl_step_limb a k s i (r : list Z) j :
  length r = WIDTH -> 0 <= k -> 0 <= j < Z.of_nat WIDTH ->
  (shl_step WIDTH a k s i r).[Z.to_nat j] =
    Z.lor (Z.lor r.[Z.to_nat j] (if j - k - 1 =? Z.of_nat i then shl_hi a k s j else 0))
          (if j - k =? Z.of_nat i then shl_lo a k s j else 0).
Proof.
  intros Hl Hk Hj. unfold shl_step, shl_hi, shl_lo.
  assert (Hlen : forall x y, length (<[x:=y]> r) = WIDTH) by (intros; rewrite length_insert; done).
  destruct (j - k - 1 =? Z.of_nat i) eqn:E1; destruct (j - k =? Z.of_nat i) eqn:E2; bool_to_prop;
    try lia.
  - replace (Z.of_nat i + k + 1) with j by lia. replace (k + 1 <=? j) with true by lia.
    replace (j - k - 1) with (Z.of_nat i) by lia. rewrite Nat2Z.id, Z.lor_0_r.
    replace (j <? Z.of_nat WIDTH) with true by lia. cbn [andb].
    destruct (s =? 0); cbn [negb];
      case_bool; rewrite ?(nth_insert_ne _ (Z.to_nat (Z.of_nat i + k))) by lia;
      rewrite ?nth_insert_eq, ?Z.lor_0_r by lia; done.
  - replace (Z.of_nat i + k) with j by lia. replace (k <=? j) with true by lia.
    replace (j - k) with (Z.of_nat i) by lia. rewrite Nat2Z.id, Z.lor_0_r.
    replace (j <? Z.of_nat WIDTH) with true by lia.
    case_bool.
    + rewrite nth_insert_eq by (rewrite Hlen; lia). rewrite nth_insert_ne by lia. done.
    + rewrite nth_insert_eq by lia. done.
  - rewrite !Z.lor_0_r.
    repeat case_bool; rewrite ?nth_insert_ne by lia; done.
Qed.

Lemma shl_step_ok a k s i r : ok a -> ok r -> 0 <= s < 32 -> ok (shl_step WIDTH a k s i r).
Proof.
  intros Ha Hr Hs. unfold shl_step. pose proof (limb_range a i Ha).
  assert (Hor : forall r j x, ok r -> fits 32 x -> ok (<[j:=Z.lor r.[j] x]> r)).
  { intros r' j x Hr' Hx. apply uint_ok_insert; [assumption|].
    apply lor_fits; [lia|apply (limb_range _ _ Hr')|assumption]. }
  repeat case_bool; repeat apply Hor; auto with adonai; apply shiftr_fits; try lia; auto.
Qed.

Lemma shl_limbs a shift :
  ok a -> 0 <= shift ->
  ok (base_uint_shl WIDTH a shift) /\
  forall j, 0 <= j < Z.of_nat WIDTH ->
    (base_uint_shl WIDTH a shift).[Z.to_nat j] =
      Z.lor (shl_hi a (shift / 32) (shift mod 32) j) (shl_lo a (shift / 32) (shift mod 32) j).
Proof.
  intros Ha Hs. unfold base_uint_shl.
  set (k := shift / 32). set (s := shift mod 32).
  destruct (div_mod_32 shift Hs) as (_ & Hs32 & Hk). fold s k in Hs32, Hk.
  set (P := fun n (r : list Z) => ok r /\ forall j, 0 <= j < Z.of_nat WIDTH ->
    r.[Z.to_nat j] = Z.lor (if j - k - 1 <? Z.of_nat n then shl_hi a k s j else 0)
                           (if j - k <? Z.of_nat n then shl_lo a k s j else 0)).
  assert (HP : P WIDTH (for_up WIDTH (shl_step WIDTH a k s) (base_uint_zero WIDTH))).
  { apply for_up_ind.
    - split; [apply uint_ok_zero|]. intros j Hj. rewrite zero_limb by lia.
      unfold shl_hi, shl_lo. repeat case_bool; try lia; done.
    - intros n r Hn [Hok Hr]. split; [apply shl_step_ok; auto|].
      intros j Hj. rewrite shl_step_limb, Hr by (try lia; apply Hok).
      rewrite <- !Z.lor_assoc. rewrite (Z.lor_comm (if j - k <? _ then _ else _)).
      rewrite !Z.lor_assoc.
      repeat case_bool; try lia; rewrite ?Z.lor_0_r, ?Z.lor_0_l, ?Z.lor_diag; try done.
      }
  destruct HP as [Hok Hr]. split; [assumption|]. intros j Hj. rewrite Hr by assumption.
  replace (j - k - 1 <? Z.of_nat WIDTH) with true by lia.
  replace (j - k <? Z.of_nat WIDTH) with true by lia. done.
Qed.

Lemma testbit_to_Z a n :
  ok a -> 0 <= n -> Z.testbit (to_Z a) n = Z.testbit a.[Z.to_nat (n / 32)] (n mod 32).
Proof. intros [_ Ha] Hn. apply testbit_digits; auto; lia. Qed.

Lemma testbit_limb_high a i n : ok a -> 32 <= n -> Z.testbit a.[i] n = false.
Proof. intros Ha Hn. apply (testbit_fits 32); [apply (limb_range a i Ha)|lia]. Qed.

Lemma shl_spec a shift :
  ok a -> 0 <= shift ->
  ok (base_uint_shl WIDTH a shift) /\
  to_Z (base_uint_shl WIDTH a shift) = (to_Z a * 2 ^ shift) mod 2 ^ BITS.
Proof.
  intros Ha Hs. destruct (shl_limbs a shift Ha Hs) as [Hok Hl]. split; [assumption|].
  apply Z.bits_inj'. intros n Hn.
  destruct (Z.lt_ge_cases n BITS) as [Hlt|Hge].
  2:{ rewrite Z.mod_pow2_bits_high by lia.
      apply (testbit_fits BITS); [apply to_Z_bound; assumption|lia]. }
  rewrite Z.mod_pow2_bits_low, <- Z.shiftl_mul_pow2, Z.shiftl_spec, testbit_to_Z by auto.
  rewrite Hl by (split; [apply Z.div_pos; lia|apply Z.div_lt_upper_bound; lia]).
  set (k := shift / 32). set (s := shift mod 32). set (j := n / 32). set (b := n mod 32).
  destruct (div_mod_32 shift Hs : shift = 32 * k + s /\ _) as (Hsh & Hs32 & Hk).
  destruct (div_mod_32 n Hn : n = 32 * j + b /\ _) as (Hn' & Hb & _).
  fold s k in Hs32, Hk. fold b in Hb.
  rewrite Z.lor_spec. unfold shl_hi, shl_lo.
  destruct (Z.lt_ge_cases b s) as [Hbs|Hbs].
  - (* the bit comes from the limb below *)
    replace (Z.testbit (if k <=? j then _ else 0) b) with false.
    2:{ case_bool; [|rewrite Z.testbit_0_l; done]. unfold wrap.
        rewrite Z.mod_pow2_bits_low, Z.shiftl_spec_low by lia. done. }
    rewrite orb_false_r. replace (s =? 0) with false by lia. cbn [negb]. rewrite andb_true_r.
    case_bool.
    + rewrite Z.shiftr_spec by lia. rewrite testbit_to_Z by (auto; lia).
      replace (n - shift) with ((b + (32 - s)) + (j - k - 1) * 32) by lia.
      rewrite Z.div_add, Z.mod_add, Z.div_small, (Z.mod_small (b + _)) by lia. done.
    + rewrite Z.testbit_0_l, Z.testbit_neg_r by lia. done.
  - replace (Z.testbit (if (k + 1 <=? j) && _ then _ else 0) b) with false.
    2:{ case_bool; [|rewrite Z.testbit_0_l; done].
        rewrite Z.shiftr_spec, testbit_limb_high by (auto; lia). done. }
    cbn [orb]. case_bool.
    + unfold wrap. rewrite Z.mod_pow2_bits_low, Z.shiftl_spec, testbit_to_Z by (auto; lia).
      replace (n - shift) with ((b - s) + (j - k) * 32) by lia.
      rewrite Z.div_add, Z.mod_add, Z.div_small, (Z.mod_small (b - s)) by lia. done.
    + rewrite Z.testbit_0_l, Z.testbit_neg_r by lia. done.
Qed.

Definition shr_hi (a : list Z) (k s j : Z) : Z :=
  if negb (s =? 0) then u32 (Z.shiftl a.[Z.to_nat (j + k + 1)] (32 - s)) else 0.
Definition shr_lo (a : list Z) (k s j : Z) : Z := Z.shiftr a.[Z.to_nat (j + k)] s.

Lemma shr_step_limb a k s i (r : list Z) j :
  length r = WIDTH -> 0 <= k -> 0 <= j < Z.of_nat WIDTH -> (i < WIDTH)%nat ->
  (shr_step a k s i r).[Z.to_nat j] =
    Z.lor (Z.lor r.[Z.to_nat j] (if j + k + 1 =? Z.of_nat i then shr_hi a k s j else 0))
          (if j + k =? Z.of_nat i then shr_lo a k s j else 0).
Proof.
  intros Hl Hk Hj Hi. unfold shr_step, shr_hi, shr_lo.
  assert (Hlen : forall x y, length (<[x:=y]> r) = WIDTH) by (intros; rewrite length_insert; done).
  destruct (j + k + 1 =? Z.of_nat i) eqn:E1; destruct (j + k =? Z.of_nat i) eqn:E2; bool_to_prop;
    try lia.
  - replace (Z.of_nat i - k - 1) with j by lia. replace (j + k + 1) with (Z.of_nat i) by lia.
    rewrite Nat2Z.id, Z.lor_0_r. replace (j >=? 0) with true by lia. cbn [andb].
    destruct (s =? 0); cbn [negb];
      case_bool; rewrite ?(nth_insert_ne _ (Z.to_nat (Z.of_nat i - k))) by lia;
      rewrite ?nth_insert_eq, ?Z.lor_0_r by lia; done.
  - replace (Z.of_nat i - k) with j by lia. replace (j + k) with (Z.of_nat i) by lia.
    rewrite Nat2Z.id, Z.lor_0_r. replace (j >=? 0) with true by lia.
    case_bool.
    + rewrite nth_insert_eq by (rewrite Hlen; lia). rewrite nth_insert_ne by lia. done.
    + rewrite nth_insert_eq by lia. done.
  - rewrite !Z.lor_0_r.
    repeat case_bool; rewrite ?nth_insert_ne by lia; done.
Qed.

Lemma shr_step_ok a k s i r : ok a -> ok r -> 0 <= s < 32 -> ok (shr_step a k s i r).
Proof.
  intros Ha Hr Hs. unfold shr_step. pose proof (limb_range a i Ha).
  assert (Hor : forall r j x, ok r -> fits 32 x -> ok (<[j:=Z.lor r.[j] x]> r)).
  { intros r' j x Hr' Hx. apply uint_ok_insert; [assumption|].
    apply lor_fits; [lia|apply (limb_range _ _ Hr')|assumption]. }
  repeat case_bool; repeat apply Hor; auto with adonai; apply shiftr_fits; try lia; auto.
Qed.

Lemma nth_beyond a j : ok a -> (WIDTH <= j)%nat -> a.[j] = 0.
Proof. intros [Hl _] Hj. apply nth_overflow. lia. Qed.

Lemma shr_limbs a shift :
  ok a -> 0 <= shift ->
  ok (base_uint_shr WIDTH a shift) /\
  forall j, 0 <= j < Z.of_nat WIDTH ->
    (base_uint_shr WIDTH a shift).[Z.to_nat j] =
      Z.lor (shr_hi a (shift / 32) (shift mod 32) j) (shr_lo a (shift / 32) (shift mod 32) j).
Proof.
  intros Ha Hs. unfold base_uint_shr.
  set (k := shift / 32). set (s := shift mod 32).
  destruct (div_mod_32 shift Hs) as (_ & Hs32 & Hk). fold s k in Hs32, Hk.
  set (P := fun n (r : list Z) => ok r /\ forall j, 0 <= j < Z.of_nat WIDTH ->
    r.[Z.to_nat j] = Z.lor (if j + k + 1 <? Z.of_nat n then shr_hi a k s j else 0)
                           (if j + k <? Z.of_nat n then shr_lo a k s j else 0)).
  assert (HP : P WIDTH (for_up WIDTH (shr_step a k s) (base_uint_zero WIDTH))).
  { apply for_up_ind.
    - split; [apply uint_ok_zero|]. intros j Hj. rewrite zero_limb by lia.
      repeat case_bool; try lia; done.
    - intros n r Hn [Hok Hr]. split; [apply shr_step_ok; auto|].
      intros j Hj. rewrite shr_step_limb, Hr by (try lia; apply Hok).
      rewrite <- !Z.lor_assoc. rewrite (Z.lor_comm (if j + k <? _ then _ else _)).
      rewrite !Z.lor_assoc.
      repeat case_bool; try lia; rewrite ?Z.lor_0_r, ?Z.lor_0_l, ?Z.lor_diag; done. }
  destruct HP as [Hok Hr]. split; [assumption|]. intros j Hj. rewrite Hr by assumption.
  unfold shr_hi, shr_lo. repeat case_bool; rewrite ?Z.lor_0_r, ?Z.lor_0_l; try done;
    rewrite ?(nth_beyond a (Z.to_nat (j + k + 1))), ?(nth_beyond a (Z.to_nat (j + k))) by (auto; lia);
    rewrite ?Z.shiftl_0_l, ?Z.shiftr_0_l; unfold wrap; rewrite ?Z.mod_0_l, ?Z.lor_0_r, ?Z.lor_0_l by lia;
    done.
Qed.

Lemma shr_spec a shift :
  ok a -> 0 <= shift ->
  ok (base_uint_shr WIDTH a shift) /\ to_Z (base_uint_shr WIDTH a shift) = to_Z a / 2 ^ shift.
Proof.
  intros Ha Hs. destruct (shr_limbs a shift Ha Hs) as [Hok Hl]. split; [assumption|].
  rewrite <- Z.shiftr_div_pow2 by lia.
  apply Z.bits_inj'. intros n Hn. rewrite Z.shiftr_spec by lia.
  destruct (Z.lt_ge_cases n BITS) as [Hlt|Hge].
  2:{ rewrite !(testbit_fits BITS) by (try lia; apply to_Z_bound; assumption). done. }
  rewrite !testbit_to_Z by (auto; lia).
  rewrite Hl by (split; [apply Z.div_pos; lia|apply Z.div_lt_upper_bound; lia]).
  set (k := shift / 32). set (s := shift mod 32). set (j := n / 32). set (b := n mod 32).
  destruct (div_mod_32 shift Hs : shift = 32 * k + s /\ _) as (Hsh & Hs32 & Hk).
  destruct (div_mod_32 n Hn : n = 32 * j + b /\ _) as (Hn' & Hb & _).
  fold s k in Hs32, Hk. fold b in Hb.
  rewrite Z.lor_spec. unfold shr_hi, shr_lo. rewrite Z.shiftr_spec by lia.
  destruct (Z.lt_ge_cases (b + s) 32) as [Hbs|Hbs].
  - replace (Z.testbit (if negb _ then _ else 0) b) with false.
    2:{ case_bool; [|rewrite Z.testbit_0_l; done]. unfold wrap.
        rewrite Z.mod_pow2_bits_low, Z.shiftl_spec_low by lia. done. }
    cbn [orb]. replace (n + shift) with ((b + s) + (j + k) * 32) by lia.
    rewrite Z.div_add, Z.mod_add, Z.div_small, (Z.mod_small (b + s)) by lia. done.
  - rewrite (testbit_limb_high a _ (b + s)), orb_false_r by (auto; lia).
    replace (s =? 0) with false by lia. cbn [negb]. unfold wrap.
    rewrite Z.mod_pow2_bits_low, Z.shiftl_spec by lia.
    replace (n + shift) with ((b - (32 - s)) + (j + k + 1) * 32) by lia.
    rewrite Z.div_add, Z.mod_add, Z.div_small, (Z.mod_small (b - _)) by lia. done.
Qed.

(** *** Bit length and division *)

(** The position of the highest set bit plus one. *)
Definition bit_length (z : Z) : Z := if z =? 0 then 0 else Z.log2 z + 1.

Lemma bit_length_bounds z : 0 < z -> 2 ^ (bit_length z - 1) <= z < 2 ^ bit_length z.
Proof.
  intros Hz. unfold bit_length. replace (z =? 0) with false by lia.
  replace (Z.log2 z + 1 - 1) with (Z.log2 z) by lia. apply Z.log2_spec. assumption.
Qed.

Lemma bit_length_unique z n : 0 < n -> 2 ^ (n - 1) <= z < 2 ^ n -> bit_length z = n.
Proof.
  intros Hn Hz. pose proof (pow2_pos (n - 1) ltac:(lia)).
  unfold bit_length. replace (z =? 0) with false by lia.
  rewrite (Z.log2_unique z (n - 1)); [lia|lia|]. replace (Z.succ (n - 1)) with n by lia. lia.
Qed.

Lemma land_bit_eqb x n : 0 <= n -> (Z.land x (Z.shiftl 1 n) =? 0) = negb (Z.testbit x n).
Proof.
  intros Hn. destruct (Z.testbit x n) eqn:E; cbn [negb].
  - apply Z.eqb_neq. intros H0. apply (f_equal (fun z => Z.testbit z n)) in H0.
    rewrite Z.land_spec, Z.shiftl_spec, Z.sub_diag, E, Z.testbit_0_l in H0 by lia. discriminate.
  - apply Z.eqb_eq. apply Z.bits_inj'. intros m Hm.
    rewrite Z.land_spec, Z.testbit_0_l, Z.shiftl_1_l, Z.pow2_bits_eqb by lia.
    destruct (n =? m) eqn:Em; bool_to_prop; [subst m; rewrite E; done|apply andb_false_r].
Qed.

Lemma limb_bits_spec n x :
  (n <= 31)%nat -> 0 < x < 2 ^ Z.of_nat (S n) -> limb_bits n x = bit_length x.
Proof.
  induction n as [|n IH]; intros Hn Hx.
  - assert (x = 1) as -> by (cbn in Hx; lia). reflexivity.
  - cbn [limb_bits]. rewrite wrap_small.
    2:{ rewrite Z.shiftl_1_l. split; [apply pow2_nonneg|apply Z.pow_lt_mono_r; lia]. }
    rewrite land_bit_eqb, negb_involutive by lia.
    destruct (Z.testbit x (Z.of_nat (S n))) eqn:E.
    + symmetry. apply bit_length_unique; [lia|].
      replace (Z.of_nat (S n) + 1 - 1) with (Z.of_nat (S n)) by lia.
      replace (Z.of_nat (S n) + 1) with (Z.of_nat (S (S n))) by lia.
      split; [|lia]. destruct (Z.lt_ge_cases x (2 ^ Z.of_nat (S n))); [|lia].
      rewrite (testbit_fits (Z.of_nat (S n))) in E by (unfold fits; lia). discriminate.
    + apply IH; [lia|]. split; [lia|]. apply fits_testbit; [lia|lia|].
      intros m Hm. destruct (Z.eq_dec m (Z.of_nat (S n))) as [->|]; [assumption|].
      apply (testbit_fits (Z.of_nat (S (S n)))); unfold fits; lia.
Qed.

Lemma bits_loop_spec n a :
  ok a -> (n <= WIDTH)%nat -> bits_loop n a = bit_length (to_Z (take n a)).
Proof.
  intros Ha. induction n as [|n IH]; intros Hn; cbn [bits_loop]; [done|].
  rewrite to_Z_take_S by (auto; lia). pose proof (limb_range a n Ha).
  pose proof (to_Z_take_bound a n Ha ltac:(lia)) as Hlow.
  case_bool.
  - rewrite limb_bits_spec by (lia || (change (Z.of_nat 32) with 32; lia)).
    pose proof (bit_length_bounds a.[n] ltac:(lia)) as Hb.
    assert (0 < bit_length a.[n]).
    { unfold bit_length. pose proof (Z.log2_nonneg a.[n]). case_bool; lia. }
    symmetry. apply bit_length_unique; [lia|].
    replace (32 * Z.of_nat n + bit_length a.[n] - 1)
      with (32 * Z.of_nat n + (bit_length a.[n] - 1)) by lia.
    rewrite !Z.pow_add_r by lia. nia.
  - rewrite IH by lia. replace a.[n] with 0. f_equal. lia.
Qed.

Lemma bits_spec a : ok a -> base_uint_bits WIDTH a = bit_length (to_Z a).
Proof. intros Ha. unfold base_uint_bits. rewrite bits_loop_spec, to_Z_take_all; auto. Qed.

Lemma of_uint64_spec b :
  (2 <= WIDTH)%nat -> fits 64 b -> ok (of_uint64 WIDTH b) /\ to_Z (of_uint64 WIDTH b) = b.
Proof.
  intros HW Hb. unfold of_uint64.
  set (P := fun (i : nat) (r : list Z) => ok r /\ (forall j, (2 <= j < WIDTH)%nat -> r.[j] = 0) /\ to_Z r = b).
  enough (HP : P (WIDTH - 2)%nat (for_up (WIDTH - 2) (fun i pn => <[(i + 2)%nat := 0]> pn)
    (<[1%nat := u32 (Z.shiftr b 32)]> (<[0%nat := u32 b]> (base_uint_zero WIDTH))))).
  { destruct HP as (? & _ & ?). auto. }
  apply for_up_ind.
  - split_and!.
    + repeat apply uint_ok_insert; auto using uint_ok_zero with adonai.
    + intros j Hj. rewrite !nth_insert_ne by lia. apply zero_limb. lia.
    + rewrite !to_Z_insert, to_Z_zero, nth_insert_ne, !zero_limb
        by (try lia; repeat apply uint_ok_insert; auto using uint_ok_zero with adonai).
      rewrite (wrap_small 32 (Z.shiftr b 32)).
      2:{ rewrite Z.shiftr_div_pow2 by lia. split; [apply Z.div_pos; wrap_lia|].
          apply Z.div_lt_upper_bound; wrap_lia. }
      rewrite Z.shiftr_div_pow2 by lia. cbn -[Z.pow Z.mul Z.div].
      change (2 ^ (32 * 1)) with (2 ^ 32). change (2 ^ (32 * 0)) with 1. wrap_lia.
  - intros i r Hi (Hok & Hz & Hv). split_and!.
    + apply uint_ok_insert; [assumption|]. split; lia.
    + intros j Hj. destruct (decide (i + 2 = j)%nat) as [<-|].
      * rewrite nth_insert_eq; [done|]. destruct Hok; lia.
      * rewrite nth_insert_ne by lia. apply Hz. assumption.
    + rewrite to_Z_insert, Hz, Hv by (auto; lia). lia.
Qed.

Lemma set_bit_spec q shift :
  ok q -> (shift < 32 * WIDTH)%nat -> Z.testbit (to_Z q) (Z.of_nat shift) = false ->
  let j := (shift / 32)%nat in
  let q' := <[j := Z.lor q.[j] (u32 (Z.shiftl 1 (Z.land (Z.of_nat shift) 31)))]> q in
  ok q' /\ to_Z q' = to_Z q + 2 ^ Z.of_nat shift.
Proof.
  intros Hq Hs Hbit. cbv zeta.
  assert (Hj : (shift / 32 < WIDTH)%nat) by (apply Nat.Div0.div_lt_upper_bound; lia).
  replace (Z.land (Z.of_nat shift) 31) with (Z.of_nat shift mod 32)
    by (symmetry; apply (Z.land_ones (Z.of_nat shift) 5); lia).
  set (b := Z.of_nat shift mod 32).
  assert (Hb : 0 <= b < 32) by (apply Z.mod_pos_bound; lia).
  assert (Hsh : Z.of_nat shift = 32 * Z.of_nat (shift / 32) + b).
  { subst b. rewrite Nat2Z.inj_div. apply Z.div_mod. lia. }
  rewrite Z.shiftl_1_l. rewrite wrap_small.
  2:{ split; [apply pow2_nonneg|apply Z.pow_lt_mono_r; lia]. }
  rewrite testbit_to_Z in Hbit by (auto; lia).
  fold b in Hbit. replace (Z.to_nat (Z.of_nat shift / 32)) with (shift / 32)%nat in Hbit
    by (rewrite <- (Nat2Z.id (shift / 32)), Nat2Z.inj_div; done).
  assert (Hlor : Z.lor q.[(shift / 32)%nat] (2 ^ b) = q.[(shift / 32)%nat] + 2 ^ b).
  { pose proof (Z.add_lor_land q.[(shift / 32)%nat] (2 ^ b)) as E.
    pose proof (land_bit_eqb q.[(shift / 32)%nat] b ltac:(lia)) as L.
    rewrite Hbit, Z.shiftl_1_l in L. change (negb false) with true in L. bool_to_prop. lia. }
  split.
  - apply uint_ok_insert; [assumption|]. apply lor_fits; [lia|apply (limb_range _ _ Hq)|].
    split; [apply pow2_nonneg|apply Z.pow_lt_mono_r; lia].
  - rewrite to_Z_insert, Hlor by assumption. rewrite Hsh, Z.pow_add_r by lia. nia.
Qed.

Lemma div_loop_spec D n num div q :
  0 < D -> (n <= 32 * WIDTH)%nat -> ok num -> ok div -> ok q ->
  ((0 < n)%nat -> to_Z div = D * 2 ^ (Z.of_nat n - 1)) ->
  to_Z num < D * 2 ^ Z.of_nat n ->
  to_Z q mod 2 ^ Z.of_nat n = 0 ->
  ok (div_loop WIDTH n num div q) /\
  to_Z (div_loop WIDTH n num div q) = to_Z q + to_Z num / D.
Proof.
  intros HD. revert num div q.
  induction n as [|shift IH]; intros num div q Hn Hnum Hdiv Hq Hd Hlt Hmod; cbn [div_loop].
  - split; [assumption|]. rewrite Z.mul_1_r in Hlt.
    rewrite Z.div_small; [lia|]. split; [apply to_Z_bound; assumption|assumption].
  - specialize (Hd ltac:(lia)).
    replace (Z.of_nat (S shift) - 1) with (Z.of_nat shift) in Hd by lia.
    rewrite Nat2Z.inj_succ, Z.pow_succ_r in Hlt, Hmod by lia.
    destruct (shr_spec div 1 Hdiv ltac:(lia)) as [Hsok Hsv].
    pose proof (pow2_pos (Z.of_nat shift) ltac:(lia)) as Hpow.
    assert (Hd' : (0 < shift)%nat -> to_Z (base_uint_shr WIDTH div 1) = D * 2 ^ (Z.of_nat shift - 1)).
    { intros Hpos. rewrite Hsv, Hd. replace (Z.of_nat shift) with (Z.of_nat shift - 1 + 1) at 1 by lia.
      rewrite Z.pow_add_r, Z.mul_assoc by lia. apply Z.div_mul. lia. }
    assert (Hmod' : to_Z q mod 2 ^ Z.of_nat shift = 0).
    { rewrite (Z.mul_comm 2) in Hmod. rewrite Z.rem_mul_r in Hmod by lia.
      pose proof (Z.mod_pos_bound (to_Z q) (2 ^ Z.of_nat shift) Hpow).
      pose proof (Z.mod_pos_bound (to_Z q / 2 ^ Z.of_nat shift) 2 ltac:(lia)). nia. }
    rewrite ge_spec by assumption. case_bool.
    + destruct (sub_spec num div Hnum Hdiv) as [Hnok Hnv].
      rewrite Z.mod_small in Hnv.
      2:{ pose proof (to_Z_bound num Hnum). pose proof (to_Z_bound div Hdiv). lia. }
      destruct (set_bit_spec q shift Hq ltac:(lia)) as [Hqok Hqv].
      { rewrite Z.testbit_false by lia.
        rewrite (Z.mul_comm 2), Z.rem_mul_r in Hmod by lia. nia. }
      destruct (IH _ _ _ ltac:(lia) Hnok Hsok Hqok Hd') as [Hrok Hrv].
      { rewrite Hnv, Hd. nia. }
      { rewrite Hqv. rewrite Z.add_mod, Hmod', Z.mod_same by lia. apply Z.mod_0_l. lia. }
      split; [exact Hrok|]. cbv zeta in *. rewrite Hrv, Hqv, Hnv, Hd.
      replace (to_Z num) with (to_Z num - D * 2 ^ Z.of_nat shift + 2 ^ Z.of_nat shift * D) at 2 by lia.
      rewrite Z.div_add by lia. lia.
    + apply IH; auto; try lia.
Qed.

(** Division: an exception exactly on a zero divisor, the floor of the
    quotient otherwise. *)
Lemma div_spec a b :
  (2 <= WIDTH)%nat -> ok a -> ok b ->
  match base_uint_div WIDTH a b with
  | None => to_Z b = 0
  | Some q => to_Z b <> 0 /\ ok q /\ to_Z q = to_Z a / to_Z b
  end.
Proof.
  intros HW Ha Hb. unfold base_uint_div. rewrite !bits_spec by assumption.
  pose proof (to_Z_bound a Ha) as Ra. pose proof (to_Z_bound b Hb) as Rb.
  destruct (of_uint64_spec 0 HW ltac:(split; lia)) as [Hzok Hz].
  case_bool.
  { unfold bit_length in *. pose proof (Z.log2_nonneg (to_Z b)). case_bool; lia. }
  assert (Hbpos : 0 < to_Z b).
  { destruct (Z.eq_dec (to_Z b) 0) as [E|]; [|lia]. rewrite E in *. done. }
  pose proof (bit_length_bounds _ Hbpos) as Bb.
  case_bool.
  - split_and!; [lia|assumption|]. rewrite Hz, Z.div_small; [done|]. split; [lia|].
    destruct (Z.eq_dec (to_Z a) 0); [lia|].
    pose proof (bit_length_bounds (to_Z a) ltac:(lia)) as Ba.
    eapply Z.lt_le_trans; [apply Ba|]. eapply Z.le_trans; [|apply Bb].
    apply Z.pow_le_mono_r; lia.
  - assert (Hapos : 0 < to_Z a).
    { destruct (Z.eq_dec (to_Z a) 0) as [E|]; [|lia]. rewrite E in *.
      change (bit_length 0) with 0 in *. unfold bit_length in *.
      pose proof (Z.log2_nonneg (to_Z b)). repeat case_bool; lia. }
    pose proof (bit_length_bounds _ Hapos) as Ba.
    set (shift := bit_length (to_Z a) - bit_length (to_Z b)) in *.
    assert (Hnb : bit_length (to_Z a) <= BITS).
    { destruct (Z.le_gt_cases (bit_length (to_Z a)) BITS); [assumption|].
      assert (2 ^ BITS <= 2 ^ (bit_length (to_Z a) - 1)) by (apply Z.pow_le_mono_r; lia). lia. }
    assert (Hpb : 0 < bit_length (to_Z b)).
    { unfold bit_length. pose proof (Z.log2_nonneg (to_Z b)). case_bool; lia. }
    assert (Hsh : 2 ^ bit_length (to_Z a) = 2 ^ bit_length (to_Z b) * 2 ^ shift)
      by (rewrite <- Z.pow_add_r by lia; f_equal; lia).
    destruct (shl_spec b shift Hb ltac:(lia)) as [Hsok Hsv].
    rewrite Z.mod_small in Hsv.
    2:{ split; [pose proof (pow2_nonneg shift); nia|].
        eapply Z.lt_le_trans; [|apply (Z.pow_le_mono_r 2 _ _ ltac:(lia) Hnb)].
        pose proof (pow2_pos shift ltac:(lia)). nia. }
    destruct (div_loop_spec (to_Z b) (Z.to_nat (shift + 1)) a (base_uint_shl WIDTH b shift)
                (of_uint64 WIDTH 0)) as [Hrok Hrv]; auto; try lia.
    + rewrite Hsv. intros _. do 2 f_equal. lia.
    + rewrite Z2Nat.id by lia.
      replace (shift + 1) with (bit_length (to_Z a) - (bit_length (to_Z b) - 1)) by lia.
      eapply Z.lt_le_trans; [apply Ba|].
      replace (bit_length (to_Z a)) with
        (bit_length (to_Z b) - 1 + (bit_length (to_Z a) - (bit_length (to_Z b) - 1))) at 1 by lia.
      rewrite Z.pow_add_r by lia.
      apply Z.mul_le_mono_nonneg_r; [apply pow2_nonneg|apply Bb].
    + rewrite Hz. apply Z.mod_0_l. pose proof (pow2_pos (Z.of_nat (Z.to_nat (shift + 1)))). lia.
    + split_and!; [lia|exact Hrok|]. rewrite Hrv, Hz. lia.
Qed.

End Theory.

(** ** Properties *)

(** [base_uint] implements the ring of integers modulo [2^BITS], for
    every width: addition, subtraction, both multiplications and the
    increments return well-formed limb arrays whose value is the exact result
    reduced modulo [2^BITS]. *)
Theorem base_uint_ring (W : nat) (a b : base_uint) (b32 : Z)
    (Ha : uint_ok W a) (Hb : uint_ok W b) (Hb32 : fits 32 b32) :
  let M := 2 ^ (32 * Z.of_nat W) in
  (uint_ok W (base_uint_add W a b) /\ to_Z (base_uint_add W a b) = (to_Z a + to_Z b) mod M) /\
  (uint_ok W (base_uint_sub W a b) /\ to_Z (base_uint_sub W a b) = (to_Z a - to_Z b) mod M) /\
  (uint_ok W (base_uint_mul W a b) /\ to_Z (base_uint_mul W a b) = (to_Z a * to_Z b) mod M) /\
  (uint_ok W (base_uint_mul32 W a b32) /\ to_Z (base_uint_mul32 W a b32) = (to_Z a * b32) mod M) /\
  (uint_ok W (base_uint_incr W a) /\ to_Z (base_uint_incr W a) = (to_Z a + 1) mod M) /\
  (uint_ok W (base_uint_decr W a) /\ to_Z (base_uint_decr W a) = (to_Z a - 1) mod M).
Proof.
  cbv zeta. split_and!; try (apply add_spec_ok; assumption); try (apply sub_spec; assumption);
    try (apply mul_spec; assumption); try (apply mul32_spec; assumption).
  - apply (incr_loop_spec W W 0); [lia|assumption].
  - apply cong_mod; apply (incr_loop_spec W W 0); [lia|assumption|lia|assumption].
  - apply (decr_loop_spec W W 0); [lia|assumption].
  - apply cong_mod; apply (decr_loop_spec W W 0); [lia|assumption|lia|assumption].
Qed.

Lemma base_uint_ring_witness :
  to_Z (base_uint_mul 2 [0xffffffff; 0xffffffff] [0xfffffffe; 1]) =
  (to_Z [0xffffffff; 0xffffffff] * to_Z [0xfffffffe; 1]) mod 2 ^ 64.
Proof.
  apply (base_uint_ring 2 [0xffffffff; 0xffffffff] [0xfffffffe; 1] 7);
    apply (bool_decide_unpack _); vm_compute; exact I.
Defined.

(** Long division raises [uint_error] exactly when the divisor is zero;
    otherwise it terminates with the floor of the quotient. *)
Theorem base_uint_division (W : nat) (a b : base_uint)
    (HW : (2 <= W)%nat) (Ha : uint_ok W a) (Hb : uint_ok W b) :
  (base_uint_div W a b = None <-> to_Z b = 0) /\
  (to_Z b <> 0 -> exists q, base_uint_div W a b = Some q /\ uint_ok W q /\ to_Z q = to_Z a / to_Z b).
Proof.
  pose proof (div_spec W a b HW Ha Hb) as H. destruct (base_uint_div W a b) as [q|].
  - destruct H as (Hnz & Hok & Hv). split; [split; [done|congruence]|]. intros _. exists q. auto.
  - split; [tauto|]. intros. contradiction.
Qed.

Lemma base_uint_division_witness :
  (base_uint_div 3 [5; 0; 9] [3; 1; 0] = None <-> to_Z [3; 1; 0] = 0) /\
  (to_Z [3; 1; 0] <> 0 -> exists q, base_uint_div 3 [5; 0; 9] [3; 1; 0] = Some q /\ uint_ok 3 q /\
     to_Z q = to_Z [5; 0; 9] / to_Z [3; 1; 0]).
Proof.
  apply base_uint_division; [lia|apply (bool_decide_unpack _); vm_compute; exact I..].
Defined.

(** Shifts multiply and divide by powers of two (losing the bits that
    leave the array), [CompareTo] is the sign of the difference, and [bits]
    is the position of the highest set bit. *)
Theorem base_uint_shift_order (W : nat) (a b : base_uint) (s : Z)
    (Ha : uint_ok W a) (Hb : uint_ok W b) (Hs : 0 <= s) :
  to_Z (base_uint_shl W a s) = (to_Z a * 2 ^ s) mod 2 ^ (32 * Z.of_nat W) /\
  to_Z (base_uint_shr W a s) = to_Z a / 2 ^ s /\
  CompareTo W a b = Z.sgn (to_Z a - to_Z b) /\
  (0 < to_Z a -> 2 ^ (base_uint_bits W a - 1) <= to_Z a < 2 ^ base_uint_bits W a) /\
  (base_uint_bits W a = 0 <-> to_Z a = 0).
Proof.
  rewrite bits_spec, CompareTo_spec by assumption.
  split_and!; [apply shl_spec; assumption|apply shr_spec; assumption|done|apply bit_length_bounds|].
  unfold bit_length. pose proof (Z.log2_nonneg (to_Z a)). case_bool; lia.
Qed.

Lemma base_uint_shift_order_witness :
  to_Z (base_uint_shl 3 [0x80000001; 2; 3] 33) = (to_Z [0x80000001; 2; 3] * 2 ^ 33) mod 2 ^ 96 /\
  to_Z (base_uint_shr 3 [0x80000001; 2; 3] 33) = to_Z [0x80000001; 2; 3] / 2 ^ 33.
Proof.
  destruct (base_uint_shift_order 3 [0x80000001; 2; 3] [0; 0; 1] 33) as (H1 & H2 & _);
    [apply (bool_decide_unpack _); vm_compute; exact I..|lia|].
  split; [exact H1|exact H2].
Defined.
