(* ===== verification/Uint256.v ===== *)
(** * Byte blobs and byte order (src/uint256.h, src/uint256.cpp, src/crypto/common.h)

    A [base_blob<BITS>] is an array of [BITS / 8] bytes. It is opaque: its
    comparison is [memcmp] on the bytes, not the order of the number the bytes
    denote, and its hex form prints the bytes from the last to the first. *)

From Stdlib Require Import ZArith Lia Bool String Ascii.
From stdpp Require Import base numbers list.
From S2P Require Import Prelude.

Open Scope Z_scope.
Open Scope adonai_scope.

(** ** Little- and big-endian access to byte buffers *)

(** The bytes [p, p + n) of a buffer. *)
Definition bytes_at (buf : list Z) (p n : nat) : list Z := take n (drop p buf).

Definition ReadLE (n : nat) (buf : list Z) : Z := digits (2 ^ 8) (take n buf).
Definition WriteLE (n : nat) (x : Z) : list Z := split_digits 8 n x.
Definition ReadBE (n : nat) (buf : list Z) : Z := digits (2 ^ 8) (rev (take n buf)).
Definition WriteBE (n : nat) (x : Z) : list Z := rev (split_digits 8 n x).

Definition ReadLE16 (ptr : list Z) : Z := ReadLE 2 ptr.
Definition ReadLE32 (ptr : list Z) : Z := ReadLE 4 ptr.
Definition ReadLE64 (ptr : list Z) : Z := ReadLE 8 ptr.
Definition WriteLE16 (x : Z) : list Z := WriteLE 2 x.
Definition WriteLE32 (x : Z) : list Z := WriteLE 4 x.
Definition WriteLE64 (x : Z) : list Z := WriteLE 8 x.
Definition ReadBE32 (ptr : list Z) : Z := ReadBE 4 ptr.
Definition ReadBE64 (ptr : list Z) : Z := ReadBE 8 ptr.
Definition WriteBE32 (x : Z) : list Z := WriteBE 4 x.
Definition WriteBE64 (x : Z) : list Z := WriteBE 8 x.

(** ** [base_blob] *)

Notation uint256 := (list Z).

Definition blob_ok (n : nat) (b : list Z) : Prop := length b = n /\ limbs_ok 8 b.

#[export] Instance blob_ok_dec n b : Decision (blob_ok n b).
Proof. unfold blob_ok. apply _. Defined.

(** [uint256()] *)
Definition uint256_null : uint256 := replicate 32 0.

(** [IsNull] *)
Definition IsNull (b : list Z) : bool := forallb (fun val => val =? 0) b.

(** [Compare]: [memcmp], reduced to its sign. *)
Fixpoint blob_Compare (a b : list Z) : Z :=
  match a, b with
  | x :: a, y :: b => if x =? y then blob_Compare a b else if x <? y then -1 else 1
  | _, _ => 0
  end.
Definition blob_eqb (a b : list Z) : bool := blob_Compare a b =? 0.
Definition blob_ltb (a b : list Z) : bool := blob_Compare a b <? 0.

(** [HexStr] of one byte: two lower-case digits, high nibble first. *)
Definition hex_digit (v : Z) : ascii :=
  ascii_of_N (Z.to_N (if v <? 10 then 48 + v else 87 + v)).
Fixpoint HexStr (b : list Z) : string :=
  match b with
  | [] => EmptyString
  | x :: b => String (hex_digit (Z.shiftr x 4)) (String (hex_digit (Z.land x 15)) (HexStr b))
  end.

(** [GetHex]: the bytes in reverse order. *)
Definition GetHex (b : list Z) : string := HexStr (rev b).

(** [util::ConstevalHexDigit]; [None] is the compile-time failure. *)
Definition ConstevalHexDigit (c : ascii) : option Z :=
  let n := Z.of_N (N_of_ascii c) in
  if (48 <=? n) && (n <=? 57) then Some (n - 48)
  else if (97 <=? n) && (n <=? 102) then Some (n - 97 + 10)
  else None.

(** the [std::string_view] constructor, reading the digits from the end *)
Fixpoint blob_of_rhex (n : nat) (s : list ascii) : option (list Z) :=
  match n, s with
  | O, [] => Some []
  | S n, c_lo :: c_hi :: s =>
      lo ← ConstevalHexDigit c_lo; hi ← ConstevalHexDigit c_hi;
      rest ← blob_of_rhex n s; Some (Z.lor (u8 (Z.shiftl hi 4)) lo :: rest)
  | _, _ => None
  end.
Definition uint256_of_hex (s : string) : option uint256 :=
  blob_of_rhex 32 (rev (list_ascii_of_string s)).

(** ** Lemmas *)

Lemma WriteLE_ok n x : blob_ok n (WriteLE n x).
Proof. split; [apply length_split_digits|apply split_digits_ok; lia]. Qed.

Lemma WriteBE_ok n x : blob_ok n (WriteBE n x).
Proof.
  destruct (WriteLE_ok n x) as [Hl Ho]. unfold WriteBE, WriteLE in *.
  split; [rewrite length_rev; assumption|]. apply Forall_rev. assumption.
Qed.

Lemma ReadLE_WriteLE n x rest : ReadLE n (WriteLE n x ++ rest) = x mod 2 ^ (8 * Z.of_nat n).
Proof.
  unfold ReadLE. rewrite take_app_length' by (symmetry; apply WriteLE_ok). apply digits_split. lia.
Qed.

Lemma ReadBE_WriteBE n x rest : ReadBE n (WriteBE n x ++ rest) = x mod 2 ^ (8 * Z.of_nat n).
Proof.
  unfold ReadBE. rewrite take_app_length' by (symmetry; apply WriteBE_ok).
  unfold WriteBE. rewrite rev_involutive. apply digits_split. lia.
Qed.

Lemma ReadLE_fits n b : limbs_ok 8 b -> (n <= length b)%nat -> fits (8 * Z.of_nat n) (ReadLE n b).
Proof.
  intros Hb Hn. pose proof (digits_bound 8 (take n b) ltac:(lia) (Forall_take _ _ _ Hb)) as H.
  rewrite length_take, Nat.min_l in H by lia. exact H.
Qed.

Lemma WriteLE_ReadLE n b :
  limbs_ok 8 b -> (n <= length b)%nat -> WriteLE n (ReadLE n b) = take n b.
Proof.
  intros Hb Hn. unfold WriteLE, ReadLE.
  replace n with (length (take n b)) at 1 by (rewrite length_take; lia).
  apply split_digits_digits; [lia|]. apply Forall_take. assumption.
Qed.

Lemma blob_Compare_refl a : blob_Compare a a = 0.
Proof. induction a as [|x a IH]; cbn; [done|]. rewrite Z.eqb_refl. exact IH. Qed.

Lemma blob_eqb_eq a b : length a = length b -> blob_eqb a b = true <-> a = b.
Proof.
  intros Hl. unfold blob_eqb. split; [|intros ->; rewrite blob_Compare_refl; done].
  revert b Hl. induction a as [|x a IH]; intros [|y b] Hl; try discriminate; [done|].
  cbn. destruct (x =? y) eqn:E; bool_to_prop.
  - intros H. f_equal; [assumption|]. apply IH; [cbn in Hl; lia|assumption].
  - case_bool; discriminate.
Qed.

Lemma IsNull_spec n b : length b = n -> IsNull b = true <-> b = replicate n 0.
Proof.
  intros <-. unfold IsNull. induction b as [|x b IH]; cbn; [done|].
  rewrite andb_true_iff, IH, Z.eqb_eq. split; [intros [-> <-]|intros [= -> <-]]; done.
Qed.
