(* ===== verification/Arith256.v ===== *)
(** * 256-bit integers and the compact target encoding
    (src/arith_uint256.h, src/arith_uint256.cpp)

    [arith_uint256] is [base_uint<256>], the eight-limb instance of
    ArithUint.v. The class [Ok256] carries the well-formedness of a limb array;
    its instances follow the operations, so that the value equations of the
    rewrite database [arith256] apply without side conditions. *)

From Stdlib Require Import ZArith Lia Bool.
From stdpp Require Import base numbers list.
From S2P Require Import Prelude ArithUint Uint256.

Open Scope Z_scope.
Open Scope adonai_scope.

Notation arith_uint256 := (list Z).

Definition arith_add : arith_uint256 -> arith_uint256 -> arith_uint256 := base_uint_add 8.
Definition arith_sub : arith_uint256 -> arith_uint256 -> arith_uint256 := base_uint_sub 8.
Definition arith_mul : arith_uint256 -> arith_uint256 -> arith_uint256 := base_uint_mul 8.
Definition arith_mul32 : arith_uint256 -> Z -> arith_uint256 := base_uint_mul32 8.
Definition arith_div : arith_uint256 -> arith_uint256 -> option arith_uint256 := base_uint_div 8.
Definition arith_not : arith_uint256 -> arith_uint256 := base_uint_not 8.
Definition arith_shl : arith_uint256 -> Z -> arith_uint256 := base_uint_shl 8.
Definition arith_shr : arith_uint256 -> Z -> arith_uint256 := base_uint_shr 8.
Definition arith_gt : arith_uint256 -> arith_uint256 -> bool := base_uint_gt 8.
Definition arith_lt : arith_uint256 -> arith_uint256 -> bool := base_uint_lt 8.
Definition arith_eq64 : arith_uint256 -> Z -> bool := EqualTo 8.
Definition arith_bits : arith_uint256 -> Z := base_uint_bits 8.
(** [arith_uint256(uint64_t)]; an [int64_t] argument is converted first. *)
Definition arith_of (b : Z) : arith_uint256 := of_uint64 8 (u64 b).

(** [UintToArith256] *)
Definition UintToArith256 (a : uint256) : arith_uint256 :=
  for_up 8 (fun x b => <[x := ReadLE32 (drop (x * 4) a)]> b) (base_uint_zero 8).

(** [ArithToUint256] *)
Definition ArithToUint256 (a : arith_uint256) : uint256 :=
  for_up 8 (fun x b => take (x * 4) b ++ WriteLE32 a.[x] ++ drop (x * 4 + 4) b) uint256_null.

(** [SetCompact]: the value, [*pfNegative] and [*pfOverflow]. *)
Definition SetCompact (nCompact : Z) : arith_uint256 * bool * bool :=
  let nSize := Z.shiftr nCompact 24 in
  let nWord := Z.land nCompact 0x007fffff in
  let '(nWord, this) :=
    if nSize <=? 3
    then let nWord := Z.shiftr nWord (8 * (3 - nSize)) in (nWord, arith_of nWord)
    else (nWord, arith_shl (arith_of nWord) (8 * (nSize - 3))) in
  let fNegative := negb (nWord =? 0) && negb (Z.land nCompact 0x00800000 =? 0) in
  let fOverflow := negb (nWord =? 0) && ((nSize >? 34) ||
                                         ((nWord >? 0xff) && (nSize >? 33)) ||
                                         ((nWord >? 0xffff) && (nSize >? 32))) in
  (this, fNegative, fOverflow).

(** [GetCompact]; [None] is a failed [assert]. *)
Definition GetCompact (a : arith_uint256) (fNegative : bool) : option Z :=
  let nSize := (arith_bits a + 7) / 8 in
  let nCompact :=
    if nSize <=? 3
    then u32 (u64 (Z.shiftl (GetLow64 a) (8 * (3 - nSize))))
    else u32 (GetLow64 (arith_shr a (8 * (nSize - 3)))) in
  let '(nCompact, nSize) :=
    if negb (Z.land nCompact 0x00800000 =? 0)
    then (Z.shiftr nCompact 8, nSize + 1)
    else (nCompact, nSize) in
  if negb (Z.land nCompact (u32 (Z.lnot 0x007fffff)) =? 0) then None
  else if negb (nSize <? 256) then None
  else
    let nCompact := Z.lor nCompact (u32 (Z.shiftl nSize 24)) in
    Some (Z.lor nCompact
            (if fNegative && negb (Z.land nCompact 0x007fffff =? 0) then 0x00800000 else 0)).

(** ** Well-formed values *)

Class Ok256 (a : arith_uint256) : Prop := ok256 : uint_ok 8 a.

#[export] Hint Opaque arith_add arith_sub arith_mul arith_mul32 arith_div arith_not arith_shl
  arith_shr arith_of UintToArith256 : typeclass_instances.

#[export] Instance arith_add_ok a b : Ok256 a -> Ok256 b -> Ok256 (arith_add a b).
Proof. intros Ha Hb. apply (add_spec_ok 8 a b Ha Hb). Qed.
#[export] Instance arith_sub_ok a b : Ok256 a -> Ok256 b -> Ok256 (arith_sub a b).
Proof. intros Ha Hb. apply (sub_spec 8 a b Ha Hb). Qed.
#[export] Instance arith_mul_ok a b : Ok256 a -> Ok256 b -> Ok256 (arith_mul a b).
Proof. intros Ha Hb. apply (mul_spec 8 a b Ha Hb). Qed.
#[export] Instance arith_not_ok a : Ok256 a -> Ok256 (arith_not a).
Proof. intros Ha. apply (not_spec 8 a Ha). Qed.
#[export] Instance arith_of_ok b : Ok256 (arith_of b).
Proof. apply (of_uint64_spec 8); [lia|apply wrap_fits; lia]. Qed.

Lemma to_Z_256 a : Ok256 a -> 0 <= to_Z a < 2 ^ 256.
Proof. intros Ha. apply (to_Z_bound 8 a Ha). Qed.

Lemma to_Z_256_inj a b : Ok256 a -> Ok256 b -> to_Z a = to_Z b -> a = b.
Proof. apply (to_Z_inj 8). Qed.

(** ** Value equations *)

Lemma arith_add_val a b `{Ha : !Ok256 a} `{Hb : !Ok256 b} :
  to_Z (arith_add a b) = (to_Z a + to_Z b) mod 2 ^ 256.
Proof. apply (add_spec_ok 8 a b Ha Hb). Qed.
Lemma arith_sub_val a b `{Ha : !Ok256 a} `{Hb : !Ok256 b} :
  to_Z (arith_sub a b) = (to_Z a - to_Z b) mod 2 ^ 256.
Proof. apply (sub_spec 8 a b Ha Hb). Qed.
Lemma arith_mul_val a b `{Ha : !Ok256 a} `{Hb : !Ok256 b} :
  to_Z (arith_mul a b) = (to_Z a * to_Z b) mod 2 ^ 256.
Proof. apply (mul_spec 8 a b Ha Hb). Qed.
Lemma arith_not_val a `{Ha : !Ok256 a} : to_Z (arith_not a) = 2 ^ 256 - 1 - to_Z a.
Proof. apply (not_spec 8 a Ha). Qed.
Lemma arith_gt_val a b `{Ha : !Ok256 a} `{Hb : !Ok256 b} : arith_gt a b = (to_Z a >? to_Z b).
Proof. apply (gt_spec 8 a b Ha Hb). Qed.
Lemma arith_lt_val a b `{Ha : !Ok256 a} `{Hb : !Ok256 b} : arith_lt a b = (to_Z a <? to_Z b).
Proof. apply (lt_spec 8 a b Ha Hb). Qed.
Lemma arith_bits_val a `{Ha : !Ok256 a} : arith_bits a = bit_length (to_Z a).
Proof. apply (bits_spec 8 a Ha). Qed.
Lemma arith_of_val b : to_Z (arith_of b) = u64 b.
Proof. apply (of_uint64_spec 8); [lia|apply wrap_fits; lia]. Qed.

Lemma arith_mul32_spec a b `{Ha : !Ok256 a} :
  fits 32 b -> Ok256 (arith_mul32 a b) /\ to_Z (arith_mul32 a b) = (to_Z a * b) mod 2 ^ 256.
Proof. intros Hb. apply (mul32_spec 8 a b Ha Hb). Qed.

Lemma arith_shl_spec a s `{Ha : !Ok256 a} :
  0 <= s -> Ok256 (arith_shl a s) /\ to_Z (arith_shl a s) = (to_Z a * 2 ^ s) mod 2 ^ 256.
Proof. apply (shl_spec 8 a s Ha). Qed.

Lemma arith_shr_spec a s `{Ha : !Ok256 a} :
  0 <= s -> Ok256 (arith_shr a s) /\ to_Z (arith_shr a s) = to_Z a / 2 ^ s.
Proof. apply (shr_spec 8 a s Ha). Qed.

Lemma arith_div_spec a b `{Ha : !Ok256 a} `{Hb : !Ok256 b} :
  match arith_div a b with
  | None => to_Z b = 0
  | Some q => to_Z b <> 0 /\ Ok256 q /\ to_Z q = to_Z a / to_Z b
  end.
Proof. apply (div_spec 8); [lia|assumption..]. Qed.

Lemma arith_div_Some a b `{Ha : !Ok256 a} `{Hb : !Ok256 b} :
  to_Z b <> 0 -> exists q, arith_div a b = Some q /\ Ok256 q /\ to_Z q = to_Z a / to_Z b.
Proof.
  intros Hnz. pose proof (arith_div_spec a b) as H. destruct (arith_div a b) as [q|]; [|done].
  exists q. split; [done|apply H].
Qed.

(** The eight limbs of a value. *)
Lemma to_Z_limbs a :
  Ok256 a -> exists x0 x1 x2 x3 x4 x5 x6 x7, a = [x0; x1; x2; x3; x4; x5; x6; x7].
Proof.
  intros [Hl _]. do 8 (destruct a as [|? a]; [discriminate|]).
  destruct a; [|discriminate]. repeat eexists.
Qed.

Lemma arith_eq64_val a b `{Ha : !Ok256 a} : fits 64 b -> arith_eq64 a b = (to_Z a =? b).
Proof.
  intros Hb. unfold arith_eq64, EqualTo.
  destruct (to_Z_limbs a Ha) as (x0 & x1 & x2 & x3 & x4 & x5 & x6 & x7 & Heq).
  assert (Hr : forall i, 0 <= a.[i] < 2 ^ 32) by (intros; apply (limb_range 8 a); exact Ha).
  pose proof (Hr 0%nat). pose proof (Hr 1%nat). pose proof (Hr 2%nat). pose proof (Hr 3%nat).
  pose proof (Hr 4%nat). pose proof (Hr 5%nat). pose proof (Hr 6%nat). pose proof (Hr 7%nat).
  clear Hr Ha. subst a. cbn -[Z.pow Z.land Z.shiftr] in *. unfold to_Z. cbn -[Z.pow Z.land Z.shiftr].
  rewrite land_mask32, Z.shiftr_div_pow2 by lia.
  symmetry. repeat case_bool; try discriminate; (apply Z.eqb_eq || apply Z.eqb_neq); wrap_lia.
Qed.

Lemma GetLow64_val a `{Ha : !Ok256 a} : GetLow64 a = to_Z a mod 2 ^ 64.
Proof.
  unfold GetLow64. pose proof (limb_range 8 a 0 Ha). pose proof (limb_range 8 a 1 Ha).
  rewrite wrap_small.
  2:{ rewrite Z.shiftl_mul_pow2 by lia. unfold fits. lia. }
  rewrite lor_add by (auto; lia).
  destruct (to_Z_limbs a Ha) as (x0 & x1 & x2 & x3 & x4 & x5 & x6 & x7 & ->).
  unfold to_Z. cbn -[Z.pow Z.mul Z.add] in *.
  apply Z.mod_unique_pos with
    (q := x2 + 2 ^ 32 * (x3 + 2 ^ 32 * (x4 + 2 ^ 32 * (x5 + 2 ^ 32 * (x6 + 2 ^ 32 * (x7 + 2 ^ 32 * 0))))));
    lia.
Qed.

Lemma fits_u64_small z : fits 32 z -> u64 z = z.
Proof. intros Hz. apply wrap_small. wrap_lia. Qed.

(** ** The compact encoding

    The low 23 bits of a compact value are the mantissa, bit 23 the sign, the
    high byte the size of the number in bytes. *)

Definition compact_value (c : Z) : Z :=
  let n := c / 2 ^ 24 in
  let m := c mod 2 ^ 23 in
  if n <=? 3 then m / 256 ^ (3 - n) else m * 256 ^ (n - 3).

(** The least number of bytes that holds [z] and a clear sign bit, and the
    leading bytes of [z] at that size. *)
Definition compact_size (z : Z) : Z := if z =? 0 then 0 else bit_length z / 8 + 1.
Definition compact_mantissa (z : Z) : Z := z * 256 ^ 3 / 256 ^ compact_size z.
Definition compact_of (z : Z) : Z := compact_mantissa z + 2 ^ 24 * compact_size z.

Lemma pow256 n : 0 <= n -> 256 ^ n = 2 ^ (8 * n).
Proof. intros. rewrite Z.pow_mul_r by lia. done. Qed.

Lemma compact_fields c :
  fits 32 c ->
  Z.shiftr c 24 = c / 2 ^ 24 /\ Z.land c 0x007fffff = c mod 2 ^ 23 /\
  0 <= c / 2 ^ 24 < 256 /\ 0 <= c mod 2 ^ 23 < 2 ^ 23.
Proof.
  intros Hc. split_and!; try wrap_lia.
  - rewrite Z.shiftr_div_pow2 by lia. done.
  - apply (Z.land_ones c 23). lia.
Qed.

Lemma compact_shift_value m n :
  0 <= m < 2 ^ 23 -> 3 < n < 256 ->
  (negb (m =? 0) && ((n >? 34) || ((m >? 0xff) && (n >? 33)) || ((m >? 0xffff) && (n >? 32))))
  = (m * 256 ^ (n - 3) >=? 2 ^ 256).
Proof.
  intros Hm Hn. rewrite pow256 by lia.
  destruct (Z.le_gt_cases n 32); [|destruct (Z.eq_dec n 33) as [->|]; [|destruct (Z.eq_dec n 34) as [->|]]].
  - assert (2 ^ (8 * (n - 3)) <= 2 ^ 232) by (apply Z.pow_le_mono_r; lia).
    replace (n >? 34) with false by lia. replace (n >? 33) with false by lia.
    replace (n >? 32) with false by lia. rewrite !andb_false_r. cbn [orb].
    rewrite ?andb_false_r. nia.
  - change (2 ^ (8 * (33 - 3))) with (2 ^ 240). lia.
  - change (2 ^ (8 * (34 - 3))) with (2 ^ 248). lia.
  - assert (2 ^ 256 <= 2 ^ (8 * (n - 3))) by (apply Z.pow_le_mono_r; lia).
    replace (n >? 34) with true by lia. cbn [orb]. rewrite andb_true_r. nia.
Qed.

(** [SetCompact] decodes the compact value modulo [2^256], and its flags say
    exactly whether the value is negative or does not fit. *)
Lemma SetCompact_spec c :
  fits 32 c ->
  let '(v, neg, ovf) := SetCompact c in
  Ok256 v /\ to_Z v = compact_value c mod 2 ^ 256 /\
  neg = negb (compact_value c =? 0) && Z.testbit c 23 /\
  ovf = (compact_value c >=? 2 ^ 256).
Proof.
  intros Hc. unfold SetCompact, compact_value.
  destruct (compact_fields c Hc) as (-> & -> & Hn & Hm).
  set (n := c / 2 ^ 24) in *. set (m := c mod 2 ^ 23) in *.
  replace (Z.land c 0x00800000 =? 0) with (negb (Z.testbit c 23))
    by (symmetry; apply (land_bit_eqb c 23); lia).
  rewrite negb_involutive. case_bool.
  - rewrite Z.shiftr_div_pow2 by lia. rewrite <- pow256 by lia.
    assert (0 < 256 ^ (3 - n)) by (apply Z.pow_pos_nonneg; lia).
    assert (Hq : 0 <= m / 256 ^ (3 - n) < 2 ^ 23).
    { split; [apply Z.div_pos; lia|]. apply Z.div_lt_upper_bound; nia. }
    split_and!; [apply _| |done|].
    + rewrite arith_of_val, Z.mod_small by lia. apply wrap_small. unfold fits. lia.
    + replace (n >? 34) with false by lia. replace (n >? 33) with false by lia.
      replace (n >? 32) with false by lia. rewrite !andb_false_r. lia.
  - destruct (arith_shl_spec (arith_of m) (8 * (n - 3)) ltac:(lia)) as [Hok Hv].
    rewrite arith_of_val, wrap_small, <- pow256 in Hv by (unfold fits; lia).
    assert (0 < 256 ^ (n - 3)) by (apply Z.pow_pos_nonneg; lia).
    split_and!; [exact Hok|exact Hv| |].
    + f_equal. f_equal. apply Bool.eq_iff_eq_true. rewrite !Z.eqb_eq. nia.
    + apply compact_shift_value; lia.
Qed.

(** The target a compact number stands for, if it is positive and fits. *)
Definition valid_target (c : Z) : option Z :=
  let v := compact_value c in
  if (v =? 0) || Z.testbit c 23 || (v >=? 2 ^ 256) then None else Some v.

Lemma compact_value_nonneg c : fits 32 c -> 0 <= compact_value c.
Proof.
  intros Hc. destruct (compact_fields c Hc) as (_ & _ & Hn & Hm). unfold compact_value.
  case_bool; [apply Z.div_pos; [lia|apply Z.pow_pos_nonneg; lia]|].
  apply Z.mul_nonneg_nonneg; [lia|apply Z.pow_nonneg; lia].
Qed.

(** A valid target is below the greatest 256-bit number: the low byte of a
    number of more than three bytes is zero. *)
Lemma valid_target_range c v : fits 32 c -> valid_target c = Some v -> 0 < v < 2 ^ 256 - 1.
Proof.
  intros Hc. pose proof (compact_value_nonneg c Hc) as H0. unfold valid_target. case_bool; [done|].
  intros [= <-]. assert (compact_value c <> 2 ^ 256 - 1); [|lia].
  destruct (compact_fields c Hc) as (_ & _ & Hn & Hm). unfold compact_value. case_bool.
  - assert (0 < 256 ^ (3 - c / 2 ^ 24)) by (apply Z.pow_pos_nonneg; lia).
    assert (c mod 2 ^ 23 / 256 ^ (3 - c / 2 ^ 24) < 2 ^ 23) by (apply Z.div_lt_upper_bound; nia). lia.
  - intros E. apply (f_equal (fun z => z mod 256)) in E. revert E.
    replace (c / 2 ^ 24 - 3) with (c / 2 ^ 24 - 4 + 1) by lia.
    rewrite Z.pow_add_r, Z.pow_1_r, Z.mul_assoc, Z.mod_mul by lia. done.
Qed.

(** What every reader of a compact target tests. *)
Lemma SetCompact_valid c : fits 32 c ->
  let '(a, neg, ovf) := SetCompact c in
  Ok256 a /\
  match valid_target c with
  | Some v => neg = false /\ ovf = false /\ arith_eq64 a 0 = false /\ to_Z a = v /\ 0 < v < 2 ^ 256 - 1
  | None => neg || ovf || arith_eq64 a 0 = true
  end.
Proof.
  intros Hc. pose proof (SetCompact_spec c Hc) as Hs. pose proof (compact_value_nonneg c Hc) as H0.
  destruct (valid_target c) as [v|] eqn:Hv; destruct (SetCompact c) as [[a neg] ovf];
    destruct Hs as (Hok & Ha & -> & ->); rewrite (arith_eq64_val a 0) by (split; [lia|reflexivity]).
  - pose proof (valid_target_range c v Hc Hv) as Hr. unfold valid_target in Hv.
    case_bool; [done|]. injection Hv as Hv.
    rewrite Hv in *. rewrite Z.mod_small in Ha by lia.
    split_and!; try done; try lia; try (apply andb_false_r).
    match goal with H : Z.testbit c 23 = false |- _ => rewrite H end. apply andb_false_r.
  - split; [done|]. rewrite Ha. unfold valid_target in Hv.
    destruct (Z.eqb_spec (compact_value c) 0) as [->|]; [apply orb_true_r|].
    destruct (Z.testbit c 23), (compact_value c >=? 2 ^ 256); done.
Qed.

(** The size [GetCompact] starts from, before making room for the sign bit. *)
Lemma compact_bytes z :
  0 < z < 2 ^ 256 ->
  let n := (bit_length z + 7) / 8 in
  1 <= n <= 32 /\ 256 ^ (n - 1) <= z < 256 ^ n /\
  compact_size z = (if z >=? 2 ^ 7 * 256 ^ (n - 1) then n + 1 else n).
Proof.
  intros Hz n. pose proof (bit_length_bounds z ltac:(lia)) as Hb.
  assert (HL : 1 <= bit_length z <= 256).
  { unfold bit_length in *. pose proof (Z.log2_nonneg z). replace (z =? 0) with false by lia.
    split; [lia|]. assert (Z.log2 z < 256) by (apply Z.log2_lt_pow2; lia). lia. }
  assert (Hn : 8 * n - 7 <= bit_length z <= 8 * n) by (subst n; Z.div_mod_to_equations; lia).
  split; [lia|]. split.
  - rewrite !pow256 by lia. split.
    + eapply Z.le_trans; [|apply Hb]. apply Z.pow_le_mono_r; lia.
    + eapply Z.lt_le_trans; [apply Hb|]. apply Z.pow_le_mono_r; lia.
  - unfold compact_size. replace (z =? 0) with false by lia.
    rewrite pow256, <- Z.pow_add_r by lia. case_bool.
    + assert (bit_length z = 8 * n) as ->.
      { assert (~ bit_length z <= 8 * n - 1); [|lia]. intros Hle.
        assert (2 ^ bit_length z <= 2 ^ (7 + 8 * (n - 1))) by (apply Z.pow_le_mono_r; lia). lia. }
      rewrite Z.mul_comm, Z.div_mul by lia. done.
    + assert (bit_length z < 8 * n).
      { assert (~ 8 * n <= bit_length z); [|lia]. intros Hle.
        assert (2 ^ (7 + 8 * (n - 1)) <= 2 ^ (bit_length z - 1)) by (apply Z.pow_le_mono_r; lia). lia. }
      Z.div_mod_to_equations. lia.
Qed.

(** Scaling by [256^3 / 256^n], the way the source splits it. *)
Lemma scale_bytes z n :
  0 <= z -> 0 <= n ->
  z * 256 ^ 3 / 256 ^ n = if n <=? 3 then z * 256 ^ (3 - n) else z / 256 ^ (n - 3).
Proof.
  intros Hz Hn. assert (Hp : forall k, 0 <= k -> 0 < 256 ^ k) by (intros; apply Z.pow_pos_nonneg; lia).
  pose proof (Hp n Hn). case_bool.
  - replace (256 ^ 3) with (256 ^ (3 - n) * 256 ^ n) by (rewrite <- Z.pow_add_r by lia; f_equal; lia).
    rewrite Z.mul_assoc, Z.div_mul by lia. done.
  - replace (256 ^ n) with (256 ^ (n - 3) * 256 ^ 3) by (rewrite <- Z.pow_add_r by lia; f_equal; lia).
    pose proof (Hp (n - 3) ltac:(lia)). rewrite Z.div_mul_cancel_r by lia. done.
Qed.

Lemma scaled_bounds z n :
  1 <= n -> 256 ^ (n - 1) <= z < 256 ^ n ->
  let m := z * 256 ^ 3 / 256 ^ n in
  2 ^ 16 <= m < 2 ^ 24 /\ (m >=? 2 ^ 23) = (z >=? 2 ^ 7 * 256 ^ (n - 1)).
Proof.
  intros Hn Hz m. assert (Hp : 0 < 256 ^ (n - 1)) by (apply Z.pow_pos_nonneg; lia).
  assert (Hs : 256 ^ n = 256 * 256 ^ (n - 1)) by (rewrite <- Z.pow_succ_r by lia; f_equal; lia).
  assert (Hdm : z * 256 ^ 3 = 256 ^ n * m + (z * 256 ^ 3) mod 256 ^ n /\
                0 <= (z * 256 ^ 3) mod 256 ^ n < 256 ^ n).
  { subst m. split; [apply Z.div_mod; lia|apply Z.mod_pos_bound; lia]. }
  destruct Hdm as [Hdm Hr]. set (r := (z * 256 ^ 3) mod 256 ^ n) in *.
  change (256 ^ 3) with 16777216 in *. split; [nia|]. case_eq (m >=? 2 ^ 23); intros; bool_to_prop; nia.
Qed.

Lemma land_high_mantissa m : fits 23 m -> Z.land m (u32 (Z.lnot 0x007fffff)) = 0.
Proof.
  intros Hm. change (u32 (Z.lnot 0x007fffff)) with (Z.shiftl 511 23).
  apply Z.bits_inj'. intros i Hi. rewrite Z.land_spec, Z.testbit_0_l.
  destruct (Z.lt_ge_cases i 23).
  - rewrite Z.shiftl_spec_low by lia. apply andb_false_r.
  - rewrite (testbit_fits 23 m); auto.
Qed.

Lemma testbit_top m w : 0 <= w -> 0 <= m < 2 ^ (w + 1) -> Z.testbit m w = (m >=? 2 ^ w).
Proof.
  intros Hw Hm. rewrite Z.pow_add_r in Hm by lia. rewrite Z.testbit_eqb by lia.
  pose proof (pow2_pos w Hw).
  destruct (m >=? 2 ^ w) eqn:E; bool_to_prop.
  - replace (m / 2 ^ w) with 1; [done|]. apply Z.div_unique with (m - 2 ^ w); lia.
  - rewrite Z.div_small by lia. done.
Qed.

(** The scaled value the source reads out of the limbs. *)
Lemma GetCompact_scaled a `{Ha : !Ok256 a} n :
  1 <= n <= 32 -> 256 ^ (n - 1) <= to_Z a < 256 ^ n ->
  (if n <=? 3 then u32 (u64 (Z.shiftl (GetLow64 a) (8 * (3 - n))))
   else u32 (GetLow64 (arith_shr a (8 * (n - 3))))) = to_Z a * 256 ^ 3 / 256 ^ n.
Proof.
  intros Hn Hz. pose proof (to_Z_256 a Ha).
  destruct (scaled_bounds (to_Z a) n ltac:(lia) Hz) as [Hm _].
  rewrite scale_bytes in * by lia. case_bool.
  - rewrite (GetLow64_val a). rewrite Z.shiftl_mul_pow2, <- (pow256 (3 - n)) by lia.
    assert (to_Z a < 2 ^ 24).
    { assert (256 ^ n <= 256 ^ 3) by (apply Z.pow_le_mono_r; lia).
      change (256 ^ 3) with (2 ^ 24) in *. lia. }
    rewrite (Z.mod_small (to_Z a)) by lia.
    rewrite (wrap_small 64) by (unfold fits; lia). apply wrap_small. unfold fits. lia.
  - destruct (arith_shr_spec a (8 * (n - 3)) ltac:(lia)) as [Hok Hv].
    rewrite (GetLow64_val (arith_shr _ _)), Hv. rewrite <- (pow256 (n - 3)) by lia.
    rewrite Z.mod_small by lia. apply wrap_small. unfold fits. lia.
Qed.

(** [GetCompact] never fails its assertions and returns the compact form of
    the value. *)
Lemma GetCompact_spec a `{Ha : !Ok256 a} : GetCompact a false = Some (compact_of (to_Z a)).
Proof.
  pose proof (to_Z_256 a Ha) as Hr. unfold GetCompact. rewrite (arith_bits_val a).
  destruct (Z.eq_dec (to_Z a) 0) as [E|Hnz].
  { rewrite E. change ((bit_length 0 + 7) / 8) with 0. rewrite (GetLow64_val a), E. reflexivity. }
  destruct (compact_bytes (to_Z a) ltac:(lia)) as (Hn & Hz & Hsize).
  set (n := (bit_length (to_Z a) + 7) / 8) in *.
  rewrite (GetCompact_scaled a) by lia.
  destruct (scaled_bounds (to_Z a) n ltac:(lia) Hz) as [Hm Htop].
  unfold compact_of, compact_mantissa. rewrite Hsize.
  set (m := to_Z a * 256 ^ 3 / 256 ^ n) in *.
  replace (Z.land m 0x00800000 =? 0) with (negb (Z.testbit m 23))
    by (symmetry; apply (land_bit_eqb m 23); lia).
  rewrite negb_involutive, testbit_top, Htop by lia.
  assert (Hfin : forall m' n', fits 23 m' -> 0 <= n' <= 33 ->
    (if negb (Z.land m' (u32 (Z.lnot 0x007fffff)) =? 0) then None
     else if negb (n' <? 256) then None
     else Some (Z.lor (Z.lor m' (u32 (Z.shiftl n' 24)))
           (if false && negb (Z.land (Z.lor m' (u32 (Z.shiftl n' 24))) 0x007fffff =? 0)
            then 0x00800000 else 0))) = Some (m' + 2 ^ 24 * n')).
  { intros m' n' Hm' Hn'. rewrite land_high_mantissa by assumption.
    replace (n' <? 256) with true by lia. cbn [negb Z.eqb andb].
    rewrite Z.lor_0_r, wrap_small, lor_add; [done|lia|wrap_lia|].
    rewrite Z.shiftl_mul_pow2 by lia. unfold fits. lia. }
  case_bool.
  - rewrite Hfin; [|rewrite Z.shiftr_div_pow2 by lia; split; [apply Z.div_pos; lia|apply Z.div_lt_upper_bound; lia]|lia].
    do 2 f_equal. subst m. rewrite Z.shiftr_div_pow2, Z.div_div by (try apply Z.pow_nonzero; lia).
    f_equal. rewrite Z.add_1_r, Z.pow_succ_r by lia. change (2 ^ 8) with 256. lia.
  - apply Hfin; [|lia]. unfold fits. lia.
Qed.

(** *** Properties of the compact form *)

Lemma compact_size_range z : 0 < z < 2 ^ 256 -> 1 <= compact_size z <= 33.
Proof.
  intros Hz. destruct (compact_bytes z Hz) as (Hn & _ & ->). case_bool; lia.
Qed.

(** The mantissa of a positive value is normalized: its top byte, or the sign
    bit below it, is in use. *)
Lemma compact_mantissa_range z : 0 < z < 2 ^ 256 -> 2 ^ 15 <= compact_mantissa z < 2 ^ 23.
Proof.
  intros Hz. unfold compact_mantissa. destruct (compact_bytes z Hz) as (Hn & Hb & ->).
  set (n := (bit_length z + 7) / 8) in *.
  destruct (scaled_bounds z n ltac:(lia) Hb) as [Hm Htop]. rewrite <- Htop.
  set (m := z * 256 ^ 3 / 256 ^ n) in *. case_bool; [|lia].
  rewrite Z.add_1_r, Z.pow_succ_r, (Z.mul_comm 256), <- Z.div_div
    by (try apply Z.pow_nonzero; try apply Z.pow_pos_nonneg; lia).
  fold m. Z.div_mod_to_equations. lia.
Qed.

Lemma compact_of_fields z :
  0 <= z < 2 ^ 256 ->
  fits 32 (compact_of z) /\ compact_of z / 2 ^ 24 = compact_size z /\
  compact_of z mod 2 ^ 23 = compact_mantissa z /\ Z.testbit (compact_of z) 23 = false.
Proof.
  intros Hz. destruct (Z.eq_dec z 0) as [->|Hnz]; [split_and!; vm_compute; done|].
  pose proof (compact_size_range z ltac:(lia)). pose proof (compact_mantissa_range z ltac:(lia)).
  unfold compact_of. split_and!; try wrap_lia.
  rewrite Z.testbit_eqb by lia.
  replace ((compact_mantissa z + 2 ^ 24 * compact_size z) / 2 ^ 23) with (2 * compact_size z)
    by (Z.div_mod_to_equations; lia).
  rewrite Z.mul_comm, Z.mod_mul by lia. done.
Qed.

Lemma compact_value_compact_of z :
  0 <= z < 2 ^ 256 ->
  let n := compact_size z in
  compact_value (compact_of z) = if n <=? 3 then z else z / 256 ^ (n - 3) * 256 ^ (n - 3).
Proof.
  intros Hz n. unfold compact_value. destruct (compact_of_fields z Hz) as (_ & -> & -> & _).
  fold n. unfold compact_mantissa. fold n. rewrite scale_bytes.
  2:{ lia. }
  2:{ unfold n, compact_size, bit_length. pose proof (Z.log2_nonneg z).
      repeat case_bool; [lia..|]. apply Z.add_nonneg_nonneg; [apply Z.div_pos; lia|lia]. }
  case_bool; [|done]. apply Z.div_mul. apply Z.pow_nonzero; [lia|].
  destruct (Z.eq_dec z 0); [subst; unfold n; cbn; lia|].
  pose proof (compact_size_range z ltac:(lia)). lia.
Qed.

(** Encoding loses less than one part in [2^15], never rounds up, and the
    result is a positive value in range. *)
Lemma compact_loss z :
  0 <= z < 2 ^ 256 ->
  let v := compact_value (compact_of z) in
  0 <= v <= z /\ (z - v) * 2 ^ 15 <= z /\ (0 < z -> 0 < v).
Proof.
  intros Hz. cbv zeta. rewrite compact_value_compact_of by assumption.
  destruct (compact_size z <=? 3) eqn:E; bool_to_prop; [lia|].
  destruct (Z.eq_dec z 0) as [->|Hnz]; [discriminate|].
  set (n := compact_size z) in *.
  pose proof (compact_mantissa_range z ltac:(lia)) as Hm.
  unfold compact_mantissa in Hm. fold n in Hm. rewrite scale_bytes in Hm by lia.
  replace (n <=? 3) with false in Hm by lia.
  assert (Hp : 0 < 256 ^ (n - 3)) by (apply Z.pow_pos_nonneg; lia).
  pose proof (Z.div_mod z (256 ^ (n - 3)) ltac:(lia)).
  pose proof (Z.mod_pos_bound z (256 ^ (n - 3)) Hp). nia.
Qed.

(** A compact number is canonical when it is zero or normalized, positive, in
    range and without bits below its size. *)
Definition canonical_compact (c : Z) : bool :=
  (c =? 0) ||
  (negb (Z.testbit c 23) && (c mod 2 ^ 23 >=? 2 ^ 15) && (compact_value c <? 2 ^ 256) &&
   ((c / 2 ^ 24 >? 3) || (c mod 2 ^ 23 mod 256 ^ (3 - c / 2 ^ 24) =? 0))).

Lemma compact_size_unique z n :
  1 <= n -> 2 ^ 15 * 256 ^ n <= z * 256 ^ 3 < 2 ^ 23 * 256 ^ n -> compact_size z = n.
Proof.
  intros Hn Hz. assert (Hp : 0 < 256 ^ n) by (apply Z.pow_pos_nonneg; lia).
  unfold compact_size. replace (z =? 0) with false by lia.
  pose proof (bit_length_bounds z ltac:(lia)) as Hb.
  rewrite pow256 in Hz by lia. change (256 ^ 3) with (2 ^ 24) in Hz.
  assert (HL : 0 < bit_length z).
  { unfold bit_length. pose proof (Z.log2_nonneg z). case_bool; lia. }
  assert (8 * n - 8 <= bit_length z).
  { assert (~ bit_length z <= 8 * n - 9); [|lia]. intros Hle.
    assert (2 ^ bit_length z * 2 ^ 24 <= 2 ^ 15 * 2 ^ (8 * n)); [|lia].
    rewrite <- !Z.pow_add_r by lia. apply Z.pow_le_mono_r; lia. }
  assert (bit_length z <= 8 * n - 1).
  { assert (~ 8 * n - 1 <= bit_length z - 1); [|lia]. intros Hle.
    assert (2 ^ 23 * 2 ^ (8 * n) <= 2 ^ (bit_length z - 1) * 2 ^ 24); [|lia].
    rewrite <- !Z.pow_add_r by lia. apply Z.pow_le_mono_r; lia. }
  Z.div_mod_to_equations. lia.
Qed.

Lemma compact_of_value c :
  fits 32 c -> canonical_compact c = true -> compact_of (compact_value c) = c.
Proof.
  intros Hc Hcan. unfold canonical_compact in Hcan.
  apply orb_true_iff in Hcan as [E|Hcan]; bool_to_prop; [subst; done|].
  destruct (compact_fields c Hc) as (_ & _ & Hn & Hm).
  rewrite Z.testbit_eqb in * by lia.
  set (n := c / 2 ^ 24) in *. set (m := c mod 2 ^ 23) in *.
  assert (Hdec : c = m + 2 ^ 24 * n) by (subst m n; bool_to_prop; Z.div_mod_to_equations; lia).
  assert (Hp : forall k, 0 <= k -> 0 < 256 ^ k) by (intros; apply Z.pow_pos_nonneg; lia).
  assert (Hval : compact_value c * 256 ^ 3 = m * 256 ^ n /\ 1 <= n).
  { unfold compact_value. fold n m.
    match goal with H : _ \/ _ |- _ => destruct H as [H|H] end; bool_to_prop.
    - replace (n <=? 3) with false by lia. split; [|lia].
      rewrite <- Z.mul_assoc, <- Z.pow_add_r by lia. do 2 f_equal. lia.
    - destruct (Z.le_gt_cases n 3).
      + replace (n <=? 3) with true by lia. pose proof (Hp (3 - n) ltac:(lia)).
        pose proof (Z.div_mod m (256 ^ (3 - n)) ltac:(lia)).
        assert (E3 : 256 ^ 3 = 256 ^ (3 - n) * 256 ^ n) by (rewrite <- Z.pow_add_r by lia; f_equal; lia).
        split; [rewrite E3; nia|].
        destruct (Z.eq_dec n 0) as [E0|]; [|lia]. exfalso. rewrite E0 in *.
        change (256 ^ (3 - 0)) with (2 ^ 24) in *. rewrite Z.mod_small in * by lia. lia.
      + replace (n <=? 3) with false by lia. split; [|lia].
        rewrite <- Z.mul_assoc, <- Z.pow_add_r by lia. do 2 f_equal. lia. }
  destruct Hval as [Hval Hn1]. pose proof (Hp n ltac:(lia)).
  assert (Hs : compact_size (compact_value c) = n).
  { apply compact_size_unique; [lia|]. rewrite Hval. nia. }
  unfold compact_of, compact_mantissa. rewrite Hs, Hval, Z.div_mul by lia. lia.
Qed.

(** Encoding preserves the order of targets. *)
Lemma compact_of_mono x y : 0 <= x -> x <= y -> y < 2 ^ 256 -> compact_of x <= compact_of y.
Proof.
  intros Hx Hxy Hy. destruct (Z.eq_dec x 0) as [->|Hx0].
  { change (compact_of 0) with 0. apply compact_of_fields. lia. }
  pose proof (compact_mantissa_range x ltac:(lia)). pose proof (compact_mantissa_range y ltac:(lia)).
  assert (Hle : compact_size x <= compact_size y).
  { unfold compact_size. replace (x =? 0) with false by lia. replace (y =? 0) with false by lia.
    assert (bit_length x <= bit_length y).
    { unfold bit_length. replace (x =? 0) with false by lia. replace (y =? 0) with false by lia.
      pose proof (Z.log2_le_mono x y Hxy). lia. }
    pose proof (Z.div_le_mono (bit_length x) (bit_length y) 8 ltac:(lia)). lia. }
  unfold compact_of. destruct (Z.eq_dec (compact_size x) (compact_size y)) as [E|]; [|lia].
  unfold compact_mantissa in *. rewrite E in *.
  assert (x * 256 ^ 3 / 256 ^ compact_size y <= y * 256 ^ 3 / 256 ^ compact_size y); [|lia].
  pose proof (compact_size_range y ltac:(lia)).
  apply Z.div_le_mono; [apply Z.pow_pos_nonneg; lia|nia].
Qed.

(** ** Conversion to and from byte blobs *)

Lemma ReadLE_add b n k :
  (n + k <= length b)%nat ->
  ReadLE (n + k) b = ReadLE n b + 2 ^ (8 * Z.of_nat n) * ReadLE k (drop n b).
Proof.
  intros Hn. unfold ReadLE. rewrite <- (take_drop n (take (n + k) b)).
  rewrite take_take, Nat.min_l, skipn_firstn_comm by lia. replace (n + k - n)%nat with k by lia.
  rewrite digits_app, length_take, Nat.min_l, Z.pow_mul_r by lia. done.
Qed.

Lemma UintToArith256_spec b :
  blob_ok 32 b -> Ok256 (UintToArith256 b) /\ to_Z (UintToArith256 b) = digits (2 ^ 8) b.
Proof.
  intros [Hl Hb]. unfold UintToArith256.
  set (P := fun x (r : list Z) => uint_ok 8 r /\ (forall j, (x <= j < 8)%nat -> r.[j] = 0) /\
    to_Z r = ReadLE (x * 4) b).
  enough (HP : P 8%nat (for_up 8 (fun x r => <[x := ReadLE32 (drop (x * 4) b)]> r) (base_uint_zero 8))).
  { destruct HP as (Hok & _ & Hv). split; [exact Hok|]. rewrite Hv. unfold ReadLE.
    rewrite <- Hl at 1. rewrite firstn_all2; [done|lia]. }
  apply for_up_ind.
  - split_and!; [apply uint_ok_zero|intros; apply zero_limb; lia|rewrite to_Z_zero; done].
  - intros x r Hx (Hok & Hz & Hv).
    assert (Hf : fits 32 (ReadLE32 (drop (x * 4) b))).
    { apply ReadLE_fits; [apply Forall_drop; assumption|]. rewrite length_drop. lia. }
    split_and!.
    + apply uint_ok_insert; assumption.
    + intros j Hj. rewrite nth_insert_ne by lia. apply Hz. lia.
    + rewrite (to_Z_insert 8), Hv, Hz by (auto; lia).
      replace (S x * 4)%nat with (x * 4 + 4)%nat by lia. rewrite ReadLE_add by lia.
      unfold ReadLE32. replace (8 * Z.of_nat (x * 4)) with (32 * Z.of_nat x) by lia. lia.
Qed.

Lemma ArithToUint256_spec a :
  Ok256 a -> blob_ok 32 (ArithToUint256 a) /\ digits (2 ^ 8) (ArithToUint256 a) = to_Z a.
Proof.
  intros Ha. unfold ArithToUint256.
  set (P := fun x (b : list Z) => blob_ok 32 b /\ ReadLE (x * 4) b = to_Z (take x a)).
  enough (HP : P 8%nat (for_up 8 (fun x b => take (x * 4) b ++ WriteLE32 a.[x] ++ drop (x * 4 + 4) b)
                          uint256_null)).
  { destruct HP as [[Hl Ho] Hv]. split; [split; assumption|].
    rewrite (to_Z_take_all 8) in Hv by exact Ha. rewrite <- Hv. unfold ReadLE.
    rewrite firstn_all2; [done|lia]. }
  apply for_up_ind.
  - split; [|done]. split; [done|]. unfold uint256_null. apply Forall_replicate. split; lia.
  - intros x b Hx [[Hl Ho] Hv]. destruct (WriteLE_ok 4 a.[x]) as [Hwl Hwo].
    fold (WriteLE32 a.[x]) in Hwl, Hwo.
    split; [split|].
    + rewrite !length_app, Hwl, length_take, length_drop. lia.
    + apply Forall_app; split; [apply Forall_take; assumption|].
      apply Forall_app; split; [assumption|apply Forall_drop; assumption].
    + replace (S x * 4)%nat with (x * 4 + 4)%nat by lia.
      rewrite ReadLE_add by (rewrite !length_app, Hwl, length_take, length_drop; lia).
      assert (Hlt : length (take (x * 4) b) = (x * 4)%nat) by (rewrite length_take; lia).
      rewrite drop_app_length' by (symmetry; exact Hlt).
      rewrite (to_Z_take_S 8), <- Hv by (auto; lia).
      replace (ReadLE (x * 4) (take (x * 4) b ++ _)) with (ReadLE (x * 4) b).
      2:{ unfold ReadLE. rewrite take_app_length' by (symmetry; exact Hlt). done. }
      unfold WriteLE32. rewrite ReadLE_WriteLE. rewrite Z.mod_small by (apply (limb_range 8 a x Ha)).
      replace (8 * Z.of_nat (x * 4)) with (32 * Z.of_nat x) by lia. done.
Qed.

(** ** Properties *)

(** Every 256-bit target has a compact form: the assertions of
    [GetCompact] hold, decoding the result raises neither the negative nor the
    overflow flag, never exceeds the target and loses less than one part in
    [2^15] of it; a positive target stays positive. *)
Theorem compact_encode_sound (a : arith_uint256) (Ha : uint_ok 8 a) :
  exists c, GetCompact a false = Some c /\ fits 32 c /\
  let '(v, neg, ovf) := SetCompact c in
  neg = false /\ ovf = false /\ to_Z v <= to_Z a /\ (to_Z a - to_Z v) * 2 ^ 15 <= to_Z a /\
  (0 < to_Z a -> 0 < to_Z v).
Proof.
  pose proof (to_Z_256 a Ha) as Hr. exists (compact_of (to_Z a)).
  destruct (compact_of_fields _ Hr) as (Hf & _ & _ & Hb). destruct (compact_loss _ Hr) as (Hv & Hl & Hp).
  split; [exact (GetCompact_spec a (Ha := Ha))|]. split; [exact Hf|].
  pose proof (SetCompact_spec _ Hf) as Hs.
  destruct (SetCompact (compact_of (to_Z a))) as [[v neg] ovf].
  destruct Hs as (_ & Hval & -> & ->). rewrite Hb, andb_false_r, Hval, Z.mod_small by lia.
  split_and!; lia.
Qed.

Lemma compact_encode_sound_witness :
  exists c, GetCompact (arith_of 0x123456789abc) false = Some c /\ fits 32 c /\
  let '(v, neg, ovf) := SetCompact c in
  neg = false /\ ovf = false /\ to_Z v <= to_Z (arith_of 0x123456789abc) /\
  (to_Z (arith_of 0x123456789abc) - to_Z v) * 2 ^ 15 <= to_Z (arith_of 0x123456789abc) /\
  (0 < to_Z (arith_of 0x123456789abc) -> 0 < to_Z v).
Proof. apply compact_encode_sound. apply (bool_decide_unpack _). vm_compute. exact I. Defined.

(** Decoding and encoding again returns the same 32 bits for every
    canonical compact number (zero, or a normalized positive mantissa whose
    value fits 256 bits and has no bits below its declared size). *)
Theorem compact_roundtrip (c : Z) (Hc : fits 32 c) (Hcan : canonical_compact c = true) :
  GetCompact (SetCompact c).1.1 false = Some c.
Proof.
  pose proof (SetCompact_spec c Hc) as Hs. destruct (SetCompact c) as [[v neg] ovf].
  destruct Hs as (Hok & Hval & _ & _). cbn [fst].
  rewrite (GetCompact_spec v), Hval, Z.mod_small; [|].
  - rewrite compact_of_value by assumption. done.
  - unfold canonical_compact in Hcan. apply orb_true_iff in Hcan as [E|Hcan]; bool_to_prop.
    + subst. vm_compute. done.
    + split; [|assumption]. apply compact_value_nonneg. done.
Qed.

Lemma compact_roundtrip_witness :
  canonical_compact 0x1e0fffff = true /\ GetCompact (SetCompact 0x1e0fffff).1.1 false = Some 0x1e0fffff.
Proof.
  split; [vm_compute; reflexivity|].
  apply compact_roundtrip; [split; vm_compute; congruence|vm_compute; reflexivity].
Defined.

(** The compact form preserves the order of targets, so comparing two
    [nBits] values encoded by [GetCompact] never inverts a comparison of the
    targets. *)
Theorem GetCompact_monotone (a b : arith_uint256) (Ha : uint_ok 8 a) (Hb : uint_ok 8 b) :
  to_Z a <= to_Z b ->
  exists ca cb, GetCompact a false = Some ca /\ GetCompact b false = Some cb /\ ca <= cb.
Proof.
  intros Hle. exists (compact_of (to_Z a)), (compact_of (to_Z b)).
  split; [exact (GetCompact_spec a (Ha := Ha))|]. split; [exact (GetCompact_spec b (Ha := Hb))|].
  pose proof (to_Z_256 a Ha). pose proof (to_Z_256 b Hb). apply compact_of_mono; lia.
Qed.

Lemma GetCompact_monotone_witness :
  exists ca cb, GetCompact (arith_of 0x7fffff) false = Some ca /\
                GetCompact (arith_of 0x800000) false = Some cb /\ ca <= cb.
Proof.
  apply GetCompact_monotone;
    [apply (bool_decide_unpack _); vm_compute; exact I..|vm_compute; congruence].
Defined.

(** A block hash and the integer compared with the target carry the same
    number: the conversions between byte blobs and limb arrays are inverse to
    each other and keep the little-endian value. *)
Theorem uint256_arith_roundtrip (b : uint256) (a : arith_uint256)
    (Hb : blob_ok 32 b) (Ha : uint_ok 8 a) :
  ArithToUint256 (UintToArith256 b) = b /\ UintToArith256 (ArithToUint256 a) = a /\
  to_Z (UintToArith256 b) = digits 256 b.
Proof.
  destruct (UintToArith256_spec b Hb) as [Hok Hv].
  destruct (ArithToUint256_spec _ Hok) as [Hok' Hv'].
  destruct (ArithToUint256_spec a Ha) as [Hoka Hva].
  destruct (UintToArith256_spec _ Hoka) as [Hoka' Hva'].
  split_and!.
  - destruct Hb as [Hl Hb], Hok' as [Hl' Hb']. apply (digits_inj 8); try lia; auto; congruence.
  - apply to_Z_256_inj; [assumption..|]. congruence.
  - exact Hv.
Qed.

Lemma uint256_arith_roundtrip_witness :
  ArithToUint256 (UintToArith256 (WriteLE 32 (2 ^ 255 + 7))) = WriteLE 32 (2 ^ 255 + 7) /\
  UintToArith256 (ArithToUint256 (arith_of 99)) = arith_of 99 /\
  to_Z (UintToArith256 (WriteLE 32 (2 ^ 255 + 7))) = digits 256 (WriteLE 32 (2 ^ 255 + 7)).
Proof.
  apply uint256_arith_roundtrip; apply (bool_decide_unpack _); vm_compute; exact I.
Defined.
