(* ===== verification/Binary64.v ===== *)
(** * IEEE-754 binary64

    The C++ [double] of the sources: values are Stdlib's [spec_float], the
    operations its reference definitions at precision 53 and exponent 1024 (round
    to nearest, ties to even), and the conversions those of the C++ standard:
    [static_cast] from an integer rounds, [static_cast] to an integer truncates
    and is undefined ([None]) outside the integer type. *)

From Stdlib Require Import ZArith Floats.SpecFloat.
From stdpp Require Import base option.
From S2P Require Import Prelude.
Local Open Scope Z_scope.

Notation double := spec_float.

(** [double(z)] *)
Definition double_of (z : Z) : double := binary_normalize 53 1024 z 0 false.

Definition dadd : double -> double -> double := SFadd 53 1024.
Definition dsub : double -> double -> double := SFsub 53 1024.
Definition dmul : double -> double -> double := SFmul 53 1024.
Definition ddiv : double -> double -> double := SFdiv 53 1024.

(** The magnitude [m * 2^e] rounded down to an integer, and whether it was exact. *)
Definition mag_floor (m : positive) (e : Z) : Z := Z.shiftl (Z.pos m) e.
Definition mag_exact (m : positive) (e : Z) : bool := Z.shiftl (mag_floor m e) (- e) =? Z.pos m.

(** truncation toward zero, as in a conversion to an integer type of [w] bits *)
Definition double_trunc (w : Z) (x : double) : option Z :=
  match x with
  | S754_zero _ => Some 0
  | S754_finite s m e =>
      let z := if s then - mag_floor m e else mag_floor m e in
      if decide (sfits w z) then Some z else None
  | _ => None
  end.

(** [static_cast<w-bit signed>(std::ceil(x))] *)
Definition double_ceil (w : Z) (x : double) : option Z :=
  match x with
  | S754_zero _ => Some 0
  | S754_finite s m e =>
      let f := mag_floor m e in
      let z := if s then - f else if mag_exact m e then f else f + 1 in
      if decide (sfits w z) then Some z else None
  | _ => None
  end.

(** [std::llround(x)]: to the nearest integer, halves away from zero *)
Definition double_llround (x : double) : option Z :=
  match x with
  | S754_zero _ => Some 0
  | S754_finite s m e =>
      let f := Z.shiftr (Z.shiftl (Z.pos m) (e + 1) + 1) 1 in
      let z := if s then - f else f in
      if decide (sfits 64 z) then Some z else None
  | _ => None
  end.
