(* ===== verification/Binary64Proofs.v ===== *)
(** * Rounding of binary64

    What the reference operations of [Binary64] compute: a result with a full
    mantissa is a nearest one, so that a quotient of two integers is within half a
    unit in the last place of the quotient. *)

From Stdlib Require Import ZArith Lia Bool Floats.SpecFloat.
From stdpp Require Import base option.
From S2P Require Import Prelude Binary64.
Local Open Scope Z_scope.

Lemma Zdigits2_log2 m : 0 < m -> Zdigits2 m = Z.log2 m + 1.
Proof.
  destruct m as [|p|p]; try lia. intros _. cbn [Zdigits2]. induction p as [p IH|p IH|]; cbn [digits2_pos]; [| |done].
  - rewrite Pos2Z.inj_succ, IH, (Pos2Z.inj_xI p), Z.log2_succ_double by lia. lia.
  - rewrite Pos2Z.inj_succ, IH, (Pos2Z.inj_xO p), Z.log2_double by lia. lia.
Qed.

(** a mantissa with its two extra bits stands for the number [N / D] *)
Definition repr (r : shr_record) (N D : Z) : Prop :=
  0 < D /\ 0 <= N /\ shr_m r = N / D /\ (shr_r r = true <-> D <= 2 * (N mod D)) /\
  (shr_s r = true <-> N mod D <> 0 /\ 2 * (N mod D) <> D).

Lemma shr_1_eq m r s : 0 <= m -> shr_1 {| shr_m := m; shr_r := r; shr_s := s |} = {| shr_m := m / 2; shr_r := Z.odd m; shr_s := r || s |}.
Proof.
  intros Hm. rewrite <- Z.div2_div. destruct m as [|[p|p|]|p]; cbn; try reflexivity; lia.
Qed.

Lemma shr_1_repr r N D : repr r N D -> repr (shr_1 r) N (2 * D).
Proof.
  destruct r as [m r s]. intros (HD & HN & Hm & Hr & Hs). cbn [shr_m shr_r shr_s] in *.
  pose proof (Z.div_pos N D HN HD). rewrite shr_1_eq by lia. subst m.
  assert (E : N mod (2 * D) = N mod D + D * ((N / D) mod 2)) by (rewrite (Z.mul_comm 2 D); apply Z.rem_mul_r; lia).
  pose proof (Z.mod_pos_bound N D HD). pose proof (Zmod_odd (N / D)) as Ho.
  split_and!; cbn [shr_m shr_r shr_s]; [lia|lia| | |].
  - rewrite Z.div_div, Z.mul_comm by lia. done.
  - rewrite E. destruct (Z.odd (N / D)); split; intros; try done; lia.
  - rewrite E, orb_true_iff, Hr, Hs. destruct (Z.odd (N / D)); lia.
Qed.

Lemma iter_shr_repr p : forall r N D, repr r N D -> repr (iter_pos shr_1 p r) N (2 ^ Z.pos p * D).
Proof.
  induction p as [p IH|p IH|]; intros r N D H; cbn [iter_pos].
  - apply shr_1_repr, IH, IH in H. assert (E : 2 ^ Z.pos p~1 = 2 ^ Z.pos p * 2 ^ Z.pos p * 2).
    { replace (Z.pos p~1) with (Z.pos p + Z.pos p + 1) by lia. rewrite !Z.pow_add_r by lia. done. }
    rewrite E. replace (2 ^ Z.pos p * 2 ^ Z.pos p * 2 * D) with (2 ^ Z.pos p * (2 ^ Z.pos p * (2 * D))) by ring. exact H.
  - apply IH, IH in H. assert (E : 2 ^ Z.pos p~0 = 2 ^ Z.pos p * 2 ^ Z.pos p) by (rewrite <- Z.pow_add_r by lia; f_equal; lia).
    rewrite E, <- Z.mul_assoc. exact H.
  - apply shr_1_repr in H. exact H.
Qed.

Lemma shr_repr r N D e k : 0 <= k -> repr r N D -> exists r', shr r e k = (r', e + k) /\ repr r' N (2 ^ k * D).
Proof.
  intros Hk H. destruct k as [|p|p]; [|exists (iter_pos shr_1 p r); split; [done|apply iter_shr_repr, H]|lia].
  exists r. cbn [shr]. rewrite Z.add_0_r, Z.pow_0_r, Z.mul_1_l. done.
Qed.

(** the rounded mantissa is a nearest integer *)
Lemma round_nearest_even_repr r N D : repr r N D ->
  let R := round_nearest_even (shr_m r) (loc_of_shr_record r) in (R = N / D \/ R = N / D + 1) /\ 2 * Z.abs (R * D - N) <= D.
Proof.
  destruct r as [m r s]. intros (HD & HN & Hm & Hr & Hs). cbn [shr_m shr_r shr_s] in *. subst m.
  pose proof (Z.mod_pos_bound N D HD). pose proof (Z.div_mod N D ltac:(lia)) as E. set (q := N / D) in *. set (f := N mod D) in *.
  destruct r, s; cbn [loc_of_shr_record round_nearest_even];
    repeat match goal with
    | H : true = true <-> _ |- _ => destruct H as [H _]; specialize (H eq_refl)
    | H : false = true <-> ?P |- _ => assert (~ P) by (intros HP; apply H in HP; done); clear H
    end; try destruct (Z.even q); split; auto; nia.
Qed.

Lemma new_location_repr q r d : 0 < d -> 0 <= r < d -> 0 <= q -> repr (shr_record_of_loc q (new_location d r)) (q * d + r) d.
Proof.
  intros Hd Hr Hq. assert (Hm : (q * d + r) mod d = r) by (rewrite Z.add_comm, Z.mod_add, Z.mod_small; lia).
  assert (Hv : (q * d + r) / d = q) by (rewrite Z.add_comm, Z.div_add, Z.div_small; lia).
  unfold repr. rewrite Hm, Hv. unfold new_location, new_location_even, new_location_odd. pose proof (Z.even_spec d) as He. pose proof (Zmod_even d) as Hmod.
  destruct (Z.even d); destruct (Z.eqb_spec r 0); cbn [shr_record_of_loc shr_m shr_r shr_s];
    [split_and!; (lia || done || (split; [done|lia]))| |split_and!; (lia || done || (split; [done|lia]))|].
  - destruct (Z.compare_spec (2 * r) d); cbn [shr_record_of_loc shr_m shr_r shr_s]; split_and!; nia || (split; (done || lia)).
  - destruct (Z.compare_spec (2 * r + 1) d); cbn [shr_record_of_loc shr_m shr_r shr_s]; split_and!; nia || (split; (done || (Z.div_mod_to_equations; lia))).
Qed.

(** a mantissa of at least 53 bits is rounded to a nearest one of 53 bits *)
Lemma binary_round_aux_spec sx mx ex lx N D : 2 ^ 52 <= mx -> repr (shr_record_of_loc mx lx) N D ->
  -1074 <= ex -> ex + (Z.log2 mx - 52) + 1 <= 971 ->
  exists m e, binary_round_aux 53 1024 sx mx ex lx = S754_finite sx m e /\ 2 ^ 52 <= Z.pos m < 2 ^ 53 /\
    ex + (Z.log2 mx - 52) <= e <= ex + (Z.log2 mx - 52) + 1 /\ 2 * Z.abs (Z.pos m * 2 ^ (e - ex) * D - N) <= 2 ^ (e - ex) * D.
Proof.
  intros Hmx Hrep Hex Hov. unfold binary_round_aux, shr_fexp, fexp, emin. rewrite Zdigits2_log2 by lia.
  assert (Hlog : 52 <= Z.log2 mx) by (apply Z.log2_le_pow2; lia). set (k := Z.log2 mx - 52) in *.
  replace (Z.max _ _ - ex) with k by lia. destruct (shr_repr _ N D ex k ltac:(lia) Hrep) as (r & -> & Hr).
  assert (Hmant : 2 ^ 52 <= shr_m r < 2 ^ 53).
  { destruct Hrep as (HD & HN & Hm & _). assert (Em : shr_m (shr_record_of_loc mx lx) = mx) by (destruct lx as [|[]]; done). rewrite Em in Hm.
    destruct Hr as (_ & _ & -> & _). rewrite (Z.mul_comm (2 ^ k)), <- Z.div_div, <- Hm by lia.
    destruct (Z.log2_spec mx ltac:(lia)) as [Hlo Hhi]. replace (Z.log2 mx) with (52 + k) in Hlo by lia. replace (Z.succ (Z.log2 mx)) with (53 + k) in Hhi by lia.
    rewrite Z.pow_add_r in Hlo, Hhi by lia. split; [apply Z.div_le_lower_bound; lia|apply Z.div_lt_upper_bound; lia]. }
  destruct (round_nearest_even_repr _ _ _ Hr) as [HR Herr]. set (R := round_nearest_even _ _) in *.
  assert (HRm : 2 ^ 52 <= R <= 2 ^ 53) by (destruct Hr as (_ & _ & Em & _); lia).
  destruct (Z.eq_dec R (2 ^ 53)) as [Efull|Hlt].
  - rewrite Efull in *. change (Zdigits2 (2 ^ 53)) with 54. replace (Z.max (54 + (ex + k) - 53) _ - (ex + k)) with 1 by lia.
    cbn [shr shr_record_of_loc]. rewrite shr_1_eq by lia. cbn [shr_m]. change (2 ^ 53 / 2) with (Z.pos (2 ^ 52)%positive).
    destruct (Z.leb_spec (ex + k + 1) (1024 - 53)); [|lia]. eexists _, _. split; [reflexivity|]. split; [done|]. split; [lia|].
    replace (ex + k + 1 - ex) with (k + 1) by lia. rewrite Z.pow_add_r by lia. change (Z.pos (2 ^ 52)) with (2 ^ 52).
    replace (2 ^ 52 * (2 ^ k * 2 ^ 1) * D - N) with (2 ^ 53 * (2 ^ k * D) - N) by ring. lia.
  - assert (Hl2 : Z.log2 R = 52) by (apply Z.log2_unique; lia). rewrite Zdigits2_log2, Hl2 by lia.
    replace (Z.max (52 + 1 + (ex + k) - 53) _ - (ex + k)) with 0 by lia. cbn [shr shr_record_of_loc shr_m].
    destruct R as [|m|m]; [lia| |lia]. destruct (Z.leb_spec (ex + k) (1024 - 53)); [|lia].
    exists m, (ex + k). split; [done|]. split; [lia|]. split; [lia|]. replace (ex + k - ex) with k by lia. rewrite <- Z.mul_assoc. exact Herr.
Qed.

Lemma iter_xO p k : Z.pos (Pos.iter xO p k) = Z.pos p * 2 ^ Z.pos k.
Proof.
  revert k. apply Pos.peano_ind; [cbn; lia|]. intros k IH. rewrite Pos.iter_succ, Pos2Z.inj_xO, IH, Pos2Z.inj_succ, Z.pow_succ_r by lia. lia.
Qed.

(** an integer of at most 53 bits is converted exactly *)
Lemma double_of_spec n : 0 < n < 2 ^ 53 ->
  exists m, double_of n = S754_finite false m (Z.log2 n - 52) /\ Z.pos m = n * 2 ^ (52 - Z.log2 n) /\ 2 ^ 52 <= Z.pos m < 2 ^ 53.
Proof.
  intros Hn. pose proof (Z.log2_nonneg n). assert (Hl : Z.log2 n < 53) by (apply Z.log2_lt_pow2; lia).
  assert (Hb : 2 ^ 52 <= n * 2 ^ (52 - Z.log2 n) < 2 ^ 53).
  { destruct (Z.log2_spec n ltac:(lia)) as [Hlo Hhi]. replace (2 ^ 52) with (2 ^ Z.log2 n * 2 ^ (52 - Z.log2 n)) by (rewrite <- Z.pow_add_r by lia; f_equal; lia).
    replace (2 ^ 53) with (2 ^ Z.succ (Z.log2 n) * 2 ^ (52 - Z.log2 n)) by (rewrite <- Z.pow_add_r by lia; f_equal; lia). nia. }
  destruct n as [|p|p]; try lia. unfold double_of, binary_normalize, binary_round.
  change (Z.pos (digits2_pos p)) with (Zdigits2 (Z.pos p)). rewrite Zdigits2_log2 by lia. set (L := Z.log2 (Z.pos p)) in *.
  assert (Ha : exists m, shl_align p 0 (fexp 53 1024 (L + 1 + 0)) = (m, L - 52) /\ Z.pos m = Z.pos p * 2 ^ (52 - L)).
  { unfold shl_align, fexp, emin. replace (Z.max _ _ - 0) with (L - 52) by lia. replace (Z.max _ _) with (L - 52) by lia.
    destruct (L - 52) as [|d|d] eqn:Ed; [|lia|].
    - exists p. replace (52 - L) with 0 by lia. split; [done|lia].
    - eexists. split; [reflexivity|]. rewrite iter_xO. replace (52 - L) with (Z.pos d) by lia. done. }
  destruct Ha as (m & -> & Hm). exists m. split; [|split; [done|lia]]. unfold binary_round_aux, shr_fexp, fexp, emin.
  assert (Hlm : Z.log2 (Z.pos m) = 52) by (apply Z.log2_unique; lia). rewrite Zdigits2_log2, Hlm by lia.
  replace (Z.max _ _ - (L - 52)) with 0 by lia. cbn [shr shr_record_of_loc shr_m loc_of_shr_record round_nearest_even].
  rewrite Zdigits2_log2, Hlm by lia. replace (Z.max _ _ - (L - 52)) with 0 by lia. cbn [shr shr_record_of_loc shr_m].
  destruct (Z.leb_spec (L - 52) (1024 - 53)); [done|lia].
Qed.

(** a quotient of two integers is within half a unit in the last place *)
Lemma ddiv_spec a b : 0 < a < 2 ^ 53 -> 0 < b < 2 ^ 53 ->
  exists m e, ddiv (double_of a) (double_of b) = S754_finite false m e /\ 2 ^ 52 <= Z.pos m < 2 ^ 53 /\
    Z.log2 a - Z.log2 b - 53 <= e <= Z.log2 a - Z.log2 b - 51 /\
    (e <= 0 -> 2 * Z.abs (Z.pos m * b - a * 2 ^ (- e)) <= b).
Proof.
  intros Ha Hb. destruct (double_of_spec a Ha) as (ma & -> & Ema & Hma). destruct (double_of_spec b Hb) as (mb & -> & Emb & Hmb).
  pose proof (Z.log2_nonneg a). pose proof (Z.log2_nonneg b). assert (Z.log2 a < 53) by (apply Z.log2_lt_pow2; lia). assert (Z.log2 b < 53) by (apply Z.log2_lt_pow2; lia).
  set (la := Z.log2 a) in *. set (lb := Z.log2 b) in *. unfold ddiv, SFdiv, SFdiv_core_binary.
  assert (Hla : Z.log2 (Z.pos ma) = 52) by (apply Z.log2_unique; lia). assert (Hlb : Z.log2 (Z.pos mb) = 52) by (apply Z.log2_unique; lia).
  rewrite !Zdigits2_log2, Hla, Hlb by lia. unfold fexp, emin. set (ex := Z.min _ _). assert (Eex : ex = la - lb - 53) by (unfold ex; lia).
  replace (la - 52 - (lb - 52) - ex) with 53 by lia. rewrite Z.shiftl_mul_pow2 by lia.
  pose proof (Z_div_mod (Z.pos ma * 2 ^ 53) (Z.pos mb) ltac:(lia)) as Hqr. destruct (Z.div_eucl _ _) as [q r]. destruct Hqr as [Hq Hr].
  assert (Hqb : 2 ^ 52 <= q < 2 ^ 54) by nia. pose proof (new_location_repr q r (Z.pos mb) ltac:(lia) Hr ltac:(lia)) as Hrep.
  assert (Hlq : 52 <= Z.log2 q <= 53) by (split; [apply Z.log2_le_pow2; lia|apply Z.lt_succ_r, Z.log2_lt_pow2; lia]).
  destruct (binary_round_aux_spec false q ex _ _ _ ltac:(lia) Hrep ltac:(lia) ltac:(lia)) as (m & e & E & Hm & He & Herr).
  exists m, e. cbn [xorb]. rewrite E. split; [done|]. split; [lia|]. split; [lia|]. intros He0.
  replace (q * Z.pos mb + r) with (Z.pos ma * 2 ^ 53) in Herr by lia.
  (* both sides carry the same power of two *)
  set (P := 2 ^ (e - la + 105)). assert (HP : 0 < P) by (apply Z.pow_pos_nonneg; lia).
  assert (E1 : 2 ^ (e - ex) * Z.pos mb = P * b).
  { rewrite Emb. unfold P. replace (e - la + 105) with (e - ex + (52 - lb)) by lia. rewrite Z.pow_add_r by lia. ring. }
  assert (E2 : Z.pos ma * 2 ^ 53 = P * (a * 2 ^ (- e))).
  { rewrite Ema. unfold P. transitivity (a * 2 ^ (105 - la)); [replace (105 - la) with (52 - la + 53) by lia|
      replace (105 - la) with (e - la + 105 + - e) by lia]; rewrite Z.pow_add_r by lia; ring. }
  rewrite <- Z.mul_assoc, E1, E2 in Herr. replace (Z.pos m * (P * b) - P * (a * 2 ^ (- e))) with (P * (Z.pos m * b - a * 2 ^ (- e))) in Herr by ring.
  rewrite Z.abs_mul, (Z.abs_eq P) in Herr by lia. nia.
Qed.

Lemma exact_repr m : 0 <= m -> repr (shr_record_of_loc m loc_Exact) m 1.
Proof.
  intros Hm. unfold repr. cbn [shr_record_of_loc shr_m shr_r shr_s]. rewrite Z.div_1_r, Z.mod_1_r.
  split_and!; [lia|lia|done|split; [done|lia]|split; [done|lia]].
Qed.

(** a larger integer is converted to a nearest double *)
Lemma double_of_large n : 2 ^ 53 <= n < 2 ^ 63 ->
  exists m e, double_of n = S754_finite false m e /\ 2 ^ 52 <= Z.pos m < 2 ^ 53 /\ 1 <= e <= 11 /\ 2 * Z.abs (Z.pos m * 2 ^ e - n) <= 2 ^ e.
Proof.
  intros Hn. destruct n as [|p|p]; try lia. unfold double_of, binary_normalize, binary_round.
  assert (Hlog : 53 <= Z.log2 (Z.pos p) < 63) by (split; [apply Z.log2_le_pow2; lia|apply Z.log2_lt_pow2; lia]).
  assert (Ha : shl_align p 0 (fexp 53 1024 (Z.pos (digits2_pos p) + 0)) = (p, 0)).
  { change (Z.pos (digits2_pos p)) with (Zdigits2 (Z.pos p)). rewrite Zdigits2_log2 by lia. unfold shl_align, fexp, emin.
    replace (Z.max _ _ - 0) with (Z.log2 (Z.pos p) - 52) by lia. destruct (Z.log2 (Z.pos p) - 52) eqn:E; done || lia. }
  rewrite Ha. assert (Hrep : repr (shr_record_of_loc (Z.pos p) loc_Exact) (Z.pos p) 1) by (apply exact_repr; lia).
  destruct (binary_round_aux_spec false (Z.pos p) 0 _ _ _ ltac:(lia) Hrep ltac:(lia) ltac:(lia)) as (m & e & -> & Hm & He & Herr).
  exists m, e. split; [done|]. split; [done|]. split; [lia|]. rewrite Z.sub_0_r in Herr. lia.
Qed.

(** a product is within half a unit in the last place *)
Lemma dmul_spec m1 e1 m2 e2 : 2 ^ 52 <= Z.pos m1 < 2 ^ 53 -> 2 ^ 52 <= Z.pos m2 < 2 ^ 53 -> -1074 <= e1 + e2 -> e1 + e2 + 54 <= 971 ->
  exists m e, dmul (S754_finite false m1 e1) (S754_finite false m2 e2) = S754_finite false m e /\ 2 ^ 52 <= Z.pos m < 2 ^ 53 /\
    52 <= e - (e1 + e2) <= 54 /\ 2 * Z.abs (Z.pos m * 2 ^ (e - (e1 + e2)) - Z.pos m1 * Z.pos m2) <= 2 ^ (e - (e1 + e2)).
Proof.
  intros H1 H2 Hlo Hhi. unfold dmul, SFmul. set (p := (m1 * m2)%positive). assert (Hp : Z.pos p = Z.pos m1 * Z.pos m2) by (unfold p; lia).
  assert (Hb : 2 ^ 104 <= Z.pos p < 2 ^ 106) by (rewrite Hp; change (2 ^ 104) with (2 ^ 52 * 2 ^ 52); change (2 ^ 106) with (2 ^ 53 * 2 ^ 53); nia).
  assert (Hlog : 104 <= Z.log2 (Z.pos p) < 106) by (split; [apply Z.log2_le_pow2; lia|apply Z.log2_lt_pow2; lia]).
  assert (Hrep : repr (shr_record_of_loc (Z.pos p) loc_Exact) (Z.pos p) 1) by (apply exact_repr; lia).
  destruct (binary_round_aux_spec (xorb false false) (Z.pos p) (e1 + e2) _ _ _ ltac:(lia) Hrep ltac:(lia) ltac:(lia)) as (m & e & -> & Hm & He & Herr).
  exists m, e. split; [done|]. split; [done|]. split; [lia|]. rewrite <- Hp. lia.
Qed.

(** [std::llround] is a nearest integer *)
Lemma double_llround_spec m e : Z.pos m < 2 ^ 53 -> e <= 0 ->
  exists z, double_llround (S754_finite false m e) = Some z /\ 0 <= z /\ 2 * Z.abs (z * 2 ^ (- e) - Z.pos m) <= 2 ^ (- e).
Proof.
  intros Hm He. unfold double_llround. destruct (Z.eq_dec e 0) as [->|He0].
  - exists (Z.pos m). replace (Z.shiftr _ 1) with (Z.pos m); [|rewrite Z.shiftl_mul_pow2, Z.shiftr_div_pow2 by lia; cbn [Z.add]; Z.div_mod_to_equations; lia].
    rewrite decide_True by (unfold sfits; lia). split; [done|]. lia.
  - set (H := 2 ^ (- e - 1)). assert (HH : 0 < H) by (apply Z.pow_pos_nonneg; lia).
    assert (EW : 2 ^ (- e) = 2 * H) by (unfold H; rewrite <- Z.pow_succ_r by lia; f_equal; lia). rewrite EW.
    replace (Z.shiftl (Z.pos m) (e + 1)) with (Z.pos m / H).
    2: { unfold H. replace (e + 1) with (- (- e - 1)) by lia. rewrite <- Z.shiftr_div_pow2 by lia. done. }
    rewrite Z.shiftr_div_pow2 by lia. pose proof (Z.div_mod (Z.pos m) H ltac:(lia)). pose proof (Z.mod_pos_bound (Z.pos m) H ltac:(lia)).
    set (q := Z.pos m / H) in *. assert (Hq : 0 <= q <= Z.pos m) by (split; [apply Z.div_pos; lia|apply Z.div_le_upper_bound; nia]).
    exists ((q + 1) / 2 ^ 1). pose proof (Z.div_mod (q + 1) 2 ltac:(lia)). pose proof (Z.mod_pos_bound (q + 1) 2 ltac:(lia)). change (2 ^ 1) with 2.
    rewrite decide_True by (unfold sfits; lia). split; [done|]. nia.
Qed.
