(* ===== verification/Params.v ===== *)
(** * Consensus parameters

    [Consensus::Params] of src/consensus/params.h with the members its
    operations and the modelled code read, the money constants of
    src/consensus/amount.h and the subsidy schedule [GetBlockSubsidy] of
    src/validation.cpp.  The target spacing is interpolated in [double]
    arithmetic, as in the source. *)

From Stdlib Require Import ZArith Lia.
From stdpp Require Import base option list decidable.
From S2P Require Import Prelude Uint256 Binary64.
Local Open Scope Z_scope.
Local Open Scope adonai_scope.

(** ** src/consensus/params.h *)

Inductive BuriedDeployment : Type :=
  | DEPLOYMENT_HEIGHTINCB
  | DEPLOYMENT_CLTV
  | DEPLOYMENT_DERSIG
  | DEPLOYMENT_CSV
  | DEPLOYMENT_SEGWIT.

Inductive DeploymentPos : Type :=
  | DEPLOYMENT_TESTDUMMY
  | DEPLOYMENT_TAPROOT.

#[export] Instance DeploymentPos_eq_dec : EqDecision DeploymentPos.
Proof. solve_decision. Defined.
#[export] Instance BuriedDeployment_eq_dec : EqDecision BuriedDeployment.
Proof. solve_decision. Defined.

Definition NO_TIMEOUT : Z := 2 ^ 63 - 1.
Definition ALWAYS_ACTIVE : Z := -1.
Definition NEVER_ACTIVE : Z := -2.

Record BIP9Deployment : Type := {
  bit : Z;
  nStartTime : Z;
  nTimeout : Z;
  min_activation_height : Z;
  period : Z;
  threshold : Z;
}.

(** [nCoinbaseMaturity] is [None] where the constructor leaves the member
    uninitialised. *)
Record Params : Type := {
  nSubsidyInitial : Z;
  nCoinbaseMaturity : option Z;
  hashGenesisBlock : uint256;
  nSubsidyHalvingInterval : Z;
  script_flag_exceptions : list (uint256 * Z);
  BIP34Height : Z;
  BIP34Hash : uint256;
  BIP65Height : Z;
  BIP66Height : Z;
  CSVHeight : Z;
  SegwitHeight : Z;
  MinBIP9WarningHeight : Z;
  vDeployments : DeploymentPos -> BIP9Deployment;
  powLimit : uint256;
  fPowAllowMinDifficultyBlocks : bool;
  enforce_BIP94 : bool;
  fPowNoRetargeting : bool;
  nPowTargetSpacing : Z;
  nPowAveragingWindow : Z;
  powSpacingRamps : list (Z * Z);
  nMinimumChainWork : uint256;
  defaultAssumeValid : uint256;
  signet_blocks : bool;
  signet_challenge : list Z;
}.

(** one stage of the ramp: [s1 + static_cast<int64_t>((s2 - s1) * alpha)] *)
Definition ramp_interpolate (height h1 s1 h2 s2 : Z) : option Z :=
  let alpha := ddiv (double_of (height - h1)) (double_of (h2 - h1)) in
  d ← double_trunc 64 (dmul (double_of (s2 - s1)) alpha);
  Some (s1 + d).

(** the [for] loop of [GetTargetSpacing]; [None] of the outer option is
    falling through the loop *)
Fixpoint ramp_loop (height : Z) (prev : Z * Z) (stages : list (Z * Z)) : option (option Z) :=
  match stages with
  | [] => None
  | stage :: stages =>
      if height <=? stage.1 then
        let h1 := prev.1 in let h2 := stage.1 in
        let s1 := prev.2 in let s2 := stage.2 in
        Some (if h2 =? h1 then Some s2 else ramp_interpolate height h1 s1 h2 s2)
      else ramp_loop height stage stages
  end.

(** [Params::GetTargetSpacing]; [None] is a conversion outside [int64_t] *)
Definition GetTargetSpacing (params : Params) (height : Z) : option Z :=
  match powSpacingRamps params with
  | [] => Some (nPowTargetSpacing params)
  | prev :: _ =>
      if height <=? prev.1 then Some prev.2
      else match ramp_loop height prev (powSpacingRamps params) with
           | Some r => r
           | None => Some (List.last (powSpacingRamps params) prev).2
           end
  end.

Definition DifficultyAdjustmentInterval (params : Params) : Z := nPowAveragingWindow params.

Definition DeploymentHeight (params : Params) (dep : BuriedDeployment) : Z :=
  match dep with
  | DEPLOYMENT_HEIGHTINCB => BIP34Height params
  | DEPLOYMENT_CLTV => BIP65Height params
  | DEPLOYMENT_DERSIG => BIP66Height params
  | DEPLOYMENT_CSV => CSVHeight params
  | DEPLOYMENT_SEGWIT => SegwitHeight params
  end.

(** ** src/consensus/consensus.h *)

Definition MAX_BLOCK_WEIGHT : Z := 4000000.
Definition MAX_BLOCK_SIGOPS_COST : Z := 80000.
Definition COINBASE_MATURITY : Z := 100.
Definition WITNESS_SCALE_FACTOR : Z := 4.
Definition MIN_TRANSACTION_WEIGHT : Z := WITNESS_SCALE_FACTOR * 60.
Definition LOCKTIME_VERIFY_SEQUENCE : Z := Z.shiftl 1 0.
Definition MAX_TIMEWARP : Z := 600.

(** ** src/consensus/amount.h *)

Definition COIN : Z := 100000000.
Definition MAX_MONEY : Z := 100915200 * COIN.
Definition MoneyRange (nValue : Z) : bool := (nValue >=? 0) && (nValue <=? MAX_MONEY).

(** ** src/validation.cpp: [GetBlockSubsidy] *)

Definition GetBlockSubsidy (nHeight : Z) (params : Params) : Z :=
  let halvings := Z.quot nHeight (nSubsidyHalvingInterval params) in
  if halvings >=? 64 then 0 else Z.shiftr (nSubsidyInitial params) halvings.

(** ** The subsidy schedule *)

(** The coins created by the blocks below height [n]. *)
Fixpoint total_subsidy (params : Params) (n : nat) : Z :=
  match n with
  | O => 0
  | S n => total_subsidy params n + GetBlockSubsidy (Z.of_nat n) params
  end.

(** The subsidy of the [k]-th halving era, and the sum of the first [k] eras. *)
Definition era_subsidy (params : Params) (k : Z) : Z :=
  if k >=? 64 then 0 else Z.shiftr (nSubsidyInitial params) k.
Fixpoint era_sum (params : Params) (k : nat) : Z :=
  match k with
  | O => 0
  | S k => era_sum params k + nSubsidyHalvingInterval params * era_subsidy params (Z.of_nat k)
  end.

Section Subsidy.
Context (params : Params).
Context (Hinterval : 0 < nSubsidyHalvingInterval params).
Context (Hinitial : 0 <= nSubsidyInitial params < 2 ^ 63).

Lemma subsidy_era h : 0 <= h ->
  GetBlockSubsidy h params = era_subsidy params (h / nSubsidyHalvingInterval params).
Proof. intros Hh. unfold GetBlockSubsidy, era_subsidy. rewrite Z.quot_div_nonneg by lia. reflexivity. Qed.

Lemma era_subsidy_succ k : 0 <= k -> era_subsidy params (k + 1) = era_subsidy params k / 2.
Proof.
  intros Hk. unfold era_subsidy. rewrite !Z.geb_leb.
  destruct (Z.leb_spec 64 k), (Z.leb_spec 64 (k + 1)); try lia; [done| |].
  - assert (k = 63) as -> by lia. rewrite Z.shiftr_div_pow2, Z.div_div by lia.
    rewrite Z.div_small; [done|]. change (2 ^ 63 * 2) with (2 * 2 ^ 63). lia.
  - rewrite <- Z.shiftr_shiftr by lia. rewrite Z.shiftr_div_pow2 by lia. reflexivity.
Qed.

Lemma era_subsidy_nonneg k : 0 <= era_subsidy params k.
Proof.
  unfold era_subsidy. case_bool; [lia|]. apply Z.shiftr_nonneg. lia.
Qed.

(** Halving: one interval later the subsidy is half, rounded down. *)
Lemma subsidy_halves h : 0 <= h ->
  GetBlockSubsidy (h + nSubsidyHalvingInterval params) params = GetBlockSubsidy h params / 2.
Proof.
  intros Hh. rewrite !subsidy_era by lia.
  replace (h + nSubsidyHalvingInterval params) with (h + 1 * nSubsidyHalvingInterval params) by lia.
  rewrite Z.div_add by lia. apply era_subsidy_succ. apply Z.div_pos; lia.
Qed.

(** All full eras, plus the blocks of the era in progress. *)
Lemma total_subsidy_closed n :
  let k := Z.of_nat n / nSubsidyHalvingInterval params in
  total_subsidy params n =
    era_sum params (Z.to_nat k) +
    (Z.of_nat n - k * nSubsidyHalvingInterval params) * era_subsidy params k.
Proof.
  set (I := nSubsidyHalvingInterval params) in *. induction n as [|n IH].
  - change (Z.of_nat 0) with 0. rewrite Z.div_0_l by lia. reflexivity.
  - cbn zeta in *. cbn [total_subsidy]. rewrite IH, subsidy_era by lia. fold I.
    set (k := Z.of_nat n / I) in *.
    assert (Hk : 0 <= k) by (apply Z.div_pos; lia).
    assert (Hn : k * I <= Z.of_nat n < (k + 1) * I)
      by (subst k; pose proof (Z.div_mod (Z.of_nat n) I); pose proof (Z.mod_pos_bound (Z.of_nat n) I); nia).
    destruct (Z.eq_dec (Z.of_nat n + 1) ((k + 1) * I)) as [E|E].
    + assert (Z.of_nat (S n) / I = k + 1) as -> by
        (replace (Z.of_nat (S n)) with ((k + 1) * I) by lia; apply Z.div_mul; lia).
      replace (Z.to_nat (k + 1)) with (S (Z.to_nat k)) by lia. cbn [era_sum]. fold I.
      rewrite Z2Nat.id by lia. nia.
    + assert (Z.of_nat (S n) / I = k) as -> by (symmetry; apply Z.div_unique with (Z.of_nat (S n) - k * I); lia).
      nia.
Qed.

Lemma era_sum_bound k :
  era_sum params k + 2 * nSubsidyHalvingInterval params * era_subsidy params (Z.of_nat k)
    <= 2 * nSubsidyHalvingInterval params * nSubsidyInitial params.
Proof.
  induction k as [|k IH]; cbn [era_sum].
  - change (era_subsidy params (Z.of_nat 0)) with (Z.shiftr (nSubsidyInitial params) 0).
    rewrite Z.shiftr_0_r. lia.
  - replace (Z.of_nat (S k)) with (Z.of_nat k + 1) by lia. rewrite era_subsidy_succ by lia.
    pose proof (era_subsidy_nonneg (Z.of_nat k)).
    assert (2 * (era_subsidy params (Z.of_nat k) / 2) <= era_subsidy params (Z.of_nat k))
      by (apply Z.mul_div_le; lia). nia.
Qed.

Lemma total_subsidy_bound n :
  0 <= total_subsidy params n <= 2 * nSubsidyHalvingInterval params * nSubsidyInitial params.
Proof.
  split.
  - induction n as [|n IH]; cbn [total_subsidy]; [lia|].
    rewrite subsidy_era by lia. pose proof (era_subsidy_nonneg (Z.of_nat n / nSubsidyHalvingInterval params)). lia.
  - rewrite total_subsidy_closed.
    set (I := nSubsidyHalvingInterval params) in *. set (k := Z.of_nat n / I).
    assert (Hk : 0 <= k) by (apply Z.div_pos; lia).
    pose proof (era_sum_bound (Z.to_nat k)) as H. fold I in H. rewrite Z2Nat.id in H by lia.
    pose proof (era_subsidy_nonneg k).
    assert (Z.of_nat n - k * I <= I)
      by (subst k; pose proof (Z.div_mod (Z.of_nat n) I); pose proof (Z.mod_pos_bound (Z.of_nat n) I); nia).
    nia.
Qed.

End Subsidy.

(** The subsidy schedule of any chain with a positive halving interval:
    one interval later a block pays half (rounded down), the coins created by the
    first [n] blocks are the full eras plus the era in progress, and all blocks
    together never create more than [2 * interval * initial]. *)
Theorem subsidy_schedule params :
  0 < nSubsidyHalvingInterval params -> 0 <= nSubsidyInitial params < 2 ^ 63 ->
  (forall h, 0 <= h ->
     GetBlockSubsidy (h + nSubsidyHalvingInterval params) params = GetBlockSubsidy h params / 2) /\
  (forall n, let k := Z.of_nat n / nSubsidyHalvingInterval params in
     total_subsidy params n =
       era_sum params (Z.to_nat k) +
       (Z.of_nat n - k * nSubsidyHalvingInterval params) * era_subsidy params k) /\
  (forall n, 0 <= total_subsidy params n
               <= 2 * nSubsidyHalvingInterval params * nSubsidyInitial params).
Proof.
  intros Hi H0. split_and!.
  - intros h. apply subsidy_halves; assumption.
  - intros n. apply total_subsidy_closed; assumption.
  - intros n. apply total_subsidy_bound; assumption.
Qed.
