(* ===== verification/FeeModel.v ===== *)
(** * Fee rates and the fee model

    src/policy/feerate.h and src/policy/feerate.cpp: a fee rate and the fee of a size;
    src/policy/feemodel.h and src/policy/feemodel.cpp: the fee a transaction should pay
    for its size and its value; src/policy/hybridfee.h: the fee relay requires.

    [None] is undefined behaviour: a signed overflow, a conversion out of range, or
    [std::clamp] with its bounds the wrong way round. *)

From Stdlib Require Import ZArith Lia Bool Floats.SpecFloat.
From stdpp Require Import base option.
From S2P Require Import Prelude Binary64 Binary64Proofs Params.
Local Open Scope Z_scope.

(** [std::clamp(v, lo, hi)] *)
Definition clamp (v lo hi : Z) : option Z := if hi <? lo then None else Some (if v <? lo then lo else if hi <? v then hi else v).

(** a value of [int64_t], or undefined *)
Definition int64 (z : Z) : option Z := if decide (sfits 64 z) then Some z else None.

(** ** Fee rates: an amount for 1000 virtual bytes *)

Notation CFeeRate := Z.

(** [CFeeRate(nFeePaid, num_bytes)] *)
Definition CFeeRate_of (nFeePaid num_bytes : Z) : option CFeeRate :=
  if num_bytes >? 0 then p ← int64 (nFeePaid * 1000); Some (Z.quot p num_bytes) else Some 0.

Definition GetFee (nSatoshisPerK num_bytes : Z) : option Z :=
  let nSize := num_bytes in
  p ← int64 (nSatoshisPerK * nSize);
  nFee ← double_ceil 64 (ddiv (double_of p) (double_of 1000));
  Some (if (nFee =? 0) && negb (nSize =? 0) then
          if nSatoshisPerK <? 0 then -1 else if nSatoshisPerK >? 0 then 1 else nFee
        else nFee).

(** ** The model *)

Record FeeModel : Type := { alpha : CFeeRate; beta : double; min_fee : Z; max_fee : Z }.

Definition DEFAULT_FEE_MODEL_ALPHA : Z := 100.
(** the literal 0.000005: the double nearest to 5 / 1000000 *)
Definition DEFAULT_FEE_MODEL_BETA : double := ddiv (double_of 5) (double_of 1000000).
Definition DEFAULT_FEE_MODEL_MIN : Z := 100.
Definition DEFAULT_FEE_MODEL_MAX : Z := 1000000.
Definition g_fee_model : FeeModel :=
  {| alpha := DEFAULT_FEE_MODEL_ALPHA; beta := DEFAULT_FEE_MODEL_BETA; min_fee := DEFAULT_FEE_MODEL_MIN; max_fee := DEFAULT_FEE_MODEL_MAX |}.

(** [weight] is converted to the unsigned 32-bit argument of [GetFee] *)
Definition CalculateFee (model : FeeModel) (weight value : Z) (consolidation : bool) : option Z :=
  base ← GetFee (alpha model) (u32 weight);
  proportional ← double_llround (dmul (beta model) (double_of value));
  fee ← int64 (base + proportional);
  clamp (if consolidation then Z.quot fee 2 else fee) (min_fee model) (max_fee model).

(** the options that set the model: a parsed amount or number, or a text that is none *)
Inductive parsed (A : Type) : Type := Absent | Malformed | Parsed (a : A).
Arguments Absent {A}.
Arguments Malformed {A}.
Arguments Parsed {A} a.

Definition set_alpha (a : Z) (m : FeeModel) : FeeModel := {| alpha := a; beta := beta m; min_fee := min_fee m; max_fee := max_fee m |}.
Definition set_beta (b : double) (m : FeeModel) : FeeModel := {| alpha := alpha m; beta := b; min_fee := min_fee m; max_fee := max_fee m |}.
Definition set_min (a : Z) (m : FeeModel) : FeeModel := {| alpha := alpha m; beta := beta m; min_fee := a; max_fee := max_fee m |}.
Definition set_max (a : Z) (m : FeeModel) : FeeModel := {| alpha := alpha m; beta := beta m; min_fee := min_fee m; max_fee := a |}.

Definition apply_arg {A} (arg : parsed A) (set : A -> FeeModel -> FeeModel) (r : FeeModel + FeeModel) : FeeModel + FeeModel :=
  match r, arg with
  | inl m, Parsed a => inl (set a m)
  | inl m, Malformed => inr m
  | _, _ => r
  end.

(** [inr] is an error, with the model as it was left *)
Definition ApplyArgsManFeeModel (feemodelalpha : parsed Z) (feemodelbeta : parsed double) (feemodelmin feemodelmax : parsed Z)
    (model : FeeModel) : FeeModel + FeeModel :=
  apply_arg feemodelmax set_max (apply_arg feemodelmin set_min (apply_arg feemodelbeta set_beta (apply_arg feemodelalpha set_alpha (inl model)))).

(** ** The fee relay requires: the function of the same name and fewer arguments *)

Definition DEFAULT_MIN_RELAY_TX_FEE : Z := 1000.
Definition CalculateRelayFee (weight value_out : Z) (consolidation : bool) : option Z := GetFee DEFAULT_MIN_RELAY_TX_FEE (u32 weight).

(** ** The fee of a size is rounded up *)

Lemma double_ceil_thousandth n : 0 <= n < 2 ^ 53 -> double_ceil 64 (ddiv (double_of n) (double_of 1000)) = Some ((n + 999) / 1000).
Proof.
  intros Hn. destruct (Z.eq_dec n 0) as [->|Hn0]; [vm_compute; reflexivity|].
  destruct (ddiv_spec n 1000 ltac:(lia) ltac:(lia)) as (m & e & -> & Hm & He & Herr).
  assert (Hlog : Z.log2 n < 53) by (apply Z.log2_lt_pow2; lia). change (Z.log2 1000) with 9 in He. specialize (Herr ltac:(lia)).
  assert (He9 : e <= -9).
  { assert (e <= -8) by lia. destruct (Z.eq_dec e (-8)) as [->|]; [|lia]. change (2 ^ - -8) with 256 in Herr. lia. }
  set (W := 2 ^ (- e)) in *. assert (HW : 512 <= W) by (change 512 with (2 ^ 9); apply Z.pow_le_mono_r; lia).
  assert (Hfloor : mag_floor m e = Z.pos m / W) by (unfold mag_floor, W; rewrite <- (Z.opp_involutive e) at 1; apply Z.shiftr_div_pow2; lia).
  assert (Hexact : mag_exact m e = (Z.pos m / W * W =? Z.pos m)) by (unfold mag_exact; rewrite Hfloor, Z.shiftl_mul_pow2 by lia; done).
  pose proof (Z.div_mod n 1000 ltac:(lia)) as Ek. pose proof (Z.mod_pos_bound n 1000 ltac:(lia)) as Hf.
  set (k := n / 1000) in *. set (f := n mod 1000) in *. unfold double_ceil. rewrite Hfloor, Hexact.
  assert (Hk : 0 <= k < 2 ^ 53) by lia. destruct (Z.eq_dec f 0) as [Hf0|Hf0].
  - assert (Em : Z.pos m = k * W) by nia. rewrite Em, Z.div_mul, Z.eqb_refl by lia.
    replace ((n + 999) / 1000) with k by (Z.div_mod_to_equations; lia). rewrite decide_True by (unfold sfits; lia). done.
  - assert (Hlo : k * W < Z.pos m) by nia. assert (Hhi : Z.pos m < (k + 1) * W) by nia.
    assert (Ed : Z.pos m / W = k) by (symmetry; apply Z.div_unique with (Z.pos m - k * W); lia). rewrite Ed.
    destruct (Z.eqb_spec (k * W) (Z.pos m)); [lia|]. replace ((n + 999) / 1000) with (k + 1) by (Z.div_mod_to_equations; lia).
    rewrite decide_True by (unfold sfits; lia). done.
Qed.

Lemma GetFee_spec rate size : 0 <= rate -> 0 <= size -> rate * size < 2 ^ 53 -> GetFee rate size = Some ((rate * size + 999) / 1000).
Proof.
  intros Hr Hs Hp. unfold GetFee, int64. rewrite decide_True by (unfold sfits; nia). cbn [mbind option_bind].
  rewrite double_ceil_thousandth by nia. cbn [mbind option_bind]. f_equal.
  destruct (Z.eqb_spec ((rate * size + 999) / 1000) 0) as [E|]; [|done]. cbn [andb].
  assert (rate * size = 0) by (assert (0 <= rate * size) by nia; Z.div_mod_to_equations; lia).
  destruct (Z.eqb_spec size 0); cbn [negb]; [done|]. assert (rate = 0) as -> by nia. done.
Qed.

(** ** The default model *)

Lemma beta_value : DEFAULT_FEE_MODEL_BETA = S754_finite false 5902958103587057 (-70).
Proof. vm_compute. reflexivity. Qed.

(** the conversion of an amount, and how far it is from the amount *)
Lemma double_of_amount v : 0 < v <= MAX_MONEY -> exists m e, double_of v = S754_finite false m e /\ 2 ^ 52 <= Z.pos m < 2 ^ 53 /\ -52 <= e <= 2 /\
  exists w, Z.pos m * 2 ^ 70 = w * 2 ^ (70 - e) /\ Z.abs (w - v) <= 2.
Proof.
  unfold MAX_MONEY, COIN. intros Hv. destruct (Z.lt_ge_cases v (2 ^ 53)) as [Hs|Hl].
  - destruct (double_of_spec v ltac:(lia)) as (m & E & Em & Hm). pose proof (Z.log2_nonneg v). assert (Z.log2 v < 53) by (apply Z.log2_lt_pow2; lia).
    exists m, (Z.log2 v - 52). split; [exact E|]. split; [exact Hm|]. split; [lia|]. exists v. split; [|lia].
    rewrite Em. replace (70 - (Z.log2 v - 52)) with (52 - Z.log2 v + 70) by lia. rewrite Z.pow_add_r by lia. ring.
  - destruct (double_of_large v ltac:(lia)) as (m & e & E & Hm & He & Herr). exists m, e.
    assert (He2 : e <= 2).
    { destruct (Z.le_gt_cases e 2); [done|]. assert (H8 : 2 ^ 3 <= 2 ^ e) by (apply Z.pow_le_mono_r; lia). change (2 ^ 3) with 8 in H8. nia. }
    split; [exact E|]. split; [exact Hm|]. split; [lia|]. exists (Z.pos m * 2 ^ e). split.
    + rewrite <- Z.mul_assoc, <- Z.pow_add_r by lia. do 2 f_equal. lia.
    + assert (H4 : 2 ^ e <= 2 ^ 2) by (apply Z.pow_le_mono_r; lia). change (2 ^ 2) with 4 in H4. lia.
Qed.

(** the part of the fee in proportion to the value is within one unit of 0.0005% *)
Lemma proportional_fee v : 0 <= v <= MAX_MONEY ->
  exists z, double_llround (dmul DEFAULT_FEE_MODEL_BETA (double_of v)) = Some z /\ 0 <= z /\ Z.abs (200000 * z - v) < 200000.
Proof.
  intros Hv. destruct (Z.eq_dec v 0) as [->|Hv0]; [exists 0; vm_compute; split; [reflexivity|split; [discriminate|reflexivity]]|].
  destruct (double_of_amount v ltac:(lia)) as (mv & ev & -> & Hmv & Hev & w & Ew & Hw). rewrite beta_value.
  destruct (dmul_spec 5902958103587057 (-70) mv ev ltac:(lia) Hmv ltac:(lia) ltac:(lia)) as (m & e & -> & Hm & Hs & Herr).
  destruct (double_llround_spec m e ltac:(lia) ltac:(lia)) as (z & -> & Hz & Hr). exists z. split; [done|]. split; [done|].
  set (A := 2 ^ (- e)) in *. set (B := 2 ^ (e - (-70 + ev))) in *. set (T := 2 ^ (70 - ev)) in *.
  assert (ET : T = A * B) by (unfold T, A, B; rewrite <- Z.pow_add_r by lia; f_equal; lia).
  assert (HA : 2 ^ 14 <= A) by (apply Z.pow_le_mono_r; lia). assert (HB : 0 < B) by (apply Z.pow_pos_nonneg; lia).
  assert (HT : 2 ^ 68 <= T) by (apply Z.pow_le_mono_r; lia).
  assert (H1 : 2 * Z.abs (z * T - 5902958103587057 * Z.pos mv) <= B + T) by (rewrite ET; nia).
  assert (HBT : B * 2 ^ 14 <= T) by (rewrite ET; nia).
  assert (H2 : Z.abs (200000 * z * T - w * T) <= 100000 * (B + T) + 96576 * Z.pos mv) by (rewrite <- Ew; lia).
  replace (200000 * z * T - w * T) with ((200000 * z - w) * T) in H2 by ring. rewrite Z.abs_mul, (Z.abs_eq T) in H2 by lia.
  assert (H3 : Z.abs (200000 * z - w) * T <= 100010 * T) by lia. apply Z.mul_le_mono_pos_r in H3; lia.
Qed.

Lemma default_fee value consolidation : MoneyRange value = true ->
  exists r, Z.abs (200000 * r - value) < 200000 /\ 0 <= r /\ forall weight, fits 32 weight ->
    CalculateFee g_fee_model weight value consolidation =
      Some (Z.max 100 (Z.min 1000000 (let fee := (weight + 9) / 10 + r in if consolidation then fee / 2 else fee))).
Proof.
  intros Hm. apply andb_true_iff in Hm as [H0 H1]. rewrite Z.geb_le in H0. apply Z.leb_le in H1.
  destruct (proportional_fee value ltac:(lia)) as (r & Er & Hr & Hd). exists r. split; [exact Hd|]. split; [exact Hr|]. intros weight Hw.
  unfold fits in Hw. unfold CalculateFee, g_fee_model. cbn [alpha beta min_fee max_fee]. unfold DEFAULT_FEE_MODEL_ALPHA, DEFAULT_FEE_MODEL_MIN, DEFAULT_FEE_MODEL_MAX.
  rewrite wrap_small by (unfold fits; lia). rewrite GetFee_spec by lia. cbn [mbind option_bind]. rewrite Er. cbn [mbind option_bind].
  replace ((100 * weight + 999) / 1000) with ((weight + 9) / 10) by (Z.div_mod_to_equations; lia).
  assert (Hb : 0 <= (weight + 9) / 10 < 2 ^ 32) by (Z.div_mod_to_equations; lia). unfold MAX_MONEY, COIN in H1.
  unfold int64. rewrite decide_True by (unfold sfits; lia). cbn [mbind option_bind]. set (fee := _ + r).
  replace (if consolidation then Z.quot fee 2 else fee) with (if consolidation then fee / 2 else fee) by (rewrite Z.quot_div_nonneg by lia; done).
  unfold clamp. cbn [Z.ltb Z.compare Pos.compare Pos.compare_cont]. f_equal.
  set (x := if consolidation then _ else _). destruct (Z.ltb_spec x 100); [lia|]. destruct (Z.ltb_spec 1000000 x); lia.
Qed.

(** The fee of the default model.  For every size and every amount in range it is
    defined: a tenth of a unit per virtual byte, rounded up, and 0.0005% of the value to
    within one unit, halved for a consolidation, within the minimum and the maximum.  It
    does not fall when the size grows. *)
Theorem calculate_fee weight weight' value consolidation : fits 32 weight -> fits 32 weight' -> weight <= weight' -> MoneyRange value = true ->
  (exists r, Z.abs (200000 * r - value) < 200000 /\
    CalculateFee g_fee_model weight value consolidation =
      Some (Z.max 100 (Z.min 1000000 (let fee := (weight + 9) / 10 + r in if consolidation then fee / 2 else fee)))) /\
  exists f f', CalculateFee g_fee_model weight value consolidation = Some f /\ CalculateFee g_fee_model weight' value consolidation = Some f' /\
    min_fee g_fee_model <= f <= f' /\ f' <= max_fee g_fee_model.
Proof.
  intros Hw Hw' Hle Hm. destruct (default_fee value consolidation Hm) as (r & Hd & Hr & Hf). split; [exists r; auto|].
  rewrite !Hf by assumption. eexists _, _. split; [done|]. split; [done|]. cbn [min_fee max_fee g_fee_model DEFAULT_FEE_MODEL_MIN DEFAULT_FEE_MODEL_MAX].
  assert ((weight + 9) / 10 <= (weight' + 9) / 10) by (apply Z.div_le_mono; lia). unfold DEFAULT_FEE_MODEL_MIN, DEFAULT_FEE_MODEL_MAX.
  destruct consolidation; [|lia]. assert (((weight + 9) / 10 + r) / 2 <= ((weight' + 9) / 10 + r) / 2) by (apply Z.div_le_mono; lia). lia.
Qed.

(** C40: Relay and mining do not ask for the same fee.  Relay asks for one unit per virtual
    byte whatever the value; for a transfer of more than 2000 coins the model, which the
    miner applies, asks for its maximum. *)
Theorem relay_fee_gap weight value consolidation : fits 32 weight -> 2001 * COIN <= value <= MAX_MONEY ->
  CalculateRelayFee weight value consolidation = Some weight /\ CalculateFee g_fee_model weight value false = Some (max_fee g_fee_model).
Proof.
  intros Hw Hv. split.
  - unfold CalculateRelayFee, DEFAULT_MIN_RELAY_TX_FEE. rewrite wrap_small by exact Hw. unfold fits in Hw. rewrite GetFee_spec by lia.
    f_equal. Z.div_mod_to_equations. lia.
  - unfold COIN in Hv. assert (Hm : MoneyRange value = true) by (apply andb_true_iff; rewrite Z.geb_le, Z.leb_le; lia).
    destruct (default_fee value false Hm) as (r & Hd & Hr & Hf). rewrite Hf by exact Hw.
    assert (0 <= (weight + 9) / 10) by (unfold fits in Hw; Z.div_mod_to_equations; lia).
    cbn [max_fee g_fee_model]. unfold DEFAULT_FEE_MODEL_MAX. f_equal. lia.
Qed.

Lemma calculate_fee_witness :
  exists f f', CalculateFee g_fee_model 1000 COIN false = Some f /\ CalculateFee g_fee_model 2000 COIN false = Some f' /\ min_fee g_fee_model <= f <= f' /\ f' <= max_fee g_fee_model.
Proof.
  exact (proj2 (calculate_fee 1000 2000 COIN false ltac:(split; [discriminate|reflexivity]) ltac:(split; [discriminate|reflexivity]) ltac:(discriminate) ltac:(reflexivity))).
Defined.

Lemma relay_fee_gap_witness : CalculateRelayFee 141 (5000 * COIN) false = Some 141 /\ CalculateFee g_fee_model 141 (5000 * COIN) false = Some 1000000.
Proof. exact (relay_fee_gap 141 (5000 * COIN) false ltac:(split; [discriminate|reflexivity]) ltac:(split; discriminate)). Defined.
