(* ===== verification/Blake3.v ===== *)
(** * BLAKE3: the compression function and the incremental hasher

    Translation of src/blake3/blake3_portable.c, the helpers of
    src/blake3/blake3_impl.h and all of src/blake3/blake3.c.  A chaining value
    inside a chunk is eight 32-bit words, in the stack and in the tree it is
    32 bytes.  The SIMD degree is a parameter of the model: it is what
    [blake3_simd_degree] detects at run time. *)

From Stdlib Require Import ZArith Lia Bool.
From stdpp Require Import base list.
From S2P Require Import Prelude Uint256.
Local Open Scope Z_scope.
Local Open Scope adonai_scope.

(** ** blake3_impl.h *)

Definition CHUNK_START : Z := 1.
Definition CHUNK_END : Z := 2.
Definition PARENT : Z := 4.
Definition ROOT : Z := 8.
Definition KEYED_HASH : Z := 16.
Definition DERIVE_KEY_CONTEXT : Z := 32.
Definition DERIVE_KEY_MATERIAL : Z := 64.

Definition BLAKE3_KEY_LEN : Z := 32.
Definition BLAKE3_OUT_LEN : Z := 32.
Definition BLAKE3_BLOCK_LEN : Z := 64.
Definition BLAKE3_CHUNK_LEN : Z := 1024.
Definition BLAKE3_MAX_DEPTH : Z := 54.

Definition IV : list Z :=
  [0x6A09E667; 0xBB67AE85; 0x3C6EF372; 0xA54FF53A; 0x510E527F; 0x9B05688C; 0x1F83D9AB; 0x5BE0CD19].

Definition MSG_SCHEDULE : list (list nat) :=
  [[0; 1; 2; 3; 4; 5; 6; 7; 8; 9; 10; 11; 12; 13; 14; 15];
   [2; 6; 3; 10; 7; 0; 4; 13; 1; 11; 12; 5; 9; 14; 15; 8];
   [3; 4; 10; 12; 13; 2; 7; 14; 6; 5; 9; 0; 11; 15; 8; 1];
   [10; 7; 12; 9; 14; 3; 13; 15; 4; 0; 11; 2; 5; 8; 1; 6];
   [12; 13; 9; 11; 15; 10; 14; 8; 7; 2; 5; 3; 0; 1; 6; 4];
   [9; 14; 11; 5; 8; 12; 15; 1; 13; 3; 0; 10; 2; 6; 4; 7];
   [11; 15; 5; 0; 1; 9; 8; 6; 14; 10; 2; 12; 3; 4; 7; 13]]%nat.

(** [__builtin_clzll] gives the index of the highest set bit, for [x <> 0]. *)
Definition highest_one (x : Z) : Z := Z.log2 x.

Fixpoint pos_popcount (p : positive) : Z :=
  match p with xH => 1 | xO p => pos_popcount p | xI p => 1 + pos_popcount p end.
Definition popcnt (x : Z) : Z := match x with Z.pos p => pos_popcount p | _ => 0 end.

Definition round_down_to_power_of_2 (x : Z) : Z := u64 (Z.shiftl 1 (highest_one (Z.lor x 1))).

Definition counter_low (counter : Z) : Z := u32 counter.
Definition counter_high (counter : Z) : Z := u32 (Z.shiftr counter 32).

Definition load32 (src : list Z) : Z :=
  Z.lor (Z.lor (Z.lor (Z.shiftl src.[0%nat] 0) (Z.shiftl src.[1%nat] 8))
               (Z.shiftl src.[2%nat] 16)) (Z.shiftl src.[3%nat] 24).
Definition load_words (n : nat) (src : list Z) : list Z :=
  map (fun i => load32 (drop (i * 4) src)) (seq 0 n).
Definition load_key_words (key : list Z) : list Z := load_words 8 key.
Definition load_block_words (block : list Z) : list Z := load_words 16 block.

Definition store32 (w : Z) : list Z :=
  [u8 (Z.shiftr w 0); u8 (Z.shiftr w 8); u8 (Z.shiftr w 16); u8 (Z.shiftr w 24)].
Definition store_words (ws : list Z) : list Z := flat_map store32 ws.
Definition store_cv_words (cv_words : list Z) : list Z := store_words (take 8 cv_words).

(** ** blake3_portable.c *)

Definition rotr32 (w c : Z) : Z := Z.lor (Z.shiftr w c) (u32 (Z.shiftl w (32 - c))).

Definition g (state : list Z) (a b c d : nat) (x y : Z) : list Z :=
  let state := <[a := u32 (state.[a] + state.[b] + x)]> state in
  let state := <[d := rotr32 (Z.lxor state.[d] state.[a]) 16]> state in
  let state := <[c := u32 (state.[c] + state.[d])]> state in
  let state := <[b := rotr32 (Z.lxor state.[b] state.[c]) 12]> state in
  let state := <[a := u32 (state.[a] + state.[b] + y)]> state in
  let state := <[d := rotr32 (Z.lxor state.[d] state.[a]) 8]> state in
  let state := <[c := u32 (state.[c] + state.[d])]> state in
  <[b := rotr32 (Z.lxor state.[b] state.[c]) 7]> state.

Definition round_fn (state msg : list Z) (round : nat) : list Z :=
  let schedule := nth round MSG_SCHEDULE [] in
  let m i := msg.[nth i schedule 0%nat] in
  let state := g state 0 4 8 12 (m 0%nat) (m 1%nat) in
  let state := g state 1 5 9 13 (m 2%nat) (m 3%nat) in
  let state := g state 2 6 10 14 (m 4%nat) (m 5%nat) in
  let state := g state 3 7 11 15 (m 6%nat) (m 7%nat) in
  let state := g state 0 5 10 15 (m 8%nat) (m 9%nat) in
  let state := g state 1 6 11 12 (m 10%nat) (m 11%nat) in
  let state := g state 2 7 8 13 (m 12%nat) (m 13%nat) in
  g state 3 4 9 14 (m 14%nat) (m 15%nat).

Definition compress_pre (cv block : list Z) (block_len counter flags : Z) : list Z :=
  let block_words := load_block_words block in
  let state := take 8 cv ++ take 4 IV ++ [counter_low counter; counter_high counter; block_len; flags] in
  for_up 7 (fun round state => round_fn state block_words round) state.

Definition blake3_compress_in_place (cv block : list Z) (block_len counter flags : Z) : list Z :=
  let state := compress_pre cv block block_len counter flags in
  map (fun i => Z.lxor state.[i] state.[(i + 8)%nat]) (seq 0 8).

Definition blake3_compress_xof (cv block : list Z) (block_len counter flags : Z) : list Z :=
  let state := compress_pre cv block block_len counter flags in
  store_words (map (fun i => Z.lxor state.[i] state.[(i + 8)%nat]) (seq 0 8) ++
               map (fun i => Z.lxor state.[(i + 8)%nat] cv.[i]) (seq 0 8)).

Fixpoint hash_one_loop (blocks : nat) (cv input : list Z) (counter flags block_flags flags_end : Z) : list Z :=
  match blocks with
  | O => cv
  | S n =>
      let block_flags := if (n =? 0)%nat then Z.lor block_flags flags_end else block_flags in
      let cv := blake3_compress_in_place cv (ztake 64 input) BLAKE3_BLOCK_LEN counter block_flags in
      hash_one_loop n cv (zdrop 64 input) counter flags flags flags_end
  end.
Definition hash_one (input : list Z) (blocks : nat) (key : list Z) (counter flags flags_start flags_end : Z) : list Z :=
  store_cv_words (hash_one_loop blocks key input counter flags (Z.lor flags flags_start) flags_end).

Fixpoint blake3_hash_many (inputs : list (list Z)) (blocks : nat) (key : list Z) (counter : Z)
    (increment_counter : bool) (flags flags_start flags_end : Z) : list (list Z) :=
  match inputs with
  | [] => []
  | input :: inputs =>
      hash_one input blocks key counter flags flags_start flags_end ::
      blake3_hash_many inputs blocks key (if increment_counter then u64 (counter + 1) else counter)
        increment_counter flags flags_start flags_end
  end.

(** ** blake3.c: chunks and outputs *)

Record output_t : Type := {
  input_cv : list Z;
  counter : Z;
  block : list Z;
  block_len : Z;
  out_flags : Z;
}.

Record blake3_chunk_state : Type := {
  cv : list Z;
  chunk_counter : Z;
  buf : list Z;
  buf_len : Z;
  blocks_compressed : Z;
  flags : Z;
}.

Definition chunk_state_init (key : list Z) (flags : Z) : blake3_chunk_state :=
  {| cv := key; chunk_counter := 0; buf := zrep BLAKE3_BLOCK_LEN 0; buf_len := 0;
     blocks_compressed := 0; flags := flags |}.

Definition chunk_state_reset (self : blake3_chunk_state) (key : list Z) (chunk_counter : Z) : blake3_chunk_state :=
  {| cv := key; chunk_counter := chunk_counter; buf := zrep BLAKE3_BLOCK_LEN 0; buf_len := 0;
     blocks_compressed := 0; flags := flags self |}.

Definition set_chunk_counter (self : blake3_chunk_state) (chunk_counter : Z) : blake3_chunk_state :=
  {| cv := cv self; chunk_counter := chunk_counter; buf := buf self; buf_len := buf_len self;
     blocks_compressed := blocks_compressed self; flags := flags self |}.

Definition chunk_state_len (self : blake3_chunk_state) : Z :=
  BLAKE3_BLOCK_LEN * blocks_compressed self + buf_len self.

(** [memcpy(dst + off, src, size)] *)
Definition memcpy_at (dst : list Z) (off : Z) (src : list Z) : list Z :=
  ztake off dst ++ src ++ zdrop (off + zlen src) dst.

(** The new state and the number of bytes taken. *)
Definition chunk_state_fill_buf (self : blake3_chunk_state) (input : list Z) : blake3_chunk_state * Z :=
  let take := BLAKE3_BLOCK_LEN - buf_len self in
  let take := if take >? zlen input then zlen input else take in
  ({| cv := cv self; chunk_counter := chunk_counter self;
      buf := memcpy_at (buf self) (buf_len self) (ztake take input);
      buf_len := u8 (buf_len self + take); blocks_compressed := blocks_compressed self;
      flags := flags self |}, take).

Definition chunk_state_maybe_start_flag (self : blake3_chunk_state) : Z :=
  if blocks_compressed self =? 0 then CHUNK_START else 0.

Definition make_output (input_cv block : list Z) (block_len counter flags : Z) : output_t :=
  {| input_cv := input_cv; counter := counter; block := block; block_len := block_len; out_flags := flags |}.

Definition output_chaining_value (self : output_t) : list Z :=
  store_cv_words (blake3_compress_in_place (input_cv self) (block self) (block_len self)
                    (counter self) (out_flags self)).

Definition blake3_xof_many (cv block : list Z) (block_len counter flags : Z) (outblocks : nat) : list Z :=
  flat_map (fun i => blake3_compress_xof cv block block_len (u64 (counter + Z.of_nat i)) flags) (seq 0 outblocks).

Definition output_root_bytes (self : output_t) (seek out_len : Z) : list Z :=
  if out_len =? 0 then [] else
  let xof c := blake3_compress_xof (input_cv self) (block self) (block_len self) c (Z.lor (out_flags self) ROOT) in
  let output_block_counter := seek / 64 in
  let offset_within_block := seek mod 64 in
  let '(out, out_len, output_block_counter) :=
    if negb (offset_within_block =? 0) then
      let available_bytes := 64 - offset_within_block in
      let bytes := if out_len >? available_bytes then available_bytes else out_len in
      (ztake bytes (zdrop offset_within_block (xof output_block_counter)),
       out_len - bytes, u64 (output_block_counter + 1))
    else ([], out_len, output_block_counter) in
  let out := out ++ blake3_xof_many (input_cv self) (block self) (block_len self) output_block_counter
                      (Z.lor (out_flags self) ROOT) (Z.to_nat (out_len / 64)) in
  let output_block_counter := u64 (output_block_counter + out_len / 64) in
  let out_len := out_len - Z.land out_len (-64) in
  if negb (out_len =? 0) then out ++ ztake out_len (xof output_block_counter) else out.

(** [blake3_compress_in_place] of a whole block of the chunk *)
Definition compress_block (self : blake3_chunk_state) (block : list Z) : list Z :=
  blake3_compress_in_place (cv self) block BLAKE3_BLOCK_LEN (chunk_counter self)
    (Z.lor (flags self) (chunk_state_maybe_start_flag self)).

(** the [while] loop of [chunk_state_update]: the state and the input left *)
Fixpoint chunk_update_loop (fuel : nat) (self : blake3_chunk_state) (input : list Z) : blake3_chunk_state * list Z :=
  match fuel with
  | O => (self, input)
  | S fuel =>
      if zlen input >? BLAKE3_BLOCK_LEN then
        chunk_update_loop fuel
          {| cv := compress_block self (ztake BLAKE3_BLOCK_LEN input);
             chunk_counter := chunk_counter self; buf := buf self; buf_len := buf_len self;
             blocks_compressed := u8 (blocks_compressed self + 1); flags := flags self |}
          (zdrop BLAKE3_BLOCK_LEN input)
      else (self, input)
  end.

Definition chunk_state_update (self : blake3_chunk_state) (input : list Z) : blake3_chunk_state :=
  let '(self, input) :=
    if buf_len self >? 0 then
      let '(self, take) := chunk_state_fill_buf self input in
      let input := zdrop take input in
      if zlen input >? 0 then
        ({| cv := compress_block self (buf self); chunk_counter := chunk_counter self;
            buf := zrep BLAKE3_BLOCK_LEN 0; buf_len := 0;
            blocks_compressed := u8 (blocks_compressed self + 1); flags := flags self |}, input)
      else (self, input)
    else (self, input) in
  let '(self, input) := chunk_update_loop (length input) self input in
  (chunk_state_fill_buf self input).1.

Definition chunk_state_output (self : blake3_chunk_state) : output_t :=
  let block_flags := Z.lor (Z.lor (flags self) (chunk_state_maybe_start_flag self)) CHUNK_END in
  make_output (cv self) (buf self) (buf_len self) (chunk_counter self) block_flags.

Definition parent_output (block key : list Z) (flags : Z) : output_t :=
  make_output key block BLAKE3_BLOCK_LEN 0 (Z.lor flags PARENT).

(** ** blake3.c: subtrees *)

Definition left_subtree_len (input_len : Z) : Z :=
  let full_chunks := (input_len - 1) / BLAKE3_CHUNK_LEN in
  round_down_to_power_of_2 full_chunks * BLAKE3_CHUNK_LEN.

(** the [while] loop of [compress_chunks_parallel]: the whole chunks and the rest *)
Fixpoint whole_chunks (fuel : nat) (input : list Z) : list (list Z) * list Z :=
  match fuel with
  | O => ([], input)
  | S fuel =>
      if zlen input >=? BLAKE3_CHUNK_LEN then
        let '(chunks, rest) := whole_chunks fuel (zdrop BLAKE3_CHUNK_LEN input) in
        (ztake BLAKE3_CHUNK_LEN input :: chunks, rest)
      else ([], input)
  end.

(** The chaining values written to [out]; their number is the return value. *)
Definition compress_chunks_parallel (input key : list Z) (chunk_counter flags : Z) : list (list Z) :=
  let '(chunks_array, rest) := whole_chunks (length input) input in
  let out := blake3_hash_many chunks_array 16 key chunk_counter true flags CHUNK_START CHUNK_END in
  if zlen rest >? 0 then
    let counter := u64 (chunk_counter + zlen chunks_array) in
    let chunk_state := set_chunk_counter (chunk_state_init key flags) counter in
    let chunk_state := chunk_state_update chunk_state rest in
    out ++ [output_chaining_value (chunk_state_output chunk_state)]
  else out.

(** the [while] loop of [compress_parents_parallel]: the parent blocks and the
    odd child left over *)
Fixpoint parent_blocks (cvs : list (list Z)) : list (list Z) * list (list Z) :=
  match cvs with
  | l :: r :: cvs => let '(parents, odd) := parent_blocks cvs in ((l ++ r) :: parents, odd)
  | _ => ([], cvs)
  end.

Definition compress_parents_parallel (child_chaining_values : list (list Z)) (key : list Z) (flags : Z) : list (list Z) :=
  let '(parents_array, odd) := parent_blocks child_chaining_values in
  blake3_hash_many parents_array 1 key 0 false (Z.lor flags PARENT) 0 0 ++ odd.

Section Degree.
(** [blake3_simd_degree()], and [MAX_SIMD_DEGREE_OR_2] of the build *)
Variable simd_degree MAX_SIMD_DEGREE_OR_2 : Z.

(** [cv_array]: the left chaining values from slot 0, the right ones from slot
    [degree]; [[]] stands for a slot that was not written *)
Definition cv_array (degree : Z) (left right : list (list Z)) : list (list Z) :=
  ztake degree (left ++ zrep (degree - zlen left) []) ++ right.

Fixpoint blake3_compress_subtree_wide (fuel : nat) (input key : list Z) (chunk_counter flags : Z) : list (list Z) :=
  match fuel with
  | O => []
  | S fuel =>
      if zlen input <=? simd_degree * BLAKE3_CHUNK_LEN then
        compress_chunks_parallel input key chunk_counter flags
      else
        let left_input_len := left_subtree_len (zlen input) in
        let right_input := zdrop left_input_len input in
        let right_chunk_counter := u64 (chunk_counter + left_input_len / BLAKE3_CHUNK_LEN) in
        let degree := if (left_input_len >? BLAKE3_CHUNK_LEN) && (simd_degree =? 1) then 2 else simd_degree in
        let left := blake3_compress_subtree_wide fuel (ztake left_input_len input) key chunk_counter flags in
        let right := blake3_compress_subtree_wide fuel right_input key right_chunk_counter flags in
        let cvs := cv_array degree left right in
        if zlen left =? 1 then ztake 2 cvs
        else compress_parents_parallel (ztake (zlen left + zlen right) cvs) key flags
  end.

(** the condensing loop of [compress_subtree_to_parent_node] *)
Fixpoint condense (fuel : nat) (cvs : list (list Z)) (key : list Z) (flags : Z) : list (list Z) :=
  match fuel with
  | O => cvs
  | S fuel => if zlen cvs >? 2 then condense fuel (compress_parents_parallel cvs key flags) key flags else cvs
  end.

(** The two chaining values of the top parent node.  The [assert] that
    [num_cvs <= MAX_SIMD_DEGREE_OR_2] is [subtree_assert]. *)
Definition compress_subtree_to_parent_node (input key : list Z) (chunk_counter flags : Z) : list (list Z) :=
  let cvs := blake3_compress_subtree_wide (length input) input key chunk_counter flags in
  ztake 2 (condense (length cvs) cvs key flags).
Definition subtree_assert (input key : list Z) (chunk_counter flags : Z) : bool :=
  zlen (blake3_compress_subtree_wide (length input) input key chunk_counter flags) <=? MAX_SIMD_DEGREE_OR_2.

(** ** blake3.c: the hasher *)

(** [cv_stack] holds the [cv_stack_len] entries in use, bottom first. *)
Record blake3_hasher : Type := {
  hkey : list Z;
  chunk : blake3_chunk_state;
  cv_stack : list (list Z);
}.

Definition hasher_init_base (key : list Z) (flags : Z) : blake3_hasher :=
  {| hkey := key; chunk := chunk_state_init key flags; cv_stack := [] |}.

(** the two topmost entries replaced by their parent *)
Definition merge_top (key : list Z) (flags : Z) (stack : list (list Z)) : list (list Z) :=
  let n := zlen stack in
  let parent_node := concat (zdrop (n - 2) stack) in
  ztake (n - 2) stack ++ [output_chaining_value (parent_output parent_node key flags)].

Fixpoint merge_loop (fuel : nat) (key : list Z) (flags post_merge_stack_len : Z) (stack : list (list Z)) : list (list Z) :=
  match fuel with
  | O => stack
  | S fuel =>
      if zlen stack >? post_merge_stack_len
      then merge_loop fuel key flags post_merge_stack_len (merge_top key flags stack)
      else stack
  end.

Definition hasher_merge_cv_stack (self : blake3_hasher) (total_len : Z) : blake3_hasher :=
  {| hkey := hkey self; chunk := chunk self;
     cv_stack := merge_loop (length (cv_stack self)) (hkey self) (flags (chunk self)) (popcnt total_len) (cv_stack self) |}.

Definition hasher_push_cv (self : blake3_hasher) (new_cv : list Z) (chunk_counter : Z) : blake3_hasher :=
  let self := hasher_merge_cv_stack self chunk_counter in
  {| hkey := hkey self; chunk := chunk self; cv_stack := cv_stack self ++ [new_cv] |}.

Definition set_chunk (self : blake3_hasher) (c : blake3_chunk_state) : blake3_hasher :=
  {| hkey := hkey self; chunk := c; cv_stack := cv_stack self |}.

(** the inner [while] loop: halve [subtree_len] until it divides [count_so_far] *)
Fixpoint shrink_subtree (fuel : nat) (subtree_len count_so_far : Z) : Z :=
  match fuel with
  | O => subtree_len
  | S fuel =>
      if negb (Z.land (subtree_len - 1) count_so_far =? 0)
      then shrink_subtree fuel (subtree_len / 2) count_so_far
      else subtree_len
  end.

(** one iteration of the subtree loop: the new hasher and the input left *)
Definition update_subtree (self : blake3_hasher) (input : list Z) : blake3_hasher * list Z :=
  let ctr := chunk_counter (chunk self) in
  let subtree_len := round_down_to_power_of_2 (zlen input) in
  let count_so_far := u64 (ctr * BLAKE3_CHUNK_LEN) in
  let subtree_len := shrink_subtree 64 subtree_len count_so_far in
  let subtree_chunks := subtree_len / BLAKE3_CHUNK_LEN in
  let self :=
    if subtree_len <=? BLAKE3_CHUNK_LEN then
      let chunk_state := set_chunk_counter (chunk_state_init (hkey self) (flags (chunk self))) ctr in
      let chunk_state := chunk_state_update chunk_state (ztake subtree_len input) in
      hasher_push_cv self (output_chaining_value (chunk_state_output chunk_state)) (chunk_counter chunk_state)
    else
      let cv_pair := compress_subtree_to_parent_node (ztake subtree_len input) (hkey self) ctr (flags (chunk self)) in
      let self := hasher_push_cv self (nth 0 cv_pair []) ctr in
      hasher_push_cv self (nth 1 cv_pair []) (u64 (ctr + subtree_chunks / 2)) in
  (set_chunk self (set_chunk_counter (chunk self) (u64 (ctr + subtree_chunks))), zdrop subtree_len input).

Fixpoint update_loop (fuel : nat) (self : blake3_hasher) (input : list Z) : blake3_hasher * list Z :=
  match fuel with
  | O => (self, input)
  | S fuel =>
      if zlen input >? BLAKE3_CHUNK_LEN
      then let '(self, input) := update_subtree self input in update_loop fuel self input
      else (self, input)
  end.

(** the part of [blake3_hasher_update_base] after the partial chunk is done *)
Definition update_rest (self : blake3_hasher) (input : list Z) : blake3_hasher :=
  let '(self, input) := update_loop (length input) self input in
  if zlen input >? 0 then
    let self := set_chunk self (chunk_state_update (chunk self) input) in
    hasher_merge_cv_stack self (chunk_counter (chunk self))
  else self.

Definition blake3_hasher_update (self : blake3_hasher) (input : list Z) : blake3_hasher :=
  if zlen input =? 0 then self else
  if chunk_state_len (chunk self) >? 0 then
    let take := BLAKE3_CHUNK_LEN - chunk_state_len (chunk self) in
    let take := if take >? zlen input then zlen input else take in
    let self := set_chunk self (chunk_state_update (chunk self) (ztake take input)) in
    let input := zdrop take input in
    if zlen input >? 0 then
      let ctr := chunk_counter (chunk self) in
      let chunk_cv := output_chaining_value (chunk_state_output (chunk self)) in
      let self := hasher_push_cv self chunk_cv ctr in
      let self := set_chunk self (chunk_state_reset (chunk self) (hkey self) (u64 (ctr + 1))) in
      update_rest self input
    else self
  else update_rest self input.

(** the roll-up loop of [blake3_hasher_finalize_seek], from the top entry down *)
Fixpoint roll_up (rev_stack : list (list Z)) (key : list Z) (flags : Z) (output : output_t) : output_t :=
  match rev_stack with
  | [] => output
  | cv :: rev_stack => roll_up rev_stack key flags (parent_output (cv ++ output_chaining_value output) key flags)
  end.

Definition finalize_output (self : blake3_hasher) : output_t :=
  let n := zlen (cv_stack self) in
  if n =? 0 then chunk_state_output (chunk self)
  else
    let '(cvs_remaining, output) :=
      if chunk_state_len (chunk self) >? 0 then (n, chunk_state_output (chunk self))
      else (n - 2, parent_output (concat (zdrop (n - 2) (cv_stack self))) (hkey self) (flags (chunk self))) in
    roll_up (rev (ztake cvs_remaining (cv_stack self))) (hkey self) (flags (chunk self)) output.

Definition blake3_hasher_finalize_seek (self : blake3_hasher) (seek out_len : Z) : list Z :=
  if out_len =? 0 then [] else output_root_bytes (finalize_output self) seek out_len.

Definition blake3_hasher_finalize (self : blake3_hasher) (out_len : Z) : list Z :=
  blake3_hasher_finalize_seek self 0 out_len.

Definition blake3_hasher_reset (self : blake3_hasher) : blake3_hasher :=
  {| hkey := hkey self; chunk := chunk_state_reset (chunk self) (hkey self) 0; cv_stack := [] |}.

Definition blake3_hasher_init : blake3_hasher := hasher_init_base IV 0.
Definition blake3_hasher_init_keyed (key : list Z) : blake3_hasher := hasher_init_base (load_key_words key) KEYED_HASH.
Definition blake3_hasher_init_derive_key_raw (context : list Z) : blake3_hasher :=
  let context_hasher := blake3_hasher_update (hasher_init_base IV DERIVE_KEY_CONTEXT) context in
  let context_key := blake3_hasher_finalize context_hasher BLAKE3_KEY_LEN in
  hasher_init_base (load_key_words context_key) DERIVE_KEY_MATERIAL.

End Degree.
