(* ===== verification/Blake3Spec.v ===== *)
(** * BLAKE3: the tree hash as the specification defines it

    The input is cut into 1024-byte chunks; a chunk is compressed block by block
    under its index; the chunk chaining values are the leaves of a binary tree in
    which the left subtree of every node is the largest power of two of leaves that
    leaves at least one on the right; the root is compressed with [ROOT] in
    counter mode to give the output stream.  This file defines that reference
    hash on top of the compression function of [Blake3], and proves the
    facts about the tree that the incremental hasher relies on. *)

From Stdlib Require Import ZArith Lia Bool.
From stdpp Require Import base list.
From S2P Require Import Prelude Uint256 Blake3.
Local Open Scope Z_scope.
Local Open Scope adonai_scope.

Section Spec.
Variable key : list Z.
Variable kflags : Z.

(** ** Chunks *)

Definition start_flag (first : bool) : Z := if first then CHUNK_START else 0.
Definition pad_block (d : list Z) : list Z := d ++ zrep (BLAKE3_BLOCK_LEN - zlen d) 0.

(** The output of the rest [data] of a chunk whose chaining value so far is [cv]. *)
Fixpoint blocks_output (fuel : nat) (ctr : Z) (first : bool) (cv data : list Z) : output_t :=
  match fuel with
  | O => make_output cv (pad_block data) (zlen data) ctr (Z.lor (Z.lor kflags (start_flag first)) CHUNK_END)
  | S fuel =>
      if zlen data <=? BLAKE3_BLOCK_LEN then
        make_output cv (pad_block data) (zlen data) ctr (Z.lor (Z.lor kflags (start_flag first)) CHUNK_END)
      else
        blocks_output fuel ctr false
          (blake3_compress_in_place cv (ztake BLAKE3_BLOCK_LEN data) BLAKE3_BLOCK_LEN ctr (Z.lor kflags (start_flag first)))
          (zdrop BLAKE3_BLOCK_LEN data)
  end.
Definition rest_output ctr first cv data : output_t := blocks_output (length data) ctr first cv data.
Definition chunk_output (ctr : Z) (data : list Z) : output_t := rest_output ctr true key data.
Definition leaf_cv (ctr : Z) (data : list Z) : list Z := output_chaining_value (chunk_output ctr data).

(** The chunks of an input; the empty input is one empty chunk. *)
Fixpoint chunks_loop (fuel : nat) (data : list Z) : list (list Z) :=
  match fuel with
  | O => [data]
  | S fuel =>
      if zlen data <=? BLAKE3_CHUNK_LEN then [data]
      else ztake BLAKE3_CHUNK_LEN data :: chunks_loop fuel (zdrop BLAKE3_CHUNK_LEN data)
  end.
Definition chunks_of (data : list Z) : list (list Z) := chunks_loop (length data) data.

(** The chaining values of the chunks, the first one with index [ctr]. *)
Fixpoint leaf_cvs (ctr : Z) (chunks : list (list Z)) : list (list Z) :=
  match chunks with
  | [] => []
  | c :: chunks => leaf_cv ctr c :: leaf_cvs (ctr + 1) chunks
  end.

(** ** The tree *)

Definition parent_cv (l r : list Z) : list Z := output_chaining_value (parent_output (l ++ r) key kflags).

(** The largest power of two below [n], for [n >= 2]. *)
Definition left_size (n : nat) : nat := 2 ^ Nat.log2 (n - 1).

Fixpoint tree_loop (fuel : nat) (cvs : list (list Z)) : list Z :=
  match fuel with
  | O => []
  | S fuel =>
      match cvs with
      | [] => []
      | [c] => c
      | _ => let p := left_size (length cvs) in
             parent_cv (tree_loop fuel (take p cvs)) (tree_loop fuel (drop p cvs))
      end
  end.
Definition tree_cv (cvs : list (list Z)) : list Z := tree_loop (length cvs) cvs.

(** The output of the root node over two or more leaves. *)
Definition root_parent (cvs : list (list Z)) : output_t :=
  let p := left_size (length cvs) in
  parent_output (tree_cv (take p cvs) ++ tree_cv (drop p cvs)) key kflags.

Definition root_output (data : list Z) : output_t :=
  match chunks_of data with
  | [c] => chunk_output 0 c
  | chunks => root_parent (leaf_cvs 0 chunks)
  end.

(** Byte [i] of the output stream of a root node, and [out_len] bytes from [seek]. *)
Definition stream_byte (o : output_t) (i : Z) : Z :=
  (blake3_compress_xof (input_cv o) (block o) (block_len o) (i / 64) (Z.lor (out_flags o) ROOT)).[Z.to_nat (i mod 64)].
Definition stream (o : output_t) (seek out_len : Z) : list Z :=
  map (fun i => stream_byte o (seek + Z.of_nat i)) (seq 0 (Z.to_nat out_len)).

Definition blake3_spec (data : list Z) (seek out_len : Z) : list Z := stream (root_output data) seek out_len.

(** ** Equations of the reference functions *)

Lemma blocks_output_fuel n m ctr first cv data :
  (length data <= n)%nat -> (length data <= m)%nat ->
  blocks_output n ctr first cv data = blocks_output m ctr first cv data.
Proof.
  revert m first cv data. induction n as [|n IH]; intros [|m] first cv data Hn Hm; try done.
  - cbn [blocks_output]. destruct data; [done|cbn in Hn; lia].
  - cbn [blocks_output]. destruct data; [done|cbn in Hm; lia].
  - cbn [blocks_output]. case_bool; [done|].
    apply IH; unfold zdrop; rewrite length_drop; unfold BLAKE3_BLOCK_LEN in *; lia.
Qed.

Lemma rest_output_last ctr first cv data : zlen data <= BLAKE3_BLOCK_LEN ->
  rest_output ctr first cv data =
    make_output cv (pad_block data) (zlen data) ctr (Z.lor (Z.lor kflags (start_flag first)) CHUNK_END).
Proof.
  intros H. unfold rest_output. destruct data as [|x d]; [done|]. cbn [length blocks_output].
  apply Z.leb_le in H. cbn [length] in H. rewrite H. reflexivity.
Qed.

Lemma rest_output_more ctr first cv data : BLAKE3_BLOCK_LEN < zlen data ->
  rest_output ctr first cv data =
    rest_output ctr false
      (blake3_compress_in_place cv (ztake BLAKE3_BLOCK_LEN data) BLAKE3_BLOCK_LEN ctr (Z.lor kflags (start_flag first)))
      (zdrop BLAKE3_BLOCK_LEN data).
Proof.
  intros H. unfold rest_output. destruct data as [|x d]; [cbn in H; unfold BLAKE3_BLOCK_LEN in H; lia|].
  cbn [length blocks_output]. pose proof H as H'. apply Z.leb_gt in H'. cbn [length] in H'. rewrite H'.
  apply blocks_output_fuel; unfold zdrop; rewrite length_drop; unfold BLAKE3_BLOCK_LEN in *; cbn [length]; lia.
Qed.

Lemma chunks_loop_fuel n m data :
  (length data <= n)%nat -> (length data <= m)%nat -> chunks_loop n data = chunks_loop m data.
Proof.
  revert m data. induction n as [|n IH]; intros [|m] data Hn Hm; try done.
  - cbn [chunks_loop]. destruct data; [done|cbn in Hn; lia].
  - cbn [chunks_loop]. destruct data; [done|cbn in Hm; lia].
  - cbn [chunks_loop]. case_bool; [done|]. f_equal.
    apply IH; unfold zdrop; rewrite length_drop; unfold BLAKE3_CHUNK_LEN in *; lia.
Qed.

Lemma chunks_of_last data : zlen data <= BLAKE3_CHUNK_LEN -> chunks_of data = [data].
Proof.
  intros H. unfold chunks_of. destruct data as [|x d]; [done|]. cbn [length chunks_loop].
  apply Z.leb_le in H. cbn [length] in H. rewrite H. reflexivity.
Qed.

Lemma chunks_of_more data : BLAKE3_CHUNK_LEN < zlen data ->
  chunks_of data = ztake BLAKE3_CHUNK_LEN data :: chunks_of (zdrop BLAKE3_CHUNK_LEN data).
Proof.
  intros H. unfold chunks_of. destruct data as [|x d]; [cbn in H; unfold BLAKE3_CHUNK_LEN in H; lia|].
  cbn [length chunks_loop]. pose proof H as H'. apply Z.leb_gt in H'. cbn [length] in H'. rewrite H'. f_equal.
  apply chunks_loop_fuel; unfold zdrop; rewrite length_drop; unfold BLAKE3_CHUNK_LEN in *; cbn [length]; lia.
Qed.

(** Appending non-empty data after whole chunks appends its chunks. *)
Lemma chunks_of_app k a b : zlen a = BLAKE3_CHUNK_LEN * Z.of_nat k -> b <> [] ->
  exists l, chunks_of (a ++ b) = l ++ chunks_of b /\ length l = k /\ (a <> [] -> chunks_of a = l).
Proof.
  unfold BLAKE3_CHUNK_LEN. revert a. induction k as [|k IH]; intros a Ha Hb.
  - apply zlen_nil_inv in Ha as ->. exists []. done.
  - assert (0 < zlen b) by (destruct b; [done|cbn; lia]).
    rewrite chunks_of_more by (rewrite zlen_app; unfold BLAKE3_CHUNK_LEN; lia).
    unfold BLAKE3_CHUNK_LEN. rewrite ztake_app_le, zdrop_app_le by lia.
    destruct (IH (zdrop 1024 a)) as (l & El & Hl & Ea); [rewrite zlen_zdrop; lia|done|].
    exists (ztake 1024 a :: l). rewrite El. split_and!; [done|cbn; lia|]. intros _.
    destruct (decide (zdrop 1024 a = [])) as [E|E].
    + assert (k = 0%nat) as -> by (apply (f_equal length) in E; cbn in E; pose proof (zlen_zdrop 1024 a); lia).
      destruct l; [|done]. rewrite chunks_of_last by (unfold BLAKE3_CHUNK_LEN; lia). rewrite ztake_all by lia. done.
    + rewrite chunks_of_more; [f_equal; apply Ea; done|].
      assert (0 < zlen (zdrop 1024 a)) by (destruct (zdrop 1024 a); [done|cbn; lia]).
      rewrite zlen_zdrop in * by lia. unfold BLAKE3_CHUNK_LEN. lia.
Qed.

Lemma leaf_cvs_app ctr a b : leaf_cvs ctr (a ++ b) = leaf_cvs ctr a ++ leaf_cvs (ctr + zlen a) b.
Proof.
  revert ctr. induction a as [|x a IH]; intros ctr; cbn [leaf_cvs app length].
  - replace (ctr + Z.of_nat 0) with ctr by lia. done.
  - rewrite IH. do 3 f_equal. lia.
Qed.

Lemma length_leaf_cvs ctr l : length (leaf_cvs ctr l) = length l.
Proof. revert ctr. induction l as [|x l IH]; intros ctr; cbn; [done|]. f_equal. apply IH. Qed.

(** ** The shape of the tree *)

Lemma left_size_bounds n : (2 <= n)%nat -> (1 <= left_size n < n /\ n <= 2 * left_size n)%nat.
Proof.
  intros Hn. unfold left_size. destruct (Nat.log2_spec (n - 1)) as [H1 H2]; [lia|].
  rewrite Nat.pow_succ_r' in H2. pose proof (Nat.pow_nonzero 2 (Nat.log2 (n - 1))). lia.
Qed.

Lemma left_size_unique n k : (2 ^ k < n <= 2 * 2 ^ k)%nat -> left_size n = (2 ^ k)%nat.
Proof.
  intros H. unfold left_size. f_equal. apply Nat.log2_unique; [lia|]. rewrite Nat.pow_succ_r'. lia.
Qed.

Lemma tree_loop_fuel n m cvs :
  (length cvs <= n)%nat -> (length cvs <= m)%nat -> tree_loop n cvs = tree_loop m cvs.
Proof.
  revert m cvs. induction n as [|n IH]; intros [|m] cvs Hn Hm; try done.
  - destruct cvs; [done|cbn in Hn; lia].
  - destruct cvs; [done|cbn in Hm; lia].
  - cbn [tree_loop]. destruct cvs as [|a [|b cvs]]; try done.
    pose proof (left_size_bounds (length (a :: b :: cvs)) ltac:(cbn; lia)).
    f_equal; apply IH; first [rewrite length_take|rewrite length_drop]; lia.
Qed.

Lemma tree_cv_one c : tree_cv [c] = c.
Proof. reflexivity. Qed.

Lemma tree_cv_node cvs : (2 <= length cvs)%nat ->
  let p := left_size (length cvs) in
  tree_cv cvs = parent_cv (tree_cv (take p cvs)) (tree_cv (drop p cvs)).
Proof.
  intros H p. unfold tree_cv at 1. pose proof (left_size_bounds _ H).
  destruct cvs as [|a [|b cvs]]; cbn in H; try lia.
  change (tree_loop (length (a :: b :: cvs)) (a :: b :: cvs)) with
    (parent_cv (tree_loop (S (length cvs)) (take p (a :: b :: cvs)))
               (tree_loop (S (length cvs)) (drop p (a :: b :: cvs)))).
  f_equal; apply tree_loop_fuel; first [rewrite length_take|rewrite length_drop]; cbn [length] in *; lia.
Qed.

(** A full left part and a right part that is not larger are the subtrees. *)
Lemma tree_cv_split k a b : length a = (2 ^ k)%nat -> (0 < length b <= length a)%nat ->
  tree_cv (a ++ b) = parent_cv (tree_cv a) (tree_cv b).
Proof.
  intros Ha Hb. rewrite tree_cv_node by (rewrite length_app; lia).
  rewrite length_app, (left_size_unique _ k) by lia.
  rewrite <- Ha, take_app_length, drop_app_length. done.
Qed.

Lemma root_parent_split k a b : length a = (2 ^ k)%nat -> (0 < length b <= length a)%nat ->
  root_parent (a ++ b) = parent_output (tree_cv a ++ tree_cv b) key kflags.
Proof.
  intros Ha Hb. unfold root_parent.
  rewrite length_app, (left_size_unique _ k) by lia.
  rewrite <- Ha, take_app_length, drop_app_length. done.
Qed.

(** One layer of parents over a list of chaining values, an odd last one kept:
    what [compress_parents_parallel] computes. *)
Fixpoint pair_layer (cvs : list (list Z)) : list (list Z) :=
  match cvs with
  | l :: r :: cvs => parent_cv l r :: pair_layer cvs
  | _ => cvs
  end.

(** Induction two elements at a time. *)
Lemma list_pair_ind {A} (P : list A -> Prop) :
  P [] -> (forall x, P [x]) -> (forall x y l, P l -> P (x :: y :: l)) -> forall l, P l.
Proof.
  intros H0 H1 H2 l. enough (P l /\ forall x, P (x :: l)) as [? _] by assumption.
  induction l as [|x l [IHl IHx]]; [split; auto|]. split; [apply IHx|]. intros y. apply H2. assumption.
Qed.

Lemma length_pair_layer cvs : length (pair_layer cvs) = ((length cvs + 1) / 2)%nat.
Proof.
  induction cvs as [|x|x y l IH] using list_pair_ind; [done|done|].
  cbn [pair_layer length]. rewrite IH. replace (S (S (length l)) + 1)%nat with (length l + 1 + 1 * 2)%nat by lia.
  rewrite Nat.div_add by lia. lia.
Qed.

Lemma pair_layer_app a b : Nat.even (length a) = true -> pair_layer (a ++ b) = pair_layer a ++ pair_layer b.
Proof.
  induction a as [|x|x y l IH] using list_pair_ind; intros H; [done|done|].
  cbn [pair_layer app length] in *. rewrite IH; done.
Qed.

Lemma half_bounds n : (2 * (n / 2) <= n < 2 * (n / 2) + 2)%nat.
Proof. pose proof (Nat.div_mod n 2). pose proof (Nat.mod_upper_bound n 2). lia. Qed.

(** Building the tree bottom-up, layer by layer, gives the same root. *)
Lemma tree_cv_pair_layer cvs : (2 <= length cvs)%nat -> tree_cv (pair_layer cvs) = tree_cv cvs.
Proof.
  remember (length cvs) as n eqn:En. revert cvs En.
  induction (lt_wf n) as [n _ IH]. intros cvs En Hn.
  destruct (decide (n = 2)%nat) as [->|Hn2].
  { destruct cvs as [|a [|b [|]]]; cbn in En; try lia. cbn [pair_layer].
    rewrite tree_cv_one. symmetry. apply (tree_cv_split 0 [a] [b]); cbn; lia. }
  pose proof (left_size_bounds n Hn) as [Hp1 Hp2].
  assert (exists k, left_size n = 2 ^ S k)%nat as [k Hk].
  { unfold left_size in *. destruct (Nat.log2 (n - 1)) as [|k]; [cbn in *; lia|]. exists k. done. }
  set (p := left_size n) in *. rewrite <- (take_drop p cvs).
  set (a := take p cvs). set (b := drop p cvs).
  assert (Ha : length a = p) by (subst a; rewrite length_take; lia).
  assert (Hb : length b = (n - p)%nat) by (subst b; rewrite length_drop; lia).
  rewrite pair_layer_app by (rewrite Ha, Hk, Nat.pow_succ_r'; rewrite Nat.even_mul; done).
  assert (La : length (pair_layer a) = (2 ^ k)%nat).
  { rewrite length_pair_layer, Ha, Hk, Nat.pow_succ_r'.
    pose proof (half_bounds (2 * 2 ^ k + 1)). lia. }
  rewrite Nat.pow_succ_r' in Hk.
  assert (Lb : (0 < length (pair_layer b) <= length (pair_layer a))%nat).
  { rewrite La, length_pair_layer, Hb. pose proof (half_bounds (n - p + 1)). lia. }
  rewrite (tree_cv_split k) by assumption.
  rewrite (tree_cv_split (S k) a b) by (rewrite ?Nat.pow_succ_r'; lia).
  f_equal; [apply (IH p); lia|].
  destruct (decide (n - p = 1)%nat) as [E|E].
  - destruct b as [|x [|]]; cbn in Hb; try lia. done.
  - apply (IH (n - p)%nat); lia.
Qed.

(** ** Sizes of the subtrees on the stack

    The stack holds subtrees of power-of-two sizes.  [strict]: sizes strictly
    decrease, which is the binary decomposition of the number of chunks;
    [pending]: top entries remain to be merged to get there. *)

Definition pow2 (s : nat) : Prop := exists k, s = (2 ^ k)%nat.

Inductive strict : list nat -> Prop :=
  | strict_nil : strict []
  | strict_one s : pow2 s -> strict [s]
  | strict_cons s t l : pow2 s -> (t < s)%nat -> strict (t :: l) -> strict (s :: t :: l).

Inductive pending : list nat -> Prop :=
  | pending_strict l : strict l -> pending l
  | pending_merge l s : pow2 s -> pending (l ++ [2 * s]%nat) -> pending (l ++ [s; s]).

Definition sum (l : list nat) : nat := foldr Nat.add 0%nat l.

Lemma sum_app a b : sum (a ++ b) = (sum a + sum b)%nat.
Proof. induction a as [|x a IH]; cbn; [done|]. unfold sum in *. rewrite IH. lia. Qed.

Lemma pow2_lt s t : pow2 s -> pow2 t -> (t < s)%nat -> (2 * t <= s)%nat.
Proof.
  intros [k ->] [j ->] H. apply Nat.pow_lt_mono_r_iff in H; [|lia].
  rewrite <- Nat.pow_succ_r'. apply Nat.pow_le_mono_r; lia.
Qed.

Lemma pow2_pos_nat s : pow2 s -> (1 <= s)%nat.
Proof. intros [k ->]. pose proof (Nat.pow_nonzero 2 k). lia. Qed.

Lemma pow2_double s : pow2 s -> pow2 (2 * s).
Proof. intros [k ->]. exists (S k). rewrite Nat.pow_succ_r'. done. Qed.

Lemma strict_pow2 l : strict l -> Forall pow2 l.
Proof. induction 1; eauto. Qed.

Lemma strict_tail s l : strict (s :: l) -> strict l.
Proof. inversion 1; subst; [constructor|assumption]. Qed.

Lemma strict_sum s l : strict (s :: l) -> (sum l < s)%nat.
Proof.
  revert s. induction l as [|t l IH]; intros s H.
  - inversion H; subst. cbn. apply pow2_pos_nat. assumption.
  - inversion H; subst. pose proof (IH t ltac:(assumption)). cbn in *.
    pose proof (pow2_lt s t ltac:(assumption)) as Hp.
    assert (pow2 t) by (assert (strict (t :: l)) as X by assumption; apply strict_pow2 in X; inversion X; assumption).
    specialize (Hp ltac:(assumption) ltac:(assumption)). unfold sum in *. lia.
Qed.

Lemma strict_snoc l s : strict l -> pow2 s -> Forall (fun t => s < t)%nat l -> strict (l ++ [s]).
Proof.
  intros Hl Hs. induction Hl as [|t Ht|t u l Ht Hu Hl IH]; intros HF; cbn.
  - constructor. assumption.
  - inversion HF; subst. constructor; [assumption..|]. constructor. assumption.
  - inversion HF; subst. constructor; [assumption..|]. apply IH. assumption.
Qed.

(** Pushing a subtree that is not larger than any on a merged stack leaves a
    stack that merging completes. *)
Lemma pending_push l s : strict l -> pow2 s -> Forall (fun t => s <= t)%nat l -> pending (l ++ [s]).
Proof.
  intros Hl. revert s. induction l as [|t l IH] using rev_ind; intros s Hs HF.
  - apply pending_strict. constructor. assumption.
  - apply Forall_app in HF as [HFl HFt]. inversion HFt as [|? ? Hst _]; subst.
    pose proof (strict_pow2 _ Hl) as Hp. apply Forall_app in Hp as [Hpl Hpt]. inversion Hpt; subst.
    assert (Hl' : strict l /\ Forall (fun u => t < u)%nat l).
    { clear - Hl. induction l as [|a [|b l] IH]; cbn in *; [split; constructor|..].
      - inversion Hl; subst. split; [constructor; assumption|]. constructor; [assumption|constructor].
      - inversion Hl; subst. destruct IH as [Hs HF]; [assumption|]. split; [constructor; assumption|].
        constructor; [|assumption]. inversion HF; subst. lia. }
    destruct Hl' as [Hl' HFlt].
    destruct (decide (s = t)) as [->|Hne].
    + rewrite <- app_assoc. cbn. apply pending_merge; [assumption|].
      apply IH; [assumption|apply pow2_double; assumption|].
      apply Forall_forall. intros u Hu. rewrite Forall_forall in HFlt, Hpl. apply pow2_lt; auto.
    + apply pending_strict, strict_snoc; [assumption..|]. apply Forall_app. split; [|constructor; [lia|constructor]].
      apply Forall_forall. intros u Hu. rewrite Forall_forall in HFlt. specialize (HFlt u Hu). lia.
Qed.

Lemma pending_pow2 l : pending l -> Forall pow2 l.
Proof.
  induction 1 as [l H|l s Hs _ IH]; [apply strict_pow2; assumption|].
  apply Forall_app in IH as [IH _]. apply Forall_app. split; [assumption|]. repeat constructor; assumption.
Qed.

(** The bottom subtree is at least as large as all above it together. *)
Lemma pending_head s l : pending (s :: l) -> l <> [] -> (sum l <= s)%nat /\ pending l.
Proof.
  intros H. remember (s :: l) as sl eqn:E. revert s l E.
  induction H as [l' H|l' t Ht _ IH]; intros s l -> || intros s l E.
  - intros _. split; [apply Nat.lt_le_incl, strict_sum; assumption|]. apply pending_strict, (strict_tail s). assumption.
  - intros Hne. destruct l' as [|u l']; cbn in E; injection E as <- <-.
    + split; [cbn; lia|]. apply pending_strict. constructor. assumption.
    + destruct (IH u (l' ++ [2 * t]%nat)) as [Hsum Hpend]; [done|destruct l'; done|].
      rewrite sum_app in *. cbn in *. split; [lia|]. apply pending_merge; assumption.
Qed.

(** ** Population counts *)

Lemma popcnt_double x : 0 <= x -> popcnt (2 * x) = popcnt x.
Proof. intros H. destruct x; [done|done|lia]. Qed.
Lemma popcnt_double_1 x : 0 <= x -> popcnt (2 * x + 1) = 1 + popcnt x.
Proof. intros H. destruct x; [done|done|lia]. Qed.

Lemma popcnt_pow2_add k m : 0 <= m < 2 ^ Z.of_nat k -> popcnt (2 ^ Z.of_nat k + m) = 1 + popcnt m.
Proof.
  revert m. induction k as [|k IH]; intros m Hm.
  - assert (m = 0) as -> by (cbn in Hm; lia). done.
  - replace (Z.of_nat (S k)) with (Z.of_nat k + 1) in * by lia. rewrite Z.pow_add_r in * by lia.
    change (2 ^ 1) with 2 in *. pose proof (Z.div_mod m 2). pose proof (Z.mod_pos_bound m 2).
    set (q := m / 2) in *. set (r := m mod 2) in *.
    assert (r = 0 \/ r = 1) as [Hr|Hr] by lia.
    + replace (2 ^ Z.of_nat k * 2 + m) with (2 * (2 ^ Z.of_nat k + q)) by lia.
      replace m with (2 * q) by lia. rewrite !popcnt_double by lia. apply IH. lia.
    + replace (2 ^ Z.of_nat k * 2 + m) with (2 * (2 ^ Z.of_nat k + q) + 1) by lia.
      replace m with (2 * q + 1) by lia. rewrite !popcnt_double_1 by lia. rewrite IH; lia.
Qed.

Lemma strict_popcnt l : strict l -> popcnt (Z.of_nat (sum l)) = zlen l.
Proof.
  intros H. induction l as [|s l IH]; [done|].
  pose proof (strict_sum s l H). pose proof (strict_pow2 _ H) as Hp. inversion Hp as [|? ? [k Hk] _]; subst.
  change (sum (2 ^ k :: l)%nat) with (2 ^ k + sum l)%nat. rewrite Nat2Z.inj_add.
  pose proof (Nat2Z.inj_pow 2 k) as E. change (Z.of_nat 2) with 2 in E. rewrite E.
  rewrite popcnt_pow2_add by lia.
  rewrite IH by (apply (strict_tail (2 ^ k)%nat); assumption). cbn [length]. lia.
Qed.

Lemma sum_merge l s : sum (l ++ [2 * s]%nat) = sum (l ++ [s; s]).
Proof. rewrite !sum_app. cbn. lia. Qed.

Lemma pending_popcnt l : pending l -> popcnt (Z.of_nat (sum l)) <= zlen l.
Proof.
  induction 1 as [l H|l s Hs _ IH]; [rewrite strict_popcnt by assumption; lia|].
  rewrite sum_merge in IH. rewrite !length_app in *. cbn [length] in *. lia.
Qed.

(** ** The lazy merge *)

Lemma merge_top_spec segs a b : pow2 (length a) -> length b = length a ->
  merge_top key kflags (map tree_cv (segs ++ [a; b])) = map tree_cv (segs ++ [a ++ b]).
Proof.
  intros [k Ha] Hb. pose proof (pow2_pos_nat _ (ex_intro _ k Ha)).
  unfold merge_top. rewrite !map_app. cbn [map].
  set (A := map tree_cv segs). rewrite zlen_app. cbn [length].
  rewrite ztake_app by lia. rewrite zdrop_app by lia. cbn [concat]. rewrite app_nil_r.
  rewrite (tree_cv_split k) by lia. done.
Qed.

Lemma merge_loop_spec sizes : pending sizes -> forall segs fuel,
  map length segs = sizes -> (length segs <= fuel)%nat ->
  exists segs', merge_loop fuel key kflags (popcnt (Z.of_nat (sum sizes))) (map tree_cv segs) = map tree_cv segs'
    /\ strict (map length segs') /\ concat segs' = concat segs.
Proof.
  induction 1 as [l H|l s Hs Hp IH]; intros segs fuel Hl Hf.
  - exists segs. rewrite Hl. split_and!; [|assumption|done].
    rewrite strict_popcnt by assumption. destruct fuel; [done|]. cbn [merge_loop].
    rewrite length_map, <- Hl, length_map, Z.gtb_ltb, Z.ltb_irrefl. done.
  - pose proof (pending_popcnt _ Hp) as Hpop. rewrite sum_merge in Hpop, IH.
    assert (exists segs0 a b, segs = segs0 ++ [a; b] /\ map length segs0 = l /\ length a = s /\ length b = s)
      as (segs0 & a & b & -> & Hl0 & Ha & Hb).
    { clear - Hl. apply map_eq_app in Hl as (segs0 & t & -> & <- & Ht).
      destruct t as [|a [|b [|]]]; try discriminate. injection Ht as Ha Hb. eauto 10. }
    rewrite length_app in Hf. cbn in Hf. destruct fuel as [|fuel]; [lia|]. cbn [merge_loop].
    assert (zlen (map tree_cv (segs0 ++ [a; b])) >? popcnt (Z.of_nat (sum (l ++ [s; s]))) = true) as ->.
    { rewrite Z.gtb_ltb. apply Z.ltb_lt. apply (f_equal length) in Hl0. rewrite length_map in Hl0.
      rewrite length_app in Hpop. rewrite length_map, length_app. cbn [length] in *. lia. }
    rewrite merge_top_spec by (rewrite ?Ha; done || congruence).
    destruct (IH (segs0 ++ [a ++ b]) fuel) as (segs' & E & Hs' & Hc).
    + rewrite map_app, Hl0. cbn. rewrite length_app, Ha, Hb. repeat f_equal; lia.
    + rewrite length_app. cbn. lia.
    + exists segs'. split_and!; [assumption..|]. rewrite Hc, !concat_app. cbn. rewrite !app_nil_r. done.
Qed.

End Spec.
