(* ===== verification/Blake3Hasher.v ===== *)
(** * BLAKE3: the incremental hasher computes the tree hash

    Refinement of the reference hash of [Blake3Spec] by the code of
    src/blake3/blake3.c: the chunk state, the wide subtree compression for every
    SIMD degree, the lazily merged stack of subtrees and the finalisation.
    However an input is split over calls of [blake3_hasher_update], the
    result is the reference hash of the concatenation. *)

From Stdlib Require Import ZArith Lia Bool String.
From stdpp Require Import base list.
From S2P Require Import Prelude Uint256 Blake3 Blake3Spec.
Local Open Scope Z_scope.
Local Open Scope adonai_scope.

Section Hasher.
Variable key : list Z.
Variable kflags : Z.

Notation chunk_output := (chunk_output key kflags).
Notation rest_output := (rest_output kflags).
Notation leaf_cv := (leaf_cv key kflags).
Notation leaf_cvs := (leaf_cvs key kflags).
Notation tree_cv := (tree_cv key kflags).
Notation parent_cv := (parent_cv key kflags).
Notation pair_layer := (pair_layer key kflags).

(** ** The chunk state *)

(** Whole blocks [pre] of the chunk [ctr] are compressed into [cv st]. *)
Definition open_inv (ctr : Z) (pre : list Z) (st : blake3_chunk_state) : Prop :=
  flags st = kflags /\ chunk_counter st = ctr /\ zlen pre = 64 * blocks_compressed st /\
  (pre = [] -> cv st = key) /\
  forall rest, rest <> [] \/ pre = [] ->
    chunk_output ctr (pre ++ rest) = rest_output ctr (blocks_compressed st =? 0) (cv st) rest.

(** The chunk state after the bytes [data]: whole blocks are compressed, and
    the last block, which is never compressed early, is buffered. *)
Definition chunk_inv (ctr : Z) (data : list Z) (st : blake3_chunk_state) : Prop :=
  exists pre tail, data = pre ++ tail /\ open_inv ctr pre st /\
    buf_len st = zlen tail /\ zlen tail <= 64 /\ (tail = [] -> pre = []) /\ buf st = pad_block tail.

Lemma chunk_inv_init ctr : chunk_inv ctr [] (set_chunk_counter (chunk_state_init key kflags) ctr).
Proof. exists [], []. split_and!; done. Qed.

Lemma chunk_inv_reset ctr st : flags st = kflags -> chunk_inv ctr [] (chunk_state_reset st key ctr).
Proof. intros H. exists [], []. split_and!; done. Qed.

Lemma chunk_inv_renumber ctr ctr' st : chunk_inv ctr [] st -> chunk_inv ctr' [] (set_chunk_counter st ctr').
Proof.
  intros (pre & tail & E & (Hf & Hc & Hpre & Hkey & _) & Hb & Ht & Hne & Hbuf).
  symmetry in E. apply app_eq_nil in E as [-> ->]. cbn in Hpre.
  assert (blocks_compressed st = 0) as H0 by lia.
  exists [], []. split_and!; try done. split_and!; [done..|intros _; apply Hkey; done|]. intros rest _.
  cbn [set_chunk_counter blocks_compressed cv]. rewrite H0, Hkey by done. done.
Qed.

Lemma chunk_inv_len ctr data st : chunk_inv ctr data st -> chunk_state_len st = zlen data.
Proof.
  intros (pre & tail & -> & (_ & _ & Hpre & _) & Hb & _). unfold chunk_state_len, BLAKE3_BLOCK_LEN.
  rewrite zlen_app. lia.
Qed.

Lemma chunk_inv_counter ctr data st : chunk_inv ctr data st -> chunk_counter st = ctr /\ flags st = kflags.
Proof. intros (pre & tail & _ & (Hf & Hc & _) & _). done. Qed.

Lemma chunk_inv_output ctr data st : chunk_inv ctr data st -> chunk_state_output st = chunk_output ctr data.
Proof.
  intros (pre & tail & -> & (Hf & Hc & Hpre & Hkey & Hcont) & Hb & Ht & Hne & Hbuf).
  rewrite Hcont by (destruct tail; [right; auto|left; done]).
  rewrite rest_output_last by (unfold BLAKE3_BLOCK_LEN; lia).
  unfold chunk_state_output, chunk_state_maybe_start_flag. rewrite Hf, Hc, Hb, Hbuf.
  unfold start_flag. done.
Qed.

(** Compressing one more whole block, when more input follows. *)
Lemma open_inv_block ctr pre st b buf' blen : open_inv ctr pre st -> zlen b = 64 -> zlen pre <= 1024 ->
  open_inv ctr (pre ++ b)
    {| cv := compress_block st b; chunk_counter := chunk_counter st; buf := buf'; buf_len := blen;
       blocks_compressed := u8 (blocks_compressed st + 1); flags := flags st |}.
Proof.
  intros (Hf & Hc & Hpre & Hkey & Hcont) Hb Hl.
  assert (u8 (blocks_compressed st + 1) = blocks_compressed st + 1) as E
    by (apply wrap_small; unfold fits; lia).
  split_and!; [assumption..| | |]; cbn [blocks_compressed cv].
  - rewrite zlen_app, E. lia.
  - intros Hnil. apply app_eq_nil in Hnil as [_ ->]. cbn in Hb. lia.
  - intros rest Hr. assert (Hne : rest <> []) by
      (destruct Hr as [|Hr]; [done|]; apply app_eq_nil in Hr as [_ ->]; cbn in Hb; lia).
    assert (0 < zlen rest) by (destruct rest; [done|cbn; lia]).
    rewrite <- app_assoc, Hcont by (left; destruct b; [cbn in Hb; lia|done]).
    rewrite rest_output_more by (rewrite zlen_app; unfold BLAKE3_BLOCK_LEN; lia).
    unfold BLAKE3_BLOCK_LEN. rewrite ztake_app, zdrop_app by lia. rewrite E.
    assert (blocks_compressed st + 1 =? 0 = false) as -> by (apply Z.eqb_neq; lia).
    unfold compress_block, chunk_state_maybe_start_flag, start_flag, BLAKE3_BLOCK_LEN. rewrite Hf, Hc. done.
Qed.

Lemma chunk_update_loop_spec ctr fuel : forall pre st input,
  open_inv ctr pre st -> (length input <= fuel)%nat -> zlen pre + zlen input <= 1024 ->
  (input <> [] \/ pre = []) ->
  exists pre' tail st', chunk_update_loop fuel st input = (st', tail) /\ pre ++ input = pre' ++ tail /\
    open_inv ctr pre' st' /\ zlen tail <= 64 /\ (tail = [] -> pre' = []) /\
    buf st' = buf st /\ buf_len st' = buf_len st.
Proof.
  unfold BLAKE3_BLOCK_LEN.
  induction fuel as [|fuel IH]; intros pre st input Hinv Hf Hl Hne; cbn [chunk_update_loop].
  - destruct input; [|cbn in Hf; lia]. exists pre, [], st. split_and!; try done. destruct Hne; done.
  - unfold BLAKE3_BLOCK_LEN. destruct (Z.gtb_spec (zlen input) 64) as [H|H].
    + edestruct (IH (pre ++ ztake 64 input)) as (pre' & tail & st' & -> & E & Hi & Ht & Hn & Hb & Hbl);
        [apply open_inv_block; [exact Hinv|rewrite zlen_ztake; lia|lia]|..].
      * unfold zdrop. rewrite length_drop. lia.
      * rewrite zlen_app, zlen_ztake, zlen_zdrop by lia. lia.
      * left. intros E. apply (f_equal length) in E. cbn in E. pose proof (zlen_zdrop 64 input). lia.
      * rewrite <- app_assoc, ztake_zdrop in E. exists pre', tail, st'. split_and!; assumption || done.
    + exists pre, input, st. split_and!; try done. intros ->. destruct Hne; done.
Qed.

(** Bytes appended to the buffered tail of a block. *)
Lemma fill_buf_spec st tail input : buf_len st = zlen tail -> zlen tail <= 64 -> buf st = pad_block tail ->
  let n := Z.min (64 - zlen tail) (zlen input) in
  let '(st', take) := chunk_state_fill_buf st input in
  take = n /\ cv st' = cv st /\ chunk_counter st' = chunk_counter st /\ flags st' = flags st /\
  blocks_compressed st' = blocks_compressed st /\
  buf_len st' = zlen (tail ++ ztake n input) /\ buf st' = pad_block (tail ++ ztake n input).
Proof.
  intros Hb Ht Hbuf n. unfold chunk_state_fill_buf, BLAKE3_BLOCK_LEN. rewrite Hb.
  assert ((if 64 - zlen tail >? zlen input then zlen input else 64 - zlen tail) = n) as ->
    by (unfold n; destruct (Z.gtb_spec (64 - zlen tail) (zlen input)); lia).
  cbn [cv chunk_counter flags blocks_compressed buf_len buf].
  assert (Hn : zlen (ztake n input) = n) by (apply zlen_ztake; lia).
  split_and!; try done.
  - rewrite zlen_app, Hn. apply wrap_small. unfold fits. lia.
  - unfold memcpy_at. rewrite Hbuf, Hn. unfold pad_block, BLAKE3_BLOCK_LEN.
    rewrite ztake_app by done. rewrite zlen_app, Hn, <- app_assoc. do 2 f_equal.
    unfold zdrop, zrep. rewrite drop_app_ge by lia. rewrite drop_replicate. f_equal. lia.
Qed.

Lemma open_inv_ext ctr pre st st' : open_inv ctr pre st -> cv st' = cv st -> chunk_counter st' = chunk_counter st ->
  flags st' = flags st -> blocks_compressed st' = blocks_compressed st -> open_inv ctr pre st'.
Proof. intros (? & ? & ? & ? & ?) E0 E1 E2 E3. unfold open_inv. rewrite E0, E1, E2, E3. done. Qed.

(** The loop and the final [fill_buf], from a state whose buffer is empty. *)
Lemma update_tail_spec ctr pre st input : open_inv ctr pre st -> buf_len st = 0 -> buf st = pad_block [] ->
  zlen pre + zlen input <= 1024 -> (input <> [] \/ pre = []) ->
  chunk_inv ctr (pre ++ input)
    (let '(st, input) := chunk_update_loop (length input) st input in (chunk_state_fill_buf st input).1).
Proof.
  intros Hi Hbl Hb Hl Hne.
  destruct (chunk_update_loop_spec ctr (length input) pre st input) as
    (pre' & tail & st' & -> & E & Hi' & Ht & Hn & Hb' & Hbl'); [done..|].
  pose proof (fill_buf_spec st' [] tail) as F. cbn [length app] in F.
  specialize (F ltac:(rewrite Hbl', Hbl; done) ltac:(cbn; lia) ltac:(congruence)).
  destruct (chunk_state_fill_buf st' tail) as [st'' tk]. destruct F as (_ & E1 & E2 & E3 & E4 & E5 & E6).
  rewrite Z.min_r in * by lia. rewrite ztake_all in * by lia.
  rewrite E. exists pre', tail. split_and!; try done. eapply open_inv_ext; eassumption.
Qed.

Lemma chunk_state_update_spec ctr data st input :
  chunk_inv ctr data st -> zlen data + zlen input <= 1024 ->
  chunk_inv ctr (data ++ input) (chunk_state_update st input).
Proof.
  intros (pre & tail & -> & Hi & Hb & Ht & Hne & Hbuf) Hl. unfold chunk_state_update.
  rewrite zlen_app in Hl. destruct (Z.gtb_spec (buf_len st) 0) as [Hp|Hp].
  2:{ assert (tail = []) as -> by (apply zlen_nil_inv; lia). rewrite Hne, !app_nil_l by done.
      apply (update_tail_spec ctr []); try (rewrite Hne in Hi by done); auto; try lia. }
  pose proof (fill_buf_spec st tail input Hb Ht Hbuf) as F. cbn zeta in F.
  destruct (chunk_state_fill_buf st input) as [st1 tk]. destruct F as (-> & E1 & E2 & E3 & E4 & E5 & E6).
  set (n := Z.min (64 - zlen tail) (zlen input)) in *.
  assert (Hi1 : open_inv ctr pre st1) by (eapply open_inv_ext; eassumption).
  assert (Hn : zlen (ztake n input) = n) by (apply zlen_ztake; lia).
  assert (Hnd : zlen (zdrop n input) = zlen input - n) by (apply zlen_zdrop; lia).
  rewrite <- (ztake_zdrop n input) at 1.
  destruct (Z.gtb_spec (zlen (zdrop n input)) 0) as [Hz|Hz].
  - rewrite <- app_assoc, (app_assoc tail), app_assoc. apply update_tail_spec.
    + rewrite E6. unfold pad_block, BLAKE3_BLOCK_LEN. rewrite zlen_app, Hn.
      replace (64 - (zlen tail + n)) with 0 by lia. rewrite app_nil_r.
      apply open_inv_block; [assumption|rewrite zlen_app; lia|lia].
    + done.
    + done.
    + rewrite !zlen_app. lia.
    + left. intros E. rewrite E in Hz. cbn in Hz. lia.
  - assert (zdrop n input = []) as -> by (apply zlen_nil_inv; lia). rewrite app_nil_r, <- app_assoc.
    cbn [length chunk_update_loop].
    pose proof (fill_buf_spec st1 _ [] E5) as F. cbn zeta in F.
    specialize (F ltac:(rewrite zlen_app; lia) E6).
    destruct (chunk_state_fill_buf st1 []) as [st2 tk]. destruct F as (_ & F1 & F2 & F3 & F4 & F5 & F6).
    unfold ztake in F5, F6 at 2. rewrite take_nil, app_nil_r in F5, F6.
    exists pre, (tail ++ ztake n input). split_and!; try done.
    + eapply open_inv_ext; eassumption.
    + rewrite zlen_app. lia.
    + intros E. apply app_eq_nil in E as [-> _]. cbn in *. lia.
Qed.

(** ** Hashing many chunks and many parents *)

Lemma hash_one_loop_spec ctr n : forall first cv input, zlen input = 64 * Z.of_nat (S n) ->
  store_cv_words (hash_one_loop (S n) cv input ctr kflags (Z.lor kflags (start_flag first)) CHUNK_END) =
  output_chaining_value (rest_output ctr first cv input).
Proof.
  induction n as [|n IH]; intros first cv input Hl.
  - rewrite rest_output_last by (unfold BLAKE3_BLOCK_LEN; lia). cbn [hash_one_loop Nat.eqb].
    unfold output_chaining_value, make_output. cbn [input_cv block block_len counter out_flags].
    unfold pad_block, BLAKE3_BLOCK_LEN. rewrite Hl, ztake_all by lia. rewrite app_nil_r. done.
  - rewrite rest_output_more by (unfold BLAKE3_BLOCK_LEN; lia).
    rewrite <- IH by (unfold BLAKE3_BLOCK_LEN; rewrite zlen_zdrop; lia).
    unfold start_flag at 2. rewrite Z.lor_0_r. done.
Qed.

Lemma hash_one_chunk ctr c : zlen c = 1024 ->
  hash_one c 16 key ctr kflags CHUNK_START CHUNK_END = leaf_cv ctr c.
Proof. intros H. apply (hash_one_loop_spec ctr 15 true key c). lia. Qed.

Lemma hash_many_chunks cs : forall ctr, Forall (fun c => zlen c = 1024) cs ->
  0 <= ctr -> ctr + zlen cs <= 2 ^ 64 ->
  blake3_hash_many cs 16 key ctr true kflags CHUNK_START CHUNK_END = leaf_cvs ctr cs.
Proof.
  induction cs as [|c cs IH]; intros ctr HF H0 Hc; [done|]. inversion HF; subst.
  cbn [blake3_hash_many Blake3Spec.leaf_cvs length] in *. rewrite hash_one_chunk by assumption. f_equal.
  destruct cs as [|c' cs']; [done|]. cbn [length] in *.
  rewrite wrap_small by (unfold fits; lia). apply IH; [assumption|lia|cbn [length]; lia].
Qed.

Lemma whole_chunks_spec fuel : forall input, (length input <= fuel)%nat -> input <> [] ->
  exists full rest, whole_chunks fuel input = (full, rest) /\ Forall (fun c => zlen c = 1024) full /\
    zlen rest < 1024 /\ chunks_of input = full ++ (if decide (rest = []) then [] else [rest]).
Proof.
  induction fuel as [|fuel IH]; intros input Hf Hne; cbn [whole_chunks].
  { destruct input; [done|cbn in Hf; lia]. }
  unfold BLAKE3_CHUNK_LEN. destruct (Z.geb_spec (zlen input) 1024) as [H|H].
  - destruct (decide (zdrop 1024 input = [])) as [E|E].
    + assert (zlen input = 1024) by (apply (f_equal length) in E; cbn in E; pose proof (zlen_zdrop 1024 input); lia).
      rewrite E. exists [ztake 1024 input], []. split_and!.
      * destruct fuel; reflexivity.
      * repeat constructor. rewrite zlen_ztake; lia.
      * cbn. lia.
      * rewrite chunks_of_last by (unfold BLAKE3_CHUNK_LEN; lia). rewrite ztake_all by lia. done.
    + destruct (IH (zdrop 1024 input)) as (full & rest & -> & HF & Hr & Ec); [|done|].
      { unfold zdrop. rewrite length_drop. lia. }
      exists (ztake 1024 input :: full), rest. split_and!; [done| |done|].
      * constructor; [rewrite zlen_ztake; lia|assumption].
      * rewrite chunks_of_more; [unfold BLAKE3_CHUNK_LEN; rewrite Ec; done|].
        assert (0 < zlen (zdrop 1024 input)) by (destruct (zdrop 1024 input); [done|cbn; lia]).
        rewrite zlen_zdrop in * by lia. unfold BLAKE3_CHUNK_LEN. lia.
  - exists [], input. split_and!; [done|constructor|lia|].
    rewrite decide_False by done. apply chunks_of_last. unfold BLAKE3_CHUNK_LEN. lia.
Qed.

Lemma compress_chunks_spec input ctr : input <> [] -> 0 <= ctr -> ctr + zlen (chunks_of input) <= 2 ^ 64 ->
  compress_chunks_parallel input key ctr kflags = leaf_cvs ctr (chunks_of input).
Proof.
  intros Hne H0 Hc. unfold compress_chunks_parallel.
  destruct (whole_chunks_spec (length input) input) as (full & rest & -> & HF & Hr & E); [lia|done|].
  rewrite E in *. rewrite zlen_app in Hc. destruct (decide (rest = [])) as [->|Hne'].
  - rewrite app_nil_r. apply hash_many_chunks; [assumption|lia|cbn in Hc; lia].
  - assert (0 < zlen rest) by (destruct rest; [done|cbn; lia]). cbn [length] in Hc.
    destruct (Z.gtb_spec (zlen rest) 0); [|lia].
    rewrite hash_many_chunks, leaf_cvs_app by (assumption || lia). f_equal. cbn [Blake3Spec.leaf_cvs]. f_equal.
    rewrite wrap_small by (unfold fits; lia). unfold Blake3Spec.leaf_cv. f_equal. apply chunk_inv_output.
    apply (chunk_state_update_spec _ [] _ rest); [apply chunk_inv_init|cbn; lia].
Qed.

(** Chaining values are 32 bytes. *)
Definition cvs_ok (cvs : list (list Z)) : Prop := Forall (fun c => zlen c = 32) cvs.

Lemma zlen_ocv o : zlen (output_chaining_value o) = 32.
Proof. reflexivity. Qed.

Lemma leaf_cvs_ok ctr l : cvs_ok (leaf_cvs ctr l).
Proof. revert ctr. induction l as [|c l IH]; intros ctr; constructor; [apply zlen_ocv|apply IH]. Qed.

Lemma pair_layer_ok cvs : cvs_ok cvs -> cvs_ok (pair_layer cvs).
Proof.
  induction cvs as [|x|x y l IH] using list_pair_ind; intros H; [done|done|].
  inversion H as [|? ? _ H1]; subst. inversion H1; subst.
  constructor; [apply zlen_ocv|apply IH; assumption].
Qed.

Lemma compress_parents_spec cvs : cvs_ok cvs -> compress_parents_parallel cvs key kflags = pair_layer cvs.
Proof.
  unfold compress_parents_parallel. induction cvs as [|x|x y l IH] using list_pair_ind; intros H; [done|done|].
  inversion H as [|? ? Hx H1]; subst. inversion H1 as [|? ? Hy H2]; subst. specialize (IH H2).
  cbn [parent_blocks Blake3Spec.pair_layer]. destruct (parent_blocks l) as [ps odd].
  cbn [blake3_hash_many app]. rewrite IH. f_equal. unfold hash_one. cbn [hash_one_loop Nat.eqb].
  rewrite !Z.lor_0_r, ztake_all by (rewrite zlen_app; lia). done.
Qed.

(** ** Whole subtrees *)

Lemma chunks_of_whole k a : zlen a = 1024 * Z.of_nat k -> (0 < k)%nat -> length (chunks_of a) = k.
Proof.
  intros Ha Hk. destruct (chunks_of_app (k - 1) (ztake (1024 * Z.of_nat (k - 1)) a) (zdrop (1024 * Z.of_nat (k - 1)) a))
    as (l & E & Hl & _).
  - unfold BLAKE3_CHUNK_LEN. rewrite zlen_ztake; lia.
  - intros E. apply (f_equal length) in E. cbn in E. pose proof (zlen_zdrop (1024 * Z.of_nat (k - 1)) a). lia.
  - rewrite ztake_zdrop in E. rewrite E, length_app, Hl.
    rewrite (chunks_of_last (zdrop _ _)) by (rewrite zlen_zdrop; unfold BLAKE3_CHUNK_LEN; lia). cbn. lia.
Qed.

Lemma chunks_of_app_whole k a b : zlen a = 1024 * Z.of_nat k -> (0 < k)%nat -> b <> [] ->
  chunks_of (a ++ b) = chunks_of a ++ chunks_of b.
Proof.
  intros Ha Hk Hb. destruct (chunks_of_app k a b) as (l & E & _ & El); [exact Ha|done|].
  rewrite E, El; [done|]. intros ->. cbn in Ha. lia.
Qed.

(** [i] layers of parents *)
Definition layers (i : nat) (cvs : list (list Z)) : list (list Z) := Nat.iter i pair_layer cvs.

Lemma layers_S i cvs : layers (S i) cvs = layers i (pair_layer cvs).
Proof. unfold layers. rewrite Nat.iter_succ_r. done. Qed.

Lemma length_pair_layer_pow k cvs : length cvs = (2 ^ S k)%nat -> length (pair_layer cvs) = (2 ^ k)%nat.
Proof.
  intros H. rewrite length_pair_layer, H, Nat.pow_succ_r'. pose proof (half_bounds (2 * 2 ^ k + 1)). lia.
Qed.

Lemma length_layers i j cvs : length cvs = (2 ^ (i + j))%nat -> length (layers i cvs) = (2 ^ j)%nat.
Proof.
  revert cvs. induction i as [|i IH]; intros cvs H; [done|].
  rewrite layers_S. apply IH, length_pair_layer_pow. exact H.
Qed.

Lemma layers_app i j a b : length a = (2 ^ (i + j))%nat -> layers i (a ++ b) = layers i a ++ layers i b.
Proof.
  revert a b. induction i as [|i IH]; intros a b H; [done|]. rewrite !layers_S.
  rewrite pair_layer_app by (rewrite H; cbn [Nat.add]; rewrite Nat.pow_succ_r', Nat.even_mul; done).
  apply IH, length_pair_layer_pow. exact H.
Qed.

Lemma layers_ok i cvs : cvs_ok cvs -> cvs_ok (layers i cvs).
Proof. intros H. induction i as [|i IH]; [done|]. apply pair_layer_ok, IH. Qed.

Lemma layers_root i cvs : length cvs = (2 ^ i)%nat -> layers i cvs = [tree_cv cvs].
Proof.
  revert cvs. induction i as [|i IH]; intros cvs H.
  - destruct cvs as [|c [|]]; cbn in H; try lia. done.
  - rewrite layers_S, IH by (apply length_pair_layer_pow; exact H). rewrite tree_cv_pair_layer; [done|].
    rewrite H, Nat.pow_succ_r'. pose proof (Nat.pow_nonzero 2 i). lia.
Qed.

Lemma round_down_pow2 k x : 2 ^ Z.of_nat k <= x < 2 ^ Z.of_nat (S k) -> x < 2 ^ 64 ->
  round_down_to_power_of_2 x = 2 ^ Z.of_nat k.
Proof.
  intros Hx H64. unfold round_down_to_power_of_2, highest_one.
  pose proof (pow2_pos (Z.of_nat k) ltac:(lia)).
  rewrite Z.log2_lor, (Z.log2_unique x (Z.of_nat k)) by (try lia; rewrite <- Nat2Z.inj_succ; exact Hx).
  rewrite Z.max_l by (cbn; lia). rewrite Z.shiftl_1_l. apply wrap_small. unfold fits. lia.
Qed.

Lemma of_nat_pow2 k : Z.of_nat (2 ^ k) = 2 ^ Z.of_nat k.
Proof. rewrite Nat2Z.inj_pow. done. Qed.

Lemma pow2_succ_Z k : 2 ^ Z.of_nat (S k) = 2 * 2 ^ Z.of_nat k.
Proof. rewrite Nat2Z.inj_succ, Z.pow_succ_r by lia. done. Qed.

(** Half of a subtree of [2^(k+1)] chunks. *)
Lemma left_subtree_pow2 k : (k < 54)%nat ->
  left_subtree_len (1024 * 2 ^ Z.of_nat (S k)) = 1024 * 2 ^ Z.of_nat k.
Proof.
  intros Hk. unfold left_subtree_len, BLAKE3_CHUNK_LEN.
  pose proof (pow2_pos (Z.of_nat k) ltac:(lia)).
  pose proof (Z.pow_lt_mono_r 2 (Z.of_nat k) 54 ltac:(lia) ltac:(lia) ltac:(lia)).
  assert ((1024 * 2 ^ Z.of_nat (S k) - 1) / 1024 = 2 ^ Z.of_nat (S k) - 1) as ->
    by (symmetry; apply (Z.div_unique _ _ _ 1023); lia).
  rewrite (round_down_pow2 k) by (rewrite ?pow2_succ_Z in *; lia). lia.
Qed.

Section Degree.
Variable simd_degree : Z.
Variable d : nat.
Hypothesis Hdegree : simd_degree = 2 ^ Z.of_nat d.

(** The number of chaining values the wide compression returns for [2^k] chunks. *)
Definition wide_log (k : nat) : nat := if decide (k <= d)%nat then k else Nat.max d 1.

Lemma cv_array_full left right : cv_array (zlen left) left right = left ++ right.
Proof. unfold cv_array. rewrite ztake_app by done. done. Qed.

Lemma wide_leaf k fuel input ctr : (k <= d)%nat -> (length input <= fuel)%nat ->
  zlen input = 1024 * 2 ^ Z.of_nat k -> 0 <= ctr -> ctr + 2 ^ Z.of_nat k <= 2 ^ 64 ->
  blake3_compress_subtree_wide simd_degree fuel input key ctr kflags = leaf_cvs ctr (chunks_of input).
Proof.
  intros Hk Hf Hl H0 H64. pose proof (pow2_pos (Z.of_nat k) ltac:(lia)).
  assert (input <> []) by (intros ->; cbn in Hl; lia).
  destruct fuel as [|fuel]; [destruct input; [congruence|cbn [length] in Hf; lia]|].
  cbn [blake3_compress_subtree_wide].
  assert (zlen input <=? simd_degree * BLAKE3_CHUNK_LEN = true) as ->.
  { apply Z.leb_le. rewrite Hl, Hdegree. unfold BLAKE3_CHUNK_LEN.
    pose proof (Z.pow_le_mono_r 2 (Z.of_nat k) (Z.of_nat d)). lia. }
  apply compress_chunks_spec; [assumption..|].
  rewrite (chunks_of_whole (2 ^ k)) by (rewrite ?of_nat_pow2; lia || (pose proof (Nat.pow_nonzero 2 k); lia)).
  rewrite of_nat_pow2. lia.
Qed.

Lemma leaf_halves k input ctr : let L := 1024 * 2 ^ Z.of_nat k in zlen input = 2 * L ->
  let A := leaf_cvs ctr (chunks_of (ztake L input)) in
  let B := leaf_cvs (ctr + 2 ^ Z.of_nat k) (chunks_of (zdrop L input)) in
  leaf_cvs ctr (chunks_of input) = A ++ B /\ length A = (2 ^ k)%nat /\ length B = (2 ^ k)%nat.
Proof.
  intros L Hl A B. pose proof (pow2_pos (Z.of_nat k) ltac:(lia)). pose proof (Nat.pow_nonzero 2 k ltac:(lia)).
  assert (Hll : zlen (ztake L input) = L) by (apply zlen_ztake; lia).
  assert (Hlr : zlen (zdrop L input) = L) by (rewrite zlen_zdrop; lia).
  assert (HL : L = 1024 * Z.of_nat (2 ^ k)) by (rewrite of_nat_pow2; done).
  assert (Nl : length (chunks_of (ztake L input)) = (2 ^ k)%nat) by (apply chunks_of_whole; lia).
  assert (Nr : length (chunks_of (zdrop L input)) = (2 ^ k)%nat) by (apply chunks_of_whole; lia).
  split_and!; [|unfold A; rewrite length_leaf_cvs; exact Nl|unfold B; rewrite length_leaf_cvs; exact Nr].
  rewrite <- (ztake_zdrop L input) at 1. rewrite (chunks_of_app_whole (2 ^ k)); [|lia..|].
  - rewrite leaf_cvs_app, Nl, of_nat_pow2. done.
  - intros E. rewrite E in Hlr. cbn [length] in Hlr. lia.
Qed.

(** The special case of degree 1 and the offset of the right half in [cv_array]. *)
Lemma wide_combine k A B : (d <= k)%nat -> length A = (2 ^ k)%nat -> length B = (2 ^ k)%nat -> cvs_ok (A ++ B) ->
  let left := layers (k - wide_log k) A in
  let right := layers (k - wide_log k) B in
  let degree := if (1024 * 2 ^ Z.of_nat k >? BLAKE3_CHUNK_LEN) && (simd_degree =? 1) then 2 else simd_degree in
  let cvs := cv_array degree left right in
  (if zlen left =? 1 then ztake 2 cvs
   else compress_parents_parallel (ztake (zlen left + zlen right) cvs) key kflags) =
  layers (S k - wide_log (S k)) (A ++ B).
Proof.
  intros Hd HA HB Hok left right degree cvs.
  assert (Hj : (wide_log k <= k)%nat) by (unfold wide_log; case_decide; lia).
  assert (Hleft : length left = (2 ^ wide_log k)%nat) by (apply length_layers; rewrite HA; f_equal; lia).
  assert (Hright : length right = (2 ^ wide_log k)%nat) by (apply length_layers; rewrite HB; f_equal; lia).
  assert (Happ : left ++ right = layers (k - wide_log k) (A ++ B))
    by (symmetry; apply (layers_app _ (wide_log k)); rewrite HA; f_equal; lia).
  assert (Hdeg : degree = zlen left).
  { rewrite Hleft, of_nat_pow2. unfold degree, wide_log, BLAKE3_CHUNK_LEN. rewrite Hdegree.
    destruct (Z.gtb_spec (1024 * 2 ^ Z.of_nat k) 1024), (Z.eqb_spec (2 ^ Z.of_nat d) 1) as [E|E]; cbn [andb]; case_decide.
    all: try (destruct k; [cbn in *; lia|]); try (assert (d = 0)%nat as -> by (destruct d; [done|rewrite pow2_succ_Z in E; pose proof (pow2_pos (Z.of_nat n)); lia])).
    all: try (rewrite pow2_succ_Z in *; pose proof (pow2_pos (Z.of_nat k)); lia).
    all: try (f_equal; lia).
    all: destruct d; [cbn in *; lia|f_equal; lia]. }
  unfold cvs. rewrite Hdeg, cv_array_full.
  destruct (Z.eqb_spec (zlen left) 1) as [H1|H1].
  - assert (wide_log k = 0%nat) as Hw by (destruct (wide_log k); [done|rewrite Hleft, of_nat_pow2, pow2_succ_Z in H1; pose proof (pow2_pos (Z.of_nat n)); lia]).
    rewrite ztake_all by (rewrite zlen_app, Hright, Hw, H1; cbn; lia). rewrite Happ. f_equal.
    unfold wide_log in *. case_decide; [|lia]. case_decide; lia.
  - rewrite ztake_all by (rewrite zlen_app; lia). rewrite Happ.
    rewrite compress_parents_spec by (apply layers_ok, Hok).
    change (layers (S (k - wide_log k)) (A ++ B) = layers (S k - wide_log (S k)) (A ++ B)). f_equal.
    assert (wide_log k <> 0%nat) by (intros E; rewrite Hleft, E in H1; cbn in H1; lia).
    unfold wide_log in *. repeat case_decide; lia.
Qed.

Lemma wide_spec k : forall fuel input ctr, (k < 54)%nat -> (length input <= fuel)%nat ->
  zlen input = 1024 * 2 ^ Z.of_nat k -> 0 <= ctr -> ctr + 2 ^ Z.of_nat k <= 2 ^ 64 ->
  blake3_compress_subtree_wide simd_degree fuel input key ctr kflags =
    layers (k - wide_log k) (leaf_cvs ctr (chunks_of input)).
Proof.
  induction k as [|k IH]; intros fuel input ctr Hk Hf Hl H0 H64.
  { apply (wide_leaf 0); assumption || lia. }
  destruct (decide (S k <= d)%nat) as [Hd|Hd].
  { rewrite (wide_leaf (S k)) by (assumption || lia). unfold wide_log. rewrite decide_True, Nat.sub_diag by assumption. done. }
  pose proof (pow2_pos (Z.of_nat k) ltac:(lia)) as Hpos.
  pose proof (Z.pow_le_mono_r 2 (Z.of_nat d) (Z.of_nat k) ltac:(lia) ltac:(lia)) as Hdk.
  destruct fuel as [|fuel]; [rewrite pow2_succ_Z in Hl; lia|]. cbn [blake3_compress_subtree_wide].
  assert (zlen input <=? simd_degree * BLAKE3_CHUNK_LEN = false) as ->.
  { apply Z.leb_gt. rewrite Hl, Hdegree, pow2_succ_Z. unfold BLAKE3_CHUNK_LEN. lia. }
  rewrite Hl, left_subtree_pow2 by lia. rewrite pow2_succ_Z in Hl, H64.
  destruct (leaf_halves k input ctr) as (-> & HA & HB); [lia|].
  rewrite <- wide_combine by (try assumption; try lia; apply Forall_app; split; apply leaf_cvs_ok).
  set (L := 1024 * 2 ^ Z.of_nat k) in *.
  assert (L / BLAKE3_CHUNK_LEN = 2 ^ Z.of_nat k) as ->
    by (unfold L, BLAKE3_CHUNK_LEN; rewrite Z.mul_comm; apply Z.div_mul; lia).
  rewrite wrap_small by (unfold fits; lia).
  rewrite !IH; [done|..]; zlens; try lia; unfold ztake, zdrop; rewrite ?length_take, ?length_drop; lia.
Qed.

Lemma wide_log_bounds k : (1 <= k)%nat -> (1 <= wide_log k <= k)%nat /\ (wide_log k <= Nat.max d 1)%nat.
Proof. intros Hk. unfold wide_log. case_decide; lia. Qed.

Lemma condense_spec j : forall fuel cvs, length cvs = (2 ^ S j)%nat -> (length cvs <= fuel)%nat -> cvs_ok cvs ->
  condense fuel cvs key kflags = layers j cvs.
Proof.
  induction j as [|j IH]; intros fuel cvs Hl Hf Hok.
  - destruct fuel; [done|]. cbn [condense]. rewrite Hl. done.
  - pose proof (Nat.pow_nonzero 2 j ltac:(lia)). rewrite !Nat.pow_succ_r' in Hl.
    destruct fuel as [|fuel]; [lia|]. cbn [condense].
    assert (zlen cvs >? 2 = true) as -> by (rewrite Z.gtb_ltb; apply Z.ltb_lt; lia).
    rewrite compress_parents_spec by assumption. rewrite layers_S.
    assert (length (pair_layer cvs) = (2 ^ S j)%nat) as E by (apply length_pair_layer_pow; rewrite !Nat.pow_succ_r'; lia).
    apply IH; [exact E| |apply pair_layer_ok; assumption]. rewrite E, Nat.pow_succ_r'. lia.
Qed.

(** A subtree of [2^(k+1)] chunks is reduced to the chaining values of its two
    halves; the [assert] before the condensing loop holds. *)
Lemma subtree_pair_spec k input ctr : (S k < 54)%nat -> zlen input = 1024 * 2 ^ Z.of_nat (S k) ->
  0 <= ctr -> ctr + 2 ^ Z.of_nat (S k) <= 2 ^ 64 ->
  exists A B, leaf_cvs ctr (chunks_of input) = A ++ B /\ length A = (2 ^ k)%nat /\ length B = (2 ^ k)%nat /\
    compress_subtree_to_parent_node simd_degree input key ctr kflags = [tree_cv A; tree_cv B].
Proof.
  intros Hk Hl H0 H64. unfold compress_subtree_to_parent_node. rewrite (wide_spec (S k)) by (assumption || lia).
  rewrite pow2_succ_Z in Hl. destruct (leaf_halves k input ctr) as (-> & HA & HB); [lia|].
  set (A := leaf_cvs ctr _) in *. set (B := leaf_cvs _ (chunks_of (zdrop _ input))) in *.
  exists A, B. split_and!; try done. destruct (wide_log_bounds (S k)) as [Hj _]; [lia|].
  destruct (wide_log (S k)) as [|j]; [lia|].
  assert (HAB : length (A ++ B) = (2 ^ S k)%nat) by (rewrite length_app, Nat.pow_succ_r'; lia).
  rewrite (condense_spec j);
    [|apply length_layers; rewrite HAB; f_equal; lia|lia|apply layers_ok, Forall_app; split; apply leaf_cvs_ok].
  unfold layers. rewrite <- Nat.iter_add. replace (j + (S k - S j))%nat with k by lia. fold (layers k (A ++ B)).
  rewrite (layers_app k 0) by (rewrite HA; f_equal; lia). rewrite !layers_root by assumption. done.
Qed.

Lemma subtree_assert_spec MAX k input ctr : (k < 54)%nat -> zlen input = 1024 * 2 ^ Z.of_nat k ->
  0 <= ctr -> ctr + 2 ^ Z.of_nat k <= 2 ^ 64 -> 2 <= MAX -> simd_degree <= MAX ->
  subtree_assert simd_degree MAX input key ctr kflags = true.
Proof.
  intros Hk Hl H0 H64 HM2 HM. unfold subtree_assert. rewrite (wide_spec k) by (assumption || lia).
  apply Z.leb_le. assert (Hj : (wide_log k <= k)%nat /\ (wide_log k <= Nat.max d 1)%nat) by (unfold wide_log; case_decide; lia).
  rewrite (length_layers _ (wide_log k)).
  - rewrite of_nat_pow2. destruct d as [|d'].
    + pose proof (Z.pow_le_mono_r 2 (Z.of_nat (wide_log k)) 1). lia.
    + pose proof (Z.pow_le_mono_r 2 (Z.of_nat (wide_log k)) (Z.of_nat (S d'))). lia.
  - rewrite length_leaf_cvs. rewrite (chunks_of_whole (2 ^ k)).
    + f_equal. lia.
    + rewrite of_nat_pow2. lia.
    + pose proof (Nat.pow_nonzero 2 k). lia.
Qed.

End Degree.

(** ** The stack *)

(** The leaves of a whole number of chunks. *)
Definition leaves (pre : list Z) : list (list Z) :=
  if decide (pre = []) then [] else leaf_cvs 0 (chunks_of pre).

Lemma leaves_app c pre x : zlen pre = 1024 * Z.of_nat c -> x <> [] ->
  leaves (pre ++ x) = leaves pre ++ leaf_cvs (Z.of_nat c) (chunks_of x).
Proof.
  intros Hp Hx. unfold leaves. rewrite (decide_False (P := pre ++ x = [])) by (destruct pre, x; done).
  destruct (decide (pre = [])) as [->|Hne].
  - assert (c = 0%nat) as -> by (cbn in Hp; lia). done.
  - assert (0 < c)%nat by (destruct c; [apply zlen_nil_inv in Hp|]; [done|lia]).
    rewrite (chunks_of_app_whole c) by (assumption || lia). rewrite leaf_cvs_app.
    rewrite (chunks_of_whole c pre) by (assumption || lia). done.
Qed.

Lemma length_leaves c pre : zlen pre = 1024 * Z.of_nat c -> length (leaves pre) = c.
Proof.
  intros Hp. unfold leaves. case_decide as E.
  - subst. cbn in *. lia.
  - rewrite length_leaf_cvs. apply chunks_of_whole; [assumption|].
    destruct c; [apply zlen_nil_inv in Hp; done|lia].
Qed.

Lemma sum_map_length (segs : list (list (list Z))) : sum (map length segs) = length (concat segs).
Proof. induction segs as [|x segs IH]; [done|]. cbn. rewrite length_app. unfold sum in IH. rewrite IH. done. Qed.

Lemma strict_divides k l : strict l -> Nat.divide (2 ^ k) (sum l) -> Forall (fun t => 2 ^ k <= t)%nat l.
Proof.
  induction l as [|s l IH]; intros Hs Hd; [constructor|].
  pose proof (strict_sum s l Hs). pose proof (strict_pow2 _ Hs) as Hp. inversion Hp as [|? ? [j Hj] _]; subst.
  destruct (decide (2 ^ k <= 2 ^ j)%nat) as [Hle|Hlt].
  - constructor; [assumption|]. apply IH; [apply (strict_tail (2 ^ j)); assumption|].
    apply (Nat.divide_add_cancel_r _ (2 ^ j)); [|exact Hd].
    apply Nat.pow_le_mono_r_iff in Hle; [|lia]. exists (2 ^ (j - k))%nat. rewrite <- Nat.pow_add_r. f_equal. lia.
  - exfalso. pose proof (pow2_lt (2 ^ k) (2 ^ j) ltac:(exists k; done) ltac:(exists j; done) ltac:(lia)).
    apply Nat.divide_pos_le in Hd; [cbn in *; unfold sum in *; lia|]. cbn. pose proof (Nat.pow_nonzero 2 j). lia.
Qed.

(** [segs] are the subtrees on the stack over the chunks of [pre]. *)
Definition stack_inv (pre : list Z) (stack : list (list Z)) (segs : list (list (list Z))) : Prop :=
  stack = map tree_cv segs /\ concat segs = leaves pre /\ pending (map length segs).

Lemma merge_spec c pre h segs : zlen pre = 1024 * Z.of_nat c ->
  hkey h = key -> flags (chunk h) = kflags -> stack_inv pre (cv_stack h) segs ->
  exists segs', hasher_merge_cv_stack h (Z.of_nat c) =
      {| hkey := key; chunk := chunk h; cv_stack := map tree_cv segs' |}
    /\ concat segs' = leaves pre /\ strict (map length segs').
Proof.
  intros Hp Hk Hf (Hst & Hc & Hpend). unfold hasher_merge_cv_stack. rewrite Hk, Hf, Hst.
  assert (c = sum (map length segs)) as -> by (rewrite sum_map_length, Hc; symmetry; apply length_leaves; assumption).
  destruct (merge_loop_spec key kflags _ Hpend segs (length (map tree_cv segs)) eq_refl) as (segs' & -> & Hs & Hcc).
  - rewrite length_map. lia.
  - exists segs'. split_and!; [done|congruence|assumption].
Qed.

Lemma push_spec k c pre h segs new : zlen pre = 1024 * Z.of_nat c -> Nat.divide (2 ^ k) c ->
  hkey h = key -> flags (chunk h) = kflags -> stack_inv pre (cv_stack h) segs ->
  exists segs', hasher_push_cv h new (Z.of_nat c) =
      {| hkey := key; chunk := chunk h; cv_stack := map tree_cv segs' ++ [new] |}
    /\ concat segs' = leaves pre /\ strict (map length segs') /\ Forall (fun t => 2 ^ k <= t)%nat (map length segs').
Proof.
  intros Hp Hd Hk Hf Hs. destruct (merge_spec c pre h segs Hp Hk Hf Hs) as (segs' & E & Hc & Hst).
  exists segs'. unfold hasher_push_cv. rewrite E. split_and!; try done.
  apply strict_divides; [assumption|]. rewrite sum_map_length, Hc, (length_leaves c) by assumption. exact Hd.
Qed.

(** Pushing one more whole subtree of [2^k] chunks. *)
Lemma push_one k c pre h segs x : zlen pre = 1024 * Z.of_nat c -> zlen x = 1024 * 2 ^ Z.of_nat k -> Nat.divide (2 ^ k) c ->
  hkey h = key -> flags (chunk h) = kflags -> stack_inv pre (cv_stack h) segs ->
  exists segs', hasher_push_cv h (tree_cv (leaf_cvs (Z.of_nat c) (chunks_of x))) (Z.of_nat c) =
      {| hkey := key; chunk := chunk h; cv_stack := map tree_cv segs' |}
    /\ stack_inv (pre ++ x) (map tree_cv segs') segs'.
Proof.
  intros Hp Hx Hd Hk Hf Hs. pose proof (pow2_pos (Z.of_nat k) ltac:(lia)).
  destruct (push_spec k c pre h segs (tree_cv (leaf_cvs (Z.of_nat c) (chunks_of x))) Hp Hd Hk Hf Hs)
    as (segs' & E & Hc & Hst & Hge).
  exists (segs' ++ [leaf_cvs (Z.of_nat c) (chunks_of x)]). rewrite E. unfold stack_inv. rewrite !map_app. split_and!; [done..| |].
  - rewrite concat_app, Hc. cbn [concat]. rewrite app_nil_r, (leaves_app c); [done|assumption|].
    intros ->. cbn in Hx. lia.
  - cbn [map]. rewrite length_leaf_cvs, (chunks_of_whole (2 ^ k)).
    + apply pending_push; [assumption|exists k; done|assumption].
    + rewrite of_nat_pow2. lia.
    + pose proof (Nat.pow_nonzero 2 k). lia.
Qed.

(** Pushing the two halves of a subtree leaves them unmerged. *)
Lemma push_pair k c pre h segs x A B : zlen pre = 1024 * Z.of_nat c -> x <> [] ->
  Nat.divide (2 ^ S k) c -> hkey h = key -> flags (chunk h) = kflags -> stack_inv pre (cv_stack h) segs ->
  leaf_cvs (Z.of_nat c) (chunks_of x) = A ++ B -> length A = (2 ^ k)%nat -> length B = (2 ^ k)%nat ->
  exists segs', hasher_push_cv (hasher_push_cv h (tree_cv A) (Z.of_nat c)) (tree_cv B) (Z.of_nat (c + 2 ^ k)) =
      {| hkey := key; chunk := chunk h; cv_stack := map tree_cv segs' |}
    /\ stack_inv (pre ++ x) (map tree_cv segs') segs' /\ (2 <= length segs')%nat.
Proof.
  intros Hp Hx Hd Hk Hf Hs HAB HA HB.
  destruct (push_spec (S k) c pre h segs (tree_cv A) Hp Hd Hk Hf Hs) as (segs' & E & Hc & Hst & Hge).
  pose proof (Nat.pow_nonzero 2 k ltac:(lia)). rewrite Nat.pow_succ_r' in Hge.
  assert (Hst' : strict (map length (segs' ++ [A]))).
  { rewrite map_app. cbn [map]. rewrite HA. apply strict_snoc; [assumption|exists k; done|].
    eapply Forall_impl; [exact Hge|]. cbn. lia. }
  assert (Hsum : sum (map length (segs' ++ [A])) = (c + 2 ^ k)%nat).
  { rewrite map_app, sum_app, sum_map_length, Hc, (length_leaves c) by assumption. cbn. lia. }
  exists (segs' ++ [A; B]). rewrite E. unfold hasher_push_cv, hasher_merge_cv_stack. cbn [hkey chunk cv_stack].
  assert (Hpop : popcnt (Z.of_nat (c + 2 ^ k)) = zlen (map tree_cv segs' ++ [tree_cv A])).
  { rewrite <- Hsum, strict_popcnt by assumption. rewrite length_map, !length_app, length_map. done. }
  rewrite Hf, Hpop.
  assert (forall n l, merge_loop n key kflags (zlen l) l = l) as ->
    by (intros [|n] l; [done|]; cbn [merge_loop]; rewrite Z.gtb_ltb, Z.ltb_irrefl; done).
  unfold stack_inv. split_and!; [rewrite map_app, <- app_assoc; done|done| | |rewrite length_app; cbn; lia].
  - rewrite concat_app, Hc. cbn [concat]. rewrite app_nil_r, (leaves_app c), HAB by assumption. done.
  - rewrite map_app. cbn [map]. rewrite HA, HB. apply pending_merge; [exists k; done|].
    apply pending_push; [assumption|exists (S k); rewrite Nat.pow_succ_r'; lia|assumption].
Qed.

(** ** The update loop *)

(** Between two iterations: whole chunks are on the stack and the chunk state is empty. *)
Definition loop_inv (c : nat) (pre : list Z) (h : blake3_hasher) (segs : list (list (list Z))) : Prop :=
  zlen pre = 1024 * Z.of_nat c /\ hkey h = key /\ chunk_inv (Z.of_nat c) [] (chunk h) /\
  stack_inv pre (cv_stack h) segs.

Lemma shrink_spec c k : forall fuel, (k <= fuel)%nat ->
  exists k', shrink_subtree fuel (1024 * 2 ^ Z.of_nat k) (1024 * Z.of_nat c) = 1024 * 2 ^ Z.of_nat k' /\
    (k' <= k)%nat /\ Nat.divide (2 ^ k') c.
Proof.
  induction k as [|k IH]; intros fuel Hf.
  - exists 0%nat. split_and!; [|lia|apply Nat.divide_1_l]. destruct fuel; [done|]. cbn [shrink_subtree].
    change (1024 * 2 ^ Z.of_nat 0 - 1) with (Z.ones 10). rewrite Z.land_comm, Z.land_ones by lia.
    change (2 ^ 10) with 1024. rewrite Z.mul_comm, Z.mod_mul by lia. done.
  - destruct fuel as [|fuel]; [lia|]. cbn [shrink_subtree].
    assert (1024 * 2 ^ Z.of_nat (S k) = 2 ^ Z.of_nat (11 + k)) as Hpow
      by (replace (Z.of_nat (11 + k)) with (10 + Z.of_nat (S k)) by lia; rewrite Z.pow_add_r by lia; done).
    assert (Z.land (1024 * 2 ^ Z.of_nat (S k) - 1) (1024 * Z.of_nat c) = 1024 * (Z.of_nat c mod 2 ^ Z.of_nat (S k))) as ->.
    { rewrite Hpow. replace (2 ^ Z.of_nat (11 + k) - 1) with (Z.ones (Z.of_nat (11 + k))) by (rewrite Z.ones_equiv; lia).
      rewrite Z.land_comm, Z.land_ones by lia. rewrite <- Hpow. apply Z.mul_mod_distr_l; [|lia].
      pose proof (pow2_pos (Z.of_nat (S k))). lia. }
    destruct (Z.eqb_spec (1024 * (Z.of_nat c mod 2 ^ Z.of_nat (S k))) 0) as [E|E]; cbn [negb].
    + exists (S k). split_and!; [done|lia|]. apply Nat2Z.divide. rewrite of_nat_pow2.
      apply Z.mod_divide; [|lia]. pose proof (pow2_pos (Z.of_nat (S k))). lia.
    + rewrite pow2_succ_Z. replace (1024 * (2 * 2 ^ Z.of_nat k) / 2) with (1024 * 2 ^ Z.of_nat k)
        by (apply (Z.div_unique _ _ _ 0); lia).
      destruct (IH fuel) as (k' & -> & Hk' & Hd); [lia|]. exists k'. split_and!; [done|lia|done].
Qed.

(** The subtree taken by one iteration: a power of two of chunks that divides
    the number of chunks so far. *)
Lemma subtree_len_spec c n : 1024 < n < 2 ^ 64 -> 1024 * Z.of_nat c < 2 ^ 64 ->
  exists k, shrink_subtree 64 (round_down_to_power_of_2 n) (u64 (Z.of_nat c * BLAKE3_CHUNK_LEN)) = 1024 * 2 ^ Z.of_nat k /\
    1024 * 2 ^ Z.of_nat k <= n /\ (k < 54)%nat /\ Nat.divide (2 ^ k) c.
Proof.
  intros Hn Hc.
  assert (exists K, 1024 * 2 ^ Z.of_nat K <= n < 2 * (1024 * 2 ^ Z.of_nat K)) as [K HK].
  { exists (Z.to_nat (Z.log2 n - 10)). assert (10 <= Z.log2 n) by (apply Z.log2_le_pow2; lia).
    rewrite Z2Nat.id by lia. change 1024 with (2 ^ 10). rewrite <- Z.pow_add_r, <- Z.pow_succ_r by lia.
    replace (10 + (Z.log2 n - 10)) with (Z.log2 n) by lia. apply Z.log2_spec. lia. }
  assert (Hpow : 1024 * 2 ^ Z.of_nat K = 2 ^ Z.of_nat (10 + K)) by (rewrite Nat2Z.inj_add, Z.pow_add_r by lia; done).
  assert (HK54 : (K < 54)%nat).
  { destruct (decide (K < 54)%nat); [assumption|]. pose proof (Z.pow_le_mono_r 2 54 (Z.of_nat K)). lia. }
  rewrite (round_down_pow2 (10 + K)) by (rewrite ?pow2_succ_Z, <- ?Hpow; lia). rewrite <- Hpow.
  replace (u64 (Z.of_nat c * BLAKE3_CHUNK_LEN)) with (1024 * Z.of_nat c)
    by (symmetry; unfold BLAKE3_CHUNK_LEN; rewrite wrap_small; unfold fits; lia).
  destruct (shrink_spec c K 64) as (k & -> & HkK & Hdiv); [lia|]. exists k.
  pose proof (Z.pow_le_mono_r 2 (Z.of_nat k) (Z.of_nat K) ltac:(lia) ltac:(lia)). split_and!; [done|lia|lia|done].
Qed.

(** The hasher after the bytes [data]. *)
Definition hasher_inv (data : list Z) (h : blake3_hasher) : Prop :=
  exists c pre tail segs, data = pre ++ tail /\ zlen pre = 1024 * Z.of_nat c /\ zlen tail <= 1024 /\
    hkey h = key /\ chunk_inv (Z.of_nat c) tail (chunk h) /\ stack_inv pre (cv_stack h) segs /\
    (tail <> [] -> strict (map length segs)) /\ (tail = [] -> pre <> [] -> (2 <= length segs)%nat).

Lemma hasher_inv_init : hasher_inv [] (hasher_init_base key kflags).
Proof.
  exists 0%nat, [], [], []. split_and!; try done; [apply (chunk_inv_init 0)|].
  split_and!; try done. apply pending_strict. constructor.
Qed.

Lemma hasher_inv_reset data h : hasher_inv data h -> hasher_inv [] (blake3_hasher_reset h).
Proof.
  intros (c & pre & tail & segs & _ & _ & _ & Hk & Hch & _).
  exists 0%nat, [], [], []. destruct (chunk_inv_counter _ _ _ Hch) as [_ Hf]. split_and!; try done.
  - cbn [blake3_hasher_reset chunk]. rewrite Hk. apply (chunk_inv_reset 0). assumption.
  - split_and!; try done. apply pending_strict. constructor.
Qed.

Section Update.
Variable simd_degree : Z.
Variable d : nat.
Hypothesis Hdegree : simd_degree = 2 ^ Z.of_nat d.

Lemma update_subtree_spec c pre h segs input : loop_inv c pre h segs ->
  1024 < zlen input -> zlen pre + zlen input < 2 ^ 64 ->
  exists k h' segs', update_subtree simd_degree h input = (h', zdrop (1024 * 2 ^ Z.of_nat k) input) /\
    loop_inv (c + 2 ^ k) (pre ++ ztake (1024 * 2 ^ Z.of_nat k) input) h' segs' /\
    1024 * 2 ^ Z.of_nat k <= zlen input /\ (1024 * 2 ^ Z.of_nat k = zlen input -> (2 <= length segs')%nat).
Proof.
  intros (Hp & Hk & Hch & Hst) Hi H64. unfold update_subtree.
  destruct (chunk_inv_counter _ _ _ Hch) as [Hctr Hfl]. rewrite Hctr, Hk, Hfl.
  destruct (subtree_len_spec c (zlen input)) as (k & -> & Hkn & Hk54 & Hdiv); [lia..|].
  pose proof (pow2_pos (Z.of_nat k) ltac:(lia)).
  assert (1024 * 2 ^ Z.of_nat k / BLAKE3_CHUNK_LEN = 2 ^ Z.of_nat k) as ->
    by (unfold BLAKE3_CHUNK_LEN; rewrite Z.mul_comm; apply Z.div_mul; lia).
  set (x := ztake (1024 * 2 ^ Z.of_nat k) input).
  assert (Hx : zlen x = 1024 * 2 ^ Z.of_nat k) by (apply zlen_ztake; lia).
  assert (u64 (Z.of_nat c + 2 ^ Z.of_nat k) = Z.of_nat (c + 2 ^ k)) as ->
    by (rewrite Nat2Z.inj_add, of_nat_pow2; apply wrap_small; unfold fits; lia).
  assert (Hloop : forall h' segs', hkey h' = key -> chunk h' = chunk h -> stack_inv (pre ++ x) (cv_stack h') segs' ->
    loop_inv (c + 2 ^ k) (pre ++ x) (set_chunk h' (set_chunk_counter (chunk h') (Z.of_nat (c + 2 ^ k)))) segs').
  { intros h' segs' E1 E2 E3. split_and!; [rewrite zlen_app, Nat2Z.inj_add, of_nat_pow2; lia|assumption| |assumption].
    cbn [set_chunk chunk]. rewrite E2. apply (chunk_inv_renumber (Z.of_nat c)). assumption. }
  exists k. unfold BLAKE3_CHUNK_LEN. destruct (Z.leb_spec (1024 * 2 ^ Z.of_nat k) 1024).
  - assert (k = 0%nat) as -> by (destruct k as [|k']; [done|rewrite pow2_succ_Z in *; pose proof (pow2_pos (Z.of_nat k')); lia]).
    assert (Hcs : chunk_inv (Z.of_nat c) x (chunk_state_update (set_chunk_counter (chunk_state_init key kflags) (Z.of_nat c)) x))
      by (apply (chunk_state_update_spec _ [] _ x); [apply chunk_inv_init|cbn [length]; lia]).
    destruct (chunk_inv_counter _ _ _ Hcs) as [-> _]. rewrite (chunk_inv_output _ _ _ Hcs).
    destruct (push_one 0 c pre h segs x) as (segs' & E & Hst'); [done..|].
    rewrite chunks_of_last in E by (unfold BLAKE3_CHUNK_LEN; lia). cbn [Blake3Spec.leaf_cvs] in E. rewrite tree_cv_one in E.
    unfold Blake3Spec.leaf_cv in E. rewrite E. eexists _, segs'. split_and!; [reflexivity|apply Hloop; done|lia|lia].
  - destruct k as [|k]; [cbn in *; lia|].
    destruct (subtree_pair_spec simd_degree d Hdegree k x (Z.of_nat c)) as (A & B & HAB & HA & HB & ->); [lia..|].
    cbn [nth]. assert (u64 (Z.of_nat c + 2 ^ Z.of_nat (S k) / 2) = Z.of_nat (c + 2 ^ k)) as ->.
    { rewrite pow2_succ_Z in *. rewrite (Z.mul_comm 2), Z.div_mul, Nat2Z.inj_add, of_nat_pow2 by lia.
      apply wrap_small. unfold fits. pose proof (pow2_pos (Z.of_nat k)). lia. }
    destruct (push_pair k c pre h segs x A B) as (segs' & -> & Hst' & Htwo); [try done..|].
    { intros ->. cbn [length] in Hx. lia. }
    eexists _, segs'. split_and!; [reflexivity|apply Hloop; done|lia|done].
Qed.

Lemma update_loop_spec fuel : forall c pre h segs input, loop_inv c pre h segs ->
  (length input <= fuel)%nat -> zlen pre + zlen input < 2 ^ 64 -> input <> [] ->
  exists c' pre' rest h' segs', update_loop simd_degree fuel h input = (h', rest) /\
    pre ++ input = pre' ++ rest /\ loop_inv c' pre' h' segs' /\ zlen rest <= 1024 /\
    (rest = [] -> (2 <= length segs')%nat).
Proof.
  induction fuel as [|fuel IH]; intros c pre h segs input Hinv Hf H64 Hne; cbn [update_loop].
  { destruct input; [done|cbn [length] in Hf; lia]. }
  unfold BLAKE3_CHUNK_LEN. destruct (Z.gtb_spec (zlen input) 1024) as [H|H].
  2:{ exists c, pre, input, h, segs. split_and!; done. }
  destruct (update_subtree_spec c pre h segs input) as (k & h1 & segs1 & -> & Hinv1 & Hle & H2); [done..|].
  pose proof (pow2_pos (Z.of_nat k) ltac:(lia)). set (n := 1024 * 2 ^ Z.of_nat k) in *.
  assert (Hl : zlen (zdrop n input) = zlen input - n) by (apply zlen_zdrop; lia).
  destruct (decide (zdrop n input = [])) as [E|E].
  - exists (c + 2 ^ k)%nat, (pre ++ input), [], h1, segs1. rewrite E in *. cbn [length] in Hl.
    rewrite ztake_all in Hinv1 by lia. rewrite app_nil_r. split_and!; try done.
    + destruct fuel; done.
    + intros _. apply H2. lia.
  - destruct (IH (c + 2 ^ k)%nat (pre ++ ztake n input) h1 segs1 (zdrop n input)) as
      (c' & pre' & rest & h' & segs' & -> & E' & Hinv' & Hr & Hr2); [done|lia|rewrite zlen_app, zlen_ztake; lia|done|].
    rewrite <- app_assoc, ztake_zdrop in E'. exists c', pre', rest, h', segs'. done.
Qed.

Lemma update_rest_spec c pre h segs input : loop_inv c pre h segs -> zlen pre + zlen input < 2 ^ 64 -> input <> [] ->
  hasher_inv (pre ++ input) (update_rest simd_degree h input).
Proof.
  intros Hinv H64 Hne. unfold update_rest.
  destruct (update_loop_spec (length input) c pre h segs input) as
    (c' & pre' & rest & h' & segs' & -> & -> & (Hp & Hk & Hch & Hst) & Hr & H2); [done..|].
  destruct (Z.gtb_spec (zlen rest) 0) as [H|H].
  - assert (Hch' : chunk_inv (Z.of_nat c') rest (chunk_state_update (chunk h') rest))
      by (apply (chunk_state_update_spec _ [] _ rest Hch); cbn [length]; lia).
    destruct (chunk_inv_counter _ _ _ Hch') as [Hc Hf]. cbn [set_chunk chunk]. rewrite Hc.
    destruct (merge_spec c' pre' (set_chunk h' (chunk_state_update (chunk h') rest)) segs') as (segs'' & -> & Hcc & Hs);
      [done..|].
    exists c', pre', rest, segs''. unfold stack_inv. split_and!; try done.
    + apply pending_strict. assumption.
    + intros ->. cbn in H. lia.
  - assert (rest = []) as -> by (apply zlen_nil_inv; lia). rewrite app_nil_r.
    exists c', pre', [], segs'. rewrite app_nil_r. split_and!; try done. intros _ _. apply H2. done.
Qed.

Lemma hasher_update_spec data h input : hasher_inv data h -> zlen data + zlen input < 2 ^ 64 ->
  hasher_inv (data ++ input) (blake3_hasher_update simd_degree h input).
Proof.
  intros Hinv H64. unfold blake3_hasher_update. destruct (Z.eqb_spec (zlen input) 0) as [Hz|Hz].
  { apply zlen_nil_inv in Hz as ->. rewrite app_nil_r. done. }
  assert (Hne : input <> []) by (intros ->; done).
  destruct Hinv as (c & pre & tail & segs & -> & Hp & Ht & Hk & Hch & Hst & Hs & H2).
  rewrite zlen_app in H64. rewrite (chunk_inv_len _ _ _ Hch). destruct (Z.gtb_spec (zlen tail) 0) as [H|H].
  2:{ assert (tail = []) as -> by (apply zlen_nil_inv; lia). rewrite app_nil_r.
      apply (update_rest_spec c pre h segs); [done|cbn [length] in H64; lia|done]. }
  unfold BLAKE3_CHUNK_LEN. set (n := if 1024 - zlen tail >? zlen input then _ else _).
  assert (n = Z.min (1024 - zlen tail) (zlen input)) as Hn
    by (unfold n; destruct (Z.gtb_spec (1024 - zlen tail) (zlen input)); lia). clearbody n.
  assert (Hnl : zlen (ztake n input) = n) by (apply zlen_ztake; lia).
  assert (Hnd : zlen (zdrop n input) = zlen input - n) by (apply zlen_zdrop; lia).
  pose proof (chunk_state_update_spec _ _ _ (ztake n input) Hch ltac:(lia)) as Hch'.
  rewrite <- (ztake_zdrop n input) at 1. rewrite <- app_assoc, (app_assoc tail).
  set (t := tail ++ ztake n input) in *. destruct (Z.gtb_spec (zlen (zdrop n input)) 0) as [Hmore|Hmore].
  - destruct (chunk_inv_counter _ _ _ Hch') as [Hc Hf]. cbn [set_chunk chunk]. rewrite Hc, (chunk_inv_output _ _ _ Hch').
    assert (Htl : zlen t = 1024) by (unfold t; rewrite zlen_app; lia).
    destruct (push_one 0 c pre (set_chunk h (chunk_state_update (chunk h) (ztake n input))) segs t) as (segs' & E & Hst');
      [done|exact Htl|apply Nat.divide_1_l|done..|].
    rewrite chunks_of_last in E by (unfold BLAKE3_CHUNK_LEN; lia). cbn [Blake3Spec.leaf_cvs] in E. rewrite tree_cv_one in E.
    unfold Blake3Spec.leaf_cv in E. rewrite E. cbn [hkey chunk]. rewrite app_assoc.
    apply (update_rest_spec (S c) _ _ segs'); [|rewrite zlen_app; lia|intros En; rewrite En in Hmore; cbn in Hmore; lia].
    split_and!; [rewrite zlen_app; lia|done| |exact Hst']. cbn [set_chunk chunk].
    replace (u64 (Z.of_nat c + 1)) with (Z.of_nat (S c)) by (symmetry; rewrite wrap_small; unfold fits; lia).
    apply chunk_inv_reset. assumption.
  - assert (zdrop n input = []) as -> by (apply zlen_nil_inv; lia). rewrite app_nil_r.
    exists c, pre, t, segs. split_and!; try done.
    + unfold t. rewrite zlen_app. lia.
    + intros _. apply Hs. intros ->. cbn in H. lia.
    + unfold t. intros E. apply app_eq_nil in E as [-> _]. cbn in H. lia.
Qed.

End Update.

(** ** Finalisation *)

Lemma pending_app_r a b : pending (a ++ b) -> b <> [] -> pending b.
Proof.
  induction a as [|s a IH]; intros H Hb; [done|]. apply IH; [|assumption].
  apply (pending_head s); [exact H|]. destruct a, b; done.
Qed.

(** Every subtree of [segs] is at least as large as all that is to its right. *)
Definition dominating (segs : list (list (list Z))) (X : list (list Z)) : Prop :=
  forall a s b, segs = a ++ s :: b -> pow2 (length s) /\ (length (concat b ++ X) <= length s)%nat.

Lemma dominating_pending segs t X : pending (map length segs ++ t) -> sum t = length X -> t <> [] -> dominating segs X.
Proof.
  intros Hp Ht Hne a s b ->. rewrite map_app, <- app_assoc in Hp. cbn [map app] in Hp.
  apply pending_app_r in Hp; [|done]. split.
  - apply pending_pow2 in Hp. inversion Hp. assumption.
  - apply pending_head in Hp as [Hp _]; [|destruct (map length b); [exact Hne|done]].
    rewrite sum_app, sum_map_length in Hp. rewrite length_app. lia.
Qed.

Lemma roll_up_spec segs : forall X o, dominating segs X -> X <> [] -> output_chaining_value o = tree_cv X ->
  segs <> [] -> roll_up (rev (map tree_cv segs)) key kflags o = root_parent key kflags (concat segs ++ X).
Proof.
  induction segs as [|s segs IH] using rev_ind; intros X o Hdom HX Ho Hne; [done|].
  destruct (Hdom segs s []) as [[k Hs] Hle]; [done|]. cbn [concat app] in Hle.
  assert (0 < length X)%nat by (destruct X; [done|cbn; lia]).
  rewrite map_app, rev_app_distr. cbn [map rev app roll_up]. rewrite Ho.
  rewrite <- (root_parent_split key kflags k) by (assumption || lia).
  rewrite concat_app. cbn [concat]. rewrite app_nil_r, <- app_assoc.
  destruct (decide (segs = [])) as [->|Hne']; [done|]. apply IH; try done.
  - intros a u b ->. destruct (Hdom a u (b ++ [s])) as [Hp Hl].
    + rewrite <- app_assoc. done.
    + rewrite concat_app in Hl. cbn [concat] in Hl. rewrite app_nil_r, <- app_assoc in Hl. done.
  - destruct s; [cbn [length] in *; pose proof (Nat.pow_nonzero 2 k); lia|done].
  - rewrite (root_parent_split key kflags k) by (assumption || lia). rewrite (tree_cv_split key kflags k) by (assumption || lia). done.
Qed.

Lemma root_output_many data : (2 <= length (chunks_of data))%nat ->
  root_output key kflags data = root_parent key kflags (leaf_cvs 0 (chunks_of data)).
Proof. intros H. unfold root_output. destruct (chunks_of data) as [|x [|y l]]; cbn [length] in H; lia || done. Qed.

(** A stack of whole subtrees, and the last chunk. *)
Lemma roll_up_chunk c pre tail segs : zlen pre = 1024 * Z.of_nat c -> (0 < c)%nat -> tail <> [] -> zlen tail <= 1024 ->
  concat segs = leaves pre -> strict (map length segs) -> segs <> [] ->
  roll_up (rev (map tree_cv segs)) key kflags (chunk_output (Z.of_nat c) tail) = root_output key kflags (pre ++ tail).
Proof.
  intros Hp Hc Htne Ht Hcc Hs Hne.
  assert (Hlv : leaves (pre ++ tail) = concat segs ++ [leaf_cv (Z.of_nat c) tail]).
  { rewrite (leaves_app c), chunks_of_last, Hcc by (assumption || (unfold BLAKE3_CHUNK_LEN; lia)). done. }
  rewrite (roll_up_spec segs [leaf_cv (Z.of_nat c) tail]); try done.
  - rewrite <- Hlv. unfold leaves. rewrite decide_False by (destruct pre; [cbn in Hp; lia|done]).
    symmetry. apply root_output_many.
    rewrite (chunks_of_app_whole c), length_app, (chunks_of_whole c) by (assumption || lia).
    rewrite (chunks_of_last tail) by (unfold BLAKE3_CHUNK_LEN; lia). cbn. lia.
  - intros a s b ->. rewrite map_app in Hs. cbn [map] in Hs.
    assert (Hsb : strict (length s :: map length b)) by (clear - Hs; induction (map length a) as [|n l IH]; [done|apply IH, (strict_tail n), Hs]).
    split; [apply strict_pow2 in Hsb; inversion Hsb; assumption|].
    apply strict_sum in Hsb. rewrite sum_map_length in Hsb. rewrite length_app. cbn. lia.
Qed.

(** A stack that ends in two unmerged subtrees, and no further input. *)
Lemma roll_up_pair c pre segs a b : zlen pre = 1024 * Z.of_nat c -> (0 < c)%nat ->
  concat (segs ++ [a; b]) = leaves pre -> pending (map length (segs ++ [a; b])) ->
  roll_up (rev (map tree_cv segs)) key kflags (parent_output (tree_cv a ++ tree_cv b) key kflags) =
  root_output key kflags pre.
Proof.
  intros Hp Hc Hcc Hpend. rewrite map_app in Hpend. cbn [map] in Hpend.
  assert (Ha : dominating [a] b).
  { apply (dominating_pending [a] [length b]); [|cbn; lia|done]. apply (pending_app_r (map length segs)); done. }
  assert (Hdom : dominating segs (a ++ b)).
  { apply (dominating_pending segs [length a; length b]); [done|cbn; rewrite length_app; lia|done]. }
  destruct (Ha [] a [] eq_refl) as [[k Hak] Hba]. cbn [concat app] in Hba.
  assert (0 < length b)%nat.
  { apply pending_pow2 in Hpend. apply Forall_app in Hpend as [_ Hpend].
    inversion Hpend as [|? ? _ Hb]; subst. inversion Hb; subst. apply pow2_pos_nat. assumption. }
  rewrite concat_app in Hcc. cbn [concat] in Hcc. rewrite app_nil_r in Hcc.
  rewrite root_output_many by (rewrite (chunks_of_whole c) by (assumption || lia);
    rewrite <- (length_leaves c pre Hp), <- Hcc, !length_app; lia).
  assert (leaf_cvs 0 (chunks_of pre) = concat segs ++ a ++ b) as ->.
  { unfold leaves in Hcc. rewrite decide_False in Hcc by (intros ->; cbn in Hp; lia). done. }
  rewrite <- (root_parent_split key kflags k) by (assumption || lia).
  destruct (decide (segs = [])) as [->|Hne]; [done|]. apply roll_up_spec; try done.
  - destruct a; [cbn [length] in *; lia|done].
  - rewrite (root_parent_split key kflags k) by (assumption || lia).
    rewrite (tree_cv_split key kflags k) by (assumption || lia). done.
Qed.

Lemma finalize_spec data h : hasher_inv data h -> finalize_output h = root_output key kflags data.
Proof.
  intros (c & pre & tail & segs & -> & Hp & Ht & Hk & Hch & (Hst & Hcc & Hpend) & Hs & H2).
  unfold finalize_output. destruct (chunk_inv_counter _ _ _ Hch) as [_ Hf].
  rewrite (chunk_inv_len _ _ _ Hch), (chunk_inv_output _ _ _ Hch), Hk, Hf, Hst, length_map.
  pose proof (length_leaves c pre Hp) as Hl. rewrite <- Hcc in Hl.
  destruct (decide (segs = [])) as [->|Hne].
  { cbn in Hl. subst c. apply zlen_nil_inv in Hp as ->. unfold root_output.
    rewrite chunks_of_last by (unfold BLAKE3_CHUNK_LEN; cbn [app]; lia). done. }
  destruct (Z.eqb_spec (zlen segs) 0) as [H0|_]; [apply zlen_nil_inv in H0; done|].
  assert (Hc : (0 < c)%nat).
  { pose proof (pending_pow2 _ Hpend) as Hpow. destruct segs as [|s segs]; [done|].
    inversion Hpow as [|? ? Hs1 _]; subst. apply pow2_pos_nat in Hs1. cbn. rewrite length_app. lia. }
  destruct (Z.gtb_spec (zlen tail) 0) as [Htl|Htl].
  - assert (Htne : tail <> []) by (intros ->; cbn in Htl; lia).
    rewrite ztake_all by (rewrite length_map; lia). apply roll_up_chunk; auto.
  - assert (tail = []) as -> by (apply zlen_nil_inv; lia). rewrite app_nil_r.
    specialize (H2 eq_refl ltac:(intros ->; cbn in Hp; lia)).
    assert (exists segs0 a b, segs = segs0 ++ [a; b]) as (segs0 & a & b & ->).
    { clear - H2. destruct segs as [|b segs _] using rev_ind; [cbn in H2; lia|].
      destruct segs as [|a segs _] using rev_ind; [cbn in H2; lia|]. exists segs, a, b. rewrite <- app_assoc. done. }
    rewrite map_app, length_app. cbn [map length].
    rewrite zdrop_app, ztake_app by (rewrite length_map; lia). cbn [concat]. rewrite app_nil_r.
    apply (roll_up_pair c); assumption.
Qed.

End Hasher.

(** ** The output stream *)

Lemma length_xof cv block len ctr fl : length (blake3_compress_xof cv block len ctr fl) = 64%nat.
Proof. reflexivity. Qed.

Section Stream.
Variable o : output_t.
Notation xof c := (blake3_compress_xof (input_cv o) (block o) (block_len o) c (Z.lor (out_flags o) ROOT)).

Lemma stream_app s a b : 0 <= a -> 0 <= b -> stream o s (a + b) = stream o s a ++ stream o (s + a) b.
Proof.
  intros Ha Hb. unfold stream. rewrite Z2Nat.inj_add, seq_app, map_app by lia. f_equal.
  replace (seq (0 + Z.to_nat a) (Z.to_nat b)) with (map (Nat.add (Z.to_nat a)) (seq 0 (Z.to_nat b)))
    by (rewrite fmap_add_seq; f_equal; lia).
  rewrite map_map.
  apply map_ext. intros i. f_equal. lia.
Qed.

Lemma stream_block s n : 0 <= s -> 0 <= n -> s mod 64 + n <= 64 ->
  stream o s n = ztake n (zdrop (s mod 64) (xof (s / 64))).
Proof.
  intros Hs Hn Hb. pose proof (Z.mod_pos_bound s 64 ltac:(lia)).
  unfold ztake, zdrop. rewrite slice_nth by (rewrite length_xof; lia).
  unfold stream. apply map_ext_in. intros i Hi. apply in_seq in Hi. unfold stream_byte.
  pose proof (Z.div_mod s 64 ltac:(lia)).
  assert ((s + Z.of_nat i) / 64 = s / 64) as -> by (symmetry; apply (Z.div_unique _ _ _ (s mod 64 + Z.of_nat i)); lia).
  assert ((s + Z.of_nat i) mod 64 = s mod 64 + Z.of_nat i) as -> by (symmetry; apply (Z.mod_unique _ _ (s / 64)); lia).
  f_equal. lia.
Qed.

Lemma stream_blocks m : forall c, 0 <= c -> c + Z.of_nat m <= 2 ^ 64 ->
  stream o (64 * c) (64 * Z.of_nat m) =
  blake3_xof_many (input_cv o) (block o) (block_len o) c (Z.lor (out_flags o) ROOT) m.
Proof.
  unfold blake3_xof_many. induction m as [|m IH]; intros c Hc H64; [done|].
  rewrite seq_S, flat_map_app. cbn [flat_map Nat.add]. rewrite app_nil_r, <- IH by lia.
  replace (64 * Z.of_nat (S m)) with (64 * Z.of_nat m + 64) by lia. rewrite stream_app by lia. f_equal.
  replace (64 * c + 64 * Z.of_nat m) with ((c + Z.of_nat m) * 64) by lia.
  rewrite stream_block by (rewrite ?Z.mod_mul; lia). rewrite Z.mod_mul, Z.div_mul by lia.
  rewrite wrap_small by (unfold fits; lia). rewrite zdrop_0. apply ztake_all. rewrite length_xof. lia.
Qed.

(** [out_len & -64] is the part in whole blocks. *)
Lemma land_neg64 n : 0 <= n -> Z.land n (-64) = n - n mod 64.
Proof.
  intros Hn. change (-64) with (Z.lnot (Z.ones 6)). rewrite <- Z.ldiff_land, Z.ldiff_ones_r by lia.
  rewrite Z.shiftl_mul_pow2, Z.shiftr_div_pow2 by lia. change (2 ^ 6) with 64. pose proof (Z.div_mod n 64). lia.
Qed.

(** From a block boundary: whole blocks, then a partial one. *)
Lemma stream_aligned c n : 0 <= c -> 0 <= n -> c + n / 64 < 2 ^ 64 ->
  stream o (64 * c) n =
    let out := blake3_xof_many (input_cv o) (block o) (block_len o) c (Z.lor (out_flags o) ROOT) (Z.to_nat (n / 64)) in
    let r := n - Z.land n (-64) in
    if negb (r =? 0) then out ++ ztake r (xof (u64 (c + n / 64))) else out.
Proof.
  intros Hc Hn H64. cbn zeta. rewrite land_neg64 by assumption.
  pose proof (Z.div_mod n 64 ltac:(lia)). pose proof (Z.mod_pos_bound n 64 ltac:(lia)).
  assert (0 <= n / 64) by (apply Z.div_pos; lia).
  rewrite <- stream_blocks by lia. rewrite Z2Nat.id by lia.
  replace (n - (n - n mod 64)) with (n mod 64) by lia. rewrite wrap_small by (unfold fits; lia).
  replace n with (64 * (n / 64) + n mod 64) at 1 by lia. rewrite stream_app by lia.
  replace (64 * c + 64 * (n / 64)) with ((c + n / 64) * 64) by lia.
  rewrite (stream_block _ (n mod 64)) by (rewrite ?Z.mod_mul; lia). rewrite Z.mod_mul, Z.div_mul, zdrop_0 by lia.
  destruct (Z.eqb_spec (n mod 64) 0) as [->|]; [apply app_nil_r|done].
Qed.

Lemma output_root_bytes_spec seek n : 0 <= seek < 2 ^ 64 -> 0 <= n < 2 ^ 64 ->
  output_root_bytes o seek n = stream o seek n.
Proof.
  intros Hs Hn. unfold output_root_bytes. destruct (Z.eqb_spec n 0) as [->|Hn0]; [done|].
  pose proof (Z.div_mod seek 64 ltac:(lia)). pose proof (Z.mod_pos_bound seek 64 ltac:(lia)).
  assert (0 <= seek / 64) by (apply Z.div_pos; lia).
  assert (seek / 64 < 2 ^ 58) by (apply Z.div_lt_upper_bound; lia).
  assert (n / 64 < 2 ^ 58) by (apply Z.div_lt_upper_bound; lia).
  destruct (Z.eqb_spec (seek mod 64) 0) as [E|E]; cbn [negb].
  - rewrite app_nil_l. assert (Es : stream o seek n = stream o (64 * (seek / 64)) n) by (f_equal; lia).
    rewrite Es. symmetry. apply stream_aligned; lia.
  - set (k := if n >? 64 - seek mod 64 then 64 - seek mod 64 else n).
    assert (Hk : k = Z.min (64 - seek mod 64) n) by (unfold k; destruct (Z.gtb_spec n (64 - seek mod 64)); lia).
    clearbody k. assert (En : stream o seek n = stream o seek (k + (n - k))) by (f_equal; lia).
    rewrite En, stream_app by lia.
    rewrite stream_block by lia. rewrite wrap_small by (unfold fits; lia).
    destruct (decide (n = k)) as [->|Hne].
    + rewrite Z.sub_diag. change (0 - Z.land 0 (-64)) with 0. change (Z.to_nat (0 / 64)) with 0%nat.
      unfold blake3_xof_many, stream. change (Z.to_nat 0) with 0%nat. cbn [seq map flat_map Z.eqb negb].
      rewrite app_nil_r. done.
    + replace (seek + k) with (64 * (seek / 64 + 1)) by lia. rewrite stream_aligned; [|lia..|].
      * cbn zeta. destruct (n - k - Z.land (n - k) (-64) =? 0); cbn [negb]; [done|]. rewrite <- app_assoc. done.
      * assert ((n - k) / 64 <= n / 64) by (apply Z.div_le_mono; lia). lia.
Qed.

End Stream.

(** ** Sizes *)

Lemma strict_length m s l : strict (s :: l) -> (s < 2 ^ m)%nat -> (length (s :: l) <= m)%nat.
Proof.
  revert m s. induction l as [|t l IH]; intros m s H Hm; inversion H as [|? [k Hk]|? ? ? [k Hk] Hlt Hst]; subst.
  - apply Nat.pow_lt_mono_r_iff in Hm; [|lia]. cbn. lia.
  - apply Nat.pow_lt_mono_r_iff in Hm; [|lia]. specialize (IH k t Hst Hlt). cbn in *. lia.
Qed.

Lemma strict_lower l s : strict (l ++ [2 * s]%nat) -> pow2 s -> strict (l ++ [s]).
Proof.
  intros H Hs. pose proof (pow2_pos_nat s Hs). induction l as [|a [|b l] IH]; cbn [app] in *.
  - constructor. assumption.
  - inversion H; subst. constructor; [assumption|lia|constructor; assumption].
  - inversion H; subst. constructor; [assumption..|]. apply IH. assumption.
Qed.

Lemma pending_shape l : pending l -> strict l \/ exists l0 s, l = l0 ++ [s; s] /\ strict (l0 ++ [s]).
Proof.
  induction 1 as [l H|l s Hs _ IH]; [left; assumption|]. right. exists l, s. split; [done|].
  destruct IH as [IH|(l0 & t & E & IH)]; [apply strict_lower; assumption|].
  change [t; t] with ([t] ++ [t]) in E. rewrite app_assoc in E. apply app_inj_tail in E as [-> <-].
  pose proof (pow2_pos_nat s Hs). apply strict_snoc; [assumption..|].
  apply Forall_app. split; [|constructor; [lia|constructor]].
  clear - IH H. induction l0 as [|a [|b l0] IHl]; cbn [app] in *; [constructor|..].
  - inversion IH; subst. constructor; [lia|constructor].
  - inversion IH as [| |? ? ? ? Hab Hst]; subst. specialize (IHl Hst). inversion IHl; subst. constructor; [lia|assumption].
Qed.

Lemma pending_length m l : pending l -> (sum l < 2 ^ m)%nat -> (length l <= m + 1)%nat.
Proof.
  intros Hp Hm. apply pending_shape in Hp as [Hs|(l0 & s & -> & Hs)].
  - destruct l as [|s l]; [cbn; lia|]. pose proof (strict_length m s l Hs). cbn in *. lia.
  - rewrite length_app. assert (length (l0 ++ [s]) <= m)%nat as Hl.
    { rewrite sum_app in Hm. destruct l0 as [|a l0]; cbn [app] in *; apply strict_length; try assumption; cbn in Hm; lia. }
    rewrite length_app in Hl. cbn in *. lia.
Qed.

(** ** The contract of the hasher *)

(** A sequence of updates from a fresh hasher. *)
Definition hash_updates (simd_degree : Z) (key : list Z) (kflags : Z) (inputs : list (list Z)) : blake3_hasher :=
  fold_left (blake3_hasher_update simd_degree) inputs (hasher_init_base key kflags).

Lemma hash_updates_inv simd_degree d key kflags inputs : simd_degree = 2 ^ Z.of_nat d ->
  zlen (concat inputs) < 2 ^ 64 -> hasher_inv key kflags (concat inputs) (hash_updates simd_degree key kflags inputs).
Proof.
  intros Hd. unfold hash_updates. induction inputs as [|x inputs IH] using rev_ind; intros H64; [apply hasher_inv_init|].
  rewrite fold_left_app, concat_app in *. cbn [fold_left concat] in *. rewrite app_nil_r in *.
  rewrite zlen_app in H64. apply (hasher_update_spec key kflags _ d Hd); [apply IH; lia|lia].
Qed.

(** C29: BLAKE3 refinement: for every SIMD degree that is a power of two, every key and
    mode, and every way of cutting an input of less than 2^64 bytes into
    calls of [blake3_hasher_update], [blake3_hasher_finalize_seek] returns the bytes
    of the reference tree hash of the whole input. *)
Theorem blake3_incremental simd_degree d key kflags inputs seek out_len :
  simd_degree = 2 ^ Z.of_nat d -> zlen (concat inputs) < 2 ^ 64 ->
  0 <= seek < 2 ^ 64 -> 0 <= out_len < 2 ^ 64 ->
  blake3_hasher_finalize_seek (hash_updates simd_degree key kflags inputs) seek out_len =
  blake3_spec key kflags (concat inputs) seek out_len.
Proof.
  intros Hd H64 Hs Ho. unfold blake3_hasher_finalize_seek, blake3_spec.
  rewrite (finalize_spec key kflags (concat inputs)) by (eapply hash_updates_inv; eassumption).
  rewrite output_root_bytes_spec by assumption. destruct (Z.eqb_spec out_len 0) as [->|]; done.
Qed.

(** Memory bounds of the hasher: after any sequence of updates of less than 2^64 bytes
    the subtree stack has at most [BLAKE3_MAX_DEPTH + 1] entries, which is the size of
    the array, the block buffer holds 64 bytes of which at most 64 are used, a
    chunk holds at most 1024 bytes, and the [assert] on the number of chaining values
    holds for every subtree of a power of two of chunks. *)
Theorem blake3_hasher_bounds simd_degree MAX d key kflags inputs :
  simd_degree = 2 ^ Z.of_nat d -> 2 <= MAX -> simd_degree <= MAX -> zlen (concat inputs) < 2 ^ 64 ->
  let h := hash_updates simd_degree key kflags inputs in
  zlen (cv_stack h) <= BLAKE3_MAX_DEPTH + 1 /\ zlen (buf (chunk h)) = BLAKE3_BLOCK_LEN /\
  0 <= buf_len (chunk h) <= BLAKE3_BLOCK_LEN /\ chunk_state_len (chunk h) <= BLAKE3_CHUNK_LEN /\
  (forall k x ctr, (k < 54)%nat -> zlen x = BLAKE3_CHUNK_LEN * 2 ^ Z.of_nat k -> 0 <= ctr ->
     ctr + 2 ^ Z.of_nat k <= 2 ^ 64 -> subtree_assert simd_degree MAX x key ctr kflags = true).
Proof.
  intros Hd HM2 HM H64 h. pose proof (hash_updates_inv _ d key kflags inputs Hd H64) as Hinv. fold h in Hinv.
  destruct Hinv as (c & pre & tail & segs & E & Hp & Ht & Hk & Hch & (Hst & Hcc & Hpend) & _).
  rewrite (chunk_inv_len _ _ _ _ _ Hch), Hst. rewrite E, zlen_app in H64.
  assert (Hs : (sum (map length segs) < 2 ^ 54)%nat).
  { apply Nat2Z.inj_lt. rewrite sum_map_length, Hcc, (length_leaves key kflags c), of_nat_pow2 by assumption.
    change (Z.of_nat 54) with 54. lia. }
  pose proof (pending_length 54 _ Hpend Hs) as Hl. rewrite length_map in Hl.
  destruct Hch as (p & t & _ & _ & Hbl & Htl & _ & Hbuf).
  unfold BLAKE3_BLOCK_LEN, BLAKE3_CHUNK_LEN, BLAKE3_MAX_DEPTH. rewrite Hbuf, Hbl. split_and!.
  - rewrite length_map. lia.
  - unfold pad_block, BLAKE3_BLOCK_LEN. rewrite zlen_app, zlen_zrep; lia.
  - lia.
  - lia.
  - lia.
  - intros k x ctr Hk54 Hx H0 H1. apply (subtree_assert_spec key kflags simd_degree d Hd MAX k); assumption.
Qed.

(** ** Concrete inputs *)

(** The input of the published test vectors: the bytes [0, 1, ..., 250, 0, 1, ...]. *)
Definition test_input (n : nat) : list Z := map (fun i => Z.of_nat i mod 251) (seq 0 n).

Lemma blake3_incremental_witness :
  let inputs := [test_input 1000; test_input 25; test_input 2048; test_input 1] in
  blake3_hasher_finalize_seek (hash_updates 4 IV 0 inputs) 3 61 = blake3_spec IV 0 (concat inputs) 3 61.
Proof. apply (blake3_incremental 4 2 IV 0); vm_compute; intuition congruence. Defined.

Lemma blake3_hasher_bounds_witness :
  let h := hash_updates 1 IV 0 [test_input 1000; test_input 1048] in
  zlen (cv_stack h) <= BLAKE3_MAX_DEPTH + 1.
Proof. apply (blake3_hasher_bounds 1 2 0 IV 0 [test_input 1000; test_input 1048]); vm_compute; intuition congruence. Defined.

(** The published digests of the empty input and of 1025 bytes. *)
Example blake3_vector_0 :
  HexStr (blake3_hasher_finalize (blake3_hasher_update 1 blake3_hasher_init []) 32) =
  "af1349b9f5f9a1a6a0404dea36dcc9499bcb25c9adc112b7cc9a93cae41f3262"%string.
Proof. vm_compute. reflexivity. Qed.

Example blake3_vector_1025 :
  HexStr (blake3_hasher_finalize (blake3_hasher_update 8 blake3_hasher_init (test_input 1025)) 32) =
  "d00278ae47eb27b34faecf67b4fe263f82d5412916c1ffd97c8cb7fb814b8444"%string.
Proof. vm_compute. reflexivity. Qed.
