(* ===== verification/Sha256.v ===== *)
(** * SHA-256

    src/crypto/sha256.cpp: the portable [Transform], the double hash of one 64-byte
    block [TransformD64] with its precomputed message schedules, the streaming
    hasher [CSHA256] and [SHA256D64], which [ComputeMerkleRoot] runs in
    place.  The unrolled rounds are written as loops over the round number: the
    rotating roles of [a..h] are a rotation of the state, and [w0..w15] are a
    16-entry ring. *)

From Stdlib Require Import ZArith Lia Bool.
From stdpp Require Import base list.
From S2P Require Import Prelude Uint256.
Local Open Scope Z_scope.
Local Open Scope adonai_scope.

(** ** Round functions *)

Definition Ch (x y z : Z) : Z := Z.lxor z (Z.land x (Z.lxor y z)).
Definition Maj (x y z : Z) : Z := Z.lor (Z.land x y) (Z.land z (Z.lor x y)).
Definition rot (x r l : Z) : Z := Z.lor (Z.shiftr x r) (u32 (Z.shiftl x l)).
Definition Sigma0 (x : Z) : Z := Z.lxor (Z.lxor (rot x 2 30) (rot x 13 19)) (rot x 22 10).
Definition Sigma1 (x : Z) : Z := Z.lxor (Z.lxor (rot x 6 26) (rot x 11 21)) (rot x 25 7).
Definition sigma0 (x : Z) : Z := Z.lxor (Z.lxor (rot x 7 25) (rot x 18 14)) (Z.shiftr x 3).
Definition sigma1 (x : Z) : Z := Z.lxor (Z.lxor (rot x 17 15) (rot x 19 13)) (Z.shiftr x 10).

(** One [Round] on [[a; b; c; d; e; f; g; h]], with the roles shifted for the
    next one. *)
Definition Round (st : list Z) (k : Z) : list Z :=
  let '(a, b, c, d) := (st.[0%nat], st.[1%nat], st.[2%nat], st.[3%nat]) in
  let '(e, f, g, h) := (st.[4%nat], st.[5%nat], st.[6%nat], st.[7%nat]) in
  let t1 := u32 (h + Sigma1 e + Ch e f g + k) in
  let t2 := u32 (Sigma0 a + Maj a b c) in
  [u32 (t1 + t2); a; b; c; u32 (d + t1); e; f; g].

Definition Initialize : list Z :=
  [0x6a09e667; 0xbb67ae85; 0x3c6ef372; 0xa54ff53a; 0x510e527f; 0x9b05688c; 0x1f83d9ab; 0x5be0cd19].

(** The constants that [Transform] adds, one row per eight rounds (the roles of
    [a..h] come around every eight rounds). *)
Definition K256 : list Z := concat [
  [0x428a2f98; 0x71374491; 0xb5c0fbcf; 0xe9b5dba5; 0x3956c25b; 0x59f111f1; 0x923f82a4; 0xab1c5ed5];
  [0xd807aa98; 0x12835b01; 0x243185be; 0x550c7dc3; 0x72be5d74; 0x80deb1fe; 0x9bdc06a7; 0xc19bf174];
  [0xe49b69c1; 0xefbe4786; 0x0fc19dc6; 0x240ca1cc; 0x2de92c6f; 0x4a7484aa; 0x5cb0a9dc; 0x76f988da];
  [0x983e5152; 0xa831c66d; 0xb00327c8; 0xbf597fc7; 0xc6e00bf3; 0xd5a79147; 0x06ca6351; 0x14292967];
  [0x27b70a85; 0x2e1b2138; 0x4d2c6dfc; 0x53380d13; 0x650a7354; 0x766a0abb; 0x81c2c92e; 0x92722c85];
  [0xa2bfe8a1; 0xa81a664b; 0xc24b8b70; 0xc76c51a3; 0xd192e819; 0xd6990624; 0xf40e3585; 0x106aa070];
  [0x19a4c116; 0x1e376c08; 0x2748774c; 0x34b0bcb5; 0x391c0cb3; 0x4ed8aa4a; 0x5b9cca4f; 0x682e6ff3];
  [0x748f82ee; 0x78a5636f; 0x84c87814; 0x8cc70208; 0x90befffa; 0xa4506ceb; 0xbef9a3f7; 0xc67178f2]].

(** Word [i] of the message schedule, computed in the ring [w]: the first 16 are
    the words of the chunk, the others replace [w[i mod 16]]. *)
Definition ring (i : nat) : nat := (i mod 16)%nat.
Definition schedule_word (w : list Z) (i : nat) : Z :=
  u32 (w.[ring i] + (sigma1 w.[ring (i + 14)] + w.[ring (i + 9)] + sigma0 w.[ring (i + 1)])).

Definition load_chunk (chunk : list Z) : list Z := map (fun i => ReadBE32 (drop (i * 4) chunk)) (seq 0 16).

(** Rounds [16..63] (or from any round on): state and ring. *)
Definition schedule_round (i : nat) (sw : list Z * list Z) : list Z * list Z :=
  let '(st, w) := sw in
  let x := schedule_word w i in
  (Round st (u32 (K256.[i] + x)), <[ring i := x]> w).

Definition add_state (s t : list Z) : list Z := zip_with (fun x y => u32 (x + y)) s t.

(** The 64 rounds of one chunk, from the words [w] of the chunk. *)
Definition rounds (st w : list Z) : list Z :=
  let st := foldl (fun st i => Round st (u32 (K256.[i] + w.[i]))) st (seq 0 16) in
  (foldl (fun sw i => schedule_round i sw) (st, w) (seq 16 48)).1.

Definition transform_block (s chunk : list Z) : list Z := add_state s (rounds s (load_chunk chunk)).

Fixpoint Transform (s chunk : list Z) (blocks : nat) : list Z :=
  match blocks with
  | O => s
  | S blocks => Transform (transform_block s (ztake 64 chunk)) (zdrop 64 chunk) blocks
  end.

Definition store_be (s : list Z) : list Z := flat_map WriteBE32 s.

(** ** [TransformD64]: SHA256(SHA256(in)) of 64 bytes *)

(** the constants of [Transform 2]: round constant plus padding schedule *)
Definition D64_K2 : list Z :=
  [0xc28a2f98; 0x71374491; 0xb5c0fbcf; 0xe9b5dba5; 0x3956c25b; 0x59f111f1; 0x923f82a4; 0xab1c5ed5;
   0xd807aa98; 0x12835b01; 0x243185be; 0x550c7dc3; 0x72be5d74; 0x80deb1fe; 0x9bdc06a7; 0xc19bf374;
   0x649b69c1; 0xf0fe4786; 0x0fe1edc6; 0x240cf254; 0x4fe9346f; 0x6cc984be; 0x61b9411e; 0x16f988fa;
   0xf2c65152; 0xa88e5a6d; 0xb019fc65; 0xb9d99ec7; 0x9a1231c3; 0xe70eeaa0; 0xfdb1232b; 0xc7353eb0;
   0x3069bad5; 0xcb976d5f; 0x5a0f118f; 0xdc1eeefd; 0x0a35b689; 0xde0b7a04; 0x58f4ca9d; 0xe15d5b16;
   0x007f3e86; 0x37088980; 0xa507ea32; 0x6fab9537; 0x17406110; 0x0d8cd6f1; 0xcdaa3b6d; 0xc0bbbe37;
   0x83613bda; 0xdb48a363; 0x0b02e931; 0x6fd15ca7; 0x521afaca; 0x31338431; 0x6ed41a95; 0x6d437890;
   0xc39c91f2; 0x9eccabbd; 0xb5c9a0e6; 0x532fb63c; 0xd2c741c6; 0x07237ea3; 0xa4954b68; 0x4c191d76].

(** the constants of rounds 8 to 15 of [Transform 3] *)
Definition D64_K3 : list Z :=
  [0x5807aa98; 0x12835b01; 0x243185be; 0x550c7dc3; 0x72be5d74; 0x80deb1fe; 0x9bdc06a7; 0xc19bf274].

(** the schedule words of rounds 16 to 31 of [Transform 3], from [w0..w7] *)
Definition D64_schedule3 (w0 w1 w2 w3 w4 w5 w6 w7 : Z) : list Z :=
  let w0 := u32 (w0 + sigma0 w1) in
  let w1 := u32 (w1 + (0xa00000 + sigma0 w2)) in
  let w2 := u32 (w2 + (sigma1 w0 + sigma0 w3)) in
  let w3 := u32 (w3 + (sigma1 w1 + sigma0 w4)) in
  let w4 := u32 (w4 + (sigma1 w2 + sigma0 w5)) in
  let w5 := u32 (w5 + (sigma1 w3 + sigma0 w6)) in
  let w6 := u32 (w6 + (sigma1 w4 + 0x100 + sigma0 w7)) in
  let w7 := u32 (w7 + (sigma1 w5 + w0 + 0x11002000)) in
  let w8 := u32 (0x80000000 + sigma1 w6 + w1) in
  let w9 := u32 (sigma1 w7 + w2) in
  let w10 := u32 (sigma1 w8 + w3) in
  let w11 := u32 (sigma1 w9 + w4) in
  let w12 := u32 (sigma1 w10 + w5) in
  let w13 := u32 (sigma1 w11 + w6) in
  let w14 := u32 (sigma1 w12 + w7 + 0x400022) in
  let w15 := u32 (0x100 + sigma1 w13 + w8 + sigma0 w0) in
  [w0; w1; w2; w3; w4; w5; w6; w7; w8; w9; w10; w11; w12; w13; w14; w15].

Definition TransformD64 (inp : list Z) : list Z :=
  (* Transform 1 *)
  let t := add_state (rounds Initialize (load_chunk inp)) Initialize in
  (* Transform 2 *)
  let st := foldl (fun st k => Round st k) t D64_K2 in
  let w := add_state t st in
  (* Transform 3 *)
  let st := foldl (fun st i => Round st (u32 (K256.[i] + w.[i]))) Initialize (seq 0 8) in
  let st := foldl (fun st k => Round st k) st D64_K3 in
  let w := D64_schedule3 w.[0%nat] w.[1%nat] w.[2%nat] w.[3%nat] w.[4%nat] w.[5%nat] w.[6%nat] w.[7%nat] in
  let st := foldl (fun st i => Round st (u32 (K256.[(16 + i)%nat] + w.[i]))) st (seq 0 16) in
  let st := (foldl (fun sw i => schedule_round i sw) (st, w) (seq 32 32)).1 in
  store_be (add_state st Initialize).

(** [TransformD64Wrapper]: the same from three calls of [Transform] *)
Definition D64_padding1 : list Z := 0x80 :: replicate 61 0 ++ [2; 0].
Definition D64_padding2 : list Z := 0x80 :: replicate 29 0 ++ [1; 0].
Definition TransformD64Wrapper (inp : list Z) : list Z :=
  let s := Transform Initialize inp 1 in
  let s := Transform s D64_padding1 1 in
  let buffer2 := store_be s ++ D64_padding2 in
  store_be (Transform Initialize buffer2 1).

(** [SHA256D64], with the one-at-a-time loop, on a buffer that input and output
    share, as [ComputeMerkleRoot] calls it: block [i] is read at [64 i] and its
    hash written at [32 i]. *)
Fixpoint SHA256D64_inplace (buf : list Z) (i blocks : nat) : list Z :=
  match blocks with
  | O => buf
  | S blocks =>
      let h := TransformD64 (take 64 (drop (64 * i) buf)) in
      SHA256D64_inplace (take (32 * i) buf ++ h ++ drop (32 * i + 32) buf) (S i) blocks
  end.

(** ** [CSHA256] *)

Record CSHA256 : Type := { sha_s : list Z; sha_buf : list Z; sha_bytes : Z }.

Definition CSHA256_init : CSHA256 := {| sha_s := Initialize; sha_buf := zrep 64 0; sha_bytes := 0 |}.

Definition sha_memcpy (dst : list Z) (off : Z) (src : list Z) : list Z :=
  ztake off dst ++ src ++ zdrop (off + zlen src) dst.

Definition CSHA256_Write (self : CSHA256) (data : list Z) : CSHA256 :=
  let bufsize := sha_bytes self mod 64 in
  let '(self, data, bufsize) :=
    if negb (bufsize =? 0) && (bufsize + zlen data >=? 64) then
      let buf := sha_memcpy (sha_buf self) bufsize (ztake (64 - bufsize) data) in
      ({| sha_s := Transform (sha_s self) buf 1; sha_buf := buf; sha_bytes := u64 (sha_bytes self + (64 - bufsize)) |},
       zdrop (64 - bufsize) data, 0)
    else (self, data, bufsize) in
  let '(self, data) :=
    if zlen data >=? 64 then
      let blocks := zlen data / 64 in
      ({| sha_s := Transform (sha_s self) data (Z.to_nat blocks); sha_buf := sha_buf self;
          sha_bytes := u64 (sha_bytes self + 64 * blocks) |}, zdrop (64 * blocks) data)
    else (self, data) in
  if zlen data >? 0 then
    {| sha_s := sha_s self; sha_buf := sha_memcpy (sha_buf self) bufsize data;
       sha_bytes := u64 (sha_bytes self + zlen data) |}
  else self.

Definition sha_pad : list Z := 0x80 :: replicate 63 0.

(** the object after [Finalize] has written the padding and the length *)
Definition CSHA256_finish (self : CSHA256) : CSHA256 :=
  let sizedesc := WriteBE64 (u64 (Z.shiftl (sha_bytes self) 3)) in
  let self := CSHA256_Write self (ztake (1 + (119 - sha_bytes self mod 64) mod 64) sha_pad) in
  CSHA256_Write self sizedesc.
Definition CSHA256_Finalize (self : CSHA256) : list Z := store_be (sha_s (CSHA256_finish self)).

Definition CSHA256_Reset (self : CSHA256) : CSHA256 :=
  {| sha_s := Initialize; sha_buf := sha_buf self; sha_bytes := 0 |}.
