(* ===== verification/Sha256Proofs.v ===== *)
(** * SHA-256: the streaming hasher and the precomputed double hash

    [CSHA256] fed in any pieces computes the padded Merkle-Damgard iteration of
    FIPS 180-4 over the whole message; the unrolled [TransformD64], whose message
    schedules for the constant padding are precomputed, is SHA-256 applied twice;
    hashing pairs in place is hashing them side by side. *)

From Stdlib Require Import ZArith Lia Bool String.
From stdpp Require Import base list.
From S2P Require Import Prelude Uint256 Sha256.
Local Open Scope Z_scope.
Local Open Scope adonai_scope.

(** ** Reference definition *)

Fixpoint blocks_loop (fuel : nat) (s msg : list Z) : list Z :=
  match fuel with
  | O => s
  | S fuel => if zlen msg <? 64 then s else blocks_loop fuel (transform_block s (ztake 64 msg)) (zdrop 64 msg)
  end.
(** The state after the whole 64-byte blocks of [msg]. *)
Definition hash_blocks (s msg : list Z) : list Z := blocks_loop (length msg) s msg.

Definition sha_padding (n : Z) : list Z :=
  0x80 :: zrep ((55 - n) mod 64) 0 ++ WriteBE64 (8 * n).
Definition sha256 (msg : list Z) : list Z := store_be (hash_blocks Initialize (msg ++ sha_padding (zlen msg))).

(** ** Blocks *)

Lemma blocks_loop_fuel n m s msg : (length msg <= n)%nat -> (length msg <= m)%nat ->
  blocks_loop n s msg = blocks_loop m s msg.
Proof.
  revert m s msg. induction n as [|n IH]; intros [|m] s msg Hn Hm; try done.
  - destruct msg; [done|cbn in Hn; lia].
  - destruct msg; [done|cbn in Hm; lia].
  - cbn [blocks_loop]. case_bool; [done|]. apply IH; unfold zdrop; rewrite length_drop; lia.
Qed.

Lemma hash_blocks_short s msg : zlen msg < 64 -> hash_blocks s msg = s.
Proof.
  intros H. unfold hash_blocks. destruct msg as [|x msg]; [done|]. cbn [length blocks_loop].
  apply Z.ltb_lt in H. cbn [length] in H. rewrite H. done.
Qed.

Lemma hash_blocks_step s b msg : zlen b = 64 -> hash_blocks s (b ++ msg) = hash_blocks (transform_block s b) msg.
Proof.
  intros H. unfold hash_blocks. destruct (length (b ++ msg)) as [|n] eqn:En; [rewrite length_app in En; lia|].
  cbn [blocks_loop]. destruct (Z.ltb_spec (zlen (b ++ msg)) 64) as [Hl|Hl]; [rewrite length_app in Hl; lia|].
  rewrite ztake_app, zdrop_app by lia. rewrite length_app in En. apply blocks_loop_fuel; lia.
Qed.

Lemma hash_blocks_Transform n : forall s data rest, 64 * Z.of_nat n <= zlen data ->
  hash_blocks s (data ++ rest) = hash_blocks (Transform s data n) (zdrop (64 * Z.of_nat n) data ++ rest).
Proof.
  induction n as [|n IH]; intros s data rest Hl; [done|]. cbn [Transform].
  rewrite <- (ztake_zdrop 64 data) at 1. rewrite <- app_assoc, hash_blocks_step by (rewrite zlen_ztake; lia).
  rewrite IH by (rewrite zlen_zdrop; lia). rewrite zdrop_zdrop by lia. do 3 f_equal. lia.
Qed.

(** [Transform] reads only its blocks. *)
Lemma Transform_prefix n : forall s data m, 64 * Z.of_nat n <= m -> Transform s (ztake m data) n = Transform s data n.
Proof.
  induction n as [|n IH]; intros s data m Hm; [done|]. cbn [Transform].
  assert (ztake 64 (ztake m data) = ztake 64 data) as ->
    by (unfold ztake; rewrite take_take; f_equal; lia).
  assert (zdrop 64 (ztake m data) = ztake (m - 64) (zdrop 64 data)) as ->
    by (unfold ztake, zdrop; rewrite skipn_firstn_comm; f_equal; lia).
  apply IH. lia.
Qed.

(** ** The streaming hasher *)

(** [c] has absorbed [msg]: whole blocks are in the state, the rest in the buffer. *)
Definition sha_inv (msg : list Z) (c : CSHA256) : Prop :=
  sha_bytes c = zlen msg /\ zlen (sha_buf c) = 64 /\
  forall rest, hash_blocks Initialize (msg ++ rest) =
    hash_blocks (sha_s c) (ztake (zlen msg mod 64) (sha_buf c) ++ rest).

Lemma sha_inv_init : sha_inv [] CSHA256_init.
Proof. split_and!; done. Qed.

Lemma sha_memcpy_len dst off src : 0 <= off -> off + zlen src <= 64 -> zlen dst = 64 ->
  zlen (sha_memcpy dst off src) = 64.
Proof. intros H0 H1 H2. unfold sha_memcpy. zlens. lia. Qed.

Lemma sha_memcpy_take dst off src : 0 <= off -> off + zlen src <= 64 -> zlen dst = 64 ->
  ztake (off + zlen src) (sha_memcpy dst off src) = ztake off dst ++ src.
Proof. intros H0 H1 H2. unfold sha_memcpy. rewrite app_assoc. apply ztake_app. zlens. lia. Qed.

(** [memcpy] of the rest into the buffer. *)
Lemma write_buf_spec off msg c data : off = zlen msg mod 64 -> sha_bytes c = zlen msg -> zlen (sha_buf c) = 64 ->
  zlen msg mod 64 + zlen data < 64 -> zlen msg + zlen data < 2 ^ 64 ->
  (forall rest, hash_blocks Initialize (msg ++ rest) =
     hash_blocks (sha_s c) (ztake (zlen msg mod 64) (sha_buf c) ++ rest)) ->
  sha_inv (msg ++ data)
    (if zlen data >? 0 then
       {| sha_s := sha_s c; sha_buf := sha_memcpy (sha_buf c) off data;
          sha_bytes := u64 (sha_bytes c + zlen data) |}
     else c).
Proof.
  intros -> Hb Hbuf Hlt H64 Hcont. pose proof (Z.mod_pos_bound (zlen msg) 64 ltac:(lia)).
  destruct (Z.gtb_spec (zlen data) 0) as [H0|H0].
  2:{ assert (data = []) as -> by (apply zlen_nil_inv; lia). rewrite app_nil_r. split_and!; assumption. }
  assert (Hm : zlen (msg ++ data) mod 64 = zlen msg mod 64 + zlen data).
  { rewrite zlen_app. symmetry. apply (Z.mod_unique _ _ (zlen msg / 64)); [lia|].
    pose proof (Z.div_mod (zlen msg) 64). lia. }
  split_and!; cbn [sha_bytes sha_buf sha_s].
  - rewrite zlen_app, Hb. apply wrap_small. unfold fits. lia.
  - apply sha_memcpy_len; lia.
  - intros rest. rewrite Hm, sha_memcpy_take by lia. rewrite <- !app_assoc. apply Hcont.
Qed.

(** Whole blocks, then the rest into the buffer, from an empty buffer. *)
Lemma write_tail_spec msg c data : sha_bytes c = zlen msg -> zlen msg mod 64 = 0 -> zlen (sha_buf c) = 64 ->
  zlen msg + zlen data < 2 ^ 64 ->
  (forall rest, hash_blocks Initialize (msg ++ rest) = hash_blocks (sha_s c) rest) ->
  sha_inv (msg ++ data)
    (let '(self, data) :=
       if zlen data >=? 64 then
         let blocks := zlen data / 64 in
         ({| sha_s := Transform (sha_s c) data (Z.to_nat blocks); sha_buf := sha_buf c;
             sha_bytes := u64 (sha_bytes c + 64 * blocks) |}, zdrop (64 * blocks) data)
       else (c, data) in
     if zlen data >? 0 then
       {| sha_s := sha_s self; sha_buf := sha_memcpy (sha_buf self) 0 data; sha_bytes := u64 (sha_bytes self + zlen data) |}
     else self).
Proof.
  intros Hb Hm Hbuf H64 Hcont. destruct (Z.geb_spec (zlen data) 64) as [Hge|Hlt]; cbn zeta.
  2:{ apply write_buf_spec; try lia. intros rest. rewrite Hm, ztake_0. apply Hcont. }
  set (n := zlen data / 64). pose proof (Z.div_mod (zlen data) 64 ltac:(lia)) as Hdm.
  pose proof (Z.mod_pos_bound (zlen data) 64 ltac:(lia)). fold n in Hdm.
  assert (Hl : zlen (ztake (64 * n) data) = 64 * n) by (apply zlen_ztake; lia).
  assert (Hmod : zlen (msg ++ ztake (64 * n) data) mod 64 = 0).
  { rewrite zlen_app, Hl. replace (zlen msg + 64 * n) with (zlen msg + n * 64) by lia. rewrite Z.mod_add by lia. done. }
  rewrite <- (ztake_zdrop (64 * n) data) at 1. rewrite app_assoc.
  apply (write_buf_spec 0 _ {| sha_s := Transform (sha_s c) data (Z.to_nat n); sha_buf := sha_buf c;
                             sha_bytes := u64 (sha_bytes c + 64 * n) |}); cbn [sha_s sha_buf sha_bytes]; try done.
  - rewrite zlen_app, Hl, Hb. apply wrap_small. unfold fits. lia.
  - rewrite Hmod, zlen_zdrop by lia. lia.
  - rewrite zlen_app, Hl, zlen_zdrop by lia. lia.
  - intros rest. rewrite Hmod, ztake_0, <- app_assoc, Hcont. cbn [app].
    rewrite (hash_blocks_Transform (Z.to_nat n)) by (rewrite zlen_ztake; lia). rewrite Z2Nat.id by lia.
    rewrite zdrop_all by lia. cbn [app]. f_equal. apply Transform_prefix. lia.
Qed.

Lemma CSHA256_Write_spec msg c data : sha_inv msg c -> zlen msg + zlen data < 2 ^ 64 ->
  sha_inv (msg ++ data) (CSHA256_Write c data).
Proof.
  intros (Hb & Hbuf & Hcont) H64. unfold CSHA256_Write. rewrite Hb.
  pose proof (Z.mod_pos_bound (zlen msg) 64 ltac:(lia)). set (b := zlen msg mod 64) in *.
  destruct (Z.eqb_spec b 0) as [E|E]; cbn [negb andb].
  { rewrite E in *. apply write_tail_spec; try done. }
  destruct (Z.geb_spec (b + zlen data) 64) as [Hge|Hlt].
  2:{ cbn iota beta. destruct (Z.geb_spec (zlen data) 64); [lia|].
      apply write_buf_spec; try done; lia. }
  set (d0 := ztake (64 - b) data). assert (Hd0 : zlen d0 = 64 - b) by (apply zlen_ztake; lia).
  assert (Hfull : sha_memcpy (sha_buf c) b d0 = ztake b (sha_buf c) ++ d0).
  { rewrite <- (sha_memcpy_take (sha_buf c) b d0) by lia. rewrite ztake_all; [done|]. rewrite sha_memcpy_len; lia. }
  rewrite <- (ztake_zdrop (64 - b) data) at 1. rewrite app_assoc. fold d0.
  apply (write_tail_spec (msg ++ d0)
    {| sha_s := Transform (sha_s c) (sha_memcpy (sha_buf c) b d0) 1; sha_buf := sha_memcpy (sha_buf c) b d0;
       sha_bytes := u64 (zlen msg + (64 - b)) |}); cbn [sha_s sha_buf sha_bytes].
  - rewrite zlen_app, Hd0. apply wrap_small. unfold fits. lia.
  - rewrite zlen_app, Hd0. symmetry. apply (Z.mod_unique _ _ (zlen msg / 64 + 1)); [lia|].
    pose proof (Z.div_mod (zlen msg) 64). unfold b. lia.
  - apply sha_memcpy_len; lia.
  - rewrite zlen_app, Hd0, zlen_zdrop by lia. lia.
  - intros rest. rewrite <- app_assoc, Hcont, app_assoc, <- Hfull.
    rewrite hash_blocks_step by (rewrite sha_memcpy_len; lia). cbn [Transform].
    rewrite ztake_all by (rewrite sha_memcpy_len; lia). done.
Qed.

(** The state of a hasher whose message ends at a block boundary. *)
Lemma sha_inv_done msg c : sha_inv msg c -> zlen msg mod 64 = 0 -> sha_s c = hash_blocks Initialize msg.
Proof.
  intros (_ & _ & Hcont) Hm. specialize (Hcont []). rewrite Hm, ztake_0, !app_nil_r in Hcont.
  rewrite Hcont. symmetry. apply hash_blocks_short. cbn. lia.
Qed.

Lemma sha_padding_len n : 0 <= n -> (n + zlen (sha_padding n)) mod 64 = 0.
Proof.
  intros Hn. unfold sha_padding. cbn [length]. rewrite Nat2Z.inj_succ, zlen_app, zlen_zrep.
  2:{ apply Z.mod_pos_bound. lia. }
  replace (zlen (WriteBE64 (8 * n))) with 8 by (unfold WriteBE64; rewrite (proj1 (WriteBE_ok 8 _)); done).
  replace (n + Z.succ ((55 - n) mod 64 + 8)) with ((n + 9) + (55 - n) mod 64) by lia.
  rewrite Z.add_mod_idemp_r by lia. replace (n + 9 + (55 - n)) with 64 by lia. done.
Qed.

Lemma CSHA256_finish_spec msg c : sha_inv msg c -> zlen msg + 72 < 2 ^ 61 ->
  sha_inv (msg ++ sha_padding (zlen msg)) (CSHA256_finish c).
Proof.
  intros Hinv H61. pose proof Hinv as (Hb & _ & _). unfold CSHA256_finish. rewrite Hb.
  pose proof (Z.mod_pos_bound (zlen msg) 64 ltac:(lia)). pose proof (Z.mod_pos_bound (55 - zlen msg) 64 ltac:(lia)).
  assert (Hpad : ztake (1 + (119 - zlen msg mod 64) mod 64) sha_pad = 0x80 :: zrep ((55 - zlen msg) mod 64) 0).
  { replace ((119 - zlen msg mod 64) mod 64) with ((55 - zlen msg) mod 64)
      by (rewrite Zminus_mod_idemp_r; replace (119 - zlen msg) with (55 - zlen msg + 1 * 64) by lia; rewrite Z.mod_add by lia; done).
    unfold ztake, sha_pad, zrep. set (k := (55 - zlen msg) mod 64) in *.
    replace (Z.to_nat (1 + k)) with (S (Z.to_nat k)) by lia. rewrite firstn_cons.
    f_equal. rewrite take_replicate. f_equal. lia. }
  rewrite Hpad. rewrite Z.shiftl_mul_pow2 by lia. change (2 ^ 3) with 8.
  rewrite wrap_small by (unfold fits; lia). rewrite (Z.mul_comm (zlen msg)).
  unfold sha_padding. rewrite app_comm_cons, app_assoc. apply CSHA256_Write_spec; [apply CSHA256_Write_spec; [exact Hinv|]|].
  - cbn [length]. rewrite Nat2Z.inj_succ, zlen_zrep by lia. lia.
  - unfold WriteBE64. rewrite (proj1 (WriteBE_ok 8 _)), zlen_app. cbn [length]. rewrite Nat2Z.inj_succ, zlen_zrep by lia. lia.
Qed.

Lemma CSHA256_Finalize_spec msg c : sha_inv msg c -> zlen msg + 72 < 2 ^ 61 -> CSHA256_Finalize c = sha256 msg.
Proof.
  intros Hinv H61. unfold CSHA256_Finalize, sha256. f_equal.
  apply sha_inv_done; [apply CSHA256_finish_spec; assumption|]. rewrite zlen_app. apply sha_padding_len. lia.
Qed.

Lemma sha_inv_reset msg c : sha_inv msg c -> sha_inv [] (CSHA256_Reset c).
Proof. intros (_ & Hbuf & _). split_and!; [done|exact Hbuf|]. intros rest. rewrite ztake_0. done. Qed.

(** ** The round keys

    The state never enters the message schedule, so the 64 rounds are a fold of
    [Round] over a list of keys. *)

Fixpoint sched_keys (w : list Z) (rs : list nat) : list Z :=
  match rs with
  | [] => []
  | i :: rs => let x := schedule_word w i in u32 (K256.[i] + x) :: sched_keys (<[ring i := x]> w) rs
  end.
Fixpoint sched_ring (w : list Z) (rs : list nat) : list Z :=
  match rs with
  | [] => w
  | i :: rs => sched_ring (<[ring i := schedule_word w i]> w) rs
  end.
Definition word_keys (w : list Z) (rs : list nat) : list Z := map (fun i => u32 (K256.[i] + w.[i])) rs.

Lemma schedule_fold rs : forall st w,
  foldl (fun sw i => schedule_round i sw) (st, w) rs = (foldl Round st (sched_keys w rs), sched_ring w rs).
Proof. induction rs as [|i rs IH]; intros st w; [done|]. cbn [foldl schedule_round sched_keys sched_ring]. apply IH. Qed.

Lemma word_fold w rs : forall st, foldl (fun st i => Round st (u32 (K256.[i] + w.[i]))) st rs = foldl Round st (word_keys w rs).
Proof. induction rs as [|i rs IH]; intros st; [done|]. apply IH. Qed.

Lemma rounds_keys st w : rounds st w = foldl Round st (word_keys w (seq 0 16) ++ sched_keys w (seq 16 48)).
Proof. unfold rounds. rewrite word_fold, schedule_fold, foldl_app. done. Qed.

Lemma sched_keys_app a b : forall w, sched_keys w (a ++ b) = sched_keys w a ++ sched_keys (sched_ring w a) b.
Proof. induction a as [|i a IH]; intros w; [done|]. cbn [app sched_keys sched_ring]. f_equal. apply IH. Qed.

Lemma add_state_comm s t : add_state s t = add_state t s.
Proof.
  unfold add_state. revert t. induction s as [|x s IH]; intros [|y t]; [done..|]. cbn [zip_with].
  rewrite (Z.add_comm x), IH. done.
Qed.

Lemma length_foldl_Round ks : forall st, length st = 8%nat -> length (foldl Round st ks) = 8%nat.
Proof. induction ks as [|k ks IH]; intros st H; [done|]. cbn [foldl]. apply IH. done. Qed.

Lemma add_state_ok s t : limbs_ok 32 (add_state s t).
Proof.
  unfold add_state. revert t. induction s as [|x s IH]; intros [|y t]; constructor; [apply wrap_fits; lia|apply IH].
Qed.

Lemma length_add_state s t : length s = 8%nat -> length t = 8%nat -> length (add_state s t) = 8%nat.
Proof. intros Hs Ht. unfold add_state. rewrite length_zip_with. lia. Qed.

(** ** The precomputed schedules *)

(** Transform 2: the chunk is the padding of a 64-byte message. *)
Lemma D64_K2_keys : word_keys (load_chunk D64_padding1) (seq 0 16) ++ sched_keys (load_chunk D64_padding1) (seq 16 48) = D64_K2.
Proof. vm_compute. reflexivity. Qed.

Lemma ReadBE32_WriteBE32 x rest : fits 32 x -> ReadBE32 (WriteBE32 x ++ rest) = x.
Proof. intros H. unfold ReadBE32, WriteBE32. rewrite ReadBE_WriteBE. apply Z.mod_small. exact H. Qed.

(** Transform 3: the chunk is a 32-byte hash and its padding. *)
Lemma load_chunk_hash w0 w1 w2 w3 w4 w5 w6 w7 : limbs_ok 32 [w0; w1; w2; w3; w4; w5; w6; w7] ->
  load_chunk (store_be [w0; w1; w2; w3; w4; w5; w6; w7] ++ D64_padding2) =
  [w0; w1; w2; w3; w4; w5; w6; w7; 0x80000000; 0; 0; 0; 0; 0; 0; 0x100].
Proof.
  intros H. unfold load_chunk. cbn [seq map]. repeat (inversion H as [|? ? ? H']; subst; clear H; rename H' into H).
  repeat match goal with |- _ :: _ = _ :: _ => f_equal end.
  all: try reflexivity.
  all: match goal with |- ReadBE32 ?l = ?x =>
         change (ReadBE32 (WriteBE32 x ++ drop 4 l) = x); apply ReadBE32_WriteBE32; assumption end.
Qed.

Lemma sched_step x w i rs : schedule_word w i = x ->
  sched_keys w (i :: rs) = u32 (K256.[i] + x) :: sched_keys (<[ring i := x]> w) rs /\
  sched_ring w (i :: rs) = sched_ring (<[ring i := x]> w) rs.
Proof. intros <-. done. Qed.

(** One schedule word, with the constant words of the padding folded in. *)
Ltac schedule_const E :=
  unfold schedule_word; cbn [ring Nat.modulo Nat.divmod Nat.add Nat.sub fst snd nth];
  change (sigma1 0) with 0; change (sigma0 0) with 0; change (sigma1 0x100) with 0xa00000;
  change (sigma0 0x80000000) with 0x11002000; change (sigma0 0x100) with 0x400022;
  rewrite E; f_equal; lia.
Ltac rewrite_sched x E :=
  match goal with |- context [sched_keys ?w (?i :: ?rs)] =>
    let H := fresh in assert (H : schedule_word w i = x) by schedule_const E;
    destruct (sched_step x w i rs H) as [-> ->]; clear H;
    cbn [ring Nat.modulo Nat.divmod Nat.add Nat.sub fst snd insert list_insert]
  end.

(** The equations of [D64_schedule3], with every word named. *)
Lemma schedule3_steps w0 w1 w2 w3 w4 w5 w6 w7 x0 x1 x2 x3 x4 x5 x6 x7 x8 x9 x10 x11 x12 x13 x14 x15 :
  x0 = u32 (w0 + sigma0 w1) ->
  x1 = u32 (w1 + (0xa00000 + sigma0 w2)) ->
  x2 = u32 (w2 + (sigma1 x0 + sigma0 w3)) ->
  x3 = u32 (w3 + (sigma1 x1 + sigma0 w4)) ->
  x4 = u32 (w4 + (sigma1 x2 + sigma0 w5)) ->
  x5 = u32 (w5 + (sigma1 x3 + sigma0 w6)) ->
  x6 = u32 (w6 + (sigma1 x4 + 0x100 + sigma0 w7)) ->
  x7 = u32 (w7 + (sigma1 x5 + x0 + 0x11002000)) ->
  x8 = u32 (0x80000000 + sigma1 x6 + x1) ->
  x9 = u32 (sigma1 x7 + x2) ->
  x10 = u32 (sigma1 x8 + x3) ->
  x11 = u32 (sigma1 x9 + x4) ->
  x12 = u32 (sigma1 x10 + x5) ->
  x13 = u32 (sigma1 x11 + x6) ->
  x14 = u32 (sigma1 x12 + x7 + 0x400022) ->
  x15 = u32 (0x100 + sigma1 x13 + x8 + sigma0 x0) ->
  let w := [w0; w1; w2; w3; w4; w5; w6; w7; 0x80000000; 0; 0; 0; 0; 0; 0; 0x100] in
  let x := [x0; x1; x2; x3; x4; x5; x6; x7; x8; x9; x10; x11; x12; x13; x14; x15] in
  sched_keys w (seq 16 16) = map (fun i => u32 (K256.[(16 + i)%nat] + x.[i])) (seq 0 16) /\
  sched_ring w (seq 16 16) = x.
Proof.
  intros E0 E1 E2 E3 E4 E5 E6 E7 E8 E9 E10 E11 E12 E13 E14 E15 w x. subst w. cbn [seq].
  rewrite_sched x0 E0.
  rewrite_sched x1 E1.
  rewrite_sched x2 E2.
  rewrite_sched x3 E3.
  rewrite_sched x4 E4.
  rewrite_sched x5 E5.
  rewrite_sched x6 E6.
  rewrite_sched x7 E7.
  rewrite_sched x8 E8.
  rewrite_sched x9 E9.
  rewrite_sched x10 E10.
  rewrite_sched x11 E11.
  rewrite_sched x12 E12.
  rewrite_sched x13 E13.
  rewrite_sched x14 E14.
  rewrite_sched x15 E15.
  subst x. done.
Qed.

Lemma schedule3_words w0 w1 w2 w3 w4 w5 w6 w7 :
  let w := [w0; w1; w2; w3; w4; w5; w6; w7; 0x80000000; 0; 0; 0; 0; 0; 0; 0x100] in
  let x := D64_schedule3 w0 w1 w2 w3 w4 w5 w6 w7 in
  sched_keys w (seq 16 16) = map (fun i => u32 (K256.[(16 + i)%nat] + x.[i])) (seq 0 16) /\
  sched_ring w (seq 16 16) = x.
Proof. eapply schedule3_steps; reflexivity. Qed.

(** ** [TransformD64] *)

Lemma length_rounds st w : length st = 8%nat -> length (rounds st w) = 8%nat.
Proof. intros H. rewrite rounds_keys. apply length_foldl_Round. assumption. Qed.

(** The last part of [TransformD64] hashes a 32-byte digest. *)
Lemma D64_third w0 w1 w2 w3 w4 w5 w6 w7 : let w := [w0; w1; w2; w3; w4; w5; w6; w7] in limbs_ok 32 w ->
  rounds Initialize (load_chunk (store_be w ++ D64_padding2)) =
  let st := foldl (fun st i => Round st (u32 (K256.[i] + w.[i]))) Initialize (seq 0 8) in
  let st := foldl (fun st k => Round st k) st D64_K3 in
  let x := D64_schedule3 w0 w1 w2 w3 w4 w5 w6 w7 in
  let st := foldl (fun st i => Round st (u32 (K256.[(16 + i)%nat] + x.[i]))) st (seq 0 16) in
  (foldl (fun sw i => schedule_round i sw) (st, x) (seq 32 32)).1.
Proof.
  intros w Hok. unfold w at 1. rewrite load_chunk_hash by exact Hok. rewrite rounds_keys.
  destruct (schedule3_words w0 w1 w2 w3 w4 w5 w6 w7) as [Hk Hr]. cbn zeta in *.
  set (c := [w0; w1; w2; w3; w4; w5; w6; w7; 0x80000000; 0; 0; 0; 0; 0; 0; 0x100]) in *.
  change (seq 16 48) with (seq 16 16 ++ seq 32 32). rewrite sched_keys_app, Hk, Hr.
  set (x := D64_schedule3 w0 w1 w2 w3 w4 w5 w6 w7) in *. rewrite schedule_fold. cbn [fst].
  rewrite !foldl_app. reflexivity.
Qed.

Lemma TransformD64_Wrapper inp : TransformD64 (ztake 64 inp) = TransformD64Wrapper inp.
Proof.
  unfold TransformD64, TransformD64Wrapper. cbn [Transform]. unfold transform_block.
  rewrite (add_state_comm (rounds Initialize (load_chunk (ztake 64 inp)))).
  set (t := add_state Initialize (rounds Initialize (load_chunk (ztake 64 inp)))).
  assert (Ht : length t = 8%nat) by (apply length_add_state; [done|apply length_rounds; done]).
  change (ztake 64 D64_padding1) with D64_padding1. rewrite (rounds_keys t), D64_K2_keys.
  change (foldl (fun st k => Round st k) t D64_K2) with (foldl Round t D64_K2).
  set (w := add_state t (foldl Round t D64_K2)).
  assert (Hw : length w = 8%nat) by (apply length_add_state; [done|apply length_foldl_Round; done]).
  assert (Hok : limbs_ok 32 w) by apply add_state_ok.
  clearbody w. do 8 (destruct w as [|? w]; [discriminate|]). destruct w; [|discriminate].
  rewrite ztake_all by reflexivity.
  rewrite D64_third by exact Hok. rewrite add_state_comm. reflexivity.
Qed.

Lemma length_store_be s : length (store_be s) = (4 * length s)%nat.
Proof.
  unfold store_be. induction s as [|x s IH]; [done|]. cbn [flat_map length]. rewrite length_app, IH.
  change (length (WriteBE32 x)) with 4%nat. lia.
Qed.

Lemma length_transform_block s b : length s = 8%nat -> length (transform_block s b) = 8%nat.
Proof. intros H. apply length_add_state; [done|apply length_rounds; done]. Qed.

Lemma length_hash_blocks s msg : length s = 8%nat -> length (hash_blocks s msg) = 8%nat.
Proof.
  unfold hash_blocks. generalize (length msg). intros n. revert s msg.
  induction n as [|n IH]; intros s msg Hs; [exact Hs|]. cbn [blocks_loop].
  case_match; [exact Hs|]. apply IH, length_transform_block, Hs.
Qed.

Lemma store_be_ok s : limbs_ok 8 (store_be s).
Proof. unfold store_be. induction s as [|x s IH]; [constructor|]. cbn [flat_map]. apply Forall_app. split; [apply WriteBE_ok|exact IH]. Qed.

Lemma sha256_blob msg : blob_ok 32 (sha256 msg).
Proof.
  unfold sha256. split; [|apply store_be_ok]. rewrite length_store_be, length_hash_blocks; done.
Qed.

Lemma TransformD64_double inp : zlen inp = 64 -> TransformD64 inp = sha256 (sha256 inp).
Proof.
  intros Hl. pose proof (TransformD64_Wrapper inp) as E. rewrite (ztake_all 64 inp) in E by lia. rewrite E. clear E.
  unfold TransformD64Wrapper. cbn [Transform]. rewrite (ztake_all 64 inp) by lia.
  change (ztake 64 D64_padding1) with D64_padding1. set (t := transform_block (transform_block Initialize inp) D64_padding1).
  assert (Ht : length t = 8%nat) by (apply length_transform_block, length_transform_block; done).
  assert (E1 : sha256 inp = store_be t).
  { unfold sha256. rewrite Hl. change (sha_padding 64) with D64_padding1. apply (f_equal store_be).
    rewrite <- (app_nil_r D64_padding1), hash_blocks_step by exact Hl.
    rewrite hash_blocks_step by reflexivity. apply hash_blocks_short. cbn. lia. }
  rewrite E1. clear E1. clearbody t. unfold sha256. apply (f_equal store_be).
  assert (Hs : zlen (store_be t) = 32) by (rewrite length_store_be, Ht; done). rewrite Hs.
  change (sha_padding 32) with D64_padding2. rewrite ztake_all by (rewrite zlen_app, Hs; cbn; lia).
  rewrite <- (app_nil_r (store_be t ++ D64_padding2)). rewrite hash_blocks_step by (rewrite zlen_app, Hs; done).
  rewrite app_nil_r. symmetry. apply hash_blocks_short. cbn. lia.
Qed.

(** ** Hashing in place *)

Lemma length_foldl_keys {A} (f : A -> Z) l : forall st, length st = 8%nat -> length (foldl (fun st i => Round st (f i)) st l) = 8%nat.
Proof. induction l as [|i l IH]; intros st H; [done|]. cbn [foldl]. apply IH. done. Qed.

Lemma length_TransformD64 inp : length (TransformD64 inp) = 32%nat.
Proof.
  unfold TransformD64. rewrite length_store_be, length_add_state; [done| |done].
  rewrite schedule_fold. cbn [fst]. apply length_foldl_Round. do 3 apply length_foldl_keys. done.
Qed.

#[local] Opaque TransformD64 rounds sha256.

Definition d64_block (buf : list Z) (j : nat) : list Z := take 64 (drop (64 * j) buf).

Lemma SHA256D64_inplace_spec n : forall buf i, (64 * (i + n) <= length buf)%nat ->
  SHA256D64_inplace buf i n =
  take (32 * i) buf ++ concat (map (fun j => TransformD64 (d64_block buf j)) (seq i n)) ++ drop (32 * (i + n)) buf.
Proof.
  induction n as [|n IH]; intros buf i Hl.
  - cbn [SHA256D64_inplace seq map concat app]. rewrite Nat.add_0_r, take_drop. done.
  - cbn [SHA256D64_inplace seq map concat]. fold (d64_block buf i).
    pose proof (length_TransformD64 (d64_block buf i)) as Hh. set (h := TransformD64 (d64_block buf i)) in *.
    set (buf' := take (32 * i) buf ++ h ++ drop (32 * i + 32) buf).
    assert (Hdrop : forall k, (32 * i + 32 <= k)%nat -> drop k buf' = drop k buf).
    { intros k Hk. unfold buf'. rewrite app_assoc, drop_app_ge by (rewrite length_app, length_take; lia).
      rewrite drop_drop. f_equal. rewrite length_app, length_take. lia. }
    rewrite IH by (unfold buf'; rewrite !length_app, length_take, length_drop; lia).
    replace (take (32 * S i) buf') with (take (32 * i) buf ++ h).
    2:{ unfold buf'. rewrite app_assoc, take_app_length'; [done|]. rewrite length_app, length_take. lia. }
    assert (map (fun j => TransformD64 (d64_block buf' j)) (seq (S i) n) =
            map (fun j => TransformD64 (d64_block buf j)) (seq (S i) n)) as ->.
    { apply map_ext_in. intros j Hj. apply in_seq in Hj. unfold d64_block. rewrite Hdrop by lia. done. }
    rewrite Hdrop by lia. replace (i + S n)%nat with (S i + n)%nat by lia. rewrite <- !app_assoc. done.
Qed.

(** Streaming SHA-256: however a message is cut into calls of [CSHA256::Write],
    [Finalize] returns the digest FIPS 180-4 defines for the whole message (padding,
    length field, block iteration), for messages below 2^61 - 72 bytes. *)
Theorem csha256_incremental parts : zlen (concat parts) + 72 < 2 ^ 61 ->
  CSHA256_Finalize (fold_left CSHA256_Write parts CSHA256_init) = sha256 (concat parts).
Proof.
  intros H. apply CSHA256_Finalize_spec; [|exact H].
  revert H. induction parts as [|x parts IH] using rev_ind; intros H; [apply sha_inv_init|].
  rewrite fold_left_app, concat_app in *. cbn [fold_left concat] in *. rewrite app_nil_r in *.
  rewrite zlen_app in H. apply CSHA256_Write_spec; [apply IH; lia|lia].
Qed.

(** The precomputed double hash: [TransformD64], with its folded padding schedules, is
    SHA-256 of SHA-256 of its 64 bytes, and [SHA256D64] run in place on a buffer
    (as [ComputeMerkleRoot] does) replaces the first [32 n] bytes by the double hashes of
    the first [n] 64-byte blocks, unaffected by the overlap of input and output. *)
Theorem sha256d64_inplace_double buf n : (64 * n <= length buf)%nat ->
  SHA256D64_inplace buf 0 n =
  concat (map (fun j => sha256 (sha256 (d64_block buf j))) (seq 0 n)) ++ drop (32 * n) buf.
Proof.
  intros Hl. rewrite SHA256D64_inplace_spec by lia. rewrite Nat.mul_0_r, take_0, Nat.add_0_l. cbn [app].
  assert (map (fun j => TransformD64 (d64_block buf j)) (seq 0 n) =
          map (fun j => sha256 (sha256 (d64_block buf j))) (seq 0 n)) as ->; [|done].
  apply map_ext_in. intros j Hj. apply in_seq in Hj. apply TransformD64_double.
  unfold d64_block. rewrite length_take, length_drop. lia.
Qed.

Lemma csha256_incremental_witness :
  CSHA256_Finalize (fold_left CSHA256_Write [[97]; [98; 99]] CSHA256_init) = sha256 [97; 98; 99].
Proof. apply (csha256_incremental [[97]; [98; 99]]). vm_compute. reflexivity. Defined.

Lemma sha256d64_inplace_double_witness :
  SHA256D64_inplace (replicate 128 7) 0 2 =
  concat (map (fun j => sha256 (sha256 (d64_block (replicate 128 7) j))) (seq 0 2)) ++ drop 64 (replicate 128 7).
Proof. apply (sha256d64_inplace_double (replicate 128 7) 2). vm_compute. lia. Defined.

(** The digest of [abc] given in FIPS 180-4. *)
Example sha256_abc :
  HexStr (CSHA256_Finalize (CSHA256_Write CSHA256_init [97; 98; 99])) =
  "ba7816bf8f01cfea414140de5dae2223b00361a396177a9cb410ff61f20015ad"%string.
Proof. vm_compute. reflexivity. Qed.
