(* ===== verification/MerkleDamgard.v ===== *)
(** * The streaming hashers

    [Write], [Finalize] and [Reset] of src/crypto/sha1.cpp,
    src/crypto/ripemd160.cpp and src/crypto/sha512.cpp, which are the same code
    around different compression functions.  The class [MDHash] is what
    distinguishes them: the size of a chunk and of the length at the end, the
    transformation of one chunk, the initial state, and the byte order of the
    length and of the result.  Fed in any pieces, such a hasher computes the
    iteration over the padded message. *)

From Stdlib Require Import ZArith Lia Bool.
From stdpp Require Import base list.
From S2P Require Import Prelude Uint256.
Local Open Scope Z_scope.
Local Open Scope adonai_scope.

Class MDHash := {
  md_block : Z;
  md_sizelen : Z;
  md_Transform : list Z -> list Z -> list Z;
  md_Initialize : list Z;
  md_WriteSize : Z -> list Z;
  md_store : list Z -> list Z;
  md_sizes : md_block = 64 /\ md_sizelen = 8 \/ md_block = 128 /\ md_sizelen = 16;
  md_WriteSize_len n : zlen (md_WriteSize n) = md_sizelen;
}.

(** the state, the buffer and the count of bytes *)
Record MDState : Type := { md_s : list Z; md_buf : list Z; md_bytes : Z }.

Section hasher.
Context `{MDHash}.

Definition md_new : MDState := {| md_s := md_Initialize; md_buf := zrep md_block 0; md_bytes := 0 |}.

(** [memcpy(buf + off, src, ...)] *)
Definition md_memcpy (dst : list Z) (off : Z) (src : list Z) : list Z := ztake off dst ++ src ++ zdrop (off + zlen src) dst.

(** [while (end - data >= md_block)]; the length of the data is enough fuel *)
Fixpoint md_chunks (fuel : nat) (self : MDState) (data : list Z) : MDState * list Z :=
  match fuel with
  | O => (self, data)
  | S fuel =>
      if zlen data >=? md_block
      then md_chunks fuel {| md_s := md_Transform (md_s self) (ztake md_block data); md_buf := md_buf self; md_bytes := u64 (md_bytes self + md_block) |} (zdrop md_block data)
      else (self, data)
  end.

Definition md_Write (self : MDState) (data : list Z) : MDState :=
  let bufsize := md_bytes self mod md_block in
  let '(self, data, bufsize) :=
    if negb (bufsize =? 0) && (bufsize + zlen data >=? md_block) then
      let buf := md_memcpy (md_buf self) bufsize (ztake (md_block - bufsize) data) in
      ({| md_s := md_Transform (md_s self) buf; md_buf := buf; md_bytes := u64 (md_bytes self + (md_block - bufsize)) |}, zdrop (md_block - bufsize) data, 0)
    else (self, data, bufsize) in
  let '(self, data) := md_chunks (length data) self data in
  if zlen data >? 0
  then {| md_s := md_s self; md_buf := md_memcpy (md_buf self) bufsize data; md_bytes := u64 (md_bytes self + zlen data) |}
  else self.

Definition md_pad : list Z := 0x80 :: replicate (Z.to_nat (md_block - 1)) 0.

(** the object after [Finalize] has written the padding and the length *)
Definition md_finish (self : MDState) : MDState :=
  let sizedesc := md_WriteSize (u64 (Z.shiftl (md_bytes self) 3)) in
  let self := md_Write self (ztake (1 + (2 * md_block - 1 - md_sizelen - md_bytes self mod md_block) mod md_block) md_pad) in
  md_Write self sizedesc.
Definition md_Finalize (self : MDState) : list Z := md_store (md_s (md_finish self)).
Definition md_Reset (self : MDState) : MDState := {| md_s := md_Initialize; md_buf := md_buf self; md_bytes := 0 |}.

(** ** Reference definition *)

(** the state after the whole chunks of a message *)
Fixpoint md_iterate (fuel : nat) (s msg : list Z) : list Z :=
  match fuel with
  | O => s
  | S fuel => if zlen msg <? md_block then s else md_iterate fuel (md_Transform s (ztake md_block msg)) (zdrop md_block msg)
  end.
Definition md_hash_from (s msg : list Z) : list Z := md_iterate (length msg) s msg.
Definition md_padding (n : Z) : list Z := 0x80 :: zrep ((md_block - 1 - md_sizelen - n) mod md_block) 0 ++ md_WriteSize (8 * n).
Definition md_hash (msg : list Z) : list Z := md_store (md_hash_from md_Initialize (msg ++ md_padding (zlen msg))).

Lemma md_block_pos : 64 <= md_block <= 128 /\ 8 <= md_sizelen <= 16 /\ md_sizelen < md_block.
Proof. destruct md_sizes as [[-> ->]|[-> ->]]; lia. Qed.

Lemma block_mod n : 0 <= n mod md_block < md_block.
Proof. apply Z.mod_pos_bound. destruct md_sizes as [[-> _]|[-> _]]; lia. Qed.

Lemma md_iterate_fuel n m s msg : (length msg <= n)%nat -> (length msg <= m)%nat -> md_iterate n s msg = md_iterate m s msg.
Proof.
  pose proof md_block_pos as HB. revert m s msg. induction n as [|n IH]; intros [|m] s msg Hn Hm; try done.
  1, 2: destruct msg; [cbn [md_iterate]; rewrite (proj2 (Z.ltb_lt _ _)) by (cbn; lia); done|cbn in *; lia].
  cbn [md_iterate]. case_bool; [done|]. apply IH; unfold zdrop; rewrite length_drop; lia.
Qed.

Lemma md_hash_from_short s msg : zlen msg < md_block -> md_hash_from s msg = s.
Proof. pose proof md_block_pos as HB. intros Hl. unfold md_hash_from. destruct msg as [|x msg]; [done|]. cbn [length md_iterate] in *. rewrite (proj2 (Z.ltb_lt _ _) Hl). done. Qed.

Lemma md_hash_from_step s b msg : zlen b = md_block -> md_hash_from s (b ++ msg) = md_hash_from (md_Transform s b) msg.
Proof.
  pose proof md_block_pos as HB. intros Hb. unfold md_hash_from. destruct (length (b ++ msg)) as [|n] eqn:En; [rewrite length_app in En; lia|].
  cbn [md_iterate]. rewrite (proj2 (Z.ltb_ge _ _)) by (rewrite zlen_app; lia). rewrite ztake_app, zdrop_app by lia. rewrite length_app in En. apply md_iterate_fuel; lia.
Qed.

(** ** Streaming *)

(** [c] has absorbed [msg]: whole chunks are in the state, the rest in the buffer *)
Definition md_inv (msg : list Z) (c : MDState) : Prop :=
  md_bytes c = zlen msg /\ zlen (md_buf c) = md_block /\
  forall rest, md_hash_from md_Initialize (msg ++ rest) = md_hash_from (md_s c) (ztake (zlen msg mod md_block) (md_buf c) ++ rest).

Lemma md_inv_new : md_inv [] md_new.
Proof. pose proof md_block_pos as HB. split_and!; [done|apply zlen_zrep; lia|]. intros rest. cbn [length]. rewrite Z.mod_0_l, ztake_0 by lia. done. Qed.

Lemma md_inv_reset msg c : md_inv msg c -> md_inv [] (md_Reset c).
Proof. pose proof md_block_pos as HB. intros (_ & Hbuf & _). split_and!; [done|exact Hbuf|]. intros rest. cbn [length]. rewrite Z.mod_0_l, ztake_0 by lia. done. Qed.

Lemma md_memcpy_len dst off src : 0 <= off -> off + zlen src <= md_block -> zlen dst = md_block -> zlen (md_memcpy dst off src) = md_block.
Proof. pose proof md_block_pos as HB. intros. unfold md_memcpy. zlens. lia. Qed.

Lemma md_memcpy_take dst off src : 0 <= off -> off + zlen src <= md_block -> zlen dst = md_block ->
  ztake (off + zlen src) (md_memcpy dst off src) = ztake off dst ++ src.
Proof. pose proof md_block_pos as HB. intros. unfold md_memcpy. rewrite app_assoc. apply ztake_app. zlens. lia. Qed.

Lemma mod_block_add n k : 0 <= n mod md_block + k < md_block -> (n + k) mod md_block = n mod md_block + k.
Proof. pose proof md_block_pos as HB. intros Hk. symmetry. apply (Z.mod_unique _ _ (n / md_block)); [lia|]. pose proof (Z.div_mod n md_block). lia. Qed.

(** the last [memcpy] *)
Lemma md_rest msg c data : md_inv msg c -> zlen msg mod md_block + zlen data < md_block -> zlen msg + zlen data < 2 ^ 64 ->
  md_inv (msg ++ data)
    (if zlen data >? 0 then {| md_s := md_s c; md_buf := md_memcpy (md_buf c) (zlen msg mod md_block) data; md_bytes := u64 (md_bytes c + zlen data) |} else c).
Proof.
  pose proof md_block_pos as HB. intros (Hb & Hbuf & Hcont) Hlt H64. pose proof (block_mod (zlen msg)).
  destruct (Z.gtb_spec (zlen data) 0) as [Hp|Hp].
  2:{ assert (data = []) as -> by (apply zlen_nil_inv; lia). rewrite app_nil_r. split_and!; assumption. }
  split_and!; cbn [md_bytes md_buf md_s].
  - rewrite zlen_app, Hb. apply wrap_small. unfold fits. lia.
  - apply md_memcpy_len; lia.
  - intros rest. rewrite zlen_app, mod_block_add, md_memcpy_take by lia. rewrite <- !app_assoc. apply Hcont.
Qed.

(** the loop over whole chunks, from an empty buffer *)
Lemma md_chunks_spec fuel msg c data : (length data <= fuel)%nat -> md_inv msg c -> zlen msg mod md_block = 0 -> zlen msg + zlen data < 2 ^ 64 ->
  exists pre c' data', md_chunks fuel c data = (c', data') /\ data = pre ++ data' /\ zlen data' < md_block /\ zlen (msg ++ pre) mod md_block = 0 /\ md_inv (msg ++ pre) c'.
Proof.
  pose proof md_block_pos as HB. revert msg c data. induction fuel as [|fuel IH]; intros msg c data Hf Hinv Hm H64.
  { assert (data = []) as -> by (destruct data; [done|cbn in Hf; lia]). exists [], c, []. rewrite (app_nil_r msg). split; [done|]. split; [done|]. split; [cbn; lia|]. done. }
  cbn [md_chunks]. destruct (Z.geb_spec (zlen data) md_block) as [Hge|Hlt].
  2:{ exists [], c, data. rewrite (app_nil_r msg). split_and!; done. }
  set (c1 := {| md_s := md_Transform (md_s c) (ztake md_block data); md_buf := md_buf c; md_bytes := u64 (md_bytes c + md_block) |}).
  assert (Ht : zlen (ztake md_block data) = md_block) by (apply zlen_ztake; lia). destruct Hinv as (Hb & Hbuf & Hcont).
  assert (Hmod : zlen (msg ++ ztake md_block data) mod md_block = 0).
  { rewrite zlen_app, Ht. replace (zlen msg + md_block) with (zlen msg + 1 * md_block) by lia. rewrite Z.mod_add by lia. done. }
  assert (Hinv1 : md_inv (msg ++ ztake md_block data) c1).
  { split_and!; cbn [c1 md_bytes md_buf md_s]; [|done|].
    - rewrite zlen_app, Ht, Hb. apply wrap_small. unfold fits. lia.
    - intros rest. rewrite Hmod, ztake_0, <- app_assoc, Hcont, Hm, ztake_0. cbn [app]. apply md_hash_from_step, Ht. }
  destruct (IH (msg ++ ztake md_block data) c1 (zdrop md_block data)) as (pre & c' & data' & E & Hd & Hl & Hm' & Hinv'); try done.
  { unfold zdrop. rewrite length_drop. lia. }
  { rewrite zlen_app, Ht, zlen_zdrop by lia. lia. }
  exists (ztake md_block data ++ pre), c', data'. rewrite app_assoc. split_and!; try done. rewrite <- app_assoc, <- Hd, ztake_zdrop. done.
Qed.

Lemma md_tail_spec msg c data : md_inv msg c -> zlen msg mod md_block = 0 -> zlen msg + zlen data < 2 ^ 64 ->
  md_inv (msg ++ data)
    (let '(self, data) := md_chunks (length data) c data in
     if zlen data >? 0 then {| md_s := md_s self; md_buf := md_memcpy (md_buf self) 0 data; md_bytes := u64 (md_bytes self + zlen data) |} else self).
Proof.
  pose proof md_block_pos as HB. intros Hinv Hm H64. destruct (md_chunks_spec (length data) msg c data) as (pre & c' & data' & -> & -> & Hl & Hm' & Hinv'); try done.
  rewrite app_assoc. rewrite zlen_app in H64. assert (Hl' : zlen (msg ++ pre) + zlen data' < 2 ^ 64) by (rewrite zlen_app; lia).
  pose proof (md_rest (msg ++ pre) c' data' Hinv' ltac:(lia) Hl') as Hr. rewrite Hm' in Hr. exact Hr.
Qed.

Lemma md_Write_spec msg c data : md_inv msg c -> zlen msg + zlen data < 2 ^ 64 -> md_inv (msg ++ data) (md_Write c data).
Proof.
  pose proof md_block_pos as HB. intros Hinv H64. pose proof Hinv as (Hb & Hbuf & Hcont). unfold md_Write. rewrite Hb.
  pose proof (block_mod (zlen msg)). set (b := zlen msg mod md_block) in *.
  destruct (Z.eqb_spec b 0) as [E|E]; cbn [negb andb].
  { rewrite E. apply md_tail_spec; done. }
  destruct (Z.geb_spec (b + zlen data) md_block) as [Hge|Hlt].
  2:{ replace (md_chunks (length data) c data) with (c, data).
      - apply md_rest; done.
      - destruct data as [|x data]; [done|]. assert (Hf : (zlen (x :: data) >=? md_block) = false) by (rewrite Z.geb_leb; apply Z.leb_gt; lia).
        cbn [length md_chunks] in *. rewrite Hf. done. }
  set (d0 := ztake (md_block - b) data). assert (Hd0 : zlen d0 = md_block - b) by (apply zlen_ztake; lia).
  assert (Hfull : md_memcpy (md_buf c) b d0 = ztake b (md_buf c) ++ d0).
  { rewrite <- (md_memcpy_take (md_buf c) b d0) by lia. rewrite ztake_all; [done|]. rewrite md_memcpy_len; lia. }
  rewrite <- (ztake_zdrop (md_block - b) data) at 1. rewrite app_assoc. fold d0.
  assert (Hmod : zlen (msg ++ d0) mod md_block = 0).
  { rewrite zlen_app, Hd0. symmetry. apply (Z.mod_unique _ _ (zlen msg / md_block + 1)); [lia|]. pose proof (Z.div_mod (zlen msg) md_block). unfold b. lia. }
  apply md_tail_spec; [|done|rewrite zlen_app, Hd0, zlen_zdrop by lia; lia]. split_and!; cbn [md_bytes md_buf md_s].
  - rewrite zlen_app, Hd0. apply wrap_small. unfold fits. lia.
  - apply md_memcpy_len; lia.
  - intros rest. rewrite Hmod, ztake_0, <- app_assoc, Hcont. fold b. rewrite app_assoc, <- Hfull. cbn [app].
    apply md_hash_from_step. apply md_memcpy_len; lia.
Qed.

Lemma md_padding_len n : 0 <= n -> (n + zlen (md_padding n)) mod md_block = 0.
Proof.
  pose proof md_block_pos as HB. intros Hn. unfold md_padding. cbn [length]. rewrite Nat2Z.inj_succ, zlen_app, zlen_zrep, md_WriteSize_len by (apply Z.mod_pos_bound; lia).
  replace (n + Z.succ ((md_block - 1 - md_sizelen - n) mod md_block + md_sizelen)) with ((n + 1 + md_sizelen) + (md_block - 1 - md_sizelen - n) mod md_block) by lia.
  rewrite Z.add_mod_idemp_r by lia. replace (n + 1 + md_sizelen + (md_block - 1 - md_sizelen - n)) with md_block by lia. apply Z.mod_same. lia.
Qed.

Lemma md_pad_take n : ztake (1 + (2 * md_block - 1 - md_sizelen - n mod md_block) mod md_block) md_pad = 0x80 :: zrep ((md_block - 1 - md_sizelen - n) mod md_block) 0.
Proof.
  pose proof md_block_pos as HB. pose proof (block_mod (md_block - 1 - md_sizelen - n)).
  replace ((2 * md_block - 1 - md_sizelen - n mod md_block) mod md_block) with ((md_block - 1 - md_sizelen - n) mod md_block)
    by (rewrite Zminus_mod_idemp_r; replace (2 * md_block - 1 - md_sizelen - n) with (md_block - 1 - md_sizelen - n + 1 * md_block) by lia; rewrite Z.mod_add by lia; done).
  unfold ztake, md_pad, zrep. set (k := (md_block - 1 - md_sizelen - n) mod md_block) in *. replace (Z.to_nat (1 + k)) with (S (Z.to_nat k)) by lia.
  rewrite firstn_cons. f_equal. rewrite take_replicate. f_equal. lia.
Qed.

Lemma md_finish_spec msg c : md_inv msg c -> zlen msg + 72 < 2 ^ 61 -> md_inv (msg ++ md_padding (zlen msg)) (md_finish c).
Proof.
  pose proof md_block_pos as HB. intros Hinv H61. pose proof Hinv as (Hb & _ & _). unfold md_finish. rewrite Hb, md_pad_take.
  pose proof (block_mod (md_block - 1 - md_sizelen - zlen msg)).
  rewrite Z.shiftl_mul_pow2 by lia. change (2 ^ 3) with 8. rewrite wrap_small by (unfold fits; lia). rewrite (Z.mul_comm (zlen msg)).
  unfold md_padding. rewrite app_comm_cons, app_assoc. apply md_Write_spec; [apply md_Write_spec; [exact Hinv|]|].
  - cbn [length]. rewrite Nat2Z.inj_succ, zlen_zrep by lia. lia.
  - rewrite md_WriteSize_len, zlen_app. cbn [length]. rewrite Nat2Z.inj_succ, zlen_zrep by lia. lia.
Qed.

Lemma md_Finalize_spec msg c : md_inv msg c -> zlen msg + 72 < 2 ^ 61 -> md_Finalize c = md_hash msg.
Proof.
  pose proof md_block_pos as HB. intros Hinv H61. unfold md_Finalize, md_hash. f_equal. destruct (md_finish_spec msg c Hinv H61) as (_ & _ & Hcont).
  specialize (Hcont []). rewrite !app_nil_r, zlen_app, md_padding_len, ztake_0 in Hcont by lia. rewrite Hcont.
  symmetry. apply md_hash_from_short. cbn. lia.
Qed.

(** one object for one message *)
Lemma md_one_shot msg : zlen msg + 72 < 2 ^ 61 -> md_Finalize (md_Write md_new msg) = md_hash msg.
Proof. pose proof md_block_pos as HB. intros Hl. apply md_Finalize_spec; [|done]. apply (md_Write_spec [] md_new msg md_inv_new). cbn. lia. Qed.

End hasher.
