(* ===== verification/Ripemd160.v ===== *)
(** * RIPEMD-160 and SHA-1

    src/crypto/ripemd160.cpp and src/crypto/sha1.cpp, the compression functions
    behind [OP_RIPEMD160], [OP_HASH160] and [OP_SHA1].  Both sources unroll their
    rounds: the rotating roles of [a..e] are a rotation of the state, which comes
    around every five rounds, and the arguments of the rounds are tables.  The
    streaming code around them is that of MerkleDamgard.v. *)

From Stdlib Require Import ZArith Lia Bool String.
From stdpp Require Import base list.
From S2P Require Import Prelude Uint256 MerkleDamgard.
Local Open Scope Z_scope.
Local Open Scope adonai_scope.

(** the five words of a state *)
Notation state5 := (Z * Z * Z * Z * Z)%type.
Definition words5 (s : list Z) : state5 := (s.[0%nat], s.[1%nat], s.[2%nat], s.[3%nat], s.[4%nat]).

Definition rol (x i : Z) : Z := Z.lor (u32 (Z.shiftl x i)) (Z.shiftr x (32 - i)).
Definition not32 (x : Z) : Z := Z.lxor x 0xffffffff.

(** the common initial state *)
Definition md160_Initialize : list Z := [0x67452301; 0xEFCDAB89; 0x98BADCFE; 0x10325476; 0xC3D2E1F0].

(** ** RIPEMD-160 *)

Definition rmd_f1 (x y z : Z) : Z := Z.lxor (Z.lxor x y) z.
Definition rmd_f2 (x y z : Z) : Z := Z.lor (Z.land x y) (Z.land (not32 x) z).
Definition rmd_f3 (x y z : Z) : Z := Z.lxor (Z.lor x (not32 y)) z.
Definition rmd_f4 (x y z : Z) : Z := Z.lor (Z.land x z) (Z.land y (not32 z)).
Definition rmd_f5 (x y z : Z) : Z := Z.lxor x (Z.lor y (not32 z)).

(** [Round], with the roles shifted for the next one *)
Definition rmd_Round (f : Z -> Z -> Z -> Z) (k : Z) (st : state5) (x r : Z) : state5 :=
  let '(a, b, c, d, e) := st in
  let a := u32 (rol (u32 (a + f b c d + x + k)) r + e) in
  let c := rol c 10 in
  (e, a, b, c, d).

(** [R11] to [R51] and [R12] to [R52] *)
Definition rmd_left : list (state5 -> Z -> Z -> state5) :=
  [rmd_Round rmd_f1 0; rmd_Round rmd_f2 0x5A827999; rmd_Round rmd_f3 0x6ED9EBA1; rmd_Round rmd_f4 0x8F1BBCDC; rmd_Round rmd_f5 0xA953FD4E].
Definition rmd_right : list (state5 -> Z -> Z -> state5) :=
  [rmd_Round rmd_f5 0x50A28BE6; rmd_Round rmd_f4 0x5C4DD124; rmd_Round rmd_f3 0x6D703EF3; rmd_Round rmd_f2 0x7A6D76E9; rmd_Round rmd_f1 0].

(** the word and the rotation of each call, sixteen to a row *)
Definition rmd_left_table : list (list (Z * Z)) := [
  [(0, 11); (1, 14); (2, 15); (3, 12); (4, 5); (5, 8); (6, 7); (7, 9); (8, 11); (9, 13); (10, 14); (11, 15); (12, 6); (13, 7); (14, 9); (15, 8)];
  [(7, 7); (4, 6); (13, 8); (1, 13); (10, 11); (6, 9); (15, 7); (3, 15); (12, 7); (0, 12); (9, 15); (5, 9); (2, 11); (14, 7); (11, 13); (8, 12)];
  [(3, 11); (10, 13); (14, 6); (4, 7); (9, 14); (15, 9); (8, 13); (1, 15); (2, 14); (7, 8); (0, 13); (6, 6); (13, 5); (11, 12); (5, 7); (12, 5)];
  [(1, 11); (9, 12); (11, 14); (10, 15); (0, 14); (8, 15); (12, 9); (4, 8); (13, 9); (3, 14); (7, 5); (15, 6); (14, 8); (5, 6); (6, 5); (2, 12)];
  [(4, 9); (0, 15); (5, 5); (9, 11); (7, 6); (12, 8); (2, 13); (10, 12); (14, 5); (1, 12); (3, 13); (8, 14); (11, 11); (6, 8); (15, 5); (13, 6)]].
Definition rmd_right_table : list (list (Z * Z)) := [
  [(5, 8); (14, 9); (7, 9); (0, 11); (9, 13); (2, 15); (11, 15); (4, 5); (13, 7); (6, 7); (15, 8); (8, 11); (1, 14); (10, 14); (3, 12); (12, 6)];
  [(6, 9); (11, 13); (3, 15); (7, 7); (0, 12); (13, 8); (5, 9); (10, 11); (14, 7); (15, 7); (8, 12); (12, 7); (4, 6); (9, 15); (1, 13); (2, 11)];
  [(15, 9); (5, 7); (1, 15); (3, 11); (7, 8); (14, 6); (6, 6); (9, 14); (11, 12); (8, 13); (12, 5); (2, 14); (10, 13); (0, 13); (4, 7); (13, 5)];
  [(8, 15); (6, 5); (4, 8); (1, 11); (3, 14); (11, 14); (15, 6); (0, 14); (5, 6); (12, 9); (2, 12); (13, 9); (9, 12); (7, 5); (10, 15); (14, 8)];
  [(12, 8); (15, 5); (10, 12); (4, 9); (1, 12); (5, 5); (8, 14); (7, 6); (6, 8); (2, 13); (13, 6); (14, 5); (0, 15); (3, 13); (9, 11); (11, 11)]].

Definition rmd_line (w : list Z) (rounds : list (state5 -> Z -> Z -> state5)) (table : list (list (Z * Z))) (st : state5) : state5 :=
  foldl (fun st '(round, row) => foldl (fun st '(i, r) => round st w.[Z.to_nat i] r) st row) st (zip rounds table).

Definition rmd_Transform (s chunk : list Z) : list Z :=
  let w := map (fun i => ReadLE32 (drop (i * 4) chunk)) (seq 0 16) in
  let '(a1, b1, c1, d1, e1) := rmd_line w rmd_left rmd_left_table (words5 s) in
  let '(a2, b2, c2, d2, e2) := rmd_line w rmd_right rmd_right_table (words5 s) in
  [u32 (s.[1%nat] + c1 + d2); u32 (s.[2%nat] + d1 + e2); u32 (s.[3%nat] + e1 + a2); u32 (s.[4%nat] + a1 + b2); u32 (s.[0%nat] + b1 + c2)].

Lemma WriteLE64_len n : zlen (WriteLE64 n) = 8.
Proof. unfold WriteLE64. rewrite (proj1 (WriteLE_ok 8 _)). done. Qed.

Definition CRIPEMD160 : MDHash := {|
  md_block := 64;
  md_sizelen := 8;
  md_Transform := rmd_Transform;
  md_Initialize := md160_Initialize;
  md_WriteSize := WriteLE64;
  md_store := flat_map WriteLE32;
  md_sizes := or_introl (conj eq_refl eq_refl);
  md_WriteSize_len := WriteLE64_len;
|}.

(** ** SHA-1 *)

Definition sha1_f1 (b c d : Z) : Z := Z.lxor d (Z.land b (Z.lxor c d)).
Definition sha1_f2 (b c d : Z) : Z := Z.lxor (Z.lxor b c) d.
Definition sha1_f3 (b c d : Z) : Z := Z.lor (Z.land b c) (Z.land d (Z.lor b c)).
Definition sha1_left (x : Z) : Z := rol x 1.

Definition sha1_k1 : Z := 0x5A827999.
Definition sha1_k2 : Z := 0x6ED9EBA1.
Definition sha1_k3 : Z := 0x8F1BBCDC.
Definition sha1_k4 : Z := 0xCA62C1D6.

(** [Round], with the roles shifted for the next one *)
Definition sha1_Round (f : Z -> Z -> Z -> Z) (k : Z) (st : state5) (w : Z) : state5 :=
  let '(a, b, c, d, e) := st in
  let e := u32 (e + (rol a 5 + f b c d + k + w)) in
  let b := rol b 30 in
  (e, a, b, c, d).

(** the function and the constant of round [i]: twenty rounds each *)
Definition sha1_round (i : nat) : state5 -> Z -> state5 :=
  if (i <? 20)%nat then sha1_Round sha1_f1 sha1_k1
  else if (i <? 40)%nat then sha1_Round sha1_f2 sha1_k2
  else if (i <? 60)%nat then sha1_Round sha1_f3 sha1_k3
  else sha1_Round sha1_f2 sha1_k4.

(** round [i]: from the sixteenth on, the word replaces [w(i mod 16)] by the rotated sum of four words *)
Definition sha1_step (chunk : list Z) (sw : state5 * list Z) (i : nat) : state5 * list Z :=
  let '(st, w) := sw in
  let x := if (i <? 16)%nat then ReadBE32 (drop (i * 4) chunk)
           else sha1_left (Z.lxor (Z.lxor (Z.lxor w.[(i mod 16)%nat] w.[((i + 13) mod 16)%nat]) w.[((i + 8) mod 16)%nat]) w.[((i + 2) mod 16)%nat]) in
  (sha1_round i st x, <[(i mod 16)%nat := x]> w).

Definition sha1_Transform (s chunk : list Z) : list Z :=
  let '(a, b, c, d, e) := (foldl (sha1_step chunk) (words5 s, replicate 16 0) (seq 0 80)).1 in
  [u32 (s.[0%nat] + a); u32 (s.[1%nat] + b); u32 (s.[2%nat] + c); u32 (s.[3%nat] + d); u32 (s.[4%nat] + e)].

Lemma WriteBE64_len n : zlen (WriteBE64 n) = 8.
Proof. unfold WriteBE64. rewrite (proj1 (WriteBE_ok 8 _)). done. Qed.

Definition CSHA1 : MDHash := {|
  md_block := 64;
  md_sizelen := 8;
  md_Transform := sha1_Transform;
  md_Initialize := md160_Initialize;
  md_WriteSize := WriteBE64;
  md_store := flat_map WriteBE32;
  md_sizes := or_introl (conj eq_refl eq_refl);
  md_WriteSize_len := WriteBE64_len;
|}.

(** ** One-shot hashing, as the interpreter calls it *)

Definition ripemd160 (msg : list Z) : list Z := @md_Finalize CRIPEMD160 (@md_Write CRIPEMD160 (@md_new CRIPEMD160) msg).
Definition sha1 (msg : list Z) : list Z := @md_Finalize CSHA1 (@md_Write CSHA1 (@md_new CSHA1) msg).

Lemma md_hash_words (h : MDHash) s msg : length s = 5%nat -> (forall s c, length (md_Transform s c) = 5%nat) -> length (md_hash_from s msg) = 5%nat.
Proof.
  intros Hs Ht. unfold md_hash_from. generalize (length msg) as fuel. intros fuel. revert s msg Hs.
  induction fuel as [|fuel IH]; intros s msg Hs; cbn [md_iterate]; [done|]. case_match; [done|]. apply IH, Ht.
Qed.

Lemma rmd_Transform_len s c : length (rmd_Transform s c) = 5%nat.
Proof. unfold rmd_Transform. destruct (rmd_line _ _ _ _) as [[[[]]]], (rmd_line _ _ _ _) as [[[[]]]]. done. Qed.

Lemma sha1_Transform_len s c : length (sha1_Transform s c) = 5%nat.
Proof. unfold sha1_Transform. destruct (foldl _ _ _).1 as [[[[]]]]. done. Qed.

Lemma flat_map_len (f : Z -> list Z) k l : (forall x, length (f x) = k) -> length (flat_map f l) = (k * length l)%nat.
Proof. intros Hf. induction l as [|x l IH]; cbn [flat_map length]; [lia|]. rewrite length_app, Hf, IH. lia. Qed.

Lemma md_updates `{MDHash} updates msg c : md_inv msg c -> zlen (msg ++ concat updates) < 2 ^ 64 ->
  md_inv (msg ++ concat updates) (foldl md_Write c updates).
Proof.
  revert msg c. induction updates as [|d updates IH]; intros msg c Hinv Hl; cbn [foldl concat] in *; [rewrite app_nil_r; done|].
  rewrite app_assoc in *. pose proof (zlen_nonneg (concat updates)). rewrite zlen_app in Hl. apply IH; [|rewrite zlen_app; lia].
  apply md_Write_spec; [done|]. rewrite zlen_app in Hl. lia.
Qed.

Lemma digest_len (h : MDHash) msg : h = CRIPEMD160 \/ h = CSHA1 -> length (md_hash msg) = 20%nat.
Proof.
  intros [-> | ->]; unfold md_hash; cbn [md_store CRIPEMD160 CSHA1].
  - rewrite (flat_map_len WriteLE32 4) by (intros x; apply (proj1 (WriteLE_ok 4 x))).
    rewrite md_hash_words; [done|done|apply rmd_Transform_len].
  - rewrite (flat_map_len WriteBE32 4) by (intros x; apply (proj1 (WriteBE_ok 4 x))).
    rewrite md_hash_words; [done|done|apply sha1_Transform_len].
Qed.

Lemma ripemd160_spec msg : zlen msg + 72 < 2 ^ 61 -> ripemd160 msg = @md_hash CRIPEMD160 msg.
Proof. apply md_one_shot. Qed.

Lemma sha1_spec msg : zlen msg + 72 < 2 ^ 61 -> sha1 msg = @md_hash CSHA1 msg.
Proof. apply md_one_shot. Qed.

(** ** Properties *)

(** Streaming: whatever pieces a message is written in, [CRIPEMD160] and [CSHA1] return the iteration of their compression function over
    the padded message, which is twenty bytes, and a reset object starts afresh. *)
Theorem md160_incremental (h : MDHash) (old : MDState) (updates0 updates : list (list Z)) :
  h = CRIPEMD160 \/ h = CSHA1 -> zlen (concat updates0) < 2 ^ 64 -> zlen (concat updates) + 72 < 2 ^ 61 ->
  old = foldl md_Write md_new updates0 ->
  md_Finalize (foldl md_Write (md_Reset old) updates) = md_hash (concat updates) /\ length (md_hash (concat updates)) = 20%nat.
Proof.
  intros Hh H0 Hl ->. split; [|apply digest_len, Hh]. apply md_Finalize_spec; [|done].
  apply (md_updates updates [] _); [|cbn [app]; lia]. apply (md_inv_reset (concat updates0)). apply (md_updates updates0 [] md_new md_inv_new). exact H0.
Qed.

Lemma md160_incremental_witness :
  @md_Finalize CRIPEMD160 (foldl (@md_Write CRIPEMD160) (@md_Reset CRIPEMD160 (@md_new CRIPEMD160)) [[0x61]; [0x62; 0x63]]) =
    [0x8e; 0xb2; 0x08; 0xf7; 0xe0; 0x5d; 0x98; 0x7a; 0x9b; 0x04; 0x4a; 0x8e; 0x98; 0xc6; 0xb0; 0x87; 0xf1; 0x5a; 0x0b; 0xfc].
Proof.
  destruct (md160_incremental CRIPEMD160 (@md_new CRIPEMD160) [] [[0x61]; [0x62; 0x63]]) as [-> _]; [left; reflexivity|reflexivity|reflexivity|reflexivity|].
  vm_compute. reflexivity.
Defined.
