(* ===== verification/Sha512.v ===== *)
(** * SHA-512, HMAC-SHA-512 and the BIP 32 hash

    src/crypto/sha512.cpp as an instance of the streaming hashers,
    src/crypto/hmac_sha512.cpp on top of it, and [BIP32Hash] of src/hash.cpp, which
    derives child keys and chain codes. *)

From Stdlib Require Import ZArith Lia Bool.
From stdpp Require Import base list.
From S2P Require Import Prelude Uint256 Sha256 MerkleDamgard Ripemd160.
Local Open Scope Z_scope.
Local Open Scope adonai_scope.

(** ** SHA-512; [Ch] and [Maj] are those of SHA-256 on wider words *)

Definition rot64 (x r l : Z) : Z := Z.lor (Z.shiftr x r) (u64 (Z.shiftl x l)).
Definition sha512_Sigma0 (x : Z) : Z := Z.lxor (Z.lxor (rot64 x 28 36) (rot64 x 34 30)) (rot64 x 39 25).
Definition sha512_Sigma1 (x : Z) : Z := Z.lxor (Z.lxor (rot64 x 14 50) (rot64 x 18 46)) (rot64 x 41 23).
Definition sha512_sigma0 (x : Z) : Z := Z.lxor (Z.lxor (rot64 x 1 63) (rot64 x 8 56)) (Z.shiftr x 7).
Definition sha512_sigma1 (x : Z) : Z := Z.lxor (Z.lxor (rot64 x 19 45) (rot64 x 61 3)) (Z.shiftr x 6).

(** [Round], with the roles shifted for the next one *)
Definition sha512_Round (st : list Z) (k w : Z) : list Z :=
  let '(a, b, c, d) := (st.[0%nat], st.[1%nat], st.[2%nat], st.[3%nat]) in
  let '(e, f, g, h) := (st.[4%nat], st.[5%nat], st.[6%nat], st.[7%nat]) in
  let t1 := u64 (h + sha512_Sigma1 e + Ch e f g + k + w) in
  let t2 := u64 (sha512_Sigma0 a + Maj a b c) in
  [u64 (t1 + t2); a; b; c; u64 (d + t1); e; f; g].

Definition sha512_Initialize : list Z := [
  0x6a09e667f3bcc908; 0xbb67ae8584caa73b; 0x3c6ef372fe94f82b; 0xa54ff53a5f1d36f1;
  0x510e527fade682d1; 0x9b05688c2b3e6c1f; 0x1f83d9abfb41bd6b; 0x5be0cd19137e2179].

Definition K512 : list Z := concat [
  [0x428a2f98d728ae22; 0x7137449123ef65cd; 0xb5c0fbcfec4d3b2f; 0xe9b5dba58189dbbc];
  [0x3956c25bf348b538; 0x59f111f1b605d019; 0x923f82a4af194f9b; 0xab1c5ed5da6d8118];
  [0xd807aa98a3030242; 0x12835b0145706fbe; 0x243185be4ee4b28c; 0x550c7dc3d5ffb4e2];
  [0x72be5d74f27b896f; 0x80deb1fe3b1696b1; 0x9bdc06a725c71235; 0xc19bf174cf692694];
  [0xe49b69c19ef14ad2; 0xefbe4786384f25e3; 0x0fc19dc68b8cd5b5; 0x240ca1cc77ac9c65];
  [0x2de92c6f592b0275; 0x4a7484aa6ea6e483; 0x5cb0a9dcbd41fbd4; 0x76f988da831153b5];
  [0x983e5152ee66dfab; 0xa831c66d2db43210; 0xb00327c898fb213f; 0xbf597fc7beef0ee4];
  [0xc6e00bf33da88fc2; 0xd5a79147930aa725; 0x06ca6351e003826f; 0x142929670a0e6e70];
  [0x27b70a8546d22ffc; 0x2e1b21385c26c926; 0x4d2c6dfc5ac42aed; 0x53380d139d95b3df];
  [0x650a73548baf63de; 0x766a0abb3c77b2a8; 0x81c2c92e47edaee6; 0x92722c851482353b];
  [0xa2bfe8a14cf10364; 0xa81a664bbc423001; 0xc24b8b70d0f89791; 0xc76c51a30654be30];
  [0xd192e819d6ef5218; 0xd69906245565a910; 0xf40e35855771202a; 0x106aa07032bbd1b8];
  [0x19a4c116b8d2d0c8; 0x1e376c085141ab53; 0x2748774cdf8eeb99; 0x34b0bcb5e19b48a8];
  [0x391c0cb3c5c95a63; 0x4ed8aa4ae3418acb; 0x5b9cca4f7763e373; 0x682e6ff3d6b2b8a3];
  [0x748f82ee5defb2fc; 0x78a5636f43172f60; 0x84c87814a1f0ab72; 0x8cc702081a6439ec];
  [0x90befffa23631e28; 0xa4506cebde82bde9; 0xbef9a3f7b2c67915; 0xc67178f2e372532b];
  [0xca273eceea26619c; 0xd186b8c721c0c207; 0xeada7dd6cde0eb1e; 0xf57d4f7fee6ed178];
  [0x06f067aa72176fba; 0x0a637dc5a2c898a6; 0x113f9804bef90dae; 0x1b710b35131c471b];
  [0x28db77f523047d84; 0x32caab7b40c72493; 0x3c9ebe0a15c9bebc; 0x431d67c49c100d4c];
  [0x4cc5d4becb3e42b6; 0x597f299cfc657e2a; 0x5fcb6fab3ad6faec; 0x6c44198c4a475817]].

(** round [i]: the word of the chunk, or the word that replaces [w(i mod 16)]; the roles of [a..h] come around every eight rounds *)
Definition sha512_step (chunk : list Z) (sw : list Z * list Z) (i : nat) : list Z * list Z :=
  let '(st, w) := sw in
  let x := if (i <? 16)%nat then ReadBE64 (drop (i * 8) chunk)
           else u64 (w.[ring i] + (sha512_sigma1 w.[ring (i + 14)] + w.[ring (i + 9)] + sha512_sigma0 w.[ring (i + 1)])) in
  (sha512_Round st K512.[i] x, <[ring i := x]> w).

Definition sha512_Transform (s chunk : list Z) : list Z :=
  zip_with (fun x y => u64 (x + y)) s (foldl (sha512_step chunk) (s, replicate 16 0) (seq 0 80)).1.

(** [sizedesc]: eight zero bytes and the number of bits *)
Definition sha512_sizedesc (n : Z) : list Z := zrep 8 0 ++ WriteBE64 n.
Lemma sha512_sizedesc_len n : zlen (sha512_sizedesc n) = 16.
Proof. unfold sha512_sizedesc. rewrite zlen_app, WriteBE64_len. done. Qed.

Definition CSHA512 : MDHash := {|
  md_block := 128;
  md_sizelen := 16;
  md_Transform := sha512_Transform;
  md_Initialize := sha512_Initialize;
  md_WriteSize := sha512_sizedesc;
  md_store := flat_map WriteBE64;
  md_sizes := or_intror (conj eq_refl eq_refl);
  md_WriteSize_len := sha512_sizedesc_len;
|}.

(** ** HMAC-SHA-512 *)

Record CHMAC_SHA512 : Type := { hmac_outer : MDState; hmac_inner : MDState }.

Definition xor_bytes (rkey : list Z) (c : Z) : list Z := map (fun b => Z.lxor b c) rkey.

Definition CHMAC_SHA512_new (key : list Z) : CHMAC_SHA512 :=
  let rkey :=
    if zlen key <=? 128 then key ++ zrep (128 - zlen key) 0
    else @md_Finalize CSHA512 (@md_Write CSHA512 (@md_new CSHA512) key) ++ zrep 64 0 in
  let rkey := xor_bytes rkey 0x5c in
  let outer := @md_Write CSHA512 (@md_new CSHA512) rkey in
  let rkey := xor_bytes rkey (Z.lxor 0x5c 0x36) in
  {| hmac_outer := outer; hmac_inner := @md_Write CSHA512 (@md_new CSHA512) rkey |}.
Definition CHMAC_SHA512_Write (self : CHMAC_SHA512) (data : list Z) : CHMAC_SHA512 :=
  {| hmac_outer := hmac_outer self; hmac_inner := @md_Write CSHA512 (hmac_inner self) data |}.
Definition CHMAC_SHA512_Finalize (self : CHMAC_SHA512) : list Z :=
  let temp := @md_Finalize CSHA512 (hmac_inner self) in
  @md_Finalize CSHA512 (@md_Write CSHA512 (hmac_outer self) temp).

(** ** BIP 32 *)

(** the cast of [&child] to a pointer to bytes: the integer as it lies in memory *)
Definition object_bytes (little_endian : bool) (child : Z) : list Z := if little_endian then WriteLE 4 child else WriteBE 4 child.

(** 64 bytes: the tweak and the child's chain code *)
Definition BIP32Hash (little_endian : bool) (chainCode : list Z) (child header : Z) (data : list Z) : list Z :=
  CHMAC_SHA512_Finalize (CHMAC_SHA512_Write (CHMAC_SHA512_Write (CHMAC_SHA512_Write (CHMAC_SHA512_new chainCode) [header]) (ztake 32 data))
    (object_bytes little_endian child)).

(** ** Reference definitions *)

Definition sha512 (msg : list Z) : list Z := @md_hash CSHA512 msg.
(** RFC 2104 with 128-byte blocks *)
Definition hmac_key (key : list Z) : list Z := if zlen key <=? 128 then key ++ zrep (128 - zlen key) 0 else sha512 key ++ zrep 64 0.
Definition hmac_sha512 (key msg : list Z) : list Z :=
  sha512 (xor_bytes (hmac_key key) 0x5c ++ sha512 (xor_bytes (hmac_key key) 0x36 ++ msg)).

Lemma sha512_words s msg : length s = 8%nat -> length (@md_hash_from CSHA512 s msg) = 8%nat.
Proof.
  unfold md_hash_from. generalize (length msg) as fuel. intros fuel. revert s msg. induction fuel as [|fuel IH]; intros s msg Hs; cbn [md_iterate]; [done|].
  case_match; [done|]. apply IH. cbn [md_Transform CSHA512]. unfold sha512_Transform. rewrite length_zip_with, Hs.
  assert (Hrun : forall idx c sw, length sw.1 = 8%nat -> length (foldl (sha512_step c) sw idx).1 = 8%nat).
  { clear. intros idx c. induction idx as [|i idx IH]; intros [st w] Hst; [exact Hst|]. cbn [foldl]. apply IH. done. }
  rewrite Hrun; [done|exact Hs].
Qed.

Lemma sha512_len msg : zlen (sha512 msg) = 64.
Proof.
  unfold sha512, md_hash. cbn [md_store CSHA512]. rewrite (flat_map_len WriteBE64 8) by (intros x; apply (proj1 (WriteBE_ok 8 x))).
  rewrite sha512_words; done.
Qed.

Lemma hmac_key_len key : zlen (hmac_key key) = 128.
Proof.
  unfold hmac_key. pose proof (zlen_nonneg key). case_bool; rewrite zlen_app, zlen_zrep by lia; [lia|]. rewrite sha512_len. done.
Qed.

Lemma xor_bytes_len l c : zlen (xor_bytes l c) = zlen l.
Proof. unfold xor_bytes. rewrite length_map. done. Qed.

Lemma xor_bytes_twice l a b : xor_bytes (xor_bytes l a) (Z.lxor a b) = xor_bytes l b.
Proof.
  unfold xor_bytes. rewrite map_map. apply map_ext. intros x. rewrite Z.lxor_assoc, <- (Z.lxor_assoc a a b), Z.lxor_nilpotent, Z.lxor_0_l. done.
Qed.

(** [c] has absorbed [msg] under [key]. *)
Definition hmac_inv (key msg : list Z) (c : CHMAC_SHA512) : Prop :=
  @md_inv CSHA512 (xor_bytes (hmac_key key) 0x5c) (hmac_outer c) /\ @md_inv CSHA512 (xor_bytes (hmac_key key) 0x36 ++ msg) (hmac_inner c).

Lemma hmac_inv_new key : zlen key + 72 < 2 ^ 61 -> hmac_inv key [] (CHMAC_SHA512_new key).
Proof.
  intros Hl. unfold CHMAC_SHA512_new. rewrite (@md_one_shot CSHA512 key Hl). fold (sha512 key). fold (hmac_key key). rewrite xor_bytes_twice.
  assert (Hlen : forall c, zlen (@nil Z) + zlen (xor_bytes (hmac_key key) c) < 2 ^ 64) by (intros c; rewrite xor_bytes_len, hmac_key_len; done).
  split; cbn [hmac_outer hmac_inner]; rewrite ?app_nil_r; apply (@md_Write_spec CSHA512 [] _ _ (@md_inv_new CSHA512) (Hlen _)).
Qed.

Lemma hmac_inv_write key msg c data : hmac_inv key msg c -> zlen msg + zlen data < 2 ^ 61 -> hmac_inv key (msg ++ data) (CHMAC_SHA512_Write c data).
Proof.
  intros [Ho Hi] Hl. split; [exact Ho|]. cbn [CHMAC_SHA512_Write hmac_inner]. rewrite app_assoc. apply (@md_Write_spec CSHA512); [exact Hi|].
  rewrite zlen_app, xor_bytes_len, hmac_key_len. lia.
Qed.

Lemma hmac_Finalize_spec key msg c : hmac_inv key msg c -> zlen msg + 200 < 2 ^ 61 -> CHMAC_SHA512_Finalize c = hmac_sha512 key msg.
Proof.
  intros [Ho Hi] Hl. unfold CHMAC_SHA512_Finalize, hmac_sha512.
  rewrite (@md_Finalize_spec CSHA512 _ _ Hi) by (rewrite zlen_app, xor_bytes_len, hmac_key_len; lia).
  fold (sha512 (xor_bytes (hmac_key key) 0x36 ++ msg)). pose proof (sha512_len (xor_bytes (hmac_key key) 0x36 ++ msg)) as Hs.
  apply (@md_Finalize_spec CSHA512); [apply (@md_Write_spec CSHA512); [exact Ho|]|]; rewrite ?zlen_app, xor_bytes_len, hmac_key_len, Hs; lia.
Qed.

Lemma hmac_updates key updates msg c : hmac_inv key msg c -> zlen (msg ++ concat updates) < 2 ^ 61 ->
  hmac_inv key (msg ++ concat updates) (foldl CHMAC_SHA512_Write c updates).
Proof.
  revert msg c. induction updates as [|d updates IH]; intros msg c Hinv Hl; cbn [foldl concat] in *; [rewrite app_nil_r; done|].
  rewrite app_assoc in *. pose proof (zlen_nonneg (concat updates)). rewrite zlen_app in Hl. apply IH; [|rewrite zlen_app; lia].
  apply hmac_inv_write; [done|]. rewrite zlen_app in Hl. lia.
Qed.

(** ** Properties *)

(** [CHMAC_SHA512] fed in any pieces computes HMAC with SHA-512 of RFC 2104: the hash of the key xor 0x5c and of the hash of the key
    xor 0x36 and the message, for keys of any length (a key of more than 128 bytes is hashed first), in 64 bytes. *)
Theorem hmac_sha512_incremental (key : list Z) (updates : list (list Z)) :
  zlen key + 72 < 2 ^ 61 -> zlen (concat updates) + 200 < 2 ^ 61 ->
  CHMAC_SHA512_Finalize (foldl CHMAC_SHA512_Write (CHMAC_SHA512_new key) updates) = hmac_sha512 key (concat updates) /\
  zlen (hmac_sha512 key (concat updates)) = 64.
Proof.
  intros Hk Hl. split; [|apply sha512_len]. apply hmac_Finalize_spec; [|exact Hl].
  apply (hmac_updates key updates [] _ (hmac_inv_new key Hk)). cbn [app]. lia.
Qed.

(** the chain code and the key of the first test vector of BIP 32, and the chain code of its child 0' *)
Definition vector_bytes (z : Z) : list Z := rev (split_digits 8 32 z).
Definition vector_chaincode : list Z := vector_bytes 0x873dff81c02f525623fd1fe5167eac3a55a049de3d314bb42ee227ffed37d508.
Definition vector_key : list Z := vector_bytes 0xe8f32e723decf4051aefac8e2c93c9c5b214313817cdb01a1494b917c8436b35.
Definition vector_child : list Z := vector_bytes 0x47fdacbd0f1097043b78c63c20c34ef4ed9a111d980047ad16282c7ae6236141.

(** [BIP32Hash] is HMAC-SHA-512 of the header, the key and the child index as it lies in memory, where BIP 32 has the index most
    significant byte first: a machine with the least significant byte first derives another chain code than the first test vector of BIP 32
    for the child 0', and one with the most significant byte first derives that of the vector. *)
Theorem bip32_index_order (le : bool) (cc : list Z) (child header : Z) (data : list Z) : zlen cc = 32 -> zlen data = 32 ->
  BIP32Hash le cc child header data = hmac_sha512 cc ([header] ++ data ++ object_bytes le child) /\
  zdrop 32 (BIP32Hash true vector_chaincode (2 ^ 31) 0 vector_key) <> vector_child /\
  zdrop 32 (BIP32Hash false vector_chaincode (2 ^ 31) 0 vector_key) = vector_child.
Proof.
  intros Hc Hd. split; [|split; [vm_compute; discriminate|vm_compute; reflexivity]].
  unfold BIP32Hash. rewrite ztake_all by lia.
  assert (Ho : zlen (object_bytes le child) = 4) by (destruct le; [apply (f_equal Z.of_nat (proj1 (WriteLE_ok 4 child)))|apply (f_equal Z.of_nat (proj1 (WriteBE_ok 4 child)))]).
  pose proof (hmac_updates cc [[header]; data; object_bytes le child] [] _ (hmac_inv_new cc ltac:(lia))) as Hu.
  cbn [foldl concat] in Hu. rewrite !app_nil_r in Hu. cbn [app] in Hu. cbn [app]. apply hmac_Finalize_spec.
  - apply Hu. cbn [length]. rewrite length_app. lia.
  - cbn [length]. rewrite length_app. lia.
Qed.

Lemma hmac_sha512_incremental_witness : CHMAC_SHA512_Finalize (foldl CHMAC_SHA512_Write (CHMAC_SHA512_new [1; 2]) [[3]; [4; 5]]) = hmac_sha512 [1; 2] [3; 4; 5].
Proof. apply (hmac_sha512_incremental [1; 2] [[3]; [4; 5]]); reflexivity. Defined.

Lemma bip32_index_order_witness : BIP32Hash true vector_chaincode 1 2 vector_key = hmac_sha512 vector_chaincode ([2] ++ vector_key ++ [1; 0; 0; 0]).
Proof. apply (bip32_index_order true vector_chaincode 1 2 vector_key); reflexivity. Defined.
