(* ===== verification/Hashes.v ===== *)
(** * Hash wrappers

    src/hash.h and src/hash.cpp over the two hash functions of the chain:
    [CHash256] and [Hash] (one BLAKE3), [HashWriter] (double SHA-256), the
    tagged hashes, and MurmurHash3.  The SIMD degree of BLAKE3 comes from the
    features of the processor, the class [Cpu]; no hash depends on it. *)

From Stdlib Require Import ZArith Lia Bool.
From stdpp Require Import base option list.
From S2P Require Import Prelude Uint256 Blake3 Blake3Spec Blake3Hasher Sha256 Sha256Proofs MerkleDamgard Ripemd160.
Local Open Scope Z_scope.
Local Open Scope adonai_scope.

(** ** The processor *)

(** The features [get_cpu_features] reports that the dispatcher asks for. *)
Class Cpu := { AVX2 : bool; SSE41 : bool; SSE2 : bool }.

Definition blake3_simd_degree `{Cpu} : Z :=
  if AVX2 then 8 else if SSE41 then 4 else if SSE2 then 4 else 1.

(** A processor with none of the features. *)
Definition portable_cpu : Cpu := {| AVX2 := false; SSE41 := false; SSE2 := false |}.

(** ** Hash: BLAKE3 *)

Section hash256.
Context `{Cpu}.

Definition CHash256 : Type := list Z.
Definition CHash256_Write (buffer : CHash256) (data : list Z) : CHash256 := buffer ++ data.
Definition CHash256_Reset (buffer : CHash256) : CHash256 := [].
(** the digest, and the object after the call *)
Definition CHash256_Finalize (buffer : CHash256) : list Z * CHash256 :=
  let hasher := blake3_hasher_update blake3_simd_degree blake3_hasher_init buffer in
  (blake3_hasher_finalize hasher BLAKE3_OUT_LEN, CHash256_Reset buffer).

Definition Hash (in1 : list Z) : uint256 := (CHash256_Finalize (CHash256_Write [] in1)).1.
Definition Hash_pair (in1 in2 : list Z) : uint256 := (CHash256_Finalize (CHash256_Write (CHash256_Write [] in1) in2)).1.

End hash256.

(** ** [CHash160]: RIPEMD-160 of SHA-256 *)

Notation CHash160 := CSHA256.
Definition CHash160_Write (sha : CHash160) (input : list Z) : CHash160 := CSHA256_Write sha input.
Definition CHash160_Finalize (sha : CHash160) : list Z := ripemd160 (CSHA256_Finalize sha).
Definition CHash160_Reset (sha : CHash160) : CHash160 := CSHA256_Reset sha.
Definition Hash160 (in1 : list Z) : list Z := CHash160_Finalize (CHash160_Write CSHA256_init in1).

(** ** HashWriter: double SHA-256 *)

Record HashWriter : Type := { hw_ctx : CSHA256 }.
Definition HashWriter_init : HashWriter := {| hw_ctx := CSHA256_init |}.
Definition HashWriter_write (w : HashWriter) (src : list Z) : HashWriter := {| hw_ctx := CSHA256_Write (hw_ctx w) src |}.
Definition HashWriter_GetHash (w : HashWriter) : uint256 :=
  let ctx := CSHA256_finish (hw_ctx w) in
  let result := store_be (sha_s ctx) in
  CSHA256_Finalize (CSHA256_Write (CSHA256_Reset ctx) result).
Definition HashWriter_GetSHA256 (w : HashWriter) : uint256 := CSHA256_Finalize (hw_ctx w).
Definition HashWriter_GetCheapHash (w : HashWriter) : Z := ReadLE 8 (HashWriter_GetHash w).

Definition SHA256Uint256 (input : uint256) : uint256 := CSHA256_Finalize (CSHA256_Write CSHA256_init input).

(** [tag] as its bytes *)
Definition TaggedHash (tag : list Z) : HashWriter :=
  let taghash := CSHA256_Finalize (CSHA256_Write CSHA256_init tag) in
  HashWriter_write (HashWriter_write HashWriter_init taghash) taghash.

(** ** MurmurHash3 *)

Definition rotl32 (x k : Z) : Z := Z.lor (u32 (Z.shiftl x k)) (Z.shiftr x (32 - k)).

(** [vDataToHash] as its bytes; the tail is read by the [switch] that falls through *)
Definition MurmurHash3 (nHashSeed : Z) (vDataToHash : list Z) : Z :=
  let c1 := 0xcc9e2d51 in
  let c2 := 0x1b873593 in
  let nblocks := Z.to_nat (zlen vDataToHash / 4) in
  let h1 := for_up nblocks (fun i h1 =>
    let k1 := ReadLE 4 (drop (i * 4) vDataToHash) in
    let k1 := u32 (k1 * c1) in
    let k1 := rotl32 k1 15 in
    let k1 := u32 (k1 * c2) in
    let h1 := Z.lxor h1 k1 in
    let h1 := rotl32 h1 13 in
    u32 (h1 * 5 + 0xe6546b64)) nHashSeed in
  let tail := drop (nblocks * 4) vDataToHash in
  let size3 := Z.land (zlen vDataToHash) 3 in
  let k1 := 0 in
  let k1 := if size3 >=? 3 then Z.lxor k1 (Z.shiftl tail.[2] 16) else k1 in
  let k1 := if size3 >=? 2 then Z.lxor k1 (Z.shiftl tail.[1] 8) else k1 in
  let h1 :=
    if size3 >=? 1 then
      let k1 := Z.lxor k1 tail.[0] in
      let k1 := u32 (k1 * c1) in
      let k1 := rotl32 k1 15 in
      let k1 := u32 (k1 * c2) in
      Z.lxor h1 k1
    else h1 in
  let h1 := Z.lxor h1 (u32 (zlen vDataToHash)) in
  let h1 := Z.lxor h1 (Z.shiftr h1 16) in
  let h1 := u32 (h1 * 0x85ebca6b) in
  let h1 := Z.lxor h1 (Z.shiftr h1 13) in
  let h1 := u32 (h1 * 0xc2b2ae35) in
  Z.lxor h1 (Z.shiftr h1 16).

(** ** What they compute *)

(** The 32 bytes of the reference tree hash. *)
Definition blake3 (msg : list Z) : list Z := blake3_spec IV 0 msg 0 32.
Definition sha256d (msg : list Z) : list Z := sha256 (sha256 msg).

Lemma blake3_simd_degree_pow `{Cpu} : exists d, blake3_simd_degree = 2 ^ Z.of_nat d.
Proof. unfold blake3_simd_degree. destruct AVX2, SSE41, SSE2; solve [exists 3%nat; reflexivity|exists 2%nat; reflexivity|exists O; reflexivity]. Qed.

Lemma blake3_one_shot `{Cpu} msg : zlen msg < 2 ^ 64 ->
  blake3_hasher_finalize (blake3_hasher_update blake3_simd_degree blake3_hasher_init msg) BLAKE3_OUT_LEN = blake3 msg.
Proof.
  intros Hl. destruct blake3_simd_degree_pow as [d Hd]. unfold blake3_hasher_finalize, blake3_hasher_finalize_seek.
  rewrite (finalize_spec IV 0 msg).
  - rewrite output_root_bytes_spec by (unfold BLAKE3_OUT_LEN; lia). done.
  - apply (hasher_update_spec IV 0 _ d Hd []); [apply hasher_inv_init|]. cbn. lia.
Qed.

Lemma Hash_spec `{Cpu} msg : zlen msg < 2 ^ 64 -> Hash msg = blake3 msg.
Proof. intros Hl. unfold Hash, CHash256_Write, CHash256_Finalize. cbn [fst app]. apply blake3_one_shot. exact Hl. Qed.

Lemma Hash_pair_spec `{Cpu} a b : zlen a + zlen b < 2 ^ 64 -> Hash_pair a b = blake3 (a ++ b).
Proof.
  intros Hl. unfold Hash_pair, CHash256_Write, CHash256_Finalize. cbn [fst app].
  apply blake3_one_shot. rewrite zlen_app. exact Hl.
Qed.

Lemma sha256_len msg : zlen (sha256 msg) = 32.
Proof. rewrite (proj1 (sha256_blob msg)). done. Qed.

(** [w] has absorbed [msg]. *)
Definition hw_inv (msg : list Z) (w : HashWriter) : Prop := sha_inv msg (hw_ctx w).

Lemma hw_inv_write msg w data : hw_inv msg w -> zlen msg + zlen data < 2 ^ 64 -> hw_inv (msg ++ data) (HashWriter_write w data).
Proof. apply CSHA256_Write_spec. Qed.

Lemma HashWriter_GetHash_spec msg w : hw_inv msg w -> zlen msg + 72 < 2 ^ 61 -> HashWriter_GetHash w = sha256d msg.
Proof.
  intros Hw Hl. unfold HashWriter_GetHash, sha256d. pose proof (CSHA256_Finalize_spec msg _ Hw Hl) as Hfin.
  unfold CSHA256_Finalize in Hfin at 1. rewrite Hfin. apply CSHA256_Finalize_spec; [|rewrite sha256_len; lia].
  apply (CSHA256_Write_spec []); [|rewrite sha256_len; cbn; lia].
  eapply sha_inv_reset, CSHA256_finish_spec; eassumption.
Qed.

Lemma HashWriter_hash msg : zlen msg + 72 < 2 ^ 61 -> HashWriter_GetHash (HashWriter_write HashWriter_init msg) = sha256d msg.
Proof.
  intros Hl. apply HashWriter_GetHash_spec; [|exact Hl]. apply (hw_inv_write [] _ msg); [apply sha_inv_init|]. cbn. lia.
Qed.

Lemma store_words_ok ws : limbs_ok 8 (store_words ws).
Proof.
  unfold store_words. induction ws as [|w ws IH]; [constructor|]. cbn [flat_map]. apply Forall_app. split; [|exact IH].
  repeat constructor; apply Z.mod_pos_bound; lia.
Qed.

Lemma blake3_blob msg : blob_ok 32 (blake3 msg).
Proof.
  unfold blake3, blake3_spec, stream. split; [rewrite length_map, length_seq; done|].
  apply Forall_map, Forall_true. intros i. unfold stream_byte. apply nth_limb; [lia|apply store_words_ok].
Qed.

(** The check value of the reference implementation of MurmurHash3_x86_32 on "abc" with seed 0. *)
Example murmur3_abc : MurmurHash3 0 [97; 98; 99] = 0xb3dd93fa.
Proof. reflexivity. Qed.
