(* ===== verification/Serialize.v ===== *)
(** * Serialization

    src/serialize.h: fixed-width integers, byte blobs, CompactSize, VarInt and
    vectors.  Writing is a function to bytes; reading is a partial function
    from a byte stream to a value and the rest of the stream, [None] being a thrown
    [std::ios_base::failure] (including reading past the end).

    The class [Codec] is what every serializable type promises: what is written
    is read back, and the reader accepts nothing but what the writer produces. *)

From Stdlib Require Import ZArith Lia Bool.
From stdpp Require Import base option list.
From S2P Require Import Prelude Uint256.
Local Open Scope Z_scope.
Local Open Scope adonai_scope.

Definition MAX_SIZE : Z := 0x02000000.

Notation reader A := (list Z -> option (A * list Z)).

(** [s.read] of [n] bytes *)
Definition read_bytes (n : Z) : reader (list Z) := fun s =>
  if n <=? zlen s then Some (ztake n s, zdrop n s) else None.

(** ** Integers *)

Definition ser_uint (n : nat) (x : Z) : list Z := WriteLE n x.
Definition unser_uint (n : nat) : reader Z := fun s =>
  '(b, s) ← read_bytes (Z.of_nat n) s; Some (ReadLE n b, s).

Definition ser_writedata8 (obj : Z) : list Z := [u8 obj].
Definition ser_writedata16 : Z -> list Z := ser_uint 2.
Definition ser_writedata32 : Z -> list Z := ser_uint 4.
Definition ser_writedata64 : Z -> list Z := ser_uint 8.
Definition ser_readdata8 : reader Z := fun s => match s with [] => None | b :: s => Some (b, s) end.
Definition ser_readdata16 : reader Z := unser_uint 2.
Definition ser_readdata32 : reader Z := unser_uint 4.
Definition ser_readdata64 : reader Z := unser_uint 8.

(** signed integers, through the unsigned type of the same width *)
Definition ser_int32 (a : Z) : list Z := ser_writedata32 (u32 a).
Definition unser_int32 : reader Z := fun s => '(x, s) ← ser_readdata32 s; Some (i32 x, s).
Definition ser_int64 (a : Z) : list Z := ser_writedata64 (u64 a).
Definition unser_int64 : reader Z := fun s => '(x, s) ← ser_readdata64 s; Some (i64 x, s).

(** arrays of bytes ([base_blob]) *)
Definition ser_blob (b : list Z) : list Z := b.
Definition unser_blob (n : Z) : reader (list Z) := read_bytes n.

(** ** CompactSize *)

Definition GetSizeOfCompactSize (nSize : Z) : Z :=
  if nSize <? 253 then 1
  else if nSize <=? 0xffff then 1 + 2
  else if nSize <=? 0xffffffff then 1 + 4
  else 1 + 8.

Definition WriteCompactSize (nSize : Z) : list Z :=
  if nSize <? 253 then ser_writedata8 nSize
  else if nSize <=? 0xffff then ser_writedata8 253 ++ ser_writedata16 nSize
  else if nSize <=? 0xffffffff then ser_writedata8 254 ++ ser_writedata32 nSize
  else ser_writedata8 255 ++ ser_writedata64 nSize.

Definition ReadCompactSize (range_check : bool) : reader Z := fun s =>
  '(chSize, s) ← ser_readdata8 s;
  '(nSizeRet, s) ←
    (if chSize <? 253 then Some (chSize, s)
     else if chSize =? 253 then
       '(n, s) ← ser_readdata16 s; if n <? 253 then None else Some (n, s)
     else if chSize =? 254 then
       '(n, s) ← ser_readdata32 s; if n <? 0x10000 then None else Some (n, s)
     else
       '(n, s) ← ser_readdata64 s; if n <? 0x100000000 then None else Some (n, s));
  if range_check && (nSizeRet >? MAX_SIZE) then None else Some (nSizeRet, s).

(** ** VarInt *)

(** [tmp[len], tmp[len+1], ...]: the digits, least significant first *)
Fixpoint varint_digits (fuel : nat) (first : bool) (n : Z) : list Z :=
  match fuel with
  | O => []
  | S fuel =>
      let b := Z.lor (Z.land n 0x7F) (if first then 0 else 0x80) in
      if n <=? 0x7F then [b] else b :: varint_digits fuel false (Z.shiftr n 7 - 1)
  end.
(** the array [tmp] has [(sizeof(n)*8+6)/7] entries, at most 10 *)
Definition WriteVarInt (n : Z) : list Z := rev (varint_digits 10 true n).
Definition GetSizeOfVarInt (n : Z) : Z := zlen (varint_digits 10 true n).

Fixpoint ReadVarInt_loop (max n : Z) (s : list Z) : option (Z * list Z) :=
  match s with
  | [] => None
  | chData :: s =>
      if n >? Z.shiftr max 7 then None
      else
        let n := Z.lor (Z.shiftl n 7) (Z.land chData 0x7F) in
        if negb (Z.land chData 0x80 =? 0) then
          if n =? max then None else ReadVarInt_loop max (n + 1) s
        else Some (n, s)
  end.
Definition ReadVarInt (max : Z) : reader Z := ReadVarInt_loop max 0.

(** ** Vectors *)

Definition ser_vector {A} (ser : A -> list Z) (v : list A) : list Z :=
  WriteCompactSize (zlen v) ++ flat_map ser v.
Fixpoint unser_elems {A} (unser : reader A) (size : nat) : reader (list A) := fun s =>
  match size with
  | O => Some ([], s)
  | S size => '(x, s) ← unser s; '(v, s) ← unser_elems unser size s; Some (x :: v, s)
  end.
Definition unser_vector {A} (unser : reader A) : reader (list A) := fun s =>
  '(size, s) ← ReadCompactSize true s; unser_elems unser (Z.to_nat size) s.

(** vectors and prevectors of bytes *)
Definition ser_bytes (v : list Z) : list Z := WriteCompactSize (zlen v) ++ v.
Definition unser_bytes : reader (list Z) := fun s =>
  '(nSize, s) ← ReadCompactSize true s; read_bytes nSize s.

(** ** The contract *)

Class Codec {A} (ok : A -> Prop) (ser : A -> list Z) (unser : reader A) : Prop := {
  codec_bytes a : ok a -> limbs_ok 8 (ser a);
  codec_roundtrip a rest : ok a -> unser (ser a ++ rest) = Some (a, rest);
  codec_canonical s a rest : limbs_ok 8 s -> unser s = Some (a, rest) -> s = ser a ++ rest /\ ok a;
}.

Lemma limbs_ok_app_inv w a b : limbs_ok w (a ++ b) -> limbs_ok w a /\ limbs_ok w b.
Proof. apply Forall_app. Qed.

Lemma limbs_ok_app w a b : limbs_ok w a -> limbs_ok w b -> limbs_ok w (a ++ b).
Proof. intros Ha Hb. apply Forall_app. split; assumption. Qed.

Lemma codec_rest {A} (ok : A -> Prop) ser unser `{!Codec ok ser unser} s a rest :
  limbs_ok 8 s -> unser s = Some (a, rest) -> limbs_ok 8 rest.
Proof. intros Hs H. destruct (codec_canonical s a rest Hs H) as [-> _]. apply limbs_ok_app_inv in Hs as [_ Hs]. exact Hs. Qed.

Lemma read_bytes_app n b rest : zlen b = n -> read_bytes n (b ++ rest) = Some (b, rest).
Proof.
  intros H. unfold read_bytes. rewrite zlen_app.
  destruct (Z.leb_spec n (zlen b + zlen rest)); [|lia]. rewrite ztake_app, zdrop_app by lia. done.
Qed.

Lemma read_bytes_inv n s b rest : 0 <= n -> read_bytes n s = Some (b, rest) -> s = b ++ rest /\ zlen b = n.
Proof.
  intros Hn. unfold read_bytes. destruct (Z.leb_spec n (zlen s)) as [H|]; [|done]. intros [= <- <-].
  rewrite ztake_zdrop, zlen_ztake; [done|lia].
Qed.

#[export] Instance blob_codec n : Codec (blob_ok n) ser_blob (unser_blob (Z.of_nat n)).
Proof.
  split; unfold ser_blob, unser_blob.
  - intros a [_ H]. exact H.
  - intros a rest [Hl _]. apply read_bytes_app. lia.
  - intros s a rest Hs H. apply read_bytes_inv in H as [-> Hl]; [|lia]. split; [done|].
    apply limbs_ok_app_inv in Hs as [Ha _]. split; [lia|exact Ha].
Qed.

#[export] Instance uint_codec n : Codec (fits (8 * Z.of_nat n)) (ser_uint n) (unser_uint n).
Proof.
  split; unfold ser_uint, unser_uint.
  - intros a _. apply WriteLE_ok.
  - intros a rest H. rewrite read_bytes_app by (rewrite (proj1 (WriteLE_ok n a)); done). cbn [mbind option_bind].
    rewrite <- (app_nil_r (WriteLE n a)), ReadLE_WriteLE, Z.mod_small by exact H. done.
  - intros s a rest Hs. destruct (read_bytes (Z.of_nat n) s) as [[b s']|] eqn:E; cbn [mbind option_bind]; [|done].
    intros [= <- <-]. apply read_bytes_inv in E as [-> Hl]; [|lia]. apply limbs_ok_app_inv in Hs as [Hb _].
    rewrite WriteLE_ReadLE, take_ge by (assumption || lia). split; [done|]. apply ReadLE_fits; [assumption|lia].
Qed.

Lemma byte_codec : Codec (fits 8) ser_writedata8 ser_readdata8.
Proof.
  split; unfold ser_writedata8, ser_readdata8.
  - intros a Ha. constructor; [apply wrap_fits; lia|constructor].
  - intros a rest Ha. cbn [app]. rewrite wrap_small by assumption. done.
  - intros [|b s] a rest Hs; [done|]. intros [= <- <-]. inversion Hs; subst. rewrite wrap_small by assumption. done.
Qed.
#[export] Existing Instance byte_codec.

(** signed integers of [8 * n] bits *)
Lemma sint_codec n : (0 < n)%nat ->
  Codec (sfits (8 * Z.of_nat n)) (fun a => ser_uint n (wrap (8 * Z.of_nat n) a))
        (fun s => '(x, s) ← unser_uint n s; Some (swrap (8 * Z.of_nat n) x, s)).
Proof.
  intros Hn. split.
  - intros a _. apply (codec_bytes (Codec := uint_codec n)). apply wrap_fits. lia.
  - intros a rest Ha. rewrite (codec_roundtrip (Codec := uint_codec n)) by (apply wrap_fits; lia).
    cbn [mbind option_bind]. rewrite swrap_wrap, swrap_small by (assumption || lia). done.
  - intros s a rest Hs. destruct (unser_uint n s) as [[x s']|] eqn:E; cbn [mbind option_bind]; [|done].
    intros [= <- <-]. apply (codec_canonical (Codec := uint_codec n)) in E as [-> Hx]; [|exact Hs].
    rewrite wrap_swrap, wrap_small by (assumption || lia). split; [done|]. apply swrap_fits. lia.
Qed.

#[export] Instance int32_codec : Codec (sfits 32) ser_int32 unser_int32.
Proof. exact (sint_codec 4 ltac:(lia)). Qed.
#[export] Instance int64_codec : Codec (sfits 64) ser_int64 unser_int64.
Proof. exact (sint_codec 8 ltac:(lia)). Qed.
#[export] Instance uint32_codec : Codec (fits 32) ser_writedata32 ser_readdata32.
Proof. exact (uint_codec 4). Qed.
#[export] Instance uint64_codec : Codec (fits 64) ser_writedata64 ser_readdata64.
Proof. exact (uint_codec 8). Qed.

(** ** CompactSize *)

Definition compact_ok (range_check : bool) (n : Z) : Prop :=
  fits 64 n /\ (range_check = true -> n <= MAX_SIZE).

(** One of the three wide forms: the marker byte, then an integer of [k] bytes
    that does not fit the shorter form. *)
Lemma compact_form_roundtrip k n rest : fits (8 * Z.of_nat k) n ->
  unser_uint k (ser_uint k n ++ rest) = Some (n, rest).
Proof. apply (codec_roundtrip (Codec := uint_codec k)). Qed.

Lemma WriteCompactSize_bytes n : limbs_ok 8 (WriteCompactSize n).
Proof.
  assert (Hb : forall b, limbs_ok 8 (ser_writedata8 b)).
  { intros b. constructor; [apply wrap_fits; lia|constructor]. }
  unfold WriteCompactSize. repeat case_bool; [apply Hb|..]; apply Forall_app; (split; [apply Hb|apply WriteLE_ok]).
Qed.

(** reading back a wide form *)
Ltac wide_rt k n lim Hfin :=
  change (u8 253) with 253; change (u8 254) with 254; change (u8 255) with 255;
  cbn [Z.ltb Z.eqb Z.compare Pos.compare Pos.compare_cont Pos.eqb];
  unfold ser_readdata16, ser_readdata32, ser_readdata64, ser_writedata16, ser_writedata32, ser_writedata64;
  rewrite (compact_form_roundtrip k) by (unfold fits; lia); cbn [mbind option_bind];
  destruct (Z.ltb_spec n lim); [lia|]; cbn [mbind option_bind]; rewrite Hfin; done.

Lemma ReadCompactSize_Write rc n rest : compact_ok rc n ->
  ReadCompactSize rc (WriteCompactSize n ++ rest) = Some (n, rest).
Proof.
  intros [Hn Hr]. unfold WriteCompactSize, ReadCompactSize.
  assert (Hfin : rc && (n >? MAX_SIZE) = false).
  { destruct rc; [|done]. specialize (Hr eq_refl). rewrite Z.gtb_ltb. apply Z.ltb_ge. exact Hr. }
  unfold fits in Hn.
  destruct (Z.ltb_spec n 253); [|destruct (Z.leb_spec n 0xffff); [|destruct (Z.leb_spec n 0xffffffff)]];
    rewrite <- ?app_assoc; cbn [app ser_writedata8 ser_readdata8 mbind option_bind];
    [|wide_rt 2%nat n 253 Hfin|wide_rt 4%nat n 65536 Hfin|wide_rt 8%nat n 4294967296 Hfin].
  rewrite wrap_small by (unfold fits; lia).
  destruct (Z.ltb_spec n 253); [|lia]. cbn [mbind option_bind]. rewrite Hfin. done.
Qed.

(** inverting the read of a wide form *)
Ltac wide k H2 Hs1 :=
  let x := fresh "x" in let Hn := fresh "Hn" in
  apply bind_Some in H2 as ([x ?] & H2 & Hn);
  apply (codec_canonical (Codec := uint_codec k)) in H2 as [-> ?]; [|exact Hs1];
  destruct (x <? _) eqn:? in Hn; [done|]; injection Hn as -> ->; unfold fits in *; bool_to_prop;
  repeat case_bool; try lia; rewrite <- ?app_assoc; split; [done|split; [lia|assumption]].

Lemma ReadCompactSize_canonical rc s n rest : limbs_ok 8 s ->
  ReadCompactSize rc s = Some (n, rest) -> s = WriteCompactSize n ++ rest /\ compact_ok rc n.
Proof.
  intros Hs H. unfold ReadCompactSize in H.
  apply bind_Some in H as ([ch s1] & H1 & H).
  apply (codec_canonical (Codec := byte_codec)) in H1 as [-> Hch]; [|exact Hs].
  apply limbs_ok_app_inv in Hs as [_ Hs1].
  apply bind_Some in H as ([m s2] & H2 & H).
  destruct (rc && (m >? MAX_SIZE)) eqn:Hrc; [done|]. injection H as -> ->.
  assert (Hr : rc = true -> n <= MAX_SIZE).
  { intros ->. cbn in Hrc. rewrite Z.gtb_ltb in Hrc. apply Z.ltb_ge in Hrc. exact Hrc. }
  unfold compact_ok, WriteCompactSize. unfold fits in Hch.
  destruct (Z.ltb_spec ch 253) as [Hlt|Hge].
  { injection H2 as -> ->. destruct (Z.ltb_spec n 253); [|lia]. unfold fits. split; [done|]. split; [lia|exact Hr]. }
  destruct (Z.eqb_spec ch 253) as [->|]; [wide 2%nat H2 Hs1|].
  destruct (Z.eqb_spec ch 254) as [->|]; [wide 4%nat H2 Hs1|].
  assert (ch = 255) as -> by lia. wide 8%nat H2 Hs1.
Qed.

#[export] Instance compact_codec rc : Codec (compact_ok rc) WriteCompactSize (ReadCompactSize rc).
Proof.
  split; [intros; apply WriteCompactSize_bytes|apply ReadCompactSize_Write|apply ReadCompactSize_canonical].
Qed.

(** ** Vectors *)

Section vectors.
  Context {A} (ok : A -> Prop) (ser : A -> list Z) (unser : reader A) `{HA : !Codec ok ser unser}.

Lemma elems_bytes v : Forall ok v -> limbs_ok 8 (flat_map ser v).
Proof. induction 1; cbn; [constructor|]. apply Forall_app. split; [apply codec_bytes; assumption|assumption]. Qed.

Lemma unser_elems_ser v rest : Forall ok v -> unser_elems unser (length v) (flat_map ser v ++ rest) = Some (v, rest).
Proof.
  induction 1 as [|x v Hx _ IH]; [done|]. cbn [length flat_map unser_elems]. rewrite <- app_assoc.
  rewrite codec_roundtrip by assumption. cbn [mbind option_bind]. rewrite IH. done.
Qed.

Lemma unser_elems_canonical n s v rest : limbs_ok 8 s -> unser_elems unser n s = Some (v, rest) ->
  s = flat_map ser v ++ rest /\ Forall ok v /\ length v = n.
Proof.
  revert s v. induction n as [|n IH]; intros s v Hs H; cbn [unser_elems] in H.
  { injection H as <- <-. done. }
  apply bind_Some in H as ([x s1] & Hx & H). apply bind_Some in H as ([v' s2] & Hv & H). injection H as <- <-.
  pose proof (codec_rest _ _ _ _ _ _ Hs Hx) as Hs1.
  apply codec_canonical in Hx as [-> Hox]; [|exact Hs]. apply IH in Hv as (-> & Hov & <-); [|exact Hs1].
  cbn [flat_map]. rewrite <- app_assoc. split; [done|]. split; [constructor; assumption|done].
Qed.

Definition vector_ok (v : list A) : Prop := zlen v <= MAX_SIZE /\ Forall ok v.

Lemma size_compact_ok (v : list A) : zlen v <= MAX_SIZE -> compact_ok true (zlen v).
Proof. intros H. split; [|done]. unfold fits, MAX_SIZE in *. lia. Qed.

#[export] Instance vector_codec : Codec vector_ok (ser_vector ser) (unser_vector unser).
Proof.
  unfold ser_vector, unser_vector. split.
  - intros v [Hl Hv]. apply Forall_app. split; [|apply elems_bytes; assumption].
    apply WriteCompactSize_bytes.
  - intros v rest [Hl Hv]. rewrite <- app_assoc, codec_roundtrip by (apply size_compact_ok; assumption).
    cbn [mbind option_bind]. rewrite Nat2Z.id. apply unser_elems_ser. assumption.
  - intros s v rest Hs H. apply bind_Some in H as ([n s1] & Hn & H).
    pose proof (codec_rest _ _ _ _ _ _ Hs Hn) as Hs1.
    apply codec_canonical in Hn as [-> [Hf Hm]]; [|exact Hs].
    apply unser_elems_canonical in H as (-> & Hv & Hl); [|exact Hs1]. unfold fits in Hf.
    replace (zlen v) with n by lia. rewrite <- app_assoc. split; [done|]. split; [|assumption]. specialize (Hm eq_refl). lia.
Qed.
End vectors.

Definition bytes_ok (v : list Z) : Prop := zlen v <= MAX_SIZE /\ limbs_ok 8 v.

#[export] Instance bytes_codec : Codec bytes_ok ser_bytes unser_bytes.
Proof.
  unfold ser_bytes, unser_bytes. split.
  - intros v [Hl Hv]. apply Forall_app. split; [apply WriteCompactSize_bytes|assumption].
  - intros v rest [Hl Hv]. rewrite <- app_assoc, codec_roundtrip by (apply size_compact_ok; assumption).
    cbn [mbind option_bind]. apply read_bytes_app. done.
  - intros s v rest Hs H. apply bind_Some in H as ([n s1] & Hn & H).
    pose proof (codec_rest _ _ _ _ _ _ Hs Hn) as Hs1.
    apply codec_canonical in Hn as [-> [Hf Hm]]; [|exact Hs]. unfold fits in Hf.
    apply read_bytes_inv in H as [-> <-]; [|lia]. rewrite <- app_assoc. split; [done|].
    apply limbs_ok_app_inv in Hs1 as [Hv _]. split; [apply Hm; done|assumption].
Qed.

(** ** VarInt *)

Lemma low7 n : Z.land n 0x7F = n mod 128.
Proof. change 0x7F with (Z.ones 7). rewrite Z.land_ones by lia. done. Qed.

Lemma shiftr7 n : Z.shiftr n 7 = n / 128.
Proof. rewrite Z.shiftr_div_pow2 by lia. done. Qed.

Lemma shiftl7_lor n d : 0 <= d < 128 -> Z.lor (Z.shiftl n 7) d = n * 128 + d.
Proof.
  intros Hd. rewrite Z.shiftl_mul_pow2 by lia. change (2 ^ 7) with 128.
  rewrite <- Z.add_lor_land. replace (Z.land (n * 128) d) with 0; [lia|]. symmetry.
  apply Z.bits_inj'. intros i Hi. rewrite Z.land_spec, Z.bits_0. change 128 with (2 ^ 7).
  destruct (Z.lt_ge_cases i 7).
  - rewrite Z.mul_pow2_bits_low by lia. done.
  - replace (Z.testbit d i) with false; [apply andb_false_r|]. symmetry.
    destruct (Z.eq_dec d 0) as [->|]; [apply Z.bits_0|]. apply Z.bits_above_log2; [lia|].
    apply Z.lt_le_trans with 7; [|lia]. apply Z.log2_lt_pow2; lia.
Qed.

(** Every byte is seven bits and the continuation marker. *)
Definition byte_split_b (ch : Z) : bool :=
  if ch <? 128 then (Z.land ch 0x80 =? 0) && (Z.lor (Z.land ch 0x7F) 0 =? ch)
  else negb (Z.land ch 0x80 =? 0) && (Z.lor (Z.land ch 0x7F) 0x80 =? ch).

Lemma byte_split ch : fits 8 ch -> byte_split_b ch = true.
Proof.
  intros H. unfold fits in H.
  assert (Hall : forallb byte_split_b (map Z.of_nat (seq 0 256)) = true) by (vm_compute; reflexivity).
  rewrite forallb_forall in Hall. apply Hall. apply in_map_iff. exists (Z.to_nat ch).
  split; [lia|]. apply in_seq. lia.
Qed.

Lemma cont_byte d : 0 <= d < 128 ->
  Z.land (Z.lor d 0x80) 0x7F = d /\ negb (Z.land (Z.lor d 0x80) 0x80 =? 0) = true.
Proof.
  intros Hd. assert (Hlor : Z.lor d 0x80 = d + 128).
  { rewrite Z.lor_comm. change (Z.lor 0x80 d) with (Z.lor (Z.shiftl 1 7) d). rewrite shiftl7_lor by lia. lia. }
  pose proof (byte_split (d + 128) ltac:(unfold fits; lia)) as H. unfold byte_split_b in H.
  destruct (Z.ltb_spec (d + 128) 128); [lia|]. apply andb_true_iff in H as [H _]. rewrite Hlor. split; [|exact H].
  rewrite low7. Z.div_mod_to_equations; lia.
Qed.

(** the digits of [m] followed by the rest of the number *)
Lemma varint_digits_step fuel first n : 0 <= n ->
  varint_digits (S fuel) first n =
  Z.lor (n mod 128) (if first then 0 else 0x80) :: (if n <=? 0x7F then [] else varint_digits fuel false (n / 128 - 1)).
Proof. intros Hn. cbn [varint_digits]. rewrite low7, shiftr7. case_match; done. Qed.

Lemma read_cont_step max acc d s : 0 <= d < 128 -> 0 <= acc <= max / 128 -> acc * 128 + d < max ->
  ReadVarInt_loop max acc (Z.lor d 0x80 :: s) = ReadVarInt_loop max (acc * 128 + d + 1) s.
Proof.
  intros Hd Ha Hm. cbn [ReadVarInt_loop]. destruct (cont_byte d Hd) as [-> ->].
  rewrite shiftr7, shiftl7_lor by exact Hd.
  destruct (Z.gtb_spec acc (max / 128)); [lia|]. destruct (Z.eqb_spec (acc * 128 + d) max); [lia|]. done.
Qed.

Lemma read_last_step max acc d s : 0 <= d < 128 -> 0 <= acc <= max / 128 ->
  ReadVarInt_loop max acc (Z.lor d 0 :: s) = Some (acc * 128 + d, s).
Proof.
  intros Hd Ha. rewrite Z.lor_0_r. cbn [ReadVarInt_loop].
  pose proof (byte_split d ltac:(unfold fits; lia)) as H. unfold byte_split_b in H.
  destruct (Z.ltb_spec d 128); [|lia]. apply andb_true_iff in H as [-> H]. rewrite Z.lor_0_r in H.
  apply Z.eqb_eq in H. rewrite H, shiftr7, shiftl7_lor by exact Hd.
  destruct (Z.gtb_spec acc (max / 128)); [lia|]. done.
Qed.

Lemma read_cont_digits max fuel m s : 0 <= m < max -> m < 128 ^ Z.of_nat (S fuel) ->
  ReadVarInt_loop max 0 (rev (varint_digits (S fuel) false m) ++ s) = ReadVarInt_loop max (m + 1) s.
Proof.
  revert m s. induction fuel as [|fuel IH]; intros m s Hm Hf; rewrite varint_digits_step by lia; cbn [rev];
    rewrite <- app_assoc; cbn [app].
  - change (128 ^ Z.of_nat 1) with 128 in Hf. destruct (Z.leb_spec m 0x7F); [|lia]. cbn [rev app].
    rewrite (Z.mod_small m) by lia. rewrite read_cont_step by (Z.div_mod_to_equations; lia). f_equal; lia.
  - rewrite Nat2Z.inj_succ, Z.pow_succ_r in Hf by lia. destruct (Z.leb_spec m 0x7F).
    + cbn [rev app]. rewrite (Z.mod_small m) by lia. rewrite read_cont_step by (Z.div_mod_to_equations; lia). f_equal; lia.
    + rewrite IH by (Z.div_mod_to_equations; lia).
      rewrite read_cont_step by (Z.div_mod_to_equations; lia). f_equal. Z.div_mod_to_equations; lia.
Qed.

Lemma ReadVarInt_Write max n rest : 0 <= n <= max -> max < 2 ^ 64 ->
  ReadVarInt max (WriteVarInt n ++ rest) = Some (n, rest).
Proof.
  intros Hn Hmax. unfold ReadVarInt, WriteVarInt. rewrite varint_digits_step by lia. cbn [rev].
  rewrite <- app_assoc. cbn [app]. destruct (Z.leb_spec n 0x7F).
  - cbn [rev app]. rewrite (Z.mod_small n) by lia. rewrite read_last_step by (Z.div_mod_to_equations; lia). done.
  - rewrite read_cont_digits; [|Z.div_mod_to_equations; lia|].
    2: { apply Z.lt_trans with (2 ^ 58); [Z.div_mod_to_equations; lia|reflexivity]. }
    rewrite read_last_step by (Z.div_mod_to_equations; lia). do 2 f_equal. Z.div_mod_to_equations; lia.
Qed.

(** What has been read when the accumulator is [acc]. *)
Definition varint_prefix (acc : Z) : list Z := if acc =? 0 then [] else rev (varint_digits 10 false (acc - 1)).

Lemma varint_digits_fuel f first n : 0 <= n < 128 ^ Z.of_nat (S f) ->
  varint_digits (S (S f)) first n = varint_digits (S f) first n.
Proof.
  revert first n. induction f as [|f IH]; intros first n Hn;
    rewrite (varint_digits_step _ _ n), (varint_digits_step _ _ n) by lia;
    destruct (Z.leb_spec n 0x7F); try done.
  - change (128 ^ Z.of_nat 1) with 128 in Hn. lia.
  - rewrite Nat2Z.inj_succ, Z.pow_succ_r in Hn by lia. rewrite IH by (Z.div_mod_to_equations; lia). done.
Qed.

Lemma varint_prefix_snoc first acc d : 0 <= d < 128 -> 0 <= acc < 2 ^ 58 ->
  rev (varint_digits 10 first (acc * 128 + d)) = varint_prefix acc ++ [Z.lor d (if first then 0 else 0x80)].
Proof.
  intros Hd Ha. rewrite varint_digits_step by lia. cbn [rev].
  replace ((acc * 128 + d) mod 128) with d by (Z.div_mod_to_equations; lia).
  replace ((acc * 128 + d) / 128) with acc by (Z.div_mod_to_equations; lia).
  f_equal. unfold varint_prefix. destruct (Z.eqb_spec acc 0) as [->|].
  - destruct (Z.leb_spec (0 * 128 + d) 0x7F); [done|lia].
  - destruct (Z.leb_spec (acc * 128 + d) 0x7F); [lia|]. rewrite (varint_digits_fuel 8); [done|].
    split; [lia|]. apply Z.lt_trans with (2 ^ 58); [lia|reflexivity].
Qed.

Lemma ReadVarInt_loop_canonical k acc s n rest : 7 <= k <= 64 -> limbs_ok 8 s -> 0 <= acc ->
  ReadVarInt_loop (2 ^ k - 1) acc s = Some (n, rest) ->
  varint_prefix acc ++ s = WriteVarInt n ++ rest /\ 0 <= n <= 2 ^ k - 1.
Proof.
  intros Hk. revert acc. induction s as [|ch s IH]; intros acc Hs Ha; [done|]. cbn [ReadVarInt_loop].
  inversion Hs as [|? ? Hch Hs']; subst. rewrite shiftr7, low7.
  assert (Hp : 2 ^ k = 128 * 2 ^ (k - 7)) by (change 128 with (2 ^ 7); rewrite <- Z.pow_add_r by lia; f_equal; lia).
  pose proof (Z.pow_le_mono_r 2 (k - 7) 57 ltac:(lia) ltac:(lia)). pose proof (pow2_pos (k - 7) ltac:(lia)).
  destruct (Z.gtb_spec acc ((2 ^ k - 1) / 128)) as [|Hacc]; [done|].
  assert (Hacc' : acc < 2 ^ (k - 7)) by (Z.div_mod_to_equations; lia).
  assert (Hd : 0 <= ch mod 128 < 128) by (Z.div_mod_to_equations; lia). rewrite shiftl7_lor by exact Hd.
  pose proof (byte_split ch Hch) as Hsplit. unfold byte_split_b in Hsplit. rewrite low7 in Hsplit.
  assert (Hdig : Z.lor (ch mod 128) (if Z.land ch 0x80 =? 0 then 0 else 0x80) = ch).
  { destruct (ch <? 128); apply andb_true_iff in Hsplit as [Hs1 Hs2]; apply Z.eqb_eq in Hs2;
      [rewrite Hs1|apply negb_true_iff in Hs1; rewrite Hs1]; exact Hs2. }
  pose proof (varint_prefix_snoc (Z.land ch 0x80 =? 0) acc (ch mod 128) Hd ltac:(lia)) as Hsnoc.
  rewrite Hdig in Hsnoc. destruct (Z.land ch 0x80 =? 0); cbn [negb].
  - intros [= <- <-]. unfold WriteVarInt. rewrite Hsnoc, <- app_assoc. split; [done|]. lia.
  - destruct (Z.eqb_spec (acc * 128 + ch mod 128) (2 ^ k - 1)); [done|]. intros H'.
    apply IH in H' as [H' Hn]; [|assumption|lia]. split; [|exact Hn]. rewrite <- H'. unfold varint_prefix at 2.
    destruct (Z.eqb_spec (acc * 128 + ch mod 128 + 1) 0); [lia|]. rewrite Z.add_simpl_r, Hsnoc, <- app_assoc. done.
Qed.

Lemma varint_byte n b : In b (varint_digits 10 true n) -> fits 8 b.
Proof.
  generalize 10%nat true. intros f first. revert first n. induction f as [|f IH]; intros first n; [done|].
  cbn [varint_digits]. set (b0 := Z.lor _ _). intros Hin. assert (Hb0 : fits 8 b0).
  { unfold b0. rewrite low7. assert (Hd : 0 <= n mod 128 < 128) by (Z.div_mod_to_equations; lia).
    destruct first; [rewrite Z.lor_0_r; unfold fits; lia|]. rewrite Z.lor_comm.
    change (Z.lor 0x80 (n mod 128)) with (Z.lor (Z.shiftl 1 7) (n mod 128)). rewrite shiftl7_lor by exact Hd. unfold fits. lia. }
  clearbody b0. destruct (n <=? 127).
  - destruct Hin as [<-|[]]. exact Hb0.
  - destruct Hin as [<-|Hin]; [exact Hb0|]. apply (IH _ _ Hin).
Qed.

#[export] Instance varint_codec k : 7 <= k <= 64 -> Codec (fits k) WriteVarInt (ReadVarInt (2 ^ k - 1)).
Proof.
  intros Hk. split.
  - intros n _. apply Forall_rev, Forall_forall. intros b Hb. apply (varint_byte n), list_elem_of_In, Hb.
  - intros n rest Hn. unfold fits in Hn. pose proof (Z.pow_le_mono_r 2 k 64 ltac:(lia) ltac:(lia)).
    apply ReadVarInt_Write; lia.
  - intros s n rest Hs H. destruct (ReadVarInt_loop_canonical k 0 s n rest Hk Hs ltac:(lia) H) as [Heq Hn].
    split; [exact Heq|]. unfold fits. lia.
Qed.

(** [GetSizeOf*] is the length of what is written. *)
Lemma GetSizeOfCompactSize_spec n : GetSizeOfCompactSize n = zlen (WriteCompactSize n).
Proof.
  unfold GetSizeOfCompactSize, WriteCompactSize. repeat case_match; rewrite ?zlen_app;
    unfold ser_writedata16, ser_writedata32, ser_writedata64, ser_uint; unfold zlen; rewrite ?(proj1 (WriteLE_ok _ _)); done.
Qed.

(** The integer encodings are exact: a CompactSize or a VarInt that is
    written is read back, followed by any bytes; whatever the readers accept is
    exactly what the writers produce for the value they return, so no value
    has two accepted encodings; with the range check a CompactSize above
    MAX_SIZE is never returned. *)
Theorem compact_varint_canonical (rc : bool) (k : Z) (s rest : list Z) (n : Z) :
  7 <= k <= 64 -> limbs_ok 8 s ->
  (ReadCompactSize rc s = Some (n, rest) <->
     s = WriteCompactSize n ++ rest /\ 0 <= n < 2 ^ 64 /\ (rc = true -> n <= MAX_SIZE)) /\
  (ReadVarInt (2 ^ k - 1) s = Some (n, rest) <-> s = WriteVarInt n ++ rest /\ 0 <= n < 2 ^ k) /\
  GetSizeOfCompactSize n = zlen (WriteCompactSize n) /\ GetSizeOfVarInt n = zlen (WriteVarInt n).
Proof.
  intros Hk Hs. pose proof (varint_codec k Hk). split_and!.
  - split.
    + intros H'. apply codec_canonical in H' as [-> [Hn Hm]]; done.
    + intros (-> & Hn & Hm). apply codec_roundtrip. done.
  - split.
    + intros H'. apply codec_canonical in H'; done.
    + intros (-> & Hn). apply codec_roundtrip. done.
  - apply GetSizeOfCompactSize_spec.
  - unfold GetSizeOfVarInt, WriteVarInt, zlen. rewrite length_rev. done.
Qed.

Lemma compact_varint_canonical_witness :
  ReadVarInt (2 ^ 64 - 1) [0x82; 0xfe; 0x7f] = Some (65535, []) /\
  (ReadCompactSize true [0x82; 0xfe; 0x7f] = Some (0x82, [0xfe; 0x7f]) <->
     [0x82; 0xfe; 0x7f] = WriteCompactSize 0x82 ++ [0xfe; 0x7f] /\ 0 <= 0x82 < 2 ^ 64 /\ (true = true -> 0x82 <= MAX_SIZE)).
Proof.
  assert (Hs : limbs_ok 8 [0x82; 0xfe; 0x7f]) by (repeat constructor; vm_compute; congruence).
  split.
  - apply (proj1 (proj2 (compact_varint_canonical true 64 _ [] 65535 ltac:(lia) Hs))). split; [reflexivity|lia].
  - apply (proj1 (compact_varint_canonical true 64 _ [0xfe; 0x7f] 0x82 ltac:(lia) Hs)).
Defined.
