(* ===== verification/PubKey.v ===== *)
(** * Public keys

    src/pubkey.h and pubkey.cpp: the container [CPubKey] with its wire format, the
    lax DER parser, ECDSA and Schnorr verification, taproot tweaks, and extended
    public keys.  The elliptic curve functions they call are those of the bundled
    libsecp256k1, the class [Secp256k1]: each function takes bytes or the
    library's opaque objects and returns its result; a parser returns [None] for 0. *)

From Stdlib Require Import ZArith Lia Bool.
From stdpp Require Import base option list.
From S2P Require Import Prelude Uint256 Sha256 MerkleDamgard Ripemd160 Sha512 Hashes Serialize.
Local Open Scope Z_scope.
Local Open Scope adonai_scope.

(** ** libsecp256k1 *)

Class Secp256k1 := {
  secp_pubkey : Type;
  secp_signature : Type;
  secp_xonly : Type;
  secp256k1_ec_pubkey_parse : list Z -> option secp_pubkey;
  secp256k1_ec_pubkey_serialize : bool -> secp_pubkey -> list Z;
  secp256k1_ec_pubkey_tweak_add : secp_pubkey -> list Z -> option secp_pubkey;
  secp256k1_ecdsa_signature_parse_compact : list Z -> bool * secp_signature;
  secp256k1_ecdsa_signature_normalize : secp_signature -> bool * secp_signature;
  secp256k1_ecdsa_verify : secp_signature -> uint256 -> secp_pubkey -> bool;
  secp256k1_xonly_pubkey_parse : list Z -> option secp_xonly;
  secp256k1_schnorrsig_verify : list Z -> uint256 -> secp_xonly -> bool;
  secp256k1_xonly_pubkey_tweak_add : secp_xonly -> uint256 -> option secp_pubkey;
  secp256k1_xonly_pubkey_from_pubkey : secp_pubkey -> option (secp_xonly * Z);
  secp256k1_xonly_pubkey_serialize : secp_xonly -> list Z;
  secp256k1_xonly_pubkey_tweak_add_check : list Z -> bool -> secp_xonly -> uint256 -> bool;
}.

(** ** CPubKey *)

(** the bytes in use; an invalid key starts with 0xFF *)
Notation CPubKey := (list Z) (only parsing).

Definition PUBKEY_SIZE : Z := 65.
Definition COMPRESSED_SIZE : Z := 33.

Definition GetLen (chHeader : Z) : Z :=
  if (chHeader =? 2) || (chHeader =? 3) then COMPRESSED_SIZE
  else if (chHeader =? 4) || (chHeader =? 6) || (chHeader =? 7) then PUBKEY_SIZE
  else 0.
Definition CPubKey_invalid : CPubKey := [0xFF].
Definition ValidSize (vch : list Z) : bool := (zlen vch >? 0) && (GetLen vch.[0] =? zlen vch).
Definition CPubKey_Set (bytes : list Z) : CPubKey :=
  let len := if zlen bytes =? 0 then 0 else GetLen bytes.[0] in
  if negb (len =? 0) && (len =? zlen bytes) then bytes else CPubKey_invalid.
Definition CPubKey_size (k : CPubKey) : Z := GetLen k.[0].
Definition IsValid (k : CPubKey) : bool := CPubKey_size k >? 0.
Definition IsValidNonHybrid (k : CPubKey) : bool :=
  (CPubKey_size k >? 0) && ((k.[0] =? 0x02) || (k.[0] =? 0x03) || (k.[0] =? 0x04)).
Definition IsCompressed (k : CPubKey) : bool := CPubKey_size k =? COMPRESSED_SIZE.
Definition CPubKey_eqb (a b : CPubKey) : bool :=
  (a.[0] =? b.[0]) && bool_decide (ztake (CPubKey_size a) a = ztake (CPubKey_size a) b).
Definition GetID (k : CPubKey) : list Z := Hash160 (ztake (CPubKey_size k) k).
Definition CPubKey_GetHash `{Cpu} (k : CPubKey) : uint256 := Hash (ztake (CPubKey_size k) k).

Definition ser_CPubKey (k : CPubKey) : list Z :=
  let len := CPubKey_size k in WriteCompactSize len ++ ztake len k.
(** reading over an invalid key, which stays so when there are no bytes; [ignore] fails past the end like a read *)
Definition unser_CPubKey : reader CPubKey := fun s =>
  '(len, s) ← ReadCompactSize true s;
  '(bytes, s) ← read_bytes len s;
  if len <=? PUBKEY_SIZE then Some (if (len =? 0) || negb (len =? CPubKey_size bytes) then CPubKey_invalid else bytes, s)
  else Some (CPubKey_invalid, s).

(** ** The lax DER parser *)

(** [while (lenbyte > 0 && input[pos] == 0)] *)
Fixpoint skip_zeros (fuel : nat) (input : list Z) (pos len : Z) : Z * Z :=
  match fuel with
  | O => (pos, len)
  | S fuel => if (len >? 0) && (input.[Z.to_nat pos] =? 0) then skip_zeros fuel input (pos + 1) (len - 1) else (pos, len)
  end.
(** [while (lenbyte > 0)]: a big-endian length of at most three bytes *)
Fixpoint read_length (n : nat) (input : list Z) (pos len : Z) : Z * Z :=
  match n with
  | O => (pos, len)
  | S n => read_length n input (pos + 1) (Z.shiftl len 8 + input.[Z.to_nat pos])
  end.

(** the tag and the length of R or S: the position of the integer and its length *)
Definition der_integer (input : list Z) (pos : Z) : option (Z * Z) :=
  let inputlen := zlen input in
  if (pos =? inputlen) || negb (input.[Z.to_nat pos] =? 0x02) then None
  else
    let pos := pos + 1 in
    if pos =? inputlen then None
    else
      let lenbyte := input.[Z.to_nat pos] in
      let pos := pos + 1 in
      '(pos, len) ←
        (if negb (Z.land lenbyte 0x80 =? 0) then
           let lenbyte := lenbyte - 0x80 in
           if lenbyte >? inputlen - pos then None
           else
             let '(pos, lenbyte) := skip_zeros (Z.to_nat lenbyte) input pos lenbyte in
             if lenbyte >=? 4 then None else Some (read_length (Z.to_nat lenbyte) input pos 0)
         else Some (pos, lenbyte));
      if len >? inputlen - pos then None else Some (pos, len).

(** the tag and the length of the sequence: the length is not looked at *)
Definition der_sequence (input : list Z) : option Z :=
  let inputlen := zlen input in
  if (0 =? inputlen) || negb (input.[0] =? 0x30) then None
  else if 1 =? inputlen then None
  else
    let lenbyte := input.[1] in
    let pos := 2 in
    if negb (Z.land lenbyte 0x80 =? 0) then
      let lenbyte := lenbyte - 0x80 in
      if lenbyte >? inputlen - pos then None else Some (pos + lenbyte)
    else Some pos.

(** an integer without its leading zeros, in 32 bytes; [None] overflows *)
Definition der_value (input : list Z) (pos len : Z) : option (list Z) :=
  let '(pos, len) := skip_zeros (Z.to_nat len) input pos len in
  if len >? 32 then None else Some (zrep (32 - len) 0 ++ ztake len (zdrop pos input)).

Section keys.
Context `{Cpu} `{Secp256k1}.

(** a correctly parsed but invalid signature *)
Definition zero_signature : secp_signature := (secp256k1_ecdsa_signature_parse_compact (zrep 64 0)).2.

Definition ecdsa_signature_parse_der_lax (input : list Z) : option secp_signature :=
  pos ← der_sequence input;
  '(rpos, rlen) ← der_integer input pos;
  '(spos, slen) ← der_integer input (rpos + rlen);
  Some (match der_value input rpos rlen, der_value input spos slen with
        | Some r, Some s =>
            let '(parsed, sig) := secp256k1_ecdsa_signature_parse_compact (r ++ s) in
            if negb parsed then zero_signature else sig
        | _, _ => zero_signature
        end).

Definition IsFullyValid (k : CPubKey) : bool :=
  if negb (IsValid k) then false
  else match secp256k1_ec_pubkey_parse (ztake (CPubKey_size k) k) with Some _ => true | None => false end.

Definition PubKey_Verify (k : CPubKey) (hash : uint256) (vchSig : list Z) : bool :=
  if negb (IsValid k) then false
  else
    match secp256k1_ec_pubkey_parse (ztake (CPubKey_size k) k) with
    | None => false
    | Some pubkey =>
        match ecdsa_signature_parse_der_lax vchSig with
        | None => false
        | Some sig =>
            let sig := (secp256k1_ecdsa_signature_normalize sig).2 in
            secp256k1_ecdsa_verify sig hash pubkey
        end
    end.

(** [secp256k1_ecdsa_signature_normalize] returns whether the signature was not normalized *)
Definition CheckLowS (vchSig : list Z) : bool :=
  match ecdsa_signature_parse_der_lax vchSig with
  | None => false
  | Some sig => negb (secp256k1_ecdsa_signature_normalize sig).1
  end.

(** the key afterwards; [None] is [false], which leaves it alone *)
Definition Decompress (k : CPubKey) : option CPubKey :=
  if negb (IsValid k) then None
  else
    pubkey ← secp256k1_ec_pubkey_parse (ztake (CPubKey_size k) k);
    Some (CPubKey_Set (secp256k1_ec_pubkey_serialize false pubkey)).

(** the outer [None] is a failed assertion, the inner one [false] *)
Definition Derive (little_endian : bool) (k : CPubKey) (nChild : Z) (cc : uint256) : option (option (CPubKey * uint256)) :=
  if negb (IsValid k) || negb (Z.shiftr nChild 31 =? 0) || negb (CPubKey_size k =? COMPRESSED_SIZE) then None
  else
    let out := BIP32Hash little_endian cc nChild k.[0] (zdrop 1 k) in
    Some (pubkey ← secp256k1_ec_pubkey_parse (ztake (CPubKey_size k) k);
          pubkey ← secp256k1_ec_pubkey_tweak_add pubkey (ztake 32 out);
          Some (CPubKey_Set (secp256k1_ec_pubkey_serialize true pubkey), zdrop 32 out)).

(** ** XOnlyPubKey: 32 bytes *)

(** the assertion on the size is [None] *)
Definition VerifySchnorr (m_keydata : list Z) (msg : uint256) (sigbytes : list Z) : option bool :=
  if negb (zlen sigbytes =? 64) then None
  else Some (match secp256k1_xonly_pubkey_parse m_keydata with
             | None => false
             | Some pubkey => secp256k1_schnorrsig_verify sigbytes msg pubkey
             end).

(** the bytes of "TapTweak" *)
Definition HASHER_TAPTWEAK : HashWriter := TaggedHash [84; 97; 112; 84; 119; 101; 97; 107].

Definition ComputeTapTweakHash (m_keydata : list Z) (merkle_root : option uint256) : uint256 :=
  match merkle_root with
  | None => HashWriter_GetSHA256 (HashWriter_write HASHER_TAPTWEAK (ser_blob m_keydata))
  | Some root => HashWriter_GetSHA256 (HashWriter_write (HashWriter_write HASHER_TAPTWEAK (ser_blob m_keydata)) (ser_blob root))
  end.

Definition CheckTapTweak (m_keydata internal : list Z) (merkle_root : uint256) (parity : bool) : bool :=
  match secp256k1_xonly_pubkey_parse internal with
  | None => false
  | Some internal_key =>
      let tweak := ComputeTapTweakHash internal (Some merkle_root) in
      secp256k1_xonly_pubkey_tweak_add_check m_keydata parity internal_key tweak
  end.

(** the tweaked point with its parity; the outer [None] is the failed assertion, the inner one [std::nullopt] *)
Definition CreateTapTweak (m_keydata : list Z) (merkle_root : option uint256) : option (option (list Z * bool)) :=
  match (base_point ← secp256k1_xonly_pubkey_parse m_keydata;
         out ← secp256k1_xonly_pubkey_tweak_add base_point (ComputeTapTweakHash m_keydata merkle_root);
         secp256k1_xonly_pubkey_from_pubkey out) with
  | None => Some None
  | Some (out_xonly, parity) =>
      if (parity =? 0) || (parity =? 1) then Some (Some (secp256k1_xonly_pubkey_serialize out_xonly, negb (parity =? 0))) else None
  end.

(** ** CExtPubKey *)

Record CExtPubKey : Type := {
  ext_version : list Z; nDepth : Z; vchFingerprint : list Z; nChild : Z; chaincode : uint256; pubkey : CPubKey }.

Definition BIP32_EXTKEY_SIZE : Z := 74.

(** [None] is the failed assertion *)
Definition ExtPubKey_Encode (k : CExtPubKey) : option (list Z) :=
  if negb (CPubKey_size (pubkey k) =? COMPRESSED_SIZE) then None
  else Some ([nDepth k] ++ ztake 4 (vchFingerprint k) ++ WriteBE 4 (nChild k) ++ ztake 32 (chaincode k) ++ ztake COMPRESSED_SIZE (pubkey k)).
Definition ExtPubKey_Decode (version code : list Z) : CExtPubKey :=
  let depth := code.[0] in
  let fingerprint := ztake 4 (zdrop 1 code) in
  let child := ReadBE32 (zdrop 5 code) in
  let key := CPubKey_Set (ztake (BIP32_EXTKEY_SIZE - 41) (zdrop 41 code)) in
  {| ext_version := version; nDepth := depth; vchFingerprint := fingerprint; nChild := child; chaincode := ztake 32 (zdrop 9 code);
     pubkey := if ((depth =? 0) && (negb (child =? 0) || negb (ReadLE 4 fingerprint =? 0))) || negb (IsFullyValid key) then CPubKey_invalid else key |}.
Definition ExtPubKey_EncodeWithVersion (k : CExtPubKey) : option (list Z) :=
  code ← ExtPubKey_Encode k; Some (ztake 4 (ext_version k) ++ code).
Definition ExtPubKey_DecodeWithVersion (code : list Z) : CExtPubKey := ExtPubKey_Decode (ztake 4 code) (zdrop 4 code).

Definition ExtPubKey_Derive (little_endian : bool) (k out : CExtPubKey) (_nChild : Z) : option (option CExtPubKey) :=
  if nDepth k =? 255 then Some None
  else
    r ← Derive little_endian (pubkey k) _nChild (chaincode k);
    Some ('(key, cc) ← r;
          Some {| ext_version := ext_version out; nDepth := nDepth k + 1; vchFingerprint := ztake 4 (GetID (pubkey k));
                  nChild := _nChild; chaincode := cc; pubkey := key |}).

End keys.
