(* ===== verification/Primitives.v ===== *)
(** * Transactions and blocks

    src/primitives/transaction.h, transaction.cpp, block.h and block.cpp: the
    data types, their wire formats (with and without witness), the transaction
    identifiers (double SHA-256) and the block hash (BLAKE3 of the 80 bytes of
    the header).  A [CTransaction] caches its hashes in constant members; here they are
    functions of it. *)

From Stdlib Require Import ZArith Lia Bool.
From stdpp Require Import base option list.
From S2P Require Import Prelude Uint256 Params Blake3 Sha256 Sha256Proofs Hashes Serialize.
Local Open Scope Z_scope.
Local Open Scope adonai_scope.

(** ** Data *)

Notation CScript := (list Z) (only parsing).

Record COutPoint : Type := { out_hash : uint256; out_n : Z }.
Record CTxIn : Type := { prevout : COutPoint; scriptSig : CScript; nSequence : Z; scriptWitness : list (list Z) }.
Record CTxOut : Type := { nValue : Z; scriptPubKey : CScript }.
Record CTransaction : Type := { version : Z; vin : list CTxIn; vout : list CTxOut; nLockTime : Z }.
Record CBlockHeader : Type := {
  nVersion : Z; hashPrevBlock : uint256; hashMerkleRoot : uint256; nTime : Z; nBits : Z; nNonce : Z }.
(** [fChecked] and the other memory-only flags cache results of validation *)
Record CBlock : Type := { header : CBlockHeader; vtx : list CTransaction }.
Record CBlockLocator : Type := { vHave : list uint256 }.

#[export] Instance COutPoint_eq_dec : EqDecision COutPoint.
Proof. solve_decision. Defined.
#[export] Instance CTxIn_eq_dec : EqDecision CTxIn.
Proof. solve_decision. Defined.
#[export] Instance CTxOut_eq_dec : EqDecision CTxOut.
Proof. solve_decision. Defined.
#[export] Instance CTransaction_eq_dec : EqDecision CTransaction.
Proof. solve_decision. Defined.
#[export] Instance CBlockHeader_eq_dec : EqDecision CBlockHeader.
Proof. solve_decision. Defined.

(** ** Outpoints, inputs, outputs *)

Definition NULL_INDEX : Z := 2 ^ 32 - 1.
Definition COutPoint_null : COutPoint := {| out_hash := replicate 32 0; out_n := NULL_INDEX |}.
Definition COutPoint_IsNull (o : COutPoint) : bool := IsNull (out_hash o) && (out_n o =? NULL_INDEX).
Definition COutPoint_lt (a b : COutPoint) : bool :=
  blob_ltb (out_hash a) (out_hash b) || (negb (blob_ltb (out_hash b) (out_hash a)) && (out_n a <? out_n b)).

Definition SEQUENCE_FINAL : Z := 0xffffffff.
Definition MAX_SEQUENCE_NONFINAL : Z := SEQUENCE_FINAL - 1.
Definition SEQUENCE_LOCKTIME_DISABLE_FLAG : Z := Z.shiftl 1 31.
Definition SEQUENCE_LOCKTIME_TYPE_FLAG : Z := Z.shiftl 1 22.
Definition SEQUENCE_LOCKTIME_MASK : Z := 0x0000ffff.
Definition SEQUENCE_LOCKTIME_GRANULARITY : Z := 9.

Definition CTxOut_SetNull : CTxOut := {| nValue := -1; scriptPubKey := [] |}.
Definition CTxOut_IsNull (o : CTxOut) : bool := nValue o =? -1.

Definition ser_COutPoint (o : COutPoint) : list Z := ser_blob (out_hash o) ++ ser_writedata32 (out_n o).
Definition unser_COutPoint : reader COutPoint := fun s =>
  '(h, s) ← unser_blob (Z.of_nat 32) s; '(i, s) ← ser_readdata32 s; Some ({| out_hash := h; out_n := i |}, s).

Definition ser_CTxIn (i : CTxIn) : list Z :=
  ser_COutPoint (prevout i) ++ ser_bytes (scriptSig i) ++ ser_writedata32 (nSequence i).
Definition unser_CTxIn : reader CTxIn := fun s =>
  '(p, s) ← unser_COutPoint s; '(sg, s) ← unser_bytes s; '(q, s) ← ser_readdata32 s;
  Some ({| prevout := p; scriptSig := sg; nSequence := q; scriptWitness := [] |}, s).

Definition ser_CTxOut (o : CTxOut) : list Z := ser_int64 (nValue o) ++ ser_bytes (scriptPubKey o).
Definition unser_CTxOut : reader CTxOut := fun s =>
  '(v, s) ← unser_int64 s; '(spk, s) ← unser_bytes s; Some ({| nValue := v; scriptPubKey := spk |}, s).

(** ** Transactions *)


Definition CScriptWitness_IsNull (stack : list (list Z)) : bool := match stack with [] => true | _ => false end.
Definition HasWitness (tx : CTransaction) : bool := existsb (fun i => negb (CScriptWitness_IsNull (scriptWitness i))) (vin tx).

Definition ser_stack : list (list Z) -> list Z := ser_vector ser_bytes.
Definition unser_stack : reader (list (list Z)) := unser_vector unser_bytes.

(** [for (i < vin.size()) s >> vin[i].scriptWitness.stack] *)
Fixpoint unser_witnesses (ins : list CTxIn) : reader (list CTxIn) := fun s =>
  match ins with
  | [] => Some ([], s)
  | i :: ins =>
      '(w, s) ← unser_stack s;
      '(ins, s) ← unser_witnesses ins s;
      Some ({| prevout := prevout i; scriptSig := scriptSig i; nSequence := nSequence i; scriptWitness := w |} :: ins, s)
  end.

Definition UnserializeTransaction (fAllowWitness : bool) : reader CTransaction := fun s =>
  '(ver, s) ← ser_readdata32 s;
  '(ins, s) ← unser_vector unser_CTxIn s;
  '(flags, ins, outs, s) ←
    (if (zlen ins =? 0) && fAllowWitness then
       '(flags, s) ← ser_readdata8 s;
       if negb (flags =? 0) then
         '(ins, s) ← unser_vector unser_CTxIn s;
         '(outs, s) ← unser_vector unser_CTxOut s;
         Some (flags, ins, outs, s)
       else Some (flags, ins, [], s)
     else
       '(outs, s) ← unser_vector unser_CTxOut s;
       Some (0, ins, outs, s));
  '(flags, ins, s) ←
    (if negb (Z.land flags 1 =? 0) && fAllowWitness then
       let flags := Z.lxor flags 1 in
       '(ins, s) ← unser_witnesses ins s;
       if negb (HasWitness {| version := ver; vin := ins; vout := outs; nLockTime := 0 |}) then None
       else Some (flags, ins, s)
     else Some (flags, ins, s));
  if negb (flags =? 0) then None
  else
    '(lock, s) ← ser_readdata32 s;
    Some ({| version := ver; vin := ins; vout := outs; nLockTime := lock |}, s).

Definition SerializeTransaction (fAllowWitness : bool) (tx : CTransaction) : list Z :=
  let flags := if fAllowWitness && HasWitness tx then 1 else 0 in
  ser_writedata32 (version tx) ++
  (if negb (flags =? 0) then ser_vector ser_CTxIn [] ++ ser_writedata8 flags else []) ++
  ser_vector ser_CTxIn (vin tx) ++
  ser_vector ser_CTxOut (vout tx) ++
  (if negb (Z.land flags 1 =? 0) then flat_map (fun i => ser_stack (scriptWitness i)) (vin tx) else []) ++
  ser_writedata32 (nLockTime tx).

Definition CTransaction_IsNull (tx : CTransaction) : bool := (zlen (vin tx) =? 0) && (zlen (vout tx) =? 0).
Definition IsCoinBase (tx : CTransaction) : bool :=
  match vin tx with
  | [i] => COutPoint_IsNull (prevout i)
  | _ => false
  end.

Definition ComputeHash (tx : CTransaction) : uint256 :=
  HashWriter_GetHash (HashWriter_write HashWriter_init (SerializeTransaction false tx)).
Definition ComputeWitnessHash (tx : CTransaction) : uint256 :=
  if negb (HasWitness tx) then ComputeHash tx
  else HashWriter_GetHash (HashWriter_write HashWriter_init (SerializeTransaction true tx)).

(** [None] is the [std::runtime_error]; the final assertion is part of the model. *)
Fixpoint value_out_loop (nValueOut : Z) (outs : list CTxOut) : option Z :=
  match outs with
  | [] => if MoneyRange nValueOut then Some nValueOut else None
  | o :: outs =>
      if negb (MoneyRange (nValue o)) || negb (MoneyRange (i64 (nValueOut + nValue o))) then None
      else value_out_loop (i64 (nValueOut + nValue o)) outs
  end.
Definition GetValueOut (tx : CTransaction) : option Z := value_out_loop 0 (vout tx).
Definition GetTotalSize (tx : CTransaction) : Z := u32 (zlen (SerializeTransaction true tx)).

(** ** Blocks *)

Definition CBlockHeader_SetNull : CBlockHeader :=
  {| nVersion := 0; hashPrevBlock := replicate 32 0; hashMerkleRoot := replicate 32 0; nTime := 0; nBits := 0; nNonce := 0 |}.
Definition CBlockHeader_IsNull (b : CBlockHeader) : bool := nBits b =? 0.
Definition GetBlockTime (b : CBlockHeader) : Z := nTime b.

Definition ser_CBlockHeader (b : CBlockHeader) : list Z :=
  ser_int32 (nVersion b) ++ ser_blob (hashPrevBlock b) ++ ser_blob (hashMerkleRoot b) ++
  ser_writedata32 (nTime b) ++ ser_writedata32 (nBits b) ++ ser_writedata32 (nNonce b).
Definition unser_CBlockHeader : reader CBlockHeader := fun s =>
  '(v, s) ← unser_int32 s; '(p, s) ← unser_blob (Z.of_nat 32) s; '(m, s) ← unser_blob (Z.of_nat 32) s;
  '(t, s) ← ser_readdata32 s; '(b, s) ← ser_readdata32 s; '(x, s) ← ser_readdata32 s;
  Some ({| nVersion := v; hashPrevBlock := p; hashMerkleRoot := m; nTime := t; nBits := b; nNonce := x |}, s).

Definition CBlockHeader_GetHash `{Cpu} (b : CBlockHeader) : uint256 :=
  let hasher := blake3_hasher_update blake3_simd_degree blake3_hasher_init (ser_CBlockHeader b) in
  blake3_hasher_finalize hasher BLAKE3_OUT_LEN.

(** blocks are sent and stored with witness *)
Definition ser_CBlock (b : CBlock) : list Z :=
  ser_CBlockHeader (header b) ++ ser_vector (SerializeTransaction true) (vtx b).
Definition unser_CBlock : reader CBlock := fun s =>
  '(h, s) ← unser_CBlockHeader s; '(txs, s) ← unser_vector (UnserializeTransaction true) s;
  Some ({| header := h; vtx := txs |}, s).
Definition GetBlockHeader (b : CBlock) : CBlockHeader := header b.

Definition DUMMY_VERSION : Z := 70016.
Definition ser_CBlockLocator (l : CBlockLocator) : list Z := ser_int32 DUMMY_VERSION ++ ser_vector ser_blob (vHave l).
Definition unser_CBlockLocator : reader CBlockLocator := fun s =>
  '(v, s) ← unser_int32 s; '(h, s) ← unser_vector (unser_blob (Z.of_nat 32)) s; Some ({| vHave := h |}, s).

(** ** Wire formats

    [codec_read] evaluates a reader on what the writer produced, field by field;
    [codec_fields] inverts a successful read into the fields and the bytes they came from. *)

Ltac cbn_fields :=
  cbn [out_hash out_n prevout scriptSig nSequence scriptWitness nValue scriptPubKey version vin vout nLockTime
       nVersion hashPrevBlock hashMerkleRoot nTime nBits nNonce header vtx vHave] in *.

Ltac codec_write :=
  repeat match goal with |- limbs_ok 8 (_ ++ _) => apply limbs_ok_app end;
  match goal with H : ?ok ?a |- limbs_ok 8 (_ ?a) => exact (codec_bytes (ok := ok) a H) end.

Ltac codec_read :=
  rewrite <- ?app_assoc;
  repeat (rewrite codec_roundtrip by (assumption || eauto); cbn [mbind option_bind]).

Ltac codec_fields H Hs :=
  repeat match type of H with
  | (?m ≫= _) = Some _ =>
      let x := fresh "x" in let s1 := fresh "s" in let E := fresh "E" in let Hs1 := fresh "Hs" in let Hok := fresh "Hok" in
      apply bind_Some in H as ([x s1] & E & H);
      pose proof (codec_rest _ _ _ _ _ _ Hs E) as Hs1;
      apply codec_canonical in E as [-> Hok]; [|exact Hs]; clear Hs; rename Hs1 into Hs
  end.

Definition outpoint_ok (o : COutPoint) : Prop := blob_ok 32 (out_hash o) /\ fits 32 (out_n o).
Definition txin_base_ok (i : CTxIn) : Prop := outpoint_ok (prevout i) /\ bytes_ok (scriptSig i) /\ fits 32 (nSequence i).
Definition txin_read_ok (i : CTxIn) : Prop := txin_base_ok i /\ scriptWitness i = [].
Definition txout_ok (o : CTxOut) : Prop := sfits 64 (nValue o) /\ bytes_ok (scriptPubKey o).

#[export] Instance outpoint_codec : Codec outpoint_ok ser_COutPoint unser_COutPoint.
Proof.
  split; unfold ser_COutPoint, unser_COutPoint.
  - intros o [Hh Hn]. codec_write.
  - intros [h i] rest [Hh Hn]; cbn_fields. codec_read. done.
  - intros s [h i] rest Hs H. codec_fields H Hs. simplify_eq. cbn_fields. rewrite <- app_assoc. done.
Qed.

#[export] Instance txin_codec : Codec txin_read_ok ser_CTxIn unser_CTxIn.
Proof.
  split; unfold ser_CTxIn, unser_CTxIn.
  - intros i [(Hp & Hsg & Hq) _]. codec_write.
  - intros [p sg q w] rest [(Hp & Hsg & Hq) Hw]; cbn_fields. codec_read. subst. done.
  - intros s [p sg q w] rest Hs H. codec_fields H Hs. simplify_eq. cbn_fields. rewrite <- !app_assoc. done.
Qed.

#[export] Instance txout_codec : Codec txout_ok ser_CTxOut unser_CTxOut.
Proof.
  split; unfold ser_CTxOut, unser_CTxOut.
  - intros o [Hh Hn]. codec_write.
  - intros [v k] rest [Hv Hk]; cbn_fields. codec_read. done.
  - intros s [v k] rest Hs H. codec_fields H Hs. simplify_eq. cbn_fields. rewrite <- app_assoc. done.
Qed.

Definition header_ok (b : CBlockHeader) : Prop :=
  sfits 32 (nVersion b) /\ blob_ok 32 (hashPrevBlock b) /\ blob_ok 32 (hashMerkleRoot b) /\
  fits 32 (nTime b) /\ fits 32 (nBits b) /\ fits 32 (nNonce b).

#[export] Instance header_codec : Codec header_ok ser_CBlockHeader unser_CBlockHeader.
Proof.
  split; unfold ser_CBlockHeader, unser_CBlockHeader.
  - intros b (H1 & H2 & H3 & H4 & H5 & H6). codec_write.
  - intros [v p m t b x] rest (H1 & H2 & H3 & H4 & H5 & H6); cbn_fields. codec_read. done.
  - intros s [v p m t b x] rest Hs H. codec_fields H Hs. simplify_eq. unfold header_ok. cbn_fields. rewrite <- !app_assoc. done.
Qed.

(** *** Transactions *)

Definition stack_ok : list (list Z) -> Prop := vector_ok bytes_ok.
Definition tx_ok (fAllowWitness : bool) (tx : CTransaction) : Prop :=
  fits 32 (version tx) /\ vector_ok txin_base_ok (vin tx) /\ Forall (fun i => stack_ok (scriptWitness i)) (vin tx) /\
  vector_ok txout_ok (vout tx) /\ fits 32 (nLockTime tx) /\
  (if fAllowWitness then vin tx = [] -> vout tx = [] else HasWitness tx = false).

Definition strip_witness (i : CTxIn) : CTxIn :=
  {| prevout := prevout i; scriptSig := scriptSig i; nSequence := nSequence i; scriptWitness := [] |}.

Lemma ser_vin_strip v : ser_vector ser_CTxIn (map strip_witness v) = ser_vector ser_CTxIn v.
Proof.
  unfold ser_vector. rewrite length_map. f_equal. induction v as [|i v IH]; [done|]. cbn [map flat_map]. rewrite IH. done.
Qed.

Lemma vin_strip_ok v : vector_ok txin_base_ok v -> vector_ok txin_read_ok (map strip_witness v).
Proof.
  intros [Hl Hv]. split; [rewrite length_map; exact Hl|]. apply Forall_map. eapply Forall_impl; [exact Hv|]. done.
Qed.

Lemma vin_read_base v : vector_ok txin_read_ok v -> vector_ok txin_base_ok v /\ map strip_witness v = v.
Proof.
  intros [Hl Hv]. split; [split; [exact Hl|]; eapply Forall_impl; [exact Hv|]; intros i [Hi _]; exact Hi|].
  clear Hl. induction Hv as [|i v [_ Hi] _ IH]; [done|]. cbn [map]. rewrite IH. destruct i; cbn_fields. subst. done.
Qed.

Lemma vin_base_strip v : vector_ok txin_base_ok (map strip_witness v) <-> vector_ok txin_base_ok v.
Proof. unfold vector_ok. rewrite length_map, Forall_map. done. Qed.

Lemma unser_vin v rest : vector_ok txin_base_ok v ->
  unser_vector unser_CTxIn (ser_vector ser_CTxIn v ++ rest) = Some (map strip_witness v, rest).
Proof.
  intros Hv. rewrite <- ser_vin_strip. apply (codec_roundtrip (ok := vector_ok txin_read_ok)). apply vin_strip_ok, Hv.
Qed.

Lemma HasWitness_false tx : HasWitness tx = false <-> map strip_witness (vin tx) = vin tx.
Proof.
  unfold HasWitness. induction (vin tx) as [|[p sg q w] v IH]; [done|]. cbn [existsb map strip_witness]. cbn_fields. split.
  - intros H. apply orb_false_iff in H as [Hw Hv]. rewrite (proj1 IH Hv). destruct w; done.
  - intros [= Hw Hv]. rewrite (proj2 IH Hv), <- Hw. done.
Qed.

Lemma no_witness_ok v : map strip_witness v = v -> Forall (fun i => stack_ok (scriptWitness i)) v.
Proof.
  intros <-. apply Forall_map, Forall_true. intros i. split; [vm_compute; congruence|constructor].
Qed.

Lemma unser_witnesses_ser v rest : Forall (fun i => stack_ok (scriptWitness i)) v ->
  unser_witnesses (map strip_witness v) (flat_map (fun i => ser_stack (scriptWitness i)) v ++ rest) = Some (v, rest).
Proof.
  induction 1 as [|i v Hi _ IH]; [done|]. cbn [map flat_map unser_witnesses]. rewrite <- app_assoc.
  unfold unser_stack, ser_stack at 1. rewrite (codec_roundtrip (ok := vector_ok bytes_ok)) by exact Hi.
  cbn [mbind option_bind]. rewrite IH. destruct i; done.
Qed.

Lemma unser_witnesses_canonical v s v' rest : limbs_ok 8 s -> unser_witnesses v s = Some (v', rest) ->
  s = flat_map (fun i => ser_stack (scriptWitness i)) v' ++ rest /\
  map strip_witness v' = map strip_witness v /\ Forall (fun i => stack_ok (scriptWitness i)) v' /\ limbs_ok 8 rest.
Proof.
  revert s v'. induction v as [|i v IH]; intros s v' Hs H; cbn [unser_witnesses] in H.
  { injection H as <- <-. done. }
  apply bind_Some in H as ([w s1] & E & H). unfold unser_stack in E.
  pose proof (codec_rest _ _ _ _ _ _ Hs E) as Hs1. apply codec_canonical in E as [-> Hw]; [|exact Hs].
  apply bind_Some in H as ([v1 s2] & E & H). injection H as <- <-.
  apply IH in E as (-> & Hm & Hv & Hr); [|exact Hs1]. cbn [flat_map map]. cbn_fields. rewrite Hm, <- app_assoc.
  split_and!; [done|done|constructor; assumption|exact Hr].
Qed.

Lemma ser_tx_bytes allow tx : tx_ok allow tx -> limbs_ok 8 (SerializeTransaction allow tx).
Proof.
  intros (Hv & Hin & Hw & Hout & Hl & _). unfold SerializeTransaction.
  repeat match goal with |- limbs_ok 8 (_ ++ _) => apply limbs_ok_app end; try (case_match; [|constructor]).
  - exact (codec_bytes (ok := fits 32) _ Hv).
  - apply limbs_ok_app; [apply limbs_ok_app; [apply WriteCompactSize_bytes|constructor]|].
    constructor; [apply wrap_fits; lia|constructor].
  - rewrite <- ser_vin_strip. apply (codec_bytes (ok := vector_ok txin_read_ok)), vin_strip_ok, Hin.
  - exact (codec_bytes (ok := vector_ok txout_ok) _ Hout).
  - clear Hin. induction Hw as [|i v Hi _ IH]; [constructor|]. cbn [flat_map]. apply limbs_ok_app; [|exact IH].
    exact (codec_bytes (ok := vector_ok bytes_ok) _ Hi).
  - exact (codec_bytes (ok := fits 32) _ Hl).
Qed.

(** Reading the two bytes that announce the extended format. *)
Lemma unser_dummy_vin rest : unser_vector unser_CTxIn (ser_vector ser_CTxIn [] ++ rest) = Some ([], rest).
Proof. apply (unser_vin []). split; [vm_compute; congruence|constructor]. Qed.

Ltac flag_eval := repeat progress (
  change (Z.land 1 1) with 1; change (Z.land 0 1) with 0; change (Z.lxor 1 1) with 0; change (1 =? 0) with false;
  change (0 =? 0) with true; change (Z.of_nat (length (@nil CTxIn))) with 0; change (Z.of_nat 0) with 0;
  cbn [mbind option_bind negb andb app]).

Lemma unser_tx_ser allow tx rest : tx_ok allow tx ->
  UnserializeTransaction allow (SerializeTransaction allow tx ++ rest) = Some (tx, rest).
Proof.
  intros (Hv & Hin & Hw & Hout & Hl & Hx). unfold UnserializeTransaction, SerializeTransaction.
  destruct (allow && HasWitness tx) eqn:Hflag.
  - (* extended *)
    apply andb_true_iff in Hflag as [-> Hwit]. flag_eval. rewrite <- !app_assoc.
    rewrite (codec_roundtrip (ok := fits 32)) by exact Hv. flag_eval.
    rewrite unser_dummy_vin. flag_eval.
    rewrite (codec_roundtrip (Codec := byte_codec)) by (unfold fits; lia). flag_eval.
    rewrite unser_vin by exact Hin. flag_eval.
    rewrite (codec_roundtrip (ok := vector_ok txout_ok)) by exact Hout. flag_eval.
    rewrite unser_witnesses_ser by exact Hw. flag_eval.
    assert (HasWitness {| version := version tx; vin := vin tx; vout := vout tx; nLockTime := 0 |} = true) as -> by exact Hwit.
    flag_eval.
    rewrite (codec_roundtrip (ok := fits 32)) by exact Hl. destruct tx; done.
  - (* basic *)
    flag_eval. rewrite <- !app_assoc.
    rewrite (codec_roundtrip (ok := fits 32)) by exact Hv. flag_eval.
    rewrite unser_vin by exact Hin. flag_eval.
    assert (Hs : map strip_witness (vin tx) = vin tx).
    { apply HasWitness_false. destruct allow; [exact Hflag|exact Hx]. }
    rewrite Hs. destruct ((zlen (vin tx) =? 0) && allow) eqn:Hempty.
    + apply andb_true_iff in Hempty as [Hz ->]. apply Z.eqb_eq, zlen_nil_inv in Hz. rewrite (Hx Hz). rewrite Hz in *.
      change (ser_vector ser_CTxOut []) with (ser_writedata8 0).
      rewrite (codec_roundtrip (Codec := byte_codec)) by (unfold fits; lia).
      flag_eval.
      rewrite (codec_roundtrip (ok := fits 32)) by exact Hl. destruct tx; cbn_fields. rewrite Hz, (Hx eq_refl). done.
    + rewrite (codec_roundtrip (ok := vector_ok txout_ok)) by exact Hout.
      flag_eval.
      rewrite (codec_roundtrip (ok := fits 32)) by exact Hl. destruct tx; done.
Qed.

(** Peel one field off a successful read: its bytes, its bounds, and that the rest are bytes. *)
Ltac read_field H Hs x Hx :=
  let s1 := fresh "s" in let E := fresh "E" in let Hs1 := fresh "Hs" in
  apply bind_Some in H as ([x s1] & E & H); pose proof (codec_rest _ _ _ _ _ _ Hs E) as Hs1;
  apply codec_canonical in E as [-> Hx]; [|exact Hs]; clear Hs; rename Hs1 into Hs.

(** A flag byte that leaves no unknown flag. *)
Lemma flag_byte b : b <> 0 -> (if negb (Z.land b 1 =? 0) && true then Z.lxor b 1 else b) = 0 -> b = 1.
Proof.
  intros Hb. destruct (Z.land b 1 =? 0); cbn [negb andb]; [done|]. intros H. apply Z.lxor_eq in H. exact H.
Qed.

Lemma unser_tx_extended ver s tx rest : limbs_ok 8 s -> fits 32 ver ->
  ('(ins, s) ← unser_vector unser_CTxIn s;
   '(outs, s) ← unser_vector unser_CTxOut s;
   '(ins, s) ← unser_witnesses ins s;
   if negb (HasWitness {| version := ver; vin := ins; vout := outs; nLockTime := 0 |}) then None
   else '(lock, s) ← ser_readdata32 s; Some ({| version := ver; vin := ins; vout := outs; nLockTime := lock |}, s)) =
  Some (tx, rest) ->
  ver = version tx /\ HasWitness tx = true /\ tx_ok true tx /\
  s = ser_vector ser_CTxIn (vin tx) ++ ser_vector ser_CTxOut (vout tx) ++
      flat_map (fun i => ser_stack (scriptWitness i)) (vin tx) ++ ser_writedata32 (nLockTime tx) ++ rest.
Proof.
  intros Hs Hver H. read_field H Hs ins0 Hin0. read_field H Hs outs Hout.
  apply bind_Some in H as ([ins s3] & E & H).
  apply unser_witnesses_canonical in E as (-> & Hm & Hw & Hr); [|exact Hs].
  destruct (HasWitness _) eqn:Hwit in H; [|done]. cbn [negb] in H. read_field H Hr lock Hlock.
  injection H as <- <-. unfold tx_ok. cbn_fields.
  assert (Hlen : length ins = length ins0) by (rewrite <- (length_map strip_witness ins), Hm, length_map; done).
  assert (Hin : vector_ok txin_base_ok ins).
  { apply vin_base_strip. rewrite Hm. apply vin_base_strip. apply vin_read_base, Hin0. }
  split_and!; try done.
  - intros ->. done.
  - rewrite <- (ser_vin_strip ins), Hm, ser_vin_strip. done.
Qed.

Lemma unser_tx_canonical allow s tx rest : limbs_ok 8 s -> UnserializeTransaction allow s = Some (tx, rest) ->
  s = SerializeTransaction allow tx ++ rest /\ tx_ok allow tx.
Proof.
  intros Hs H. unfold UnserializeTransaction in H.
  read_field H Hs ver Hver. read_field H Hs ins0 Hin0.
  apply vin_read_base in Hin0 as [Hin0 Hstrip0].
  destruct ((zlen ins0 =? 0) && allow) eqn:Hempty.
  - apply andb_true_iff in Hempty as [Hz ->]. apply Z.eqb_eq, zlen_nil_inv in Hz. subst ins0.
    apply bind_Some in H as ([[[fl ins] outs] s3] & E & H).
    read_field E Hs b Hb. destruct (Z.eqb_spec b 0) as [->|Hb0]; cbn [negb] in E.
    + injection E as <- <- <- <-. change (negb (Z.land 0 1 =? 0) && true) with false in H.
      cbn [mbind option_bind] in H. change (negb (0 =? 0)) with false in H. cbv iota in H.
      read_field H Hs lock Hlock. injection H as <- <-.
      split; [unfold SerializeTransaction; cbn_fields; rewrite <- !app_assoc; done|].
      split_and!; try done; cbn_fields; split; try constructor; vm_compute; congruence.
    + apply bind_Some in E as ([ins1 s4] & E1 & E). apply bind_Some in E as ([outs1 s5] & E2 & E). injection E as <- <- <- <-.
      destruct (negb (Z.land b 1 =? 0)) eqn:Hbit; cbn [andb] in H.
      2: { cbn [mbind option_bind] in H. apply Z.eqb_neq in Hb0. rewrite Hb0 in H. done. }
      apply bind_Some in H as ([[fl ins2] s6] & E & H). apply bind_Some in E as ([ins3 s7] & E3 & E).
      destruct (HasWitness _) eqn:Hw in E; [|done]. cbn [negb] in E. injection E as <- <- <-.
      destruct (Z.eqb_spec (Z.lxor b 1) 0) as [Hfl|]; [|done]. cbn [negb] in H. apply Z.lxor_eq in Hfl. subst b.
      apply bind_Some in H as ([lock s8] & E4 & H).
      destruct (unser_tx_extended ver _ tx rest Hs Hver) as (-> & Hwit & Hok & Heq).
      { rewrite E1. cbn [mbind option_bind]. rewrite E2. cbn [mbind option_bind]. rewrite E3. cbn [mbind option_bind].
        rewrite Hw. cbn [negb]. rewrite E4. exact H. }
      rewrite Heq. split; [|exact Hok]. unfold SerializeTransaction. rewrite Hwit. cbn [andb]. flag_eval. rewrite <- !app_assoc. done.
  - apply bind_Some in H as ([[[fl ins] outs] s3] & E & H). read_field E Hs outs1 Hout. injection E as <- <- <- <-.
    change (negb (Z.land 0 1 =? 0) && allow) with false in H. cbn [mbind option_bind] in H.
    change (negb (0 =? 0)) with false in H. cbv iota in H. read_field H Hs lock Hlock. injection H as <- <-.
    assert (Hnw : HasWitness {| version := ver; vin := ins0; vout := outs1; nLockTime := lock |} = false)
      by (apply HasWitness_false; exact Hstrip0).
    split.
    + unfold SerializeTransaction. rewrite Hnw, andb_false_r. flag_eval. cbn_fields. rewrite <- !app_assoc. done.
    + split_and!; try done; cbn_fields; [apply no_witness_ok, Hstrip0|]. destruct allow; [|exact Hnw].
      intros ->. done.
Qed.

#[export] Instance tx_codec allow : Codec (tx_ok allow) (SerializeTransaction allow) (UnserializeTransaction allow).
Proof. split; [apply ser_tx_bytes|apply unser_tx_ser|apply unser_tx_canonical]. Qed.

Definition block_ok (b : CBlock) : Prop := header_ok (header b) /\ vector_ok (tx_ok true) (vtx b).

#[export] Instance block_codec : Codec block_ok ser_CBlock unser_CBlock.
Proof.
  split; unfold ser_CBlock, unser_CBlock.
  - intros b [Hh Ht]. codec_write.
  - intros [h txs] rest [Hh Ht]; cbn_fields. codec_read. done.
  - intros s [h txs] rest Hs H. codec_fields H Hs. simplify_eq. unfold block_ok. cbn_fields. rewrite <- !app_assoc. done.
Qed.

Lemma codec_iff {A} (ok : A -> Prop) ser unser `{!Codec ok ser unser} s a rest : limbs_ok 8 s ->
  unser s = Some (a, rest) <-> s = ser a ++ rest /\ ok a.
Proof. intros Hs. split; [apply codec_canonical, Hs|]. intros [-> Ha]. apply codec_roundtrip, Ha. Qed.

(** Two values with the same encoding are equal. *)
Lemma codec_inj {A} (ok : A -> Prop) ser unser `{!Codec ok ser unser} a b : ok a -> ok b -> ser a = ser b -> a = b.
Proof.
  intros Ha Hb H. pose proof (codec_roundtrip a [] Ha) as Hra. rewrite H, (codec_roundtrip b [] Hb) in Hra. congruence.
Qed.

(** *** Sizes *)

Lemma flat_map_zlen {A} (f : A -> list Z) B v : Forall (fun a => zlen (f a) <= B) v -> zlen (flat_map f v) <= B * zlen v.
Proof.
  induction 1 as [|a v Ha _ IH]; [cbn; lia|]. cbn [flat_map length]. rewrite zlen_app. lia.
Qed.

Lemma compact_zlen n : zlen (WriteCompactSize n) <= 9.
Proof. rewrite <- GetSizeOfCompactSize_spec. unfold GetSizeOfCompactSize. repeat case_match; lia. Qed.

Lemma uint_zlen n x : zlen (ser_uint n x) = Z.of_nat n.
Proof. unfold ser_uint. rewrite (proj1 (WriteLE_ok n x)). done. Qed.

Lemma bytes_zlen v : bytes_ok v -> zlen (ser_bytes v) <= 9 + MAX_SIZE.
Proof. intros [Hl _]. unfold ser_bytes. rewrite zlen_app. pose proof (compact_zlen (zlen v)). lia. Qed.

Lemma vector_zlen {A} (ok : A -> Prop) ser B v : 0 <= B -> (forall a, ok a -> zlen (ser a) <= B) ->
  vector_ok ok v -> zlen (ser_vector ser v) <= 9 + B * MAX_SIZE.
Proof.
  intros HB Hser [Hl Hv]. unfold ser_vector. rewrite zlen_app. pose proof (compact_zlen (zlen v)).
  pose proof (flat_map_zlen ser B v (Forall_impl _ _ _ Hv Hser)). nia.
Qed.

Lemma header_zlen b : header_ok b -> zlen (ser_CBlockHeader b) = 80.
Proof.
  intros (_ & [Hp _] & [Hm _] & _). unfold ser_CBlockHeader, ser_blob, ser_int32, ser_writedata32.
  rewrite !zlen_app, !uint_zlen. lia.
Qed.

Lemma tx_base_zlen tx : vector_ok txin_base_ok (vin tx) -> vector_ok txout_ok (vout tx) ->
  zlen (SerializeTransaction false tx) < 2 ^ 52.
Proof.
  intros Hin Hout. unfold SerializeTransaction. flag_eval.
  assert (Hi : zlen (ser_vector ser_CTxIn (vin tx)) <= 9 + (MAX_SIZE + 49) * MAX_SIZE).
  { apply (vector_zlen txin_base_ok); [unfold MAX_SIZE; lia| |exact Hin]. intros i ([[Hh _] _] & Hs & _).
    unfold ser_CTxIn, ser_COutPoint, ser_blob, ser_writedata32. rewrite !zlen_app, !uint_zlen.
    pose proof (bytes_zlen _ Hs). lia. }
  assert (Ho : zlen (ser_vector ser_CTxOut (vout tx)) <= 9 + (MAX_SIZE + 17) * MAX_SIZE).
  { apply (vector_zlen txout_ok); [unfold MAX_SIZE; lia| |exact Hout]. intros o (_ & Hs).
    unfold ser_CTxOut, ser_int64, ser_writedata64. rewrite !zlen_app, !uint_zlen. pose proof (bytes_zlen _ Hs). lia. }
  unfold ser_writedata32. rewrite !zlen_app, !uint_zlen. unfold MAX_SIZE in *. lia.
Qed.

(** *** Identifiers *)

Definition strip_tx (tx : CTransaction) : CTransaction :=
  {| version := version tx; vin := map strip_witness (vin tx); vout := vout tx; nLockTime := nLockTime tx |}.

Lemma ser_strip_tx tx : SerializeTransaction false (strip_tx tx) = SerializeTransaction false tx.
Proof. unfold SerializeTransaction. flag_eval. unfold strip_tx. cbn_fields. rewrite ser_vin_strip. done. Qed.

Lemma strip_tx_ok allow tx : tx_ok allow tx -> tx_ok false (strip_tx tx).
Proof.
  intros (Hv & Hin & Hw & Hout & Hl & _). unfold tx_ok, strip_tx. cbn_fields.
  split_and!; try done; [apply vin_base_strip, Hin| |].
  - apply no_witness_ok. rewrite map_map. done.
  - apply HasWitness_false. cbn_fields. rewrite map_map. done.
Qed.

Lemma ComputeHash_spec allow tx : tx_ok allow tx -> ComputeHash tx = sha256d (SerializeTransaction false tx).
Proof.
  intros (_ & Hin & _ & Hout & _). unfold ComputeHash. apply HashWriter_hash.
  pose proof (tx_base_zlen tx Hin Hout). lia.
Qed.

Lemma GetHash_spec `{Cpu} b : header_ok b -> CBlockHeader_GetHash b = blake3 (ser_CBlockHeader b).
Proof. intros Hb. unfold CBlockHeader_GetHash. apply blake3_one_shot. rewrite header_zlen by exact Hb. lia. Qed.

Lemma GetHash_cpu (cpu1 cpu2 : Cpu) b : header_ok b -> @CBlockHeader_GetHash cpu1 b = @CBlockHeader_GetHash cpu2 b.
Proof. intros Hb. rewrite (GetHash_spec (H := cpu1) b Hb), (GetHash_spec (H := cpu2) b Hb). done. Qed.

(** *** Values *)

Definition value_sum (outs : list CTxOut) : Z := foldr (fun o acc => nValue o + acc) 0 outs.

Lemma MoneyRange_iff v : MoneyRange v = true <-> 0 <= v <= MAX_MONEY.
Proof. unfold MoneyRange. rewrite andb_true_iff, Z.geb_leb, !Z.leb_le. done. Qed.

Lemma value_sum_nonneg outs : Forall (fun o => MoneyRange (nValue o) = true) outs -> 0 <= value_sum outs.
Proof.
  induction 1 as [|o outs Ho _ IH]; [cbn; lia|]. cbn [value_sum foldr]. fold (value_sum outs).
  apply MoneyRange_iff in Ho. lia.
Qed.

Lemma value_out_loop_spec outs : forall acc v, 0 <= acc <= MAX_MONEY ->
  value_out_loop acc outs = Some v <->
  Forall (fun o => MoneyRange (nValue o) = true) outs /\ v = acc + value_sum outs /\ v <= MAX_MONEY.
Proof.
  assert (Hmax : MAX_MONEY < 2 ^ 60) by reflexivity.
  induction outs as [|o outs IH]; intros acc v Hacc; cbn [value_out_loop].
  { rewrite (proj2 (MoneyRange_iff acc) Hacc). cbn. split; [intros [= <-]; split_and!; [constructor|lia..]|].
    intros (_ & -> & _). f_equal. lia. }
  cbn [value_sum foldr]. fold (value_sum outs). rewrite Forall_cons.
  destruct (MoneyRange (nValue o)) eqn:Ho; cbn [negb orb]; [|split; [done|intros [[? ?] ?]; done]].
  pose proof (proj1 (MoneyRange_iff _) Ho). rewrite swrap_small by (unfold sfits; lia).
  destruct (MoneyRange (acc + nValue o)) eqn:Hs; cbn [negb].
  - apply MoneyRange_iff in Hs. rewrite IH by exact Hs.
    split; [intros (HF & -> & Hm)|intros ([_ HF] & -> & Hm)]; split_and!; try done; lia.
  - split; [done|]. intros ([_ HF] & -> & Hm). pose proof (value_sum_nonneg outs HF).
    rewrite (proj2 (MoneyRange_iff _)) in Hs by lia. done.
Qed.

(** ** Properties *)

(** C28: Transaction and block formats: the readers accept exactly the bytes the
    writers produce, with any bytes after them, and return the value they were produced from.
    So a transaction that can be represented (in particular: outputs without inputs
    cannot, in the witness format) survives the round trip, and no two byte strings
    decode to the same transaction or block. *)
Theorem wire_format_exact (fAllowWitness : bool) (s rest : list Z) (tx : CTransaction) (b : CBlock) :
  limbs_ok 8 s ->
  (UnserializeTransaction fAllowWitness s = Some (tx, rest) <->
     s = SerializeTransaction fAllowWitness tx ++ rest /\ tx_ok fAllowWitness tx) /\
  (unser_CBlock s = Some (b, rest) <-> s = ser_CBlock b ++ rest /\ block_ok b).
Proof. intros Hs. split; apply codec_iff; assumption || apply _. Qed.

(** A txid commits to everything but the witness: the hash is double SHA-256 of the
    transaction without witness, so transactions that differ only in their
    witnesses have the same txid; and if two transactions have the same txid, either they
    are equal up to witness or their encodings are a collision of double SHA-256. *)
Theorem txid_binding (a b : CTransaction) : tx_ok true a -> tx_ok true b ->
  let ma := SerializeTransaction false a in
  let mb := SerializeTransaction false b in
  ComputeHash a = sha256d ma /\
  (strip_tx a = strip_tx b -> ComputeHash a = ComputeHash b) /\
  (ComputeHash a = ComputeHash b -> strip_tx a = strip_tx b \/ (ma <> mb /\ sha256d ma = sha256d mb)).
Proof.
  intros Ha Hb ma mb. rewrite (ComputeHash_spec _ a Ha), (ComputeHash_spec _ b Hb). fold ma mb. split_and!; [done| |].
  - intros E. unfold ma, mb. rewrite <- (ser_strip_tx a), <- (ser_strip_tx b), E. done.
  - intros E. destruct (decide (ma = mb)) as [Em|]; [left|right; done].
    apply (codec_inj (tx_ok false) (SerializeTransaction false) (UnserializeTransaction false));
      [eapply strip_tx_ok; eassumption..|]. rewrite !ser_strip_tx. exact Em.
Qed.

(** A block hash commits to the whole header: on every processor it is BLAKE3
    of the 80 bytes of the header, it is 32 bytes, and two headers with the same hash are
    equal or a collision of BLAKE3. *)
Theorem block_hash_binding (cpu1 cpu2 : Cpu) (a b : CBlockHeader) : header_ok a -> header_ok b ->
  let ma := ser_CBlockHeader a in
  let mb := ser_CBlockHeader b in
  @CBlockHeader_GetHash cpu1 a = blake3 ma /\ zlen ma = 80 /\ blob_ok 32 (@CBlockHeader_GetHash cpu1 a) /\
  (@CBlockHeader_GetHash cpu1 a = @CBlockHeader_GetHash cpu2 b -> a = b \/ (ma <> mb /\ blake3 ma = blake3 mb)).
Proof.
  intros Ha Hb ma mb. rewrite (GetHash_spec (H := cpu1) a Ha), (GetHash_spec (H := cpu2) b Hb). fold ma mb.
  split_and!; [done|apply header_zlen, Ha|apply blake3_blob|]. intros E.
  destruct (decide (ma = mb)) as [Em|]; [left|right; done].
  exact (codec_inj header_ok ser_CBlockHeader unser_CBlockHeader a b Ha Hb Em).
Qed.

(** [GetValueOut] returns exactly when every output and the total are in the money
    range, and returns the total, no addition having overflowed; otherwise it throws. *)
Theorem GetValueOut_total (tx : CTransaction) (v : Z) :
  GetValueOut tx = Some v <->
  Forall (fun o => MoneyRange (nValue o) = true) (vout tx) /\ v = value_sum (vout tx) /\ v <= MAX_MONEY.
Proof. unfold GetValueOut. rewrite value_out_loop_spec by (vm_compute; intuition congruence). done. Qed.

(** *** Concrete inputs *)

(** A payment with a witness of two items. *)
Definition sample_tx : CTransaction := {|
  version := 2;
  vin := [{| prevout := {| out_hash := replicate 32 0xab; out_n := 1 |}; scriptSig := []; nSequence := 0xfffffffd;
             scriptWitness := [[0x30; 0x44]; [0x02; 0x03]] |}];
  vout := [{| nValue := 50000; scriptPubKey := [0x00; 0x14] |}; {| nValue := 1000; scriptPubKey := [] |}];
  nLockTime := 100 |}.
Definition sample_header : CBlockHeader := {|
  nVersion := 1; hashPrevBlock := replicate 32 0; hashMerkleRoot := replicate 32 7; nTime := 1723502400; nBits := 0x1e0fffff; nNonce := 5 |}.

Ltac concrete_ok :=
  repeat first [ apply Forall_cons; split | apply Forall_nil; exact I | split ];
  try (vm_compute; intuition congruence).

Lemma sample_tx_ok : tx_ok true sample_tx.
Proof.
  unfold tx_ok, vector_ok, stack_ok, vector_ok, txin_base_ok, outpoint_ok, txout_ok, bytes_ok, blob_ok, limbs_ok.
  cbn [sample_tx version vin vout nLockTime prevout scriptSig nSequence scriptWitness out_hash out_n nValue scriptPubKey].
  concrete_ok; done.
Qed.
Lemma sample_header_ok : header_ok sample_header.
Proof. unfold header_ok, blob_ok, limbs_ok. cbn_fields. concrete_ok. Qed.

Lemma wire_format_exact_witness :
  UnserializeTransaction true (SerializeTransaction true sample_tx ++ [1; 2]) = Some (sample_tx, [1; 2]).
Proof.
  apply (proj1 (wire_format_exact true (SerializeTransaction true sample_tx ++ [1; 2]) [1; 2] sample_tx
    {| header := sample_header; vtx := [] |}
    ltac:(apply limbs_ok_app; [apply ser_tx_bytes, sample_tx_ok|repeat constructor; vm_compute; congruence]))).
  split; [reflexivity|apply sample_tx_ok].
Defined.

Lemma txid_binding_witness : ComputeHash sample_tx = ComputeHash (strip_tx sample_tx).
Proof.
  apply (txid_binding sample_tx (strip_tx sample_tx) sample_tx_ok); [|reflexivity].
  destruct (strip_tx_ok true sample_tx sample_tx_ok) as (H1 & H2 & H3 & H4 & H5 & _). split_and!; done.
Defined.

Lemma block_hash_binding_witness :
  @CBlockHeader_GetHash portable_cpu sample_header = blake3 (ser_CBlockHeader sample_header).
Proof. apply (block_hash_binding portable_cpu portable_cpu sample_header sample_header sample_header_ok sample_header_ok). Defined.
