(* ===== verification/Opcodes.v ===== *)
(** * Opcodes

    The [enum opcodetype] of src/script/script.h and the names of src/script/script.cpp.
    An opcode is the byte that encodes it: the bytes below [OP_PUSHDATA1] are the
    direct pushes and have no name of their own. *)

From Stdlib Require Import ZArith.
From stdpp Require Import base list strings.
From S2P Require Import Prelude.
Local Open Scope Z_scope.

Notation opcodetype := Z (only parsing).

Notation OP_0 := 0x00 (only parsing).
Notation OP_FALSE := OP_0 (only parsing).
Notation OP_PUSHDATA1 := 0x4c (only parsing).
Notation OP_PUSHDATA2 := 0x4d (only parsing).
Notation OP_PUSHDATA4 := 0x4e (only parsing).
Notation OP_1NEGATE := 0x4f (only parsing).
Notation OP_RESERVED := 0x50 (only parsing).
Notation OP_1 := 0x51 (only parsing).
Notation OP_TRUE := OP_1 (only parsing).
Notation OP_2 := 0x52 (only parsing).
Notation OP_3 := 0x53 (only parsing).
Notation OP_4 := 0x54 (only parsing).
Notation OP_5 := 0x55 (only parsing).
Notation OP_6 := 0x56 (only parsing).
Notation OP_7 := 0x57 (only parsing).
Notation OP_8 := 0x58 (only parsing).
Notation OP_9 := 0x59 (only parsing).
Notation OP_10 := 0x5a (only parsing).
Notation OP_11 := 0x5b (only parsing).
Notation OP_12 := 0x5c (only parsing).
Notation OP_13 := 0x5d (only parsing).
Notation OP_14 := 0x5e (only parsing).
Notation OP_15 := 0x5f (only parsing).
Notation OP_16 := 0x60 (only parsing).
Notation OP_NOP := 0x61 (only parsing).
Notation OP_VER := 0x62 (only parsing).
Notation OP_IF := 0x63 (only parsing).
Notation OP_NOTIF := 0x64 (only parsing).
Notation OP_VERIF := 0x65 (only parsing).
Notation OP_VERNOTIF := 0x66 (only parsing).
Notation OP_ELSE := 0x67 (only parsing).
Notation OP_ENDIF := 0x68 (only parsing).
Notation OP_VERIFY := 0x69 (only parsing).
Notation OP_RETURN := 0x6a (only parsing).
Notation OP_TOALTSTACK := 0x6b (only parsing).
Notation OP_FROMALTSTACK := 0x6c (only parsing).
Notation OP_2DROP := 0x6d (only parsing).
Notation OP_2DUP := 0x6e (only parsing).
Notation OP_3DUP := 0x6f (only parsing).
Notation OP_2OVER := 0x70 (only parsing).
Notation OP_2ROT := 0x71 (only parsing).
Notation OP_2SWAP := 0x72 (only parsing).
Notation OP_IFDUP := 0x73 (only parsing).
Notation OP_DEPTH := 0x74 (only parsing).
Notation OP_DROP := 0x75 (only parsing).
Notation OP_DUP := 0x76 (only parsing).
Notation OP_NIP := 0x77 (only parsing).
Notation OP_OVER := 0x78 (only parsing).
Notation OP_PICK := 0x79 (only parsing).
Notation OP_ROLL := 0x7a (only parsing).
Notation OP_ROT := 0x7b (only parsing).
Notation OP_SWAP := 0x7c (only parsing).
Notation OP_TUCK := 0x7d (only parsing).
Notation OP_CAT := 0x7e (only parsing).
Notation OP_SUBSTR := 0x7f (only parsing).
Notation OP_LEFT := 0x80 (only parsing).
Notation OP_RIGHT := 0x81 (only parsing).
Notation OP_SIZE := 0x82 (only parsing).
Notation OP_INVERT := 0x83 (only parsing).
Notation OP_AND := 0x84 (only parsing).
Notation OP_OR := 0x85 (only parsing).
Notation OP_XOR := 0x86 (only parsing).
Notation OP_EQUAL := 0x87 (only parsing).
Notation OP_EQUALVERIFY := 0x88 (only parsing).
Notation OP_RESERVED1 := 0x89 (only parsing).
Notation OP_RESERVED2 := 0x8a (only parsing).
Notation OP_1ADD := 0x8b (only parsing).
Notation OP_1SUB := 0x8c (only parsing).
Notation OP_2MUL := 0x8d (only parsing).
Notation OP_2DIV := 0x8e (only parsing).
Notation OP_NEGATE := 0x8f (only parsing).
Notation OP_ABS := 0x90 (only parsing).
Notation OP_NOT := 0x91 (only parsing).
Notation OP_0NOTEQUAL := 0x92 (only parsing).
Notation OP_ADD := 0x93 (only parsing).
Notation OP_SUB := 0x94 (only parsing).
Notation OP_MUL := 0x95 (only parsing).
Notation OP_DIV := 0x96 (only parsing).
Notation OP_MOD := 0x97 (only parsing).
Notation OP_LSHIFT := 0x98 (only parsing).
Notation OP_RSHIFT := 0x99 (only parsing).
Notation OP_BOOLAND := 0x9a (only parsing).
Notation OP_BOOLOR := 0x9b (only parsing).
Notation OP_NUMEQUAL := 0x9c (only parsing).
Notation OP_NUMEQUALVERIFY := 0x9d (only parsing).
Notation OP_NUMNOTEQUAL := 0x9e (only parsing).
Notation OP_LESSTHAN := 0x9f (only parsing).
Notation OP_GREATERTHAN := 0xa0 (only parsing).
Notation OP_LESSTHANOREQUAL := 0xa1 (only parsing).
Notation OP_GREATERTHANOREQUAL := 0xa2 (only parsing).
Notation OP_MIN := 0xa3 (only parsing).
Notation OP_MAX := 0xa4 (only parsing).
Notation OP_WITHIN := 0xa5 (only parsing).
Notation OP_RIPEMD160 := 0xa6 (only parsing).
Notation OP_SHA1 := 0xa7 (only parsing).
Notation OP_SHA256 := 0xa8 (only parsing).
Notation OP_HASH160 := 0xa9 (only parsing).
Notation OP_HASH256 := 0xaa (only parsing).
Notation OP_CODESEPARATOR := 0xab (only parsing).
Notation OP_CHECKSIG := 0xac (only parsing).
Notation OP_CHECKSIGVERIFY := 0xad (only parsing).
Notation OP_CHECKMULTISIG := 0xae (only parsing).
Notation OP_CHECKMULTISIGVERIFY := 0xaf (only parsing).
Notation OP_NOP1 := 0xb0 (only parsing).
Notation OP_CHECKLOCKTIMEVERIFY := 0xb1 (only parsing).
Notation OP_NOP2 := OP_CHECKLOCKTIMEVERIFY (only parsing).
Notation OP_CHECKSEQUENCEVERIFY := 0xb2 (only parsing).
Notation OP_NOP3 := OP_CHECKSEQUENCEVERIFY (only parsing).
Notation OP_NOP4 := 0xb3 (only parsing).
Notation OP_NOP5 := 0xb4 (only parsing).
Notation OP_NOP6 := 0xb5 (only parsing).
Notation OP_NOP7 := 0xb6 (only parsing).
Notation OP_NOP8 := 0xb7 (only parsing).
Notation OP_NOP9 := 0xb8 (only parsing).
Notation OP_NOP10 := 0xb9 (only parsing).
Notation OP_CHECKSIGADD := 0xba (only parsing).
Notation OP_INVALIDOPCODE := 0xff (only parsing).

(** the enumerators, in the order of their declaration *)
Definition opcodetype_values : list Z := [
  OP_0; OP_FALSE; OP_PUSHDATA1; OP_PUSHDATA2; OP_PUSHDATA4; OP_1NEGATE; OP_RESERVED; OP_1; OP_TRUE; OP_2;
  OP_3; OP_4; OP_5; OP_6; OP_7; OP_8; OP_9; OP_10; OP_11; OP_12; OP_13; OP_14; OP_15; OP_16; OP_NOP;
  OP_VER; OP_IF; OP_NOTIF; OP_VERIF; OP_VERNOTIF; OP_ELSE; OP_ENDIF; OP_VERIFY; OP_RETURN; OP_TOALTSTACK;
  OP_FROMALTSTACK; OP_2DROP; OP_2DUP; OP_3DUP; OP_2OVER; OP_2ROT; OP_2SWAP; OP_IFDUP; OP_DEPTH; OP_DROP;
  OP_DUP; OP_NIP; OP_OVER; OP_PICK; OP_ROLL; OP_ROT; OP_SWAP; OP_TUCK; OP_CAT; OP_SUBSTR; OP_LEFT;
  OP_RIGHT; OP_SIZE; OP_INVERT; OP_AND; OP_OR; OP_XOR; OP_EQUAL; OP_EQUALVERIFY; OP_RESERVED1;
  OP_RESERVED2; OP_1ADD; OP_1SUB; OP_2MUL; OP_2DIV; OP_NEGATE; OP_ABS; OP_NOT; OP_0NOTEQUAL; OP_ADD;
  OP_SUB; OP_MUL; OP_DIV; OP_MOD; OP_LSHIFT; OP_RSHIFT; OP_BOOLAND; OP_BOOLOR; OP_NUMEQUAL;
  OP_NUMEQUALVERIFY; OP_NUMNOTEQUAL; OP_LESSTHAN; OP_GREATERTHAN; OP_LESSTHANOREQUAL;
  OP_GREATERTHANOREQUAL; OP_MIN; OP_MAX; OP_WITHIN; OP_RIPEMD160; OP_SHA1; OP_SHA256; OP_HASH160;
  OP_HASH256; OP_CODESEPARATOR; OP_CHECKSIG; OP_CHECKSIGVERIFY; OP_CHECKMULTISIG; OP_CHECKMULTISIGVERIFY;
  OP_NOP1; OP_CHECKLOCKTIMEVERIFY; OP_NOP2; OP_CHECKSEQUENCEVERIFY; OP_NOP3; OP_NOP4; OP_NOP5; OP_NOP6;
  OP_NOP7; OP_NOP8; OP_NOP9; OP_NOP10; OP_CHECKSIGADD; OP_INVALIDOPCODE].

(** the cases of the [switch] of [GetOpName] *)
Definition op_names : list (Z * string) := [
  (OP_0, "0"%string); (OP_PUSHDATA1, "OP_PUSHDATA1"%string); (OP_PUSHDATA2, "OP_PUSHDATA2"%string);
  (OP_PUSHDATA4, "OP_PUSHDATA4"%string); (OP_1NEGATE, "-1"%string); (OP_RESERVED, "OP_RESERVED"%string);
  (OP_1, "1"%string); (OP_2, "2"%string); (OP_3, "3"%string); (OP_4, "4"%string); (OP_5, "5"%string);
  (OP_6, "6"%string); (OP_7, "7"%string); (OP_8, "8"%string); (OP_9, "9"%string); (OP_10, "10"%string);
  (OP_11, "11"%string); (OP_12, "12"%string); (OP_13, "13"%string); (OP_14, "14"%string);
  (OP_15, "15"%string); (OP_16, "16"%string); (OP_NOP, "OP_NOP"%string); (OP_VER, "OP_VER"%string);
  (OP_IF, "OP_IF"%string); (OP_NOTIF, "OP_NOTIF"%string); (OP_VERIF, "OP_VERIF"%string);
  (OP_VERNOTIF, "OP_VERNOTIF"%string); (OP_ELSE, "OP_ELSE"%string); (OP_ENDIF, "OP_ENDIF"%string);
  (OP_VERIFY, "OP_VERIFY"%string); (OP_RETURN, "OP_RETURN"%string);
  (OP_TOALTSTACK, "OP_TOALTSTACK"%string); (OP_FROMALTSTACK, "OP_FROMALTSTACK"%string);
  (OP_2DROP, "OP_2DROP"%string); (OP_2DUP, "OP_2DUP"%string); (OP_3DUP, "OP_3DUP"%string);
  (OP_2OVER, "OP_2OVER"%string); (OP_2ROT, "OP_2ROT"%string); (OP_2SWAP, "OP_2SWAP"%string);
  (OP_IFDUP, "OP_IFDUP"%string); (OP_DEPTH, "OP_DEPTH"%string); (OP_DROP, "OP_DROP"%string);
  (OP_DUP, "OP_DUP"%string); (OP_NIP, "OP_NIP"%string); (OP_OVER, "OP_OVER"%string);
  (OP_PICK, "OP_PICK"%string); (OP_ROLL, "OP_ROLL"%string); (OP_ROT, "OP_ROT"%string);
  (OP_SWAP, "OP_SWAP"%string); (OP_TUCK, "OP_TUCK"%string); (OP_CAT, "OP_CAT"%string);
  (OP_SUBSTR, "OP_SUBSTR"%string); (OP_LEFT, "OP_LEFT"%string); (OP_RIGHT, "OP_RIGHT"%string);
  (OP_SIZE, "OP_SIZE"%string); (OP_INVERT, "OP_INVERT"%string); (OP_AND, "OP_AND"%string);
  (OP_OR, "OP_OR"%string); (OP_XOR, "OP_XOR"%string); (OP_EQUAL, "OP_EQUAL"%string);
  (OP_EQUALVERIFY, "OP_EQUALVERIFY"%string); (OP_RESERVED1, "OP_RESERVED1"%string);
  (OP_RESERVED2, "OP_RESERVED2"%string); (OP_1ADD, "OP_1ADD"%string); (OP_1SUB, "OP_1SUB"%string);
  (OP_2MUL, "OP_2MUL"%string); (OP_2DIV, "OP_2DIV"%string); (OP_NEGATE, "OP_NEGATE"%string);
  (OP_ABS, "OP_ABS"%string); (OP_NOT, "OP_NOT"%string); (OP_0NOTEQUAL, "OP_0NOTEQUAL"%string);
  (OP_ADD, "OP_ADD"%string); (OP_SUB, "OP_SUB"%string); (OP_MUL, "OP_MUL"%string);
  (OP_DIV, "OP_DIV"%string); (OP_MOD, "OP_MOD"%string); (OP_LSHIFT, "OP_LSHIFT"%string);
  (OP_RSHIFT, "OP_RSHIFT"%string); (OP_BOOLAND, "OP_BOOLAND"%string); (OP_BOOLOR, "OP_BOOLOR"%string);
  (OP_NUMEQUAL, "OP_NUMEQUAL"%string); (OP_NUMEQUALVERIFY, "OP_NUMEQUALVERIFY"%string);
  (OP_NUMNOTEQUAL, "OP_NUMNOTEQUAL"%string); (OP_LESSTHAN, "OP_LESSTHAN"%string);
  (OP_GREATERTHAN, "OP_GREATERTHAN"%string); (OP_LESSTHANOREQUAL, "OP_LESSTHANOREQUAL"%string);
  (OP_GREATERTHANOREQUAL, "OP_GREATERTHANOREQUAL"%string); (OP_MIN, "OP_MIN"%string);
  (OP_MAX, "OP_MAX"%string); (OP_WITHIN, "OP_WITHIN"%string); (OP_RIPEMD160, "OP_RIPEMD160"%string);
  (OP_SHA1, "OP_SHA1"%string); (OP_SHA256, "OP_SHA256"%string); (OP_HASH160, "OP_HASH160"%string);
  (OP_HASH256, "OP_HASH256"%string); (OP_CODESEPARATOR, "OP_CODESEPARATOR"%string);
  (OP_CHECKSIG, "OP_CHECKSIG"%string); (OP_CHECKSIGVERIFY, "OP_CHECKSIGVERIFY"%string);
  (OP_CHECKMULTISIG, "OP_CHECKMULTISIG"%string); (OP_CHECKMULTISIGVERIFY, "OP_CHECKMULTISIGVERIFY"%string);
  (OP_NOP1, "OP_NOP1"%string); (OP_CHECKLOCKTIMEVERIFY, "OP_CHECKLOCKTIMEVERIFY"%string);
  (OP_CHECKSEQUENCEVERIFY, "OP_CHECKSEQUENCEVERIFY"%string); (OP_NOP4, "OP_NOP4"%string);
  (OP_NOP5, "OP_NOP5"%string); (OP_NOP6, "OP_NOP6"%string); (OP_NOP7, "OP_NOP7"%string);
  (OP_NOP8, "OP_NOP8"%string); (OP_NOP9, "OP_NOP9"%string); (OP_NOP10, "OP_NOP10"%string);
  (OP_CHECKSIGADD, "OP_CHECKSIGADD"%string); (OP_INVALIDOPCODE, "OP_INVALIDOPCODE"%string)].

Definition GetOpName (opcode : opcodetype) : string :=
  match list_find (fun p => p.1 = opcode) op_names with
  | Some (_, (_, name)) => name
  | None => "OP_UNKNOWN"%string
  end.

(** The [switch] covers every enumerator and gives distinct opcodes distinct names. *)
Lemma GetOpName_known op : op ∈ opcodetype_values -> GetOpName op <> "OP_UNKNOWN"%string.
Proof.
  intros Hop. assert (H : Forall (fun op => GetOpName op <> "OP_UNKNOWN"%string) opcodetype_values).
  { apply (bool_decide_unpack _). vm_compute. exact I. }
  rewrite Forall_forall in H. apply H. done.
Qed.

Lemma op_names_NoDup : NoDup op_names.*2.
Proof. apply (bool_decide_unpack _). vm_compute. exact I. Qed.
