(* ===== verification/Script.v ===== *)
(** * Scripts

    src/script/script.h and script.cpp: script numbers ([CScriptNum]), the
    construction and the decoding of scripts, signature operation counting and the
    recognition of standard output forms.  A script is its bytes. *)

From Stdlib Require Import ZArith Lia Bool.
From stdpp Require Import base option list.
From S2P Require Import Prelude Uint256 Serialize Primitives Opcodes.
Local Open Scope Z_scope.
Local Open Scope adonai_scope.

Definition MAX_SCRIPT_ELEMENT_SIZE : Z := 520.
Definition MAX_PUBKEYS_PER_MULTISIG : Z := 20.
Definition MAX_SCRIPT_SIZE : Z := 10000.
Definition LOCKTIME_THRESHOLD : Z := 500000000.


Definition MAX_OPCODE : Z := OP_NOP10.

(** ** CScriptNum *)

Notation CScriptNum := Z (only parsing).

(** [vch.back() & 0x80] and the like read the last byte *)
Definition back (vch : list Z) : Z := List.last vch 0.

(** [result |= static_cast<int64_t>(vch[i]) << 8*i], then the sign bit; for at most 8 bytes *)
Definition set_vch (vch : list Z) : Z :=
  if zlen vch =? 0 then 0
  else
    let result := i64 (foldl (fun r i => Z.lor r (Z.shiftl vch.[i] (8 * Z.of_nat i))) 0 (seq 0 (length vch))) in
    if negb (Z.land (back vch) 0x80 =? 0)
    then i64 (- i64 (Z.land (u64 result) (Z.lnot (Z.shiftl 0x80 (8 * (zlen vch - 1))) mod 2 ^ 64)))
    else result.

(** the constructor from bytes; [None] is the [scriptnum_error] *)
Definition CScriptNum_of (vch : list Z) (fRequireMinimal : bool) (nMaxNumSize : Z) : option CScriptNum :=
  if zlen vch >? nMaxNumSize then None
  else if fRequireMinimal && (zlen vch >? 0) && (Z.land (back vch) 0x7f =? 0) &&
          ((zlen vch <=? 1) || (Z.land vch.[(length vch - 2)%nat] 0x80 =? 0)) then None
  else Some (set_vch vch).

Definition getint (m_value : CScriptNum) : Z :=
  if m_value >? 2 ^ 31 - 1 then 2 ^ 31 - 1 else if m_value <? - 2 ^ 31 then - 2 ^ 31 else m_value.

(** [while (absvalue) { result.push_back(absvalue & 0xff); absvalue >>= 8; }] *)
Fixpoint abs_bytes (fuel : nat) (absvalue : Z) : list Z :=
  match fuel with
  | O => []
  | S fuel => if absvalue =? 0 then [] else Z.land absvalue 0xff :: abs_bytes fuel (Z.shiftr absvalue 8)
  end.
Definition set_back (result : list Z) (f : Z -> Z) : list Z := <[(length result - 1)%nat := f (back result)]> result.
Definition serialize (value : Z) : list Z :=
  if value =? 0 then []
  else
    let neg := value <? 0 in
    let absvalue := if neg then u64 (Z.lnot (u64 value) mod 2 ^ 64 + 1) else u64 value in
    let result := abs_bytes 8 absvalue in
    if negb (Z.land (back result) 0x80 =? 0) then result ++ [if neg then 0x80 else 0]
    else if neg then set_back result (fun b => Z.lor b 0x80)
    else result.

(** ** Construction *)

Definition AppendDataSize (s : CScript) (size : Z) : CScript :=
  if size <? OP_PUSHDATA1 then s ++ [u8 size]
  else if size <=? 0xff then s ++ [OP_PUSHDATA1] ++ [u8 size]
  else if size <=? 0xffff then s ++ [OP_PUSHDATA2] ++ WriteLE 2 size
  else s ++ [OP_PUSHDATA4] ++ WriteLE 4 size.
(** [operator<<] for bytes, numbers, integers and opcodes *)
Definition push_data (s : CScript) (b : list Z) : CScript := AppendDataSize s (u32 (zlen b)) ++ b.
Definition push_num (s : CScript) (b : CScriptNum) : CScript := push_data s (serialize b).
Definition push_int64 (s : CScript) (n : Z) : CScript :=
  if (n =? -1) || ((n >=? 1) && (n <=? 16)) then s ++ [u8 (n + (OP_1 - 1))]
  else if n =? 0 then s ++ [OP_0]
  else push_data s (serialize n).
Definition push_opcode (s : CScript) (opcode : opcodetype) : option CScript :=
  if (opcode <? 0) || (opcode >? 0xff) then None else Some (s ++ [opcode]).

(** [assert]s are [None] *)
Definition DecodeOP_N (opcode : opcodetype) : option Z :=
  if opcode =? OP_0 then Some 0
  else if (opcode >=? OP_1) && (opcode <=? OP_16) then Some (opcode - (OP_1 - 1)) else None.
Definition EncodeOP_N (n : Z) : option opcodetype :=
  if (n >=? 0) && (n <=? 16) then Some (if n =? 0 then OP_0 else OP_1 + n - 1) else None.

(** ** Decoding *)

(** one operation: the opcode, its data, and the script after it; [None] is [false] *)
Definition GetScriptOp (pc : CScript) : option (opcodetype * list Z * CScript) :=
  match pc with
  | [] => None
  | opcode :: pc =>
      if opcode <=? OP_PUSHDATA4 then
        '(nSize, pc) ←
          (if opcode <? OP_PUSHDATA1 then Some (opcode, pc)
           else if opcode =? OP_PUSHDATA1 then
             match pc with [] => None | b :: pc => Some (b, pc) end
           else if opcode =? OP_PUSHDATA2 then
             if zlen pc <? 2 then None else Some (ReadLE 2 pc, zdrop 2 pc)
           else
             if zlen pc <? 4 then None else Some (ReadLE 4 pc, zdrop 4 pc));
        if zlen pc <? nSize then None else Some (opcode, ztake nSize pc, zdrop nSize pc)
      else Some (opcode, [], pc)
  end.

(** where a [GetScriptOp] that fails leaves [pc]: after the opcode and the bytes of a length it could read *)
Definition GetScriptOp_stop (pc : CScript) : CScript :=
  match pc with
  | [] => []
  | opcode :: pc =>
      if opcode <? OP_PUSHDATA1 then pc
      else if opcode =? OP_PUSHDATA1 then match pc with [] => [] | _ :: pc => pc end
      else if opcode =? OP_PUSHDATA2 then if zlen pc <? 2 then pc else zdrop 2 pc
      else if zlen pc <? 4 then pc else zdrop 4 pc
  end.

(** [while (pc < end())] over the operations; every operation takes at least one byte, so the length is enough fuel *)
Fixpoint GetSigOpCount_loop (fuel : nat) (fAccurate : bool) (pc : CScript) (lastOpcode : opcodetype) (n : Z) : Z :=
  match fuel with
  | O => n
  | S fuel =>
      match GetScriptOp pc with
      | None => n
      | Some (opcode, _, pc) =>
          let n :=
            if (opcode =? OP_CHECKSIG) || (opcode =? OP_CHECKSIGVERIFY) then u32 (n + 1)
            else if (opcode =? OP_CHECKMULTISIG) || (opcode =? OP_CHECKMULTISIGVERIFY) then
              if fAccurate && (lastOpcode >=? OP_1) && (lastOpcode <=? OP_16) then u32 (n + (lastOpcode - (OP_1 - 1)))
              else u32 (n + MAX_PUBKEYS_PER_MULTISIG)
            else n in
          GetSigOpCount_loop fuel fAccurate pc opcode n
      end
  end.
Definition GetSigOpCount (s : CScript) (fAccurate : bool) : Z := GetSigOpCount_loop (length s) fAccurate s OP_INVALIDOPCODE 0.

Definition IsPayToScriptHash (s : CScript) : bool :=
  (zlen s =? 23) && (s.[0] =? OP_HASH160) && (s.[1] =? 0x14) && (s.[22] =? OP_EQUAL).
Definition IsPayToWitnessScriptHash (s : CScript) : bool := (zlen s =? 34) && (s.[0] =? OP_0) && (s.[1] =? 0x20).
Definition IsPayToTaproot (s : CScript) : bool := (zlen s =? 34) && (s.[0] =? OP_1) && (s.[1] =? 0x20).
Definition IsPayToAnchor (s : CScript) : bool :=
  (zlen s =? 4) && (s.[0] =? OP_1) && (s.[1] =? 0x02) && (s.[2] =? 0x4e) && (s.[3] =? 0x73).
Definition IsPayToAnchor_program (version : Z) (program : list Z) : bool :=
  (version =? 1) && (zlen program =? 2) && (program.[0] =? 0x4e) && (program.[1] =? 0x73).

(** the version and the program; [None] is [false] *)
Definition IsWitnessProgram (s : CScript) : option (Z * list Z) :=
  if (zlen s <? 4) || (zlen s >? 42) then None
  else if negb (s.[0] =? OP_0) && ((s.[0] <? OP_1) || (s.[0] >? OP_16)) then None
  else if s.[1] + 2 =? zlen s then
    version ← DecodeOP_N s.[0]; Some (version, zdrop 2 s)
  else None.

(** the data of the last push of [scriptSig], or [None] where the source returns 0 *)
Fixpoint last_push (fuel : nat) (pc : CScript) (vData : list Z) : option (list Z) :=
  match fuel with
  | O => Some vData
  | S fuel =>
      match pc with
      | [] => Some vData
      | _ =>
          match GetScriptOp pc with
          | None => None
          | Some (opcode, vData, pc) => if opcode >? OP_16 then None else last_push fuel pc vData
          end
      end
  end.
Definition GetSigOpCount_P2SH (s scriptSig : CScript) : Z :=
  if negb (IsPayToScriptHash s) then GetSigOpCount s true
  else match last_push (length scriptSig) scriptSig [] with
       | None => 0
       | Some vData => GetSigOpCount vData true
       end.

Fixpoint IsPushOnly_loop (fuel : nat) (pc : CScript) : bool :=
  match fuel with
  | O => true
  | S fuel =>
      match pc with
      | [] => true
      | _ => match GetScriptOp pc with
             | None => false
             | Some (opcode, _, pc) => if opcode >? OP_16 then false else IsPushOnly_loop fuel pc
             end
      end
  end.
Definition IsPushOnly (s : CScript) : bool := IsPushOnly_loop (length s) s.

Fixpoint HasValidOps_loop (fuel : nat) (pc : CScript) : bool :=
  match fuel with
  | O => true
  | S fuel =>
      match pc with
      | [] => true
      | _ => match GetScriptOp pc with
             | None => false
             | Some (opcode, item, pc) =>
                 if (opcode >? MAX_OPCODE) || (zlen item >? MAX_SCRIPT_ELEMENT_SIZE) then false else HasValidOps_loop fuel pc
             end
      end
  end.
Definition HasValidOps (s : CScript) : bool := HasValidOps_loop (length s) s.

Definition IsUnspendable (s : CScript) : bool := ((zlen s >? 0) && (s.[0] =? OP_RETURN)) || (zlen s >? MAX_SCRIPT_SIZE).

Definition IsOpSuccess (opcode : opcodetype) : bool :=
  (opcode =? 80) || (opcode =? 98) || ((opcode >=? 126) && (opcode <=? 129)) ||
  ((opcode >=? 131) && (opcode <=? 134)) || ((opcode >=? 137) && (opcode <=? 138)) ||
  ((opcode >=? 141) && (opcode <=? 142)) || ((opcode >=? 149) && (opcode <=? 153)) ||
  ((opcode >=? 187) && (opcode <=? 254)).

(** for push opcodes ([0 <= opcode <= OP_PUSHDATA4] is asserted) *)
Definition CheckMinimalPush (data : list Z) (opcode : opcodetype) : bool :=
  if zlen data =? 0 then opcode =? OP_0
  else if (zlen data =? 1) && (data.[0] >=? 1) && (data.[0] <=? 16) then false
  else if (zlen data =? 1) && (data.[0] =? 0x81) then false
  else if zlen data <=? 75 then opcode =? zlen data
  else if zlen data <=? 255 then opcode =? OP_PUSHDATA1
  else if zlen data <=? 65535 then opcode =? OP_PUSHDATA2
  else true.

(** ** Script numbers *)

Lemma byte_high b : fits 8 b -> (Z.land b 0x80 =? 0) = (b <? 128) /\ Z.land b 0x7f = b mod 128 /\ (b < 128 -> Z.lor b 0x80 = b + 128).
Proof.
  intros Hb. pose proof (byte_split b Hb) as Hs. unfold byte_split_b in Hs. rewrite low7 in *. split_and!; [|done|].
  - destruct (b <? 128); apply andb_true_iff in Hs as [Hs _]; [exact Hs|]. apply negb_true_iff in Hs. exact Hs.
  - intros Hlt. unfold fits in Hb. rewrite Z.lor_comm. change (Z.lor 0x80 b) with (Z.lor (Z.shiftl 1 7) b).
    rewrite shiftl7_lor by lia. lia.
Qed.

Lemma back_snoc low hi : back (low ++ [hi]) = hi.
Proof. apply List.last_last. Qed.

Lemma bytes_lor vch : limbs_ok 8 vch ->
  foldl (fun r i => Z.lor r (Z.shiftl vch.[i] (8 * Z.of_nat i))) 0 (seq 0 (length vch)) = digits (2 ^ 8) vch.
Proof.
  intros Hok. assert (Hk : forall k, (k <= length vch)%nat ->
    foldl (fun r i => Z.lor r (Z.shiftl vch.[i] (8 * Z.of_nat i))) 0 (seq 0 k) = digits (2 ^ 8) (take k vch)).
  { induction k as [|k IH]; intros Hle; [done|]. rewrite seq_S, foldl_app, IH by lia. cbn [foldl Nat.add].
    rewrite (take_S_r vch k vch.[k]) by (apply nth_lookup_Some; lia). rewrite digits_snoc, length_take_le by lia.
    assert (Ht : limbs_ok 8 (take k vch)) by (apply Forall_take, Hok).
    pose proof (digits_bound 8 (take k vch) ltac:(lia) Ht) as Hd. rewrite length_take_le in Hd by lia.
    rewrite lor_add by (lia || exact Hd). rewrite Z.pow_mul_r by lia. lia. }
  rewrite Hk, take_ge by lia. done.
Qed.

(** Clearing a bit that is set. *)
Lemma clear_bit w s e : 0 <= s < w -> fits s e ->
  Z.land (e + 2 ^ s) (Z.lnot (Z.shiftl 1 s) mod 2 ^ w) = e.
Proof.
  intros Hs He. pose proof (lor_add s e 1 ltac:(lia) He) as E. rewrite Z.mul_1_r in E. rewrite <- E.
  apply Z.bits_inj'. intros i Hi. rewrite Z.land_spec, Z.lor_spec, Z.shiftl_1_l, Z.pow2_bits_eqb by lia.
  destruct (Z.eqb_spec s i) as [<-|Hne].
  - rewrite Z.mod_pow2_bits_low, Z.lnot_spec, Z.pow2_bits_true, andb_false_r by lia.
    symmetry. apply (testbit_fits s); [exact He|lia].
  - rewrite orb_false_r. destruct (Z.lt_ge_cases i w).
    + rewrite Z.mod_pow2_bits_low, Z.lnot_spec, Z.pow2_bits_false by lia. apply andb_true_r.
    + rewrite (testbit_fits s e) by (assumption || lia). done.
Qed.

(** The value of the bytes [low ++ [hi]]: the top bit is the sign. *)
Definition sm_value (low : list Z) (hi : Z) : Z :=
  let a := digits (2 ^ 8) low + 2 ^ (8 * zlen low) * (hi mod 128) in if hi <? 128 then a else - a.

Lemma set_vch_spec low hi : limbs_ok 8 (low ++ [hi]) -> zlen low < 8 -> set_vch (low ++ [hi]) = sm_value low hi.
Proof.
  intros Hok Hlen. unfold set_vch. rewrite back_snoc, bytes_lor, digits_snoc, zlen_app by exact Hok. cbn [length].
  apply Forall_app in Hok as [Hlow Hhi]. apply Forall_cons in Hhi as [Hhi _].
  pose proof (digits_bound 8 low ltac:(lia) Hlow) as Hd. pose proof (byte_high hi Hhi) as (-> & _ & _).
  destruct (Z.eqb_spec (zlen low + Z.of_nat 1) 0); [lia|]. unfold sm_value.
  rewrite <- Z.pow_mul_r by lia. replace (zlen low + Z.of_nat 1 - 1) with (zlen low) by lia.
  set (P := 2 ^ (8 * zlen low)) in *. set (d := digits (2 ^ 8) low) in *.
  assert (HP : 0 < P /\ P * 256 <= 2 ^ 64).
  { split; [apply pow2_pos; lia|]. unfold P. change 256 with (2 ^ 8). rewrite <- Z.pow_add_r by lia. apply Z.pow_le_mono_r; lia. }
  unfold fits in Hhi. destruct (Z.ltb_spec hi 128) as [Hlt|Hge]; cbn [negb].
  - rewrite (Z.mod_small hi) by lia. apply swrap_small; [lia|]. unfold sfits. change (64 - 1) with 63. nia.
  - assert (Hmod : hi mod 128 = hi - 128) by (Z.div_mod_to_equations; lia). rewrite Hmod.
    rewrite wrap_swrap, wrap_small by (unfold fits; nia).
    assert (HS : Z.shiftl 0x80 (8 * zlen low) = Z.shiftl 1 (8 * zlen low + 7)).
    { change 0x80 with (Z.shiftl 1 7). rewrite Z.shiftl_shiftl by lia. f_equal. lia. }
    assert (HP7 : 2 ^ (8 * zlen low + 7) = P * 128) by (unfold P; rewrite Z.pow_add_r by lia; lia).
    rewrite HS. replace (d + P * hi) with (d + P * (hi - 128) + 2 ^ (8 * zlen low + 7)) by lia.
    rewrite clear_bit by (unfold fits; rewrite ?HP7; nia).
    rewrite (swrap_small 64 (d + P * (hi - 128))) by (unfold sfits; change (64 - 1) with 63; nia).
    apply swrap_small; [lia|]. unfold sfits. change (64 - 1) with 63. nia.
Qed.

Lemma abs_bytes_ok f a : 0 <= a < 2 ^ (8 * Z.of_nat f) ->
  limbs_ok 8 (abs_bytes f a) /\ digits (2 ^ 8) (abs_bytes f a) = a /\ (0 < a -> back (abs_bytes f a) <> 0) /\
  (length (abs_bytes f a) <= f)%nat.
Proof.
  revert a. induction f as [|f IH]; intros a Ha; cbn [abs_bytes].
  { cbn in Ha. split_and!; [constructor|cbn; lia|lia|cbn; lia]. }
  destruct (Z.eqb_spec a 0) as [->|Hne]; [split_and!; [constructor|done|lia|cbn; lia]|].
  rewrite Z.shiftr_div_pow2 by lia. change 0xff with (Z.ones 8). rewrite Z.land_ones by lia.
  assert (Hdiv : 0 <= a / 2 ^ 8 < 2 ^ (8 * Z.of_nat f)).
  { split; [apply Z.div_pos; lia|]. apply Z.div_lt_upper_bound; [lia|]. rewrite <- Z.pow_add_r by lia.
    replace (8 + 8 * Z.of_nat f) with (8 * Z.of_nat (S f)) by lia. lia. }
  destruct (IH _ Hdiv) as (Hok & Hd & Hb & Hl). split_and!.
  - constructor; [apply Z.mod_pos_bound; lia|exact Hok].
  - cbn [digits]. rewrite Hd. pose proof (Z.div_mod a (2 ^ 8) ltac:(lia)). lia.
  - intros _. destruct (Z.eq_dec (a / 2 ^ 8) 0) as [E|E].
    + rewrite E. replace (abs_bytes f 0) with (@nil Z) by (destruct f; done). cbn.
      pose proof (Z.div_mod a (2 ^ 8) ltac:(lia)). change (2 ^ 8) with 256 in *. lia.
    + specialize (Hb ltac:(lia)). destruct (abs_bytes f (a / 2 ^ 8)) as [|b l] eqn:Eb; [|exact Hb]. cbn in Hd. lia.
  - cbn [length]. lia.
Qed.

Lemma digits_pos l : limbs_ok 8 l -> back l <> 0 -> 0 < digits (2 ^ 8) l.
Proof.
  intros Hok. destruct l as [|hi low _] using rev_ind; [done|]. rewrite back_snoc, digits_snoc. intros Hne.
  apply Forall_app in Hok as [Hlow Hhi]. apply Forall_cons in Hhi as [[Hhi _] _].
  pose proof (digits_nonneg 8 low ltac:(lia) Hlow). pose proof (Z.pow_pos_nonneg (2 ^ 8) (zlen low) ltac:(lia) ltac:(lia)). nia.
Qed.

(** Bytes without a leading zero are the bytes of their value. *)
Lemma abs_bytes_unique f l : limbs_ok 8 l -> l = [] \/ back l <> 0 -> (length l <= f)%nat -> abs_bytes f (digits (2 ^ 8) l) = l.
Proof.
  revert l. induction f as [|f IH]; intros l Hok Hb Hl.
  { destruct l; [done|cbn in Hl; lia]. }
  destruct l as [|b l]; [done|]. cbn [abs_bytes]. destruct Hb as [?|Hb]; [done|].
  pose proof (digits_pos (b :: l) Hok Hb) as Hpos. destruct (Z.eqb_spec (digits (2 ^ 8) (b :: l)) 0); [lia|]. cbn [digits].
  apply Forall_cons in Hok as [Hbb Hok]. unfold fits in Hbb.
  rewrite Z.shiftr_div_pow2 by lia. change 0xff with (Z.ones 8). rewrite Z.land_ones by lia.
  rewrite (Z.add_comm b), (Z.mul_comm (2 ^ 8)), Z.div_add_l, Z.div_small, Z.add_0_r by lia.
  rewrite (Z.add_comm _ b), Z_mod_plus_full, Z.mod_small by lia. f_equal.
  apply IH; [exact Hok| |cbn in Hl; lia]. destruct l; [left; done|right; exact Hb].
Qed.

Lemma wrap_lnot v : - 2 ^ 63 < v < 0 -> Z.lnot (u64 v) mod 2 ^ 64 = - v - 1.
Proof. intros Hv. unfold wrap, Z.lnot, Z.pred. Z.div_mod_to_equations. lia. Qed.

Lemma serialize_abs v : v <> 0 -> - 2 ^ 63 < v < 2 ^ 63 ->
  exists low h, abs_bytes 8 (Z.abs v) = low ++ [h] /\ limbs_ok 8 (low ++ [h]) /\ h <> 0 /\
    digits (2 ^ 8) low + 2 ^ (8 * zlen low) * h = Z.abs v /\
    serialize v = if h <? 128 then low ++ [if v <? 0 then h + 128 else h] else low ++ [h] ++ [if v <? 0 then 0x80 else 0].
Proof.
  intros Hv Hb. destruct (abs_bytes_ok 8 (Z.abs v) ltac:(change (2 ^ (8 * Z.of_nat 8)) with (2 ^ 64); lia)) as (Hok & Hd & Hne & _).
  specialize (Hne ltac:(lia)). unfold serialize. destruct (Z.eqb_spec v 0); [lia|].
  assert (Habs : (if v <? 0 then u64 (Z.lnot (u64 v) mod 2 ^ 64 + 1) else u64 v) = Z.abs v).
  { destruct (Z.ltb_spec v 0).
    - rewrite wrap_lnot by lia. rewrite wrap_small by (unfold fits; lia). lia.
    - rewrite wrap_small by (unfold fits; lia). lia. }
  rewrite Habs. set (l := abs_bytes 8 (Z.abs v)) in *. clearbody l.
  destruct l as [|h low _] using rev_ind; [done|]. exists low, h. rewrite back_snoc in *. rewrite digits_snoc, <- Z.pow_mul_r in Hd by lia.
  pose proof Hok as Hok'. apply Forall_app in Hok' as [Hlow Hh]. apply Forall_cons in Hh as [Hh _].
  pose proof (byte_high h Hh) as (-> & _ & Hlor). split_and!; try done.
  destruct (Z.ltb_spec h 128) as [Hlt|]; cbn [negb].
  - destruct (v <? 0); [|done]. unfold set_back. rewrite back_snoc, length_app, Nat.add_sub.
    rewrite insert_app_r_alt, Nat.sub_diag by lia. cbn. rewrite Hlor by exact Hlt. done.
  - rewrite <- app_assoc. done.
Qed.

(** the minimal encoding test of the constructor *)
Definition minimal_num (vch : list Z) : bool :=
  negb ((zlen vch >? 0) && (Z.land (back vch) 0x7f =? 0) && ((zlen vch <=? 1) || (Z.land vch.[(length vch - 2)%nat] 0x80 =? 0))).

Lemma CScriptNum_of_minimal vch k : CScriptNum_of vch true k =
  if (zlen vch <=? k) && minimal_num vch then Some (set_vch vch) else None.
Proof.
  unfold CScriptNum_of, minimal_num. cbn [andb]. set (b := (zlen vch >? 0) && _ && _).
  destruct (Z.gtb_spec (zlen vch) k), (Z.leb_spec (zlen vch) k); try lia; destruct b; done.
Qed.

Lemma minimal_num_snoc low hi : limbs_ok 8 (low ++ [hi]) ->
  minimal_num (low ++ [hi]) = true <-> hi mod 128 <> 0 \/ (low <> [] /\ 128 <= back low).
Proof.
  intros Hok. apply Forall_app in Hok as [Hlow Hhi]. apply Forall_cons in Hhi as [Hhi _].
  pose proof (byte_high hi Hhi) as (_ & Hm & _). unfold minimal_num. rewrite back_snoc, Hm, zlen_app. cbn [length].
  destruct (Z.gtb_spec (zlen low + Z.of_nat 1) 0); [|lia]. cbn [andb].
  destruct (Z.eqb_spec (hi mod 128) 0) as [Ez|Ez]; cbn [andb negb]; [|tauto].
  destruct low as [|h2 low _] using rev_ind; [cbn; split; [done|intros [?|[? _]]; done]|].
  apply Forall_app in Hlow as [Hlow Hh2]. apply Forall_cons in Hh2 as [Hh2 _]. rewrite back_snoc.
  pose proof (byte_high h2 Hh2) as (Hb2 & _ & _).
  assert (Hnth : ((low ++ [h2]) ++ [hi]).[(length ((low ++ [h2]) ++ [hi]) - 2)%nat] = h2).
  { rewrite !length_app, <- app_assoc. cbn [length]. rewrite app_nth2 by lia.
    replace (length low + 1 + 1 - 2 - length low)%nat with 0%nat by lia. done. }
  rewrite Hnth, Hb2, length_app. cbn [length]. destruct (Z.leb_spec (Z.of_nat (length low + 1) + Z.of_nat 1) 1); [lia|].
  cbn [orb]. destruct (Z.ltb_spec h2 128); cbn [negb]; split; intros Hx; try done.
  - destruct Hx as [?|[_ ?]]; [done|lia].
  - right. split; [destruct low; done|lia].
Qed.

Lemma sm_value_of_parts low h v : limbs_ok 8 low -> 0 <= h < 128 -> digits (2 ^ 8) low + 2 ^ (8 * zlen low) * h = Z.abs v ->
  sm_value low (if v <? 0 then h + 128 else h) = v.
Proof.
  intros Hlow Hh Hd. unfold sm_value. destruct (Z.ltb_spec v 0).
  - destruct (Z.ltb_spec (h + 128) 128); [lia|]. replace ((h + 128) mod 128) with h by (Z.div_mod_to_equations; lia). lia.
  - destruct (Z.ltb_spec h 128); [|lia]. rewrite Z.mod_small by lia. lia.
Qed.

Lemma num_of_serialize k v : 1 <= k <= 8 -> Z.abs v < 2 ^ (8 * k - 1) -> CScriptNum_of (serialize v) true k = Some v.
Proof.
  intros Hk Hv. rewrite CScriptNum_of_minimal. destruct (Z.eq_dec v 0) as [->|Hv0].
  { change (serialize 0) with (@nil Z). cbn [length]. destruct (Z.leb_spec (Z.of_nat 0) k); [done|lia]. }
  assert (H63 : Z.abs v < 2 ^ 63) by (eapply Z.lt_le_trans; [exact Hv|apply Z.pow_le_mono_r; lia]).
  destruct (serialize_abs v Hv0 ltac:(lia)) as (low & h & _ & Hok & Hh0 & Hd & ->).
  pose proof Hok as Hok'. apply Forall_app in Hok' as [Hlow Hh]. apply Forall_cons in Hh as [Hh _]. unfold fits in Hh.
  pose proof (digits_nonneg 8 low ltac:(lia) Hlow). pose proof (pow2_pos (8 * zlen low) ltac:(lia)).
  destruct (Z.ltb_spec h 128) as [Hlt|Hge].
  - assert (Hlen : zlen low < k).
    { assert (8 * zlen low < 8 * k - 1) by (apply (Z.pow_lt_mono_r_iff 2); nia). lia. }
    assert (Hok2 : limbs_ok 8 (low ++ [if v <? 0 then h + 128 else h])).
    { apply Forall_app. split; [exact Hlow|]. constructor; [|constructor]. destruct (v <? 0); unfold fits; lia. }
    rewrite set_vch_spec by (assumption || lia). rewrite sm_value_of_parts by (assumption || lia).
    rewrite zlen_app. cbn [length]. destruct (Z.leb_spec (zlen low + Z.of_nat 1) k); [|lia]. cbn [andb].
    rewrite (proj2 (minimal_num_snoc _ _ Hok2)); [done|]. left. destruct (v <? 0); Z.div_mod_to_equations; lia.
  - assert (Hlen : zlen low + 1 < k).
    { assert (8 * zlen low + 7 < 8 * k - 1); [|lia]. apply (Z.pow_lt_mono_r_iff 2); [lia..|].
      rewrite Z.pow_add_r by lia. change (2 ^ 7) with 128. nia. }
    rewrite app_assoc. set (t := if v <? 0 then 0x80 else 0).
    assert (Ht : t = if v <? 0 then 0 + 128 else 0) by done.
    assert (Hok2 : limbs_ok 8 ((low ++ [h]) ++ [t])).
    { apply Forall_app. split; [exact Hok|]. constructor; [|constructor]. rewrite Ht. destruct (v <? 0); unfold fits; lia. }
    rewrite set_vch_spec by (exact Hok2 || (rewrite zlen_app; cbn [length]; lia)).
    rewrite Ht, sm_value_of_parts; [|exact Hok|lia|rewrite digits_snoc, <- Z.pow_mul_r by lia; lia].
    rewrite !zlen_app. cbn [length]. destruct (Z.leb_spec (zlen low + Z.of_nat 1 + Z.of_nat 1) k); [|lia]. cbn [andb].
    rewrite <- Ht, (proj2 (minimal_num_snoc _ _ Hok2)); [done|]. right. rewrite back_snoc. split; [destruct low; done|lia].
Qed.

Lemma serialize_of_abs v low h : v <> 0 -> - 2 ^ 63 < v < 2 ^ 63 -> limbs_ok 8 (low ++ [h]) -> h <> 0 -> zlen low < 8 ->
  digits (2 ^ 8) low + 2 ^ (8 * zlen low) * h = Z.abs v ->
  serialize v = if h <? 128 then low ++ [if v <? 0 then h + 128 else h] else low ++ [h] ++ [if v <? 0 then 0x80 else 0].
Proof.
  intros Hv0 Hv Hok Hh0 Hlen Hd. destruct (serialize_abs v Hv0 Hv) as (low' & h' & Ha & _ & _ & _ & ->).
  assert (E : low' ++ [h'] = low ++ [h]); [|apply app_inj_tail in E as [-> ->]; done].
  rewrite <- Ha, <- Hd. rewrite Z.pow_mul_r, <- digits_snoc by lia. apply abs_bytes_unique; [exact Hok|right; rewrite back_snoc; exact Hh0|].
  rewrite length_app. cbn [length]. lia.
Qed.

Lemma num_of_canonical k vch v : 1 <= k <= 8 -> limbs_ok 8 vch -> CScriptNum_of vch true k = Some v ->
  vch = serialize v /\ Z.abs v < 2 ^ (8 * k - 1).
Proof.
  intros Hk Hok. rewrite CScriptNum_of_minimal. destruct ((zlen vch <=? k) && minimal_num vch) eqn:E; [|done].
  apply andb_true_iff in E as [Hl Hm]. apply Z.leb_le in Hl. intros [= <-].
  destruct vch as [|hi low _] using rev_ind; [split; [done|cbn; apply pow2_pos; lia]|].
  rewrite zlen_app in Hl. cbn [length] in Hl. rewrite set_vch_spec by (exact Hok || lia).
  pose proof (proj1 (minimal_num_snoc _ _ Hok) Hm) as Hmin. clear Hm.
  apply Forall_app in Hok as [Hlow Hhi]. apply Forall_cons in Hhi as [Hhi _]. unfold fits in Hhi.
  pose proof (digits_bound 8 low ltac:(lia) Hlow) as Hd. unfold sm_value. set (P := 2 ^ (8 * zlen low)) in *.
  assert (HP : P * 128 = 2 ^ (8 * (zlen low + 1) - 1)).
  { unfold P. change 128 with (2 ^ 7). rewrite <- Z.pow_add_r by lia. f_equal. lia. }
  assert (HPk : P * 128 <= 2 ^ (8 * k - 1)) by (rewrite HP; apply Z.pow_le_mono_r; lia).
  assert (HP63 : P * 128 <= 2 ^ 63) by (rewrite HP; apply Z.pow_le_mono_r; lia).
  set (h := hi mod 128) in *. assert (Hh : 0 <= h < 128) by (unfold h; Z.div_mod_to_equations; lia).
  set (a := digits (2 ^ 8) low + P * h). assert (Ha : 0 <= a < P * 128) by (unfold a; nia).
  assert (Hhi' : hi = if hi <? 128 then h else h + 128) by (unfold h; destruct (Z.ltb_spec hi 128); Z.div_mod_to_equations; lia).
  split; [|destruct (hi <? 128); lia].
  destruct (Z.eq_dec h 0) as [Hz|Hnz].
  - destruct Hmin as [?|[Hne Hb]]; [done|]. destruct low as [|h2 low _] using rev_ind; [done|]. clear Hne.
    rewrite back_snoc in Hb. pose proof (digits_pos (low ++ [h2]) Hlow ltac:(rewrite back_snoc; lia)) as Hpos.
    assert (Ha0 : 0 < a) by (unfold a; rewrite Hz; lia). rewrite zlen_app in Hl. cbn [length] in Hl.
    rewrite (serialize_of_abs _ low h2); [|destruct (hi <? 128); lia|destruct (hi <? 128); lia|exact Hlow|lia|lia|].
    + destruct (Z.ltb_spec h2 128); [lia|]. rewrite app_assoc. do 2 f_equal. rewrite Hhi' at 1. rewrite Hz.
      destruct (Z.ltb_spec hi 128), (Z.ltb_spec a 0), (Z.ltb_spec (-a) 0); lia.
    + rewrite Z.pow_mul_r, <- digits_snoc by lia. unfold a. rewrite Hz. destruct (hi <? 128); lia.
  - assert (Ha0 : 0 < a) by (unfold a; nia).
    rewrite (serialize_of_abs _ low h); [|destruct (hi <? 128); lia|destruct (hi <? 128); lia| |exact Hnz|lia|fold P; fold a; destruct (hi <? 128); lia].
    + destruct (Z.ltb_spec h 128); [|lia]. do 2 f_equal. rewrite Hhi' at 1. destruct (Z.ltb_spec hi 128), (Z.ltb_spec a 0), (Z.ltb_spec (-a) 0); lia.
    + apply Forall_app. split; [exact Hlow|]. constructor; [unfold fits; lia|constructor].
Qed.

(** ** Pushes *)

(** the opcode a push of [n] bytes starts with, and the bytes of its length *)
Definition push_opcode_of (n : Z) : Z :=
  if n <? OP_PUSHDATA1 then n else if n <=? 0xff then OP_PUSHDATA1 else if n <=? 0xffff then OP_PUSHDATA2 else OP_PUSHDATA4.

Lemma ReadLE_app n x rest : fits (8 * Z.of_nat n) x ->
  ReadLE n (WriteLE n x ++ rest) = x /\ zdrop (Z.of_nat n) (WriteLE n x ++ rest) = rest /\ zlen (WriteLE n x) = Z.of_nat n.
Proof.
  intros Hx. pose proof (proj1 (WriteLE_ok n x)) as Hl. split_and!.
  - rewrite ReadLE_WriteLE. apply Z.mod_small, Hx.
  - apply zdrop_app. lia.
  - lia.
Qed.

Lemma GetScriptOp_push data rest : zlen data < 2 ^ 32 ->
  GetScriptOp (push_data [] data ++ rest) = Some (push_opcode_of (zlen data), data, rest).
Proof.
  intros Hl. unfold push_data, AppendDataSize, push_opcode_of. rewrite wrap_small by (unfold fits; lia).
  assert (Htail : forall op : Z, (if zlen (data ++ rest) <? zlen data then None
    else Some (op, ztake (zlen data) (data ++ rest), zdrop (zlen data) (data ++ rest))) = Some (op, data, rest)).
  { intros op. rewrite zlen_app. destruct (Z.ltb_spec (zlen data + zlen rest) (zlen data)); [lia|].
    rewrite ztake_app, zdrop_app by lia. done. }
  destruct (Z.ltb_spec (zlen data) 0x4c); [|destruct (Z.leb_spec (zlen data) 0xff); [|destruct (Z.leb_spec (zlen data) 0xffff)]];
    rewrite <- !app_assoc; cbn [app]; unfold GetScriptOp.
  - rewrite !(wrap_small 8) by (unfold fits; lia). destruct (Z.leb_spec (zlen data) 0x4e); [|lia].
    destruct (Z.ltb_spec (zlen data) 0x4c); [|lia]. cbn [mbind option_bind]. apply Htail.
  - rewrite !(wrap_small 8) by (unfold fits; lia). change (0x4c <=? 0x4e) with true. change (0x4c <? 0x4c) with false.
    change (0x4c =? 0x4c) with true. cbn [mbind option_bind]. apply Htail.
  - change (0x4d <=? 0x4e) with true. change (0x4d <? 0x4c) with false. change (0x4d =? 0x4c) with false. change (0x4d =? 0x4d) with true.
    destruct (ReadLE_app 2 (zlen data) (data ++ rest) ltac:(unfold fits; lia)) as (-> & Hd & Hz). change (Z.of_nat 2) with 2 in *.
    rewrite Hd, zlen_app, Hz. destruct (Z.ltb_spec (2 + zlen (data ++ rest)) 2); [lia|]. cbn [mbind option_bind]. apply Htail.
  - change (0x4e <=? 0x4e) with true. change (0x4e <? 0x4c) with false. change (0x4e =? 0x4c) with false. change (0x4e =? 0x4d) with false.
    destruct (ReadLE_app 4 (zlen data) (data ++ rest) ltac:(unfold fits; lia)) as (-> & Hd & Hz). change (Z.of_nat 4) with 4 in *.
    rewrite Hd, zlen_app, Hz. destruct (Z.ltb_spec (4 + zlen (data ++ rest)) 4); [lia|]. cbn [mbind option_bind]. apply Htail.
Qed.

Lemma push_data_app s b : push_data s b = s ++ push_data [] b.
Proof. unfold push_data, AppendDataSize. repeat case_match; rewrite <- ?app_assoc; done. Qed.

Lemma push_minimal data : zlen data < 2 ^ 32 -> limbs_ok 8 data ->
  CheckMinimalPush data (push_opcode_of (zlen data)) = true \/
  (exists b, data = [b] /\ (1 <= b <= 16 \/ b = 0x81)).
Proof.
  intros Hl Hok. unfold CheckMinimalPush, push_opcode_of.
  destruct (Z.eqb_spec (zlen data) 0) as [E0|E0]; [rewrite E0; left; done|].
  destruct (Z.eqb_spec (zlen data) 1) as [E1|E1]; cbn [andb].
  { destruct data as [|b [|? ?]]; cbn in E1; [lia| |lia]. cbn [nth length].
    destruct (Z.geb_spec b 1), (Z.leb_spec b 16); cbn [andb]; [right; exists b; split; [done|lia]|..];
      (destruct (Z.eqb_spec b 0x81); [right; exists b; split; [done|lia]|left; done]). }
  left. repeat (case_match; bool_to_prop; try lia); done || (apply Z.eqb_eq; lia).
Qed.

(** ** Signature operations *)

Lemma GetScriptOp_shrinks pc op data rest : limbs_ok 8 pc -> GetScriptOp pc = Some (op, data, rest) ->
  (length rest < length pc)%nat /\ limbs_ok 8 rest.
Proof.
  intros Hok. unfold GetScriptOp. destruct pc as [|opc pc]; [done|]. apply Forall_cons in Hok as [Hop Hok].
  assert (Hz : forall n, (length (zdrop n pc) <= length pc)%nat /\ limbs_ok 8 (zdrop n pc)).
  { intros n. unfold zdrop. rewrite length_drop. split; [lia|apply Forall_drop, Hok]. }
  destruct (opc <=? OP_PUSHDATA4); [|intros [= <- <- <-]; cbn; split; [lia|exact Hok]].
  intros H. apply bind_Some in H as ([n pc1] & H1 & H).
  assert (Hpc1 : (length pc1 <= length pc)%nat /\ limbs_ok 8 pc1).
  { repeat case_match; simplify_eq; try (split; [cbn; lia|assumption]); try apply Hz.
    apply Forall_cons in Hok as [_ Hok]. split; [cbn; lia|exact Hok]. }
  case_match; [done|]. injection H as <- <- <-. unfold zdrop. rewrite length_drop. cbn [length].
  split; [lia|apply Forall_drop, Hpc1].
Qed.

Lemma GetScriptOp_data pc op data rest : limbs_ok 8 pc -> GetScriptOp pc = Some (op, data, rest) -> limbs_ok 8 data.
Proof.
  intros Hok. unfold GetScriptOp. destruct pc as [|opc pc]; [done|]. apply Forall_cons in Hok as [_ Hok].
  destruct (opc <=? OP_PUSHDATA4); [|intros [= <- <- <-]; constructor]. intros H. apply bind_Some in H as ([n pc1] & H1 & H).
  assert (Hpc1 : limbs_ok 8 pc1).
  { repeat case_match; simplify_eq; try assumption; try (apply Forall_drop, Hok). apply Forall_cons in Hok as [_ Hok]. exact Hok. }
  case_match; [done|]. injection H as <- <- <-. apply Forall_take, Hpc1.
Qed.

Lemma GetScriptOp_suffix pc op data rest : GetScriptOp pc = Some (op, data, rest) -> exists pre, pc = pre ++ rest /\ pre <> [].
Proof.
  unfold GetScriptOp. destruct pc as [|opc pc]; [done|]. destruct (opc <=? OP_PUSHDATA4); [|intros [= <- <- <-]; exists [opc]; done].
  intros H. apply bind_Some in H as ([n pc1] & H1 & H).
  assert (Hpc1 : exists pre, pc = pre ++ pc1).
  { repeat case_match; simplify_eq; [exists []; done|eexists [_]; done|..];
      eexists; symmetry; apply take_drop. }
  destruct Hpc1 as [pre ->]. case_match; [done|]. injection H as <- <- <-.
  exists (opc :: pre ++ ztake n pc1). split; [|done]. cbn. rewrite <- app_assoc. unfold ztake, zdrop. rewrite take_drop. done.
Qed.

(** one operation of the count *)
Definition sigop_step (fAccurate : bool) (opcode lastOpcode n : Z) : Z :=
  if (opcode =? OP_CHECKSIG) || (opcode =? OP_CHECKSIGVERIFY) then u32 (n + 1)
  else if (opcode =? OP_CHECKMULTISIG) || (opcode =? OP_CHECKMULTISIGVERIFY) then
    if fAccurate && (lastOpcode >=? OP_1) && (lastOpcode <=? OP_16) then u32 (n + (lastOpcode - (OP_1 - 1)))
    else u32 (n + MAX_PUBKEYS_PER_MULTISIG)
  else n.

Lemma sigop_step_bound op last n m : 0 <= n <= m -> m + 20 < 2 ^ 32 ->
  n <= sigop_step true op last n /\ sigop_step true op last n <= sigop_step false op last m <= m + 20.
Proof.
  intros Hn Hm. unfold sigop_step, MAX_PUBKEYS_PER_MULTISIG. cbn [andb].
  destruct ((op =? OP_CHECKSIG) || (op =? OP_CHECKSIGVERIFY)); [rewrite !wrap_small by (unfold fits; lia); lia|].
  destruct ((op =? OP_CHECKMULTISIG) || (op =? OP_CHECKMULTISIGVERIFY)); [|lia].
  destruct ((last >=? 0x51) && (last <=? 0x60)) eqn:E; [|rewrite !wrap_small by (unfold fits; lia); lia].
  bool_to_prop. rewrite !wrap_small by (unfold fits; lia). lia.
Qed.

Lemma sigop_loop_bound fuel : forall pc last n m, limbs_ok 8 pc -> (length pc <= fuel)%nat -> 0 <= n <= m -> m + 20 * zlen pc < 2 ^ 32 ->
  n <= GetSigOpCount_loop fuel true pc last n /\
  GetSigOpCount_loop fuel true pc last n <= GetSigOpCount_loop fuel false pc last m <= m + 20 * zlen pc.
Proof.
  induction fuel as [|fuel IH]; intros pc last n m Hok Hf Hn Hm; cbn [GetSigOpCount_loop].
  { destruct pc; [cbn; lia|cbn in Hf; lia]. }
  destruct (GetScriptOp pc) as [[[op data] rest]|] eqn:E; [|lia].
  destruct (GetScriptOp_shrinks _ _ _ _ Hok E) as [Hlt Hrest].
  fold (sigop_step true op last n). fold (sigop_step false op last m).
  destruct (sigop_step_bound op last n m Hn ltac:(lia)) as [H1 H2].
  specialize (IH rest op (sigop_step true op last n) (sigop_step false op last m) Hrest ltac:(lia) ltac:(lia) ltac:(lia)). lia.
Qed.

Lemma sigop_loop_fuel f g acc : forall pc last n, limbs_ok 8 pc -> (length pc <= f)%nat -> (length pc <= g)%nat ->
  GetSigOpCount_loop f acc pc last n = GetSigOpCount_loop g acc pc last n.
Proof.
  revert g. induction f as [|f IH]; intros g pc last n Hok Hf Hg.
  { destruct pc; [|cbn in Hf; lia]. destruct g; done. }
  destruct g as [|g]; [destruct pc; [done|cbn in Hg; lia]|]. cbn [GetSigOpCount_loop].
  destruct (GetScriptOp pc) as [[[op data] rest]|] eqn:E; [|done].
  destruct (GetScriptOp_shrinks _ _ _ _ Hok E) as [Hlt Hrest]. apply IH; [exact Hrest|lia..].
Qed.

(** ** Properties *)

(** Script numbers: for every size limit up to 8 bytes, the byte strings that [CScriptNum] accepts
    with minimal encoding required are exactly the encodings [serialize] produces for the values of
    absolute value below 2^(8k-1), and it returns the value encoded: the encoding is a bijection. *)
Theorem scriptnum_bijection (k v : Z) (vch : list Z) : 1 <= k <= 8 -> limbs_ok 8 vch ->
  CScriptNum_of vch true k = Some v <-> vch = serialize v /\ Z.abs v < 2 ^ (8 * k - 1).
Proof. intros Hk Hok. split; [apply num_of_canonical; assumption|]. intros [-> Hv]. apply num_of_serialize; assumption. Qed.

(** Pushes: bytes appended to a script with [operator<<] are what the decoder returns, whatever follows;
    the opcode chosen passes the minimal push test, except for the one-byte values that have
    an opcode of their own. *)
Theorem script_push_decodes (s data rest : list Z) : zlen data < 2 ^ 32 -> limbs_ok 8 data ->
  exists opcode, 0 <= opcode <= OP_PUSHDATA4 /\ push_data s data = s ++ push_data [] data /\
  GetScriptOp (push_data [] data ++ rest) = Some (opcode, data, rest) /\
  (CheckMinimalPush data opcode = true \/ exists b, data = [b] /\ (1 <= b <= 16 \/ b = 0x81)).
Proof.
  intros Hl Hok. exists (push_opcode_of (zlen data)). split_and!.
  - unfold push_opcode_of. repeat case_match; lia.
  - unfold push_opcode_of. repeat case_match; bool_to_prop; lia.
  - apply push_data_app.
  - apply GetScriptOp_push, Hl.
  - apply push_minimal; assumption.
Qed.

(** Signature operation counts: for a script whose counter cannot wrap, the accurate count is at most the
    legacy count, which is at most 20 per byte; the loop ends within one step per byte. *)
Theorem sigop_count_bounds (s : list Z) (fuel : nat) : limbs_ok 8 s -> 20 * zlen s < 2 ^ 32 -> (length s <= fuel)%nat ->
  0 <= GetSigOpCount s true <= GetSigOpCount s false /\ GetSigOpCount s false <= 20 * zlen s /\
  forall acc, GetSigOpCount_loop fuel acc s OP_INVALIDOPCODE 0 = GetSigOpCount s acc.
Proof.
  intros Hok Hl Hf. unfold GetSigOpCount.
  destruct (sigop_loop_bound (length s) s OP_INVALIDOPCODE 0 0 Hok ltac:(lia) ltac:(lia) ltac:(lia)) as [H1 H2].
  split_and!; [lia..|]. intros acc. apply sigop_loop_fuel; [exact Hok|lia..].
Qed.

(** Witness programs: a script is recognised with version [v] and program [p] exactly when it is the opcode of [v]
    (0 to 16) followed by a direct push of [p], of 2 to 40 bytes. *)
Theorem witness_program_form (s : list Z) (v : Z) (p : list Z) :
  IsWitnessProgram s = Some (v, p) <->
  exists op, EncodeOP_N v = Some op /\ s = op :: zlen p :: p /\ 2 <= zlen p <= 40.
Proof.
  unfold IsWitnessProgram, EncodeOP_N, DecodeOP_N. split.
  - destruct (Z.ltb_spec (zlen s) 4), (Z.gtb_spec (zlen s) 42); cbn [orb]; try done.
    destruct s as [|o [|n q]]; [cbn in *; lia..|]. cbn [nth length]. case_match eqn:E1; [done|].
    destruct (Z.eqb_spec (n + 2) (Z.of_nat (S (S (length q))))) as [E2|]; [|done]. intros E3. exists o.
    assert (Hq : n = zlen q) by lia. change (zdrop 2 (o :: n :: q)) with q in E3.
    destruct (Z.eqb_spec o 0) as [->|Ho].
    + injection E3 as <- <-. split_and!; [done|rewrite Hq; done|cbn in *; lia..].
    + cbn [negb andb] in E1. bool_to_prop. destruct ((o >=? 0x51) && (o <=? 0x60)) eqn:E4; [|done].
      injection E3 as <- <-. bool_to_prop. split_and!; [|rewrite Hq; done|cbn in *; lia..].
      destruct (Z.geb_spec (o - (0x51 - 1)) 0), (Z.leb_spec (o - (0x51 - 1)) 16), (Z.eqb_spec (o - (0x51 - 1)) 0); try lia. cbn. f_equal. lia.
  - intros (op & E & -> & Hp). destruct ((v >=? 0) && (v <=? 16)) eqn:Hv; [|done]. bool_to_prop. injection E as <-.
    cbn [length nth]. destruct (Z.ltb_spec (Z.of_nat (S (S (length p)))) 4); [lia|].
    destruct (Z.gtb_spec (Z.of_nat (S (S (length p)))) 42); [lia|]. cbn [orb].
    destruct (Z.eqb_spec (zlen p + 2) (Z.of_nat (S (S (length p))))); [|lia].
    destruct (Z.eqb_spec v 0) as [->|Hv0]; [done|].
    destruct (Z.eqb_spec (0x51 + v - 1) 0); [lia|]. cbn [negb andb].
    destruct (Z.ltb_spec (0x51 + v - 1) 0x51); [lia|]. destruct (Z.gtb_spec (0x51 + v - 1) 0x60); [lia|]. cbn [orb].
    destruct (Z.geb_spec (0x51 + v - 1) 0x51); [|lia]. destruct (Z.leb_spec (0x51 + v - 1) 0x60); [|lia]. cbn [andb mbind option_bind].
    do 2 f_equal. lia.
Qed.

(** *** Concrete inputs *)

Lemma scriptnum_bijection_witness : CScriptNum_of [0xff; 0x80] true 4 = Some (-255).
Proof. apply (scriptnum_bijection 4 (-255) [0xff; 0x80]); [lia|repeat constructor; vm_compute; congruence|]. split; [reflexivity|vm_compute; reflexivity]. Defined.

Lemma script_push_decodes_witness : exists opcode, 0 <= opcode <= OP_PUSHDATA4 /\
  push_data [OP_DUP] (replicate 80 7) = [OP_DUP] ++ push_data [] (replicate 80 7) /\
  GetScriptOp (push_data [] (replicate 80 7) ++ [OP_DROP]) = Some (opcode, replicate 80 7, [OP_DROP]) /\
  (CheckMinimalPush (replicate 80 7) opcode = true \/ exists b, replicate 80 7 = [b] /\ (1 <= b <= 16 \/ b = 0x81)).
Proof.
  apply (script_push_decodes [OP_DUP] (replicate 80 7) [OP_DROP]); [vm_compute; reflexivity|].
  apply Forall_replicate. vm_compute. intuition congruence.
Defined.

Lemma sigop_count_bounds_witness :
  let s := [OP_2; OP_CHECKMULTISIG; OP_CHECKSIG] in 0 <= GetSigOpCount s true <= GetSigOpCount s false.
Proof.
  apply (sigop_count_bounds [OP_2; OP_CHECKMULTISIG; OP_CHECKSIG] 3); [|vm_compute; reflexivity|cbn; lia].
  repeat constructor; vm_compute; congruence.
Defined.
