(* ===== verification/ScriptFlags.v ===== *)
(** * Script verification flags and errors

    The constants of src/script/interpreter.h, the flag sets of
    src/policy/policy.h and the errors of src/script/script_error.h. *)

From Stdlib Require Import ZArith Lia Bool.
From stdpp Require Import base list decidable.
From S2P Require Import Prelude.
Local Open Scope Z_scope.

(** ** Verification flags *)

Definition SCRIPT_VERIFY_P2SH : Z := Z.shiftl 1 0.
Definition SCRIPT_VERIFY_STRICTENC : Z := Z.shiftl 1 1.
Definition SCRIPT_VERIFY_DERSIG : Z := Z.shiftl 1 2.
Definition SCRIPT_VERIFY_LOW_S : Z := Z.shiftl 1 3.
Definition SCRIPT_VERIFY_NULLDUMMY : Z := Z.shiftl 1 4.
Definition SCRIPT_VERIFY_SIGPUSHONLY : Z := Z.shiftl 1 5.
Definition SCRIPT_VERIFY_MINIMALDATA : Z := Z.shiftl 1 6.
Definition SCRIPT_VERIFY_DISCOURAGE_UPGRADABLE_NOPS : Z := Z.shiftl 1 7.
Definition SCRIPT_VERIFY_CLEANSTACK : Z := Z.shiftl 1 8.
Definition SCRIPT_VERIFY_CHECKLOCKTIMEVERIFY : Z := Z.shiftl 1 9.
Definition SCRIPT_VERIFY_CHECKSEQUENCEVERIFY : Z := Z.shiftl 1 10.
Definition SCRIPT_VERIFY_WITNESS : Z := Z.shiftl 1 11.
Definition SCRIPT_VERIFY_DISCOURAGE_UPGRADABLE_WITNESS_PROGRAM : Z := Z.shiftl 1 12.
Definition SCRIPT_VERIFY_MINIMALIF : Z := Z.shiftl 1 13.
Definition SCRIPT_VERIFY_NULLFAIL : Z := Z.shiftl 1 14.
Definition SCRIPT_VERIFY_WITNESS_PUBKEYTYPE : Z := Z.shiftl 1 15.
Definition SCRIPT_VERIFY_CONST_SCRIPTCODE : Z := Z.shiftl 1 16.
Definition SCRIPT_VERIFY_TAPROOT : Z := Z.shiftl 1 17.
Definition SCRIPT_VERIFY_DISCOURAGE_UPGRADABLE_TAPROOT_VERSION : Z := Z.shiftl 1 18.
Definition SCRIPT_VERIFY_DISCOURAGE_OP_SUCCESS : Z := Z.shiftl 1 19.
Definition SCRIPT_VERIFY_DISCOURAGE_UPGRADABLE_PUBKEYTYPE : Z := Z.shiftl 1 20.

Definition MANDATORY_SCRIPT_VERIFY_FLAGS : Z :=
  foldr Z.lor 0 [SCRIPT_VERIFY_P2SH; SCRIPT_VERIFY_DERSIG; SCRIPT_VERIFY_NULLDUMMY; SCRIPT_VERIFY_CHECKLOCKTIMEVERIFY;
    SCRIPT_VERIFY_CHECKSEQUENCEVERIFY; SCRIPT_VERIFY_WITNESS; SCRIPT_VERIFY_TAPROOT].
Definition STANDARD_SCRIPT_VERIFY_FLAGS : Z :=
  foldr Z.lor 0 [MANDATORY_SCRIPT_VERIFY_FLAGS; SCRIPT_VERIFY_STRICTENC; SCRIPT_VERIFY_MINIMALDATA; SCRIPT_VERIFY_DISCOURAGE_UPGRADABLE_NOPS;
    SCRIPT_VERIFY_CLEANSTACK; SCRIPT_VERIFY_MINIMALIF; SCRIPT_VERIFY_NULLFAIL; SCRIPT_VERIFY_LOW_S;
    SCRIPT_VERIFY_DISCOURAGE_UPGRADABLE_WITNESS_PROGRAM; SCRIPT_VERIFY_WITNESS_PUBKEYTYPE; SCRIPT_VERIFY_CONST_SCRIPTCODE;
    SCRIPT_VERIFY_DISCOURAGE_UPGRADABLE_TAPROOT_VERSION; SCRIPT_VERIFY_DISCOURAGE_OP_SUCCESS; SCRIPT_VERIFY_DISCOURAGE_UPGRADABLE_PUBKEYTYPE].
Definition STANDARD_NOT_MANDATORY_VERIFY_FLAGS : Z := Z.land STANDARD_SCRIPT_VERIFY_FLAGS (u32 (Z.lnot MANDATORY_SCRIPT_VERIFY_FLAGS)).

(** [flags & mask] as a condition *)
Definition has_flag (flags mask : Z) : bool := negb (Z.land flags mask =? 0).

(** ** Signature hash types and script versions *)

Definition SIGHASH_DEFAULT : Z := 0.
Definition SIGHASH_ALL : Z := 1.
Definition SIGHASH_NONE : Z := 2.
Definition SIGHASH_SINGLE : Z := 3.
Definition SIGHASH_ANYONECANPAY : Z := 0x80.
Definition SIGHASH_OUTPUT_MASK : Z := 3.
Definition SIGHASH_INPUT_MASK : Z := 0x80.

Inductive SigVersion : Type := BASE | WITNESS_V0 | TAPROOT | TAPSCRIPT.

#[export] Instance SigVersion_eq_dec : EqDecision SigVersion.
Proof. solve_decision. Defined.

Definition WITNESS_V0_SCRIPTHASH_SIZE : Z := 32.
Definition WITNESS_V0_KEYHASH_SIZE : Z := 20.
Definition WITNESS_V1_TAPROOT_SIZE : Z := 32.
Definition TAPROOT_LEAF_MASK : Z := 0xfe.
Definition TAPROOT_LEAF_TAPSCRIPT : Z := 0xc0.
Definition TAPROOT_CONTROL_BASE_SIZE : Z := 33.
Definition TAPROOT_CONTROL_NODE_SIZE : Z := 32.
Definition TAPROOT_CONTROL_MAX_NODE_COUNT : Z := 128.
Definition TAPROOT_CONTROL_MAX_SIZE : Z := TAPROOT_CONTROL_BASE_SIZE + TAPROOT_CONTROL_NODE_SIZE * TAPROOT_CONTROL_MAX_NODE_COUNT.

(** ** Errors *)

Inductive ScriptError : Type :=
  | SCRIPT_ERR_OK | SCRIPT_ERR_UNKNOWN_ERROR | SCRIPT_ERR_EVAL_FALSE | SCRIPT_ERR_OP_RETURN
  | SCRIPT_ERR_SCRIPT_SIZE | SCRIPT_ERR_PUSH_SIZE | SCRIPT_ERR_OP_COUNT | SCRIPT_ERR_STACK_SIZE
  | SCRIPT_ERR_SIG_COUNT | SCRIPT_ERR_PUBKEY_COUNT | SCRIPT_ERR_VERIFY | SCRIPT_ERR_EQUALVERIFY
  | SCRIPT_ERR_CHECKMULTISIGVERIFY | SCRIPT_ERR_CHECKSIGVERIFY | SCRIPT_ERR_NUMEQUALVERIFY | SCRIPT_ERR_BAD_OPCODE
  | SCRIPT_ERR_DISABLED_OPCODE | SCRIPT_ERR_INVALID_STACK_OPERATION | SCRIPT_ERR_INVALID_ALTSTACK_OPERATION | SCRIPT_ERR_UNBALANCED_CONDITIONAL
  | SCRIPT_ERR_NEGATIVE_LOCKTIME | SCRIPT_ERR_UNSATISFIED_LOCKTIME | SCRIPT_ERR_SIG_HASHTYPE | SCRIPT_ERR_SIG_DER
  | SCRIPT_ERR_MINIMALDATA | SCRIPT_ERR_SIG_PUSHONLY | SCRIPT_ERR_SIG_HIGH_S | SCRIPT_ERR_SIG_NULLDUMMY
  | SCRIPT_ERR_PUBKEYTYPE | SCRIPT_ERR_CLEANSTACK | SCRIPT_ERR_MINIMALIF | SCRIPT_ERR_SIG_NULLFAIL
  | SCRIPT_ERR_DISCOURAGE_UPGRADABLE_NOPS | SCRIPT_ERR_DISCOURAGE_UPGRADABLE_WITNESS_PROGRAM | SCRIPT_ERR_DISCOURAGE_UPGRADABLE_TAPROOT_VERSION | SCRIPT_ERR_DISCOURAGE_OP_SUCCESS
  | SCRIPT_ERR_DISCOURAGE_UPGRADABLE_PUBKEYTYPE | SCRIPT_ERR_WITNESS_PROGRAM_WRONG_LENGTH | SCRIPT_ERR_WITNESS_PROGRAM_WITNESS_EMPTY | SCRIPT_ERR_WITNESS_PROGRAM_MISMATCH
  | SCRIPT_ERR_WITNESS_MALLEATED | SCRIPT_ERR_WITNESS_MALLEATED_P2SH | SCRIPT_ERR_WITNESS_UNEXPECTED | SCRIPT_ERR_WITNESS_PUBKEYTYPE
  | SCRIPT_ERR_SCHNORR_SIG_SIZE | SCRIPT_ERR_SCHNORR_SIG_HASHTYPE | SCRIPT_ERR_SCHNORR_SIG | SCRIPT_ERR_TAPROOT_WRONG_CONTROL_SIZE
  | SCRIPT_ERR_TAPSCRIPT_VALIDATION_WEIGHT | SCRIPT_ERR_TAPSCRIPT_CHECKMULTISIG | SCRIPT_ERR_TAPSCRIPT_MINIMALIF | SCRIPT_ERR_OP_CODESEPARATOR
  | SCRIPT_ERR_SIG_FINDANDDELETE.

#[export] Instance ScriptError_eq_dec : EqDecision ScriptError.
Proof. solve_decision. Defined.
