(* ===== verification/Interpreter.v ===== *)
(** * The script interpreter

    src/script/interpreter.cpp up to [EvalScript]: the encodings of keys and
    signatures, [FindAndDelete], the condition stack, and the stack machine, one
    definition for each group of opcodes.

    The result of a call is an [outcome]: [Ok] is [true], [Fail] is [false] with
    the error that was set (if one was), [Throw] is an exception, which [EvalScript]
    catches, and [Abort] a failed assertion.  A stack is a list with its top in
    front, so that [stacktop(-i)] is element [i - 1]; a script position is the rest
    of the script.  The virtual functions of a signature checker are the
    class [BaseSignatureChecker]. *)

From Stdlib Require Import ZArith Lia Bool.
From stdpp Require Import base option list decidable.
From S2P Require Import Prelude Uint256 Blake3Hasher Sha256 Ripemd160 Hashes PubKey Primitives Opcodes Script ScriptFlags.
Local Open Scope Z_scope.
Local Open Scope adonai_scope.

(** ** Outcomes *)

Inductive outcome (A : Type) : Type :=
  | Ok (a : A)
  | Fail (e : option ScriptError)
  | Throw
  | Abort.
Arguments Ok {A} a.
Arguments Fail {A} e.
Arguments Throw {A}.
Arguments Abort {A}.

#[export] Instance outcome_ret : MRet outcome := @Ok.
#[export] Instance outcome_bind : MBind outcome := fun A B f m =>
  match m with Ok a => f a | Fail e => Fail e | Throw => Throw | Abort => Abort end.

(** [set_error(serror, e)] as the result *)
Definition set_error {A : Type} (e : ScriptError) : outcome A := Fail (Some e).
(** [assert] and the conversion of bytes to numbers, which throws *)
Definition assert_some {A : Type} (o : option A) : outcome A := match o with Some a => Ok a | None => Abort end.
Definition assert_true (b : bool) : outcome unit := if b then Ok tt else Abort.
Definition script_num (vch : list Z) (fRequireMinimal : bool) (nMaxNumSize : Z) : outcome Z :=
  match CScriptNum_of vch fRequireMinimal nMaxNumSize with Some n => Ok n | None => Throw end.

Notation valtype := (list Z).

(** ** Constants *)

Definition MAX_OPS_PER_SCRIPT : Z := 201.
Definition MAX_STACK_SIZE : Z := 1000.
Definition ANNEX_TAG : Z := 0x50.
Definition VALIDATION_WEIGHT_PER_SIGOP_PASSED : Z := 50.
Definition VALIDATION_WEIGHT_OFFSET : Z := 50.
Definition nDefaultMaxNumSize : Z := 4.

Definition vchFalse : valtype := [].
Definition vchTrue : valtype := [1].
Definition vch_of_bool (b : bool) : valtype := if b then vchTrue else vchFalse.

(** ** Keys and signatures *)

(** negative zero is false as well *)
Fixpoint CastToBool (vch : valtype) : bool :=
  match vch with
  | [] => false
  | b :: rest => if b =? 0 then CastToBool rest else negb ((b =? 0x80) && (zlen rest =? 0))
  end.

Definition IsCompressedOrUncompressedPubKey (vchPubKey : valtype) : bool :=
  if zlen vchPubKey <? COMPRESSED_SIZE then false
  else if vchPubKey.[0] =? 0x04 then zlen vchPubKey =? PUBKEY_SIZE
  else if (vchPubKey.[0] =? 0x02) || (vchPubKey.[0] =? 0x03) then zlen vchPubKey =? COMPRESSED_SIZE
  else false.

Definition IsCompressedPubKey (vchPubKey : valtype) : bool :=
  if negb (zlen vchPubKey =? COMPRESSED_SIZE) then false
  else if negb (vchPubKey.[0] =? 0x02) && negb (vchPubKey.[0] =? 0x03) then false
  else true.

Definition IsValidSignatureEncoding (sig : valtype) : bool :=
  let at_ (i : Z) := sig.[Z.to_nat i] in
  let size := zlen sig in
  if size <? 9 then false
  else if size >? 73 then false
  else if negb (at_ 0 =? 0x30) then false
  else if negb (at_ 1 =? size - 3) then false
  else
    let lenR := at_ 3 in
    if 5 + lenR >=? size then false
    else
      let lenS := at_ (5 + lenR) in
      if negb (lenR + lenS + 7 =? size) then false
      else if negb (at_ 2 =? 0x02) then false
      else if lenR =? 0 then false
      else if negb (Z.land (at_ 4) 0x80 =? 0) then false
      else if (lenR >? 1) && (at_ 4 =? 0x00) && (Z.land (at_ 5) 0x80 =? 0) then false
      else if negb (at_ (lenR + 4) =? 0x02) then false
      else if lenS =? 0 then false
      else if negb (Z.land (at_ (lenR + 6)) 0x80 =? 0) then false
      else if (lenS >? 1) && (at_ (lenR + 6) =? 0x00) && (Z.land (at_ (lenR + 7)) 0x80 =? 0) then false
      else true.

Section encodings.
Context `{Secp256k1}.

Definition IsLowDERSignature (vchSig : valtype) : outcome unit :=
  if negb (IsValidSignatureEncoding vchSig) then set_error SCRIPT_ERR_SIG_DER
  else if negb (CheckLowS (ztake (zlen vchSig - 1) vchSig)) then set_error SCRIPT_ERR_SIG_HIGH_S
  else Ok tt.

Definition IsDefinedHashtypeSignature (vchSig : valtype) : bool :=
  if zlen vchSig =? 0 then false
  else
    let nHashType := u8 (Z.land (back vchSig) (Z.lnot SIGHASH_ANYONECANPAY)) in
    negb ((nHashType <? SIGHASH_ALL) || (nHashType >? SIGHASH_SINGLE)).

Definition CheckSignatureEncoding (vchSig : valtype) (flags : Z) : outcome unit :=
  if zlen vchSig =? 0 then Ok tt
  else if has_flag flags (Z.lor (Z.lor SCRIPT_VERIFY_DERSIG SCRIPT_VERIFY_LOW_S) SCRIPT_VERIFY_STRICTENC) && negb (IsValidSignatureEncoding vchSig)
  then set_error SCRIPT_ERR_SIG_DER
  else
    _ ← (if has_flag flags SCRIPT_VERIFY_LOW_S then IsLowDERSignature vchSig else Ok tt);
    if has_flag flags SCRIPT_VERIFY_STRICTENC && negb (IsDefinedHashtypeSignature vchSig) then set_error SCRIPT_ERR_SIG_HASHTYPE
    else Ok tt.

Definition CheckPubKeyEncoding (vchPubKey : valtype) (flags : Z) (sigversion : SigVersion) : outcome unit :=
  if has_flag flags SCRIPT_VERIFY_STRICTENC && negb (IsCompressedOrUncompressedPubKey vchPubKey) then set_error SCRIPT_ERR_PUBKEYTYPE
  else if has_flag flags SCRIPT_VERIFY_WITNESS_PUBKEYTYPE && bool_decide (sigversion = WITNESS_V0) && negb (IsCompressedPubKey vchPubKey)
  then set_error SCRIPT_ERR_WITNESS_PUBKEYTYPE
  else Ok tt.

End encodings.

(** ** FindAndDelete *)

(** the inner [while]: skips copies of [b]; every copy takes at least one byte *)
Fixpoint skip_copies (fuel : nat) (b pc : CScript) (nFound : Z) : CScript * Z :=
  match fuel with
  | O => (pc, nFound)
  | S fuel =>
      if (zlen pc >=? zlen b) && bool_decide (ztake (zlen b) pc = b) then skip_copies fuel b (zdrop (zlen b) pc) (nFound + 1)
      else (pc, nFound)
  end.

(** the [do] loop: [pc2] is the start of what is not copied yet *)
Fixpoint delete_loop (fuel : nat) (b pc2 pc result : CScript) (nFound : Z) : CScript * CScript * Z :=
  match fuel with
  | O => (result, pc2, nFound)
  | S fuel =>
      let result := result ++ ztake (zlen pc2 - zlen pc) pc2 in
      let '(pc, nFound) := skip_copies (length pc) b pc nFound in
      match GetScriptOp pc with
      | Some (_, _, next) => delete_loop fuel b pc next result nFound
      | None => (result, pc, nFound)
      end
  end.

(** the script afterwards and the number of copies; [GetOp] advances, so the length of the script bounds the loop *)
Definition FindAndDelete (script b : CScript) : CScript * Z :=
  if zlen b =? 0 then (script, 0)
  else
    let '(result, pc2, nFound) := delete_loop (S (length script)) b script script [] 0 in
    if nFound >? 0 then (result ++ pc2, nFound) else (script, nFound).

(** ** ConditionStack *)

Definition NO_FALSE : Z := 2 ^ 32 - 1.
Record ConditionStack : Type := { m_stack_size : Z; m_first_false_pos : Z }.

Definition cond_new : ConditionStack := {| m_stack_size := 0; m_first_false_pos := NO_FALSE |}.
Definition cond_empty (c : ConditionStack) : bool := m_stack_size c =? 0.
Definition all_true (c : ConditionStack) : bool := m_first_false_pos c =? NO_FALSE.
Definition cond_push_back (c : ConditionStack) (f : bool) : ConditionStack := {|
  m_first_false_pos := if (m_first_false_pos c =? NO_FALSE) && negb f then m_stack_size c else m_first_false_pos c;
  m_stack_size := u32 (m_stack_size c + 1) |}.
Definition cond_pop_back (c : ConditionStack) : outcome ConditionStack :=
  _ ← assert_true (m_stack_size c >? 0);
  let size := u32 (m_stack_size c - 1) in
  Ok {| m_stack_size := size; m_first_false_pos := if m_first_false_pos c =? size then NO_FALSE else m_first_false_pos c |}.
Definition toggle_top (c : ConditionStack) : outcome ConditionStack :=
  _ ← assert_true (m_stack_size c >? 0);
  Ok {| m_stack_size := m_stack_size c;
        m_first_false_pos := if m_first_false_pos c =? NO_FALSE then u32 (m_stack_size c - 1)
                             else if m_first_false_pos c =? u32 (m_stack_size c - 1) then NO_FALSE
                             else m_first_false_pos c |}.

(** ** Signature checks *)

(** fields without their [_init] flag are never read *)
Record ScriptExecutionData : Type := {
  m_tapleaf_hash_init : bool;
  m_tapleaf_hash : uint256;
  m_codeseparator_pos_init : bool;
  m_codeseparator_pos : Z;
  m_annex_init : bool;
  m_annex_present : bool;
  m_annex_hash : uint256;
  m_validation_weight_left_init : bool;
  m_validation_weight_left : Z;
  m_output_hash : option uint256;
}.
Definition execdata_new : ScriptExecutionData := {|
  m_tapleaf_hash_init := false; m_tapleaf_hash := zrep 32 0; m_codeseparator_pos_init := false; m_codeseparator_pos := 0;
  m_annex_init := false; m_annex_present := false; m_annex_hash := zrep 32 0;
  m_validation_weight_left_init := false; m_validation_weight_left := 0; m_output_hash := None |}.

Definition set_codeseparator_pos (d : ScriptExecutionData) (pos : Z) : ScriptExecutionData := {|
  m_tapleaf_hash_init := m_tapleaf_hash_init d; m_tapleaf_hash := m_tapleaf_hash d;
  m_codeseparator_pos_init := true; m_codeseparator_pos := pos;
  m_annex_init := m_annex_init d; m_annex_present := m_annex_present d; m_annex_hash := m_annex_hash d;
  m_validation_weight_left_init := m_validation_weight_left_init d; m_validation_weight_left := m_validation_weight_left d;
  m_output_hash := m_output_hash d |}.
Definition set_validation_weight (d : ScriptExecutionData) (w : Z) : ScriptExecutionData := {|
  m_tapleaf_hash_init := m_tapleaf_hash_init d; m_tapleaf_hash := m_tapleaf_hash d;
  m_codeseparator_pos_init := m_codeseparator_pos_init d; m_codeseparator_pos := m_codeseparator_pos d;
  m_annex_init := m_annex_init d; m_annex_present := m_annex_present d; m_annex_hash := m_annex_hash d;
  m_validation_weight_left_init := true; m_validation_weight_left := w;
  m_output_hash := m_output_hash d |}.

(** a checker may fail an assertion; the Schnorr check sets the error itself and updates the execution data *)
Class BaseSignatureChecker := {
  CheckECDSASignature : valtype -> valtype -> CScript -> SigVersion -> outcome bool;
  CheckSchnorrSignature : valtype -> valtype -> SigVersion -> ScriptExecutionData -> outcome ScriptExecutionData;
  CheckLockTime : Z -> outcome bool;
  CheckSequence : Z -> outcome bool;
}.

(** the base class itself accepts nothing *)
Definition base_checker : BaseSignatureChecker := {|
  CheckECDSASignature _ _ _ _ := Ok false;
  CheckSchnorrSignature _ _ _ _ := Fail None;
  CheckLockTime _ := Ok false;
  CheckSequence _ := Ok false;
|}.

(** [sigversion == SigVersion::BASE || sigversion == SigVersion::WITNESS_V0] *)
Definition pre_tapscript (sigversion : SigVersion) : bool := bool_decide (sigversion = BASE) || bool_decide (sigversion = WITNESS_V0).

(** [stacktop(-i)], which throws out of range, and [popstack] *)
Definition stacktop (stack : list valtype) (i : Z) : outcome valtype :=
  if 0 <? i then match stack !! Z.to_nat (i - 1) with Some vch => Ok vch | None => Throw end else Throw.
Definition popstack (stack : list valtype) : outcome (list valtype) :=
  match stack with [] => Throw | _ :: rest => Ok rest end.

(** the assertions of [CScriptNum]'s operators *)
Definition num_add_assign (m_value rhs : Z) : outcome Z :=
  _ ← assert_true ((rhs =? 0) || ((rhs >? 0) && (m_value <=? (2 ^ 63 - 1) - rhs)) || ((rhs <? 0) && (m_value >=? - 2 ^ 63 - rhs)));
  Ok (m_value + rhs).
Definition num_sub_assign (m_value rhs : Z) : outcome Z :=
  _ ← assert_true ((rhs =? 0) || ((rhs >? 0) && (m_value >=? - 2 ^ 63 + rhs)) || ((rhs <? 0) && (m_value <=? (2 ^ 63 - 1) + rhs)));
  Ok (m_value - rhs).
Definition num_opp (m_value : Z) : outcome Z :=
  _ ← assert_true (negb (m_value =? - 2 ^ 63));
  Ok (- m_value).

Section checksig.
Context `{Secp256k1} `{BaseSignatureChecker}.

(** [FindAndDelete(scriptCode, CScript() << vchSig)] before segwit *)
Definition drop_signature (scriptCode : CScript) (vchSig : valtype) (flags : Z) (sigversion : SigVersion) : outcome CScript :=
  if bool_decide (sigversion = BASE) then
    let '(scriptCode, found) := FindAndDelete scriptCode (push_data [] vchSig) in
    if (found >? 0) && has_flag flags SCRIPT_VERIFY_CONST_SCRIPTCODE then set_error SCRIPT_ERR_SIG_FINDANDDELETE
    else Ok scriptCode
  else Ok scriptCode.

Definition EvalChecksigPreTapscript (vchSig vchPubKey : valtype) (codehash : CScript) (flags : Z) (sigversion : SigVersion) : outcome bool :=
  _ ← assert_true (pre_tapscript sigversion);
  scriptCode ← drop_signature codehash vchSig flags sigversion;
  _ ← CheckSignatureEncoding vchSig flags;
  _ ← CheckPubKeyEncoding vchPubKey flags sigversion;
  fSuccess ← CheckECDSASignature vchSig vchPubKey scriptCode sigversion;
  if negb fSuccess && has_flag flags SCRIPT_VERIFY_NULLFAIL && negb (zlen vchSig =? 0) then set_error SCRIPT_ERR_SIG_NULLFAIL
  else Ok fSuccess.

Definition EvalChecksigTapscript (sig pubkey : valtype) (execdata : ScriptExecutionData) (flags : Z) (sigversion : SigVersion)
  : outcome (bool * ScriptExecutionData) :=
  _ ← assert_true (bool_decide (sigversion = TAPSCRIPT));
  let success := negb (zlen sig =? 0) in
  execdata ←
    (if success then
       _ ← assert_true (m_validation_weight_left_init execdata);
       let execdata := set_validation_weight execdata (i64 (m_validation_weight_left execdata - VALIDATION_WEIGHT_PER_SIGOP_PASSED)) in
       if m_validation_weight_left execdata <? 0 then set_error SCRIPT_ERR_TAPSCRIPT_VALIDATION_WEIGHT else Ok execdata
     else Ok execdata);
  if zlen pubkey =? 0 then set_error SCRIPT_ERR_PUBKEYTYPE
  else if zlen pubkey =? 32 then
    execdata ← (if success then CheckSchnorrSignature sig pubkey sigversion execdata else Ok execdata);
    Ok (success, execdata)
  else if has_flag flags SCRIPT_VERIFY_DISCOURAGE_UPGRADABLE_PUBKEYTYPE then set_error SCRIPT_ERR_DISCOURAGE_UPGRADABLE_PUBKEYTYPE
  else Ok (success, execdata).

Definition EvalChecksig (sig pubkey : valtype) (codehash : CScript) (execdata : ScriptExecutionData) (flags : Z) (sigversion : SigVersion)
  : outcome (bool * ScriptExecutionData) :=
  match sigversion with
  | BASE | WITNESS_V0 =>
      success ← EvalChecksigPreTapscript sig pubkey codehash flags sigversion;
      Ok (success, execdata)
  | TAPSCRIPT => EvalChecksigTapscript sig pubkey execdata flags sigversion
  | TAPROOT => Abort
  end.

End checksig.

(** ** The opcodes *)

Section opcodes.
Context `{Cpu} `{Secp256k1} `{BaseSignatureChecker}.
Variables (flags : Z) (sigversion : SigVersion).

Definition fRequireMinimal : bool := has_flag flags SCRIPT_VERIFY_MINIMALDATA.
Definition invalid_stack {A : Type} : outcome A := set_error SCRIPT_ERR_INVALID_STACK_OPERATION.
Definition operand (vch : valtype) : outcome Z := script_num vch fRequireMinimal nDefaultMaxNumSize.

(** OP_1NEGATE, OP_1 to OP_16 *)
Definition op_push_number (opcode : opcodetype) (stack : list valtype) : outcome (list valtype) :=
  Ok (serialize (opcode - (OP_1 - 1)) :: stack).

Definition op_checklocktimeverify (stack : list valtype) : outcome (list valtype) :=
  if negb (has_flag flags SCRIPT_VERIFY_CHECKLOCKTIMEVERIFY) then Ok stack
  else match stack with
  | [] => invalid_stack
  | top :: _ =>
      nLockTime ← script_num top fRequireMinimal 5;
      if nLockTime <? 0 then set_error SCRIPT_ERR_NEGATIVE_LOCKTIME
      else
        satisfied ← CheckLockTime nLockTime;
        if negb satisfied then set_error SCRIPT_ERR_UNSATISFIED_LOCKTIME else Ok stack
  end.

Definition op_checksequenceverify (stack : list valtype) : outcome (list valtype) :=
  if negb (has_flag flags SCRIPT_VERIFY_CHECKSEQUENCEVERIFY) then Ok stack
  else match stack with
  | [] => invalid_stack
  | top :: _ =>
      nSequence ← script_num top fRequireMinimal 5;
      if nSequence <? 0 then set_error SCRIPT_ERR_NEGATIVE_LOCKTIME
      else if negb (Z.land nSequence SEQUENCE_LOCKTIME_DISABLE_FLAG =? 0) then Ok stack
      else
        satisfied ← CheckSequence nSequence;
        if negb satisfied then set_error SCRIPT_ERR_UNSATISFIED_LOCKTIME else Ok stack
  end.

(** OP_NOP1, OP_NOP4 to OP_NOP10 *)
Definition op_upgradable_nop (stack : list valtype) : outcome (list valtype) :=
  if has_flag flags SCRIPT_VERIFY_DISCOURAGE_UPGRADABLE_NOPS then set_error SCRIPT_ERR_DISCOURAGE_UPGRADABLE_NOPS else Ok stack.

(** OP_IF and OP_NOTIF *)
Definition op_if (opcode : opcodetype) (fExec : bool) (stack : list valtype) (vfExec : ConditionStack)
  : outcome (list valtype * ConditionStack) :=
  if fExec then
    match stack with
    | [] => set_error SCRIPT_ERR_UNBALANCED_CONDITIONAL
    | vch :: rest =>
        let unclean := (zlen vch >? 1) || ((zlen vch =? 1) && negb (vch.[0] =? 1)) in
        if bool_decide (sigversion = TAPSCRIPT) && unclean then set_error SCRIPT_ERR_TAPSCRIPT_MINIMALIF
        else if bool_decide (sigversion = WITNESS_V0) && has_flag flags SCRIPT_VERIFY_MINIMALIF && unclean then set_error SCRIPT_ERR_MINIMALIF
        else
          let fValue := CastToBool vch in
          let fValue := if opcode =? OP_NOTIF then negb fValue else fValue in
          Ok (rest, cond_push_back vfExec fValue)
    end
  else Ok (stack, cond_push_back vfExec false).

Definition op_else (vfExec : ConditionStack) : outcome ConditionStack :=
  if cond_empty vfExec then set_error SCRIPT_ERR_UNBALANCED_CONDITIONAL else toggle_top vfExec.
Definition op_endif (vfExec : ConditionStack) : outcome ConditionStack :=
  if cond_empty vfExec then set_error SCRIPT_ERR_UNBALANCED_CONDITIONAL else cond_pop_back vfExec.

Definition op_verify (stack : list valtype) : outcome (list valtype) :=
  match stack with
  | [] => invalid_stack
  | top :: rest => if CastToBool top then Ok rest else set_error SCRIPT_ERR_VERIFY
  end.

Definition op_toaltstack (stack altstack : list valtype) : outcome (list valtype * list valtype) :=
  match stack with [] => invalid_stack | top :: rest => Ok (rest, top :: altstack) end.
Definition op_fromaltstack (stack altstack : list valtype) : outcome (list valtype * list valtype) :=
  match altstack with [] => set_error SCRIPT_ERR_INVALID_ALTSTACK_OPERATION | top :: rest => Ok (top :: stack, rest) end.

(** the opcodes that only move elements of the stack; [x1] is the deepest of the arguments, as in the comments of the source *)
Definition op_2drop (stack : list valtype) : outcome (list valtype) :=
  match stack with x2 :: x1 :: s => Ok s | _ => invalid_stack end.
Definition op_2dup (stack : list valtype) : outcome (list valtype) :=
  match stack with x2 :: x1 :: s => Ok (x2 :: x1 :: x2 :: x1 :: s) | _ => invalid_stack end.
Definition op_3dup (stack : list valtype) : outcome (list valtype) :=
  match stack with x3 :: x2 :: x1 :: s => Ok (x3 :: x2 :: x1 :: x3 :: x2 :: x1 :: s) | _ => invalid_stack end.
Definition op_2over (stack : list valtype) : outcome (list valtype) :=
  match stack with x4 :: x3 :: x2 :: x1 :: s => Ok (x2 :: x1 :: x4 :: x3 :: x2 :: x1 :: s) | _ => invalid_stack end.
Definition op_2rot (stack : list valtype) : outcome (list valtype) :=
  match stack with x6 :: x5 :: x4 :: x3 :: x2 :: x1 :: s => Ok (x2 :: x1 :: x6 :: x5 :: x4 :: x3 :: s) | _ => invalid_stack end.
Definition op_2swap (stack : list valtype) : outcome (list valtype) :=
  match stack with x4 :: x3 :: x2 :: x1 :: s => Ok (x2 :: x1 :: x4 :: x3 :: s) | _ => invalid_stack end.
Definition op_ifdup (stack : list valtype) : outcome (list valtype) :=
  match stack with x :: s => Ok (if CastToBool x then x :: x :: s else x :: s) | _ => invalid_stack end.
Definition op_depth (stack : list valtype) : outcome (list valtype) := Ok (serialize (zlen stack) :: stack).
Definition op_drop (stack : list valtype) : outcome (list valtype) :=
  match stack with x :: s => Ok s | _ => invalid_stack end.
Definition op_dup (stack : list valtype) : outcome (list valtype) :=
  match stack with x :: s => Ok (x :: x :: s) | _ => invalid_stack end.
Definition op_nip (stack : list valtype) : outcome (list valtype) :=
  match stack with x2 :: x1 :: s => Ok (x2 :: s) | _ => invalid_stack end.
Definition op_over (stack : list valtype) : outcome (list valtype) :=
  match stack with x2 :: x1 :: s => Ok (x1 :: x2 :: x1 :: s) | _ => invalid_stack end.
Definition op_rot (stack : list valtype) : outcome (list valtype) :=
  match stack with x3 :: x2 :: x1 :: s => Ok (x1 :: x3 :: x2 :: s) | _ => invalid_stack end.
Definition op_swap (stack : list valtype) : outcome (list valtype) :=
  match stack with x2 :: x1 :: s => Ok (x1 :: x2 :: s) | _ => invalid_stack end.
Definition op_tuck (stack : list valtype) : outcome (list valtype) :=
  match stack with x2 :: x1 :: s => Ok (x2 :: x1 :: x2 :: s) | _ => invalid_stack end.
Definition op_size (stack : list valtype) : outcome (list valtype) :=
  match stack with x :: s => Ok (serialize (zlen x) :: x :: s) | _ => invalid_stack end.

(** OP_PICK and OP_ROLL *)
Definition op_pick_roll (opcode : opcodetype) (stack : list valtype) : outcome (list valtype) :=
  match stack with
  | top :: ((_ :: _) as rest) =>
      n ← operand top;
      let n := getint n in
      if (n <? 0) || (n >=? i32 (zlen rest)) then invalid_stack
      else
        vch ← stacktop rest (n + 1);
        Ok (vch :: (if opcode =? OP_ROLL then delete (Z.to_nat n) rest else rest))
  | _ => invalid_stack
  end.

(** OP_EQUAL and OP_EQUALVERIFY *)
Definition op_equal (opcode : opcodetype) (stack : list valtype) : outcome (list valtype) :=
  match stack with
  | vch2 :: vch1 :: s =>
      let fEqual := bool_decide (vch1 = vch2) in
      if opcode =? OP_EQUALVERIFY then if fEqual then Ok s else set_error SCRIPT_ERR_EQUALVERIFY
      else Ok (vch_of_bool fEqual :: s)
  | _ => invalid_stack
  end.

(** OP_1ADD, OP_1SUB, OP_NEGATE, OP_ABS, OP_NOT, OP_0NOTEQUAL *)
Definition unary_value (opcode : opcodetype) (bn : Z) : outcome Z :=
  if opcode =? OP_1ADD then num_add_assign bn 1
  else if opcode =? OP_1SUB then num_sub_assign bn 1
  else if opcode =? OP_NEGATE then num_opp bn
  else if opcode =? OP_ABS then if bn <? 0 then num_opp bn else Ok bn
  else if opcode =? OP_NOT then Ok (Z.b2z (bn =? 0))
  else if opcode =? OP_0NOTEQUAL then Ok (Z.b2z (negb (bn =? 0)))
  else Abort.
Definition op_unary (opcode : opcodetype) (stack : list valtype) : outcome (list valtype) :=
  match stack with
  | top :: s => bn ← operand top; bn ← unary_value opcode bn; Ok (serialize bn :: s)
  | _ => invalid_stack
  end.

(** OP_ADD to OP_MAX *)
Definition binary_value (opcode : opcodetype) (bn1 bn2 : Z) : outcome Z :=
  if opcode =? OP_ADD then Ok (i64 (bn1 + bn2))
  else if opcode =? OP_SUB then Ok (i64 (bn1 - bn2))
  else if opcode =? OP_BOOLAND then Ok (Z.b2z (negb (bn1 =? 0) && negb (bn2 =? 0)))
  else if opcode =? OP_BOOLOR then Ok (Z.b2z (negb (bn1 =? 0) || negb (bn2 =? 0)))
  else if opcode =? OP_NUMEQUAL then Ok (Z.b2z (bn1 =? bn2))
  else if opcode =? OP_NUMEQUALVERIFY then Ok (Z.b2z (bn1 =? bn2))
  else if opcode =? OP_NUMNOTEQUAL then Ok (Z.b2z (negb (bn1 =? bn2)))
  else if opcode =? OP_LESSTHAN then Ok (Z.b2z (bn1 <? bn2))
  else if opcode =? OP_GREATERTHAN then Ok (Z.b2z (bn1 >? bn2))
  else if opcode =? OP_LESSTHANOREQUAL then Ok (Z.b2z (bn1 <=? bn2))
  else if opcode =? OP_GREATERTHANOREQUAL then Ok (Z.b2z (bn1 >=? bn2))
  else if opcode =? OP_MIN then Ok (if bn1 <? bn2 then bn1 else bn2)
  else if opcode =? OP_MAX then Ok (if bn1 >? bn2 then bn1 else bn2)
  else Abort.
Definition op_binary (opcode : opcodetype) (stack : list valtype) : outcome (list valtype) :=
  match stack with
  | top :: next :: s =>
      bn1 ← operand next;
      bn2 ← operand top;
      bn ← binary_value opcode bn1 bn2;
      if opcode =? OP_NUMEQUALVERIFY then
        if CastToBool (serialize bn) then Ok s else set_error SCRIPT_ERR_NUMEQUALVERIFY
      else Ok (serialize bn :: s)
  | _ => invalid_stack
  end.

Definition op_within (stack : list valtype) : outcome (list valtype) :=
  match stack with
  | top :: next :: third :: s =>
      bn1 ← operand third;
      bn2 ← operand next;
      bn3 ← operand top;
      Ok (vch_of_bool ((bn2 <=? bn1) && (bn1 <? bn3)) :: s)
  | _ => invalid_stack
  end.

(** OP_RIPEMD160, OP_SHA1, OP_SHA256, OP_HASH160, OP_HASH256; [vchHash] starts as zeros *)
Definition hash_value (opcode : opcodetype) (vch : valtype) : valtype :=
  if opcode =? OP_RIPEMD160 then ripemd160 vch
  else if opcode =? OP_SHA1 then sha1 vch
  else if opcode =? OP_SHA256 then CSHA256_Finalize (CSHA256_Write CSHA256_init vch)
  else if opcode =? OP_HASH160 then CHash160_Finalize (CHash160_Write CSHA256_init vch)
  else if opcode =? OP_HASH256 then (CHash256_Finalize (CHash256_Write [] vch)).1
  else zrep 32 0.
Definition op_hash (opcode : opcodetype) (stack : list valtype) : outcome (list valtype) :=
  match stack with vch :: s => Ok (hash_value opcode vch :: s) | _ => invalid_stack end.

(** OP_CHECKSIG and OP_CHECKSIGVERIFY *)
Definition op_checksig (opcode : opcodetype) (codehash : CScript) (stack : list valtype) (execdata : ScriptExecutionData)
  : outcome (list valtype * ScriptExecutionData) :=
  match stack with
  | vchPubKey :: vchSig :: s =>
      '(fSuccess, execdata) ← EvalChecksig vchSig vchPubKey codehash execdata flags sigversion;
      if opcode =? OP_CHECKSIGVERIFY then
        if (fSuccess : bool) then Ok (s, execdata) else set_error SCRIPT_ERR_CHECKSIGVERIFY
      else Ok (vch_of_bool fSuccess :: s, execdata)
  | _ => invalid_stack
  end.

Definition op_checksigadd (codehash : CScript) (stack : list valtype) (execdata : ScriptExecutionData)
  : outcome (list valtype * ScriptExecutionData) :=
  if pre_tapscript sigversion then set_error SCRIPT_ERR_BAD_OPCODE
  else match stack with
  | pubkey :: top2 :: sig :: s =>
      num ← operand top2;
      '(success, execdata) ← EvalChecksig sig pubkey codehash execdata flags sigversion;
      Ok (serialize (i64 (num + (if (success : bool) then 1 else 0))) :: s, execdata)
  | _ => invalid_stack
  end.

(** [for (int k = 0; k < nSigsCount; k++)] *)
Fixpoint multisig_delete (n : nat) (k isig : Z) (stack : list valtype) (scriptCode : CScript) : outcome CScript :=
  match n with
  | O => Ok scriptCode
  | S n =>
      vchSig ← stacktop stack (isig + k);
      scriptCode ← drop_signature scriptCode vchSig flags sigversion;
      multisig_delete n (k + 1) isig stack scriptCode
  end.

(** [while (fSuccess && nSigsCount > 0)]; every round takes a key, and running out of fuel is [Abort] *)
Fixpoint multisig_check (fuel : nat) (fSuccess : bool) (isig ikey nSigsCount nKeysCount : Z) (stack : list valtype) (scriptCode : CScript)
  : outcome bool :=
  if fSuccess && (nSigsCount >? 0) then
    match fuel with
    | O => Abort
    | S fuel =>
        vchSig ← stacktop stack isig;
        vchPubKey ← stacktop stack ikey;
        _ ← CheckSignatureEncoding vchSig flags;
        _ ← CheckPubKeyEncoding vchPubKey flags sigversion;
        fOk ← CheckECDSASignature vchSig vchPubKey scriptCode sigversion;
        let isig := if (fOk : bool) then isig + 1 else isig in
        let nSigsCount := if (fOk : bool) then nSigsCount - 1 else nSigsCount in
        let ikey := ikey + 1 in
        let nKeysCount := nKeysCount - 1 in
        multisig_check fuel (if nSigsCount >? nKeysCount then false else fSuccess) isig ikey nSigsCount nKeysCount stack scriptCode
    end
  else Ok fSuccess.

(** [while (i-- > 1)]: [n] is [i - 1] *)
Fixpoint multisig_cleanup (n : nat) (fSuccess : bool) (ikey2 : Z) (stack : list valtype) : outcome (list valtype) :=
  match n with
  | O => Ok stack
  | S n =>
      nullfail ← (if negb fSuccess && has_flag flags SCRIPT_VERIFY_NULLFAIL && (ikey2 =? 0)
                  then top ← stacktop stack 1; Ok (negb (zlen top =? 0)) else Ok false);
      if (nullfail : bool) then set_error SCRIPT_ERR_SIG_NULLFAIL
      else
        rest ← popstack stack;
        multisig_cleanup n fSuccess (if ikey2 >? 0 then ikey2 - 1 else ikey2) rest
  end.

(** the end of the operation: the extra argument and the result *)
Definition multisig_finish (opcode : opcodetype) (fSuccess : bool) (stack : list valtype) : outcome (list valtype) :=
  match stack with
  | [] => invalid_stack
  | dummy :: s =>
      if has_flag flags SCRIPT_VERIFY_NULLDUMMY && negb (zlen dummy =? 0) then set_error SCRIPT_ERR_SIG_NULLDUMMY
      else if opcode =? OP_CHECKMULTISIGVERIFY then
        if fSuccess then Ok s else set_error SCRIPT_ERR_CHECKMULTISIGVERIFY
      else Ok (vch_of_bool fSuccess :: s)
  end.

(** OP_CHECKMULTISIG and OP_CHECKMULTISIGVERIFY, with the operations counted *)
Definition op_checkmultisig (opcode : opcodetype) (codehash : CScript) (stack : list valtype) (nOpCount : Z)
  : outcome (list valtype * Z) :=
  if bool_decide (sigversion = TAPSCRIPT) then set_error SCRIPT_ERR_TAPSCRIPT_CHECKMULTISIG
  else
    let i := 1 in
    if i32 (zlen stack) <? i then invalid_stack
    else
      top ← stacktop stack i;
      nKeysCount ← operand top;
      let nKeysCount := getint nKeysCount in
      if (nKeysCount <? 0) || (nKeysCount >? MAX_PUBKEYS_PER_MULTISIG) then set_error SCRIPT_ERR_PUBKEY_COUNT
      else
        let nOpCount := nOpCount + nKeysCount in
        if nOpCount >? MAX_OPS_PER_SCRIPT then set_error SCRIPT_ERR_OP_COUNT
        else
          let i := i + 1 in
          let ikey := i in
          let ikey2 := nKeysCount + 2 in
          let i := i + nKeysCount in
          if i32 (zlen stack) <? i then invalid_stack
          else
            top ← stacktop stack i;
            nSigsCount ← operand top;
            let nSigsCount := getint nSigsCount in
            if (nSigsCount <? 0) || (nSigsCount >? nKeysCount) then set_error SCRIPT_ERR_SIG_COUNT
            else
              let i := i + 1 in
              let isig := i in
              let i := i + nSigsCount in
              if i32 (zlen stack) <? i then invalid_stack
              else
                scriptCode ← multisig_delete (Z.to_nat nSigsCount) 0 isig stack codehash;
                fSuccess ← multisig_check (Z.to_nat nKeysCount) true isig ikey nSigsCount nKeysCount stack scriptCode;
                rest ← multisig_cleanup (Z.to_nat (i - 1)) fSuccess ikey2 stack;
                rest ← multisig_finish opcode fSuccess rest;
                Ok (rest, nOpCount).

End opcodes.

(** ** EvalScript *)

(** [es_pc] and [es_codehash] are the script from [pc] and from [pbegincodehash] on *)
Record EvalState : Type := {
  es_pc : CScript;
  es_codehash : CScript;
  es_opcode_pos : Z;
  es_nOpCount : Z;
  es_stack : list valtype;
  es_altstack : list valtype;
  es_vfExec : ConditionStack;
  es_execdata : ScriptExecutionData;
}.

Definition with_stacks (st : EvalState) (stacks : list valtype * list valtype) : EvalState := {|
  es_pc := es_pc st; es_codehash := es_codehash st; es_opcode_pos := es_opcode_pos st; es_nOpCount := es_nOpCount st;
  es_stack := stacks.1; es_altstack := stacks.2; es_vfExec := es_vfExec st; es_execdata := es_execdata st |}.
Definition with_stack (st : EvalState) (stack : list valtype) : EvalState := with_stacks st (stack, es_altstack st).
Definition with_conditions (st : EvalState) (c : ConditionStack) : EvalState := {|
  es_pc := es_pc st; es_codehash := es_codehash st; es_opcode_pos := es_opcode_pos st; es_nOpCount := es_nOpCount st;
  es_stack := es_stack st; es_altstack := es_altstack st; es_vfExec := c; es_execdata := es_execdata st |}.
Definition with_execdata (st : EvalState) (d : ScriptExecutionData) : EvalState := {|
  es_pc := es_pc st; es_codehash := es_codehash st; es_opcode_pos := es_opcode_pos st; es_nOpCount := es_nOpCount st;
  es_stack := es_stack st; es_altstack := es_altstack st; es_vfExec := es_vfExec st; es_execdata := d |}.
Definition with_count (st : EvalState) (n : Z) : EvalState := {|
  es_pc := es_pc st; es_codehash := es_codehash st; es_opcode_pos := es_opcode_pos st; es_nOpCount := n;
  es_stack := es_stack st; es_altstack := es_altstack st; es_vfExec := es_vfExec st; es_execdata := es_execdata st |}.
Definition with_codehash (st : EvalState) (s : CScript) : EvalState := {|
  es_pc := es_pc st; es_codehash := s; es_opcode_pos := es_opcode_pos st; es_nOpCount := es_nOpCount st;
  es_stack := es_stack st; es_altstack := es_altstack st; es_vfExec := es_vfExec st; es_execdata := es_execdata st |}.
Definition with_pc (st : EvalState) (s : CScript) : EvalState := {|
  es_pc := s; es_codehash := es_codehash st; es_opcode_pos := es_opcode_pos st; es_nOpCount := es_nOpCount st;
  es_stack := es_stack st; es_altstack := es_altstack st; es_vfExec := es_vfExec st; es_execdata := es_execdata st |}.
Definition next_pos (st : EvalState) : EvalState := {|
  es_pc := es_pc st; es_codehash := es_codehash st; es_opcode_pos := u32 (es_opcode_pos st + 1); es_nOpCount := es_nOpCount st;
  es_stack := es_stack st; es_altstack := es_altstack st; es_vfExec := es_vfExec st; es_execdata := es_execdata st |}.

Definition disabled_opcodes : list Z := [
  OP_CAT; OP_SUBSTR; OP_LEFT; OP_RIGHT; OP_INVERT; OP_AND; OP_OR; OP_XOR; OP_2MUL; OP_2DIV; OP_MUL; OP_DIV; OP_MOD; OP_LSHIFT; OP_RSHIFT].

Section eval.
Context `{Cpu} `{Secp256k1} `{BaseSignatureChecker}.
Variables (flags : Z) (sigversion : SigVersion).

Definition between (a b opcode : Z) : bool := (a <=? opcode) && (opcode <=? b).

(** the cases that read and write nothing but the stack *)
Definition stack_op (opcode : opcodetype) : option (list valtype -> outcome (list valtype)) :=
  if (opcode =? OP_1NEGATE) || between OP_1 OP_16 opcode then Some (op_push_number opcode)
  else if opcode =? OP_NOP then Some Ok
  else if opcode =? OP_CHECKLOCKTIMEVERIFY then Some (op_checklocktimeverify flags)
  else if opcode =? OP_CHECKSEQUENCEVERIFY then Some (op_checksequenceverify flags)
  else if (opcode =? OP_NOP1) || between OP_NOP4 OP_NOP10 opcode then Some (op_upgradable_nop flags)
  else if opcode =? OP_VERIFY then Some op_verify
  else if opcode =? OP_RETURN then Some (fun _ => set_error SCRIPT_ERR_OP_RETURN)
  else if opcode =? OP_2DROP then Some op_2drop
  else if opcode =? OP_2DUP then Some op_2dup
  else if opcode =? OP_3DUP then Some op_3dup
  else if opcode =? OP_2OVER then Some op_2over
  else if opcode =? OP_2ROT then Some op_2rot
  else if opcode =? OP_2SWAP then Some op_2swap
  else if opcode =? OP_IFDUP then Some op_ifdup
  else if opcode =? OP_DEPTH then Some op_depth
  else if opcode =? OP_DROP then Some op_drop
  else if opcode =? OP_DUP then Some op_dup
  else if opcode =? OP_NIP then Some op_nip
  else if opcode =? OP_OVER then Some op_over
  else if (opcode =? OP_PICK) || (opcode =? OP_ROLL) then Some (op_pick_roll flags opcode)
  else if opcode =? OP_ROT then Some op_rot
  else if opcode =? OP_SWAP then Some op_swap
  else if opcode =? OP_TUCK then Some op_tuck
  else if opcode =? OP_SIZE then Some op_size
  else if (opcode =? OP_EQUAL) || (opcode =? OP_EQUALVERIFY) then Some (op_equal opcode)
  else if (opcode =? OP_1ADD) || (opcode =? OP_1SUB) || between OP_NEGATE OP_0NOTEQUAL opcode then Some (op_unary flags opcode)
  else if (opcode =? OP_ADD) || (opcode =? OP_SUB) || between OP_BOOLAND OP_MAX opcode then Some (op_binary flags opcode)
  else if opcode =? OP_WITHIN then Some (op_within flags)
  else if between OP_RIPEMD160 OP_HASH256 opcode then Some (op_hash opcode)
  else None.

(** the [switch] *)
Definition eval_opcode (opcode : opcodetype) (fExec : bool) (st : EvalState) : outcome EvalState :=
  match stack_op opcode with
  | Some f => s ← f (es_stack st); Ok (with_stack st s)
  | None =>
      if (opcode =? OP_IF) || (opcode =? OP_NOTIF) then
        '(s, c) ← op_if flags sigversion opcode fExec (es_stack st) (es_vfExec st);
        Ok (with_conditions (with_stack st s) c)
      else if opcode =? OP_ELSE then c ← op_else (es_vfExec st); Ok (with_conditions st c)
      else if opcode =? OP_ENDIF then c ← op_endif (es_vfExec st); Ok (with_conditions st c)
      else if opcode =? OP_TOALTSTACK then ss ← op_toaltstack (es_stack st) (es_altstack st); Ok (with_stacks st ss)
      else if opcode =? OP_FROMALTSTACK then ss ← op_fromaltstack (es_stack st) (es_altstack st); Ok (with_stacks st ss)
      else if opcode =? OP_CODESEPARATOR then
        Ok (with_execdata (with_codehash st (es_pc st)) (set_codeseparator_pos (es_execdata st) (es_opcode_pos st)))
      else if (opcode =? OP_CHECKSIG) || (opcode =? OP_CHECKSIGVERIFY) then
        '(s, d) ← op_checksig flags sigversion opcode (es_codehash st) (es_stack st) (es_execdata st);
        Ok (with_execdata (with_stack st s) d)
      else if opcode =? OP_CHECKSIGADD then
        '(s, d) ← op_checksigadd flags sigversion (es_codehash st) (es_stack st) (es_execdata st);
        Ok (with_execdata (with_stack st s) d)
      else if (opcode =? OP_CHECKMULTISIG) || (opcode =? OP_CHECKMULTISIGVERIFY) then
        '(s, n) ← op_checkmultisig flags sigversion opcode (es_codehash st) (es_stack st) (es_nOpCount st);
        Ok (with_count (with_stack st s) n)
      else set_error SCRIPT_ERR_BAD_OPCODE
  end.

(** [opcode > OP_16 && ++nOpCount > MAX_OPS_PER_SCRIPT] *)
Definition count_opcode (opcode : opcodetype) (nOpCount : Z) : outcome Z :=
  if pre_tapscript sigversion && (opcode >? OP_16) then
    if nOpCount + 1 >? MAX_OPS_PER_SCRIPT then set_error SCRIPT_ERR_OP_COUNT else Ok (nOpCount + 1)
  else Ok nOpCount.

(** the body of the [for] loop *)
Definition eval_step (st : EvalState) : outcome EvalState :=
  let fExec := all_true (es_vfExec st) in
  match GetScriptOp (es_pc st) with
  | None => set_error SCRIPT_ERR_BAD_OPCODE
  | Some (opcode, vchPushValue, pc) =>
      if zlen vchPushValue >? MAX_SCRIPT_ELEMENT_SIZE then set_error SCRIPT_ERR_PUSH_SIZE
      else
        nOpCount ← count_opcode opcode (es_nOpCount st);
        let st := with_count (with_pc st pc) nOpCount in
        if bool_decide (opcode ∈ disabled_opcodes) then set_error SCRIPT_ERR_DISABLED_OPCODE
        else if (opcode =? OP_CODESEPARATOR) && bool_decide (sigversion = BASE) && has_flag flags SCRIPT_VERIFY_CONST_SCRIPTCODE
        then set_error SCRIPT_ERR_OP_CODESEPARATOR
        else
          st ← (if fExec && between 0 OP_PUSHDATA4 opcode then
                  if fRequireMinimal flags && negb (CheckMinimalPush vchPushValue opcode) then set_error SCRIPT_ERR_MINIMALDATA
                  else Ok (with_stack st (vchPushValue :: es_stack st))
                else if fExec || between OP_IF OP_ENDIF opcode then eval_opcode opcode fExec st
                else Ok st);
          if zlen (es_stack st) + zlen (es_altstack st) >? MAX_STACK_SIZE then set_error SCRIPT_ERR_STACK_SIZE
          else Ok (next_pos st)
  end.

(** [for (; pc < pend; ++opcode_pos)]; every operation takes at least a byte, and running out of fuel is [Abort] *)
Fixpoint eval_loop (fuel : nat) (st : EvalState) : outcome EvalState :=
  match es_pc st with
  | [] => Ok st
  | _ =>
      match fuel with
      | O => Abort
      | S fuel => st ← eval_step st; eval_loop fuel st
      end
  end.

Definition eval_init (stack : list valtype) (script : CScript) (execdata : ScriptExecutionData) : EvalState := {|
  es_pc := script; es_codehash := script; es_opcode_pos := 0; es_nOpCount := 0; es_stack := stack; es_altstack := [];
  es_vfExec := cond_new; es_execdata := set_codeseparator_pos execdata 0xFFFFFFFF |}.

(** [catch (...)]; the error that is set at the start stays when [false] comes without one *)
Definition caught {A : Type} (m : outcome A) : outcome A :=
  match m with Throw | Fail None => set_error SCRIPT_ERR_UNKNOWN_ERROR | _ => m end.

(** the stack and the execution data of a script that succeeds *)
Definition EvalScript (stack : list valtype) (script : CScript) (execdata : ScriptExecutionData)
  : outcome (list valtype * ScriptExecutionData) :=
  _ ← assert_true (pre_tapscript sigversion || bool_decide (sigversion = TAPSCRIPT));
  if pre_tapscript sigversion && (zlen script >? MAX_SCRIPT_SIZE) then set_error SCRIPT_ERR_SCRIPT_SIZE
  else
    st ← caught (eval_loop (length script) (eval_init stack script execdata));
    if negb (cond_empty (es_vfExec st)) then set_error SCRIPT_ERR_UNBALANCED_CONDITIONAL
    else Ok (es_stack st, es_execdata st).

(** the overload without execution data *)
Definition EvalScript_plain (stack : list valtype) (script : CScript) : outcome (list valtype) :=
  '(stack, _) ← EvalScript stack script execdata_new;
  Ok stack.

End eval.
