(* ===== verification/InterpreterProofs.v ===== *)
(** * What the script interpreter guarantees

    The interpreter of Interpreter.v on every script: the machine keeps its types
    and limits, no assertion fails and no script runs for ever, rules that are
    switched on can only reject more scripts, the condition stack is a stack of
    booleans, and multiple signatures are matched to keys in order. *)

From Stdlib Require Import ZArith Lia Bool.
From stdpp Require Import base option list decidable.
From S2P Require Import Prelude Uint256 Blake3Hasher Sha256 Sha256Proofs MerkleDamgard Ripemd160 Hashes Serialize PubKey Primitives Opcodes Script ScriptFlags Interpreter.
Local Open Scope Z_scope.
Local Open Scope adonai_scope.

(** ** Outcomes *)

(** inside [try]: the operation may fail or throw, but no assertion fails *)
Definition safe {A : Type} (P : A -> Prop) (m : outcome A) : Prop :=
  match m with Ok a => P a | Fail _ => True | Throw => True | Abort => False end.
(** outside it: the result, or an error that was set *)
Definition returns {A : Type} (P : A -> Prop) (m : outcome A) : Prop :=
  match m with Ok a => P a | Fail (Some _) => True | Fail None => False | Throw => False | Abort => False end.
(** [m'] accepts what [m] accepts, with the same result *)
Definition softer {A : Type} (m m' : outcome A) : Prop := forall a, m = Ok a -> m' = Ok a.

Lemma safe_bind {A B : Type} (P : A -> Prop) (Q : B -> Prop) (m : outcome A) (f : A -> outcome B) :
  safe P m -> (forall a, P a -> safe Q (f a)) -> safe Q (m ≫= f).
Proof. intros Hm Hf. destruct m as [a|e| |]; cbn in *; auto. Qed.

Lemma safe_mono {A : Type} (P Q : A -> Prop) (m : outcome A) : (forall a, P a -> Q a) -> safe P m -> safe Q m.
Proof. destruct m as [a|e| |]; cbn; auto. Qed.

Lemma returns_bind {A B : Type} (P : A -> Prop) (Q : B -> Prop) (m : outcome A) (f : A -> outcome B) :
  returns P m -> (forall a, P a -> returns Q (f a)) -> returns Q (m ≫= f).
Proof. intros Hm Hf. destruct m as [a|[e|]| |]; cbn in *; auto. Qed.

Lemma returns_caught {A : Type} (P : A -> Prop) (m : outcome A) : safe P m -> returns P (caught m).
Proof. destruct m as [a|[e|]| |]; cbn; auto. Qed.

Lemma softer_refl {A : Type} (m : outcome A) : softer m m.
Proof. intros a Ha. exact Ha. Qed.

Lemma softer_bind {A B : Type} (m m' : outcome A) (f f' : A -> outcome B) :
  softer m m' -> (forall a, m = Ok a -> softer (f a) (f' a)) -> softer (m ≫= f) (m' ≫= f').
Proof. intros Hm Hf b Hb. destruct m as [a|e| |]; try discriminate. rewrite (Hm a eq_refl). apply (Hf a eq_refl), Hb. Qed.

(** a test that only rejects may be dropped *)
Lemma softer_guard {A : Type} (b b' : bool) (e : ScriptError) (m m' : outcome A) : (b' = true -> b = true) -> softer m m' ->
  softer (if b then set_error e else m) (if b' then set_error e else m').
Proof. intros Hb Hm a. destruct b; [discriminate|]. destruct b'; [discriminate (Hb eq_refl)|]. apply Hm. Qed.

Create HintDb outcome discriminated.
#[export] Hint Constants Opaque : outcome.
#[export] Hint Extern 0 (softer ?m ?n) => constr_eq m n; apply softer_refl : outcome.

(** ** Elements of the stack *)

(** a byte string a push may give *)
Definition elem_ok (v : valtype) : Prop := limbs_ok 8 v /\ zlen v <= MAX_SCRIPT_ELEMENT_SIZE.
Notation stack_ok := (Forall elem_ok).

Lemma serialize_ok v : - 2 ^ 63 < v < 2 ^ 63 -> elem_ok (serialize v).
Proof.
  intros Hv. unfold elem_ok, MAX_SCRIPT_ELEMENT_SIZE. destruct (Z.eq_dec v 0) as [->|H0]; [split; [constructor|done]|].
  destruct (abs_bytes_ok 8 (Z.abs v) ltac:(change (2 ^ (8 * Z.of_nat 8)) with (2 ^ 64); lia)) as (_ & _ & _ & Hl).
  destruct (serialize_abs v H0 Hv) as (low & h & Ha & Hok & _ & _ & ->). rewrite Ha, length_app in Hl. cbn in Hl.
  apply Forall_app in Hok as [Hlow Hh]. pose proof Hh as Hh'. apply Forall_cons_1 in Hh' as [Hb _]. unfold fits in Hb.
  destruct (Z.ltb_spec h 128); rewrite !length_app; cbn [length]; (split; [|lia]); apply Forall_app; (split; [exact Hlow|]).
  - destruct (v <? 0); repeat constructor; lia.
  - apply Forall_app. split; [exact Hh|]. destruct (v <? 0); repeat constructor; lia.
Qed.

Lemma set_vch_bound vch k : limbs_ok 8 vch -> zlen vch <= k -> 1 <= k <= 8 -> Z.abs (set_vch vch) < 2 ^ (8 * k - 1).
Proof.
  intros Hok Hl Hk. destruct vch as [|hi low _] using rev_ind; [cbn; apply pow2_pos; lia|].
  rewrite zlen_app in Hl. cbn [length] in Hl. rewrite set_vch_spec by (exact Hok || lia).
  apply Forall_app in Hok as [Hlow Hhi]. apply Forall_cons_1 in Hhi as [Hhi _]. unfold fits in Hhi.
  pose proof (digits_bound 8 low ltac:(lia) Hlow) as Hd. unfold sm_value. set (P := 2 ^ (8 * zlen low)) in *.
  assert (HP : P * 128 <= 2 ^ (8 * k - 1)).
  { unfold P. change 128 with (2 ^ 7). rewrite <- Z.pow_add_r by lia. apply Z.pow_le_mono_r; lia. }
  assert (Hh : 0 <= hi mod 128 < 128) by (Z.div_mod_to_equations; lia). destruct (hi <? 128); nia.
Qed.

Lemma script_num_ok vch min k : limbs_ok 8 vch -> 1 <= k <= 8 -> safe (fun n => Z.abs n < 2 ^ (8 * k - 1)) (script_num vch min k).
Proof.
  intros Hok Hk. unfold script_num, CScriptNum_of. destruct (Z.gtb_spec (zlen vch) k); [done|].
  destruct (min && _ && _ && _); [done|]. apply set_vch_bound; (assumption || lia).
Qed.

Lemma operand_ok flags vch : elem_ok vch -> safe (fun n => Z.abs n < 2 ^ 31) (operand flags vch).
Proof. intros [Hok _]. apply (script_num_ok vch _ 4); [exact Hok|lia]. Qed.

Lemma vch_of_bool_ok b : elem_ok (vch_of_bool b).
Proof. destruct b; vm_compute; (split; [repeat constructor; discriminate|discriminate]). Qed.

Lemma blob_elem n v : blob_ok n v -> (n <= 520)%nat -> elem_ok v.
Proof. intros [Hl Hok] Hn. split; [exact Hok|]. unfold MAX_SCRIPT_ELEMENT_SIZE. lia. Qed.

Lemma md_hash_bytes (h : MDHash) msg : h = CRIPEMD160 \/ h = CSHA1 -> blob_ok 20 (md_hash msg).
Proof.
  intros Hh. split; [apply digest_len, Hh|]. unfold md_hash. destruct Hh as [-> | ->]; cbn [md_store CRIPEMD160 CSHA1];
    match goal with |- context [flat_map _ ?l] => generalize l as ws end; intros ws;
    (induction ws as [|w ws IH]; [constructor|]; cbn [flat_map]; apply Forall_app; split; [|exact IH]).
  - apply (WriteLE_ok 4).
  - apply (WriteBE_ok 4).
Qed.

Lemma sha256_one_shot msg : zlen msg + 72 < 2 ^ 61 -> CSHA256_Finalize (CSHA256_Write CSHA256_init msg) = sha256 msg.
Proof. intros Hl. apply CSHA256_Finalize_spec; [|exact Hl]. apply (CSHA256_Write_spec [] _ msg sha_inv_init). cbn. lia. Qed.

Lemma Hash160_spec msg : zlen msg + 72 < 2 ^ 61 -> CHash160_Finalize (CHash160_Write CSHA256_init msg) = @md_hash CRIPEMD160 (sha256 msg).
Proof.
  intros Hl. unfold CHash160_Finalize, CHash160_Write. rewrite sha256_one_shot by exact Hl.
  apply ripemd160_spec. rewrite sha256_len. lia.
Qed.

Lemma Hash256_spec `{Cpu} msg : zlen msg < 2 ^ 64 -> (CHash256_Finalize (CHash256_Write [] msg)).1 = blake3 msg.
Proof. intros Hl. unfold CHash256_Write, CHash256_Finalize. cbn [fst app]. apply blake3_one_shot. exact Hl. Qed.

Lemma hash_value_ok `{Cpu} opcode vch : elem_ok vch -> elem_ok (hash_value opcode vch).
Proof.
  intros [_ Hl]. unfold MAX_SCRIPT_ELEMENT_SIZE in Hl. unfold hash_value.
  repeat case_match; [| | | | |apply (blob_elem 32); [vm_compute; split; [done|repeat constructor; discriminate]|lia]].
  - rewrite ripemd160_spec by lia. eapply blob_elem; [apply md_hash_bytes; tauto|lia].
  - rewrite sha1_spec by lia. eapply blob_elem; [apply md_hash_bytes; tauto|lia].
  - rewrite sha256_one_shot by lia. eapply blob_elem; [apply sha256_blob|lia].
  - rewrite Hash160_spec by lia. eapply blob_elem; [apply md_hash_bytes; tauto|lia].
  - rewrite Hash256_spec by lia. eapply blob_elem; [apply blake3_blob|lia].
Qed.

(** ** Checkers that do not abort *)

(** the fields a signature hash reads have been set *)
Definition execdata_ready (sigversion : SigVersion) (d : ScriptExecutionData) : Prop :=
  m_annex_init d = true /\
  (sigversion = TAPSCRIPT -> m_tapleaf_hash_init d = true /\ m_codeseparator_pos_init d = true /\ m_validation_weight_left_init d = true).

(** what the interpreter needs of a checker: no assertion of it fails *)
Class LawfulSignatureChecker `{BaseSignatureChecker} := {
  ecdsa_safe sig key code v : pre_tapscript v = true -> safe (fun _ => True) (CheckECDSASignature sig key code v);
  locktime_safe n : safe (fun _ => True) (CheckLockTime n);
  sequence_safe n : safe (fun _ => True) (CheckSequence n);
}.

(** and of a checker that takes Schnorr signatures *)
Definition schnorr_lawful `{BaseSignatureChecker} : Prop := forall sig key v d, pre_tapscript v = false -> zlen key = 32 -> execdata_ready v d ->
  safe (execdata_ready v) (CheckSchnorrSignature sig key v d).

(** and that names the error of a bad one *)
Definition schnorr_reports `{BaseSignatureChecker} : Prop := forall sig key v d, pre_tapscript v = false -> zlen key = 32 -> execdata_ready v d ->
  returns (execdata_ready v) (CheckSchnorrSignature sig key v d).

Lemma schnorr_reports_lawful `{BaseSignatureChecker} : schnorr_reports -> schnorr_lawful.
Proof. intros Hs sig key v d Hv Hk Hd. specialize (Hs sig key v d Hv Hk Hd). destruct (CheckSchnorrSignature _ _ _ _) as [?|[?|]| |]; done. Qed.

Lemma assert_true_safe b : b = true -> safe (fun _ => True) (assert_true b).
Proof. intros ->. exact I. Qed.
Lemma safe_error {A : Type} (P : A -> Prop) e : safe P (set_error e).
Proof. exact I. Qed.
Lemma safe_ok {A : Type} (P : A -> Prop) a : P a -> safe P (Ok a).
Proof. done. Qed.
Lemma safe_invalid {A : Type} (P : A -> Prop) : safe P (@invalid_stack A).
Proof. exact I. Qed.
#[export] Hint Resolve assert_true_safe safe_error safe_invalid ecdsa_safe locktime_safe sequence_safe operand_ok : outcome.
#[export] Hint Resolve serialize_ok vch_of_bool_ok hash_value_ok : outcome.

(** one layer of an operation: its sequencing, its tests and its argument patterns *)
Ltac safe_step :=
  lazymatch goal with
  | |- safe _ (set_error _) => exact I
  | |- safe _ invalid_stack => exact I
  | |- safe _ Throw => exact I
  | |- safe _ (Ok _) => apply safe_ok
  | |- safe _ (_ ≫= _) => eapply safe_bind; [solve [eauto with outcome]|let a := fresh "a" in let Ha := fresh "Hok" in intros a Ha; cbv beta in Ha]
  | |- safe _ (if ?b then _ else _) => destruct b eqn:?
  | |- safe _ (match ?x with _ => _ end) => destruct x
  end.
(** the elements of a stack whose front is known *)
Ltac stack_elems :=
  repeat match goal with H : Forall elem_ok (_ :: _) |- _ => apply Forall_cons_1 in H as [? H] end;
  repeat (apply Forall_cons_2; [try assumption|]); try assumption.

Lemma stacktop_ok s i : stack_ok s -> safe elem_ok (stacktop s i).
Proof.
  intros Hs. unfold stacktop. repeat case_match; try exact I. apply safe_ok. eapply Forall_lookup_1; eassumption.
Qed.
Lemma popstack_ok s : stack_ok s -> safe stack_ok (popstack s).
Proof. intros Hs. destruct s; [exact I|]. apply Forall_cons_1 in Hs as [_ Hs]. exact Hs. Qed.
#[export] Hint Resolve stacktop_ok popstack_ok : outcome.

Lemma encoding_safe `{Secp256k1} sig flags : safe (fun _ => True) (CheckSignatureEncoding sig flags).
Proof.
  unfold CheckSignatureEncoding. repeat safe_step; try exact I. eapply (safe_bind (fun _ => True)).
  - unfold IsLowDERSignature. repeat safe_step; exact I.
  - intros _ _. repeat safe_step; exact I.
Qed.
Lemma pubkey_encoding_safe key flags v : safe (fun _ => True) (CheckPubKeyEncoding key flags v).
Proof. unfold CheckPubKeyEncoding. repeat safe_step; exact I. Qed.
Lemma drop_signature_safe code sig flags v : safe (fun _ => True) (drop_signature code sig flags v).
Proof. unfold drop_signature. repeat safe_step; exact I. Qed.
#[export] Hint Resolve encoding_safe pubkey_encoding_safe drop_signature_safe : outcome.

(** the assertions of the script number operators hold for numbers of up to 62 bits *)
Lemma num_ops_safe m r : Z.abs m < 2 ^ 62 -> Z.abs r < 2 ^ 62 ->
  num_add_assign m r = Ok (m + r) /\ num_sub_assign m r = Ok (m - r) /\ num_opp m = Ok (- m).
Proof.
  intros Hm Hr. assert (Hopp : negb (m =? - 2 ^ 63) = true) by (apply negb_true_iff, Z.eqb_neq; lia).
  unfold num_add_assign, num_sub_assign, num_opp. rewrite Hopp. split_and!; [| |done];
    destruct (Z.eqb_spec r 0), (Z.gtb_spec r 0), (Z.ltb_spec r 0); try lia; cbn [orb andb]; try done.
  - rewrite (proj2 (Z.leb_le _ _)) by lia. done.
  - rewrite Z.geb_leb, (proj2 (Z.leb_le _ _)) by lia. done.
  - rewrite Z.geb_leb, (proj2 (Z.leb_le _ _)) by lia. done.
  - rewrite (proj2 (Z.leb_le _ _)) by lia. done.
Qed.

Section safety.
Context `{Cpu} `{Secp256k1} `{LawfulSignatureChecker}.
Variables (flags : Z) (sigversion : SigVersion).
Hypothesis schnorr_ok : sigversion = TAPSCRIPT -> schnorr_lawful.

Lemma unary_safe opcode bn : (opcode =? OP_1ADD) || (opcode =? OP_1SUB) || between OP_NEGATE OP_0NOTEQUAL opcode = true ->
  Z.abs bn < 2 ^ 31 -> safe (fun n => Z.abs n < 2 ^ 62) (unary_value opcode bn).
Proof.
  intros Hop Hbn. unfold unary_value, between in *.
  destruct (num_ops_safe bn 1 ltac:(lia) ltac:(lia)) as (-> & -> & ->).
  repeat safe_step; bool_to_prop; unfold Z.b2z; try case_match; lia.
Qed.

Lemma binary_safe opcode a b : (opcode =? OP_ADD) || (opcode =? OP_SUB) || between OP_BOOLAND OP_MAX opcode = true ->
  Z.abs a < 2 ^ 31 -> Z.abs b < 2 ^ 31 -> safe (fun n => Z.abs n < 2 ^ 62) (binary_value opcode a b).
Proof.
  intros Hop Ha Hb. unfold binary_value, between in *.
  rewrite !(swrap_small 64) by (unfold sfits; lia).
  repeat safe_step; bool_to_prop; unfold Z.b2z; try case_match; lia.
Qed.

Lemma serialize_num n : Z.abs n < 2 ^ 62 -> elem_ok (serialize n).
Proof. intros Hn. apply serialize_ok. lia. Qed.

Lemma pick_roll_safe opcode s : stack_ok s -> safe stack_ok (op_pick_roll flags opcode s).
Proof.
  intros Hs. unfold op_pick_roll. destruct s as [|top rest]; [exact I|]. apply Forall_cons_1 in Hs as [Htop Hrest].
  destruct rest as [|r rest]; [exact I|]. repeat safe_step. stack_elems. destruct (opcode =? OP_ROLL); [|stack_elems].
  apply Forall_delete. stack_elems.
Qed.

Lemma locks_safe s : stack_ok s -> safe stack_ok (op_checklocktimeverify flags s) /\ safe stack_ok (op_checksequenceverify flags s).
Proof.
  intros Hs. unfold op_checklocktimeverify, op_checksequenceverify.
  assert (Hn : forall top rest, s = top :: rest -> safe (fun n => Z.abs n < 2 ^ 39) (script_num top (fRequireMinimal flags) 5)).
  { intros top rest ->. apply Forall_cons_1 in Hs as [[Htop _] _]. apply (script_num_ok top _ 5); [exact Htop|lia]. }
  split; destruct (has_flag flags _); try exact Hs; (destruct s as [|top rest]; [exact I|]);
    (eapply safe_bind; [eapply Hn; reflexivity|]); intros n _; repeat safe_step; exact Hs.
Qed.

Lemma numeric_safe opcode s : stack_ok s ->
  ((opcode =? OP_1ADD) || (opcode =? OP_1SUB) || between OP_NEGATE OP_0NOTEQUAL opcode = true -> safe stack_ok (op_unary flags opcode s)) /\
  ((opcode =? OP_ADD) || (opcode =? OP_SUB) || between OP_BOOLAND OP_MAX opcode = true -> safe stack_ok (op_binary flags opcode s)) /\
  safe stack_ok (op_within flags s).
Proof.
  intros Hs. split_and!.
  - intros Hop. unfold op_unary. destruct s as [|top s]; [exact I|]. apply Forall_cons_1 in Hs as [Htop Hs]. safe_step.
    eapply safe_bind; [apply unary_safe; eassumption|]. intros n Hn. constructor; [apply serialize_num, Hn|exact Hs].
  - intros Hop. unfold op_binary. destruct s as [|top [|next s]]; try exact I. stack_elems. do 2 safe_step.
    eapply safe_bind; [apply binary_safe; eassumption|]. intros n Hn. repeat safe_step; [exact Hs|].
    constructor; [apply serialize_num, Hn|exact Hs].
  - unfold op_within. destruct s as [|top [|next [|third s]]]; try exact I. stack_elems. repeat safe_step.
    constructor; [apply vch_of_bool_ok|exact Hs].
Qed.

(** ** The cases of the switch *)

Lemma stack_op_safe opcode f s : stack_op flags opcode = Some f -> stack_ok s -> zlen s < 2 ^ 32 -> safe stack_ok (f s).
Proof.
  intros Hf Hs Hl. unfold stack_op in Hf.
  destruct (locks_safe s Hs) as [Hcltv Hcsv]. destruct (numeric_safe opcode s Hs) as (Hun & Hbin & Hwithin).
  pose proof (pick_roll_safe opcode s Hs) as Hpick.
  repeat match type of Hf with (if ?b then _ else _) = _ => destruct b eqn:? end; try discriminate; injection Hf as <-;
    try exact Hs; try exact I; try assumption; try (apply Hun, eq_refl); try (apply Hbin, eq_refl).
  all: try (unfold op_upgradable_nop, op_verify, op_2drop, op_2dup, op_3dup, op_2over, op_2rot, op_2swap, op_ifdup, op_drop, op_dup,
    op_nip, op_over, op_rot, op_swap, op_tuck, op_equal; repeat safe_step; stack_elems; try apply vch_of_bool_ok; case_match; stack_elems; fail).
  - constructor; [|exact Hs]. apply serialize_ok. unfold between in *. bool_to_prop. lia.
  - constructor; [|exact Hs]. apply serialize_ok. lia.
  - unfold op_size. destruct s as [|x s]; [exact I|]. pose proof Hs as Hs'. apply Forall_cons_1 in Hs' as [[_ Hx] _].
    constructor; [|exact Hs]. apply serialize_ok. unfold MAX_SCRIPT_ELEMENT_SIZE in Hx. lia.
  - unfold op_hash. destruct s as [|x s]; [exact I|]. stack_elems. apply hash_value_ok. assumption.
Qed.

Lemma checksig_safe sig key code d : pre_tapscript sigversion || bool_decide (sigversion = TAPSCRIPT) = true ->
  (sigversion = TAPSCRIPT -> execdata_ready sigversion d) ->
  safe (fun r => sigversion = TAPSCRIPT -> execdata_ready sigversion r.2) (EvalChecksig sig key code d flags sigversion).
Proof.
  intros Hv Hd. unfold EvalChecksig. destruct sigversion; try discriminate.
  1, 2: eapply (safe_bind (fun _ => True)); [|intros ? _; exact Hd]; unfold EvalChecksigPreTapscript; repeat safe_step; exact I.
  specialize (Hd eq_refl). unfold EvalChecksigTapscript. safe_step.
  eapply (safe_bind (execdata_ready TAPSCRIPT)).
  - safe_step; [|exact Hd]. destruct Hd as [Ha Hd]. destruct (Hd eq_refl) as (Hl & Hc & Hw). rewrite Hw. cbn.
    case_match; [exact I|]. split; [exact Ha|]. intros _. cbn. done.
  - intros d' Hd'. safe_step; [exact I|]. safe_step.
    + bool_to_prop. eapply (safe_bind (execdata_ready TAPSCRIPT)); [|intros d2 Hd2 _; exact Hd2].
      safe_step; [|exact Hd']. apply (schnorr_ok eq_refl); [done|assumption|exact Hd'].
    + safe_step; [exact I|]. intros _. exact Hd'.
Qed.

Lemma op_checksig_safe opcode code s d : pre_tapscript sigversion || bool_decide (sigversion = TAPSCRIPT) = true ->
  stack_ok s -> (sigversion = TAPSCRIPT -> execdata_ready sigversion d) ->
  safe (fun r => stack_ok r.1 /\ (sigversion = TAPSCRIPT -> execdata_ready sigversion r.2)) (op_checksig flags sigversion opcode code s d) /\
  safe (fun r => stack_ok r.1 /\ (sigversion = TAPSCRIPT -> execdata_ready sigversion r.2)) (op_checksigadd flags sigversion code s d).
Proof.
  intros Hv Hs Hd. split.
  - unfold op_checksig. destruct s as [|key [|sig s]]; try exact I. stack_elems.
    eapply safe_bind; [apply checksig_safe; eassumption|]. intros [ok d'] Hd'.
    repeat safe_step; (split; [|exact Hd']); cbn; stack_elems. apply vch_of_bool_ok.
  - unfold op_checksigadd. safe_step; [exact I|]. destruct s as [|key [|num [|sig s]]]; try exact I. stack_elems. safe_step.
    eapply safe_bind; [apply checksig_safe; [rewrite Heqb; exact Hv|exact Hd]|]. intros [ok d'] Hd'. split; [|exact Hd'].
    constructor; [|exact Hs]. apply serialize_num. destruct ok; rewrite swrap_small by (unfold sfits; lia); lia.
Qed.

Lemma multisig_delete_safe n : forall k isig s code, stack_ok s -> safe (fun _ => True) (multisig_delete flags sigversion n k isig s code).
Proof. induction n as [|n IH]; intros k isig s code Hs; cbn [multisig_delete]; [exact I|]. do 2 safe_step. apply IH, Hs. Qed.

Lemma multisig_check_safe fuel : forall b isig ikey nSigs nKeys s code, pre_tapscript sigversion = true -> stack_ok s ->
  (b = true -> nSigs <= nKeys) -> nKeys <= Z.of_nat fuel -> safe (fun _ => True) (multisig_check flags sigversion fuel b isig ikey nSigs nKeys s code).
Proof.
  induction fuel as [|fuel IH]; intros b isig ikey nSigs nKeys s code Hv Hs Hb Hf; cbn [multisig_check];
    destruct b; cbn [andb]; try exact I; (destruct (Z.gtb_spec nSigs 0); [|exact I]).
  - specialize (Hb eq_refl). lia.
  - do 5 safe_step. apply IH; [done|done| |lia]. intros Hle. destruct (Z.gtb_spec (if a3 : bool then nSigs - 1 else nSigs) (nKeys - 1)); [discriminate|lia].
Qed.

Lemma multisig_cleanup_safe n : forall b ikey2 s, stack_ok s -> safe stack_ok (multisig_cleanup flags n b ikey2 s).
Proof.
  induction n as [|n IH]; intros b ikey2 s Hs; cbn [multisig_cleanup]; [exact Hs|].
  eapply (safe_bind (fun _ => True)); [repeat safe_step; exact I|]. intros nf _. repeat safe_step. apply IH. assumption.
Qed.

Lemma multisig_safe opcode code s n : pre_tapscript sigversion || bool_decide (sigversion = TAPSCRIPT) = true -> stack_ok s -> 0 <= n ->
  safe (fun r => stack_ok r.1 /\ 0 <= r.2 <= MAX_OPS_PER_SCRIPT) (op_checkmultisig flags sigversion opcode code s n).
Proof.
  intros Hv Hs Hn. unfold op_checkmultisig. safe_step; [exact I|]. rewrite orb_false_r in Hv.
  repeat safe_step. bool_to_prop.
  eapply safe_bind; [apply multisig_delete_safe, Hs|]. intros code' _.
  eapply safe_bind; [apply multisig_check_safe; [exact Hv|exact Hs|intros _; lia|lia]|]. intros ok _.
  eapply safe_bind; [apply multisig_cleanup_safe, Hs|]. intros rest Hrest.
  eapply (safe_bind stack_ok); [|intros r Hr; split; [exact Hr|cbn; lia]].
  unfold multisig_finish. destruct rest as [|dummy rest]; [exact I|]. stack_elems. repeat safe_step; stack_elems. apply vch_of_bool_ok.
Qed.

(** ** The machine *)

(** what holds of the machine between two operations, the size of the stacks apart *)
Record machine_typed (st : EvalState) : Prop := {
  mt_stack : stack_ok (es_stack st);
  mt_altstack : stack_ok (es_altstack st);
  mt_count : 0 <= es_nOpCount st <= MAX_OPS_PER_SCRIPT;
  mt_pc : limbs_ok 8 (es_pc st);
  mt_conditions : 0 <= m_stack_size (es_vfExec st);
  mt_execdata : sigversion = TAPSCRIPT -> execdata_ready sigversion (es_execdata st);
}.
Definition machine_ok (st : EvalState) : Prop := machine_typed st /\ zlen (es_stack st) + zlen (es_altstack st) <= MAX_STACK_SIZE.

Hypothesis runnable : pre_tapscript sigversion || bool_decide (sigversion = TAPSCRIPT) = true.

Lemma codeseparator_ready d pos : (sigversion = TAPSCRIPT -> execdata_ready sigversion d) ->
  sigversion = TAPSCRIPT -> execdata_ready sigversion (set_codeseparator_pos d pos).
Proof. intros Hd Hv. destruct (Hd Hv) as [Ha Hf]. split; [exact Ha|]. intros _. destruct (Hf Hv) as (? & _ & ?). done. Qed.

Lemma eval_opcode_safe opcode fExec st : machine_typed st -> zlen (es_stack st) < 2 ^ 32 ->
  safe (fun st' => machine_typed st' /\ es_pc st' = es_pc st) (eval_opcode flags sigversion opcode fExec st).
Proof.
  intros [Hs Ha Hn Hpc Hc Hd] Hl. unfold eval_opcode. destruct (stack_op flags opcode) as [f|] eqn:Ef.
  { eapply safe_bind; [eapply stack_op_safe; eassumption|]. intros s Hs'. split; [split|]; done. }
  destruct (op_checksig_safe opcode (es_codehash st) (es_stack st) (es_execdata st) runnable Hs Hd) as [Hsig Hadd].
  repeat match goal with |- safe _ (if ?b then _ else _) => destruct b end; try exact I.
  - eapply (safe_bind (fun r => stack_ok r.1 /\ 0 <= m_stack_size r.2)).
    + assert (Hw : forall b, 0 <= m_stack_size (cond_push_back (es_vfExec st) b)) by (intros b; apply Z.mod_pos_bound; lia).
      unfold op_if. repeat safe_step; (split; [|apply Hw]); cbn; stack_elems.
    + intros [s c] [Hs' Hc']. split; [split|]; done.
  - eapply (safe_bind (fun c => 0 <= m_stack_size c)); [|intros c Hc'; split; [split|]; done].
    unfold op_else, toggle_top, cond_empty. safe_step; [exact I|]. rewrite (proj2 (Z.gtb_lt _ _)) by (bool_to_prop; lia). exact Hc.
  - eapply (safe_bind (fun c => 0 <= m_stack_size c)); [|intros c Hc'; split; [split|]; done].
    unfold op_endif, cond_pop_back, cond_empty. safe_step; [exact I|]. rewrite (proj2 (Z.gtb_lt _ _)) by (bool_to_prop; lia). cbn. apply Z.mod_pos_bound. lia.
  - eapply (safe_bind (fun r => stack_ok r.1 /\ stack_ok r.2)); [|intros r [Hr Hr']; split; [split|]; done].
    unfold op_toaltstack. destruct (es_stack st); [exact I|]. split; cbn; stack_elems.
  - eapply (safe_bind (fun r => stack_ok r.1 /\ stack_ok r.2)); [|intros r [Hr Hr']; split; [split|]; done].
    unfold op_fromaltstack. destruct (es_altstack st); [exact I|]. split; cbn; stack_elems.
  - split; [split; try done; apply codeseparator_ready, Hd|done].
  - eapply safe_bind; [apply Hsig|]. intros [s d] [Hs' Hd']. split; [split|]; done.
  - eapply safe_bind; [apply Hadd|]. intros [s d] [Hs' Hd']. split; [split|]; done.
  - eapply safe_bind; [apply multisig_safe; [exact runnable|exact Hs|lia]|]. intros [s n] [Hs' Hn']. split; [split|]; done.
Qed.

(** version 0 witnesses have no limit on the size of the stack before the first operation *)
Lemma eval_step_safe st : machine_typed st -> zlen (es_stack st) < 2 ^ 32 ->
  safe (fun st' => machine_ok st' /\ (length (es_pc st') < length (es_pc st))%nat) (eval_step flags sigversion st).
Proof.
  intros [Hs Ha Hn Hpc Hc Hd] Hl. unfold eval_step. destruct (GetScriptOp (es_pc st)) as [[[opcode vch] pc]|] eqn:Eop; [|exact I].
  destruct (GetScriptOp_shrinks _ _ _ _ Hpc Eop) as [Hlt Hpc']. pose proof (GetScriptOp_data _ _ _ _ Hpc Eop) as Hvch.
  safe_step; [exact I|]. rewrite Z.gtb_ltb in Heqb. apply Z.ltb_ge in Heqb.
  eapply (safe_bind (fun n => 0 <= n <= MAX_OPS_PER_SCRIPT)).
  { unfold count_opcode. repeat safe_step; [bool_to_prop; lia|exact Hn]. }
  intros n Hn'. set (st1 := with_count (with_pc st pc) n). assert (Hst1 : machine_typed st1) by (split; done).
  safe_step; [exact I|]. safe_step; [exact I|].
  eapply (safe_bind (fun st' => machine_typed st' /\ es_pc st' = pc)).
  - repeat safe_step; [split; [split; try done; constructor; done|done]| |done].
    apply eval_opcode_safe; [exact Hst1|exact Hl].
  - intros st' [[] Epc]. safe_step; [exact I|]. bool_to_prop. split; [|cbn; rewrite Epc; exact Hlt]. split; [split; done|cbn; lia].
Qed.

Lemma machine_room st : machine_ok st -> zlen (es_stack st) < 2 ^ 32.
Proof. intros [_ Hl]. pose proof (zlen_nonneg (es_altstack st)). unfold MAX_STACK_SIZE in Hl. lia. Qed.

Lemma eval_loop_safe fuel : forall st, machine_ok st -> (length (es_pc st) <= fuel)%nat -> safe machine_ok (eval_loop flags sigversion fuel st).
Proof.
  induction fuel as [|fuel IH]; intros st Hst Hf; cbn [eval_loop]; destruct (es_pc st) eqn:Epc; try exact Hst; [cbn in Hf; lia|].
  eapply safe_bind; [apply eval_step_safe; [apply Hst|exact (machine_room st Hst)]|].
  intros st' [Hst' Hlt]. apply IH; [exact Hst'|]. rewrite Epc in Hlt. lia.
Qed.

Lemma eval_loop_start fuel st : machine_typed st -> zlen (es_stack st) < 2 ^ 32 -> (length (es_pc st) <= fuel)%nat ->
  safe (fun st' => machine_typed st' /\ zlen (es_stack st') <= Z.max MAX_STACK_SIZE (zlen (es_stack st))) (eval_loop flags sigversion fuel st).
Proof.
  intros Hst Hl Hf. destruct fuel as [|fuel]; cbn [eval_loop]; destruct (es_pc st) eqn:Epc; try (cbn; split; [exact Hst|lia]); [cbn in Hf; lia|].
  eapply safe_bind; [apply eval_step_safe; assumption|]. intros st' [Hst' Hlt]. rewrite Epc in Hlt.
  eapply safe_mono; [|apply eval_loop_safe; [exact Hst'|cbn in *; lia]].
  intros s [Hs Hsize]. split; [exact Hs|]. pose proof (zlen_nonneg (es_altstack s)). lia.
Qed.

Lemma EvalScript_ok stack script d : stack_ok stack -> zlen stack < 2 ^ 32 -> limbs_ok 8 script ->
  (sigversion = TAPSCRIPT -> m_annex_init d = true /\ m_tapleaf_hash_init d = true /\ m_validation_weight_left_init d = true) ->
  returns (fun r => stack_ok r.1 /\ zlen r.1 <= Z.max MAX_STACK_SIZE (zlen stack)) (EvalScript flags sigversion stack script d).
Proof.
  intros Hs Hl Hscript Hd. unfold EvalScript. rewrite runnable. cbn [assert_true mbind outcome_bind]. destruct (_ && _); [exact I|].
  eapply returns_bind; [apply returns_caught, eval_loop_start; [|exact Hl|cbn; lia]|].
  - split; try done. cbn. intros E. destruct (Hd E) as (Ha & Ht & Hw). split; [exact Ha|]. intros _. done.
  - intros st [[Hst _ _ _ _ _] Hsize]. destruct (negb _); [exact I|]. split; [exact Hst|exact Hsize].
Qed.
End safety.

(** ** Rules that are switched on *)

Lemma has_flag_sub flags flags' mask : Z.land flags flags' = flags -> has_flag flags mask = true -> has_flag flags' mask = true.
Proof.
  unfold has_flag. rewrite !negb_true_iff, !Z.eqb_neq. intros Hsub Hf E. apply Hf. rewrite <- Hsub, <- Z.land_assoc, E. apply Z.land_0_r.
Qed.

(** one layer of an operation under more flags and under fewer *)
Ltac softer_step :=
  match goal with
  | |- softer ?m ?n => constr_eq m n; apply softer_refl
  | |- softer (set_error _) _ => discriminate
  | |- softer (_ ≫= _) (_ ≫= _) => apply softer_bind; [solve [eauto with outcome]|intros ? _]
  | |- softer (if ?b then _ else _) (if ?c then _ else _) => constr_eq b c; destruct b
  | |- softer (if _ then set_error _ else _) (if _ then set_error _ else _) => apply softer_guard; [rewrite ?andb_true_iff; solve [intuition eauto with outcome]|]
  | |- softer (match ?x with _ => _ end) (match ?y with _ => _ end) => constr_eq x y; destruct x
  end.

Section softfork.
Context `{Cpu} `{Secp256k1} `{BaseSignatureChecker}.
Variables (flags flags' : Z) (sigversion : SigVersion).
Hypothesis more_flags : Z.land flags flags' = flags.

Lemma flag_kept mask : has_flag flags mask = true -> has_flag flags' mask = true.
Proof. apply has_flag_sub, more_flags. Qed.
Lemma minimal_kept : fRequireMinimal flags = true -> fRequireMinimal flags' = true.
Proof. apply flag_kept. Qed.
Hint Resolve flag_kept minimal_kept : outcome.

Lemma script_num_softer vch k : softer (script_num vch (fRequireMinimal flags') k) (script_num vch (fRequireMinimal flags) k).
Proof.
  unfold script_num, CScriptNum_of. destruct (zlen vch >? k); [apply softer_refl|].
  pose proof (flag_kept SCRIPT_VERIFY_MINIMALDATA) as Hk. unfold fRequireMinimal.
  destruct (has_flag flags _); [rewrite Hk by done; apply softer_refl|]. cbn [andb].
  destruct (has_flag flags' _ && _ && _ && _); [discriminate|apply softer_refl].
Qed.
Lemma operand_softer vch : softer (operand flags' vch) (operand flags vch).
Proof. apply script_num_softer. Qed.
Hint Resolve script_num_softer operand_softer : outcome.

Lemma encoding_softer sig : softer (CheckSignatureEncoding sig flags') (CheckSignatureEncoding sig flags).
Proof.
  unfold CheckSignatureEncoding. softer_step; [apply softer_refl|]. softer_step. apply softer_bind.
  - pose proof (flag_kept SCRIPT_VERIFY_LOW_S) as Hk. destruct (has_flag flags _); [rewrite Hk by done; apply softer_refl|].
    intros []. done.
  - intros [] _. repeat softer_step.
Qed.
Lemma pubkey_softer key : softer (CheckPubKeyEncoding key flags' sigversion) (CheckPubKeyEncoding key flags sigversion).
Proof. unfold CheckPubKeyEncoding. repeat softer_step. Qed.
Lemma drop_softer code sig : softer (drop_signature code sig flags' sigversion) (drop_signature code sig flags sigversion).
Proof. unfold drop_signature. repeat softer_step. Qed.
Hint Resolve encoding_softer pubkey_softer drop_softer : outcome.

Lemma checksig_softer sig key code d : softer (EvalChecksig sig key code d flags' sigversion) (EvalChecksig sig key code d flags sigversion).
Proof.
  assert (Hpre : softer (EvalChecksigPreTapscript sig key code flags' sigversion) (EvalChecksigPreTapscript sig key code flags sigversion)).
  { unfold EvalChecksigPreTapscript. repeat softer_step. }
  unfold EvalChecksig. destruct sigversion; [apply softer_bind; [exact Hpre|intros; apply softer_refl].. |apply softer_refl|].
  unfold EvalChecksigTapscript. repeat softer_step.
Qed.
Hint Resolve checksig_softer : outcome.

Lemma locks_softer s : softer (op_checklocktimeverify flags' s) (op_checklocktimeverify flags s) /\
  softer (op_checksequenceverify flags' s) (op_checksequenceverify flags s).
Proof.
  unfold op_checklocktimeverify, op_checksequenceverify.
  pose proof (flag_kept SCRIPT_VERIFY_CHECKLOCKTIMEVERIFY) as Hk. pose proof (flag_kept SCRIPT_VERIFY_CHECKSEQUENCEVERIFY) as Hk'. split.
  - destruct (has_flag flags SCRIPT_VERIFY_CHECKLOCKTIMEVERIFY); [rewrite Hk by done; repeat softer_step|].
    intros s' Hs'. cbn [negb]. destruct (negb _); [exact Hs'|]. destruct s as [|top s]; [discriminate|].
    repeat match type of Hs' with
    | (?m ≫= _) = _ => destruct m; [|discriminate..]; cbn [mbind outcome_bind] in Hs'
    | (if ?b then _ else _) = _ => destruct b
    end; try discriminate; exact Hs'.
  - destruct (has_flag flags SCRIPT_VERIFY_CHECKSEQUENCEVERIFY); [rewrite Hk' by done; repeat softer_step|].
    intros s' Hs'. cbn [negb]. destruct (negb _); [exact Hs'|]. destruct s as [|top s]; [discriminate|].
    repeat match type of Hs' with
    | (?m ≫= _) = _ => destruct m; [|discriminate..]; cbn [mbind outcome_bind] in Hs'
    | (if ?b then _ else _) = _ => destruct b
    end; try discriminate; exact Hs'.
Qed.

Lemma multisig_delete_softer n : forall k isig s code,
  softer (multisig_delete flags' sigversion n k isig s code) (multisig_delete flags sigversion n k isig s code).
Proof. induction n as [|n IH]; intros; cbn [multisig_delete]; repeat softer_step. apply IH. Qed.
Lemma multisig_check_softer n : forall b isig ikey nSigs nKeys s code,
  softer (multisig_check flags' sigversion n b isig ikey nSigs nKeys s code) (multisig_check flags sigversion n b isig ikey nSigs nKeys s code).
Proof. induction n as [|n IH]; intros; cbn [multisig_check]; repeat softer_step. apply IH. Qed.
Lemma multisig_cleanup_softer n : forall b ikey2 s, softer (multisig_cleanup flags' n b ikey2 s) (multisig_cleanup flags n b ikey2 s).
Proof.
  induction n as [|n IH]; intros b ikey2 s; cbn [multisig_cleanup]; [apply softer_refl|].
  pose proof (flag_kept SCRIPT_VERIFY_NULLFAIL) as Hk.
  destruct (has_flag flags _); [rewrite Hk by done; repeat softer_step; apply IH|]. rewrite andb_false_r. cbn [andb].
  set (k2 := if ikey2 >? 0 then _ else _).
  assert (Hrest : softer (popstack s ≫= multisig_cleanup flags' n b k2) (popstack s ≫= multisig_cleanup flags n b k2)) by (softer_step; apply IH).
  intros r Hr. apply Hrest. destruct (negb b && _ && _); [|exact Hr]. destruct (stacktop s 1); try discriminate. cbn [mbind outcome_bind] in Hr.
  destruct (negb _); [discriminate|exact Hr].
Qed.
Lemma multisig_finish_softer opcode b s : softer (multisig_finish flags' opcode b s) (multisig_finish flags opcode b s).
Proof. unfold multisig_finish. repeat softer_step. Qed.
Hint Resolve multisig_delete_softer multisig_check_softer multisig_cleanup_softer multisig_finish_softer : outcome.

Lemma stack_op_softer opcode : match stack_op flags' opcode, stack_op flags opcode with
  | Some f', Some f => forall s, softer (f' s) (f s) | None, None => True | _, _ => False end.
Proof.
  unfold stack_op. repeat match goal with |- context [if ?b then _ else _] => destruct b end;
    try exact I; intros s; try apply softer_refl; try apply locks_softer.
  - unfold op_upgradable_nop. repeat softer_step.
  - unfold op_pick_roll. repeat softer_step.
  - unfold op_unary. repeat softer_step.
  - unfold op_binary. repeat softer_step.
  - unfold op_within. repeat softer_step.
Qed.

Lemma eval_opcode_softer opcode fExec st : softer (eval_opcode flags' sigversion opcode fExec st) (eval_opcode flags sigversion opcode fExec st).
Proof.
  unfold eval_opcode. pose proof (stack_op_softer opcode) as Hop.
  destruct (stack_op flags' opcode), (stack_op flags opcode); try done; [apply softer_bind; [apply Hop|intros; apply softer_refl]|].
  unfold op_if, op_checksig, op_checksigadd, op_checkmultisig. repeat softer_step.
  all: apply softer_bind; [|intros ? _; repeat softer_step]; repeat softer_step.
Qed.

Lemma eval_step_softer st : softer (eval_step flags' sigversion st) (eval_step flags sigversion st).
Proof.
  unfold eval_step. repeat softer_step. apply softer_bind; [|intros; apply softer_refl]. repeat softer_step. apply eval_opcode_softer.
Qed.

Lemma eval_loop_softer fuel : forall st, softer (eval_loop flags' sigversion fuel st) (eval_loop flags sigversion fuel st).
Proof.
  induction fuel as [|fuel IH]; intros st; cbn [eval_loop]; softer_step; [apply softer_refl..|].
  apply softer_bind; [apply eval_step_softer|]. intros st' _. apply IH.
Qed.

Lemma caught_softer {A : Type} (m m' : outcome A) : softer m m' -> softer (caught m) (caught m').
Proof. intros Hm a Ha. destruct m as [b|[e|]| |]; try discriminate. rewrite (Hm b eq_refl). exact Ha. Qed.

Lemma EvalScript_softer stack script d : softer (EvalScript flags' sigversion stack script d) (EvalScript flags sigversion stack script d).
Proof.
  unfold EvalScript. do 2 softer_step; [discriminate|]. apply softer_bind; [apply caught_softer, eval_loop_softer|]. intros; apply softer_refl.
Qed.
End softfork.

(** ** The condition stack is a stack of booleans *)

(** the position of the first false, counted from the bottom; the top is in front *)
Definition first_false (l : list bool) : Z :=
  match list_find (fun b => b = false) (reverse l) with Some (i, _) => Z.of_nat i | None => NO_FALSE end.
Definition cond_repr (l : list bool) (c : ConditionStack) : Prop := m_stack_size c = zlen l /\ m_first_false_pos c = first_false l.

Lemma first_false_cons b l : zlen l < NO_FALSE ->
  first_false (b :: l) = if first_false l =? NO_FALSE then if b then NO_FALSE else zlen l else first_false l.
Proof.
  intros Hl. unfold first_false. rewrite reverse_cons. destruct (list_find _ (reverse l)) as [[i x]|] eqn:E.
  - rewrite (list_find_app_l _ _ _ _ _ E). apply list_find_Some in E as (Hi & _ & _). apply lookup_lt_Some in Hi. rewrite length_reverse in Hi.
    destruct (Z.eqb_spec (Z.of_nat i) NO_FALSE); [lia|done].
  - rewrite list_find_app_r by exact E. cbn. rewrite length_reverse. destruct b; cbn; [done|]. f_equal; lia.
Qed.

Lemma first_false_all l : zlen l < NO_FALSE -> (first_false l =? NO_FALSE) = forallb id l.
Proof.
  induction l as [|b l IH]; intros Hl; [done|]. cbn [length forallb] in *. rewrite first_false_cons by lia. rewrite <- IH by lia.
  destruct (first_false l =? NO_FALSE) eqn:E; [|rewrite E, andb_false_r; done].
  destruct b; [done|]. cbn [id andb]. apply Z.eqb_neq. lia.
Qed.

Lemma first_false_le l : zlen l < NO_FALSE -> first_false l = NO_FALSE \/ first_false l < zlen l.
Proof.
  induction l as [|b l IH]; intros Hl; [left; done|]. cbn [length] in *. rewrite first_false_cons by lia.
  destruct (Z.eqb_spec (first_false l) NO_FALSE); [destruct b; [left; done|right; lia]|]. destruct IH; [lia|done|right; lia].
Qed.

(** ** Deleting a pattern *)

(** [script] with the copies of [b] at the start of an operation left out, and their number; what cannot be decoded is kept *)
Inductive Deletes (b : CScript) : CScript -> CScript -> Z -> Prop :=
  | Deletes_copy rest result n : Deletes b rest result n -> Deletes b (b ++ rest) result (n + 1)
  | Deletes_op op opcode data rest result n : ~ b `prefix_of` (op ++ rest) -> GetScriptOp (op ++ rest) = Some (opcode, data, rest) ->
      Deletes b rest result n -> Deletes b (op ++ rest) (op ++ result) n
  | Deletes_end script : ~ b `prefix_of` script -> GetScriptOp script = None -> Deletes b script script 0.

Lemma Deletes_count b script result n : Deletes b script result n ->
  0 <= n /\ zlen result + n * zlen b = zlen script /\ (n = 0 -> result = script).
Proof.
  induction 1 as [rest result n _ IH|op opcode data rest result n _ _ _ IH|script _ _]; rewrite ?zlen_app; [..|split_and!; [lia|lia|done]].
  - destruct IH as (Hn & Hl & _). split_and!; [lia|lia|lia].
  - destruct IH as (Hn & Hl & He). split_and!; [lia|lia|]. intros E. f_equal. apply He, E.
Qed.

(** The copies left out are determined by the script. *)
Lemma Deletes_inv b script r n : Deletes b script r n ->
  (exists rest m, script = b ++ rest /\ n = m + 1 /\ Deletes b rest r m) \/
  (exists op opcode data rest r', script = op ++ rest /\ r = op ++ r' /\ ~ b `prefix_of` script /\ GetScriptOp script = Some (opcode, data, rest) /\ Deletes b rest r' n) \/
  (r = script /\ n = 0 /\ ~ b `prefix_of` script /\ GetScriptOp script = None).
Proof. destruct 1; [left|right; left|right; right]; eauto 12. Qed.

Lemma Deletes_functional b script r n : Deletes b script r n -> forall r' n', Deletes b script r' n' -> r' = r /\ n' = n.
Proof.
  induction 1 as [rest result n Hd IH|op opcode data rest result n Hp Hop Hd IH|script Hp Hend]; intros r' n' Hd';
    apply Deletes_inv in Hd' as [(rest' & m & E & -> & Hd')|[(op' & opcode' & data' & rest' & r2 & E & -> & Hp' & Hop' & Hd')|(-> & -> & Hp' & Hend')]];
    try (exfalso; first [apply Hp; eexists; exact E|apply Hp'; eexists; reflexivity]); try congruence; try done.
  - apply app_inv_head in E as <-. destruct (IH _ _ Hd') as [-> ->]. done.
  - rewrite Hop in Hop'. injection Hop' as <- <- <-. apply app_inv_tail in E as <-. destruct (IH _ _ Hd') as [-> ->]. done.
Qed.

Lemma prefix_test (b pc : CScript) : (zlen pc >=? zlen b) && bool_decide (ztake (zlen b) pc = b) = true <-> exists rest, pc = b ++ rest.
Proof.
  rewrite andb_true_iff, Z.geb_leb, Z.leb_le, bool_decide_eq_true. split.
  - intros [_ E]. exists (zdrop (zlen b) pc). rewrite <- E at 1. unfold ztake, zdrop. symmetry. apply take_drop.
  - intros [rest ->]. rewrite zlen_app. pose proof (zlen_nonneg rest). split; [lia|]. apply ztake_app. done.
Qed.

Lemma skip_copies_spec b fuel : b <> [] -> forall pc n, (length pc <= fuel)%nat -> exists pc' k, skip_copies fuel b pc n = (pc', n + k) /\
  ~ b `prefix_of` pc' /\ (length pc' <= length pc)%nat /\ 0 <= k /\ forall r m, Deletes b pc' r m -> Deletes b pc r (m + k).
Proof.
  intros Hb. induction fuel as [|fuel IH]; intros pc n Hf; cbn [skip_copies].
  - destruct pc; [|cbn in Hf; lia]. exists [], 0. rewrite Z.add_0_r. split_and!; [done| |done|done|intros r m Hd; rewrite Z.add_0_r; exact Hd].
    intros [rest E]. symmetry in E. apply app_eq_nil in E as [-> _]. done.
  - destruct (_ && _) eqn:E.
    + apply prefix_test in E as [rest ->]. rewrite zdrop_app by done. rewrite length_app in Hf.
      assert (0 < length b)%nat by (destruct b; [done|cbn; lia]).
      destruct (IH rest (n + 1) ltac:(lia)) as (pc' & k & -> & Hp & Hl & Hk & Hd). exists pc', (k + 1). split_and!; [f_equal; lia|exact Hp| |lia|].
      * rewrite length_app. lia.
      * intros r m Hm. rewrite Z.add_assoc. constructor. apply Hd, Hm.
    + exists pc, 0. rewrite Z.add_0_r. split_and!; [done| |done|done|intros r m Hd; rewrite Z.add_0_r; exact Hd].
      intros Hp. apply not_true_iff_false in E. apply E, prefix_test, Hp.
Qed.

Lemma delete_loop_spec b fuel : b <> [] -> forall mid pc result n, (length pc < fuel)%nat ->
  exists r m res pc2, delete_loop fuel b (mid ++ pc) pc result n = (res, pc2, n + m) /\ Deletes b pc r m /\ res ++ pc2 = result ++ mid ++ r.
Proof.
  intros Hb. induction fuel as [|fuel IH]; intros mid pc result n Hf; [lia|]. cbn [delete_loop].
  rewrite zlen_app, Z.add_simpl_r, ztake_app by lia.
  destruct (skip_copies_spec b (length pc) Hb pc n ltac:(lia)) as (pc' & k & -> & Hp & Hl & Hk & Hd).
  destruct (GetScriptOp pc') as [[[opcode data] next]|] eqn:E.
  - destruct (GetScriptOp_suffix _ _ _ _ E) as (op & -> & Hop). rewrite length_app in Hl.
    assert (0 < length op)%nat by (destruct op; [done|cbn; lia]).
    destruct (IH op next (result ++ mid) (n + k) ltac:(lia)) as (r & m & res & pc2 & -> & Hdel & Heq).
    exists (op ++ r), (m + k), res, pc2. split_and!; [f_equal; lia| |rewrite Heq, <- !app_assoc; done].
    apply Hd. econstructor; eassumption.
  - exists pc', k, (result ++ mid), pc'. split_and!; [done| |apply app_assoc_reverse].
    apply (Hd pc' 0). constructor; assumption.
Qed.

Lemma FindAndDelete_Deletes script b : b <> [] -> Deletes b script (FindAndDelete script b).1 (FindAndDelete script b).2.
Proof.
  intros Hb. unfold FindAndDelete. destruct (Z.eqb_spec (zlen b) 0) as [E|_]; [destruct b; [done|cbn in E; lia]|].
  destruct (delete_loop_spec b (S (length script)) Hb [] script [] 0 ltac:(lia)) as (r & m & res & pc2 & E & Hd & Hr). cbn [app] in *.
  rewrite E. destruct (Deletes_count _ _ _ _ Hd) as (Hm & _ & H0).
  destruct (Z.gtb_spec (0 + m) 0); cbn; [rewrite Hr; exact Hd|]. assert (m = 0) as -> by lia. rewrite H0 in Hd by done. exact Hd.
Qed.

(** ** Matching signatures to keys *)

(** each signature in turn takes the first key left that verifies it *)
Fixpoint match_keys (verify : valtype -> valtype -> bool) (keys sigs : list valtype) : bool :=
  match sigs, keys with
  | [], _ => true
  | _, [] => false
  | sig :: sigs', key :: keys => if verify sig key then match_keys verify keys sigs' else match_keys verify keys sigs
  end.

(** The greedy choice finds an assignment in order when there is one. *)
Lemma match_keys_spec verify keys : forall sigs,
  match_keys verify keys sigs = true <-> exists ks, ks `sublist_of` keys /\ Forall2 (fun sig key => verify sig key = true) sigs ks.
Proof.
  induction keys as [|key keys IH]; intros [|sig sigs]; cbn [match_keys].
  - split; [exists []; split; constructor|done].
  - split; [done|]. intros (ks & Hk & Hf). apply sublist_nil_r in Hk as ->. inversion Hf.
  - split; [exists []; split; [apply sublist_nil_l|constructor]|done].
  - destruct (verify sig key) eqn:E; rewrite IH; split.
    + intros (ks & Hk & Hf). exists (key :: ks). split; [constructor; exact Hk|constructor; done].
    + intros (ks & Hk & Hf). apply Forall2_cons_inv_l in Hf as (k & ks' & Hv & Hf & ->). exists ks'. split; [|exact Hf].
      apply sublist_cons_r in Hk as [Hk|(? & [= -> ->] & Hk)]; [|exact Hk]. etrans; [|exact Hk]. constructor. done.
    + intros (ks & Hk & Hf). exists ks. split; [constructor; exact Hk|exact Hf].
    + intros (ks & Hk & Hf). exists ks. split; [|exact Hf]. apply sublist_cons_r in Hk as [Hk|(ks' & -> & Hk)]; [exact Hk|].
      apply Forall2_cons_inv_l in Hf as (k & ks2 & Hv & _ & [= <- _]). congruence.
Qed.

Section multisig.
Context `{Cpu} `{Secp256k1} `{BaseSignatureChecker}.
Variables (flags : Z) (sigversion : SigVersion).

Lemma stacktop_app front x rest i : i = zlen front + 1 -> stacktop (front ++ x :: rest) i = Ok x.
Proof.
  intros ->. unfold stacktop. destruct (Z.ltb_spec 0 (zlen front + 1)); [|lia]. rewrite Z.add_simpl_r, Nat2Z.id.
  rewrite lookup_app_r, Nat.sub_diag by lia. done.
Qed.

Lemma match_keys_short verify keys : forall sigs, (length keys < length sigs)%nat -> match_keys verify keys sigs = false.
Proof.
  induction keys as [|key keys IH]; intros [|sig sigs] Hl; cbn [match_keys length] in *; try lia.
  destruct (verify sig key); apply IH; cbn [length]; lia.
Qed.

(** the signatures of a list removed from a script, one after the other *)
Fixpoint drop_signatures (sigs : list valtype) (scriptCode : CScript) : outcome CScript :=
  match sigs with
  | [] => Ok scriptCode
  | sig :: sigs => scriptCode ← drop_signature scriptCode sig flags sigversion; drop_signatures sigs scriptCode
  end.

(** the pairs of a signature and a key a greedy match compares *)
Fixpoint tried (verify : valtype -> valtype -> bool) (keys sigs : list valtype) : list (valtype * valtype) :=
  match sigs, keys with
  | sig :: sigs', key :: keys =>
      (sig, key) :: (if verify sig key then tried verify keys sigs'
                     else if (length keys <? length sigs)%nat then [] else tried verify keys sigs)
  | _, _ => []
  end.

Fixpoint check_encodings (pairs : list (valtype * valtype)) : outcome unit :=
  match pairs with
  | [] => Ok tt
  | (sig, key) :: pairs => _ ← CheckSignatureEncoding sig flags; _ ← CheckPubKeyEncoding key flags sigversion; check_encodings pairs
  end.

Definition encoding_ok (pair : valtype * valtype) : Prop :=
  CheckSignatureEncoding pair.1 flags = Ok tt /\ CheckPubKeyEncoding pair.2 flags sigversion = Ok tt.

Lemma check_encodings_ok pairs : check_encodings pairs = Ok tt <-> Forall encoding_ok pairs.
Proof.
  induction pairs as [|[sig key] pairs IH]; cbn [check_encodings]; [split; [constructor|done]|]. rewrite Forall_cons_iff, <- IH. unfold encoding_ok. cbn [fst snd].
  destruct (CheckSignatureEncoding sig flags) as [[]| | |]; cbn [mbind outcome_bind]; [|split; [done|intros [[? _] _]; done]..].
  destruct (CheckPubKeyEncoding key flags sigversion) as [[]| | |]; cbn [mbind outcome_bind]; [|split; [done|intros [[_ ?] _]; done]..].
  tauto.
Qed.

(** the loop over keys and signatures, from any point of it *)
Lemma multisig_check_spec code verify keys : (forall sig key, CheckECDSASignature sig key code sigversion = Ok (verify sig key)) ->
  forall sigs front mid tail stack ikey isig,
  stack = front ++ keys ++ mid ++ sigs ++ tail -> ikey = zlen front + 1 -> isig = zlen (front ++ keys ++ mid) + 1 ->
  (length sigs <= length keys)%nat ->
  multisig_check flags sigversion (length keys) true isig ikey (zlen sigs) (zlen keys) stack code =
  _ ← check_encodings (tried verify keys sigs); Ok (match_keys verify keys sigs).
Proof.
  intros verifies. induction keys as [|key keys IH]; intros sigs front mid tail stack ikey isig Hstack Hikey Hisig Hl.
  { destruct sigs; [done|cbn in Hl; lia]. }
  destruct sigs as [|sig sigs]; [done|]. cbn [multisig_check length match_keys tried check_encodings andb].
  destruct (Z.gtb_spec (Z.of_nat (S (length sigs))) 0); [|lia].
  assert (Esig : stacktop stack isig = Ok sig).
  { rewrite Hstack. replace (front ++ (key :: keys) ++ mid ++ (sig :: sigs) ++ tail) with ((front ++ (key :: keys) ++ mid) ++ sig :: sigs ++ tail) by (rewrite <- !app_assoc; done).
    apply stacktop_app, Hisig. }
  assert (Ekey : stacktop stack ikey = Ok key) by (rewrite Hstack; apply stacktop_app, Hikey).
  rewrite Esig. cbn [mbind outcome_bind]. rewrite Ekey. cbn [mbind outcome_bind].
  destruct (CheckSignatureEncoding sig flags) as [[]| | |]; cbn [mbind outcome_bind]; [|done..].
  destruct (CheckPubKeyEncoding key flags sigversion) as [[]| | |]; cbn [mbind outcome_bind]; [|done..].
  rewrite verifies. cbn [mbind outcome_bind]. cbn [length] in Hl.
  replace (Z.of_nat (S (length keys)) - 1) with (zlen keys) by lia. replace (Z.of_nat (S (length sigs)) - 1) with (zlen sigs) by lia.
  destruct (verify sig key).
  - destruct (Z.gtb_spec (zlen sigs) (zlen keys)); [lia|]. apply (IH sigs (front ++ [key]) (mid ++ [sig]) tail); try done; try lia.
    + rewrite Hstack, <- !app_assoc. done.
    + rewrite zlen_app. cbn [length]. lia.
    + rewrite Hisig. rewrite !zlen_app. cbn [length]. lia.
  - destruct (Nat.ltb_spec (length keys) (S (length sigs))) as [Hgt|Hle].
    + destruct (Z.gtb_spec (Z.of_nat (S (length sigs))) (zlen keys)); [|lia].
      rewrite match_keys_short by (cbn [length]; lia). destruct (length keys); done.
    + destruct (Z.gtb_spec (Z.of_nat (S (length sigs))) (zlen keys)); [lia|].
      apply (IH (sig :: sigs) (front ++ [key]) mid tail); try done; try (cbn [length]; lia).
      * rewrite Hstack, <- !app_assoc. done.
      * rewrite zlen_app. cbn [length]. lia.
      * rewrite Hisig. rewrite !zlen_app. cbn [length]. lia.
Qed.

Lemma cleanup_args b m args : forall rest,
  multisig_cleanup flags (length args + m) b (zlen args) (args ++ rest) = multisig_cleanup flags m b 0 rest.
Proof.
  induction args as [|x args IH]; intros rest; [done|]. cbn [length Nat.add multisig_cleanup app].
  destruct (Z.eqb_spec (Z.of_nat (S (length args))) 0); [lia|]. rewrite andb_false_r. cbn [mbind outcome_bind popstack].
  destruct (Z.gtb_spec (Z.of_nat (S (length args))) 0); [|lia]. rewrite <- IH. f_equal. lia.
Qed.

(** the signatures of a failed operation *)
Definition nonempty_sig (sigs : list valtype) : bool := existsb (fun sig => negb (zlen sig =? 0)) sigs.

Lemma cleanup_sigs b sigs : forall rest, multisig_cleanup flags (length sigs) b 0 (sigs ++ rest) =
  if negb b && has_flag flags SCRIPT_VERIFY_NULLFAIL && nonempty_sig sigs then set_error SCRIPT_ERR_SIG_NULLFAIL else Ok rest.
Proof.
  induction sigs as [|sig sigs IH]; intros rest; cbn [length multisig_cleanup app nonempty_sig existsb]; [rewrite andb_false_r; done|].
  rewrite andb_true_r. destruct (negb b && has_flag flags SCRIPT_VERIFY_NULLFAIL) eqn:E; cbn [mbind outcome_bind popstack].
  - change (stacktop (sig :: sigs ++ rest) 1) with (@Ok valtype sig). cbn [mbind outcome_bind]. destruct (zlen sig =? 0); [|done]. apply IH.
  - apply IH.
Qed.

Lemma multisig_delete_spec sigs : forall k isig front tail stack code, stack = front ++ sigs ++ tail -> isig + k = zlen front + 1 ->
  multisig_delete flags sigversion (length sigs) k isig stack code = drop_signatures sigs code.
Proof.
  induction sigs as [|sig sigs IH]; intros k isig front tail stack code Hs Hk; cbn [length multisig_delete drop_signatures]; [done|].
  assert (Esig : stacktop stack (isig + k) = Ok sig) by (rewrite Hs; apply stacktop_app, Hk).
  rewrite Esig. cbn [mbind outcome_bind]. destruct (drop_signature code sig flags sigversion); cbn [mbind outcome_bind]; [|done..].
  apply (IH _ _ (front ++ [sig]) tail); [rewrite Hs, <- app_assoc; done|rewrite zlen_app; cbn [length]; lia].
Qed.

Lemma getint_small n : 0 <= n <= 20 -> getint n = n.
Proof. intros Hn. unfold getint. repeat case_bool; lia. Qed.
Lemma getint_range n : 0 <= getint n <= 20 -> getint n = n.
Proof. unfold getint. repeat case_bool; lia. Qed.

(** a stack as the operation reads it *)
Record multisig_args (stack : list valtype) (n : Z) (keys sigs : list valtype) (dummy : valtype) (rest : list valtype) : Prop := {
  args_stack : exists vk vs, stack = vk :: keys ++ vs :: sigs ++ dummy :: rest /\
    operand flags vk = Ok (zlen keys) /\ operand flags vs = Ok (zlen sigs);
  args_count : (length sigs <= length keys <= 20)%nat;
  args_ops : n + zlen keys <= MAX_OPS_PER_SCRIPT;
}.

(** the operation, once the arguments are on the stack *)
Definition multisig_result (verify : CScript -> valtype -> valtype -> bool) (opcode : opcodetype) (code : CScript) (n : Z)
  (keys sigs : list valtype) (dummy : valtype) (rest : list valtype) : outcome (list valtype * Z) :=
  code ← drop_signatures sigs code;
  _ ← check_encodings (tried (verify code) keys sigs);
  let ok := match_keys (verify code) keys sigs in
  if negb ok && has_flag flags SCRIPT_VERIFY_NULLFAIL && nonempty_sig sigs then set_error SCRIPT_ERR_SIG_NULLFAIL
  else s ← multisig_finish flags opcode ok (dummy :: rest); Ok (s, n + zlen keys).

Lemma checkmultisig_spec verify opcode code stack n keys sigs dummy rest :
  (forall code sig key, CheckECDSASignature sig key code sigversion = Ok (verify code sig key)) -> sigversion <> TAPSCRIPT ->
  multisig_args stack n keys sigs dummy rest -> zlen stack < 2 ^ 31 ->
  op_checkmultisig flags sigversion opcode code stack n = multisig_result verify opcode code n keys sigs dummy rest.
Proof.
  intros Hver Hv [(vk & vs & -> & Hvk & Hvs) Hl Hn] Hs. set (stack := vk :: _) in *. unfold op_checkmultisig, multisig_result.
  rewrite !(swrap_small 32) by (unfold sfits; lia).
  assert (Hlen : zlen stack = 3 + zlen keys + zlen sigs + zlen rest) by (unfold stack; cbn [length]; rewrite length_app; cbn [length]; rewrite length_app; cbn [length]; lia).
  pose proof (zlen_nonneg rest).
  assert (Ekeys : stacktop stack 1 = Ok vk) by done.
  assert (Esigs : stacktop stack (1 + 1 + zlen keys) = Ok vs) by (apply (stacktop_app (vk :: keys)); cbn [length]; lia).
  assert (Hno : forall a b : Z, b <= a -> (a <? b) = false) by (intros; apply Z.ltb_ge; lia).
  assert (Hno' : forall a b : Z, a <= b -> (a >? b) = false) by (intros a b Hab; rewrite Z.gtb_ltb; apply Z.ltb_ge, Hab).
  rewrite bool_decide_eq_false_2 by done. rewrite Hno by lia. rewrite Ekeys. cbn [mbind outcome_bind].
  rewrite Hvk. cbn [mbind outcome_bind]. rewrite getint_small by lia.
  rewrite Hno, !Hno', Hno by (unfold MAX_PUBKEYS_PER_MULTISIG; lia). cbn [orb]. rewrite Esigs. cbn [mbind outcome_bind].
  rewrite Hvs. cbn [mbind outcome_bind]. rewrite getint_small by lia. rewrite Hno, Hno', Hno by lia. cbn [orb]. rewrite !Nat2Z.id.
  rewrite (multisig_delete_spec sigs _ _ (vk :: keys ++ [vs]) (dummy :: rest)) by
    ((unfold stack; cbn [app]; rewrite <- app_assoc; done) || (cbn [length]; rewrite length_app; cbn [length]; lia)).
  destruct (drop_signatures sigs code) as [code'| | |]; cbn [mbind outcome_bind]; [|done..].
  rewrite (multisig_check_spec code' (verify code') keys (Hver code') sigs [vk] [vs] (dummy :: rest) stack); try done;
    [|rewrite !zlen_app; cbn [length]; lia|lia].
  destruct (check_encodings _) as [[]| | |]; cbn [mbind outcome_bind]; [|done..]. set (ok := match_keys _ _ _).
  pose proof (cleanup_args ok (length sigs) (vk :: keys ++ [vs]) (sigs ++ dummy :: rest)) as Hc.
  rewrite cleanup_sigs in Hc. cbn [length app] in Hc. rewrite <- app_assoc, length_app in Hc. cbn [length app] in Hc. fold stack in Hc.
  replace (Z.to_nat _) with (S (length keys + 1) + length sigs)%nat by lia. replace (zlen keys + 2) with (Z.of_nat (S (length keys + 1))) by lia.
  rewrite Hc. destruct (negb ok && _ && _); done.
Qed.

Lemma split_at {A} (l : list A) k : 0 <= k < zlen l -> exists front x rest, l = front ++ x :: rest /\ zlen front = k.
Proof.
  intros Hk. destruct (lookup_lt_is_Some_2 l (Z.to_nat k) ltac:(lia)) as [x Hx]. exists (take (Z.to_nat k) l), x, (drop (S (Z.to_nat k)) l).
  split; [symmetry; apply take_drop_middle, Hx|]. rewrite length_take. lia.
Qed.

(** a run that does not fail found its arguments *)
Lemma checkmultisig_args opcode code stack n r : zlen stack < 2 ^ 31 -> op_checkmultisig flags sigversion opcode code stack n = Ok r ->
  sigversion <> TAPSCRIPT /\ exists keys sigs dummy rest, multisig_args stack n keys sigs dummy rest.
Proof.
  intros Hs. unfold op_checkmultisig. case_bool_decide as Hv; [done|]. rewrite !(swrap_small 32) by (unfold sfits; lia).
  intros Hop. split; [exact Hv|]. destruct stack as [|vk stack]; [done|]. cbn [length] in Hop. rewrite (proj2 (Z.ltb_ge _ _)) in Hop by lia.
  change (stacktop (vk :: stack) 1) with (@Ok valtype vk) in Hop. cbn [mbind outcome_bind] in Hop.
  destruct (operand flags vk) as [kk| | |] eqn:Hk; cbn [mbind outcome_bind] in Hop; [|done..].
  destruct (Z.ltb_spec (getint kk) 0); [done|]. destruct (Z.gtb_spec (getint kk) MAX_PUBKEYS_PER_MULTISIG) as [|Hkmax]; [done|]. cbn [orb] in Hop.
  unfold MAX_PUBKEYS_PER_MULTISIG in Hkmax. pose proof (getint_range kk ltac:(lia)) as Ekk. rewrite !Ekk in Hop.
  destruct (Z.gtb_spec (n + kk) MAX_OPS_PER_SCRIPT); [done|]. destruct (Z.ltb_spec (Z.of_nat (S (length stack))) (1 + 1 + kk)); [done|].
  destruct (split_at stack kk ltac:(lia)) as (keys & vs & rest & -> & Hlk).
  assert (Evs : stacktop (vk :: keys ++ vs :: rest) (1 + 1 + kk) = Ok vs) by (apply (stacktop_app (vk :: keys)); cbn [length]; lia).
  rewrite Evs in Hop. cbn [mbind outcome_bind] in Hop. destruct (operand flags vs) as [ks| | |] eqn:Hks; cbn [mbind outcome_bind] in Hop; [|done..].
  destruct (Z.ltb_spec (getint ks) 0); [done|]. destruct (Z.gtb_spec (getint ks) kk); [done|]. cbn [orb] in Hop.
  pose proof (getint_range ks ltac:(lia)) as Eks. rewrite !Eks in Hop.
  destruct (Z.ltb_spec (Z.of_nat (S (length (keys ++ vs :: rest)))) (1 + 1 + kk + 1 + ks)) as [|Hge]; [done|].
  rewrite length_app in Hge. cbn [length] in Hge.
  destruct (split_at rest ks ltac:(lia)) as (sigs & dummy & tail & -> & Hls). exists keys, sigs, dummy, tail. split.
  - exists vk, vs. rewrite Hls, Hlk. done.
  - lia.
  - rewrite Hlk. done.
Qed.

Lemma nonempty_sig_false sigs : nonempty_sig sigs = false <-> Forall (fun sig => sig = []) sigs.
Proof.
  induction sigs as [|sig sigs IH]; cbn [nonempty_sig existsb]; [split; [constructor|done]|]. rewrite Forall_cons_iff, <- IH, orb_false_iff.
  destruct sig; cbn; [tauto|]. split; [intros [? _]; done|intros [? _]; done].
Qed.

(** when the operation succeeds on its arguments, and its result *)
Lemma multisig_result_ok verify opcode code n keys sigs dummy rest r : let isverify := opcode =? OP_CHECKMULTISIGVERIFY in
  multisig_result verify opcode code n keys sigs dummy rest = Ok r <->
  exists code', drop_signatures sigs code = Ok code' /\ Forall encoding_ok (tried (verify code') keys sigs) /\
    let matched := match_keys (verify code') keys sigs in
    (matched = false -> isverify = false /\ (has_flag flags SCRIPT_VERIFY_NULLFAIL = true -> Forall (fun sig => sig = []) sigs)) /\
    (has_flag flags SCRIPT_VERIFY_NULLDUMMY = true -> dummy = []) /\
    r = (if isverify then rest else vch_of_bool matched :: rest, n + zlen keys).
Proof.
  intros isverify. unfold multisig_result. destruct (drop_signatures sigs code) as [code'| | |]; cbn [mbind outcome_bind];
    [|split; [done|intros (? & ? & _); done]..].
  destruct (check_encodings (tried (verify code') keys sigs)) as [[]| | |] eqn:Henc; cbn [mbind outcome_bind];
    [|split; [done|intros (c & [= <-] & He & _); apply check_encodings_ok in He; congruence]..].
  apply check_encodings_ok in Henc. unfold multisig_finish. fold isverify.
  set (matched := match_keys (verify code') keys sigs).
  transitivity ((matched = false -> isverify = false /\ (has_flag flags SCRIPT_VERIFY_NULLFAIL = true -> nonempty_sig sigs = false)) /\
    (has_flag flags SCRIPT_VERIFY_NULLDUMMY = true -> dummy = []) /\ r = (if isverify then rest else vch_of_bool matched :: rest, n + zlen keys)).
  2: { rewrite nonempty_sig_false. split; [intros Hr; exists code'; done|intros (c & [= <-] & _ & Hr); exact Hr]. }
  destruct matched, (has_flag flags SCRIPT_VERIFY_NULLFAIL), (nonempty_sig sigs), (has_flag flags SCRIPT_VERIFY_NULLDUMMY), dummy, isverify;
    cbn; (split; [intros Hr; first [discriminate Hr|injection Hr as <-; done]|]);
    intros (Hm & Hd & ->); first [done|discriminate (Hd eq_refl)|destruct (Hm eq_refl) as [? Hf]; first [done|discriminate (Hf eq_refl)]].
Qed.
End multisig.

(** ** Properties *)

(** C7: One operation keeps the types and limits of the machine: from a state whose stacks hold byte strings of at most 520 bytes, at most
    1000 of them, and whose operation count is at most 201, the body of the loop of [EvalScript] ends in such a state with less of the script
    left, or rejects the script, or throws; under a checker whose assertions hold, no assertion of the interpreter fails. *)
Theorem eval_step_typed `{Cpu} `{Secp256k1} `{LawfulSignatureChecker} (flags : Z) (sigversion : SigVersion) (st : EvalState) :
  sigversion <> TAPROOT -> (sigversion = TAPSCRIPT -> schnorr_lawful) -> machine_ok sigversion st ->
  safe (fun st' => machine_ok sigversion st' /\ (length (es_pc st') < length (es_pc st))%nat) (eval_step flags sigversion st).
Proof.
  intros Hv Hsch Hst. apply eval_step_safe; [exact Hsch|destruct sigversion; done|apply Hst|exact (machine_room _ _ Hst)].
Qed.

(** C6: [EvalScript] returns on every script: with the script's length as its fuel the loop never runs out, no exception leaves it, and
    no assertion fails; the result is either an error that was set, or a stack of byte strings of at most 520 bytes,
    at most 1000 of them or as many as at the start. *)
Theorem EvalScript_returns `{Cpu} `{Secp256k1} `{LawfulSignatureChecker} (flags : Z) (sigversion : SigVersion)
  (stack : list valtype) (script : CScript) (d : ScriptExecutionData) :
  sigversion <> TAPROOT -> (sigversion = TAPSCRIPT -> schnorr_lawful) -> stack_ok stack -> zlen stack < 2 ^ 32 -> limbs_ok 8 script ->
  (sigversion = TAPSCRIPT -> m_annex_init d = true /\ m_tapleaf_hash_init d = true /\ m_validation_weight_left_init d = true) ->
  (exists e, EvalScript flags sigversion stack script d = Fail (Some e)) \/
  (exists stack' d', EvalScript flags sigversion stack script d = Ok (stack', d') /\ stack_ok stack' /\ zlen stack' <= Z.max MAX_STACK_SIZE (zlen stack)).
Proof.
  intros Hv Hsch Hs Hl Hscript Hd.
  pose proof (EvalScript_ok flags sigversion Hsch ltac:(destruct sigversion; done) stack script d Hs Hl Hscript Hd) as Hr.
  destruct (EvalScript _ _ _ _ _) as [[s' d']|[e|]| |]; try destruct Hr; [right; eauto 6|left; eauto].
Qed.

(** Every flag is a soft fork for the interpreter: when the flags of one run are among those of another, a script the run with more
    flags accepts is accepted with fewer, with the same stack and execution data. *)
Theorem EvalScript_soft_fork `{Cpu} `{Secp256k1} `{BaseSignatureChecker} (flags flags' : Z) (sigversion : SigVersion)
  (stack : list valtype) (script : CScript) (d : ScriptExecutionData) (r : list valtype * ScriptExecutionData) :
  Z.land flags flags' = flags -> EvalScript flags' sigversion stack script d = Ok r -> EvalScript flags sigversion stack script d = Ok r.
Proof. intros Hsub. apply EvalScript_softer, Hsub. Qed.

(** [ConditionStack], which keeps a size and the position of the first false value, is a stack of booleans: emptiness, the test that all
    are true, pushing, popping and toggling the top agree with the list of the branches, and only the empty stack fails the assertions. *)
Theorem condition_stack_refines (l : list bool) (c : ConditionStack) : cond_repr l c -> zlen l + 1 < NO_FALSE ->
  (cond_empty c = true <-> l = []) /\ all_true c = forallb id l /\ (forall b, cond_repr (b :: l) (cond_push_back c b)) /\
  match l with
  | [] => cond_pop_back c = Abort /\ toggle_top c = Abort
  | b :: l' => (exists c', cond_pop_back c = Ok c' /\ cond_repr l' c') /\ (exists c', toggle_top c = Ok c' /\ cond_repr (negb b :: l') c')
  end.
Proof.
  intros [Hsize Hfirst] Hl. unfold NO_FALSE in Hl. split_and!.
  - unfold cond_empty. rewrite Z.eqb_eq, Hsize. destruct l; cbn [length]; split; (done || lia).
  - unfold all_true. rewrite Hfirst. apply first_false_all. unfold NO_FALSE. lia.
  - intros b. unfold cond_repr, cond_push_back. cbn [m_stack_size m_first_false_pos length]. rewrite first_false_cons by (unfold NO_FALSE; lia).
    rewrite Hsize, Hfirst, wrap_small by (unfold fits; lia). split; [lia|]. destruct (_ =? _) eqn:E, b; cbn [andb negb]; try done. apply Z.eqb_eq, E.
  - destruct l as [|b l]; cbn [length] in *; [unfold cond_pop_back, toggle_top; rewrite Hsize; done|].
    rewrite first_false_cons in Hfirst by (unfold NO_FALSE; lia). destruct (first_false_le l ltac:(unfold NO_FALSE; lia)) as [E|E].
    + rewrite E, Z.eqb_refl in Hfirst. split.
      * unfold cond_pop_back. rewrite Hsize. eexists. split; [done|]. unfold cond_repr. cbn [m_stack_size m_first_false_pos].
        rewrite wrap_small by (unfold fits; lia). split; [lia|]. rewrite E, Hfirst. destruct b; [case_match; done|]. rewrite (proj2 (Z.eqb_eq _ _)) by lia. done.
      * unfold toggle_top. rewrite Hsize. eexists. split; [done|]. unfold cond_repr. cbn [m_stack_size m_first_false_pos length].
        rewrite first_false_cons, E, Hfirst, wrap_small by (unfold fits, NO_FALSE; lia). split; [done|].
        destruct b; cbn [negb]; [rewrite !Z.eqb_refl; lia|]. rewrite Z.eqb_refl. unfold NO_FALSE. destruct (Z.eqb_spec (zlen l) (2 ^ 32 - 1)); [lia|].
        rewrite (proj2 (Z.eqb_eq _ _)) by lia. done.
    + assert (Hne : first_false l <> NO_FALSE) by (unfold NO_FALSE; lia). rewrite (proj2 (Z.eqb_neq _ _) Hne) in Hfirst. split.
      * unfold cond_pop_back. rewrite Hsize. eexists. split; [done|]. unfold cond_repr. cbn [m_stack_size m_first_false_pos].
        rewrite wrap_small by (unfold fits; lia). split; [lia|]. rewrite Hfirst. destruct (Z.eqb_spec (first_false l) (Z.of_nat (S (length l)) - 1)); [lia|done].
      * unfold toggle_top. rewrite Hsize. eexists. split; [done|]. unfold cond_repr. cbn [m_stack_size m_first_false_pos length].
        rewrite first_false_cons, Hfirst, (proj2 (Z.eqb_neq _ _) Hne), wrap_small by (unfold fits, NO_FALSE; lia). split; [done|].
        destruct (Z.eqb_spec (first_false l) (Z.of_nat (S (length l)) - 1)); [lia|done].
Qed.

(** [FindAndDelete] removes exactly the copies of the pattern that start where an operation starts: its result and its count are the only
    ones the specification [Deletes] allows, the bytes that disappear are those of the copies, and a script without copies stays as it is. *)
Theorem FindAndDelete_refines (script b : CScript) (r : CScript) (n : Z) : b <> [] ->
  (Deletes b script r n <-> FindAndDelete script b = (r, n)) /\
  (FindAndDelete script b = (r, n) -> zlen r + n * zlen b = zlen script /\ (n = 0 -> r = script)).
Proof.
  intros Hb. pose proof (FindAndDelete_Deletes script b Hb) as Hd. split; [split|].
  - intros Hd'. destruct (Deletes_functional _ _ _ _ Hd _ _ Hd') as [-> ->]. apply surjective_pairing.
  - intros E. rewrite E in Hd. exact Hd.
  - intros E. rewrite E in Hd. apply (Deletes_count _ _ _ _ Hd).
Qed.

(** C22: [OP_CHECKMULTISIG] and [OP_CHECKMULTISIGVERIFY] match signatures to keys in order.  Under any flags and any signature version, with a
    checker that answers, the operation succeeds exactly when: the script is not a tapscript; the stack holds the count of keys, the keys, the count of signatures,
    the signatures and the extra element, with counts the flags accept as numbers, at most 20 keys, at most as many signatures, and the keys
    within the limit of 201 operations; in a script before segregated witness the signatures may be removed from the script code; every pair of a
    signature and a key that the greedy match compares has encodings the flags accept; under NULLDUMMY the extra element is empty; and when the
    signatures do not match, OP_CHECKMULTISIGVERIFY was not asked for and under NULLFAIL every signature is empty.  The signatures match when
    some subsequence of the keys verifies them one by one.  The result is pushed in place of the arguments and of the extra element (by
    OP_CHECKMULTISIGVERIFY nothing is), and the keys are counted. *)
Theorem checkmultisig_matches `{Secp256k1} `{BaseSignatureChecker} (flags : Z) (sigversion : SigVersion) (opcode : opcodetype) (code : CScript)
  (verify : CScript -> valtype -> valtype -> bool) (stack : list valtype) (n : Z) (r : list valtype * Z) (isverify := opcode =? OP_CHECKMULTISIGVERIFY) :
  (forall code sig key, CheckECDSASignature sig key code sigversion = Ok (verify code sig key)) -> zlen stack < 2 ^ 31 ->
  op_checkmultisig flags sigversion opcode code stack n = Ok r <->
  sigversion <> TAPSCRIPT /\
  exists keys sigs dummy rest code' (matched : bool),
    multisig_args flags stack n keys sigs dummy rest /\
    drop_signatures flags sigversion sigs code = Ok code' /\
    Forall (encoding_ok flags sigversion) (tried (verify code') keys sigs) /\
    (matched = true <-> exists ks, ks `sublist_of` keys /\ Forall2 (fun sig key => verify code' sig key = true) sigs ks) /\
    (matched = false -> isverify = false /\ (has_flag flags SCRIPT_VERIFY_NULLFAIL = true -> Forall (fun sig => sig = []) sigs)) /\
    (has_flag flags SCRIPT_VERIFY_NULLDUMMY = true -> dummy = []) /\
    r = (if isverify then rest else vch_of_bool matched :: rest, n + zlen keys).
Proof.
  intros Hver Hs. split.
  - intros Hop. destruct (checkmultisig_args _ _ _ _ _ _ _ Hs Hop) as (Hv & keys & sigs & dummy & rest & Hargs). split; [exact Hv|].
    rewrite (checkmultisig_spec _ _ verify _ _ _ _ _ _ _ _ Hver Hv Hargs Hs) in Hop.
    apply multisig_result_ok in Hop as (code' & Hd & Henc & Hfin).
    exists keys, sigs, dummy, rest, code', (match_keys (verify code') keys sigs). split; [exact Hargs|]. split; [exact Hd|]. split; [exact Henc|].
    split; [apply match_keys_spec|exact Hfin].
  - intros (Hv & keys & sigs & dummy & rest & code' & matched & Hargs & Hd & Henc & Hm & Hfin).
    rewrite (checkmultisig_spec _ _ verify _ _ _ _ _ _ _ _ Hver Hv Hargs Hs). apply multisig_result_ok.
    exists code'. split; [exact Hd|]. split; [exact Henc|].
    rewrite <- match_keys_spec in Hm. replace (match_keys _ _ _) with matched; [exact Hfin|]. apply eq_true_iff_eq, Hm.
Qed.

(** ** The properties at concrete inputs *)

(** a curve on which nothing verifies, for examples that only need one *)
Definition no_curve : Secp256k1 := {|
  secp_pubkey := list Z; secp_signature := list Z; secp_xonly := list Z;
  secp256k1_ec_pubkey_parse := Some; secp256k1_ec_pubkey_serialize _ k := k; secp256k1_ec_pubkey_tweak_add k _ := Some k;
  secp256k1_ecdsa_signature_parse_compact s := (true, s); secp256k1_ecdsa_signature_normalize s := (false, s); secp256k1_ecdsa_verify _ _ _ := false;
  secp256k1_xonly_pubkey_parse := Some; secp256k1_schnorrsig_verify _ _ _ := false; secp256k1_xonly_pubkey_tweak_add k _ := Some k;
  secp256k1_xonly_pubkey_from_pubkey k := Some (k, 0); secp256k1_xonly_pubkey_serialize k := k;
  secp256k1_xonly_pubkey_tweak_add_check _ _ _ _ := false |}.
(** a checker that takes a signature for valid when it equals the key *)
Definition equality_checker : BaseSignatureChecker := {|
  CheckECDSASignature sig key _ _ := Ok (bool_decide (sig = key));
  CheckSchnorrSignature _ _ _ d := Ok d;
  CheckLockTime _ := Ok true;
  CheckSequence _ := Ok true;
|}.

#[export] Instance base_checker_lawful : @LawfulSignatureChecker base_checker.
Proof. split; intros; exact I. Qed.
#[export] Instance equality_checker_lawful : @LawfulSignatureChecker equality_checker.
Proof. split; intros; exact I. Qed.

(** OP_DUP OP_SIZE OP_IF OP_SHA1 OP_ELSE OP_RETURN OP_ENDIF *)
Definition example_script : CScript := [OP_DUP; OP_SIZE; OP_IF; OP_SHA1; OP_ELSE; OP_RETURN; OP_ENDIF].

Lemma example_stack_ok : stack_ok [[0x61; 0x62]].
Proof. vm_compute. repeat constructor; discriminate. Defined.
Lemma example_script_ok : limbs_ok 8 example_script.
Proof. vm_compute. repeat constructor; discriminate. Defined.

Lemma eval_step_typed_witness :
  safe (fun st' => machine_ok BASE st' /\ (length (es_pc st') < 7)%nat)
    (@eval_step portable_cpu no_curve base_checker STANDARD_SCRIPT_VERIFY_FLAGS BASE (eval_init [[0x61; 0x62]] example_script execdata_new)).
Proof.
  apply (@eval_step_typed portable_cpu no_curve base_checker base_checker_lawful STANDARD_SCRIPT_VERIFY_FLAGS BASE
    (eval_init [[0x61; 0x62]] example_script execdata_new)); [discriminate|discriminate|].
  split; [|vm_compute; discriminate]. split; [exact example_stack_ok|constructor|vm_compute; split; discriminate|exact example_script_ok|vm_compute; discriminate|discriminate].
Defined.

Lemma EvalScript_returns_witness :
  (exists e, @EvalScript portable_cpu no_curve base_checker 0 WITNESS_V0 [[0x61; 0x62]] example_script execdata_new = Fail (Some e)) \/
  (exists stack' d', @EvalScript portable_cpu no_curve base_checker 0 WITNESS_V0 [[0x61; 0x62]] example_script execdata_new = Ok (stack', d') /\
    stack_ok stack' /\ zlen stack' <= Z.max MAX_STACK_SIZE 1).
Proof.
  apply (@EvalScript_returns portable_cpu no_curve base_checker base_checker_lawful 0 WITNESS_V0 [[0x61; 0x62]] example_script execdata_new);
    [discriminate|discriminate|exact example_stack_ok|reflexivity|exact example_script_ok|discriminate].
Defined.

Lemma EvalScript_soft_fork_witness : @EvalScript portable_cpu no_curve equality_checker SCRIPT_VERIFY_P2SH BASE [[7]; [7]] [OP_CHECKSIG] execdata_new =
  Ok ([vchTrue], set_codeseparator_pos execdata_new 0xFFFFFFFF).
Proof.
  apply (@EvalScript_soft_fork portable_cpu no_curve equality_checker SCRIPT_VERIFY_P2SH (Z.lor SCRIPT_VERIFY_P2SH SCRIPT_VERIFY_NULLFAIL)); reflexivity.
Defined.

Lemma condition_stack_refines_witness : (exists c', toggle_top (cond_push_back (cond_push_back cond_new true) false) = Ok c' /\ all_true c' = true).
Proof.
  destruct (condition_stack_refines [false; true] (cond_push_back (cond_push_back cond_new true) false)) as (_ & _ & _ & _ & c' & Hc & _ & Hf);
    [split; reflexivity|reflexivity|]. exists c'. split; [exact Hc|]. unfold all_true. rewrite Hf. reflexivity.
Defined.

Lemma FindAndDelete_refines_witness : Deletes [OP_DUP] [OP_DUP; OP_DROP; OP_DUP; 1; OP_DUP] [OP_DROP; 1; OP_DUP] 2.
Proof.
  apply (proj1 (FindAndDelete_refines [OP_DUP; OP_DROP; OP_DUP; 1; OP_DUP] [OP_DUP] [OP_DROP; 1; OP_DUP] 2 ltac:(discriminate))). reflexivity.
Defined.

(** two of three keys sign a script before segregated witness, with an extra element that is not empty *)
Lemma checkmultisig_matches_witness :
  @op_checkmultisig no_curve equality_checker 0 BASE OP_CHECKMULTISIG [OP_DUP; 1; 5] [[3]; [5]; [6]; [7]; [2; 0]; [5]; [7]; [9]] 0 = Ok ([vchTrue], 3).
Proof.
  apply (@checkmultisig_matches no_curve equality_checker 0 BASE OP_CHECKMULTISIG [OP_DUP; 1; 5] (fun _ sig key => bool_decide (sig = key)));
    [reflexivity|reflexivity|].
  split; [discriminate|]. exists [[5]; [6]; [7]], [[5]; [7]], [9], [], [OP_DUP], true. split; [|split_and!].
  - split; [exists [3], [2; 0]; done|cbn; lia|vm_compute; discriminate].
  - vm_compute. reflexivity.
  - repeat constructor.
  - split; [|done]. intros _. exists [[5]; [7]]. split; [repeat constructor|repeat constructor].
  - discriminate.
  - vm_compute. discriminate.
  - reflexivity.
Defined.
