(* ===== verification/SigHash.v ===== *)
(** * Signature hashes

    src/script/interpreter.cpp from [CTransactionSignatureSerializer] to
    [GenericTransactionSignatureChecker]: the hash a signature signs, before
    segwit, in version 0 witnesses and in taproot, the data computed once for a
    transaction, and the checker of the signatures and lock times of one input. *)

From Stdlib Require Import ZArith Lia Bool.
From stdpp Require Import base option list decidable.
From S2P Require Import Prelude Uint256 Sha256 Sha256Proofs Hashes Serialize PubKey Primitives Opcodes Script ScriptFlags Interpreter InterpreterProofs.
Local Open Scope Z_scope.
Local Open Scope adonai_scope.

(** ** CTransactionSignatureSerializer *)

(** [while (scriptCode.GetOp(it, opcode))]: the number of code separators *)
Fixpoint count_codeseparators (fuel : nat) (it : CScript) (n : Z) : Z :=
  match fuel with
  | O => n
  | S fuel =>
      match GetScriptOp it with
      | Some (opcode, _, next) => count_codeseparators fuel next (if opcode =? OP_CODESEPARATOR then n + 1 else n)
      | None => n
      end
  end.

(** the same loop writing what is between the separators, in [out]; then the rest up to where [it] stopped *)
Fixpoint write_segments (fuel : nat) (itBegin it out : CScript) : CScript :=
  match fuel with
  | O => out
  | S fuel =>
      match GetScriptOp it with
      | Some (opcode, _, next) =>
          if opcode =? OP_CODESEPARATOR
          then write_segments fuel next next (out ++ ztake (zlen itBegin - zlen next - 1) itBegin)
          else write_segments fuel itBegin next out
      | None => if zlen itBegin =? 0 then out else out ++ ztake (zlen itBegin - zlen (GetScriptOp_stop it)) itBegin
      end
  end.

(** every operation takes a byte, and the last call fails *)
Definition SerializeScriptCode (scriptCode : CScript) : list Z :=
  WriteCompactSize (zlen scriptCode - count_codeseparators (S (length scriptCode)) scriptCode 0) ++
  write_segments (S (length scriptCode)) scriptCode scriptCode [].

Definition null_txin : CTxIn := {| prevout := COutPoint_null; scriptSig := []; nSequence := SEQUENCE_FINAL; scriptWitness := [] |}.
(** [vin[n]] and [vout[n]], read in range *)
Definition vin_at (tx : CTransaction) (n : Z) : CTxIn := nth (Z.to_nat n) (vin tx) null_txin.
Definition vout_at (tx : CTransaction) (n : Z) : CTxOut := nth (Z.to_nat n) (vout tx) CTxOut_SetNull.

Definition fAnyoneCanPay (nHashType : Z) : bool := negb (Z.land nHashType SIGHASH_ANYONECANPAY =? 0).
Definition fHashSingle (nHashType : Z) : bool := Z.land nHashType 0x1f =? SIGHASH_SINGLE.
Definition fHashNone (nHashType : Z) : bool := Z.land nHashType 0x1f =? SIGHASH_NONE.

Definition SerializeInput (tx : CTransaction) (scriptCode : CScript) (nIn nHashType nInput : Z) : list Z :=
  let nInput := if fAnyoneCanPay nHashType then nIn else nInput in
  ser_COutPoint (prevout (vin_at tx nInput)) ++
  (if negb (nInput =? nIn) then ser_bytes [] else SerializeScriptCode scriptCode) ++
  (if negb (nInput =? nIn) && (fHashSingle nHashType || fHashNone nHashType) then ser_int32 0 else ser_writedata32 (nSequence (vin_at tx nInput))).

Definition SerializeOutput (tx : CTransaction) (nIn nHashType nOutput : Z) : list Z :=
  if fHashSingle nHashType && negb (nOutput =? nIn) then ser_CTxOut CTxOut_SetNull else ser_CTxOut (vout_at tx nOutput).

Definition SignatureSerializer_Serialize (tx : CTransaction) (scriptCode : CScript) (nIn nHashType : Z) : list Z :=
  let nInputs := if fAnyoneCanPay nHashType then 1 else u32 (zlen (vin tx)) in
  let nOutputs := if fHashNone nHashType then 0 else if fHashSingle nHashType then u32 (nIn + 1) else u32 (zlen (vout tx)) in
  ser_writedata32 (version tx) ++
  WriteCompactSize nInputs ++
  flat_map (fun i => SerializeInput tx scriptCode nIn nHashType (Z.of_nat i)) (seq 0 (Z.to_nat nInputs)) ++
  WriteCompactSize nOutputs ++
  flat_map (fun i => SerializeOutput tx nIn nHashType (Z.of_nat i)) (seq 0 (Z.to_nat nOutputs)) ++
  ser_writedata32 (nLockTime tx).

(** ** Data computed once for a transaction *)

Definition GetSHA256_of (bytes : list Z) : uint256 := HashWriter_GetSHA256 (HashWriter_write HashWriter_init bytes).
Definition GetPrevoutsSHA256 (tx : CTransaction) : uint256 := GetSHA256_of (flat_map (fun i => ser_COutPoint (prevout i)) (vin tx)).
Definition GetSequencesSHA256 (tx : CTransaction) : uint256 := GetSHA256_of (flat_map (fun i => ser_writedata32 (nSequence i)) (vin tx)).
Definition GetOutputsSHA256 (tx : CTransaction) : uint256 := GetSHA256_of (flat_map ser_CTxOut (vout tx)).
Definition GetSpentAmountsSHA256 (outputs_spent : list CTxOut) : uint256 := GetSHA256_of (flat_map (fun o => ser_int64 (nValue o)) outputs_spent).
Definition GetSpentScriptsSHA256 (outputs_spent : list CTxOut) : uint256 := GetSHA256_of (flat_map (fun o => ser_bytes (scriptPubKey o)) outputs_spent).

Record PrecomputedTransactionData : Type := {
  m_prevouts_single_hash : uint256;
  m_sequences_single_hash : uint256;
  m_outputs_single_hash : uint256;
  m_spent_amounts_single_hash : uint256;
  m_spent_scripts_single_hash : uint256;
  m_bip341_taproot_ready : bool;
  hashPrevouts : uint256;
  hashSequence : uint256;
  hashOutputs : uint256;
  m_bip143_segwit_ready : bool;
  m_spent_outputs : list CTxOut;
  m_spent_outputs_ready : bool;
}.

(** the loop over the inputs that finds which of the two schemes are used *)
Fixpoint uses_schemes (ins : list CTxIn) (spent_ready : bool) (spent : list CTxOut) (uses : bool * bool) : bool * bool :=
  match ins with
  | [] => uses
  | i :: ins =>
      if uses.1 && uses.2 then uses
      else
        let uses :=
          if negb (CScriptWitness_IsNull (scriptWitness i)) then
            let spk := scriptPubKey (nth 0 spent CTxOut_SetNull) in
            if spent_ready && (zlen spk =? 2 + WITNESS_V1_TAPROOT_SIZE) && (spk.[0] =? OP_1) then (uses.1, true) else (true, uses.2)
          else uses in
        uses_schemes ins spent_ready (drop 1 spent) uses
  end.

(** a fresh object; [None] is the failed assertion *)
Definition PrecomputedTransactionData_Init (tx : CTransaction) (spent_outputs : list CTxOut) (force : bool) : option PrecomputedTransactionData :=
  let ready := negb (zlen spent_outputs =? 0) in
  if ready && negb (zlen spent_outputs =? zlen (vin tx)) then None
  else
    let '(uses_bip143_segwit, uses_bip341_taproot) := uses_schemes (vin tx) ready spent_outputs (force, force) in
    let when (b : bool) (h : uint256) : uint256 := if b then h else zrep 32 0 in
    let any := uses_bip143_segwit || uses_bip341_taproot in
    let taproot := uses_bip341_taproot && ready in
    let prevouts := when any (GetPrevoutsSHA256 tx) in
    let sequences := when any (GetSequencesSHA256 tx) in
    let outputs := when any (GetOutputsSHA256 tx) in
    Some {|
      m_prevouts_single_hash := prevouts; m_sequences_single_hash := sequences; m_outputs_single_hash := outputs;
      m_spent_amounts_single_hash := when taproot (GetSpentAmountsSHA256 spent_outputs);
      m_spent_scripts_single_hash := when taproot (GetSpentScriptsSHA256 spent_outputs);
      m_bip341_taproot_ready := taproot;
      hashPrevouts := when uses_bip143_segwit (SHA256Uint256 prevouts);
      hashSequence := when uses_bip143_segwit (SHA256Uint256 sequences);
      hashOutputs := when uses_bip143_segwit (SHA256Uint256 outputs);
      m_bip143_segwit_ready := uses_bip143_segwit;
      m_spent_outputs := spent_outputs; m_spent_outputs_ready := ready |}.

(** ** SignatureHash *)

Definition GetHash_of (bytes : list Z) : uint256 := HashWriter_GetHash (HashWriter_write HashWriter_init bytes).
(** [uint256::ONE] *)
Definition uint256_ONE : uint256 := 1 :: zrep 31 0.

(** what is hashed for a version 0 witness *)
Definition segwit_preimage (scriptCode : CScript) (tx : CTransaction) (nIn nHashType amount : Z) (cache : option PrecomputedTransactionData) : list Z :=
  let base := Z.land nHashType 0x1f in
  let anyone := fAnyoneCanPay nHashType in
  let ready := match cache with Some c => if m_bip143_segwit_ready c then Some c else None | None => None end in
  let cached (field : PrecomputedTransactionData -> uint256) (h : uint256) : uint256 := match ready with Some c => field c | None => h end in
  let hPrevouts := if negb anyone then cached hashPrevouts (SHA256Uint256 (GetPrevoutsSHA256 tx)) else zrep 32 0 in
  let hSequence :=
    if negb anyone && negb (base =? SIGHASH_SINGLE) && negb (base =? SIGHASH_NONE)
    then cached hashSequence (SHA256Uint256 (GetSequencesSHA256 tx)) else zrep 32 0 in
  let hOutputs :=
    if negb (base =? SIGHASH_SINGLE) && negb (base =? SIGHASH_NONE) then cached hashOutputs (SHA256Uint256 (GetOutputsSHA256 tx))
    else if (base =? SIGHASH_SINGLE) && (nIn <? zlen (vout tx)) then GetHash_of (ser_CTxOut (vout_at tx nIn))
    else zrep 32 0 in
  ser_writedata32 (version tx) ++ ser_blob hPrevouts ++ ser_blob hSequence ++ ser_COutPoint (prevout (vin_at tx nIn)) ++
  ser_bytes scriptCode ++ ser_int64 amount ++ ser_writedata32 (nSequence (vin_at tx nIn)) ++ ser_blob hOutputs ++
  ser_writedata32 (nLockTime tx) ++ ser_int32 nHashType.

(** [None] is the failed assertion *)
Definition SignatureHash (scriptCode : CScript) (tx : CTransaction) (nIn nHashType amount : Z) (sigversion : SigVersion)
  (cache : option PrecomputedTransactionData) : option uint256 :=
  if negb (nIn <? zlen (vin tx)) then None
  else if bool_decide (sigversion = WITNESS_V0) then Some (GetHash_of (segwit_preimage scriptCode tx nIn nHashType amount cache))
  else if fHashSingle nHashType && (nIn >=? zlen (vout tx)) then Some uint256_ONE
  else Some (GetHash_of (SignatureSerializer_Serialize tx scriptCode nIn nHashType ++ ser_int32 nHashType)).

(** ** SignatureHashSchnorr *)

Inductive MissingDataBehavior : Type := ASSERT_FAIL | FAIL.
(** [false], or an assertion *)
Definition HandleMissingData {A : Type} (mdb : MissingDataBehavior) : outcome A :=
  match mdb with ASSERT_FAIL => Abort | FAIL => Fail None end.

(** the bytes of "TapSighash", "TapLeaf" and "TapBranch" *)
Definition HASHER_TAPSIGHASH : HashWriter := TaggedHash [84; 97; 112; 83; 105; 103; 104; 97; 115; 104].
Definition HASHER_TAPLEAF : HashWriter := TaggedHash [84; 97; 112; 76; 101; 97; 102].
Definition HASHER_TAPBRANCH : HashWriter := TaggedHash [84; 97; 112; 66; 114; 97; 110; 99; 104].

Definition set_output_hash (d : ScriptExecutionData) (h : uint256) : ScriptExecutionData := {|
  m_tapleaf_hash_init := m_tapleaf_hash_init d; m_tapleaf_hash := m_tapleaf_hash d;
  m_codeseparator_pos_init := m_codeseparator_pos_init d; m_codeseparator_pos := m_codeseparator_pos d;
  m_annex_init := m_annex_init d; m_annex_present := m_annex_present d; m_annex_hash := m_annex_hash d;
  m_validation_weight_left_init := m_validation_weight_left_init d; m_validation_weight_left := m_validation_weight_left d;
  m_output_hash := Some h |}.

(** the execution data with the hash of the output, computed at most once; [false] when there is no such output *)
Definition single_output (tx : CTransaction) (in_pos : Z) (d : ScriptExecutionData) : outcome ScriptExecutionData :=
  if in_pos >=? zlen (vout tx) then Fail None
  else match m_output_hash d with
       | Some _ => Ok d
       | None => Ok (set_output_hash d (GetSHA256_of (ser_CTxOut (vout_at tx in_pos))))
       end.

(** the hash and the execution data *)
Definition SignatureHashSchnorr (execdata : ScriptExecutionData) (tx : CTransaction) (in_pos hash_type : Z) (sigversion : SigVersion)
  (cache : PrecomputedTransactionData) (mdb : MissingDataBehavior) : outcome (uint256 * ScriptExecutionData) :=
  ext_flag ← match sigversion with TAPROOT => Ok 0 | TAPSCRIPT => Ok 1 | _ => Abort end;
  let key_version := 0 in
  _ ← assert_true (in_pos <? zlen (vin tx));
  if negb (m_bip341_taproot_ready cache && m_spent_outputs_ready cache) then HandleMissingData mdb
  else
    let output_type := if hash_type =? SIGHASH_DEFAULT then SIGHASH_ALL else Z.land hash_type SIGHASH_OUTPUT_MASK in
    let input_type := Z.land hash_type SIGHASH_INPUT_MASK in
    if negb ((hash_type <=? 0x03) || ((hash_type >=? 0x81) && (hash_type <=? 0x83))) then Fail None
    else
      let anyone := input_type =? SIGHASH_ANYONECANPAY in
      _ ← assert_true (m_annex_init execdata);
      let have_annex := m_annex_present execdata in
      let spend_type := u8 (Z.shiftl ext_flag 1 + (if have_annex then 1 else 0)) in
      execdata ← (if output_type =? SIGHASH_SINGLE then single_output tx in_pos execdata else Ok execdata);
      tapscript ← (if bool_decide (sigversion = TAPSCRIPT) then
                     _ ← assert_true (m_tapleaf_hash_init execdata);
                     _ ← assert_true (m_codeseparator_pos_init execdata);
                     Ok (ser_blob (m_tapleaf_hash execdata) ++ ser_writedata8 key_version ++ ser_writedata32 (m_codeseparator_pos execdata))
                   else Ok []);
      let bytes :=
        ser_writedata8 0 ++ ser_writedata8 hash_type ++ ser_writedata32 (version tx) ++ ser_writedata32 (nLockTime tx) ++
        (if negb anyone then ser_blob (m_prevouts_single_hash cache) ++ ser_blob (m_spent_amounts_single_hash cache) ++
                             ser_blob (m_spent_scripts_single_hash cache) ++ ser_blob (m_sequences_single_hash cache) else []) ++
        (if output_type =? SIGHASH_ALL then ser_blob (m_outputs_single_hash cache) else []) ++
        ser_writedata8 spend_type ++
        (if anyone then ser_COutPoint (prevout (vin_at tx in_pos)) ++ ser_CTxOut (nth (Z.to_nat in_pos) (m_spent_outputs cache) CTxOut_SetNull) ++
                        ser_writedata32 (nSequence (vin_at tx in_pos))
         else ser_writedata32 in_pos) ++
        (if have_annex then ser_blob (m_annex_hash execdata) else []) ++
        (if output_type =? SIGHASH_SINGLE then ser_blob (default [] (m_output_hash execdata)) else []) ++
        tapscript in
      Ok (HashWriter_GetSHA256 (HashWriter_write HASHER_TAPSIGHASH bytes), execdata).

(** ** GenericTransactionSignatureChecker *)

(** the methods a checker may override; [None] when an assertion of the method fails *)
Class SignatureVerifier : Type := {
  VerifyECDSASignature (vchSig pubkey : list Z) (sighash : uint256) : option bool;
  VerifySchnorrSignature (sig pubkey : list Z) (sighash : uint256) : option bool;
}.
Class LawfulVerifier `{SignatureVerifier} : Prop := {
  verify_ecdsa_total sig pubkey sighash : is_Some (VerifyECDSASignature sig pubkey sighash);
  verify_schnorr_total sig pubkey sighash : zlen sig = 64 -> is_Some (VerifySchnorrSignature sig pubkey sighash);
}.

Definition curve_verifier `{Secp256k1} : SignatureVerifier := {|
  VerifyECDSASignature vchSig pubkey sighash := Some (PubKey_Verify pubkey sighash vchSig);
  VerifySchnorrSignature sig pubkey sighash := VerifySchnorr pubkey sighash sig;
|}.

Section checker.
Context `{Cpu} `{SignatureVerifier}.
Variables (txTo : CTransaction) (m_mdb : MissingDataBehavior) (nIn amount : Z) (txdata : option PrecomputedTransactionData).

Definition tx_CheckECDSASignature (vchSigIn vchPubKey : valtype) (scriptCode : CScript) (sigversion : SigVersion) : outcome bool :=
  let pubkey := CPubKey_Set vchPubKey in
  if negb (IsValid pubkey) then Ok false
  else if zlen vchSigIn =? 0 then Ok false
  else
    let nHashType := back vchSigIn in
    let vchSig := ztake (zlen vchSigIn - 1) vchSigIn in
    if bool_decide (sigversion = WITNESS_V0) && (amount <? 0) then
      match m_mdb with ASSERT_FAIL => Abort | FAIL => Ok false end
    else
      sighash ← assert_some (SignatureHash scriptCode txTo nIn nHashType amount sigversion txdata);
      assert_some (VerifyECDSASignature vchSig pubkey sighash).

Definition tx_CheckSchnorrSignature (sig pubkey_in : valtype) (sigversion : SigVersion) (execdata : ScriptExecutionData) : outcome ScriptExecutionData :=
  _ ← assert_true (bool_decide (sigversion = TAPROOT) || bool_decide (sigversion = TAPSCRIPT));
  _ ← assert_true (zlen pubkey_in =? 32);
  if negb (zlen sig =? 64) && negb (zlen sig =? 65) then set_error SCRIPT_ERR_SCHNORR_SIG_SIZE
  else
    let hashtype := if zlen sig =? 65 then back sig else SIGHASH_DEFAULT in
    if (zlen sig =? 65) && (hashtype =? SIGHASH_DEFAULT) then set_error SCRIPT_ERR_SCHNORR_SIG_HASHTYPE
    else
      let sig := ztake 64 sig in
      match txdata with
      | None => HandleMissingData m_mdb
      | Some txdata =>
          match SignatureHashSchnorr execdata txTo nIn hashtype sigversion txdata m_mdb with
          | Ok (sighash, execdata) =>
              verified ← assert_some (VerifySchnorrSignature sig pubkey_in sighash);
              if negb verified then set_error SCRIPT_ERR_SCHNORR_SIG else Ok execdata
          | Fail _ => set_error SCRIPT_ERR_SCHNORR_SIG_HASHTYPE
          | Throw => Throw
          | Abort => Abort
          end
      end.

(** [txTo->vin[nIn]] is read without a check *)
Definition tx_CheckLockTime (nLockTime' : Z) : outcome bool :=
  let lock := nLockTime txTo in
  if negb (((lock <? LOCKTIME_THRESHOLD) && (nLockTime' <? LOCKTIME_THRESHOLD)) || ((lock >=? LOCKTIME_THRESHOLD) && (nLockTime' >=? LOCKTIME_THRESHOLD)))
  then Ok false
  else if nLockTime' >? lock then Ok false
  else
    txin ← assert_some (vin txTo !! Z.to_nat nIn);
    if SEQUENCE_FINAL =? nSequence txin then Ok false else Ok true.

Definition tx_CheckSequence (nSequence' : Z) : outcome bool :=
  txin ← assert_some (vin txTo !! Z.to_nat nIn);
  let txToSequence := nSequence txin in
  if version txTo <? 2 then Ok false
  else if negb (Z.land txToSequence SEQUENCE_LOCKTIME_DISABLE_FLAG =? 0) then Ok false
  else
    let nLockTimeMask := Z.lor SEQUENCE_LOCKTIME_TYPE_FLAG SEQUENCE_LOCKTIME_MASK in
    let txToSequenceMasked := Z.land txToSequence nLockTimeMask in
    let nSequenceMasked := Z.land nSequence' nLockTimeMask in
    if negb (((txToSequenceMasked <? SEQUENCE_LOCKTIME_TYPE_FLAG) && (nSequenceMasked <? SEQUENCE_LOCKTIME_TYPE_FLAG)) ||
             ((txToSequenceMasked >=? SEQUENCE_LOCKTIME_TYPE_FLAG) && (nSequenceMasked >=? SEQUENCE_LOCKTIME_TYPE_FLAG)))
    then Ok false
    else if nSequenceMasked >? txToSequenceMasked then Ok false
    else Ok true.

Definition TransactionSignatureChecker : BaseSignatureChecker := {|
  CheckECDSASignature := tx_CheckECDSASignature;
  CheckSchnorrSignature := tx_CheckSchnorrSignature;
  CheckLockTime := tx_CheckLockTime;
  CheckSequence := tx_CheckSequence;
|}.

End checker.

(** ** The signature hash before it was done in place

    [SignatureHashOld] of src/test/sighash_tests.cpp: the transaction is copied, changed
    and serialized. *)

Definition with_scriptSig (s : CScript) (i : CTxIn) : CTxIn :=
  {| prevout := prevout i; scriptSig := s; nSequence := nSequence i; scriptWitness := scriptWitness i |}.
Definition with_nSequence (n : Z) (i : CTxIn) : CTxIn :=
  {| prevout := prevout i; scriptSig := scriptSig i; nSequence := n; scriptWitness := scriptWitness i |}.
(** [for (i < vin.size()) if (i != nIn) vin[i].nSequence = 0] *)
Definition blank_sequences (nIn : nat) (ins : list CTxIn) : list CTxIn :=
  imap (fun i x => if (i =? nIn)%nat then x else with_nSequence 0 x) ins.

Definition SignatureHashOld (scriptCode : CScript) (tx : CTransaction) (nIn nHashType : Z) : uint256 :=
  if nIn >=? zlen (vin tx) then uint256_ONE
  else
    let scriptCode := (FindAndDelete scriptCode [OP_CODESEPARATOR]).1 in
    let ins := alter (with_scriptSig scriptCode) (Z.to_nat nIn) (map (with_scriptSig []) (vin tx)) in
    if (Z.land nHashType 0x1f =? SIGHASH_SINGLE) && (nIn >=? zlen (vout tx)) then uint256_ONE
    else
      let '(ins, outs) :=
        if Z.land nHashType 0x1f =? SIGHASH_NONE then (blank_sequences (Z.to_nat nIn) ins, [])
        else if Z.land nHashType 0x1f =? SIGHASH_SINGLE then
          (blank_sequences (Z.to_nat nIn) ins, imap (fun i o => if (i <? Z.to_nat nIn)%nat then CTxOut_SetNull else o) (take (Z.to_nat (nIn + 1)) (vout tx)))
        else (ins, vout tx) in
      let ins := if negb (Z.land nHashType SIGHASH_ANYONECANPAY =? 0) then [nth (Z.to_nat nIn) ins null_txin] else ins in
      GetHash_of (SerializeTransaction false {| version := version tx; vin := ins; vout := outs; nLockTime := nLockTime tx |} ++ ser_int32 nHashType).

(** a script that is read to its last byte: its operations can all be decoded, or the one that cannot ends before its data *)
Inductive Decodes : CScript -> Prop :=
  | Decodes_stop pc : GetScriptOp pc = None -> GetScriptOp_stop pc = [] -> Decodes pc
  | Decodes_op pc opcode data rest : GetScriptOp pc = Some (opcode, data, rest) -> Decodes rest -> Decodes pc.

Lemma GetScriptOp_head pc op data rest : GetScriptOp pc = Some (op, data, rest) ->
  exists t, pc = op :: t /\ (op = OP_CODESEPARATOR -> rest = t).
Proof.
  unfold GetScriptOp. destruct pc as [|opc pc]; [done|]. destruct (Z.leb_spec opc OP_PUSHDATA4); [|intros [= <- <- <-]; eauto].
  intros H'. apply bind_Some in H' as ([n pc1] & _ & H'). case_match; [done|]. injection H' as <- <- <-. exists pc. split; [done|]. lia.
Qed.

Lemma codeseparators_spec it : Decodes it -> forall fuel r m, (length it < fuel)%nat -> Deletes [OP_CODESEPARATOR] it r m ->
  (forall n, count_codeseparators fuel it n = n + m) /\ (forall pre out, write_segments fuel (pre ++ it) it out = out ++ pre ++ r).
Proof.
  induction 1 as [pc Hnone Hstop|pc opcode data rest Hop Hdec IH]; intros fuel r m Hf Hd; destruct fuel as [|fuel]; try lia;
    apply Deletes_inv in Hd as [(rest' & m' & E & -> & Hd)|[(op' & opcode' & data' & rest' & r2 & E & -> & Hp & Hop' & Hd)|(-> & -> & Hp & Hend)]];
    try discriminate; try congruence.
  - subst pc. discriminate Hnone.
  - cbn [count_codeseparators write_segments]. rewrite Hnone, Hstop. split; [intros n; lia|]. intros pre out.
    destruct (Z.eqb_spec (zlen (pre ++ pc)) 0) as [E|_]; [apply zlen_nil_inv in E as ->; rewrite app_nil_r; done|].
    rewrite ztake_all by (cbn; lia). done.
  - destruct (GetScriptOp_head _ _ _ _ Hop) as (t & -> & Ht). injection E as -> E. specialize (Ht eq_refl) as <-. subst rest'. cbn [length] in Hf.
    destruct (IH fuel r m' ltac:(lia) Hd) as [Hc Hw]. cbn [count_codeseparators write_segments]. rewrite Hop. split.
    + intros n. rewrite Z.eqb_refl, Hc. lia.
    + intros pre out. rewrite Z.eqb_refl. rewrite (Hw []). cbn [app]. rewrite ztake_app; [rewrite <- app_assoc; done|].
      rewrite zlen_app. cbn [length]. lia.
  - rewrite Hop in Hop'. injection Hop' as <- <- <-. destruct (GetScriptOp_head _ _ _ _ Hop) as (t & Et & _).
    assert (Hne : (opcode =? OP_CODESEPARATOR) = false).
    { apply Z.eqb_neq. intros ->. apply Hp. rewrite Et. exists t. done. }
    destruct (GetScriptOp_suffix _ _ _ _ Hop) as (op2 & E2 & Hne2). rewrite E in E2. apply app_inv_tail in E2 as <-.
    assert (0 < length op')%nat by (destruct op'; [done|cbn; lia]). rewrite E, length_app in Hf.
    destruct (IH fuel r2 m ltac:(lia) Hd) as [Hc Hw]. cbn [count_codeseparators write_segments]. rewrite Hop, Hne. split; [exact Hc|].
    intros pre out. rewrite E, app_assoc, (Hw (pre ++ op')), <- app_assoc. done.
Qed.

(** The script code in the hash is the script without its code separators. *)
Lemma SerializeScriptCode_spec script : Decodes script -> SerializeScriptCode script = ser_bytes (FindAndDelete script [OP_CODESEPARATOR]).1.
Proof.
  intros Hdec. pose proof (FindAndDelete_Deletes script [OP_CODESEPARATOR] ltac:(done)) as Hd.
  destruct (Deletes_count _ _ _ _ Hd) as (_ & Hl & _). destruct (codeseparators_spec script Hdec (S (length script)) _ _ ltac:(lia) Hd) as [Hc Hw].
  unfold SerializeScriptCode, ser_bytes. rewrite Hc. specialize (Hw [] []). cbn [app] in Hw. rewrite Hw. do 2 f_equal. cbn [length] in Hl. lia.
Qed.

Lemma flat_map_index {A : Type} (g : A -> list Z) (h : nat -> list Z) (l : list A) : (forall i x, l !! i = Some x -> g x = h i) ->
  flat_map g l = flat_map h (seq 0 (length l)).
Proof.
  assert (Hk : forall k, (forall i x, l !! i = Some x -> g x = h (k + i)%nat) -> flat_map g l = flat_map h (seq k (length l))).
  { induction l as [|x l IH]; intros k Hl; [done|]. cbn [flat_map length seq]. f_equal; [rewrite (Hl 0%nat x eq_refl), Nat.add_0_r; done|].
    apply IH. intros i y Hy. rewrite (Hl (S i) y Hy). f_equal. lia. }
  intros Hl. apply (Hk 0%nat). exact Hl.
Qed.

(** the inputs of the changed copy, before other inputs are dropped *)
Definition old_inputs (code : CScript) (tx : CTransaction) (nIn nHashType : Z) : list CTxIn :=
  let ins := alter (with_scriptSig code) (Z.to_nat nIn) (map (with_scriptSig []) (vin tx)) in
  if fHashNone nHashType || fHashSingle nHashType then blank_sequences (Z.to_nat nIn) ins else ins.

Lemma old_inputs_lookup code tx nIn nHashType i : old_inputs code tx nIn nHashType !! i =
  (fun y => with_nSequence (if (fHashNone nHashType || fHashSingle nHashType) && negb (i =? Z.to_nat nIn)%nat then 0 else nSequence y)
              (with_scriptSig (if (i =? Z.to_nat nIn)%nat then code else []) y)) <$> vin tx !! i.
Proof.
  assert (Hins : alter (with_scriptSig code) (Z.to_nat nIn) (map (with_scriptSig []) (vin tx)) !! i =
    with_scriptSig (if (i =? Z.to_nat nIn)%nat then code else []) <$> vin tx !! i).
  { destruct (Nat.eqb_spec i (Z.to_nat nIn)) as [->|Hne].
    - rewrite list_lookup_alter_eq. change (map (with_scriptSig []) (vin tx)) with (with_scriptSig [] <$> vin tx).
      rewrite list_lookup_fmap. destruct (vin tx !! Z.to_nat nIn); done.
    - rewrite list_lookup_alter_ne by done. change (map (with_scriptSig []) (vin tx)) with (with_scriptSig [] <$> vin tx). apply list_lookup_fmap. }
  unfold old_inputs. destruct (fHashNone nHashType || fHashSingle nHashType).
  - unfold blank_sequences. rewrite list_lookup_imap, Hins. destruct (vin tx !! i) as [y|]; [|done]. cbn. destruct (i =? Z.to_nat nIn)%nat; done.
  - rewrite Hins. destruct (vin tx !! i) as [y|]; [|done]. cbn. destruct (i =? Z.to_nat nIn)%nat; done.
Qed.

Lemma old_input_bytes script tx nIn nHashType i y : Decodes script -> 0 <= nIn -> vin tx !! i = Some y ->
  (fAnyoneCanPay nHashType = true -> i = Z.to_nat nIn) ->
  forall k, (fAnyoneCanPay nHashType = false -> k = i) ->
  (forall x, old_inputs (FindAndDelete script [OP_CODESEPARATOR]).1 tx nIn nHashType !! i = Some x ->
   ser_CTxIn x = SerializeInput tx script nIn nHashType (Z.of_nat k)).
Proof.
  intros Hdec HnIn Hy Hany k Hk x Hx. rewrite old_inputs_lookup, Hy in Hx. injection Hx as <-. unfold SerializeInput.
  assert (Hpos : (if fAnyoneCanPay nHashType then nIn else Z.of_nat k) = Z.of_nat i).
  { destruct (fAnyoneCanPay nHashType); [rewrite Hany by done; lia|rewrite Hk by done; done]. }
  rewrite Hpos. assert (Hat : vin_at tx (Z.of_nat i) = y) by (unfold vin_at; rewrite Nat2Z.id, nth_lookup, Hy; done).
  rewrite Hat. assert (Heq : (Z.of_nat i =? nIn) = (i =? Z.to_nat nIn)%nat) by (destruct (Z.eqb_spec (Z.of_nat i) nIn), (Nat.eqb_spec i (Z.to_nat nIn)); lia).
  rewrite Heq, SerializeScriptCode_spec by exact Hdec. unfold ser_CTxIn. cbn [prevout scriptSig nSequence with_nSequence with_scriptSig].
  rewrite (orb_comm (fHashNone nHashType)), (andb_comm (fHashSingle nHashType || _)).
  destruct (i =? Z.to_nat nIn)%nat; cbn [negb andb]; [done|]. destruct (fHashSingle nHashType || fHashNone nHashType); done.
Qed.

Lemma old_outputs_bytes tx nIn nHashType : 0 <= nIn -> fHashSingle nHashType = true -> nIn < zlen (vout tx) ->
  let outs := imap (fun i o => if (i <? Z.to_nat nIn)%nat then CTxOut_SetNull else o) (take (Z.to_nat (nIn + 1)) (vout tx)) in
  zlen outs = nIn + 1 /\ flat_map ser_CTxOut outs = flat_map (fun i => SerializeOutput tx nIn nHashType (Z.of_nat i)) (seq 0 (Z.to_nat (nIn + 1))).
Proof.
  intros HnIn Hs Hl outs. assert (Hlen : length outs = Z.to_nat (nIn + 1)) by (unfold outs; rewrite length_imap, length_take; lia).
  split; [rewrite Hlen; lia|]. rewrite <- Hlen. apply flat_map_index. intros i x Hx. pose proof Hx as Hi. apply lookup_lt_Some in Hi. rewrite Hlen in Hi.
  unfold outs in Hx. rewrite list_lookup_imap, lookup_take_lt in Hx by lia.
  destruct (vout tx !! i) as [o|] eqn:Eo; [|done]. injection Hx as <-. unfold SerializeOutput. rewrite Hs. cbn [andb].
  destruct (Nat.ltb_spec i (Z.to_nat nIn)), (Z.eqb_spec (Z.of_nat i) nIn); cbn [negb]; try lia; [done|].
  unfold vout_at. rewrite Nat2Z.id, nth_lookup, Eo. done.
Qed.

Lemma all_outputs_bytes tx nIn nHashType : fHashSingle nHashType = false ->
  flat_map ser_CTxOut (vout tx) = flat_map (fun i => SerializeOutput tx nIn nHashType (Z.of_nat i)) (seq 0 (length (vout tx))).
Proof.
  intros Hs. apply flat_map_index. intros i x Hx. unfold SerializeOutput, vout_at. rewrite Hs, Nat2Z.id, nth_lookup, Hx. done.
Qed.

Definition old_outputs (tx : CTransaction) (nIn nHashType : Z) : list CTxOut :=
  if fHashNone nHashType then []
  else if fHashSingle nHashType then imap (fun i o => if (i <? Z.to_nat nIn)%nat then CTxOut_SetNull else o) (take (Z.to_nat (nIn + 1)) (vout tx))
  else vout tx.

(** the outputs of both, with their number *)
Lemma outputs_bytes tx nIn nHashType : 0 <= nIn -> zlen (vout tx) < 2 ^ 32 -> nIn + 1 < 2 ^ 32 ->
  fHashSingle nHashType && (nIn >=? zlen (vout tx)) = false ->
  let nOutputs := if fHashNone nHashType then 0 else if fHashSingle nHashType then u32 (nIn + 1) else u32 (zlen (vout tx)) in
  ser_vector ser_CTxOut (old_outputs tx nIn nHashType) =
  WriteCompactSize nOutputs ++ flat_map (fun i => SerializeOutput tx nIn nHashType (Z.of_nat i)) (seq 0 (Z.to_nat nOutputs)).
Proof.
  intros HnIn Hvout Hlt Hone nOutputs. unfold old_outputs, nOutputs, ser_vector. destruct (fHashNone nHashType); [done|].
  destruct (fHashSingle nHashType) eqn:Es; cbn [andb] in Hone.
  - rewrite wrap_small by (unfold fits; lia). rewrite Z.geb_leb in Hone. apply Z.leb_gt in Hone.
    destruct (old_outputs_bytes tx nIn nHashType HnIn Es Hone) as [-> ->]. done.
  - rewrite wrap_small by (unfold fits; lia). rewrite Nat2Z.id, <- all_outputs_bytes by exact Es. done.
Qed.

Lemma inputs_bytes script tx nIn nHashType : Decodes script -> 0 <= nIn < zlen (vin tx) -> zlen (vin tx) < 2 ^ 32 ->
  let ins := old_inputs (FindAndDelete script [OP_CODESEPARATOR]).1 tx nIn nHashType in
  let nInputs := if fAnyoneCanPay nHashType then 1 else u32 (zlen (vin tx)) in
  ser_vector ser_CTxIn (if fAnyoneCanPay nHashType then [nth (Z.to_nat nIn) ins null_txin] else ins) =
  WriteCompactSize nInputs ++ flat_map (fun i => SerializeInput tx script nIn nHashType (Z.of_nat i)) (seq 0 (Z.to_nat nInputs)).
Proof.
  intros Hdec HnIn Hvin ins nInputs. unfold ser_vector, nInputs.
  assert (Hlen : length ins = length (vin tx)).
  { unfold ins, old_inputs, blank_sequences. destruct (_ || _); rewrite ?length_imap, length_alter, length_map; done. }
  destruct (fAnyoneCanPay nHashType) eqn:Eany.
  - cbn [length flat_map]. change (Z.of_nat 1) with 1. f_equal. change (seq 0 (Z.to_nat 1)) with [0%nat]. cbn [flat_map]. rewrite !app_nil_r.
    destruct (lookup_lt_is_Some_2 (vin tx) (Z.to_nat nIn) ltac:(lia)) as [y Hy].
    destruct (lookup_lt_is_Some_2 ins (Z.to_nat nIn) ltac:(lia)) as [x Hx].
    assert (Hn : nth (Z.to_nat nIn) ins null_txin = x) by (rewrite nth_lookup, Hx; done). rewrite Hn.
    apply (old_input_bytes script tx nIn nHashType (Z.to_nat nIn) y); [exact Hdec|lia|exact Hy|done|congruence|exact Hx].
  - rewrite Hlen, wrap_small, Nat2Z.id by (unfold fits; lia). f_equal. rewrite <- Hlen. apply flat_map_index. intros i x Hx.
    destruct (vin tx !! i) as [y|] eqn:Hy; [|unfold ins in Hx; rewrite old_inputs_lookup, Hy in Hx; done].
    apply (old_input_bytes script tx nIn nHashType i y); [exact Hdec|lia|exact Hy|congruence|done|exact Hx].
Qed.

(** ** Data computed once *)

Lemma uses_schemes_kept ins ready : forall spent uses, (uses.1 = true -> (uses_schemes ins ready spent uses).1 = true) /\
  (uses.2 = true -> (uses_schemes ins ready spent uses).2 = true).
Proof.
  induction ins as [|i ins IH]; intros spent [a b]; [done|]. cbn [uses_schemes fst snd]. destruct (a && b) eqn:E; [done|].
  destruct (negb _); [|apply (IH _ (a, b))]. destruct (ready && _ && _).
  - destruct (IH (drop 1 spent) (a, true)) as [H1 H2]. split; [exact H1|intros _; apply H2; done].
  - destruct (IH (drop 1 spent) (true, b)) as [H1 H2]. split; [intros _; apply H1; done|exact H2].
Qed.

(** an input with a witness that spends an output of taproot's form is found *)
Lemma uses_taproot ins n i o : forall spent uses, ins !! n = Some i -> spent !! n = Some o -> scriptWitness i <> [] ->
  IsPayToTaproot (scriptPubKey o) = true -> (uses_schemes ins true spent uses).2 = true.
Proof.
  revert ins. induction n as [|n IH]; intros [|j ins] [|p spent] [a b] Hi Ho Hw Ht; try discriminate; cbn [uses_schemes fst snd];
    (destruct (a && b) eqn:E; [apply andb_true_iff in E as [_ E]; exact E|]).
  - injection Hi as ->. injection Ho as ->. destruct (scriptWitness i); [done|]. cbn [CScriptWitness_IsNull negb nth].
    unfold IsPayToTaproot in Ht. apply andb_true_iff in Ht as [Ht _]. apply andb_true_iff in Ht as [Hl H1]. change (2 + WITNESS_V1_TAPROOT_SIZE) with 34.
    rewrite Hl, H1. cbn [andb]. apply uses_schemes_kept. done.
  - cbn [drop]. rewrite drop_0. eapply IH; eassumption.
Qed.

(** what the object holds *)
Lemma Init_ready tx spent force : zlen spent = zlen (vin tx) -> exists c, PrecomputedTransactionData_Init tx spent force = Some c /\ m_spent_outputs c = spent.
Proof.
  intros Hl. unfold PrecomputedTransactionData_Init. rewrite Hl, Z.eqb_refl, andb_false_r.
  destruct (uses_schemes _ _ _ _) as [a b]. eexists. split; reflexivity.
Qed.

Lemma Init_spec tx spent force c : PrecomputedTransactionData_Init tx spent force = Some c ->
  (m_bip143_segwit_ready c = true -> hashPrevouts c = SHA256Uint256 (GetPrevoutsSHA256 tx) /\ hashSequence c = SHA256Uint256 (GetSequencesSHA256 tx) /\
     hashOutputs c = SHA256Uint256 (GetOutputsSHA256 tx)) /\
  (m_bip341_taproot_ready c = true -> m_prevouts_single_hash c = GetPrevoutsSHA256 tx /\ m_sequences_single_hash c = GetSequencesSHA256 tx /\
     m_outputs_single_hash c = GetOutputsSHA256 tx /\ m_spent_amounts_single_hash c = GetSpentAmountsSHA256 spent /\
     m_spent_scripts_single_hash c = GetSpentScriptsSHA256 spent /\ m_spent_outputs c = spent) /\
  (forall n i o, vin tx !! n = Some i -> spent !! n = Some o -> scriptWitness i <> [] -> IsPayToTaproot (scriptPubKey o) = true ->
     m_bip341_taproot_ready c = true /\ m_spent_outputs_ready c = true).
Proof.
  unfold PrecomputedTransactionData_Init. destruct (_ && _); [done|].
  destruct (uses_schemes (vin tx) (negb (zlen spent =? 0)) spent (force, force)) as [a b] eqn:E. intros [= <-].
  cbn [m_bip143_segwit_ready hashPrevouts hashSequence hashOutputs m_bip341_taproot_ready m_prevouts_single_hash m_sequences_single_hash
    m_outputs_single_hash m_spent_amounts_single_hash m_spent_scripts_single_hash m_spent_outputs m_spent_outputs_ready]. split_and!.
  - intros ->. done.
  - intros Hr. rewrite Hr. apply andb_true_iff in Hr as [-> _]. rewrite orb_true_r. done.
  - intros n i o Hi Ho Hw Ht. assert (Hready : negb (zlen spent =? 0) = true) by (destruct spent; [discriminate|done]). rewrite Hready in *.
    pose proof (uses_taproot (vin tx) n i o spent (force, force) Hi Ho Hw Ht) as Hu. rewrite E in Hu. cbn in Hu. rewrite Hu. done.
Qed.

(** ** The checker of a transaction aborts only when data is missing *)

#[export] Instance curve_verifier_lawful `{Secp256k1} : @LawfulVerifier curve_verifier.
Proof. split; [intros sig key h; cbn; eauto|]. intros sig key h Hl. cbn. unfold VerifySchnorr. rewrite Hl. eauto. Qed.

Section lawful.
Context `{Cpu} `{LawfulVerifier}.
Variables (txTo : CTransaction) (m_mdb : MissingDataBehavior) (nIn amount : Z) (txdata : option PrecomputedTransactionData).
Hypothesis input_exists : 0 <= nIn < zlen (vin txTo).

Lemma input_read : exists i, vin txTo !! Z.to_nat nIn = Some i.
Proof. apply lookup_lt_is_Some_2. lia. Qed.

Lemma checker_lawful : m_mdb = FAIL \/ 0 <= amount -> @LawfulSignatureChecker (TransactionSignatureChecker txTo m_mdb nIn amount txdata).
Proof using H H0 H1 input_exists.
  intros Hmdb. destruct input_read as [i Hi]. split.
  - intros sig key code v Hv. cbn [CheckECDSASignature TransactionSignatureChecker]. unfold tx_CheckECDSASignature.
    repeat match goal with |- safe _ (if ?b then _ else _) => destruct b eqn:? end; try exact I.
    + destruct Hmdb as [? | Ha]; [discriminate|]. bool_to_prop. lia.
    + unfold SignatureHash. rewrite (proj2 (Z.ltb_lt _ _)) by lia. cbn [negb].
      assert (Hv' : forall h, safe (fun _ => True) (assert_some (VerifyECDSASignature (ztake (zlen sig - 1) sig) (CPubKey_Set key) h)))
        by (intros h; destruct (verify_ecdsa_total (ztake (zlen sig - 1) sig) (CPubKey_Set key) h) as [b ->]; exact I).
      repeat case_match; apply Hv'.
  - intros n. cbn [CheckLockTime TransactionSignatureChecker]. unfold tx_CheckLockTime. rewrite Hi. cbn [assert_some mbind outcome_bind]. repeat safe_step; exact I.
  - intros n. cbn [CheckSequence TransactionSignatureChecker]. unfold tx_CheckSequence. rewrite Hi. cbn [assert_some mbind outcome_bind]. repeat safe_step; exact I.
Qed.

Lemma schnorr_hash_safe d t c v : pre_tapscript v = false -> execdata_ready v d ->
  m_mdb = FAIL \/ (m_bip341_taproot_ready c = true /\ m_spent_outputs_ready c = true) ->
  safe (fun r => execdata_ready v r.2) (SignatureHashSchnorr d txTo nIn t v c m_mdb).
Proof.
  intros Hv [Ha Hd] Hc. unfold SignatureHashSchnorr. rewrite (proj2 (Z.ltb_lt _ _)) by lia.
  eapply (safe_bind (fun _ => True)); [destruct v; done|]. intros ext _. cbn [assert_true mbind outcome_bind].
  destruct (negb (_ && _)) eqn:Eready.
  { destruct Hc as [-> | [Hr Ho]]; [exact I|]. rewrite Hr, Ho in Eready. done. }
  clear Eready. destruct (negb _); [exact I|]. rewrite Ha. cbn [assert_true mbind outcome_bind].
  eapply (safe_bind (execdata_ready v)).
  - safe_step; [|exact (conj Ha Hd)]. unfold single_output. repeat safe_step; first [exact I|split; [exact Ha|exact Hd]].
  - intros d' [Ha' Hd']. eapply (safe_bind (fun _ => True)); [|intros ? _; split; done].
    destruct (bool_decide_reflect (v = TAPSCRIPT)) as [E|E]; [|exact I]. destruct (Hd' E) as (-> & -> & _). exact I.
Qed.

Lemma bind_quiet {A B : Type} (m : outcome A) (f : A -> outcome B) : m <> Throw -> (forall a, f a <> Throw) -> (m ≫= f) <> Throw.
Proof. destruct m; cbn; auto. Qed.

Lemma schnorr_hash_quiet d t v c : SignatureHashSchnorr d txTo nIn t v c m_mdb <> Throw.
Proof.
  unfold SignatureHashSchnorr, single_output, HandleMissingData. cbv zeta.
  repeat first [apply bind_quiet; [|intros ?] | match goal with |- (match ?x with _ => _ end) <> _ => destruct x end | discriminate | unfold assert_true].
Qed.

(** with the data of the spent outputs, the checker also says what is wrong *)
Lemma checker_schnorr_reports c : txdata = Some c -> m_bip341_taproot_ready c = true -> m_spent_outputs_ready c = true ->
  @schnorr_reports (TransactionSignatureChecker txTo m_mdb nIn amount txdata).
Proof.
  intros -> Hr Ho sig key v d Hv Hk Hd. cbn [CheckSchnorrSignature TransactionSignatureChecker]. unfold tx_CheckSchnorrSignature.
  rewrite Hk. replace (bool_decide (v = TAPROOT) || bool_decide (v = TAPSCRIPT)) with true by (destruct v; done).
  cbn [assert_true mbind outcome_bind Z.eqb Pos.eqb]. destruct (negb _ && negb _) eqn:Esize; [exact I|]. destruct ((zlen sig =? 65) && _); [exact I|].
  pose proof (schnorr_hash_safe d (if zlen sig =? 65 then back sig else SIGHASH_DEFAULT) c v Hv Hd (or_intror (conj Hr Ho))) as Hs.
  destruct (SignatureHashSchnorr _ _ _ _ _ _ _) as [[h d']|e| |] eqn:Eh; [|exact I|destruct (schnorr_hash_quiet _ _ _ _ Eh)|destruct Hs].
  destruct (verify_schnorr_total (ztake 64 sig) key h) as [b ->].
  { rewrite zlen_ztake by (apply andb_false_iff in Esize as [E|E]; bool_to_prop; lia). done. }
  cbn [assert_some mbind outcome_bind]. destruct b; [exact Hs|exact I].
Qed.
End lawful.

(** ** Properties *)

(** C23: Hashing in place gives the hash of the changed copy: before segregated witness, and for a script code that the decoder reads to its last
    byte (every operation can be decoded, or the one that cannot ends before its data), [SignatureHash] is the old implementation that copies the transaction, removes the code separators, blanks the scripts, outputs and sequence numbers the hash type
    leaves open, and serializes the copy; this holds for every hash type, every input of the transaction and any precomputed data, the out of range
    SIGHASH_SINGLE included.  (Of a script code that is not read to its end the code hashes only the bytes read, with the size of the whole.) *)
Theorem sighash_in_place (script : CScript) (tx : CTransaction) (nIn nHashType amount : Z) (cache : option PrecomputedTransactionData) :
  Decodes script -> 0 <= nIn < zlen (vin tx) -> zlen (vin tx) < 2 ^ 32 -> zlen (vout tx) < 2 ^ 32 ->
  SignatureHash script tx nIn nHashType amount BASE cache = Some (SignatureHashOld script tx nIn nHashType).
Proof.
  intros Hdec HnIn Hvin Hvout. unfold SignatureHash, SignatureHashOld. rewrite (proj2 (Z.ltb_lt _ _)) by lia. cbn [negb].
  rewrite bool_decide_eq_false_2 by done. fold (fHashSingle nHashType) (fHashNone nHashType) (fAnyoneCanPay nHashType).
  assert (E : (nIn >=? zlen (vin tx)) = false) by (rewrite Z.geb_leb; apply Z.leb_gt; lia). rewrite E.
  destruct (fHashSingle nHashType && (nIn >=? zlen (vout tx))) eqn:Eone; [done|].
  pose proof (inputs_bytes script tx nIn nHashType Hdec HnIn Hvin) as Hins. cbv zeta in Hins.
  pose proof (outputs_bytes tx nIn nHashType ltac:(lia) Hvout ltac:(lia) Eone) as Houts. cbv zeta in Houts.
  unfold old_inputs in Hins. unfold old_outputs in Houts. unfold SignatureSerializer_Serialize, SerializeTransaction.
  destruct (fHashNone nHashType), (fHashSingle nHashType); cbn [orb andb negb version vin vout nLockTime app] in *;
    rewrite Hins, Houts; cbn [app]; rewrite <- !app_assoc; done.
Qed.

(** C24: The data computed once for a transaction is what it would be computed to each time: with any object [Init] builds, from any spent
    outputs, [SignatureHash] returns the same hash as without, in every version; and when the taproot fields are ready they are the hashes of
    the transaction's prevouts, sequence numbers and outputs and of the amounts and scripts it spends. *)
Theorem sighash_cache (scriptCode : CScript) (tx : CTransaction) (nIn nHashType amount : Z) (v : SigVersion) (spent : list CTxOut) (force : bool)
  (c : PrecomputedTransactionData) : PrecomputedTransactionData_Init tx spent force = Some c ->
  SignatureHash scriptCode tx nIn nHashType amount v (Some c) = SignatureHash scriptCode tx nIn nHashType amount v None /\
  (m_bip341_taproot_ready c = true -> m_prevouts_single_hash c = GetPrevoutsSHA256 tx /\ m_sequences_single_hash c = GetSequencesSHA256 tx /\
     m_outputs_single_hash c = GetOutputsSHA256 tx /\ m_spent_amounts_single_hash c = GetSpentAmountsSHA256 spent /\
     m_spent_scripts_single_hash c = GetSpentScriptsSHA256 spent /\ m_spent_outputs c = spent).
Proof.
  intros Hinit. destruct (Init_spec _ _ _ _ Hinit) as (Hseg & Htap & _). split; [|exact Htap].
  unfold SignatureHash, segwit_preimage. destruct (m_bip143_segwit_ready c); [|done]. destruct (Hseg eq_refl) as (-> & -> & ->). done.
Qed.

(** ** The properties at concrete inputs *)

Definition example_txout : CTxOut := {| nValue := 7; scriptPubKey := [OP_1] |}.
Definition example_tx : CTransaction := {| version := 2; vin := [null_txin; null_txin]; vout := [example_txout; example_txout]; nLockTime := 0 |}.

Lemma sighash_in_place_witness :
  SignatureHash [OP_DUP; OP_CODESEPARATOR; OP_CHECKSIG] example_tx 1 (SIGHASH_SINGLE + SIGHASH_ANYONECANPAY) 0 BASE None =
  Some (SignatureHashOld [OP_DUP; OP_CODESEPARATOR; OP_CHECKSIG] example_tx 1 (SIGHASH_SINGLE + SIGHASH_ANYONECANPAY)).
Proof.
  apply (sighash_in_place [OP_DUP; OP_CODESEPARATOR; OP_CHECKSIG] example_tx 1 (SIGHASH_SINGLE + SIGHASH_ANYONECANPAY) 0 None);
    [|vm_compute; split; congruence|reflexivity|reflexivity].
  repeat (eapply Decodes_op; [reflexivity|]). constructor; reflexivity.
Defined.

Lemma sighash_cache_witness : exists c, PrecomputedTransactionData_Init example_tx [] true = Some c /\
  SignatureHash [OP_CHECKSIG] example_tx 0 SIGHASH_ALL 7 WITNESS_V0 (Some c) = SignatureHash [OP_CHECKSIG] example_tx 0 SIGHASH_ALL 7 WITNESS_V0 None.
Proof.
  eexists. split; [reflexivity|]. apply (sighash_cache [OP_CHECKSIG] example_tx 0 SIGHASH_ALL 7 WITNESS_V0 [] true). reflexivity.
Defined.
