(* ===== verification/VerifyScript.v ===== *)
(** * Script verification

    src/script/interpreter.cpp from [ExecuteWitnessScript] to [VerifyScript]: the
    scripts of an input and of the output it spends, pay-to-script-hash, witness
    programs of version 0, taproot's key and script paths with its Merkle
    commitment, and the rules on what may be left on the stack.

    A witness is a list from the bottom of the stack up, as it is serialized; the
    interpreter's stacks have their top in front.  [Fail None] is a [false] with the
    error of the last script that succeeded, which is none. *)

From Stdlib Require Import ZArith Lia Bool.
From stdpp Require Import base option list decidable.
From S2P Require Import Prelude Uint256 Sha256 Sha256Proofs Hashes Serialize PubKey Primitives Opcodes Script ScriptFlags Interpreter InterpreterProofs SigHash.
Local Open Scope Z_scope.
Local Open Scope adonai_scope.

(** ** Taproot commitments *)

Definition ComputeTapleafHash (leaf_version : Z) (script : list Z) : uint256 :=
  HashWriter_GetSHA256 (HashWriter_write HASHER_TAPLEAF (ser_writedata8 leaf_version ++ WriteCompactSize (zlen script) ++ script)).

(** [std::lexicographical_compare] *)
Fixpoint lexicographical_compare (a b : list Z) : bool :=
  match a, b with
  | _, [] => false
  | [], _ => true
  | x :: a, y :: b => if x <? y then true else if y <? x then false else lexicographical_compare a b
  end.

Definition ComputeTapbranchHash (a b : list Z) : uint256 :=
  HashWriter_GetSHA256 (HashWriter_write HASHER_TAPBRANCH (if lexicographical_compare a b then a ++ b else b ++ a)).

Definition wrong_control_size (control : list Z) : bool :=
  (zlen control <? TAPROOT_CONTROL_BASE_SIZE) || (zlen control >? TAPROOT_CONTROL_MAX_SIZE) ||
  negb ((zlen control - TAPROOT_CONTROL_BASE_SIZE) mod TAPROOT_CONTROL_NODE_SIZE =? 0).

(** the assertions are [None] *)
Definition ComputeTaprootMerkleRoot (control : list Z) (tapleaf_hash : uint256) : option uint256 :=
  if wrong_control_size control then None
  else
    let path_len := (zlen control - TAPROOT_CONTROL_BASE_SIZE) / TAPROOT_CONTROL_NODE_SIZE in
    let node i := ztake TAPROOT_CONTROL_NODE_SIZE (zdrop (TAPROOT_CONTROL_BASE_SIZE + TAPROOT_CONTROL_NODE_SIZE * Z.of_nat i) control) in
    Some (for_up (Z.to_nat path_len) (fun i k => ComputeTapbranchHash k (node i)) tapleaf_hash).

Section verify.
Context `{Cpu} `{Secp256k1} `{BaseSignatureChecker}.
Variable flags : Z.

Definition VerifyTaprootCommitment (control program : list Z) (tapleaf_hash : uint256) : outcome bool :=
  _ ← assert_true ((zlen control >=? TAPROOT_CONTROL_BASE_SIZE) && (zlen program >=? 32));
  let p := ztake (TAPROOT_CONTROL_BASE_SIZE - 1) (zdrop 1 control) in
  merkle_root ← assert_some (ComputeTaprootMerkleRoot control tapleaf_hash);
  Ok (CheckTapTweak program p merkle_root (negb (Z.land control.[0] 1 =? 0))).

(** ** ExecuteWitnessScript *)

(** [while (pc < exec_script.end())]: whether there is an OP_SUCCESSx; the length of the script bounds the loop *)
Fixpoint find_op_success (fuel : nat) (pc : CScript) : outcome bool :=
  match pc, fuel with
  | [], _ => Ok false
  | _, O => Abort
  | _, S fuel =>
      match GetScriptOp pc with
      | None => set_error SCRIPT_ERR_BAD_OPCODE
      | Some (opcode, _, pc) => if IsOpSuccess opcode then Ok true else find_op_success fuel pc
      end
  end.

(** the rest of the function, after OP_SUCCESSx *)
Definition execute_witness (stack : list valtype) (exec_script : CScript) (sigversion : SigVersion) (execdata : ScriptExecutionData) : outcome unit :=
  if bool_decide (sigversion = TAPSCRIPT) && (zlen stack >? MAX_STACK_SIZE) then set_error SCRIPT_ERR_STACK_SIZE
  else if existsb (fun elem => zlen elem >? MAX_SCRIPT_ELEMENT_SIZE) stack then set_error SCRIPT_ERR_PUSH_SIZE
  else
    '(stack, _) ← EvalScript flags sigversion (reverse stack) exec_script execdata;
    match stack with
    | [top] => if negb (CastToBool top) then set_error SCRIPT_ERR_EVAL_FALSE else Ok tt
    | _ => set_error SCRIPT_ERR_CLEANSTACK
    end.

Definition ExecuteWitnessScript (stack : list valtype) (exec_script : CScript) (sigversion : SigVersion) (execdata : ScriptExecutionData) : outcome unit :=
  success ← (if bool_decide (sigversion = TAPSCRIPT) then find_op_success (length exec_script) exec_script else Ok false);
  if (success : bool) then
    if has_flag flags SCRIPT_VERIFY_DISCOURAGE_OP_SUCCESS then set_error SCRIPT_ERR_DISCOURAGE_OP_SUCCESS else Ok tt
  else execute_witness stack exec_script sigversion execdata.

(** ** VerifyWitnessProgram *)

(** [SpanPopBack]: the rest and the last element *)
Definition pop_back (stack : list valtype) : list valtype * valtype := (removelast stack, List.last stack []).

Definition set_annex (present : bool) (hash : uint256) : ScriptExecutionData := {|
  m_tapleaf_hash_init := false; m_tapleaf_hash := zrep 32 0; m_codeseparator_pos_init := false; m_codeseparator_pos := 0;
  m_annex_init := true; m_annex_present := present; m_annex_hash := hash;
  m_validation_weight_left_init := false; m_validation_weight_left := 0; m_output_hash := None |}.
Definition set_tapleaf (d : ScriptExecutionData) (hash : uint256) : ScriptExecutionData := {|
  m_tapleaf_hash_init := true; m_tapleaf_hash := hash;
  m_codeseparator_pos_init := m_codeseparator_pos_init d; m_codeseparator_pos := m_codeseparator_pos d;
  m_annex_init := m_annex_init d; m_annex_present := m_annex_present d; m_annex_hash := m_annex_hash d;
  m_validation_weight_left_init := m_validation_weight_left_init d; m_validation_weight_left := m_validation_weight_left d;
  m_output_hash := m_output_hash d |}.

(** P2WSH: the last element is the script, which must hash to the program *)
Definition verify_p2wsh (witness : list valtype) (program : list Z) : outcome unit :=
  if zlen witness =? 0 then set_error SCRIPT_ERR_WITNESS_PROGRAM_WITNESS_EMPTY
  else
    let '(stack, exec_script) := pop_back witness in
    let hash_exec_script := CSHA256_Finalize (CSHA256_Write CSHA256_init exec_script) in
    if negb (bool_decide (hash_exec_script = program)) then set_error SCRIPT_ERR_WITNESS_PROGRAM_MISMATCH
    else ExecuteWitnessScript stack exec_script WITNESS_V0 execdata_new.

(** P2WPKH: OP_DUP OP_HASH160 <program> OP_EQUALVERIFY OP_CHECKSIG on the signature and the key *)
Definition p2pkh_script (program : list Z) : CScript := push_data [OP_DUP; OP_HASH160] program ++ [OP_EQUALVERIFY; OP_CHECKSIG].
Definition verify_p2wpkh (witness : list valtype) (program : list Z) : outcome unit :=
  if negb (zlen witness =? 2) then set_error SCRIPT_ERR_WITNESS_PROGRAM_MISMATCH
  else ExecuteWitnessScript witness (p2pkh_script program) WITNESS_V0 execdata_new.

(** the script path of taproot *)
Definition verify_script_path (witness stack : list valtype) (program : list Z) (execdata : ScriptExecutionData) : outcome unit :=
  let '(stack, control) := pop_back stack in
  let '(stack, script) := pop_back stack in
  if wrong_control_size control then set_error SCRIPT_ERR_TAPROOT_WRONG_CONTROL_SIZE
  else
    let leaf := Z.land control.[0] TAPROOT_LEAF_MASK in
    let tapleaf_hash := ComputeTapleafHash leaf script in
    committed ← VerifyTaprootCommitment control program tapleaf_hash;
    if negb committed then set_error SCRIPT_ERR_WITNESS_PROGRAM_MISMATCH
    else
      let execdata := set_tapleaf execdata tapleaf_hash in
      if leaf =? TAPROOT_LEAF_TAPSCRIPT then
        let execdata := set_validation_weight execdata (zlen (ser_stack witness) + VALIDATION_WEIGHT_OFFSET) in
        ExecuteWitnessScript stack script TAPSCRIPT execdata
      else if has_flag flags SCRIPT_VERIFY_DISCOURAGE_UPGRADABLE_TAPROOT_VERSION then set_error SCRIPT_ERR_DISCOURAGE_UPGRADABLE_TAPROOT_VERSION
      else Ok tt.

Definition verify_taproot (witness : list valtype) (program : list Z) : outcome unit :=
  if negb (has_flag flags SCRIPT_VERIFY_TAPROOT) then Ok tt
  else if zlen witness =? 0 then set_error SCRIPT_ERR_WITNESS_PROGRAM_WITNESS_EMPTY
  else
    let last := List.last witness [] in
    let annex := (zlen witness >=? 2) && negb (zlen last =? 0) && (last.[0] =? ANNEX_TAG) in
    let '(stack, execdata) :=
      if annex then (removelast witness, set_annex true (GetSHA256_of (ser_bytes last))) else (witness, set_annex false (zrep 32 0)) in
    match stack with
    | [sig] => _ ← CheckSchnorrSignature sig program TAPROOT execdata; Ok tt
    | _ => verify_script_path witness stack program execdata
    end.

Definition VerifyWitnessProgram (witness : list valtype) (witversion : Z) (program : list Z) (is_p2sh : bool) : outcome unit :=
  if witversion =? 0 then
    if zlen program =? WITNESS_V0_SCRIPTHASH_SIZE then verify_p2wsh witness program
    else if zlen program =? WITNESS_V0_KEYHASH_SIZE then verify_p2wpkh witness program
    else set_error SCRIPT_ERR_WITNESS_PROGRAM_WRONG_LENGTH
  else if (witversion =? 1) && (zlen program =? WITNESS_V1_TAPROOT_SIZE) && negb is_p2sh then verify_taproot witness program
  else if negb is_p2sh && IsPayToAnchor_program witversion program then Ok tt
  else if has_flag flags SCRIPT_VERIFY_DISCOURAGE_UPGRADABLE_WITNESS_PROGRAM then set_error SCRIPT_ERR_DISCOURAGE_UPGRADABLE_WITNESS_PROGRAM
  else Ok tt.

(** ** VerifyScript *)

(** [stack.empty()] or a false top is an error *)
Definition check_top (stack : list valtype) : outcome unit :=
  match stack with
  | [] => set_error SCRIPT_ERR_EVAL_FALSE
  | top :: _ => if negb (CastToBool top) then set_error SCRIPT_ERR_EVAL_FALSE else Ok tt
  end.
(** [stack.resize(1)] *)
Definition resize_1 (stack : list valtype) : list valtype := [List.last stack []].

(** the bare witness program: whether there was one, and the stack *)
Definition verify_bare_witness (scriptSig scriptPubKey : CScript) (witness stack : list valtype) : outcome (bool * list valtype) :=
  if has_flag flags SCRIPT_VERIFY_WITNESS then
    match IsWitnessProgram scriptPubKey with
    | Some (witnessversion, witnessprogram) =>
        if negb (zlen scriptSig =? 0) then set_error SCRIPT_ERR_WITNESS_MALLEATED
        else
          _ ← VerifyWitnessProgram witness witnessversion witnessprogram false;
          Ok (true, resize_1 stack)
    | None => Ok (false, stack)
    end
  else Ok (false, stack).

(** pay-to-script-hash, on the stack the input's script left *)
Definition verify_p2sh (scriptSig scriptPubKey : CScript) (witness stackCopy : list valtype) (hadWitness : bool) (stack : list valtype)
  : outcome (bool * list valtype) :=
  if has_flag flags SCRIPT_VERIFY_P2SH && IsPayToScriptHash scriptPubKey then
    if negb (IsPushOnly scriptSig) then set_error SCRIPT_ERR_SIG_PUSHONLY
    else
      match stackCopy with
      | [] => Abort
      | pubKey2 :: stack =>
          stack ← EvalScript_plain flags BASE stack pubKey2;
          _ ← check_top stack;
          if has_flag flags SCRIPT_VERIFY_WITNESS then
            match IsWitnessProgram pubKey2 with
            | Some (witnessversion, witnessprogram) =>
                if negb (bool_decide (scriptSig = push_data [] pubKey2)) then set_error SCRIPT_ERR_WITNESS_MALLEATED_P2SH
                else
                  _ ← VerifyWitnessProgram witness witnessversion witnessprogram true;
                  Ok (true, resize_1 stack)
            | None => Ok (hadWitness, stack)
            end
          else Ok (hadWitness, stack)
      end
  else Ok (hadWitness, stack).

(** the clean stack and unexpected witness rules, with their assertions on the flags *)
Definition verify_clean (witness : list valtype) (hadWitness : bool) (stack : list valtype) : outcome unit :=
  _ ← (if has_flag flags SCRIPT_VERIFY_CLEANSTACK then
         _ ← assert_true (has_flag flags SCRIPT_VERIFY_P2SH);
         _ ← assert_true (has_flag flags SCRIPT_VERIFY_WITNESS);
         if negb (zlen stack =? 1) then set_error SCRIPT_ERR_CLEANSTACK else Ok tt
       else Ok tt);
  if has_flag flags SCRIPT_VERIFY_WITNESS then
    _ ← assert_true (has_flag flags SCRIPT_VERIFY_P2SH);
    if negb hadWitness && negb (CScriptWitness_IsNull witness) then set_error SCRIPT_ERR_WITNESS_UNEXPECTED else Ok tt
  else Ok tt.

(** a null witness is an empty one *)
Definition VerifyScript (scriptSig scriptPubKey : CScript) (witness : list valtype) : outcome unit :=
  if has_flag flags SCRIPT_VERIFY_SIGPUSHONLY && negb (IsPushOnly scriptSig) then set_error SCRIPT_ERR_SIG_PUSHONLY
  else
    stackCopy ← EvalScript_plain flags BASE [] scriptSig;
    stack ← EvalScript_plain flags BASE stackCopy scriptPubKey;
    _ ← check_top stack;
    '(hadWitness, stack) ← verify_bare_witness scriptSig scriptPubKey witness stack;
    '(hadWitness, stack) ← verify_p2sh scriptSig scriptPubKey witness stackCopy hadWitness stack;
    verify_clean witness hadWitness stack.

End verify.

(** ** Rules that are switched on *)

(** the combinations of flags [VerifyScript] asserts *)
Definition script_flags_ok (flags : Z) : bool :=
  (negb (has_flag flags SCRIPT_VERIFY_WITNESS) || has_flag flags SCRIPT_VERIFY_P2SH) &&
  (negb (has_flag flags SCRIPT_VERIFY_CLEANSTACK) || (has_flag flags SCRIPT_VERIFY_P2SH && has_flag flags SCRIPT_VERIFY_WITNESS)).

Section softfork.
Context `{Cpu} `{Secp256k1} `{BaseSignatureChecker}.
Variables flags flags' : Z.
Hypothesis more_flags : Z.land flags flags' = flags.

Lemma fewer_flags mask : has_flag flags mask = true -> has_flag flags' mask = true.
Proof. apply has_flag_sub, more_flags. Qed.
Hint Resolve fewer_flags : outcome.
Lemma script_softer sigversion stack script d : softer (EvalScript flags' sigversion stack script d) (EvalScript flags sigversion stack script d).
Proof. apply EvalScript_softer, more_flags. Qed.
Lemma plain_softer sigversion stack script : softer (EvalScript_plain flags' sigversion stack script) (EvalScript_plain flags sigversion stack script).
Proof. unfold EvalScript_plain. apply softer_bind; [apply script_softer|intros; apply softer_refl]. Qed.
Hint Resolve script_softer plain_softer : outcome.

Lemma ExecuteWitnessScript_softer stack script sigversion d :
  softer (ExecuteWitnessScript flags' stack script sigversion d) (ExecuteWitnessScript flags stack script sigversion d).
Proof. unfold ExecuteWitnessScript, execute_witness. repeat softer_step. Qed.
Hint Resolve ExecuteWitnessScript_softer : outcome.

Lemma VerifyWitnessProgram_softer witness v program is_p2sh :
  softer (VerifyWitnessProgram flags' witness v program is_p2sh) (VerifyWitnessProgram flags witness v program is_p2sh).
Proof.
  unfold VerifyWitnessProgram, verify_p2wsh, verify_p2wpkh, pop_back. repeat softer_step; try apply ExecuteWitnessScript_softer.
  unfold verify_taproot. destruct (negb (has_flag flags' _)) eqn:Et.
  { assert (Ef : has_flag flags SCRIPT_VERIFY_TAPROOT = false).
    { destruct (has_flag flags _) eqn:Ef; [|done]. rewrite (fewer_flags _ Ef) in Et. done. }
    rewrite Ef. apply softer_refl. }
  destruct (negb (has_flag flags _)).
  { intros [] _. reflexivity. }
  softer_step; [apply softer_refl|]. cbv zeta. destruct (_ && _ && _); unfold verify_script_path, pop_back; repeat softer_step;
    apply ExecuteWitnessScript_softer.
Qed.
Hint Resolve VerifyWitnessProgram_softer : outcome.

(** what is checked before the last step *)
Lemma witness_both (Hw : has_flag flags SCRIPT_VERIFY_WITNESS = true) scriptSig spk witness stack :
  softer (verify_bare_witness flags' scriptSig spk witness stack) (verify_bare_witness flags scriptSig spk witness stack).
Proof. unfold verify_bare_witness. rewrite Hw, (fewer_flags _ Hw). repeat softer_step. Qed.

Lemma p2sh_both (Hp : has_flag flags SCRIPT_VERIFY_P2SH = true) scriptSig spk witness copy had stack had' stack' r :
  (has_flag flags SCRIPT_VERIFY_WITNESS = true -> had = had' /\ stack = stack') ->
  verify_p2sh flags' scriptSig spk witness copy had' stack' = Ok r ->
  exists r', verify_p2sh flags scriptSig spk witness copy had stack = Ok r' /\ (has_flag flags SCRIPT_VERIFY_WITNESS = true -> r' = r).
Proof.
  intros Heq. unfold verify_p2sh. rewrite Hp, (fewer_flags _ Hp). cbn [andb]. destruct (IsPayToScriptHash spk).
  - destruct (negb _); [discriminate|]. destruct copy as [|k rest]; [discriminate|]. intros Hr.
    destruct (EvalScript_plain flags' _ _ _) as [s|e| |] eqn:E1; try discriminate. rewrite (plain_softer _ _ _ _ E1).
    cbn [mbind outcome_bind] in *. destruct (check_top s) as [[]|e| |]; try discriminate. cbn [mbind outcome_bind] in *.
    destruct (has_flag flags SCRIPT_VERIFY_WITNESS) eqn:Ew; [|eexists; split; [reflexivity|discriminate]].
    destruct (Heq eq_refl) as [-> ->]. rewrite (fewer_flags _ Ew) in Hr. exists r. split; [|done].
    destruct (IsWitnessProgram k) as [[v p]|]; [|exact Hr]. destruct (negb _); [discriminate|].
    destruct (VerifyWitnessProgram flags' _ _ _ _) as [[]|e| |] eqn:E2; try discriminate. rewrite (VerifyWitnessProgram_softer _ _ _ _ _ E2). exact Hr.
  - intros [= <-]. eexists. split; [reflexivity|]. intros Hw. destruct (Heq Hw) as [-> ->]. reflexivity.
Qed.

Lemma VerifyScript_softer scriptSig spk witness : script_flags_ok flags = true ->
  softer (VerifyScript flags' scriptSig spk witness) (VerifyScript flags scriptSig spk witness).
Proof.
  intros Hok [] Hv. apply andb_true_iff in Hok as [Hok1 Hok2]. unfold VerifyScript in *.
  destruct (has_flag flags' SCRIPT_VERIFY_SIGPUSHONLY && _) eqn:E0; [discriminate|].
  replace (has_flag flags SCRIPT_VERIFY_SIGPUSHONLY && _) with false.
  2: { destruct (has_flag flags SCRIPT_VERIFY_SIGPUSHONLY) eqn:E; [|done]. rewrite (fewer_flags _ E) in E0. done. }
  destruct (EvalScript_plain flags' BASE [] _) as [copy|e| |] eqn:E1; try discriminate. rewrite (plain_softer _ _ _ _ E1). cbn [mbind outcome_bind] in *.
  destruct (EvalScript_plain flags' BASE copy _) as [s|e| |] eqn:E2; try discriminate. rewrite (plain_softer _ _ _ _ E2). cbn [mbind outcome_bind] in *.
  destruct (check_top s) as [[]|e| |]; try discriminate. cbn [mbind outcome_bind] in *.
  destruct (verify_bare_witness flags' _ _ _ _) as [[had' s']|e| |] eqn:E3; try discriminate. cbn [mbind outcome_bind] in *.
  destruct (verify_p2sh flags' _ _ _ _ _ _) as [[had2' s2']|e| |] eqn:E4; try discriminate. cbn [mbind outcome_bind] in *.
  assert (Hb : exists had s1, verify_bare_witness flags scriptSig spk witness s = Ok (had, s1) /\
    (has_flag flags SCRIPT_VERIFY_WITNESS = true -> had = had' /\ s1 = s')).
  { destruct (has_flag flags SCRIPT_VERIFY_WITNESS) eqn:Ew; [exists had', s'; split; [apply (witness_both Ew), E3|done]|].
    exists false, s. split; [|done]. unfold verify_bare_witness. rewrite Ew. reflexivity. }
  destruct Hb as (had & s1 & -> & Heq). cbn [mbind outcome_bind].
  destruct (has_flag flags SCRIPT_VERIFY_P2SH) eqn:Ep.
  - destruct (p2sh_both Ep _ _ _ _ _ _ _ _ _ Heq E4) as ([had2 s2] & -> & Heq2). cbn [mbind outcome_bind].
    unfold verify_clean in *. rewrite Ep, (fewer_flags _ Ep) in *. cbn [assert_true mbind outcome_bind] in *.
    destruct (has_flag flags SCRIPT_VERIFY_WITNESS) eqn:Ew; cbn [assert_true mbind outcome_bind] in *.
    + injection (Heq2 eq_refl) as -> ->. rewrite (fewer_flags _ Ew) in Hv. cbn [assert_true mbind outcome_bind] in *.
      destruct (has_flag flags SCRIPT_VERIFY_CLEANSTACK) eqn:Ec; [rewrite (fewer_flags _ Ec) in Hv; exact Hv|].
      destruct (has_flag flags' SCRIPT_VERIFY_CLEANSTACK); [|exact Hv]. destruct (negb (zlen s2' =? 1)); [discriminate|exact Hv].
    + destruct (has_flag flags SCRIPT_VERIFY_CLEANSTACK); done.
  - assert (Ew : has_flag flags SCRIPT_VERIFY_WITNESS = false) by (destruct (has_flag flags SCRIPT_VERIFY_WITNESS); done).
    assert (Ec : has_flag flags SCRIPT_VERIFY_CLEANSTACK = false) by (destruct (has_flag flags SCRIPT_VERIFY_CLEANSTACK); done).
    unfold verify_p2sh, verify_clean. rewrite Ep, Ew, Ec. reflexivity.
Qed.
End softfork.

(** ** Verification returns *)

Lemma returns_mono {A : Type} (P Q : A -> Prop) (m : outcome A) : (forall a, P a -> Q a) -> returns P m -> returns Q m.
Proof. destruct m as [a|[e|]| |]; cbn; auto. Qed.

Lemma program_bytes s v p : limbs_ok 8 s -> IsWitnessProgram s = Some (v, p) -> limbs_ok 8 p.
Proof. intros Hs E. apply witness_program_form in E as (op & _ & -> & _). apply Forall_cons_1 in Hs as [_ Hs]. apply Forall_cons_1 in Hs as [_ Hs]. exact Hs. Qed.

(** a version 1 program of 32 bytes is a taproot output *)
Lemma taproot_program s p : IsWitnessProgram s = Some (1, p) -> zlen p = 32 -> IsPayToTaproot s = true.
Proof.
  intros E Hp. apply witness_program_form in E as (op & Eop & -> & _). injection Eop as <-. unfold IsPayToTaproot.
  cbn [length nth]. rewrite Hp. destruct (Z.eqb_spec (Z.of_nat (S (S (length p)))) 34) as [_|]; [reflexivity|lia].
Qed.

Lemma hash160_empty `{Cpu} `{Secp256k1} `{BaseSignatureChecker} flags rest d : eval_step flags BASE (eval_init [] (OP_HASH160 :: rest) d) = invalid_stack.
Proof. reflexivity. Qed.

(** a pay-to-script-hash script fails on an empty stack *)
Lemma p2sh_needs_element `{Cpu} `{Secp256k1} `{BaseSignatureChecker} flags spk s : IsPayToScriptHash spk = true -> EvalScript_plain flags BASE [] spk <> Ok s.
Proof.
  intros Hp. unfold IsPayToScriptHash in Hp. bool_to_prop. destruct spk as [|op rest]; [discriminate|]. cbn [nth] in *. subst op.
  unfold EvalScript_plain, EvalScript. cbn [pre_tapscript orb assert_true mbind outcome_bind andb]. destruct (_ >? _); [discriminate|].
  cbn [length eval_loop eval_init es_pc]. change (eval_step flags BASE _) with (eval_step flags BASE (eval_init [] (OP_HASH160 :: rest) execdata_new)).
  rewrite hash160_empty. discriminate.
Qed.

Section verifying.
Context `{Cpu} `{Secp256k1} `{LawfulSignatureChecker}.
Variable flags : Z.
Notation done_ok := (returns (fun _ => True)).

Lemma plain_ok stack script : stack_ok stack -> zlen stack <= MAX_STACK_SIZE -> limbs_ok 8 script ->
  returns (fun r => stack_ok r /\ zlen r <= MAX_STACK_SIZE) (EvalScript_plain flags BASE stack script).
Proof.
  intros Hs Hl Hscript. unfold EvalScript_plain. eapply returns_bind; [apply EvalScript_ok; try done; unfold MAX_STACK_SIZE in Hl; lia|].
  intros [r d] [Hr Hl']. split; [exact Hr|]. cbn in *. lia.
Qed.

Lemma check_top_ok stack : done_ok (check_top stack).
Proof. unfold check_top. repeat case_match; exact I. Qed.

Lemma find_op_success_ok fuel : forall pc, limbs_ok 8 pc -> (length pc <= fuel)%nat -> done_ok (find_op_success fuel pc).
Proof.
  induction fuel as [|fuel IH]; intros pc Hpc Hf; destruct pc as [|b pc]; try exact I; [cbn in Hf; lia|]. cbn [find_op_success].
  destruct (GetScriptOp _) as [[[op data] rest]|] eqn:E; [|exact I]. destruct (IsOpSuccess op); [exact I|].
  destruct (GetScriptOp_shrinks _ _ _ _ Hpc E) as [Hlt Hrest]. apply IH; [exact Hrest|]. cbn in *; lia.
Qed.

(** a witness of byte strings, as many as can be read *)
Definition witness_ok (witness : list valtype) : Prop := Forall (limbs_ok 8) witness /\ zlen witness < 2 ^ 32.

Lemma execute_ok sigversion stack script d : witness_ok stack -> limbs_ok 8 script -> sigversion <> TAPROOT ->
  (sigversion = TAPSCRIPT -> schnorr_lawful /\ m_annex_init d = true /\ m_tapleaf_hash_init d = true /\ m_validation_weight_left_init d = true) ->
  done_ok (ExecuteWitnessScript flags stack script sigversion d).
Proof.
  intros [Hs Hl] Hscript Hv Hd. unfold ExecuteWitnessScript. eapply (returns_bind (fun _ => True)).
  { case_match; [apply find_op_success_ok; [exact Hscript|lia]|exact I]. }
  intros success _. destruct success; [case_match; exact I|]. unfold execute_witness. destruct (_ && _); [exact I|]. destruct (existsb _ _) eqn:Ee; [exact I|].
  eapply returns_bind; [apply EvalScript_ok|].
  - intros E. apply Hd, E.
  - destruct sigversion; done.
  - apply Forall_reverse, Forall_forall. intros v Hin. split; [exact (proj1 (Forall_forall _ _) Hs v Hin)|].
    destruct (Z.gtb_spec (zlen v) MAX_SCRIPT_ELEMENT_SIZE) as [Hgt|]; [|lia].
    assert (Ex : existsb (fun elem => zlen elem >? MAX_SCRIPT_ELEMENT_SIZE) stack = true); [|congruence].
    apply existsb_exists. exists v. split; [exact Hin|]. apply Z.gtb_lt. lia.
  - rewrite length_reverse. exact Hl.
  - exact Hscript.
  - intros E. apply Hd, E.
  - intros [r d'] _. repeat case_match; exact I.
Qed.

Lemma pop_back_ok witness stack v : witness_ok witness -> pop_back witness = (stack, v) -> witness_ok stack /\ limbs_ok 8 v.
Proof.
  intros [Hw Hl] [= <- <-]. destruct witness as [|v stack _] using rev_ind; [split; [split; done|constructor]|].
  rewrite removelast_last, last_last. apply Forall_app in Hw as [Hs Hv]. apply Forall_cons_1 in Hv as [Hv _].
  rewrite zlen_app in Hl. cbn in Hl. split; [split; [exact Hs|lia]|exact Hv].
Qed.

Lemma commitment_ok control program h : wrong_control_size control = false -> zlen program = 32 -> done_ok (VerifyTaprootCommitment control program h).
Proof.
  intros Hc Hp. unfold VerifyTaprootCommitment, ComputeTaprootMerkleRoot. rewrite Hc, Hp. unfold wrong_control_size in Hc. bool_to_prop.
  replace (zlen control >=? _) with true by (symmetry; apply Z.geb_le; lia). exact I.
Qed.

Lemma taproot_ok witness program : witness_ok witness -> zlen program = 32 -> (witness <> [] -> schnorr_reports) -> done_ok (verify_taproot flags witness program).
Proof.
  intros Hw Hp Hsch. unfold verify_taproot. destruct (negb _); [exact I|]. destruct witness as [|w0 ws]; [exact I|]. specialize (Hsch ltac:(discriminate)).
  set (witness := w0 :: ws) in *. cbn [length]. replace (_ =? 0) with false by (symmetry; apply Z.eqb_neq; cbn; lia). cbv zeta.
  assert (Hst : exists stack d, witness_ok stack /\ m_annex_init d = true /\
    (if (zlen witness >=? 2) && negb (zlen (List.last witness []) =? 0) && ((List.last witness []).[0] =? ANNEX_TAG)
     then (removelast witness, set_annex true (GetSHA256_of (ser_bytes (List.last witness [])))) else (witness, set_annex false (zrep 32 0))) = (stack, d)).
  { destruct (_ && _ && _); eexists _, _; (split; [|split; [|reflexivity]]); try done. exact (proj1 (pop_back_ok witness _ _ Hw eq_refl)). }
  destruct Hst as (stack & d & Hs & Ha & ->).
  assert (Hscript : done_ok (verify_script_path flags witness stack program d)).
  { unfold verify_script_path. destruct (pop_back stack) as [stack1 control] eqn:E1. destruct (pop_back_ok _ _ _ Hs E1) as [Hs1 Hcontrol].
    destruct (pop_back stack1) as [stack2 script] eqn:E2. destruct (pop_back_ok _ _ _ Hs1 E2) as [Hs2 Hscript].
    destruct (wrong_control_size control) eqn:Ec; [exact I|]. eapply returns_bind; [apply (commitment_ok _ _ _ Ec Hp)|]. intros b _.
    repeat case_match; try exact I. apply execute_ok; try done. intros _. split; [apply schnorr_reports_lawful, Hsch|]. done. }
  destruct stack as [|sig [|? ?]]; [exact Hscript| |exact Hscript].
  eapply returns_bind; [apply (Hsch sig program TAPROOT d); [done|exact Hp|split; [exact Ha|discriminate]]|]. intros ? _. exact I.
Qed.

Lemma program_ok witness v program is_p2sh : witness_ok witness -> limbs_ok 8 program ->
  (v = 1 -> zlen program = 32 -> is_p2sh = false -> witness <> [] -> schnorr_reports) ->
  done_ok (VerifyWitnessProgram flags witness v program is_p2sh).
Proof.
  intros Hw Hp Hsch. unfold VerifyWitnessProgram. destruct (v =? 0).
  - case_match; [|case_match; [|exact I]].
    + unfold verify_p2wsh. case_match; [exact I|]. destruct (pop_back witness) as [stack script] eqn:E.
      destruct (pop_back_ok _ _ _ Hw E) as [Hs Hscript]. case_match; [exact I|]. apply execute_ok; done.
    + unfold verify_p2wpkh. case_match; [exact I|]. apply execute_ok; try done. bool_to_prop. unfold p2pkh_script, push_data.
      replace (zlen program) with 20 by (symmetry; assumption). cbn. repeat (apply Forall_cons_2; [vm_compute; split; congruence|]).
      apply Forall_app. split; [exact Hp|]. repeat constructor; vm_compute; congruence.
  - destruct ((v =? 1) && _ && _) eqn:Et; [|repeat case_match; exact I]. bool_to_prop. apply taproot_ok; [exact Hw|assumption|].
    intros Hne. apply Hsch; try done.
Qed.

Lemma VerifyScript_ok scriptSig spk witness : script_flags_ok flags = true -> limbs_ok 8 scriptSig -> limbs_ok 8 spk -> witness_ok witness ->
  (IsPayToTaproot spk = true -> witness <> [] -> schnorr_reports) -> done_ok (VerifyScript flags scriptSig spk witness).
Proof.
  intros Hflags Hsig Hspk Hw Hsch. apply andb_true_iff in Hflags as [Hf1 Hf2]. unfold VerifyScript. case_match; [exact I|].
  destruct (EvalScript_plain flags BASE [] scriptSig) as [copy|e| |] eqn:E1; pose proof (plain_ok [] scriptSig ltac:(done) ltac:(done) Hsig) as Hcopy;
    rewrite E1 in Hcopy; try exact Hcopy. destruct Hcopy as [Hcopy Hlen]. cbn [mbind outcome_bind].
  destruct (EvalScript_plain flags BASE copy spk) as [s|e| |] eqn:E2; pose proof (plain_ok copy spk Hcopy Hlen Hspk) as Hs; rewrite E2 in Hs; try exact Hs.
  cbn [mbind outcome_bind]. eapply returns_bind; [apply check_top_ok|]. intros _ _. eapply (returns_bind (fun _ => True)).
  { unfold verify_bare_witness. case_match; [|exact I]. destruct (IsWitnessProgram spk) as [[v p]|] eqn:Ep; [|exact I]. case_match; [exact I|].
    eapply returns_bind; [apply program_ok; [exact Hw|exact (program_bytes _ _ _ Hspk Ep)|]|intros _ _; exact I].
    intros -> Hp _ Hne. exact (Hsch (taproot_program _ _ Ep Hp) Hne). }
  intros [had s1] _. eapply (returns_bind (fun _ => True)).
  - unfold verify_p2sh. destruct (_ && IsPayToScriptHash spk) eqn:Ep; [|exact I]. apply andb_true_iff in Ep as [_ Ep]. case_match; [exact I|].
    destruct copy as [|k rest]; [destruct (p2sh_needs_element _ _ _ Ep E2)|]. apply Forall_cons_1 in Hcopy as [[Hk _] Hrest].
    eapply returns_bind; [apply plain_ok; [exact Hrest|cbn in Hlen; lia|exact Hk]|]. intros s2 _.
    eapply returns_bind; [apply check_top_ok|]. intros _ _. case_match; [|exact I]. destruct (IsWitnessProgram k) as [[v p]|] eqn:Ek; [|exact I].
    case_match; [exact I|]. eapply returns_bind; [apply program_ok; [exact Hw|exact (program_bytes _ _ _ Hk Ek)|discriminate]|intros _ _; exact I].
  - intros [had2 s2] _. unfold verify_clean. eapply (returns_bind (fun _ => True)).
    + case_match; [|exact I]. apply andb_true_iff in Hf2 as [-> ->]. cbn. case_match; exact I.
    + intros _ _. case_match; [|exact I]. cbn in Hf1. rewrite Hf1. cbn. case_match; exact I.
Qed.
End verifying.

(** ** Running scripts of keys *)

Lemma push_data_bounds data : zlen data <= 520 -> 1 <= zlen (push_data [] data) <= zlen data + 3.
Proof.
  intros Hl. pose proof (zlen_nonneg data). unfold push_data, AppendDataSize. rewrite wrap_small by (unfold fits; lia).
  cbn [app]. repeat case_match; rewrite ?zlen_app; cbn [length]; rewrite ?(proj1 (WriteLE_ok _ _)); bool_to_prop; lia.
Qed.

Section run.
Context `{Cpu} `{Secp256k1} `{BaseSignatureChecker}.
Variables (flags : Z) (v : SigVersion).
Hypothesis pre : pre_tapscript v = true.
Definition running (pc code : CScript) (pos n : Z) (stack : list valtype) : EvalState := {|
  es_pc := pc; es_codehash := code; es_opcode_pos := pos; es_nOpCount := n; es_stack := stack; es_altstack := [];
  es_vfExec := cond_new; es_execdata := set_codeseparator_pos execdata_new 0xFFFFFFFF |}.
Definition fitting (st : EvalState) : outcome EvalState :=
  if zlen (es_stack st) + zlen (es_altstack st) >? MAX_STACK_SIZE then set_error SCRIPT_ERR_STACK_SIZE else Ok st.

Lemma run_dup rest code x s : eval_step flags v (running (OP_DUP :: rest) code 0 0 (x :: s)) = fitting (running rest code 1 1 (x :: x :: s)).
Proof. destruct v; try discriminate; reflexivity. Qed.
Lemma hash160_value x : hash_value OP_HASH160 x = Hash160 x.
Proof. unfold hash_value, Hash160. reflexivity. Qed.
Lemma run_hash160 rest code x s : eval_step flags v (running (OP_HASH160 :: rest) code 1 1 (x :: s)) = fitting (running rest code 2 2 (hash_value OP_HASH160 x :: s)).
Proof. destruct v; try discriminate; reflexivity. Qed.

Definition sized (st : EvalState) : outcome EvalState := fitting (next_pos st).
Lemma run_equalverify rest code x y s : eval_step flags v (running (OP_EQUALVERIFY :: rest) code 3 2 (x :: y :: s)) =
  if bool_decide (y = x) then fitting (running rest code 4 3 s) else set_error SCRIPT_ERR_EQUALVERIFY.
Proof.
  transitivity ((s' ← op_equal OP_EQUALVERIFY (x :: y :: s); Ok (running rest code 3 3 s')) ≫= sized); [destruct v; try discriminate; reflexivity|].
  unfold op_equal. cbn [Z.eqb Pos.eqb]. destruct (bool_decide (y = x)); reflexivity.
Qed.
Lemma run_checksig rest code key sig s : eval_step flags v (running (OP_CHECKSIG :: rest) code 4 3 (key :: sig :: s)) = 
  ok ← EvalChecksigPreTapscript sig key code flags v;
  fitting (running rest code 5 4 (vch_of_bool ok :: s)).
Proof.
  transitivity (('(s', d) ← op_checksig flags v OP_CHECKSIG code (key :: sig :: s) (set_codeseparator_pos execdata_new 0xFFFFFFFF);
    Ok (with_execdata (running rest code 4 4 s') d)) ≫= sized); [destruct v; try discriminate; reflexivity|].
  unfold op_checksig, EvalChecksig. destruct v; try discriminate; destruct (EvalChecksigPreTapscript _ _ _ _ _); reflexivity. 
Qed.

(** an operation that pushes data *)
Lemma run_push data rest code pos n s : zlen data <= MAX_SCRIPT_ELEMENT_SIZE ->
  (fRequireMinimal flags = true -> CheckMinimalPush data (push_opcode_of (zlen data)) = true) ->
  eval_step flags v (running (push_data [] data ++ rest) code pos n s) = sized (running rest code pos n (data :: s)).
Proof.
  unfold MAX_SCRIPT_ELEMENT_SIZE. intros Hl Hmin. unfold eval_step. cbn [running es_pc]. rewrite GetScriptOp_push by lia.
  assert (Hop : 0 <= push_opcode_of (zlen data) <= OP_PUSHDATA4) by (unfold push_opcode_of; repeat case_match; bool_to_prop; lia).
  set (op := push_opcode_of (zlen data)) in *. destruct (Z.gtb_spec (zlen data) MAX_SCRIPT_ELEMENT_SIZE); [unfold MAX_SCRIPT_ELEMENT_SIZE in *; lia|].
  unfold count_opcode. destruct (Z.gtb_spec op OP_16); [lia|]. rewrite andb_false_r. cbn [mbind outcome_bind].
  rewrite bool_decide_eq_false_2 by (unfold disabled_opcodes; rewrite !elem_of_cons, elem_of_nil; lia).
  replace (op =? OP_CODESEPARATOR) with false by (symmetry; apply Z.eqb_neq; lia). cbn [andb].
  replace (between 0 OP_PUSHDATA4 op) with true by (symmetry; unfold between; apply andb_true_iff; split; apply Z.leb_le; lia).
  change (all_true (es_vfExec _)) with true. cbn [andb]. destruct (fRequireMinimal flags); [rewrite (Hmin eq_refl)|]; reflexivity.
Qed.

Lemma eval_loop_next fuel pc code pos n s : pc <> [] ->
  eval_loop flags v (S fuel) (running pc code pos n s) = eval_step flags v (running pc code pos n s) ≫= eval_loop flags v fuel.
Proof. intros Hpc. cbn [eval_loop running es_pc]. destruct pc; done. Qed.

Lemma fitting_ok pc code pos n s : zlen s <= MAX_STACK_SIZE -> fitting (running pc code pos n s) = Ok (running pc code pos n s).
Proof. intros Hs. unfold fitting. cbn [running es_stack es_altstack length]. rewrite Z.add_0_r. destruct (Z.gtb_spec (zlen s) MAX_STACK_SIZE); [lia|done]. Qed.

(** the script of a key hash on a key and a signature *)
Lemma run_p2pkh h key sig s : zlen h = 20 -> zlen s <= 996 ->
  EvalScript flags v (key :: sig :: s) (p2pkh_script h) execdata_new =
  if bool_decide (Hash160 key = h) then
    ok ← caught (EvalChecksigPreTapscript sig key (p2pkh_script h) flags v);
    Ok (vch_of_bool ok :: s, set_codeseparator_pos execdata_new 0xFFFFFFFF)
  else set_error SCRIPT_ERR_EQUALVERIFY.
Proof.
  intros Hh Hs. assert (Ecode : p2pkh_script h = OP_DUP :: OP_HASH160 :: push_data [] h ++ [OP_EQUALVERIFY; OP_CHECKSIG])
    by (unfold p2pkh_script; rewrite push_data_app; reflexivity).
  assert (Epush : push_data [] h = 20 :: h) by (unfold push_data, AppendDataSize; rewrite Hh; reflexivity).
  remember (p2pkh_script h) as code eqn:Ecode'. clear Ecode'. unfold EvalScript. rewrite pre. cbn [orb assert_true mbind outcome_bind andb].
  assert (Hl : length code = (5 + 20)%nat) by (rewrite Ecode, Epush; cbn [length app]; rewrite length_app; cbn [length]; lia).
  rewrite Hl. cbn [Nat.add]. change (Z.of_nat 25 >? MAX_SCRIPT_SIZE) with false. cbv iota.
  change (eval_init (key :: sig :: s) code execdata_new) with (running code code 0 0 (key :: sig :: s)). rewrite Ecode at 1.
  rewrite eval_loop_next, run_dup, fitting_ok by (done || (cbn [length]; unfold MAX_STACK_SIZE; lia)). cbn [mbind outcome_bind].
  rewrite eval_loop_next, run_hash160, fitting_ok by (rewrite ?Epush; done || (cbn [length]; unfold MAX_STACK_SIZE; lia)). cbn [mbind outcome_bind].
  rewrite eval_loop_next, run_push by (rewrite ?Epush; try done; unfold MAX_SCRIPT_ELEMENT_SIZE, CheckMinimalPush; rewrite ?Hh; done).
  unfold sized. change (next_pos _) with (running [OP_EQUALVERIFY; OP_CHECKSIG] code 3 2 (h :: hash_value OP_HASH160 key :: key :: sig :: s)).
  rewrite fitting_ok by (cbn [length]; unfold MAX_STACK_SIZE; lia). cbn [mbind outcome_bind].
  rewrite eval_loop_next, run_equalverify by done. rewrite hash160_value. destruct (bool_decide (Hash160 key = h)); [|reflexivity].
  rewrite fitting_ok by (cbn [length]; unfold MAX_STACK_SIZE; lia). cbn [mbind outcome_bind]. rewrite eval_loop_next, run_checksig by done.
  destruct (EvalChecksigPreTapscript _ _ _ _ _) as [ok|[e|]| |]; try reflexivity. cbn [mbind outcome_bind caught].
  rewrite fitting_ok by (cbn [length]; unfold MAX_STACK_SIZE; lia). reflexivity.
Qed.

(** a script of two pushes *)
Definition minimal_push (x : valtype) : Prop := zlen x <= MAX_SCRIPT_ELEMENT_SIZE /\ CheckMinimalPush x (push_opcode_of (zlen x)) = true.
Lemma run_pushes x y : minimal_push x -> minimal_push y ->
  EvalScript flags v [] (push_data (push_data [] x) y) execdata_new = Ok ([y; x], set_codeseparator_pos execdata_new 0xFFFFFFFF).
Proof.
  unfold minimal_push, MAX_SCRIPT_ELEMENT_SIZE. intros [Hx Mx] [Hy My]. rewrite push_data_app. set (code := push_data [] x ++ push_data [] y).
  pose proof (push_data_bounds x Hx) as Lx. pose proof (push_data_bounds y Hy) as Ly.
  unfold EvalScript. rewrite pre. cbn [orb assert_true mbind outcome_bind andb].
  assert (Hl : zlen code = zlen (push_data [] x) + zlen (push_data [] y)) by apply zlen_app.
  destruct (Z.gtb_spec (zlen code) MAX_SCRIPT_SIZE); [unfold MAX_SCRIPT_SIZE in *; lia|].
  destruct (length code) as [|[|fuel]] eqn:Ef; [lia..|].
  change (eval_init [] code execdata_new) with (running code code 0 0 []).
  rewrite eval_loop_next by (intros E; rewrite E in Ef; discriminate). unfold code at 1.
  rewrite run_push by done. change (sized _) with (Ok (running (push_data [] y) code 1 0 [x])). cbn [mbind outcome_bind].
  rewrite eval_loop_next by (intros E; rewrite E in Ly; cbn in Ly; lia). rewrite <- (app_nil_r (push_data [] y)) at 1.
  rewrite run_push by done. change (sized _) with (Ok (running [] code 2 0 [y; x])). destruct fuel; reflexivity.
Qed.
End run.

Lemma long_minimal x : limbs_ok 8 x -> 2 <= zlen x <= MAX_SCRIPT_ELEMENT_SIZE -> minimal_push x.
Proof.
  unfold MAX_SCRIPT_ELEMENT_SIZE. intros Hb Hx. split; [apply Hx|].
  destruct (push_minimal x) as [?|(b & -> & _)]; [lia|done|done|cbn in Hx; lia].
Qed.

Lemma pushes_push_only x y : minimal_push x -> minimal_push y -> IsPushOnly (push_data (push_data [] x) y) = true.
Proof.
  unfold minimal_push, MAX_SCRIPT_ELEMENT_SIZE. intros [Hx _] [Hy _]. rewrite push_data_app. unfold IsPushOnly.
  assert (Hop : forall z : valtype, zlen z <= 520 -> (push_opcode_of (zlen z) >? OP_16) = false).
  { intros z Hz. rewrite Z.gtb_ltb. unfold push_opcode_of. repeat case_match; bool_to_prop; apply Z.ltb_ge; lia. }
  pose proof (push_data_bounds x Hx) as Lx. pose proof (push_data_bounds y Hy) as Ly.
  rewrite length_app. destruct (length (push_data [] x)) as [|n] eqn:En; [lia|]. destruct (length (push_data [] y)) as [|m] eqn:Em; [lia|].
  cbn [Nat.add IsPushOnly_loop]. destruct (push_data [] x ++ push_data [] y) eqn:E; [done|]. rewrite <- E, GetScriptOp_push, Hop by lia.
  rewrite Nat.add_succ_r. cbn [IsPushOnly_loop]. destruct (push_data [] y) eqn:E'; [done|]. rewrite <- E', <- (app_nil_r (push_data [] y)).
  rewrite GetScriptOp_push, Hop by lia. destruct (n + m)%nat; reflexivity.
Qed.

(** the last step of a spend with no witness, or with the one that was expected *)
Lemma verify_clean_one flags witness had v : script_flags_ok flags = true -> had = true \/ witness = [] -> verify_clean flags witness had [v] = Ok tt.
Proof.
  intros Hf Hw. apply andb_true_iff in Hf as [Hf1 Hf2]. unfold verify_clean.
  destruct (has_flag flags SCRIPT_VERIFY_CLEANSTACK); [apply andb_true_iff in Hf2 as [-> ->]|];
    destruct (has_flag flags SCRIPT_VERIFY_WITNESS); cbn in Hf1; rewrite ?Hf1; (destruct Hw as [-> | ->]; [|destruct had]); reflexivity.
Qed.

Section keys.
Context `{Cpu} `{Secp256k1} `{BaseSignatureChecker}.

(** what a signature check decides *)
Definition spend_verdict (flags : Z) (v : SigVersion) (h sig key : list Z) : outcome unit :=
  if bool_decide (Hash160 key = h) then
    ok ← caught (EvalChecksigPreTapscript sig key (p2pkh_script h) flags v);
    if (ok : bool) then Ok tt else set_error SCRIPT_ERR_EVAL_FALSE
  else set_error SCRIPT_ERR_EQUALVERIFY.

Lemma p2pkh_verdict flags h sig key : script_flags_ok flags = true -> zlen h = 20 -> minimal_push sig -> minimal_push key ->
  VerifyScript flags (push_data (push_data [] sig) key) (p2pkh_script h) [] = spend_verdict flags BASE h sig key.
Proof.
  intros Hf Hh Hs Hk. unfold VerifyScript. rewrite (pushes_push_only _ _ Hs Hk), andb_false_r. unfold EvalScript_plain.
  rewrite run_pushes by done. cbn [mbind outcome_bind]. rewrite run_p2pkh by done. unfold spend_verdict.
  destruct (bool_decide (Hash160 key = h)); [|reflexivity]. destruct (caught _) as [ok|e| |]; try reflexivity. cbn [mbind outcome_bind].
  destruct ok; [|reflexivity]. cbn [mbind outcome_bind check_top]. change (CastToBool (vch_of_bool true)) with true. cbn [negb mbind outcome_bind].
  assert (Ecode : p2pkh_script h = OP_DUP :: OP_HASH160 :: 20 :: h ++ [OP_EQUALVERIFY; OP_CHECKSIG]).
  { unfold p2pkh_script, push_data, AppendDataSize. rewrite Hh. reflexivity. }
  assert (Hl : zlen (p2pkh_script h) = 25) by (rewrite Ecode; cbn [length]; rewrite length_app; cbn [length]; lia).
  unfold verify_bare_witness, verify_p2sh, IsWitnessProgram, IsPayToScriptHash. rewrite Hl, Ecode. cbn [Z.ltb Z.gtb Z.compare Pos.compare Pos.compare_cont orb nth Z.eqb negb andb].
  destruct (has_flag flags SCRIPT_VERIFY_WITNESS); cbn [mbind outcome_bind]; rewrite andb_false_r; cbn [mbind outcome_bind]; apply verify_clean_one; auto.
Qed.

Lemma p2wpkh_verdict flags h sig key : script_flags_ok flags = true -> has_flag flags SCRIPT_VERIFY_WITNESS = true -> zlen h = 20 -> CastToBool h = true ->
  zlen sig <= MAX_SCRIPT_ELEMENT_SIZE -> zlen key <= MAX_SCRIPT_ELEMENT_SIZE ->
  VerifyScript flags [] (OP_0 :: 20 :: h) [sig; key] = spend_verdict flags WITNESS_V0 h sig key.
Proof.
  intros Hf Hw Hh Hc Hs Hk. unfold VerifyScript. change (IsPushOnly []) with true. rewrite andb_false_r.
  change (EvalScript_plain flags BASE [] []) with (@Ok (list valtype) []). cbn [mbind outcome_bind].
  assert (Ecode : OP_0 :: 20 :: h = push_data (push_data [] []) h) by (unfold push_data at 1, AppendDataSize; rewrite Hh; reflexivity).
  unfold EvalScript_plain. rewrite Ecode at 1. rewrite run_pushes; [|done|split; [done|reflexivity]|split; [rewrite Hh; done|unfold CheckMinimalPush; rewrite Hh; reflexivity]].
  cbn [mbind outcome_bind check_top]. rewrite Hc. cbn [negb mbind outcome_bind]. unfold verify_bare_witness. rewrite Hw.
  assert (Ep : IsWitnessProgram (OP_0 :: 20 :: h) = Some (0, h)) by (apply witness_program_form; exists OP_0; rewrite Hh; done).
  rewrite Ep. cbn [length Z.of_nat Z.eqb negb]. unfold VerifyWitnessProgram. cbn [Z.eqb]. rewrite Hh. cbn [Z.eqb Pos.eqb].
  unfold verify_p2wpkh, ExecuteWitnessScript, execute_witness. cbn [length Z.of_nat Pos.of_succ_nat Pos.succ Z.eqb Pos.eqb negb mbind outcome_bind existsb].
  change (bool_decide (WITNESS_V0 = TAPSCRIPT)) with false. cbn [mbind outcome_bind andb].
  destruct (Z.gtb_spec (zlen sig) MAX_SCRIPT_ELEMENT_SIZE); [lia|]. destruct (Z.gtb_spec (zlen key) MAX_SCRIPT_ELEMENT_SIZE); [lia|]. cbn [orb].
  change (reverse [sig; key]) with [key; sig]. rewrite run_p2pkh by done. unfold spend_verdict.
  destruct (bool_decide (Hash160 key = h)); [|reflexivity]. destruct (caught _) as [ok|e| |]; try reflexivity. cbn [mbind outcome_bind].
  destruct ok; [|reflexivity]. change (CastToBool (vch_of_bool true)) with true. cbn [negb mbind outcome_bind]. unfold verify_p2sh.
  replace (IsPayToScriptHash (OP_0 :: 20 :: h)) with false; [|unfold IsPayToScriptHash; cbn [nth]; rewrite andb_false_r; reflexivity].
  rewrite andb_false_r. cbn [mbind outcome_bind]. apply verify_clean_one; auto.
Qed.
End keys.

(** ** Trees of scripts *)

(** the tagged hash of BIP 340 *)
Definition tagged_hash (tag msg : list Z) : list Z := sha256 (sha256 tag ++ sha256 tag ++ msg).

Lemma TaggedHash_spec tag msg : zlen tag < 2 ^ 32 -> zlen msg < 2 ^ 60 ->
  HashWriter_GetSHA256 (HashWriter_write (TaggedHash tag) msg) = tagged_hash tag msg.
Proof.
  intros Ht Hm. unfold HashWriter_GetSHA256, HashWriter_write, TaggedHash. cbn [hw_ctx]. rewrite sha256_one_shot by lia.
  pose proof (proj1 (sha256_blob tag)) as Hl. assert (Hl' : zlen (sha256 tag) = 32) by (rewrite Hl; reflexivity).
  unfold tagged_hash. rewrite app_assoc. apply CSHA256_Finalize_spec; [|rewrite !zlen_app; lia].
  apply CSHA256_Write_spec; [|rewrite !zlen_app; lia]. apply CSHA256_Write_spec; [|lia].
  apply (CSHA256_Write_spec [] _ (sha256 tag) sha_inv_init). rewrite Hl'. done.
Qed.

Inductive TapTree : Type :=
| TapLeaf (leaf_version : Z) (script : list Z)
| TapBranch (l r : TapTree).

Definition tap_leaf : list Z := [84; 97; 112; 76; 101; 97; 102].
Definition tap_branch : list Z := [84; 97; 112; 66; 114; 97; 110; 99; 104].

(** the root of BIP 341: the children of a branch are hashed in lexicographical order *)
Fixpoint tap_root (t : TapTree) : list Z :=
  match t with
  | TapLeaf v script => tagged_hash tap_leaf ([v] ++ WriteCompactSize (zlen script) ++ script)
  | TapBranch l r =>
      let (a, b) := (tap_root l, tap_root r) in
      tagged_hash tap_branch (if lexicographical_compare a b then a ++ b else b ++ a)
  end.

(** a leaf of a tree, with the roots beside its way up *)
Inductive tap_path : TapTree -> Z -> list Z -> list (list Z) -> Prop :=
| path_leaf v script : tap_path (TapLeaf v script) v script []
| path_left l r v script path : tap_path l v script path -> tap_path (TapBranch l r) v script (path ++ [tap_root r])
| path_right l r v script path : tap_path r v script path -> tap_path (TapBranch l r) v script (path ++ [tap_root l]).

Lemma tap_root_len t : zlen (tap_root t) = 32.
Proof. destruct t; cbn [tap_root]; [|case_match]; unfold tagged_hash; rewrite (proj1 (sha256_blob _)); reflexivity. Qed.

Lemma lexicographical_total a b : length a = length b -> lexicographical_compare a b = false -> lexicographical_compare b a = false -> a = b.
Proof.
  revert b. induction a as [|x a IH]; intros [|y b] Hl; try done. cbn [lexicographical_compare].
  destruct (Z.ltb_spec x y), (Z.ltb_spec y x); try done. intros Hab Hba. f_equal; [lia|]. apply IH; [by injection Hl|assumption..].
Qed.

Lemma lexicographical_asym a b : lexicographical_compare a b = true -> lexicographical_compare b a = false.
Proof.
  revert b. induction a as [|x a IH]; intros [|y b]; try done. cbn [lexicographical_compare].
  destruct (Z.ltb_spec x y), (Z.ltb_spec y x); try done; try lia. apply IH.
Qed.

Lemma branch_order (a b : list Z) : length a = length b ->
  (if lexicographical_compare a b then a ++ b else b ++ a) = (if lexicographical_compare b a then b ++ a else a ++ b).
Proof.
  intros Hl. destruct (lexicographical_compare a b) eqn:Eab; [rewrite (lexicographical_asym _ _ Eab); done|].
  destruct (lexicographical_compare b a) eqn:Eba; [done|]. rewrite (lexicographical_total _ _ Hl Eab Eba). done.
Qed.

Lemma ComputeTapbranchHash_spec a b : zlen a = 32 -> zlen b = 32 ->
  ComputeTapbranchHash a b = tagged_hash tap_branch (if lexicographical_compare a b then a ++ b else b ++ a).
Proof. intros Ha Hb. apply TaggedHash_spec; [done|]. case_match; rewrite zlen_app; lia. Qed.

Lemma concat_len (path : list (list Z)) : Forall (fun n => zlen n = 32) path -> zlen (concat path) = 32 * zlen path.
Proof. induction 1 as [|n path Hn _ IH]; [done|]. cbn [concat]. rewrite zlen_app, IH, Hn. cbn [length]. lia. Qed.

(** the loop over the nodes of a control block, as a fold over the path *)
Lemma path_fold head path h : zlen head = TAPROOT_CONTROL_BASE_SIZE -> Forall (fun n => zlen n = 32) path -> (length path <= 128)%nat ->
  ComputeTaprootMerkleRoot (head ++ concat path) h = Some (foldl ComputeTapbranchHash h path).
Proof.
  intros Hh Hp Hl. pose proof (concat_len path Hp) as Hlen.
  unfold ComputeTaprootMerkleRoot, wrong_control_size, TAPROOT_CONTROL_NODE_SIZE, TAPROOT_CONTROL_MAX_SIZE, TAPROOT_CONTROL_MAX_NODE_COUNT.
  rewrite zlen_app, Hh, Hlen. unfold TAPROOT_CONTROL_BASE_SIZE, TAPROOT_CONTROL_NODE_SIZE in *.
  replace (33 + 32 * zlen path - 33) with (zlen path * 32) by lia. rewrite Z_mod_mult, Z.div_mul by lia.
  destruct (Z.ltb_spec (33 + 32 * zlen path) 33); [lia|]. destruct (Z.gtb_spec (33 + 32 * zlen path) (33 + 32 * 128)); [lia|]. cbn [orb negb Z.eqb].
  f_equal. rewrite Nat2Z.id. rewrite <- (firstn_all path) at 2.
  apply (for_up_ind (fun i k => k = foldl ComputeTapbranchHash h (take i path))); [done|]. intros i k Hi ->.
  destruct (lookup_lt_is_Some_2 path i Hi) as [n Hn]. rewrite (take_S_r _ _ _ Hn), foldl_app. cbn [foldl]. f_equal.
  assert (Hpre : zlen (concat (take i path)) = 32 * Z.of_nat i).
  { rewrite concat_len by (apply Forall_take, Hp). rewrite length_take_le by lia. done. }
  rewrite <- (take_drop_middle path i n Hn) at 1. rewrite concat_app. cbn [concat]. rewrite app_assoc, zdrop_app by (rewrite zlen_app; lia).
  apply ztake_app. symmetry. exact (Forall_lookup_1 _ _ _ _ Hp Hn).
Qed.

Lemma wrong_control_spec control : wrong_control_size control = true <-> forall n : nat, (n <= 128)%nat -> zlen control <> 33 + 32 * Z.of_nat n.
Proof.
  unfold wrong_control_size, TAPROOT_CONTROL_MAX_SIZE, TAPROOT_CONTROL_MAX_NODE_COUNT, TAPROOT_CONTROL_BASE_SIZE, TAPROOT_CONTROL_NODE_SIZE. split.
  - intros Hw n Hn E. rewrite E in Hw. replace (33 + 32 * Z.of_nat n - 33) with (Z.of_nat n * 32) in Hw by lia. rewrite Z_mod_mult in Hw.
    rewrite !orb_true_iff in Hw. destruct Hw as [[?|?]|?]; bool_to_prop; [lia|lia|done].
  - intros Hn. destruct (Z.ltb_spec (zlen control) 33); [done|]. destruct (Z.gtb_spec (zlen control) (33 + 32 * 128)); [done|].
    destruct (Z.eqb_spec ((zlen control - 33) mod 32) 0) as [E|]; [|done]. destruct (Hn (Z.to_nat ((zlen control - 33) / 32))); Z.div_mod_to_equations; lia.
Qed.

Lemma merkle_root_none control h : ComputeTaprootMerkleRoot control h = None <-> wrong_control_size control = true.
Proof.
  unfold ComputeTaprootMerkleRoot. destruct (wrong_control_size control); [done|]. cbv zeta. generalize (for_up (St:=uint256)). intros f. split; discriminate.
Qed.

Lemma tap_fold t v script path : tap_path t v script path ->
  foldl ComputeTapbranchHash (tap_root (TapLeaf v script)) path = tap_root t /\ Forall (fun n => zlen n = 32) path.
Proof.
  induction 1 as [v script|l r v script path _ [IH Hp]|l r v script path _ [IH Hp]]; [done|..]; rewrite foldl_app, IH; cbn [foldl];
    (split; [|apply Forall_app; split; [exact Hp|apply Forall_singleton, tap_root_len]]).
  - apply ComputeTapbranchHash_spec; apply tap_root_len.
  - rewrite ComputeTapbranchHash_spec by apply tap_root_len. cbn [tap_root]. rewrite branch_order; [done|].
    pose proof (tap_root_len l). pose proof (tap_root_len r). lia.
Qed.

(** ** Properties *)

(** C5: Every flag is a soft fork: with flags [VerifyScript] allows, a spend accepted under more flags is accepted under fewer of them,
    through pay-to-script-hash, witness programs, taproot and the clean stack rule. *)
Theorem VerifyScript_soft_fork `{Cpu} `{Secp256k1} `{BaseSignatureChecker} (flags flags' : Z) (scriptSig scriptPubKey : CScript) (witness : list valtype) :
  Z.land flags flags' = flags -> script_flags_ok flags = true ->
  VerifyScript flags' scriptSig scriptPubKey witness = Ok tt -> VerifyScript flags scriptSig scriptPubKey witness = Ok tt.
Proof. intros Hsub Hok. apply VerifyScript_softer; assumption. Qed.

(** C21: Spending to a key: a pay-to-pubkey-hash output spent with a signature and a key is accepted exactly when the key has the output's
    hash and the signature check of the interpreter accepts it, and otherwise the error is that of the check, of OP_EQUALVERIFY or of the
    false result; the witness program of the same hash gives the same verdict, with the signature hash of version 0. *)
Theorem key_hash_spends `{Cpu} `{Secp256k1} `{BaseSignatureChecker} (flags : Z) (h sig key : list Z) :
  script_flags_ok flags = true -> has_flag flags SCRIPT_VERIFY_WITNESS = true -> zlen h = 20 -> CastToBool h = true ->
  limbs_ok 8 sig -> limbs_ok 8 key -> 2 <= zlen sig <= MAX_SCRIPT_ELEMENT_SIZE -> 2 <= zlen key <= MAX_SCRIPT_ELEMENT_SIZE ->
  VerifyScript flags (push_data (push_data [] sig) key) (p2pkh_script h) [] = spend_verdict flags BASE h sig key /\
  VerifyScript flags [] (OP_0 :: 20 :: h) [sig; key] = spend_verdict flags WITNESS_V0 h sig key.
Proof.
  intros Hf Hw Hh Hc Hs Hk Hls Hlk. split; [apply p2pkh_verdict|apply p2wpkh_verdict]; try assumption; try (apply long_minimal; assumption); lia.
Qed.

(** C20: A properly signed spend goes through: when a witness program of a key's hash is spent by that key with a signature in the encoding
    the flags ask for, and the curve accepts the signature of the version 0 signature hash, then [VerifyScript] accepts the input. *)
Theorem witness_key_spendable `{Cpu} `{Secp256k1} (flags nIn amount : Z) (tx : CTransaction) (txdata : option PrecomputedTransactionData)
  (h sig key : list Z) (sighash : uint256) :
  script_flags_ok flags = true -> has_flag flags SCRIPT_VERIFY_WITNESS = true -> CastToBool h = true -> zlen h = 20 -> 0 <= amount ->
  Hash160 key = h -> IsValid (CPubKey_Set key) = true -> 0 < zlen sig <= MAX_SCRIPT_ELEMENT_SIZE -> zlen key <= MAX_SCRIPT_ELEMENT_SIZE ->
  CheckSignatureEncoding sig flags = Ok tt -> CheckPubKeyEncoding key flags WITNESS_V0 = Ok tt ->
  SignatureHash (p2pkh_script h) tx nIn (back sig) amount WITNESS_V0 txdata = Some sighash ->
  PubKey_Verify (CPubKey_Set key) sighash (ztake (zlen sig - 1) sig) = true ->
  @VerifyScript _ _ (@TransactionSignatureChecker curve_verifier tx ASSERT_FAIL nIn amount txdata) flags [] (OP_0 :: 20 :: h) [sig; key] = Ok tt.
Proof.
  intros Hf Hw Hc Hh Ha Hkey Hvalid Hsig Hk Henc Hkenc Hhash Hverify. rewrite p2wpkh_verdict by (assumption || lia).
  unfold spend_verdict. rewrite bool_decide_eq_true_2 by exact Hkey. unfold EvalChecksigPreTapscript, drop_signature.
  cbn [assert_true pre_tapscript mbind outcome_bind]. change (bool_decide (WITNESS_V0 = BASE)) with false. cbn [mbind outcome_bind].
  rewrite Henc, Hkenc. cbn [mbind outcome_bind CheckECDSASignature TransactionSignatureChecker]. unfold tx_CheckECDSASignature.
  rewrite Hvalid. replace (zlen sig =? 0) with false by (symmetry; apply Z.eqb_neq; lia).
  replace (amount <? 0) with false by (symmetry; apply Z.ltb_ge; lia). rewrite andb_false_r, Hhash. cbn [negb assert_some mbind outcome_bind VerifyECDSASignature curve_verifier].
  rewrite Hverify. reflexivity.
Qed.

(** C25: Taproot's commitment: for a leaf anywhere in a tree of scripts, at most 128 branches deep, the control block that lists the roots
    beside its way up makes the code compute the root of BIP 341, whichever side each sibling is on; in every other size the block is refused. *)
Theorem taproot_merkle_path (t : TapTree) (leaf_version : Z) (script head : list Z) (path : list (list Z)) :
  tap_path t leaf_version script path -> (length path <= 128)%nat -> 0 <= leaf_version < 256 -> zlen script < 2 ^ 59 -> zlen head = 33 ->
  ComputeTaprootMerkleRoot (head ++ concat path) (ComputeTapleafHash leaf_version script) = Some (tap_root t) /\
  forall control, ComputeTaprootMerkleRoot control (ComputeTapleafHash leaf_version script) = None <->
    forall n : nat, (n <= 128)%nat -> zlen control <> 33 + 32 * Z.of_nat n.
Proof.
  intros Hpath Hl Hv Hs Hh. destruct (tap_fold _ _ _ _ Hpath) as [Hfold Hp].
  assert (Hleaf : ComputeTapleafHash leaf_version script = tap_root (TapLeaf leaf_version script)).
  { unfold ComputeTapleafHash. cbn [tap_root]. replace (ser_writedata8 leaf_version) with [leaf_version]; [|unfold ser_writedata8; f_equal; symmetry; apply wrap_small; exact Hv].
    apply TaggedHash_spec; [done|]. rewrite !zlen_app, <- GetSizeOfCompactSize_spec. unfold GetSizeOfCompactSize. repeat case_match; cbn [length]; lia. }
  split; [rewrite path_fold, Hleaf, Hfold by assumption; done|]. intros control. rewrite <- wrong_control_spec. apply merkle_root_none.
Qed.

(** The vector of test/data/script_tests.json that compares OP_HASH256 with OP_SHA256 applied twice: the scripts of
    the vector, which is marked OK, evaluate to false, because [CHash256] is one BLAKE3. *)
Theorem hash256_vector (curve : Secp256k1) (checker : BaseSignatureChecker) :
  @VerifyScript portable_cpu curve checker (Z.lor SCRIPT_VERIFY_P2SH SCRIPT_VERIFY_STRICTENC)
    [OP_0] [OP_DUP; OP_HASH256; OP_SWAP; OP_SHA256; OP_SHA256; OP_EQUAL] [] = Fail (Some SCRIPT_ERR_EVAL_FALSE).
Proof. vm_compute. reflexivity. Qed.

(** ** The properties at concrete inputs *)

Definition consensus_flags : Z := Z.lor (Z.lor SCRIPT_VERIFY_P2SH SCRIPT_VERIFY_WITNESS) SCRIPT_VERIFY_TAPROOT.

Lemma VerifyScript_soft_fork_witness :
  @VerifyScript portable_cpu no_curve equality_checker SCRIPT_VERIFY_P2SH [1; 42; 1; 42] [OP_CHECKSIG] [] = Ok tt.
Proof. apply (@VerifyScript_soft_fork portable_cpu no_curve equality_checker SCRIPT_VERIFY_P2SH consensus_flags); reflexivity. Defined.

Lemma key_hash_spends_witness :
  @VerifyScript portable_cpu no_curve equality_checker consensus_flags (push_data (push_data [] [42; 43]) [42; 43]) (p2pkh_script (repeat 1 20)) [] =
  @spend_verdict no_curve equality_checker consensus_flags BASE (repeat 1 20) [42; 43] [42; 43].
Proof.
  assert (Hb : limbs_ok 8 [42; 43]) by (repeat constructor; vm_compute; congruence).
  assert (Hl : 2 <= zlen [42; 43] <= MAX_SCRIPT_ELEMENT_SIZE) by (vm_compute; split; discriminate).
  exact (proj1 (@key_hash_spends portable_cpu no_curve equality_checker consensus_flags (repeat 1 20) [42; 43] [42; 43]
    eq_refl eq_refl eq_refl eq_refl Hb Hb Hl Hl)).
Defined.

(** a curve on which every signature of every key is valid *)
Definition accepting_curve : Secp256k1 := {|
  secp_pubkey := unit; secp_signature := unit; secp_xonly := unit;
  secp256k1_ec_pubkey_parse _ := Some tt; secp256k1_ec_pubkey_serialize _ _ := []; secp256k1_ec_pubkey_tweak_add _ _ := None;
  secp256k1_ecdsa_signature_parse_compact _ := (true, tt); secp256k1_ecdsa_signature_normalize _ := (false, tt); secp256k1_ecdsa_verify _ _ _ := true;
  secp256k1_xonly_pubkey_parse _ := None; secp256k1_xonly_pubkey_tweak_add _ _ := None; secp256k1_xonly_pubkey_from_pubkey _ := None;
  secp256k1_xonly_pubkey_serialize _ := []; secp256k1_xonly_pubkey_tweak_add_check _ _ _ _ := false; secp256k1_schnorrsig_verify _ _ _ := false |}.
Definition example_key : list Z := 2 :: repeat 1 32.
Definition example_sig : list Z := [0x30; 0x06; 0x02; 0x01; 0x01; 0x02; 0x01; 0x01; SIGHASH_ALL].

Lemma witness_key_spendable_witness :
  @VerifyScript portable_cpu accepting_curve (@TransactionSignatureChecker (@curve_verifier accepting_curve) example_tx ASSERT_FAIL 0 7 None)
    consensus_flags [] (OP_0 :: 20 :: Hash160 example_key) [example_sig; example_key] = Ok tt.
Proof.
  eapply (@witness_key_spendable portable_cpu accepting_curve consensus_flags 0 7 example_tx None (Hash160 example_key) example_sig example_key);
    try reflexivity; vm_compute; first [reflexivity|split; congruence|congruence].
Defined.

Lemma taproot_merkle_path_witness :
  let t := TapBranch (TapLeaf 0xc0 [OP_1]) (TapLeaf 0xc0 [OP_2]) in
  ComputeTaprootMerkleRoot (repeat 7 33 ++ concat [tap_root (TapLeaf 0xc0 [OP_1])]) (ComputeTapleafHash 0xc0 [OP_2]) = Some (tap_root t).
Proof.
  apply (taproot_merkle_path (TapBranch (TapLeaf 0xc0 [OP_1]) (TapLeaf 0xc0 [OP_2])) 0xc0 [OP_2] (repeat 7 33) [tap_root (TapLeaf 0xc0 [OP_1])]);
    [apply (path_right _ _ _ _ []), path_leaf|cbn; lia|lia|reflexivity|reflexivity].
Defined.
