(* ===== verification/CheckerOrder.v ===== *)
(** * Checkers that agree as far as one of them answers

    The interpreter reads signatures only through a checker (src/script/interpreter.h,
    [BaseSignatureChecker]).  When one checker gives the answers of another wherever it
    does not abort, a script that does not abort with the first has the same result with
    the second.  ScriptCheck.v uses this for the checker with a signature cache. *)

From Stdlib Require Import ZArith Lia Bool.
From stdpp Require Import base option list decidable.
From S2P Require Import Prelude Uint256 Hashes PubKey Primitives Opcodes Script ScriptFlags Interpreter InterpreterProofs SigHash VerifyScript.
Local Open Scope Z_scope.
Local Open Scope adonai_scope.

(** [m'] has the result of [m], unless [m] aborts *)
Definition agrees {A : Type} (m m' : outcome A) : Prop := m = Abort \/ m = m'.

Lemma agrees_refl {A : Type} (m : outcome A) : agrees m m.
Proof. right. reflexivity. Qed.

Lemma agrees_bind {A B : Type} (m m' : outcome A) (f f' : A -> outcome B) :
  agrees m m' -> (forall a, agrees (f a) (f' a)) -> agrees (m ≫= f) (m' ≫= f').
Proof. intros [-> | ->] Hf; [left; reflexivity|]. destruct m' as [a|e| |]; [apply Hf|right; reflexivity..]. Qed.

Lemma agrees_caught {A : Type} (m m' : outcome A) : agrees m m' -> agrees (caught m) (caught m').
Proof. intros [-> | ->]; [left|right]; reflexivity. Qed.

Create HintDb agree discriminated.
#[export] Hint Constants Opaque : agree.
#[export] Hint Extern 0 (agrees ?m ?n) => constr_eq m n; apply agrees_refl : agree.

(** one layer of an operation under the two checkers *)
Ltac agrees_step :=
  match goal with
  | |- agrees ?m ?n => constr_eq m n; apply agrees_refl
  | |- agrees (_ ≫= _) (_ ≫= _) => apply agrees_bind; [solve [eauto with agree]|intros ?]
  | |- agrees (if ?b then _ else _) (if ?c then _ else _) => constr_eq b c; destruct b
  | |- agrees (match ?x with _ => _ end) (match ?y with _ => _ end) => constr_eq x y; destruct x
  end.

Class CheckersAgree (K K' : BaseSignatureChecker) : Prop := {
  agree_ecdsa sig key code v : agrees (@CheckECDSASignature K sig key code v) (@CheckECDSASignature K' sig key code v);
  agree_schnorr sig key v d : agrees (@CheckSchnorrSignature K sig key v d) (@CheckSchnorrSignature K' sig key v d);
  agree_locktime n : agrees (@CheckLockTime K n) (@CheckLockTime K' n);
  agree_sequence n : agrees (@CheckSequence K n) (@CheckSequence K' n);
}.

Section agreement.
Context `{Cpu} `{Secp256k1} (K K' : BaseSignatureChecker) `{!CheckersAgree K K'}.
Variables (flags : Z).
Hint Resolve agree_ecdsa agree_schnorr agree_locktime agree_sequence : agree.

Lemma checksig_agrees v sig key code d : agrees (@EvalChecksig _ K sig key code d flags v) (@EvalChecksig _ K' sig key code d flags v).
Proof using H0 CheckersAgree0.
  unfold EvalChecksig. destruct v; [| |apply agrees_refl|].
  1,2: apply agrees_bind; [unfold EvalChecksigPreTapscript; repeat agrees_step|intros; apply agrees_refl].
  unfold EvalChecksigTapscript. repeat agrees_step.
  apply agrees_bind; [repeat agrees_step; eauto with agree|intros; apply agrees_refl].
Qed.
Hint Resolve checksig_agrees : agree.

Lemma multisig_check_agrees v n : forall b isig ikey nSigs nKeys s code,
  agrees (@multisig_check _ K flags v n b isig ikey nSigs nKeys s code) (@multisig_check _ K' flags v n b isig ikey nSigs nKeys s code).
Proof. induction n as [|n IH]; intros; cbn [multisig_check]; repeat agrees_step. apply IH. Qed.
Hint Resolve multisig_check_agrees : agree.

Lemma stack_op_agrees opcode : match @stack_op _ K flags opcode, @stack_op _ K' flags opcode with
  | Some f, Some f' => forall s, agrees (f s) (f' s) | None, None => True | _, _ => False end.
Proof.
  unfold stack_op. repeat match goal with |- context [if ?b then _ else _] => destruct b end; try exact I; intros s; try apply agrees_refl.
  - unfold op_checklocktimeverify. repeat agrees_step.
  - unfold op_checksequenceverify. repeat agrees_step.
Qed.

Lemma eval_opcode_agrees v opcode fExec st : agrees (@eval_opcode _ _ K flags v opcode fExec st) (@eval_opcode _ _ K' flags v opcode fExec st).
Proof.
  unfold eval_opcode. pose proof (stack_op_agrees opcode) as Hop.
  destruct (@stack_op _ K flags opcode), (@stack_op _ K' flags opcode); try done; [apply agrees_bind; [apply Hop|intros; apply agrees_refl]|].
  unfold op_checksig, op_checksigadd, op_checkmultisig. repeat agrees_step.
  all: apply agrees_bind; [|intros ?; repeat agrees_step]; repeat agrees_step.
Qed.
Hint Resolve eval_opcode_agrees : agree.

Lemma eval_loop_agrees v fuel : forall st, agrees (@eval_loop _ _ K flags v fuel st) (@eval_loop _ _ K' flags v fuel st).
Proof.
  induction fuel as [|fuel IH]; intros st; cbn [eval_loop]; agrees_step; [apply agrees_refl..|].
  apply agrees_bind; [|intros st'; apply IH]. unfold eval_step. repeat agrees_step.
  apply agrees_bind; [|intros; apply agrees_refl]. repeat agrees_step. apply eval_opcode_agrees.
Qed.

Lemma EvalScript_agrees v stack script d : agrees (@EvalScript _ _ K flags v stack script d) (@EvalScript _ _ K' flags v stack script d).
Proof.
  unfold EvalScript. do 2 agrees_step; [apply agrees_refl|]. apply agrees_bind; [apply agrees_caught, eval_loop_agrees|]. intros; apply agrees_refl.
Qed.
Hint Resolve EvalScript_agrees : agree.
Lemma plain_agrees v stack script : agrees (@EvalScript_plain _ _ K flags v stack script) (@EvalScript_plain _ _ K' flags v stack script).
Proof. unfold EvalScript_plain. repeat agrees_step. Qed.
Hint Resolve plain_agrees : agree.

Lemma ExecuteWitnessScript_agrees stack script v d :
  agrees (@ExecuteWitnessScript _ _ K flags stack script v d) (@ExecuteWitnessScript _ _ K' flags stack script v d).
Proof. unfold ExecuteWitnessScript, execute_witness. repeat agrees_step. Qed.
Hint Resolve ExecuteWitnessScript_agrees : agree.

Lemma VerifyWitnessProgram_agrees witness v program is_p2sh :
  agrees (@VerifyWitnessProgram _ _ K flags witness v program is_p2sh) (@VerifyWitnessProgram _ _ K' flags witness v program is_p2sh).
Proof.
  unfold VerifyWitnessProgram, verify_p2wsh, verify_p2wpkh, pop_back. repeat agrees_step; try apply ExecuteWitnessScript_agrees.
  unfold verify_taproot. do 2 agrees_step; [apply agrees_refl|]. cbv zeta. destruct (_ && _ && _); unfold verify_script_path, pop_back;
    repeat agrees_step; apply ExecuteWitnessScript_agrees.
Qed.
Hint Resolve VerifyWitnessProgram_agrees : agree.

(** A script that does not abort under the first checker has the same result under the second. *)
Lemma VerifyScript_agrees scriptSig spk witness :
  agrees (@VerifyScript _ _ K flags scriptSig spk witness) (@VerifyScript _ _ K' flags scriptSig spk witness).
Proof.
  unfold VerifyScript. agrees_step; [apply agrees_refl|]. do 3 agrees_step.
  apply agrees_bind; [unfold verify_bare_witness; repeat agrees_step|intros [had stack]].
  apply agrees_bind; [|intros; apply agrees_refl]. unfold verify_p2sh. repeat agrees_step.
Qed.
End agreement.

(** ** Checkers of a transaction *)

(** [V'] gives the answers of [V], unless an assertion of [V] fails *)
Class VerifiersAgree (V V' : SignatureVerifier) : Prop := {
  agree_verify_ecdsa sig key h : @VerifyECDSASignature V sig key h = None \/ @VerifyECDSASignature V sig key h = @VerifyECDSASignature V' sig key h;
  agree_verify_schnorr sig key h :
    @VerifySchnorrSignature V sig key h = None \/ @VerifySchnorrSignature V sig key h = @VerifySchnorrSignature V' sig key h;
}.

#[export] Instance transaction_checkers_agree `{Cpu} (V V' : SignatureVerifier) `{!VerifiersAgree V V'} tx mdb nIn amount txdata :
  CheckersAgree (@TransactionSignatureChecker V tx mdb nIn amount txdata) (@TransactionSignatureChecker V' tx mdb nIn amount txdata).
Proof.
  split; [| |intros n; apply agrees_refl..].
  - intros sig key code v. cbn [CheckECDSASignature TransactionSignatureChecker]. unfold tx_CheckECDSASignature. repeat agrees_step.
    destruct (agree_verify_ecdsa (ztake (zlen sig - 1) sig) (CPubKey_Set key) a) as [-> | ->]; [left; done|apply agrees_refl].
  - intros sig key v d. cbn [CheckSchnorrSignature TransactionSignatureChecker]. unfold tx_CheckSchnorrSignature. repeat agrees_step.
    apply agrees_bind; [|intros; apply agrees_refl].
    match goal with |- agrees (assert_some (VerifySchnorrSignature ?s ?k ?h)) _ => destruct (agree_verify_schnorr s k h) as [-> | ->] end;
      [left; done|apply agrees_refl].
Qed.
