(* ===== verification/CuckooCache.v ===== *)
(** * The cuckoo cache

    src/cuckoocache.h: a set of fixed size with eight places for each element, in
    which insertion moves elements from place to place and forgets one when it finds
    no room, and erasure only marks a place as free to be overwritten.  The
    signature cache and the script execution cache are such sets.

    The vectors are lists; an index is in range whenever the cache was set up, which
    [cuckoo_ok] states and every operation keeps. *)

From Stdlib Require Import ZArith Lia Bool.
From stdpp Require Import base option list decidable sorting.
From S2P Require Import Prelude Uint256.
Local Open Scope Z_scope.
Local Open Scope adonai_scope.

(** ** Flags packed in bytes *)

Definition flags_new (size : Z) : list Z := zrep (u32 (size + 7) / 8) 0xFF.
Definition flag_bit (s : Z) : Z := Z.shiftl 1 (Z.land s 7).
Definition flag_byte (s : Z) : nat := Z.to_nat (Z.shiftr s 3).
Definition bit_set (mem : list Z) (s : Z) : list Z := <[flag_byte s := Z.lor mem.[flag_byte s] (u8 (flag_bit s))]> mem.
Definition bit_unset (mem : list Z) (s : Z) : list Z := <[flag_byte s := Z.land mem.[flag_byte s] (u8 (Z.lnot (flag_bit s)))]> mem.
Definition bit_is_set (mem : list Z) (s : Z) : bool := negb (Z.land (flag_bit s) mem.[flag_byte s] =? 0).

(** src/util/fastrange.h *)
Definition FastRange32 (x n : Z) : Z := u32 (Z.shiftr (x * n) 32).

(** [hash_function.operator()<i>]; the default element fills a table; [log2_float] is the byte [std::log2] of a [float] is truncated to *)
Class CacheElement (Element : Type) := {
  element_eq :: EqDecision Element;
  default_element : Element;
  hash_function : Z -> Element -> Z;
  log2_float : Z -> Z;
}.

(** 32-bit hashes, and at least one round of insertion *)
Class LawfulElement (Element : Type) `{CacheElement Element} : Prop := {
  hash_range i e : 0 <= hash_function i e < 2 ^ 32;
  log2_range n : 2 <= n < 2 ^ 32 -> 1 <= log2_float n < 256;
}.

Record cache (Element : Type) : Type := {
  table : list Element;
  size : Z;
  collection_flags : list Z;
  epoch_flags : list bool;
  epoch_heuristic_counter : Z;
  epoch_size : Z;
  depth_limit : Z;
}.
Arguments table {_} _.
Arguments size {_} _.
Arguments collection_flags {_} _.
Arguments epoch_flags {_} _.
Arguments epoch_heuristic_counter {_} _.
Arguments epoch_size {_} _.
Arguments depth_limit {_} _.

Section cuckoo.
Context {Element : Type} `{CacheElement Element}.
Implicit Types (c : cache Element) (e : Element).

Definition with_table c (t : list Element) : cache Element := {|
  table := t; size := size c; collection_flags := collection_flags c; epoch_flags := epoch_flags c;
  epoch_heuristic_counter := epoch_heuristic_counter c; epoch_size := epoch_size c; depth_limit := depth_limit c |}.
Definition with_collection c (f : list Z) : cache Element := {|
  table := table c; size := size c; collection_flags := f; epoch_flags := epoch_flags c;
  epoch_heuristic_counter := epoch_heuristic_counter c; epoch_size := epoch_size c; depth_limit := depth_limit c |}.
Definition with_epoch c (f : list bool) : cache Element := {|
  table := table c; size := size c; collection_flags := collection_flags c; epoch_flags := f;
  epoch_heuristic_counter := epoch_heuristic_counter c; epoch_size := epoch_size c; depth_limit := depth_limit c |}.
Definition with_counter c (n : Z) : cache Element := {|
  table := table c; size := size c; collection_flags := collection_flags c; epoch_flags := epoch_flags c;
  epoch_heuristic_counter := n; epoch_size := epoch_size c; depth_limit := depth_limit c |}.

Definition invalid : Z := 2 ^ 32 - 1.
Definition compute_hashes c e : list Z := (fun i => FastRange32 (hash_function i e) (size c)) <$> [0; 1; 2; 3; 4; 5; 6; 7].
Definition allow_erase c (n : Z) : cache Element := with_collection c (bit_set (collection_flags c) n).
Definition please_keep c (n : Z) : cache Element := with_collection c (bit_unset (collection_flags c) n).

Definition epoch_at c (i : Z) : bool := nth (Z.to_nat i) (epoch_flags c) false.
Definition element_at c (i : Z) : Element := nth (Z.to_nat i) (table c) default_element.
Definition set_epoch c (i : Z) (b : bool) : cache Element := with_epoch c (<[Z.to_nat i := b]> (epoch_flags c)).
Definition set_element c (i : Z) e : cache Element := with_table c (<[Z.to_nat i := e]> (table c)).

(** the elements of the latest epoch that have not been erased *)
Definition epoch_unused_count c : Z :=
  for_up (Z.to_nat (size c)) (fun i n => u32 (n + (if epoch_at c (Z.of_nat i) && negb (bit_is_set (collection_flags c) (Z.of_nat i)) then 1 else 0))) 0.

Definition epoch_check c : cache Element :=
  if negb (epoch_heuristic_counter c =? 0) then with_counter c (epoch_heuristic_counter c - 1)
  else
    let unused := epoch_unused_count c in
    if unused >=? epoch_size c then
      let c := for_up (Z.to_nat (size c)) (fun i c =>
        if epoch_at c (Z.of_nat i) then set_epoch c (Z.of_nat i) false else allow_erase c (Z.of_nat i)) c in
      with_counter c (epoch_size c)
    else with_counter c (Z.max 1 (Z.max (epoch_size c / 16) (epoch_size c - unused))).

(** on a new cache; a new vector of flags is all false *)
Definition setup (new_size : Z) : cache Element :=
  let size := Z.max 2 new_size in
  let epoch_size := Z.max 1 (u32 (45 * size) / 100) in
  {| table := zrep size default_element; size := size; collection_flags := flags_new size; epoch_flags := zrep size false;
     epoch_heuristic_counter := epoch_size; epoch_size := epoch_size; depth_limit := log2_float size |}.

(** the cache, the number of elements and their size *)
Definition setup_bytes (sizeof_element bytes : Z) : cache Element * (Z * Z) :=
  let requested_num_elems := Z.min (bytes / sizeof_element) (2 ^ 32 - 1) in
  let c := setup requested_num_elems in
  (c, (size c, u64 (size c * sizeof_element))).

(** the place of [last_loc] among the eight, or 8 *)
Definition find_loc (locs : list Z) (last_loc : Z) : nat :=
  match list_find (fun loc => loc = last_loc) locs with Some (i, _) => i | None => length locs end.

(** [for (uint8_t depth = 0; depth < depth_limit; ++depth)] *)
Fixpoint insert_loop (depth : nat) c e (last_loc : Z) (last_epoch : bool) (locs : list Z) : cache Element :=
  match depth with
  | O => c
  | S depth =>
      match List.find (fun loc => bit_is_set (collection_flags c) loc) locs with
      | Some loc => set_epoch (please_keep (set_element c loc e) loc) loc last_epoch
      | None =>
          let last_loc := locs.[Z.to_nat (Z.land (1 + Z.of_nat (find_loc locs last_loc)) 7)] in
          let evicted := element_at c last_loc in
          let epoch := last_epoch in
          let last_epoch := epoch_at c last_loc in
          let c := set_epoch (set_element c last_loc e) last_loc epoch in
          insert_loop depth c evicted last_loc last_epoch (compute_hashes c evicted)
      end
  end.

Definition insert c e : cache Element :=
  let c := epoch_check c in
  let locs := compute_hashes c e in
  match List.find (fun loc => bool_decide (element_at c loc = e)) locs with
  | Some loc => set_epoch (please_keep c loc) loc true
  | None => insert_loop (Z.to_nat (depth_limit c)) c e invalid true locs
  end.

(** the flags are mutable *)
Definition contains c e (erase : bool) : bool * cache Element :=
  match List.find (fun loc => bool_decide (element_at c loc = e)) (compute_hashes c e) with
  | Some loc => (true, if erase then allow_erase c loc else c)
  | None => (false, c)
  end.

End cuckoo.

(** ** Flags *)

Lemma flag_index s : 0 <= s -> flag_byte s = Z.to_nat (s / 8) /\ flag_bit s = 2 ^ (s mod 8) /\ 0 <= s mod 8 < 8.
Proof.
  intros Hs. unfold flag_byte, flag_bit. rewrite Z.shiftr_div_pow2 by lia. change 7 with (Z.ones 3). rewrite Z.land_ones by lia.
  rewrite Z.shiftl_1_l. split_and!; [done|done|apply Z.mod_pos_bound; lia..].
Qed.

Lemma bit_is_set_testbit mem s : 0 <= s -> bit_is_set mem s = Z.testbit mem.[Z.to_nat (s / 8)] (s mod 8).
Proof.
  intros Hs. destruct (flag_index s Hs) as (Eb & Ef & Hr). unfold bit_is_set. rewrite Eb, Ef, Z.land_comm. generalize mem.[Z.to_nat (s / 8)]. intros m.
  destruct (Z.eqb_spec (Z.land m (2 ^ (s mod 8))) 0) as [E|E]; cbn [negb].
  - assert (Hb : Z.testbit (Z.land m (2 ^ (s mod 8))) (s mod 8) = false) by (rewrite E; apply Z.bits_0).
    rewrite Z.land_spec, Z.pow2_bits_true in Hb by lia. destruct (Z.testbit m (s mod 8)); done.
  - destruct (Z.testbit m (s mod 8)) eqn:Et; [done|]. destruct E. apply Z.bits_inj'. intros n Hn. rewrite Z.land_spec, Z.bits_0.
    destruct (Z.eq_dec n (s mod 8)) as [->|Hne]; [rewrite Et; done|]. rewrite Z.pow2_bits_false by lia. apply andb_false_r.
Qed.

Lemma same_flag s t : 0 <= s -> 0 <= t -> s / 8 = t / 8 -> s mod 8 = t mod 8 -> s = t.
Proof. intros Hs Ht Hd Hm. rewrite (Z.div_mod s 8), (Z.div_mod t 8) by lia. lia. Qed.

Section bits.
Variables (mem : list Z) (s t : Z).
Hypotheses (s_ok : 0 <= s < 8 * zlen mem) (t_ok : 0 <= t).

Lemma s_byte : (Z.to_nat (s / 8) < length mem)%nat.
Proof. Z.div_mod_to_equations. lia. Qed.

Lemma other_byte f : s / 8 <> t / 8 -> (<[Z.to_nat (s / 8) := f]> mem).[Z.to_nat (t / 8)] = mem.[Z.to_nat (t / 8)].
Proof. intros Hne. rewrite !nth_lookup. rewrite list_lookup_insert_ne; [done|]. Z.div_mod_to_equations. lia. Qed.

Lemma bit_set_spec : bit_is_set (bit_set mem s) t = bool_decide (s = t) || bit_is_set mem t.
Proof.
  destruct (flag_index s) as (Eb & Ef & Hr); [lia|]. rewrite !bit_is_set_testbit by lia. unfold bit_set. rewrite Eb, Ef.
  destruct (Z.eq_dec (s / 8) (t / 8)) as [Ed|Hne]; [|rewrite other_byte by done; rewrite bool_decide_eq_false_2; [done|congruence]].
  rewrite <- Ed, nth_insert_eq by apply s_byte. rewrite Z.lor_spec, orb_comm. f_equal.
  rewrite wrap_small by (unfold fits; split; [apply Z.pow_nonneg; lia|apply Z.pow_lt_mono_r; lia]). rewrite Z.pow2_bits_eqb by lia.
  destruct (bool_decide_reflect (s = t)) as [->|Hne]; [apply Z.eqb_refl|]. apply Z.eqb_neq. intros Em. apply Hne, same_flag; (lia || assumption).
Qed.

Lemma bit_unset_spec : bit_is_set (bit_unset mem s) t = negb (bool_decide (s = t)) && bit_is_set mem t.
Proof.
  destruct (flag_index s) as (Eb & Ef & Hr); [lia|]. rewrite !bit_is_set_testbit by lia. unfold bit_unset. rewrite Eb, Ef.
  destruct (Z.eq_dec (s / 8) (t / 8)) as [Ed|Hne]; [|rewrite other_byte by done; rewrite bool_decide_eq_false_2; [done|congruence]].
  rewrite <- Ed, nth_insert_eq by apply s_byte. rewrite Z.land_spec, andb_comm. f_equal.
  pose proof (Z.mod_pos_bound t 8 ltac:(lia)). change (u8 (Z.lnot (2 ^ (s mod 8)))) with (Z.lnot (2 ^ (s mod 8)) mod 2 ^ 8).
  rewrite Z.mod_pow2_bits_low, Z.lnot_spec, Z.pow2_bits_eqb by lia. f_equal.
  destruct (bool_decide_reflect (s = t)) as [->|Hne]; [apply Z.eqb_refl|]. apply Z.eqb_neq. intros Em. apply Hne, same_flag; (lia || assumption).
Qed.
End bits.

(** ** The invariant *)

Section invariant.
Context {Element : Type} `{LawfulElement Element}.
Implicit Types (c : cache Element) (e x : Element).

Record cuckoo_ok c : Prop := {
  ok_size : 2 <= size c <= 2 ^ 32 - 8;
  ok_table : zlen (table c) = size c;
  ok_collection : zlen (collection_flags c) = (size c + 7) / 8;
  ok_epoch : zlen (epoch_flags c) = size c;
  ok_counter : 0 <= epoch_heuristic_counter c < 2 ^ 32;
  ok_epoch_size : 1 <= epoch_size c < 2 ^ 32;
  ok_depth : 1 <= depth_limit c < 256;
}.

(** every element is at one of its places, the elements a new table is filled with apart *)
Definition placed c : Prop := forall (i : nat) x, table c !! i = Some x -> x = default_element \/ Z.of_nat i ∈ compute_hashes c x.

Lemma FastRange32_lt (x n : Z) : 0 <= x < 2 ^ 32 -> 0 < n < 2 ^ 32 -> 0 <= FastRange32 x n < n.
Proof.
  intros Hx Hn. unfold FastRange32. rewrite Z.shiftr_div_pow2 by lia.
  assert (Hq : 0 <= x * n / 2 ^ 32 < n) by (split; [apply Z.div_pos; nia|apply Z.div_lt_upper_bound; nia]).
  rewrite wrap_small; [exact Hq|]. unfold fits. lia.
Qed.

Lemma locs_ok c e loc : cuckoo_ok c -> loc ∈ compute_hashes c e -> 0 <= loc < size c.
Proof.
  intros Hc Hin. apply list_elem_of_fmap in Hin as (i & -> & _). pose proof (ok_size c Hc). apply FastRange32_lt; [apply hash_range|lia].
Qed.

Lemma loc_at c loc : cuckoo_ok c -> 0 <= loc < size c -> table c !! Z.to_nat loc = Some (element_at c loc).
Proof. intros Hc Hl. unfold element_at. rewrite nth_lookup. destruct (lookup_lt_is_Some_2 (table c) (Z.to_nat loc)) as [x Hx]; [rewrite <- (ok_table c Hc) in Hl; lia|]. rewrite Hx. done. Qed.

Lemma set_ok c loc b e : cuckoo_ok c -> cuckoo_ok (set_epoch c loc b) /\ cuckoo_ok (set_element c loc e) /\ cuckoo_ok (allow_erase c loc) /\ cuckoo_ok (please_keep c loc).
Proof.
  intros []. unfold set_epoch, set_element, allow_erase, please_keep, bit_set, bit_unset.
  split_and!; split; cbn; rewrite ?length_insert; assumption.
Qed.

(** changing the flags keeps the set *)
Lemma flags_placed c c' : table c' = table c -> size c' = size c -> placed c -> placed c'.
Proof. unfold placed, compute_hashes. intros -> ->. done. Qed.

Lemma epoch_check_ok c : cuckoo_ok c -> cuckoo_ok (epoch_check c) /\ table (epoch_check c) = table c /\ size (epoch_check c) = size c /\
  depth_limit (epoch_check c) = depth_limit c.
Proof.
  intros Hc. pose proof Hc as [Hs Ht Hf He Hn Hz Hd]. unfold epoch_check. destruct (Z.eqb_spec (epoch_heuristic_counter c) 0); cbn [negb].
  2: { split; [|done]. split; cbn; (assumption || lia). }
  assert (Hu : 0 <= epoch_unused_count c).
  { unfold epoch_unused_count. apply (for_up_ind (fun _ n => 0 <= n)); [lia|]. intros i n _ _. apply Z.mod_pos_bound. lia. }
  destruct (epoch_unused_count c >=? epoch_size c) eqn:Eu.
  - set (loop := for_up _ _ c). assert (Hl : cuckoo_ok loop /\ table loop = table c /\ size loop = size c /\ depth_limit loop = depth_limit c).
    { unfold loop. apply (for_up_ind (fun _ c' => cuckoo_ok c' /\ table c' = table c /\ size c' = size c /\ depth_limit c' = depth_limit c)); [done|].
      intros i c' _ (Hc' & E). destruct (set_ok c' (Z.of_nat i) false default_element Hc') as (H1 & _ & H3 & _).
      case_match; (split; [assumption|exact E]). }
    destruct Hl as ([] & E). split; [split; cbn; (assumption || lia)|exact E].
  - split; [|done]. split; cbn; try assumption. Z.div_mod_to_equations. lia.
Qed.

Lemma setup_ok n : 0 <= n <= 2 ^ 32 - 8 -> cuckoo_ok (setup n) /\ placed (setup n).
Proof.
  intros Hn. split.
  - unfold setup. pose proof (log2_range (Z.max 2 n) ltac:(lia)). assert (Hu : 0 <= u32 (45 * Z.max 2 n) < 2 ^ 32) by (apply Z.mod_pos_bound; lia).
    split; cbn; rewrite ?zlen_zrep by lia; try done; try lia; try (Z.div_mod_to_equations; lia).
    unfold flags_new. rewrite wrap_small by (unfold fits; lia). apply zlen_zrep. Z.div_mod_to_equations. lia.
  - intros i x Hx. left. cbn in Hx. apply lookup_replicate in Hx as [-> _]. done.
Qed.

(** ** Insertion *)

Lemma insert_perm (l : list Element) i x y : l !! i = Some y -> y :: <[i := x]> l ≡ₚ x :: l.
Proof.
  intros Hl. rewrite <- (take_drop_middle l i y Hl) at 2. rewrite (insert_take_drop l i x) by (apply lookup_lt_Some in Hl; exact Hl).
  rewrite <- !Permutation_middle. apply Permutation_swap.
Qed.

Lemma set_element_placed c e loc : cuckoo_ok c -> placed c -> loc ∈ compute_hashes c e -> placed (set_element c loc e).
Proof.
  intros Hc Hp Hloc i x Hx. pose proof (locs_ok _ _ _ Hc Hloc) as Hr. cbn in Hx.
  destruct (decide (i = Z.to_nat loc)) as [->|Hne].
  - rewrite list_lookup_insert_eq in Hx by (rewrite <- (ok_table c Hc) in Hr; lia). injection Hx as <-. right. rewrite Z2Nat.id by lia. exact Hloc.
  - rewrite list_lookup_insert_ne in Hx by congruence. exact (Hp i x Hx).
Qed.

(** the loop keeps the invariant, and of the elements and the one to insert it loses one *)
Lemma insert_loop_spec depth : forall c e last_loc b, cuckoo_ok c -> placed c ->
  let c' := insert_loop depth c e last_loc b (compute_hashes c e) in
  cuckoo_ok c' /\ placed c' /\ size c' = size c /\ exists d, d :: table c' ≡ₚ e :: table c.
Proof.
  induction depth as [|depth IH]; intros c e last_loc b Hc Hp; cbn [insert_loop]; [eauto|].
  destruct (List.find _ _) as [loc|] eqn:Ef.
  - apply find_some in Ef as [Hin _]. apply list_elem_of_In in Hin. pose proof (locs_ok _ _ _ Hc Hin) as Hr. split_and!.
    + apply set_ok, set_ok, set_ok, Hc; exact default_element || exact true.
    + apply (flags_placed (set_element c loc e)); [done..|]. apply set_element_placed; assumption.
    + done.
    + exists (element_at c loc). cbn. apply insert_perm, loc_at; assumption.
  - set (k := Z.to_nat _). set (loc := (compute_hashes c e).[k]).
    assert (Hin : loc ∈ compute_hashes c e).
    { apply list_elem_of_In, nth_In. unfold compute_hashes. rewrite length_fmap. cbn [length]. unfold k. change 7 with (Z.ones 3).
      rewrite Z.land_ones by lia. pose proof (Z.mod_pos_bound (1 + Z.of_nat (find_loc (compute_hashes c e) last_loc)) (2 ^ 3) ltac:(lia)). lia. }
    pose proof (locs_ok _ _ _ Hc Hin) as Hr. set (c1 := set_epoch (set_element c loc e) loc b).
    assert (Hc1 : cuckoo_ok c1) by (apply set_ok, set_ok, Hc; exact default_element || exact true).
    assert (Hp1 : placed c1) by (apply (flags_placed (set_element c loc e)); [done..|apply set_element_placed; assumption]).
    destruct (IH c1 (element_at c loc) loc (epoch_at c loc) Hc1 Hp1) as (Hok & Hpl & Hsz & d & Hd). split_and!; [exact Hok|exact Hpl|exact Hsz|].
    exists d. etransitivity; [exact Hd|]. cbn. apply insert_perm, loc_at; assumption.
Qed.

Lemma insert_spec c e : cuckoo_ok c -> placed c ->
  cuckoo_ok (insert c e) /\ placed (insert c e) /\ exists d, (d = e \/ d ∈ table c) /\
    (forall x, x ∈ table (insert c e) -> x = e \/ x ∈ table c) /\ (forall x, x = e \/ x ∈ table c -> x = d \/ x ∈ table (insert c e)).
Proof.
  intros Hc Hp. destruct (epoch_check_ok c Hc) as (Hc1 & Et & Es & _). unfold insert. set (c1 := epoch_check c) in *.
  assert (Hp1 : placed c1) by (apply (flags_placed c); assumption).
  destruct (List.find _ _) as [loc|] eqn:Ef.
  - apply find_some in Ef as [Hin Heq]. apply list_elem_of_In in Hin. apply bool_decide_eq_true in Heq. split_and!.
    + apply set_ok, set_ok, Hc1; exact default_element || exact true.
    + apply (flags_placed c1); done.
    + exists e. cbn. rewrite Et. naive_solver.
  - destruct (insert_loop_spec (Z.to_nat (depth_limit c1)) c1 e invalid true Hc1 Hp1) as (Hok & Hpl & _ & d & Hd).
    split_and!; [exact Hok|exact Hpl|]. exists d. rewrite <- Et. split_and!.
    + apply elem_of_cons. rewrite <- Hd. apply list_elem_of_here.
    + intros x Hx. apply elem_of_cons. rewrite <- Hd. apply list_elem_of_further, Hx.
    + intros x Hx. apply elem_of_cons in Hx. rewrite <- Hd in Hx. apply elem_of_cons, Hx.
Qed.

(** an element finds room in a place that may be overwritten *)
Lemma insert_found c e loc : cuckoo_ok c -> loc ∈ compute_hashes c e -> bit_is_set (collection_flags (epoch_check c)) loc = true -> e ∈ table (insert c e).
Proof.
  intros Hc Hin Hfree. destruct (epoch_check_ok c Hc) as (Hc1 & Et & Es & Ed). unfold insert. set (c1 := epoch_check c) in *.
  assert (Hin1 : loc ∈ compute_hashes c1 e) by (unfold compute_hashes; rewrite Es; exact Hin).
  destruct (List.find (fun l => bool_decide _) _) as [l|] eqn:Ef.
  - apply find_some in Ef as [Hl Heq]. apply list_elem_of_In in Hl. apply bool_decide_eq_true in Heq. cbn. rewrite <- Heq at 1.
    apply (list_elem_of_lookup_2 _ (Z.to_nat l)), loc_at, (locs_ok _ e); assumption.
  - pose proof (ok_depth c1 Hc1). destruct (Z.to_nat (depth_limit c1)) as [|depth] eqn:Edepth; [lia|]. cbn [insert_loop].
    destruct (List.find (fun l => bit_is_set _ l) _) as [l|] eqn:Ef'.
    + apply find_some in Ef' as [Hl _]. apply list_elem_of_In in Hl. pose proof (locs_ok _ _ _ Hc1 Hl) as Hr. cbn.
      apply (list_elem_of_lookup_2 _ (Z.to_nat l)), list_lookup_insert_eq. rewrite <- (ok_table c1 Hc1) in Hr. lia.
    + pose proof (find_none _ _ Ef' loc ltac:(apply list_elem_of_In, Hin1)) as Hno. cbn in Hno. congruence.
Qed.

Lemma contains_spec c e erase : cuckoo_ok c -> placed c ->
  cuckoo_ok (contains c e erase).2 /\ placed (contains c e erase).2 /\ table (contains c e erase).2 = table c /\
  ((contains c e erase).1 = true -> e ∈ table c) /\ (e <> default_element -> e ∈ table c -> (contains c e erase).1 = true).
Proof.
  intros Hc Hp. unfold contains. destruct (List.find _ _) as [loc|] eqn:Ef; cbn [fst snd].
  - apply find_some in Ef as [Hin Heq]. apply list_elem_of_In in Hin. apply bool_decide_eq_true in Heq.
    assert (He : e ∈ table c).
    { rewrite <- Heq. apply (list_elem_of_lookup_2 _ (Z.to_nat loc)), loc_at, (locs_ok _ e); assumption. }
    destruct erase; split_and!; try done. apply set_ok, Hc; exact default_element || exact true.
  - split_and!; try done. intros Hd He. apply list_elem_of_lookup in He as [i Hi]. destruct (Hp i e Hi) as [?|Hin]; [done|].
    pose proof (find_none _ _ Ef (Z.of_nat i) ltac:(apply list_elem_of_In, Hin)) as Hno. apply bool_decide_eq_false in Hno. destruct Hno.
    unfold element_at. rewrite Nat2Z.id, nth_lookup, Hi. done.
Qed.
End invariant.

(** ** Properties *)

Section properties.
Context {Element : Type} `{LawfulElement Element}.
Implicit Types (c : cache Element) (e x : Element).

(** a set that takes an element in and forgets at most one of those it has *)
Definition lossy_insert (e : Element) (s s' : list Element) : Prop :=
  exists d, (d = e \/ d ∈ s) /\ (forall x, x ∈ s' -> x = e \/ x ∈ s) /\ (forall x, x = e \/ x ∈ s -> x = d \/ x ∈ s').

Inductive cache_op : Type :=
| op_insert (e : Element)
| op_contains (e : Element) (erase : bool).
Definition run_op c (op : cache_op) : cache Element :=
  match op with op_insert e => insert c e | op_contains e erase => (contains c e erase).2 end.

Lemma run_ok n ops : 0 <= n <= 2 ^ 32 - 8 -> let c := foldl run_op (setup n) ops in
  cuckoo_ok c /\ placed c /\ forall x, x ∈ table c -> x = default_element \/ op_insert x ∈ ops.
Proof.
  intros Hn. induction ops as [|op ops IH] using rev_ind.
  - destruct (setup_ok n Hn) as [Hc Hp]. cbn [foldl]. split_and!; [exact Hc|exact Hp|]. intros x Hx. left.
    cbn in Hx. apply list_elem_of_lookup in Hx as [i Hi]. apply lookup_replicate in Hi as [-> _]. done.
  - cbv zeta in *. rewrite foldl_app. cbn [foldl]. set (c := foldl run_op (setup n) ops) in *. destruct IH as (Hc & Hp & Hx). destruct op as [e|e erase]; cbn [run_op].
    + destruct (insert_spec c e Hc Hp) as (Hc' & Hp' & d & _ & Hnew & _). split_and!; [exact Hc'|exact Hp'|]. intros x Hin.
      rewrite elem_of_app, list_elem_of_singleton. destruct (Hnew x Hin) as [->|Hold]; [auto|destruct (Hx x Hold); auto].
    + destruct (contains_spec c e erase Hc Hp) as (Hc' & Hp' & Et & _). split_and!; [exact Hc'|exact Hp'|]. intros x Hin. rewrite Et in Hin.
      rewrite elem_of_app. destruct (Hx x Hin); auto.
Qed.

(** C27: The cache is a lossy set: after any sequence of insertions and lookups on a cache set up for at most 2^32 - 8 elements its indices are in
    range and every element sits at one of its eight places; a lookup reports only what was inserted (or the element a new table is filled with),
    answers membership exactly and forgets nothing, even when it allows erasure; an insertion loses at most one element, and keeps the new one
    when one of its places may be overwritten. *)
Theorem cuckoo_cache_set (n : Z) (ops : list cache_op) (e : Element) (erase : bool) : 0 <= n <= 2 ^ 32 - 8 -> e <> default_element ->
  let c := foldl run_op (setup n) ops in
  cuckoo_ok c /\ ((contains c e erase).1 = true <-> e ∈ table c) /\ table (contains c e erase).2 = table c /\
  (e ∈ table c -> op_insert e ∈ ops) /\ lossy_insert e (table c) (table (insert c e)) /\
  ((exists loc, loc ∈ compute_hashes c e /\ bit_is_set (collection_flags (epoch_check c)) loc = true) -> e ∈ table (insert c e)).
Proof.
  intros Hn He c. destruct (run_ok n ops Hn) as (Hc & Hp & Hx). fold c in Hc, Hp, Hx.
  destruct (contains_spec c e erase Hc Hp) as (_ & _ & Et & Hyes & Hno). destruct (insert_spec c e Hc Hp) as (_ & _ & Hins).
  split_and!; try done; [split; auto|intros Hin; destruct (Hx e Hin); done|]. intros (loc & Hloc & Hfree). exact (insert_found c e loc Hc Hloc Hfree).
Qed.

(** How large a cache may be: [setup] gives a cache whose flags cover every element exactly up to 2^32 - 8 elements; for a larger 32-bit
    size the rounding of the number of bytes wraps around and there are no flags at all. *)
Theorem cuckoo_setup_limit (n : Z) : 0 <= n < 2 ^ 32 ->
  (cuckoo_ok (setup n) <-> n <= 2 ^ 32 - 8) /\ (n > 2 ^ 32 - 8 -> collection_flags (setup n) = []).
Proof.
  intros Hn. assert (Hbig : n > 2 ^ 32 - 8 -> collection_flags (setup n) = []).
  { intros Hb. cbn. unfold flags_new. replace (Z.max 2 n) with n by lia. replace (u32 (n + 7)) with (n + 7 - 2 ^ 32); [|apply (Z.mod_unique_pos _ _ 1); lia].
    rewrite Z.div_small by lia. done. }
  split; [split|exact Hbig]; [intros [_ _ Hf _ _ _ _]|intros Hl; apply setup_ok; lia].
  destruct (Z_le_gt_dec n (2 ^ 32 - 8)); [assumption|]. rewrite Hbig in Hf by assumption. cbn [length setup size] in Hf.
  replace (Z.max 2 n) with n in Hf by lia. Z.div_mod_to_equations. lia.
Qed.
End properties.

(** ** The properties at concrete inputs *)

(** numbers, at every other place *)
#[export] Instance example_element : CacheElement Z := {| default_element := 0; hash_function i e := (e * 2 ^ 28 + i * 2 ^ 29) mod 2 ^ 32; log2_float n := 4 |}.
#[export] Instance example_element_lawful : LawfulElement Z.
Proof. split; intros; cbn; [apply Z.mod_pos_bound|]; lia. Qed.

Lemma cuckoo_cache_set_witness : op_insert 7 ∈ [op_insert 9; op_insert 7; op_contains 9 true].
Proof.
  assert (Hd : 7 <> default_element) by (vm_compute; discriminate).
  destruct (cuckoo_cache_set 16 [op_insert 9; op_insert 7; op_contains 9 true] 7 false ltac:(lia) Hd)
    as (_ & Hyes & _ & Hin & _). apply Hin, Hyes. vm_compute. reflexivity.
Defined.

Lemma cuckoo_setup_limit_witness : collection_flags (Element := Z) (setup (2 ^ 32 - 2)) = [].
Proof. apply (cuckoo_setup_limit (Element := Z) (2 ^ 32 - 2) ltac:(lia)). lia. Defined.
