(* ===== verification/SigCache.v ===== *)
(** * The signature cache

    src/script/sigcache.cpp: signatures that were verified are remembered by a salted
    hash, in a cuckoo cache, and a checker that finds one there does not verify it
    again.  [cache_transparent] says that such a checker answers as the curve does,
    unless the hash of what it asks for is the hash of something else it stored.

    The bytes the element's hashes read are taken in the order of the host; [log2_float]
    is that of CuckooCache.v. *)

From Stdlib Require Import ZArith Lia Bool.
From stdpp Require Import base option list decidable.
From S2P Require Import Prelude Uint256 Sha256 Sha256Proofs Serialize PubKey CuckooCache Interpreter InterpreterProofs SigHash VerifyScript CheckerOrder.
Local Open Scope Z_scope.
Local Open Scope adonai_scope.

(** [std::memcpy] of four bytes to a number *)
Definition memcpy_u32 (little_endian : bool) (bytes : list Z) : Z :=
  u32 (if little_endian then ReadLE 4 bytes else ReadBE32 bytes).

(** what the host decides *)
Class Host := { host_little_endian : bool; host_log2 : Z -> Z }.

#[export] Instance SignatureCacheHasher `{Host} : CacheElement uint256 := {|
  default_element := zrep 32 0;
  hash_function hash_select key := memcpy_u32 host_little_endian (ztake 4 (zdrop (4 * hash_select) key));
  log2_float := host_log2;
|}.

Record SignatureCache : Type := {
  m_salted_hasher_ecdsa : CSHA256;
  m_salted_hasher_schnorr : CSHA256;
  setValid : cache uint256;
}.

Definition PADDING_ECDSA : list Z := 69 :: zrep 31 0.
Definition PADDING_SCHNORR : list Z := 83 :: zrep 31 0.
Definition SignatureCache_new `{Host} (nonce : uint256) (max_size_bytes : Z) : SignatureCache := {|
  m_salted_hasher_ecdsa := CSHA256_Write (CSHA256_Write CSHA256_init nonce) PADDING_ECDSA;
  m_salted_hasher_schnorr := CSHA256_Write (CSHA256_Write CSHA256_init nonce) PADDING_SCHNORR;
  setValid := (setup_bytes 32 max_size_bytes).1;
|}.

Definition with_valid (c : SignatureCache) (s : cache uint256) : SignatureCache := {|
  m_salted_hasher_ecdsa := m_salted_hasher_ecdsa c; m_salted_hasher_schnorr := m_salted_hasher_schnorr c; setValid := s |}.

Definition ComputeEntryECDSA (c : SignatureCache) (hash : uint256) (vchSig pubkey : list Z) : uint256 :=
  CSHA256_Finalize (CSHA256_Write (CSHA256_Write (CSHA256_Write (m_salted_hasher_ecdsa c) hash) (ztake (CPubKey_size pubkey) pubkey)) vchSig).
Definition ComputeEntrySchnorr (c : SignatureCache) (hash : uint256) (sig pubkey : list Z) : uint256 :=
  CSHA256_Finalize (CSHA256_Write (CSHA256_Write (CSHA256_Write (m_salted_hasher_schnorr c) hash) pubkey) sig).

Definition SignatureCache_Get `{Host} (c : SignatureCache) (entry : uint256) (erase : bool) : bool * SignatureCache :=
  let (found, s) := contains (setValid c) entry erase in (found, with_valid c s).
Definition SignatureCache_Set `{Host} (c : SignatureCache) (entry : uint256) : SignatureCache := with_valid c (insert (setValid c) entry).

Section caching.
Context `{Host} `{Secp256k1}.
Variable store : bool.

(** [VerifyECDSASignature] and [VerifySchnorrSignature] of [CachingTransactionSignatureChecker] *)
Definition caching_VerifyECDSASignature (c : SignatureCache) (vchSig pubkey : list Z) (sighash : uint256) : option (bool * SignatureCache) :=
  let entry := ComputeEntryECDSA c sighash vchSig pubkey in
  let (found, c) := SignatureCache_Get c entry (negb store) in
  if found : bool then Some (true, c)
  else
    verified ← @VerifyECDSASignature curve_verifier vchSig pubkey sighash;
    if negb verified then Some (false, c)
    else Some (true, if store then SignatureCache_Set c entry else c).
Definition caching_VerifySchnorrSignature (c : SignatureCache) (sig pubkey : list Z) (sighash : uint256) : option (bool * SignatureCache) :=
  let entry := ComputeEntrySchnorr c sighash sig pubkey in
  let (found, c) := SignatureCache_Get c entry (negb store) in
  if found : bool then Some (true, c)
  else
    verified ← @VerifySchnorrSignature curve_verifier sig pubkey sighash;
    if negb verified then Some (false, c)
    else Some (true, if store then SignatureCache_Set c entry else c).
End caching.

(** ** What is asked of the cache *)

Inductive request : Type :=
| req_ecdsa (sig key : list Z) (hash : uint256)
| req_schnorr (sig key : list Z) (hash : uint256).

(** keys as long as their first byte says, 32-byte hashes and x-only keys, 64-byte Schnorr signatures *)
Definition request_ok (r : request) : Prop :=
  match r with
  | req_ecdsa sig key hash => zlen hash = 32 /\ IsValid key = true /\ zlen key = CPubKey_size key /\ zlen sig < 2 ^ 32
  | req_schnorr sig key hash => zlen hash = 32 /\ zlen key = 32 /\ zlen sig = 64
  end.
(** the documented preimage of an entry *)
Definition request_msg (nonce : uint256) (r : request) : list Z :=
  match r with
  | req_ecdsa sig key hash => (nonce ++ PADDING_ECDSA) ++ hash ++ key ++ sig
  | req_schnorr sig key hash => (nonce ++ PADDING_SCHNORR) ++ hash ++ key ++ sig
  end.

Lemma key_len key : IsValid key = true -> 0 < CPubKey_size key <= 65 /\ key <> [].
Proof.
  unfold IsValid. intros Hv. apply Z.gtb_lt in Hv. split; [|intros ->; cbn in Hv; lia]. unfold CPubKey_size, GetLen, COMPRESSED_SIZE, PUBKEY_SIZE in *.
  repeat case_match; lia.
Qed.

Lemma app_split {A : Type} (a b c d : list A) : zlen a = zlen c -> a ++ b = c ++ d -> a = c /\ b = d.
Proof. intros Hl. apply app_inj_1. lia. Qed.

(** the first byte of a key says where it ends *)
Lemma request_msg_inj nonce r r' : request_ok r -> request_ok r' -> request_msg nonce r = request_msg nonce r' -> r = r'.
Proof.
  destruct r as [sig key hash|sig key hash], r' as [sig' key' hash'|sig' key' hash']; cbn [request_ok request_msg]; intros Hr Hr' E.
  - destruct Hr as (Hh & Hv & Hk & _), Hr' as (Hh' & Hv' & Hk' & _). apply app_split in E as [_ E]; [|done].
    apply app_split in E as [-> E]; [|lia]. destruct (key_len key Hv) as [_ Hn], (key_len key' Hv') as [_ Hn'].
    assert (E0 : key.[0] = key'.[0]) by (destruct key, key'; try done; cbn in E; injection E as -> _; done).
    apply app_split in E as [-> ->]; [done|]. rewrite Hk, Hk'. unfold CPubKey_size. rewrite E0. done.
  - rewrite <- !app_assoc in E. apply app_split in E as [_ E]; [|done]. discriminate E.
  - rewrite <- !app_assoc in E. apply app_split in E as [_ E]; [|done]. discriminate E.
  - destruct Hr as (Hh & Hk & Hs), Hr' as (Hh' & Hk' & Hs'). apply app_split in E as [_ E]; [|done].
    apply app_split in E as [-> E]; [|lia]. apply app_split in E as [-> ->]; [done|lia].
Qed.

Section transparent.
Context `{Host} `{Secp256k1}.
Hypothesis log2_ok : forall n, 2 <= n < 2 ^ 32 -> 1 <= host_log2 n < 256.
Instance hasher_lawful : LawfulElement uint256.
Proof. split; [intros i e; apply Z.mod_pos_bound; lia|exact log2_ok]. Qed.

Variable nonce : uint256.
Hypothesis nonce_len : zlen nonce = 32.

(** the answer of the curve *)
Definition verifies (r : request) : bool :=
  match r with
  | req_ecdsa sig key hash => PubKey_Verify key hash sig
  | req_schnorr sig key hash => default false (VerifySchnorr key hash sig)
  end.
(** and of the checker with a cache *)
Definition answer (store : bool) (c : SignatureCache) (r : request) : option (bool * SignatureCache) :=
  match r with
  | req_ecdsa sig key hash => caching_VerifyECDSASignature store c sig key hash
  | req_schnorr sig key hash => caching_VerifySchnorrSignature store c sig key hash
  end.

(** the hashers have absorbed the salt, and the elements are entries of signatures that verified *)
Record cache_inv (log : list request) (c : SignatureCache) : Prop := {
  inv_ecdsa : sha_inv (nonce ++ PADDING_ECDSA) (m_salted_hasher_ecdsa c);
  inv_schnorr : sha_inv (nonce ++ PADDING_SCHNORR) (m_salted_hasher_schnorr c);
  inv_ok : cuckoo_ok (setValid c);
  inv_placed : placed (setValid c);
  inv_verified : forall x, x ∈ table (setValid c) -> x = zrep 32 0 \/
    exists r, r ∈ log /\ request_ok r /\ verifies r = true /\ x = sha256 (request_msg nonce r);
}.

Lemma new_inv bytes : 0 <= bytes <= 32 * (2 ^ 32 - 8) -> cache_inv [] (SignatureCache_new nonce bytes).
Proof.
  intros Hb. assert (Hinit : forall pad, zlen pad = 32 -> sha_inv (nonce ++ pad) (CSHA256_Write (CSHA256_Write CSHA256_init nonce) pad)).
  { intros pad Hp. apply CSHA256_Write_spec; [|lia]. apply (CSHA256_Write_spec [] _ nonce sha_inv_init). rewrite nonce_len. done. }
  assert (Hn : 0 <= Z.min (bytes / 32) (2 ^ 32 - 1) <= 2 ^ 32 - 8) by (Z.div_mod_to_equations; lia).
  destruct (setup_ok (Element := uint256) _ Hn) as [Hok Hp]. split; cbn [SignatureCache_new m_salted_hasher_ecdsa m_salted_hasher_schnorr setValid setup_bytes fst].
  - apply Hinit. reflexivity.
  - apply Hinit. reflexivity.
  - exact Hok.
  - exact Hp.
  - intros x Hx. left. cbn in Hx. apply list_elem_of_lookup in Hx as [i Hi]. apply lookup_replicate in Hi as [-> _]. done.
Qed.

Lemma salted_entry pad h hash key sig : sha_inv (nonce ++ pad) h -> zlen pad = 32 -> zlen hash = 32 -> zlen key <= 65 -> zlen sig < 2 ^ 32 ->
  CSHA256_Finalize (CSHA256_Write (CSHA256_Write (CSHA256_Write h hash) key) sig) = sha256 ((nonce ++ pad) ++ hash ++ key ++ sig).
Proof.
  intros Hi Hp Hh Hk Hs. rewrite !app_assoc. apply CSHA256_Finalize_spec; [|rewrite !zlen_app; lia].
  repeat (apply CSHA256_Write_spec; [|rewrite ?zlen_app; lia]). exact Hi.
Qed.

Lemma get_inv log c entry erase : cache_inv log c -> cache_inv log (SignatureCache_Get c entry erase).2 /\
  ((SignatureCache_Get c entry erase).1 = true -> entry ∈ table (setValid c)).
Proof.
  intros []. destruct (contains_spec (setValid c) entry erase) as (Hok & Hp & Et & Hyes & _); [assumption..|].
  unfold SignatureCache_Get. destruct (contains _ _ _) as [found s]. cbn [fst snd] in *. split; [|exact Hyes].
  split; cbn; try assumption. rewrite Et. assumption.
Qed.

Lemma set_inv log c r : cache_inv log c -> request_ok r -> verifies r = true ->
  cache_inv (r :: log) (SignatureCache_Set c (sha256 (request_msg nonce r))).
Proof.
  intros [] Hr Hv. destruct (insert_spec (setValid c) (sha256 (request_msg nonce r))) as (Hok & Hp & d & _ & Hnew & _); [assumption..|].
  split; cbn [SignatureCache_Set with_valid m_salted_hasher_ecdsa m_salted_hasher_schnorr setValid]; try assumption. intros x Hx.
  destruct (Hnew x Hx) as [->|Hold]; [right; exists r; split; [left|done]|].
  destruct (inv_verified0 x Hold) as [?|(r' & Hin & Hr')]; [auto|]. right. exists r'. split; [right; exact Hin|exact Hr'].
Qed.

Lemma inv_more log c r : cache_inv log c -> cache_inv (r :: log) c.
Proof.
  intros []. split; try assumption. intros x Hx. destruct (inv_verified0 x Hx) as [?|(r' & Hin & Hr')]; [auto|]. right. exists r'. split; [right; exact Hin|exact Hr'].
Qed.

(** no entry that is stored has the hash of this one by accident *)
Definition fresh_hash (log : list request) (r : request) : Prop :=
  sha256 (request_msg nonce r) <> zrep 32 0 /\
  forall r', r' ∈ log -> sha256 (request_msg nonce r') = sha256 (request_msg nonce r) -> request_msg nonce r' = request_msg nonce r.

Lemma found_verifies log c r : cache_inv log c -> request_ok r -> fresh_hash log r -> sha256 (request_msg nonce r) ∈ table (setValid c) -> verifies r = true.
Proof.
  intros [] Hr [Hz Hf] Hin. destruct (inv_verified0 _ Hin) as [?|(r' & Hlog & Hr' & Hv & E)]; [done|].
  rewrite <- (request_msg_inj nonce r' r Hr' Hr); [exact Hv|]. apply Hf; [exact Hlog|]. symmetry. exact E.
Qed.

(** the common part of the two checkers *)
Lemma cached_answer store log c r : cache_inv log c -> request_ok r -> fresh_hash log r ->
  let entry := sha256 (request_msg nonce r) in
  let (found, c1) := SignatureCache_Get c entry (negb store) in
  (found = true -> verifies r = true) /\ cache_inv (r :: log) c1 /\
  (verifies r = true -> cache_inv (r :: log) (if store then SignatureCache_Set c1 entry else c1)).
Proof.
  intros Hc Hr Hf entry. destruct (get_inv log c entry (negb store) Hc) as [Hc1 Hfound]. destruct (SignatureCache_Get _ _ _) as [found c1]. cbn [fst snd] in *.
  split_and!; [intros Hx; exact (found_verifies log c r Hc Hr Hf (Hfound Hx))|apply inv_more, Hc1|].
  intros Hv. destruct store; [apply set_inv; assumption|apply inv_more, Hc1].
Qed.

Lemma answer_spec store log c r : cache_inv log c -> request_ok r -> fresh_hash log r ->
  exists c', answer store c r = Some (verifies r, c') /\ cache_inv (r :: log) c'.
Proof.
  intros Hc Hr Hf. pose proof (cached_answer store log c r Hc Hr Hf) as Ha. cbv zeta in Ha. destruct r as [sig key hash|sig key hash]; cbn [answer].
  - destruct Hr as (Hh & Hv & Hk & Hs). destruct (key_len key Hv) as [Hkl _]. unfold caching_VerifyECDSASignature. cbv zeta. unfold ComputeEntryECDSA.
    rewrite ztake_all by lia. rewrite (salted_entry PADDING_ECDSA) by first [apply Hc|lia|done].
    destruct (SignatureCache_Get _ _ _) as [found c1]. destruct Ha as (Hfound & Hc1 & Hset). destruct found; [rewrite (Hfound eq_refl); eauto|].
    cbn [verifies VerifyECDSASignature curve_verifier mbind option_bind] in *. destruct (PubKey_Verify key hash sig); cbn [negb]; eauto.
  - destruct Hr as (Hh & Hk & Hs). unfold caching_VerifySchnorrSignature. cbv zeta. unfold ComputeEntrySchnorr.
    rewrite (salted_entry PADDING_SCHNORR) by first [apply Hc|lia|done].
    destruct (SignatureCache_Get _ _ _) as [found c1]. destruct Ha as (Hfound & Hc1 & Hset). destruct found; [rewrite (Hfound eq_refl); eauto|].
    cbn [verifies VerifySchnorrSignature curve_verifier] in *. destruct (VerifySchnorr key hash sig) as [b|] eqn:Ev.
    + cbn [default mbind option_bind] in *. destruct b; cbn [negb]; eauto.
    + unfold VerifySchnorr in Ev. rewrite Hs in Ev. discriminate Ev.
Qed.

(** the answers to a sequence of checks, each with its own wish to store *)
Fixpoint answers (c : SignatureCache) (rs : list (bool * request)) : option (list bool) :=
  match rs with
  | [] => Some []
  | (store, r) :: rs => '(b, c) ← answer store c r; bs ← answers c rs; Some (b :: bs)
  end.

Lemma answers_spec log c rs : cache_inv log c -> Forall (fun p => request_ok p.2) rs ->
  (forall r, r ∈ log ++ (snd <$> rs) -> fresh_hash (log ++ (snd <$> rs)) r) -> answers c rs = Some (verifies <$> (snd <$> rs)).
Proof.
  revert log c. induction rs as [|[store r] rs IH]; intros log c Hc Hok Hf; [done|]. apply Forall_cons_1 in Hok as [Hr Hok]. cbn [snd] in Hr.
  destruct (answer_spec store log c r Hc Hr) as (c' & Ha & Hc').
  { destruct (Hf r) as [Hz Hl]; [apply elem_of_app; right; left|]. split; [exact Hz|]. intros r' Hin. apply Hl, elem_of_app. left. exact Hin. }
  cbn [answers]. rewrite Ha. cbn [mbind option_bind]. rewrite (IH (r :: log) c' Hc' Hok); [done|].
  assert (Heq : forall x, x ∈ (r :: log) ++ (snd <$> rs) <-> x ∈ log ++ (snd <$> ((store, r) :: rs))).
  { intros x. cbn. rewrite !elem_of_app, !elem_of_cons, !elem_of_app. tauto. }
  intros x Hx. destruct (Hf x) as [Hz Hl]; [apply Heq, Hx|]. split; [exact Hz|]. intros x' Hx'. apply Hl, Heq, Hx'.
Qed.
End transparent.

(** ** The checker of a script check *)

#[export] Instance request_eq_dec : EqDecision request.
Proof. solve_decision. Defined.

(** [CachingTransactionSignatureChecker]: its methods, with the cache each request finds.  The cache changes during a check, by what the
    check and the ones that run beside it store, so that every request has its own. *)
Definition caching_verifier `{Host} `{Secp256k1} (store : bool) (cache_at : request -> SignatureCache) : SignatureVerifier := {|
  VerifyECDSASignature sig key hash := fst <$> caching_VerifyECDSASignature store (cache_at (req_ecdsa sig key hash)) sig key hash;
  VerifySchnorrSignature sig key hash := fst <$> caching_VerifySchnorrSignature store (cache_at (req_schnorr sig key hash)) sig key hash;
|}.

(** the curve, asked for nothing but the requests of a list *)
Definition asked_only `{Secp256k1} (asked : list request) : SignatureVerifier := {|
  VerifyECDSASignature sig key hash :=
    if bool_decide (req_ecdsa sig key hash ∈ asked) then @VerifyECDSASignature curve_verifier sig key hash else None;
  VerifySchnorrSignature sig key hash :=
    if bool_decide (req_schnorr sig key hash ∈ asked) then @VerifySchnorrSignature curve_verifier sig key hash else None;
|}.

#[export] Instance asked_agrees_curve `{Secp256k1} asked : VerifiersAgree (asked_only asked) curve_verifier.
Proof. split; intros; cbn; (case_bool_decide; [right|left]; done). Qed.

(** the caches hold entries of signatures that verified, and none of them has the hash of a request by accident *)
Definition caches_sound `{Host} `{Secp256k1} (nonce : uint256) (log asked : list request) (cache_at : request -> SignatureCache) : Prop :=
  Forall (fun r => request_ok r /\ fresh_hash nonce log r /\ cache_inv nonce log (cache_at r)) asked.

Lemma asked_agrees_cached `{Host} `{Secp256k1} nonce log asked store cache_at :
  (forall n, 2 <= n < 2 ^ 32 -> 1 <= host_log2 n < 256) -> zlen nonce = 32 -> caches_sound nonce log asked cache_at ->
  VerifiersAgree (asked_only asked) (caching_verifier store cache_at).
Proof.
  intros Hlog Hn Hs. split; intros sig key h; cbn [VerifyECDSASignature VerifySchnorrSignature asked_only caching_verifier];
    (case_bool_decide as Hin; [right|left; done]); apply list_elem_of_In in Hin; destruct (proj1 (Forall_forall _ _) Hs _ Hin) as (Hr & Hf & Hc);
    destruct (answer_spec Hlog nonce Hn store log _ _ Hc Hr Hf) as (c' & Ha & _); cbn [answer] in Ha; rewrite Ha; [done|].
  cbn [verifies fmap option_fmap option_map fst VerifySchnorrSignature curve_verifier]. destruct Hr as (_ & _ & Hl). unfold VerifySchnorr. rewrite Hl. done.
Qed.

(** ** Properties *)

(** C26: The signature cache is transparent: whatever ECDSA and Schnorr signatures are checked one after the other, with or without storing
    them, starting from a new cache of any size, the checker with the cache gives the answers of the curve, as long as no two of the different
    checks have the same salted hash and none hashes to zero; the preimages of different checks are different. *)
Theorem cache_transparent `{Host} `{Secp256k1} (nonce : uint256) (bytes : Z) (rs : list (bool * request)) :
  (forall n, 2 <= n < 2 ^ 32 -> 1 <= host_log2 n < 256) -> zlen nonce = 32 -> 0 <= bytes <= 32 * (2 ^ 32 - 8) ->
  Forall (fun p => request_ok p.2) rs -> (forall r, r ∈ (snd <$> rs) -> fresh_hash nonce (snd <$> rs) r) ->
  answers (SignatureCache_new nonce bytes) rs = Some (verifies <$> (snd <$> rs)) /\
  (forall r r', request_ok r -> request_ok r' -> request_msg nonce r = request_msg nonce r' -> r = r').
Proof.
  intros Hlog Hn Hb Hok Hf. split; [|apply request_msg_inj]. eapply (answers_spec Hlog nonce Hn []); [apply new_inv; assumption|exact Hok|exact Hf].
Qed.

(** ** The property at a concrete input *)

Definition example_host : Host := {| host_little_endian := true; host_log2 := Z.log2 |}.
Definition example_request : request := req_schnorr (zrep 64 1) (zrep 32 2) (zrep 32 3).

Lemma example_fresh : sha256 (request_msg (zrep 32 9) example_request) <> zrep 32 0.
Proof. vm_compute. discriminate. Qed.

Lemma cache_transparent_witness :
  @answers example_host no_curve (@SignatureCache_new example_host (zrep 32 9) 4096) [(true, example_request); (false, example_request)] = Some [false; false].
Proof.
  apply (@cache_transparent example_host no_curve (zrep 32 9) 4096 [(true, example_request); (false, example_request)]).
  - intros n Hn. cbn. pose proof (Z.log2_le_mono 2 n ltac:(lia)). pose proof (Z.log2_lt_pow2 n 32 ltac:(lia)). change (Z.log2 2) with 1 in *. lia.
  - reflexivity.
  - lia.
  - repeat constructor.
  - intros r Hr. assert (Hall : forall r, r ∈ [example_request; example_request] -> r = example_request).
    { intros x Hx. apply elem_of_cons in Hx as [->|Hx]; [done|]. apply list_elem_of_singleton in Hx. exact Hx. }
    rewrite (Hall r Hr). split; [exact example_fresh|]. intros r' Hr' _. rewrite (Hall r' Hr'). done.
Defined.
