(* ===== verification/BlockIndex.v ===== *)
(** * The block index: entries, skip list and median time
    (src/chain.h, src/chain.cpp, src/node/blockstorage.cpp)

    The entries of [m_block_index] live at fixed addresses and point to each
    other. The model keeps them in a list in order of insertion: a
    [CBlockIndex*] is a position of that list, a null pointer is [None], and a
    dereference is a lookup. [None] as the result of an operation is a failed
    assertion or the dereference of a null pointer; the theorems show that on a
    well-formed index no operation returns it.

    [tree_ok] is the invariant of the index: parents precede their children,
    heights grow by one along [pprev], [pskip] is the ancestor at
    [GetSkipHeight], [nTimeMax] and [nChainWork] accumulate along the chain,
    and no hash occurs twice. [up] and [ancestor] are the naive walk along
    [pprev] that the skip list is measured against. *)

From Stdlib Require Import ZArith Lia Bool.
From stdpp Require Import base numbers list sorting.
From S2P Require Import Prelude ArithUint Uint256 Arith256 Params Hashes Serialize Primitives.

Open Scope Z_scope.
Open Scope adonai_scope.

(** ** Block files *)

Definition MAX_FUTURE_BLOCK_TIME : Z := 2 * 60 * 60.

Record CBlockFileInfo : Type := {
  nBlocks : Z; nSize : Z; nUndoSize : Z; nHeightFirst : Z; nHeightLast : Z;
  nTimeFirst : Z; nTimeLast : Z }.

Definition ser_CBlockFileInfo (i : CBlockFileInfo) : list Z :=
  WriteVarInt (nBlocks i) ++ WriteVarInt (nSize i) ++ WriteVarInt (nUndoSize i) ++
  WriteVarInt (nHeightFirst i) ++ WriteVarInt (nHeightLast i) ++
  WriteVarInt (nTimeFirst i) ++ WriteVarInt (nTimeLast i).

Definition VarInt32 : reader Z := ReadVarInt (2 ^ 32 - 1).
Definition VarInt64 : reader Z := ReadVarInt (2 ^ 64 - 1).
(** [VarIntMode::NONNEGATIVE_SIGNED] on an [int] *)
Definition VarInt31 : reader Z := ReadVarInt (2 ^ 31 - 1).

Definition unser_CBlockFileInfo : reader CBlockFileInfo := fun s =>
  '(b, s) ← VarInt32 s; '(sz, s) ← VarInt32 s; '(u, s) ← VarInt32 s;
  '(hf, s) ← VarInt32 s; '(hl, s) ← VarInt32 s; '(tf, s) ← VarInt64 s; '(tl, s) ← VarInt64 s;
  Some ({| nBlocks := b; nSize := sz; nUndoSize := u; nHeightFirst := hf; nHeightLast := hl;
           nTimeFirst := tf; nTimeLast := tl |}, s).

(** The two tests on [nBlocks] precede its increment. *)
Definition AddBlock (i : CBlockFileInfo) (nHeightIn nTimeIn : Z) : CBlockFileInfo := {|
  nBlocks := u32 (nBlocks i + 1);
  nSize := nSize i;
  nUndoSize := nUndoSize i;
  nHeightFirst := if (nBlocks i =? 0) || (nHeightFirst i >? nHeightIn) then nHeightIn else nHeightFirst i;
  nHeightLast := if nHeightIn >? nHeightLast i then nHeightIn else nHeightLast i;
  nTimeFirst := if (nBlocks i =? 0) || (nTimeFirst i >? nTimeIn) then nTimeIn else nTimeFirst i;
  nTimeLast := if nTimeIn >? nTimeLast i then nTimeIn else nTimeLast i |}.

(** ** [enum BlockStatus] *)

Definition BLOCK_VALID_RESERVED : Z := 1.
Definition BLOCK_VALID_TREE : Z := 2.
Definition BLOCK_VALID_TRANSACTIONS : Z := 3.
Definition BLOCK_VALID_CHAIN : Z := 4.
Definition BLOCK_VALID_SCRIPTS : Z := 5.
Definition BLOCK_VALID_MASK : Z :=
  Z.lor BLOCK_VALID_RESERVED (Z.lor BLOCK_VALID_TREE (Z.lor BLOCK_VALID_TRANSACTIONS
    (Z.lor BLOCK_VALID_CHAIN BLOCK_VALID_SCRIPTS))).
Definition BLOCK_HAVE_DATA : Z := 8.
Definition BLOCK_HAVE_UNDO : Z := 16.
Definition BLOCK_HAVE_MASK : Z := Z.lor BLOCK_HAVE_DATA BLOCK_HAVE_UNDO.
Definition BLOCK_FAILED_VALID : Z := 32.
Definition BLOCK_FAILED_CHILD : Z := 64.
Definition BLOCK_FAILED_MASK : Z := Z.lor BLOCK_FAILED_VALID BLOCK_FAILED_CHILD.

(** ** [CBlockIndex] *)

Record CBlockIndex : Type := {
  phashBlock : option uint256;
  pprev : option nat;
  pskip : option nat;
  nHeight : Z;
  nFile : Z;
  nDataPos : Z;
  nUndoPos : Z;
  nChainWork : arith_uint256;
  nTx : Z;
  m_chain_tx_count : Z;
  nStatus : Z;
  bi_nVersion : Z;
  bi_hashMerkleRoot : uint256;
  bi_nTime : Z;
  bi_nBits : Z;
  bi_nNonce : Z;
  nSequenceId : Z;
  nTimeMax : Z;
}.

(** [m_block_index], in order of insertion *)
Notation BlockMap := (list CBlockIndex).

(** [CBlockIndex()] *)
Definition CBlockIndex_default : CBlockIndex := {|
  phashBlock := None; pprev := None; pskip := None; nHeight := 0; nFile := 0; nDataPos := 0;
  nUndoPos := 0; nChainWork := arith_of 0; nTx := 0; m_chain_tx_count := 0; nStatus := 0;
  bi_nVersion := 0; bi_hashMerkleRoot := uint256_null; bi_nTime := 0; bi_nBits := 0; bi_nNonce := 0;
  nSequenceId := 0; nTimeMax := 0 |}.

(** assignments to fields of an entry *)
Definition set_phashBlock (b : CBlockIndex) (hash : uint256) (id : Z) : CBlockIndex := {|
  phashBlock := Some hash; pprev := pprev b; pskip := pskip b; nHeight := nHeight b;
  nFile := nFile b; nDataPos := nDataPos b; nUndoPos := nUndoPos b; nChainWork := nChainWork b;
  nTx := nTx b; m_chain_tx_count := m_chain_tx_count b; nStatus := nStatus b;
  bi_nVersion := bi_nVersion b; bi_hashMerkleRoot := bi_hashMerkleRoot b; bi_nTime := bi_nTime b;
  bi_nBits := bi_nBits b; bi_nNonce := bi_nNonce b; nSequenceId := id; nTimeMax := nTimeMax b |}.
Definition set_pprev (b : CBlockIndex) (q : nat) (height : Z) : CBlockIndex := {|
  phashBlock := phashBlock b; pprev := Some q; pskip := pskip b; nHeight := height;
  nFile := nFile b; nDataPos := nDataPos b; nUndoPos := nUndoPos b; nChainWork := nChainWork b;
  nTx := nTx b; m_chain_tx_count := m_chain_tx_count b; nStatus := nStatus b;
  bi_nVersion := bi_nVersion b; bi_hashMerkleRoot := bi_hashMerkleRoot b; bi_nTime := bi_nTime b;
  bi_nBits := bi_nBits b; bi_nNonce := bi_nNonce b; nSequenceId := nSequenceId b;
  nTimeMax := nTimeMax b |}.
Definition set_pskip (b : CBlockIndex) (s : option nat) : CBlockIndex := {|
  phashBlock := phashBlock b; pprev := pprev b; pskip := s; nHeight := nHeight b; nFile := nFile b;
  nDataPos := nDataPos b; nUndoPos := nUndoPos b; nChainWork := nChainWork b; nTx := nTx b;
  m_chain_tx_count := m_chain_tx_count b; nStatus := nStatus b; bi_nVersion := bi_nVersion b;
  bi_hashMerkleRoot := bi_hashMerkleRoot b; bi_nTime := bi_nTime b; bi_nBits := bi_nBits b;
  bi_nNonce := bi_nNonce b; nSequenceId := nSequenceId b; nTimeMax := nTimeMax b |}.
Definition set_totals (b : CBlockIndex) (time : Z) (work : arith_uint256) : CBlockIndex := {|
  phashBlock := phashBlock b; pprev := pprev b; pskip := pskip b; nHeight := nHeight b;
  nFile := nFile b; nDataPos := nDataPos b; nUndoPos := nUndoPos b; nChainWork := work;
  nTx := nTx b; m_chain_tx_count := m_chain_tx_count b; nStatus := nStatus b;
  bi_nVersion := bi_nVersion b; bi_hashMerkleRoot := bi_hashMerkleRoot b; bi_nTime := bi_nTime b;
  bi_nBits := bi_nBits b; bi_nNonce := bi_nNonce b; nSequenceId := nSequenceId b; nTimeMax := time |}.
Definition set_nStatus (b : CBlockIndex) (status : Z) : CBlockIndex := {|
  phashBlock := phashBlock b; pprev := pprev b; pskip := pskip b; nHeight := nHeight b;
  nFile := nFile b; nDataPos := nDataPos b; nUndoPos := nUndoPos b; nChainWork := nChainWork b;
  nTx := nTx b; m_chain_tx_count := m_chain_tx_count b; nStatus := status;
  bi_nVersion := bi_nVersion b; bi_hashMerkleRoot := bi_hashMerkleRoot b; bi_nTime := bi_nTime b;
  bi_nBits := bi_nBits b; bi_nNonce := bi_nNonce b; nSequenceId := nSequenceId b;
  nTimeMax := nTimeMax b |}.

(** [CBlockIndex(const CBlockHeader&)] *)
Definition CBlockIndex_of (block : CBlockHeader) : CBlockIndex := {|
  phashBlock := phashBlock CBlockIndex_default; pprev := pprev CBlockIndex_default;
  pskip := pskip CBlockIndex_default; nHeight := nHeight CBlockIndex_default;
  nFile := nFile CBlockIndex_default; nDataPos := nDataPos CBlockIndex_default;
  nUndoPos := nUndoPos CBlockIndex_default; nChainWork := nChainWork CBlockIndex_default;
  nTx := nTx CBlockIndex_default; m_chain_tx_count := m_chain_tx_count CBlockIndex_default;
  nStatus := nStatus CBlockIndex_default; bi_nVersion := nVersion block;
  bi_hashMerkleRoot := hashMerkleRoot block; bi_nTime := nTime block; bi_nBits := nBits block;
  bi_nNonce := nNonce block; nSequenceId := nSequenceId CBlockIndex_default;
  nTimeMax := nTimeMax CBlockIndex_default |}.

(** [FlatFilePos]; the default is the null position *)
Definition FlatFilePos : Type := Z * Z.
Definition FlatFilePos_null : FlatFilePos := (-1, 0).

Definition flag (status mask : Z) : bool := negb (Z.land status mask =? 0).

Definition GetBlockPos (b : CBlockIndex) : FlatFilePos :=
  if flag (nStatus b) BLOCK_HAVE_DATA then (nFile b, nDataPos b) else FlatFilePos_null.
Definition GetUndoPos (b : CBlockIndex) : FlatFilePos :=
  if flag (nStatus b) BLOCK_HAVE_UNDO then (nFile b, nUndoPos b) else FlatFilePos_null.

Definition GetBlockHash (b : CBlockIndex) : option uint256 := phashBlock b.

(** [CBlockIndex::GetBlockHeader] *)
Definition index_GetBlockHeader (t : BlockMap) (b : CBlockIndex) : option CBlockHeader :=
  prev ← match pprev b with
         | None => Some uint256_null
         | Some q => bq ← t !! q; GetBlockHash bq
         end;
  Some {| nVersion := bi_nVersion b; hashPrevBlock := prev; hashMerkleRoot := bi_hashMerkleRoot b;
          nTime := bi_nTime b; nBits := bi_nBits b; nNonce := bi_nNonce b |}.

Definition HaveNumChainTxs (b : CBlockIndex) : bool := negb (m_chain_tx_count b =? 0).
Definition index_GetBlockTime (b : CBlockIndex) : Z := bi_nTime b.
Definition GetBlockTimeMax (b : CBlockIndex) : Z := nTimeMax b.

(** [IsValid] and [RaiseValidity]; [None] is a failed assertion *)
Definition IsValid (b : CBlockIndex) (nUpTo : Z) : option bool :=
  if flag nUpTo (u32 (Z.lnot BLOCK_VALID_MASK)) then None
  else if flag (nStatus b) BLOCK_FAILED_MASK then Some false
  else Some (Z.land (nStatus b) BLOCK_VALID_MASK >=? nUpTo).

Definition RaiseValidity (b : CBlockIndex) (nUpTo : Z) : option (CBlockIndex * bool) :=
  if flag nUpTo (u32 (Z.lnot BLOCK_VALID_MASK)) then None
  else if flag (nStatus b) BLOCK_FAILED_MASK then Some (b, false)
  else if Z.land (nStatus b) BLOCK_VALID_MASK <? nUpTo
  then Some (set_nStatus b (Z.lor (Z.land (nStatus b) (u32 (Z.lnot BLOCK_VALID_MASK))) nUpTo), true)
  else Some (b, false).

(** ** The skip list *)

(** [n & (n - 1)]: clear the lowest set bit *)
Definition InvertLowestOne (n : Z) : Z := Z.land n (n - 1).

Definition GetSkipHeight (height : Z) : Z :=
  if height <? 2 then 0
  else if negb (Z.land height 1 =? 0) then InvertLowestOne (InvertLowestOne (height - 1)) + 1
  else InvertLowestOne height.

(** the [while] loop of [GetAncestor]; the height decreases in every iteration,
    so the distance to the target height is enough fuel *)
Fixpoint ancestor_walk (fuel : nat) (t : BlockMap) (pindexWalk : nat) (heightWalk height : Z) : option nat :=
  if heightWalk >? height then
    match fuel with
    | O => None
    | S fuel =>
        b ← t !! pindexWalk;
        let heightSkip := GetSkipHeight heightWalk in
        let heightSkipPrev := GetSkipHeight (heightWalk - 1) in
        if bool_decide (pskip b <> None) &&
           ((heightSkip =? height) ||
            ((heightSkip >? height) && negb ((heightSkipPrev <? heightSkip - 2) && (heightSkipPrev >=? height))))
        then q ← pskip b; ancestor_walk fuel t q heightSkip height
        else q ← pprev b; ancestor_walk fuel t q (heightWalk - 1) height
    end
  else Some pindexWalk.

Definition GetAncestor (t : BlockMap) (p : nat) (height : Z) : option (option nat) :=
  b ← t !! p;
  if (height >? nHeight b) || (height <? 0) then Some None
  else q ← ancestor_walk (Z.to_nat (nHeight b - height)) t p (nHeight b) height; Some (Some q).

Definition BuildSkip (t : BlockMap) (p : nat) : option BlockMap :=
  b ← t !! p;
  match pprev b with
  | None => Some t
  | Some q => s ← GetAncestor t q (GetSkipHeight (nHeight b)); Some (<[p := set_pskip b s]> t)
  end.

(** ** Median time *)

Definition nMedianTimeSpan : nat := 11.

(** the times of [p] and its predecessors, newest first, at most [n] of them *)
Fixpoint median_window (n : nat) (t : BlockMap) (p : option nat) : option (list Z) :=
  match n, p with
  | S n, Some p => b ← t !! p; w ← median_window n t (pprev b); Some (index_GetBlockTime b :: w)
  | _, _ => Some []
  end.

(** The array is filled from its end, oldest time first, and sorted. *)
Definition GetMedianTimePast (t : BlockMap) (p : nat) : option Z :=
  w ← median_window nMedianTimeSpan t (Some p);
  merge_sort Z.le (rev w) !! (length w / 2)%nat.

(** ** Work *)

Definition GetBlockProof (b : CBlockIndex) : option arith_uint256 :=
  let '(bnTarget, fNegative, fOverflow) := SetCompact (bi_nBits b) in
  if fNegative || fOverflow || arith_eq64 bnTarget 0 then Some (arith_of 0)
  else q ← arith_div (arith_not bnTarget) (arith_add bnTarget (arith_of 1)); Some (arith_add q (arith_of 1)).

(** [GetBlockProofEquivalentTime]; [None] is the division by zero that throws *)
Definition GetBlockProofEquivalentTime (to from tip : CBlockIndex) (params : Params) : option Z :=
  let '(r, sign) :=
    if arith_gt (nChainWork to) (nChainWork from)
    then (arith_sub (nChainWork to) (nChainWork from), 1)
    else (arith_sub (nChainWork from) (nChainWork to), -1) in
  proof ← GetBlockProof tip;
  r ← arith_div (arith_mul r (arith_of (nPowTargetSpacing params))) proof;
  if arith_bits r >? 63 then Some (sign * (2 ^ 63 - 1))
  else Some (sign * i64 (GetLow64 r)).

(** ** [CDiskBlockIndex] *)

Definition DISK_DUMMY_VERSION : Z := 259900.

Record CDiskBlockIndex : Type := { disk_index : CBlockIndex; hashPrev : uint256 }.

Definition CDiskBlockIndex_of (t : BlockMap) (b : CBlockIndex) : option CDiskBlockIndex :=
  prev ← match pprev b with
         | None => Some uint256_null
         | Some q => bq ← t !! q; GetBlockHash bq
         end;
  Some {| disk_index := b; hashPrev := prev |}.

Definition ser_CDiskBlockIndex (d : CDiskBlockIndex) : list Z :=
  let b := disk_index d in
  WriteVarInt DISK_DUMMY_VERSION ++ WriteVarInt (nHeight b) ++ WriteVarInt (nStatus b) ++ WriteVarInt (nTx b) ++
  (if flag (nStatus b) (Z.lor BLOCK_HAVE_DATA BLOCK_HAVE_UNDO) then WriteVarInt (nFile b) else []) ++
  (if flag (nStatus b) BLOCK_HAVE_DATA then WriteVarInt (nDataPos b) else []) ++
  (if flag (nStatus b) BLOCK_HAVE_UNDO then WriteVarInt (nUndoPos b) else []) ++
  ser_int32 (bi_nVersion b) ++ ser_blob (hashPrev d) ++ ser_blob (bi_hashMerkleRoot b) ++
  ser_writedata32 (bi_nTime b) ++ ser_writedata32 (bi_nBits b) ++ ser_writedata32 (bi_nNonce b).

(** a field that is read only when the status has a flag *)
Definition read_if (c : bool) (r : reader Z) : reader Z := fun s => if c then r s else Some (0, s).

(** an entry with the fields that are on disk *)
Definition disk_entry (h st tx f dp up v : Z) (root : uint256) (tm bits nonce : Z) : CBlockIndex := {|
  phashBlock := phashBlock CBlockIndex_default; pprev := pprev CBlockIndex_default;
  pskip := pskip CBlockIndex_default; nHeight := h; nFile := f; nDataPos := dp; nUndoPos := up;
  nChainWork := nChainWork CBlockIndex_default; nTx := tx;
  m_chain_tx_count := m_chain_tx_count CBlockIndex_default; nStatus := st; bi_nVersion := v;
  bi_hashMerkleRoot := root; bi_nTime := tm; bi_nBits := bits; bi_nNonce := nonce;
  nSequenceId := nSequenceId CBlockIndex_default; nTimeMax := nTimeMax CBlockIndex_default |}.

Definition unser_CDiskBlockIndex : reader CDiskBlockIndex := fun s =>
  '(_, s) ← VarInt31 s; '(h, s) ← VarInt31 s; '(st, s) ← VarInt32 s; '(tx, s) ← VarInt32 s;
  '(f, s) ← read_if (flag st (Z.lor BLOCK_HAVE_DATA BLOCK_HAVE_UNDO)) VarInt31 s;
  '(dp, s) ← read_if (flag st BLOCK_HAVE_DATA) VarInt32 s;
  '(up, s) ← read_if (flag st BLOCK_HAVE_UNDO) VarInt32 s;
  '(v, s) ← unser_int32 s; '(prev, s) ← unser_blob 32 s; '(root, s) ← unser_blob 32 s;
  '(tm, s) ← ser_readdata32 s; '(bits, s) ← ser_readdata32 s; '(nonce, s) ← ser_readdata32 s;
  Some ({| disk_index := disk_entry h st tx f dp up v root tm bits nonce;
           hashPrev := prev |}, s).

Definition ConstructBlockHash `{Cpu} (d : CDiskBlockIndex) : uint256 :=
  let b := disk_index d in
  CBlockHeader_GetHash {| nVersion := bi_nVersion b; hashPrevBlock := hashPrev d;
    hashMerkleRoot := bi_hashMerkleRoot b; nTime := bi_nTime b; nBits := bi_nBits b; nNonce := bi_nNonce b |}.

(** ** [BlockManager]: the part that grows the index *)

Record BlockManager : Type := {
  m_block_index : BlockMap;
  best_header : option nat;
  m_dirty_blockindex : list nat;
}.

Definition LookupBlockIndex (t : BlockMap) (hash : uint256) : option nat :=
  fst <$> list_find (fun b => phashBlock b = Some hash) t.

(** [pprev], [nHeight] and [pskip] of the entry that was just emplaced *)
Definition link_parent (t : BlockMap) (p : nat) (hashPrevBlock : uint256) : option BlockMap :=
  match LookupBlockIndex t hashPrevBlock with
  | None => Some t
  | Some q => b ← t !! p; bq ← t !! q;
      BuildSkip (<[p := set_pprev b q (nHeight bq + 1)]> t) p
  end.

(** [nTimeMax] and [nChainWork] of the new entry, from its parent *)
Definition accumulate (t : BlockMap) (b : CBlockIndex) : option CBlockIndex :=
  proof ← GetBlockProof b;
  match pprev b with
  | None => Some (set_totals b (bi_nTime b) (arith_add (arith_of 0) proof))
  | Some q => bq ← t !! q;
      Some (set_totals b (Z.max (nTimeMax bq) (bi_nTime b)) (arith_add (nChainWork bq) proof))
  end.

Definition AddToBlockIndex `{Cpu} (s : BlockManager) (block : CBlockHeader) : option (BlockManager * nat) :=
  let hash := CBlockHeader_GetHash block in
  match LookupBlockIndex (m_block_index s) hash with
  | Some p => Some (s, p)
  | None =>
      let p := length (m_block_index s) in
      let t := m_block_index s ++ [set_phashBlock (CBlockIndex_of block) hash 0] in
      t ← link_parent t p (hashPrevBlock block);
      b ← t !! p;
      b ← accumulate t b;
      '(b, _) ← RaiseValidity b BLOCK_VALID_TREE;
      let t := <[p := b]> t in
      best ← match best_header s with
             | None => Some p
             | Some q => bq ← t !! q; Some (if arith_lt (nChainWork bq) (nChainWork b) then p else q)
             end;
      Some ({| m_block_index := t; best_header := Some best; m_dirty_blockindex := p :: m_dirty_blockindex s |}, p)
  end.

(** ** The naive walk *)

(** [n] steps along [pprev] *)
Fixpoint up (t : BlockMap) (n : nat) (p : nat) : option nat :=
  match n with
  | O => Some p
  | S n => b ← t !! p; q ← pprev b; up t n q
  end.

(** the ancestor of [p] at [height], if any *)
Definition ancestor (t : BlockMap) (p : nat) (height : Z) : option nat :=
  b ← t !! p;
  if (0 <=? height) && (height <=? nHeight b) then up t (Z.to_nat (nHeight b - height)) p else None.

Definition is_ancestor (t : BlockMap) (a p : nat) : Prop := exists n, up t n p = Some a.

(** ** The invariant of the index *)

(** the expected number of hashes of a block *)
Definition work_of (nBits : Z) : Z :=
  match valid_target nBits with None => 0 | Some v => 2 ^ 256 / (v + 1) end.

(** an entry without parent *)
Definition root_ok (b : CBlockIndex) : Prop :=
  pskip b = None /\ nHeight b = 0 /\ nTimeMax b = bi_nTime b /\
  to_Z (nChainWork b) = work_of (bi_nBits b).

(** an entry [b] with parent [q] *)
Definition child_ok (t : BlockMap) (q : nat) (b : CBlockIndex) : Prop :=
  exists bq, t !! q = Some bq /\ nHeight b = nHeight bq + 1 /\
    pskip b = ancestor t q (GetSkipHeight (nHeight b)) /\
    nTimeMax b = Z.max (nTimeMax bq) (bi_nTime b) /\
    to_Z (nChainWork b) = (to_Z (nChainWork bq) + work_of (bi_nBits b)) mod 2 ^ 256.

Definition entry_ok (t : BlockMap) (p : nat) (b : CBlockIndex) : Prop :=
  Ok256 (nChainWork b) /\ fits 32 (bi_nBits b) /\
  match pprev b with
  | None => root_ok b
  | Some q => (q < p)%nat /\ child_ok t q b
  end.

Definition tree_ok (t : BlockMap) : Prop :=
  (forall p b, t !! p = Some b -> entry_ok t p b) /\
  (forall p b, t !! p = Some b -> phashBlock b <> None) /\
  NoDup (phashBlock <$> t).

(** ** Lemmas on the naive walk *)

Definition entries_ok (t : BlockMap) : Prop := forall p b, t !! p = Some b -> entry_ok t p b.

Lemma tree_entries t : tree_ok t -> entries_ok t.
Proof. intros [H _]; exact H. Qed.

Lemma up_S t n p b : t !! p = Some b -> up t (S n) p = (q ← pprev b; up t n q).
Proof. intros Hb. cbn. rewrite Hb. done. Qed.

Lemma up_add t n m p : up t (n + m) p = (q ← up t n p; up t m q).
Proof.
  revert p. induction n as [|n IH]; intros p; [done|]. cbn [Nat.add up].
  destruct (t !! p) as [b|]; cbn [mbind option_bind]; [|done].
  destruct (pprev b); cbn [mbind option_bind]; [apply IH|done].
Qed.

Lemma up_app t l n p q : up t n p = Some q -> up (t ++ l) n p = Some q.
Proof.
  revert p. induction n as [|n IH]; intros p; [done|]. cbn [up].
  destruct (t !! p) as [b|] eqn:Hb; cbn [mbind option_bind]; [|done].
  rewrite (lookup_app_l_Some _ _ _ _ Hb). cbn [mbind option_bind].
  destruct (pprev b); cbn [mbind option_bind]; [apply IH|done].
Qed.

Lemma ancestor_app t l p h q : ancestor t p h = Some q -> ancestor (t ++ l) p h = Some q.
Proof.
  unfold ancestor. destruct (t !! p) as [b|] eqn:Hb; cbn [mbind option_bind]; [|done].
  rewrite (lookup_app_l_Some _ _ _ _ Hb). cbn [mbind option_bind]. case_match; [apply up_app|done].
Qed.

Section walk.
Context (t : BlockMap) (Ht : entries_ok t).

Lemma entry_parent p b q : t !! p = Some b -> pprev b = Some q ->
  (q < p)%nat /\ exists bq, t !! q = Some bq /\ nHeight b = nHeight bq + 1.
Proof.
  intros Hb Hq. destruct (Ht p b Hb) as (_ & _ & He). rewrite Hq in He.
  destruct He as (Hlt & bq & Hbq & Hh & _). split; [done|]. exists bq. done.
Qed.

Lemma height_bound p b : t !! p = Some b -> 0 <= nHeight b <= Z.of_nat p.
Proof.
  revert b. induction (lt_wf p) as [p _ IH]. intros b Hb.
  destruct (pprev b) as [q|] eqn:Hq.
  - destruct (entry_parent p b q Hb Hq) as (Hlt & bq & Hbq & Hh). specialize (IH q Hlt bq Hbq). lia.
  - destruct (Ht p b Hb) as (_ & _ & He). rewrite Hq in He. destruct He as (_ & Hh & _). lia.
Qed.

Lemma height_parent p b : t !! p = Some b -> 0 < nHeight b ->
  exists q bq, pprev b = Some q /\ t !! q = Some bq /\ nHeight b = nHeight bq + 1 /\ (q < p)%nat.
Proof.
  intros Hb Hh. destruct (pprev b) as [q|] eqn:Hq.
  - destruct (entry_parent p b q Hb Hq) as (Hlt & bq & Hbq & Hh'). eauto 10.
  - destruct (Ht p b Hb) as (_ & _ & He). rewrite Hq in He. destruct He as (_ & Hh' & _). lia.
Qed.

Lemma up_total n p b : t !! p = Some b -> Z.of_nat n <= nHeight b ->
  exists q bq, up t n p = Some q /\ t !! q = Some bq /\ nHeight bq = nHeight b - Z.of_nat n /\ (q <= p)%nat.
Proof.
  revert p b. induction n as [|n IH]; intros p b Hb Hn.
  - exists p, b. split_and!; try done; lia.
  - destruct (height_parent p b Hb ltac:(lia)) as (q & bq & Hq & Hbq & Hh & Hlt).
    destruct (IH q bq Hbq ltac:(lia)) as (r & br & Hr & Hbr & Hhr & Hle).
    exists r, br. rewrite (up_S t n p b Hb), Hq. split_and!; try done; lia.
Qed.

(** a walk that succeeds reaches an entry, lower by the number of steps *)
Lemma up_Some n p q b : t !! p = Some b -> up t n p = Some q ->
  exists bq, t !! q = Some bq /\ nHeight bq = nHeight b - Z.of_nat n /\ (q <= p)%nat.
Proof.
  revert p b. induction n as [|n IH]; intros p b Hb Hu.
  - injection Hu as ->. exists b. split_and!; try done; lia.
  - rewrite (up_S t n p b Hb) in Hu. destruct (pprev b) as [r|] eqn:Hr; [|done]. cbn in Hu.
    destruct (entry_parent p b r Hb Hr) as (Hlt & br & Hbr & Hh).
    destruct (IH r br Hbr Hu) as (bq & Hbq & Hhq & Hle). exists bq. split_and!; try done; lia.
Qed.

Lemma ancestor_Some p b h : t !! p = Some b -> 0 <= h <= nHeight b ->
  exists q bq, ancestor t p h = Some q /\ t !! q = Some bq /\ nHeight bq = h /\ (q <= p)%nat.
Proof.
  intros Hb Hh. destruct (up_total (Z.to_nat (nHeight b - h)) p b Hb ltac:(lia)) as (q & bq & Hq & Hbq & Hhq & Hle).
  exists q, bq. unfold ancestor. rewrite Hb. cbn [mbind option_bind].
  rewrite (proj2 (Z.leb_le 0 h)), (proj2 (Z.leb_le h (nHeight b))) by lia. split_and!; try done. lia.
Qed.

Lemma ancestor_inv p b h q : t !! p = Some b -> ancestor t p h = Some q ->
  0 <= h <= nHeight b /\ up t (Z.to_nat (nHeight b - h)) p = Some q.
Proof.
  intros Hb. unfold ancestor. rewrite Hb. cbn [mbind option_bind].
  destruct (Z.leb_spec 0 h), (Z.leb_spec h (nHeight b)); cbn [andb]; intros Hq; try done; lia.
Qed.

Lemma ancestor_None p b h : t !! p = Some b -> (h < 0 \/ nHeight b < h) -> ancestor t p h = None.
Proof.
  intros Hb Hh. unfold ancestor. rewrite Hb. cbn [mbind option_bind].
  destruct (Z.leb_spec 0 h), (Z.leb_spec h (nHeight b)); cbn [andb]; try done; lia.
Qed.

Lemma ancestor_self p b : t !! p = Some b -> ancestor t p (nHeight b) = Some p.
Proof.
  intros Hb. pose proof (height_bound p b Hb). unfold ancestor. rewrite Hb. cbn [mbind option_bind].
  rewrite (proj2 (Z.leb_le 0 _)), Z.leb_refl, Z.sub_diag by lia. done.
Qed.

(** an ancestor of an ancestor *)
Lemma ancestor_trans p b h q h' : t !! p = Some b -> ancestor t p h = Some q -> h' <= h ->
  ancestor t q h' = ancestor t p h'.
Proof.
  intros Hb Hq Hh'. destruct (ancestor_inv p b h q Hb Hq) as [Hh Hu].
  destruct (up_Some _ p q b Hb Hu) as (bq & Hbq & Hhq & _).
  unfold ancestor. rewrite Hb, Hbq. cbn [mbind option_bind].
  destruct (Z.leb_spec 0 h'); cbn [andb]; [|done].
  rewrite (proj2 (Z.leb_le h' (nHeight bq))), (proj2 (Z.leb_le h' (nHeight b))) by lia.
  replace (Z.to_nat (nHeight b - h')) with (Z.to_nat (nHeight b - h) + Z.to_nat (nHeight bq - h'))%nat by lia.
  rewrite up_add, Hu. done.
Qed.

Lemma ancestor_pprev p b q h : t !! p = Some b -> pprev b = Some q -> h < nHeight b ->
  ancestor t q h = ancestor t p h.
Proof.
  intros Hb Hq Hh. destruct (entry_parent p b q Hb Hq) as (_ & bq & Hbq & Hhq).
  pose proof (height_bound q bq Hbq).
  apply (ancestor_trans p b (nHeight bq)); [done| |lia].
  unfold ancestor. rewrite Hb. cbn [mbind option_bind].
  rewrite (proj2 (Z.leb_le 0 _)), (proj2 (Z.leb_le (nHeight bq) _)) by lia. cbn [andb].
  replace (Z.to_nat (nHeight b - nHeight bq)) with 1%nat by lia.
  rewrite (up_S t 0 p b Hb), Hq. done.
Qed.

Lemma is_ancestor_iff p b a : t !! p = Some b ->
  is_ancestor t a p <-> exists ba, t !! a = Some ba /\ ancestor t p (nHeight ba) = Some a.
Proof.
  intros Hb. split.
  - intros [n Hn]. destruct (up_Some n p a b Hb Hn) as (ba & Hba & Hh & _). exists ba. split; [done|].
    pose proof (height_bound a ba Hba). unfold ancestor. rewrite Hb. cbn [mbind option_bind].
    rewrite (proj2 (Z.leb_le 0 _)), (proj2 (Z.leb_le (nHeight ba) _)) by lia. cbn [andb].
    replace (Z.to_nat (nHeight b - nHeight ba)) with n by lia. done.
  - intros (ba & Hba & Ha). destruct (ancestor_inv p b _ a Hb Ha) as [_ Hu]. eexists. exact Hu.
Qed.

End walk.

(** ** The skip list finds the same ancestors *)

Lemma land_le a b : 0 <= b -> Z.land a b <= b.
Proof.
  intros Hb. pose proof (proj2 (Z.ldiff_nonneg b a) ltac:(lia)) as Hd.
  enough (b = Z.land a b + Z.ldiff b a) by lia.
  rewrite Z.add_nocarry_lxor; apply Z.bits_inj'; intros k Hk;
    rewrite ?Z.lxor_spec, ?Z.land_spec, ?Z.ldiff_spec, ?Z.bits_0;
    destruct (Z.testbit a k), (Z.testbit b k); done.
Qed.

Lemma InvertLowestOne_bound n : 0 < n -> 0 <= InvertLowestOne n < n.
Proof.
  intros Hn. unfold InvertLowestOne. pose proof (land_le n (n - 1) ltac:(lia)).
  split; [apply Z.land_nonneg; lia|lia].
Qed.

Lemma GetSkipHeight_bound h : 0 < h -> 0 <= GetSkipHeight h < h.
Proof.
  intros Hh. unfold GetSkipHeight. destruct (Z.ltb_spec h 2); [lia|].
  destruct (Z.land h 1 =? 0) eqn:E; cbn [negb]; [apply InvertLowestOne_bound; lia|].
  assert (h <> 2) by (intros ->; done).
  pose proof (InvertLowestOne_bound (h - 1) ltac:(lia)).
  destruct (Z.eq_dec (InvertLowestOne (h - 1)) 0) as [->|Hnz]; [change (InvertLowestOne 0) with 0; lia|].
  pose proof (InvertLowestOne_bound (InvertLowestOne (h - 1)) ltac:(lia)). lia.
Qed.

Section skip.
Context (t : BlockMap) (Ht : entries_ok t).

Lemma pskip_ancestor p b s : t !! p = Some b -> pskip b = Some s ->
  0 < nHeight b /\ ancestor t p (GetSkipHeight (nHeight b)) = Some s.
Proof.
  intros Hb Hs. destruct (Ht p b Hb) as (_ & _ & He). destruct (pprev b) as [q|] eqn:Hq.
  - destruct He as (_ & bq & Hbq & Hh & Hskip & _). pose proof (height_bound t Ht q bq Hbq).
    pose proof (GetSkipHeight_bound (nHeight b) ltac:(lia)).
    split; [lia|]. rewrite <- (ancestor_pprev t Ht p b q) by (done || lia). congruence.
  - destruct He as (He & _). congruence.
Qed.

Lemma ancestor_walk_spec fuel p b h : t !! p = Some b -> 0 <= h <= nHeight b ->
  nHeight b - h <= Z.of_nat fuel -> ancestor_walk fuel t p (nHeight b) h = ancestor t p h.
Proof.
  revert p b. induction fuel as [|fuel IH]; intros p b Hb Hh Hf; cbn [ancestor_walk].
  - rewrite Z.gtb_ltb. destruct (Z.ltb_spec h (nHeight b)); [lia|].
    replace h with (nHeight b) by lia. rewrite (ancestor_self t Ht p b) by done. done.
  - rewrite Z.gtb_ltb. destruct (Z.ltb_spec h (nHeight b)).
    2:{ replace h with (nHeight b) by lia. rewrite (ancestor_self t Ht p b) by done. done. }
    rewrite Hb. cbn [mbind option_bind]. case_match eqn:E.
    + apply andb_true_iff in E as [Hne E]. apply bool_decide_eq_true in Hne.
      destruct (pskip b) as [s|] eqn:Hs; [|done].
      destruct (pskip_ancestor p b s Hb Hs) as [Hpos Ha]. cbn [mbind option_bind].
      pose proof (GetSkipHeight_bound (nHeight b) Hpos) as Hsb.
      destruct (ancestor_Some t Ht p b (GetSkipHeight (nHeight b)) Hb ltac:(lia)) as (s' & bs & Hs' & Hbs & Hhs & _).
      assert (s' = s) as -> by congruence.
      assert (h <= GetSkipHeight (nHeight b)).
      { apply orb_true_iff in E as [E|E]; bool_to_prop; lia. }
      rewrite <- Hhs at 1. rewrite (IH s bs) by (done || lia).
      apply (ancestor_trans t Ht p b (GetSkipHeight (nHeight b))); done || lia.
    + destruct (height_parent t Ht p b Hb ltac:(lia)) as (q & bq & Hq & Hbq & Hhq & _).
      rewrite Hq. cbn [mbind option_bind]. replace (nHeight b - 1) with (nHeight bq) by lia.
      rewrite (IH q bq) by (done || lia). apply (ancestor_pprev t Ht p b q); done || lia.
Qed.

Lemma GetAncestor_spec p b h : t !! p = Some b -> GetAncestor t p h = Some (ancestor t p h).
Proof.
  intros Hb. unfold GetAncestor. rewrite Hb. cbn [mbind option_bind].
  rewrite Z.gtb_ltb. destruct (Z.ltb_spec (nHeight b) h); [rewrite (ancestor_None t p b) by (done || lia); done|].
  destruct (Z.ltb_spec h 0); cbn [orb]; [rewrite (ancestor_None t p b) by (done || lia); done|].
  rewrite (ancestor_walk_spec _ p b) by (done || lia).
  destruct (ancestor_Some t Ht p b h Hb ltac:(lia)) as (q & _ & -> & _). done.
Qed.

End skip.

(** ** Work *)

Lemma arith_of_0 : to_Z (arith_of 0) = 0.
Proof. rewrite arith_of_val. done. Qed.

Lemma work_of_bound c : fits 32 c -> 0 <= work_of c <= 2 ^ 255.
Proof.
  intros Hc. unfold work_of. destruct (valid_target c) as [v|] eqn:Hv; [|lia].
  apply valid_target_range in Hv; [|done].
  split; [apply Z.div_pos; lia|]. apply Z.div_le_upper_bound; lia.
Qed.

Lemma GetBlockProof_spec b : fits 32 (bi_nBits b) ->
  exists w, GetBlockProof b = Some w /\ Ok256 w /\ to_Z w = work_of (bi_nBits b).
Proof.
  intros Hc. pose proof (work_of_bound _ Hc) as Hw. unfold GetBlockProof, work_of in *.
  pose proof (SetCompact_valid _ Hc) as Hs. destruct (SetCompact (bi_nBits b)) as [[a neg] ovf].
  destruct Hs as [Ha Hs]. destruct (valid_target (bi_nBits b)) as [v|].
  - destruct Hs as (-> & -> & -> & Hv & Hr). cbn [orb].
    assert (H1 : to_Z (arith_add a (arith_of 1)) = v + 1).
    { rewrite (arith_add_val a (arith_of 1)), arith_of_val, Hv. change (u64 1) with 1. apply Z.mod_small. lia. }
    assert (Hnz : to_Z (arith_add a (arith_of 1)) <> 0) by (rewrite H1; lia).
    pose proof (arith_div_Some (arith_not a) (arith_add a (arith_of 1))) as Hd.
    destruct (Hd Hnz) as (q & Hd' & Hq & Hqv). clear Hd.
    rewrite H1, (arith_not_val a), Hv in Hqv. rewrite Hd'. cbn [mbind option_bind].
    exists (arith_add q (arith_of 1)). split; [done|]. split; [apply _|].
    assert (E : 2 ^ 256 / (v + 1) = to_Z q + 1).
    { rewrite Hqv, <- Z.div_add by lia. f_equal. lia. }
    rewrite (arith_add_val q (arith_of 1)), arith_of_val. change (u64 1) with 1. rewrite Z.mod_small; lia.
  - rewrite Hs. exists (arith_of 0). split; [done|]. split; [apply _|apply arith_of_0].
Qed.

(** ** Growing the index *)

(** Fields of an entry after assignments. *)
Ltac entry_simpl :=
  cbn [set_phashBlock set_pprev set_pskip set_totals set_nStatus CBlockIndex_of CBlockIndex_default
       phashBlock pprev pskip nHeight nFile nDataPos nUndoPos nChainWork nTx
       m_chain_tx_count nStatus bi_nVersion bi_hashMerkleRoot bi_nTime bi_nBits bi_nNonce nSequenceId nTimeMax].

Lemma ancestor_walk_app t l fuel p hw h q :
  ancestor_walk fuel t p hw h = Some q -> ancestor_walk fuel (t ++ l) p hw h = Some q.
Proof.
  revert p hw. induction fuel as [|fuel IH]; intros p hw; cbn [ancestor_walk];
    (destruct (hw >? h); [|done]); [done|].
  destruct (t !! p) as [b|] eqn:Hb; cbn [mbind option_bind]; [|done].
  rewrite (lookup_app_l_Some _ _ _ _ Hb). cbn [mbind option_bind].
  case_match; [destruct (pskip b)|destruct (pprev b)]; cbn [mbind option_bind]; try done; apply IH.
Qed.

Lemma GetAncestor_app t l p h r : GetAncestor t p h = Some r -> GetAncestor (t ++ l) p h = Some r.
Proof.
  unfold GetAncestor. destruct (t !! p) as [b|] eqn:Hb; cbn [mbind option_bind]; [|done].
  rewrite (lookup_app_l_Some _ _ _ _ Hb). cbn [mbind option_bind]. case_match; [done|].
  destruct (ancestor_walk _ t _ _ _) as [q|] eqn:Hw; cbn [mbind option_bind]; [|done].
  apply ancestor_walk_app with (l := l) in Hw. rewrite Hw. done.
Qed.

Lemma entry_ok_app t l p b : entries_ok t -> t !! p = Some b -> entry_ok (t ++ l) p b.
Proof.
  intros Ht Hb. destruct (Ht p b Hb) as (Hw & Hbits & He). split; [done|]. split; [done|].
  destruct (pprev b) as [q|]; [|done].
  destruct He as (Hlt & bq & Hbq & Hh & Hskip & Htm & Hcw). split; [done|]. exists bq.
  split; [apply lookup_app_l_Some; done|]. split; [done|]. split; [|done].
  pose proof (height_bound t Ht q bq Hbq). pose proof (GetSkipHeight_bound (nHeight b) ltac:(lia)).
  destruct (ancestor_Some t Ht q bq (GetSkipHeight (nHeight b)) Hbq ltac:(lia)) as (r & _ & Hr & _).
  rewrite Hskip, Hr. symmetry. apply ancestor_app. done.
Qed.

Lemma tree_ok_snoc t b : tree_ok t -> entry_ok (t ++ [b]) (length t) b -> phashBlock b <> None ->
  phashBlock b ∉ phashBlock <$> t -> tree_ok (t ++ [b]).
Proof.
  intros (He & Hh & Hn) Hb Hsome Hnew. split; [|split].
  - intros p b' Hp. apply lookup_app_Some in Hp as [Hp|[Hlen Hp]]; [apply entry_ok_app; done|].
    apply list_lookup_singleton_Some in Hp as [Hp <-]. replace p with (length t) by lia. done.
  - intros p b' Hp. apply lookup_app_Some in Hp as [Hp|[_ Hp]]; [eapply Hh; done|].
    apply list_lookup_singleton_Some in Hp as [_ <-]. done.
  - rewrite fmap_app. apply NoDup_app. split; [done|]. split; [|apply NoDup_singleton].
    intros x Hx Hin. apply list_elem_of_singleton in Hin as ->. done.
Qed.

Lemma LookupBlockIndex_Some t hash p : LookupBlockIndex t hash = Some p ->
  exists b, t !! p = Some b /\ phashBlock b = Some hash.
Proof.
  unfold LookupBlockIndex. intros H. apply fmap_Some in H as ([i b] & Hf & ->).
  apply list_find_Some in Hf as (Hb & Hh & _). exists b. done.
Qed.

Lemma LookupBlockIndex_None t hash : LookupBlockIndex t hash = None -> Some hash ∉ phashBlock <$> t.
Proof.
  unfold LookupBlockIndex. intros H. apply fmap_None in H. apply list_find_None in H.
  intros Hin. apply list_elem_of_fmap in Hin as (b & Hb & Hin). rewrite Forall_forall in H. apply (H b Hin). done.
Qed.

Lemma LookupBlockIndex_snoc t b hash : phashBlock b <> Some hash ->
  LookupBlockIndex (t ++ [b]) hash = LookupBlockIndex t hash.
Proof.
  intros Hb. unfold LookupBlockIndex. destruct (list_find _ t) as [[i x]|] eqn:Hf.
  - erewrite list_find_app_l; done.
  - rewrite (proj2 (list_find_app_None _ _ _)); [done|]. split; [done|].
    apply list_find_None. constructor; [done|constructor].
Qed.

Section add.
Context (t : BlockMap) (Ht : tree_ok t).

(** [pprev], [nHeight] and [pskip] of an appended entry *)
Lemma link_parent_snoc b hashPrev : phashBlock b <> Some hashPrev -> pprev b = None ->
  link_parent (t ++ [b]) (length t) hashPrev =
  match LookupBlockIndex t hashPrev with
  | None => Some (t ++ [b])
  | Some q => bq ← t !! q;
      Some (t ++ [set_pskip (set_pprev b q (nHeight bq + 1)) (ancestor t q (GetSkipHeight (nHeight bq + 1)))])
  end.
Proof.
  intros Hne Hp. unfold link_parent. rewrite LookupBlockIndex_snoc by done.
  destruct (LookupBlockIndex t hashPrev) as [q|] eqn:Hq; [|done].
  destruct (LookupBlockIndex_Some _ _ _ Hq) as (bq & Hbq & _).
  rewrite (list_lookup_middle t [] b (length t) eq_refl). rewrite (lookup_app_l_Some _ _ _ _ Hbq), Hbq. cbn [mbind option_bind].
  rewrite insert_app_r_alt by lia. rewrite Nat.sub_diag. unfold BuildSkip.
  cbn [insert list_insert]. rewrite (list_lookup_middle t [] _ (length t) eq_refl). cbn [mbind option_bind pprev set_pprev nHeight].
  rewrite (GetAncestor_app t _ q _ (ancestor t q (GetSkipHeight (nHeight bq + 1)))).
  - cbn [mbind option_bind]. rewrite insert_app_r_alt by lia. rewrite Nat.sub_diag. done.
  - apply (GetAncestor_spec t (tree_entries t Ht) q bq). done.
Qed.

(** an entry that has just been linked *)
Definition linked (b : CBlockIndex) : Prop :=
  fits 32 (bi_nBits b) /\ Z.land (nStatus b) BLOCK_FAILED_MASK = 0 /\
  match pprev b with
  | None => pskip b = None /\ nHeight b = 0
  | Some q => exists bq, t !! q = Some bq /\ nHeight b = nHeight bq + 1 /\
                pskip b = ancestor t q (GetSkipHeight (nHeight b))
  end.

Lemma accumulate_linked b l : linked b ->
  exists tm w, accumulate (t ++ l) b = Some (set_totals b tm w) /\ Ok256 w /\
    forall l', entry_ok (t ++ l') (length t) (set_totals b tm w).
Proof.
  intros (Hbits & _ & Hl). destruct (GetBlockProof_spec b Hbits) as (w & Hw & Hok & Hv).
  unfold accumulate. rewrite Hw. cbn [mbind option_bind]. destruct (pprev b) as [q|] eqn:Hq.
  - destruct Hl as (bq & Hbq & Hh & Hskip). rewrite (lookup_app_l_Some _ _ _ _ Hbq). cbn [mbind option_bind].
    destruct (tree_entries t Ht q bq Hbq) as (Hcw & _ & _).
    eexists _, _. split; [done|]. split; [apply _|]. intros l'. unfold entry_ok, child_ok. entry_simpl.
    split; [apply _|]. split; [done|]. rewrite Hq.
    split; [apply lookup_lt_Some in Hbq; done|]. exists bq.
    split; [apply lookup_app_l_Some; done|]. split; [done|]. split.
    + pose proof (height_bound t (tree_entries t Ht) q bq Hbq).
      pose proof (GetSkipHeight_bound (nHeight b) ltac:(lia)).
      destruct (ancestor_Some t (tree_entries t Ht) q bq (GetSkipHeight (nHeight b)) Hbq ltac:(lia)) as (r & _ & Hr & _).
      rewrite Hskip, Hr. symmetry. apply ancestor_app. done.
    + split; [done|]. rewrite (arith_add_val (nChainWork bq) w), Hv. done.
  - destruct Hl as (Hskip & Hh). eexists _, _. split; [done|]. split; [apply _|]. intros l'. unfold entry_ok, root_ok.
    entry_simpl. split; [apply _|]. split; [done|]. rewrite Hq. split; [done|]. split; [done|]. split; [done|].
    rewrite (arith_add_val (arith_of 0) w), arith_of_0, Hv. apply Z.mod_small.
    pose proof (work_of_bound _ Hbits). lia.
Qed.

End add.

Lemma RaiseValidity_new b : nStatus b = 0 ->
  RaiseValidity b BLOCK_VALID_TREE = Some (set_nStatus b BLOCK_VALID_TREE, true).
Proof. intros Hs. unfold RaiseValidity. rewrite Hs. reflexivity. Qed.

(** the best header has the most work *)
Definition best_ok (t : BlockMap) (best : option nat) : Prop :=
  match best with
  | None => t = []
  | Some p => exists b, t !! p = Some b /\
      forall q bq, t !! q = Some bq -> to_Z (nChainWork bq) <= to_Z (nChainWork b)
  end.

Definition manager_ok (s : BlockManager) : Prop :=
  tree_ok (m_block_index s) /\ best_ok (m_block_index s) (best_header s).

(** the entry made for a header *)
Definition entry_of (t : BlockMap) (hash : uint256) (block : CBlockHeader) (b : CBlockIndex) : Prop :=
  phashBlock b = Some hash /\ pprev b = LookupBlockIndex t (hashPrevBlock block) /\
  nStatus b = BLOCK_VALID_TREE /\ bi_nVersion b = nVersion block /\
  bi_hashMerkleRoot b = hashMerkleRoot block /\ bi_nTime b = nTime block /\
  bi_nBits b = nBits block /\ bi_nNonce b = nNonce block.

Lemma best_ok_snoc t b best : best_ok t best -> Ok256 (nChainWork b) -> entries_ok t ->
  exists best',
    match best with
    | None => Some (length t)
    | Some q => bq ← (t ++ [b]) !! q; Some (if arith_lt (nChainWork bq) (nChainWork b) then length t else q)
    end = Some best' /\ best_ok (t ++ [b]) (Some best').
Proof.
  intros Hbest Hb Ht. destruct best as [q|]; cbn in Hbest.
  - destruct Hbest as (bq & Hq & Hmax). rewrite (lookup_app_l_Some _ _ _ _ Hq). cbn [mbind option_bind].
    eexists. split; [done|]. destruct (Ht q bq Hq) as (Hokq & _ & _).
    rewrite (arith_lt_val (nChainWork bq) (nChainWork b)).
    destruct (Z.ltb_spec (to_Z (nChainWork bq)) (to_Z (nChainWork b))).
    + exists b. split; [apply (list_lookup_middle t [] b); done|]. intros r br Hr.
      apply lookup_app_Some in Hr as [Hr|[_ Hr]]; [specialize (Hmax r br Hr); lia|].
      apply list_lookup_singleton_Some in Hr as [_ <-]. lia.
    + exists bq. split; [apply lookup_app_l_Some; done|]. intros r br Hr.
      apply lookup_app_Some in Hr as [Hr|[_ Hr]]; [exact (Hmax r br Hr)|].
      apply list_lookup_singleton_Some in Hr as [_ <-]. lia.
  - subst t. eexists. split; [done|]. exists b. split; [done|]. intros r br Hr.
    apply list_lookup_singleton_Some in Hr as [_ <-]. lia.
Qed.

Section manager.
Context `{Cpu}.

Lemma AddToBlockIndex_new s block (hash := CBlockHeader_GetHash block) : manager_ok s -> fits 32 (nBits block) ->
  hash <> hashPrevBlock block -> LookupBlockIndex (m_block_index s) hash = None ->
  exists b best, AddToBlockIndex s block =
    Some ({| m_block_index := m_block_index s ++ [b]; best_header := Some best;
             m_dirty_blockindex := length (m_block_index s) :: m_dirty_blockindex s |}, length (m_block_index s)) /\
    entry_of (m_block_index s) hash block b /\ tree_ok (m_block_index s ++ [b]) /\
    best_ok (m_block_index s ++ [b]) (Some best).
Proof.
  intros [Ht Hbest] Hbits Hself Hlook. unfold AddToBlockIndex. fold hash. rewrite Hlook.
  set (t := m_block_index s) in *. set (n0 := set_phashBlock (CBlockIndex_of block) hash 0).
  assert (Hlink : exists b1, link_parent (t ++ [n0]) (length t) (hashPrevBlock block) = Some (t ++ [b1]) /\
            linked t b1 /\ nStatus b1 = 0 /\ entry_of t hash block (set_nStatus b1 BLOCK_VALID_TREE)).
  { rewrite (link_parent_snoc t Ht) by (done || (intros [= E]; exact (Hself E))).
    destruct (LookupBlockIndex t (hashPrevBlock block)) as [q|] eqn:Hq.
    - destruct (LookupBlockIndex_Some _ _ _ Hq) as (bq & Hbq & _). rewrite Hbq. cbn [mbind option_bind].
      eexists. split; [done|]. split; [|split; [done|unfold entry_of; rewrite Hq; done]].
      split; [done|]. split; [done|]. exists bq. done.
    - eexists. split; [done|]. split; [|split; [done|unfold entry_of; rewrite Hq; done]].
      split; [done|]. split; done. }
  destruct Hlink as (b1 & -> & Hlinked & Hst & Hentry). cbn [mbind option_bind].
  rewrite (list_lookup_middle t [] b1 (length t) eq_refl). cbn [mbind option_bind].
  destruct (accumulate_linked t Ht b1 [b1] Hlinked) as (tm & w & -> & Hw & Hok). cbn [mbind option_bind].
  rewrite RaiseValidity_new by done. cbn [mbind option_bind].
  set (b := set_nStatus (set_totals b1 tm w) BLOCK_VALID_TREE).
  rewrite insert_app_r_alt by lia. rewrite Nat.sub_diag. cbn [insert list_insert].
  destruct (best_ok_snoc t b (best_header s) Hbest Hw (tree_entries t Ht)) as (best & -> & Hb).
  cbn [mbind option_bind]. exists b, best. split; [done|]. split; [exact Hentry|]. split; [|exact Hb].
  apply LookupBlockIndex_None in Hlook. destruct Hentry as (Hph & _). 
  apply tree_ok_snoc; [done|exact (Hok [b])| |].
  - change (phashBlock b) with (phashBlock (set_nStatus b1 BLOCK_VALID_TREE)). congruence.
  - change (phashBlock b) with (phashBlock (set_nStatus b1 BLOCK_VALID_TREE)). rewrite Hph. done.
Qed.

Lemma entry_header t hash block b l : entry_of t hash block b ->
  (LookupBlockIndex t (hashPrevBlock block) = None -> hashPrevBlock block = uint256_null) ->
  index_GetBlockHeader (t ++ l) b = Some block.
Proof.
  intros (_ & Hp & _ & Hv & Hm & Htm & Hb & Hn) Hnull. unfold index_GetBlockHeader. rewrite Hp.
  destruct (LookupBlockIndex t (hashPrevBlock block)) as [q|] eqn:Hq.
  - destruct (LookupBlockIndex_Some _ _ _ Hq) as (bq & Hbq & Hh).
    rewrite (lookup_app_l_Some _ _ _ _ Hbq). cbn [mbind option_bind]. unfold GetBlockHash. rewrite Hh.
    cbn [mbind option_bind]. rewrite Hv, Hm, Htm, Hb, Hn. destruct block. done.
  - cbn [mbind option_bind]. rewrite Hv, Hm, Htm, Hb, Hn, <- Hnull by done. destruct block. done.
Qed.

(** the indexes that arise from the empty one *)
Inductive indexed : BlockManager -> Prop :=
| indexed_empty : indexed {| m_block_index := []; best_header := None; m_dirty_blockindex := [] |}
| indexed_add s block s' p : indexed s -> header_ok block -> CBlockHeader_GetHash block <> hashPrevBlock block ->
    AddToBlockIndex s block = Some (s', p) -> indexed s'.

Lemma indexed_ok s : indexed s -> manager_ok s.
Proof.
  induction 1 as [|s block s' p _ IH Hok Hself Hadd].
  - split; [|done]. split; [|split]; [intros ?? E; done..|constructor].
  - destruct (LookupBlockIndex (m_block_index s) (CBlockHeader_GetHash block)) as [q|] eqn:Hq.
    + unfold AddToBlockIndex in Hadd. rewrite Hq in Hadd. congruence.
    + destruct (AddToBlockIndex_new s block IH) as (b & best & Hadd' & _ & Ht & Hb); [apply Hok|done..|].
      rewrite Hadd' in Hadd. injection Hadd as <- <-. split; done.
Qed.

(** C8: The block index: every index built from the empty one by adding headers keeps its invariant: parents precede
    children, heights grow by one, [pskip] is the ancestor at [GetSkipHeight], [nTimeMax] is the greatest time and
    [nChainWork] the sum of [2^256 / (target + 1)] along the chain, hashes are unique, and the best header has
    the most work.  Adding another header never fails an assertion or dereferences a null
    pointer, leaves the old entries in place, and the entry returned has the hash of the header; a new
    one gives the header back. *)
Theorem block_index_invariant (s : BlockManager) (block : CBlockHeader) :
  indexed s -> header_ok block -> CBlockHeader_GetHash block <> hashPrevBlock block ->
  exists s' p b l, AddToBlockIndex s block = Some (s', p) /\ manager_ok s /\ manager_ok s' /\
    m_block_index s' = m_block_index s ++ l /\
    m_block_index s' !! p = Some b /\ phashBlock b = Some (CBlockHeader_GetHash block) /\
    (l <> [] -> (LookupBlockIndex (m_block_index s) (hashPrevBlock block) = None -> hashPrevBlock block = uint256_null) ->
     index_GetBlockHeader (m_block_index s') b = Some block).
Proof.
  intros Hs Hok Hself. pose proof (indexed_ok s Hs) as Hm.
  destruct (LookupBlockIndex (m_block_index s) (CBlockHeader_GetHash block)) as [q|] eqn:Hq.
  - destruct (LookupBlockIndex_Some _ _ _ Hq) as (b & Hb & Hh). exists s, q, b, []. unfold AddToBlockIndex.
    rewrite Hq, app_nil_r. done.
  - destruct (AddToBlockIndex_new s block Hm) as (b & best & Hadd & He & Ht & Hb); [apply Hok|done..|].
    eexists _, _, b, [b]. split; [exact Hadd|]. cbn [m_block_index]. split; [done|]. split; [split; done|]. split; [done|].
    split; [apply (list_lookup_middle _ [] b); done|]. split; [apply He|].
    intros _ Hnull. eapply entry_header; done.
Qed.

End manager.

(** Ancestors: on a well-formed index [GetAncestor], which follows the skip pointers, returns for every height what
    walking [pprev] returns: the entry at that height, or null above the block and below zero.
    Its loop ends and its assertion on [pprev] holds. *)
Theorem GetAncestor_naive (t : BlockMap) (p : nat) (b : CBlockIndex) (height : Z) : tree_ok t -> t !! p = Some b ->
  GetAncestor t p height = Some (ancestor t p height) /\
  (0 <= height <= nHeight b ->
   exists q bq, up t (Z.to_nat (nHeight b - height)) p = Some q /\ ancestor t p height = Some q /\
                t !! q = Some bq /\ nHeight bq = height) /\
  (height < 0 \/ nHeight b < height -> ancestor t p height = None).
Proof.
  intros Ht Hb. pose proof (tree_entries t Ht) as He.
  split; [apply (GetAncestor_spec t He p b); done|]. split; [|apply ancestor_None; done].
  intros Hh. destruct (ancestor_Some t He p b height Hb Hh) as (q & bq & Hq & Hbq & Hhq & _).
  exists q, bq. destruct (ancestor_inv t p b height q Hb Hq) as [_ Hu]. done.
Qed.

(** ** Median time *)

(** how many elements are smaller *)
Definition below (m : Z) (l : list Z) : nat := length (filter (fun y => y < m) l).

Lemma sorted_below (l : list Z) k x m : StronglySorted Z.le l -> l !! k = Some x ->
  (below m l <= k)%nat -> m <= x.
Proof.
  intros Hs. revert k. induction Hs as [|y l Hs IH Hle]; intros k Hk; [done|].
  unfold below in *. rewrite filter_cons.
  destruct (decide (y < m)) as [Hlt|Hge]; intros Hc; destruct k as [|k]; cbn in Hk, Hc; try lia.
  - apply (IH k); [done|lia].
  - injection Hk as <-. lia.
  - apply list_elem_of_lookup_2 in Hk. rewrite Forall_forall in Hle. specialize (Hle _ Hk). lia.
Qed.

Lemma sorted_rank (l : list Z) k x : StronglySorted Z.le l -> l !! k = Some x ->
  (below x l <= k)%nat.
Proof.
  intros Hs. revert k. induction Hs as [|y l Hs IH Hle]; intros k Hk; [done|].
  unfold below in *. rewrite filter_cons.
  destruct k as [|k]; cbn in Hk.
  - injection Hk as <-. rewrite decide_False by lia.
    destruct (filter (fun z => z < y) l) as [|z l'] eqn:E; [done|].
    assert (Hz : z ∈ filter (fun z => z < y) l) by (rewrite E; left).
    apply list_elem_of_filter in Hz as [Hz Hin]. rewrite Forall_forall in Hle. specialize (Hle z Hin). lia.
  - specialize (IH k Hk). destruct (decide (y < x)); cbn; lia.
Qed.

Lemma count_perm (l l' : list Z) m : l ≡ₚ l' ->
  below m l = below m l'.
Proof. unfold below. intros Hp. apply Permutation_length. apply filter_Permutation. done. Qed.

Lemma count_take (l : list Z) n m :
  (below m (take n l) <= below m l)%nat.
Proof. unfold below. rewrite <- (take_drop n l) at 2. rewrite filter_app, length_app. lia. Qed.

Lemma sort_strong (l : list Z) : StronglySorted Z.le (merge_sort Z.le l).
Proof. apply (StronglySorted_merge_sort Z.le). Qed.

Lemma sort_perm (l : list Z) : merge_sort Z.le (rev l) ≡ₚ l.
Proof. rewrite merge_sort_Permutation. symmetry. apply Permutation_rev. Qed.

Section median.
Context (t : BlockMap) (Ht : entries_ok t).

Lemma median_window_total n p b : t !! p = Some b -> exists w, median_window n t (Some p) = Some w /\
  (n <> O -> w <> []) /\ (length w <= n)%nat /\ Forall (fun x => x <= nTimeMax b) w.
Proof.
  revert p b. induction n as [|n IH]; intros p b Hb; [exists []; done|]. cbn [median_window].
  rewrite Hb. cbn [mbind option_bind]. destruct (Ht p b Hb) as (_ & _ & He).
  destruct (pprev b) as [q|] eqn:Hq.
  - destruct He as (_ & bq & Hbq & _ & _ & Htm & _). destruct (IH q bq Hbq) as (w & -> & _ & Hl & Hmax).
    eexists. split; [done|]. split; [done|]. split; [cbn; lia|].
    unfold index_GetBlockTime. constructor; [lia|]. eapply Forall_impl; [exact Hmax|]. cbn. lia.
  - destruct He as (_ & _ & Htm & _). exists [bi_nTime b]. split; [destruct n; done|]. split; [done|].
    split; [cbn; lia|]. constructor; [lia|constructor].
Qed.

Lemma median_window_prefix n o w : median_window (S n) t o = Some w -> median_window n t o = Some (take n w).
Proof.
  revert o w. induction n as [|n IH]; intros [p|] w; try done; [|cbn; intros [= <-]; done].
  intros Hw. change (median_window (S (S n)) t (Some p)) with
    (b ← t !! p; w ← median_window (S n) t (pprev b); Some (index_GetBlockTime b :: w)) in Hw.
  cbn [median_window]. destruct (t !! p) as [b|]; cbn [mbind option_bind] in *; [|done].
  destruct (median_window (S n) t (pprev b)) as [w'|] eqn:E; cbn [mbind option_bind] in Hw; [|done].
  injection Hw as <-. rewrite (IH _ _ E). done.
Qed.

Lemma median_total p b w : t !! p = Some b -> median_window nMedianTimeSpan t (Some p) = Some w ->
  exists m, GetMedianTimePast t p = Some m /\ merge_sort Z.le (rev w) !! (length w / 2)%nat = Some m.
Proof.
  intros Hb Hw. destruct (median_window_total nMedianTimeSpan p b Hb) as (w' & Hw' & Hne & _).
  assert (w' = w) as -> by congruence. specialize (Hne ltac:(done)).
  assert (Hlt : (length w / 2 < length (merge_sort Z.le (rev w)))%nat).
  { rewrite (Permutation_length (sort_perm w)). apply Nat.div_lt; [|lia]. destruct w; [done|cbn; lia]. }
  destruct (lookup_lt_is_Some_2 _ _ Hlt) as [m Hm]. exists m. split; [|done].
  unfold GetMedianTimePast. rewrite Hw. done.
Qed.

Lemma median_step p q b : t !! p = Some b -> pprev b = Some q ->
  exists m m', GetMedianTimePast t q = Some m /\ GetMedianTimePast t p = Some m' /\
    (m < bi_nTime b -> m <= m') /\ m' <= nTimeMax b.
Proof.
  intros Hb Hq.
  destruct (entry_parent t Ht p b q Hb Hq) as (_ & bq & Hbq & _).
  destruct (median_window_total nMedianTimeSpan q bq Hbq) as (w & Hw & _ & Hlen & _).
  destruct (median_window_total nMedianTimeSpan p b Hb) as (w' & Hw' & _ & _ & Hmax).
  destruct (median_total q bq w Hbq Hw) as (m & Hm & Hk).
  destruct (median_total p b w' Hb Hw') as (m' & Hm' & Hk').
  exists m, m'. split; [done|]. split; [done|]. split.
  - intros Hlt. assert (w' = bi_nTime b :: take 10 w) as ->.
    { change (median_window nMedianTimeSpan t (Some p)) with
        (b ← t !! p; w ← median_window 10 t (pprev b); Some (index_GetBlockTime b :: w)) in Hw'.
      rewrite Hb in Hw'. cbn [mbind option_bind] in Hw'. rewrite Hq, (median_window_prefix 10 _ w Hw) in Hw'.
      cbn [mbind option_bind] in Hw'. injection Hw' as <-. done. }
    apply (sorted_below _ _ _ _ (sort_strong _) Hk').
    rewrite (count_perm _ _ m (sort_perm _)). unfold below. rewrite filter_cons, decide_False by lia. fold (below m (take 10 w)).
    pose proof (sorted_rank _ _ _ (sort_strong _) Hk) as Hr. rewrite (count_perm _ _ m (sort_perm w)) in Hr.
    pose proof (count_take w 10 m). unfold nMedianTimeSpan in Hlen. cbn [length]. rewrite length_take.
    pose proof (Nat.div_mod_eq (length w) 2). pose proof (Nat.mod_upper_bound (length w) 2 ltac:(lia)).
    etransitivity; [eassumption|]. etransitivity; [exact Hr|]. apply Nat.div_le_lower_bound; lia.
  - apply list_elem_of_lookup_2 in Hk'. rewrite (sort_perm w') in Hk'. rewrite Forall_forall in Hmax. apply Hmax. done.
Qed.

(** every block is later than the median time past of its parent, as header validation demands *)
Definition timely : Prop := forall p b q m, t !! p = Some b -> pprev b = Some q -> GetMedianTimePast t q = Some m -> m < bi_nTime b.

Lemma GetMedianTimePast_total p b : t !! p = Some b -> exists m, GetMedianTimePast t p = Some m.
Proof.
  intros Hb. destruct (median_window_total nMedianTimeSpan p b Hb) as (w & Hw & _).
  destruct (median_total p b w Hb Hw) as (m & Hm & _). eauto.
Qed.

Lemma median_ancestor n p a m m' : timely -> up t n p = Some a -> GetMedianTimePast t a = Some m -> GetMedianTimePast t p = Some m' -> m <= m'.
Proof.
  intros Htl. revert p m'. induction n as [|n IH]; intros p m' Hup Hm Hm'; [cbn in Hup; injection Hup as ->; simplify_eq; lia|].
  cbn in Hup. destruct (t !! p) as [b|] eqn:Hb; [cbn in Hup|done]. destruct (pprev b) as [q|] eqn:Hq; [cbn in Hup|done].
  destruct (median_step p q b Hb Hq) as (mq & m'' & Hmq & Hm'' & Hle & _). simplify_eq.
  specialize (IH q mq Hup Hm Hmq). specialize (Hle (Htl p b q mq Hb Hq Hmq)). lia.
Qed.

End median.

(** ** Growth of the block index *)

(** [t'] has the blocks of [t], whose status and counters may have changed *)
Definition same_block (b b' : CBlockIndex) : Prop :=
  pprev b' = pprev b /\ nHeight b' = nHeight b /\ bi_nTime b' = bi_nTime b /\ bi_nVersion b' = bi_nVersion b.
Definition grows (t t' : BlockMap) : Prop := forall p b, t !! p = Some b -> exists b', t' !! p = Some b' /\ same_block b b'.

#[export] Instance grows_preorder : PreOrder grows.
Proof.
  split.
  - intros t p b Hb. exists b. done.
  - intros t1 t2 t3 H12 H23 p b Hb. destruct (H12 p b Hb) as (b2 & Hb2 & H1 & H2 & H3 & H4).
    destruct (H23 p b2 Hb2) as (b3 & Hb3 & H1' & H2' & H3' & H4'). exists b3. unfold same_block. split_and!; congruence.
Qed.

Lemma grows_app t l : grows t (t ++ l).
Proof. intros p b Hb. exists b. split; [apply lookup_app_l_Some, Hb|done]. Qed.

Section growth.
Context (t t' : BlockMap) (Ht : entries_ok t) (Hg : grows t t').

Lemma grows_up n p b : t !! p = Some b -> up t' n p = up t n p.
Proof.
  revert p b. induction n as [|n IH]; intros p b Hb; [done|]. destruct (Hg p b Hb) as (b' & Hb' & Hp & _).
  rewrite (up_S t n p b Hb), (up_S t' n p b' Hb'), Hp. destruct (pprev b) as [q|] eqn:Hq; [|done]. cbn.
  destruct (entry_parent t Ht p b q Hb Hq) as (_ & bq & Hbq & _). apply (IH q bq Hbq).
Qed.

Lemma grows_ancestor p b h : t !! p = Some b -> ancestor t' p h = ancestor t p h.
Proof.
  intros Hb. destruct (Hg p b Hb) as (b' & Hb' & _ & Hh & _). unfold ancestor. rewrite Hb, Hb'. cbn [mbind option_bind].
  rewrite Hh, (grows_up _ p b Hb). done.
Qed.

Lemma grows_window n p b : t !! p = Some b -> median_window n t' (Some p) = median_window n t (Some p).
Proof.
  revert p b. induction n as [|n IH]; intros p b Hb; [done|]. destruct (Hg p b Hb) as (b' & Hb' & Hp & _ & Htm & _).
  cbn [median_window]. rewrite Hb, Hb'. cbn [mbind option_bind]. unfold index_GetBlockTime. rewrite Hp, Htm.
  destruct (pprev b) as [q|] eqn:Hq; [|destruct n; done]. destruct (entry_parent t Ht p b q Hb Hq) as (_ & bq & Hbq & _). rewrite (IH q bq Hbq). done.
Qed.

Lemma grows_median p b : t !! p = Some b -> GetMedianTimePast t' p = GetMedianTimePast t p.
Proof. intros Hb. unfold GetMedianTimePast. rewrite (grows_window _ p b Hb). done. Qed.

(** the new block is later than the median time past of its parent *)
Lemma timely_snoc b : t' = t ++ [b] -> timely t -> (forall q, pprev b = Some q -> is_Some (t !! q)) ->
  (forall q m, pprev b = Some q -> GetMedianTimePast t q = Some m -> m < bi_nTime b) -> timely t'.
Proof.
  intros Heq Htl Hknown Hnew p b' q m Hb' Hq Hm. rewrite Heq in Hb'. destruct (decide (p < length t)%nat) as [Hlt|Hge].
  - rewrite lookup_app_l in Hb' by done. destruct (entry_parent t Ht p b' q Hb' Hq) as (_ & bq & Hbq & _).
    rewrite (grows_median q bq Hbq) in Hm. apply (Htl p b' q m); done.
  - rewrite lookup_app_r in Hb' by lia. apply list_lookup_singleton_Some in Hb' as [_ <-]. destruct (Hknown q Hq) as [bq Hbq].
    rewrite (grows_median q bq Hbq) in Hm. apply (Hnew q m Hq Hm).
Qed.

End growth.

(** Median time past: it exists for every entry and is at most the greatest time of the chain; and a block whose time is above the median
    time past of its parent, which is what header validation demands, never lowers it. *)
Theorem median_time_monotone (t : BlockMap) (p q : nat) (b : CBlockIndex) :
  tree_ok t -> t !! p = Some b -> pprev b = Some q ->
  exists m m', GetMedianTimePast t q = Some m /\ GetMedianTimePast t p = Some m' /\
    (m < bi_nTime b -> m <= m') /\ m' <= nTimeMax b.
Proof. intros Ht. apply median_step, tree_entries, Ht. Qed.

(** ** The index on disk *)

Definition disk_ok (d : CDiskBlockIndex) : Prop :=
  let b := disk_index d in
  fits 31 (nHeight b) /\ fits 32 (nStatus b) /\ fits 32 (nTx b) /\ fits 31 (nFile b) /\
  fits 32 (nDataPos b) /\ fits 32 (nUndoPos b) /\ sfits 32 (bi_nVersion b) /\ blob_ok 32 (hashPrev d) /\
  blob_ok 32 (bi_hashMerkleRoot b) /\ fits 32 (bi_nTime b) /\ fits 32 (bi_nBits b) /\ fits 32 (bi_nNonce b).

Lemma VarInt_read k n rest : 0 <= k <= 64 -> fits k n -> ReadVarInt (2 ^ k - 1) (WriteVarInt n ++ rest) = Some (n, rest).
Proof.
  intros Hk [H0 H1]. apply ReadVarInt_Write; [lia|].
  assert (2 ^ k <= 2 ^ 64) by (apply Z.pow_le_mono_r; lia). lia.
Qed.

Lemma read_if_spec c r n rest : r (WriteVarInt n ++ rest) = Some (n, rest) ->
  read_if c r ((if c then WriteVarInt n else []) ++ rest) = Some (if c : bool then n else 0, rest).
Proof. destruct c; done. Qed.

Lemma flag_lor st a b : flag st (Z.lor a b) = flag st a || flag st b.
Proof.
  unfold flag. rewrite Z.land_lor_distr_r, <- negb_andb. f_equal. apply eq_iff_eq_true.
  rewrite andb_true_iff, !Z.eqb_eq. apply Z.lor_eq_0_iff.
Qed.

(** what is left of an entry on disk *)
Definition on_disk (b : CBlockIndex) : CBlockIndex :=
  disk_entry (nHeight b) (nStatus b) (nTx b)
    (if flag (nStatus b) BLOCK_HAVE_MASK then nFile b else 0)
    (if flag (nStatus b) BLOCK_HAVE_DATA then nDataPos b else 0)
    (if flag (nStatus b) BLOCK_HAVE_UNDO then nUndoPos b else 0)
    (bi_nVersion b) (bi_hashMerkleRoot b) (bi_nTime b) (bi_nBits b) (bi_nNonce b).

Lemma disk_roundtrip d rest : disk_ok d ->
  unser_CDiskBlockIndex (ser_CDiskBlockIndex d ++ rest) =
  Some ({| disk_index := on_disk (disk_index d); hashPrev := hashPrev d |}, rest).
Proof.
  intros (H1 & H2 & H3 & H4 & H5 & H6 & H7 & H8 & H9 & H10 & H11 & H12).
  unfold unser_CDiskBlockIndex, ser_CDiskBlockIndex, VarInt31, VarInt32. rewrite <- !app_assoc.
  rewrite (VarInt_read 31 DISK_DUMMY_VERSION) by (split; done). cbn [mbind option_bind].
  rewrite (VarInt_read 31) by (done || lia). cbn [mbind option_bind].
  do 2 (rewrite (VarInt_read 32) by (done || lia); cbn [mbind option_bind]).
  rewrite (read_if_spec _ _ (nFile _)) by (apply (VarInt_read 31); done || lia). cbn [mbind option_bind].
  rewrite (read_if_spec _ _ (nDataPos _)) by (apply (VarInt_read 32); done || lia). cbn [mbind option_bind].
  rewrite (read_if_spec _ _ (nUndoPos _)) by (apply (VarInt_read 32); done || lia). cbn [mbind option_bind].
  rewrite (codec_roundtrip (Codec := int32_codec)) by done. cbn [mbind option_bind].
  do 2 (rewrite (codec_roundtrip (Codec := blob_codec 32)) by done; cbn [mbind option_bind]).
  do 3 (rewrite (codec_roundtrip (Codec := uint32_codec)) by done; cbn [mbind option_bind]). done.
Qed.

(** The index on disk: an entry written as [CDiskBlockIndex] and read back has the same height, status, transaction count
    and header fields, its file positions as far as the status says they exist, and the hash reconstructed from it
    is the hash of the header of the entry. *)
Theorem disk_index_roundtrip `{Cpu} (t : BlockMap) (b : CBlockIndex) (d : CDiskBlockIndex) (block : CBlockHeader) (rest : list Z) :
  CDiskBlockIndex_of t b = Some d -> disk_ok d -> index_GetBlockHeader t b = Some block ->
  exists d', unser_CDiskBlockIndex (ser_CDiskBlockIndex d ++ rest) = Some (d', rest) /\
    nHeight (disk_index d') = nHeight b /\ nStatus (disk_index d') = nStatus b /\ nTx (disk_index d') = nTx b /\
    GetBlockPos (disk_index d') = GetBlockPos b /\ GetUndoPos (disk_index d') = GetUndoPos b /\
    ConstructBlockHash d' = CBlockHeader_GetHash block.
Proof.
  intros Hd Hok Hblock. unfold CDiskBlockIndex_of in Hd. unfold index_GetBlockHeader in Hblock.
  destruct (match pprev b with None => Some uint256_null | Some q => bq ← t !! q; GetBlockHash bq end) as [prev|];
    cbn [mbind option_bind] in *; [|done].
  injection Hd as <-. injection Hblock as <-. eexists. split; [apply disk_roundtrip; done|].
  unfold GetBlockPos, GetUndoPos, on_disk, disk_entry. cbn [disk_index nStatus nFile nDataPos nUndoPos].
  split_and!; try done.
  - destruct (flag (nStatus b) BLOCK_HAVE_DATA) eqn:E; [|done].
    unfold BLOCK_HAVE_MASK. rewrite flag_lor, E. done.
  - destruct (flag (nStatus b) BLOCK_HAVE_UNDO) eqn:E; [|done].
    unfold BLOCK_HAVE_MASK. rewrite flag_lor, E, orb_true_r. done.
Qed.

(** ** Concrete inputs *)

(** two headers, the second on top of the first *)
Definition sample_child : CBlockHeader := {|
  nVersion := 1; hashPrevBlock := @CBlockHeader_GetHash portable_cpu sample_header; hashMerkleRoot := replicate 32 8;
  nTime := 1723502460; nBits := 0x1e0fffff; nNonce := 6 |}.

Definition empty_manager : BlockManager := {| m_block_index := []; best_header := None; m_dirty_blockindex := [] |}.
Definition sample_manager : BlockManager :=
  match @AddToBlockIndex portable_cpu empty_manager sample_header with
  | Some (s, _) => match @AddToBlockIndex portable_cpu s sample_child with Some (s, _) => s | None => s end
  | None => empty_manager
  end.

Lemma block_index_invariant_witness :
  exists s' p b l, @AddToBlockIndex portable_cpu empty_manager sample_header = Some (s', p) /\ manager_ok empty_manager /\
    manager_ok s' /\ m_block_index s' = [] ++ l /\ m_block_index s' !! p = Some b /\
    phashBlock b = Some (@CBlockHeader_GetHash portable_cpu sample_header) /\
    (l <> [] -> (LookupBlockIndex [] (hashPrevBlock sample_header) = None -> hashPrevBlock sample_header = uint256_null) ->
     index_GetBlockHeader (m_block_index s') b = Some sample_header).
Proof.
  apply (@block_index_invariant portable_cpu empty_manager sample_header); [constructor|apply sample_header_ok|].
  apply (bool_decide_eq_false_1 _). vm_compute. reflexivity.
Defined.

Lemma sample_child_ok : header_ok sample_child.
Proof.
  unfold header_ok. split_and!; apply (bool_decide_unpack _); vm_compute; exact I.
Qed.

Lemma sample_manager_indexed : @indexed portable_cpu sample_manager.
Proof.
  assert (E1 : exists s p, @AddToBlockIndex portable_cpu empty_manager sample_header = Some (s, p) /\
                 exists p', @AddToBlockIndex portable_cpu s sample_child = Some (sample_manager, p')).
  { eexists _, _. split; [vm_compute; reflexivity|]. eexists. vm_compute. reflexivity. }
  destruct E1 as (s & p & E1 & p' & E2).
  apply (@indexed_add portable_cpu s sample_child _ p'); [|exact sample_child_ok| |exact E2].
  - apply (@indexed_add portable_cpu empty_manager sample_header _ p); [constructor|apply sample_header_ok| |exact E1].
    apply (bool_decide_eq_false_1 _). vm_compute. reflexivity.
  - apply (bool_decide_eq_false_1 _). vm_compute. reflexivity.
Qed.

Definition sample_tree : BlockMap := m_block_index sample_manager.
Definition sample_tip : CBlockIndex := default CBlockIndex_default (sample_tree !! 1%nat).

Lemma sample_tree_ok : tree_ok sample_tree.
Proof. unfold sample_tree. exact (proj1 (@indexed_ok portable_cpu sample_manager sample_manager_indexed)). Qed.

Lemma GetAncestor_naive_witness : GetAncestor sample_tree 1 0 = Some (Some 0%nat).
Proof.
  transitivity (Some (ancestor sample_tree 1 0)); [|vm_compute; reflexivity].
  apply (GetAncestor_naive sample_tree 1 sample_tip 0 sample_tree_ok). vm_compute. reflexivity.
Defined.

Lemma median_time_monotone_witness :
  exists m m', GetMedianTimePast sample_tree 0 = Some m /\ GetMedianTimePast sample_tree 1 = Some m' /\
    (m < bi_nTime sample_tip -> m <= m') /\ m' <= nTimeMax sample_tip.
Proof. apply (median_time_monotone sample_tree 1 0 sample_tip sample_tree_ok); vm_compute; reflexivity. Defined.

Definition sample_disk : CDiskBlockIndex :=
  {| disk_index := sample_tip; hashPrev := @CBlockHeader_GetHash portable_cpu sample_header |}.

Lemma disk_index_roundtrip_witness : exists d', unser_CDiskBlockIndex (ser_CDiskBlockIndex sample_disk ++ [1]) = Some (d', [1]) /\
    nHeight (disk_index d') = nHeight sample_tip /\ nStatus (disk_index d') = nStatus sample_tip /\
    nTx (disk_index d') = nTx sample_tip /\ GetBlockPos (disk_index d') = GetBlockPos sample_tip /\
    GetUndoPos (disk_index d') = GetUndoPos sample_tip /\
    @ConstructBlockHash portable_cpu d' = @CBlockHeader_GetHash portable_cpu sample_child.
Proof.
  apply (@disk_index_roundtrip portable_cpu sample_tree sample_tip sample_disk sample_child [1]).
  - vm_compute. reflexivity.
  - unfold disk_ok. cbn [sample_disk disk_index hashPrev].
    split_and!; try (apply (bool_decide_unpack _); vm_compute; exact I).
  - vm_compute. reflexivity.
Defined.

(** ** Deciding the invariant of a given tree *)

Definition entry_okb (t : BlockMap) (p : nat) (b : CBlockIndex) : bool :=
  bool_decide (uint_ok 8 (nChainWork b) /\ fits 32 (bi_nBits b)) &&
  match pprev b with
  | None => bool_decide (root_ok b)
  | Some q => (q <? p)%nat &&
      match t !! q with
      | None => false
      | Some bq => bool_decide (nHeight b = nHeight bq + 1 /\ pskip b = ancestor t q (GetSkipHeight (nHeight b)) /\
          nTimeMax b = Z.max (nTimeMax bq) (bi_nTime b) /\
          to_Z (nChainWork b) = (to_Z (nChainWork bq) + work_of (bi_nBits b)) mod 2 ^ 256)
      end
  end.

Definition tree_okb (t : BlockMap) : bool :=
  forallb (fun '(p, b) => entry_okb t p b && bool_decide (phashBlock b <> None)) (imap pair t) &&
  bool_decide (NoDup (phashBlock <$> t)).

Lemma entry_okb_ok t p b : entry_okb t p b = true -> entry_ok t p b.
Proof.
  unfold entry_okb, entry_ok, child_ok. intros [[Hw Hb]%bool_decide_eq_true_1 H]%andb_true_iff.
  split; [exact Hw|]. split; [done|]. destruct (pprev b) as [q|]; [|exact (bool_decide_eq_true_1 _ H)].
  apply andb_true_iff in H as [Hq%Nat.ltb_lt H]. split; [done|].
  destruct (t !! q) as [bq|]; [|done]. apply bool_decide_eq_true_1 in H. exists bq. done.
Qed.

Lemma tree_okb_ok t : tree_okb t = true -> tree_ok t.
Proof.
  unfold tree_okb. intros [H Hnd%bool_decide_eq_true_1]%andb_true_iff. rewrite forallb_forall in H.
  assert (Hall : forall p b, t !! p = Some b -> entry_okb t p b = true /\ phashBlock b <> None).
  { intros p b Hp. specialize (H (p, b)). rewrite andb_true_iff, bool_decide_eq_true in H. apply H.
    apply list_elem_of_In, list_elem_of_lookup. exists p. rewrite list_lookup_imap, Hp. done. }
  split; [|split; [|done]]; intros p b Hp; destruct (Hall p b Hp); [apply entry_okb_ok; done|done].
Qed.
