(* ===== verification/Chain.v ===== *)
(** * Chains of blocks

    src/chain.h and src/chain.cpp: [CChain], the vector of the entries of one branch of the
    block index ([BlockIndex.v]) by height, its updates and queries, block locators and common
    ancestors.  A vector element is a pointer, null after a resize; [None] as a result is an
    access out of range, a null dereference or a failed assertion. *)

From Stdlib Require Import ZArith Lia Bool.
From stdpp Require Import base numbers list sorting.
From S2P Require Import Prelude ArithUint Uint256 Arith256 Params Hashes Serialize Primitives BlockIndex.
Local Open Scope Z_scope.

Notation CChain := (list (option nat)).

Definition chain_Genesis (c : CChain) : option nat := mjoin (c !! 0%nat).
Definition chain_Tip (c : CChain) : option nat := mjoin (c !! (length c - 1)%nat).

(** [operator[]] *)
Definition chain_at (c : CChain) (nHeight : Z) : option nat :=
  if (nHeight <? 0) || (nHeight >=? zlen c) then None else mjoin (c !! Z.to_nat nHeight).

Definition Contains (t : BlockMap) (c : CChain) (pindex : nat) : option bool :=
  b ← t !! pindex; Some (bool_decide (chain_at c (nHeight b) = Some pindex)).

Definition chain_Next (t : BlockMap) (c : CChain) (pindex : nat) : option (option nat) :=
  b ← t !! pindex;
  inside ← Contains t c pindex;
  Some (if inside : bool then chain_at c (nHeight b + 1) else None).

Definition chain_Height (c : CChain) : Z := zlen c - 1.

(** [vChain.resize] *)
Definition chain_resize (c : CChain) (n : Z) : CChain := ztake n c ++ zrep (n - zlen c) None.

(** the loop of [SetTip]: it goes down one height per iteration *)
Fixpoint set_tip_loop (fuel : nat) (t : BlockMap) (c : CChain) (pindex : option nat) : option CChain :=
  match pindex with
  | None => Some c
  | Some p =>
      match fuel with
      | O => None
      | S fuel =>
          b ← t !! p;
          old ← c !! Z.to_nat (nHeight b);
          if bool_decide (old = Some p) then Some c
          else set_tip_loop fuel t (<[Z.to_nat (nHeight b) := Some p]> c) (pprev b)
      end
  end.

Definition SetTip (t : BlockMap) (c : CChain) (block : nat) : option CChain :=
  b ← t !! block;
  set_tip_loop (S (Z.to_nat (nHeight b))) t (chain_resize c (nHeight b + 1)) (Some block).

(** [LocatorEntries]: the height decreases in every iteration *)
Fixpoint locator_loop (fuel : nat) (t : BlockMap) (index : option nat) (step : Z) (have : list uint256) : option (list uint256) :=
  match index with
  | None => Some have
  | Some p =>
      match fuel with
      | O => None
      | S fuel =>
          b ← t !! p;
          hash ← GetBlockHash b;
          let have := have ++ [hash] in
          if nHeight b =? 0 then Some have
          else
            let height := Z.max (nHeight b - step) 0 in
            index ← GetAncestor t p height;
            let step := if zlen have >? 10 then step * 2 else step in
            locator_loop fuel t index step have
      end
  end.

Definition LocatorEntries (t : BlockMap) (index : option nat) : option (list uint256) :=
  match index with
  | None => Some []
  | Some p => b ← t !! p; locator_loop (S (Z.to_nat (nHeight b))) t (Some p) 1 []
  end.

Definition GetLocator (t : BlockMap) (index : option nat) : option CBlockLocator :=
  have ← LocatorEntries t index; Some {| vHave := have |}.

Definition chain_GetLocator (t : BlockMap) (c : CChain) : option CBlockLocator := GetLocator t (chain_Tip c).

(** the loop of [FindFork] *)
Fixpoint fork_loop (fuel : nat) (t : BlockMap) (c : CChain) (pindex : option nat) : option (option nat) :=
  match pindex with
  | None => Some None
  | Some p =>
      inside ← Contains t c p;
      if inside : bool then Some (Some p)
      else match fuel with
           | O => None
           | S fuel => b ← t !! p; fork_loop fuel t c (pprev b)
           end
  end.

Definition FindFork (t : BlockMap) (c : CChain) (pindex : option nat) : option (option nat) :=
  match pindex with
  | None => Some None
  | Some p =>
      b ← t !! p;
      pindex ← (if nHeight b >? chain_Height c then GetAncestor t p (chain_Height c) else Some (Some p));
      fork_loop (S (Z.to_nat (nHeight b))) t c pindex
  end.

(** [std::lower_bound] on positions [[first, first + count)]: halve the range until it is empty *)
Fixpoint lower_bound (fuel : nat) (less : nat -> option bool) (first count : nat) : option nat :=
  match count with
  | O => Some first
  | _ =>
      match fuel with
      | O => None
      | S fuel =>
          let step := (count / 2)%nat in
          lt ← less (first + step)%nat;
          if lt : bool then lower_bound fuel less (first + step + 1) (count - (step + 1))
          else lower_bound fuel less first step
      end
  end.

(** the comparison of [FindEarliestAtLeast] *)
Definition earlier (t : BlockMap) (c : CChain) (nTime height : Z) (i : nat) : option bool :=
  p ← mjoin (c !! i); b ← t !! p;
  Some ((GetBlockTimeMax b <? nTime) || (nHeight b <? height)).

Definition FindEarliestAtLeast (t : BlockMap) (c : CChain) (nTime height : Z) : option (option nat) :=
  lower ← lower_bound (length c) (earlier t c nTime height) 0 (length c);
  Some (if (lower =? length c)%nat then None else mjoin (c !! lower)).

(** the loop of [LastCommonAncestor] and its assertion: the two pointers are equal, or both null *)
Fixpoint common_loop (fuel : nat) (t : BlockMap) (pa pb : option nat) : option (option nat) :=
  match pa, pb with
  | Some a, Some b =>
      if (a =? b)%nat then Some (Some a)
      else match fuel with
           | O => None
           | S fuel => ba ← t !! a; bb ← t !! b; common_loop fuel t (pprev ba) (pprev bb)
           end
  | None, None => Some None
  | _, _ => None
  end.

Definition LastCommonAncestor (t : BlockMap) (pa pb : nat) : option (option nat) :=
  ba ← t !! pa; bb ← t !! pb;
  if nHeight ba >? nHeight bb then
    qa ← GetAncestor t pa (nHeight bb); common_loop (S (Z.to_nat (nHeight bb))) t qa (Some pb)
  else if nHeight bb >? nHeight ba then
    qb ← GetAncestor t pb (nHeight ba); common_loop (S (Z.to_nat (nHeight ba))) t (Some pa) qb
  else common_loop (S (Z.to_nat (nHeight ba))) t (Some pa) (Some pb).

(** ** The invariant of a chain *)

(** [c] is the branch that ends in [p] *)
Definition is_chain (t : BlockMap) (c : CChain) (p : nat) : Prop :=
  exists b, t !! p = Some b /\ zlen c = nHeight b + 1 /\
    forall h, 0 <= h <= nHeight b -> c !! Z.to_nat h = Some (ancestor t p h).

Definition chain_ok (t : BlockMap) (c : CChain) : Prop := c = [] \/ exists p, is_chain t c p.

Lemma chain_at_lookup c h x : 0 <= h < zlen c -> c !! Z.to_nat h = Some x -> chain_at c h = x.
Proof.
  intros Hh Hx. unfold chain_at. rewrite Z.geb_leb.
  destruct (Z.ltb_spec h 0), (Z.leb_spec (zlen c) h); try lia. cbn [orb]. rewrite Hx. done.
Qed.

Lemma chain_at_out c h : h < 0 \/ zlen c <= h -> chain_at c h = None.
Proof.
  intros Hh. unfold chain_at. rewrite Z.geb_leb.
  destruct (Z.ltb_spec h 0), (Z.leb_spec (zlen c) h); try done; lia.
Qed.

Section chain.
Context (t : BlockMap) (Htree : tree_ok t).
Let Ht : entries_ok t := tree_entries t Htree.

Lemma is_chain_at c p b h : is_chain t c p -> t !! p = Some b -> chain_at c h = ancestor t p h.
Proof.
  intros (b' & Hb' & Hl & Hc) Hb. assert (b' = b) as -> by congruence.
  destruct (decide (0 <= h <= nHeight b)) as [Hh|Hh].
  - apply chain_at_lookup; [lia|]. apply Hc. done.
  - rewrite chain_at_out by lia. symmetry. apply (ancestor_None t p b); [done|lia].
Qed.

(** *** SetTip *)

(** the old chain, cut or extended with null pointers to the new length *)
Definition old_at (c : CChain) (h : Z) : option nat := if h <? zlen c then mjoin (c !! Z.to_nat h) else None.

Lemma resize_lookup c n h : 0 <= n -> 0 <= h < n -> chain_resize c n !! Z.to_nat h = Some (old_at c h).
Proof.
  intros Hn Hh. unfold chain_resize, old_at, ztake, zrep. destruct (Z.ltb_spec h (zlen c)).
  - rewrite lookup_app_l by (rewrite length_take; lia). rewrite lookup_take_lt by lia.
    destruct (lookup_lt_is_Some_2 c (Z.to_nat h)) as [x Hx]; [lia|]. rewrite Hx. done.
  - rewrite lookup_app_r by (rewrite length_take; lia). rewrite length_take. apply lookup_replicate_2. lia.
Qed.

Lemma resize_len c n : 0 <= n -> zlen (chain_resize c n) = n.
Proof. intros Hn. unfold chain_resize, ztake, zrep. rewrite length_app, length_take, length_replicate. lia. Qed.

(** below a block that the old chain has at its height, the old chain is the branch of that block *)
Lemma old_agrees c p b k q h : chain_ok t c -> t !! p = Some b -> ancestor t p k = Some q ->
  old_at c k = Some q -> 0 <= h <= k -> old_at c h = ancestor t p h.
Proof.
  intros Hc Hb Hq Hk Hh. unfold old_at in *. destruct (Z.ltb_spec k (zlen c)); [|done].
  destruct Hc as [->|(p0 & b0 & Hb0 & Hl & Hc)]; [done|].
  rewrite Hc in Hk by lia. cbn in Hk. rewrite (proj2 (Z.ltb_lt h _)), Hc by lia. cbn.
  rewrite <- (ancestor_trans t Ht p0 b0 k q h), <- (ancestor_trans t Ht p b k q h) by (done || lia). done.
Qed.

Lemma set_tip_loop_spec c p b : chain_ok t c -> t !! p = Some b ->
  forall fuel c' k q bq, t !! q = Some bq -> nHeight bq = k -> ancestor t p k = Some q -> k < Z.of_nat fuel ->
  zlen c' = nHeight b + 1 ->
  (forall h, 0 <= h <= nHeight b -> c' !! Z.to_nat h = Some (if k <? h then ancestor t p h else old_at c h)) ->
  exists c'', set_tip_loop fuel t c' (Some q) = Some c'' /\ is_chain t c'' p.
Proof.
  intros Hc Hb. induction fuel as [|fuel IH]; intros c' k q bq Hbq Hk Hq Hf Hl Hinv;
    pose proof (height_bound t Ht q bq Hbq); [lia|].
  destruct (ancestor_inv t p b k q Hb Hq) as [Hkr _]. cbn [set_tip_loop]. rewrite Hbq. cbn [mbind option_bind].
  rewrite Hk, (Hinv k) by lia. rewrite Z.ltb_irrefl. cbn [mbind option_bind].
  case_bool_decide as Hold.
  - exists c'. split; [done|]. exists b. split; [done|]. split; [done|]. intros h Hh. rewrite Hinv by done. f_equal.
    destruct (Z.ltb_spec k h); [done|]. apply (old_agrees c p b k q); done || lia.
  - destruct (pprev bq) as [r|] eqn:Hr.
    + destruct (entry_parent t Ht q bq r Hbq Hr) as (_ & br & Hbr & Hhr).
      apply (IH _ (k - 1) r br); [done|lia| |lia|rewrite length_insert; done|].
      * rewrite <- (ancestor_trans t Ht p b k q) by (done || lia).
        rewrite <- (ancestor_pprev t Ht q bq r) by (done || lia).
        replace (k - 1) with (nHeight br) by lia. apply (ancestor_self t Ht). done.
      * intros h Hh. destruct (Z.eq_dec h k) as [->|Hne].
        -- rewrite list_lookup_insert_eq by lia. rewrite (proj2 (Z.ltb_lt _ _)) by lia. congruence.
        -- rewrite list_lookup_insert_ne by lia. rewrite Hinv by done. f_equal.
           destruct (Z.ltb_spec k h), (Z.ltb_spec (k - 1) h); try done; lia.
    + exists (<[Z.to_nat k:=Some q]> c'). split; [destruct fuel; done|]. exists b. split; [done|].
      split; [rewrite length_insert; done|]. destruct (Ht q bq Hbq) as (_ & _ & He). rewrite Hr in He.
      destruct He as (_ & H0 & _). intros h Hh. destruct (Z.eq_dec h k) as [->|Hne].
      * rewrite list_lookup_insert_eq by lia. congruence.
      * rewrite list_lookup_insert_ne by lia. rewrite Hinv by done. rewrite (proj2 (Z.ltb_lt _ _)) by lia. done.
Qed.

Lemma SetTip_spec c p b : chain_ok t c -> t !! p = Some b -> exists c', SetTip t c p = Some c' /\ is_chain t c' p.
Proof.
  intros Hc Hb. pose proof (height_bound t Ht p b Hb). unfold SetTip. rewrite Hb. cbn [mbind option_bind].
  apply (set_tip_loop_spec c p b Hc Hb _ _ (nHeight b) p b); try done.
  - apply (ancestor_self t Ht). done.
  - lia.
  - apply resize_len. lia.
  - intros h Hh. rewrite resize_lookup by lia. rewrite (proj2 (Z.ltb_ge _ _)) by lia. done.
Qed.

(** *** Forks *)

Lemma is_ancestor_step q bq a : t !! q = Some bq ->
  is_ancestor t a q <-> a = q \/ exists r, pprev bq = Some r /\ is_ancestor t a r.
Proof.
  intros Hq. split.
  - intros [[|n] Hn]; [injection Hn as ->; left; done|]. rewrite (up_S t n q bq Hq) in Hn.
    destruct (pprev bq) as [r|]; [|done]. right. exists r. split; [done|]. exists n. done.
  - intros [->|(r & Hr & n & Hn)]; [exists 0%nat; done|]. exists (S n). rewrite (up_S t n q bq Hq), Hr. done.
Qed.

(** [r] is the highest ancestor of [p] that satisfies [P], if any *)
Definition highest (P : nat -> Prop) (p : nat) (r : option nat) : Prop :=
  match r with
  | None => forall a, is_ancestor t a p -> ~ P a
  | Some q => is_ancestor t q p /\ P q /\
      forall a ba bq, t !! a = Some ba -> t !! q = Some bq -> is_ancestor t a p -> P a -> nHeight ba <= nHeight bq
  end.

Lemma ancestor_height a p b ba : t !! p = Some b -> t !! a = Some ba -> is_ancestor t a p -> nHeight ba <= nHeight b.
Proof.
  intros Hb Hba [n Hn]. destruct (up_Some t Ht n p a b Hb Hn) as (ba' & Hba' & Hh & _). simplify_eq. lia.
Qed.

Lemma highest_here (P : nat -> Prop) q bq : t !! q = Some bq -> P q -> highest P q (Some q).
Proof.
  intros Hq HP. split; [exists 0%nat; done|]. split; [done|]. intros a ba bq' Ha Hq' Hanc _.
  simplify_eq. apply (ancestor_height a q); done.
Qed.

Lemma highest_step (P : nat -> Prop) q bq r res : t !! q = Some bq -> pprev bq = Some r -> ~ P q ->
  highest P r res -> highest P q res.
Proof.
  intros Hq Hr HP. pose proof (is_ancestor_step q bq) as Hstep. destruct res as [x|]; cbn.
  - intros (Hx & HPx & Hmax). split; [apply (Hstep x Hq); right; eauto|]. split; [done|].
    intros a ba bx Ha Hbx Hanc HPa. apply (Hstep a Hq) in Hanc as [->|(r' & Hr' & Hanc)]; [done|].
    simplify_eq. apply (Hmax a ba bx); done.
  - intros Hnone a Hanc HPa. apply (Hstep a Hq) in Hanc as [->|(r' & Hr' & Hanc)]; [done|].
    simplify_eq. apply (Hnone a); done.
Qed.

Lemma highest_root (P : nat -> Prop) q bq : t !! q = Some bq -> pprev bq = None -> ~ P q -> highest P q None.
Proof.
  intros Hq Hr HP a Hanc HPa. apply (is_ancestor_step q bq a Hq) in Hanc as [->|(r & Hr' & _)]; [done|congruence].
Qed.

Lemma highest_iff (P Q : nat -> Prop) p res : (forall a, is_ancestor t a p -> P a <-> Q a) ->
  highest P p res -> highest Q p res.
Proof.
  intros Hiff. destruct res as [x|]; cbn.
  - intros (Hx & HPx & Hmax). split; [done|]. split; [apply Hiff; done|].
    intros a ba bx Ha Hbx Hanc HQ. apply (Hmax a ba bx); [done..|]. apply Hiff; done.
  - intros Hnone a Hanc HQ. apply (Hnone a Hanc). apply Hiff; done.
Qed.

(** ancestors above a height that [P] excludes can be skipped *)
Lemma highest_skip (P : nat -> Prop) p b k q res : t !! p = Some b -> ancestor t p k = Some q ->
  (forall a ba, t !! a = Some ba -> P a -> nHeight ba <= k) -> highest P q res -> highest P p res.
Proof.
  intros Hb Hq Hlow. destruct (ancestor_inv t p b k q Hb Hq) as [Hk Hu].
  destruct (up_Some t Ht _ p q b Hb Hu) as (bq & Hbq & Hhq & _).
  assert (Hsub : forall a, is_ancestor t a q -> is_ancestor t a p).
  { intros a [n Hn]. exists (Z.to_nat (nHeight b - k) + n)%nat. rewrite up_add, Hu. done. }
  assert (Hsup : forall a, is_ancestor t a p -> P a -> is_ancestor t a q).
  { intros a Ha HPa. apply (is_ancestor_iff t Ht p b a Hb) in Ha as (ba & Hba & Ha).
    apply (is_ancestor_iff t Ht q bq a Hbq). exists ba. split; [done|].
    rewrite (ancestor_trans t Ht p b k q) by (done || apply (Hlow a ba); done). done. }
  destruct res as [x|]; cbn.
  - intros (Hx & HPx & Hmax). split; [auto|]. split; [done|]. intros a ba bx Ha Hbx Hanc HPa.
    apply (Hmax a ba bx); auto.
  - intros Hnone a Hanc HPa. apply (Hnone a); auto.
Qed.

Definition in_chain (c : CChain) (q : nat) : Prop := Contains t c q = Some true.

Lemma fork_loop_spec c fuel q bq : t !! q = Some bq -> nHeight bq < Z.of_nat fuel ->
  exists r, fork_loop fuel t c (Some q) = Some r /\ highest (in_chain c) q r.
Proof.
  revert q bq. induction fuel as [|fuel IH]; intros q bq Hq Hf; pose proof (height_bound t Ht q bq Hq); [lia|].
  cbn [fork_loop]. destruct (Contains t c q) as [[]|] eqn:Hc; cbn [mbind option_bind].
  - exists (Some q). split; [done|]. apply (highest_here _ q bq); done.
  - rewrite Hq. cbn [mbind option_bind]. assert (~ in_chain c q) by (unfold in_chain; congruence).
    destruct (pprev bq) as [r|] eqn:Hr.
    + destruct (entry_parent t Ht q bq r Hq Hr) as (_ & br & Hbr & Hhr).
      destruct (IH r br Hbr ltac:(lia)) as (res & -> & Hres). exists res. split; [done|].
      apply (highest_step _ q bq r); done.
    + exists None. split; [destruct fuel; done|]. apply (highest_root _ q bq); done.
  - unfold Contains in Hc. rewrite Hq in Hc. done.
Qed.

Lemma in_chain_height c q bq : t !! q = Some bq -> in_chain c q -> nHeight bq <= chain_Height c.
Proof.
  intros Hq Hin. unfold in_chain, Contains in Hin. rewrite Hq in Hin. cbn [mbind option_bind] in Hin.
  injection Hin as Hin. apply bool_decide_eq_true in Hin. unfold chain_Height.
  destruct (Z.lt_ge_cases (nHeight bq) (zlen c)); [lia|]. rewrite chain_at_out in Hin by lia. done.
Qed.

Lemma FindFork_spec c p b : t !! p = Some b ->
  exists r, FindFork t c (Some p) = Some r /\ highest (in_chain c) p r.
Proof.
  intros Hb. pose proof (height_bound t Ht p b Hb). unfold FindFork. rewrite Hb. cbn [mbind option_bind].
  rewrite Z.gtb_ltb. destruct (Z.ltb_spec (chain_Height c) (nHeight b)) as [Hlt|Hge].
  - rewrite (GetAncestor_spec t Ht p b) by done. cbn [mbind option_bind].
    destruct (decide (0 <= chain_Height c)) as [H0|H0].
    + destruct (ancestor_Some t Ht p b (chain_Height c) Hb ltac:(lia)) as (q & bq & Hq & Hbq & Hhq & _). rewrite Hq.
      destruct (fork_loop_spec c (S (Z.to_nat (nHeight b))) q bq Hbq ltac:(lia)) as (r & Hr & Hres).
      exists r. split; [done|]. apply (highest_skip _ p b (chain_Height c) q); [done..| |done].
      intros a ba Ha. apply in_chain_height. done.
    + rewrite (ancestor_None t p b) by (done || lia). exists None. split; [done|]. intros a Ha Hin.
      destruct Ha as [n Hn]. destruct (up_Some t Ht n p a b Hb Hn) as (ba & Hba & _).
      pose proof (in_chain_height c a ba Hba Hin). pose proof (height_bound t Ht a ba Hba). lia.
  - cbn [mbind option_bind]. apply (fork_loop_spec c _ p b); [done|lia].
Qed.

(** *** Common ancestors *)

Lemma is_ancestor_refl p : is_ancestor t p p.
Proof. exists 0%nat. done. Qed.

Lemma common_loop_spec fuel a b ba bb : t !! a = Some ba -> t !! b = Some bb -> nHeight ba = nHeight bb ->
  nHeight ba < Z.of_nat fuel ->
  exists r, common_loop fuel t (Some a) (Some b) = Some r /\ highest (fun x => is_ancestor t x b) a r.
Proof.
  revert a b ba bb. induction fuel as [|fuel IH]; intros a b ba bb Ha Hb Heq Hf;
    pose proof (height_bound t Ht a ba Ha); [lia|]. cbn [common_loop].
  destruct (Nat.eqb_spec a b) as [->|Hne].
  { exists (Some b). split; [done|]. apply (highest_here _ b bb); [done|apply is_ancestor_refl]. }
  rewrite Ha, Hb. cbn [mbind option_bind].
  assert (Hnot : ~ is_ancestor t a b).
  { intros Hanc. apply (is_ancestor_iff t Ht b bb a Hb) in Hanc as (ba' & Ha' & Hanc). simplify_eq.
    rewrite Heq, (ancestor_self t Ht b bb Hb) in Hanc. congruence. }
  destruct (pprev ba) as [ra|] eqn:Hra.
  - destruct (entry_parent t Ht a ba ra Ha Hra) as (_ & bra & Hbra & Hhra).
    destruct (height_parent t Ht b bb Hb ltac:(pose proof (height_bound t Ht ra bra Hbra); lia)) as (rb & brb & Hrb & Hbrb & Hhrb & _).
    rewrite Hrb. destruct (IH ra rb bra brb Hbra Hbrb ltac:(lia) ltac:(lia)) as (r & -> & Hr).
    exists r. split; [done|]. apply (highest_step _ a ba ra); [done..|].
    eapply highest_iff; [|exact Hr]. intros x Hx. rewrite (is_ancestor_step b bb x Hb). split; [eauto|].
    intros [->|(r' & Hr' & Hx')]; [|congruence]. pose proof (ancestor_height b ra bra bb Hbra Hb Hx). lia.
  - destruct (Ht a ba Ha) as (_ & _ & He). rewrite Hra in He. destruct He as (_ & H0 & _).
    destruct (pprev bb) as [rb|] eqn:Hrb.
    { destruct (entry_parent t Ht b bb rb Hb Hrb) as (_ & brb & Hbrb & Hhrb).
      pose proof (height_bound t Ht rb brb Hbrb). lia. }
    exists None. split; [destruct fuel; done|]. apply (highest_root _ a ba); done.
Qed.

Lemma is_ancestor_skip p b k q x bx : t !! p = Some b -> ancestor t p k = Some q -> t !! x = Some bx ->
  nHeight bx <= k -> is_ancestor t x q <-> is_ancestor t x p.
Proof.
  intros Hb Hq Hx Hk. destruct (ancestor_inv t p b k q Hb Hq) as [Hr Hu].
  destruct (up_Some t Ht _ p q b Hb Hu) as (bq & Hbq & _).
  rewrite (is_ancestor_iff t Ht q bq x Hbq), (is_ancestor_iff t Ht p b x Hb).
  split; intros (bx' & Hx' & Ha); simplify_eq; exists bx; (split; [done|]);
    rewrite <- Ha; [symmetry|]; apply (ancestor_trans t Ht p b k q); done.
Qed.

Lemma LastCommonAncestor_spec a b ba bb : t !! a = Some ba -> t !! b = Some bb ->
  exists r, LastCommonAncestor t a b = Some r /\ highest (fun x => is_ancestor t x b) a r.
Proof.
  intros Ha Hb. pose proof (height_bound t Ht a ba Ha). pose proof (height_bound t Ht b bb Hb).
  unfold LastCommonAncestor. rewrite Ha, Hb. cbn [mbind option_bind]. rewrite !Z.gtb_ltb.
  destruct (Z.ltb_spec (nHeight bb) (nHeight ba)); [|destruct (Z.ltb_spec (nHeight ba) (nHeight bb))].
  - rewrite (GetAncestor_spec t Ht a ba) by done. cbn [mbind option_bind].
    destruct (ancestor_Some t Ht a ba (nHeight bb) Ha ltac:(lia)) as (q & bq & Hq & Hbq & Hhq & _). rewrite Hq.
    destruct (common_loop_spec (S (Z.to_nat (nHeight bb))) q b bq bb Hbq Hb ltac:(lia) ltac:(lia)) as (r & Hr & Hres).
    exists r. split; [done|]. apply (highest_skip _ a ba (nHeight bb) q); [done..| |done].
    intros x bx Hx. apply (ancestor_height x b); done.
  - rewrite (GetAncestor_spec t Ht b bb) by done. cbn [mbind option_bind].
    destruct (ancestor_Some t Ht b bb (nHeight ba) Hb ltac:(lia)) as (q & bq & Hq & Hbq & Hhq & _). rewrite Hq.
    destruct (common_loop_spec (S (Z.to_nat (nHeight ba))) a q ba bq Ha Hbq ltac:(lia) ltac:(lia)) as (r & Hr & Hres).
    exists r. split; [done|]. eapply highest_iff; [|exact Hres]. intros x [n Hx].
    destruct (up_Some t Ht n a x ba Ha Hx) as (bx & Hbx & Hhx & _).
    apply (is_ancestor_skip b bb (nHeight ba) q x bx); done || lia.
  - apply (common_loop_spec _ a b ba bb); done || lia.
Qed.

(** *** Locators *)

(** the entry of a locator for the ancestor at a height *)
Definition locates (p : nat) (h : Z) (hash : uint256) : Prop :=
  exists q bq, ancestor t p h = Some q /\ t !! q = Some bq /\ phashBlock bq = Some hash.

(** where the loop of [LocatorEntries] is after [n] entries: one step back for each of the first eleven, then
    twice as far every time, or at the end *)
Definition locator_at (H n h step : Z) : Prop :=
  step = 2 ^ Z.max (n - 10) 0 /\ (12 <= n -> 9 + 2 ^ (n - 11) < H) /\
  (h = 0 \/ (n <= 11 /\ h = H - n) \/ (11 <= n /\ h = H - 9 - 2 ^ (n - 10))).

Lemma locator_next H n h step : 0 <= n -> locator_at H n h step -> 0 < h ->
  locator_at H (n + 1) (Z.max (h - step) 0) (if n + 1 >? 10 then step * 2 else step).
Proof.
  intros Hn (Hs & Hb & Hh) Hpos. split; [|split].
  - rewrite Z.gtb_ltb. destruct (Z.ltb_spec 10 (n + 1)).
    + rewrite Hs, !Z.max_l by lia. replace (n + 1 - 10) with (n - 10 + 1) by lia. rewrite Z.pow_add_r by lia. done.
    + rewrite Hs, !Z.max_r by lia. done.
  - intros H12. destruct Hh as [Hh|[[Hn11 Hh]|[Hn11 Hh]]]; [lia| |].
    + assert (n = 11) as -> by lia. change (2 ^ (11 + 1 - 11)) with 2. lia.
    + replace (n + 1 - 11) with (n - 10) by lia. lia.
  - destruct (Z.le_gt_cases (h - step) 0); [left; lia|right]. rewrite Z.max_l by lia.
    destruct Hh as [Hh|[[Hn11 Hh]|[Hn11 Hh]]]; [lia| |].
    + destruct (Z.eq_dec n 11) as [->|]; [right; split; [lia|]; change (2 ^ (11 + 1 - 10)) with 4; change (2 ^ Z.max (11 - 10) 0) with 2 in Hs; lia|].
      rewrite Z.max_r in Hs by lia. left. change (2 ^ 0) with 1 in Hs. lia.
    + right. split; [lia|]. rewrite Z.max_l in Hs by lia. replace (n + 1 - 10) with (n - 10 + 1) by lia.
      rewrite Z.pow_add_r by lia. lia.
Qed.

Lemma locator_loop_spec p b fuel : t !! p = Some b -> forall h step have,
  0 <= h <= nHeight b -> h < Z.of_nat fuel -> locator_at (nHeight b) (zlen have) h step ->
  exists hs hashes, locator_loop fuel t (ancestor t p h) step have = Some (have ++ hashes) /\
    Forall2 (locates p) hs hashes /\ head hs = Some h /\ last hs = Some 0 /\ StronglySorted Z.gt hs /\
    (zlen (have ++ hashes) <= 12 \/ 9 + 2 ^ (zlen (have ++ hashes) - 12) < nHeight b).
Proof.
  intros Hb. induction fuel as [|fuel IH]; intros h step have Hh Hf Hat; [lia|].
  destruct (ancestor_Some t Ht p b h Hb Hh) as (q & bq & Hq & Hbq & Hhq & _). rewrite Hq. cbn [locator_loop].
  rewrite Hbq. cbn [mbind option_bind]. destruct (phashBlock bq) as [hash|] eqn:Hhash;
    [|exfalso; apply Htree in Hbq; done]. unfold GetBlockHash. rewrite Hhash. cbn [mbind option_bind].
  assert (Hloc : locates p h hash) by (exists q, bq; done). rewrite Hhq. destruct (Z.eqb_spec h 0) as [->|Hne].
  - exists [0], [hash]. split; [done|]. split; [repeat constructor; done|]. split; [done|]. split; [done|].
    split; [repeat constructor|]. rewrite zlen_app. cbn [length].
    destruct (Z.le_gt_cases (zlen have) 11); [left; lia|right]. destruct Hat as (_ & Hbnd & _).
    replace (zlen have + Z.of_nat 1 - 12) with (zlen have - 11) by lia. apply Hbnd. lia.
  - rewrite (GetAncestor_spec t Ht q bq) by done. cbn [mbind option_bind].
    assert (Hstep : 0 < step) by (destruct Hat as (-> & _); apply Z.pow_pos_nonneg; lia).
    rewrite (ancestor_trans t Ht p b h q) by (done || lia).
    assert (Hl : zlen (have ++ [hash]) = zlen have + 1) by (rewrite zlen_app; done).
    pose proof (locator_next _ _ _ _ (zlen_nonneg have) Hat ltac:(lia)) as Hnext. rewrite <- Hl in Hnext.
    destruct (IH (Z.max (h - step) 0) _ (have ++ [hash]) ltac:(lia) ltac:(lia) Hnext) as (hs & hashes & Hloop & Hall & Hhd & Hlast & Hsort & Hlen).
    rewrite Hloop. exists (h :: hs), (hash :: hashes). rewrite <- app_assoc in Hlen |- *. split; [done|].
    split; [constructor; done|]. split; [done|]. split; [destruct hs; done|]. split; [|done].
    constructor; [done|]. destruct hs as [|h' hs]; [done|]. injection Hhd as ->. apply StronglySorted_inv in Hsort as [_ Hall'].
    constructor; [lia|]. eapply Forall_impl; [exact Hall'|]. cbn. lia.
Qed.

Lemma LocatorEntries_spec p b : t !! p = Some b ->
  exists hs hashes, LocatorEntries t (Some p) = Some hashes /\ Forall2 (locates p) hs hashes /\
    head hs = Some (nHeight b) /\ last hs = Some 0 /\ StronglySorted Z.gt hs /\
    (zlen hashes <= 12 \/ 9 + 2 ^ (zlen hashes - 12) < nHeight b).
Proof.
  intros Hb. pose proof (height_bound t Ht p b Hb). unfold LocatorEntries. rewrite Hb. cbn [mbind option_bind].
  rewrite <- (ancestor_self t Ht p b Hb).
  destruct (locator_loop_spec p b (S (Z.to_nat (nHeight b))) Hb (nHeight b) 1 []) as (hs & hashes & Hl & Hrest); [lia..| |].
  - split; [done|]. split; [intros H12; cbn in H12; lia|]. right; left. cbn. lia.
  - exists hs, hashes. done.
Qed.

(** *** The earliest block at or after a time *)

Lemma time_max_mono n p q b bq : t !! p = Some b -> up t n p = Some q -> t !! q = Some bq -> nTimeMax bq <= nTimeMax b.
Proof.
  revert p b. induction n as [|n IH]; intros p b Hb Hu Hq; [injection Hu as ->; simplify_eq; lia|].
  rewrite (up_S t n p b Hb) in Hu. destruct (pprev b) as [r|] eqn:Hr; [|done]. cbn [mbind option_bind] in Hu.
  destruct (Ht p b Hb) as (_ & _ & He). rewrite Hr in He. destruct He as (_ & br & Hbr & _ & _ & Htm & _).
  specialize (IH r br Hbr Hu Hq). lia.
Qed.

(** entries of a chain, by height *)
Lemma chain_entry c p i : is_chain t c p -> (i < length c)%nat ->
  exists q bq, c !! i = Some (Some q) /\ t !! q = Some bq /\ nHeight bq = Z.of_nat i /\ ancestor t p (Z.of_nat i) = Some q.
Proof.
  intros (b & Hb & Hl & Hc) Hi. destruct (ancestor_Some t Ht p b (Z.of_nat i) Hb ltac:(lia)) as (q & bq & Hq & Hbq & Hh & _).
  exists q, bq. specialize (Hc (Z.of_nat i) ltac:(lia)). rewrite Nat2Z.id, Hq in Hc. done.
Qed.

Lemma chain_time_mono c p i j qi qj bi bj : is_chain t c p -> (i <= j < length c)%nat ->
  c !! i = Some (Some qi) -> c !! j = Some (Some qj) -> t !! qi = Some bi -> t !! qj = Some bj -> nTimeMax bi <= nTimeMax bj.
Proof.
  intros Hc Hij Hqi Hqj Hbi Hbj. destruct (Hc) as (b & Hb & _).
  destruct (chain_entry c p i Hc ltac:(lia)) as (qi' & bi' & H1 & H2 & H3 & Hai).
  destruct (chain_entry c p j Hc ltac:(lia)) as (qj' & bj' & H4 & H5 & H6 & Haj). simplify_eq.
  rewrite <- (ancestor_trans t Ht p b (Z.of_nat j) qj) in Hai by (done || lia).
  destruct (ancestor_inv t qj bj _ qi Hbj Hai) as [_ Hu]. apply (time_max_mono _ qj qi bj bi Hbj Hu Hbi).
Qed.

End chain.

(** [std::lower_bound] finds the border of a range that is [true] first and [false] after. *)
Lemma lower_bound_spec less fuel first count : (count <= fuel)%nat ->
  (forall i, (first <= i < first + count)%nat -> exists v, less i = Some v) ->
  (forall i j, (first <= i <= j)%nat -> (j < first + count)%nat -> less j = Some true -> less i = Some true) ->
  exists r, lower_bound fuel less first count = Some r /\ (first <= r <= first + count)%nat /\
    (forall i, (first <= i < r)%nat -> less i = Some true) /\
    (forall i, (r <= i < first + count)%nat -> less i = Some false).
Proof.
  revert first count. induction fuel as [|fuel IH]; intros first count Hf Htot Hmono.
  - assert (count = 0%nat) as -> by lia. exists first. split; [done|]. split; [lia|]. split; intros; lia.
  - destruct count as [|count']; [exists first; split; [done|]; split; [lia|]; split; intros; lia|].
    cbn [lower_bound]. set (count := S count') in *. set (step := (count / 2)%nat).
    assert (Hstep : (step < count)%nat) by (apply Nat.div_lt; lia).
    destruct (Htot (first + step)%nat ltac:(lia)) as [v Hv]. rewrite Hv. cbn [mbind option_bind]. destruct v.
    + destruct (IH (first + step + 1)%nat (count - (step + 1))%nat) as (r & Hr & Hrange & Hlow & Hhigh); [lia| | |].
      * intros i Hi. apply Htot. lia.
      * intros i j Hij Hj. apply Hmono; lia.
      * exists r. split; [done|]. split; [lia|]. split; [|intros i Hi; apply Hhigh; lia].
        intros i Hi. destruct (Nat.le_gt_cases i (first + step)); [|apply Hlow; lia].
        apply (Hmono i (first + step)%nat); done || lia.
    + destruct (IH first step) as (r & Hr & Hrange & Hlow & Hhigh); [lia| | |].
      * intros i Hi. apply Htot. lia.
      * intros i j Hij Hj. apply Hmono; lia.
      * exists r. split; [done|]. split; [lia|]. split; [done|].
        intros i Hi. destruct (Nat.lt_ge_cases i (first + step)); [apply Hhigh; lia|].
        destruct (Htot i ltac:(lia)) as [[] Hi']; [|done].
        rewrite (Hmono (first + step)%nat i ltac:(lia) ltac:(lia) Hi') in Hv. done.
Qed.

(** ** Properties *)

(** The active chain: from any well-formed chain, [SetTip] succeeds and makes the vector the branch of the new
    tip: it ends in that block, element [h] is its ancestor at height [h], and [Contains] holds exactly for its
    ancestors; stopping at the first entry that is already in place is enough. *)
Theorem SetTip_chain (t : BlockMap) (c : CChain) (p : nat) (b : CBlockIndex) :
  tree_ok t -> chain_ok t c -> t !! p = Some b ->
  exists c', SetTip t c p = Some c' /\ chain_ok t c' /\ chain_Tip c' = Some p /\ chain_Height c' = nHeight b /\
    (forall h, chain_at c' h = ancestor t p h) /\
    (forall q bq, t !! q = Some bq -> Contains t c' q = Some true <-> is_ancestor t q p).
Proof.
  intros Ht Hc Hb. pose proof (tree_entries t Ht) as He. destruct (SetTip_spec t Ht c p b Hc Hb) as (c' & Hset & Hch).
  assert (Hat : forall h, chain_at c' h = ancestor t p h) by (intros h; apply (is_chain_at t c' p b); done).
  exists c'. split; [done|]. split; [right; eauto|]. pose proof (height_bound t He p b Hb). destruct Hch as (b' & Hb' & Hl & Hlk).
  simplify_eq. split_and!.
  - unfold chain_Tip. specialize (Hlk (nHeight b) ltac:(lia)). replace (length c' - 1)%nat with (Z.to_nat (nHeight b)) by lia.
    rewrite Hlk, (ancestor_self t He p b) by done. done.
  - unfold chain_Height. lia.
  - done.
  - intros q bq Hq. unfold Contains. rewrite Hq. cbn [mbind option_bind]. rewrite Hat.
    rewrite (is_ancestor_iff t He p b q Hb). split.
    + intros [= Hin]. apply bool_decide_eq_true in Hin. eauto.
    + intros (bq' & Hbq' & Ha). simplify_eq. f_equal. apply bool_decide_eq_true. done.
Qed.

(** Forks: [FindFork] returns the highest block that is an ancestor of the given block and in the chain, and
    [LastCommonAncestor] the highest common ancestor of two blocks; null exactly when there is none.  Both always return:
    the assertion that both branches meet holds. *)
Theorem fork_points (t : BlockMap) (c : CChain) (a b : nat) (ba bb : CBlockIndex) :
  tree_ok t -> t !! a = Some ba -> t !! b = Some bb ->
  (exists r, FindFork t c (Some a) = Some r /\ highest t (fun x => Contains t c x = Some true) a r) /\
  (exists r, LastCommonAncestor t a b = Some r /\ highest t (fun x => is_ancestor t x b) a r).
Proof.
  intros Ht Ha Hb. split; [apply (FindFork_spec t Ht c a ba); done|].
  apply (LastCommonAncestor_spec t Ht a b ba bb); done.
Qed.

(** Locators: for every block [LocatorEntries] ends and lists the hashes of ancestors at strictly decreasing
    heights, from the block itself down to the genesis block, in at most 12 entries plus the binary logarithm of the height. *)
Theorem locator_spans (t : BlockMap) (p : nat) (b : CBlockIndex) : tree_ok t -> t !! p = Some b ->
  exists hs hashes, LocatorEntries t (Some p) = Some hashes /\ Forall2 (locates t p) hs hashes /\
    head hs = Some (nHeight b) /\ last hs = Some 0 /\ StronglySorted Z.gt hs /\
    (zlen hashes <= 12 \/ 9 + 2 ^ (zlen hashes - 12) < nHeight b).
Proof. intros Ht Hb. apply (LocatorEntries_spec t Ht p b Hb). Qed.

(** [FindEarliestAtLeast]: since the greatest time grows along a chain, the binary search returns the lowest block of the
    chain whose greatest time and height reach the given ones, and null exactly when no block does. *)
Theorem FindEarliest_first (t : BlockMap) (c : CChain) (p : nat) (time height : Z) : tree_ok t -> is_chain t c p ->
  let hit i := exists q bq, c !! i = Some (Some q) /\ t !! q = Some bq /\ time <= nTimeMax bq /\ height <= nHeight bq in
  exists r, FindEarliestAtLeast t c time height = Some r /\
    match r with
    | None => forall i, ~ hit i
    | Some q => exists i, c !! i = Some (Some q) /\ hit i /\ forall j, hit j -> (i <= j)%nat
    end.
Proof.
  intros Ht Hc hit.
  assert (Hv : forall i q bq, c !! i = Some (Some q) -> t !! q = Some bq ->
             earlier t c time height i = Some ((nTimeMax bq <? time) || (nHeight bq <? height))).
  { intros i q bq Hi Hq. unfold earlier. rewrite Hi. cbn. rewrite Hq. done. }
  assert (Hhit : forall i, (i < length c)%nat -> hit i <-> earlier t c time height i = Some false).
  { intros i Hi. destruct (chain_entry t Ht c p i Hc Hi) as (q & bq & Hci & Hq & _). rewrite (Hv i q bq) by done. split.
    - intros (q' & bq' & Hci' & Hq' & H1 & H2). simplify_eq. f_equal. apply orb_false_iff. rewrite !Z.ltb_ge. done.
    - intros [= E]. apply orb_false_iff in E as [H1 H2]. rewrite Z.ltb_ge in H1, H2. exists q, bq. done. }
  destruct (lower_bound_spec (earlier t c time height) (length c) 0 (length c)) as (r & Hr & Hrange & Hlow & Hhigh); [lia| | |].
  - intros i Hi. destruct (chain_entry t Ht c p i Hc ltac:(lia)) as (q & bq & Hci & Hq & _). rewrite (Hv i q bq) by done. eauto.
  - intros i j Hij Hj Hlt. destruct (chain_entry t Ht c p i Hc ltac:(lia)) as (qi & bi & Hci & Hqi & Hhi & _).
    destruct (chain_entry t Ht c p j Hc ltac:(lia)) as (qj & bj & Hcj & Hqj & Hhj & _).
    pose proof (chain_time_mono t Ht c p i j qi qj bi bj Hc ltac:(lia) Hci Hcj Hqi Hqj).
    rewrite (Hv j qj bj) in Hlt by done. rewrite (Hv i qi bi) by done. injection Hlt as Hlt. f_equal.
    apply orb_true_iff in Hlt. rewrite !Z.ltb_lt in Hlt. apply orb_true_iff. rewrite !Z.ltb_lt. lia.
  - unfold FindEarliestAtLeast. rewrite Hr. cbn [mbind option_bind]. eexists. split; [done|].
    assert (Hbefore : forall j, hit j -> (r <= j)%nat).
    { intros j Hj. destruct (Nat.le_gt_cases r j); [done|]. specialize (Hlow j ltac:(lia)).
      apply Hhit in Hj; [congruence|lia]. }
    destruct (Nat.eqb_spec r (length c)) as [->|Hne].
    + intros i Hi. pose proof (Hbefore i Hi). destruct Hi as (q & _ & Hci & _). apply lookup_lt_Some in Hci. lia.
    + destruct (chain_entry t Ht c p r Hc ltac:(lia)) as (q & bq & Hcr & Hq & _). rewrite Hcr. cbn.
      exists r. split; [done|]. split; [|done]. apply Hhit; [lia|]. apply Hhigh. lia.
Qed.

(** ** Concrete inputs *)

Lemma sample_genesis : chain_ok sample_tree [].
Proof. left. reflexivity. Qed.

Lemma sample_tip_lookup : sample_tree !! 1%nat = Some sample_tip.
Proof. vm_compute. reflexivity. Qed.

Lemma SetTip_chain_witness :
  exists c', SetTip sample_tree [] 1 = Some c' /\ chain_ok sample_tree c' /\ chain_Tip c' = Some 1%nat /\
    chain_Height c' = nHeight sample_tip /\ (forall h, chain_at c' h = ancestor sample_tree 1 h) /\
    (forall q bq, sample_tree !! q = Some bq -> Contains sample_tree c' q = Some true <-> is_ancestor sample_tree q 1).
Proof. apply (SetTip_chain sample_tree [] 1 sample_tip sample_tree_ok sample_genesis sample_tip_lookup). Defined.

Lemma fork_points_witness :
  (exists r, FindFork sample_tree [Some 0%nat] (Some 1%nat) = Some r /\
     highest sample_tree (fun x => Contains sample_tree [Some 0%nat] x = Some true) 1 r) /\
  (exists r, LastCommonAncestor sample_tree 1 1 = Some r /\ highest sample_tree (fun x => is_ancestor sample_tree x 1) 1 r).
Proof. apply (fork_points sample_tree [Some 0%nat] 1 1 sample_tip sample_tip sample_tree_ok sample_tip_lookup sample_tip_lookup). Defined.

Lemma locator_spans_witness :
  exists hs hashes, LocatorEntries sample_tree (Some 1%nat) = Some hashes /\ Forall2 (locates sample_tree 1) hs hashes /\
    head hs = Some (nHeight sample_tip) /\ last hs = Some 0 /\ StronglySorted Z.gt hs /\
    (zlen hashes <= 12 \/ 9 + 2 ^ (zlen hashes - 12) < nHeight sample_tip).
Proof. apply (locator_spans sample_tree 1 sample_tip sample_tree_ok sample_tip_lookup). Defined.

Lemma sample_chain : is_chain sample_tree [Some 0%nat; Some 1%nat] 1.
Proof.
  exists sample_tip. split; [exact sample_tip_lookup|]. assert (E : nHeight sample_tip = 1) by (vm_compute; reflexivity).
  rewrite E. split; [done|]. intros h Hh. assert (h = 0 \/ h = 1) as [->| ->] by lia; vm_compute; reflexivity.
Qed.

Lemma FindEarliest_first_witness : exists r, FindEarliestAtLeast sample_tree [Some 0%nat; Some 1%nat] 1723502401 0 = Some r /\
    match r with
    | None => forall i, ~ exists q bq, [Some 0%nat; Some 1%nat] !! i = Some (Some q) /\ sample_tree !! q = Some bq /\ 1723502401 <= nTimeMax bq /\ 0 <= nHeight bq
    | Some q => exists i, [Some 0%nat; Some 1%nat] !! i = Some (Some q) /\
        (exists q bq, [Some 0%nat; Some 1%nat] !! i = Some (Some q) /\ sample_tree !! q = Some bq /\ 1723502401 <= nTimeMax bq /\ 0 <= nHeight bq) /\
        forall j, (exists q bq, [Some 0%nat; Some 1%nat] !! j = Some (Some q) /\ sample_tree !! q = Some bq /\ 1723502401 <= nTimeMax bq /\ 0 <= nHeight bq) -> (i <= j)%nat
    end.
Proof. apply (FindEarliest_first sample_tree [Some 0%nat; Some 1%nat] 1 1723502401 0 sample_tree_ok sample_chain). Defined.
