(* ===== verification/Coins.v ===== *)
(** * The unspent transaction outputs

    src/coins.h, src/coins.cpp: coins, the cache of one level of the view hierarchy, and the interface
    [CCoinsView] between the levels, a type class with laws.  A cache over a lawful view is a lawful view, so
    the hierarchy of any height refines one abstract map from outpoints to unspent coins.

    The circular list of flagged entries is the list of their keys in list order; the accounting of memory
    ([cachedCoinsUsage]) is left out.  The methods of a view change it even where C++ says [const] (they fill
    caches), so each returns the view; [None] is a thrown [std::logic_error] or a failed [assert]. *)

From Stdlib Require Import ZArith Lia Bool.
From stdpp Require Import base numbers list gmap.
From S2P Require Import Prelude Uint256 Params Serialize Primitives Script BlockIndex.
Local Open Scope Z_scope.

#[export] Instance COutPoint_countable : Countable COutPoint.
Proof.
  apply (inj_countable' (fun o => (out_hash o, out_n o)) (fun '(h, n) => {| out_hash := h; out_n := n |})).
  intros []; done.
Defined.

(** ** [Coin] *)

Record Coin : Type := { coin_out : CTxOut; fCoinBase : bool; coin_nHeight : Z }.

(** [nHeight] is a bit field of 31 bits *)
Definition Coin_of (out : CTxOut) (nHeightIn : Z) (fCoinBaseIn : bool) : Coin :=
  {| coin_out := out; fCoinBase := fCoinBaseIn; coin_nHeight := wrap 31 nHeightIn |}.

Definition Coin_Clear : Coin := {| coin_out := CTxOut_SetNull; fCoinBase := false; coin_nHeight := 0 |}.

Definition coinEmpty : Coin := Coin_Clear.

Definition IsSpent (c : Coin) : bool := CTxOut_IsNull (coin_out c).

(** ** [CCoinsCacheEntry] *)

Record CCoinsCacheEntry : Type := { entry_coin : Coin; m_flags : Z }.

Definition DIRTY : Z := 1.
Definition FRESH : Z := 2.

Definition IsDirty (e : CCoinsCacheEntry) : bool := flag (m_flags e) DIRTY.
Definition IsFresh (e : CCoinsCacheEntry) : bool := flag (m_flags e) FRESH.

Notation CCoinsMap := (gmap COutPoint CCoinsCacheEntry).

(** The entries of a cache and the keys of the flagged ones, in the order of the linked list. *)
Record Entries : Type := { cacheCoins : CCoinsMap; m_flagged : list COutPoint }.

Definition set_coin (s : Entries) (o : COutPoint) (c : Coin) : Entries :=
  {| cacheCoins := alter (fun e => {| entry_coin := c; m_flags := m_flags e |}) o (cacheCoins s); m_flagged := m_flagged s |}.

(** [AddFlags] for the entry of [o]; a new flag puts the entry at the end of the list *)
Definition AddFlags (flags : Z) (o : COutPoint) (s : Entries) : Entries :=
  match cacheCoins s !! o with
  | None => s
  | Some e =>
      {| cacheCoins := <[o := {| entry_coin := entry_coin e; m_flags := Z.lor (m_flags e) flags |}]> (cacheCoins s);
         m_flagged := if m_flags e =? 0 then m_flagged s ++ [o] else m_flagged s |}
  end.

Definition SetDirty (o : COutPoint) (s : Entries) : Entries := AddFlags DIRTY o s.
Definition SetFresh (o : COutPoint) (s : Entries) : Entries := AddFlags FRESH o s.

Definition unlink (o : COutPoint) (l : list COutPoint) : list COutPoint := filter (.≠ o) l.

Definition SetClean (o : COutPoint) (s : Entries) : Entries :=
  {| cacheCoins := alter (fun e => {| entry_coin := entry_coin e; m_flags := 0 |}) o (cacheCoins s);
     m_flagged := unlink o (m_flagged s) |}.

(** [cacheCoins.erase]; the destructor of the entry unlinks it *)
Definition erase (o : COutPoint) (s : Entries) : Entries :=
  {| cacheCoins := delete o (cacheCoins s); m_flagged := unlink o (m_flagged s) |}.

(** [try_emplace] with a default entry: the entries and whether one was inserted *)
Definition try_emplace (o : COutPoint) (c : Coin) (s : Entries) : Entries * bool :=
  match cacheCoins s !! o with
  | Some _ => (s, false)
  | None => ({| cacheCoins := <[o := {| entry_coin := c; m_flags := 0 |}]> (cacheCoins s); m_flagged := m_flagged s |}, true)
  end.

(** ** [CoinsViewCacheCursor] *)

Record CoinsViewCacheCursor : Type := { cursor_entries : Entries; m_will_erase : bool }.

Definition NextAndMaybeErase (current : COutPoint) (c : CoinsViewCacheCursor) : CoinsViewCacheCursor :=
  let s := cursor_entries c in
  if m_will_erase c then c
  else
    match cacheCoins s !! current with
    | None => c
    | Some e =>
        {| cursor_entries := if IsSpent (entry_coin e) then erase current s else SetClean current s;
           m_will_erase := m_will_erase c |}
    end.

(** ** The interface [CCoinsView] *)

Class CCoinsView (V : Type) : Type := {
  GetCoin : V -> COutPoint -> option Coin * V;
  GetBestBlock : V -> uint256 * V;
  BatchWrite : V -> CoinsViewCacheCursor -> uint256 -> option (bool * CoinsViewCacheCursor * V);
}.

(** ** [CCoinsViewCache] *)

Record CCoinsViewCache (V : Type) : Type := { base : V; hashBlock : uint256; entries : Entries }.
Arguments base {V} _.
Arguments hashBlock {V} _.
Arguments entries {V} _.
Arguments Build_CCoinsViewCache {V} _ _ _.

Section cache.
Context {V : Type} `{CCoinsView V}.
Implicit Types c : CCoinsViewCache V.

Definition CCoinsViewCache_new (v : V) : CCoinsViewCache V :=
  {| base := v; hashBlock := uint256_null; entries := {| cacheCoins := ∅; m_flagged := [] |} |}.

Definition set_entries c (s : Entries) : CCoinsViewCache V := {| base := base c; hashBlock := hashBlock c; entries := s |}.

(** The iterator [FetchCoin] returns is the lookup of the outpoint in the result. *)
Definition FetchCoin c (outpoint : COutPoint) : CCoinsViewCache V :=
  let '(s, inserted) := try_emplace outpoint coinEmpty (entries c) in
  if inserted then
    let '(r, v) := GetCoin (base c) outpoint in
    let s :=
      match r with
      | Some coin =>
          let s := set_coin s outpoint coin in
          if IsSpent coin then SetFresh outpoint s else s
      | None => erase outpoint s
      end in
    {| base := v; hashBlock := hashBlock c; entries := s |}
  else set_entries c s.

Definition found c (outpoint : COutPoint) : option CCoinsCacheEntry := cacheCoins (entries c) !! outpoint.

Definition cache_GetCoin c (outpoint : COutPoint) : option Coin * CCoinsViewCache V :=
  let c := FetchCoin c outpoint in
  (match found c outpoint with
   | Some e => if IsSpent (entry_coin e) then None else Some (entry_coin e)
   | None => None
   end, c).

Definition AddCoin c (outpoint : COutPoint) (coin : Coin) (possible_overwrite : bool) : option (CCoinsViewCache V) :=
  if IsSpent coin then None
  else if IsUnspendable (scriptPubKey (coin_out coin)) then Some c
  else
    let s := (try_emplace outpoint coinEmpty (entries c)).1 in
    e ← cacheCoins s !! outpoint;
    if negb possible_overwrite && negb (IsSpent (entry_coin e)) then None
    else
      let fresh := negb possible_overwrite && negb (IsDirty e) in
      let s := SetDirty outpoint (set_coin s outpoint coin) in
      Some (set_entries c (if fresh then SetFresh outpoint s else s)).

Definition EmplaceCoinInternalDANGER c (outpoint : COutPoint) (coin : Coin) : CCoinsViewCache V :=
  let '(s, inserted) := try_emplace outpoint coin (entries c) in
  set_entries c (if inserted then SetDirty outpoint s else s).

(** the result, the coin moved out when there is an entry, and the view *)
Definition SpendCoin c (outpoint : COutPoint) : bool * option Coin * CCoinsViewCache V :=
  let c := FetchCoin c outpoint in
  match found c outpoint with
  | None => (false, None, c)
  | Some e =>
      let s := entries c in
      (true, Some (entry_coin e),
       set_entries c (if IsFresh e then erase outpoint s else set_coin (SetDirty outpoint s) outpoint Coin_Clear))
  end.

Definition AccessCoin c (outpoint : COutPoint) : Coin * CCoinsViewCache V :=
  let c := FetchCoin c outpoint in
  (match found c outpoint with None => coinEmpty | Some e => entry_coin e end, c).

Definition HaveCoin c (outpoint : COutPoint) : bool * CCoinsViewCache V :=
  let c := FetchCoin c outpoint in
  (match found c outpoint with None => false | Some e => negb (IsSpent (entry_coin e)) end, c).

Definition HaveCoinInCache c (outpoint : COutPoint) : bool :=
  match found c outpoint with None => false | Some e => negb (IsSpent (entry_coin e)) end.

Definition cache_GetBestBlock c : uint256 * CCoinsViewCache V :=
  if IsNull (hashBlock c) then
    let '(h, v) := GetBestBlock (base c) in
    (h, {| base := v; hashBlock := h; entries := entries c |})
  else (hashBlock c, c).

Definition SetBestBlock c (hashBlockIn : uint256) : CCoinsViewCache V :=
  {| base := base c; hashBlock := hashBlockIn; entries := entries c |}.

(** the body of the loop of [BatchWrite] for one entry of the child *)
Definition batch_entry (us : Entries) (outpoint : COutPoint) (e : CCoinsCacheEntry) : option Entries :=
  if negb (IsDirty e) then Some us
  else
    match cacheCoins us !! outpoint with
    | None =>
        if IsFresh e && IsSpent (entry_coin e) then Some us
        else
          let us := (try_emplace outpoint coinEmpty us).1 in
          let us := SetDirty outpoint (set_coin us outpoint (entry_coin e)) in
          Some (if IsFresh e then SetFresh outpoint us else us)
    | Some ours =>
        if IsFresh e && negb (IsSpent (entry_coin ours)) then None
        else if IsFresh ours && IsSpent (entry_coin e) then Some (erase outpoint us)
        else Some (SetDirty outpoint (set_coin us outpoint (entry_coin e)))
    end.

(** the loop over the flagged entries [l] of the child *)
Fixpoint batch_loop (l : list COutPoint) (us : Entries) (cursor : CoinsViewCacheCursor) : option (Entries * CoinsViewCacheCursor) :=
  match l with
  | [] => Some (us, cursor)
  | it :: l =>
      e ← cacheCoins (cursor_entries cursor) !! it;
      us ← batch_entry us it e;
      batch_loop l us (NextAndMaybeErase it cursor)
  end.

Definition cache_BatchWrite c (cursor : CoinsViewCacheCursor) (hashBlockIn : uint256)
    : option (bool * CoinsViewCacheCursor * CCoinsViewCache V) :=
  '(us, cursor) ← batch_loop (m_flagged (cursor_entries cursor)) (entries c) cursor;
  Some (true, cursor, {| base := base c; hashBlock := hashBlockIn; entries := us |}).

Definition Flush c : option (bool * CCoinsViewCache V) :=
  '(fOk, cursor, v) ← BatchWrite (base c) {| cursor_entries := entries c; m_will_erase := true |} (hashBlock c);
  Some (fOk, {| base := v; hashBlock := hashBlock c;
                entries := if fOk : bool then {| cacheCoins := ∅; m_flagged := [] |} else cursor_entries cursor |}).

Definition Sync c : option (bool * CCoinsViewCache V) :=
  '(fOk, cursor, v) ← BatchWrite (base c) {| cursor_entries := entries c; m_will_erase := false |} (hashBlock c);
  if (fOk : bool) && negb (bool_decide (m_flagged (cursor_entries cursor) = [])) then None
  else Some (fOk, {| base := v; hashBlock := hashBlock c; entries := cursor_entries cursor |}).

Definition Uncache c (hash : COutPoint) : CCoinsViewCache V :=
  match found c hash with
  | Some e => if negb (IsDirty e) && negb (IsFresh e) then set_entries c (erase hash (entries c)) else c
  | None => c
  end.

Fixpoint HaveInputs_loop (l : list CTxIn) c : bool * CCoinsViewCache V :=
  match l with
  | [] => (true, c)
  | txin :: l =>
      let '(b, c) := HaveCoin c (prevout txin) in
      if b then HaveInputs_loop l c else (false, c)
  end.

Definition HaveInputs c (tx : CTransaction) : bool * CCoinsViewCache V :=
  if IsCoinBase tx then (true, c) else HaveInputs_loop (vin tx) c.

End cache.

(** A cache is a view. *)
#[export] Instance CCoinsViewCache_view {V} `{CCoinsView V} : CCoinsView (CCoinsViewCache V) := {
  GetCoin := cache_GetCoin;
  GetBestBlock := cache_GetBestBlock;
  BatchWrite := cache_BatchWrite;
}.

(** ** The abstract view: a map from outpoints to unspent coins *)

Notation utxos := (COutPoint -> option Coin).

Definition unspent (c : Coin) : option Coin := if IsSpent c then None else Some c.

(** the coins of a cache over those of its parent *)
Definition overlay (s : Entries) (f : utxos) : utxos :=
  fun o => match cacheCoins s !! o with Some e => unspent (entry_coin e) | None => f o end.

(** the states of an entry over the parent's coin: clean, changed, or new *)
Inductive entry_state (f : option Coin) (e : CCoinsCacheEntry) : Prop :=
| state_clean : m_flags e = 0 -> IsSpent (entry_coin e) = false -> f = Some (entry_coin e) -> entry_state f e
| state_dirty : m_flags e = DIRTY -> entry_state f e
| state_fresh : m_flags e = Z.lor DIRTY FRESH -> IsSpent (entry_coin e) = false -> f = None -> entry_state f e.

Definition linked_ok (s : Entries) : Prop :=
  NoDup (m_flagged s) /\ forall o, o ∈ m_flagged s <-> exists e, cacheCoins s !! o = Some e /\ m_flags e <> 0.

Definition cache_entries_ok (f : utxos) (s : Entries) : Prop :=
  (forall o e, cacheCoins s !! o = Some e -> entry_state (f o) e) /\ linked_ok s.

(** the child's entries after the receiver of a batch has gone through the list *)
Definition cursor_loop (c : CoinsViewCacheCursor) (l : list COutPoint) : CoinsViewCacheCursor :=
  foldl (fun c o => NextAndMaybeErase o c) c l.
Definition cursor_end (c : CoinsViewCacheCursor) : CoinsViewCacheCursor := cursor_loop c (m_flagged (cursor_entries c)).

Definition utxos_unspent (f : utxos) : Prop := forall o c, f o = Some c -> IsSpent c = false.

(** What a view promises. *)
Class LawfulView (V : Type) `{CCoinsView V} : Type := {
  coins_of : V -> utxos;
  best_of : V -> uint256;
  view_ok : V -> Prop;
  view_unspent : forall v, view_ok v -> utxos_unspent (coins_of v);
  GetCoin_law : forall v o, view_ok v -> exists v', GetCoin v o = (coins_of v o, v') /\ view_ok v' /\
    (forall o', coins_of v' o' = coins_of v o') /\ best_of v' = best_of v;
  GetBestBlock_law : forall v, view_ok v -> exists v', GetBestBlock v = (best_of v, v') /\ view_ok v' /\
    (forall o', coins_of v' o' = coins_of v o') /\ best_of v' = best_of v;
  BatchWrite_law : forall v cursor h, view_ok v -> cache_entries_ok (coins_of v) (cursor_entries cursor) ->
    IsNull h = false ->
    exists v', BatchWrite v cursor h = Some (true, cursor_end cursor, v') /\ view_ok v' /\
      (forall o, coins_of v' o = overlay (cursor_entries cursor) (coins_of v) o) /\ best_of v' = h;
}.

(** ** Entries *)

(** what the operations on an entry amount to: a new entry, linked when it has a flag *)
Definition put (o : COutPoint) (e : CCoinsCacheEntry) (s : Entries) : Entries :=
  {| cacheCoins := <[o := e]> (cacheCoins s);
     m_flagged := if m_flags e =? 0 then unlink o (m_flagged s)
                  else if bool_decide (o ∈ m_flagged s) then m_flagged s else m_flagged s ++ [o] |}.

Lemma elem_of_unlink o p l : p ∈ unlink o l <-> p ∈ l /\ p <> o.
Proof. unfold unlink. rewrite list_elem_of_filter. naive_solver. Qed.

Lemma unlink_absent o l : o ∉ l -> unlink o l = l.
Proof.
  induction l as [|p l IH]; intros Ho; [done|]. unfold unlink in *. rewrite filter_cons_True by set_solver.
  f_equal. apply IH. set_solver.
Qed.

Lemma put_linked o e s : linked_ok s -> linked_ok (put o e s).
Proof.
  intros [Hnd Hl]. unfold put, linked_ok. cbn [cacheCoins m_flagged]. split.
  - case_bool; [apply NoDup_filter; done|]. case_bool_decide; [done|]. apply NoDup_app.
    split; [done|]. split; [set_solver|apply NoDup_singleton].
  - intros p. destruct (decide (p = o)) as [->|Hp].
    + rewrite lookup_insert_eq. destruct (Z.eqb_spec (m_flags e) 0).
      * rewrite elem_of_unlink. split; [tauto|]. intros (? & [= <-] & ?). done.
      * split; [eauto|]. intros _. case_bool_decide; [done|]. set_solver.
    + rewrite lookup_insert_ne by done. rewrite <- Hl. case_bool; [rewrite elem_of_unlink; tauto|].
      case_bool_decide; [done|]. set_solver.
Qed.

Lemma put_ok f o e s : cache_entries_ok f s -> entry_state (f o) e -> cache_entries_ok f (put o e s).
Proof.
  intros [Hs Hl] He. split; [|apply put_linked; done]. intros p e'. cbn [put cacheCoins].
  destruct (decide (p = o)) as [->|Hp]; [rewrite lookup_insert_eq; intros [= <-]; done|].
  rewrite lookup_insert_ne by done. apply Hs.
Qed.

Lemma erase_linked o s : linked_ok s -> linked_ok (erase o s).
Proof.
  intros [Hnd Hl]. split; [apply NoDup_filter; done|]. intros p. cbn [erase cacheCoins m_flagged].
  rewrite elem_of_unlink, Hl. destruct (decide (p = o)) as [->|Hp].
  - rewrite lookup_delete_eq. naive_solver.
  - rewrite lookup_delete_ne by done. naive_solver.
Qed.

Lemma erase_ok f o s : cache_entries_ok f s -> cache_entries_ok f (erase o s).
Proof.
  intros [Hs Hl]. split; [|apply erase_linked; done]. intros p e'. cbn [erase cacheCoins].
  intros [_ Hp]%lookup_delete_Some. apply Hs. done.
Qed.

Lemma flagged_lookup s o e : linked_ok s -> cacheCoins s !! o = Some e -> o ∈ m_flagged s <-> m_flags e <> 0.
Proof. intros [_ Hl] Ho. rewrite Hl. naive_solver. Qed.

Lemma unflagged_absent s o : linked_ok s -> cacheCoins s !! o = None -> o ∉ m_flagged s.
Proof. intros [_ Hl] Ho [e [He _]]%Hl. congruence. Qed.

Lemma set_coin_put s o e c : linked_ok s -> cacheCoins s !! o = Some e ->
  set_coin s o c = put o {| entry_coin := c; m_flags := m_flags e |} s.
Proof.
  intros Hl Ho. pose proof (flagged_lookup s o e Hl Ho) as Hf. unfold set_coin, put. cbn [m_flags]. f_equal.
  - apply map_eq. intros p. destruct (decide (p = o)) as [->|Hp].
    + rewrite lookup_alter_eq, lookup_insert_eq, Ho. done.
    + rewrite lookup_alter_ne, lookup_insert_ne by done. done.
  - destruct (Z.eqb_spec (m_flags e) 0); [rewrite unlink_absent by tauto; done|].
    rewrite bool_decide_eq_true_2 by tauto. done.
Qed.

Lemma AddFlags_put fl s o e : linked_ok s -> cacheCoins s !! o = Some e -> 0 <= m_flags e -> 0 < fl ->
  AddFlags fl o s = put o {| entry_coin := entry_coin e; m_flags := Z.lor (m_flags e) fl |} s.
Proof.
  intros Hl Ho He Hfl. pose proof (flagged_lookup s o e Hl Ho) as Hf. unfold AddFlags, put. rewrite Ho. cbn [m_flags]. f_equal.
  destruct (Z.eqb_spec (Z.lor (m_flags e) fl) 0) as [[_ ?]%Z.lor_eq_0_iff|_]; [lia|].
  destruct (Z.eqb_spec (m_flags e) 0); [rewrite bool_decide_eq_false_2 by tauto; done|].
  rewrite bool_decide_eq_true_2 by tauto. done.
Qed.

Lemma put_lookup o e s : cacheCoins (put o e s) !! o = Some e.
Proof. apply lookup_insert_eq. Qed.

Lemma put_put o e e' s : (m_flags e = 0 -> o ∉ m_flagged s) -> put o e' (put o e s) = put o e' s.
Proof.
  intros Hn. unfold put. cbn [cacheCoins m_flagged]. f_equal; [apply insert_insert_eq|].
  destruct (Z.eqb_spec (m_flags e) 0) as [E|E].
  { rewrite !(unlink_absent o (m_flagged s)) by auto. done. }
  destruct (Z.eqb_spec (m_flags e') 0).
  - case_bool_decide; [done|]. unfold unlink. rewrite filter_app, (filter_cons_False _ o) by naive_solver.
    rewrite filter_nil, app_nil_r. done.
  - destruct (bool_decide (o ∈ m_flagged s)) eqn:D; [rewrite D; done|]. rewrite bool_decide_eq_true_2 by set_solver. done.
Qed.

Lemma emplace_put o c s : linked_ok s -> cacheCoins s !! o = None ->
  try_emplace o c s = (put o {| entry_coin := c; m_flags := 0 |} s, true).
Proof.
  intros Hl Ho. unfold try_emplace, put. rewrite Ho. cbn [m_flags Z.eqb].
  rewrite unlink_absent by (apply unflagged_absent; done). done.
Qed.

Lemma erase_put o e s : linked_ok s -> cacheCoins s !! o = None -> m_flags e = 0 -> erase o (put o e s) = s.
Proof.
  intros Hl Ho He. unfold erase, put. rewrite He. cbn [cacheCoins m_flagged Z.eqb].
  rewrite delete_insert_id by done. rewrite unlink_absent by (rewrite elem_of_unlink; tauto).
  rewrite unlink_absent by (apply unflagged_absent; done). destruct s; done.
Qed.

Lemma overlay_put f o e s p : overlay (put o e s) f p = if bool_decide (p = o) then unspent (entry_coin e) else overlay s f p.
Proof.
  unfold overlay, put. cbn [cacheCoins]. case_bool_decide as E; [subst; rewrite lookup_insert_eq; done|].
  rewrite lookup_insert_ne by done. done.
Qed.

Lemma overlay_erase f o s p : overlay (erase o s) f p = if bool_decide (p = o) then f o else overlay s f p.
Proof.
  unfold overlay, erase. cbn [cacheCoins]. case_bool_decide as E; [subst; rewrite lookup_delete_eq; done|].
  rewrite lookup_delete_ne by done. done.
Qed.

Lemma entries_ok_ext f g s : (forall o, g o = f o) -> cache_entries_ok f s -> cache_entries_ok g s.
Proof. intros E [Hs Hl]. split; [|done]. intros o e Ho. rewrite E. auto. Qed.

Lemma state_flags f e : entry_state f e -> 0 <= m_flags e.
Proof. intros [-> _ _| ->| -> _ _]; unfold DIRTY, FRESH; vm_compute; discriminate. Qed.

(** ** A cache over a lawful view *)

Section refinement.
Context {V : Type} `{LawfulView V}.
Implicit Types c : CCoinsViewCache V.

Definition cache_coins c : utxos := overlay (entries c) (coins_of (base c)).
Definition cache_best c : uint256 := if IsNull (hashBlock c) then best_of (base c) else hashBlock c.
Definition cache_ok c : Prop := view_ok (base c) /\ cache_entries_ok (coins_of (base c)) (entries c).

(** [c'] shows the same as [c] *)
Definition same_view c c' : Prop :=
  cache_ok c' /\ (forall o, cache_coins c' o = cache_coins c o) /\ cache_best c' = cache_best c.

Lemma cache_unspent c : cache_ok c -> utxos_unspent (cache_coins c).
Proof.
  intros [Hv [Hs _]] o coin. unfold cache_coins, overlay, unspent.
  destruct (cacheCoins (entries c) !! o) as [e|]; [|apply (view_unspent _ Hv)].
  destruct (IsSpent (entry_coin e)) eqn:E; [done|]. intros [= <-]. done.
Qed.

Lemma unspent_id coin : IsSpent coin = false -> unspent coin = Some coin.
Proof. unfold unspent. intros ->. done. Qed.

Lemma cache_ok_base c v : cache_ok c -> view_ok v -> (forall o, coins_of v o = coins_of (base c) o) ->
  best_of v = best_of (base c) -> same_view c {| base := v; hashBlock := hashBlock c; entries := entries c |}.
Proof.
  intros [_ Hc] Hv Hco Hb. split; [split; [done|exact (entries_ok_ext _ _ _ Hco Hc)]|].
  split; [|unfold cache_best; cbn; rewrite Hb; done].
  intros o. unfold cache_coins, overlay. cbn. destruct (cacheCoins (entries c) !! o); [done|apply Hco].
Qed.

(** what [FetchCoin] finds *)
Definition fetched c (o : COutPoint) : option CCoinsCacheEntry :=
  match found c o with
  | Some e => Some e
  | None => coin ← coins_of (base c) o; Some {| entry_coin := coin; m_flags := 0 |}
  end.

Lemma FetchCoin_spec c o : cache_ok c -> same_view c (FetchCoin c o) /\ found (FetchCoin c o) o = fetched c o.
Proof.
  intros Hc. pose proof Hc as [Hv Hok]. pose proof (proj2 Hok) as Hl. unfold FetchCoin, fetched, found.
  destruct (cacheCoins (entries c) !! o) as [e|] eqn:Ho.
  { unfold try_emplace. rewrite Ho. destruct c as [v h s]. cbn in *. split; [|done]. split; [done|]. done. }
  rewrite emplace_put by done. destruct (GetCoin_law (base c) o Hv) as (v & -> & Hv' & Hco & Hb).
  pose proof (cache_ok_base c v Hc Hv' Hco Hb) as Hsame.
  destruct (coins_of (base c) o) as [coin|] eqn:Hcoin; cbn [mbind option_bind].
  - pose proof (view_unspent _ Hv o coin Hcoin) as Hus. rewrite Hus.
    rewrite (set_coin_put _ o _ coin (put_linked _ _ _ Hl) (put_lookup _ _ _)). cbn [m_flags].
    rewrite put_put by (intros _; apply unflagged_absent; done). cbn [entries base]. split; [|apply put_lookup].
    destruct Hsame as ([_ Hok'] & Hs2 & Hs3). split; [split; [done|]|split; [|exact Hs3]].
    + apply put_ok; [exact Hok'|]. apply state_clean; [done|done|]. cbn. rewrite Hco. done.
    + intros p. rewrite <- Hs2. unfold cache_coins. cbn [entries base]. rewrite overlay_put. case_bool_decide as E; [|done].
      subst p. cbn [entry_coin]. rewrite unspent_id by done. unfold overlay. rewrite Ho, Hco. done.
  - rewrite erase_put by done. split; [exact Hsame|exact Ho].
Qed.

Lemma dirty_put s o e coin : linked_ok s -> cacheCoins s !! o = Some e -> 0 <= m_flags e ->
  SetDirty o (set_coin s o coin) = put o {| entry_coin := coin; m_flags := Z.lor (m_flags e) DIRTY |} s.
Proof.
  intros Hl Ho He. rewrite (set_coin_put s o e) by done. unfold SetDirty.
  rewrite (AddFlags_put DIRTY _ o {| entry_coin := coin; m_flags := m_flags e |})
    by first [done|apply put_lookup|apply put_linked; done]. cbn [entry_coin m_flags].
  apply put_put. cbn [m_flags]. intros E. rewrite (flagged_lookup s o e) by done. lia.
Qed.

Lemma fresh_put s o e coin : linked_ok s -> cacheCoins s !! o = Some e -> 0 <= m_flags e ->
  SetFresh o (SetDirty o (set_coin s o coin)) =
  put o {| entry_coin := coin; m_flags := Z.lor (Z.lor (m_flags e) DIRTY) FRESH |} s.
Proof.
  intros Hl Ho He. rewrite (dirty_put s o e) by done. unfold SetFresh.
  assert (0 < Z.lor (m_flags e) DIRTY).
  { assert (0 <= Z.lor (m_flags e) DIRTY) by (apply Z.lor_nonneg; unfold DIRTY; lia).
    assert (Z.lor (m_flags e) DIRTY <> 0) by (intros [_ E]%Z.lor_eq_0_iff; discriminate). lia. }
  rewrite (AddFlags_put FRESH _ o {| entry_coin := coin; m_flags := Z.lor (m_flags e) DIRTY |})
    by first [done|apply put_lookup|apply put_linked; done|cbn [m_flags]; lia]. cbn [entry_coin m_flags].
  apply put_put. cbn [m_flags]. lia.
Qed.

Lemma set_entries_view c s : cache_ok c -> cache_entries_ok (coins_of (base c)) s ->
  cache_ok (set_entries c s) /\ cache_best (set_entries c s) = cache_best c.
Proof. intros [Hv _] Hs. split; [split; done|done]. Qed.

(** writing [coin] over an entry, with the flags [AddCoin] computes *)
Lemma AddCoin_spec c o coin ow : cache_ok c -> IsSpent coin = false -> (ow = false -> cache_coins c o = None) ->
  exists c', AddCoin c o coin ow = Some c' /\ cache_ok c' /\ cache_best c' = cache_best c /\
    forall p, cache_coins c' p =
      if IsUnspendable (scriptPubKey (coin_out coin)) then cache_coins c p
      else if bool_decide (p = o) then Some coin else cache_coins c p.
Proof.
  intros Hc Hus How. pose proof Hc as [Hv Hok]. pose proof (proj2 Hok) as Hl. unfold AddCoin. rewrite Hus.
  destruct (IsUnspendable (scriptPubKey (coin_out coin))); [exists c; done|].
  assert (Hput : forall fl, entry_state (coins_of (base c) o) {| entry_coin := coin; m_flags := fl |} ->
    let c' := set_entries c (put o {| entry_coin := coin; m_flags := fl |} (entries c)) in
    cache_ok c' /\ cache_best c' = cache_best c /\
    forall p, cache_coins c' p = if bool_decide (p = o) then Some coin else cache_coins c p).
  { intros fl Hst. cbv zeta. destruct (set_entries_view c _ Hc (put_ok _ o _ _ Hok Hst)) as [H1 H2].
    split; [done|]. split; [done|]. intros p. unfold cache_coins at 1. cbn [entries base set_entries].
    rewrite overlay_put. case_bool_decide; [apply unspent_id; done|done]. }
  unfold cache_coins, overlay in How. destruct (cacheCoins (entries c) !! o) as [e|] eqn:Ho.
  - unfold try_emplace. rewrite Ho. cbn [fst]. rewrite Ho. cbn [mbind option_bind].
    pose proof (proj1 Hok o e Ho) as He. pose proof (state_flags _ _ He).
    destruct ow; cbn [negb andb].
    + rewrite (dirty_put _ o e) by done. eexists. split; [done|]. apply Hput.
      destruct He as [E _ _|E|E _ Hf]; rewrite E; [apply state_dirty; done|apply state_dirty; done|].
      apply state_fresh; done.
    + specialize (How eq_refl). unfold unspent in How. destruct (IsSpent (entry_coin e)) eqn:Hsp; [|done]. cbn [negb].
      destruct He as [_ E _|E|_ E _]; [congruence| |congruence]. unfold IsDirty. rewrite E. cbn [negb flag].
      rewrite (dirty_put _ o e) by done. eexists. split; [done|]. apply Hput. apply state_dirty. rewrite E. done.
  - rewrite emplace_put by done. cbn [fst]. rewrite put_lookup. cbn [mbind option_bind entry_coin m_flags IsSpent].
    change (IsSpent coinEmpty) with true. cbn [negb]. rewrite andb_false_r.
    pose proof (put_linked o {| entry_coin := coinEmpty; m_flags := 0 |} _ Hl) as Hl'.
    destruct ow; cbn [negb andb].
    + rewrite (dirty_put _ o _ coin Hl' (put_lookup _ _ _)) by done. rewrite put_put by (intros _; apply unflagged_absent; done).
      eexists. split; [done|]. apply Hput. apply state_dirty. done.
    + change (IsDirty {| entry_coin := coinEmpty; m_flags := 0 |}) with false. cbn [negb].
      rewrite (fresh_put _ o _ coin Hl' (put_lookup _ _ _)) by done. rewrite put_put by (intros _; apply unflagged_absent; done).
      eexists. split; [done|]. apply Hput. apply state_fresh; [done|done|auto].
Qed.

Lemma fetched_coins c o : cache_ok c -> cache_coins c o = (e ← fetched c o; unspent (entry_coin e)).
Proof.
  intros [Hv _]. unfold cache_coins, overlay, fetched, found. destruct (cacheCoins (entries c) !! o); [done|].
  destruct (coins_of (base c) o) as [coin|] eqn:E; [|done]. cbn. rewrite unspent_id; [done|]. exact (view_unspent _ Hv o coin E).
Qed.

Lemma cache_GetCoin_spec c o : cache_ok c -> exists c', cache_GetCoin c o = (cache_coins c o, c') /\ same_view c c'.
Proof.
  intros Hc. destruct (FetchCoin_spec c o Hc) as [Hs Hf]. exists (FetchCoin c o). split; [|done].
  unfold cache_GetCoin. rewrite Hf, (fetched_coins c o Hc). destruct (fetched c o); done.
Qed.

Lemma HaveCoin_spec c o : cache_ok c ->
  exists c', HaveCoin c o = (bool_decide (is_Some (cache_coins c o)), c') /\ same_view c c'.
Proof.
  intros Hc. destruct (FetchCoin_spec c o Hc) as [Hs Hf]. exists (FetchCoin c o). split; [|done].
  unfold HaveCoin. rewrite Hf, (fetched_coins c o Hc). destruct (fetched c o) as [e|]; cbn [mbind option_bind]; [|done].
  unfold unspent. destruct (IsSpent (entry_coin e)); done.
Qed.

(** the coin of an outpoint, a spent one when there is none *)
Lemma AccessCoin_spec c o : cache_ok c ->
  exists coin c', AccessCoin c o = (coin, c') /\ unspent coin = cache_coins c o /\ same_view c c'.
Proof.
  intros Hc. destruct (FetchCoin_spec c o Hc) as [Hs Hf]. eexists _, (FetchCoin c o). split; [reflexivity|]. split; [|done].
  rewrite Hf, (fetched_coins c o Hc). destruct (fetched c o); done.
Qed.

Lemma SpendCoin_spec c o : cache_ok c ->
  exists b moved c', SpendCoin c o = (b, moved, c') /\ cache_ok c' /\ cache_best c' = cache_best c /\
    (forall p, cache_coins c' p = if bool_decide (p = o) then None else cache_coins c p) /\
    (b = false -> moved = None) /\ (forall coin, cache_coins c o = Some coin -> b = true /\ moved = Some coin) /\
    (cache_coins c o = None -> forall coin, moved = Some coin -> IsSpent coin = true).
Proof.
  intros Hc. destruct (FetchCoin_spec c o Hc) as [(Hc' & Hco & Hb) Hf]. unfold SpendCoin.
  set (c1 := FetchCoin c o) in *. pose proof Hc' as [Hv [Hst Hl]].
  pose proof (fetched_coins c o Hc) as Hfc. rewrite Hf. destruct (fetched c o) as [e|]; cbn [mbind option_bind] in Hfc.
  2:{ exists false, None, c1. split; [done|]. split; [done|]. split; [done|]. rewrite Hfc. split; [|done].
      intros p. rewrite Hco. case_bool_decide; [subst; done|done]. }
  specialize (Hst o e Hf). exists true, (Some (entry_coin e)). eexists. split; [reflexivity|].
  assert (Hmoved : (forall coin, cache_coins c o = Some coin -> true = true /\ Some (entry_coin e) = Some coin) /\
            (cache_coins c o = None -> forall coin, Some (entry_coin e) = Some coin -> IsSpent coin = true)).
  { rewrite Hfc. unfold unspent. destruct (IsSpent (entry_coin e)) eqn:E; split; try done.
    intros _ coin [= <-]. done. }
  destruct (IsFresh e) eqn:Hfresh.
  - assert (Hn : coins_of (base c1) o = None).
    { destruct Hst as [E _ _|E|_ _ ?]; [unfold IsFresh in Hfresh; rewrite E in Hfresh; done..|done]. }
    destruct (set_entries_view c1 _ Hc' (erase_ok _ o _ (conj (proj1 (proj2 Hc')) Hl))) as [H1 H2].
    split; [done|]. split; [congruence|]. split; [|split; [done|exact Hmoved]].
    intros p. unfold cache_coins at 1. cbn [entries base set_entries]. rewrite overlay_erase, Hn. case_bool_decide; [done|apply Hco].
  - pose proof (state_flags _ _ Hst) as Hfl. unfold SetDirty. rewrite (AddFlags_put DIRTY _ o e Hl Hf Hfl) by done.
    rewrite (set_coin_put _ o _ Coin_Clear (put_linked _ _ _ Hl) (put_lookup _ _ _)). cbn [m_flags].
    assert (Hd : Z.lor (m_flags e) DIRTY = DIRTY).
    { destruct Hst as [E _ _|E|E _ _]; [rewrite E; done..|]. unfold IsFresh in Hfresh. rewrite E in Hfresh. done. }
    rewrite Hd, put_put by (cbn [m_flags]; done).
    destruct (set_entries_view c1 _ Hc' (put_ok _ o {| entry_coin := Coin_Clear; m_flags := DIRTY |} _ (proj2 Hc') ltac:(apply state_dirty; done)))
      as [H1 H2].
    split; [done|]. split; [congruence|]. split; [|split; [done|exact Hmoved]].
    intros p. unfold cache_coins at 1. cbn [entries base set_entries]. rewrite overlay_put. case_bool_decide; [done|apply Hco].
Qed.

Lemma Uncache_spec c o : cache_ok c -> same_view c (Uncache c o).
Proof.
  intros Hc. pose proof Hc as [Hv Hok]. unfold Uncache, found. destruct (cacheCoins (entries c) !! o) as [e|] eqn:Ho; [|done].
  destruct (negb (IsDirty e) && negb (IsFresh e)) eqn:E; [|done].
  destruct (set_entries_view c _ Hc (erase_ok _ o _ Hok)) as [H1 H2]. split; [done|]. split; [|done].
  intros p. unfold cache_coins. cbn [entries base set_entries]. rewrite overlay_erase. case_bool_decide; [|done]. subst p.
  unfold overlay. rewrite Ho. destruct (proj1 Hok o e Ho) as [_ ? ->|Ef|Ef _ _]; [rewrite unspent_id; done|..];
    unfold IsDirty in E; rewrite Ef in E; done.
Qed.

(** *** Receiving a batch *)

Lemma IsDirty_flags e fl : m_flags e = fl -> IsDirty e = flag fl DIRTY.
Proof. unfold IsDirty. intros ->. done. Qed.
Lemma IsFresh_flags e fl : m_flags e = fl -> IsFresh e = flag fl FRESH.
Proof. unfold IsFresh. intros ->. done. Qed.

(** one entry of the child, whose parent shows [overlay us f] *)
Lemma batch_entry_spec f us o e : cache_entries_ok f us -> entry_state (overlay us f o) e ->
  exists us', batch_entry us o e = Some us' /\ cache_entries_ok f us' /\
    forall p, overlay us' f p = if bool_decide (p = o) then unspent (entry_coin e) else overlay us f p.
Proof.
  intros Hok He. pose proof (proj2 Hok) as Hl. unfold batch_entry.
  assert (Hput : forall fl, entry_state (f o) {| entry_coin := entry_coin e; m_flags := fl |} ->
    let us' := put o {| entry_coin := entry_coin e; m_flags := fl |} us in
    cache_entries_ok f us' /\ forall p, overlay us' f p = if bool_decide (p = o) then unspent (entry_coin e) else overlay us f p).
  { intros fl Hst. split; [apply put_ok; done|]. intros p. rewrite overlay_put. done. }
  destruct He as [E Hsp Hf|E|E Hsp Hf]; rewrite (IsDirty_flags e _ E); try rewrite (IsFresh_flags e _ E).
  - cbn [negb]. change (flag 0 DIRTY) with false. cbn [negb]. exists us. split; [done|]. split; [done|].
    intros p. case_bool_decide; [|done]. subst p. rewrite Hf, unspent_id; done.
  - change (flag DIRTY DIRTY) with true. change (flag DIRTY FRESH) with false. cbn [negb andb].
    destruct (cacheCoins us !! o) as [ours|] eqn:Ho.
    + pose proof (proj1 Hok o ours Ho) as Hours. pose proof (state_flags _ _ Hours).
      destruct (IsFresh ours && IsSpent (entry_coin e)) eqn:Hb.
      * apply andb_true_iff in Hb as [Hfr Hsp]. eexists. split; [done|]. split; [apply erase_ok; done|].
        intros p. rewrite overlay_erase. case_bool_decide; [|done]. unfold unspent. rewrite Hsp.
        destruct Hours as [E' _ _|E'|_ _ ?]; [rewrite (IsFresh_flags _ _ E') in Hfr; done..|done].
      * rewrite (dirty_put _ o ours) by done. eexists. split; [done|]. apply Hput.
        destruct Hours as [E' _ _|E'|E' _ Hn]; rewrite E'; [apply state_dirty; done..|].
        rewrite (IsFresh_flags _ _ E') in Hb. apply state_fresh; done.
    + rewrite emplace_put by done. cbn [fst].
      rewrite (dirty_put _ o _ (entry_coin e) (put_linked _ _ _ Hl) (put_lookup _ _ _)) by done.
      rewrite put_put by (intros _; apply unflagged_absent; done). eexists. split; [done|]. apply Hput. apply state_dirty. done.
  - change (flag (Z.lor DIRTY FRESH) DIRTY) with true. change (flag (Z.lor DIRTY FRESH) FRESH) with true. cbn [negb andb].
    rewrite Hsp. unfold overlay in Hf. destruct (cacheCoins us !! o) as [ours|] eqn:Ho.
    + pose proof (proj1 Hok o ours Ho) as Hours. pose proof (state_flags _ _ Hours).
      unfold unspent in Hf. destruct (IsSpent (entry_coin ours)) eqn:Hso; [|done]. cbn [negb andb]. rewrite andb_false_r.
      rewrite (dirty_put _ o ours) by done. eexists. split; [done|]. apply Hput.
      destruct Hours as [_ ? _|E'|_ ? _]; [congruence| |congruence]. apply state_dirty. rewrite E'. done.
    + rewrite emplace_put by done. cbn [fst].
      rewrite (fresh_put _ o _ (entry_coin e) (put_linked _ _ _ Hl) (put_lookup _ _ _)) by done.
      rewrite put_put by (intros _; apply unflagged_absent; done). eexists. split; [done|]. apply Hput. apply state_fresh; done.
Qed.

Lemma NextAndMaybeErase_other cursor o p : p <> o ->
  cacheCoins (cursor_entries (NextAndMaybeErase o cursor)) !! p = cacheCoins (cursor_entries cursor) !! p.
Proof.
  intros Hp. unfold NextAndMaybeErase. destruct (m_will_erase cursor); [done|].
  destruct (cacheCoins (cursor_entries cursor) !! o); [|done]. cbn [cursor_entries].
  destruct (IsSpent _); cbn; [apply lookup_delete_ne; done|apply lookup_alter_ne; done].
Qed.

Lemma batch_loop_spec f l us cursor : cache_entries_ok f us -> NoDup l ->
  (forall o, o ∈ l -> exists e, cacheCoins (cursor_entries cursor) !! o = Some e /\ entry_state (overlay us f o) e) ->
  exists us', batch_loop l us cursor = Some (us', cursor_loop cursor l) /\ cache_entries_ok f us' /\
    forall p, overlay us' f p = if bool_decide (p ∈ l) then overlay (cursor_entries cursor) f p else overlay us f p.
Proof.
  revert us cursor. induction l as [|o l IH]; intros us cursor Hok Hnd Hl; cbn [batch_loop].
  { exists us. split; [done|]. split; [done|]. intros p. rewrite bool_decide_eq_false_2; [done|]. apply not_elem_of_nil. }
  apply NoDup_cons in Hnd as [Hno Hnd]. destruct (Hl o ltac:(left)) as (e & Ho & He). rewrite Ho. cbn [mbind option_bind].
  destruct (batch_entry_spec f us o e Hok He) as (us1 & -> & Hok1 & Hov1). cbn [mbind option_bind].
  destruct (IH us1 (NextAndMaybeErase o cursor) Hok1 Hnd) as (us2 & Hb & Hok2 & Hov2).
  { intros p Hp. assert (p <> o) by (intros ->; done). rewrite NextAndMaybeErase_other by done. rewrite Hov1.
    rewrite bool_decide_eq_false_2 by done. apply Hl. right. done. }
  exists us2. split; [exact Hb|]. split; [done|]. intros p. rewrite Hov2.
  destruct (decide (p = o)) as [->|Hp].
  - rewrite (bool_decide_eq_false_2 (o ∈ l)) by done. rewrite (bool_decide_eq_true_2 (o ∈ o :: l)) by left.
    rewrite Hov1, bool_decide_eq_true_2 by done. unfold overlay. rewrite Ho. done.
  - unfold overlay at 1. rewrite NextAndMaybeErase_other by done. rewrite Hov1, (bool_decide_eq_false_2 (p = o)) by done.
    rewrite (bool_decide_ext (p ∈ o :: l) (p ∈ l)) by set_solver. done.
Qed.

Lemma cache_BatchWrite_spec c cursor h : cache_ok c -> cache_entries_ok (cache_coins c) (cursor_entries cursor) ->
  exists c', cache_BatchWrite c cursor h = Some (true, cursor_end cursor, c') /\ cache_ok c' /\ hashBlock c' = h /\
    base c' = base c /\ forall o, cache_coins c' o = overlay (cursor_entries cursor) (cache_coins c) o.
Proof.
  intros [Hv Hok] [Hst [Hnd Hl]]. unfold cache_BatchWrite.
  destruct (batch_loop_spec (coins_of (base c)) (m_flagged (cursor_entries cursor)) (entries c) cursor Hok Hnd) as (us & -> & Hok' & Hov).
  { intros o (e & Ho & _)%Hl. exists e. split; [done|]. apply Hst. done. }
  cbn [mbind option_bind]. eexists. split; [done|]. split; [split; done|]. split; [done|]. split; [done|].
  intros o. unfold cache_coins at 1. cbn [entries base]. rewrite Hov. unfold overlay at 1 3.
  destruct (cacheCoins (cursor_entries cursor) !! o) as [e|] eqn:Ho.
  - case_bool_decide as Hin; [done|]. destruct (Hst o e Ho) as [_ Hsp Hc|E|E _ _].
    + unfold cache_coins in Hc. rewrite Hc, unspent_id; done.
    + destruct Hin. apply Hl. exists e. split; [done|]. rewrite E. done.
    + destruct Hin. apply Hl. exists e. split; [done|]. rewrite E. done.
  - rewrite bool_decide_eq_false_2; [done|]. intros (e & He & _)%Hl. congruence.
Qed.

(** *** Sending a batch *)

(** an entry of the child after [NextAndMaybeErase] without erasing *)
Definition settled (e : CCoinsCacheEntry) : option CCoinsCacheEntry :=
  if IsSpent (entry_coin e) then None else Some {| entry_coin := entry_coin e; m_flags := 0 |}.

Lemma NextAndMaybeErase_here cursor o e : m_will_erase cursor = false -> cacheCoins (cursor_entries cursor) !! o = Some e ->
  m_will_erase (NextAndMaybeErase o cursor) = false /\
  cacheCoins (cursor_entries (NextAndMaybeErase o cursor)) !! o = settled e /\
  m_flagged (cursor_entries (NextAndMaybeErase o cursor)) = unlink o (m_flagged (cursor_entries cursor)).
Proof.
  intros Hw Ho. unfold NextAndMaybeErase, settled. rewrite Hw, Ho. destruct (IsSpent (entry_coin e)); cbn.
  - rewrite lookup_delete_eq. done.
  - rewrite lookup_alter_eq, Ho. done.
Qed.

Lemma cursor_loop_spec cursor l : m_will_erase cursor = false -> NoDup l ->
  (forall o, o ∈ l -> is_Some (cacheCoins (cursor_entries cursor) !! o)) ->
  (forall p, cacheCoins (cursor_entries (cursor_loop cursor l)) !! p =
     if bool_decide (p ∈ l) then e ← cacheCoins (cursor_entries cursor) !! p; settled e
     else cacheCoins (cursor_entries cursor) !! p) /\
  forall p, p ∈ m_flagged (cursor_entries (cursor_loop cursor l)) <-> p ∈ m_flagged (cursor_entries cursor) /\ p ∉ l.
Proof.
  revert cursor. induction l as [|o l IH]; intros cursor Hw Hnd Hl.
  { split; intros p; [rewrite bool_decide_eq_false_2 by apply not_elem_of_nil; done|]. split; [|tauto].
    intros Hp. split; [done|apply not_elem_of_nil]. }
  apply NoDup_cons in Hnd as [Hno Hnd]. destruct (Hl o ltac:(left)) as [e Ho].
  destruct (NextAndMaybeErase_here cursor o e Hw Ho) as (Hw' & Hhere & Hfl).
  destruct (IH (NextAndMaybeErase o cursor) Hw' Hnd) as [IH1 IH2].
  { intros p Hp. rewrite NextAndMaybeErase_other by (intros ->; done). apply Hl. right. done. }
  change (cursor_loop cursor (o :: l)) with (cursor_loop (NextAndMaybeErase o cursor) l). split.
  - intros p. rewrite IH1. destruct (decide (p = o)) as [->|Hp].
    + rewrite (bool_decide_eq_false_2 (o ∈ l)) by done. rewrite bool_decide_eq_true_2 by left. rewrite Hhere, Ho. done.
    + rewrite NextAndMaybeErase_other by done. rewrite (bool_decide_ext (p ∈ o :: l) (p ∈ l)) by set_solver. done.
  - intros p. rewrite IH2, Hfl, elem_of_unlink. set_solver.
Qed.

Lemma synced_entries f s (s' := cursor_entries (cursor_end {| cursor_entries := s; m_will_erase := false |})) :
  cache_entries_ok f s -> m_flagged s' = [] /\ cache_entries_ok (overlay s f) s' /\
  forall p, overlay s' (overlay s f) p = overlay s f p.
Proof.
  intros [Hst [Hnd Hl]].
  destruct (cursor_loop_spec {| cursor_entries := s; m_will_erase := false |} (m_flagged s) eq_refl Hnd) as [H1 H2].
  { intros o (e & Ho & _)%Hl. eauto. }
  fold (cursor_end {| cursor_entries := s; m_will_erase := false |}) in H1, H2.
  change (cursor_loop _ _) with (cursor_end {| cursor_entries := s; m_will_erase := false |}) in H1, H2.
  fold s' in H1, H2. cbn [cursor_entries] in H1, H2.
  assert (Hnil : m_flagged s' = []).
  { destruct (m_flagged s') as [|p l] eqn:E; [done|]. destruct (proj1 (H2 p) ltac:(left)). tauto. }
  assert (Hlk : forall p e, cacheCoins s' !! p = Some e -> m_flags e = 0 /\ IsSpent (entry_coin e) = false /\ overlay s f p = Some (entry_coin e)).
  { intros p e. rewrite H1. unfold overlay. case_bool_decide as Hin.
    - destruct (cacheCoins s !! p) as [e0|]; [|done]. cbn [mbind option_bind]. unfold settled, unspent.
      destruct (IsSpent (entry_coin e0)) eqn:Hsp; [done|]. intros [= <-]. done.
    - intros Hp. rewrite Hp. rewrite Hl in Hin. destruct (Hst p e Hp) as [? Hsp _|E|E _ _].
      + rewrite unspent_id; done.
      + destruct Hin. exists e. rewrite E. done.
      + destruct Hin. exists e. rewrite E. done. }
  split; [done|]. split.
  - split; [intros p e Hp; destruct (Hlk p e Hp) as (? & ? & ?); apply state_clean; done|].
    split; [rewrite Hnil; constructor|]. intros p. rewrite Hnil. split; [by intros ?%not_elem_of_nil|].
    intros (e & He & Hne). destruct (Hlk p e He). done.
  - intros p. unfold overlay at 1. destruct (cacheCoins s' !! p) as [e|] eqn:Hp; [|done].
    destruct (Hlk p e Hp) as (_ & Hsp & ->). apply unspent_id. done.
Qed.

Lemma empty_entries_ok f : cache_entries_ok f {| cacheCoins := ∅; m_flagged := [] |}.
Proof.
  split; [intros o e E; cbn in E; rewrite lookup_empty in E; done|]. split; [constructor|]. intros o. cbn.
  split; [by intros ?%not_elem_of_nil|]. intros (e & E & _). rewrite lookup_empty in E. done.
Qed.

(** [Flush] and [Sync] hand the parent exactly the coins of the cache, and keep what the cache shows. *)
Lemma Flush_spec c : cache_ok c -> IsNull (hashBlock c) = false ->
  exists c', Flush c = Some (true, c') /\ same_view c c' /\ (forall o, coins_of (base c') o = cache_coins c o) /\
    best_of (base c') = hashBlock c /\ cacheCoins (entries c') = ∅.
Proof.
  intros [Hv Hok] Hh. unfold Flush.
  destruct (BatchWrite_law (base c) {| cursor_entries := entries c; m_will_erase := true |} (hashBlock c) Hv Hok Hh)
    as (v & -> & Hv' & Hco & Hb). cbn [mbind option_bind]. eexists. split; [done|].
  split; [|done]. split; [split; [done|apply empty_entries_ok]|]. split; [|unfold cache_best; cbn [hashBlock base]; rewrite Hh; reflexivity].
  intros o. unfold cache_coins at 1, overlay. cbn. rewrite lookup_empty. apply Hco.
Qed.

Lemma Sync_spec c : cache_ok c -> IsNull (hashBlock c) = false ->
  exists c', Sync c = Some (true, c') /\ same_view c c' /\ (forall o, coins_of (base c') o = cache_coins c o) /\
    best_of (base c') = hashBlock c /\ m_flagged (entries c') = [].
Proof.
  intros [Hv Hok] Hh. unfold Sync. destruct (synced_entries _ _ Hok) as (Hnil & Hok' & Hov).
  destruct (BatchWrite_law (base c) {| cursor_entries := entries c; m_will_erase := false |} (hashBlock c) Hv Hok Hh)
    as (v & -> & Hv' & Hco & Hb). cbn [mbind option_bind]. rewrite Hnil. cbn [andb negb].
  rewrite bool_decide_eq_true_2 by done. cbn [negb]. eexists. split; [done|]. cbn [cursor_entries] in Hco.
  split; [|split; [exact Hco|done]]. split; [split; [done|exact (entries_ok_ext _ _ _ Hco Hok')]|].
  split; [|unfold cache_best; cbn [hashBlock base]; rewrite Hh; reflexivity]. intros o. unfold cache_coins. cbn [entries base]. rewrite <- (Hov o). unfold overlay at 1 2.
  destruct (cacheCoins (cursor_entries (cursor_end _)) !! o); [done|]. apply Hco.
Qed.

End refinement.

#[export] Instance CCoinsViewCache_lawful {V} `{LawfulView V} : LawfulView (CCoinsViewCache V).
Proof.
  refine {| coins_of := cache_coins; best_of := cache_best; view_ok := cache_ok; view_unspent := cache_unspent |}.
  - intros c o Hc. apply cache_GetCoin_spec. done.
  - intros c Hc. unfold GetBestBlock, CCoinsViewCache_view, cache_GetBestBlock, cache_best.
    destruct (IsNull (hashBlock c)) eqn:E; [|exists c; rewrite E; done].
    destruct (GetBestBlock_law (base c) (proj1 Hc)) as (v & -> & Hv & Hco & Hb). eexists. split; [reflexivity|].
    destruct (cache_ok_base c v Hc Hv Hco Hb) as (Hok & Hcoins & _). split; [exact Hok|]. split; [exact Hcoins|].
    cbn [hashBlock base]. rewrite Hb. destruct (IsNull (best_of (base c))); done.
  - intros c cursor h Hc Hcur Hh. destruct (cache_BatchWrite_spec c cursor h Hc Hcur) as (c' & Hb & Hok & Hhash & _ & Hco).
    exists c'. split; [exact Hb|]. split; [exact Hok|]. split; [exact Hco|]. unfold cache_best. rewrite Hhash, Hh. done.
Defined.

(** ** Outputs of a transaction *)

Section outputs.
Context {V : Type} `{CCoinsView V}.
Implicit Types c : CCoinsViewCache V.

Fixpoint AddCoins_loop (txid : uint256) (nHeight : Z) (fCoinbase check_for_overwrite : bool) (i : Z) (l : list CTxOut) c
    : option (CCoinsViewCache V) :=
  match l with
  | [] => Some c
  | out :: l =>
      let o := {| out_hash := txid; out_n := u32 i |} in
      let '(overwrite, c) := if check_for_overwrite then HaveCoin c o else (fCoinbase, c) in
      c ← AddCoin c o (Coin_of out nHeight fCoinbase) overwrite;
      AddCoins_loop txid nHeight fCoinbase check_for_overwrite (i + 1) l c
  end.

Definition AddCoins c (tx : CTransaction) (nHeight : Z) (check_for_overwrite : bool) : option (CCoinsViewCache V) :=
  AddCoins_loop (ComputeHash tx) nHeight (IsCoinBase tx) check_for_overwrite 0 (vout tx) c.

Definition MIN_TRANSACTION_OUTPUT_WEIGHT : Z := WITNESS_SCALE_FACTOR * zlen (ser_CTxOut CTxOut_SetNull).
Definition MAX_OUTPUTS_PER_BLOCK : Z := MAX_BLOCK_WEIGHT / MIN_TRANSACTION_OUTPUT_WEIGHT.

Fixpoint AccessByTxid_loop (fuel : nat) (txid : uint256) (n : Z) c : Coin * CCoinsViewCache V :=
  match fuel with
  | O => (coinEmpty, c)
  | S fuel =>
      let '(alternate, c) := AccessCoin c {| out_hash := txid; out_n := n |} in
      if negb (IsSpent alternate) then (alternate, c) else AccessByTxid_loop fuel txid (n + 1) c
  end.

Definition AccessByTxid c (txid : uint256) : Coin * CCoinsViewCache V :=
  AccessByTxid_loop (Z.to_nat MAX_OUTPUTS_PER_BLOCK) txid 0 c.

End outputs.

Definition set_utxo (f : utxos) (o : COutPoint) (r : option Coin) : utxos := fun p => if bool_decide (p = o) then r else f p.

(** the coins after adding the outputs [l], the first with number [i] *)
Fixpoint add_outputs (txid : uint256) (nHeight : Z) (cb : bool) (i : Z) (l : list CTxOut) (f : utxos) : utxos :=
  match l with
  | [] => f
  | out :: l =>
      add_outputs txid nHeight cb (i + 1) l
        (if IsUnspendable (scriptPubKey out) then f
         else set_utxo f {| out_hash := txid; out_n := u32 i |} (Some (Coin_of out nHeight cb)))
  end.

Lemma add_outputs_ext txid h cb i l f g : (forall o, f o = g o) -> forall o, add_outputs txid h cb i l f o = add_outputs txid h cb i l g o.
Proof.
  revert i f g. induction l as [|out l IH]; intros i f g E; [done|]. cbn [add_outputs]. apply IH.
  destruct (IsUnspendable _); [done|]. intros o. unfold set_utxo. rewrite E. done.
Qed.

Section outputs_spec.
Context {V : Type} `{LawfulView V}.
Implicit Types c : CCoinsViewCache V.

Lemma AddCoins_loop_spec txid h cb check i l c :
  cache_ok c -> Forall (fun out => CTxOut_IsNull out = false) l -> 0 <= i -> i + zlen l <= 2 ^ 32 ->
  (check = false -> cb = false -> forall n, i <= n < i + zlen l -> cache_coins c {| out_hash := txid; out_n := n |} = None) ->
  exists c', AddCoins_loop txid h cb check i l c = Some c' /\ cache_ok c' /\ cache_best c' = cache_best c /\
    forall o, cache_coins c' o = add_outputs txid h cb i l (cache_coins c) o.
Proof.
  revert i c. induction l as [|out l IH]; intros i c Hc Hl Hi Hlen Habs; cbn [AddCoins_loop add_outputs]; [eauto|].
  inversion Hl as [|? ? Hout Hl']; subst. cbn [length] in Hlen. set (o := {| out_hash := txid; out_n := u32 i |}).
  assert (Hstep : exists ow c1, (if check then HaveCoin c o else (cb, c)) = (ow, c1) /\ same_view c c1 /\
                    (ow = false -> cache_coins c o = None)).
  { destruct check.
    - destruct (HaveCoin_spec c o Hc) as (c1 & -> & Hs). eexists _, _. split; [done|]. split; [done|].
      destruct (cache_coins c o); [done|done].
    - exists cb, c. split; [done|]. split; [done|]. intros Hcb. unfold o. rewrite wrap_small by (unfold fits; lia). apply Habs; try done. cbn [length]. lia. }
  destruct Hstep as (ow & c1 & -> & (Hc1 & Hco1 & Hb1) & How).
  destruct (AddCoin_spec c1 o (Coin_of out h cb) ow Hc1 Hout) as (c2 & -> & Hc2 & Hb2 & Hco2).
  { intros E. rewrite Hco1. auto. }
  cbn [mbind option_bind Coin_of coin_out] in *.
  destruct (IH (i + 1) c2 Hc2 Hl' ltac:(lia) ltac:(lia)) as (c3 & -> & Hc3 & Hb3 & Hco3).
  { intros Hch Hcb n Hn. rewrite Hco2, !Hco1. assert (cache_coins c {| out_hash := txid; out_n := n |} = None) as Hn' by (apply Habs; try done; cbn [length]; lia).
    destruct (IsUnspendable _); [done|]. rewrite bool_decide_eq_false_2; [done|]. unfold o. rewrite wrap_small by (unfold fits; lia). intros [= ->]. lia. }
  exists c3. split; [done|]. split; [done|]. split; [congruence|]. intros p. rewrite Hco3. apply add_outputs_ext.
  intros q. rewrite Hco2, Hco1. destruct (IsUnspendable _); done.
Qed.

Lemma AddCoins_spec c tx h check :
  cache_ok c -> Forall (fun out => CTxOut_IsNull out = false) (vout tx) -> zlen (vout tx) <= 2 ^ 32 ->
  (check = false -> IsCoinBase tx = false -> forall n, 0 <= n < zlen (vout tx) -> cache_coins c {| out_hash := ComputeHash tx; out_n := n |} = None) ->
  exists c', AddCoins c tx h check = Some c' /\ cache_ok c' /\ cache_best c' = cache_best c /\
    forall o, cache_coins c' o = add_outputs (ComputeHash tx) h (IsCoinBase tx) 0 (vout tx) (cache_coins c) o.
Proof. intros Hc Hl Hlen Habs. apply AddCoins_loop_spec; auto || lia. Qed.

End outputs_spec.

(** ** Sequences of operations *)

Inductive coin_op : Type :=
| Op_GetCoin (o : COutPoint)
| Op_AddCoin (o : COutPoint) (coin : Coin) (possible_overwrite : bool)
| Op_SpendCoin (o : COutPoint)
| Op_Uncache (o : COutPoint)
| Op_SetBestBlock (h : uint256)
| Op_Flush
| Op_Sync.

Section trace.
Context {V : Type} `{CCoinsView V}.

(** the coin an operation returns, and the cache *)
Definition run_op (c : CCoinsViewCache V) (op : coin_op) : option (option Coin * CCoinsViewCache V) :=
  match op with
  | Op_GetCoin o => Some (cache_GetCoin c o)
  | Op_AddCoin o coin ow => c ← AddCoin c o coin ow; Some (None, c)
  | Op_SpendCoin o => let '(_, moved, c) := SpendCoin c o in Some (coin ← moved; unspent coin, c)
  | Op_Uncache o => Some (None, Uncache c o)
  | Op_SetBestBlock h => Some (None, SetBestBlock c h)
  | Op_Flush => '(ok, c) ← Flush c; if ok : bool then Some (None, c) else None
  | Op_Sync => '(ok, c) ← Sync c; if ok : bool then Some (None, c) else None
  end.

Fixpoint run_ops (c : CCoinsViewCache V) (ops : list coin_op) : option (list (option Coin) * CCoinsViewCache V) :=
  match ops with
  | [] => Some ([], c)
  | op :: ops => '(r, c) ← run_op c op; '(rs, c) ← run_ops c ops; Some (r :: rs, c)
  end.

End trace.

(** the same operations on a map and a block hash *)
Definition spec_op (s : utxos * uint256) (op : coin_op) : option Coin * (utxos * uint256) :=
  match op with
  | Op_GetCoin o => (s.1 o, s)
  | Op_AddCoin o coin _ => (None, (if IsUnspendable (scriptPubKey (coin_out coin)) then s.1 else set_utxo s.1 o (Some coin), s.2))
  | Op_SpendCoin o => (s.1 o, (set_utxo s.1 o None, s.2))
  | Op_SetBestBlock h => (None, (s.1, h))
  | Op_Uncache _ | Op_Flush | Op_Sync => (None, s)
  end.

(** what the callers of an operation ensure *)
Definition allowed (s : utxos * uint256) (op : coin_op) : Prop :=
  match op with
  | Op_AddCoin o coin ow => IsSpent coin = false /\ (ow = false -> s.1 o = None)
  | Op_Flush | Op_Sync => IsNull s.2 = false
  | _ => True
  end.

Fixpoint spec_ops (s : utxos * uint256) (ops : list coin_op) : list (option Coin) * (utxos * uint256) :=
  match ops with
  | [] => ([], s)
  | op :: ops => let '(r, s) := spec_op s op in let '(rs, s) := spec_ops s ops in (r :: rs, s)
  end.

Fixpoint allowed_ops (s : utxos * uint256) (ops : list coin_op) : Prop :=
  match ops with [] => True | op :: ops => allowed s op /\ allowed_ops (spec_op s op).2 ops end.

Section simulation.
Context {V : Type} `{LawfulView V}.

Definition shows (c : CCoinsViewCache V) (s : utxos * uint256) : Prop :=
  cache_ok c /\ hashBlock c = s.2 /\ forall o, cache_coins c o = s.1 o.

Lemma FetchCoin_hashBlock (c : CCoinsViewCache V) o : hashBlock (FetchCoin c o) = hashBlock c.
Proof. unfold FetchCoin. destruct (try_emplace _ _ _) as [s []]; [destruct (GetCoin (base c) o)|]; done. Qed.

Lemma AddCoin_hashBlock (c : CCoinsViewCache V) o coin ow c' : AddCoin c o coin ow = Some c' -> hashBlock c' = hashBlock c.
Proof.
  unfold AddCoin. destruct (IsSpent coin); [done|]. destruct (IsUnspendable _); [intros [= <-]; done|].
  destruct (cacheCoins _ !! o); [|done]. cbn [mbind option_bind]. destruct (_ && _); [done|]. intros [= <-]. done.
Qed.

Lemma Flush_hashBlock (c : CCoinsViewCache V) b c' : Flush c = Some (b, c') -> hashBlock c' = hashBlock c.
Proof. unfold Flush. destruct (BatchWrite _ _ _) as [[[ok cur] v]|]; [|done]. cbn. intros [= _ <-]. done. Qed.

Lemma Sync_hashBlock (c : CCoinsViewCache V) b c' : Sync c = Some (b, c') -> hashBlock c' = hashBlock c.
Proof.
  unfold Sync. destruct (BatchWrite _ _ _) as [[[ok cur] v]|]; [|done]. cbn [mbind option_bind].
  destruct (_ && _); [done|]. intros [= _ <-]. done.
Qed.

Lemma run_op_shows c s op : shows c s -> allowed s op ->
  exists c', run_op c op = Some ((spec_op s op).1, c') /\ shows c' (spec_op s op).2.
Proof.
  intros (Hc & Hh & Hco) Ha. destruct op as [o|o coin ow|o|o|h| |]; cbn [run_op spec_op allowed fst snd] in *.
  - destruct (cache_GetCoin_spec c o Hc) as (c' & E & Hs1 & Hs2 & _). exists c'. rewrite E, Hco. split; [done|].
    split; [done|]. split; [|intros p; rewrite Hs2; apply Hco]. unfold cache_GetCoin in E. injection E as _ <-.
    rewrite FetchCoin_hashBlock. done.
  - destruct Ha as [Hsp How]. rewrite <- Hco in How.
    destruct (AddCoin_spec c o coin ow Hc Hsp How) as (c' & E & Hc' & _ & Hco'). rewrite E. exists c'. split; [done|].
    split; [done|]. split.
    + rewrite (AddCoin_hashBlock c o coin ow c' E). done.
    + intros p. rewrite Hco'. destruct (IsUnspendable _); [apply Hco|]. unfold set_utxo. rewrite Hco. done.
  - destruct (SpendCoin_spec c o Hc) as (b & moved & c' & E & Hc' & _ & Hco' & _ & Hsome & Hnone). rewrite E. exists c'.
    split.
    + f_equal. f_equal. rewrite <- Hco. destruct (cache_coins c o) as [coin|] eqn:Eo.
      * destruct (Hsome coin eq_refl) as [_ ->]. cbn. apply unspent_id. exact (cache_unspent c Hc o coin Eo).
      * destruct moved as [m|]; [|done]. cbn. unfold unspent. rewrite (Hnone eq_refl m eq_refl). done.
    + split; [done|]. split; [|intros p; rewrite Hco'; unfold set_utxo; rewrite Hco; done].
      unfold SpendCoin in E. destruct (found _ _); injection E as _ _ <-; cbn; rewrite FetchCoin_hashBlock; done.
  - destruct (Uncache_spec c o Hc) as (Hc' & Hco' & _). eexists. split; [done|]. split; [done|].
    split; [|intros p; rewrite Hco'; apply Hco]. unfold Uncache. repeat case_match; done.
  - eexists. split; [done|]. split; [exact Hc|]. split; [done|]. exact Hco.
  - destruct (Flush_spec c Hc ltac:(rewrite Hh; done)) as (c' & E & (Hc' & Hco' & _) & _). rewrite E. exists c'. split; [done|].
    split; [done|]. split; [rewrite (Flush_hashBlock c true c' E); done|]. intros p. rewrite Hco'. apply Hco.
  - destruct (Sync_spec c Hc ltac:(rewrite Hh; done)) as (c' & E & (Hc' & Hco' & _) & _). rewrite E. exists c'. split; [done|].
    split; [done|]. split; [rewrite (Sync_hashBlock c true c' E); done|]. intros p. rewrite Hco'. apply Hco.
Qed.

Lemma run_ops_shows c s ops : shows c s -> allowed_ops s ops ->
  exists c', run_ops c ops = Some ((spec_ops s ops).1, c') /\ shows c' (spec_ops s ops).2.
Proof.
  revert c s. induction ops as [|op ops IH]; intros c s Hs Ha; [exists c; done|]. destruct Ha as [Ha Hops].
  destruct (run_op_shows c s op Hs Ha) as (c1 & E1 & Hs1). cbn [run_ops spec_ops]. rewrite E1. cbn [mbind option_bind].
  destruct (spec_op s op) as [r s1]. destruct (IH c1 s1 Hs1 Hops) as (c2 & E2 & Hs2). cbn [fst snd] in *. rewrite E2.
  cbn [mbind option_bind]. destruct (spec_ops s1 ops). exists c2. done.
Qed.

End simulation.

(** ** Properties *)

(** C15: A cache over any lawful view refines one map: whatever sequence of reads, additions, spends, evictions, flushes and
    syncs the callers make within their contract, no operation throws, every coin returned is the one of the abstract map, and
    the cache shows the abstract map at the end.  Views are lawful at every height of the hierarchy, down to the database. *)
Theorem coins_cache_refines {V : Type} `{LawfulView V} (c : CCoinsViewCache V) (s : utxos * uint256) (ops : list coin_op) :
  shows c s -> allowed_ops s ops ->
  exists c', run_ops c ops = Some ((spec_ops s ops).1, c') /\ shows c' (spec_ops s ops).2.
Proof. apply run_ops_shows. Qed.

(** [Flush] and [Sync] give the parent exactly the coins and the best block the cache shows; the cache shows the same as
    before, empty after [Flush] and without flagged entries after [Sync]. *)
Theorem coins_flush {V : Type} `{LawfulView V} (c : CCoinsViewCache V) :
  cache_ok c -> IsNull (hashBlock c) = false ->
  (exists c', Flush c = Some (true, c') /\ same_view c c' /\ (forall o, coins_of (base c') o = cache_coins c o) /\
     best_of (base c') = hashBlock c /\ cacheCoins (entries c') = ∅) /\
  (exists c', Sync c = Some (true, c') /\ same_view c c' /\ (forall o, coins_of (base c') o = cache_coins c o) /\
     best_of (base c') = hashBlock c /\ m_flagged (entries c') = []).
Proof. intros Hc Hh. split; [apply Flush_spec|apply Sync_spec]; done. Qed.
