(* ===== verification/CoinsDB.v ===== *)
(** * The coins database

    src/txdb.cpp: the bottom of the view hierarchy.  The key-value store is the record of its three kinds of
    key, the coins, [DB_BEST_BLOCK] and [DB_HEAD_BLOCKS]; a batch of writes is applied as a whole.  The
    estimate of the size of a batch is a parameter.  [BatchWrite] returns, besides its result, the states of
    the store after each partial batch: those a crash can leave behind. *)

From Stdlib Require Import ZArith Lia Bool.
From stdpp Require Import base numbers list gmap.
From S2P Require Import Prelude Uint256 Params Serialize Primitives Script BlockIndex Coins.
Local Open Scope Z_scope.

Record CoinsDB : Type := { db_coins : gmap COutPoint Coin; db_best : option uint256; db_heads : option (list uint256) }.

(** [CDBBatch]: writes and erasures in order *)
Inductive batch_op : Type :=
| WriteCoin (o : COutPoint) (coin : Coin)
| EraseCoin (o : COutPoint)
| WriteBest (h : uint256)
| EraseBest
| WriteHeads (l : list uint256)
| EraseHeads.

Definition write_op (db : CoinsDB) (op : batch_op) : CoinsDB :=
  match op with
  | WriteCoin o coin => {| db_coins := <[o := coin]> (db_coins db); db_best := db_best db; db_heads := db_heads db |}
  | EraseCoin o => {| db_coins := delete o (db_coins db); db_best := db_best db; db_heads := db_heads db |}
  | WriteBest h => {| db_coins := db_coins db; db_best := Some h; db_heads := db_heads db |}
  | EraseBest => {| db_coins := db_coins db; db_best := None; db_heads := db_heads db |}
  | WriteHeads l => {| db_coins := db_coins db; db_best := db_best db; db_heads := Some l |}
  | EraseHeads => {| db_coins := db_coins db; db_best := db_best db; db_heads := None |}
  end.

Definition WriteBatch (db : CoinsDB) (batch : list batch_op) : CoinsDB := foldl write_op db batch.

Definition db_GetCoin (db : CoinsDB) (outpoint : COutPoint) : option Coin := db_coins db !! outpoint.
Definition db_HaveCoin (db : CoinsDB) (outpoint : COutPoint) : bool := bool_decide (is_Some (db_coins db !! outpoint)).
Definition db_GetBestBlock (db : CoinsDB) : uint256 := default uint256_null (db_best db).
Definition db_GetHeadBlocks (db : CoinsDB) : list uint256 := default [] (db_heads db).

(** the write for one flagged entry *)
Definition coin_write (o : COutPoint) (e : CCoinsCacheEntry) : list batch_op :=
  if IsDirty e then [if IsSpent (entry_coin e) then EraseCoin o else WriteCoin o (entry_coin e)] else [].

(** Options of the database: the size of a batch, and the limit of a partial batch. *)
Class DBOptions : Type := { ApproximateSize : list batch_op -> Z; batch_write_bytes : Z }.

(** the tip a transition to [hashBlock] starts from; [None] is the failed assertion on the heads of an interrupted transition *)
Definition old_tip_of (db : CoinsDB) (hashBlock : uint256) : option uint256 :=
  let old_tip := db_GetBestBlock db in
  if IsNull old_tip then
    let old_heads := db_GetHeadBlocks db in
    if zlen old_heads =? 2 then
      if blob_eqb (nth 0 old_heads uint256_null) hashBlock then Some (nth 1 old_heads uint256_null) else None
    else Some old_tip
  else Some old_tip.

Section db.
Context `{DBOptions}.

(** the loop over the flagged entries [l]: the pending batch, the store, and the states it went through *)
Fixpoint write_loop (l : list COutPoint) (batch : list batch_op) (cursor : CoinsViewCacheCursor) (db : CoinsDB) (log : list CoinsDB)
    : option (list batch_op * CoinsViewCacheCursor * CoinsDB * list CoinsDB) :=
  match l with
  | [] => Some (batch, cursor, db, log)
  | it :: l =>
      e ← cacheCoins (cursor_entries cursor) !! it;
      let batch := batch ++ coin_write it e in
      let cursor := NextAndMaybeErase it cursor in
      if ApproximateSize batch >? batch_write_bytes then
        let db := WriteBatch db batch in
        write_loop l [] cursor db (log ++ [db])
      else write_loop l batch cursor db log
  end.

Definition db_BatchWrite (db : CoinsDB) (cursor : CoinsViewCacheCursor) (hashBlock : uint256)
    : option (bool * CoinsViewCacheCursor * CoinsDB * list CoinsDB) :=
  if IsNull hashBlock then None
  else
    old_tip ← old_tip_of db hashBlock;
    let batch := [EraseBest; WriteHeads [hashBlock; old_tip]] in
    '(batch, cursor, db, log) ← write_loop (m_flagged (cursor_entries cursor)) batch cursor db [];
    Some (true, cursor, WriteBatch db (batch ++ [EraseHeads; WriteBest hashBlock]), log).

#[export] Instance CoinsDB_view : CCoinsView CoinsDB := {
  GetCoin db o := (db_GetCoin db o, db);
  GetBestBlock db := (db_GetBestBlock db, db);
  BatchWrite db cursor h := '(ok, cursor, db, _) ← db_BatchWrite db cursor h; Some (ok, cursor, db);
}.

(** ** The batch as a list of writes *)

Definition entry_writes (s : Entries) (o : COutPoint) : list batch_op :=
  match cacheCoins s !! o with Some e => coin_write o e | None => [] end.
Definition writes (s : Entries) (l : list COutPoint) : list batch_op := l ≫= entry_writes s.

Lemma WriteBatch_app db b1 b2 : WriteBatch db (b1 ++ b2) = WriteBatch (WriteBatch db b1) b2.
Proof. apply foldl_app. Qed.

Lemma writes_ext s s' l : (forall o, o ∈ l -> cacheCoins s' !! o = cacheCoins s !! o) -> writes s' l = writes s l.
Proof.
  induction l as [|o l IH]; intros E; [done|]. unfold writes in *. cbn. rewrite IH by (intros p Hp; apply E; right; done).
  unfold entry_writes. rewrite E by left. done.
Qed.

Lemma write_loop_spec l batch cursor db log : NoDup l ->
  (forall o, o ∈ l -> is_Some (cacheCoins (cursor_entries cursor) !! o)) ->
  exists batch' db' log', write_loop l batch cursor db log = Some (batch', cursor_loop cursor l, db', log ++ log') /\
    WriteBatch db' batch' = WriteBatch db (batch ++ writes (cursor_entries cursor) l) /\
    Forall (fun d => exists k, d = WriteBatch db (batch ++ writes (cursor_entries cursor) (take k l))) log'.
Proof.
  revert batch cursor db log. induction l as [|o l IH]; intros batch cursor db log Hnd Hl; cbn [write_loop].
  { exists batch, db, []. rewrite !app_nil_r. done. }
  apply NoDup_cons in Hnd as [Hno Hnd]. destruct (Hl o ltac:(left)) as [e Ho]. rewrite Ho. cbn [mbind option_bind].
  set (cursor' := NextAndMaybeErase o cursor).
  assert (Hsame : forall p, p ∈ l -> cacheCoins (cursor_entries cursor') !! p = cacheCoins (cursor_entries cursor) !! p).
  { intros p Hp. apply NextAndMaybeErase_other. intros ->. done. }
  assert (Hsub : forall k p, p ∈ take k l -> p ∈ l).
  { intros k p Hp. rewrite <- (take_drop k l). apply elem_of_app. left. done. }
  assert (Hw : forall m, writes (cursor_entries cursor) (o :: m) = coin_write o e ++ writes (cursor_entries cursor) m).
  { intros m. unfold writes, entry_writes at 1. cbn. unfold entry_writes at 1. rewrite Ho. done. }
  assert (Hl' : forall p, p ∈ l -> is_Some (cacheCoins (cursor_entries cursor') !! p)).
  { intros p Hp. rewrite Hsame by done. apply Hl. right. done. }
  destruct (ApproximateSize (batch ++ coin_write o e) >? batch_write_bytes).
  - destruct (IH [] cursor' (WriteBatch db (batch ++ coin_write o e)) (log ++ [WriteBatch db (batch ++ coin_write o e)]) Hnd Hl')
      as (b' & db' & log' & Hb & Hfin & Hlog).
    exists b', db', (WriteBatch db (batch ++ coin_write o e) :: log'). split; [rewrite Hb, <- app_assoc; done|]. split.
    + rewrite Hfin, Hw, app_assoc, (WriteBatch_app _ (batch ++ _)), (writes_ext (cursor_entries cursor)) by exact Hsame. done.
    + constructor; [exists 1%nat; cbn [take]; rewrite take_0, Hw; unfold writes; cbn; rewrite app_nil_r; done|].
      refine (Forall_impl _ _ _ Hlog _). intros d [k ->]. exists (S k). cbn [take].
      rewrite Hw, app_assoc, (WriteBatch_app _ (batch ++ _)), (writes_ext (cursor_entries cursor)); [done|]. intros p Hp. apply Hsame. eauto.
  - destruct (IH (batch ++ coin_write o e) cursor' db log Hnd Hl') as (b' & db' & log' & Hb & Hfin & Hlog).
    exists b', db', log'. split; [exact Hb|]. split.
    + rewrite Hfin, Hw, app_assoc, (writes_ext (cursor_entries cursor)) by exact Hsame. done.
    + refine (Forall_impl _ _ _ Hlog _). intros d [k ->]. exists (S k). cbn [take].
      rewrite Hw, app_assoc, (writes_ext (cursor_entries cursor)); [done|]. intros p Hp. apply Hsame. eauto.
Qed.

(** the coins after the writes for the entries [l] *)
Lemma writes_coins s l db o : NoDup l ->
  db_coins (WriteBatch db (writes s l)) !! o =
  if bool_decide (o ∈ l) then
    match cacheCoins s !! o with Some e => if IsDirty e then unspent (entry_coin e) else db_coins db !! o | None => db_coins db !! o end
  else db_coins db !! o.
Proof.
  revert db. induction l as [|p l IH]; intros db Hnd.
  { rewrite bool_decide_eq_false_2 by apply not_elem_of_nil. done. }
  apply NoDup_cons in Hnd as [Hno Hnd]. change (writes s (p :: l)) with (entry_writes s p ++ writes s l).
  rewrite WriteBatch_app, IH by done.
  assert (Hp : forall q, db_coins (WriteBatch db (entry_writes s p)) !! q = if bool_decide (q = p) then
    match cacheCoins s !! q with Some e => if IsDirty e then unspent (entry_coin e) else db_coins db !! q | None => db_coins db !! q end
    else db_coins db !! q).
  { intros q. unfold entry_writes, coin_write. destruct (decide (q = p)) as [->|Hq].
    - rewrite bool_decide_eq_true_2 by done. destruct (cacheCoins s !! p) as [e|]; [|done]. destruct (IsDirty e); [|done].
      unfold unspent. destruct (IsSpent (entry_coin e)); cbn; [apply lookup_delete_eq|apply lookup_insert_eq].
    - rewrite bool_decide_eq_false_2 by done. destruct (cacheCoins s !! p) as [e|]; [|done]. destruct (IsDirty e); [|done].
      destruct (IsSpent (entry_coin e)); cbn; [apply lookup_delete_ne; done|apply lookup_insert_ne; done]. }
  rewrite Hp. destruct (decide (o = p)) as [->|Hne].
  - rewrite (bool_decide_eq_false_2 (p ∈ l)) by done. rewrite bool_decide_eq_true_2 by done. rewrite bool_decide_eq_true_2 by left. done.
  - rewrite (bool_decide_eq_false_2 (o = p)) by done. rewrite (bool_decide_ext (o ∈ p :: l) (o ∈ l)) by set_solver. done.
Qed.

Lemma writes_rest s l db : db_best (WriteBatch db (writes s l)) = db_best db /\ db_heads (WriteBatch db (writes s l)) = db_heads db.
Proof.
  revert db. induction l as [|p l IH]; intros db; [done|]. change (writes s (p :: l)) with (entry_writes s p ++ writes s l).
  rewrite WriteBatch_app. destruct (IH (WriteBatch db (entry_writes s p))) as [-> ->].
  unfold entry_writes, coin_write. destruct (cacheCoins s !! p) as [e|]; [|done]. destruct (IsDirty e); [|done].
  destruct (IsSpent (entry_coin e)); done.
Qed.

Definition db_coins_of (db : CoinsDB) : utxos := fun o => db_coins db !! o.
Definition db_unspent (db : CoinsDB) : Prop := utxos_unspent (db_coins_of db).

(** the coins with the dirty entries written *)
Definition written (s : Entries) (f : utxos) : utxos :=
  fun o => match cacheCoins s !! o with Some e => if IsDirty e then unspent (entry_coin e) else f o | None => f o end.

(** what a crash between partial batches of the transition of [db] to [h] leaves *)
Definition interrupted (db : CoinsDB) (s : Entries) (h old : uint256) (d : CoinsDB) : Prop :=
  db_best d = None /\ db_heads d = Some [h; old] /\
  forall o, db_coins d !! o = db_coins db !! o \/ db_coins d !! o = written s (db_coins_of db) o.

Lemma written_overlay s f o : cache_entries_ok f s -> written s f o = overlay s f o.
Proof.
  intros [Hst _]. unfold written, overlay. destruct (cacheCoins s !! o) as [e|] eqn:Ho; [|done].
  destruct (Hst o e Ho) as [E Hsp Hf|E|E _ _]; rewrite (IsDirty_flags e _ E); [|done..]. rewrite unspent_id by done. done.
Qed.

Lemma written_unflagged s f o : linked_ok s -> o ∉ m_flagged s -> written s f o = f o.
Proof.
  intros [_ Hl] Ho. unfold written. destruct (cacheCoins s !! o) as [e|] eqn:He; [|done].
  destruct (IsDirty e) eqn:E; [|done]. destruct Ho. apply Hl. exists e. split; [done|]. intros E'.
  unfold IsDirty in E. rewrite E' in E. done.
Qed.

Lemma db_BatchWrite_spec db cursor h old (s := cursor_entries cursor) :
  linked_ok s -> IsNull h = false -> old_tip_of db h = Some old ->
  exists db' log, db_BatchWrite db cursor h = Some (true, cursor_end cursor, db', log) /\
    (forall o, db_coins db' !! o = written s (db_coins_of db) o) /\ db_best db' = Some h /\ db_heads db' = None /\
    Forall (interrupted db s h old) log.
Proof.
  intros Hok Hh Hold. pose proof Hok as [Hnd Hl]. unfold db_BatchWrite. rewrite Hh, Hold. cbn [mbind option_bind]. fold s.
  destruct (write_loop_spec (m_flagged s) [EraseBest; WriteHeads [h; old]] cursor db [] Hnd) as (b & d & log & -> & Hfin & Hlog).
  { intros o (e & He & _)%Hl. eauto. }
  cbn [mbind option_bind app]. eexists _, log. split; [done|].
  set (db0 := WriteBatch db [EraseBest; WriteHeads [h; old]]).
  assert (Hco : forall l o, NoDup l -> db_coins (WriteBatch db0 (writes s l)) !! o =
            if bool_decide (o ∈ l) then written s (db_coins_of db) o else db_coins db !! o).
  { intros l o Hl'. rewrite writes_coins by done. done. }
  rewrite WriteBatch_app, Hfin, WriteBatch_app. fold db0. fold s in Hlog |- *. split_and!; [|done..|].
  - intros o. change (db_coins (WriteBatch db0 (writes s (m_flagged s))) !! o = written s (db_coins_of db) o).
    rewrite Hco by done. case_bool_decide as Hin; [done|]. rewrite (written_unflagged s _ o Hok Hin). done.
  - refine (Forall_impl _ _ _ Hlog _). intros d' [k ->]. rewrite WriteBatch_app. fold db0.
    assert (Hk : NoDup (take k (m_flagged s))) by (rewrite <- (take_drop k (m_flagged s)) in Hnd; apply NoDup_app in Hnd; tauto).
    destruct (writes_rest s (take k (m_flagged s)) db0) as [Hb Hhd]. unfold interrupted. rewrite Hb, Hhd. split; [done|]. split; [done|].
    intros o. rewrite Hco by done. case_bool_decide; [right; done|left; done].
Qed.

End db.

#[export] Instance CoinsDB_lawful `{DBOptions} : LawfulView CoinsDB.
Proof.
  refine {| coins_of := db_coins_of; best_of := db_GetBestBlock; view_ok := fun db => db_unspent db /\ db_heads db = None |}.
  - intros db [Hdb _]. exact Hdb.
  - intros db o Hdb. exists db. done.
  - intros db Hdb. exists db. done.
  - intros db cursor h [Hdb Hheads] Hok Hh.
    assert (Hold : old_tip_of db h = Some (db_GetBestBlock db)).
    { unfold old_tip_of, db_GetHeadBlocks. rewrite Hheads. destruct (IsNull (db_GetBestBlock db)); reflexivity. }
    destruct (db_BatchWrite_spec db cursor h _ (proj2 Hok) Hh Hold) as (db' & log & E & Hco' & Hb & Hhd & _).
    assert (Hco : forall o, db_coins db' !! o = overlay (cursor_entries cursor) (db_coins_of db) o)
      by (intros o; rewrite Hco'; apply written_overlay; done).
    exists db'. cbn [BatchWrite CoinsDB_view]. rewrite E. split; [done|]. split; [|split; [exact Hco|unfold db_GetBestBlock; rewrite Hb; done]].
    split; [|done]. intros o c. unfold db_coins_of. rewrite Hco. unfold overlay.
    destruct (cacheCoins (cursor_entries cursor) !! o) as [e|]; [|apply Hdb]. unfold unspent.
    destruct (IsSpent (entry_coin e)) eqn:E'; [done|]. intros [= <-]. done.
Defined.

(** ** Properties *)

(** C16: A write to the coins database survives a crash: in every state between its partial batches each coin is the old or the new
    one, the best block is gone and the heads name the target and the old tip; only a write to the same target is accepted from
    there, and repeating the write gives the coins of the uninterrupted one. *)
Theorem coins_db_crash `{DBOptions} (db : CoinsDB) (cursor : CoinsViewCacheCursor) (h : uint256) :
  linked_ok (cursor_entries cursor) -> db_heads db = None -> length h = 32%nat -> IsNull h = false ->
  exists db' log, db_BatchWrite db cursor h = Some (true, cursor_end cursor, db', log) /\
    db_GetBestBlock db' = h /\ db_GetHeadBlocks db' = [] /\
    forall d, d ∈ log -> interrupted db (cursor_entries cursor) h (db_GetBestBlock db) d /\
      (forall cursor' h', length h' = 32%nat -> h' <> h -> db_BatchWrite d cursor' h' = None) /\
      exists d' log', db_BatchWrite d cursor h = Some (true, cursor_end cursor, d', log') /\
        db_GetBestBlock d' = h /\ db_GetHeadBlocks d' = [] /\ forall o, db_GetCoin d' o = db_GetCoin db' o.
Proof.
  intros Hl Hheads Hlen Hh. assert (Hold : old_tip_of db h = Some (db_GetBestBlock db)).
  { unfold old_tip_of, db_GetHeadBlocks. rewrite Hheads. destruct (IsNull (db_GetBestBlock db)); reflexivity. }
  destruct (db_BatchWrite_spec db cursor h _ Hl Hh Hold) as (db' & log & E & Hco & Hb & Hhd & Hlog).
  exists db', log. unfold db_GetBestBlock at 1, db_GetHeadBlocks at 1. rewrite Hb, Hhd. do 3 (split; [done|]).
  intros d Hd. rewrite Forall_forall in Hlog. specialize (Hlog d Hd). split; [done|]. destruct Hlog as (Hdb & Hdh & Hdc).
  assert (Hold' : forall h', old_tip_of d h' = if blob_eqb h h' then Some (db_GetBestBlock db) else None).
  { intros h'. unfold old_tip_of, db_GetBestBlock at 1, db_GetHeadBlocks. rewrite Hdb, Hdh. reflexivity. }
  split.
  - intros cursor' h' Hlen' Hne. unfold db_BatchWrite. rewrite Hold'. destruct (IsNull h'); [done|].
    destruct (blob_eqb h h') eqn:Eh; [|done]. apply blob_eqb_eq in Eh; congruence.
  - assert (Heq : blob_eqb h h = true) by (apply blob_eqb_eq; done). specialize (Hold' h). rewrite Heq in Hold'.
    destruct (db_BatchWrite_spec d cursor h _ Hl Hh Hold') as (d' & log' & E' & Hco' & Hb' & Hhd' & _).
    exists d', log'. unfold db_GetBestBlock, db_GetHeadBlocks. rewrite Hb', Hhd'. do 3 (split; [done|]).
    intros o. unfold db_GetCoin. rewrite Hco, Hco'. specialize (Hdc o). unfold written, db_coins_of in *.
    destruct (cacheCoins (cursor_entries cursor) !! o) as [e|]; [destruct (IsDirty e); [done|]|]; destruct Hdc; done.
Qed.

(** ** Witnesses *)

(** a database that writes a batch for every entry *)
Definition small_batches : DBOptions := {| ApproximateSize := fun batch => zlen batch; batch_write_bytes := 0 |}.
Definition empty_db : CoinsDB := {| db_coins := ∅; db_best := None; db_heads := None |}.
Definition sample_outpoint : COutPoint := {| out_hash := replicate 32 1; out_n := 0 |}.
Definition sample_coin : Coin := Coin_of {| nValue := 50; scriptPubKey := [81] |} 7 false.
Definition sample_hash : uint256 := replicate 32 9.
Definition sample_ops : list coin_op :=
  [Op_AddCoin sample_outpoint sample_coin false; Op_SetBestBlock sample_hash; Op_Flush; Op_GetCoin sample_outpoint;
   Op_SpendCoin sample_outpoint; Op_Sync; Op_GetCoin sample_outpoint].

Definition top_cache : CCoinsViewCache (CCoinsViewCache CoinsDB) := CCoinsViewCache_new (CCoinsViewCache_new empty_db).

Lemma empty_db_ok : db_unspent empty_db /\ db_heads empty_db = None.
Proof. split; [|done]. intros o c E. unfold db_coins_of, empty_db in E. cbn [db_coins] in E. rewrite lookup_empty in E. done. Qed.

Lemma top_cache_shows : @shows _ _ (@CCoinsViewCache_lawful _ _ (@CoinsDB_lawful small_batches)) top_cache (fun _ => None, uint256_null).
Proof.
  split; [|split; [done|]].
  - split; [|apply empty_entries_ok]. split; [|apply empty_entries_ok]. exact empty_db_ok.
  - intros o. unfold cache_coins, overlay. cbn [top_cache entries CCoinsViewCache_new cacheCoins base]. rewrite lookup_empty.
    cbn [coins_of CCoinsViewCache_lawful]. unfold cache_coins, overlay. cbn [entries CCoinsViewCache_new cacheCoins base].
    rewrite lookup_empty. apply lookup_empty.
Qed.

Lemma coins_cache_refines_witness : exists c',
  @run_ops _ (@CCoinsViewCache_view _ (@CoinsDB_view small_batches)) top_cache sample_ops =
    Some ([None; None; None; Some sample_coin; Some sample_coin; None; None], c').
Proof.
  destruct (@coins_cache_refines _ _ (@CCoinsViewCache_lawful _ _ (@CoinsDB_lawful small_batches)) top_cache
    (fun _ => None, uint256_null) sample_ops top_cache_shows) as (c' & E & _).
  - vm_compute. repeat split.
  - exists c'. exact E.
Defined.

(** a cache over the empty database with one new coin *)
Definition one_coin : Entries := put sample_outpoint {| entry_coin := sample_coin; m_flags := Z.lor DIRTY FRESH |} {| cacheCoins := ∅; m_flagged := [] |}.

Lemma one_coin_ok : cache_entries_ok (db_coins_of empty_db) one_coin.
Proof. apply put_ok; [apply empty_entries_ok|]. apply state_fresh; done. Qed.

Lemma coins_flush_witness :
  exists c', @Flush _ (@CoinsDB_view small_batches) {| base := empty_db; hashBlock := sample_hash; entries := one_coin |} = Some (true, c') /\
    db_coins_of (base c') sample_outpoint = Some sample_coin.
Proof.
  destruct (@coins_flush _ _ (@CoinsDB_lawful small_batches) {| base := empty_db; hashBlock := sample_hash; entries := one_coin |})
    as [(c' & E & _ & Hco & _) _]; [exact (conj empty_db_ok one_coin_ok)|vm_compute; reflexivity|].
  exists c'. split; [exact E|]. exact (Hco sample_outpoint).
Defined.

Definition one_coin_cursor : CoinsViewCacheCursor := {| cursor_entries := one_coin; m_will_erase := true |}.

Lemma coins_db_crash_witness : exists db' d,
  @db_BatchWrite small_batches empty_db one_coin_cursor sample_hash = Some (true, one_coin_cursor, db', [d]) /\
  interrupted empty_db one_coin sample_hash uint256_null d.
Proof.
  destruct (@coins_db_crash small_batches empty_db one_coin_cursor sample_hash)
    as (db' & log & E & _ & _ & Hlog); [exact (proj2 one_coin_ok)|reflexivity|reflexivity|vm_compute; reflexivity|].
  assert (Hlen : (r ← @db_BatchWrite small_batches empty_db one_coin_cursor sample_hash; Some (length r.2)) = Some 1%nat)
    by (vm_compute; reflexivity).
  rewrite E in Hlen. cbn [mbind option_bind snd] in Hlen. destruct log as [|d [|]]; [discriminate| |discriminate].
  exists db', d. split; [exact E|]. apply (proj1 (Hlog d ltac:(left))).
Defined.
