(* ===== verification/TxVerify.v ===== *)
(** * Checks of single transactions

    src/consensus/tx_check.cpp, src/consensus/tx_verify.cpp, src/consensus/validation.h and the signature
    operation counts of src/script/interpreter.cpp.  A [verdict] is the outcome recorded in a validation
    state: the result of [state.Invalid] with its reason, or acceptance; debug messages are left out.
    [None] is a failed assertion or the exception of [GetValueOut]. *)

From Stdlib Require Import ZArith Lia Bool String.
From stdpp Require Import base numbers list gmap strings.
From S2P Require Import Prelude Uint256 Params Serialize Primitives Opcodes Script ScriptFlags BlockIndex Coins CoinsDB.
Local Open Scope Z_scope.

(** ** src/consensus/validation.h *)

Inductive TxValidationResult : Type :=
| TX_RESULT_UNSET | TX_CONSENSUS | TX_INPUTS_NOT_STANDARD | TX_NOT_STANDARD | TX_MISSING_INPUTS | TX_PREMATURE_SPEND
| TX_WITNESS_MUTATED | TX_WITNESS_STRIPPED | TX_CONFLICT | TX_MEMPOOL_POLICY | TX_NO_MEMPOOL | TX_RECONSIDERABLE | TX_UNKNOWN.

Inductive BlockValidationResult : Type :=
| BLOCK_RESULT_UNSET | BLOCK_CONSENSUS | BLOCK_CACHED_INVALID | BLOCK_INVALID_HEADER | BLOCK_MUTATED
| BLOCK_MISSING_PREV | BLOCK_INVALID_PREV | BLOCK_TIME_FUTURE | BLOCK_HEADER_LOW_WORK.

(** acceptance with a result, or rejection with its kind and reason *)
Inductive verdict (R A : Type) : Type :=
| Valid (a : A)
| Invalid (r : R) (reason : string).
Arguments Valid {R A} _.
Arguments Invalid {R A} _ _.

Definition GetTransactionWeight (tx : CTransaction) : Z :=
  i32 (zlen (SerializeTransaction false tx) * (WITNESS_SCALE_FACTOR - 1) + zlen (SerializeTransaction true tx)).

Definition GetTransactionInputWeight (txin : CTxIn) : Z :=
  zlen (ser_CTxIn txin) * (WITNESS_SCALE_FACTOR - 1) + zlen (ser_CTxIn txin) + zlen (ser_stack (scriptWitness txin)).

(** ** src/consensus/tx_check.cpp *)

Fixpoint check_outputs (nValueOut : Z) (outs : list CTxOut) : verdict TxValidationResult unit :=
  match outs with
  | [] => Valid tt
  | txout :: outs =>
      if nValue txout <? 0 then Invalid TX_CONSENSUS "bad-txns-vout-negative"
      else if nValue txout >? MAX_MONEY then Invalid TX_CONSENSUS "bad-txns-vout-toolarge"
      else if negb (MoneyRange (nValueOut + nValue txout)) then Invalid TX_CONSENSUS "bad-txns-txouttotal-toolarge"
      else check_outputs (nValueOut + nValue txout) outs
  end.

Fixpoint check_duplicates (vInOutPoints : gset COutPoint) (ins : list CTxIn) : bool :=
  match ins with
  | [] => true
  | txin :: ins =>
      if bool_decide (prevout txin ∈ vInOutPoints) then false
      else check_duplicates ({[prevout txin]} ∪ vInOutPoints) ins
  end.

Definition CheckTransaction (tx : CTransaction) : verdict TxValidationResult unit :=
  match vin tx with
  | [] => Invalid TX_CONSENSUS "bad-txns-vin-empty"
  | in0 :: _ =>
      if zlen (vout tx) =? 0 then Invalid TX_CONSENSUS "bad-txns-vout-empty"
      else if zlen (SerializeTransaction false tx) * WITNESS_SCALE_FACTOR >? MAX_BLOCK_WEIGHT then Invalid TX_CONSENSUS "bad-txns-oversize"
      else
        match check_outputs 0 (vout tx) with
        | Invalid r reason => Invalid r reason
        | Valid _ =>
            if negb (check_duplicates ∅ (vin tx)) then Invalid TX_CONSENSUS "bad-txns-inputs-duplicate"
            else if IsCoinBase tx then
              if (zlen (scriptSig in0) <? 2) || (zlen (scriptSig in0) >? 100) then Invalid TX_CONSENSUS "bad-cb-length" else Valid tt
            else if existsb (fun txin => COutPoint_IsNull (prevout txin)) (vin tx) then Invalid TX_CONSENSUS "bad-txns-prevout-null"
            else Valid tt
        end
  end.

(** ** src/consensus/tx_verify.cpp: lock times *)

Definition IsFinalTx (tx : CTransaction) (nBlockHeight nBlockTime : Z) : bool :=
  if nLockTime tx =? 0 then true
  else if nLockTime tx <? (if nLockTime tx <? LOCKTIME_THRESHOLD then nBlockHeight else nBlockTime) then true
  else forallb (fun txin => nSequence txin =? SEQUENCE_FINAL) (vin tx).

(** the loop over the inputs with the heights of their coins; the heights are updated in place *)
Fixpoint sequence_locks_loop (t : BlockMap) (block : nat) (ins : list CTxIn) (prevHeights : list Z) (nMinHeight nMinTime : Z)
    : option (Z * Z * list Z) :=
  match ins, prevHeights with
  | txin :: ins, nCoinHeight :: prevHeights =>
      if flag (nSequence txin) SEQUENCE_LOCKTIME_DISABLE_FLAG then
        '(mh, mt, hs) ← sequence_locks_loop t block ins prevHeights nMinHeight nMinTime;
        Some (mh, mt, 0 :: hs)
      else
        let value := Z.land (nSequence txin) SEQUENCE_LOCKTIME_MASK in
        '(nMinHeight, nMinTime) ←
          (if flag (nSequence txin) SEQUENCE_LOCKTIME_TYPE_FLAG then
             ancestor ← GetAncestor t block (Z.max (nCoinHeight - 1) 0);
             a ← ancestor;
             nCoinTime ← GetMedianTimePast t a;
             Some (nMinHeight, Z.max nMinTime (nCoinTime + u32 (Z.shiftl value SEQUENCE_LOCKTIME_GRANULARITY) - 1))
           else Some (Z.max nMinHeight (nCoinHeight + value - 1), nMinTime));
        '(mh, mt, hs) ← sequence_locks_loop t block ins prevHeights nMinHeight nMinTime;
        Some (mh, mt, nCoinHeight :: hs)
  | _, _ => Some (nMinHeight, nMinTime, prevHeights)
  end.

Definition CalculateSequenceLocks (t : BlockMap) (tx : CTransaction) (flags : Z) (prevHeights : list Z) (block : nat) : option (Z * Z * list Z) :=
  if negb (zlen prevHeights =? zlen (vin tx)) then None
  else
    let fEnforceBIP68 := (version tx >=? 2) && flag flags LOCKTIME_VERIFY_SEQUENCE in
    if negb fEnforceBIP68 then Some (-1, -1, prevHeights)
    else sequence_locks_loop t block (vin tx) prevHeights (-1) (-1).

Definition EvaluateSequenceLocks (t : BlockMap) (block : nat) (lockPair : Z * Z) : option bool :=
  b ← t !! block;
  prev ← pprev b;
  nBlockTime ← GetMedianTimePast t prev;
  Some (negb ((lockPair.1 >=? nHeight b) || (lockPair.2 >=? nBlockTime))).

Definition SequenceLocks (t : BlockMap) (tx : CTransaction) (flags : Z) (prevHeights : list Z) (block : nat) : option bool :=
  '(mh, mt, _) ← CalculateSequenceLocks t tx flags prevHeights block;
  EvaluateSequenceLocks t block (mh, mt).

(** ** Signature operations *)

(** [CScriptWitness::stack.back] *)
Definition WitnessSigOps (witversion : Z) (witprogram : list Z) (stack : list (list Z)) : Z :=
  if witversion =? 0 then
    if zlen witprogram =? WITNESS_V0_KEYHASH_SIZE then 1
    else if (zlen witprogram =? WITNESS_V0_SCRIPTHASH_SIZE) && (zlen stack >? 0) then GetSigOpCount (List.last stack []) true
    else 0
  else 0.

(** the data of the last operation; a script of pushes decodes to its end *)
Fixpoint last_data (fuel : nat) (pc : CScript) (data : list Z) : list Z :=
  match fuel with
  | O => data
  | S fuel =>
      match pc with
      | [] => data
      | _ => match GetScriptOp pc with Some (_, data, pc) => last_data fuel pc data | None => data end
      end
  end.

Definition CountWitnessSigOps (scriptSig scriptPubKey : CScript) (witness : list (list Z)) (flags : Z) : option Z :=
  if negb (flag flags SCRIPT_VERIFY_WITNESS) then Some 0
  else if negb (flag flags SCRIPT_VERIFY_P2SH) then None
  else
    match IsWitnessProgram scriptPubKey with
    | Some (witnessversion, witnessprogram) => Some (WitnessSigOps witnessversion witnessprogram witness)
    | None =>
        if IsPayToScriptHash scriptPubKey && IsPushOnly scriptSig then
          match IsWitnessProgram (last_data (length scriptSig) scriptSig []) with
          | Some (witnessversion, witnessprogram) => Some (WitnessSigOps witnessversion witnessprogram witness)
          | None => Some 0
          end
        else Some 0
    end.

(** [unsigned int] additions *)
Definition GetLegacySigOpCount (tx : CTransaction) : Z :=
  let nSigOps := foldl (fun n txin => u32 (n + GetSigOpCount (scriptSig txin) false)) 0 (vin tx) in
  foldl (fun n txout => u32 (n + GetSigOpCount (scriptPubKey txout) false)) nSigOps (vout tx).

Section inputs.
Context {V : Type} `{CCoinsView V}.
Implicit Types c : CCoinsViewCache V.

Fixpoint p2sh_sigops_loop (ins : list CTxIn) (nSigOps : Z) c : option (Z * CCoinsViewCache V) :=
  match ins with
  | [] => Some (nSigOps, c)
  | txin :: ins =>
      let '(coin, c) := AccessCoin c (prevout txin) in
      if IsSpent coin then None
      else
        let spk := scriptPubKey (coin_out coin) in
        p2sh_sigops_loop ins (if IsPayToScriptHash spk then u32 (nSigOps + GetSigOpCount_P2SH spk (scriptSig txin)) else nSigOps) c
  end.

Definition GetP2SHSigOpCount (tx : CTransaction) c : option (Z * CCoinsViewCache V) :=
  if IsCoinBase tx then Some (0, c) else p2sh_sigops_loop (vin tx) 0 c.

Fixpoint witness_sigops_loop (ins : list CTxIn) (flags nSigOps : Z) c : option (Z * CCoinsViewCache V) :=
  match ins with
  | [] => Some (nSigOps, c)
  | txin :: ins =>
      let '(coin, c) := AccessCoin c (prevout txin) in
      if IsSpent coin then None
      else
        n ← CountWitnessSigOps (scriptSig txin) (scriptPubKey (coin_out coin)) (scriptWitness txin) flags;
        witness_sigops_loop ins flags (nSigOps + n) c
  end.

Definition GetTransactionSigOpCost (tx : CTransaction) c (flags : Z) : option (Z * CCoinsViewCache V) :=
  let nSigOps := u32 (GetLegacySigOpCount tx * WITNESS_SCALE_FACTOR) in
  if IsCoinBase tx then Some (nSigOps, c)
  else
    '(nSigOps, c) ←
      (if flag flags SCRIPT_VERIFY_P2SH then
         '(n, c) ← GetP2SHSigOpCount tx c; Some (nSigOps + u32 (n * WITNESS_SCALE_FACTOR), c)
       else Some (nSigOps, c));
    witness_sigops_loop (vin tx) flags nSigOps c.

(** ** Inputs *)

(** the loop over the inputs: the sum of their values, or the rejection.  A sum that leaves 64 bits comes from a value out of range. *)
Fixpoint check_inputs_loop (ins : list CTxIn) (nSpendHeight nValueIn : Z) c : option (verdict TxValidationResult Z * CCoinsViewCache V) :=
  match ins with
  | [] => Some (Valid nValueIn, c)
  | txin :: ins =>
      let '(coin, c) := AccessCoin c (prevout txin) in
      if IsSpent coin then None
      else if fCoinBase coin && (nSpendHeight - coin_nHeight coin <? COINBASE_MATURITY) then
        Some (Invalid TX_PREMATURE_SPEND "bad-txns-premature-spend-of-coinbase", c)
      else
        let nValueIn := nValueIn + nValue (coin_out coin) in
        if negb (MoneyRange (nValue (coin_out coin))) || negb (MoneyRange nValueIn) then
          Some (Invalid TX_CONSENSUS "bad-txns-inputvalues-outofrange", c)
        else check_inputs_loop ins nSpendHeight nValueIn c
  end.

Definition CheckTxInputs (tx : CTransaction) c (nSpendHeight : Z) : option (verdict TxValidationResult Z * CCoinsViewCache V) :=
  let '(have, c) := HaveInputs c tx in
  if negb have then Some (Invalid TX_MISSING_INPUTS "bad-txns-inputs-missingorspent", c)
  else
    '(v, c) ← check_inputs_loop (vin tx) nSpendHeight 0 c;
    match v with
    | Invalid r reason => Some (Invalid r reason, c)
    | Valid nValueIn =>
        value_out ← GetValueOut tx;
        if nValueIn <? value_out then Some (Invalid TX_CONSENSUS "bad-txns-in-belowout", c)
        else
          let txfee_aux := nValueIn - value_out in
          if negb (MoneyRange txfee_aux) then Some (Invalid TX_CONSENSUS "bad-txns-fee-outofrange", c)
          else Some (Valid txfee_aux, c)
    end.

End inputs.

(** ** Context-free validity *)

(** the rules [CheckTransaction] enforces *)
Definition well_formed_tx (tx : CTransaction) : Prop :=
  vin tx <> [] /\ vout tx <> [] /\ 4 * zlen (SerializeTransaction false tx) <= MAX_BLOCK_WEIGHT /\
  Forall (fun o => MoneyRange (nValue o) = true) (vout tx) /\ value_sum (vout tx) <= MAX_MONEY /\
  NoDup (prevout <$> vin tx) /\
  (if IsCoinBase tx then Forall (fun i => 2 <= zlen (scriptSig i) <= 100) (vin tx)
   else Forall (fun i => COutPoint_IsNull (prevout i) = false) (vin tx)).

Lemma check_outputs_spec outs acc : 0 <= acc <= MAX_MONEY ->
  match check_outputs acc outs with
  | Valid _ => Forall (fun o => MoneyRange (nValue o) = true) outs /\ acc + value_sum outs <= MAX_MONEY
  | Invalid r _ => r = TX_CONSENSUS /\ ~ (Forall (fun o => MoneyRange (nValue o) = true) outs /\ acc + value_sum outs <= MAX_MONEY)
  end.
Proof.
  revert acc. induction outs as [|o outs IH]; intros acc Hacc; cbn [check_outputs].
  { split; [constructor|]. cbn. lia. }
  assert (Hcons : Forall (fun o => MoneyRange (nValue o) = true) (o :: outs) /\ acc + value_sum (o :: outs) <= MAX_MONEY <->
    0 <= nValue o <= MAX_MONEY /\ Forall (fun o => MoneyRange (nValue o) = true) outs /\ (acc + nValue o) + value_sum outs <= MAX_MONEY).
  { rewrite Forall_cons, MoneyRange_iff. change (value_sum (o :: outs)) with (nValue o + value_sum outs).
    replace (acc + (nValue o + value_sum outs)) with (acc + nValue o + value_sum outs) by lia. tauto. }
  destruct (Z.ltb_spec (nValue o) 0); [rewrite Hcons; split; [done|lia]|]. rewrite Z.gtb_ltb.
  destruct (Z.ltb_spec MAX_MONEY (nValue o)); [rewrite Hcons; split; [done|lia]|].
  destruct (MoneyRange (acc + nValue o)) eqn:Hs; cbn [negb].
  - apply MoneyRange_iff in Hs. specialize (IH _ Hs). destruct (check_outputs _ outs); rewrite Hcons; [tauto|].
    destruct IH as [-> IH]. tauto.
  - rewrite Hcons. split; [done|]. intros (_ & HF & Hm). pose proof (value_sum_nonneg outs HF).
    rewrite (proj2 (MoneyRange_iff _)) in Hs by lia. done.
Qed.

Lemma check_duplicates_spec ins seen :
  check_duplicates seen ins = true <-> NoDup (prevout <$> ins) /\ Forall (fun i => prevout i ∉ seen) ins.
Proof.
  revert seen. induction ins as [|i ins IH]; intros seen; cbn [check_duplicates fmap list_fmap].
  { split; [intros _; split; constructor|done]. }
  rewrite NoDup_cons, Forall_cons. case_bool_decide as Hin; [split; [done|tauto]|]. rewrite IH, !Forall_forall.
  split; intros [H1 H2]; (split; [|]).
  - split; [|done]. intros (j & Hj & Hjin)%list_elem_of_fmap. apply (H2 j Hjin). set_solver.
  - split; [done|]. intros j Hj Hs. apply (H2 j Hj). set_solver.
  - tauto.
  - intros j Hj [Hs|Hs]%elem_of_union; [|apply (proj2 H2 j Hj Hs)]. apply elem_of_singleton in Hs.
    apply (proj1 H1). rewrite <- Hs. apply list_elem_of_fmap_2. done.
Qed.

Lemma coinbase_single tx : IsCoinBase tx = true -> exists i, vin tx = [i] /\ COutPoint_IsNull (prevout i) = true.
Proof. unfold IsCoinBase. destruct (vin tx) as [|i [|]]; cbn; try done. intros H. exists i. done. Qed.

Lemma null_prevout_spec ins :
  existsb (fun i => COutPoint_IsNull (prevout i)) ins = false <-> Forall (fun i => COutPoint_IsNull (prevout i) = false) ins.
Proof.
  induction ins as [|i ins IH]; cbn; [split; [constructor|done]|]. rewrite Forall_cons, orb_false_iff, IH. done.
Qed.

Lemma CheckTransaction_spec tx :
  match CheckTransaction tx with
  | Valid _ => well_formed_tx tx
  | Invalid r _ => r = TX_CONSENSUS /\ ~ well_formed_tx tx
  end.
Proof.
  unfold CheckTransaction, well_formed_tx. destruct (vin tx) as [|in0 ins] eqn:Hvin; [split; [done|tauto]|].
  destruct (Z.eqb_spec (zlen (vout tx)) 0) as [E|E].
  { split; [done|]. apply zlen_nil_inv in E. tauto. }
  assert (Hout : vout tx <> []) by (intros E'; rewrite E' in E; done). rewrite Z.gtb_ltb.
  destruct (Z.ltb_spec MAX_BLOCK_WEIGHT (zlen (SerializeTransaction false tx) * WITNESS_SCALE_FACTOR)) as [Hsz|Hsz];
    unfold WITNESS_SCALE_FACTOR in Hsz; [split; [done|]; intros (_ & _ & ? & _); lia|].
  pose proof (check_outputs_spec (vout tx) 0 ltac:(vm_compute; intuition congruence)) as Ho.
  destruct (check_outputs 0 (vout tx)) as [[]|r reason]; [|split; [tauto|]; destruct Ho as [_ Ho]; intros (_ & _ & _ & H1 & H2 & _); tauto].
  pose proof (check_duplicates_spec (in0 :: ins) ∅) as Hd.
  assert (Hempty : Forall (fun i => prevout i ∉ (∅ : gset COutPoint)) (in0 :: ins)) by (apply Forall_forall; set_solver).
  destruct (check_duplicates ∅ (in0 :: ins)); cbn [negb];
    [|split; [done|]; intros (_ & _ & _ & _ & _ & Hnd & _); pose proof (proj2 Hd (conj Hnd Hempty)); discriminate].
  destruct (proj1 Hd eq_refl) as [Hnd _]. destruct Ho as [Ho1 Ho2].
  destruct (IsCoinBase tx) eqn:Hcb.
  - destruct (coinbase_single tx Hcb) as (i & Hi & _). rewrite Hvin in Hi. injection Hi as -> ->. rewrite Z.gtb_ltb.
    destruct ((zlen (scriptSig i) <? 2) || (100 <? zlen (scriptSig i))) eqn:Hlen.
    + split; [done|]. intros (_ & _ & _ & _ & _ & _ & HF). inversion HF; subst.
      apply orb_true_iff in Hlen as [Hlen|Hlen]; bool_to_prop; lia.
    + split_and!; try done; [lia|]. constructor; [bool_to_prop; lia|constructor].
  - pose proof (null_prevout_spec (in0 :: ins)) as Hn. destruct (existsb _ (in0 :: ins)).
    + split; [done|]. intros (_ & _ & _ & _ & _ & _ & HF). apply Hn in HF. done.
    + split_and!; try done; [lia|tauto].
Qed.

(** ** The inputs of a transaction *)

Section inputs_spec.
Context {V : Type} `{LawfulView V}.
Implicit Types c : CCoinsViewCache V.

Lemma same_view_trans c1 c2 c3 : same_view c1 c2 -> same_view c2 c3 -> same_view c1 c3.
Proof. intros (_ & H2 & H3) (? & H5 & H6). split; [done|]. split; [intros o; rewrite H5; apply H2|congruence]. Qed.

Lemma HaveInputs_loop_spec ins c : cache_ok c ->
  exists b c', HaveInputs_loop ins c = (b, c') /\ same_view c c' /\
    (b = true <-> Forall (fun i => is_Some (cache_coins c (prevout i))) ins).
Proof.
  revert c. induction ins as [|i ins IH]; intros c Hc; cbn [HaveInputs_loop].
  { exists true, c. split; [done|]. split; [done|]. split; [intros _; constructor|done]. }
  destruct (HaveCoin_spec c (prevout i) Hc) as (c1 & -> & Hs).
  case_bool_decide as Hi; [|exists false, c1; rewrite Forall_cons; split; [done|]; split; [done|]; split; [done|tauto]].
  destruct (IH c1 (proj1 Hs)) as (b & c2 & -> & Hs2 & Hb). exists b, c2. split; [done|]. split; [exact (same_view_trans _ _ _ Hs Hs2)|].
  rewrite Forall_cons, Hb. destruct Hs as (_ & Hco & _). rewrite !Forall_forall.
  split; [intros HF; split; [done|]; intros j Hj; rewrite <- Hco; auto|intros [_ HF] j Hj; rewrite Hco; auto].
Qed.

(** an input that [CheckTxInputs] accepts at the height of the spending block, with its coin *)
Definition input_ok (f : utxos) (nSpendHeight : Z) (i : CTxIn) (coin : Coin) : Prop :=
  f (prevout i) = Some coin /\ (fCoinBase coin = true -> COINBASE_MATURITY <= nSpendHeight - coin_nHeight coin) /\
  MoneyRange (nValue (coin_out coin)) = true.

Definition coins_sum (coins : list Coin) : Z := value_sum (coin_out <$> coins).

Lemma check_inputs_loop_spec f ins h acc c : cache_ok c -> (forall o, cache_coins c o = f o) ->
  Forall (fun i => is_Some (f (prevout i))) ins -> 0 <= acc <= MAX_MONEY ->
  exists v c', check_inputs_loop ins h acc c = Some (v, c') /\ same_view c c' /\
    (forall total, v = Valid total <-> exists coins, Forall2 (input_ok f h) ins coins /\ total = acc + coins_sum coins /\ total <= MAX_MONEY).
Proof.
  revert acc c. induction ins as [|i ins IH]; intros acc c Hc Hf Hins Hacc; cbn [check_inputs_loop].
  { eexists _, c. split; [done|]. split; [done|]. intros total. split.
    - intros [= <-]. exists []. split; [constructor|]. cbn. lia.
    - intros (coins & HF & -> & _). inversion HF. f_equal. cbn. lia. }
  inversion Hins as [|? ? Hi Hins']; subst. destruct Hi as [coin Hi].
  destruct (AccessCoin_spec c (prevout i) Hc) as (coin' & c1 & -> & Hcoin & Hs). rewrite Hf, Hi in Hcoin.
  unfold unspent in Hcoin. destruct (IsSpent coin'); [done|]. injection Hcoin as ->.
  assert (Hinv : forall coins, Forall2 (input_ok f h) (i :: ins) coins <-> exists cs, coins = coin :: cs /\ input_ok f h i coin /\ Forall2 (input_ok f h) ins cs).
  { intros coins. split.
    - intros HF. inversion HF as [|? x ? cs Hx HF' E1 E2]. subst. exists cs. assert (x = coin) as -> by (destruct Hx; congruence). done.
    - intros (cs & -> & ? & ?). constructor; done. }
  assert (Hbad : ~ input_ok f h i coin -> forall r reason total,
            (Invalid r reason : verdict TxValidationResult Z) = Valid total <-> exists coins, Forall2 (input_ok f h) (i :: ins) coins /\ total = acc + coins_sum coins /\ total <= MAX_MONEY).
  { intros Hn r reason total. split; [done|]. intros (coins & HF & _). apply Hinv in HF as (cs & _ & Hx & _). done. }
  destruct (fCoinBase coin && (h - coin_nHeight coin <? COINBASE_MATURITY)) eqn:Hm.
  { eexists _, c1. split; [done|]. split; [done|]. apply Hbad. intros (_ & Hmat & _). apply andb_true_iff in Hm as [Hcb Hlt%Z.ltb_lt].
    specialize (Hmat Hcb). lia. }
  assert (Hmat : fCoinBase coin = true -> COINBASE_MATURITY <= h - coin_nHeight coin).
  { intros E. rewrite E in Hm. apply Z.ltb_ge in Hm. lia. }
  destruct (MoneyRange (nValue (coin_out coin))) eqn:Hr; cbn [negb orb].
  2:{ eexists _, c1. split; [done|]. split; [done|]. apply Hbad. intros (_ & _ & ?). congruence. }
  pose proof (proj1 (MoneyRange_iff _) Hr) as Hr'.
  assert (Hsum : forall cs, acc + coins_sum (coin :: cs) = acc + nValue (coin_out coin) + coins_sum cs).
  { intros cs. change (coins_sum (coin :: cs)) with (nValue (coin_out coin) + coins_sum cs). lia. }
  destruct (MoneyRange (acc + nValue (coin_out coin))) eqn:Hs'; cbn [negb].
  - apply MoneyRange_iff in Hs'.
    destruct (IH _ c1 (proj1 Hs) ltac:(intros o; rewrite (proj1 (proj2 Hs)); apply Hf) Hins' Hs') as (v & c2 & -> & Hs2 & Hv).
    exists v, c2. split; [done|]. split; [exact (same_view_trans _ _ _ Hs Hs2)|]. intros total. rewrite Hv. split.
    + intros (cs & HF & -> & Hle). exists (coin :: cs). rewrite Hinv, Hsum. split; [exists cs; done|]. split; [lia|lia].
    + intros (coins & (cs & -> & _ & HF)%Hinv & -> & Hle). exists cs. rewrite Hsum in *. done.
  - eexists _, c1. split; [done|]. split; [done|]. intros total. split; [done|].
    intros (coins & (cs & -> & _ & HF)%Hinv & -> & Hle). rewrite Hsum in Hle.
    assert (0 <= coins_sum cs). { apply value_sum_nonneg. apply Forall_fmap. clear -HF. induction HF as [|? ? ? ? (_ & _ & ?)]; constructor; done. }
    rewrite (proj2 (MoneyRange_iff _)) in Hs' by lia. done.
Qed.

(** what a spending transaction that is not a coinbase must satisfy, with the fee it leaves *)
Definition spends_ok (f : utxos) (tx : CTransaction) (nSpendHeight txfee : Z) : Prop :=
  exists coins, Forall2 (input_ok f nSpendHeight) (vin tx) coins /\ coins_sum coins <= MAX_MONEY /\
    coins_sum coins = value_sum (vout tx) + txfee /\ 0 <= txfee.

Lemma CheckTxInputs_spec tx c h out : cache_ok c -> IsCoinBase tx = false -> GetValueOut tx = Some out ->
  exists v c', CheckTxInputs tx c h = Some (v, c') /\ same_view c c' /\
    forall txfee, v = Valid txfee <-> spends_ok (cache_coins c) tx h txfee.
Proof.
  intros Hc Hcb Hout. unfold CheckTxInputs, HaveInputs. rewrite Hcb.
  pose proof Hout as Hout'. unfold GetValueOut in Hout'. apply value_out_loop_spec in Hout'; [|vm_compute; intuition congruence].
  destruct Hout' as (Hrange & Hval & Hmax). pose proof (value_sum_nonneg _ Hrange) as Hnn.
  destruct (HaveInputs_loop_spec (vin tx) c Hc) as (b & c1 & -> & Hs1 & Hb). destruct b; cbn [negb].
  2:{ eexists _, c1. split; [done|]. split; [done|]. intros fee. split; [done|]. intros (coins & HF & _).
      enough (false = true) by done. apply Hb. clear -HF. induction HF as [|? ? ? ? (? & _)]; constructor; eauto. }
  destruct (check_inputs_loop_spec (cache_coins c) (vin tx) h 0 c1 (proj1 Hs1) (proj1 (proj2 Hs1)) (proj1 Hb eq_refl)
    ltac:(vm_compute; intuition congruence)) as (v & c2 & -> & Hs2 & Hv).
  cbn [mbind option_bind]. pose proof (same_view_trans _ _ _ Hs1 Hs2) as Hs.
  destruct v as [total|r reason].
  2:{ eexists _, c2. split; [done|]. split; [done|]. intros fee. split; [done|]. intros (coins & HF & Hle & _).
      assert (E : Invalid r reason = Valid (coins_sum coins)); [|done]. apply Hv. exists coins. split; [done|]. split; [lia|done]. }
  destruct (proj1 (Hv total) eq_refl) as (coins & HF & Htot & Hle). cbn [Z.add] in Htot.
  assert (Huniq : forall fee, spends_ok (cache_coins c) tx h fee -> total = value_sum (vout tx) + fee).
  { intros fee (cs & HF' & Hle' & Hfee & _). assert (Heq : (Valid total : verdict TxValidationResult Z) = Valid (0 + coins_sum cs)).
    { apply (Hv (0 + coins_sum cs)). exists cs. split; [done|]. split; [done|lia]. }
    injection Heq as ->. lia. }
  rewrite Hout. cbn [mbind option_bind]. destruct (Z.ltb_spec total out).
  { eexists _, c2. split; [done|]. split; [done|]. intros fee. split; [done|]. intros Hsp. pose proof (Huniq fee Hsp).
    destruct Hsp as (_ & _ & _ & _ & ?). lia. }
  assert (Hcs : 0 <= coins_sum coins).
  { apply value_sum_nonneg. apply Forall_fmap. clear -HF. induction HF as [|? ? ? ? (_ & _ & ?)]; constructor; done. }
  rewrite (proj2 (MoneyRange_iff (total - out))) by lia. cbn [negb]. eexists _, c2. split; [done|]. split; [done|].
  intros fee. split.
  - intros [= <-]. exists coins. split; [done|]. split; [lia|]. split; lia.
  - intros Hsp. pose proof (Huniq fee Hsp). f_equal. lia.
Qed.

End inputs_spec.

(** ** Relative lock times *)

(** the value of a relative lock: blocks, or units of 512 seconds *)
Definition lock_value (txin : CTxIn) : Z := Z.land (nSequence txin) SEQUENCE_LOCKTIME_MASK.

(** The lock of an input whose coin was created at height [h] is met by the block [b] at [p] after a block with median
    time past [mtp]. *)
Definition lock_met (t : BlockMap) (p : nat) (b : CBlockIndex) (mtp : Z) (txin : CTxIn) (h : Z) : Prop :=
  flag (nSequence txin) SEQUENCE_LOCKTIME_DISABLE_FLAG = true \/
  if flag (nSequence txin) SEQUENCE_LOCKTIME_TYPE_FLAG then
    exists a m, ancestor t p (Z.max (h - 1) 0) = Some a /\ GetMedianTimePast t a = Some m /\ m + 512 * lock_value txin <= mtp
  else h + lock_value txin <= nHeight b.

Lemma lock_value_range txin : 0 <= lock_value txin < 2 ^ 16.
Proof.
  unfold lock_value, SEQUENCE_LOCKTIME_MASK. change 0x0000ffff with (Z.ones 16). rewrite Z.land_ones by lia. apply Z.mod_pos_bound. lia.
Qed.

Lemma sequence_locks_loop_spec t p b mtp ins hs mh mt : tree_ok t -> t !! p = Some b -> length hs = length ins ->
  Forall (fun h => h - 1 <= nHeight b) hs -> 0 <= nHeight b ->
  exists mh' mt' hs', sequence_locks_loop t p ins hs mh mt = Some (mh', mt', hs') /\
    (mh' < nHeight b /\ mt' < mtp <-> (mh < nHeight b /\ mt < mtp) /\ Forall2 (lock_met t p b mtp) ins hs).
Proof.
  intros Ht Hb. pose proof (tree_entries t Ht) as He. revert hs mh mt.
  induction ins as [|i ins IH]; intros [|h hs] mh mt Hlen Hhs Hnn; try done; cbn [sequence_locks_loop].
  { eexists _, _, _. split; [done|]. split; [intros; split; [done|constructor]|tauto]. }
  injection Hlen as Hlen. inversion Hhs as [|? ? Hh Hhs']; subst. fold (lock_value i). pose proof (lock_value_range i) as Hv.
  assert (Hcons : forall A : Prop, A /\ Forall2 (lock_met t p b mtp) (i :: ins) (h :: hs) <->
            (A /\ lock_met t p b mtp i h) /\ Forall2 (lock_met t p b mtp) ins hs).
  { intros A. split; [intros [? HF]; inversion HF; subst; done|intros [[? ?] ?]; split; [done|constructor; done]]. }
  destruct (flag (nSequence i) SEQUENCE_LOCKTIME_DISABLE_FLAG) eqn:Hd.
  { destruct (IH hs mh mt Hlen Hhs' Hnn) as (mh' & mt' & hs' & -> & Hiff). cbn [mbind option_bind]. eexists _, _, _. split; [done|].
    rewrite Hcons, Hiff. unfold lock_met. rewrite Hd. tauto. }
  destruct (flag (nSequence i) SEQUENCE_LOCKTIME_TYPE_FLAG) eqn:Hty.
  - rewrite (GetAncestor_spec t He p b) by done. cbn [mbind option_bind].
    destruct (ancestor_Some t He p b (Z.max (h - 1) 0) Hb ltac:(lia)) as (a & ba & Ha & Hba & _). rewrite Ha. cbn [mbind option_bind].
    destruct (median_window_total t He nMedianTimeSpan a ba Hba) as (w & Hw & _).
    destruct (median_total t He a ba w Hba Hw) as (m & Hm & _). rewrite Hm. cbn [mbind option_bind].
    rewrite Z.shiftl_mul_pow2 by (vm_compute; discriminate). change (2 ^ SEQUENCE_LOCKTIME_GRANULARITY) with 512.
    rewrite wrap_small by (unfold fits; lia).
    destruct (IH hs mh (Z.max mt (m + lock_value i * 512 - 1)) Hlen Hhs' Hnn) as (mh' & mt' & hs' & -> & Hiff).
    cbn [mbind option_bind]. eexists _, _, _. split; [done|]. rewrite Hcons, Hiff. unfold lock_met. rewrite Hd, Hty.
    assert (Hex : (exists a m, ancestor t p (Z.max (h - 1) 0) = Some a /\ GetMedianTimePast t a = Some m /\ m + 512 * lock_value i <= mtp) <->
              m + 512 * lock_value i <= mtp).
    { split; [intros (a' & m' & Ha' & Hm' & ?)|intros; exists a, m; done]. assert (a' = a) as -> by congruence. assert (m' = m) as -> by congruence. done. }
    rewrite Hex. intuition (lia || discriminate).
  - cbn [mbind option_bind]. destruct (IH hs (Z.max mh (h + lock_value i - 1)) mt Hlen Hhs' Hnn) as (mh' & mt' & hs' & -> & Hiff).
    cbn [mbind option_bind]. eexists _, _, _. split; [done|]. rewrite Hcons, Hiff. unfold lock_met. rewrite Hd, Hty.
    intuition (lia || discriminate).
Qed.

(** ** Properties *)

(** C35: [CheckTransaction] accepts exactly the well-formed transactions: inputs and outputs, a stripped size within the block weight,
    output values and their sum in the money range, no outpoint spent twice, and the coinbase rules; every rejection is a consensus one. *)
Theorem check_transaction (tx : CTransaction) :
  (CheckTransaction tx = Valid tt <-> well_formed_tx tx) /\
  (forall r reason, CheckTransaction tx = Invalid r reason -> r = TX_CONSENSUS).
Proof.
  pose proof (CheckTransaction_spec tx) as H. destruct (CheckTransaction tx) as [[]|r reason].
  - split; [tauto|done].
  - destruct H as [-> H]. split; [split; [done|tauto]|]. intros r' reason' [= <- _]. done.
Qed.

(** C34: [CheckTxInputs] accepts a spending transaction with fee [txfee] exactly when every input is an unspent coin in the money range,
    coinbase coins are mature, the inputs sum to at most all money, and they are worth the outputs plus the fee; the view shows the same
    coins afterwards. *)
Theorem check_tx_inputs {V : Type} `{LawfulView V} (tx : CTransaction) (c : CCoinsViewCache V) (nSpendHeight out : Z) :
  cache_ok c -> IsCoinBase tx = false -> GetValueOut tx = Some out ->
  exists v c', CheckTxInputs tx c nSpendHeight = Some (v, c') /\ same_view c c' /\
    forall txfee, v = Valid txfee <-> spends_ok (cache_coins c) tx nSpendHeight txfee.
Proof. apply CheckTxInputs_spec. Qed.

(** [SequenceLocks] always answers for a block with a parent. *)
Lemma SequenceLocks_total t tx flags prevHeights p q b mtp :
  tree_ok t -> t !! p = Some b -> pprev b = Some q -> GetMedianTimePast t q = Some mtp ->
  length prevHeights = length (vin tx) -> Forall (fun h => h - 1 <= nHeight b) prevHeights ->
  exists r, SequenceLocks t tx flags prevHeights p = Some r.
Proof.
  intros Ht Hb Hq Hm Hlen Hhs. destruct (entry_parent t (tree_entries t Ht) p b q Hb Hq) as (_ & bq & Hbq & Hh).
  pose proof (height_bound t (tree_entries t Ht) q bq Hbq) as Hhq.
  unfold SequenceLocks, CalculateSequenceLocks, EvaluateSequenceLocks. rewrite Hlen, Z.eqb_refl, Hb. cbn [negb].
  destruct (sequence_locks_loop_spec t p b mtp (vin tx) prevHeights (-1) (-1) Ht Hb Hlen Hhs ltac:(lia)) as (mh & mt & hs & -> & _).
  destruct (negb _); cbn [mbind option_bind]; rewrite Hq; cbn [mbind option_bind]; rewrite Hm; cbn [mbind option_bind]; eauto.
Qed.

(** Relative lock times (BIP 68): for a version 2 transaction with the rule in force, [SequenceLocks] holds for a block exactly when
    every input either disables its lock or is deep enough, in blocks or in median time; without the rule it always holds. *)
Theorem sequence_locks (t : BlockMap) (tx : CTransaction) (flags : Z) (prevHeights : list Z) (p q : nat) (b : CBlockIndex) (mtp : Z) :
  tree_ok t -> t !! p = Some b -> pprev b = Some q -> GetMedianTimePast t q = Some mtp -> 0 <= mtp ->
  length prevHeights = length (vin tx) -> Forall (fun h => h - 1 <= nHeight b) prevHeights ->
  exists r, SequenceLocks t tx flags prevHeights p = Some r /\
    (r = true <-> (2 <= version tx /\ flag flags LOCKTIME_VERIFY_SEQUENCE = true -> Forall2 (lock_met t p b mtp) (vin tx) prevHeights)).
Proof.
  intros Ht Hb Hq Hm Hm0 Hlen Hhs. destruct (entry_parent t (tree_entries t Ht) p b q Hb Hq) as (_ & bq & Hbq & Hh).
  pose proof (height_bound t (tree_entries t Ht) q bq Hbq) as Hhq.
  assert (Heval : forall mh mt, EvaluateSequenceLocks t p (mh, mt) = Some ((mh <? nHeight b) && (mt <? mtp))).
  { intros mh mt. unfold EvaluateSequenceLocks. rewrite Hb. cbn [mbind option_bind]. rewrite Hq. cbn [mbind option_bind].
    rewrite Hm. cbn [mbind option_bind fst snd]. rewrite !Z.geb_leb, negb_orb, <- !Z.ltb_antisym. done. }
  unfold SequenceLocks, CalculateSequenceLocks. rewrite Hlen, Z.eqb_refl, Z.geb_leb. cbn [negb].
  destruct (Z.leb_spec 2 (version tx)); [|cbn [andb negb mbind option_bind]; rewrite Heval; eexists; split; [reflexivity|]; rewrite andb_true_iff, !Z.ltb_lt; intuition lia].
  destruct (flag flags LOCKTIME_VERIFY_SEQUENCE); cbn [andb negb mbind option_bind].
  - destruct (sequence_locks_loop_spec t p b mtp (vin tx) prevHeights (-1) (-1) Ht Hb Hlen Hhs ltac:(lia)) as (mh & mt & hs & -> & Hiff).
    cbn [mbind option_bind]. rewrite Heval. eexists. split; [reflexivity|]. rewrite andb_true_iff, !Z.ltb_lt, Hiff. intuition lia.
  - rewrite Heval. eexists. split; [reflexivity|]. rewrite andb_true_iff, !Z.ltb_lt. intuition (lia || discriminate).
Qed.

(** ** Witnesses *)

(** a transaction that spends the sample coin of 50 after one block and leaves a fee of 10 *)
Definition sample_spend : CTransaction := {|
  version := 2;
  vin := [{| prevout := sample_outpoint; scriptSig := []; nSequence := 1; scriptWitness := [] |}];
  vout := [{| nValue := 40; scriptPubKey := [81] |}];
  nLockTime := 0 |}.

Definition sample_db : CoinsDB := {| db_coins := {[sample_outpoint := sample_coin]}; db_best := None; db_heads := None |}.
Definition sample_view : CCoinsViewCache CoinsDB := CCoinsViewCache_new sample_db.

Lemma sample_view_ok : @cache_ok _ _ (@CoinsDB_lawful small_batches) sample_view.
Proof.
  split; [|apply empty_entries_ok]. split; [|done]. intros o coin E. unfold db_coins_of in E. cbn [db_coins base sample_view CCoinsViewCache_new sample_db] in E.
  apply lookup_singleton_Some in E as [_ <-]. vm_compute. reflexivity.
Qed.

Lemma check_tx_inputs_witness : exists c',
  @CheckTxInputs _ (@CoinsDB_view small_batches) sample_spend sample_view 9 = Some (Valid 10, c').
Proof.
  destruct (@check_tx_inputs _ _ (@CoinsDB_lawful small_batches) sample_spend sample_view 9 40 sample_view_ok)
    as (v & c' & E & _ & Hv); [vm_compute; reflexivity|vm_compute; reflexivity|].
  exists c'. rewrite E. assert (Hval : v = Valid 10); [|rewrite Hval; reflexivity].
  apply Hv. exists [sample_coin]. split; [|split; [vm_compute; discriminate|split; [vm_compute; reflexivity|lia]]].
  constructor; [|constructor]. split; [vm_compute; reflexivity|]. split; [discriminate|vm_compute; reflexivity].
Defined.

Lemma sequence_locks_witness : SequenceLocks sample_tree sample_spend LOCKTIME_VERIFY_SEQUENCE [0] 1 = Some true.
Proof.
  assert (Hhs : Forall (fun h => h - 1 <= nHeight sample_tip) [0]) by (constructor; [vm_compute; discriminate|constructor]).
  destruct (sequence_locks sample_tree sample_spend LOCKTIME_VERIFY_SEQUENCE [0] 1 0 sample_tip 1723502400 sample_tree_ok
    ltac:(vm_compute; reflexivity) ltac:(vm_compute; reflexivity) ltac:(vm_compute; reflexivity) ltac:(lia) eq_refl Hhs) as (r & E & Hr).
  rewrite E. f_equal. apply Hr. intros _. constructor; [|constructor]. right. vm_compute. discriminate.
Defined.
