(* ===== verification/MempoolEntry.v ===== *)
(** * Entries of the transaction pool

    src/kernel/mempool_entry.h, the state updates of an entry in src/txmempool.cpp, the
    orders of the pool's indices in src/txmempool.h, and the sizes of src/policy/policy.cpp
    they use.

    An entry refers to another by the transaction's id, where the source has a reference.
    The set of parents or children is walked in the order of the ids ([by_hash]).  [None]
    is a failed assertion or undefined behaviour. *)

From Stdlib Require Import ZArith Lia Bool.
From stdpp Require Import base numbers list gmap sorting.
From S2P Require Import Prelude Uint256 Binary64 Params FeeModel Serialize Primitives TxVerify Coins.
Local Open Scope Z_scope.

(** ** Sizes *)

(** [GetVirtualTransactionSize(nWeight, nSigOpCost, bytes_per_sigop)] *)
Definition GetVirtualTransactionSize (nWeight nSigOpCost bytes_per_sigop : Z) : Z :=
  Z.quot (Z.max nWeight (nSigOpCost * bytes_per_sigop) + WITNESS_SCALE_FACTOR - 1) WITNESS_SCALE_FACTOR.

Definition INT64_MAX : Z := 2 ^ 63 - 1.
Definition INT64_MIN : Z := - 2 ^ 63.
(** [SaturatingAdd<int64_t>] *)
Definition SaturatingAdd (i j : Z) : Z :=
  if (i >? 0) && (j >? INT64_MAX - i) then INT64_MAX
  else if (i <? 0) && (j <? INT64_MIN - i) then INT64_MIN
  else i + j.

(** ** What the pool takes from its environment: the settings of the node, and the sizes
    of allocations *)
Class MempoolEnv : Type := {
  nBytesPerSigOp : Z;
  fee_model : FeeModel;
  RecursiveDynamicUsage : CTransaction -> Z;
  (** [memusage::IncrementalDynamicUsage] of a set of references, and the nodes of the maps *)
  link_usage : Z;
  mapTx_node_usage : Z;
  mapNextTx_node_usage : Z;
  mapDeltas_node_usage : Z;
  (** the memory of a vector of references with a capacity, the capacity it grows to when it is
      full, and the one [shrink_to_fit] leaves for a size and a capacity *)
  vector_usage : nat -> Z;
  vector_grow : nat -> nat;
  vector_shrink : nat -> nat -> nat;
  (** [std::pow(2.0, x)] *)
  pow2 : double -> double;
}.

(** ** [CTxMemPoolEntry] *)

Record LockPoints : Type := { lp_height : Z; lp_time : Z; maxInputBlock : option nat }.

(** the members that never change *)
Record EntryData : Type := {
  entry_tx : CTransaction;
  entry_nFee : Z;
  entry_nValue : Z;
  nTxWeight : Z;
  nUsageSize : Z;
  entry_nTime : Z;
  entry_sequence : Z;
  entryHeight : Z;
  spendsCoinbase : bool;
  sigOpCost : Z;
}.

Record CTxMemPoolEntry : Type := {
  entry_data : EntryData;
  m_parents : gset uint256;
  m_children : gset uint256;
  m_modified_fee : Z;
  lockPoints : LockPoints;
  m_count_with_descendants : Z;
  nSizeWithDescendants : Z;
  nModFeesWithDescendants : Z;
  m_count_with_ancestors : Z;
  nSizeWithAncestors : Z;
  nModFeesWithAncestors : Z;
  nSigOpCostWithAncestors : Z;
  idx_randomized : nat;
}.

Definition GetTx (e : CTxMemPoolEntry) : CTransaction := entry_tx (entry_data e).
Definition EntryFee (e : CTxMemPoolEntry) : Z := entry_nFee (entry_data e).
Definition EntryValue (e : CTxMemPoolEntry) : Z := entry_nValue (entry_data e).
Definition GetTxWeight (e : CTxMemPoolEntry) : Z := nTxWeight (entry_data e).
Definition EntryTime (e : CTxMemPoolEntry) : Z := entry_nTime (entry_data e).
Definition EntrySequence (e : CTxMemPoolEntry) : Z := entry_sequence (entry_data e).
Definition GetSigOpCost (e : CTxMemPoolEntry) : Z := sigOpCost (entry_data e).
Definition entry_hash (e : CTxMemPoolEntry) : uint256 := ComputeHash (GetTx e).

(** the members that do, one at a time *)
Definition set_parents (p : gset uint256) (e : CTxMemPoolEntry) : CTxMemPoolEntry :=
  {| entry_data := entry_data e; m_parents := p; m_children := m_children e; m_modified_fee := m_modified_fee e; lockPoints := lockPoints e;
     m_count_with_descendants := m_count_with_descendants e; nSizeWithDescendants := nSizeWithDescendants e;
     nModFeesWithDescendants := nModFeesWithDescendants e; m_count_with_ancestors := m_count_with_ancestors e;
     nSizeWithAncestors := nSizeWithAncestors e; nModFeesWithAncestors := nModFeesWithAncestors e;
     nSigOpCostWithAncestors := nSigOpCostWithAncestors e; idx_randomized := idx_randomized e |}.
Definition set_children (c : gset uint256) (e : CTxMemPoolEntry) : CTxMemPoolEntry :=
  {| entry_data := entry_data e; m_parents := m_parents e; m_children := c; m_modified_fee := m_modified_fee e; lockPoints := lockPoints e;
     m_count_with_descendants := m_count_with_descendants e; nSizeWithDescendants := nSizeWithDescendants e;
     nModFeesWithDescendants := nModFeesWithDescendants e; m_count_with_ancestors := m_count_with_ancestors e;
     nSizeWithAncestors := nSizeWithAncestors e; nModFeesWithAncestors := nModFeesWithAncestors e;
     nSigOpCostWithAncestors := nSigOpCostWithAncestors e; idx_randomized := idx_randomized e |}.
Definition set_descendants (count size fees : Z) (e : CTxMemPoolEntry) : CTxMemPoolEntry :=
  {| entry_data := entry_data e; m_parents := m_parents e; m_children := m_children e; m_modified_fee := m_modified_fee e; lockPoints := lockPoints e;
     m_count_with_descendants := count; nSizeWithDescendants := size;
     nModFeesWithDescendants := fees; m_count_with_ancestors := m_count_with_ancestors e;
     nSizeWithAncestors := nSizeWithAncestors e; nModFeesWithAncestors := nModFeesWithAncestors e;
     nSigOpCostWithAncestors := nSigOpCostWithAncestors e; idx_randomized := idx_randomized e |}.
Definition set_ancestors (count size fees sigops : Z) (e : CTxMemPoolEntry) : CTxMemPoolEntry :=
  {| entry_data := entry_data e; m_parents := m_parents e; m_children := m_children e; m_modified_fee := m_modified_fee e; lockPoints := lockPoints e;
     m_count_with_descendants := m_count_with_descendants e; nSizeWithDescendants := nSizeWithDescendants e;
     nModFeesWithDescendants := nModFeesWithDescendants e; m_count_with_ancestors := count;
     nSizeWithAncestors := size; nModFeesWithAncestors := fees; nSigOpCostWithAncestors := sigops; idx_randomized := idx_randomized e |}.
Definition set_fees (modified descendants ancestors : Z) (e : CTxMemPoolEntry) : CTxMemPoolEntry :=
  {| entry_data := entry_data e; m_parents := m_parents e; m_children := m_children e; m_modified_fee := modified; lockPoints := lockPoints e;
     m_count_with_descendants := m_count_with_descendants e; nSizeWithDescendants := nSizeWithDescendants e;
     nModFeesWithDescendants := descendants; m_count_with_ancestors := m_count_with_ancestors e;
     nSizeWithAncestors := nSizeWithAncestors e; nModFeesWithAncestors := ancestors;
     nSigOpCostWithAncestors := nSigOpCostWithAncestors e; idx_randomized := idx_randomized e |}.
Definition set_idx (i : nat) (e : CTxMemPoolEntry) : CTxMemPoolEntry :=
  {| entry_data := entry_data e; m_parents := m_parents e; m_children := m_children e; m_modified_fee := m_modified_fee e; lockPoints := lockPoints e;
     m_count_with_descendants := m_count_with_descendants e; nSizeWithDescendants := nSizeWithDescendants e;
     nModFeesWithDescendants := nModFeesWithDescendants e; m_count_with_ancestors := m_count_with_ancestors e;
     nSizeWithAncestors := nSizeWithAncestors e; nModFeesWithAncestors := nModFeesWithAncestors e;
     nSigOpCostWithAncestors := nSigOpCostWithAncestors e; idx_randomized := i |}.
Definition UpdateLockPoints (lp : LockPoints) (e : CTxMemPoolEntry) : CTxMemPoolEntry :=
  {| entry_data := entry_data e; m_parents := m_parents e; m_children := m_children e; m_modified_fee := m_modified_fee e; lockPoints := lp;
     m_count_with_descendants := m_count_with_descendants e; nSizeWithDescendants := nSizeWithDescendants e;
     nModFeesWithDescendants := nModFeesWithDescendants e; m_count_with_ancestors := m_count_with_ancestors e;
     nSizeWithAncestors := nSizeWithAncestors e; nModFeesWithAncestors := nModFeesWithAncestors e;
     nSigOpCostWithAncestors := nSigOpCostWithAncestors e; idx_randomized := idx_randomized e |}.

Section entry.
Context `{MempoolEnv}.

(** [GetTxSize] returns an [int32_t] *)
Definition data_size (d : EntryData) : Z := i32 (GetVirtualTransactionSize (nTxWeight d) (sigOpCost d) nBytesPerSigOp).
Definition GetTxSize (e : CTxMemPoolEntry) : Z := data_size (entry_data e).

(** the constructor; [GetValueOut] may throw *)
Definition CTxMemPoolEntry_new (tx : CTransaction) (fee time entry_height entry_sequence : Z) (spends_coinbase : bool) (sigops_cost : Z)
    (lp : LockPoints) : option CTxMemPoolEntry :=
  value ← GetValueOut tx;
  let d := {| entry_tx := tx; entry_nFee := fee; entry_nValue := value; nTxWeight := GetTransactionWeight tx;
              nUsageSize := RecursiveDynamicUsage tx; entry_nTime := time; entry_sequence := entry_sequence; entryHeight := entry_height;
              spendsCoinbase := spends_coinbase; sigOpCost := sigops_cost |} in
  Some {| entry_data := d; m_parents := ∅; m_children := ∅; m_modified_fee := fee; lockPoints := lp; m_count_with_descendants := 1;
          nSizeWithDescendants := data_size d; nModFeesWithDescendants := fee; m_count_with_ancestors := 1;
          nSizeWithAncestors := data_size d; nModFeesWithAncestors := fee; nSigOpCostWithAncestors := sigops_cost; idx_randomized := 0 |}.

Definition UpdateDescendantState (modifySize modifyFee modifyCount : Z) (e : CTxMemPoolEntry) : option CTxMemPoolEntry :=
  size ← int64 (nSizeWithDescendants e + modifySize);
  if size >? 0 then
    let fees := SaturatingAdd (nModFeesWithDescendants e) modifyFee in
    count ← int64 (m_count_with_descendants e + modifyCount);
    if count >? 0 then Some (set_descendants count size fees e) else None
  else None.

Definition UpdateAncestorState (modifySize modifyFee modifyCount modifySigOps : Z) (e : CTxMemPoolEntry) : option CTxMemPoolEntry :=
  size ← int64 (nSizeWithAncestors e + modifySize);
  if size >? 0 then
    let fees := SaturatingAdd (nModFeesWithAncestors e) modifyFee in
    count ← int64 (m_count_with_ancestors e + modifyCount);
    if count >? 0 then
      sigops ← int64 (nSigOpCostWithAncestors e + modifySigOps);
      if i32 sigops >=? 0 then Some (set_ancestors count size fees sigops e) else None
    else None
  else None.

Definition UpdateModifiedFee (fee_diff : Z) (e : CTxMemPoolEntry) : CTxMemPoolEntry :=
  set_fees (SaturatingAdd (m_modified_fee e) fee_diff) (SaturatingAdd (nModFeesWithDescendants e) fee_diff)
    (SaturatingAdd (nModFeesWithAncestors e) fee_diff) e.

(** ** The orders of the indices *)

Definition IsConsolidationTx (tx : CTransaction) : bool := (zlen (vin tx) >? 5) && (zlen (vout tx) <=? 1).

(** [MempoolEntryFee]: the fee the model asks for *)
Definition MempoolEntryFee (e : CTxMemPoolEntry) (size : Z) : option Z :=
  CalculateFee fee_model size (EntryValue e) (IsConsolidationTx (GetTx e)).

(** The containers call the comparisons below on the fees as they are.  Where the model's fee is undefined behaviour nothing is known of the order; it is
    fixed here as that of the fee 0, and what is said of the order assumes that the fees are defined, as they are for the default model. *)
Definition ordering_fee (e : CTxMemPoolEntry) (size : Z) : Z := default 0 (MempoolEntryFee e size).

Definition CompareTxMemPoolEntryByDescendantScore (a b : CTxMemPoolEntry) : bool :=
  let f1 := Z.max (ordering_fee a (nSizeWithDescendants a)) (ordering_fee a (GetTxSize a)) in
  let f2 := Z.max (ordering_fee b (nSizeWithDescendants b)) (ordering_fee b (GetTxSize b)) in
  if f1 =? f2 then EntryTime a >=? EntryTime b else f1 <? f2.

Definition CompareTxMemPoolEntryByScore (a b : CTxMemPoolEntry) : bool :=
  let f1 := ordering_fee a (GetTxSize a) in
  let f2 := ordering_fee b (GetTxSize b) in
  if f1 =? f2 then blob_ltb (entry_hash b) (entry_hash a) else f1 >? f2.

Definition CompareTxMemPoolEntryByEntryTime (a b : CTxMemPoolEntry) : bool := EntryTime a <? EntryTime b.

(** the comparison is a template, used for entries and for the miner's modified entries: an entry with the size of its ancestors *)
Definition CompareTxMemPoolEntryByAncestorFee (a b : CTxMemPoolEntry * Z) : bool :=
  let f1 := Z.min (ordering_fee a.1 a.2) (ordering_fee a.1 (GetTxSize a.1)) in
  let f2 := Z.min (ordering_fee b.1 b.2) (ordering_fee b.1 (GetTxSize b.1)) in
  if f1 =? f2 then blob_ltb (entry_hash a.1) (entry_hash b.1) else f1 >? f2.

(** [DepthAndScoreComparator] *)
Definition DepthAndScoreComparator (a b : CTxMemPoolEntry) : bool :=
  if m_count_with_ancestors a =? m_count_with_ancestors b then CompareTxMemPoolEntryByScore a b
  else m_count_with_ancestors a <? m_count_with_ancestors b.

(** [CompareTxIterByAncestorCount] *)
Definition CompareTxIterByAncestorCount (a b : CTxMemPoolEntry) : bool :=
  if negb (m_count_with_ancestors a =? m_count_with_ancestors b) then m_count_with_ancestors a <? m_count_with_ancestors b
  else blob_ltb (entry_hash a) (entry_hash b).
End entry.

(** ** Sequences and sets *)

(** a sequence sorted by a strict comparison: nothing comes after what it is less than *)
Definition not_after {A : Type} (lt : A -> A -> bool) (a b : A) : Prop := lt b a = false.
#[export] Instance not_after_dec {A : Type} (lt : A -> A -> bool) (a b : A) : Decision (not_after lt a b).
Proof. unfold not_after. apply _. Defined.
Definition sorted_by {A : Type} (lt : A -> A -> bool) (l : list A) : list A := merge_sort (not_after lt) l.

(** a [std::set] with [CompareIteratorByHash], in its order *)
Definition by_hash (X : gset uint256) : list uint256 := sorted_by blob_ltb (elements X).

(** [for (a : l) body], which may fail *)
Fixpoint for_each {A S : Type} (body : A -> S -> option S) (l : list A) (s : S) : option S :=
  match l with
  | [] => Some s
  | a :: l => s ← body a s; for_each body l s
  end.
