(* ===== verification/TxMempool.v ===== *)
(** * The transaction pool

    src/txmempool.h and src/txmempool.cpp: the entries with their links and the totals over
    their ancestors and descendants, additions through a change set, and removals.

    [mapTx] is a map from ids to entries, an iterator is an id, and an index other than the
    one by id is the sequence of entries sorted by its comparison.  [None] is a failed
    assertion, undefined behaviour, or an iterator to an entry that is gone.  Locks,
    notifications, tracing and logging are left out. *)

From Stdlib Require Import ZArith Lia Bool Floats.SpecFloat.
From stdpp Require Import base numbers list gmap.
From S2P Require Import Prelude Uint256 Binary64 Params FeeModel Serialize Primitives TxVerify Coins MempoolEntry.
Local Open Scope Z_scope.

Record MemPoolLimits : Type := {
  ancestor_count : Z; ancestor_size_vbytes : Z; descendant_count : Z; descendant_size_vbytes : Z }.
Definition DEFAULT_LIMITS : MemPoolLimits :=
  {| ancestor_count := 25; ancestor_size_vbytes := 101 * 1000; descendant_count := 25; descendant_size_vbytes := 101 * 1000 |}.
Definition NoLimits : MemPoolLimits :=
  {| ancestor_count := INT64_MAX; ancestor_size_vbytes := INT64_MAX; descendant_count := INT64_MAX; descendant_size_vbytes := INT64_MAX |}.

Definition DEFAULT_INCREMENTAL_RELAY_FEE : Z := 1000.
Record MemPoolOptions : Type := { max_size_bytes : Z; incremental_relay_feerate : CFeeRate; limits : MemPoolLimits }.

Inductive MemPoolRemovalReason : Type := EXPIRY | SIZELIMIT | REORG | BLOCK | CONFLICT | REPLACED.

Notation txmap := (gmap uint256 CTxMemPoolEntry).

Record CTxMemPool : Type := {
  mapTx : txmap;
  mapNextTx : gmap COutPoint uint256;
  mapDeltas : gmap uint256 Z;
  txns_randomized : list uint256;
  txns_capacity : nat;
  totalTxSize : Z;
  m_total_fee : Z;
  cachedInnerUsage : Z;
  nTransactionsUpdated : Z;
  m_sequence_number : Z;
  m_unbroadcast_txids : gset uint256;
  lastRollingFeeUpdate : Z;
  blockSinceLastRollingFeeBump : bool;
  rollingMinimumFeeRate : double;
  m_opts : MemPoolOptions;
}.

(** the constructor, at the time [now] *)
Definition CTxMemPool_init (opts : MemPoolOptions) (now : Z) : CTxMemPool :=
  {| mapTx := ∅; mapNextTx := ∅; mapDeltas := ∅; txns_randomized := []; txns_capacity := 0; totalTxSize := 0; m_total_fee := 0; cachedInnerUsage := 0;
     nTransactionsUpdated := 0; m_sequence_number := 1; m_unbroadcast_txids := ∅; lastRollingFeeUpdate := now; blockSinceLastRollingFeeBump := false;
     rollingMinimumFeeRate := double_of 0; m_opts := opts |}.

Section setters.
Context (p : CTxMemPool).
(** the entries and the memory their links take *)
Definition set_mapTx (m : txmap) (usage : Z) : CTxMemPool :=
  {| mapTx := m; mapNextTx := mapNextTx p; mapDeltas := mapDeltas p; txns_randomized := txns_randomized p; txns_capacity := txns_capacity p;
     totalTxSize := totalTxSize p; m_total_fee := m_total_fee p; cachedInnerUsage := usage; nTransactionsUpdated := nTransactionsUpdated p;
     m_sequence_number := m_sequence_number p; m_unbroadcast_txids := m_unbroadcast_txids p; lastRollingFeeUpdate := lastRollingFeeUpdate p;
     blockSinceLastRollingFeeBump := blockSinceLastRollingFeeBump p; rollingMinimumFeeRate := rollingMinimumFeeRate p; m_opts := m_opts p |}.
Definition set_entries (m : txmap) : CTxMemPool := set_mapTx m (cachedInnerUsage p).
Definition set_mapNextTx (n : gmap COutPoint uint256) : CTxMemPool :=
  {| mapTx := mapTx p; mapNextTx := n; mapDeltas := mapDeltas p; txns_randomized := txns_randomized p; txns_capacity := txns_capacity p;
     totalTxSize := totalTxSize p; m_total_fee := m_total_fee p; cachedInnerUsage := cachedInnerUsage p; nTransactionsUpdated := nTransactionsUpdated p;
     m_sequence_number := m_sequence_number p; m_unbroadcast_txids := m_unbroadcast_txids p; lastRollingFeeUpdate := lastRollingFeeUpdate p;
     blockSinceLastRollingFeeBump := blockSinceLastRollingFeeBump p; rollingMinimumFeeRate := rollingMinimumFeeRate p; m_opts := m_opts p |}.
Definition set_mapDeltas (d : gmap uint256 Z) : CTxMemPool :=
  {| mapTx := mapTx p; mapNextTx := mapNextTx p; mapDeltas := d; txns_randomized := txns_randomized p; txns_capacity := txns_capacity p;
     totalTxSize := totalTxSize p; m_total_fee := m_total_fee p; cachedInnerUsage := cachedInnerUsage p; nTransactionsUpdated := nTransactionsUpdated p;
     m_sequence_number := m_sequence_number p; m_unbroadcast_txids := m_unbroadcast_txids p; lastRollingFeeUpdate := lastRollingFeeUpdate p;
     blockSinceLastRollingFeeBump := blockSinceLastRollingFeeBump p; rollingMinimumFeeRate := rollingMinimumFeeRate p; m_opts := m_opts p |}.
Definition set_randomized (l : list uint256) (capacity : nat) : CTxMemPool :=
  {| mapTx := mapTx p; mapNextTx := mapNextTx p; mapDeltas := mapDeltas p; txns_randomized := l; txns_capacity := capacity;
     totalTxSize := totalTxSize p; m_total_fee := m_total_fee p; cachedInnerUsage := cachedInnerUsage p; nTransactionsUpdated := nTransactionsUpdated p;
     m_sequence_number := m_sequence_number p; m_unbroadcast_txids := m_unbroadcast_txids p; lastRollingFeeUpdate := lastRollingFeeUpdate p;
     blockSinceLastRollingFeeBump := blockSinceLastRollingFeeBump p; rollingMinimumFeeRate := rollingMinimumFeeRate p; m_opts := m_opts p |}.
Definition set_totals (size fee : Z) : CTxMemPool :=
  {| mapTx := mapTx p; mapNextTx := mapNextTx p; mapDeltas := mapDeltas p; txns_randomized := txns_randomized p; txns_capacity := txns_capacity p;
     totalTxSize := size; m_total_fee := fee; cachedInnerUsage := cachedInnerUsage p; nTransactionsUpdated := nTransactionsUpdated p;
     m_sequence_number := m_sequence_number p; m_unbroadcast_txids := m_unbroadcast_txids p; lastRollingFeeUpdate := lastRollingFeeUpdate p;
     blockSinceLastRollingFeeBump := blockSinceLastRollingFeeBump p; rollingMinimumFeeRate := rollingMinimumFeeRate p; m_opts := m_opts p |}.
(** the counters and the set of unbroadcast transactions *)
Definition set_counters (updated sequence : Z) (unbroadcast : gset uint256) : CTxMemPool :=
  {| mapTx := mapTx p; mapNextTx := mapNextTx p; mapDeltas := mapDeltas p; txns_randomized := txns_randomized p; txns_capacity := txns_capacity p;
     totalTxSize := totalTxSize p; m_total_fee := m_total_fee p; cachedInnerUsage := cachedInnerUsage p; nTransactionsUpdated := updated;
     m_sequence_number := sequence; m_unbroadcast_txids := unbroadcast; lastRollingFeeUpdate := lastRollingFeeUpdate p;
     blockSinceLastRollingFeeBump := blockSinceLastRollingFeeBump p; rollingMinimumFeeRate := rollingMinimumFeeRate p; m_opts := m_opts p |}.
Definition set_rolling (time : Z) (bump : bool) (rate : double) : CTxMemPool :=
  {| mapTx := mapTx p; mapNextTx := mapNextTx p; mapDeltas := mapDeltas p; txns_randomized := txns_randomized p; txns_capacity := txns_capacity p;
     totalTxSize := totalTxSize p; m_total_fee := m_total_fee p; cachedInnerUsage := cachedInnerUsage p; nTransactionsUpdated := nTransactionsUpdated p;
     m_sequence_number := m_sequence_number p; m_unbroadcast_txids := m_unbroadcast_txids p; lastRollingFeeUpdate := time;
     blockSinceLastRollingFeeBump := bump; rollingMinimumFeeRate := rate; m_opts := m_opts p |}.
End setters.

Section mempool.
Context `{MempoolEnv}.

(** [mapTx.modify(h, f)] *)
Definition modify (h : uint256) (f : CTxMemPoolEntry -> option CTxMemPoolEntry) (m : txmap) : option txmap :=
  e ← m !! h; e ← f e; Some (<[h := e]> m).
Definition modify_entry (h : uint256) (f : CTxMemPoolEntry -> option CTxMemPoolEntry) (p : CTxMemPool) : option CTxMemPool :=
  m ← modify h f (mapTx p); Some (set_entries p m).

(** ** Lookups *)

Definition GetIter (p : CTxMemPool) (txid : uint256) : option uint256 := _ ← mapTx p !! txid; Some txid.
Definition exists_txid (p : CTxMemPool) (txid : uint256) : bool := bool_decide (is_Some (mapTx p !! txid)).
Definition GetIterSet (p : CTxMemPool) (hashes : gset uint256) : gset uint256 := filter (fun h => exists_txid p h = true) hashes.
Definition GetIterVec (p : CTxMemPool) (txids : list uint256) : list uint256 :=
  if forallb (exists_txid p) txids then txids else [].
Definition get (p : CTxMemPool) (hash : uint256) : option CTransaction := GetTx <$> mapTx p !! hash.
Definition isSpent (p : CTxMemPool) (outpoint : COutPoint) : bool := bool_decide (is_Some (mapNextTx p !! outpoint)).
Definition GetConflictTx (p : CTxMemPool) (o : COutPoint) : option uint256 := mapNextTx p !! o.
Definition HasNoInputsOf (p : CTxMemPool) (tx : CTransaction) : bool :=
  negb (existsb (fun i => exists_txid p (out_hash (prevout i))) (vin tx)).

(** ** Links *)

Definition UpdateChild (entry child : uint256) (add : bool) (p : CTxMemPool) : option CTxMemPool :=
  e ← mapTx p !! entry;
  if add then
    if decide (child ∈ m_children e) then Some p
    else Some (set_mapTx p (<[entry := set_children ({[child]} ∪ m_children e) e]> (mapTx p)) (u64 (cachedInnerUsage p + link_usage)))
  else
    if decide (child ∈ m_children e)
    then Some (set_mapTx p (<[entry := set_children (m_children e ∖ {[child]}) e]> (mapTx p)) (u64 (cachedInnerUsage p - link_usage)))
    else Some p.

Definition UpdateParent (entry parent : uint256) (add : bool) (p : CTxMemPool) : option CTxMemPool :=
  e ← mapTx p !! entry;
  if add then
    if decide (parent ∈ m_parents e) then Some p
    else Some (set_mapTx p (<[entry := set_parents ({[parent]} ∪ m_parents e) e]> (mapTx p)) (u64 (cachedInnerUsage p + link_usage)))
  else
    if decide (parent ∈ m_parents e)
    then Some (set_mapTx p (<[entry := set_parents (m_parents e ∖ {[parent]}) e]> (mapTx p)) (u64 (cachedInnerUsage p - link_usage)))
    else Some p.

(** ** Ancestors *)

Inductive LimitError : Type :=
| exceeds_descendant_size (txid : uint256)
| too_many_descendants (txid : uint256)
| exceeds_ancestor_size
| too_many_ancestors
| too_many_parents
| package_exceeds_ancestor_count
| package_exceeds_descendant_count
| package_exceeds_ancestor_size
| package_exceeds_descendant_size
| possibly (e : LimitError).

(** the loop over the parents of one ancestor *)
Fixpoint stage_parents (lim : MemPoolLimits) (entry_count : Z) (ancestors : gset uint256) (parents : list uint256) (staged : gset uint256)
    : LimitError + gset uint256 :=
  match parents with
  | [] => inr staged
  | parent :: parents =>
      let staged := if decide (parent ∈ ancestors) then staged else {[parent]} ∪ staged in
      if u64 (Z.of_nat (size staged) + Z.of_nat (size ancestors) + entry_count) >? u64 (ancestor_count lim) then inl too_many_ancestors
      else stage_parents lim entry_count ancestors parents staged
  end.

(** [while (!staged_ancestors.empty())] *)
Fixpoint ancestors_loop (fuel : nat) (m : txmap) (lim : MemPoolLimits) (entry_size entry_count : Z) (staged ancestors : gset uint256)
    (totalSizeWithAncestors : Z) : option (LimitError + gset uint256) :=
  match by_hash staged with
  | [] => Some (inr ancestors)
  | stage :: _ =>
      match fuel with
      | O => None
      | S fuel =>
          e ← m !! stage;
          let ancestors := {[stage]} ∪ ancestors in
          let staged := staged ∖ {[stage]} in
          total ← int64 (totalSizeWithAncestors + GetTxSize e);
          with_entry ← int64 (nSizeWithDescendants e + entry_size);
          if with_entry >? descendant_size_vbytes lim then Some (inl (exceeds_descendant_size stage))
          else if u64 (m_count_with_descendants e + entry_count) >? u64 (descendant_count lim) then Some (inl (too_many_descendants stage))
          else if total >? ancestor_size_vbytes lim then Some (inl exceeds_ancestor_size)
          else
            match stage_parents lim entry_count ancestors (by_hash (m_parents e)) staged with
            | inl err => Some (inl err)
            | inr staged => ancestors_loop fuel m lim entry_size entry_count staged ancestors total
            end
      end
  end.
(** every turn moves one entry of the pool to the ancestors *)
Definition CalculateAncestorsAndCheckLimits (m : txmap) (entry_size entry_count : Z) (staged_ancestors : gset uint256) (lim : MemPoolLimits)
    : option (LimitError + gset uint256) :=
  ancestors_loop (size m) m lim entry_size entry_count staged_ancestors ∅ entry_size.

(** the loop over the inputs, with the limit for [count] transactions *)
Fixpoint stage_inputs (p : CTxMemPool) (limit count : Z) (inputs : list CTxIn) (staged : gset uint256) : LimitError + gset uint256 :=
  match inputs with
  | [] => inr staged
  | i :: inputs =>
      match GetIter p (out_hash (prevout i)) with
      | Some piter =>
          let staged := {[piter]} ∪ staged in
          if u64 (Z.of_nat (size staged) + count) >? u64 limit then inl too_many_parents
          else stage_inputs p limit count inputs staged
      | None => stage_inputs p limit count inputs staged
      end
  end.

Definition CheckPackageLimits (p : CTxMemPool) (package : list CTransaction) (total_vsize : Z) : option (LimitError + unit) :=
  let lim := limits (m_opts p) in
  let pack_count := zlen package in
  if pack_count >? u64 (ancestor_count lim) then Some (inl package_exceeds_ancestor_count)
  else if pack_count >? u64 (descendant_count lim) then Some (inl package_exceeds_descendant_count)
  else if total_vsize >? ancestor_size_vbytes lim then Some (inl package_exceeds_ancestor_size)
  else if total_vsize >? descendant_size_vbytes lim then Some (inl package_exceeds_descendant_size)
  else
    match stage_inputs p (ancestor_count lim) pack_count (flat_map vin package) ∅ with
    | inl err => Some (inl err)
    | inr staged =>
        r ← CalculateAncestorsAndCheckLimits (mapTx p) total_vsize pack_count staged lim;
        Some (match r with inl err => inl (possibly err) | inr _ => inr tt end)
    end.

Definition CalculateMemPoolAncestors (p : CTxMemPool) (entry : CTxMemPoolEntry) (lim : MemPoolLimits) (fSearchForParents : bool)
    : option (LimitError + gset uint256) :=
  match (if fSearchForParents then stage_inputs p (ancestor_count lim) 1 (vin (GetTx entry)) ∅ else inr (m_parents entry)) with
  | inl err => Some (inl err)
  | inr staged => CalculateAncestorsAndCheckLimits (mapTx p) (GetTxSize entry) 1 staged lim
  end.

(** on an error the set is empty, after a message in the log *)
Definition AssumeCalculateMemPoolAncestors (p : CTxMemPool) (entry : CTxMemPoolEntry) (lim : MemPoolLimits) (fSearchForParents : bool)
    : option (gset uint256) :=
  r ← CalculateMemPoolAncestors p entry lim fSearchForParents;
  Some (match r with inl _ => ∅ | inr ancestors => ancestors end).

(** ** Descendants *)

Fixpoint descendants_loop (fuel : nat) (m : txmap) (stage setDescendants : gset uint256) : option (gset uint256) :=
  match by_hash stage with
  | [] => Some setDescendants
  | it :: _ =>
      match fuel with
      | O => None
      | S fuel =>
          let setDescendants := {[it]} ∪ setDescendants in
          let stage := stage ∖ {[it]} in
          e ← m !! it;
          descendants_loop fuel m (stage ∪ (m_children e ∖ setDescendants)) setDescendants
      end
  end.
Definition CalculateDescendants (m : txmap) (entryit : uint256) (setDescendants : gset uint256) : option (gset uint256) :=
  descendants_loop (size m) m (if decide (entryit ∈ setDescendants) then ∅ else {[entryit]}) setDescendants.

(** ** Totals over ancestors and descendants *)

Definition UpdateAncestorsOf (add : bool) (it : uint256) (setAncestors : gset uint256) (p : CTxMemPool) : option CTxMemPool :=
  e ← mapTx p !! it;
  p ← for_each (fun parent => UpdateChild parent it add) (by_hash (m_parents e)) p;
  let updateCount := if add then 1 else -1 in
  let updateSize := updateCount * GetTxSize e in
  updateFee ← int64 (updateCount * m_modified_fee e);
  for_each (fun a => modify_entry a (UpdateDescendantState updateSize updateFee updateCount)) (by_hash setAncestors) p.

(** the sum over a set of entries of an [int64_t] *)
Definition sum_entries (m : txmap) (f : CTxMemPoolEntry -> Z) (l : list uint256) : option Z :=
  for_each (fun h acc => e ← m !! h; int64 (acc + f e)) l 0.

(** [UpdateAncestorState] takes the size as an [int32_t] *)
Definition UpdateEntryForAncestors (it : uint256) (setAncestors : gset uint256) (p : CTxMemPool) : option CTxMemPool :=
  let l := by_hash setAncestors in
  updateSize ← sum_entries (mapTx p) GetTxSize l;
  updateFee ← sum_entries (mapTx p) m_modified_fee l;
  updateSigOpsCost ← sum_entries (mapTx p) GetSigOpCost l;
  modify_entry it (UpdateAncestorState (i32 updateSize) updateFee (zlen l) updateSigOpsCost) p.

Definition UpdateChildrenForRemoval (it : uint256) (p : CTxMemPool) : option CTxMemPool :=
  e ← mapTx p !! it;
  for_each (fun c => UpdateParent c it false) (by_hash (m_children e)) p.

(** the ancestor state of the descendants of an entry that is confirmed *)
Definition update_descendants_for_removal (removeIt : uint256) (p : CTxMemPool) : option CTxMemPool :=
  setDescendants ← CalculateDescendants (mapTx p) removeIt ∅;
  e ← mapTx p !! removeIt;
  modifyFee ← int64 (- m_modified_fee e);
  for_each (fun d => modify_entry d (UpdateAncestorState (- GetTxSize e) modifyFee (-1) (i32 (- GetSigOpCost e))))
    (by_hash (setDescendants ∖ {[removeIt]})) p.

Definition update_ancestors_for_removal (removeIt : uint256) (p : CTxMemPool) : option CTxMemPool :=
  entry ← mapTx p !! removeIt;
  ancestors ← AssumeCalculateMemPoolAncestors p entry NoLimits false;
  UpdateAncestorsOf false removeIt ancestors p.

Definition UpdateForRemoveFromMempool (entriesToRemove : gset uint256) (updateDescendants : bool) (p : CTxMemPool) : option CTxMemPool :=
  let l := by_hash entriesToRemove in
  p ← (if updateDescendants then for_each update_descendants_for_removal l p else Some p);
  p ← for_each update_ancestors_for_removal l p;
  for_each UpdateChildrenForRemoval l p.

(** ** Additions *)

Definition push_back (h : uint256) (p : CTxMemPool) : CTxMemPool :=
  let capacity := if decide (length (txns_randomized p) < txns_capacity p)%nat then txns_capacity p else vector_grow (txns_capacity p) in
  set_randomized p (txns_randomized p ++ [h]) capacity.

(** [mapNextTx.insert] for each input *)
Definition spend_inputs (tx : CTransaction) (h : uint256) (next : gmap COutPoint uint256) : gmap COutPoint uint256 :=
  foldl (fun next i => match next !! prevout i with Some _ => next | None => <[prevout i := h]> next end) next (vin tx).
Definition parent_transactions (tx : CTransaction) : gset uint256 := list_to_set (map (fun i => out_hash (prevout i)) (vin tx)).

(** [addNewTransaction(newit, setAncestors)]: [newit] is in [mapTx] *)
Definition addNewTransaction (newit : uint256) (setAncestors : gset uint256) (p : CTxMemPool) : option CTxMemPool :=
  entry ← mapTx p !! newit;
  let tx := GetTx entry in
  let p := set_mapTx p (mapTx p) (u64 (cachedInnerUsage p + nUsageSize (entry_data entry))) in
  let p := set_mapNextTx p (spend_inputs tx newit (mapNextTx p)) in
  p ← for_each (fun pit => UpdateParent newit pit true) (by_hash (GetIterSet p (parent_transactions tx))) p;
  p ← UpdateAncestorsOf true newit setAncestors p;
  p ← UpdateEntryForAncestors newit setAncestors p;
  let p := set_counters p (u32 (nTransactionsUpdated p + 1)) (m_sequence_number p) (m_unbroadcast_txids p) in
  fee ← int64 (m_total_fee p + EntryFee entry);
  let p := set_totals p (u64 (totalTxSize p + GetTxSize entry)) fee in
  let p := push_back newit p in
  modify_entry newit (fun e => Some (set_idx (length (txns_randomized p) - 1) e)) p.

(** [mapTx.insert]: [None] where an entry with the id or the witness id is there, which the caller assumes away *)
Definition insert_entry (e : CTxMemPoolEntry) (p : CTxMemPool) : option CTxMemPool :=
  if exists_txid p (entry_hash e) || existsb (fun kv => bool_decide (ComputeWitnessHash (GetTx kv.2) = ComputeWitnessHash (GetTx e))) (map_to_list (mapTx p))
  then None
  else Some (set_entries p (<[entry_hash e := e]> (mapTx p))).

(** ** Removals *)

Definition RemoveUnbroadcastTx (txid : uint256) (p : CTxMemPool) : CTxMemPool :=
  set_counters p (nTransactionsUpdated p) (m_sequence_number p) (m_unbroadcast_txids p ∖ {[txid]}).
Definition AddUnbroadcastTx (txid : uint256) (p : CTxMemPool) : CTxMemPool :=
  if exists_txid p txid then set_counters p (nTransactionsUpdated p) (m_sequence_number p) ({[txid]} ∪ m_unbroadcast_txids p) else p.

(** the entry is replaced by the last one of [txns_randomized] *)
Definition remove_randomized (e : CTxMemPoolEntry) (p : CTxMemPool) : option CTxMemPool :=
  let l := txns_randomized p in
  if decide (1 < length l)%nat then
    last_txid ← last l;
    p ← modify_entry last_txid (fun b => Some (set_idx (idx_randomized e) b)) p;
    if decide (idx_randomized e < length l)%nat then
      let l := take (length l - 1) (<[idx_randomized e := last_txid]> l) in
      Some (set_randomized p l (if decide (length l * 2 < txns_capacity p)%nat then vector_shrink (length l) (txns_capacity p) else txns_capacity p))
    else None
  else Some (set_randomized p [] (txns_capacity p)).

Definition removeUnchecked (it : uint256) (reason : MemPoolRemovalReason) (p : CTxMemPool) : option CTxMemPool :=
  e ← mapTx p !! it;
  let p := set_counters p (nTransactionsUpdated p) (u64 (m_sequence_number p + 1)) (m_unbroadcast_txids p) in
  let p := set_mapNextTx p (foldl (fun next i => delete (prevout i) next) (mapNextTx p) (vin (GetTx e))) in
  let p := RemoveUnbroadcastTx (entry_hash e) p in
  p ← remove_randomized e p;
  fee ← int64 (m_total_fee p - EntryFee e);
  let p := set_totals p (u64 (totalTxSize p - GetTxSize e)) fee in
  let usage := u64 (cachedInnerUsage p - nUsageSize (entry_data e)) in
  let usage := u64 (usage - link_usage * (Z.of_nat (size (m_parents e)) + Z.of_nat (size (m_children e)))) in
  let p := set_mapTx p (delete it (mapTx p)) usage in
  Some (set_counters p (u32 (nTransactionsUpdated p + 1)) (m_sequence_number p) (m_unbroadcast_txids p)).

Definition RemoveStaged (stage : gset uint256) (updateDescendants : bool) (reason : MemPoolRemovalReason) (p : CTxMemPool) : option CTxMemPool :=
  p ← UpdateForRemoveFromMempool stage updateDescendants p;
  for_each (fun it => removeUnchecked it reason) (by_hash stage) p.

(** the descendants of each entry of a set *)
Definition all_descendants (m : txmap) (txToRemove : gset uint256) : option (gset uint256) :=
  for_each (CalculateDescendants m) (by_hash txToRemove) ∅.

(** the entries that spend an output of a transaction that is not in the pool; the loop variable is 32 bits *)
Definition spenders (p : CTxMemPool) (origTx : CTransaction) : option (gset uint256) :=
  for_each (fun i acc => match mapNextTx p !! {| out_hash := ComputeHash origTx; out_n := Z.of_nat i |} with
                         | Some next => if exists_txid p next then Some ({[next]} ∪ acc) else None
                         | None => Some acc
                         end) (seq 0 (length (vout origTx))) ∅.

Definition removeRecursive (origTx : CTransaction) (reason : MemPoolRemovalReason) (p : CTxMemPool) : option CTxMemPool :=
  let h := ComputeHash origTx in
  txToRemove ← (if exists_txid p h then Some {[h]} else spenders p origTx);
  setAllRemoves ← all_descendants (mapTx p) txToRemove;
  RemoveStaged setAllRemoves false reason p.

Definition ClearPrioritisation (hash : uint256) (p : CTxMemPool) : CTxMemPool := set_mapDeltas p (delete hash (mapDeltas p)).

(** the conflict's transaction is an entry's, and not [tx]: both are assumed *)
Definition removeConflicts (tx : CTransaction) (p : CTxMemPool) : option CTxMemPool :=
  for_each (fun txin p =>
    match mapNextTx p !! prevout txin with
    | Some conflict =>
        if bool_decide (conflict = ComputeHash tx) then Some p
        else
          e ← mapTx p !! conflict;
          let p := ClearPrioritisation conflict p in
          removeRecursive (GetTx e) CONFLICT p
    | None => Some p
    end) (vin tx) p.

Definition removeForBlock_tx (tx : CTransaction) (p : CTxMemPool) : option CTxMemPool :=
  let h := ComputeHash tx in
  p ← (if exists_txid p h then RemoveStaged {[h]} true BLOCK p else Some p);
  p ← removeConflicts tx p;
  Some (ClearPrioritisation h p).
Definition removeForBlock (vtx : list CTransaction) (now : Z) (p : CTxMemPool) : option CTxMemPool :=
  p ← for_each removeForBlock_tx vtx p;
  Some (set_rolling p now true (rollingMinimumFeeRate p)).

(** ** Reorganisations *)

(** [Contains] of the active chain *)
Definition TestLockPointValidity (contains : nat -> bool) (lp : LockPoints) : bool :=
  match maxInputBlock lp with Some b => contains b | None => true end.

(** [check_final_and_mature] may update the lock points of the entry it looks at *)
Definition removeForReorg (contains : nat -> bool) (check_final_and_mature : CTxMemPoolEntry -> bool * LockPoints) (p : CTxMemPool) : option CTxMemPool :=
  let txToRemove := dom (filter (fun kv => (check_final_and_mature kv.2).1 = true) (mapTx p)) in
  let p := set_entries p ((fun e => UpdateLockPoints (check_final_and_mature e).2 e) <$> mapTx p) in
  setAllRemoves ← all_descendants (mapTx p) txToRemove;
  p ← RemoveStaged setAllRemoves false REORG p;
  if forallb (fun kv => TestLockPointValidity contains (lockPoints kv.2)) (map_to_list (mapTx p)) then Some p else None.

(** the descendants of an entry that comes back from a block, with those already found for its children *)
Fixpoint update_descendants_loop (fuel : nat) (m : txmap) (cached : gmap uint256 (gset uint256)) (stageEntries descendants : gset uint256)
    : option (gset uint256) :=
  match by_hash stageEntries with
  | [] => Some descendants
  | descendant :: _ =>
      match fuel with
      | O => None
      | S fuel =>
          let descendants := {[descendant]} ∪ descendants in
          let stageEntries := stageEntries ∖ {[descendant]} in
          e ← m !! descendant;
          let '(stageEntries, descendants) :=
            foldl (fun '(stage, descendants) child =>
              match cached !! child with
              | Some found => (stage, descendants ∪ found)
              | None => (if decide (child ∈ descendants) then stage else {[child]} ∪ stage, descendants)
              end) (stageEntries, descendants) (by_hash (m_children e)) in
          update_descendants_loop fuel m cached stageEntries descendants
      end
  end.

Record reorg_state : Type := {
  rs_pool : CTxMemPool; cachedDescendants : gmap uint256 (gset uint256); descendants_to_remove : gset uint256;
  modifySize : Z; modifyFee : Z; modifyCount : Z }.

(** one descendant: the ancestor state it gets from the entry, and whether it is over a limit *)
Definition update_descendant (updateIt : uint256) (setExclude : gset uint256) (descendant : uint256) (s : reorg_state) : option reorg_state :=
  let p := rs_pool s in
  d ← mapTx p !! descendant;
  if decide (entry_hash d ∈ setExclude) then Some s
  else
    u ← mapTx p !! updateIt;
    size ← (if decide (sfits 32 (modifySize s + GetTxSize d)) then Some (modifySize s + GetTxSize d) else None);
    fee ← int64 (modifyFee s + m_modified_fee d);
    p ← modify_entry descendant (UpdateAncestorState (GetTxSize u) (m_modified_fee u) 1 (GetSigOpCost u)) p;
    d ← mapTx p !! descendant;
    let lim := limits (m_opts p) in
    let over := (u64 (m_count_with_ancestors d) >? u64 (ancestor_count lim)) || (nSizeWithAncestors d >? ancestor_size_vbytes lim) in
    Some {| rs_pool := p;
            cachedDescendants := <[updateIt := {[descendant]} ∪ default ∅ (cachedDescendants s !! updateIt)]> (cachedDescendants s);
            descendants_to_remove := if over then {[entry_hash d]} ∪ descendants_to_remove s else descendants_to_remove s;
            modifySize := size; modifyFee := fee; modifyCount := modifyCount s + 1 |}.

Definition UpdateForDescendants (updateIt : uint256) (setExclude : gset uint256) (p : CTxMemPool) (cached : gmap uint256 (gset uint256))
    (to_remove : gset uint256) : option (CTxMemPool * gmap uint256 (gset uint256) * gset uint256) :=
  e ← mapTx p !! updateIt;
  descendants ← update_descendants_loop (size (mapTx p)) (mapTx p) cached (m_children e) ∅;
  s ← for_each (update_descendant updateIt setExclude) (by_hash descendants)
        {| rs_pool := p; cachedDescendants := cached; descendants_to_remove := to_remove; modifySize := 0; modifyFee := 0; modifyCount := 0 |};
  p ← modify_entry updateIt (UpdateDescendantState (modifySize s) (modifyFee s) (modifyCount s)) (rs_pool s);
  Some (p, cachedDescendants s, descendants_to_remove s).

(** the entries that spend an output of [hash], in the order of [mapNextTx] from its output 0 *)
Definition next_of (p : CTxMemPool) (hash : uint256) : list (COutPoint * uint256) :=
  sorted_by (fun a b => COutPoint_lt a.1 b.1) (filter (fun kv => out_hash kv.1 = hash) (map_to_list (mapNextTx p))).

(** each child is linked once; those that are in the block are linked already *)
Definition link_children (hash : uint256) (setAlreadyIncluded : gset uint256) (p : CTxMemPool) : option CTxMemPool :=
  r ← for_each (fun kv s =>
        let '(p, visited) := (s : CTxMemPool * gset uint256) in
        let childHash := kv.2 in
        if exists_txid p childHash then
          if decide (childHash ∈ visited) then Some (p, visited)
          else
            let visited := {[childHash]} ∪ visited in
            if decide (childHash ∈ setAlreadyIncluded) then Some (p, visited)
            else
              p ← UpdateChild hash childHash true p;
              p ← UpdateParent childHash hash true p;
              Some (p, visited)
        else None) (next_of p hash) (p, (∅ : gset uint256));
  Some r.1.

Definition UpdateTransactionsFromBlock (vHashesToUpdate : list uint256) (p : CTxMemPool) : option CTxMemPool :=
  let setAlreadyIncluded : gset uint256 := list_to_set vHashesToUpdate in
  r ← for_each (fun hash s =>
        let '(p, cached, to_remove) := (s : CTxMemPool * gmap uint256 (gset uint256) * gset uint256) in
        if exists_txid p hash then
          p ← link_children hash setAlreadyIncluded p;
          UpdateForDescendants hash setAlreadyIncluded p cached to_remove
        else Some s) (rev vHashesToUpdate) (p, ∅, ∅);
  let '(p, _, to_remove) := r in
  for_each (fun txid p => match mapTx p !! txid with Some e => removeRecursive (GetTx e) SIZELIMIT p | None => Some p end) (by_hash to_remove) p.

(** ** Prioritisation *)

Definition PrioritiseTransaction (hash : uint256) (nFeeDelta : Z) (p : CTxMemPool) : option CTxMemPool :=
  let delta := SaturatingAdd (default 0 (mapDeltas p !! hash)) nFeeDelta in
  let p := set_mapDeltas p (<[hash := delta]> (mapDeltas p)) in
  p ← (match mapTx p !! hash with
       | Some _ =>
           p ← modify_entry hash (fun e => Some (UpdateModifiedFee nFeeDelta e)) p;
           e ← mapTx p !! hash;
           ancestors ← AssumeCalculateMemPoolAncestors p e NoLimits false;
           p ← for_each (fun a => modify_entry a (UpdateDescendantState 0 nFeeDelta 0)) (by_hash ancestors) p;
           setDescendants ← CalculateDescendants (mapTx p) hash ∅;
           p ← for_each (fun d => modify_entry d (UpdateAncestorState 0 nFeeDelta 0 0)) (by_hash (setDescendants ∖ {[hash]})) p;
           Some (set_counters p (u32 (nTransactionsUpdated p + 1)) (m_sequence_number p) (m_unbroadcast_txids p))
       | None => Some p
       end);
  Some (if delta =? 0 then set_mapDeltas p (delete hash (mapDeltas p)) else p).

Definition ApplyDelta (p : CTxMemPool) (hash : uint256) (nFeeDelta : Z) : option Z :=
  match mapDeltas p !! hash with Some delta => int64 (nFeeDelta + delta) | None => Some nFeeDelta end.

(** ** Expiry and the size limit *)

(** the entries of the index by time, before the first one that is not older *)
Fixpoint take_while {A} (f : A -> bool) (l : list A) : list A :=
  match l with a :: l => if f a then a :: take_while f l else [] | [] => [] end.
Definition sorted_entries (lt : CTxMemPoolEntry -> CTxMemPoolEntry -> bool) (m : txmap) : list (uint256 * CTxMemPoolEntry) :=
  sorted_by (fun a b => lt a.2 b.2) (map_to_list m).

Definition Expire (time : Z) (p : CTxMemPool) : option (Z * CTxMemPool) :=
  let toremove := list_to_set (map fst (take_while (fun kv => EntryTime kv.2 <? time) (sorted_entries CompareTxMemPoolEntryByEntryTime (mapTx p)))) in
  stage ← all_descendants (mapTx p) toremove;
  p ← RemoveStaged stage false EXPIRY p;
  Some (Z.of_nat (size stage), p).

Definition DynamicMemoryUsage (p : CTxMemPool) : Z :=
  u64 (mapTx_node_usage * Z.of_nat (size (mapTx p)) + mapNextTx_node_usage * Z.of_nat (size (mapNextTx p)) +
       mapDeltas_node_usage * Z.of_nat (size (mapDeltas p)) + vector_usage (txns_capacity p) + cachedInnerUsage p).

Definition ROLLING_FEE_HALFLIFE : Z := 60 * 60 * 12.

(** [GetMinFee(sizelimit)] at the time [now] *)
Definition GetMinFee (sizelimit now : Z) (p : CTxMemPool) : option (CFeeRate * CTxMemPool) :=
  let rate := rollingMinimumFeeRate p in
  if negb (blockSinceLastRollingFeeBump p) || SFeqb rate (double_of 0) then r ← double_llround rate; Some (r, p)
  else
    let incremental := incremental_relay_feerate (m_opts p) in
    if now >? lastRollingFeeUpdate p + 10 then
      let usage := DynamicMemoryUsage p in
      let halflife := double_of ROLLING_FEE_HALFLIFE in
      let halflife := if usage <? sizelimit / 4 then ddiv halflife (double_of 4)
                      else if usage <? sizelimit / 2 then ddiv halflife (double_of 2) else halflife in
      let rate := ddiv rate (pow2 (ddiv (double_of (now - lastRollingFeeUpdate p)) halflife)) in
      if SFltb rate (ddiv (double_of incremental) (double_of 2))
      then Some (0, set_rolling p now (blockSinceLastRollingFeeBump p) (double_of 0))
      else r ← double_llround rate; Some (Z.max r incremental, set_rolling p now (blockSinceLastRollingFeeBump p) rate)
    else r ← double_llround rate; Some (Z.max r incremental, p).

Definition trackPackageRemoved (rate : CFeeRate) (p : CTxMemPool) : CTxMemPool :=
  if SFltb (rollingMinimumFeeRate p) (double_of rate) then set_rolling p (lastRollingFeeUpdate p) false (double_of rate) else p.

(** the outpoints a removed transaction spent whose transaction is not in the pool *)
Definition no_spends (p : CTxMemPool) (txn : list CTransaction) : list COutPoint :=
  filter (fun o => exists_txid p (out_hash o) = false) (map prevout (flat_map vin txn)).

(** [while (!mapTx.empty() && DynamicMemoryUsage() > sizelimit)]: the first of the index by descendant score goes,
    with its descendants.  Entries of the same score and time come in an order that the contents do not determine. *)
Fixpoint TrimToSize_loop (fuel : nat) (sizelimit : Z) (pvNoSpendsRemaining : list COutPoint) (p : CTxMemPool) : option (list COutPoint * CTxMemPool) :=
  match sorted_entries CompareTxMemPoolEntryByDescendantScore (mapTx p) with
  | [] => Some (pvNoSpendsRemaining, p)
  | (it, e) :: _ =>
      if DynamicMemoryUsage p >? sizelimit then
        match fuel with
        | O => None
        | S fuel =>
            removed ← CFeeRate_of (nModFeesWithDescendants e) (u32 (nSizeWithDescendants e));
            removed ← int64 (removed + incremental_relay_feerate (m_opts p));
            let p := trackPackageRemoved removed p in
            stage ← CalculateDescendants (mapTx p) it ∅;
            txn ← mapM (fun h => GetTx <$> mapTx p !! h) (by_hash stage);
            p ← RemoveStaged stage false SIZELIMIT p;
            TrimToSize_loop fuel sizelimit (pvNoSpendsRemaining ++ no_spends p txn) p
        end
      else Some (pvNoSpendsRemaining, p)
  end.
Definition TrimToSize (sizelimit : Z) (p : CTxMemPool) : option (list COutPoint * CTxMemPool) := TrimToSize_loop (size (mapTx p)) sizelimit [] p.

(** ** Queries *)

Definition GetSortedDepthAndScore (p : CTxMemPool) : list uint256 := map fst (sorted_entries DepthAndScoreComparator (mapTx p)).

Definition CompareDepthAndScore (p : CTxMemPool) (hasha hashb : uint256) : bool :=
  match mapTx p !! hashb with
  | None => false
  | Some b => match mapTx p !! hasha with None => true | Some a => DepthAndScoreComparator a b end
  end.

(** the candidates are a stack; a candidate is counted once *)
Fixpoint descendant_maximum_loop (fuel : nat) (m : txmap) (candidates : list uint256) (counted : gset uint256) (maximum : Z) : option Z :=
  match candidates with
  | [] => Some maximum
  | candidate :: candidates =>
      match fuel with
      | O => None
      | S fuel =>
          if decide (candidate ∈ counted) then descendant_maximum_loop fuel m candidates counted maximum
          else
            e ← m !! candidate;
            let counted := {[candidate]} ∪ counted in
            if decide (m_parents e = ∅)
            then descendant_maximum_loop fuel m candidates counted (Z.max maximum (u64 (m_count_with_descendants e)))
            else descendant_maximum_loop fuel m (rev (by_hash (m_parents e)) ++ candidates) counted maximum
      end
  end.
(** a turn for the entry and one for each link *)
Definition CalculateDescendantMaximum (p : CTxMemPool) (entry : uint256) : option Z :=
  let m := mapTx p in
  descendant_maximum_loop (1 + map_fold (fun _ e n => size (m_parents e) + n)%nat 0%nat m) m [entry] ∅ 0.

(** counts of ancestors and descendants, size and fees with ancestors *)
Definition GetTransactionAncestry (p : CTxMemPool) (txid : uint256) : option (Z * Z * option (Z * Z)) :=
  match mapTx p !! txid with
  | None => Some (0, 0, None)
  | Some e => descendants ← CalculateDescendantMaximum p txid;
              Some (u64 (m_count_with_ancestors e), descendants, Some (u64 (nSizeWithAncestors e), nModFeesWithAncestors e))
  end.

(** the reasons a conflict is not in a cluster of two *)
Inductive TopologyError : Type :=
| has_ancestors (txid : uint256) | has_descendants (txid : uint256) | has_both (txid : uint256)
| not_only_parent (txid child : uint256) | not_only_child (txid parent : uint256).

Definition conflict_topology (m : txmap) (conflict : uint256) : option (option TopologyError) :=
  e ← m !! conflict;
  let ancestor_count := u64 (m_count_with_ancestors e) in
  let descendant_count := u64 (m_count_with_descendants e) in
  let has_ancestor := ancestor_count >? 1 in
  let has_descendant := descendant_count >? 1 in
  if ancestor_count >? 2 then Some (Some (has_ancestors conflict))
  else if descendant_count >? 2 then Some (Some (has_descendants conflict))
  else if has_ancestor && has_descendant then Some (Some (has_both conflict))
  else if has_descendant then
    our_child ← head (by_hash (m_children e));
    c ← m !! our_child;
    Some (if u64 (m_count_with_ancestors c) >? 2 then Some (not_only_parent conflict our_child) else None)
  else if has_ancestor then
    our_parent ← head (by_hash (m_parents e));
    q ← m !! our_parent;
    Some (if u64 (m_count_with_descendants q) >? 2 then Some (not_only_child conflict our_parent) else None)
  else Some None.
Fixpoint CheckConflictTopology (m : txmap) (direct_conflicts : list uint256) : option (option TopologyError) :=
  match direct_conflicts with
  | [] => Some None
  | c :: cs => r ← conflict_topology m c; match r with Some err => Some (Some err) | None => CheckConflictTopology m cs end
  end.

(** the cluster is a vector that grows while it is walked; [visited] is its set *)
Fixpoint gather_loop (fuel : nat) (m : txmap) (i : nat) (clustered : list uint256) (visited : gset uint256) : option (list uint256) :=
  match clustered !! i with
  | None => Some clustered
  | Some it =>
      match fuel with
      | O => None
      | S fuel =>
          if decide (500 < length clustered)%nat then Some []
          else
            e ← m !! it;
            let '(clustered, visited) :=
              foldl (fun '(clustered, visited) h => if decide (h ∈ visited) then (clustered, visited) else (clustered ++ [h], {[h]} ∪ visited))
                (clustered, visited) (by_hash (m_parents e) ++ by_hash (m_children e)) in
            gather_loop fuel m (S i) clustered visited
      end
  end.
Definition GatherClusters (p : CTxMemPool) (txids : list uint256) : option (list uint256) :=
  let clustered := GetIterVec p txids in
  gather_loop (length clustered + size (mapTx p)) (mapTx p) 0 clustered (list_to_set clustered).

(** ** Change sets *)

Record ChangeSet : Type := { m_entry_vec : list CTxMemPoolEntry; m_ancestors : gmap uint256 (gset uint256); m_to_remove : gset uint256 }.
Definition GetChangeSet : ChangeSet := {| m_entry_vec := []; m_ancestors := ∅; m_to_remove := ∅ |}.

Definition StageAddition (p : CTxMemPool) (tx : CTransaction) (fee time entry_height entry_sequence : Z) (spends_coinbase : bool) (sigops_cost : Z)
    (lp : LockPoints) (c : ChangeSet) : option ChangeSet :=
  e ← CTxMemPoolEntry_new tx fee time entry_height entry_sequence spends_coinbase sigops_cost lp;
  delta ← ApplyDelta p (ComputeHash tx) 0;
  let e := if delta =? 0 then e else UpdateModifiedFee delta e in
  Some {| m_entry_vec := m_entry_vec c ++ [e]; m_ancestors := m_ancestors c; m_to_remove := m_to_remove c |}.
Definition StageRemoval (it : uint256) (c : ChangeSet) : ChangeSet :=
  {| m_entry_vec := m_entry_vec c; m_ancestors := m_ancestors c; m_to_remove := {[it]} ∪ m_to_remove c |}.

(** [ChangeSet::CalculateMemPoolAncestors], which keeps what it finds *)
Definition changeset_ancestors (p : CTxMemPool) (e : CTxMemPoolEntry) (lim : MemPoolLimits) (c : ChangeSet)
    : option ((LimitError + gset uint256) * ChangeSet) :=
  match m_ancestors c !! entry_hash e with
  | Some ancestors => Some (inr ancestors, c)
  | None =>
      r ← CalculateMemPoolAncestors p e lim true;
      Some (r, match r with
               | inr ancestors => {| m_entry_vec := m_entry_vec c; m_ancestors := <[entry_hash e := ancestors]> (m_ancestors c); m_to_remove := m_to_remove c |}
               | inl _ => c
               end)
  end.

(** [addNewTransaction(it)] *)
Definition add_with_ancestors (it : uint256) (p : CTxMemPool) : option CTxMemPool :=
  e ← mapTx p !! it;
  ancestors ← AssumeCalculateMemPoolAncestors p e NoLimits true;
  addNewTransaction it ancestors p.

(** the ancestors found for the first entry may have been kept; those of the others are found again *)
Definition apply_first (c : ChangeSet) (e : CTxMemPoolEntry) (p : CTxMemPool) : option CTxMemPool :=
  r ← changeset_ancestors p e NoLimits c;
  match r.1 with
  | inl _ => None
  | inr ancestors => p ← insert_entry e p; addNewTransaction (entry_hash e) ancestors p
  end.
Definition apply_next (e : CTxMemPoolEntry) (p : CTxMemPool) : option CTxMemPool := p ← insert_entry e p; add_with_ancestors (entry_hash e) p.
Definition Apply (c : ChangeSet) (p : CTxMemPool) : option CTxMemPool :=
  p ← RemoveStaged (m_to_remove c) false REPLACED p;
  match m_entry_vec c with
  | [] => Some p
  | e :: es => p ← apply_first c e p; for_each apply_next es p
  end.
End mempool.

(** ** [CCoinsViewMemPool]: the coins of the pool over those of a view *)

Definition MEMPOOL_HEIGHT : Z := 0x7FFFFFFF.

Section coins_view.
Context {V : Type} `{!CCoinsView V}.
Record CCoinsViewMemPool : Type := { view_base : V; mempool : CTxMemPool; m_temp_added : gmap COutPoint Coin; m_non_base_coins : gset COutPoint }.

Definition mempool_GetCoin (v : CCoinsViewMemPool) (outpoint : COutPoint) : option Coin * CCoinsViewMemPool :=
  match m_temp_added v !! outpoint with
  | Some coin => (Some coin, v)
  | None =>
      match get (mempool v) (out_hash outpoint) with
      | Some tx =>
          match vout tx !! Z.to_nat (out_n outpoint) with
          | Some out => (Some (Coin_of out MEMPOOL_HEIGHT false),
                         {| view_base := view_base v; mempool := mempool v; m_temp_added := m_temp_added v; m_non_base_coins := {[outpoint]} ∪ m_non_base_coins v |})
          | None => (None, v)
          end
      | None =>
          let '(coin, b) := GetCoin (view_base v) outpoint in
          (coin, {| view_base := b; mempool := mempool v; m_temp_added := m_temp_added v; m_non_base_coins := m_non_base_coins v |})
      end
  end.

(** [emplace] keeps what is there *)
Definition PackageAddTransaction (tx : CTransaction) (v : CCoinsViewMemPool) : CCoinsViewMemPool :=
  let outs := imap (fun n out => ({| out_hash := ComputeHash tx; out_n := Z.of_nat n |}, Coin_of out MEMPOOL_HEIGHT false)) (vout tx) in
  {| view_base := view_base v; mempool := mempool v;
     m_temp_added := m_temp_added v ∪ list_to_map outs; m_non_base_coins := m_non_base_coins v ∪ list_to_set (map fst outs) |}.
Definition view_Reset (v : CCoinsViewMemPool) : CCoinsViewMemPool :=
  {| view_base := view_base v; mempool := mempool v; m_temp_added := ∅; m_non_base_coins := ∅ |}.
End coins_view.
