(* ===== verification/PoolGraph.v ===== *)
(** * The graph of the transaction pool

    The relation between entries and their parents, the sets of ancestors and descendants,
    sums over sets of entries, and what the walks of [TxMempool] compute: for every pool
    whose links stay inside it, exactly these sets, within the fuel they are given. *)

From Stdlib Require Import ZArith Lia Bool.
From stdpp Require Import base numbers list gmap fin_sets sorting relations.
From S2P Require Import Prelude Uint256 Params FeeModel Serialize Primitives TxVerify Coins MempoolEntry TxMempool.
Local Open Scope Z_scope.

Create HintDb pool.

(** ** Sums over sets *)

Fixpoint zsum {A : Type} (f : A -> Z) (l : list A) : Z := match l with [] => 0 | a :: l => f a + zsum f l end.
Definition set_sum (f : uint256 -> Z) (X : gset uint256) : Z := zsum f (elements X).

Lemma zsum_perm {A} (f : A -> Z) l k : l ≡ₚ k -> zsum f l = zsum f k.
Proof. induction 1; cbn; lia. Qed.

Lemma zsum_app {A} (f : A -> Z) l k : zsum f (l ++ k) = zsum f l + zsum f k.
Proof. induction l; cbn; lia. Qed.

Lemma zsum_ext {A} (f g : A -> Z) l : (forall a, a ∈ l -> f a = g a) -> zsum f l = zsum g l.
Proof.
  induction l as [|a l IH]; intros H; cbn; [done|]. rewrite H, IH; [done|intros; apply H; right; assumption|left].
Qed.

Lemma zsum_nonneg {A} (f : A -> Z) l : (forall a, a ∈ l -> 0 <= f a) -> 0 <= zsum f l.
Proof.
  induction l as [|a l IH]; intros H; cbn; [lia|]. assert (0 <= f a) by (apply H; left). assert (0 <= zsum f l) by (apply IH; intros; apply H; right; assumption). lia.
Qed.

Lemma zsum_abs {A} (f : A -> Z) l : Z.abs (zsum f l) <= zsum (fun a => Z.abs (f a)) l.
Proof. induction l; cbn; lia. Qed.

Lemma zsum_add {A} (f g : A -> Z) l : zsum (fun a => f a + g a) l = zsum f l + zsum g l.
Proof. induction l; cbn; lia. Qed.

Lemma zsum_const {A} (c : Z) (l : list A) : zsum (fun _ => c) l = c * zlen l.
Proof. induction l as [|a l IH]; cbn [zsum length]; lia. Qed.

Lemma by_hash_perm X : by_hash X ≡ₚ elements X.
Proof. apply merge_sort_Permutation. Qed.

Lemma elem_of_by_hash x X : x ∈ by_hash X <-> x ∈ X.
Proof. rewrite by_hash_perm. apply elem_of_elements. Qed.

Lemma by_hash_NoDup X : NoDup (by_hash X).
Proof. rewrite by_hash_perm. apply NoDup_elements. Qed.

Lemma by_hash_length X : length (by_hash X) = size X.
Proof. rewrite by_hash_perm. done. Qed.

Lemma by_hash_nil X : by_hash X = [] -> X = ∅.
Proof. intros E. apply set_eq. intros x. rewrite <- elem_of_by_hash, E. set_solver. Qed.

Lemma by_hash_empty : by_hash ∅ = [].
Proof. reflexivity. Qed.

Lemma zsum_by_hash f X : zsum f (by_hash X) = set_sum f X.
Proof. apply zsum_perm, by_hash_perm. Qed.

Lemma set_sum_empty f : set_sum f ∅ = 0.
Proof. unfold set_sum. rewrite elements_empty. done. Qed.

Lemma set_sum_insert f x X : x ∉ X -> set_sum f ({[x]} ∪ X) = f x + set_sum f X.
Proof. intros H. unfold set_sum. rewrite (zsum_perm _ _ _ (elements_union_singleton X x H)). done. Qed.

Lemma set_sum_singleton f x : set_sum f {[x]} = f x.
Proof. unfold set_sum. rewrite elements_singleton. cbn. lia. Qed.

Lemma set_sum_ext f g X : (forall x, x ∈ X -> f x = g x) -> set_sum f X = set_sum g X.
Proof. intros H. apply zsum_ext. intros a Ha. apply H, elem_of_elements, Ha. Qed.

Lemma set_sum_union f X Y : X ## Y -> set_sum f (X ∪ Y) = set_sum f X + set_sum f Y.
Proof. intros H. unfold set_sum. rewrite (zsum_perm _ _ _ (elements_disj_union X Y H)). apply zsum_app. Qed.

Lemma set_sum_nonneg f X : (forall x, x ∈ X -> 0 <= f x) -> 0 <= set_sum f X.
Proof. intros H. apply zsum_nonneg. intros a Ha. apply H, elem_of_elements, Ha. Qed.

(** a part and the rest *)
Lemma set_sum_split f X Y : Y ⊆ X -> set_sum f X = set_sum f Y + set_sum f (X ∖ Y).
Proof. intros H. rewrite <- set_sum_union by set_solver. f_equal. apply union_difference_L, H. Qed.

Lemma set_sum_remove f x X : x ∈ X -> set_sum f X = f x + set_sum f (X ∖ {[x]}).
Proof. intros H. rewrite (set_sum_split f X {[x]}) by set_solver. rewrite set_sum_singleton. done. Qed.

Lemma set_sum_mono f X Y : X ⊆ Y -> (forall y, y ∈ Y -> 0 <= f y) -> set_sum f X <= set_sum f Y.
Proof.
  intros Hs Hp. rewrite (set_sum_split f Y X Hs). pose proof (set_sum_nonneg f (Y ∖ X)) as H. assert (0 <= set_sum f (Y ∖ X)) by (apply H; set_solver). lia.
Qed.

Lemma set_sum_abs f X : Z.abs (set_sum f X) <= set_sum (fun x => Z.abs (f x)) X.
Proof. apply zsum_abs. Qed.

Lemma set_sum_const c X : set_sum (fun _ => c) X = c * Z.of_nat (size X).
Proof. apply zsum_const. Qed.

Lemma set_sum_add f g X : set_sum (fun x => f x + g x) X = set_sum f X + set_sum g X.
Proof. apply zsum_add. Qed.

(** ** Walks *)

Section walk.
Context (next : uint256 -> gset uint256).

(** what both walks do: the first staged entry is done, and what follows it is staged *)
Fixpoint walk (fuel : nat) (stage done : gset uint256) : option (gset uint256) :=
  match by_hash stage with
  | [] => Some done
  | it :: _ =>
      match fuel with
      | O => None
      | S fuel => walk fuel (stage ∖ {[it]} ∪ (next it ∖ ({[it]} ∪ done))) ({[it]} ∪ done)
      end
  end.

Definition follows (a b : uint256) : Prop := b ∈ next a.

Lemma closed_rtc (stage done : gset uint256) y x : (forall z, z ∈ done -> next z ⊆ done ∪ stage) -> rtc follows y x -> y ∈ done ->
  x ∈ done \/ exists s, s ∈ stage /\ rtc follows s x.
Proof.
  intros Hc Hr. induction Hr as [y|y z x Hyz Hzx IH]; intros Hy; [left; exact Hy|].
  assert (Hz : z ∈ done ∪ stage) by (apply (Hc y Hy), Hyz). apply elem_of_union in Hz as [Hz|Hz]; [apply IH, Hz|right; exists z; auto].
Qed.

(** a walk inside [U] ends, with what was done and all that follows the stage *)
Lemma walk_spec U fuel : forall stage done, stage ⊆ U -> (forall x, x ∈ U -> next x ⊆ U) -> (size (U ∖ done) <= fuel)%nat -> stage ## done ->
  (forall x, x ∈ done -> next x ⊆ done ∪ stage) ->
  exists A, walk fuel stage done = Some A /\ forall x, x ∈ A <-> x ∈ done \/ exists s, s ∈ stage /\ rtc follows s x.
Proof.
  induction fuel as [|fuel IH]; intros stage done HU Hn Hf Hd Hc; cbn [walk]; destruct (by_hash stage) as [|it rest] eqn:E.
  - exists done. split; [done|]. apply by_hash_nil in E as ->. set_solver.
  - assert (Hit : it ∈ stage) by (apply elem_of_by_hash; rewrite E; left). exfalso.
    assert (Hin : it ∈ U ∖ done) by set_solver. apply (Nat.lt_irrefl 0). eapply Nat.lt_le_trans; [|exact Hf].
    apply Nat.neq_0_lt_0. intros H0. apply size_empty_inv in H0. set_solver.
  - exists done. split; [done|]. apply by_hash_nil in E as ->. set_solver.
  - assert (Hit : it ∈ stage) by (apply elem_of_by_hash; rewrite E; left).
    set (done' := {[it]} ∪ done). set (stage' := stage ∖ {[it]} ∪ (next it ∖ done')).
    assert (Hc' : forall x, x ∈ done' -> next x ⊆ done' ∪ stage').
    { intros x Hx y Hy. destruct (decide (y ∈ done')); [set_solver|]. apply elem_of_union in Hx as [Hx|Hx]; [set_solver|].
      specialize (Hc x Hx y Hy). set_solver. }
    destruct (IH stage' done') as (A & -> & HA); [set_solver|exact Hn| |set_solver|exact Hc'|].
    { apply Nat.lt_succ_r. eapply Nat.lt_le_trans; [|exact Hf]. apply subset_size. set_solver. }
    exists A. split; [done|]. intros x. rewrite HA. split.
    + intros [Hx|(s & Hs & Hr)]; [apply elem_of_union in Hx as [Hx|Hx]; [right; exists it; split; [exact Hit|]; apply elem_of_singleton in Hx as ->; done|auto]|].
      right. apply elem_of_union in Hs as [Hs|Hs]; [exists s; set_solver|]. exists it. split; [exact Hit|]. apply rtc_l with s; [set_solver|exact Hr].
    + intros [Hx|(s & Hs & Hr)]; [left; set_solver|]. destruct (decide (s = it)) as [->|Hne]; [|right; exists s; set_solver].
      apply (closed_rtc stage' done' it x Hc' Hr). set_solver.
Qed.
End walk.

(** ** Parents and children *)

Section graph.
Context `{MempoolEnv}.

Definition parents (m : txmap) (h : uint256) : gset uint256 := from_option m_parents ∅ (m !! h).
Definition children (m : txmap) (h : uint256) : gset uint256 := from_option m_children ∅ (m !! h).
Definition parent_of (m : txmap) (c p : uint256) : Prop := p ∈ parents m c.
Definition links_in (m : txmap) : Prop := forall h, parents m h ⊆ dom m /\ children m h ⊆ dom m.

Definition anc_set (m : txmap) (h : uint256) : gset uint256 := default ∅ (walk (parents m) (size m) (parents m h) ∅).
Definition desc_set (m : txmap) (h : uint256) : gset uint256 := filter (fun d => h ∈ anc_set m d) (dom m).

Lemma parents_lookup m h e : m !! h = Some e -> parents m h = m_parents e.
Proof. unfold parents. intros ->. done. Qed.
Lemma children_lookup m h e : m !! h = Some e -> children m h = m_children e.
Proof. unfold children. intros ->. done. Qed.

Lemma tc_rtc_parent m h x : tc (parent_of m) h x <-> exists p, p ∈ parents m h /\ rtc (follows (parents m)) p x.
Proof.
  split.
  - intros Ht. inversion Ht as [a b Hab|a b c Hab Hbc]; subst; [exists x; split; [exact Hab|done]|].
    exists b. split; [exact Hab|]. apply tc_rtc, Hbc.
  - intros (p & Hp & Hr). eapply tc_rtc_r; [apply tc_once; exact Hp|exact Hr].
Qed.

Lemma anc_walk m h : links_in m -> walk (parents m) (size m) (parents m h) ∅ = Some (anc_set m h) /\
  forall x, x ∈ anc_set m h <-> tc (parent_of m) h x.
Proof.
  intros Hl. destruct (walk_spec (parents m) (dom m) (size m) (parents m h) ∅) as (A & E & HA).
  - apply Hl.
  - intros x _. apply Hl.
  - rewrite difference_empty_L, size_dom. done.
  - set_solver.
  - set_solver.
  - unfold anc_set. rewrite E. split; [done|]. intros x. cbn [default id from_option]. rewrite HA, tc_rtc_parent. set_solver.
Qed.

Lemma elem_of_anc m h x : links_in m -> x ∈ anc_set m h <-> tc (parent_of m) h x.
Proof. intros Hl. apply anc_walk, Hl. Qed.

Lemma parent_in_dom m c p : parent_of m c p -> c ∈ dom m.
Proof. unfold parent_of, parents. destruct (m !! c) eqn:E; cbn; [intros _; apply elem_of_dom; eauto|set_solver]. Qed.

Lemma elem_of_desc m h x : links_in m -> x ∈ desc_set m h <-> tc (parent_of m) x h.
Proof.
  intros Hl. unfold desc_set. rewrite elem_of_filter, (elem_of_anc m x h Hl). split; [tauto|]. intros Ht. split; [exact Ht|].
  inversion Ht; subst; eapply parent_in_dom; eassumption.
Qed.

Lemma anc_in_dom m h : links_in m -> anc_set m h ⊆ dom m.
Proof.
  intros Hl x Hx. apply elem_of_anc in Hx; [|exact Hl]. induction Hx as [c p Hcp|c p q Hcp _ IH]; [apply (proj1 (Hl c)), Hcp|exact IH].
Qed.
Lemma desc_in_dom m h : desc_set m h ⊆ dom m.
Proof. unfold desc_set. set_solver. Qed.

(** ** The walks of the pool *)

Lemma descendants_loop_walk m fuel : links_in m -> forall stage seen, stage ⊆ dom m -> descendants_loop fuel m stage seen = walk (children m) fuel stage seen.
Proof.
  intros Hl. induction fuel as [|fuel IH]; intros stage seen Hs; cbn [descendants_loop walk]; destruct (by_hash stage) as [|it rest] eqn:E; try done.
  assert (Hit : it ∈ stage) by (apply elem_of_by_hash; rewrite E; left). assert (Hd : it ∈ dom m) by set_solver.
  apply elem_of_dom in Hd as [e He]. rewrite He. cbn [mbind option_bind]. rewrite <- (children_lookup m it e He). apply IH.
  pose proof (proj2 (Hl it)). set_solver.
Qed.

(** children and parents are each other's inverse *)
Definition mutual (m : txmap) : Prop := forall p c, c ∈ children m p <-> p ∈ parents m c.

Lemma rtc_children m h d : mutual m -> rtc (follows (children m)) h d <-> d = h \/ tc (parent_of m) d h.
Proof.
  intros Hm. split.
  - induction 1 as [h|h c d Hhc _ IH]; [left; done|]. right. apply Hm in Hhc. destruct IH as [->|IH]; [apply tc_once, Hhc|].
    eapply tc_r; [exact IH|exact Hhc].
  - intros [->|Ht]; [done|]. induction Ht as [d h Hdh|d q h Hdq _ IH]; [apply rtc_once, Hm, Hdh|]. eapply rtc_r; [exact IH|apply Hm, Hdq].
Qed.

(** [CalculateDescendants] adds an entry and its descendants to a set that has the descendants of its elements *)
Lemma CalculateDescendants_spec m h D : links_in m -> mutual m -> h ∈ dom m -> (forall d, d ∈ D -> desc_set m d ⊆ D) ->
  CalculateDescendants m h D = Some (D ∪ ({[h]} ∪ desc_set m h)).
Proof.
  intros Hl Hm Hh HD. unfold CalculateDescendants. assert (Hclosed : forall x, x ∈ D -> children m x ⊆ D).
  { intros x Hx y Hy. apply (HD x Hx), elem_of_desc; [exact Hl|]. apply tc_once, Hm, Hy. }
  rewrite descendants_loop_walk; [|exact Hl|destruct (decide (h ∈ D)); set_solver]. destruct (decide (h ∈ D)) as [Hin|Hout].
  - replace (D ∪ ({[h]} ∪ desc_set m h)) with D by (apply set_eq; intros x; specialize (HD h Hin); set_solver).
    destruct (size m); done.
  - destruct (walk_spec (children m) (dom m) (size m) {[h]} D) as (A & -> & HA).
    + set_solver.
    + intros x _. apply Hl.
    + rewrite <- size_dom. apply subseteq_size. set_solver.
    + set_solver.
    + intros x Hx. specialize (Hclosed x Hx). set_solver.
    + f_equal. apply set_eq. intros x. rewrite HA, !elem_of_union, elem_of_singleton, elem_of_desc by exact Hl. split.
      * intros [Hx|(s & Hs & Hr)]; [tauto|]. apply elem_of_singleton in Hs as ->. apply rtc_children in Hr; tauto.
      * intros [Hx|Hx]; [tauto|]. right. exists h. split; [set_solver|]. apply rtc_children; tauto.
Qed.

(** nothing of the pool is near the bounds of the integers, with an entry of [entry_size] *)
Record roomy (m : txmap) (entry_size entry_count : Z) : Prop := {
  room_entry h e : m !! h = Some e -> 0 < GetTxSize e /\ 0 < nSizeWithDescendants e /\ nSizeWithDescendants e + entry_size < 2 ^ 63 /\
    0 < m_count_with_descendants e /\ m_count_with_descendants e + entry_count < 2 ^ 63;
  room_size : 0 <= entry_size /\ entry_size + set_sum (fun h => from_option GetTxSize 0 (m !! h)) (dom m) < 2 ^ 63;
  room_count : 0 <= entry_count /\ 2 * Z.of_nat (size m) + entry_count < 2 ^ 63;
}.

Lemma int64_ok z : sfits 64 z -> int64 z = Some z.
Proof. intros Hz. unfold int64. rewrite decide_True by exact Hz. done. Qed.

Lemma stage_parents_no_limits m es ec ps : forall anc staged, roomy m es ec -> list_to_set ps ∪ anc ∪ staged ⊆ dom m ->
  stage_parents NoLimits ec anc ps staged = inr (staged ∪ (list_to_set ps ∖ anc)).
Proof.
  induction ps as [|p ps IH]; intros anc staged Hr Hs; cbn [stage_parents list_to_set]; [f_equal; set_solver|].
  set (staged' := if decide (p ∈ anc) then staged else {[p]} ∪ staged). assert (Hs' : staged' ⊆ dom m) by (unfold staged'; destruct (decide (p ∈ anc)); set_solver).
  pose proof (room_count _ _ _ Hr) as Hc. pose proof (subseteq_size _ _ Hs') as H1. assert (H2 : (size anc <= size (dom m))%nat) by (apply subseteq_size; set_solver). rewrite size_dom in H1, H2.
  rewrite wrap_small by (unfold fits; lia). change (u64 (ancestor_count NoLimits)) with (2 ^ 63 - 1).
  destruct (Z.gtb_spec (Z.of_nat (size staged') + Z.of_nat (size anc) + ec) (2 ^ 63 - 1)); [lia|].
  rewrite IH; [|exact Hr|set_solver]. f_equal. unfold staged'. destruct (decide (p ∈ anc)); apply set_eq; intros x; set_solver.
Qed.

Lemma ancestors_loop_no_limits m es ec fuel : links_in m -> roomy m es ec -> forall staged anc total, staged ∪ anc ⊆ dom m -> staged ## anc ->
  0 <= total -> total + set_sum (fun h => from_option GetTxSize 0 (m !! h)) (dom m ∖ anc) < 2 ^ 63 ->
  ancestors_loop fuel m NoLimits es ec staged anc total = option_map inr (walk (parents m) fuel staged anc).
Proof.
  intros Hl Hr. induction fuel as [|fuel IH]; intros staged anc total Hs Hd Ht Hb; cbn [ancestors_loop walk];
    destruct (by_hash staged) as [|it rest] eqn:E; try done.
  assert (Hit : it ∈ staged) by (apply elem_of_by_hash; rewrite E; left). assert (Hdom : it ∈ dom m) by set_solver.
  apply elem_of_dom in Hdom as [e He]. rewrite He. cbn [mbind option_bind]. destruct (room_entry _ _ _ Hr it e He) as (Hsz & Hsd & Hsd' & Hcd & Hcd').
  pose proof (room_size _ _ _ Hr) as Hrs. rewrite (set_sum_remove _ it) in Hb by set_solver. rewrite He in Hb. cbn [from_option] in Hb.
  assert (Hrest : 0 <= set_sum (fun h => from_option GetTxSize 0 (m !! h)) (dom m ∖ anc ∖ {[it]})).
  { apply set_sum_nonneg. intros x _. destruct (m !! x) as [ex|] eqn:Ex; cbn; [|lia]. destruct (room_entry _ _ _ Hr x ex Ex); lia. }
  rewrite int64_ok by (unfold sfits; lia). cbn [mbind option_bind]. rewrite int64_ok by (unfold sfits; lia). cbn [mbind option_bind].
  cbn [descendant_size_vbytes descendant_count ancestor_size_vbytes NoLimits]. change (u64 INT64_MAX) with (2 ^ 63 - 1). pose proof (proj1 (room_count _ _ _ Hr)).
  rewrite wrap_small by (unfold fits; lia). unfold INT64_MAX.
  destruct (Z.gtb_spec (nSizeWithDescendants e + es) (2 ^ 63 - 1)); [lia|]. destruct (Z.gtb_spec (m_count_with_descendants e + ec) (2 ^ 63 - 1)); [lia|].
  destruct (Z.gtb_spec (total + GetTxSize e) (2 ^ 63 - 1)); [lia|]. pose proof (proj1 (Hl it)) as Hpar. rewrite (parents_lookup m it e He) in *.
  assert (Hset : list_to_set (by_hash (m_parents e)) = m_parents e) by (apply set_eq; intros x; rewrite elem_of_list_to_set; apply elem_of_by_hash).
  rewrite (stage_parents_no_limits m es ec) by (exact Hr || (rewrite Hset; set_solver)). rewrite Hset.
  apply IH; [set_solver|set_solver|lia|]. replace (dom m ∖ ({[it]} ∪ anc)) with (dom m ∖ anc ∖ {[it]}) by set_solver. lia.
Qed.

(** without limits the ancestors of an entry of the pool are found *)
Lemma AssumeCalculateMemPoolAncestors_spec p h e : links_in (mapTx p) -> mapTx p !! h = Some e -> roomy (mapTx p) (GetTxSize e) 1 ->
  AssumeCalculateMemPoolAncestors p e NoLimits false = Some (anc_set (mapTx p) h).
Proof.
  intros Hl He Hr. unfold AssumeCalculateMemPoolAncestors, CalculateMemPoolAncestors, CalculateAncestorsAndCheckLimits.
  pose proof (proj1 (Hl h)) as Hp. rewrite (parents_lookup _ h e He) in Hp. destruct (room_size _ _ _ Hr) as [H0 H1].
  rewrite ancestors_loop_no_limits; [|exact Hl|exact Hr|set_solver|set_solver|lia|rewrite difference_empty_L; lia].
  rewrite <- (parents_lookup _ h e He). destruct (anc_walk (mapTx p) h Hl) as [-> _]. done.
Qed.
End graph.
