(* ===== verification/PoolInvariant.v ===== *)
(** * The invariant of the transaction pool

    What [CTxMemPool::check] asserts of the entries, their links and their totals, as a
    predicate of the pool, and that additions and removals preserve it.

    The loops of [TxMempool] over a set of entries are described by the entries they leave:
    every one of them updates each entry of the set once, so that the order of the set
    does not matter. *)

From Stdlib Require Import ZArith Lia Bool.
From stdpp Require Import base numbers list gmap fin_sets sorting relations.
From S2P Require Import Prelude Uint256 Params FeeModel Serialize Primitives TxVerify Coins MempoolEntry TxMempool PoolGraph.
Local Open Scope Z_scope.

(** ** Updates of all entries *)

Definition map_update (f : uint256 -> CTxMemPoolEntry -> CTxMemPoolEntry) (m : txmap) : txmap := map_imap (fun h e => Some (f h e)) m.

Lemma map_update_lookup f m h : map_update f m !! h = f h <$> m !! h.
Proof. unfold map_update. rewrite map_lookup_imap. destruct (m !! h); done. Qed.

Lemma map_update_dom f m : dom (map_update f m) = dom m.
Proof. apply set_eq. intros h. rewrite !elem_of_dom, map_update_lookup. destruct (m !! h); cbn; split; intros []; eauto; done. Qed.

Lemma map_update_size f m : size (map_update f m) = size m.
Proof. rewrite <- !size_dom, map_update_dom. done. Qed.

Lemma map_update_update f g m : map_update g (map_update f m) = map_update (fun h e => g h (f h e)) m.
Proof. apply map_eq. intros h. rewrite !map_update_lookup. destruct (m !! h); done. Qed.

Lemma map_update_ext f g m : (forall h e, m !! h = Some e -> f h e = g h e) -> map_update f m = map_update g m.
Proof. intros Hfg. apply map_eq. intros h. rewrite !map_update_lookup. destruct (m !! h) eqn:E; cbn; [rewrite (Hfg h _ E)|]; done. Qed.

Lemma map_update_id m : map_update (fun _ e => e) m = m.
Proof. apply map_eq. intros h. rewrite map_update_lookup. destruct (m !! h); done. Qed.

Lemma map_update_insert f m h e : m !! h = Some e -> (forall k, k <> h -> forall x, f k x = x) -> <[h := f h e]> m = map_update f m.
Proof.
  intros He Hf. apply map_eq. intros k. rewrite map_update_lookup. destruct (decide (k = h)) as [->|Hne].
  - rewrite lookup_insert_eq, He. done.
  - rewrite lookup_insert_ne by done. destruct (m !! k); cbn; [rewrite Hf by done|]; done.
Qed.

(** the entry [h] alone *)
Definition at_entry (h : uint256) (g : CTxMemPoolEntry -> CTxMemPoolEntry) (k : uint256) (e : CTxMemPoolEntry) : CTxMemPoolEntry :=
  if decide (k = h) then g e else e.
(** the entries of a set *)
Definition at_set (X : gset uint256) (g : CTxMemPoolEntry -> CTxMemPoolEntry) (k : uint256) (e : CTxMemPoolEntry) : CTxMemPoolEntry :=
  if decide (k ∈ X) then g e else e.

Lemma insert_at_entry h g m e : m !! h = Some e -> <[h := g e]> m = map_update (at_entry h g) m.
Proof.
  intros He. rewrite <- (map_update_insert (at_entry h g) m h e He).
  - unfold at_entry. rewrite decide_True by done. done.
  - intros k Hk x. unfold at_entry. rewrite decide_False by done. done.
Qed.

Section loops.
Context `{MempoolEnv}.

Lemma set_mapTx_twice p m u m' u' : set_mapTx (set_mapTx p m u) m' u' = set_mapTx p m' u'.
Proof. done. Qed.

Lemma set_mapTx_same p : set_mapTx p (mapTx p) (cachedInnerUsage p) = p.
Proof. destruct p; done. Qed.

(** a loop that updates each entry of a list by [g], and the memory of the links by [w] *)
Lemma for_each_update (body : uint256 -> CTxMemPool -> option CTxMemPool) g (w : Z -> Z) p (l : list uint256) : NoDup l -> forall m u,
  (forall h, h ∈ l -> is_Some (m !! h)) ->
  (forall h e q u, h ∈ l -> m !! h = Some e -> q !! h = Some e -> body h (set_mapTx p q u) = Some (set_mapTx p (<[h := g e]> q) (w u))) ->
  for_each body l (set_mapTx p m u) = Some (set_mapTx p (map_update (at_set (list_to_set l) g) m) (Nat.iter (length l) w u)).
Proof.
  induction 1 as [|h l Hh Hnd IH]; intros m u Hin Hbody; cbn [for_each].
  - f_equal. f_equal. rewrite <- (map_update_id m) at 1. apply map_update_ext. intros k e _. unfold at_set. rewrite decide_False by set_solver. done.
  - destruct (Hin h ltac:(left)) as [e He]. rewrite (Hbody h e m u) by (done || left). cbn [mbind option_bind].
    assert (Hother : forall k, k ∈ l -> <[h := g e]> m !! k = m !! k) by (intros k Hk; apply lookup_insert_ne; intros ->; done).
    rewrite IH.
    + f_equal. f_equal; [|rewrite <- Nat.iter_succ_r; done]. rewrite (insert_at_entry h g m e He), map_update_update.
      apply map_update_ext. intros k x _. unfold at_set, at_entry. cbn [list_to_set]. destruct (decide (k = h)) as [->|Hne].
      * rewrite decide_False by (rewrite elem_of_list_to_set; done). rewrite decide_True by set_solver. done.
      * destruct (decide (k ∈ list_to_set l)); [rewrite decide_True by set_solver|rewrite decide_False by set_solver]; done.
    + intros k Hk. rewrite Hother by exact Hk. apply Hin. right. exact Hk.
    + intros k x q u' Hk Hx Hq. apply Hbody; [right; exact Hk| |exact Hq]. rewrite <- Hother by exact Hk. exact Hx.
Qed.

Lemma iter_u64 n c u : fits 64 u -> Nat.iter n (fun u => u64 (u + c)) u = u64 (u + c * Z.of_nat n).
Proof.
  intros Hu. induction n as [|n IH]; [cbn [Nat.iter]; rewrite Z.mul_0_r, Z.add_0_r, wrap_small by exact Hu; done|].
  rewrite Nat.iter_succ, IH. unfold wrap. rewrite Zplus_mod_idemp_l. f_equal. lia.
Qed.

Lemma set_of_by_hash X : list_to_set (by_hash X) = X.
Proof. apply set_eq. intros x. rewrite elem_of_list_to_set. apply elem_of_by_hash. Qed.

(** [mapTx.modify] of each entry of a set *)
Lemma for_each_modify f g X p : (forall h, h ∈ X -> exists e, mapTx p !! h = Some e /\ f e = Some (g e)) ->
  for_each (fun h => modify_entry h f) (by_hash X) p = Some (set_entries p (map_update (at_set X g) (mapTx p))).
Proof.
  intros Hf. rewrite <- (set_mapTx_same p) at 1. rewrite (for_each_update _ g (fun u => u) p).
  - rewrite set_of_by_hash. unfold set_entries. do 2 f_equal. induction (length (by_hash X)); [done|]. rewrite Nat.iter_succ. assumption.
  - apply by_hash_NoDup.
  - intros h Hh. apply elem_of_by_hash in Hh. destruct (Hf h Hh) as (e & He & _). eauto.
  - intros h e q u Hh He Hq. apply elem_of_by_hash in Hh. destruct (Hf h Hh) as (e' & He' & Ef). unfold modify_entry, modify. cbn [mapTx set_mapTx].
    rewrite Hq. cbn [mbind option_bind]. replace e with e' by congruence. rewrite Ef. done.
Qed.

(** the links to a child, of each entry of a set *)
Lemma for_each_add_child it X p : fits 64 (cachedInnerUsage p) -> (forall h, h ∈ X -> exists e, mapTx p !! h = Some e /\ it ∉ m_children e) ->
  for_each (fun parent => UpdateChild parent it true) (by_hash X) p =
  Some (set_mapTx p (map_update (at_set X (fun e => set_children ({[it]} ∪ m_children e) e)) (mapTx p)) (u64 (cachedInnerUsage p + link_usage * Z.of_nat (size X)))).
Proof.
  intros Hu Hx. rewrite <- (set_mapTx_same p) at 1. rewrite (for_each_update _ (fun e => set_children ({[it]} ∪ m_children e) e) (fun u => u64 (u + link_usage)) p).
  - rewrite set_of_by_hash, iter_u64, by_hash_length by exact Hu. done.
  - apply by_hash_NoDup.
  - intros h Hh. apply elem_of_by_hash in Hh. destruct (Hx h Hh) as (e & He & _). eauto.
  - intros h e q u Hh He Hq. apply elem_of_by_hash in Hh. destruct (Hx h Hh) as (e' & He' & Hn). unfold UpdateChild. cbn [mapTx set_mapTx cachedInnerUsage].
    rewrite Hq. cbn [mbind option_bind]. replace e' with e in Hn by congruence. rewrite decide_False by exact Hn. done.
Qed.

Lemma for_each_remove_child it X p : fits 64 (cachedInnerUsage p) -> (forall h, h ∈ X -> exists e, mapTx p !! h = Some e /\ it ∈ m_children e) ->
  for_each (fun parent => UpdateChild parent it false) (by_hash X) p =
  Some (set_mapTx p (map_update (at_set X (fun e => set_children (m_children e ∖ {[it]}) e)) (mapTx p)) (u64 (cachedInnerUsage p + - link_usage * Z.of_nat (size X)))).
Proof.
  intros Hu Hx. rewrite <- (set_mapTx_same p) at 1. rewrite (for_each_update _ (fun e => set_children (m_children e ∖ {[it]}) e) (fun u => u64 (u + - link_usage)) p).
  - rewrite set_of_by_hash, iter_u64, by_hash_length by exact Hu. done.
  - apply by_hash_NoDup.
  - intros h Hh. apply elem_of_by_hash in Hh. destruct (Hx h Hh) as (e & He & _). eauto.
  - intros h e q u Hh He Hq. apply elem_of_by_hash in Hh. destruct (Hx h Hh) as (e' & He' & Hn). unfold UpdateChild. cbn [mapTx set_mapTx cachedInnerUsage].
    rewrite Hq. cbn [mbind option_bind]. replace e' with e in Hn by congruence. rewrite decide_True by exact Hn. done.
Qed.

Lemma for_each_remove_parent it X p : fits 64 (cachedInnerUsage p) -> (forall h, h ∈ X -> exists e, mapTx p !! h = Some e /\ it ∈ m_parents e) ->
  for_each (fun c => UpdateParent c it false) (by_hash X) p =
  Some (set_mapTx p (map_update (at_set X (fun e => set_parents (m_parents e ∖ {[it]}) e)) (mapTx p)) (u64 (cachedInnerUsage p + - link_usage * Z.of_nat (size X)))).
Proof.
  intros Hu Hx. rewrite <- (set_mapTx_same p) at 1. rewrite (for_each_update _ (fun e => set_parents (m_parents e ∖ {[it]}) e) (fun u => u64 (u + - link_usage)) p).
  - rewrite set_of_by_hash, iter_u64, by_hash_length by exact Hu. done.
  - apply by_hash_NoDup.
  - intros h Hh. apply elem_of_by_hash in Hh. destruct (Hx h Hh) as (e & He & _). eauto.
  - intros h e q u Hh He Hq. apply elem_of_by_hash in Hh. destruct (Hx h Hh) as (e' & He' & Hn). unfold UpdateParent. cbn [mapTx set_mapTx cachedInnerUsage].
    rewrite Hq. cbn [mbind option_bind]. replace e' with e in Hn by congruence. rewrite decide_True by exact Hn. done.
Qed.

(** the parents of one entry *)
Lemma for_each_add_parents it l : NoDup l -> forall p e, fits 64 (cachedInnerUsage p) -> mapTx p !! it = Some e -> (forall h, h ∈ l -> h ∉ m_parents e) ->
  for_each (fun pit => UpdateParent it pit true) l p =
  Some (set_mapTx p (<[it := set_parents (list_to_set l ∪ m_parents e) e]> (mapTx p)) (u64 (cachedInnerUsage p + link_usage * zlen l))).
Proof.
  induction 1 as [|h l Hh _ IH]; intros p e Hu He Hx; cbn [for_each].
  - f_equal. cbn [list_to_set length]. rewrite union_empty_l_L. cbn [Z.of_nat]. rewrite Z.mul_0_r, Z.add_0_r, wrap_small by exact Hu.
    replace (set_parents (m_parents e) e) with e by (destruct e; done). rewrite insert_id by exact He. symmetry. apply set_mapTx_same.
  - assert (Hup : UpdateParent it h true p = Some (set_mapTx p (<[it := set_parents ({[h]} ∪ m_parents e) e]> (mapTx p)) (u64 (cachedInnerUsage p + link_usage)))).
    { unfold UpdateParent. rewrite He. cbn [mbind option_bind]. rewrite decide_False by (apply Hx; left). done. }
    rewrite Hup. cbn [mbind option_bind]. rewrite (IH _ (set_parents ({[h]} ∪ m_parents e) e)).
    + cbn [mapTx cachedInnerUsage set_mapTx m_parents list_to_set length]. rewrite insert_insert_eq, set_mapTx_twice. f_equal. f_equal.
      * f_equal. unfold set_parents. cbn. f_equal. set_solver.
      * rewrite Nat2Z.inj_succ. unfold wrap. rewrite Zplus_mod_idemp_l. f_equal. lia.
    + cbn [cachedInnerUsage set_mapTx]. apply wrap_fits. lia.
    + cbn [mapTx set_mapTx]. apply lookup_insert_eq.
    + intros k Hk. cbn [m_parents set_parents]. apply not_elem_of_union. split; [intros Hkh; apply elem_of_singleton in Hkh as ->; done|apply Hx; right; exact Hk].
Qed.
End loops.

(** ** The graph with its totals *)

Section graph.
Context `{MempoolEnv}.

Definition val (m : txmap) (f : CTxMemPoolEntry -> Z) (h : uint256) : Z := from_option f 0 (m !! h).
Definition one (e : CTxMemPoolEntry) : Z := 1.
Definition up (m : txmap) (h : uint256) : gset uint256 := {[h]} ∪ anc_set m h.
Definition down (m : txmap) (h : uint256) : gset uint256 := {[h]} ∪ desc_set m h.

(** what is added up over the ancestors or the descendants, and the member with the sum *)
Definition anc_stats : list ((CTxMemPoolEntry -> Z) * (CTxMemPoolEntry -> Z)) :=
  [(one, m_count_with_ancestors); (GetTxSize, nSizeWithAncestors); (m_modified_fee, nModFeesWithAncestors); (GetSigOpCost, nSigOpCostWithAncestors)].
Definition desc_stats : list ((CTxMemPoolEntry -> Z) * (CTxMemPoolEntry -> Z)) :=
  [(one, m_count_with_descendants); (GetTxSize, nSizeWithDescendants); (m_modified_fee, nModFeesWithDescendants)].

(** no sum over entries of the pool leaves its type *)
Definition small (m : txmap) : Prop :=
  set_sum (val m GetTxSize) (dom m) < 2 ^ 31 /\ set_sum (val m GetSigOpCost) (dom m) < 2 ^ 31 /\
  set_sum (fun h => Z.abs (val m m_modified_fee h)) (dom m) < 2 ^ 63.

Record graph_ok (m : txmap) : Prop := {
  g_links : links_in m;
  g_mutual : mutual m;
  g_acyclic h : ~ tc (parent_of m) h h;
  g_sizes h e : m !! h = Some e -> 0 < GetTxSize e /\ 0 <= GetSigOpCost e;
  g_anc h e f g : m !! h = Some e -> (f, g) ∈ anc_stats -> g e = set_sum (val m f) (up m h);
  g_desc h e f g : m !! h = Some e -> (f, g) ∈ desc_stats -> g e = set_sum (val m f) (down m h);
  g_small : small m;
}.

Lemma val_lookup m f h e : m !! h = Some e -> val m f h = f e.
Proof. unfold val. intros ->. done. Qed.

(** sums over entries of the pool are in range *)
Lemma graph_bounds m X : graph_ok m -> X ⊆ dom m ->
  0 <= set_sum (val m one) X <= set_sum (val m GetTxSize) X /\ set_sum (val m GetTxSize) X < 2 ^ 31 /\
  0 <= set_sum (val m GetSigOpCost) X < 2 ^ 31 /\ Z.abs (set_sum (val m m_modified_fee) X) < 2 ^ 63 /\
  set_sum (val m one) X = Z.of_nat (size X).
Proof.
  intros Hg HX. destruct (g_small m Hg) as (Hs & Ho & Hf).
  assert (Hpos : forall x, x ∈ dom m -> 0 < val m GetTxSize x /\ 0 <= val m GetSigOpCost x /\ val m one x = 1).
  { intros x Hx. apply elem_of_dom in Hx as [e He]. rewrite !(val_lookup m _ x e He). destruct (g_sizes m Hg x e He). done. }
  assert (H1 : set_sum (val m one) X = Z.of_nat (size X)).
  { rewrite (set_sum_ext _ (fun _ => 1)) by (intros x Hx; apply Hpos, HX, Hx). rewrite set_sum_const. lia. }
  assert (H2 : set_sum (val m GetTxSize) X <= set_sum (val m GetTxSize) (dom m)) by (apply set_sum_mono; [exact HX|intros y Hy; destruct (Hpos y Hy); lia]).
  assert (H3 : set_sum (val m GetSigOpCost) X <= set_sum (val m GetSigOpCost) (dom m)) by (apply set_sum_mono; [exact HX|intros y Hy; apply Hpos, Hy]).
  assert (H4 : 0 <= set_sum (val m GetSigOpCost) X) by (apply set_sum_nonneg; intros x Hx; apply Hpos, HX, Hx).
  assert (H5 : set_sum (fun h => Z.abs (val m m_modified_fee h)) X <= set_sum (fun h => Z.abs (val m m_modified_fee h)) (dom m)) by (apply set_sum_mono; [exact HX|lia]).
  pose proof (set_sum_abs (val m m_modified_fee) X).
  assert (H6 : 0 <= set_sum (fun x => val m GetTxSize x + - val m one x) X) by (apply set_sum_nonneg; intros x Hx; destruct (Hpos x (HX x Hx)) as (? & _ & ->); lia).
  rewrite set_sum_add in H6. assert (H7 : set_sum (fun x => - val m one x) X = - set_sum (val m one) X).
  { rewrite (set_sum_ext _ (fun _ => -1)) by (intros x Hx; destruct (Hpos x (HX x Hx)) as (_ & _ & ->); done). rewrite set_sum_const, H1. lia. }
  rewrite H7 in H6. split_and!; lia.
Qed.

Lemma up_in_dom m h : graph_ok m -> h ∈ dom m -> up m h ⊆ dom m.
Proof. intros Hg Hh. unfold up. pose proof (anc_in_dom m h (g_links m Hg)). set_solver. Qed.
Lemma down_in_dom m h : h ∈ dom m -> down m h ⊆ dom m.
Proof. intros Hh. unfold down. pose proof (desc_in_dom m h). set_solver. Qed.

Lemma desc_stat_range m h e : graph_ok m -> m !! h = Some e ->
  0 < nSizeWithDescendants e < 2 ^ 31 /\ 0 < m_count_with_descendants e < 2 ^ 31 /\ Z.abs (nModFeesWithDescendants e) < 2 ^ 63.
Proof.
  intros Hg He. assert (Hd : h ∈ dom m) by (apply elem_of_dom; eauto). destruct (graph_bounds m (down m h) Hg (down_in_dom m h Hd)) as (H1 & H2 & H3 & H4 & H5).
  rewrite (g_desc m Hg h e GetTxSize nSizeWithDescendants He), (g_desc m Hg h e one m_count_with_descendants He), (g_desc m Hg h e m_modified_fee nModFeesWithDescendants He)
    by (unfold desc_stats; set_solver).
  assert (0 < Z.of_nat (size (down m h))); [|lia]. assert (size (down m h) <> 0%nat); [|lia]. intros H0. apply size_empty_inv in H0. unfold down in H0. set_solver.
Qed.

Lemma graph_roomy m h e : graph_ok m -> m !! h = Some e -> roomy m (GetTxSize e) 1.
Proof.
  intros Hg He. assert (Hd : h ∈ dom m) by (apply elem_of_dom; eauto). destruct (graph_bounds m (dom m) Hg ltac:(done)) as (H1 & H2 & _ & _ & H5).
  destruct (g_sizes m Hg h e He) as [Hs _]. assert (Hle : GetTxSize e < 2 ^ 31).
  { destruct (graph_bounds m {[h]} Hg ltac:(set_solver)) as (_ & Hb & _). rewrite set_sum_singleton, (val_lookup m _ h e He) in Hb. exact Hb. }
  rewrite size_dom in H5. split.
  - intros k x Hx. destruct (g_sizes m Hg k x Hx). destruct (desc_stat_range m k x Hg Hx) as (? & ? & _). lia.
  - fold (val m GetTxSize). lia.
  - lia.
Qed.
End graph.

(** ** Updates and the totals *)

Section updates.
Context `{MempoolEnv}.

(** [x] counted ([s] is 1) or no longer counted ([s] is -1) among the descendants or ancestors of [e] *)
Definition upd_desc (s : Z) (x e : CTxMemPoolEntry) : CTxMemPoolEntry :=
  set_descendants (m_count_with_descendants e + s) (nSizeWithDescendants e + s * GetTxSize x) (nModFeesWithDescendants e + s * m_modified_fee x) e.
Definition upd_anc (s : Z) (x e : CTxMemPoolEntry) : CTxMemPoolEntry :=
  set_ancestors (m_count_with_ancestors e + s) (nSizeWithAncestors e + s * GetTxSize x) (nModFeesWithAncestors e + s * m_modified_fee x)
    (nSigOpCostWithAncestors e + s * GetSigOpCost x) e.

Lemma SaturatingAdd_ok a b : sfits 64 (a + b) -> SaturatingAdd a b = a + b.
Proof.
  unfold sfits, SaturatingAdd, INT64_MAX, INT64_MIN. intros Hs.
  destruct (Z.gtb_spec a 0); destruct (Z.gtb_spec b (2 ^ 63 - 1 - a)); cbn [andb]; try lia;
    destruct (Z.ltb_spec a 0); destruct (Z.ltb_spec b (- 2 ^ 63 - a)); cbn [andb]; lia.
Qed.

Lemma UpdateDescendantState_ok ds df dc e :
  0 < nSizeWithDescendants e + ds < 2 ^ 63 -> 0 < m_count_with_descendants e + dc < 2 ^ 63 -> Z.abs (nModFeesWithDescendants e + df) < 2 ^ 63 ->
  UpdateDescendantState ds df dc e = Some (set_descendants (m_count_with_descendants e + dc) (nSizeWithDescendants e + ds) (nModFeesWithDescendants e + df) e).
Proof.
  intros Hs Hc Hf. unfold UpdateDescendantState. rewrite !int64_ok by (unfold sfits; lia). cbn [mbind option_bind].
  destruct (Z.gtb_spec (nSizeWithDescendants e + ds) 0); [|lia].
  destruct (Z.gtb_spec (m_count_with_descendants e + dc) 0); [|lia]. rewrite SaturatingAdd_ok by (unfold sfits; lia). done.
Qed.

Lemma UpdateAncestorState_ok ds df dc dg e :
  0 < nSizeWithAncestors e + ds < 2 ^ 63 -> 0 < m_count_with_ancestors e + dc < 2 ^ 63 -> Z.abs (nModFeesWithAncestors e + df) < 2 ^ 63 ->
  0 <= nSigOpCostWithAncestors e + dg < 2 ^ 31 ->
  UpdateAncestorState ds df dc dg e =
  Some (set_ancestors (m_count_with_ancestors e + dc) (nSizeWithAncestors e + ds) (nModFeesWithAncestors e + df) (nSigOpCostWithAncestors e + dg) e).
Proof.
  intros Hs Hc Hf Hg. unfold UpdateAncestorState. rewrite !int64_ok by (unfold sfits; lia). cbn [mbind option_bind].
  destruct (Z.gtb_spec (nSizeWithAncestors e + ds) 0); [|lia].
  destruct (Z.gtb_spec (m_count_with_ancestors e + dc) 0); [|lia].
  rewrite swrap_small by (unfold sfits; lia). destruct (Z.geb_spec (nSigOpCostWithAncestors e + dg) 0); [|lia]. rewrite SaturatingAdd_ok by (unfold sfits; lia). done.
Qed.

(** what a sum depends on: the data of an entry and its modified fee *)
Definition same_weight (e e' : CTxMemPoolEntry) : Prop := entry_data e = entry_data e' /\ m_modified_fee e = m_modified_fee e'.

Lemma stat_weight f g e e' : (f, g) ∈ anc_stats ++ desc_stats -> same_weight e e' -> f e = f e'.
Proof.
  intros Hf [Hd Hm]. unfold anc_stats, desc_stats in Hf. cbn [app] in Hf.
  repeat (apply elem_of_cons in Hf as [[= -> ->]|Hf]; [unfold one, GetTxSize, GetSigOpCost; congruence|]). apply elem_of_nil in Hf as [].
Qed.
Lemma anc_stat_weight f g e e' : (f, g) ∈ anc_stats -> same_weight e e' -> f e = f e'.
Proof. intros Hf. apply (stat_weight f g). apply elem_of_app. left. exact Hf. Qed.
Lemma desc_stat_weight f g e e' : (f, g) ∈ desc_stats -> same_weight e e' -> f e = f e'.
Proof. intros Hf. apply (stat_weight f g). apply elem_of_app. right. exact Hf. Qed.

Lemma upd_desc_desc f g s x e : (f, g) ∈ desc_stats -> g (upd_desc s x e) = g e + s * f x.
Proof.
  intros Hf. unfold desc_stats in Hf. repeat (apply elem_of_cons in Hf as [[= -> ->]|Hf]; [cbn; unfold one; lia|]). apply elem_of_nil in Hf as [].
Qed.
Lemma upd_desc_anc f g s x e : (f, g) ∈ anc_stats -> g (upd_desc s x e) = g e.
Proof.
  intros Hf. unfold anc_stats in Hf. repeat (apply elem_of_cons in Hf as [[= -> ->]|Hf]; [done|]). apply elem_of_nil in Hf as [].
Qed.
Lemma upd_anc_anc f g s x e : (f, g) ∈ anc_stats -> g (upd_anc s x e) = g e + s * f x.
Proof.
  intros Hf. unfold anc_stats in Hf. repeat (apply elem_of_cons in Hf as [[= -> ->]|Hf]; [cbn; unfold one; lia|]). apply elem_of_nil in Hf as [].
Qed.
Lemma upd_anc_desc f g s x e : (f, g) ∈ desc_stats -> g (upd_anc s x e) = g e.
Proof.
  intros Hf. unfold desc_stats in Hf. repeat (apply elem_of_cons in Hf as [[= -> ->]|Hf]; [done|]). apply elem_of_nil in Hf as [].
Qed.

(** neither the links nor the position in the random order count *)
Lemma stat_links f g e c q i : (f, g) ∈ anc_stats ++ desc_stats ->
  g (set_children c e) = g e /\ g (set_parents q e) = g e /\ g (set_idx i e) = g e.
Proof.
  intros Hf. unfold anc_stats, desc_stats in Hf. cbn [app] in Hf. repeat (apply elem_of_cons in Hf as [[= -> ->]|Hf]; [done|]). apply elem_of_nil in Hf as [].
Qed.

(** two maps with the same weights have the same sums *)
Definition same_weights (m m' : txmap) (X : gset uint256) : Prop :=
  forall h, h ∈ X -> match m !! h, m' !! h with Some e, Some e' => same_weight e e' | None, None => True | _, _ => False end.

Lemma same_weights_sum m m' X f g : (f, g) ∈ anc_stats ++ desc_stats -> same_weights m m' X -> set_sum (val m f) X = set_sum (val m' f) X.
Proof.
  intros Hf Hs. apply set_sum_ext. intros h Hh. specialize (Hs h Hh). unfold val.
  destruct (m !! h), (m' !! h); cbn; try done. apply (stat_weight f g); assumption.
Qed.
Lemma tc_ext_from m m' h : (forall x, rtc (parent_of m) h x -> parents m x = parents m' x) ->
  forall y, tc (parent_of m) h y -> tc (parent_of m') h y.
Proof.
  intros Hp y Ht. induction Ht as [h y Hhy|h z y Hhz Hzy IH].
  - apply tc_once. unfold parent_of. rewrite <- Hp by done. exact Hhy.
  - eapply tc_l; [unfold parent_of; rewrite <- Hp by done; exact Hhz|]. apply IH. intros x Hx. apply Hp. eapply rtc_l; [exact Hhz|exact Hx].
Qed.
End updates.

Lemma tc_last {A} (R : A -> A -> Prop) a b : tc R a b -> exists y, R y b.
Proof. induction 1; eauto. Qed.

(** ** A new entry *)

Section addition.
Context `{MempoolEnv}.

(** an entry that counts only itself *)
Record fresh (e : CTxMemPoolEntry) : Prop := {
  fresh_parents : m_parents e = ∅;
  fresh_children : m_children e = ∅;
  fresh_stats f g : (f, g) ∈ anc_stats ++ desc_stats -> g e = f e;
  fresh_size : 0 < GetTxSize e /\ 0 <= GetSigOpCost e;
}.

Context (m : txmap) (n : uint256) (e0 : CTxMemPoolEntry) (Q A : gset uint256) (i : nat).

(** the new entry, linked and with its ancestors counted *)
Definition new_entry : CTxMemPoolEntry :=
  set_idx i (set_ancestors (1 + set_sum (val m one) A) (GetTxSize e0 + set_sum (val m GetTxSize) A)
    (m_modified_fee e0 + set_sum (val m m_modified_fee) A) (GetSigOpCost e0 + set_sum (val m GetSigOpCost) A) (set_parents Q e0)).
Definition old_entry (h : uint256) (e : CTxMemPoolEntry) : CTxMemPoolEntry :=
  at_set A (upd_desc 1 e0) h (at_set Q (fun e => set_children ({[n]} ∪ m_children e) e) h e).
Definition added : txmap := <[n := new_entry]> (map_update old_entry m).

Context (Hg : graph_ok m) (Hn : m !! n = None) (Hf : fresh e0) (HQ : Q ⊆ dom m)
  (HA : forall x, x ∈ A <-> exists q, q ∈ Q /\ (x = q \/ x ∈ anc_set m q)).

Lemma added_new : added !! n = Some new_entry.
Proof. apply lookup_insert_eq. Qed.
Lemma added_old h : h <> n -> added !! h = old_entry h <$> m !! h.
Proof. intros Hh. unfold added. rewrite lookup_insert_ne by done. apply map_update_lookup. Qed.
Lemma added_dom : dom added = {[n]} ∪ dom m.
Proof. unfold added. rewrite dom_insert_L, map_update_dom. done. Qed.

Lemma n_not_dom : n ∉ dom m.
Proof. apply not_elem_of_dom, Hn. Qed.
Lemma n_not_in X : X ⊆ dom m -> n ∉ X.
Proof. intros HX Hx. apply n_not_dom, HX, Hx. Qed.
Lemma A_in_dom : A ⊆ dom m.
Proof. intros x Hx. apply HA in Hx as (q & Hq & [->|Hx]); [apply HQ, Hq|apply (anc_in_dom m q (g_links m Hg)), Hx]. Qed.

Lemma old_entry_parents h e : m_parents (old_entry h e) = m_parents e.
Proof. unfold old_entry, at_set. destruct (decide (h ∈ Q)), (decide (h ∈ A)); done. Qed.
Lemma old_entry_children h e : m_children (old_entry h e) = if decide (h ∈ Q) then {[n]} ∪ m_children e else m_children e.
Proof. unfold old_entry, at_set. destruct (decide (h ∈ Q)), (decide (h ∈ A)); done. Qed.
Lemma old_entry_weight h e : same_weight (old_entry h e) e.
Proof. unfold old_entry, at_set. destruct (decide (h ∈ Q)), (decide (h ∈ A)); done. Qed.

Lemma added_parents h : parents added h = if decide (h = n) then Q else parents m h.
Proof.
  unfold parents. destruct (decide (h = n)) as [->|Hh]; [rewrite added_new; done|]. rewrite added_old by done.
  destruct (m !! h) as [e|]; cbn [fmap option_fmap option_map from_option]; [apply old_entry_parents|done].
Qed.
Lemma added_children h : children added h = if decide (h = n) then ∅ else if decide (h ∈ Q) then {[n]} ∪ children m h else children m h.
Proof.
  unfold children. destruct (decide (h = n)) as [->|Hh]; [rewrite added_new; apply (fresh_children e0 Hf)|]. rewrite added_old by done.
  destruct (m !! h) as [e|] eqn:E; cbn [fmap option_fmap option_map from_option]; [apply old_entry_children|].
  rewrite decide_False; [done|]. intros Hq. apply HQ, elem_of_dom in Hq as [x Hx]. congruence.
Qed.

Lemma added_links : links_in added.
Proof.
  intros h. rewrite added_parents, added_children, added_dom. pose proof (g_links m Hg h) as [H1 H2].
  destruct (decide (h = n)); [set_solver|]. split; [set_solver|]. destruct (decide (h ∈ Q)); set_solver.
Qed.
Lemma added_mutual : mutual added.
Proof.
  intros q c. rewrite added_parents, added_children. pose proof (g_mutual m Hg q c) as Hm. pose proof (proj1 (g_links m Hg c)) as Hl. pose proof n_not_dom.
  assert (Hcn : c = n -> c ∉ children m q) by (intros -> Hc; apply (proj2 (g_links m Hg q)) in Hc; done).
  destruct (decide (q ∈ Q)), (decide (q = n)), (decide (c = n)); subst; set_solver.
Qed.

(** nothing has the new entry as a parent *)
Lemma added_tc_old h x : h <> n -> tc (parent_of added) h x <-> tc (parent_of m) h x.
Proof.
  intros Hh. assert (Hreach : forall y, rtc (parent_of m) h y -> y <> n).
  { intros y Hy. apply rtc_ind_r with (P := fun y => y <> n) in Hy; [exact Hy|exact Hh|]. intros y' z _ Hyz _ ->. apply n_not_dom, (proj1 (g_links m Hg y')), Hyz. }
  assert (Hreach' : forall y, rtc (parent_of added) h y -> y <> n).
  { intros y Hy. apply (rtc_ind_r (fun y => y <> n)) in Hy; [exact Hy|exact Hh|]. intros y' z _ Hyz Hy' ->. unfold parent_of in Hyz. rewrite added_parents, decide_False in Hyz by exact Hy'.
    apply n_not_dom, (proj1 (g_links m Hg y')), Hyz. }
  split; apply tc_ext_from; intros y Hy; rewrite added_parents; [rewrite decide_False by (apply Hreach', Hy)|rewrite decide_False by (apply Hreach, Hy)]; done.
Qed.
Lemma added_tc_new x : tc (parent_of added) n x <-> x ∈ A.
Proof.
  rewrite HA. assert (HQn : forall q, q ∈ Q -> q <> n) by (intros q Hq ->; apply n_not_dom, HQ, Hq). split.
  - intros Ht. inversion Ht as [a b Hab|a q b Haq Hqb]; subst; unfold parent_of in *; rewrite added_parents, decide_True in * by done; [exists x; auto|].
    exists q. split; [exact Haq|]. right. apply elem_of_anc; [apply (g_links m Hg)|]. apply added_tc_old; [apply HQn, Haq|exact Hqb].
  - intros (q & Hq & Hx). assert (Hnq : parent_of added n q) by (unfold parent_of; rewrite added_parents, decide_True by done; exact Hq).
    destruct Hx as [->|Hx]; [apply tc_once, Hnq|]. eapply tc_l; [exact Hnq|]. apply added_tc_old; [apply HQn, Hq|]. apply elem_of_anc in Hx; [exact Hx|apply (g_links m Hg)].
Qed.

Lemma added_anc h : h <> n -> anc_set added h = anc_set m h.
Proof. intros Hh. apply set_eq. intros x. rewrite !elem_of_anc by (apply added_links || apply (g_links m Hg)). apply added_tc_old, Hh. Qed.
Lemma added_anc_new : anc_set added n = A.
Proof. apply set_eq. intros x. rewrite elem_of_anc by apply added_links. apply added_tc_new. Qed.
Lemma added_desc h : h <> n -> desc_set added h = if decide (h ∈ A) then {[n]} ∪ desc_set m h else desc_set m h.
Proof.
  intros Hh. apply set_eq. intros d. rewrite elem_of_desc by apply added_links. destruct (decide (d = n)) as [->|Hd].
  - rewrite added_tc_new. pose proof (desc_in_dom m h). pose proof n_not_dom. destruct (decide (h ∈ A)); set_solver.
  - rewrite added_tc_old, <- elem_of_desc by (exact Hd || apply (g_links m Hg)). destruct (decide (h ∈ A)); set_solver.
Qed.
Lemma added_desc_new : desc_set added n = ∅.
Proof.
  apply set_eq. intros d. rewrite elem_of_desc by apply added_links. split; [|set_solver]. intros Ht. exfalso.
  destruct (tc_last _ _ _ Ht) as [y Hy]. unfold parent_of in Hy. rewrite added_parents in Hy. destruct (decide (y = n)); [apply n_not_dom, HQ, Hy|apply n_not_dom, (proj1 (g_links m Hg y)), Hy].
Qed.

Lemma added_sum f g X : (f, g) ∈ anc_stats ++ desc_stats -> n ∉ X -> set_sum (val added f) X = set_sum (val m f) X.
Proof.
  intros Hfg HX. apply (same_weights_sum _ _ X f g Hfg). intros h Hh. rewrite added_old by (intros ->; done).
  destruct (m !! h) as [e|]; cbn; [apply old_entry_weight|done].
Qed.
Lemma new_entry_weight : same_weight new_entry e0.
Proof. done. Qed.
Lemma new_entry_anc f g : (f, g) ∈ anc_stats -> g new_entry = f e0 + set_sum (val m f) A.
Proof. intros Hfg. unfold anc_stats in Hfg. repeat (apply elem_of_cons in Hfg as [[= -> ->]|Hfg]; [done|]). apply elem_of_nil in Hfg as []. Qed.
Lemma new_entry_desc f g : (f, g) ∈ desc_stats -> g new_entry = f e0.
Proof.
  intros Hfg. rewrite <- (fresh_stats e0 Hf f g) by (apply elem_of_app; right; exact Hfg).
  unfold desc_stats in Hfg. repeat (apply elem_of_cons in Hfg as [[= -> ->]|Hfg]; [done|]). apply elem_of_nil in Hfg as [].
Qed.
Lemma old_entry_anc f g h e : (f, g) ∈ anc_stats -> g (old_entry h e) = g e.
Proof.
  intros Hfg. unfold old_entry, at_set. assert (Hl : forall c e, g (set_children c e) = g e) by (intros; apply (stat_links f g e1 c ∅ 0); apply elem_of_app; auto).
  destruct (decide (h ∈ A)); [rewrite (upd_desc_anc f g) by exact Hfg|]; destruct (decide (h ∈ Q)); rewrite ?Hl; done.
Qed.
Lemma old_entry_desc f g h e : (f, g) ∈ desc_stats -> g (old_entry h e) = g e + (if decide (h ∈ A) then f e0 else 0).
Proof.
  intros Hfg. unfold old_entry, at_set. assert (Hl : forall c e, g (set_children c e) = g e) by (intros; apply (stat_links f g e1 c ∅ 0); apply elem_of_app; auto).
  destruct (decide (h ∈ A)); [rewrite (upd_desc_desc f g) by exact Hfg|]; destruct (decide (h ∈ Q)); rewrite ?Hl; lia.
Qed.

Lemma added_anc_ok h e f g : added !! h = Some e -> (f, g) ∈ anc_stats -> g e = set_sum (val added f) (up added h).
Proof.
  intros He Hfg. assert (Hfg' : (f, g) ∈ anc_stats ++ desc_stats) by (apply elem_of_app; auto). unfold up.
  destruct (decide (h = n)) as [->|Hh].
  - rewrite added_new in He. injection He as <-. rewrite added_anc_new, set_sum_insert by apply n_not_in, A_in_dom.
    rewrite (added_sum f g A Hfg') by apply n_not_in, A_in_dom.
    rewrite (val_lookup _ _ _ _ added_new), (stat_weight f g _ _ Hfg' new_entry_weight). apply new_entry_anc, Hfg.
  - rewrite added_old in He by exact Hh. destruct (m !! h) as [e1|] eqn:E1; [|done]. injection He as <-. rewrite (old_entry_anc f g) by exact Hfg.
    rewrite added_anc by exact Hh. assert (Hd : h ∈ dom m) by (apply elem_of_dom; eauto).
    rewrite (added_sum f g _ Hfg') by apply n_not_in, (up_in_dom m h Hg Hd). apply (g_anc m Hg h e1 f g E1 Hfg).
Qed.
Lemma added_desc_ok h e f g : added !! h = Some e -> (f, g) ∈ desc_stats -> g e = set_sum (val added f) (down added h).
Proof.
  intros He Hfg. assert (Hfg' : (f, g) ∈ anc_stats ++ desc_stats) by (apply elem_of_app; auto). unfold down.
  destruct (decide (h = n)) as [->|Hh].
  - rewrite added_new in He. injection He as <-. rewrite added_desc_new, union_empty_r_L, set_sum_singleton, (val_lookup _ _ _ _ added_new).
    rewrite (stat_weight f g _ _ Hfg' new_entry_weight). apply new_entry_desc, Hfg.
  - rewrite added_old in He by exact Hh. destruct (m !! h) as [e1|] eqn:E1; [|done]. injection He as <-. rewrite (old_entry_desc f g) by exact Hfg.
    rewrite added_desc by exact Hh. rewrite (g_desc m Hg h e1 f g E1 Hfg). fold (down m h). assert (Hd : h ∈ dom m) by (apply elem_of_dom; eauto).
    pose proof (n_not_in _ (down_in_dom m h Hd)) as Hnot. destruct (decide (h ∈ A)) as [Hin|_].
    + replace ({[h]} ∪ ({[n]} ∪ desc_set m h)) with ({[n]} ∪ down m h) by (unfold down; set_solver +). rewrite set_sum_insert by exact Hnot.
      rewrite (added_sum f g _ Hfg' Hnot), (val_lookup _ _ _ _ added_new), (stat_weight f g _ _ Hfg' new_entry_weight). lia.
    + fold (down m h). rewrite (added_sum f g _ Hfg' Hnot). lia.
Qed.

(** the pool with the new entry has the sums of the old one with it *)
Lemma added_small : small (<[n := e0]> m) -> small added.
Proof.
  assert (Hw : forall f, (forall e e', same_weight e e' -> f e = f e') -> forall h, val added f h = val (<[n := e0]> m) f h).
  { intros f Hs h. unfold val. destruct (decide (h = n)) as [->|Hh]; [rewrite added_new, lookup_insert_eq; cbn; apply Hs, new_entry_weight|].
    rewrite added_old, lookup_insert_ne by done. destruct (m !! h); cbn; [apply Hs, old_entry_weight|done]. }
  unfold small. rewrite added_dom, dom_insert_L. intros (H1 & H2 & H3).
  split_and!; [erewrite set_sum_ext; [exact H1|]|erewrite set_sum_ext; [exact H2|]|erewrite set_sum_ext; [exact H3|]]; intros x _; cbv beta;
    (rewrite Hw; [done|]); intros e e' [Hd Hm]; unfold GetTxSize, GetSigOpCost; congruence.
Qed.

Lemma added_graph_ok : small (<[n := e0]> m) -> graph_ok added.
Proof.
  intros Hs. split; [apply added_links|apply added_mutual| | |apply added_anc_ok|apply added_desc_ok|apply added_small, Hs].
  - intros h Ht. destruct (decide (h = n)) as [->|Hh]; [apply added_tc_new, A_in_dom in Ht; apply n_not_dom, Ht|].
    apply added_tc_old in Ht; [|exact Hh]. apply (g_acyclic m Hg h), Ht.
  - intros h e He. destruct (decide (h = n)) as [->|Hh]; [rewrite added_new in He; injection He as <-; apply (fresh_size e0 Hf)|].
    rewrite added_old in He by exact Hh. destruct (m !! h) as [e1|] eqn:E1; [|done]. injection He as <-. destruct (old_entry_weight h e1) as [Hd _].
    unfold GetTxSize, GetSigOpCost. rewrite Hd. apply (g_sizes m Hg h e1 E1).
Qed.
End addition.
