(* ===== verification/PoolBooks.v ===== *)
(** * The books of the transaction pool

    What the pool keeps beside the graph of its entries: [mapNextTx], the totals, the memory of
    the entries and their links, and [txns_randomized].  Updates of links and of totals over
    ancestors and descendants leave the books in order; [removeUnchecked] takes one entry
    out of all of them. *)

From Stdlib Require Import ZArith Lia Bool.
From stdpp Require Import base numbers list gmap fin_sets sorting relations.
From S2P Require Import Prelude Uint256 Params FeeModel Serialize Primitives TxVerify Coins MempoolEntry TxMempool PoolGraph PoolInvariant.
Local Open Scope Z_scope.

Section books.
Context `{MempoolEnv}.

Definition prevouts (tx : CTransaction) : list COutPoint := map prevout (vin tx).
Definition link_count (e : CTxMemPoolEntry) : Z := Z.of_nat (size (m_parents e)) + Z.of_nat (size (m_children e)).
Definition entry_usage (e : CTxMemPoolEntry) : Z := nUsageSize (entry_data e) + link_usage * link_count e.
(** a sum over the whole pool *)
Definition pool_sum (m : txmap) (f : CTxMemPoolEntry -> Z) : Z := set_sum (val m f) (dom m).

(** [tx]s keyed by their ids, the spent outputs, and the random order *)
Record ledger_ok (m : txmap) (next : gmap COutPoint uint256) (random : list uint256) : Prop := {
  l_keys h e : m !! h = Some e -> entry_hash e = h;
  l_spends o h : next !! o = Some h <-> exists e, m !! h = Some e /\ o ∈ prevouts (GetTx e);
  l_random i h : random !! i = Some h <-> exists e, m !! h = Some e /\ idx_randomized e = i;
}.
Record books_ok (p : CTxMemPool) : Prop := {
  b_ledger : ledger_ok (mapTx p) (mapNextTx p) (txns_randomized p);
  b_size : totalTxSize p = u64 (pool_sum (mapTx p) GetTxSize);
  b_fee : m_total_fee p = pool_sum (mapTx p) EntryFee;
  b_fees : pool_sum (mapTx p) (fun e => Z.abs (EntryFee e)) < 2 ^ 63;
  b_usage : cachedInnerUsage p = u64 (pool_sum (mapTx p) entry_usage);
}.

(** ** Sums over the pool *)

Lemma val_insert m h e f k : val (<[h := e]> m) f k = if decide (k = h) then f e else val m f k.
Proof. unfold val. destruct (decide (k = h)) as [->|Hk]; [rewrite lookup_insert_eq|rewrite lookup_insert_ne by congruence]; done. Qed.

Lemma pool_sum_insert m h e f : m !! h = None -> pool_sum (<[h := e]> m) f = f e + pool_sum m f.
Proof.
  intros Hh. unfold pool_sum. apply not_elem_of_dom in Hh. rewrite dom_insert_L, set_sum_insert by exact Hh. rewrite val_insert, decide_True by done. f_equal.
  apply set_sum_ext. intros x Hx. rewrite val_insert, decide_False; [done|]. intros ->. done.
Qed.
Lemma pool_sum_delete m h e f : m !! h = Some e -> pool_sum (delete h m) f = pool_sum m f - f e.
Proof. intros He. rewrite <- (insert_delete_id m h e He) at 2. rewrite pool_sum_insert by apply lookup_delete_eq. lia. Qed.
Lemma pool_sum_replace m h e e' f : m !! h = Some e -> pool_sum (<[h := e']> m) f = pool_sum m f - f e + f e'.
Proof. intros He. rewrite <- insert_delete_eq, pool_sum_insert by apply lookup_delete_eq. rewrite (pool_sum_delete m h e f He). lia. Qed.
Lemma pool_sum_update m g f : (forall h e, m !! h = Some e -> f (g h e) = f e) -> pool_sum (map_update g m) f = pool_sum m f.
Proof.
  intros Hf. unfold pool_sum. rewrite map_update_dom. apply set_sum_ext. intros h _. unfold val. rewrite map_update_lookup.
  destruct (m !! h) as [e|] eqn:E; cbn; [apply Hf, E|done].
Qed.

(** ** What the books see of an entry *)

Lemma entry_hash_data e e' : entry_data e = entry_data e' -> entry_hash e = entry_hash e'.
Proof. unfold entry_hash, GetTx. intros ->. done. Qed.

Definition same_book (e e' : CTxMemPoolEntry) : Prop := entry_data e = entry_data e' /\ idx_randomized e = idx_randomized e'.

Lemma ledger_replace m next random h e e' : m !! h = Some e -> same_book e e' -> ledger_ok m next random -> ledger_ok (<[h := e']> m) next random.
Proof.
  intros He [Hd Hi] [Hk Hs Hr]. pose proof (entry_hash_data e e' Hd) as Hsame. split.
  - intros k x. destruct (decide (k = h)) as [->|Hne]; [rewrite lookup_insert_eq|rewrite lookup_insert_ne by done; apply Hk].
    intros [= <-]. rewrite <- Hsame. apply Hk, He.
  - intros o k. rewrite Hs. destruct (decide (k = h)) as [->|Hne]; [rewrite lookup_insert_eq, He|rewrite lookup_insert_ne by done; done].
    unfold GetTx. split; intros (x & [= <-] & Hx); eexists; (split; [done|]); [rewrite <- Hd|rewrite Hd]; exact Hx.
  - intros i k. rewrite Hr. destruct (decide (k = h)) as [->|Hne]; [rewrite lookup_insert_eq, He|rewrite lookup_insert_ne by done; done].
    split; intros (x & [= <-] & Hx); eexists; (split; [done|]); congruence.
Qed.

(** an entry whose links may change, with the memory they take *)
Lemma books_replace p h e e' k : mapTx p !! h = Some e -> same_book e e' -> link_count e' = link_count e + k -> books_ok p ->
  books_ok (set_mapTx p (<[h := e']> (mapTx p)) (u64 (cachedInnerUsage p + link_usage * k))).
Proof.
  intros He Hb Hk [Hl Hs Hf Hfs Hu]. destruct Hb as [Hd Hi]. split; cbn [set_mapTx mapTx mapNextTx txns_randomized totalTxSize m_total_fee cachedInnerUsage].
  - apply (ledger_replace _ _ _ h e e'); done.
  - rewrite Hs, (pool_sum_replace _ h e e' _ He). unfold GetTxSize. rewrite Hd. f_equal. lia.
  - rewrite Hf, (pool_sum_replace _ h e e' _ He). unfold EntryFee. rewrite Hd. lia.
  - rewrite (pool_sum_replace _ h e e' _ He). unfold EntryFee in *. rewrite Hd. lia.
  - rewrite Hu, (pool_sum_replace _ h e e' _ He). assert (He' : entry_usage e' = entry_usage e + link_usage * k) by (unfold entry_usage; rewrite Hd, Hk; lia).
    rewrite He'. unfold wrap. rewrite Zplus_mod_idemp_l. f_equal. lia.
Qed.

Lemma books_usage_fits p : books_ok p -> fits 64 (cachedInnerUsage p).
Proof. intros Hb. rewrite (b_usage p Hb). apply wrap_fits. lia. Qed.

Lemma size_add (x : uint256) (X : gset uint256) : x ∉ X -> Z.of_nat (size ({[x]} ∪ X)) = Z.of_nat (size X) + 1.
Proof. intros Hx. rewrite size_union by set_solver. rewrite size_singleton. lia. Qed.
Lemma size_drop (x : uint256) (X : gset uint256) : x ∈ X -> Z.of_nat (size (X ∖ {[x]})) = Z.of_nat (size X) - 1.
Proof. intros Hx. pose proof (size_add x (X ∖ {[x]}) ltac:(set_solver)) as Hs. rewrite <- union_difference_singleton_L in Hs by exact Hx. lia. Qed.

(** ** Updates that keep the books *)

Lemma UpdateChild_books a c add p p' : UpdateChild a c add p = Some p' -> books_ok p -> books_ok p'.
Proof.
  unfold UpdateChild. intros Hu Hb. destruct (mapTx p !! a) as [e|] eqn:He; [|done]. cbn [mbind option_bind] in Hu.
  destruct add; destruct (decide (c ∈ m_children e)) as [Hin|Hin]; injection Hu as <-; try exact Hb.
  - rewrite <- (Z.mul_1_r link_usage). apply (books_replace p a e); [done|done| |exact Hb]. unfold link_count. cbn [m_parents m_children set_children]. rewrite size_add by exact Hin. lia.
  - replace (cachedInnerUsage p - link_usage) with (cachedInnerUsage p + link_usage * -1) by lia.
    apply (books_replace p a e); [done|done| |exact Hb]. unfold link_count. cbn [m_parents m_children set_children]. rewrite size_drop by exact Hin. lia.
Qed.
Lemma UpdateParent_books c a add p p' : UpdateParent c a add p = Some p' -> books_ok p -> books_ok p'.
Proof.
  unfold UpdateParent. intros Hu Hb. destruct (mapTx p !! c) as [e|] eqn:He; [|done]. cbn [mbind option_bind] in Hu.
  destruct add; destruct (decide (a ∈ m_parents e)) as [Hin|Hin]; injection Hu as <-; try exact Hb.
  - rewrite <- (Z.mul_1_r link_usage). apply (books_replace p c e); [done|done| |exact Hb]. unfold link_count. cbn [m_parents m_children set_parents]. rewrite size_add by exact Hin. lia.
  - replace (cachedInnerUsage p - link_usage) with (cachedInnerUsage p + link_usage * -1) by lia.
    apply (books_replace p c e); [done|done| |exact Hb]. unfold link_count. cbn [m_parents m_children set_parents]. rewrite size_drop by exact Hin. lia.
Qed.

(** a change of totals or fees *)
Definition keeps_books (f : CTxMemPoolEntry -> option CTxMemPoolEntry) : Prop :=
  forall e e', f e = Some e' -> same_book e e' /\ m_parents e' = m_parents e /\ m_children e' = m_children e.
Lemma modify_entry_books h f p p' : keeps_books f -> modify_entry h f p = Some p' -> books_ok p -> books_ok p'.
Proof.
  intros Hf. unfold modify_entry, modify. intros Hm Hb. destruct (mapTx p !! h) as [e|] eqn:He; [|done]. cbn [mbind option_bind] in Hm.
  destruct (f e) as [e'|] eqn:Hfe; [|done]. injection Hm as <-. destruct (Hf e e' Hfe) as (Hbk & Hp & Hc).
  unfold set_entries. rewrite <- (wrap_small 64 (cachedInnerUsage p)) by (apply books_usage_fits, Hb). rewrite <- (Z.add_0_r (cachedInnerUsage p)), <- (Z.mul_0_r link_usage).
  apply (books_replace p h e); [done|done| |exact Hb]. unfold link_count. rewrite Hp, Hc. lia.
Qed.
Lemma keeps_books_desc s f c : keeps_books (UpdateDescendantState s f c).
Proof.
  intros e e' He. unfold UpdateDescendantState in He. destruct (int64 (nSizeWithDescendants e + s)); [|done]. cbn [mbind option_bind] in He.
  destruct (_ >? 0); [|done]. destruct (int64 _); [|done]. cbn [mbind option_bind] in He. destruct (_ >? 0); [|done]. injection He as <-. repeat split.
Qed.
Lemma keeps_books_anc s f c g : keeps_books (UpdateAncestorState s f c g).
Proof.
  intros e e' He. unfold UpdateAncestorState in He. destruct (int64 (nSizeWithAncestors e + s)); [|done]. cbn [mbind option_bind] in He.
  destruct (_ >? 0); [|done]. destruct (int64 (m_count_with_ancestors e + c)); [|done]. cbn [mbind option_bind] in He. destruct (_ >? 0); [|done].
  destruct (int64 _); [|done]. cbn [mbind option_bind] in He. destruct (_ >=? 0); [|done]. injection He as <-. repeat split.
Qed.

Lemma for_each_inv {A S} (P : S -> Prop) (body : A -> S -> option S) l : (forall a s s', a ∈ l -> body a s = Some s' -> P s -> P s') ->
  forall s s', for_each body l s = Some s' -> P s -> P s'.
Proof.
  induction l as [|a l IH]; intros Hb s s'; cbn [for_each]; [intros [= <-]; done|]. destruct (body a s) as [s1|] eqn:E; [|done]. cbn [mbind option_bind].
  intros Hf Hs. apply (IH (fun a s s' Ha => Hb a s s' (list_elem_of_further _ _ _ Ha)) s1 s' Hf). apply (Hb a s s1); [left|exact E|exact Hs].
Qed.

(** ** One entry leaves *)

Definition reindex (ix : uint256 -> CTxMemPoolEntry -> nat) (m : txmap) : txmap := map_update (fun h e => set_idx (ix h e) e) m.

Lemma reindex_lookup ix m h : reindex ix m !! h = (fun e => set_idx (ix h e) e) <$> m !! h.
Proof. apply map_update_lookup. Qed.
Lemma reindex_id m : reindex (fun _ e => idx_randomized e) m = m.
Proof. unfold reindex. rewrite (map_update_ext _ (fun _ e => e)); [apply map_update_id|]. intros h [] _. done. Qed.

(** the last entry of the vector takes the place [i] of the one that leaves *)
Lemma swap_last (m : txmap) l it e z xz : (forall i h, l !! i = Some h <-> exists e, m !! h = Some e /\ idx_randomized e = i) ->
  m !! it = Some e -> l !! pred (length l) = Some z -> m !! z = Some xz -> idx_randomized xz = pred (length l) ->
  forall i h, take (length l - 1) (<[idx_randomized e := z]> l) !! i = Some h <->
    h <> it /\ exists x, m !! h = Some x /\ (if decide (h = z) then idx_randomized e else idx_randomized x) = i.
Proof.
  intros Hr He Hz Hxz Hiz i h. assert (Hit : l !! idx_randomized e = Some it) by (apply Hr; eauto). pose proof (lookup_lt_Some _ _ _ Hit) as Hlt.
  destruct (decide (i < length l - 1)%nat) as [Hi|Hi].
  - rewrite lookup_take_lt by exact Hi. destruct (decide (i = idx_randomized e)) as [->|Hne].
    + rewrite list_lookup_insert_eq by exact Hlt. split.
      * intros [= <-]. split; [intros ->; assert (xz = e) by congruence; subst; lia|]. exists xz. rewrite decide_True by done. done.
      * intros (Hh & x & Hx & Hix). destruct (decide (h = z)) as [->|Hhz]; [done|]. assert (l !! idx_randomized x = Some h) by (apply Hr; eauto). congruence.
    + rewrite list_lookup_insert_ne by done. rewrite Hr. split.
      * intros (x & Hx & <-). split; [congruence|]. exists x. split; [done|]. rewrite decide_False; [done|]. intros ->. assert (x = xz) by congruence. subst. lia.
      * intros (Hh & x & Hx & Hix). destruct (decide (h = z)) as [->|Hhz]; [congruence|]. eauto.
  - rewrite lookup_take_ge by lia. split; [done|]. intros (Hh & x & Hx & Hix). exfalso. destruct (decide (h = z)) as [->|Hhz].
    + assert (i = pred (length l)) by lia. subst i. congruence.
    + assert (Hl : l !! i = Some h) by (apply Hr; eauto). pose proof (lookup_lt_Some _ _ _ Hl). replace i with (pred (length l)) in Hl by lia. congruence.
Qed.

Lemma remove_randomized_spec p it e : (forall i h, txns_randomized p !! i = Some h <-> exists e, mapTx p !! h = Some e /\ idx_randomized e = i) ->
  mapTx p !! it = Some e ->
  exists ix random capacity, remove_randomized e p = Some (set_randomized (set_entries p (reindex ix (mapTx p))) random capacity) /\
    forall i h, random !! i = Some h <-> h <> it /\ exists x, mapTx p !! h = Some x /\ ix h x = i.
Proof.
  intros Hr He. set (l := txns_randomized p) in *. assert (Hit : l !! idx_randomized e = Some it) by (apply Hr; eauto). pose proof (lookup_lt_Some _ _ _ Hit) as Hlt.
  unfold remove_randomized. fold l. destruct (decide (1 < length l)%nat) as [Hlong|Hshort].
  - destruct (last l) as [z|] eqn:Hz; [|apply last_None in Hz; rewrite Hz in Hlong; cbn in Hlong; lia]. cbn [mbind option_bind].
    rewrite last_lookup in Hz. destruct (proj1 (Hr _ _) Hz) as (xz & Hxz & Hiz). unfold modify_entry, modify. rewrite Hxz. cbn [mbind option_bind].
    rewrite decide_True by exact Hlt. exists (fun h x => if decide (h = z) then idx_randomized e else idx_randomized x). eexists _, _.
    split; [|apply (swap_last (mapTx p) l it e z xz); done]. f_equal. f_equal. f_equal. rewrite (insert_at_entry z (set_idx (idx_randomized e)) _ _ Hxz).
    apply map_update_ext. intros h x _. unfold at_entry. destruct (decide (h = z)); [done|]. destruct x; done.
  - exists (fun _ x => idx_randomized x). eexists [], _. split; [rewrite reindex_id; unfold set_entries; rewrite set_mapTx_same; done|].
    intros i h. split; [done|]. intros (Hh & x & Hx & Hix). exfalso. assert (Hl : l !! i = Some h) by (apply Hr; eauto). pose proof (lookup_lt_Some _ _ _ Hl).
    assert (i = 0%nat) by lia. assert (idx_randomized e = 0%nat) by lia. congruence.
Qed.

Lemma delete_prevouts tx o : forall next : gmap COutPoint uint256,
  foldl (fun next i => delete (prevout i) next) next (vin tx) !! o = if decide (o ∈ prevouts tx) then None else next !! o.
Proof.
  unfold prevouts. induction (vin tx) as [|i l IH]; intros next; cbn [foldl map]; [rewrite decide_False by (intros Ho; inversion Ho); done|].
  rewrite IH. destruct (decide (o ∈ map prevout l)) as [Ho|Ho]; [rewrite decide_True by (right; exact Ho); done|].
  destruct (decide (o = prevout i)) as [->|Hne]; [rewrite lookup_delete_eq, decide_True by left; done|].
  rewrite lookup_delete_ne by congruence. rewrite decide_False; [done|]. intros Hin. apply elem_of_cons in Hin as [|]; done.
Qed.

Lemma delete_reindex_lookup ix m it h x : delete it (reindex ix m) !! h = Some x <-> h <> it /\ exists y, m !! h = Some y /\ x = set_idx (ix h y) y.
Proof.
  rewrite lookup_delete_Some, reindex_lookup. destruct (m !! h) as [y|]; cbn [fmap option_fmap option_map]; split; intros [Hne Hx].
  - injection Hx as <-. eauto.
  - destruct Hx as (y' & [= <-] & ->). auto.
  - done.
  - destruct Hx as (y & Hy & _). done.
Qed.

Lemma ledger_remove m next random it e ix random' : ledger_ok m next random -> m !! it = Some e ->
  (forall i h, random' !! i = Some h <-> h <> it /\ exists x, m !! h = Some x /\ ix h x = i) ->
  ledger_ok (delete it (reindex ix m)) (foldl (fun next i => delete (prevout i) next) next (vin (GetTx e))) random'.
Proof.
  intros [Hk Hs _] He Hr. split.
  - intros h x Hx. apply delete_reindex_lookup in Hx as (_ & y & Hy & ->). rewrite (entry_hash_data _ y) by done. apply (Hk h y Hy).
  - intros o h. rewrite delete_prevouts. split.
    + destruct (decide (o ∈ prevouts (GetTx e))) as [|Ho]; [done|]. rewrite Hs. intros (y & Hy & Hoy). exists (set_idx (ix h y) y). split; [|exact Hoy].
      apply delete_reindex_lookup. split; [intros ->; congruence|]. eauto.
    + intros (x & Hx & Hox). apply delete_reindex_lookup in Hx as (Hne & y & Hy & ->). assert (Hno : next !! o = Some h) by (apply Hs; eauto).
      rewrite decide_False; [exact Hno|]. intros Ho. assert (next !! o = Some it) by (apply Hs; eauto). congruence.
  - intros i h. rewrite Hr. split.
    + intros (Hne & x & Hx & Hi). exists (set_idx (ix h x) x). split; [apply delete_reindex_lookup; eauto|exact Hi].
    + intros (x & Hx & Hi). apply delete_reindex_lookup in Hx as (Hne & y & Hy & ->). split; [exact Hne|]. exists y. auto.
Qed.

Lemma pool_sum_reindex ix m f : (forall e i, f (set_idx i e) = f e) -> pool_sum (reindex ix m) f = pool_sum m f.
Proof. intros Hf. apply pool_sum_update. intros. apply Hf. Qed.
Lemma pool_sum_leave ix m it e f : (forall e i, f (set_idx i e) = f e) -> m !! it = Some e -> pool_sum (delete it (reindex ix m)) f = pool_sum m f - f e.
Proof.
  intros Hf He. rewrite (pool_sum_delete _ it (set_idx (ix it e) e)) by (rewrite reindex_lookup, He; done). rewrite (pool_sum_reindex ix m f Hf), Hf. done.
Qed.

(** what an operation may change beside the entries and their books *)
Definition same_settings (p p' : CTxMemPool) : Prop := mapDeltas p' = mapDeltas p /\ m_opts p' = m_opts p.

Lemma removeUnchecked_spec it reason p e : books_ok p -> mapTx p !! it = Some e ->
  exists ix p', removeUnchecked it reason p = Some p' /\ books_ok p' /\ mapTx p' = delete it (reindex ix (mapTx p)) /\ same_settings p p'.
Proof.
  intros [Hl Hs Hf Hfs Hu] He. unfold removeUnchecked. rewrite He. cbn [mbind option_bind].
  set (p1 := RemoveUnbroadcastTx _ _). destruct (remove_randomized_spec p1 it e (l_random _ _ _ Hl) He) as (ix & random & capacity & Er & Hr). rewrite Er. cbn [mbind option_bind].
  cbn [m_total_fee set_randomized set_entries set_mapTx]. change (m_total_fee p1) with (m_total_fee p).
  assert (Hfees : pool_sum (delete it (reindex ix (mapTx p))) (fun e => Z.abs (EntryFee e)) < 2 ^ 63).
  { rewrite (pool_sum_leave ix _ it e) by done. lia. }
  assert (Hfee : m_total_fee p - EntryFee e = pool_sum (delete it (reindex ix (mapTx p))) EntryFee) by (rewrite (pool_sum_leave ix _ it e) by done; lia).
  rewrite int64_ok.
  2:{ rewrite Hfee. unfold sfits. pose proof (set_sum_abs (val (delete it (reindex ix (mapTx p))) EntryFee) (dom (delete it (reindex ix (mapTx p))))) as Ha.
      unfold pool_sum in *. rewrite (set_sum_ext (val _ (fun e => Z.abs (EntryFee e))) (fun h => Z.abs (val (delete it (reindex ix (mapTx p))) EntryFee h))) in Hfees; [lia|].
      intros h _. unfold val. destruct (_ !! h); done. }
  cbn [mbind option_bind]. eexists ix, _. split; [done|]. split; [|done]. split; cbn [set_counters set_mapTx set_totals set_randomized set_entries mapTx mapNextTx txns_randomized totalTxSize m_total_fee cachedInnerUsage].
  - apply (ledger_remove _ _ (txns_randomized p)); done.
  - change (totalTxSize p1) with (totalTxSize p). rewrite Hs, (pool_sum_leave ix _ it e) by done. unfold wrap. rewrite Zminus_mod_idemp_l. done.
  - exact Hfee.
  - exact Hfees.
  - change (cachedInnerUsage p1) with (cachedInnerUsage p). rewrite Hu, (pool_sum_leave ix _ it e) by done. unfold wrap. rewrite Zminus_mod_idemp_l, <- Z.sub_add_distr, Zminus_mod_idemp_l. f_equal.
Qed.
End books.
