(* ===== verification/PoolRemoval.v ===== *)
(** * Removals from the transaction pool

    [RemoveStaged] takes a set of entries out of the pool.  Where no path between entries that
    stay goes through one that leaves, the links and totals of what stays are those of the
    smaller pool ([removed_graph_ok]).  The two ways the pool uses it are shown to leave
    that: a set closed under descendants without updates of descendants, and an entry without
    parents in the pool with them. *)

From Stdlib Require Import ZArith Lia Bool.
From stdpp Require Import base numbers list gmap fin_sets sorting relations.
From S2P Require Import Prelude Uint256 Params FeeModel Serialize Primitives TxVerify Coins MempoolEntry TxMempool PoolGraph PoolInvariant PoolBooks.
Local Open Scope Z_scope.

(** ** The graph without a set *)

Section removal.
Context `{MempoolEnv}.
Context (m : txmap) (X : gset uint256).

Definition less_ancestors (Y : gset uint256) (e : CTxMemPoolEntry) : CTxMemPoolEntry :=
  set_ancestors (m_count_with_ancestors e - set_sum (val m one) Y) (nSizeWithAncestors e - set_sum (val m GetTxSize) Y)
    (nModFeesWithAncestors e - set_sum (val m m_modified_fee) Y) (nSigOpCostWithAncestors e - set_sum (val m GetSigOpCost) Y) e.
Definition less_descendants (Y : gset uint256) (e : CTxMemPoolEntry) : CTxMemPoolEntry :=
  set_descendants (m_count_with_descendants e - set_sum (val m one) Y) (nSizeWithDescendants e - set_sum (val m GetTxSize) Y)
    (nModFeesWithDescendants e - set_sum (val m m_modified_fee) Y) e.
Definition removed_entry (h : uint256) (e : CTxMemPoolEntry) : CTxMemPoolEntry :=
  set_parents (m_parents e ∖ X) (set_children (m_children e ∖ X) (less_ancestors (X ∩ anc_set m h) (less_descendants (X ∩ desc_set m h) e))).

Lemma less_ancestors_anc f g Y e : (f, g) ∈ anc_stats -> g (less_ancestors Y e) = g e - set_sum (val m f) Y.
Proof. intros Hf. unfold anc_stats in Hf. repeat (apply elem_of_cons in Hf as [[= -> ->]|Hf]; [done|]). apply elem_of_nil in Hf as []. Qed.
Lemma less_ancestors_desc f g Y e : (f, g) ∈ desc_stats -> g (less_ancestors Y e) = g e.
Proof. intros Hf. unfold desc_stats in Hf. repeat (apply elem_of_cons in Hf as [[= -> ->]|Hf]; [done|]). apply elem_of_nil in Hf as []. Qed.
Lemma less_descendants_desc f g Y e : (f, g) ∈ desc_stats -> g (less_descendants Y e) = g e - set_sum (val m f) Y.
Proof. intros Hf. unfold desc_stats in Hf. repeat (apply elem_of_cons in Hf as [[= -> ->]|Hf]; [done|]). apply elem_of_nil in Hf as []. Qed.
Lemma less_descendants_anc f g Y e : (f, g) ∈ anc_stats -> g (less_descendants Y e) = g e.
Proof. intros Hf. unfold anc_stats in Hf. repeat (apply elem_of_cons in Hf as [[= -> ->]|Hf]; [done|]). apply elem_of_nil in Hf as []. Qed.
Lemma less_ancestors_empty e : less_ancestors ∅ e = e.
Proof. unfold less_ancestors, set_ancestors. rewrite !set_sum_empty, !Z.sub_0_r. destruct e; done. Qed.
Lemma less_descendants_empty e : less_descendants ∅ e = e.
Proof. unfold less_descendants, set_descendants. rewrite !set_sum_empty, !Z.sub_0_r. destruct e; done. Qed.

Context (Hg : graph_ok m)
  (Hfree : forall h y x, h ∉ X -> x ∉ X -> tc (parent_of m) h y -> tc (parent_of m) y x -> y ∉ X).
Context (m' : txmap) (ix : uint256 -> CTxMemPoolEntry -> nat)
  (Hm' : forall h, m' !! h = if decide (h ∈ X) then None else (fun e => set_idx (ix h e) (removed_entry h e)) <$> m !! h).

Lemma removed_lookup h e' : m' !! h = Some e' <-> h ∉ X /\ exists e, m !! h = Some e /\ e' = set_idx (ix h e) (removed_entry h e).
Proof.
  rewrite Hm'. destruct (decide (h ∈ X)) as [Hx|Hx]; [split; [done|intros [? _]; done]|]. rewrite fmap_Some. split; [intros (e & He & ->); eauto|intros [_ He]; exact He].
Qed.
Lemma removed_dom : dom m' = dom m ∖ X.
Proof.
  apply set_eq. intros h. rewrite elem_of_difference, !elem_of_dom. split.
  - intros [e' He']. apply removed_lookup in He' as (Hx & e & He & _). eauto.
  - intros [[e He] Hx]. eexists. apply removed_lookup. eauto.
Qed.
Lemma removed_parents h : parents m' h = if decide (h ∈ X) then ∅ else parents m h ∖ X.
Proof. unfold parents. rewrite Hm'. destruct (decide (h ∈ X)); [done|]. destruct (m !! h); [done|]. cbn. set_solver. Qed.
Lemma removed_children h : children m' h = if decide (h ∈ X) then ∅ else children m h ∖ X.
Proof. unfold children. rewrite Hm'. destruct (decide (h ∈ X)); [done|]. destruct (m !! h); [done|]. cbn. set_solver. Qed.

Lemma removed_links : links_in m'.
Proof.
  intros h. rewrite removed_parents, removed_children, removed_dom. destruct (g_links m Hg h) as [Hp Hc]. destruct (decide (h ∈ X)); set_solver.
Qed.
Lemma removed_mutual : mutual m'.
Proof. intros p c. rewrite removed_parents, removed_children. pose proof (g_mutual m Hg p c). destruct (decide (p ∈ X)), (decide (c ∈ X)); set_solver. Qed.

Lemma removed_step h x : parent_of m' h x <-> h ∉ X /\ x ∉ X /\ parent_of m h x.
Proof. unfold parent_of. rewrite removed_parents. destruct (decide (h ∈ X)); set_solver. Qed.
Lemma removed_tc h x : tc (parent_of m') h x <-> h ∉ X /\ x ∉ X /\ tc (parent_of m) h x.
Proof.
  split.
  - induction 1 as [h x Hhx|h y x Hhy _ IH]; [apply removed_step in Hhx as (? & ? & ?); auto using tc_once|].
    apply removed_step in Hhy as (? & _ & ?). destruct IH as (_ & ? & ?). eauto using tc_l.
  - intros (Hh & Hx & Ht). induction Ht as [h x Hhx|h y x Hhy Hyx IH]; [apply tc_once, removed_step; auto|].
    assert (Hy : y ∉ X) by (apply (Hfree h y x); auto using tc_once). eapply tc_l; [apply removed_step; eauto|]. auto.
Qed.
Lemma removed_anc h : h ∉ X -> anc_set m' h = anc_set m h ∖ X.
Proof.
  intros Hh. apply set_eq. intros x. rewrite elem_of_difference, !elem_of_anc by (apply removed_links || apply (g_links m Hg)). rewrite removed_tc. tauto.
Qed.
Lemma removed_desc h : h ∉ X -> desc_set m' h = desc_set m h ∖ X.
Proof.
  intros Hh. apply set_eq. intros x. rewrite elem_of_difference, !elem_of_desc by (apply removed_links || apply (g_links m Hg)). rewrite removed_tc. tauto.
Qed.

Lemma removed_weight h e : same_weight (removed_entry h e) e.
Proof. done. Qed.
Lemma removed_sum f g Y : (f, g) ∈ anc_stats ++ desc_stats -> Y ## X -> set_sum (val m' f) Y = set_sum (val m f) Y.
Proof.
  intros Hfg HY. apply (same_weights_sum _ _ Y f g Hfg). intros h Hh. rewrite Hm', decide_False by (intros Hx; apply (HY h); done).
  destruct (m !! h); done.
Qed.
(** a sum over an entry and a set, less what leaves *)
Lemma sum_less f h Y : h ∉ X -> set_sum f ({[h]} ∪ Y) - set_sum f (X ∩ Y) = set_sum f ({[h]} ∪ (Y ∖ X)).
Proof.
  intros Hh. rewrite (set_sum_split f ({[h]} ∪ Y) (X ∩ Y)) by set_solver. replace (({[h]} ∪ Y) ∖ (X ∩ Y)) with ({[h]} ∪ (Y ∖ X)); [lia|].
  apply set_eq. intros y. rewrite elem_of_difference, !elem_of_union, elem_of_difference, elem_of_intersection, elem_of_singleton. destruct (decide (y ∈ X)), (decide (y = h)) as [->|]; tauto.
Qed.

Lemma removed_small : small m'.
Proof.
  destruct (g_small m Hg) as (H1 & H2 & H3). assert (Hv : forall f, (forall e e', same_weight e e' -> f e = f e') -> forall h, h ∈ dom m' -> val m' f h = val m f h).
  { intros f Hf h Hh. apply elem_of_dom in Hh as [e' He']. rewrite (val_lookup _ _ _ _ He'). apply removed_lookup in He' as (_ & e & He & ->). rewrite (val_lookup _ _ _ _ He). apply Hf. done. }
  assert (Hw : forall e e', same_weight e e' -> GetTxSize e = GetTxSize e' /\ GetSigOpCost e = GetSigOpCost e' /\ m_modified_fee e = m_modified_fee e').
  { intros e e' [Hd Hf]. unfold GetTxSize, GetSigOpCost. rewrite Hd, Hf. done. }
  assert (Hmono : forall f, (forall h, h ∈ dom m -> 0 <= f h) -> set_sum f (dom m') <= set_sum f (dom m)) by (intros f Hf; apply set_sum_mono; [rewrite removed_dom; set_solver|exact Hf]).
  unfold small. rewrite (set_sum_ext (val m' GetTxSize) (val m GetTxSize)), (set_sum_ext (val m' GetSigOpCost) (val m GetSigOpCost)), (set_sum_ext (fun h => Z.abs (val m' m_modified_fee h)) (fun h => Z.abs (val m m_modified_fee h))).
  - split_and!; (eapply Z.le_lt_trans; [apply Hmono|eassumption]); intros h Hh; apply elem_of_dom in Hh as [e He]; rewrite (val_lookup _ _ _ _ He); destruct (g_sizes m Hg h e He); lia.
  - intros h Hh. f_equal. apply Hv; [apply Hw|exact Hh].
  - intros h Hh. apply Hv; [apply Hw|exact Hh].
  - intros h Hh. apply Hv; [apply Hw|exact Hh].
Qed.

Lemma removed_stats h e f g : (f, g) ∈ anc_stats ++ desc_stats -> g (set_idx (ix h e) (removed_entry h e)) =
  g (less_ancestors (X ∩ anc_set m h) (less_descendants (X ∩ desc_set m h) e)).
Proof.
  intros Hfg. unfold removed_entry. pose proof (fun e c q i => stat_links f g e c q i Hfg) as Hl.
  rewrite (proj2 (proj2 (Hl _ ∅ ∅ _))), (proj1 (proj2 (Hl _ ∅ _ 0%nat))), (proj1 (Hl _ _ ∅ 0%nat)). done.
Qed.

Lemma removed_graph_ok : graph_ok m'.
Proof.
  split; [apply removed_links|apply removed_mutual| | | | |apply removed_small].
  - intros h Ht. apply removed_tc in Ht as (_ & _ & Ht). apply (g_acyclic m Hg h Ht).
  - intros h e' He'. apply removed_lookup in He' as (_ & e & He & ->). apply (g_sizes m Hg h e He).
  - intros h e' f g He' Hfg. assert (Hfg' : (f, g) ∈ anc_stats ++ desc_stats) by (apply elem_of_app; auto).
    apply removed_lookup in He' as (Hx & e & He & ->). rewrite (removed_stats h e f g Hfg'), (less_ancestors_anc f g), (less_descendants_anc f g) by exact Hfg.
    unfold up. rewrite removed_anc, (removed_sum f g) by (done || set_solver). rewrite (g_anc m Hg h e f g He Hfg). apply sum_less, Hx.
  - intros h e' f g He' Hfg. assert (Hfg' : (f, g) ∈ anc_stats ++ desc_stats) by (apply elem_of_app; auto).
    apply removed_lookup in He' as (Hx & e & He & ->). rewrite (removed_stats h e f g Hfg'), (less_ancestors_desc f g), (less_descendants_desc f g) by exact Hfg.
    unfold down. rewrite removed_desc, (removed_sum f g) by (done || set_solver). rewrite (g_desc m Hg h e f g He Hfg). apply sum_less, Hx.
Qed.
End removal.

(** ** The loop over ancestors *)

Section sever.
Context `{MempoolEnv}.
Context (m : txmap) (Hg : graph_ok m).

(** the entries once those of [T] are neither children nor counted as descendants *)
Definition sever (T : gset uint256) (h : uint256) (e : CTxMemPoolEntry) : CTxMemPoolEntry :=
  set_children (m_children e ∖ T) (less_descendants m (T ∩ desc_set m h) e).
Definition severed (T : gset uint256) : txmap := map_update (sever T) m.

Lemma severed_lookup T h : severed T !! h = sever T h <$> m !! h.
Proof. apply map_update_lookup. Qed.
Lemma severed_dom T : dom (severed T) = dom m.
Proof. apply map_update_dom. Qed.
Lemma severed_empty : severed ∅ = m.
Proof.
  unfold severed. rewrite (map_update_ext _ (fun _ e => e)); [apply map_update_id|]. intros h e _. unfold sever.
  rewrite intersection_empty_l_L, difference_empty_L, less_descendants_empty. destruct e; done.
Qed.
Lemma severed_parents T h : parents (severed T) h = parents m h.
Proof. unfold parents. rewrite severed_lookup. destruct (m !! h); done. Qed.
Lemma severed_children T h : children (severed T) h = children m h ∖ T.
Proof. unfold children. rewrite severed_lookup. destruct (m !! h); [done|]. cbn. set_solver. Qed.
Lemma severed_links T : links_in (severed T).
Proof. intros h. rewrite severed_parents, severed_children, severed_dom. destruct (g_links m Hg h). set_solver. Qed.
Lemma severed_anc T h : anc_set (severed T) h = anc_set m h.
Proof.
  apply set_eq. intros x. rewrite !elem_of_anc by (apply severed_links || apply (g_links m Hg)).
  split; apply tc_ext_from; intros y _; rewrite severed_parents; done.
Qed.
Lemma not_own_descendant h : h ∉ desc_set m h.
Proof. rewrite elem_of_desc by apply (g_links m Hg). apply (g_acyclic m Hg). Qed.

(** an entry still counts itself, whatever descendants leave *)
Lemma less_desc_range h e Y : m !! h = Some e -> Y ⊆ desc_set m h ->
  0 < nSizeWithDescendants e - set_sum (val m GetTxSize) Y < 2 ^ 31 /\ 0 < m_count_with_descendants e - set_sum (val m one) Y < 2 ^ 31 /\
  Z.abs (nModFeesWithDescendants e - set_sum (val m m_modified_fee) Y) < 2 ^ 63.
Proof.
  intros He HY. assert (Hd : h ∈ dom m) by (apply elem_of_dom; eauto). assert (Hs : forall f g, (f, g) ∈ desc_stats -> g e - set_sum (val m f) Y = set_sum (val m f) (down m h ∖ Y)).
  { intros f g Hfg. rewrite (g_desc m Hg h e f g He Hfg), (set_sum_split _ (down m h) Y) by (unfold down; set_solver). lia. }
  rewrite (Hs GetTxSize nSizeWithDescendants), (Hs one m_count_with_descendants), (Hs m_modified_fee nModFeesWithDescendants) by (unfold desc_stats; set_solver).
  pose proof (down_in_dom m h Hd) as Hdown. destruct (graph_bounds m (down m h ∖ Y) Hg ltac:(set_solver)) as (H1 & H2 & H3 & H4 & H5).
  assert (0 < Z.of_nat (size (down m h ∖ Y))); [|lia]. assert (size (down m h ∖ Y) <> 0%nat); [|lia]. intros H0. apply size_empty_inv in H0.
  assert (Hh : h ∈ down m h ∖ Y); [|set_solver]. apply elem_of_difference. split; [unfold down; set_solver|]. intros Hy. apply (not_own_descendant h), HY, Hy.
Qed.

Lemma severed_roomy T r e : m !! r = Some e -> roomy (severed T) (GetTxSize e) 1.
Proof.
  intros Hr. destruct (graph_roomy m r e Hg Hr) as [_ Hs Hc]. assert (Hd : r ∈ dom m) by (apply elem_of_dom; eauto).
  assert (Hle : 0 < GetTxSize e < 2 ^ 31).
  { destruct (g_sizes m Hg r e Hr). destruct (graph_bounds m {[r]} Hg ltac:(set_solver)) as (_ & Hb & _). rewrite set_sum_singleton, (val_lookup m _ r e Hr) in Hb. lia. }
  split.
  - intros h x Hx. rewrite severed_lookup in Hx. apply fmap_Some in Hx as (y & Hy & ->). destruct (g_sizes m Hg h y Hy) as [Hp _].
    destruct (less_desc_range h y (T ∩ desc_set m h) Hy ltac:(set_solver)) as (H1 & H2 & _). split; [exact Hp|].
    unfold sever. cbn [nSizeWithDescendants m_count_with_descendants set_children less_descendants set_descendants]. lia.
  - rewrite severed_dom. erewrite set_sum_ext; [exact Hs|]. intros h _. cbv beta. rewrite severed_lookup. destruct (m !! h); done.
  - rewrite <- size_dom, severed_dom, size_dom. exact Hc.
Qed.

(** counting one more entry out *)
Lemma sever_more T r er h e : m !! r = Some er -> m !! h = Some e -> r ∉ T ->
  at_set (anc_set m r) (upd_desc (-1) er) h (at_set (parents m r) (fun e => set_children (m_children e ∖ {[r]}) e) h (sever T h e)) = sever ({[r]} ∪ T) h e.
Proof.
  intros Hr He HT. assert (Hp : h ∈ parents m r -> h ∈ anc_set m r) by (intros Hp; apply elem_of_anc; [apply (g_links m Hg)|]; apply tc_once, Hp).
  assert (Hd : h ∈ anc_set m r <-> r ∈ desc_set m h) by (rewrite elem_of_anc, elem_of_desc by apply (g_links m Hg); done).
  assert (Hc : m_children e ∖ ({[r]} ∪ T) = if decide (h ∈ parents m r) then (m_children e ∖ T) ∖ {[r]} else m_children e ∖ T).
  { pose proof (g_mutual m Hg h r) as Hm. rewrite (children_lookup m h e He) in Hm. destruct (decide (h ∈ parents m r)); set_solver. }
  unfold at_set, sever. rewrite Hc. destruct (decide (h ∈ anc_set m r)) as [Ha|Ha].
  - assert (Hs : forall f, set_sum (val m f) (({[r]} ∪ T) ∩ desc_set m h) = f er + set_sum (val m f) (T ∩ desc_set m h)).
    { intros f. rewrite <- (val_lookup m f r er Hr), <- set_sum_insert by set_solver. f_equal. set_solver. }
    unfold less_descendants. rewrite !Hs. unfold upd_desc, set_descendants, set_children, one.
    destruct (decide (h ∈ parents m r)); cbn; f_equal; lia.
  - replace (({[r]} ∪ T) ∩ desc_set m h) with (T ∩ desc_set m h) by set_solver. destruct (decide (h ∈ parents m r)); [exfalso; tauto|done].
Qed.

Lemma update_ancestors_books r p p' : update_ancestors_for_removal r p = Some p' -> books_ok p -> books_ok p'.
Proof.
  unfold update_ancestors_for_removal, UpdateAncestorsOf. destruct (mapTx p !! r) as [e|]; [|done]. cbn [mbind option_bind].
  destruct (AssumeCalculateMemPoolAncestors p e NoLimits false) as [A|]; [|done]. cbn [mbind option_bind].
  destruct (for_each _ (by_hash (m_parents e)) p) as [p1|] eqn:E1; [|done]. cbn [mbind option_bind]. destruct (int64 _); [|done]. cbn [mbind option_bind]. intros E2 Hb.
  apply (for_each_inv books_ok _ _ (fun a s s' _ Es => modify_entry_books a _ s s' (keeps_books_desc _ _ _) Es) p1 p' E2).
  apply (for_each_inv books_ok _ _ (fun a s s' _ Es => UpdateChild_books a r false s s' Es) p p1 E1 Hb).
Qed.

Lemma update_ancestors_step p T r er : mapTx p = severed T -> books_ok p -> m !! r = Some er -> r ∉ T ->
  exists u, update_ancestors_for_removal r p = Some (set_mapTx p (severed ({[r]} ∪ T)) u).
Proof.
  intros Hp Hb Hr HT. unfold update_ancestors_for_removal. rewrite Hp, severed_lookup, Hr. cbn [mbind option_bind fmap option_fmap option_map].
  rewrite (AssumeCalculateMemPoolAncestors_spec p r (sever T r er)).
  2:{ rewrite Hp. apply severed_links. } 2:{ rewrite Hp, severed_lookup, Hr. done. } 2:{ rewrite Hp. apply (severed_roomy T r er Hr). }
  cbn [mbind option_bind]. rewrite Hp, severed_anc. unfold UpdateAncestorsOf. rewrite Hp, severed_lookup, Hr. cbn [mbind option_bind fmap option_fmap option_map].
  change (m_parents (sever T r er)) with (m_parents er). rewrite <- (parents_lookup m r er Hr).
  rewrite for_each_remove_child; [|apply books_usage_fits, Hb|].
  2:{ intros h Hh. assert (Hd : is_Some (m !! h)) by (apply elem_of_dom, (proj1 (g_links m Hg r)), Hh). destruct Hd as [e He]. exists (sever T h e).
      rewrite Hp, severed_lookup, He. split; [done|]. apply (g_mutual m Hg) in Hh. rewrite (children_lookup m h e He) in Hh. cbn. set_solver. }
  cbn [mbind option_bind]. change (GetTxSize (sever T r er)) with (GetTxSize er). change (m_modified_fee (sever T r er)) with (m_modified_fee er).
  assert (Hdr : {[r]} ⊆ dom m) by (apply singleton_subseteq_l, elem_of_dom; eauto). destruct (graph_bounds m {[r]} Hg Hdr) as (_ & _ & _ & Hfee & _).
  rewrite set_sum_singleton, (val_lookup m _ r er Hr) in Hfee. rewrite int64_ok by (unfold sfits; lia). cbn [mbind option_bind].
  rewrite (for_each_modify _ (upd_desc (-1) er)).
  - eexists. cbn [mapTx set_mapTx]. unfold set_entries. rewrite set_mapTx_twice. f_equal. f_equal. rewrite Hp. unfold severed. rewrite !map_update_update. apply map_update_ext. intros h e He. apply (sever_more T r er h e Hr He HT).
  - intros h Hh. assert (Hd : is_Some (m !! h)) by (apply elem_of_dom, (anc_in_dom m r (g_links m Hg)), Hh). destruct Hd as [e He].
    cbn [mapTx set_mapTx]. rewrite Hp, map_update_lookup, severed_lookup, He. eexists. split; [done|].
    assert (Hrd : r ∈ desc_set m h) by (apply elem_of_desc; [apply (g_links m Hg)|]; apply elem_of_anc; [apply (g_links m Hg)|exact Hh]).
    destruct (less_desc_range h e ({[r]} ∪ (T ∩ desc_set m h)) He ltac:(set_solver)) as (H1 & H2 & H3).
    assert (Hnot : r ∉ T ∩ desc_set m h) by (intros Hx; apply elem_of_intersection in Hx as [Hx _]; done).
    rewrite set_sum_insert, (val_lookup m _ r er Hr) in H1 by exact Hnot. rewrite set_sum_insert, (val_lookup m _ r er Hr) in H2 by exact Hnot.
    rewrite set_sum_insert, (val_lookup m _ r er Hr) in H3 by exact Hnot. change (one er) with 1 in H2.
    unfold upd_desc. destruct (decide (h ∈ parents m r)) as [Hpar|Hpar]; unfold at_set; [rewrite decide_True by exact Hpar|rewrite decide_False by exact Hpar];
      apply UpdateDescendantState_ok; cbn [set_children sever less_descendants set_descendants nSizeWithDescendants m_count_with_descendants nModFeesWithDescendants]; lia.
Qed.
End sever.

(** ** The invariant, and what is kept *)

Section staged.
Context `{MempoolEnv}.

(** links, totals and books that agree, whatever entries are linked *)
Record linked (p : CTxMemPool) : Prop := { li_graph : graph_ok (mapTx p); li_books : books_ok p }.

Record pool_ok (p : CTxMemPool) : Prop := {
  po_graph : graph_ok (mapTx p);
  po_books : books_ok p;
  po_parents h e : mapTx p !! h = Some e -> m_parents e = filter (fun q => q ∈ dom (mapTx p)) (parent_transactions (GetTx e));
}.

Lemma pool_linked p : pool_ok p -> linked p.
Proof. intros [Hg Hb _]. split; assumption. Qed.

(** what never changes of an entry while others come and go *)
Definition essence (e : CTxMemPoolEntry) : EntryData * Z * LockPoints := (entry_data e, m_modified_fee e, lockPoints e).
(** [p'] is [p] without the entries of [X] *)
Record left_out (X : gset uint256) (p p' : CTxMemPool) : Prop := {
  lo_ok : pool_ok p';
  lo_entries h : essence <$> mapTx p' !! h = if decide (h ∈ X) then None else essence <$> mapTx p !! h;
  lo_settings : same_settings p p';
}.

(** the same, with the links that stay *)
Record cut (X : gset uint256) (p p' : CTxMemPool) : Prop := {
  cu_linked : linked p';
  cu_entries h : essence <$> mapTx p' !! h = if decide (h ∈ X) then None else essence <$> mapTx p !! h;
  cu_parents h e' : mapTx p' !! h = Some e' -> exists e, mapTx p !! h = Some e /\ essence e' = essence e /\ m_parents e' = m_parents e ∖ X;
  cu_settings : same_settings p p';
}.

Lemma cut_dom X p p' : cut X p p' -> dom (mapTx p') = dom (mapTx p) ∖ X.
Proof.
  intros [_ He _ _]. apply set_eq. intros h. rewrite elem_of_difference, !elem_of_dom, <- !not_eq_None_Some. specialize (He h).
  destruct (decide (h ∈ X)), (mapTx p' !! h), (mapTx p !! h); cbn in He; try done; split; (tauto || (intros [? ?]; done) || done).
Qed.

Lemma cut_left_out X p p' : pool_ok p -> cut X p p' -> left_out X p p'.
Proof.
  intros Hok Hc. pose proof (cut_dom X p p' Hc) as Hdom. destruct Hc as [[Hg Hb] He Hp Hs]. split; [|exact He|exact Hs]. split; [exact Hg|exact Hb|].
  intros h e' He'. destruct (Hp h e' He') as (e & Hx & Hee & ->). injection Hee as Hd _ _. unfold GetTx. rewrite Hd, (po_parents p Hok h e Hx), Hdom.
  apply set_eq. intros q. unfold GetTx. rewrite elem_of_difference, !elem_of_filter, elem_of_difference. tauto.
Qed.
Lemma left_out_dom X p p' : left_out X p p' -> dom (mapTx p') = dom (mapTx p) ∖ X.
Proof.
  intros [_ He _]. apply set_eq. intros h. rewrite elem_of_difference, !elem_of_dom, <- !not_eq_None_Some. specialize (He h).
  destruct (decide (h ∈ X)), (mapTx p' !! h), (mapTx p !! h); cbn in He; try done; split; (tauto || (intros [? ?]; done) || done).
Qed.

(** the entries leave one by one *)
Lemma remove_loop reason l : NoDup l -> forall p, books_ok p -> (forall h, h ∈ l -> is_Some (mapTx p !! h)) ->
  exists ix p', for_each (fun it => removeUnchecked it reason) l p = Some p' /\ books_ok p' /\ same_settings p p' /\
    forall h, mapTx p' !! h = if decide (h ∈ l) then None else (fun e => set_idx (ix h e) e) <$> mapTx p !! h.
Proof.
  induction 1 as [|it l Hit Hnd IH]; intros p Hb Hin; cbn [for_each].
  - exists (fun _ e => idx_randomized e), p. split_and!; [done|done|done|]. intros h. rewrite decide_False by (intros Hx; inversion Hx). destruct (mapTx p !! h) as [[]|]; done.
  - destruct (Hin it ltac:(left)) as [e He]. destruct (removeUnchecked_spec it reason p e Hb He) as (ix1 & p1 & E1 & Hb1 & Hm1 & [Hd1 Ho1]). rewrite E1. cbn [mbind option_bind].
    destruct (IH p1 Hb1) as (ix2 & p2 & E2 & Hb2 & [Hd2 Ho2] & Hm2).
    { intros h Hh. rewrite Hm1, lookup_delete_ne, reindex_lookup by (intros ->; done). destruct (Hin h ltac:(right; exact Hh)) as [x Hx]. rewrite Hx. eauto. }
    exists (fun h e => ix2 h (set_idx (ix1 h e) e)), p2. split_and!; [exact E2|exact Hb2|split; congruence|]. intros h. rewrite Hm2, Hm1.
    destruct (decide (h ∈ l)) as [Hl|Hl]; [rewrite decide_True by (right; exact Hl); done|]. destruct (decide (h = it)) as [->|Hne].
    + rewrite lookup_delete_eq, decide_True by left. done.
    + rewrite lookup_delete_ne, reindex_lookup by congruence. rewrite decide_False by (intros Hx; apply elem_of_cons in Hx as [|]; done). destruct (mapTx p !! h); done.
Qed.

(** both uses of [RemoveStaged]: the graph is the smaller one, and the books follow *)
Lemma staged_removal X p p1 reason : linked p -> X ⊆ dom (mapTx p) -> books_ok p1 -> same_settings p p1 ->
  (forall h y x, h ∉ X -> x ∉ X -> tc (parent_of (mapTx p)) h y -> tc (parent_of (mapTx p)) y x -> y ∉ X) ->
  dom (mapTx p1) = dom (mapTx p) -> (forall h e, h ∉ X -> mapTx p !! h = Some e -> mapTx p1 !! h = Some (removed_entry (mapTx p) X h e)) ->
  exists p', for_each (fun it => removeUnchecked it reason) (by_hash X) p1 = Some p' /\ cut X p p'.
Proof.
  intros [Hg Hb] HX Hb1 [Hd1 Ho1] Hfree Hdom Hent. destruct (remove_loop reason (by_hash X) (by_hash_NoDup X) p1 Hb1) as (ix & p' & E & Hb' & [Hd' Ho'] & Hm').
  { intros h Hh. apply elem_of_by_hash in Hh. apply elem_of_dom. rewrite Hdom. apply HX, Hh. }
  set (ix' := fun h e => ix h (removed_entry (mapTx p) X h e)). set (m := mapTx p) in *.
  assert (Hrem : forall h, mapTx p' !! h = if decide (h ∈ X) then None else (fun e => set_idx (ix' h e) (removed_entry m X h e)) <$> m !! h).
  { intros h. rewrite Hm'. destruct (decide (h ∈ X)) as [Hx|Hx]; [rewrite decide_True by (apply elem_of_by_hash; exact Hx); done|].
    rewrite decide_False by (intros Hy; apply elem_of_by_hash in Hy; done). destruct (m !! h) as [e|] eqn:He; [rewrite (Hent h e Hx He); done|].
    assert (Hn : mapTx p1 !! h = None) by (apply not_elem_of_dom; rewrite Hdom; apply not_elem_of_dom, He). rewrite Hn. done. }
  exists p'. split; [exact E|]. split.
  - split; [apply (removed_graph_ok m X Hg Hfree _ ix' Hrem)|exact Hb'].
  - intros h. rewrite Hrem. destruct (decide (h ∈ X)); [done|]. fold m. destruct (m !! h); done.
  - intros h e' He'. apply (removed_lookup m X _ ix' Hrem) in He' as (_ & e & He & ->). exists e. done.
  - split; congruence.
Qed.

(** *** A set closed under descendants *)

Lemma update_ancestors_loop m l : graph_ok m -> NoDup l -> forall T p, (forall h, h ∈ l -> h ∈ dom m /\ h ∉ T) -> mapTx p = severed m T -> books_ok p ->
  exists u, for_each update_ancestors_for_removal l p = Some (set_mapTx p (severed m (list_to_set l ∪ T)) u) /\ books_ok (set_mapTx p (severed m (list_to_set l ∪ T)) u).
Proof.
  intros Hg. induction 1 as [|r l Hr Hnd IH]; intros T p Hl Hp Hb; cbn [for_each list_to_set].
  - exists (cachedInnerUsage p). rewrite union_empty_l_L, <- Hp, set_mapTx_same. done.
  - destruct (Hl r ltac:(left)) as [Hd HT]. apply elem_of_dom in Hd as [er Her]. destruct (update_ancestors_step m Hg p T r er Hp Hb Her HT) as [u E]. rewrite E. cbn [mbind option_bind].
    pose proof (update_ancestors_books r p _ E Hb) as Hb1. destruct (IH ({[r]} ∪ T) (set_mapTx p (severed m ({[r]} ∪ T)) u)) as (u' & E' & Hb').
    + intros h Hh. destruct (Hl h ltac:(right; exact Hh)) as [Hhd HhT]. split; [exact Hhd|]. apply not_elem_of_union. split; [|exact HhT]. intros Hx. apply elem_of_singleton in Hx as ->. done.
    + done.
    + exact Hb1.
    + exists u'. rewrite set_mapTx_twice in E', Hb'. replace ({[r]} ∪ list_to_set l ∪ T) with (list_to_set l ∪ ({[r]} ∪ T)) by set_solver. done.
Qed.

Lemma no_children_left m p u X l : graph_ok m -> (forall r, r ∈ l -> r ∈ dom m /\ children m r ⊆ X) ->
  for_each UpdateChildrenForRemoval l (set_mapTx p (severed m X) u) = Some (set_mapTx p (severed m X) u).
Proof.
  intros Hg. induction l as [|r l IH]; intros Hl; cbn [for_each]; [done|]. destruct (Hl r ltac:(left)) as [Hd Hc]. apply elem_of_dom in Hd as [e He].
  assert (E : UpdateChildrenForRemoval r (set_mapTx p (severed m X) u) = Some (set_mapTx p (severed m X) u)).
  { unfold UpdateChildrenForRemoval. cbn [mapTx set_mapTx]. rewrite severed_lookup, He. cbn [mbind option_bind fmap option_fmap option_map].
    rewrite (children_lookup m r e He) in Hc. replace (m_children (sever m X r e)) with (∅ : gset uint256) by (cbn; set_solver). rewrite by_hash_empty. done. }
  rewrite E. cbn [mbind option_bind]. apply IH. intros k Hk. apply Hl. right. exact Hk.
Qed.

Definition closed_below (m : txmap) (X : gset uint256) : Prop := X ⊆ dom m /\ forall h, h ∈ X -> desc_set m h ⊆ X.

Lemma removed_is_severed m X h e : graph_ok m -> closed_below m X -> h ∉ X -> m !! h = Some e -> removed_entry m X h e = sever m X h e.
Proof.
  intros Hg [_ HX] Hh He. assert (Ha : X ∩ anc_set m h = ∅).
  { apply set_eq. intros x. split; [|set_solver]. intros Hx. apply elem_of_intersection in Hx as [Hx Ha]. exfalso. apply Hh, (HX x Hx).
    apply elem_of_desc; [apply (g_links m Hg)|]. apply elem_of_anc in Ha; [exact Ha|apply (g_links m Hg)]. }
  assert (Hp : m_parents e ∖ X = m_parents e).
  { rewrite <- (parents_lookup m h e He). assert (Hpa : parents m h ⊆ anc_set m h); [|set_solver]. intros q Hq. apply elem_of_anc; [apply (g_links m Hg)|]. apply tc_once, Hq. }
  unfold removed_entry. rewrite Ha, less_ancestors_empty, Hp. unfold sever. destruct e; done.
Qed.

Lemma RemoveStaged_cut X reason p : linked p -> closed_below (mapTx p) X -> exists p', RemoveStaged X false reason p = Some p' /\ cut X p p'.
Proof.
  intros Hok HX. pose proof (li_graph p Hok) as Hg. destruct (update_ancestors_loop (mapTx p) (by_hash X) Hg (by_hash_NoDup X) ∅ p) as (u & E & Hb).
  - intros h Hh. apply elem_of_by_hash in Hh. split; [apply HX, Hh|set_solver].
  - symmetry. apply severed_empty.
  - apply li_books, Hok.
  - rewrite set_of_by_hash, union_empty_r_L in E, Hb. unfold RemoveStaged, UpdateForRemoveFromMempool. cbn [mbind option_bind]. rewrite E. cbn [mbind option_bind].
    rewrite (no_children_left (mapTx p) p u X (by_hash X) Hg).
    2:{ intros r Hr. apply elem_of_by_hash in Hr. split; [apply HX, Hr|]. intros c Hc. apply (proj2 HX r Hr), elem_of_desc; [apply (g_links _ Hg)|]. apply tc_once, (g_mutual _ Hg), Hc. }
    cbn [mbind option_bind]. apply (staged_removal X p (set_mapTx p (severed (mapTx p) X) u)).
    + exact Hok.
    + apply HX.
    + exact Hb.
    + done.
    + intros h y x Hh _ Ht _ Hy. apply Hh, (proj2 HX y Hy), elem_of_desc; [apply (g_links _ Hg)|exact Ht].
    + apply severed_dom.
    + intros h e Hh He. cbn [mapTx set_mapTx]. rewrite severed_lookup, He, (removed_is_severed _ X h e Hg HX Hh He). done.
Qed.
Lemma RemoveStaged_closed X reason p : pool_ok p -> closed_below (mapTx p) X -> exists p', RemoveStaged X false reason p = Some p' /\ left_out X p p'.
Proof.
  intros Hok HX. destruct (RemoveStaged_cut X reason p (pool_linked p Hok) HX) as (p' & E & Hc). exists p'. split; [exact E|]. apply (cut_left_out X p p' Hok Hc).
Qed.

(** *** An entry without parents in the pool *)

Lemma by_hash_singleton r : by_hash {[r]} = [r].
Proof. apply Permutation_singleton_r. rewrite by_hash_perm, elements_singleton. done. Qed.

Lemma less_anc_range m h e r er : graph_ok m -> m !! h = Some e -> m !! r = Some er -> r ∈ anc_set m h ->
  0 < nSizeWithAncestors e - GetTxSize er < 2 ^ 31 /\ 0 < m_count_with_ancestors e - 1 < 2 ^ 31 /\
  Z.abs (nModFeesWithAncestors e - m_modified_fee er) < 2 ^ 63 /\ 0 <= nSigOpCostWithAncestors e - GetSigOpCost er < 2 ^ 31.
Proof.
  intros Hg He Hr Ha. assert (Hs : forall f g, (f, g) ∈ anc_stats -> g e - f er = set_sum (val m f) (up m h ∖ {[r]})).
  { intros f g Hfg. rewrite (g_anc m Hg h e f g He Hfg), (set_sum_remove _ r (up m h)), (val_lookup m f r er Hr) by (unfold up; set_solver). lia. }
  rewrite (Hs GetTxSize nSizeWithAncestors), (Hs m_modified_fee nModFeesWithAncestors), (Hs GetSigOpCost nSigOpCostWithAncestors) by (unfold anc_stats; set_solver).
  assert (H0 : m_count_with_ancestors e - 1 = set_sum (val m one) (up m h ∖ {[r]})) by (apply (Hs one m_count_with_ancestors); unfold anc_stats; set_solver). rewrite H0.
  assert (Hd : h ∈ dom m) by (apply elem_of_dom; eauto). pose proof (up_in_dom m h Hg Hd) as Hup.
  destruct (graph_bounds m (up m h ∖ {[r]}) Hg ltac:(set_solver)) as (H1 & H2 & H3 & H4 & H5).
  assert (0 < Z.of_nat (size (up m h ∖ {[r]}))); [|lia]. assert (size (up m h ∖ {[r]}) <> 0%nat); [|lia]. intros Hz. apply size_empty_inv in Hz.
  assert (Hh : h ∈ up m h ∖ {[r]}); [|set_solver]. apply elem_of_difference. split; [unfold up; set_solver|]. intros Hx. apply elem_of_singleton in Hx as ->.
  apply elem_of_anc in Ha; [|apply (g_links m Hg)]. apply (g_acyclic m Hg r Ha).
Qed.

(** the entries once [r] is neither a parent nor counted as an ancestor *)
Definition confirm (m : txmap) (r : uint256) (er : CTxMemPoolEntry) (h : uint256) (e : CTxMemPoolEntry) : CTxMemPoolEntry :=
  at_set (m_children er) (fun e => set_parents (m_parents e ∖ {[r]}) e) h (at_set (desc_set m r) (upd_anc (-1) er) h e).

Lemma confirm_removed m r er h e : graph_ok m -> m !! r = Some er -> m_parents er = ∅ -> h <> r -> m !! h = Some e ->
  confirm m r er h e = removed_entry m {[r]} h e.
Proof.
  intros Hg Hr Hnp Hne He. pose proof (g_links m Hg) as Hl.
  assert (Hdesc : h ∈ desc_set m r <-> r ∈ anc_set m h) by (rewrite elem_of_anc, elem_of_desc by exact Hl; done).
  assert (Hchild : h ∈ m_children er <-> r ∈ m_parents e).
  { pose proof (g_mutual m Hg r h) as Hm. rewrite (children_lookup m r er Hr), (parents_lookup m h e He) in Hm. exact Hm. }
  assert (Hcd : h ∈ m_children er -> h ∈ desc_set m r).
  { intros Hc. apply elem_of_desc; [exact Hl|]. apply tc_once. unfold parent_of. rewrite (parents_lookup m h e He). apply Hchild, Hc. }
  assert (Hno : forall x, r ∉ children m x) by (intros x Hx; apply (g_mutual m Hg) in Hx; rewrite (parents_lookup m r er Hr), Hnp in Hx; set_solver).
  assert (Hnd : {[r]} ∩ desc_set m h = ∅).
  { apply set_eq. intros x. split; [|set_solver]. intros Hx. apply elem_of_intersection in Hx as [Hx Hd]. apply elem_of_singleton in Hx as ->. exfalso.
    apply elem_of_desc in Hd; [|exact Hl]. inversion Hd as [a b Hab|a q b Hab]; subst; unfold parent_of in Hab; rewrite (parents_lookup m r er Hr), Hnp in Hab; set_solver. }
  assert (Hc : m_children e ∖ {[r]} = m_children e) by (specialize (Hno h); rewrite (children_lookup m h e He) in Hno; set_solver).
  unfold removed_entry, confirm, at_set. rewrite Hnd, less_descendants_empty, Hc. destruct (decide (h ∈ desc_set m r)) as [Hd|Hd].
  - replace ({[r]} ∩ anc_set m h) with ({[r]} : gset uint256) by (apply Hdesc in Hd; set_solver). unfold less_ancestors. rewrite !set_sum_singleton, !(val_lookup m _ r er Hr).
    destruct (decide (h ∈ m_children er)) as [Hh|Hh]; unfold upd_anc, set_ancestors, set_parents, set_children, one; cbn; f_equal; try lia.
    rewrite Hchild in Hh. set_solver.
  - replace ({[r]} ∩ anc_set m h) with (∅ : gset uint256) by (rewrite Hdesc in Hd; set_solver). rewrite less_ancestors_empty. destruct (decide (h ∈ m_children er)) as [Hh|Hh]; [tauto|].
    rewrite Hchild in Hh. replace (m_parents e ∖ {[r]}) with (m_parents e) by set_solver. destruct e; done.
Qed.

Lemma update_descendants_spec p r er : graph_ok (mapTx p) -> books_ok p -> mapTx p !! r = Some er ->
  let m1 := map_update (at_set (desc_set (mapTx p) r) (upd_anc (-1) er)) (mapTx p) in
  update_descendants_for_removal r p = Some (set_entries p m1) /\ books_ok (set_entries p m1).
Proof.
  intros Hg Hb Hr m1. assert (Hd : r ∈ dom (mapTx p)) by (apply elem_of_dom; eauto). pose proof (g_links _ Hg) as Hl.
  assert (E : update_descendants_for_removal r p = Some (set_entries p m1)).
  { unfold update_descendants_for_removal. rewrite (CalculateDescendants_spec (mapTx p) r ∅ Hl (g_mutual _ Hg) Hd) by set_solver. cbn [mbind option_bind]. rewrite Hr. cbn [mbind option_bind].
    destruct (graph_bounds (mapTx p) {[r]} Hg ltac:(set_solver)) as (_ & Hsz & Hsig & Hfee & _). rewrite set_sum_singleton, (val_lookup _ _ r er Hr) in Hfee. rewrite set_sum_singleton, (val_lookup _ _ r er Hr) in Hsig.
    rewrite int64_ok by (unfold sfits; lia). cbn [mbind option_bind]. rewrite swrap_small by (unfold sfits; lia).
    replace ((∅ ∪ ({[r]} ∪ desc_set (mapTx p) r)) ∖ {[r]}) with (desc_set (mapTx p) r) by (pose proof (not_own_descendant _ Hg r); set_solver).
    rewrite (for_each_modify _ (upd_anc (-1) er)); [done|]. intros h Hh. pose proof (desc_in_dom _ _ _ Hh) as Hhd. apply elem_of_dom in Hhd as [e He]. exists e. split; [exact He|].
    assert (Ha : r ∈ anc_set (mapTx p) h) by (apply elem_of_anc; [exact Hl|]; apply elem_of_desc in Hh; [exact Hh|exact Hl]).
    destruct (less_anc_range _ h e r er Hg He Hr Ha) as (H1 & H2 & H3 & H4). rewrite UpdateAncestorState_ok by lia. done. }
  split; [exact E|]. unfold update_descendants_for_removal in E. destruct (CalculateDescendants (mapTx p) r ∅) as [D|]; [|done]. cbn [mbind option_bind] in E. rewrite Hr in E. cbn [mbind option_bind] in E.
  destruct (int64 _); [|done]. cbn [mbind option_bind] in E.
  apply (for_each_inv books_ok _ _ (fun a s s' _ Es => modify_entry_books a _ s s' (keeps_books_anc _ _ _ _) Es) p _ E Hb).
Qed.

(** no ancestors to update *)
Lemma update_ancestors_none p r er : mapTx p !! r = Some er -> m_parents er = ∅ -> Z.abs (m_modified_fee er) < 2 ^ 63 -> update_ancestors_for_removal r p = Some p.
Proof.
  intros Hr Hnp Hfee. unfold update_ancestors_for_removal. rewrite Hr. cbn [mbind option_bind]. unfold AssumeCalculateMemPoolAncestors, CalculateMemPoolAncestors, CalculateAncestorsAndCheckLimits.
  rewrite Hnp. assert (E : forall fuel s, ancestors_loop fuel (mapTx p) NoLimits s 1 ∅ ∅ s = Some (inr ∅)) by (intros []; reflexivity).
  rewrite E. cbn [mbind option_bind]. unfold UpdateAncestorsOf. rewrite Hr. cbn [mbind option_bind]. rewrite Hnp, by_hash_empty. cbn [for_each mbind option_bind].
  rewrite int64_ok by (unfold sfits; lia). done.
Qed.

Lemma RemoveStaged_confirmed r reason p : pool_ok p -> r ∈ dom (mapTx p) -> parents (mapTx p) r = ∅ ->
  exists p', RemoveStaged {[r]} true reason p = Some p' /\ left_out {[r]} p p'.
Proof.
  intros Hok Hd Hnp. pose proof (po_graph p Hok) as Hg. pose proof Hd as Hrd. apply elem_of_dom in Hrd as [er Hr]. rewrite (parents_lookup _ r er Hr) in Hnp.
  destruct (update_descendants_spec p r er Hg (po_books p Hok) Hr) as [E1 Hb1]. set (m1 := map_update _ _) in *.
  assert (Hr1 : m1 !! r = Some er).
  { unfold m1. rewrite map_update_lookup, Hr. cbn. unfold at_set. rewrite decide_False by apply (not_own_descendant _ Hg r). done. }
  assert (Hfee : Z.abs (m_modified_fee er) < 2 ^ 63).
  { destruct (graph_bounds (mapTx p) {[r]} Hg ltac:(set_solver)) as (_ & _ & _ & Hf & _). rewrite set_sum_singleton, (val_lookup _ _ r er Hr) in Hf. exact Hf. }
  assert (E3 : exists u, UpdateChildrenForRemoval r (set_entries p m1) = Some (set_mapTx p (map_update (confirm (mapTx p) r er) (mapTx p)) u)).
  { unfold UpdateChildrenForRemoval. cbn [mapTx set_entries set_mapTx]. rewrite Hr1. cbn [mbind option_bind]. rewrite for_each_remove_parent; [|apply books_usage_fits, Hb1|].
    - eexists. unfold set_entries. rewrite set_mapTx_twice. cbn [mapTx set_mapTx]. unfold m1. rewrite map_update_update. done.
    - intros c Hc. assert (Hp : r ∈ parents (mapTx p) c) by (apply (g_mutual _ Hg); rewrite (children_lookup _ r er Hr); exact Hc).
      unfold parents in Hp. cbn [mapTx set_entries set_mapTx]. unfold m1. rewrite map_update_lookup. destruct (mapTx p !! c) as [e|]; [|set_solver]. eexists. split; [done|].
      unfold at_set. destruct (decide _); exact Hp. }
  destruct E3 as [u E3]. assert (Hb3 : books_ok (set_mapTx p (map_update (confirm (mapTx p) r er) (mapTx p)) u)).
  { unfold UpdateChildrenForRemoval in E3. cbn [mapTx set_entries set_mapTx] in E3. rewrite Hr1 in E3. cbn [mbind option_bind] in E3.
    apply (for_each_inv books_ok _ _ (fun a s s' _ Es => UpdateParent_books a r false s s' Es) _ _ E3 Hb1). }
  unfold RemoveStaged, UpdateForRemoveFromMempool. rewrite by_hash_singleton. cbn [for_each]. rewrite E1. cbn [mbind option_bind].
  rewrite (update_ancestors_none (set_entries p m1) r er Hr1 Hnp Hfee). cbn [mbind option_bind]. rewrite E3. cbn [mbind option_bind].
  destruct (staged_removal {[r]} p (set_mapTx p (map_update (confirm (mapTx p) r er) (mapTx p)) u) reason (pool_linked p Hok)) as (p' & E & Hlo); [set_solver|exact Hb3|done| | | |].
  - intros h y x _ _ _ Hyx Hy. apply elem_of_singleton in Hy as ->. inversion Hyx as [a b Hab|a q b Hab]; subst; unfold parent_of in Hab; rewrite (parents_lookup _ r er Hr), Hnp in Hab; set_solver.
  - apply map_update_dom.
  - intros h e Hh He. cbn [mapTx set_mapTx]. rewrite map_update_lookup, He. cbn. f_equal. apply confirm_removed; try done. intros ->. set_solver.
  - exists p'. rewrite by_hash_singleton in E. cbn [for_each] in E. split; [exact E|]. apply (cut_left_out _ p p' Hok Hlo).
Qed.
End staged.
