(* ===== verification/PoolAdd.v ===== *)
(** * Additions to the transaction pool

    [ChangeSet::Apply] inserts an entry that counts only itself, and [addNewTransaction] links it
    to its parents, counts it in its ancestors and its ancestors in it, and enters it
    in the books.  The result is the pool of [PoolInvariant.added]. *)

From Stdlib Require Import ZArith Lia Bool.
From stdpp Require Import base numbers list gmap fin_sets sorting relations.
From S2P Require Import Prelude Uint256 Params FeeModel Serialize Primitives TxVerify Coins MempoolEntry TxMempool PoolGraph PoolInvariant PoolBooks PoolRemoval.
Local Open Scope Z_scope.

Section search.
Context `{MempoolEnv}.

Lemma exists_txid_dom p h : exists_txid p h = true <-> h ∈ dom (mapTx p).
Proof. unfold exists_txid. rewrite bool_decide_eq_true, elem_of_dom. done. Qed.
Lemma elem_of_GetIterSet p X h : h ∈ GetIterSet p X <-> h ∈ X /\ h ∈ dom (mapTx p).
Proof. unfold GetIterSet. rewrite elem_of_filter, exists_txid_dom. tauto. Qed.
Lemma GetIterSet_filter p X : GetIterSet p X = filter (fun q => q ∈ dom (mapTx p)) X.
Proof. apply set_eq. intros h. rewrite elem_of_GetIterSet, elem_of_filter. tauto. Qed.

(** ** The parents a transaction has in the pool, and their ancestors *)

Lemma stage_inputs_no_limits p l : Z.of_nat (size (mapTx p)) + 1 < 2 ^ 63 -> forall staged, staged ⊆ dom (mapTx p) ->
  stage_inputs p (ancestor_count NoLimits) 1 l staged = inr (staged ∪ GetIterSet p (list_to_set (map (fun i => out_hash (prevout i)) l))).
Proof.
  intros Hs. induction l as [|i l IH]; intros staged Hst; cbn [stage_inputs map list_to_set].
  - f_equal. apply set_eq. intros h. rewrite elem_of_union, elem_of_GetIterSet. set_solver.
  - unfold GetIter. destruct (mapTx p !! out_hash (prevout i)) as [e|] eqn:E; cbn [mbind option_bind].
    + assert (Hd : out_hash (prevout i) ∈ dom (mapTx p)) by (apply elem_of_dom; eauto). assert (Hst' : {[out_hash (prevout i)]} ∪ staged ⊆ dom (mapTx p)) by set_solver.
      pose proof (subseteq_size _ _ Hst') as Hsz. rewrite size_dom in Hsz. rewrite wrap_small by (unfold fits; lia). change (u64 (ancestor_count NoLimits)) with (2 ^ 63 - 1).
      destruct (Z.gtb_spec (Z.of_nat (size ({[out_hash (prevout i)]} ∪ staged)) + 1) (2 ^ 63 - 1)); [lia|]. rewrite IH by exact Hst'. f_equal.
      apply set_eq. intros h. rewrite !elem_of_union, !elem_of_GetIterSet, elem_of_union, elem_of_singleton. destruct (decide (h = out_hash (prevout i))) as [->|]; tauto.
    + rewrite IH by exact Hst. f_equal. apply not_elem_of_dom in E. apply set_eq. intros h. rewrite !elem_of_union, !elem_of_GetIterSet, elem_of_union, elem_of_singleton.
      destruct (decide (h = out_hash (prevout i))) as [->|]; tauto.
Qed.

Lemma search_ancestors p e : links_in (mapTx p) -> roomy (mapTx p) (GetTxSize e) 1 -> exists A, AssumeCalculateMemPoolAncestors p e NoLimits true = Some A /\
  CalculateMemPoolAncestors p e NoLimits true = Some (inr A) /\
  forall x, x ∈ A <-> exists q, q ∈ GetIterSet p (parent_transactions (GetTx e)) /\ (x = q \/ x ∈ anc_set (mapTx p) q).
Proof.
  intros Hl Hr. destruct (room_size _ _ _ Hr) as [H0 H1]. pose proof (proj2 (room_count _ _ _ Hr)) as Hc. set (Q := GetIterSet p (parent_transactions (GetTx e))).
  assert (HQ : Q ⊆ dom (mapTx p)) by (intros q Hq; apply elem_of_GetIterSet in Hq; tauto).
  destruct (walk_spec (parents (mapTx p)) (dom (mapTx p)) (size (mapTx p)) Q ∅) as (A & E & HA).
  - exact HQ.
  - intros x _. apply Hl.
  - rewrite difference_empty_L, size_dom. done.
  - set_solver.
  - set_solver.
  - assert (Ec : CalculateMemPoolAncestors p e NoLimits true = Some (inr A)).
    { unfold CalculateMemPoolAncestors, CalculateAncestorsAndCheckLimits. rewrite stage_inputs_no_limits by (lia || set_solver). rewrite union_empty_l_L.
      change (list_to_set (map (fun i => out_hash (prevout i)) (vin (GetTx e)))) with (parent_transactions (GetTx e)). fold Q.
      rewrite ancestors_loop_no_limits; [rewrite E; done|exact Hl|exact Hr|set_solver|set_solver|lia|rewrite difference_empty_L; lia]. }
    exists A. split; [unfold AssumeCalculateMemPoolAncestors; rewrite Ec; done|]. split; [exact Ec|]. intros x. rewrite HA. split.
    + intros [Hx|(q & Hq & Hqx)]; [set_solver|]. exists q. split; [exact Hq|]. inversion Hqx as [|? y ? Hy Hyx]; subst; [left; done|right].
      apply elem_of_anc; [exact Hl|]. apply tc_rtc_parent. exists y. auto.
    + intros (q & Hq & Hx). right. exists q. split; [exact Hq|]. destruct Hx as [->|Hx]; [done|]. apply elem_of_anc in Hx; [|exact Hl].
      apply tc_rtc_parent in Hx as (y & Hy & Hyx). eapply rtc_l; [exact Hy|exact Hyx].
Qed.

(** ** Sums of an [int64_t] over a set *)

Lemma wrap_add_l w a b : wrap w (wrap w a + b) = wrap w (a + b).
Proof. apply Zplus_mod_idemp_l. Qed.

Lemma pool_sum_abs m f : Z.abs (pool_sum m f) <= pool_sum m (fun e => Z.abs (f e)).
Proof.
  unfold pool_sum. rewrite (set_sum_ext (val m (fun e => Z.abs (f e))) (fun h => Z.abs (val m f h))); [apply set_sum_abs|].
  intros h _. unfold val. destruct (m !! h); done.
Qed.


Lemma sum_entries_ok m f l : (forall h, h ∈ l -> is_Some (m !! h)) -> forall acc, Z.abs acc + zsum (fun h => Z.abs (val m f h)) l < 2 ^ 63 ->
  for_each (fun h acc => e ← m !! h; int64 (acc + f e)) l acc = Some (acc + zsum (val m f) l).
Proof.
  induction l as [|h l IH]; intros Hin acc Hb; cbn [for_each zsum] in *; [f_equal; lia|]. destruct (Hin h ltac:(left)) as [e He]. rewrite He. cbn [mbind option_bind].
  rewrite (val_lookup m f h e He) in *. assert (0 <= zsum (fun h => Z.abs (val m f h)) l) by (apply zsum_nonneg; lia).
  rewrite int64_ok by (unfold sfits; lia). cbn [mbind option_bind]. rewrite IH; [f_equal; lia|intros k Hk; apply Hin; right; exact Hk|lia].
Qed.
End search.

(** ** What the pool asks of a new entry *)

Section addable.
Context `{MempoolEnv}.

(** a new transaction, of id [n], whose inputs no entry spends, and whose outputs none spends yet *)
Record addable (p : CTxMemPool) (n : uint256) (e : CTxMemPoolEntry) : Prop := {
  ad_hash : entry_hash e = n;
  ad_fresh : fresh e;
  ad_new : mapTx p !! n = None;
  ad_wtxid h x : mapTx p !! h = Some x -> ComputeWitnessHash (GetTx x) <> ComputeWitnessHash (GetTx e);
  ad_inputs o : o ∈ prevouts (GetTx e) -> mapNextTx p !! o = None;
  ad_self : n ∉ parent_transactions (GetTx e);
  ad_spent h x : mapTx p !! h = Some x -> n ∉ parent_transactions (GetTx x);
  ad_small : small (<[n := e]> (mapTx p));
  ad_fees : pool_sum (<[n := e]> (mapTx p)) (fun e => Z.abs (EntryFee e)) < 2 ^ 63;
}.

Context (p : CTxMemPool) (n : uint256) (e : CTxMemPoolEntry) (Hok : pool_ok p) (Had : addable p n e).
Notation m := (mapTx p).
Notation m1 := (<[n := e]> (mapTx p)).
Let Hg : graph_ok m := po_graph p Hok.
Let Hn : m !! n = None := ad_new p n e Had.
Let Hf : fresh e := ad_fresh p n e Had.

Lemma new_lookup h : h <> n -> m1 !! h = m !! h.
Proof. intros Hh. apply lookup_insert_ne. congruence. Qed.
Lemma new_parents h : parents m1 h = parents m h.
Proof.
  unfold parents. destruct (decide (h = n)) as [->|Hh]; [|rewrite new_lookup by exact Hh; done].
  rewrite lookup_insert_eq, Hn. apply (fresh_parents e Hf).
Qed.
Lemma new_links : links_in m1.
Proof.
  intros h. rewrite new_parents, dom_insert_L. destruct (g_links m Hg h) as [Hp Hc]. split; [set_solver|].
  unfold children in *. destruct (decide (h = n)) as [->|Hh]; [rewrite lookup_insert_eq; cbn; rewrite (fresh_children e Hf); set_solver|].
  rewrite lookup_insert_ne by congruence. set_solver.
Qed.
Lemma new_anc h : anc_set m1 h = anc_set m h.
Proof.
  apply set_eq. intros x. rewrite !elem_of_anc by (apply new_links || apply (g_links m Hg)). split; apply tc_ext_from; intros y _; rewrite new_parents; done.
Qed.

(** sums over entries of the pool leave room for the new one *)
Lemma new_bounds Y : Y ⊆ dom m ->
  0 <= set_sum (val m one) Y <= set_sum (val m GetTxSize) Y /\ 0 <= set_sum (val m GetTxSize) Y /\ 0 < GetTxSize e /\ set_sum (val m GetTxSize) Y + GetTxSize e < 2 ^ 31 /\
  0 <= set_sum (val m GetSigOpCost) Y /\ 0 <= GetSigOpCost e /\ set_sum (val m GetSigOpCost) Y + GetSigOpCost e < 2 ^ 31 /\
  set_sum (fun h => Z.abs (val m m_modified_fee h)) Y + Z.abs (m_modified_fee e) < 2 ^ 63.
Proof.
  intros HY. destruct (graph_bounds m Y Hg HY) as (H1 & _ & H2 & _ & _). destruct (ad_small p n e Had) as (Hs & Hc & Ha). destruct (fresh_size e Hf) as [He1 He2].
  assert (Hnd : n ∉ dom m) by (apply not_elem_of_dom, Hn). assert (Hv : forall f h, h ∈ dom m -> val (<[n := e]> m) f h = val m f h).
  { intros f h Hh. rewrite val_insert, decide_False; [done|]. intros ->. done. }
  rewrite dom_insert_L, set_sum_insert, val_insert, decide_True in Hs by done. rewrite (set_sum_ext _ (val m GetTxSize)) in Hs by apply Hv.
  rewrite dom_insert_L, set_sum_insert, val_insert, decide_True in Hc by done. rewrite (set_sum_ext _ (val m GetSigOpCost)) in Hc by apply Hv.
  rewrite dom_insert_L, set_sum_insert, val_insert, decide_True in Ha by done.
  rewrite (set_sum_ext _ (fun h => Z.abs (val m m_modified_fee h))) in Ha by (intros h Hh; rewrite Hv by exact Hh; done).
  assert (Hmono : forall f, (forall h, h ∈ dom m -> 0 <= f h) -> set_sum f Y <= set_sum f (dom m)) by (intros f Hp; apply set_sum_mono; [exact HY|exact Hp]).
  assert (Hpos : forall h, h ∈ dom m -> 0 <= val m GetTxSize h /\ 0 <= val m GetSigOpCost h).
  { intros h Hh. apply elem_of_dom in Hh as [x Hx]. rewrite !(val_lookup m _ h x Hx). destruct (g_sizes m Hg h x Hx). lia. }
  pose proof (Hmono (val m GetTxSize) (fun h Hh => proj1 (Hpos h Hh))). pose proof (Hmono (val m GetSigOpCost) (fun h Hh => proj2 (Hpos h Hh))).
  pose proof (Hmono (fun h => Z.abs (val m m_modified_fee h)) (fun h _ => Z.abs_nonneg _)). split_and!; lia.
Qed.

Lemma new_fee : Z.abs (m_modified_fee e) < 2 ^ 63.
Proof.
  destruct (new_bounds (dom m) ltac:(done)) as (_ & _ & _ & _ & _ & _ & _ & Hfee).
  pose proof (set_sum_nonneg (fun h => Z.abs (val m m_modified_fee h)) (dom m) (fun h _ => Z.abs_nonneg _)). lia.
Qed.
Lemma new_desc_range h x : m !! h = Some x -> 0 < nSizeWithDescendants x /\ nSizeWithDescendants x + GetTxSize e < 2 ^ 31 /\
  0 < m_count_with_descendants x < 2 ^ 31 /\ Z.abs (nModFeesWithDescendants x + m_modified_fee e) < 2 ^ 63.
Proof.
  intros Hx. assert (Hd : h ∈ dom m) by (apply elem_of_dom; eauto). destruct (desc_stat_range m h x Hg Hx) as (H1 & H2 & _).
  destruct (new_bounds (down m h) (down_in_dom m h Hd)) as (_ & _ & _ & H3 & _ & _ & _ & H4). pose proof (set_sum_abs (val m m_modified_fee) (down m h)) as H5.
  rewrite (g_desc m Hg h x GetTxSize nSizeWithDescendants Hx), (g_desc m Hg h x m_modified_fee nModFeesWithDescendants Hx) in * by (unfold desc_stats; set_solver). lia.
Qed.

Lemma fresh_all : m_count_with_ancestors e = 1 /\ nSizeWithAncestors e = GetTxSize e /\ nModFeesWithAncestors e = m_modified_fee e /\ nSigOpCostWithAncestors e = GetSigOpCost e /\
  m_count_with_descendants e = 1 /\ nSizeWithDescendants e = GetTxSize e /\ nModFeesWithDescendants e = m_modified_fee e.
Proof.
  pose proof (fresh_stats e Hf) as Hs. split_and!; [apply (Hs one)|apply (Hs GetTxSize)|apply (Hs m_modified_fee)|apply (Hs GetSigOpCost)|apply (Hs one)|apply (Hs GetTxSize)|apply (Hs m_modified_fee)];
    unfold anc_stats, desc_stats; cbn [app]; set_solver.
Qed.

Lemma new_roomy : roomy m1 (GetTxSize e) 1.
Proof.
  destruct (new_bounds (dom m) ltac:(done)) as (H1 & H2 & H3 & H4 & _). destruct fresh_all as (_ & _ & _ & _ & Hc & Hs & _). split.
  - intros h x Hx. destruct (decide (h = n)) as [->|Hh].
    + rewrite lookup_insert_eq in Hx. injection Hx as <-. rewrite Hc, Hs. lia.
    + rewrite new_lookup in Hx by exact Hh. destruct (new_desc_range h x Hx) as (? & ? & ? & _). destruct (g_sizes m Hg h x Hx). lia.
  - split; [lia|]. fold (val m1 GetTxSize). fold (pool_sum m1 GetTxSize). rewrite pool_sum_insert by exact Hn. unfold pool_sum. lia.
  - split; [lia|]. rewrite map_size_insert_None by exact Hn. destruct (graph_bounds m (dom m) Hg ltac:(done)) as (Hb & Hb' & _ & _ & Hsz). rewrite size_dom in Hsz. lia.
Qed.

(** ** The steps of [addNewTransaction] *)

Section steps.
Context (Q A : gset uint256) (HQ : Q ⊆ dom m) (HAd : A ⊆ dom m).

Lemma not_new X : X ⊆ dom m -> n ∉ X.
Proof. intros HX Hx. apply HX, elem_of_dom in Hx as [x Hx]. congruence. Qed.

Lemma link_step q : mapTx q = m1 -> fits 64 (cachedInnerUsage q) ->
  for_each (fun pit => UpdateParent n pit true) (by_hash Q) q = Some (set_mapTx q (<[n := set_parents Q e]> m) (u64 (cachedInnerUsage q + link_usage * Z.of_nat (size Q)))).
Proof.
  intros Hq Hu. rewrite (for_each_add_parents n (by_hash Q) (by_hash_NoDup Q) q e Hu).
  - rewrite Hq, insert_insert_eq, set_of_by_hash, (fresh_parents e Hf), union_empty_r_L, by_hash_length. done.
  - rewrite Hq. apply lookup_insert_eq.
  - intros h _. rewrite (fresh_parents e Hf). set_solver +.
Qed.

Lemma map_update_new g x k : (forall y, g n y = y) -> map_update g (<[n := x]> k) = <[n := x]> (map_update g k).
Proof.
  intros Hgn. apply map_eq. intros h. rewrite map_update_lookup. destruct (decide (h = n)) as [->|Hh]; [rewrite !lookup_insert_eq; cbn; rewrite Hgn; done|].
  rewrite !lookup_insert_ne, map_update_lookup by congruence. done.
Qed.
Lemma at_set_new X g y : X ⊆ dom m -> at_set X g n y = y.
Proof. intros HX. unfold at_set. rewrite decide_False by (apply not_new, HX). done. Qed.

Lemma count_step q : mapTx q = <[n := set_parents Q e]> m -> fits 64 (cachedInnerUsage q) ->
  UpdateAncestorsOf true n A q = Some (set_mapTx q (<[n := set_parents Q e]> (map_update (old_entry n e Q A) m)) (u64 (cachedInnerUsage q + link_usage * Z.of_nat (size Q)))).
Proof.
  intros Hq Hu. unfold UpdateAncestorsOf. rewrite Hq, lookup_insert_eq. cbn [mbind option_bind]. change (m_parents (set_parents Q e)) with Q.
  rewrite for_each_add_child; [|exact Hu|].
  2:{ intros h Hh. destruct (elem_of_dom m h) as [Hd _]. destruct (Hd (HQ h Hh)) as [x Hx]. exists x. rewrite Hq, lookup_insert_ne by (intros ->; congruence). split; [exact Hx|].
      intros Hc. apply (not_new (children m h)); [apply (g_links m Hg)|]. rewrite (children_lookup m h x Hx). exact Hc. }
  cbn [mbind option_bind]. rewrite Hq, map_update_new by (intros y; apply at_set_new, HQ).
  change (GetTxSize (set_parents Q e)) with (GetTxSize e). change (m_modified_fee (set_parents Q e)) with (m_modified_fee e).
  pose proof new_fee as Hfee. rewrite int64_ok by (unfold sfits; lia). cbn [mbind option_bind].
  rewrite (for_each_modify _ (upd_desc 1 e)).
  - cbn [mapTx set_mapTx]. unfold set_entries. rewrite set_mapTx_twice. f_equal. f_equal. rewrite map_update_new by (intros y; apply at_set_new, HAd). rewrite map_update_update. done.
  - intros h Hh. destruct (elem_of_dom m h) as [Hd _]. destruct (Hd (HAd h Hh)) as [x Hx]. cbn [mapTx set_mapTx].
    rewrite lookup_insert_ne, map_update_lookup, Hx by (intros ->; congruence). eexists. split; [done|].
    destruct (new_desc_range h x Hx) as (H1 & H2 & H3 & H4). destruct (fresh_size e Hf) as [H5 _].
    unfold upd_desc. rewrite !Z.mul_1_l. unfold at_set. destruct (decide (h ∈ Q)); apply UpdateDescendantState_ok; cbn [set_children nSizeWithDescendants m_count_with_descendants nModFeesWithDescendants]; lia.
Qed.

Lemma entry_step q : mapTx q = <[n := set_parents Q e]> (map_update (old_entry n e Q A) m) ->
  UpdateEntryForAncestors n A q = Some (set_entries q (<[n := set_ancestors (1 + set_sum (val m one) A) (GetTxSize e + set_sum (val m GetTxSize) A)
    (m_modified_fee e + set_sum (val m m_modified_fee) A) (GetSigOpCost e + set_sum (val m GetSigOpCost) A) (set_parents Q e)]> (map_update (old_entry n e Q A) m))).
Proof.
  intros Hq. destruct (new_bounds A HAd) as (H1 & H2 & H3 & H4 & H5 & H6 & H7 & H8). destruct (graph_bounds m A Hg HAd) as (_ & _ & _ & _ & Hsz).
  assert (Hval : forall f, (forall e e', same_weight e e' -> f e = f e') -> forall h, h ∈ A -> val (mapTx q) f h = val m f h).
  { intros f Hw h Hh. destruct (elem_of_dom m h) as [Hd _]. destruct (Hd (HAd h Hh)) as [x Hx]. rewrite Hq. unfold val. rewrite lookup_insert_ne, map_update_lookup, Hx by (intros ->; congruence).
    apply Hw, old_entry_weight. }
  assert (Hsum : forall f, (forall e e', same_weight e e' -> f e = f e') -> set_sum (fun h => Z.abs (val m f h)) A < 2 ^ 63 -> sum_entries (mapTx q) f (by_hash A) = Some (set_sum (val m f) A)).
  { intros f Hw Hb. unfold sum_entries. rewrite sum_entries_ok.
    - rewrite zsum_by_hash, Z.add_0_l. f_equal. apply set_sum_ext, Hval, Hw.
    - intros h Hh. apply elem_of_by_hash in Hh. apply elem_of_dom. rewrite Hq, dom_insert_L, map_update_dom. apply elem_of_union_r, HAd, Hh.
    - rewrite zsum_by_hash, (set_sum_ext _ (fun h => Z.abs (val m f h))); [lia|]. intros h Hh. rewrite (Hval f Hw h Hh). done. }
  assert (Habs : forall f, (forall h, h ∈ dom m -> 0 <= val m f h) -> set_sum (fun h => Z.abs (val m f h)) A = set_sum (val m f) A).
  { intros f Hp. apply set_sum_ext. intros h Hh. apply Z.abs_eq, Hp, HAd, Hh. }
  assert (Hpos : forall h, h ∈ dom m -> 0 <= val m GetTxSize h /\ 0 <= val m GetSigOpCost h).
  { intros h Hh. apply elem_of_dom in Hh as [x Hx]. rewrite !(val_lookup m _ h x Hx). destruct (g_sizes m Hg h x Hx). lia. }
  unfold UpdateEntryForAncestors. rewrite !Hsum.
  { cbn [mbind option_bind]. unfold modify_entry, modify. rewrite Hq, lookup_insert_eq. cbn [mbind option_bind]. destruct fresh_all as (F1 & F2 & F3 & F4 & _).
    rewrite by_hash_length, swrap_small by (unfold sfits; lia). rewrite <- Hsz. pose proof (set_sum_abs (val m m_modified_fee) A).
    rewrite UpdateAncestorState_ok; cbn [set_parents nSizeWithAncestors m_count_with_ancestors nModFeesWithAncestors nSigOpCostWithAncestors]; rewrite ?F1, ?F2, ?F3, ?F4; try lia.
    cbn [mbind option_bind]. rewrite insert_insert_eq. done. }
  all: first [intros x y [Hd Hm]; unfold GetTxSize, GetSigOpCost; congruence|rewrite Habs by (intros h Hh; apply Hpos, Hh); lia|lia].
Qed.
End steps.

(** ** The books with the new entry *)

Lemma spend_inputs_lookup tx h o : forall next, spend_inputs tx h next !! o =
  match next !! o with Some x => Some x | None => if decide (o ∈ prevouts tx) then Some h else None end.
Proof.
  unfold spend_inputs, prevouts. induction (vin tx) as [|i l IH]; intros next; cbn [foldl map].
  - rewrite decide_False by (intros Hx; inversion Hx). destruct (next !! o); done.
  - rewrite IH. destruct (next !! prevout i) as [y|] eqn:Ey.
    + destruct (next !! o) eqn:Eo; [done|]. assert (Hne : o <> prevout i) by congruence.
      destruct (decide (o ∈ map prevout l)) as [Hl|Hl]; [rewrite decide_True by (right; exact Hl); done|]. rewrite decide_False by (intros Hx; apply elem_of_cons in Hx as [|]; done). done.
    + destruct (decide (o = prevout i)) as [->|Hne]; [rewrite lookup_insert_eq, Ey, decide_True by left; done|]. rewrite lookup_insert_ne by congruence. destruct (next !! o); [done|].
      destruct (decide (o ∈ map prevout l)) as [Hl|Hl]; [rewrite decide_True by (right; exact Hl); done|]. rewrite decide_False by (intros Hx; apply elem_of_cons in Hx as [|]; done). done.
Qed.

Section new_books.
Context (Q A : gset uint256) (HQ : Q ⊆ dom m) (HA : forall x, x ∈ A <-> exists q, q ∈ Q /\ (x = q \/ x ∈ anc_set m q)).
Let i := length (txns_randomized p).
Notation m' := (added m n e Q A i).

Lemma added_lookup h x : m' !! h = Some x <-> (h = n /\ x = new_entry m e Q A i) \/ (h <> n /\ exists y, m !! h = Some y /\ x = old_entry n e Q A h y).
Proof.
  destruct (decide (h = n)) as [->|Hh]; [rewrite added_new; intuition congruence|]. rewrite added_old, fmap_Some by exact Hh. intuition congruence.
Qed.
Lemma old_entry_book h y : same_book y (old_entry n e Q A h y).
Proof. unfold old_entry, at_set. destruct (decide (h ∈ Q)), (decide (h ∈ A)); done. Qed.

Lemma added_ledger : ledger_ok m' (spend_inputs (GetTx e) n (mapNextTx p)) (txns_randomized p ++ [n]).
Proof.
  destruct (b_ledger p (po_books p Hok)) as [Hk Hs Hr]. split.
  - intros h x Hx. apply added_lookup in Hx as [[-> ->]|(Hh & y & Hy & ->)]; [rewrite (entry_hash_data _ e) by done; apply (ad_hash p n e Had)|].
    rewrite (entry_hash_data _ y) by (symmetry; apply old_entry_book). apply (Hk h y Hy).
  - intros o h. rewrite spend_inputs_lookup. split.
    + destruct (mapNextTx p !! o) as [z|] eqn:Eo.
      * intros [= <-]. apply Hs in Eo as (y & Hy & Ho). exists (old_entry n e Q A z y). split; [apply added_lookup; right; split; [intros ->; congruence|]; eauto|].
        unfold GetTx. rewrite <- (proj1 (old_entry_book z y)). exact Ho.
      * destruct (decide (o ∈ prevouts (GetTx e))) as [Ho|]; [|done]. intros [= <-]. exists (new_entry m e Q A i). split; [apply added_new|exact Ho].
    + intros (x & Hx & Ho). apply added_lookup in Hx as [[-> ->]|(Hh & y & Hy & ->)].
      * rewrite (ad_inputs p n e Had o Ho), decide_True by exact Ho. done.
      * unfold GetTx in Ho. rewrite <- (proj1 (old_entry_book h y)) in Ho. assert (Hno : mapNextTx p !! o = Some h) by (apply Hs; eauto). rewrite Hno. done.
  - intros j h. destruct (decide (j < i)%nat) as [Hj|Hj].
    + rewrite lookup_app_l by exact Hj. rewrite Hr. split.
      * intros (y & Hy & <-). exists (old_entry n e Q A h y). split; [|symmetry; apply old_entry_book]. apply added_lookup. right. split; [intros ->; congruence|eauto].
      * intros (x & Hx & Hj'). apply added_lookup in Hx as [[-> ->]|(Hh & y & Hy & ->)]; [cbn in Hj'; lia|]. exists y. split; [exact Hy|]. rewrite (proj2 (old_entry_book h y)). exact Hj'.
    + rewrite lookup_app_r by (unfold i in Hj; lia). fold i. rewrite list_lookup_singleton_Some. split.
      * intros [Hi <-]. exists (new_entry m e Q A i). split; [apply added_new|cbn; lia].
      * intros (x & Hx & Hj'). apply added_lookup in Hx as [[-> ->]|(Hh & y & Hy & ->)]; [cbn in Hj'; split; [lia|done]|]. exfalso. rewrite <- (proj2 (old_entry_book h y)) in Hj'.
        assert (Hl : txns_randomized p !! j = Some h) by (apply Hr; eauto). apply lookup_lt_Some in Hl. fold i in Hl. lia.
Qed.

Lemma added_pool_sum f : (forall x y, entry_data x = entry_data y -> f x = f y) -> pool_sum m' f = f e + pool_sum m f.
Proof.
  intros Hd. unfold added. rewrite pool_sum_insert by (rewrite map_update_lookup, Hn; done). rewrite (Hd _ e) by done. f_equal.
  apply pool_sum_update. intros h y _. apply Hd. symmetry. apply old_entry_book.
Qed.
Lemma added_usage : pool_sum m' entry_usage = pool_sum m entry_usage + nUsageSize (entry_data e) + link_usage * Z.of_nat (size Q) + link_usage * Z.of_nat (size Q).
Proof.
  unfold added. rewrite pool_sum_insert by (rewrite map_update_lookup, Hn; done). assert (H1 : entry_usage (new_entry m e Q A i) = nUsageSize (entry_data e) + link_usage * Z.of_nat (size Q)).
  { unfold entry_usage, link_count, new_entry. cbn. rewrite (fresh_children e Hf), size_empty. lia. }
  assert (H2 : pool_sum (map_update (old_entry n e Q A) m) entry_usage = pool_sum m entry_usage + link_usage * Z.of_nat (size Q)); [|lia].
  unfold pool_sum. rewrite map_update_dom. rewrite (set_sum_ext _ (fun h => val m entry_usage h + if decide (h ∈ Q) then link_usage else 0)).
  - rewrite set_sum_add, (set_sum_split (fun h => if decide (h ∈ Q) then link_usage else 0) (dom m) Q HQ). rewrite (set_sum_ext _ (fun _ => link_usage) Q) by (intros h Hh; rewrite decide_True by exact Hh; done).
    rewrite (set_sum_ext _ (fun _ => 0) (dom m ∖ Q)) by (intros h Hh; apply elem_of_difference in Hh as [_ Hh]; rewrite decide_False by exact Hh; done). rewrite !set_sum_const. lia.
  - intros h Hh. apply elem_of_dom in Hh as [y Hy]. unfold val. rewrite map_update_lookup, Hy. cbn. unfold entry_usage, link_count. rewrite old_entry_parents, old_entry_children, <- (proj1 (old_entry_book h y)).
    destruct (decide (h ∈ Q)) as [Hq|Hq]; [|lia]. rewrite size_add; [lia|]. intros Hc. apply (not_new (children m h)); [apply (g_links m Hg)|]. rewrite (children_lookup m h y Hy). exact Hc.
Qed.
End new_books.

(** ** The pool with the new entry *)

(** [p'] is [p] with the entry [e] *)
Record joined (p' : CTxMemPool) : Prop := {
  jo_ok : pool_ok p';
  jo_entries h : essence <$> mapTx p' !! h = if decide (h = n) then Some (essence e) else essence <$> m !! h;
  jo_settings : same_settings p p';
}.

Notation p1 := (set_entries p m1).
Notation Q := (GetIterSet p1 (parent_transactions (GetTx e))).

Lemma Q_in_dom : Q ⊆ dom m.
Proof.
  intros q Hq. apply elem_of_GetIterSet in Hq as [Hq Hd]. cbn [mapTx set_entries set_mapTx] in Hd. rewrite dom_insert_L in Hd. apply elem_of_union in Hd as [Hd|Hd]; [|exact Hd].
  apply elem_of_singleton in Hd as ->. destruct (ad_self p n e Had Hq).
Qed.
Lemma added_parents_rule A i h x : A ⊆ dom m -> added m n e Q A i !! h = Some x ->
  m_parents x = filter (fun q => q ∈ dom (added m n e Q A i)) (parent_transactions (GetTx x)).
Proof.
  intros HA Hx. rewrite added_dom. destruct (decide (h = n)) as [->|Hh].
  - rewrite added_new in Hx. injection Hx as <-. change (m_parents (new_entry m e Q A i)) with Q. change (GetTx (new_entry m e Q A i)) with (GetTx e).
    rewrite GetIterSet_filter. cbn [mapTx set_entries set_mapTx]. rewrite dom_insert_L. done.
  - rewrite added_old in Hx by exact Hh. apply fmap_Some in Hx as (y & Hy & ->). rewrite old_entry_parents, (po_parents p Hok h y Hy). unfold GetTx at 2. rewrite (proj1 (old_entry_weight n e Q A h y)).
    apply set_eq. intros q. rewrite !elem_of_filter, elem_of_union, elem_of_singleton. split; [tauto|]. intros [[->|Hq] Hpt]; [|tauto]. destruct (ad_spent p n e Had h y Hy Hpt).
Qed.

Lemma addNewTransaction_spec A : (forall x, x ∈ A <-> exists q, q ∈ Q /\ (x = q \/ x ∈ anc_set m q)) ->
  exists p', addNewTransaction n A p1 = Some p' /\ joined p'.
Proof.
  intros HA. pose proof Q_in_dom as HQ. pose proof (A_in_dom m Q A Hg HQ HA) as HAd. pose proof (po_books p Hok) as Hb. set (i := length (txns_randomized p)).
  unfold addNewTransaction. cbn [mapTx set_entries set_mapTx]. rewrite lookup_insert_eq. cbn [mbind option_bind].
  set (q1 := set_mapNextTx _ _). change (GetIterSet q1 (parent_transactions (GetTx e))) with Q.
  rewrite (link_step Q q1) by (done || (apply wrap_fits; lia)). cbn [mbind option_bind]. set (q2 := set_mapTx q1 _ _).
  rewrite (count_step Q A HQ HAd q2) by (done || (apply wrap_fits; lia)). cbn [mbind option_bind]. set (q3 := set_mapTx q2 _ _).
  rewrite (entry_step Q A HAd q3) by done. cbn [mbind option_bind]. set (q4 := set_entries q3 _).
  assert (Hfee : m_total_fee p + EntryFee e = pool_sum (added m n e Q A i) EntryFee).
  { rewrite added_pool_sum by (intros x y Hd; unfold EntryFee; rewrite Hd; done). rewrite (b_fee p Hb). lia. }
  assert (Hfees : pool_sum (added m n e Q A i) (fun e => Z.abs (EntryFee e)) < 2 ^ 63).
  { rewrite added_pool_sum by (intros x y Hd; unfold EntryFee; rewrite Hd; done). pose proof (ad_fees p n e Had) as Hx. rewrite pool_sum_insert in Hx by exact Hn. exact Hx. }
  rewrite int64_ok.
  2:{ change (sfits 64 (m_total_fee p + EntryFee e)). rewrite Hfee. pose proof (pool_sum_abs (added m n e Q A i) EntryFee). unfold sfits. lia. }
  cbn [mbind option_bind]. unfold modify_entry, modify. cbn [push_back set_randomized set_totals set_counters set_entries set_mapTx set_mapNextTx mapTx txns_randomized q4 q3 q2 q1]. rewrite lookup_insert_eq. cbn [mbind option_bind].
  rewrite insert_insert_eq, length_app. cbn [length]. replace (length (txns_randomized p) + 1 - 1)%nat with i by (unfold i; lia).
  match goal with |- context [<[n := ?x]> (map_update ?f m)] => change (<[n := x]> (map_update f m)) with (added m n e Q A i) end.
  unfold q4, q3, q2, q1. eexists. split; [done|]. split.
  - split; cbn [push_back set_randomized set_totals set_counters set_entries set_mapTx set_mapNextTx mapTx].
    + apply (added_graph_ok m n e Q A i Hg Hn Hf HQ HA (ad_small p n e Had)).
    + split; cbn [push_back set_randomized set_totals set_counters set_entries set_mapTx set_mapNextTx mapTx mapNextTx txns_randomized totalTxSize m_total_fee cachedInnerUsage].
      * apply added_ledger.
      * rewrite (b_size p Hb), (added_pool_sum Q A) by (intros x y Hd; unfold GetTxSize; rewrite Hd; done). rewrite wrap_add_l. f_equal. lia.
      * exact Hfee.
      * exact Hfees.
      * pose proof (added_usage Q A HQ) as Hus. fold i in Hus. rewrite (b_usage p Hb), Hus. do 3 (rewrite wrap_add_l, <- ?Z.add_assoc). done.
    + intros h x Hx. apply (added_parents_rule A i h x HAd Hx).
  - intros h. cbn [push_back set_randomized set_totals set_counters set_entries set_mapTx set_mapNextTx mapTx].
    destruct (decide (h = n)) as [->|Hh]; [rewrite added_new; done|]. rewrite added_old by exact Hh. destruct (m !! h) as [y|]; [|done]. cbn. f_equal. unfold old_entry, at_set.
    destruct (decide (h ∈ Q)), (decide (h ∈ A)); done.
  - done.
Qed.
End addable.

(** ** One addition of a change set *)

Section apply.
Context `{MempoolEnv}.

Lemma insert_entry_new p n e : addable p n e -> insert_entry e p = Some (set_entries p (<[n := e]> (mapTx p))).
Proof.
  intros Had. unfold insert_entry. rewrite (ad_hash p n e Had). assert (Hn : exists_txid p n = false).
  { apply not_true_is_false. rewrite exists_txid_dom, elem_of_dom, (ad_new p n e Had). intros []; done. }
  rewrite Hn. cbn [orb]. destruct (existsb _ _) eqn:Ex; [|done]. apply existsb_exists in Ex as ([h x] & Hin & Hx). apply bool_decide_eq_true in Hx.
  apply list_elem_of_In, elem_of_map_to_list in Hin. destruct (ad_wtxid p n e Had h x Hin Hx).
Qed.

Lemma apply_next_spec p n e : pool_ok p -> addable p n e -> exists p', apply_next e p = Some p' /\ joined p n e p'.
Proof.
  intros Hok Had. unfold apply_next. rewrite (insert_entry_new p n e Had). cbn [mbind option_bind]. rewrite (ad_hash p n e Had). unfold add_with_ancestors.
  cbn [mapTx set_entries set_mapTx]. rewrite lookup_insert_eq. cbn [mbind option_bind].
  destruct (search_ancestors (set_entries p (<[n := e]> (mapTx p))) e (new_links p n e Hok Had) (new_roomy p n e Hok Had)) as (A & E & _ & HA). rewrite E. cbn [mbind option_bind].
  apply (addNewTransaction_spec p n e Hok Had A). intros x. rewrite HA. cbn [mapTx set_entries set_mapTx].
  split; intros (q & Hq & Hx); exists q; (split; [exact Hq|]); [rewrite (new_anc p n e Hok Had) in Hx|rewrite (new_anc p n e Hok Had)]; exact Hx.
Qed.

Lemma joined_dom p n e p' : joined p n e p' -> dom (mapTx p') = {[n]} ∪ dom (mapTx p).
Proof.
  intros [_ He _]. apply set_eq. intros h. rewrite elem_of_union, elem_of_singleton, !elem_of_dom, <- (fmap_is_Some essence (mapTx p' !! h)), He, <- (fmap_is_Some essence (mapTx p !! h)).
  destruct (decide (h = n)); [split; eauto|tauto].
Qed.
End apply.
