(* ===== verification/PoolOps.v ===== *)
(** * The operations of the transaction pool keep its invariant

    Each operation of [TxMempool] that adds or removes transactions succeeds on a pool with
    [pool_ok] and leaves one, and removes just what it says: a transaction with
    everything that depends on it, what a block confirms or contradicts, what has expired,
    and the cheapest packages until the pool is below its limit. *)

From Stdlib Require Import ZArith Lia Bool.
From stdpp Require Import base numbers list gmap fin_sets sorting relations.
From S2P Require Import Prelude Uint256 Binary64 Params FeeModel Serialize Primitives TxVerify Coins MempoolEntry TxMempool PoolGraph PoolInvariant PoolBooks PoolRemoval PoolAdd.
Local Open Scope Z_scope.

Section ops.
Context `{MempoolEnv}.

(** ** Everything that depends on a set *)

Definition below (m : txmap) (X : gset uint256) : gset uint256 := filter (fun d => up m d ∩ X <> ∅) (dom m).

Lemma elem_of_below m X d : d ∈ below m X <-> d ∈ dom m /\ exists x, x ∈ X /\ (x = d \/ x ∈ anc_set m d).
Proof.
  unfold below, up. rewrite elem_of_filter. split.
  - intros [Hne Hd]. split; [exact Hd|]. apply set_choose_L in Hne as [x Hx]. exists x. set_solver.
  - intros (Hd & x & Hx & Hxd). split; [|exact Hd]. intros He. assert (Hin : x ∈ ({[d]} ∪ anc_set m d) ∩ X) by set_solver. rewrite He in Hin. set_solver.
Qed.

Lemma below_closed m X : graph_ok m -> closed_below m (below m X).
Proof.
  intros Hg. pose proof (g_links m Hg) as Hl. split; [unfold below; intros d Hd; apply elem_of_filter in Hd; tauto|]. intros h Hh d Hd.
  apply elem_of_below in Hh as (_ & x & Hx & Hxh). apply elem_of_below. split; [apply (desc_in_dom m h), Hd|]. exists x. split; [exact Hx|]. right.
  apply elem_of_anc; [exact Hl|]. apply elem_of_desc in Hd; [|exact Hl]. destruct Hxh as [->|Hxh]; [exact Hd|]. apply elem_of_anc in Hxh; [|exact Hl]. eapply tc_transitive; eassumption.
Qed.

Lemma below_in m X : X ⊆ dom m -> X ⊆ below m X.
Proof. intros HX x Hx. apply elem_of_below. split; [apply HX, Hx|eauto]. Qed.

Lemma below_singleton m h d : links_in m -> h ∈ dom m -> d ∈ {[h]} ∪ desc_set m h <-> d ∈ below m {[h]}.
Proof.
  intros Hl Hh. rewrite elem_of_below, elem_of_union, elem_of_singleton, elem_of_desc by exact Hl. split.
  - intros [->|Hd]; [split; [exact Hh|]; exists h; set_solver|]. split; [inversion Hd; subst; eapply parent_in_dom; eassumption|]. exists h. split; [set_solver|]. right. apply elem_of_anc; done.
  - intros (_ & x & Hx & Hxd). apply elem_of_singleton in Hx as ->. destruct Hxd as [->|Hxd]; [left; done|right]. apply elem_of_anc in Hxd; done.
Qed.

Lemma all_descendants_spec m X : graph_ok m -> X ⊆ dom m -> all_descendants m X = Some (below m X).
Proof.
  intros Hg HX. pose proof (g_links m Hg) as Hl. assert (Hgen : forall l D, (forall h, h ∈ l -> h ∈ dom m) -> (forall d, d ∈ D -> desc_set m d ⊆ D) ->
    for_each (CalculateDescendants m) l D = Some (D ∪ below m (list_to_set l))).
  { induction l as [|h l IH]; intros D Hin HD; cbn [for_each list_to_set].
    - f_equal. apply set_eq. intros d. rewrite elem_of_union, elem_of_below. set_solver.
    - rewrite (CalculateDescendants_spec m h D Hl (g_mutual m Hg) (Hin h ltac:(left)) HD). cbn [mbind option_bind]. rewrite IH.
      + f_equal. apply set_eq. intros d. rewrite !(elem_of_union D), (elem_of_union (D ∪ _)), (elem_of_union D), (below_singleton m h d Hl (Hin h ltac:(left))), !elem_of_below.
        set_solver.
      + intros k Hk. apply Hin. right. exact Hk.
      + intros d Hd. apply elem_of_union in Hd as [Hd|Hd]; [pose proof (HD d Hd); set_solver|]. apply (below_singleton m h d Hl (Hin h ltac:(left))) in Hd.
        pose proof (proj2 (below_closed m {[h]} Hg) d Hd) as Hc. intros y Hy. apply elem_of_union_r. apply (below_singleton m h y Hl (Hin h ltac:(left))), Hc, Hy. }
  unfold all_descendants. rewrite Hgen.
  - f_equal. rewrite set_of_by_hash. set_solver.
  - intros h Hh. apply elem_of_by_hash in Hh. apply HX, Hh.
  - set_solver.
Qed.

(** ** Pools that have shrunk *)

Record shrunk (X : gset uint256) (p p' : CTxMemPool) : Prop := {
  sh_ok : pool_ok p';
  sh_entries h : essence <$> mapTx p' !! h = if decide (h ∈ X) then None else essence <$> mapTx p !! h;
  sh_opts : m_opts p' = m_opts p;
}.

Lemma left_out_shrunk X p p' : left_out X p p' -> shrunk X p p'.
Proof. intros [H1 H2 [_ H3]]. split; done. Qed.
Lemma shrunk_refl p : pool_ok p -> shrunk ∅ p p.
Proof. intros Hok. split; [exact Hok| |done]. intros h. rewrite decide_False by set_solver. done. Qed.
Lemma shrunk_trans X Y p q r : shrunk X p q -> shrunk Y q r -> shrunk (X ∪ Y) p r.
Proof.
  intros [_ H2 H3] [H4 H5 H6]. split; [exact H4| |congruence]. intros h. rewrite H5. destruct (decide (h ∈ Y)); [rewrite decide_True by set_solver; done|]. rewrite H2.
  destruct (decide (h ∈ X)); [rewrite decide_True by set_solver|rewrite decide_False by set_solver]; done.
Qed.
Lemma shrunk_lookup X p p' h e' : shrunk X p p' -> mapTx p' !! h = Some e' -> h ∉ X /\ exists e, mapTx p !! h = Some e /\ essence e' = essence e.
Proof.
  intros [_ He _] Hh. specialize (He h). rewrite Hh in He. cbn in He. destruct (decide (h ∈ X)) as [|Hx]; [done|]. split; [exact Hx|].
  destruct (mapTx p !! h) as [e|]; [|done]. exists e. split; [done|]. injection He as H1 H2 H3. unfold essence. congruence.
Qed.
Lemma shrunk_dom X p p' : shrunk X p p' -> dom (mapTx p') = dom (mapTx p) ∖ X.
Proof.
  intros [_ He _]. apply set_eq. intros h. rewrite elem_of_difference, !elem_of_dom, <- (fmap_is_Some essence (mapTx p' !! h)), He, <- (fmap_is_Some essence (mapTx p !! h)).
  destruct (decide (h ∈ X)); [split; [intros []; done|tauto]|tauto].
Qed.
(** what is still spent was spent by the same entry *)
Lemma shrunk_next X p p' o h : shrunk X p p' -> pool_ok p -> mapNextTx p' !! o = Some h -> mapNextTx p !! o = Some h /\ h ∈ dom (mapTx p') /\ h ∉ X.
Proof.
  intros Hs Hok Ho. apply (l_spends _ _ _ (b_ledger _ (po_books _ (sh_ok _ _ _ Hs)))) in Ho as (e' & He' & Ho). destruct (shrunk_lookup X p p' h e' Hs He') as (Hx & e & He & Hee).
  split; [|split; [apply elem_of_dom; eauto|exact Hx]]. apply (l_spends _ _ _ (b_ledger _ (po_books _ Hok))). exists e. split; [exact He|]. injection Hee as Hd _ _. unfold GetTx in *. rewrite <- Hd. exact Ho.
Qed.

(** the deltas, the counters and the rolling fee are not in the invariant *)
Lemma pool_ok_ext p p' : mapTx p' = mapTx p -> mapNextTx p' = mapNextTx p -> txns_randomized p' = txns_randomized p -> totalTxSize p' = totalTxSize p ->
  m_total_fee p' = m_total_fee p -> cachedInnerUsage p' = cachedInnerUsage p -> pool_ok p -> pool_ok p'.
Proof.
  intros H1 H2 H3 H4 H5 H6 [Hg [Hl Hs Hf Hfs Hu] Hp]. split; [rewrite H1; exact Hg| |rewrite H1; exact Hp]. split; rewrite ?H1, ?H2, ?H3, ?H4, ?H5, ?H6; assumption.
Qed.
Lemma shrunk_ext X p p' p'' : shrunk X p p' -> mapTx p'' = mapTx p' -> pool_ok p'' -> m_opts p'' = m_opts p' -> shrunk X p p''.
Proof. intros [H1 H2 H3] Hm Hok Ho. split; [exact Hok|rewrite Hm; exact H2|congruence]. Qed.

(** ** [removeRecursive] *)

Definition spends_output (p : CTxMemPool) (tx : CTransaction) (s : uint256) : Prop :=
  exists i, (i < length (vout tx))%nat /\ mapNextTx p !! {| out_hash := ComputeHash tx; out_n := Z.of_nat i |} = Some s.

Lemma next_in_pool p o h : pool_ok p -> mapNextTx p !! o = Some h -> h ∈ dom (mapTx p).
Proof. intros Hok Ho. apply (l_spends _ _ _ (b_ledger _ (po_books _ Hok))) in Ho as (e & He & _). apply elem_of_dom. eauto. Qed.

Lemma spenders_spec p tx : pool_ok p -> exists X, spenders p tx = Some X /\ X ⊆ dom (mapTx p) /\ forall s, s ∈ X <-> spends_output p tx s.
Proof.
  intros Hok. unfold spenders, spends_output. set (h := ComputeHash tx). clearbody h. set (body := fun (i : nat) (acc : gset uint256) => _).
  assert (Hgen : forall l acc, exists X, for_each body l acc = Some X /\ forall s, s ∈ X <-> s ∈ acc \/ exists i, i ∈ l /\ mapNextTx p !! {| out_hash := h; out_n := Z.of_nat i |} = Some s).
  { induction l as [|i l IH]; intros acc; cbn [for_each]; [exists acc; split; [done|]; set_solver|].
    assert (Eb : body i acc = match mapNextTx p !! {| out_hash := h; out_n := Z.of_nat i |} with Some next => if exists_txid p next then Some ({[next]} ∪ acc) else None | None => Some acc end) by done.
    rewrite Eb.
    destruct (mapNextTx p !! {| out_hash := h; out_n := Z.of_nat i |}) as [next|] eqn:En.
    - rewrite (proj2 (exists_txid_dom p next) (next_in_pool p _ next Hok En)). cbn [mbind option_bind]. destruct (IH ({[next]} ∪ acc)) as (X & -> & HX). exists X. split; [done|].
      intros s. rewrite HX, elem_of_union, elem_of_singleton. split.
      + intros [[->|Hs]|(j & Hj & Hs)]; [right; exists i; split; [left|exact En]|left; exact Hs|right; exists j; split; [right; exact Hj|exact Hs]].
      + intros [Hs|(j & Hj & Hs)]; [auto|]. apply elem_of_cons in Hj as [->|Hj]; [left; left; congruence|eauto].
    - cbn [mbind option_bind]. destruct (IH acc) as (X & -> & HX). exists X. split; [done|]. intros s. rewrite HX. split.
      + intros [Hs|(j & Hj & Hs)]; [auto|right; exists j; split; [right; exact Hj|exact Hs]].
      + intros [Hs|(j & Hj & Hs)]; [auto|]. apply elem_of_cons in Hj as [->|Hj]; [congruence|eauto]. }
  destruct (Hgen (seq 0 (length (vout tx))) ∅) as (X & -> & HX). exists X. split; [done|]. assert (Hs : forall s, s ∈ X <-> exists i, (i < length (vout tx))%nat /\ mapNextTx p !! {| out_hash := h; out_n := Z.of_nat i |} = Some s).
  { intros s. rewrite HX. split; [intros [Hs|(i & Hi & Hs)]; [set_solver|]|intros (i & Hi & Hs); right]; exists i; (split; [|exact Hs]); [apply elem_of_seq in Hi; lia|apply elem_of_seq; lia]. }
  split; [|exact Hs]. intros s Hin. apply Hs in Hin as (i & _ & Hn). apply (next_in_pool p _ s Hok Hn).
Qed.

(** the transaction if it is in the pool, and otherwise what spends its outputs *)
Definition roots (p : CTxMemPool) (tx : CTransaction) : gset uint256 :=
  if decide (ComputeHash tx ∈ dom (mapTx p)) then {[ComputeHash tx]} else default ∅ (spenders p tx).

Lemma removeRecursive_spec p tx reason : pool_ok p -> exists p', removeRecursive tx reason p = Some p' /\ left_out (below (mapTx p) (roots p tx)) p p'.
Proof.
  intros Hok. unfold removeRecursive, roots. set (h := ComputeHash tx). clearbody h. destruct (spenders_spec p tx Hok) as (X & EX & HX & _). rewrite EX. cbn [default].
  assert (E : (if exists_txid p h then Some {[h]} else Some X) = Some (if decide (h ∈ dom (mapTx p)) then {[h]} else X)).
  { destruct (decide (h ∈ dom (mapTx p))) as [Hd|Hd]; [rewrite (proj2 (exists_txid_dom p h) Hd); done|].
    destruct (exists_txid p h) eqn:Ex; [apply exists_txid_dom in Ex; done|done]. }
  rewrite E. cbn [mbind option_bind]. rewrite (all_descendants_spec (mapTx p) _ (po_graph p Hok)).
  - cbn [mbind option_bind]. apply RemoveStaged_closed; [exact Hok|apply below_closed, (po_graph p Hok)].
  - destruct (decide (h ∈ dom (mapTx p))); [set_solver|exact HX].
Qed.

(** ** Blocks *)

Lemma pool_ok_clear p h : pool_ok p -> pool_ok (ClearPrioritisation h p).
Proof. apply pool_ok_ext; done. Qed.

Lemma clear_same p h : mapTx (ClearPrioritisation h p) = mapTx p /\ m_opts (ClearPrioritisation h p) = m_opts p.
Proof. done. Qed.

Lemma entry_hash_eq e : entry_hash e = ComputeHash (GetTx e).
Proof. exact (eq_refl (ComputeHash (GetTx e))). Qed.
Lemma pool_key p h e : pool_ok p -> mapTx p !! h = Some e -> ComputeHash (GetTx e) = h.
Proof. intros Hok He. rewrite <- entry_hash_eq. apply (l_keys _ _ _ (b_ledger _ (po_books _ Hok)) h e He). Qed.

(** *** What follows from fewer entries *)

Lemma shrunk_parents X p p' h e' : shrunk X p p' -> pool_ok p -> mapTx p' !! h = Some e' -> exists e, mapTx p !! h = Some e /\ m_parents e' ⊆ m_parents e.
Proof.
  intros Hs Hok He'. destruct (shrunk_lookup X p p' h e' Hs He') as (_ & e & He & Hee). exists e. split; [exact He|]. injection Hee as Hd _ _.
  rewrite (po_parents p' (sh_ok _ _ _ Hs) h e' He'), (po_parents p Hok h e He), (shrunk_dom X p p' Hs). unfold GetTx. rewrite Hd. intros q Hq.
  apply elem_of_filter in Hq as [Hq Hp]. apply elem_of_difference in Hq as [Hq _]. apply elem_of_filter. done.
Qed.
Lemma shrunk_anc X p p' h c : shrunk X p p' -> pool_ok p -> c ∈ anc_set (mapTx p') h -> c ∈ anc_set (mapTx p) h.
Proof.
  intros Hs Hok Hc. apply elem_of_anc in Hc; [|apply (g_links _ (po_graph _ (sh_ok _ _ _ Hs)))]. apply elem_of_anc; [apply (g_links _ (po_graph _ Hok))|].
  induction Hc as [h c Hhc|h q c Hhq _ IH].
  - apply tc_once. unfold parent_of, parents in *. destruct (mapTx p' !! h) as [e'|] eqn:E; [|cbn in Hhc; set_solver]. destruct (shrunk_parents X p p' h e' Hs Hok E) as (e & -> & Hsub). apply Hsub, Hhc.
  - eapply tc_l; [|exact IH]. unfold parent_of, parents in *. destruct (mapTx p' !! h) as [e'|] eqn:E; [|cbn in Hhq; set_solver]. destruct (shrunk_parents X p p' h e' Hs Hok E) as (e & -> & Hsub). apply Hsub, Hhq.
Qed.

(** [h] is, or depends on, an entry other than [t] that spends an output of [os] *)
Definition contradicts (p : CTxMemPool) (t : uint256) (os : list COutPoint) (h : uint256) : Prop :=
  exists c o, c <> t /\ o ∈ os /\ mapNextTx p !! o = Some c /\ (c = h \/ c ∈ anc_set (mapTx p) h).

Lemma shrunk_contradicts X p p' t os h : shrunk X p p' -> pool_ok p -> contradicts p' t os h -> contradicts p t os h.
Proof.
  intros Hs Hok (c & o & Hc & Ho & Hn & Hh). exists c, o. split; [exact Hc|]. split; [exact Ho|]. split; [apply (shrunk_next X p p' o c Hs Hok Hn)|].
  destruct Hh as [->|Hh]; [auto|right]. apply (shrunk_anc X p p' h c Hs Hok Hh).
Qed.

Lemma conflict_step p t o : pool_ok p -> exists X q,
  match mapNextTx p !! o with
  | Some conflict => if bool_decide (conflict = t) then Some p else e ← mapTx p !! conflict; removeRecursive (GetTx e) CONFLICT (ClearPrioritisation conflict p)
  | None => Some p
  end = Some q /\ shrunk X p q /\ (forall h, mapNextTx q !! o = Some h -> h = t) /\ forall h, h ∈ X -> contradicts p t [o] h.
Proof.
  intros Hok. assert (Hnone : (forall h, mapNextTx p !! o = Some h -> h = t) -> exists X q, Some p = Some q /\ shrunk X p q /\ (forall h, mapNextTx q !! o = Some h -> h = t) /\
    forall h, h ∈ X -> contradicts p t [o] h).
  { intros Ho. exists ∅, p. split_and!; [done|apply shrunk_refl, Hok|exact Ho|set_solver]. }
  destruct (mapNextTx p !! o) as [c|] eqn:En; [|apply Hnone; congruence].
  destruct (bool_decide (c = t)) eqn:Ec; [apply bool_decide_eq_true in Ec; apply Hnone; congruence|]. apply bool_decide_eq_false in Ec.
  pose proof (next_in_pool p _ c Hok En) as Hd. pose proof Hd as Hd'. apply elem_of_dom in Hd as [e He]. rewrite He. cbn [mbind option_bind].
  destruct (removeRecursive_spec (ClearPrioritisation c p) (GetTx e) CONFLICT (pool_ok_clear p c Hok)) as (q & Eq & Hlo). rewrite Eq.
  apply left_out_shrunk in Hlo. unfold roots in Hlo. cbn [mapTx ClearPrioritisation set_mapDeltas] in Hlo. rewrite (pool_key p c e Hok He), decide_True in Hlo by exact Hd'.
  exists (below (mapTx p) {[c]}), q. split_and!; [done|destruct Hlo as [H1 H2 H3]; split; done| |].
  - intros h Hh. destruct (shrunk_next _ _ _ _ _ Hlo (pool_ok_clear p c Hok) Hh) as (Hn & _ & Hx). change (mapNextTx p !! o = Some h) in Hn. exfalso. assert (h = c) as -> by congruence.
    apply Hx, below_in; set_solver.
  - intros h Hh. apply elem_of_below in Hh as (_ & x & Hx & Hxh). apply elem_of_singleton in Hx as ->. exists c, o. split_and!; [exact Ec|left|exact En|exact Hxh].
Qed.

Lemma removeConflicts_spec tx p : pool_ok p -> exists X p', removeConflicts tx p = Some p' /\ shrunk X p p' /\
  (forall o h, o ∈ prevouts tx -> mapNextTx p' !! o = Some h -> h = ComputeHash tx) /\ forall h, h ∈ X -> contradicts p (ComputeHash tx) (prevouts tx) h.
Proof.
  unfold removeConflicts, prevouts. set (t := ComputeHash tx). clearbody t. generalize (vin tx) as l. intros l. revert p.
  induction l as [|i l IH]; intros p Hok; cbn [for_each map].
  - exists ∅, p. split_and!; [done|apply shrunk_refl, Hok|intros o h Ho; inversion Ho|set_solver].
  - destruct (conflict_step p t (prevout i) Hok) as (X & q & Eq & Hs & Ho & HX). rewrite Eq. cbn [mbind option_bind]. destruct (IH q (sh_ok _ _ _ Hs)) as (Y & r & Er & Hs' & Ho' & HY).
    exists (X ∪ Y), r. split_and!; [exact Er|eapply shrunk_trans; eassumption| |].
    + intros o h Hin Hh. apply elem_of_cons in Hin as [->|Hin]; [|apply (Ho' o h Hin Hh)]. apply Ho, (shrunk_next _ _ _ _ _ Hs' (sh_ok _ _ _ Hs) Hh).
    + intros h Hh. apply elem_of_union in Hh as [Hh|Hh].
      * destruct (HX h Hh) as (c & o & Hc & Hin & Hn). apply list_elem_of_singleton in Hin as ->. exists c, (prevout i). split_and!; [exact Hc|left|apply Hn|apply Hn].
      * destruct (shrunk_contradicts _ _ _ _ _ _ Hs Hok (HY h Hh)) as (c & o & Hc & Hin & Hn). exists c, o. split_and!; [exact Hc|right; exact Hin|apply Hn|apply Hn].
Qed.

(** *** The transactions of a block *)

Lemma removeForBlock_tx_spec tx p : pool_ok p -> (forall e, mapTx p !! ComputeHash tx = Some e -> m_parents e = ∅) ->
  exists X p', removeForBlock_tx tx p = Some p' /\ shrunk X p p' /\ ComputeHash tx ∉ dom (mapTx p') /\ (forall o, o ∈ prevouts tx -> mapNextTx p' !! o = None) /\
    forall h, h ∈ X -> h = ComputeHash tx \/ contradicts p (ComputeHash tx) (prevouts tx) h.
Proof.
  intros Hok Hpar. unfold removeForBlock_tx. pose proof (fun q Hq => removeConflicts_spec tx q Hq) as Hconf. set (t := ComputeHash tx) in *. clearbody t.
  assert (H1 : exists X q, (if exists_txid p t then RemoveStaged {[t]} true BLOCK p else Some p) = Some q /\ shrunk X p q /\ t ∉ dom (mapTx q) /\ forall h, h ∈ X -> h = t).
  { destruct (exists_txid p t) eqn:Ex.
    - apply exists_txid_dom in Ex. assert (Hnp : parents (mapTx p) t = ∅) by (pose proof Ex as Hd; apply elem_of_dom in Hd as [e He]; rewrite (parents_lookup _ t e He); apply Hpar, He).
      destruct (RemoveStaged_confirmed t BLOCK p Hok Ex Hnp) as (q & Eq & Hlo). exists {[t]}, q. apply left_out_shrunk in Hlo. split_and!; [exact Eq|exact Hlo| |set_solver].
      rewrite (shrunk_dom _ _ _ Hlo). set_solver.
    - exists ∅, p. split_and!; [done|apply shrunk_refl, Hok| |set_solver]. intros Hd. apply exists_txid_dom in Hd. congruence. }
  destruct H1 as (X & q & -> & Hs & Ht & HX). cbn [mbind option_bind]. destruct (Hconf q (sh_ok _ _ _ Hs)) as (Y & r & -> & Hs' & Ho & HY). cbn [mbind option_bind].
  assert (Ht' : t ∉ dom (mapTx r)) by (rewrite (shrunk_dom _ _ _ Hs'); set_solver).
  exists (X ∪ Y), (ClearPrioritisation t r). split_and!; [done| |exact Ht'| |].
  - apply (shrunk_ext _ p r); [eapply shrunk_trans; eassumption|done|apply pool_ok_clear, (sh_ok _ _ _ Hs')|done].
  - intros o Hin. change (mapNextTx r !! o = None). destruct (mapNextTx r !! o) as [h|] eqn:En; [|done]. exfalso. apply Ht'. rewrite <- (Ho o h Hin En). apply (next_in_pool r o h (sh_ok _ _ _ Hs') En).
  - intros h Hh. apply elem_of_union in Hh as [Hh|Hh]; [left; apply HX, Hh|right]. apply (shrunk_contradicts _ _ _ _ _ _ Hs Hok (HY h Hh)).
Qed.

(** a parent of an entry that a list of transactions confirms comes before it *)
Definition parents_first (p : CTxMemPool) (vtx : list CTransaction) : Prop := forall i tx e q, vtx !! i = Some tx -> mapTx p !! ComputeHash tx = Some e -> q ∈ m_parents e ->
  exists j tx', (j < i)%nat /\ vtx !! j = Some tx' /\ ComputeHash tx' = q.

Lemma removeForBlock_loop vtx : forall p, pool_ok p -> parents_first p vtx -> exists X p', for_each removeForBlock_tx vtx p = Some p' /\ shrunk X p p' /\
  (forall tx, tx ∈ vtx -> ComputeHash tx ∉ dom (mapTx p') /\ forall o, o ∈ prevouts tx -> mapNextTx p' !! o = None) /\
  forall h, h ∈ X -> exists tx, tx ∈ vtx /\ (h = ComputeHash tx \/ contradicts p (ComputeHash tx) (prevouts tx) h).
Proof.
  induction vtx as [|tx vtx IH]; intros p Hok Hord; cbn [for_each].
  - exists ∅, p. split_and!; [done|apply shrunk_refl, Hok|intros tx Hx; inversion Hx|intros h Hh; apply elem_of_empty in Hh as []].
  - destruct (removeForBlock_tx_spec tx p Hok) as (X & q & -> & Hs & Ht & Ho & HX).
    { intros e He. apply set_eq. intros x. split; [|intros Hx; apply elem_of_empty in Hx as []]. intros Hx. destruct (Hord 0%nat tx e x eq_refl He Hx) as (j & _ & Hj & _). lia. }
    cbn [mbind option_bind]. destruct (IH q (sh_ok _ _ _ Hs)) as (Y & r & Er & Hs' & Ha & HY).
    + intros i tx' e' y Hi He' Hy. destruct (shrunk_parents _ _ _ _ _ Hs Hok He') as (e & He & Hsub). destruct (Hord (S i) tx' e y Hi He (Hsub y Hy)) as ([|j] & tx'' & Hj & Htx & Hh).
      * injection Htx as <-. exfalso. apply Ht. rewrite Hh. apply (proj1 (g_links _ (po_graph _ (sh_ok _ _ _ Hs)) (ComputeHash tx'))). unfold parents. rewrite He'. exact Hy.
      * exists j, tx''. split_and!; [lia|exact Htx|exact Hh].
    + exists (X ∪ Y), r. split_and!; [exact Er|eapply shrunk_trans; eassumption| |].
      * intros tx' Hin. apply elem_of_cons in Hin as [->|Hin]; [|apply Ha, Hin]. split; [rewrite (shrunk_dom _ _ _ Hs'); intros Hd; apply elem_of_difference in Hd as [Hd _]; done|]. intros o Hin.
        destruct (mapNextTx r !! o) as [h|] eqn:En; [|done]. destruct (shrunk_next _ _ _ _ _ Hs' (sh_ok _ _ _ Hs) En) as [Hn _]. rewrite (Ho o Hin) in Hn. done.
      * intros h Hh. apply elem_of_union in Hh as [Hh|Hh]; [exists tx; split; [left|apply HX, Hh]|]. destruct (HY h Hh) as (tx' & Hin & Hc). exists tx'. split; [right; exact Hin|].
        destruct Hc as [Hc|Hc]; [left; exact Hc|right; apply (shrunk_contradicts _ _ _ _ _ _ Hs Hok Hc)].
Qed.

(** ** No entry is left without a parent it had *)

Definition no_orphans (p p' : CTxMemPool) : Prop := forall h e q, mapTx p' !! h = Some e -> q ∈ parent_transactions (GetTx e) -> q ∈ dom (mapTx p) -> q ∈ dom (mapTx p').

Lemma no_orphans_refl p : no_orphans p p.
Proof. intros h e q _ _ Hq. exact Hq. Qed.
Lemma no_orphans_trans X p q r : shrunk X q r -> no_orphans p q -> no_orphans q r -> no_orphans p r.
Proof.
  intros Hs H1 H2 h e x He Hx Hd. apply (H2 h e x He Hx). destruct (shrunk_lookup _ _ _ _ _ Hs He) as (_ & e0 & He0 & Hee). injection Hee as Hdata _ _.
  apply (H1 h e0 x He0); [unfold GetTx in *; rewrite <- Hdata; exact Hx|exact Hd].
Qed.
Lemma closed_no_orphans X p p' : pool_ok p -> closed_below (mapTx p) X -> shrunk X p p' -> no_orphans p p'.
Proof.
  intros Hok [_ HX] Hs h e q He Hq Hd. rewrite (shrunk_dom _ _ _ Hs). apply elem_of_difference. split; [exact Hd|]. intros Hqx.
  destruct (shrunk_lookup _ _ _ _ _ Hs He) as (Hh & e0 & He0 & Hee). injection Hee as Hdata _ _. apply Hh, (HX q Hqx), elem_of_desc; [apply (g_links _ (po_graph p Hok))|].
  apply tc_once. unfold parent_of. rewrite (parents_lookup _ h e0 He0), (po_parents p Hok h e0 He0). apply elem_of_filter. split; [exact Hd|]. unfold GetTx in *. rewrite <- Hdata. exact Hq.
Qed.
End ops.
