(* ===== verification/PoolUpkeep.v ===== *)
(** * Expiry, the size limit and prioritisation of the transaction pool

    [Expire] removes what is older than a time, with what depends on it; [TrimToSize] removes
    packages until the pool is within its limit; [PrioritiseTransaction] changes the modified fee
    of an entry and the totals that contain it. *)

From Stdlib Require Import ZArith Lia Bool Sorting.Sorted Floats.SpecFloat.
From stdpp Require Import base numbers list gmap fin_sets sorting relations.
From S2P Require Import Prelude Uint256 Binary64 Params FeeModel Serialize Primitives TxVerify Coins MempoolEntry TxMempool PoolGraph PoolInvariant PoolBooks PoolRemoval PoolAdd PoolOps.
Local Open Scope Z_scope.

(** ** Sorted sequences *)

Section sorted.
Context {A : Type} (lt : A -> A -> bool).

Lemma sorted_by_perm l : sorted_by lt l ≡ₚ l.
Proof. apply merge_sort_Permutation. Qed.

(** a comparison by a key *)
Context (key : A -> Z) (Hkey : forall a b, lt a b = (key a <? key b)).
Lemma sorted_by_key l : StronglySorted (fun a b => key a <= key b) (sorted_by lt l).
Proof.
  assert (Hiff : forall a b, not_after lt a b <-> key a <= key b) by (intros a b; unfold not_after; rewrite Hkey, Z.ltb_ge; done).
  assert (Htot : Total (not_after lt)) by (intros a b; rewrite !Hiff; lia). pose proof (Sorted_merge_sort (not_after lt) l) as Hs. fold (sorted_by lt l) in Hs.
  apply Sorted_StronglySorted; [intros a b c; lia|]. induction Hs as [|a k _ IH Hd]; constructor; [exact IH|]. destruct Hd; constructor. apply Hiff. assumption.
Qed.

Lemma take_while_sorted (t : Z) l : StronglySorted (fun a b => key a <= key b) l -> forall a, a ∈ take_while (fun a => key a <? t) l <-> a ∈ l /\ key a < t.
Proof.
  induction 1 as [|b l Hs IH Hb]; intros a; cbn [take_while]; [split; [|intros [Ha _]]; intros; [exfalso|]; try (inversion Ha); try (inversion H)|].
  destruct (Z.ltb_spec (key b) t) as [Ht|Ht].
  - rewrite !elem_of_cons, IH. split; [intros [->|[Ha Hk]]; auto|intros [[->|Ha] Hk]; auto].
  - split; [intros Ha; inversion Ha|]. intros [Ha Hk]. exfalso. apply elem_of_cons in Ha as [->|Ha]; [lia|]. rewrite Forall_forall in Hb. specialize (Hb a Ha). cbn in Hb. lia.
Qed.
End sorted.

Section upkeep.
Context `{MempoolEnv}.

(** ** Expiry *)

Definition older (m : txmap) (time : Z) : gset uint256 := dom (filter (fun kv => EntryTime kv.2 < time) m).
Lemma elem_of_older m time h : h ∈ older m time <-> exists e, m !! h = Some e /\ EntryTime e < time.
Proof.
  unfold older. rewrite elem_of_dom. split.
  - intros [e He]. apply map_lookup_filter_Some in He as [He Ht]. eauto.
  - intros (e & He & Ht). exists e. apply map_lookup_filter_Some. done.
Qed.

Lemma expired m time : list_to_set (map fst (take_while (fun kv => EntryTime kv.2 <? time) (sorted_entries CompareTxMemPoolEntryByEntryTime m))) = older m time.
Proof.
  apply set_eq. intros h. rewrite elem_of_list_to_set, elem_of_older, list_elem_of_fmap.
  pose proof (take_while_sorted (fun kv : uint256 * CTxMemPoolEntry => EntryTime kv.2) time (sorted_entries CompareTxMemPoolEntryByEntryTime m)
    (sorted_by_key _ _ (fun _ _ => eq_refl) _)) as Ht. split.
  - intros ([k e] & -> & Hin). apply Ht in Hin as [Hin Hlt]. unfold sorted_entries in Hin. rewrite sorted_by_perm in Hin. apply elem_of_map_to_list in Hin. eauto.
  - intros (e & He & Hlt). exists (h, e). split; [done|]. apply Ht. split; [|exact Hlt]. unfold sorted_entries. rewrite sorted_by_perm. apply elem_of_map_to_list, He.
Qed.

Lemma Expire_spec time p : pool_ok p -> exists p', Expire time p = Some (Z.of_nat (size (below (mapTx p) (older (mapTx p) time))), p') /\
  left_out (below (mapTx p) (older (mapTx p) time)) p p' /\ forall h e, mapTx p' !! h = Some e -> time <= EntryTime e.
Proof.
  intros Hok. unfold Expire. rewrite expired. pose proof (po_graph p Hok) as Hg. assert (Hold : older (mapTx p) time ⊆ dom (mapTx p)) by (intros h Hh; apply elem_of_older in Hh as (e & He & _); apply elem_of_dom; eauto).
  rewrite (all_descendants_spec _ _ Hg Hold). cbn [mbind option_bind].
  destruct (RemoveStaged_closed (below (mapTx p) (older (mapTx p) time)) EXPIRY p Hok (below_closed _ _ Hg)) as (p' & -> & Hlo). cbn [mbind option_bind]. exists p'. split; [done|]. split; [exact Hlo|].
  intros h e' He'. destruct (shrunk_lookup _ _ _ _ _ (left_out_shrunk _ _ _ Hlo) He') as (Hx & e & He & Hee). injection Hee as Hd _ _. unfold EntryTime. rewrite Hd. fold (EntryTime e).
  destruct (Z.le_gt_cases time (EntryTime e)) as [|Hlt]; [assumption|]. exfalso. apply Hx, below_in; [exact Hold|]. apply elem_of_older. eauto.
Qed.

(** ** The size limit *)

(** fees times 1000 stay in their type *)
Definition fees_scale (p : CTxMemPool) : Prop :=
  1000 * pool_sum (mapTx p) (fun e => Z.abs (m_modified_fee e)) < 2 ^ 62 /\ 0 <= incremental_relay_feerate (m_opts p) < 2 ^ 62.

Lemma essence_sum X p p' f : shrunk X p p' -> (forall e e', essence e = essence e' -> f e = f e') -> (forall e, 0 <= f e) -> pool_sum (mapTx p') f <= pool_sum (mapTx p) f.
Proof.
  intros Hs Hf Hp. unfold pool_sum. rewrite (set_sum_ext (val (mapTx p') f) (val (mapTx p) f)).
  - apply set_sum_mono; [rewrite (shrunk_dom X p p' Hs); intros h Hh; apply elem_of_difference in Hh; tauto|]. intros h _. unfold val. destruct (mapTx p !! h); cbn; [apply Hp|lia].
  - intros h Hh. apply elem_of_dom in Hh as [e' He']. destruct (shrunk_lookup _ _ _ _ _ Hs He') as (_ & e & He & Hee). rewrite (val_lookup _ _ _ _ He'), (val_lookup _ _ _ _ He). apply Hf, Hee.
Qed.
Lemma shrunk_scale X p p' : shrunk X p p' -> fees_scale p -> fees_scale p'.
Proof.
  intros Hs [H1 H2]. split; [|rewrite (sh_opts _ _ _ Hs); exact H2].
  assert (Hle : pool_sum (mapTx p') (fun e => Z.abs (m_modified_fee e)) <= pool_sum (mapTx p) (fun e => Z.abs (m_modified_fee e))); [|lia].
  apply (essence_sum X); [exact Hs| |lia]. intros e e' Hee. injection Hee as _ Hm _. rewrite Hm. done.
Qed.

Lemma removed_rate p h e : pool_ok p -> fees_scale p -> mapTx p !! h = Some e ->
  exists r, CFeeRate_of (nModFeesWithDescendants e) (u32 (nSizeWithDescendants e)) = Some r /\ int64 (r + incremental_relay_feerate (m_opts p)) = Some (r + incremental_relay_feerate (m_opts p)).
Proof.
  intros Hok [Hs Hi] He. pose proof (po_graph p Hok) as Hg. destruct (desc_stat_range _ h e Hg He) as (H1 & _ & _).
  assert (Hfee : 1000 * Z.abs (nModFeesWithDescendants e) < 2 ^ 62).
  { rewrite (g_desc _ Hg h e m_modified_fee nModFeesWithDescendants He) by (unfold desc_stats; set_solver). pose proof (set_sum_abs (val (mapTx p) m_modified_fee) (down (mapTx p) h)).
    assert (Hm : set_sum (fun x => Z.abs (val (mapTx p) m_modified_fee x)) (down (mapTx p) h) <= pool_sum (mapTx p) (fun e => Z.abs (m_modified_fee e))); [|lia].
    unfold pool_sum. rewrite (set_sum_ext (val (mapTx p) (fun e => Z.abs (m_modified_fee e))) (fun x => Z.abs (val (mapTx p) m_modified_fee x))) by (intros x _; unfold val; destruct (mapTx p !! x); done).
    apply set_sum_mono; [apply down_in_dom, elem_of_dom; eauto|lia]. }
  unfold CFeeRate_of. rewrite wrap_small by (unfold fits; lia). destruct (Z.gtb_spec (nSizeWithDescendants e) 0); [|lia]. rewrite int64_ok by (unfold sfits; lia). cbn [mbind option_bind].
  eexists. split; [done|]. apply int64_ok. unfold sfits. pose proof (Z.quot_abs (nModFeesWithDescendants e * 1000) (nSizeWithDescendants e) ltac:(lia)) as Hq.
  assert (Z.abs (nModFeesWithDescendants e * 1000) ÷ Z.abs (nSizeWithDescendants e) <= Z.abs (nModFeesWithDescendants e * 1000)); [|lia].
  apply Z.quot_le_upper_bound; [lia|]. nia.
Qed.

Lemma sorted_entries_nil lt m : sorted_entries lt m = [] -> m = ∅.
Proof.
  intros Hs. apply map_to_list_empty_iff. unfold sorted_entries in Hs. apply Permutation_nil_r. rewrite <- Hs. symmetry. apply sorted_by_perm.
Qed.
Lemma sorted_entries_cons lt m h e l : sorted_entries lt m = (h, e) :: l -> m !! h = Some e.
Proof.
  intros Hs. apply elem_of_map_to_list. rewrite <- (sorted_by_perm (fun a b => lt a.2 b.2)). unfold sorted_entries in Hs. rewrite Hs. left.
Qed.

Lemma pool_ok_track rate p : pool_ok p -> pool_ok (trackPackageRemoved rate p) /\ mapTx (trackPackageRemoved rate p) = mapTx p /\ m_opts (trackPackageRemoved rate p) = m_opts p.
Proof. intros Hok. unfold trackPackageRemoved. destruct (SFltb _ _); [|done]. split; [|done]. revert Hok. apply pool_ok_ext; done. Qed.

Lemma TrimToSize_loop_spec sizelimit fuel : forall acc p, pool_ok p -> fees_scale p -> (size (mapTx p) <= fuel)%nat ->
  exists X acc' p', TrimToSize_loop fuel sizelimit acc p = Some (acc', p') /\ shrunk X p p' /\ (mapTx p' = ∅ \/ DynamicMemoryUsage p' <= sizelimit) /\
    (DynamicMemoryUsage p <= sizelimit -> p' = p) /\ no_orphans p p'.
Proof.
  induction fuel as [|fuel IH]; intros acc p Hok Hsc Hf; cbn [TrimToSize_loop]; destruct (sorted_entries _ (mapTx p)) as [|[it e] l] eqn:Es.
  - exists ∅, acc, p. split_and!; [done|apply shrunk_refl, Hok|left; apply (sorted_entries_nil _ _ Es)|done|apply no_orphans_refl].
  - apply sorted_entries_cons in Es. assert (Hz : size (mapTx p) = 0%nat) by lia. apply map_size_empty_inv in Hz. rewrite Hz, lookup_empty in Es. done.
  - exists ∅, acc, p. split_and!; [done|apply shrunk_refl, Hok|left; apply (sorted_entries_nil _ _ Es)|done|apply no_orphans_refl].
  - apply sorted_entries_cons in Es. destruct (Z.gtb_spec (DynamicMemoryUsage p) sizelimit) as [Hgt|Hle].
    2:{ exists ∅, acc, p. split_and!; [done|apply shrunk_refl, Hok|right; exact Hle|done|apply no_orphans_refl]. }
    destruct (removed_rate p it e Hok Hsc Es) as (r & -> & Hr). cbn [mbind option_bind]. rewrite Hr. cbn [mbind option_bind]. set (q := trackPackageRemoved _ p).
    destruct (pool_ok_track (r + incremental_relay_feerate (m_opts p)) p Hok) as (Hq & Hm & Ho). fold q in Hq, Hm, Ho. pose proof (po_graph q Hq) as Hg.
    assert (Hd : it ∈ dom (mapTx q)) by (rewrite Hm; apply elem_of_dom; eauto). rewrite (CalculateDescendants_spec (mapTx q) it ∅ (g_links _ Hg) (g_mutual _ Hg) Hd) by set_solver.
    cbn [mbind option_bind]. replace (∅ ∪ ({[it]} ∪ desc_set (mapTx q) it)) with (below (mapTx q) {[it]}) by (apply set_eq; intros x; rewrite <- (below_singleton _ _ _ (g_links _ Hg) Hd); set_solver).
    assert (Htx : is_Some (mapM (fun h => GetTx <$> mapTx q !! h) (by_hash (below (mapTx q) {[it]})))).
    { apply mapM_is_Some_2, Forall_forall. intros h Hh. apply elem_of_by_hash in Hh. apply (proj1 (below_closed (mapTx q) {[it]} Hg)), elem_of_dom in Hh as [x Hx]. unfold compose. rewrite Hx. eauto. }
    destruct Htx as [txn ->]. cbn [mbind option_bind].
    destruct (RemoveStaged_closed _ SIZELIMIT q Hq (below_closed (mapTx q) {[it]} Hg)) as (q' & -> & Hlo). cbn [mbind option_bind]. apply left_out_shrunk in Hlo.
    assert (Hlo' : shrunk (below (mapTx q) {[it]}) p q') by (destruct Hlo as [H1 H2 H3]; split; [exact H1|rewrite <- Hm; exact H2|congruence]).
    destruct (IH (acc ++ no_spends q' txn) q' (sh_ok _ _ _ Hlo') (shrunk_scale _ _ _ Hlo' Hsc)) as (X & acc' & p' & E & Hs & Hend & _ & Hno).
    { rewrite <- size_dom, (shrunk_dom _ _ _ Hlo). assert (Hlt : (size (dom (mapTx q) ∖ below (mapTx q) {[it]}) < size (dom (mapTx q)))%nat); [|assert (Hsz : size (dom (mapTx q)) = size (mapTx p)) by (rewrite size_dom, Hm; done); lia].
      apply subset_size. pose proof (below_in (mapTx q) {[it]} ltac:(set_solver)). set_solver. }
    exists (below (mapTx q) {[it]} ∪ X), acc', p'. split_and!; [exact E|eapply shrunk_trans; eassumption|exact Hend|lia|].
    apply (no_orphans_trans X p q' p' Hs); [|exact Hno]. apply (closed_no_orphans (below (mapTx q) {[it]}) p q' Hok); [rewrite <- Hm; apply below_closed, Hg|exact Hlo'].
Qed.
End upkeep.
