(* ===== verification/PoolPriority.v ===== *)
(** * Prioritisation in the transaction pool

    [PrioritiseTransaction] adds to the modified fee of an entry and to the totals of fees that
    contain it: its own, those of its ancestors over their descendants and those of its
    descendants over their ancestors. *)

From Stdlib Require Import ZArith Lia Bool.
From stdpp Require Import base numbers list gmap fin_sets sorting relations.
From S2P Require Import Prelude Uint256 Params FeeModel Serialize Primitives TxVerify Coins MempoolEntry TxMempool PoolGraph PoolInvariant PoolBooks PoolRemoval PoolAdd PoolOps.
Local Open Scope Z_scope.

Section relabel.
Context `{MempoolEnv}.

(** an update of entries that keeps their links *)
Definition keeps_links (f : uint256 -> CTxMemPoolEntry -> CTxMemPoolEntry) : Prop :=
  forall h e, m_parents (f h e) = m_parents e /\ m_children (f h e) = m_children e /\ same_book e (f h e).

Context (m : txmap) (f : uint256 -> CTxMemPoolEntry -> CTxMemPoolEntry) (Hf : keeps_links f).

Lemma relabel_parents h : parents (map_update f m) h = parents m h.
Proof. unfold parents. rewrite map_update_lookup. destruct (m !! h) as [e|]; [apply Hf|done]. Qed.
Lemma relabel_children h : children (map_update f m) h = children m h.
Proof. unfold children. rewrite map_update_lookup. destruct (m !! h) as [e|]; [apply Hf|done]. Qed.
Lemma relabel_links : links_in m -> links_in (map_update f m).
Proof. intros Hl h. rewrite relabel_parents, relabel_children, map_update_dom. apply Hl. Qed.
Lemma relabel_mutual : mutual m -> mutual (map_update f m).
Proof. intros Hm p c. rewrite relabel_parents, relabel_children. apply Hm. Qed.
Lemma relabel_tc h x : tc (parent_of (map_update f m)) h x <-> tc (parent_of m) h x.
Proof. split; apply tc_ext_from; intros y _; rewrite relabel_parents; done. Qed.
Lemma relabel_anc h : links_in m -> anc_set (map_update f m) h = anc_set m h.
Proof. intros Hl. apply set_eq. intros x. rewrite !elem_of_anc by (apply relabel_links, Hl || exact Hl). apply relabel_tc. Qed.
Lemma relabel_desc h : links_in m -> desc_set (map_update f m) h = desc_set m h.
Proof. intros Hl. apply set_eq. intros x. rewrite !elem_of_desc by (apply relabel_links, Hl || exact Hl). apply relabel_tc. Qed.
Lemma relabel_val g h : (forall e e', entry_data e = entry_data e' -> g e = g e') -> val (map_update f m) g h = val m g h.
Proof. intros Hg. unfold val. rewrite map_update_lookup. destruct (m !! h) as [e|]; [cbn|done]. apply Hg. symmetry. apply Hf. Qed.
End relabel.

Section priority.
Context `{MempoolEnv}.
Context (m : txmap) (t : uint256) (d : Z).

Definition more_fees (e : CTxMemPoolEntry) : CTxMemPoolEntry := set_fees (m_modified_fee e + d) (nModFeesWithDescendants e + d) (nModFeesWithAncestors e + d) e.
Definition more_below (e : CTxMemPoolEntry) : CTxMemPoolEntry := set_descendants (m_count_with_descendants e) (nSizeWithDescendants e) (nModFeesWithDescendants e + d) e.
Definition more_above (e : CTxMemPoolEntry) : CTxMemPoolEntry :=
  set_ancestors (m_count_with_ancestors e) (nSizeWithAncestors e) (nModFeesWithAncestors e + d) (nSigOpCostWithAncestors e) e.

Definition prio1 (h : uint256) (e : CTxMemPoolEntry) : CTxMemPoolEntry := at_entry t more_fees h e.
Definition prio2 (h : uint256) (e : CTxMemPoolEntry) : CTxMemPoolEntry := at_set (anc_set m t) more_below h (prio1 h e).
Definition prio3 (h : uint256) (e : CTxMemPoolEntry) : CTxMemPoolEntry := at_set (desc_set m t) more_above h (prio2 h e).

Lemma prio1_links : keeps_links prio1.
Proof. intros h e. unfold prio1, at_entry. destruct (decide _); done. Qed.
Lemma prio2_links : keeps_links prio2.
Proof. intros h e. unfold prio2, prio1, at_set, at_entry. repeat destruct (decide _); done. Qed.
Lemma prio3_links : keeps_links prio3.
Proof. intros h e. unfold prio3, prio2, prio1, at_set, at_entry. repeat destruct (decide _); done. Qed.

(** where a total changes *)
Definition bonus (b : bool) : Z := if b then d else 0.

Context (Hg : graph_ok m) (Hroom : set_sum (fun h => Z.abs (val m m_modified_fee h)) (dom m) + Z.abs d < 2 ^ 63).

Lemma t_not_anc : t ∉ anc_set m t.
Proof. rewrite elem_of_anc by apply (g_links m Hg). apply (g_acyclic m Hg). Qed.
Lemma t_not_desc : t ∉ desc_set m t.
Proof. rewrite elem_of_desc by apply (g_links m Hg). apply (g_acyclic m Hg). Qed.

Lemma prio_fields h e : entry_data (prio3 h e) = entry_data e /\ m_count_with_ancestors (prio3 h e) = m_count_with_ancestors e /\ nSizeWithAncestors (prio3 h e) = nSizeWithAncestors e /\
  nSigOpCostWithAncestors (prio3 h e) = nSigOpCostWithAncestors e /\ m_count_with_descendants (prio3 h e) = m_count_with_descendants e /\ nSizeWithDescendants (prio3 h e) = nSizeWithDescendants e /\
  m_modified_fee (prio3 h e) = m_modified_fee e + bonus (bool_decide (h = t)).
Proof.
  unfold prio3, prio2, prio1, at_set, at_entry, bonus. rewrite bool_decide_decide.
  destruct (decide (h ∈ desc_set m t)), (decide (h ∈ anc_set m t)), (decide (h = t)); cbn; split_and!; (done || lia).
Qed.

Lemma prio_fees h e : nModFeesWithAncestors (prio3 h e) = nModFeesWithAncestors e + bonus (bool_decide (t ∈ up m h)) /\
  nModFeesWithDescendants (prio3 h e) = nModFeesWithDescendants e + bonus (bool_decide (t ∈ down m h)).
Proof.
  pose proof (g_links m Hg) as Hl. assert (Ha : h ∈ desc_set m t <-> t ∈ anc_set m h) by (rewrite elem_of_anc, elem_of_desc by exact Hl; done).
  assert (Hd : h ∈ anc_set m t <-> t ∈ desc_set m h) by (rewrite elem_of_anc, elem_of_desc by exact Hl; done).
  assert (Hx : ~ (h ∈ anc_set m t /\ h ∈ desc_set m t)).
  { intros [H1 H2]. apply elem_of_anc in H1; [|exact Hl]. apply elem_of_desc in H2; [|exact Hl]. apply (g_acyclic m Hg t). eapply tc_transitive; eassumption. }
  pose proof t_not_anc as Hta. pose proof t_not_desc as Htd. unfold prio3, prio2, prio1, at_set, at_entry, bonus, up, down. rewrite !bool_decide_decide.
  assert (Hu : t ∈ {[h]} ∪ anc_set m h <-> h = t \/ h ∈ desc_set m t) by (rewrite elem_of_union, elem_of_singleton, Ha; intuition congruence).
  assert (Hw : t ∈ {[h]} ∪ desc_set m h <-> h = t \/ h ∈ anc_set m t) by (rewrite elem_of_union, elem_of_singleton, Hd; intuition congruence).
  destruct (decide (h = t)) as [->|Hh].
  - rewrite (decide_False (P := t ∈ anc_set m t)), (decide_False (P := t ∈ desc_set m t)) by assumption. rewrite !decide_True by set_solver. done.
  - destruct (decide (h ∈ anc_set m t)), (decide (h ∈ desc_set m t)); try tauto; destruct (decide (t ∈ {[h]} ∪ anc_set m h)), (decide (t ∈ {[h]} ∪ desc_set m h)); try tauto; cbn; lia.
Qed.

Lemma prio_sum X : set_sum (val (map_update prio3 m) m_modified_fee) X = set_sum (val m m_modified_fee) X + bonus (bool_decide (t ∈ X /\ t ∈ dom m)).
Proof.
  assert (Hv : forall h, val (map_update prio3 m) m_modified_fee h = val m m_modified_fee h + bonus (bool_decide (h = t /\ t ∈ dom m))).
  { intros h. unfold val. rewrite map_update_lookup. destruct (m !! h) as [e|] eqn:E; cbn [fmap option_fmap option_map from_option].
    - destruct (prio_fields h e) as (_ & _ & _ & _ & _ & _ & ->). f_equal. f_equal. apply bool_decide_ext. assert (h ∈ dom m) by (apply elem_of_dom; eauto). intuition congruence.
    - rewrite bool_decide_eq_false_2; [done|]. intros [-> Hd]. apply elem_of_dom in Hd as [e He]. congruence. }
  rewrite (set_sum_ext _ _ X (fun h _ => Hv h)), set_sum_add. f_equal. destruct (decide (t ∈ X)) as [Hx|Hx].
  - rewrite (set_sum_remove _ t X Hx), (set_sum_ext _ (fun _ => 0) (X ∖ {[t]})), set_sum_const.
    + rewrite (bool_decide_ext (t = t /\ t ∈ dom m) (t ∈ X /\ t ∈ dom m)) by tauto. lia.
    + intros h Hh. rewrite bool_decide_eq_false_2; [done|]. intros [-> _]. set_solver.
  - rewrite (set_sum_ext _ (fun _ => 0)), set_sum_const.
    + rewrite bool_decide_eq_false_2 by tauto. done.
    + intros h Hh. rewrite bool_decide_eq_false_2; [done|]. intros [-> _]. done.
Qed.

Lemma prio_val f h : f = one \/ f = GetTxSize \/ f = GetSigOpCost -> val (map_update prio3 m) f h = val m f h.
Proof. intros Hf. apply relabel_val; [apply prio3_links|]. intros e e' Hd. destruct Hf as [-> | [-> | ->]]; [done|unfold GetTxSize; rewrite Hd; done|unfold GetSigOpCost; rewrite Hd; done]. Qed.

Lemma prio_small : small (map_update prio3 m).
Proof.
  destruct (g_small m Hg) as (H1 & H2 & _). unfold small. rewrite map_update_dom.
  rewrite (set_sum_ext (val _ GetTxSize) (val m GetTxSize)), (set_sum_ext (val _ GetSigOpCost) (val m GetSigOpCost)) by (intros h _; apply prio_val; auto). split_and!; [exact H1|exact H2|].
  eapply Z.le_lt_trans; [|exact Hroom]. assert (Hle : forall X, set_sum (fun h => Z.abs (val (map_update prio3 m) m_modified_fee h)) X <= set_sum (fun h => Z.abs (val m m_modified_fee h)) X + if decide (t ∈ X) then Z.abs d else 0).
  { intros X. induction X as [|h X Hh IH] using set_ind_L; [rewrite !set_sum_empty; case_decide; lia|]. rewrite !set_sum_insert by exact Hh.
    pose proof (prio_sum {[h]}) as Hv. rewrite !set_sum_singleton in Hv. rewrite Hv. unfold bonus. rewrite bool_decide_decide.
    destruct (decide (t ∈ {[h]} /\ t ∈ dom m)) as [[Ht _]|_], (decide (t ∈ {[h]} ∪ X)), (decide (t ∈ X)); try lia; set_solver. }
  specialize (Hle (dom m)). case_decide; lia.
Qed.

Lemma prio_graph_ok : t ∈ dom m -> graph_ok (map_update prio3 m).
Proof.
  intros Ht. pose proof (g_links m Hg) as Hl. assert (Hk : keeps_links prio3) by apply prio3_links. split.
  - apply relabel_links; assumption.
  - apply relabel_mutual; [assumption|apply (g_mutual m Hg)].
  - intros h Hc. apply (relabel_tc m prio3 Hk) in Hc. apply (g_acyclic m Hg h Hc).
  - intros h e' He'. rewrite map_update_lookup in He'. apply fmap_Some in He' as (e & He & ->). destruct (prio_fields h e) as (Hd & _). unfold GetTxSize, GetSigOpCost. rewrite Hd. apply (g_sizes m Hg h e He).
  - intros h e' f g He' Hfg. rewrite map_update_lookup in He'. apply fmap_Some in He' as (e & He & ->). pose proof (g_anc m Hg h e f g He Hfg) as Hs. unfold up in *. rewrite relabel_anc by assumption.
    destruct (prio_fields h e) as (_ & F1 & F2 & F3 & _). destruct (prio_fees h e) as [F4 _]. unfold anc_stats in Hfg.
    repeat (apply elem_of_cons in Hfg as [[= -> ->]|Hfg]; [rewrite ?F1, ?F2, ?F3, ?F4, Hs; try (apply set_sum_ext; intros x _; symmetry; apply prio_val; tauto)|]); [|apply elem_of_nil in Hfg as []].
    rewrite prio_sum. unfold up. do 2 f_equal. apply bool_decide_ext. tauto.
  - intros h e' f g He' Hfg. rewrite map_update_lookup in He'. apply fmap_Some in He' as (e & He & ->). pose proof (g_desc m Hg h e f g He Hfg) as Hs. unfold down in *. rewrite relabel_desc by assumption.
    destruct (prio_fields h e) as (_ & _ & _ & _ & F1 & F2 & _). destruct (prio_fees h e) as [_ F4]. unfold desc_stats in Hfg.
    repeat (apply elem_of_cons in Hfg as [[= -> ->]|Hfg]; [rewrite ?F1, ?F2, ?F4, Hs; try (apply set_sum_ext; intros x _; symmetry; apply prio_val; tauto)|]); [|apply elem_of_nil in Hfg as []].
    rewrite prio_sum. unfold down. do 2 f_equal. apply bool_decide_ext. tauto.
  - apply prio_small.
Qed.

(** every total of fees leaves room for the change *)
Lemma fee_room X : X ⊆ dom m -> Z.abs (set_sum (val m m_modified_fee) X + d) < 2 ^ 63 /\ Z.abs (set_sum (val m m_modified_fee) X) < 2 ^ 63.
Proof.
  intros HX. pose proof (set_sum_abs (val m m_modified_fee) X). pose proof (set_sum_mono (fun h => Z.abs (val m m_modified_fee h)) X (dom m) HX (fun _ _ => Z.abs_nonneg _)). lia.
Qed.
Lemma fee_rooms h e : m !! h = Some e -> Z.abs (nModFeesWithAncestors e + d) < 2 ^ 63 /\ Z.abs (nModFeesWithDescendants e + d) < 2 ^ 63 /\ Z.abs (m_modified_fee e + d) < 2 ^ 63.
Proof.
  intros He. assert (Hd : h ∈ dom m) by (apply elem_of_dom; eauto). split_and!.
  - rewrite (g_anc m Hg h e m_modified_fee nModFeesWithAncestors He) by (unfold anc_stats; set_solver). apply fee_room, up_in_dom; assumption.
  - rewrite (g_desc m Hg h e m_modified_fee nModFeesWithDescendants He) by (unfold desc_stats; set_solver). apply fee_room, down_in_dom, Hd.
  - rewrite <- (val_lookup m m_modified_fee h e He), <- (set_sum_singleton (val m m_modified_fee) h). apply fee_room. set_solver.
Qed.
End priority.

Section prioritise.
Context `{MempoolEnv}.

Lemma relabel_ok p f : keeps_links f -> pool_ok p -> graph_ok (map_update f (mapTx p)) -> pool_ok (set_entries p (map_update f (mapTx p))).
Proof.
  intros Hf [_ [[Hk Hn Hr] Hs Hfe Hfs Hu] Hp] Hg. assert (Hdata : forall h e, entry_data (f h e) = entry_data e) by (intros; symmetry; apply Hf).
  split; cbn [mapTx set_entries set_mapTx]; [exact Hg| |].
  - split; cbn [mapTx mapNextTx txns_randomized totalTxSize m_total_fee cachedInnerUsage set_entries set_mapTx].
    + split.
      * intros h e' He'. rewrite map_update_lookup in He'. apply fmap_Some in He' as (e & He & ->). rewrite (entry_hash_data _ e) by apply Hdata. apply Hk, He.
      * intros o h. rewrite Hn, map_update_lookup. unfold GetTx. split; [intros (e & -> & Ho); exists (f h e); rewrite Hdata; done|].
        intros (e' & He' & Ho). apply fmap_Some in He' as (e & He & ->). rewrite Hdata in Ho. eauto.
      * intros i h. rewrite Hr, map_update_lookup. split; [intros (e & -> & Hi); exists (f h e); split; [done|rewrite <- Hi; symmetry; apply Hf]|].
        intros (e' & He' & Hi). apply fmap_Some in He' as (e & He & ->). exists e. split; [exact He|]. rewrite <- Hi. apply Hf.
    + rewrite pool_sum_update; [exact Hs|]. intros h e _. unfold GetTxSize. rewrite Hdata. done.
    + rewrite pool_sum_update; [exact Hfe|]. intros h e _. unfold EntryFee. rewrite Hdata. done.
    + rewrite pool_sum_update; [exact Hfs|]. intros h e _. unfold EntryFee. rewrite Hdata. done.
    + rewrite pool_sum_update; [exact Hu|]. intros h e _. unfold entry_usage, link_count. rewrite Hdata. destruct (Hf h e) as (-> & -> & _). done.
  - intros h e' He'. rewrite map_update_lookup in He'. apply fmap_Some in He' as (e & He & ->). rewrite map_update_dom. destruct (Hf h e) as (-> & _). unfold GetTx. rewrite Hdata. apply (Hp h e He).
Qed.

(** the entries with the change *)
Definition prioritised (t : uint256) (d : Z) (p p' : CTxMemPool) : Prop := pool_ok p' /\
  (forall h, mapTx p' !! h = prio3 (mapTx p) t d h <$> mapTx p !! h) /\ m_opts p' = m_opts p.

Lemma modify_entry_at h f p e e' : mapTx p !! h = Some e -> f e = Some e' -> modify_entry h f p = Some (set_entries p (<[h := e']> (mapTx p))).
Proof. intros He Hf. unfold modify_entry, modify. rewrite He. cbn [mbind option_bind]. rewrite Hf. done. Qed.

Lemma anc_stat_range m h x : graph_ok m -> m !! h = Some x -> 0 < nSizeWithAncestors x < 2 ^ 31 /\ 0 < m_count_with_ancestors x < 2 ^ 31 /\ 0 <= nSigOpCostWithAncestors x < 2 ^ 31.
Proof.
  intros Hg Hx. assert (Hd : h ∈ dom m) by (apply elem_of_dom; eauto). destruct (graph_bounds m (up m h) Hg (up_in_dom m h Hg Hd)) as (B1 & B2 & B3 & _ & B5).
  rewrite (g_anc m Hg h x one m_count_with_ancestors Hx), (g_anc m Hg h x GetTxSize nSizeWithAncestors Hx), (g_anc m Hg h x GetSigOpCost nSigOpCostWithAncestors Hx) by (unfold anc_stats; set_solver).
  assert (0 < Z.of_nat (size (up m h))); [|lia]. assert (size (up m h) <> 0%nat); [|lia]. intros Hz. apply size_empty_inv in Hz. unfold up in Hz. set_solver.
Qed.

Section steps.
Context (m : txmap) (t : uint256) (d : Z) (e : CTxMemPoolEntry) (Hg : graph_ok m) (He : m !! t = Some e)
  (Hroom : set_sum (fun h => Z.abs (val m m_modified_fee h)) (dom m) + Z.abs d < 2 ^ 63).
Let Hl : links_in m := g_links m Hg.

Lemma prio1_step p : mapTx p = m -> modify_entry t (fun e => Some (UpdateModifiedFee d e)) p = Some (set_entries p (map_update (prio1 t d) m)).
Proof.
  intros Hp. rewrite (modify_entry_at t _ p e (more_fees d e)); [rewrite Hp; f_equal; f_equal; apply (insert_at_entry t (more_fees d) m e He)|rewrite Hp; exact He|].
  destruct (fee_rooms m d Hg Hroom t e He) as (H1 & H2 & H3). unfold UpdateModifiedFee. rewrite !SaturatingAdd_ok by (unfold sfits; lia). done.
Qed.

Lemma prio1_ancestors p : mapTx p = map_update (prio1 t d) m -> AssumeCalculateMemPoolAncestors p (prio1 t d t e) NoLimits false = Some (anc_set m t).
Proof.
  intros Hp. assert (Hs1 : forall h x, GetTxSize (prio1 t d h x) = GetTxSize x /\ nSizeWithDescendants (prio1 t d h x) = nSizeWithDescendants x /\
    m_count_with_descendants (prio1 t d h x) = m_count_with_descendants x) by (intros h x; unfold prio1, at_entry; case_decide; done).
  rewrite (AssumeCalculateMemPoolAncestors_spec p t (prio1 t d t e)); rewrite Hp.
  - rewrite relabel_anc by (apply prio1_links || exact Hl). done.
  - apply relabel_links; [apply prio1_links|exact Hl].
  - rewrite map_update_lookup, He. done.
  - destruct (graph_roomy m t e Hg He) as [R1 R2 R3]. destruct (Hs1 t e) as (-> & _). split.
    + intros h x Hx. rewrite map_update_lookup in Hx. apply fmap_Some in Hx as (y & Hy & ->). destruct (Hs1 h y) as (-> & -> & ->). apply (R1 h y Hy).
    + rewrite map_update_dom. erewrite set_sum_ext; [exact R2|]. intros h _. cbv beta. rewrite map_update_lookup. destruct (m !! h) as [y|]; [apply Hs1|done].
    + rewrite map_update_size. exact R3.
Qed.

Lemma prio2_step p : mapTx p = map_update (prio1 t d) m ->
  for_each (fun a => modify_entry a (UpdateDescendantState 0 d 0)) (by_hash (anc_set m t)) p = Some (set_entries p (map_update (prio2 m t d) m)).
Proof.
  intros Hp. rewrite (for_each_modify _ (more_below d)); [rewrite Hp, map_update_update; done|]. intros h Hh. destruct (elem_of_dom m h) as [Hhd _]. destruct (Hhd (anc_in_dom m t Hl h Hh)) as [x Hx].
  rewrite Hp, map_update_lookup, Hx. eexists. split; [done|]. assert (Hne : h <> t) by (intros ->; apply (t_not_anc m t Hg), Hh). unfold prio1, at_entry. rewrite decide_False by exact Hne.
  destruct (desc_stat_range m h x Hg Hx) as (H1 & H2 & _). destruct (fee_rooms m d Hg Hroom h x Hx) as (_ & H3 & _). rewrite UpdateDescendantState_ok by lia. rewrite !Z.add_0_r. done.
Qed.

Lemma prio2_descendants : CalculateDescendants (map_update (prio2 m t d) m) t ∅ = Some ({[t]} ∪ desc_set m t).
Proof.
  rewrite (CalculateDescendants_spec _ t ∅ (relabel_links _ _ (prio2_links m t d) Hl) (relabel_mutual _ _ (prio2_links m t d) (g_mutual _ Hg))).
  - rewrite relabel_desc by (apply prio2_links || exact Hl). rewrite union_empty_l_L. done.
  - rewrite map_update_dom. apply elem_of_dom. eauto.
  - set_solver.
Qed.

Lemma prio3_step p : mapTx p = map_update (prio2 m t d) m ->
  for_each (fun x => modify_entry x (UpdateAncestorState 0 d 0 0)) (by_hash (desc_set m t)) p = Some (set_entries p (map_update (prio3 m t d) m)).
Proof.
  intros Hp. rewrite (for_each_modify _ (more_above d)); [rewrite Hp, map_update_update; done|]. intros h Hh. pose proof (desc_in_dom m t h Hh) as Hhd. apply elem_of_dom in Hhd as [x Hx].
  rewrite Hp, map_update_lookup, Hx. eexists. split; [done|]. assert (Hne : h <> t) by (intros ->; apply (t_not_desc m t Hg), Hh).
  assert (Hna : h ∉ anc_set m t).
  { intros Ha. apply elem_of_anc in Ha; [|exact Hl]. apply elem_of_desc in Hh; [|exact Hl]. apply (g_acyclic m Hg t). eapply tc_transitive; eassumption. }
  unfold prio2, prio1, at_entry, at_set. rewrite (decide_False (P := h = t)), (decide_False (P := h ∈ anc_set m t)) by assumption.
  destruct (anc_stat_range m h x Hg Hx) as (H1 & H2 & H4). destruct (fee_rooms m d Hg Hroom h x Hx) as (H3 & _). rewrite UpdateAncestorState_ok by lia. rewrite !Z.add_0_r. done.
Qed.
End steps.

Lemma PrioritiseTransaction_spec p t d : pool_ok p -> set_sum (fun h => Z.abs (val (mapTx p) m_modified_fee h)) (dom (mapTx p)) + Z.abs d < 2 ^ 63 ->
  exists p', PrioritiseTransaction t d p = Some p' /\ prioritised t d p p' /\
    let delta := SaturatingAdd (default 0 (mapDeltas p !! t)) d in
    mapDeltas p' = if delta =? 0 then delete t (mapDeltas p) else <[t := delta]> (mapDeltas p).
Proof.
  intros Hok Hroom. unfold PrioritiseTransaction. set (delta := SaturatingAdd _ d). set (q := set_mapDeltas p _). assert (Hq : pool_ok q) by (revert Hok; apply pool_ok_ext; done).
  assert (Hmid : exists r, (match mapTx q !! t with
       | Some _ => r ← modify_entry t (fun e => Some (UpdateModifiedFee d e)) q; e ← mapTx r !! t; ancestors ← AssumeCalculateMemPoolAncestors r e NoLimits false;
           r ← for_each (fun a => modify_entry a (UpdateDescendantState 0 d 0)) (by_hash ancestors) r; setDescendants ← CalculateDescendants (mapTx r) t ∅;
           r ← for_each (fun x => modify_entry x (UpdateAncestorState 0 d 0 0)) (by_hash (setDescendants ∖ {[t]})) r;
           Some (set_counters r (u32 (nTransactionsUpdated r + 1)) (m_sequence_number r) (m_unbroadcast_txids r))
       | None => Some q end) = Some r /\ prioritised t d p r /\ mapDeltas r = mapDeltas q).
  { destruct (mapTx q !! t) as [e|] eqn:He.
    - pose proof (po_graph p Hok) as Hg. change (mapTx p !! t = Some e) in He. rewrite (prio1_step (mapTx p) t d e Hg He Hroom q) by done. cbn [mbind option_bind mapTx set_entries set_mapTx]. rewrite map_update_lookup, He.
      cbn [mbind option_bind fmap option_fmap option_map]. rewrite (prio1_ancestors (mapTx p) t d e Hg He) by done. cbn [mbind option_bind]. rewrite (prio2_step (mapTx p) t d Hg Hroom) by done.
      cbn [mbind option_bind mapTx set_entries set_mapTx]. rewrite (prio2_descendants (mapTx p) t d e Hg He Hroom). cbn [mbind option_bind].
      replace (({[t]} ∪ desc_set (mapTx p) t) ∖ {[t]}) with (desc_set (mapTx p) t) by (pose proof (t_not_desc (mapTx p) t Hg); set_solver).
      rewrite (prio3_step (mapTx p) t d Hg Hroom) by done. cbn [mbind option_bind]. eexists. split; [done|]. split; [|done]. split; [|split; [intros h; apply map_update_lookup|done]].
      assert (Hd : t ∈ dom (mapTx p)) by (apply elem_of_dom; eauto). pose proof (relabel_ok p _ (prio3_links (mapTx p) t d) Hok (prio_graph_ok (mapTx p) t d Hg Hroom Hd)) as Hr. revert Hr. apply pool_ok_ext; done.
    - exists q. split; [done|]. split; [|done]. split; [exact Hq|]. split; [|done]. intros h. change (mapTx q) with (mapTx p) in *. destruct (mapTx p !! h) as [x|] eqn:Hx; [|done]. cbn. f_equal.
      assert (Hno : t ∉ dom (mapTx p)) by (apply not_elem_of_dom, He). unfold prio3, prio2, prio1, at_set, at_entry.
      rewrite (decide_False (P := h = t)) by congruence. rewrite (decide_False (P := h ∈ anc_set (mapTx p) t)).
      + rewrite decide_False; [done|]. intros Hd. apply elem_of_desc in Hd; [|apply (g_links _ (po_graph p Hok))]. apply Hno, (anc_in_dom (mapTx p) h (g_links _ (po_graph p Hok))), elem_of_anc; [apply (g_links _ (po_graph p Hok))|exact Hd].
      + intros Ha. apply elem_of_anc in Ha; [|apply (g_links _ (po_graph p Hok))]. apply Hno. inversion Ha; subst; eapply parent_in_dom; eassumption. }
  destruct Hmid as (r & -> & (Hr & Hm & Ho) & Hdel). cbn [mbind option_bind]. eexists. split; [done|]. destruct (delta =? 0).
  - split; [split; [revert Hr; apply pool_ok_ext; done|split; [exact Hm|exact Ho]]|]. cbn [mapDeltas set_mapDeltas]. rewrite Hdel. cbn. apply delete_insert_eq.
  - split; [split; [exact Hr|split; [exact Hm|exact Ho]]|]. exact Hdel.
Qed.
End prioritise.
