(* ===== verification/PoolTheorems.v ===== *)
(** * What the transaction pool guarantees

    Every pool reached from the empty one by change sets, blocks, expiry, trimming and
    prioritisation has consistent links, totals and books, and the operations do what they
    are for. *)

From Stdlib Require Import ZArith Lia Bool.
From stdpp Require Import base numbers list gmap fin_sets sorting relations.
From S2P Require Import Prelude Uint256 Binary64 Params FeeModel Serialize Primitives TxVerify Coins MempoolEntry TxMempool PoolGraph PoolInvariant PoolBooks PoolRemoval PoolAdd PoolOps PoolUpkeep PoolPriority.
Local Open Scope Z_scope.

Section theorems.
Context `{MempoolEnv}.

(** ** Change sets *)






(** ** Entries as the pool builds them *)

Lemma new_entry_fresh tx fee time height sequence coinbase sigops lp e : CTxMemPoolEntry_new tx fee time height sequence coinbase sigops lp = Some e ->
  0 < GetTxSize e -> 0 <= sigops -> fresh e.
Proof.
  unfold CTxMemPoolEntry_new. destruct (GetValueOut tx); [|done]. cbn [mbind option_bind]. match goal with |- Some {| entry_data := ?x |} = _ -> _ => assert (Hg' : sigOpCost x = sigops) by done; generalize dependent x end.
  intros d Hd [= <-] Hs Hg. split; [done|done| |split; [exact Hs|unfold GetSigOpCost; cbn; lia]].
  intros f g Hfg. unfold anc_stats, desc_stats in Hfg. cbn [app] in Hfg. repeat (apply elem_of_cons in Hfg as [[= -> ->]|Hfg]; [first [done|symmetry; exact Hd]|]). apply elem_of_nil in Hfg as [].
Qed.
Lemma modified_fresh d e : fresh e -> fresh (UpdateModifiedFee d e).
Proof.
  intros [Hp Hc Hs Hz]. pose proof (Hs m_modified_fee nModFeesWithDescendants ltac:(unfold anc_stats, desc_stats; set_solver)) as H1.
  pose proof (Hs m_modified_fee nModFeesWithAncestors ltac:(unfold anc_stats, desc_stats; set_solver)) as H2. split; [exact Hp|exact Hc| |exact Hz].
  intros f g Hfg. pose proof (Hs f g Hfg) as Hfe. unfold anc_stats, desc_stats in Hfg. cbn [app] in Hfg.
  repeat (apply elem_of_cons in Hfg as [[= -> ->]|Hfg]; [first [exact Hfe|cbn; congruence]|]). apply elem_of_nil in Hfg as [].
Qed.

(** the entry of a staged transaction counts only itself *)
Lemma StageAddition_fresh p tx fee time height sequence coinbase sigops lp c c' : StageAddition p tx fee time height sequence coinbase sigops lp c = Some c' -> 0 <= sigops ->
  exists e, m_entry_vec c' = m_entry_vec c ++ [e] /\ GetTx e = tx /\ (0 < GetTxSize e -> fresh e).
Proof.
  unfold StageAddition. destruct (CTxMemPoolEntry_new _ _ _ _ _ _ _ _) as [e|] eqn:Ee; [|done]. cbn [mbind option_bind]. destruct (ApplyDelta _ _ _) as [d|]; [|done]. cbn [mbind option_bind].
  intros [= <-] Hs. cbn [m_entry_vec]. exists (if d =? 0 then e else UpdateModifiedFee d e). split; [done|]. assert (Htx : GetTx e = tx).
  { unfold CTxMemPoolEntry_new in Ee. destruct (GetValueOut tx); [|done]. injection Ee as <-. done. }
  split; [destruct (d =? 0); exact Htx|]. pose proof (new_entry_fresh _ _ _ _ _ _ _ _ _ Ee) as Hf. destruct (d =? 0); intros Hz; [apply Hf; assumption|apply modified_fresh, Hf; assumption].
Qed.

(** ** Reorganisations *)




(** ** The pool from its start *)


Lemma pool_ok_init opts now : pool_ok (CTxMemPool_init opts now).
Proof.
  split.
  - split; try (intros h e He; done); try (intros h e f g He; done).
    + intros h. unfold parents, children. cbn [mapTx CTxMemPool_init]. rewrite lookup_empty. done.
    + intros q c. unfold parents, children. cbn [mapTx CTxMemPool_init]. rewrite !lookup_empty. done.
    + intros h Ht. inversion Ht as [a b Hab|a b c Hab]; unfold parent_of, parents in Hab; cbn [mapTx CTxMemPool_init] in Hab; rewrite lookup_empty in Hab; set_solver.
    + split_and!; reflexivity.
  - split; try reflexivity. split; try (intros h e He; done). intros o h. cbn [mapTx mapNextTx CTxMemPool_init]. rewrite lookup_empty. split; [done|]. intros (e & He & _). rewrite lookup_empty in He. done.
    intros i h. cbn [mapTx txns_randomized CTxMemPool_init]. split; [done|]. intros (e & He & _). rewrite lookup_empty in He. done.
  - intros h e He. cbn [mapTx CTxMemPool_init] in He. rewrite lookup_empty in He. done.
Qed.

Lemma removeForBlock_spec vtx now p : pool_ok p -> parents_first p vtx -> exists X p', removeForBlock vtx now p = Some p' /\ shrunk X p p' /\
  (forall tx, tx ∈ vtx -> ComputeHash tx ∉ dom (mapTx p') /\ forall o, o ∈ prevouts tx -> mapNextTx p' !! o = None) /\
  forall h, h ∈ X -> exists tx, tx ∈ vtx /\ (h = ComputeHash tx \/ contradicts p (ComputeHash tx) (prevouts tx) h).
Proof.
  intros Hok Hord. unfold removeForBlock. destruct (removeForBlock_loop vtx p Hok Hord) as (X & q & -> & Hs & Hgone & HX). cbn [mbind option_bind].
  eexists X, _. split; [done|]. split; [|split; [exact Hgone|exact HX]]. apply (shrunk_ext X p q); [exact Hs|done| |done]. pose proof (sh_ok _ _ _ Hs) as Hq. revert Hq. apply pool_ok_ext; done.
Qed.





(** C32: After a block whose transactions confirm parents first, the pool holds none of the
    block's transactions and spends none of their inputs; an entry that left was one of them
    or depends on an entry that spends the same output as one of them, and every other entry
    is kept. *)
Theorem pool_after_block vtx now p : pool_ok p -> parents_first p vtx -> exists p', removeForBlock vtx now p = Some p' /\ pool_ok p' /\
  (forall tx, tx ∈ vtx -> mapTx p' !! ComputeHash tx = None /\ forall o, o ∈ prevouts tx -> mapNextTx p' !! o = None) /\
  forall h e, mapTx p !! h = Some e -> (exists e', mapTx p' !! h = Some e' /\ essence e' = essence e) \/
    exists tx, tx ∈ vtx /\ (h = ComputeHash tx \/ contradicts p (ComputeHash tx) (prevouts tx) h).
Proof.
  intros Hok Ho. destruct (removeForBlock_spec vtx now p Hok Ho) as (X & p' & E & Hs & Hgone & HX). exists p'. split_and!; [exact E|apply (sh_ok _ _ _ Hs)| |].
  - intros tx Hin. destruct (Hgone tx Hin) as [Hd Hn]. split; [apply not_elem_of_dom, Hd|exact Hn].
  - intros h e He. destruct (decide (h ∈ X)) as [Hx|Hx]; [right; apply HX, Hx|left]. pose proof (sh_entries _ _ _ Hs h) as Hh. rewrite decide_False, He in Hh by exact Hx.
    apply fmap_Some in Hh as (e' & He' & Hee). eauto.
Qed.

(** C33: [TrimToSize] ends with a pool within the limit, or empty; it touches nothing when
    the pool is within the limit already, and never leaves an entry without a parent it had
    in the pool. *)
Theorem pool_trimmed sizelimit p : pool_ok p -> fees_scale p -> exists spent p', TrimToSize sizelimit p = Some (spent, p') /\ pool_ok p' /\
  (mapTx p' = ∅ \/ DynamicMemoryUsage p' <= sizelimit) /\ (DynamicMemoryUsage p <= sizelimit -> p' = p) /\ no_orphans p p'.
Proof.
  intros Hok Hs. destruct (TrimToSize_loop_spec sizelimit (size (mapTx p)) [] p Hok Hs ltac:(lia)) as (X & spent & p' & E & Hq & Hl & Hi & Hno).
  exists spent, p'. split_and!; [exact E|apply (sh_ok _ _ _ Hq)|exact Hl|exact Hi|exact Hno].
Qed.
End theorems.

(** ** A pool with one transaction *)

Module Sample.
#[local] Instance env : MempoolEnv :=
  {| nBytesPerSigOp := 20; fee_model := g_fee_model; RecursiveDynamicUsage := fun tx => 64 * (zlen (vin tx) + zlen (vout tx)); link_usage := 48;
     mapTx_node_usage := 200; mapNextTx_node_usage := 64; mapDeltas_node_usage := 64; vector_usage := fun n => 16 * Z.of_nat n;
     vector_grow := fun n => (1 + 2 * n)%nat; vector_shrink := fun n _ => n; pow2 := fun x => x |}.
Definition opts : MemPoolOptions := {| max_size_bytes := 300000000; incremental_relay_feerate := DEFAULT_INCREMENTAL_RELAY_FEE; limits := DEFAULT_LIMITS |}.
Definition pool0 : CTxMemPool := CTxMemPool_init opts 0.
Definition tx : CTransaction :=
  {| vin := [{| prevout := {| out_hash := replicate 32 7; out_n := 0 |}; scriptSig := []; nSequence := 0; scriptWitness := [] |}];
     vout := [{| nValue := 5000; scriptPubKey := [0x51] |}]; version := 2; nLockTime := 0 |}.
Definition data : EntryData :=
  {| entry_tx := tx; entry_nFee := 1000; entry_nValue := 5000; nTxWeight := GetTransactionWeight tx; nUsageSize := RecursiveDynamicUsage tx; entry_nTime := 10; entry_sequence := 0;
     entryHeight := 1; spendsCoinbase := false; sigOpCost := 4 |}.
Definition entry : CTxMemPoolEntry :=
  {| entry_data := data; m_parents := ∅; m_children := ∅; m_modified_fee := 1000; lockPoints := {| lp_height := 0; lp_time := 0; maxInputBlock := None |};
     m_count_with_descendants := 1; nSizeWithDescendants := data_size data; nModFeesWithDescendants := 1000; m_count_with_ancestors := 1;
     nSizeWithAncestors := data_size data; nModFeesWithAncestors := 1000; nSigOpCostWithAncestors := 4; idx_randomized := 0 |}.

Lemma entry_new : CTxMemPoolEntry_new tx 1000 10 1 0 false 4 {| lp_height := 0; lp_time := 0; maxInputBlock := None |} = Some entry.
Proof. unfold CTxMemPoolEntry_new. replace (GetValueOut tx) with (Some 5000) by reflexivity. reflexivity. Qed.
Lemma entry_size : GetTxSize entry = 61.
Proof. vm_compute. reflexivity. Qed.

Lemma entry_self : entry_hash entry ∉ parent_transactions (GetTx entry).
Proof. assert (Hb : bool_decide (entry_hash entry ∉ parent_transactions (GetTx entry)) = true) by (vm_compute; reflexivity). apply bool_decide_eq_true in Hb. exact Hb. Qed.

Lemma entry_sum n f : set_sum (val (<[n := entry]> (∅ : txmap)) f) (dom (<[n := entry]> (∅ : txmap))) = f entry.
Proof.
  fold (pool_sum (<[n := entry]> (∅ : txmap)) f). rewrite pool_sum_insert by apply lookup_empty. unfold pool_sum. rewrite dom_empty_L, set_sum_empty. lia.
Qed.

Lemma entry_addable : addable pool0 (entry_hash entry) entry.
Proof.
  split.
  - done.
  - apply (new_entry_fresh _ _ _ _ _ _ _ _ _ entry_new); [rewrite entry_size|]; lia.
  - apply lookup_empty.
  - intros h x Hx. unfold pool0 in Hx. cbn [mapTx CTxMemPool_init] in Hx. rewrite lookup_empty in Hx. discriminate Hx.
  - intros o _. apply lookup_empty.
  - apply entry_self.
  - intros h x Hx. unfold pool0 in Hx. cbn [mapTx CTxMemPool_init] in Hx. rewrite lookup_empty in Hx. discriminate Hx.
  - generalize (entry_hash entry). intros n. cbn [mapTx pool0 CTxMemPool_init]. split_and!; [rewrite entry_sum, entry_size; lia|rewrite entry_sum; cbn; lia|].
    rewrite (set_sum_ext _ (val (<[n := entry]> (∅ : txmap)) (fun e => Z.abs (m_modified_fee e)))) by (intros h _; unfold val; destruct (_ !! h); done). rewrite entry_sum. cbn. lia.
  - generalize (entry_hash entry). intros n. unfold pool_sum. cbn [mapTx pool0 CTxMemPool_init]. rewrite entry_sum. cbn. lia.
Qed.




(** the pool with the entry *)
Lemma added_entry : exists p, apply_next entry pool0 = Some p /\ joined pool0 (entry_hash entry) entry p.
Proof. apply (apply_next_spec pool0 _ entry (pool_ok_init _ _) entry_addable). Qed.

Lemma added_scale n p : joined pool0 n entry p -> fees_scale p.
Proof.
  intros Hj. destruct (jo_settings _ _ _ _ Hj) as [_ Ho]. split; [|rewrite Ho; cbn; unfold DEFAULT_INCREMENTAL_RELAY_FEE; lia].
  unfold pool_sum. rewrite (joined_dom _ _ _ _ Hj). cbn [mapTx pool0 CTxMemPool_init]. rewrite dom_empty_L, union_empty_r_L, set_sum_singleton.
  pose proof (jo_entries _ _ _ _ Hj n) as He. rewrite decide_True in He by done. apply fmap_Some in He as (x & Hx & Hee). rewrite (val_lookup _ _ _ _ Hx). injection Hee as _ Hm _. rewrite <- Hm. cbn. lia.
Qed.

(** the one entry of a pool is not its own parent *)
Lemma added_parents_first n p t : joined pool0 n entry p -> ComputeHash t = n -> parents_first p [t].
Proof.
  intros Hj Ht i tx e q Hi He Hq. exfalso. destruct i; [|done]. injection Hi as <-. rewrite Ht in He. pose proof (po_graph p (jo_ok _ _ _ _ Hj)) as Hg.
  assert (Hpar : q ∈ parents (mapTx p) n) by (rewrite (parents_lookup _ n e He); exact Hq). pose proof (proj1 (g_links _ Hg n) q Hpar) as Hd.
  rewrite (joined_dom _ _ _ _ Hj) in Hd. cbn [mapTx pool0 CTxMemPool_init] in Hd. rewrite dom_empty_L, union_empty_r_L in Hd. apply elem_of_singleton in Hd as ->.
  apply (g_acyclic _ Hg n), tc_once, Hpar.
Qed.
End Sample.



Lemma pool_after_block_witness : exists p p', apply_next (H := Sample.env) Sample.entry Sample.pool0 = Some p /\ removeForBlock (H := Sample.env) [Sample.tx] 20 p = Some p' /\
  mapTx p' !! ComputeHash Sample.tx = None.
Proof.
  destruct Sample.added_entry as (p & E & Hj). pose proof (Sample.added_parents_first _ p Sample.tx Hj (eq_sym (entry_hash_eq Sample.entry))) as Ho.
  destruct (pool_after_block (H := Sample.env) [Sample.tx] 20 p (jo_ok _ _ _ _ Hj) Ho) as (p' & E' & _ & Hgone & _). exists p, p'. split; [exact E|]. split; [exact E'|]. apply Hgone. left.
Defined.

Lemma pool_trimmed_witness : exists p spent p', apply_next (H := Sample.env) Sample.entry Sample.pool0 = Some p /\ TrimToSize (H := Sample.env) 100 p = Some (spent, p') /\
  (mapTx p' = ∅ \/ DynamicMemoryUsage (H := Sample.env) p' <= 100).
Proof.
  destruct Sample.added_entry as (p & E & Hj). destruct (pool_trimmed (H := Sample.env) 100 p (jo_ok _ _ _ _ Hj) (Sample.added_scale _ p Hj)) as (spent & p' & E' & _ & Hl & _).
  exists p, spent, p'. split; [exact E|]. split; [exact E'|exact Hl].
Defined.
