(* ===== verification/Merkle.v ===== *)
(** * Merkle trees

    src/consensus/merkle.cpp: the root of a block ([ComputeMerkleRoot], double SHA-256
    in place, with the detection of duplicated subtrees), and the constant-space
    root and path computation [MerkleComputation], which combines nodes with [Hash], that is
    with BLAKE3. *)

From Stdlib Require Import ZArith Lia Bool.
From stdpp Require Import base option list.
From S2P Require Import Prelude Uint256 Sha256 Sha256Proofs Hashes Serialize Primitives.
Local Open Scope Z_scope.
Local Open Scope adonai_scope.

(** ** ComputeMerkleRoot *)

(** [for (pos = 0; pos + 1 < hashes.size(); pos += 2) if (hashes[pos] == hashes[pos + 1]) mutation = true] *)
Fixpoint has_equal_pair (hashes : list uint256) : bool :=
  match hashes with
  | a :: b :: rest => blob_eqb a b || has_equal_pair rest
  | _ => false
  end.

Definition pad_odd (hashes : list uint256) : list uint256 :=
  if Nat.odd (length hashes) then hashes ++ [List.last hashes (replicate 32 0)] else hashes.

(** the vector of 32-byte hashes as contiguous memory, and back *)
Definition mem_of (hashes : list uint256) : list Z := concat hashes.
Definition of_mem (n : nat) (buf : list Z) : list uint256 := map (fun j => take 32 (drop (32 * j) buf)) (seq 0 n).

Definition merkle_step (hashes : list uint256) : list uint256 :=
  let hashes := pad_odd hashes in
  let n := (length hashes / 2)%nat in
  of_mem n (SHA256D64_inplace (mem_of hashes) 0 n).

(** the result, and [*mutated] of a caller that asks for it; [fuel] bounds the number of levels *)
Fixpoint merkle_loop (fuel : nat) (hashes : list uint256) (mutation : bool) : list uint256 * bool :=
  match fuel with
  | O => (hashes, mutation)
  | S fuel =>
      if (1 <? length hashes)%nat then merkle_loop fuel (merkle_step hashes) (mutation || has_equal_pair hashes)
      else (hashes, mutation)
  end.
Definition ComputeMerkleRoot (hashes : list uint256) : uint256 * bool :=
  let '(hashes, mutation) := merkle_loop (length hashes) hashes false in
  (match hashes with [] => replicate 32 0 | h :: _ => h end, mutation).

Definition BlockMerkleRoot (block : CBlock) : uint256 * bool := ComputeMerkleRoot (map ComputeHash (vtx block)).

(** [leaves[0].SetNull()]: the witness hash of the coinbase is 0 ([block.vtx] is not empty) *)
Definition BlockWitnessMerkleRoot (block : CBlock) : uint256 * bool :=
  ComputeMerkleRoot (replicate 32 0 :: map ComputeWitnessHash (tail (vtx block))).

(** ** MerkleComputation *)

Section computation.
Context `{Cpu}.

(** the local variables of the loops; [matchlevel] is [-1] before the leaf is met *)
Record McState : Type := {
  inner : list uint256;
  matchlevel : Z;
  path : list uint256;
  mc_mutated : bool;
}.

(** [!(count & (uint32_t{1} << level))] *)
Definition bit_clear (count : Z) (level : nat) : bool := Z.land count (Z.shiftl 1 (Z.of_nat level)) =? 0.

(** [path->push_back(...)] of one combination with [inner[level]] *)
Definition path_step (st : McState) (level : nat) (h : uint256) (matchh : bool) : McState * bool :=
  if matchh then
    ({| inner := inner st; matchlevel := matchlevel st;
        path := path st ++ [nth level (inner st) (replicate 32 0)]; mc_mutated := mc_mutated st |}, true)
  else if matchlevel st =? Z.of_nat level then
    ({| inner := inner st; matchlevel := matchlevel st; path := path st ++ [h]; mc_mutated := mc_mutated st |}, true)
  else (st, false).

Definition set_mutated (st : McState) (b : bool) : McState :=
  {| inner := inner st; matchlevel := matchlevel st; path := path st; mc_mutated := mc_mutated st || b |}.

(** [for (level = 0; !(count & (1 << level)); level++)] *)
Fixpoint mc_carry (fuel level : nat) (count : Z) (st : McState) (h : uint256) (matchh : bool)
  : McState * nat * uint256 * bool :=
  match fuel with
  | O => (st, level, h, matchh)
  | S fuel =>
      if bit_clear count level then
        let '(st, matchh) := path_step st level h matchh in
        let st := set_mutated st (blob_eqb (nth level (inner st) (replicate 32 0)) h) in
        mc_carry fuel (S level) count st (Hash_pair (nth level (inner st) (replicate 32 0)) h) matchh
      else (st, level, h, matchh)
  end.

(** one leaf: [count] is its index; [inner[level] = h; if (matchh) matchlevel = level] *)
Definition mc_leaf (leaf_pos count : Z) (st : McState) (h : uint256) : McState :=
  let '(st, level, h, matchh) := mc_carry 32 0 (u32 (count + 1)) st h (count =? leaf_pos) in
  {| inner := <[level := h]> (inner st);
     matchlevel := if matchh then Z.of_nat level else matchlevel st;
     path := path st; mc_mutated := mc_mutated st |}.
Fixpoint mc_leaves (leaf_pos count : Z) (st : McState) (leaves : list uint256) : McState :=
  match leaves with
  | [] => st
  | h :: leaves => mc_leaves leaf_pos (u32 (count + 1)) (mc_leaf leaf_pos count st h) leaves
  end.

(** [while (!(count & (1 << level))) level++] *)
Fixpoint lowest_bit (fuel level : nat) (count : Z) : nat :=
  match fuel with
  | O => level
  | S fuel => if bit_clear count level then lowest_bit fuel (S level) count else level
  end.

(** the inner loop of the sweep: combine with [inner[level]] while the bit is clear *)
Fixpoint mc_propagate (fuel level : nat) (count : Z) (st : McState) (h : uint256) (matchh : bool)
  : McState * nat * uint256 * bool :=
  match fuel with
  | O => (st, level, h, matchh)
  | S fuel =>
      if bit_clear count level then
        let '(st, matchh) := path_step st level h matchh in
        mc_propagate fuel (S level) count st (Hash_pair (nth level (inner st) (replicate 32 0)) h) matchh
      else (st, level, h, matchh)
  end.

(** [while (count != (1 << level))] *)
Fixpoint mc_sweep (fuel level : nat) (count : Z) (st : McState) (h : uint256) (matchh : bool) : McState * uint256 :=
  match fuel with
  | O => (st, h)
  | S fuel =>
      if count =? Z.shiftl 1 (Z.of_nat level) then (st, h)
      else
        let st := if matchh then {| inner := inner st; matchlevel := matchlevel st; path := path st ++ [h]; mc_mutated := mc_mutated st |}
                  else st in
        let h := Hash_pair h h in
        let count := u32 (count + Z.shiftl 1 (Z.of_nat level)) in
        let '(st, level, h, matchh) := mc_propagate 32 (S level) count st h matchh in
        mc_sweep fuel level count st h matchh
  end.

(** the root, the mutation flag and the path *)
Definition MerkleComputation (leaves : list uint256) (leaf_pos : Z) : uint256 * bool * list uint256 :=
  match leaves with
  | [] => (replicate 32 0, false, [])
  | _ =>
      let st := {| inner := replicate 32 (replicate 32 0); matchlevel := -1; path := []; mc_mutated := false |} in
      let st := mc_leaves leaf_pos 0 st leaves in
      let count := zlen leaves in
      let level := lowest_bit 32 0 count in
      let h := nth level (inner st) (replicate 32 0) in
      let '(st, h) := mc_sweep 32 level count st h (matchlevel st =? Z.of_nat level) in
      (h, mc_mutated st, path st)
  end.

Definition ComputeMerklePath (leaves : list uint256) (position : Z) : list uint256 := (MerkleComputation leaves position).2.
Definition TransactionMerklePath (block : CBlock) (position : Z) : list uint256 :=
  ComputeMerklePath (map ComputeHash (vtx block)) position.
End computation.

(** ** The reference tree

    A level is combined pairwise; an odd last node is combined with itself. *)

Section tree.
Variable H : uint256 -> uint256 -> uint256.

Fixpoint pair_up (l : list uint256) : list uint256 :=
  match l with
  | a :: b :: l => H a b :: pair_up l
  | [a] => [H a a]
  | [] => []
  end.
Fixpoint level (k : nat) (l : list uint256) : list uint256 :=
  match k with O => l | S k => level k (pair_up l) end.
Definition merkle_height (l : list uint256) : nat := Nat.log2_up (length l).
Definition merkle_root (l : list uint256) : uint256 :=
  match level (merkle_height l) l with [] => replicate 32 0 | h :: _ => h end.

(** the pairs combined at one level, and on all levels *)
Fixpoint pairs_of (l : list uint256) : list (uint256 * uint256) :=
  match l with
  | a :: b :: l => (a, b) :: pairs_of l
  | [a] => [(a, a)]
  | [] => []
  end.
Fixpoint merkle_pairs (k : nat) (l : list uint256) : list (uint256 * uint256) :=
  match k with O => [] | S k => pairs_of l ++ merkle_pairs k (pair_up l) end.
(** two equal neighbours are combined at some level *)
Fixpoint merkle_mutated (k : nat) (l : list uint256) : bool :=
  match k with O => false | S k => has_equal_pair l || merkle_mutated k (pair_up l) end.

(** Induction on a list by two elements. *)
Lemma pair_ind (P : list uint256 -> Prop) : P [] -> (forall a, P [a]) -> (forall a b l, P l -> P (a :: b :: l)) -> forall l, P l.
Proof.
  intros H0 H1 H2 l. enough (P l /\ forall a, P (a :: l)) by tauto.
  induction l as [|b l [IH1 IH2]]; [auto|]. split; [apply IH2|]. intros a. apply H2, IH1.
Qed.

Lemma pair_up_map l : pair_up l = map (fun p => H p.1 p.2) (pairs_of l).
Proof. induction l as [|a|a b l IH] using pair_ind; [done..|]. cbn [pair_up pairs_of map]. rewrite IH. done. Qed.

Lemma length_pairs_of l : length (pairs_of l) = Nat.div2 (S (length l)).
Proof. induction l as [|a|a b l IH] using pair_ind; [done..|]. cbn [pairs_of length Nat.div2]. rewrite IH. done. Qed.

Lemma length_pair_up l : length (pair_up l) = Nat.div2 (S (length l)).
Proof. rewrite pair_up_map, length_map. apply length_pairs_of. Qed.

Lemma merkle_height_step l : (1 < length l)%nat -> merkle_height l = S (merkle_height (pair_up l)).
Proof.
  intros Hl. unfold merkle_height. rewrite length_pair_up. set (n := length l) in *.
  pose proof (Nat.div2_div (S n)) as Hm. set (m := Nat.div2 (S n)) in *.
  pose proof (Nat.div_mod_eq (S n) 2). pose proof (Nat.mod_upper_bound (S n) 2 ltac:(lia)).
  destruct (Nat.eq_dec m 1%nat) as [->|Hm1]; [replace n with 2%nat by lia; done|].
  pose proof (Nat.log2_up_spec m ltac:(lia)) as [Hlo Hhi]. pose proof (Nat.log2_up_pos m ltac:(lia)).
  apply Nat.log2_up_unique; [lia|]. cbn [pred]. destruct (Nat.log2_up m) as [|b]; [lia|]. cbn [pred Nat.pow] in *. lia.
Qed.

Lemma level_length k l : (length l <= 2 ^ k)%nat -> l <> [] -> length (level k l) = 1%nat.
Proof.
  revert l. induction k as [|k IH]; intros l Hl Hn.
  { destruct l; [done|]. cbn in *. lia. }
  cbn [level]. apply IH.
  - rewrite length_pair_up, Nat.div2_div. apply Nat.lt_succ_r, Nat.Div0.div_lt_upper_bound. cbn [Nat.pow] in Hl. lia.
  - destruct l as [|a [|b l]]; done.
Qed.
End tree.

(** ** Refinement of [ComputeMerkleRoot] *)

Definition hash_ok : uint256 -> Prop := blob_ok 32.
(** the node function of the block tree *)
Definition sha256d_pair (a b : uint256) : uint256 := sha256d (a ++ b).

Lemma sha256d_pair_ok a b : hash_ok (sha256d_pair a b).
Proof. apply sha256_blob. Qed.

Lemma pair_up_ok l : Forall hash_ok (pair_up sha256d_pair l).
Proof. rewrite pair_up_map. apply Forall_map, Forall_true. intros. apply sha256d_pair_ok. Qed.

Lemma mem_of_cons a l : mem_of (a :: l) = a ++ mem_of l.
Proof. done. Qed.

Lemma length_mem_of l : Forall hash_ok l -> length (mem_of l) = (32 * length l)%nat.
Proof. induction 1 as [|a l [Ha _] _ IH]; [done|]. rewrite mem_of_cons, length_app, IH, Ha. cbn [length]. lia. Qed.

Lemma of_mem_app l rest : Forall hash_ok l -> of_mem (length l) (mem_of l ++ rest) = l.
Proof.
  unfold of_mem. induction 1 as [|a l [Ha _] _ IH]; [done|]. rewrite mem_of_cons, <- app_assoc.
  cbn [length seq map]. rewrite Nat.mul_0_r, drop_0, take_app_length' by done. f_equal.
  rewrite <- seq_shift, map_map. rewrite <- IH at 2. apply map_ext. intros j.
  replace (32 * S j)%nat with (length a + 32 * j)%nat by lia. rewrite drop_app_add. done.
Qed.

Lemma d64_pairs l : Forall hash_ok l -> Nat.Even (length l) ->
  map (fun j => sha256 (sha256 (d64_block (mem_of l) j))) (seq 0 (length l / 2)) = pair_up sha256d_pair l.
Proof.
  induction l as [|a|a b l IH] using pair_ind; intros Hl He; [done| |].
  { destruct He as [k Hk]. cbn in Hk. lia. }
  apply Forall_cons in Hl as [[Ha _] Hl]. apply Forall_cons in Hl as [[Hb _] Hl].
  cbn [length] in *. replace (S (S (length l)) / 2)%nat with (S (length l / 2)).
  2: { replace (S (S (length l)))%nat with (length l + 1 * 2)%nat by lia. rewrite Nat.div_add by lia. lia. }
  cbn [seq map pair_up]. f_equal.
  - unfold d64_block, sha256d_pair. rewrite Nat.mul_0_r, drop_0, !mem_of_cons, app_assoc, take_app_length'; [done|].
    rewrite length_app. lia.
  - rewrite <- IH; [|exact Hl|]. 2: { destruct He as [k Hk]. exists (k - 1)%nat. lia. }
    rewrite <- seq_shift, map_map. apply map_ext. intros j. unfold d64_block. do 3 f_equal.
    rewrite !mem_of_cons, app_assoc. replace (64 * S j)%nat with (length (a ++ b) + 64 * j)%nat by (rewrite length_app; lia).
    rewrite drop_app_add. done.
Qed.

Lemma pad_odd_ok l : Forall hash_ok l -> Forall hash_ok (pad_odd l).
Proof.
  intros Hl. unfold pad_odd. destruct (Nat.odd (length l)) eqn:E; [|exact Hl]. apply Forall_app. split; [exact Hl|].
  constructor; [|constructor]. destruct l as [|a l] using rev_ind; [done|]. rewrite List.last_last.
  apply Forall_app in Hl as [_ Hl]. inversion Hl. assumption.
Qed.

Lemma pad_odd_even l : Nat.Even (length (pad_odd l)).
Proof.
  unfold pad_odd. destruct (Nat.odd (length l)) eqn:E.
  - apply Nat.odd_spec in E as [k Hk]. exists (k + 1)%nat. rewrite length_app. cbn. lia.
  - apply Nat.even_spec. rewrite <- Nat.negb_odd, E. done.
Qed.

Lemma pair_up_pad_odd H l : pair_up H (pad_odd l) = pair_up H l.
Proof.
  unfold pad_odd. destruct (Nat.odd (length l)) eqn:E; [|done]. revert E.
  induction l as [|a|a b l IH] using pair_ind; intros E; [done..|]. cbn [length] in E.
  assert (El : Nat.odd (length l) = true) by exact E. specialize (IH El).
  destruct l as [|c l]; [done|].
  change (List.last (a :: b :: c :: l) (replicate 32 0)) with (List.last (c :: l) (replicate 32 0)).
  cbn [pair_up app] in *. rewrite IH. done.
Qed.

Lemma merkle_step_spec l : Forall hash_ok l -> merkle_step l = pair_up sha256d_pair l.
Proof.
  intros Hl. unfold merkle_step. pose proof (pad_odd_ok l Hl) as Hp. pose proof (pad_odd_even l) as He.
  rewrite <- (pair_up_pad_odd _ l). set (p := pad_odd l) in *. clearbody p. clear Hl.
  set (n := (length p / 2)%nat). assert (Hn : (length p = 2 * n)%nat).
  { destruct He as [k Hk]. unfold n. rewrite Hk, Nat.mul_comm, Nat.div_mul by lia. lia. }
  rewrite SHA256D64_inplace_spec by (rewrite length_mem_of by exact Hp; lia).
  rewrite Nat.mul_0_r, take_0. cbn [app Nat.add].
  assert (map (fun j => TransformD64 (d64_block (mem_of p) j)) (seq 0 n) = pair_up sha256d_pair p) as ->.
  { rewrite <- d64_pairs by assumption. apply map_ext_in. intros j Hj. apply in_seq in Hj. apply TransformD64_double.
    unfold d64_block. rewrite length_take, length_drop, length_mem_of by exact Hp. lia. }
  fold (mem_of (pair_up sha256d_pair p)).
  assert (Hlen : length (pair_up sha256d_pair p) = n).
  { rewrite length_pair_up, Hn. rewrite Nat.div2_succ_double. done. }
  rewrite <- Hlen at 1. apply of_mem_app, pair_up_ok.
Qed.

Lemma merkle_loop_spec fuel : forall l mut, Forall hash_ok l -> (merkle_height l <= fuel)%nat ->
  merkle_loop fuel l mut =
  (level sha256d_pair (merkle_height l) l, mut || merkle_mutated sha256d_pair (merkle_height l) l).
Proof.
  induction fuel as [|fuel IH]; intros l mut Hl Hf; cbn [merkle_loop].
  { replace (merkle_height l) with 0%nat by lia. cbn. rewrite orb_false_r. done. }
  destruct (Nat.ltb_spec 1 (length l)) as [H1|H1].
  - rewrite merkle_step_spec by exact Hl. rewrite (merkle_height_step sha256d_pair l H1) in *.
    rewrite IH by (apply pair_up_ok || lia). cbn [level merkle_mutated]. rewrite orb_assoc. done.
  - unfold merkle_height. rewrite Nat.log2_up_eqn0 by exact H1. cbn. rewrite orb_false_r. done.
Qed.

Lemma ComputeMerkleRoot_spec l : Forall hash_ok l ->
  ComputeMerkleRoot l = (merkle_root sha256d_pair l, merkle_mutated sha256d_pair (merkle_height l) l).
Proof.
  intros Hl. unfold ComputeMerkleRoot. rewrite merkle_loop_spec; [done|exact Hl|].
  unfold merkle_height. apply Nat.log2_up_le_lin. lia.
Qed.

Lemma ComputeMerkleRoot_ok l : Forall hash_ok l -> hash_ok (ComputeMerkleRoot l).1.
Proof.
  intros Hl. rewrite ComputeMerkleRoot_spec by exact Hl. cbn [fst]. unfold merkle_root. generalize (merkle_height l). intros k.
  assert (Hlev : Forall hash_ok (level sha256d_pair k l)).
  { revert l Hl. induction k as [|k IH]; intros l Hl; [exact Hl|]. cbn [level]. apply IH, pair_up_ok. }
  destruct (level sha256d_pair k l) as [|h hs]; [|inversion Hlev; done].
  split; [done|]. apply Forall_replicate. vm_compute. intuition congruence.
Qed.

(** ** Binding *)

(** Two different pairs with the same node. *)
Definition node_collision (H : uint256 -> uint256 -> uint256) (ps qs : list (uint256 * uint256)) : Prop :=
  exists p q, In p ps /\ In q qs /\ p <> q /\ H p.1 p.2 = H q.1 q.2.

Lemma node_collision_app H ps ps' qs qs' :
  node_collision H ps qs \/ node_collision H ps' qs' -> node_collision H (ps ++ ps') (qs ++ qs').
Proof.
  intros [(p & q & Hp & Hq & Hr)|(p & q & Hp & Hq & Hr)]; exists p, q; rewrite !in_app_iff; tauto.
Qed.

Lemma pairs_binding H ps qs : map (fun p => H p.1 p.2) ps = map (fun p => H p.1 p.2) qs ->
  ps = qs \/ node_collision H ps qs.
Proof.
  revert qs. induction ps as [|p ps IH]; intros [|q qs] E; try done; [left; done|].
  cbn [map] in E. injection E as E1 E2. destruct (IH qs E2) as [->|(p' & q' & ? & ? & ?)].
  - destruct (decide (p = q)) as [->|]; [left; done|]. right. exists p, q. cbn. tauto.
  - right. exists p', q'. cbn. tauto.
Qed.

(** Lists without an equal pair are determined by their pairs. *)
Lemma pairs_of_inj a b : has_equal_pair a = false -> has_equal_pair b = false -> pairs_of a = pairs_of b -> a = b.
Proof.
  revert b. induction a as [|x|x y a IH] using pair_ind; intros [|x' [|y' b]] Ha Hb E; try done; cbn in *.
  - injection E as ->. done.
  - injection E as <- <- _. unfold blob_eqb in Hb. rewrite blob_Compare_refl in Hb. done.
  - injection E as -> -> _. unfold blob_eqb in Ha. rewrite blob_Compare_refl in Ha. done.
  - injection E as -> -> E. apply orb_false_iff in Ha as [_ Ha]. apply orb_false_iff in Hb as [_ Hb].
    rewrite (IH b Ha Hb E). done.
Qed.

Lemma level_binding H k : forall a b, level H k a = level H k b ->
  merkle_mutated H k a = false -> merkle_mutated H k b = false ->
  a = b \/ node_collision H (merkle_pairs H k a) (merkle_pairs H k b).
Proof.
  induction k as [|k IH]; intros a b E Ha Hb; [left; exact E|]. cbn [level merkle_mutated merkle_pairs] in *.
  apply orb_false_iff in Ha as [Ha1 Ha2]. apply orb_false_iff in Hb as [Hb1 Hb2].
  destruct (IH _ _ E Ha2 Hb2) as [Ep|Hc]; [|right; apply node_collision_app; right; exact Hc].
  rewrite !pair_up_map in Ep. destruct (pairs_binding H _ _ Ep) as [Eq|Hc].
  - left. apply pairs_of_inj; assumption.
  - right. apply node_collision_app. left. exact Hc.
Qed.

Lemma level_root H l : l <> [] -> level H (merkle_height l) l = [merkle_root H l].
Proof.
  intros Hl. unfold merkle_root. pose proof (level_length H (merkle_height l) l) as Hlen.
  destruct (level H (merkle_height l) l) as [|h [|h' t]]; [..|].
  - discriminate Hlen; [|exact Hl]. apply Nat.log2_log2_up_spec. destruct l; [done|]. cbn. lia.
  - done.
  - discriminate Hlen; [|exact Hl]. apply Nat.log2_log2_up_spec. destruct l; [done|]. cbn. lia.
Qed.

(** the nodes of a level are leaves of what is above it *)
Lemma level_add H d k l : level H (d + k) l = level H k (level H d l).
Proof. revert l. induction d as [|d IH]; intros l; [done|]. apply IH. Qed.
Lemma mutated_above H d k l : merkle_mutated H (d + k) l = false -> merkle_mutated H k (level H d l) = false.
Proof. revert l. induction d as [|d IH]; intros l Hm; [done|]. cbn in Hm. apply orb_false_iff in Hm as [_ Hm]. apply IH. exact Hm. Qed.
Lemma pairs_above H d k l p : In p (merkle_pairs H k (level H d l)) -> In p (merkle_pairs H (d + k) l).
Proof. revert l. induction d as [|d IH]; intros l Hp; [done|]. cbn. apply in_or_app. right. apply IH. exact Hp. Qed.

(** C18: Block roots: [ComputeMerkleRoot], which overwrites its own vector level by level, returns the root of the reference tree with double SHA-256
    nodes; and roots bind: if two non-empty lists of hashes, neither reported as mutated, have the same root, then the list of the lower tree is the level
    of the higher one at its height, so that lists of the same height are equal, or two of the pairs they hash collide.  In particular no list obtained
    by duplicating the end of another escapes the report.  (A list and the inner nodes above it do have the same root: nothing in the tree tells
    a leaf from a node.) *)
Theorem merkle_root_binding (a b : list uint256) : Forall hash_ok a -> Forall hash_ok b ->
  (ComputeMerkleRoot a).1 = merkle_root sha256d_pair a /\
  (a <> [] -> b <> [] -> (ComputeMerkleRoot a).2 = false -> (ComputeMerkleRoot b).2 = false ->
   (ComputeMerkleRoot a).1 = (ComputeMerkleRoot b).1 -> (merkle_height a <= merkle_height b)%nat ->
   a = level sha256d_pair (merkle_height b - merkle_height a) b \/
   node_collision sha256d_pair (merkle_pairs sha256d_pair (merkle_height a) a) (merkle_pairs sha256d_pair (merkle_height b) b)).
Proof.
  intros Ha Hb. rewrite (ComputeMerkleRoot_spec a Ha), (ComputeMerkleRoot_spec b Hb). cbn [fst snd]. split; [done|].
  intros Ha0 Hb0 Hma Hmb E Hle. pose proof (level_root sha256d_pair b Hb0) as Hrb. set (d := (merkle_height b - merkle_height a)%nat).
  assert (Hd : merkle_height b = (d + merkle_height a)%nat) by (unfold d; lia). rewrite Hd in Hmb, Hrb |- *. rewrite level_add in Hrb.
  destruct (level_binding sha256d_pair (merkle_height a) a (level sha256d_pair d b)) as [E'|(p & q & Hp & Hq & Hpq)].
  - rewrite Hrb, level_root by exact Ha0. f_equal. exact E.
  - exact Hma.
  - apply mutated_above. exact Hmb.
  - left. exact E'.
  - right. exists p, q. split; [exact Hp|]. split; [apply pairs_above; exact Hq|exact Hpq].
Qed.

(** Three different hashes, and the list of CVE-2012-2459 that repeats the last one. *)
Definition sample_hashes : list uint256 := [replicate 32 1; replicate 32 2; replicate 32 3].

Lemma merkle_root_binding_witness :
  let l := sample_hashes in
  let u := pair_up sha256d_pair sample_hashes in
  (ComputeMerkleRoot u).1 = (ComputeMerkleRoot l).1 /\ (ComputeMerkleRoot (l ++ [replicate 32 3])).2 = true /\
  (u = level sha256d_pair (merkle_height l - merkle_height u) l \/
   node_collision sha256d_pair (merkle_pairs sha256d_pair (merkle_height u) u) (merkle_pairs sha256d_pair (merkle_height l) l)).
Proof.
  assert (Hok : Forall hash_ok sample_hashes).
  { repeat constructor; vm_compute; congruence. }
  intros l u. assert (Er : (ComputeMerkleRoot u).1 = (ComputeMerkleRoot l).1) by (vm_compute; reflexivity).
  split; [exact Er|]. split; [vm_compute; reflexivity|].
  apply (merkle_root_binding u l (pair_up_ok sample_hashes) Hok); [discriminate|discriminate|vm_compute; reflexivity|vm_compute; reflexivity|exact Er|].
  vm_compute. lia.
Defined.
