(* ===== verification/MerklePath.v ===== *)
(** * Merkle paths

    Correctness of [MerkleComputation]: its root is the root of the reference tree, and
    its path leads from the leaf to that root.  Nodes are addressed by height and
    position, as [CPartialMerkleTree::CalcHash] does. *)

From Stdlib Require Import ZArith Lia Bool.
From stdpp Require Import base option list.
From S2P Require Import Prelude Uint256 Sha256 Sha256Proofs Hashes Serialize Primitives Merkle.
Local Open Scope Z_scope.
Local Open Scope adonai_scope.

Notation null256 := (replicate 32 0).

(** ** Nodes by height and position *)

(** the number of nodes at a height *)
Fixpoint width (n h : nat) : nat :=
  match h with O => n | S h => Nat.div2 (S (width n h)) end.

Section nodes.
Variable H : uint256 -> uint256 -> uint256.
Variable l : list uint256.
Notation n := (length l).

Fixpoint node (h pos : nat) : uint256 :=
  match h with
  | O => nth pos l null256
  | S h =>
      let left := node h (2 * pos) in
      let right := if (2 * pos + 1 <? width n h)%nat then node h (2 * pos + 1) else left in
      H left right
  end.

Lemma nth_pair_up k : forall pos, (pos < length (pair_up H k))%nat ->
  nth pos (pair_up H k) null256 =
  H (nth (2 * pos) k null256) (if (2 * pos + 1 <? length k)%nat then nth (2 * pos + 1) k null256 else nth (2 * pos) k null256).
Proof.
  induction k as [|a|a b k IH] using pair_ind; intros pos Hpos; cbn [pair_up length] in *; [lia| |].
  - replace pos with 0%nat by lia. done.
  - destruct pos as [|pos]; [done|]. cbn [nth]. rewrite IH by lia.
    replace (2 * S pos)%nat with (S (S (2 * pos))) by lia. cbn [nth Nat.add].
    destruct (Nat.ltb_spec (2 * pos + 1) (length k)), (Nat.ltb_spec (S (S (2 * pos + 1))) (S (S (length k)))); try lia; done.
Qed.

Lemma level_S k m : level H (S k) m = pair_up H (level H k m).
Proof. revert m. induction k as [|k IH]; intros m; [done|]. cbn [level] in *. rewrite <- IH. done. Qed.

Lemma level_width h : length (level H h l) = width n h.
Proof. induction h as [|h IH]; [done|]. rewrite level_S, length_pair_up, IH. done. Qed.

Lemma level_node h pos : (pos < width n h)%nat -> nth pos (level H h l) null256 = node h pos.
Proof.
  revert pos. induction h as [|h IH]; intros pos Hpos; [done|].
  rewrite level_S, nth_pair_up by (rewrite <- level_S, level_width; exact Hpos). cbn [node width] in *.
  rewrite level_width. pose proof (Nat.div2_div (S (width n h))). pose proof (Nat.div_mod_eq (S (width n h)) 2).
  pose proof (Nat.mod_upper_bound (S (width n h)) 2 ltac:(lia)).
  rewrite IH by lia. destruct (Nat.ltb_spec (2 * pos + 1) (width n h)); [|done]. rewrite IH by lia. done.
Qed.

Lemma root_node : l <> [] -> merkle_root H l = node (merkle_height l) 0.
Proof.
  intros Hl. pose proof (level_root H l Hl) as E. rewrite <- level_node; [rewrite E; done|].
  rewrite <- level_width, E. cbn. lia.
Qed.

(** ** Widths *)

Lemma width_ceil m h : (width m h * 2 ^ h < m + 2 ^ h)%nat /\ (m <= width m h * 2 ^ h)%nat.
Proof.
  induction h as [|h [IH1 IH2]]; cbn [width Nat.pow]; [lia|].
  pose proof (Nat.div2_div (S (width m h))). pose proof (Nat.div_mod_eq (S (width m h)) 2).
  pose proof (Nat.mod_upper_bound (S (width m h)) 2 ltac:(lia)). nia.
Qed.

Lemma width_unique m h w : (w * 2 ^ h < m + 2 ^ h)%nat -> (m <= w * 2 ^ h)%nat -> width m h = w.
Proof.
  intros H1 H2. pose proof (width_ceil m h) as [H3 H4]. pose proof (Nat.pow_nonzero 2 h ltac:(lia)). nia.
Qed.

Lemma width_height h : (0 < n)%nat -> ((1 < width n h)%nat <-> (h < merkle_height l)%nat).
Proof.
  intros Hn. pose proof (width_ceil n h) as [H1 H2]. unfold merkle_height. rewrite <- Nat.log2_up_lt_pow2 by exact Hn.
  split; intros Hw; nia.
Qed.
End nodes.

(** ** Bits of the leaf counter *)

Lemma div_pow2_S c k : (c / 2 ^ S k = c / 2 ^ k / 2)%nat.
Proof. rewrite Nat.Div0.div_div. cbn [Nat.pow]. f_equal. lia. Qed.

Lemma bit_clear_spec c k : bit_clear (Z.of_nat c) k = Nat.even (c / 2 ^ k).
Proof.
  unfold bit_clear. rewrite land_bit, <- Nat.negb_odd by lia. f_equal.
  rewrite Z.testbit_odd, Z.shiftr_div_pow2 by lia.
  replace (2 ^ Z.of_nat k) with (Z.of_nat (2 ^ k)) by (rewrite Nat2Z.inj_pow; done). rewrite <- Nat2Z.inj_div.
  rewrite <- Z.negb_even, <- Nat.negb_even. f_equal. apply eq_true_iff_eq. rewrite Z.even_spec, Nat.even_spec.
  split; intros [x Hx]; [exists (Z.to_nat x)|exists (Z.of_nat x)]; lia.
Qed.

Lemma even_half q : Nat.even q = true -> (q = 2 * (q / 2))%nat.
Proof. intros He. apply Nat.even_spec in He as [k ->]. rewrite Nat.mul_comm, Nat.div_mul by lia. lia. Qed.

Lemma odd_half q : Nat.even q = false -> (q = 2 * (q / 2) + 1)%nat.
Proof.
  intros He. assert (Ho : Nat.odd q = true) by (rewrite <- Nat.negb_even, He; done).
  apply Nat.odd_spec in Ho as [k ->]. rewrite (Nat.mul_comm 2 k), Nat.div_add_l by lia. rewrite Nat.div_small by lia. lia.
Qed.

(** ** The loops *)

Lemma MerkleComputation_eq `{Cpu} leaves leaf_pos : leaves <> [] ->
  MerkleComputation leaves leaf_pos =
  let st := {| inner := replicate 32 null256; matchlevel := -1; path := []; mc_mutated := false |} in
  let st := mc_leaves leaf_pos 0 st leaves in
  let level := lowest_bit 32 0 (zlen leaves) in
  let h := nth level (inner st) null256 in
  let '(st, h) := mc_sweep 32 level (zlen leaves) st h (matchlevel st =? Z.of_nat level) in
  (h, mc_mutated st, path st).
Proof. intros Hl. unfold MerkleComputation. destruct leaves as [|h leaves]; [congruence|]. cbv zeta. exact eq_refl. Qed.

Section computation.
Context `{Cpu}.
Variable l : list uint256.
Variable p : nat.
Notation n := (length l).
Notation nd := (node Hash_pair l).
Hypothesis Hn : (n <= 2 ^ 31)%nat.
Hypothesis Hp : (p < n)%nat.

(** the sibling of node [i] of height [k]: itself when it is a last one without a right neighbour *)
Definition sibling (k i : nat) : uint256 :=
  if Nat.even i then nd k (if (i + 1 <? width n k)%nat then i + 1 else i) else nd k (i - 1).
Definition siblings (k : nat) : list uint256 := map (fun j => sibling j (p / 2 ^ j)) (seq 0 k).

Lemma siblings_S k : siblings (S k) = siblings k ++ [sibling k (p / 2 ^ k)].
Proof. unfold siblings. rewrite seq_S, map_app. done. Qed.

(** [inner] after [c] leaves: a node for every bit of [c] *)
Definition inner_ok (c : nat) (a : list uint256) : Prop :=
  length a = 32%nat /\ forall k, (k < 32)%nat -> Nat.even (c / 2 ^ k) = false -> nth k a null256 = nd k (c / 2 ^ k - 1).

(** the leaf is below the node stored at [matchlevel], and the path reaches that node *)
Definition match_at (c m : nat) (st : McState) : Prop :=
  matchlevel st = Z.of_nat m /\ (m < 32)%nat /\ Nat.even (c / 2 ^ m) = false /\ (p / 2 ^ m = c / 2 ^ m - 1)%nat /\
  path st = siblings m.
Definition match_ok (c : nat) (st : McState) : Prop :=
  if (p <? c)%nat then exists m, match_at c m st else matchlevel st = -1 /\ path st = [].

(** the node [h] of height [k] that is the last of [c] leaves, during a carry from [c0] leaves *)
Definition carry_match (c0 c k : nat) (st : McState) (matchh : bool) : Prop :=
  if matchh then (p / 2 ^ k = c / 2 ^ k - 1)%nat /\ path st = siblings k
  else (exists m, (k <= m)%nat /\ match_at c0 m st) \/ (matchlevel st = -1 /\ path st = [] /\ (c <= p)%nat).

Lemma combine_node k q : Nat.even q = true -> (2 <= q)%nat -> (q <= width n k)%nat ->
  Hash_pair (nd k (q - 2)) (nd k (q - 1)) = nd (S k) (q / 2 - 1).
Proof.
  intros He H2 Hw. apply even_half in He. cbn [node].
  replace (2 * (q / 2 - 1))%nat with (q - 2)%nat by lia. replace (q - 2 + 1)%nat with (q - 1)%nat by lia.
  destruct (Nat.ltb_spec (q - 1) (width n k)); [done|lia].
Qed.

Lemma path_step_ok c0 c k q st h matchh : (c / 2 ^ k = q)%nat -> (c0 / 2 ^ k = q - 1)%nat -> Nat.even q = true ->
  (2 <= q)%nat -> (q <= width n k)%nat -> nth k (inner st) null256 = nd k (q - 2) -> h = nd k (q - 1) ->
  carry_match c0 c k st matchh ->
  let '(st', matchh') := path_step st k h matchh in
  inner st' = inner st /\ carry_match c0 c (S k) st' matchh'.
Proof.
  intros Hq Hq0 He H2 Hw Hin Hh Hm. pose proof (even_half q He) as Hhalf. unfold path_step, carry_match in *.
  destruct matchh.
  - destruct Hm as [Hpk Hpath]. split; [done|]. cbn [path]. rewrite div_pow2_S, Hpk, div_pow2_S, Hq. split.
    + symmetry. apply (Nat.div_unique _ _ _ 1); lia.
    + rewrite siblings_S, Hpath, Hin. do 2 f_equal. unfold sibling. rewrite Hpk, Hq.
      replace (Nat.even (q - 1)) with false; [f_equal; lia|].
      rewrite Hhalf, <- Nat.negb_odd. replace (2 * (q / 2) - 1)%nat with (1 + 2 * (q / 2 - 1))%nat by lia.
      rewrite Nat.odd_add_mul_2. done.
  - destruct Hm as [(m & Hkm & Hm)|(Hm & Hpath & Hc)].
    + destruct Hm as (Hml & Hm32 & Hodd & Hpm & Hpath). rewrite Hml.
      destruct (Z.eqb_spec (Z.of_nat m) (Z.of_nat k)) as [Hmk|Hmk].
      * apply Nat2Z.inj in Hmk. subst m. split; [done|]. cbn [path]. rewrite div_pow2_S, Hpm, div_pow2_S, Hq, Hq0. split.
        -- replace (q - 1 - 1)%nat with (2 * (q / 2 - 1))%nat by lia. rewrite Nat.mul_comm, Nat.div_mul; lia.
        -- rewrite siblings_S, Hpath, Hh. do 2 f_equal. unfold sibling. rewrite Hpm, Hq0.
           replace (q - 1 - 1)%nat with (2 * (q / 2 - 1))%nat by lia. rewrite Nat.even_mul. cbn [Nat.even orb].
           destruct (Nat.ltb_spec (2 * (q / 2 - 1) + 1) (width n k)); [|lia]. f_equal. lia.
      * split; [done|]. left. exists m. split; [lia|]. done.
    + destruct (Z.eqb_spec (matchlevel st) (Z.of_nat k)); [lia|]. split; [done|]. right. done.
Qed.

Lemma width_lower k q c : (c <= n)%nat -> (q * 2 ^ k <= c)%nat -> (q <= width n k)%nat.
Proof. intros Hc Hq. pose proof (width_ceil n k) as [_ H2]. pose proof (Nat.pow_nonzero 2 k ltac:(lia)). nia. Qed.

Lemma div_exact_pow2 c k q : (c = q * 2 ^ k)%nat -> (c / 2 ^ k = q)%nat.
Proof. intros ->. apply Nat.div_mul. apply Nat.pow_nonzero. lia. Qed.

Lemma div_pred_pow2 c k q : (c = q * 2 ^ k)%nat -> (1 <= q)%nat -> ((c - 1) / 2 ^ k = q - 1)%nat.
Proof.
  intros -> Hq. pose proof (Nat.pow_nonzero 2 k ltac:(lia)).
  symmetry. apply (Nat.div_unique _ _ _ (2 ^ k - 1)); [lia|]. nia.
Qed.

Lemma mc_carry_ok c : (1 <= c <= n)%nat -> forall fuel k q st h matchh, (k + fuel = 32)%nat -> (c = q * 2 ^ k)%nat ->
  inner_ok (c - 1) (inner st) -> h = nd k (q - 1) -> carry_match (c - 1) c k st matchh ->
  exists st' k' h' m', mc_carry fuel k (Z.of_nat c) st h matchh = (st', k', h', m') /\ (k' < 32)%nat /\
    inner st' = inner st /\ (c = (c / 2 ^ k') * 2 ^ k')%nat /\ Nat.even (c / 2 ^ k') = false /\
    h' = nd k' (c / 2 ^ k' - 1) /\ carry_match (c - 1) c k' st' m'.
Proof.
  intros Hc. induction fuel as [|fuel IH]; intros k q st h matchh Hk Hq Hin Hh Hm.
  { assert (2 ^ 31 < 2 ^ k)%nat by (apply Nat.pow_lt_mono_r; lia). assert (1 <= q)%nat by (destruct q; lia). nia. }
  cbn [mc_carry]. rewrite bit_clear_spec. pose proof (div_exact_pow2 c k q Hq) as Hdiv. rewrite Hdiv.
  assert (Hq1 : (1 <= q)%nat) by (destruct q; lia).
  destruct (Nat.even q) eqn:He.
  - pose proof (even_half q He). pose proof (div_pred_pow2 c k q Hq Hq1) as Hpred.
    assert (Hik : nth k (inner st) null256 = nd k (q - 2)).
    { destruct Hin as [_ Hin]. rewrite Hin; [rewrite Hpred; f_equal; lia|lia|]. rewrite Hpred.
      replace (q - 1)%nat with (1 + 2 * (q / 2 - 1))%nat by lia. rewrite <- Nat.negb_odd, Nat.odd_add_mul_2. done. }
    assert (Hw : (q <= width n k)%nat) by (apply (width_lower k q c); lia).
    pose proof (path_step_ok (c - 1) c k q st h matchh Hdiv Hpred He ltac:(lia) Hw Hik Hh Hm) as Hstep.
    destruct (path_step st k h matchh) as [st1 m1]. destruct Hstep as [Hi1 Hm1].
    edestruct (IH (S k) (q / 2)%nat (set_mutated st1 (blob_eqb (nth k (inner st1) null256) h)))
      as (st' & k' & h' & m' & E & Hk' & Hi' & Hrest); [..|exists st', k', h', m'; split; [exact E|]].
    + lia.
    + cbn [Nat.pow]. nia.
    + cbn [set_mutated inner]. rewrite Hi1. exact Hin.
    + cbn [set_mutated inner]. rewrite Hi1, Hik, Hh, combine_node by (assumption || lia). done.
    + exact Hm1.
    + cbn [set_mutated inner] in Hi'. split; [exact Hk'|]. split; [congruence|]. exact Hrest.
  - exists st, k, h, matchh. rewrite Hdiv. split_and!; try done. lia.
Qed.

(** Above the level where the carry stops the counter keeps its bits. *)
Lemma div_carry_above c k j : (c = (c / 2 ^ k) * 2 ^ k)%nat -> Nat.even (c / 2 ^ k) = false -> (k < j)%nat ->
  ((c - 1) / 2 ^ j = c / 2 ^ j)%nat.
Proof.
  intros Hc Ho Hj. pose proof (odd_half _ Ho) as Hh. set (q := (c / 2 ^ k)%nat) in *.
  assert (Hpred : ((c - 1) / 2 ^ k = q - 1)%nat) by (apply div_pred_pow2; [exact Hc|lia]).
  replace j with (S k + (j - S k))%nat by lia. rewrite !Nat.pow_add_r, <- !Nat.Div0.div_div, !div_pow2_S, Hpred.
  fold q. f_equal. replace (q - 1)%nat with ((q / 2) * 2)%nat by lia. rewrite Nat.div_mul; lia.
Qed.

Lemma mc_leaf_ok c st h : (c < n)%nat -> h = nth c l null256 -> inner_ok c (inner st) -> match_ok c st ->
  let st' := mc_leaf (Z.of_nat p) (Z.of_nat c) st h in inner_ok (S c) (inner st') /\ match_ok (S c) st'.
Proof.
  intros Hc Hh Hin Hm. unfold mc_leaf.
  assert (Hu : u32 (Z.of_nat c + 1) = Z.of_nat (S c)).
  { rewrite wrap_small; [lia|]. unfold fits. assert (Z.of_nat n <= 2 ^ 31); [|lia].
    apply Nat2Z.inj_le in Hn. rewrite Nat2Z.inj_pow in Hn. exact Hn. }
  rewrite Hu. replace (inner_ok c) with (inner_ok (S c - 1)) in Hin by (f_equal; lia).
  destruct (mc_carry_ok (S c) ltac:(lia) 32 0 (S c) st h (Z.of_nat c =? Z.of_nat p))
    as (st' & k & h' & m' & E & Hk & Hi & Hck & Ho & Hh' & Hcm); [lia|cbn; lia|exact Hin|subst h; cbn; f_equal; lia| |].
  - unfold carry_match. unfold match_ok in Hm. change (2 ^ 0)%nat with 1%nat. rewrite !Nat.div_1_r.
    replace (S c - 1)%nat with c by lia.
    destruct (Z.eqb_spec (Z.of_nat c) (Z.of_nat p)) as [E|E].
    + apply Nat2Z.inj in E. destruct (Nat.ltb_spec p c); [lia|]. destruct Hm as [_ ->]. split; [lia|done].
    + destruct (Nat.ltb_spec p c); [left|right; split; [|split]; [apply Hm..|lia]].
      destruct Hm as [m Hm]. exists m. split; [lia|exact Hm].
  - rewrite E. cbn [inner]. rewrite Hi. split.
    + destruct Hin as [Hlen Hin]. split; [rewrite length_insert; exact Hlen|]. intros j Hj Hodd.
      destruct (Nat.eq_dec j k) as [->|Hjk].
      * rewrite nth_insert_eq by lia. exact Hh'.
      * rewrite nth_insert_ne by lia.
        destruct (Nat.lt_ge_cases j k) as [Hlt|Hge].
        { exfalso. rewrite Hck in Hodd. replace k with (S j + (k - S j))%nat in Hodd at 2 by lia.
          rewrite Nat.pow_add_r, Nat.mul_comm in Hodd. cbn [Nat.pow] in Hodd.
          replace (2 * 2 ^ j * 2 ^ (k - S j) * (S c / 2 ^ k))%nat
            with (2 * (2 ^ (k - S j) * (S c / 2 ^ k)) * 2 ^ j)%nat in Hodd by lia.
          rewrite Nat.div_mul in Hodd by (apply Nat.pow_nonzero; lia). rewrite Nat.even_mul in Hodd. done. }
        rewrite <- (div_carry_above (S c) k j Hck Ho) in * by lia. apply Hin; assumption.
    + unfold match_ok, carry_match in *. destruct m'.
      * destruct Hcm as [Hpk Hpath]. destruct (Nat.ltb_spec p (S c)) as [|Hge].
        -- exists k. split_and!; done.
        -- exfalso. pose proof (Nat.Div0.div_le_mono (S c) p (2 ^ k) Hge). pose proof (odd_half _ Ho). lia.
      * destruct Hcm as [(m & Hkm & Hml & Hm32 & Hodd & Hpm & Hpath)|(Hml & Hpath & Hcp)].
        -- assert (Hne : m <> k).
           { intros ->. rewrite (div_pred_pow2 (S c) k _ Hck) in Hodd by (pose proof (odd_half _ Ho); lia).
             rewrite (odd_half _ Ho), Nat.add_sub, Nat.even_mul in Hodd. done. }
           rewrite (div_carry_above (S c) k m Hck Ho) in * by lia.
           destruct (Nat.ltb_spec p (S c)) as [|Hge]; [exists m; split_and!; done|].
           exfalso. pose proof (Nat.Div0.div_le_mono (S c) p (2 ^ m) Hge). pose proof (odd_half _ Hodd). lia.
        -- destruct (Nat.ltb_spec p (S c)); [lia|]. done.
Qed.

Lemma mc_leaves_ok rest : forall c st, l = take c l ++ rest -> (c + length rest = n)%nat ->
  inner_ok c (inner st) -> match_ok c st ->
  let st' := mc_leaves (Z.of_nat p) (Z.of_nat c) st rest in inner_ok n (inner st') /\ match_ok n st'.
Proof.
  induction rest as [|h rest IH]; intros c st Hl Hc Hin Hm; cbn [mc_leaves length] in *.
  { replace n with c by lia. done. }
  assert (Hu : u32 (Z.of_nat c + 1) = Z.of_nat (S c)).
  { rewrite wrap_small; [lia|]. unfold fits. assert (Z.of_nat n <= 2 ^ 31); [|lia].
    apply Nat2Z.inj_le in Hn. rewrite Nat2Z.inj_pow in Hn. exact Hn. }
  assert (Hh : h = nth c l null256).
  { rewrite Hl, app_nth2; rewrite length_take_le by lia; [|lia]. rewrite Nat.sub_diag. done. }
  rewrite Hu. destruct (mc_leaf_ok c st h ltac:(lia) Hh Hin Hm) as [Hin' Hm']. apply IH; [|lia|exact Hin'|exact Hm'].
  rewrite (take_S_r l c h); [rewrite <- app_assoc; exact Hl|].
  rewrite Hl, lookup_app_r; rewrite length_take_le by lia; [|lia]. rewrite Nat.sub_diag. done.
Qed.

(** *** The sweep over the rightmost branch *)

Notation height := (merkle_height l).

Lemma height_le : (height <= 31)%nat.
Proof.
  clear Hp. unfold merkle_height. etransitivity; [apply Nat.log2_up_le_mono, Hn|]. rewrite Nat.log2_up_pow2; lia.
Qed.

Lemma width_S k : width n (S k) = ((width n k + 1) / 2)%nat.
Proof. clear Hn Hp. cbn [width]. rewrite Nat.div2_div. f_equal. lia. Qed.

(** [h] is the last node of height [k], the counter stands at the end of that node, past the leaves *)
Definition sweep_ok (k : nat) (count : Z) (st : McState) (h : uint256) (matchh : bool) : Prop :=
  let W := width n k in
  (k <= height)%nat /\ count = Z.of_nat (W * 2 ^ k) /\ inner_ok n (inner st) /\ h = nd k (W - 1) /\
  carry_match n (W * 2 ^ k) k st matchh.

Lemma mc_propagate_ok : forall fuel k count st h matchh, (k + fuel >= 32)%nat -> (n / 2 ^ k = width n k - 1)%nat ->
  sweep_ok k count st h matchh ->
  exists st' k' h' m', mc_propagate fuel k count st h matchh = (st', k', h', m') /\ (k <= k')%nat /\
    Nat.even (width n k') = false /\ (n / 2 ^ k' = width n k' - 1)%nat /\ sweep_ok k' count st' h' m'.
Proof.
  pose proof height_le as Hh31.
  induction fuel as [|fuel IH]; intros k count st h matchh Hf Hdiv (Hk & Hc & Hin & Hh & Hm); [lia|].
  cbn [mc_propagate]. rewrite Hc, bit_clear_spec, Nat.div_mul by (apply Nat.pow_nonzero; lia).
  destruct (Nat.even (width n k)) eqn:He; [|exists st, k, h, matchh; split_and!; try done; lia].
  set (W := width n k) in *. pose proof (even_half W He) as Hhalf.
  assert (HW : (2 <= W)%nat). { pose proof (width_ceil n k) as [_ Hw]. fold W in Hw. destruct W as [|[|]]; [lia|done|lia]. }
  assert (Hlt : (k < height)%nat) by (apply (width_height l k); [lia|fold W; lia]).
  assert (Hik : nth k (inner st) null256 = nd k (W - 2)).
  { destruct Hin as [_ Hin]. rewrite Hin; [rewrite Hdiv; f_equal; lia|lia|]. rewrite Hdiv.
    replace (W - 1)%nat with (1 + 2 * (W / 2 - 1))%nat by lia. rewrite <- Nat.negb_odd, Nat.odd_add_mul_2. done. }
  assert (Hq : (W * 2 ^ k / 2 ^ k = W)%nat) by (apply Nat.div_mul, Nat.pow_nonzero; lia).
  pose proof (path_step_ok n (W * 2 ^ k) k W st h matchh Hq Hdiv He HW (le_n _) Hik Hh Hm) as Hstep.
  destruct (path_step st k h matchh) as [st1 m1]. destruct Hstep as [Hi1 Hm1].
  assert (HW1 : width n (S k) = (W / 2)%nat).
  { rewrite width_S. fold W. symmetry. apply (Nat.div_unique _ _ _ 1); lia. }
  assert (Hc1 : (W * 2 ^ k = W / 2 * 2 ^ S k)%nat) by (cbn [Nat.pow]; nia).
  edestruct (IH (S k)) as (st' & k' & h' & m' & E & Hk' & Hrest); [..|exists st', k', h', m'; split; [exact E|]; split; [lia|exact Hrest]].
  - lia.
  - rewrite div_pow2_S, Hdiv, HW1. symmetry. apply (Nat.div_unique _ _ _ 1); lia.
  - unfold sweep_ok. rewrite HW1, <- Hc1. split_and!; [lia|done|rewrite Hi1; exact Hin| |exact Hm1].
    rewrite Hi1, Hik, Hh. apply combine_node; [exact He|exact HW|apply le_n].
Qed.

(** Combining the last node of an odd level with itself. *)
Lemma sweep_dup k count st h matchh : Nat.even (width n k) = false -> (1 < width n k)%nat ->
  (n / 2 ^ k = width n k \/ n / 2 ^ k = width n k - 1)%nat ->
  (matchh = false -> matchlevel st <> Z.of_nat k) -> sweep_ok k count st h matchh ->
  let st' := if matchh then {| inner := inner st; matchlevel := matchlevel st; path := path st ++ [h]; mc_mutated := mc_mutated st |} else st in
  (n / 2 ^ S k = width n (S k) - 1)%nat /\
  sweep_ok (S k) (u32 (count + Z.shiftl 1 (Z.of_nat k))) st' (Hash_pair h h) matchh.
Proof.
  intros Ho HW Hdiv Hne (Hk & Hc & Hin & Hh & Hm). pose proof height_le. set (W := width n k) in *.
  pose proof (odd_half W Ho) as Hhalf. assert (Hlt : (k < height)%nat) by (apply (width_height l k); [lia|exact HW]).
  assert (HW1 : width n (S k) = (W / 2 + 1)%nat).
  { rewrite width_S. fold W. symmetry. apply (Nat.div_unique _ _ _ 0); lia. }
  assert (Hc1 : ((W + 1) * 2 ^ k = (W / 2 + 1) * 2 ^ S k)%nat) by (cbn [Nat.pow]; nia).
  split.
  { rewrite HW1, div_pow2_S. destruct Hdiv as [->| ->]; [lia|].
    symmetry. apply (Nat.div_unique _ _ _ 0); lia. }
  unfold sweep_ok. rewrite HW1, <- Hc1. split_and!; [lia| |destruct matchh; exact Hin| |].
  - rewrite Hc, Z.shiftl_1_l. replace (2 ^ Z.of_nat k) with (Z.of_nat (2 ^ k)) by (rewrite Nat2Z.inj_pow; done).
    rewrite <- Nat2Z.inj_add. replace (W * 2 ^ k + 2 ^ k)%nat with ((W + 1) * 2 ^ k)%nat by lia.
    rewrite wrap_small; [done|]. split; [lia|]. rewrite Hc1, <- HW1. pose proof (width_ceil n (S k)) as [Hw _].
    assert (2 ^ S k <= 2 ^ 31)%nat by (apply Nat.pow_le_mono_r; lia).
    apply (Z.lt_le_trans _ (Z.of_nat (2 * 2 ^ 31))); [apply Nat2Z.inj_lt; lia|].
    rewrite Nat2Z.inj_mul, Nat2Z.inj_pow. reflexivity.
  - cbn [node]. replace (2 * (W / 2 + 1 - 1))%nat with (W - 1)%nat by lia. fold W.
    destruct (Nat.ltb_spec (W - 1 + 1) W); [lia|]. rewrite Hh. done.
  - unfold carry_match in *. destruct matchh; cbn [path].
    + destruct Hm as [Hpk Hpath]. rewrite Nat.div_mul in Hpk by (apply Nat.pow_nonzero; lia). split.
      * rewrite div_pow2_S, Hpk. rewrite Hc1, Nat.div_mul by (apply Nat.pow_nonzero; lia).
        symmetry. apply (Nat.div_unique _ _ _ 0); lia.
      * rewrite siblings_S, Hpath, Hh. do 2 f_equal. unfold sibling. rewrite Hpk. fold W.
        replace (W - 1)%nat with (2 * (W / 2))%nat by lia. rewrite Nat.even_mul. cbn [Nat.even orb].
        destruct (Nat.ltb_spec (2 * (W / 2) + 1) W); [lia|]. done.
    + destruct Hm as [(m & Hkm & Hml & Hrest)|(_ & _ & Hcp)].
      * left. exists m. split; [|split; [exact Hml|exact Hrest]]. specialize (Hne eq_refl). rewrite Hml in Hne. lia.
      * pose proof (width_ceil n k) as [_ Hw]. fold W in Hw. lia.
Qed.

(** A level below [matchlevel] that holds no leaf-free node: the match is strictly higher. *)
Lemma match_not_here k st : (n / 2 ^ k = width n k - 1)%nat -> Nat.even (width n k) = false ->
  forall count h, sweep_ok k count st h false -> matchlevel st <> Z.of_nat k.
Proof.
  intros Hdiv Ho count h (_ & _ & _ & _ & [(m & _ & Hml & _ & Hodd & _)|(-> & _)]); [|lia].
  rewrite Hml. intros E. apply Nat2Z.inj in E. subst m. rewrite Hdiv, (odd_half _ Ho), Nat.add_sub, Nat.even_mul in Hodd. done.
Qed.

Lemma mc_sweep_ok : forall fuel k count st h matchh, (k + fuel >= 32)%nat -> Nat.even (width n k) = false ->
  (n / 2 ^ k = width n k \/ n / 2 ^ k = width n k - 1)%nat ->
  (matchh = false -> matchlevel st <> Z.of_nat k) -> sweep_ok k count st h matchh ->
  let '(st', h') := mc_sweep fuel k count st h matchh in h' = nd height 0 /\ path st' = siblings height.
Proof.
  pose proof height_le as Hh31.
  induction fuel as [|fuel IH]; intros k count st h matchh Hf Ho Hdiv Hne Hs.
  { destruct Hs as (Hk & _). lia. }
  cbn [mc_sweep]. destruct (Z.eqb_spec count (Z.shiftl 1 (Z.of_nat k))) as [Hc1|Hc1].
  - destruct Hs as (Hk & Hc & _ & Hh & Hm).
    assert (HW : width n k = 1%nat).
    { rewrite Hc, Z.shiftl_1_l in Hc1. pose proof (Nat.pow_nonzero 2 k ltac:(lia)).
      rewrite Nat2Z.inj_mul, Nat2Z.inj_pow in Hc1. change (Z.of_nat 2) with 2 in Hc1. nia. }
    assert (k = height) as ->. { pose proof (proj2 (width_height l k ltac:(lia))). lia. }
    rewrite HW in *. split; [exact Hh|]. unfold carry_match in Hm. destruct matchh; [apply Hm|exfalso].
    destruct Hm as [(m & Hkm & Hml & _ & Hodd & _)|(_ & _ & Hcp)].
    + specialize (Hne eq_refl). rewrite Hml in Hne. rewrite Nat.div_small in Hodd; [done|].
      pose proof (width_ceil n height) as [_ Hw]. rewrite HW in Hw.
      assert (2 ^ height < 2 ^ m)%nat by (apply Nat.pow_lt_mono_r; lia). lia.
    + pose proof (width_ceil n height) as [_ Hw]. rewrite HW in Hw. lia.
  - assert (HW : (1 < width n k)%nat).
    { destruct Hs as (_ & Hc & _). pose proof (odd_half _ Ho). destruct (Nat.eq_dec (width n k) 1%nat) as [E|]; [|lia].
      exfalso. apply Hc1. rewrite Hc, E, Z.shiftl_1_l, Nat.mul_1_l, Nat2Z.inj_pow. done. }
    pose proof (sweep_dup k count st h matchh Ho HW Hdiv Hne Hs) as [Hdiv' Hs'].
    set (st1 := if matchh then _ else st) in *. clearbody st1.
    assert (HkS : (S k <= 31)%nat) by (destruct Hs' as (? & _); lia).
    destruct (mc_propagate_ok 32 (S k) _ _ _ _ ltac:(lia) Hdiv' Hs') as (st' & k' & h' & m' & E & Hk' & Ho' & Hdiv'' & Hs'').
    rewrite E. apply IH; [lia|exact Ho'|right; exact Hdiv''| |exact Hs''].
    intros ->. eapply match_not_here; eassumption.
Qed.

Lemma lowest_bit_ok : forall fuel k q, (k + fuel >= 32)%nat -> (n = q * 2 ^ k)%nat ->
  let k' := lowest_bit fuel k (Z.of_nat n) in
  (k' < 32)%nat /\ (n = (n / 2 ^ k') * 2 ^ k')%nat /\ Nat.even (n / 2 ^ k') = false.
Proof.
  induction fuel as [|fuel IH]; intros k q Hf Hq.
  { assert (2 ^ 31 < 2 ^ k)%nat by (apply Nat.pow_lt_mono_r; lia). destruct q; nia. }
  cbn [lowest_bit]. rewrite bit_clear_spec. pose proof (div_exact_pow2 n k q Hq) as Hdiv. rewrite Hdiv.
  destruct (Nat.even q) eqn:He.
  - apply (IH (S k) (q / 2)%nat); [lia|]. pose proof (even_half q He). cbn [Nat.pow]. nia.
  - rewrite Hdiv. split_and!; [|exact Hq|exact He]. destruct (Nat.lt_ge_cases k 32) as [|Hk]; [assumption|].
    assert (2 ^ 31 < 2 ^ k)%nat by (apply Nat.pow_lt_mono_r; lia). destruct q; nia.
Qed.

Lemma MerkleComputation_ok :
  let '(root, _, pth) := MerkleComputation l (Z.of_nat p) in root = nd height 0 /\ pth = siblings height.
Proof.
  rewrite MerkleComputation_eq by (intros E; rewrite E in Hp; cbn in Hp; lia). cbv zeta.
  set (st0 := {| inner := _; matchlevel := -1; path := []; mc_mutated := false |}).
  assert (H0 : inner_ok 0 (inner st0) /\ match_ok 0 st0).
  { split; [split; [done|]|done]. intros k _ Hk. rewrite Nat.Div0.div_0_l in Hk. done. }
  destruct (mc_leaves_ok l 0 st0 eq_refl eq_refl (proj1 H0) (proj2 H0)) as [Hin Hm].
  change (Z.of_nat 0) with 0 in *. set (st := mc_leaves (Z.of_nat p) 0 st0 l) in *. clearbody st.
  destruct (lowest_bit_ok 32 0 n ltac:(lia) ltac:(cbn; lia)) as (Hk & Hnk & Ho).
  set (k := lowest_bit 32 0 (Z.of_nat n)) in *. clearbody k. clear st0 H0.
  assert (HW : width n k = (n / 2 ^ k)%nat).
  { apply width_unique; pose proof (Nat.pow_nonzero 2 k ltac:(lia)); lia. }
  assert (Hkh : (k <= height)%nat).
  { destruct (Nat.le_gt_cases k height) as [|Hgt]; [assumption|]. exfalso.
    assert (2 ^ height < 2 ^ k)%nat by (apply Nat.pow_lt_mono_r; lia).
    pose proof (proj2 (Nat.log2_log2_up_spec n ltac:(lia))). unfold merkle_height in *. pose proof (odd_half _ Ho). nia. }
  set (h := nth k (inner st) null256). pose proof (mc_sweep_ok 32 k (Z.of_nat n) st h (matchlevel st =? Z.of_nat k)) as Hsw.
  destruct (mc_sweep _ _ _ _ _ _) as [st' h']. apply Hsw; clear Hsw; rewrite ?HW; [lia|exact Ho|left; done| |].
  - intros E. apply Z.eqb_neq in E. exact E.
  - unfold sweep_ok. rewrite HW, <- Hnk. split_and!; [exact Hkh|done|exact Hin|apply Hin; assumption|].
    unfold match_ok in Hm. destruct (Nat.ltb_spec p n); [|lia]. destruct Hm as [m Hm].
    pose proof Hm as (Hml & Hm32 & Hodd & Hpm & Hpath). unfold carry_match. rewrite Hml.
    destruct (Z.eqb_spec (Z.of_nat m) (Z.of_nat k)) as [E|E].
    + apply Nat2Z.inj in E. subst m. done.
    + left. exists m. split; [|exact Hm]. destruct (Nat.le_gt_cases k m) as [|Hgt]; [assumption|]. exfalso.
      rewrite Hnk in Hodd. replace k with (S m + (k - S m))%nat in Hodd at 2 by lia.
      rewrite Nat.pow_add_r, Nat.mul_comm in Hodd. cbn [Nat.pow] in Hodd.
      replace (2 * 2 ^ m * 2 ^ (k - S m) * (n / 2 ^ k))%nat with (2 * (2 ^ (k - S m) * (n / 2 ^ k)) * 2 ^ m)%nat in Hodd by lia.
      rewrite Nat.div_mul in Hodd by (apply Nat.pow_nonzero; lia). rewrite Nat.even_mul in Hodd. done.
Qed.

(** *** Following a path *)

Lemma node_parent k i : (i < width n k)%nat ->
  nd (S k) (i / 2) = if Nat.even i then Hash_pair (nd k i) (sibling k i) else Hash_pair (sibling k i) (nd k i).
Proof.
  clear Hn Hp. intros Hi. unfold sibling. cbn [node]. destruct (Nat.even i) eqn:E.
  - rewrite <- (even_half i E). destruct (i + 1 <? width n k)%nat; done.
  - pose proof (odd_half i E). replace (2 * (i / 2))%nat with (i - 1)%nat by lia. replace (i - 1 + 1)%nat with i by lia.
    destruct (Nat.ltb_spec i (width n k)); [done|lia].
Qed.

Lemma width_ancestor k i : (i < width n k)%nat -> (i / 2 < width n (S k))%nat.
Proof.
  clear Hn Hp. intros Hi. rewrite width_S. pose proof (Nat.div_mod_eq (width n k + 1) 2). pose proof (Nat.mod_upper_bound (width n k + 1) 2 ltac:(lia)).
  pose proof (Nat.div_mod_eq i 2). lia.
Qed.
End computation.

(** Recompute the root from a leaf, its position and a path. *)
Fixpoint merkle_verify (H : uint256 -> uint256 -> uint256) (h : uint256) (pos : nat) (path : list uint256) : uint256 :=
  match path with
  | [] => h
  | s :: path => merkle_verify H (if Nat.even pos then H h s else H s h) (pos / 2) path
  end.

Lemma verify_siblings `{Cpu} l p j k : (p / 2 ^ j < width (length l) j)%nat ->
  merkle_verify Hash_pair (node Hash_pair l j (p / 2 ^ j)) (p / 2 ^ j) (map (fun j => sibling l j (p / 2 ^ j)) (seq j k)) =
  node Hash_pair l (j + k) (p / 2 ^ (j + k)).
Proof.
  revert j. induction k as [|k IH]; intros j Hj; cbn [seq map merkle_verify]; [rewrite Nat.add_0_r; done|].
  assert (E : (if Nat.even (p / 2 ^ j) then Hash_pair (node Hash_pair l j (p / 2 ^ j)) (sibling l j (p / 2 ^ j))
           else Hash_pair (sibling l j (p / 2 ^ j)) (node Hash_pair l j (p / 2 ^ j))) = node Hash_pair l (S j) (p / 2 ^ S j)).
  { rewrite div_pow2_S, node_parent by exact Hj. done. }
  rewrite E, <- div_pow2_S, IH; [|rewrite div_pow2_S; apply width_ancestor, Hj].
  replace (S j + k)%nat with (j + S k)%nat by lia. done.
Qed.

(** Merkle paths: for up to 2^31 leaves and any position, [MerkleComputation], which
    keeps 32 subtree hashes, returns the root of the reference tree with nodes
    combined by [Hash] (BLAKE3), and its path, one sibling per level, leads from the leaf
    back to that root. *)
Theorem merkle_path_verifies `{Cpu} (leaves : list uint256) (position : nat) :
  (length leaves <= 2 ^ 31)%nat -> (position < length leaves)%nat ->
  let root := (MerkleComputation leaves (Z.of_nat position)).1.1 in
  let path := ComputeMerklePath leaves (Z.of_nat position) in
  root = merkle_root Hash_pair leaves /\ length path = merkle_height leaves /\
  merkle_verify Hash_pair (nth position leaves (replicate 32 0)) position path = root.
Proof.
  intros Hn Hp. pose proof (MerkleComputation_ok leaves position Hn Hp) as Hok. unfold ComputeMerklePath.
  destruct (MerkleComputation leaves (Z.of_nat position)) as [[root mut] pth]. destruct Hok as [-> ->]. cbn [fst snd].
  assert (Hne : leaves <> []) by (destruct leaves; [cbn in Hp; lia|done]).
  split_and!; [symmetry; apply root_node, Hne|unfold siblings; rewrite length_map, length_seq; done|].
  pose proof (verify_siblings leaves position 0 (merkle_height leaves)) as Hv.
  change (2 ^ 0)%nat with 1%nat in Hv. rewrite Nat.div_1_r in Hv. cbn [node Nat.add] in Hv.
  fold (siblings leaves position (merkle_height leaves)) in Hv. rewrite Hv by exact Hp.
  rewrite Nat.div_small; [done|]. pose proof (proj2 (Nat.log2_log2_up_spec (length leaves) ltac:(lia))).
  unfold merkle_height. lia.
Qed.

Lemma merkle_path_verifies_witness :
  let path := @ComputeMerklePath portable_cpu sample_hashes 2 in
  length path = 2%nat /\
  merkle_verify (@Hash_pair portable_cpu) (replicate 32 3) 2 path = merkle_root (@Hash_pair portable_cpu) sample_hashes.
Proof.
  assert (Hn : (length sample_hashes <= 2 ^ 31)%nat).
  { transitivity (2 ^ 2)%nat; [cbn; lia|apply Nat.pow_le_mono_r; lia]. }
  destruct (@merkle_path_verifies portable_cpu sample_hashes 2 Hn ltac:(cbn; lia)) as (Hr & Hl & Hv).
  split; [exact Hl|]. rewrite <- Hr. exact Hv.
Defined.

(** The paths do not match block roots: [ComputeMerkleRoot] combines with double SHA-256 and
    [MerkleComputation] with BLAKE3, so already for two transactions the path, followed with
    the function that produced it, does not lead to the Merkle root the block commits to. *)
Theorem merkle_path_wrong_root :
  let leaves := [replicate 32 1; replicate 32 2] in
  let path := @ComputeMerklePath portable_cpu leaves 0 in
  path = [replicate 32 2] /\
  merkle_verify (@Hash_pair portable_cpu) (replicate 32 1) 0 path <> (ComputeMerkleRoot leaves).1.
Proof. split; [vm_compute; reflexivity|]. apply (bool_decide_eq_false_1 _). vm_compute. reflexivity. Qed.
