(* ===== verification/MerkleBlock.v ===== *)
(** * Partial Merkle trees

    src/merkleblock.h and merkleblock.cpp: the proof that some transactions belong to a block,
    its construction, its extraction and its bit packing. *)

From Stdlib Require Import ZArith Lia Bool.
From stdpp Require Import base option list.
From S2P Require Import Prelude Uint256 Params Sha256 Sha256Proofs Hashes Serialize Primitives Merkle MerklePath.
Local Open Scope Z_scope.
Local Open Scope adonai_scope.

(** ** Packing of the flag bits *)

(** [ret[p / 8] |= bits[p] << (p % 8)] *)
Definition BitsToBytes (bits : list bool) : list Z :=
  for_up (length bits) (fun p ret =>
    <[(p / 8)%nat := Z.lor ret.[(p / 8)%nat] (Z.shiftl (Z.b2z (nth p bits false)) (Z.of_nat (p mod 8)))]> ret)
    (replicate ((length bits + 7) / 8)%nat 0).
(** [ret[p] = (bytes[p / 8] & (1 << (p % 8))) != 0] *)
Definition BytesToBits (bytes : list Z) : list bool :=
  map (fun p => negb (Z.land bytes.[(p / 8)%nat] (Z.shiftl 1 (Z.of_nat (p mod 8))) =? 0)) (seq 0 (length bytes * 8)).

(** ** The tree *)

Record CPartialMerkleTree : Type := {
  nTransactions : Z;
  vBits : list bool;
  vHash : list uint256;
  fBad : bool;
}.

Definition CalcTreeWidth (nTransactions : Z) (height : nat) : Z :=
  Z.shiftr (u32 (nTransactions + Z.shiftl 1 (Z.of_nat height) - 1)) (Z.of_nat height).

(** [int nHeight = 0; while (CalcTreeWidth(nHeight) > 1) nHeight++]; the width of a 32-bit count is at most 1 after 32 steps *)
Fixpoint tree_height (fuel nHeight : nat) (nTransactions : Z) : nat :=
  match fuel with
  | O => nHeight
  | S fuel => if CalcTreeWidth nTransactions nHeight >? 1 then tree_height fuel (S nHeight) nTransactions else nHeight
  end.

Section tree.
Context `{Cpu}.

(** a failed [assert(vTxid.size() != 0)], or an index beyond [vTxid], is [None] *)
Fixpoint CalcHash (nTransactions : Z) (height : nat) (pos : Z) (vTxid : list uint256) : option uint256 :=
  if (length vTxid =? 0)%nat then None
  else match height with
  | O => vTxid !! Z.to_nat pos
  | S height =>
      left ← CalcHash nTransactions height (u32 (pos * 2)) vTxid;
      right ← (if u32 (pos * 2 + 1) <? CalcTreeWidth nTransactions height
               then CalcHash nTransactions height (u32 (pos * 2 + 1)) vTxid else Some left);
      Some (Hash_pair left right)
  end.

(** [for (p = pos << height; p < (pos+1) << height && p < nTransactions; p++) fParentOfMatch |= vMatch[p]] *)
Definition parent_of_match (nTransactions : Z) (height : nat) (pos : Z) (vMatch : list bool) : bool :=
  let lo := u32 (Z.shiftl pos (Z.of_nat height)) in
  let hi := Z.min (u32 (Z.shiftl (pos + 1) (Z.of_nat height))) nTransactions in
  existsb (fun p => nth p vMatch false) (seq (Z.to_nat lo) (Z.to_nat (hi - lo))).

(** the bits and hashes pushed, in order *)
Fixpoint TraverseAndBuild (nTransactions : Z) (height : nat) (pos : Z) (vTxid : list uint256) (vMatch : list bool)
  (st : list bool * list uint256) : option (list bool * list uint256) :=
  let '(vBits, vHash) := st in
  let fParentOfMatch := parent_of_match nTransactions height pos vMatch in
  let vBits := vBits ++ [fParentOfMatch] in
  match height with
  | O => hash ← CalcHash nTransactions 0 pos vTxid; Some (vBits, vHash ++ [hash])
  | S h =>
      if negb fParentOfMatch then hash ← CalcHash nTransactions height pos vTxid; Some (vBits, vHash ++ [hash])
      else
        st ← TraverseAndBuild nTransactions h (u32 (pos * 2)) vTxid vMatch (vBits, vHash);
        if u32 (pos * 2 + 1) <? CalcTreeWidth nTransactions h
        then TraverseAndBuild nTransactions h (u32 (pos * 2 + 1)) vTxid vMatch st else Some st
  end.

Definition CPartialMerkleTree_new (vTxid : list uint256) (vMatch : list bool) : option CPartialMerkleTree :=
  let n := u32 (zlen vTxid) in
  '(bits, hashes) ← TraverseAndBuild n (tree_height 33 0 n) 0 vTxid vMatch ([], []);
  Some {| nTransactions := n; vBits := bits; vHash := hashes; fBad := false |}.

(** What [TraverseAndExtract] updates: the two cursors, the matches, [fBad].  [te_pairs] is
    a ghost: the pairs given to [Hash]. *)
Record Extract : Type := {
  nBitsUsed : nat; nHashUsed : nat; vMatched : list uint256; vnIndex : list Z; te_bad : bool;
  te_pairs : list (uint256 * uint256) }.

Definition te_fail (st : Extract) : Extract :=
  {| nBitsUsed := nBitsUsed st; nHashUsed := nHashUsed st; vMatched := vMatched st; vnIndex := vnIndex st;
     te_bad := true; te_pairs := te_pairs st |}.

(** use a stored hash; [matched] is [height == 0 && fParentOfMatch] *)
Definition te_use_hash (tree : CPartialMerkleTree) (matched : bool) (pos : Z) (st : Extract) : uint256 * Extract :=
  match vHash tree !! nHashUsed st with
  | None => (null256, te_fail st)
  | Some hash =>
      (hash, {| nBitsUsed := nBitsUsed st; nHashUsed := S (nHashUsed st);
                vMatched := if matched then vMatched st ++ [hash] else vMatched st;
                vnIndex := if matched then vnIndex st ++ [pos] else vnIndex st;
                te_bad := te_bad st; te_pairs := te_pairs st |})
  end.

Definition te_combine (lhash rhash : uint256) (bad : bool) (st : Extract) : uint256 * Extract :=
  (Hash_pair lhash rhash,
   {| nBitsUsed := nBitsUsed st; nHashUsed := nHashUsed st; vMatched := vMatched st; vnIndex := vnIndex st;
      te_bad := te_bad st || bad; te_pairs := te_pairs st ++ [(lhash, rhash)] |}).

Fixpoint TraverseAndExtract (tree : CPartialMerkleTree) (height : nat) (pos : Z) (st : Extract) : uint256 * Extract :=
  match vBits tree !! nBitsUsed st with
  | None => (null256, te_fail st)
  | Some fParentOfMatch =>
      let st := {| nBitsUsed := S (nBitsUsed st); nHashUsed := nHashUsed st; vMatched := vMatched st;
                   vnIndex := vnIndex st; te_bad := te_bad st; te_pairs := te_pairs st |} in
      match height with
      | O => te_use_hash tree fParentOfMatch pos st
      | S h =>
          if negb fParentOfMatch then te_use_hash tree false pos st
          else
            let '(lhash, st) := TraverseAndExtract tree h (u32 (pos * 2)) st in
            if u32 (pos * 2 + 1) <? CalcTreeWidth (nTransactions tree) h then
              let '(rhash, st) := TraverseAndExtract tree h (u32 (pos * 2 + 1)) st in
              te_combine lhash rhash (blob_eqb rhash lhash) st
            else te_combine lhash lhash false st
      end
  end.

Definition extract_start (tree : CPartialMerkleTree) (vnIndex0 : list Z) : Extract :=
  {| nBitsUsed := 0; nHashUsed := 0; vMatched := []; vnIndex := vnIndex0; te_bad := fBad tree; te_pairs := [] |}.

(** the root (null when the proof is rejected), the matches and their positions; [vnIndex] is
    the caller's vector and is not cleared *)
Definition ExtractMatches (tree : CPartialMerkleTree) (vnIndex0 : list Z) : uint256 * list uint256 * list Z :=
  let n := nTransactions tree in
  if n =? 0 then (null256, [], vnIndex0)
  else if n >? Z.quot MAX_BLOCK_WEIGHT MIN_TRANSACTION_WEIGHT then (null256, [], vnIndex0)
  else if zlen (vHash tree) >? n then (null256, [], vnIndex0)
  else if zlen (vBits tree) <? zlen (vHash tree) then (null256, [], vnIndex0)
  else
    let '(hashMerkleRoot, st) := TraverseAndExtract tree (tree_height 33 0 n) 0 (extract_start tree vnIndex0) in
    if te_bad st then (null256, vMatched st, vnIndex st)
    else if negb (Z.of_nat ((nBitsUsed st + 7) / 8) =? (zlen (vBits tree) + 7) / 8) then (null256, vMatched st, vnIndex st)
    else if negb (Z.of_nat (nHashUsed st) =? zlen (vHash tree)) then (null256, vMatched st, vnIndex st)
    else (hashMerkleRoot, vMatched st, vnIndex st).

(** *** Wire format *)

Definition ser_CPartialMerkleTree (tree : CPartialMerkleTree) : list Z :=
  ser_writedata32 (nTransactions tree) ++ ser_vector ser_blob (vHash tree) ++ ser_bytes (BitsToBytes (vBits tree)).
Definition unser_CPartialMerkleTree : reader CPartialMerkleTree := fun s =>
  '(n, s) ← ser_readdata32 s;
  '(hashes, s) ← unser_vector (unser_blob (Z.of_nat 32)) s;
  '(bytes, s) ← unser_bytes s;
  Some ({| nTransactions := n; vBits := BytesToBits bytes; vHash := hashes; fBad := false |}, s).
End tree.

(** ** Bit packing *)

Lemma BytesToBits_spec bytes p : (p < length bytes * 8)%nat ->
  nth p (BytesToBits bytes) false = Z.testbit bytes.[(p / 8)%nat] (Z.of_nat (p mod 8)).
Proof.
  intros Hp. unfold BytesToBits. rewrite (nth_indep _ false (negb (Z.land bytes.[(0 / 8)%nat] (Z.shiftl 1 (Z.of_nat (0 mod 8))) =? 0)))
    by (rewrite length_map, length_seq; exact Hp).
  rewrite (map_nth (fun p => negb (Z.land bytes.[(p / 8)%nat] (Z.shiftl 1 (Z.of_nat (p mod 8))) =? 0))), seq_nth by exact Hp.
  cbn [Nat.add]. rewrite land_bit by lia. apply negb_involutive.
Qed.

(** After [k] bits, byte [j] holds the bits from [8 j] to [8 j + 7] below [k]. *)
Definition packed (bits : list bool) (k : nat) (ret : list Z) : Prop :=
  length ret = ((length bits + 7) / 8)%nat /\
  forall j i, (j < length ret)%nat -> 0 <= i ->
    Z.testbit ret.[j] i = (i <? 8) && (Z.of_nat j * 8 + i <? Z.of_nat k) && nth (j * 8 + Z.to_nat i) bits false.

Lemma packed_start bits : packed bits 0 (replicate ((length bits + 7) / 8)%nat 0).
Proof.
  split; [apply length_replicate|]. intros j i Hj Hi. rewrite length_replicate in Hj.
  assert (Hn : (replicate ((length bits + 7) / 8) 0).[j] = 0).
  { rewrite nth_lookup, lookup_replicate_2 by exact Hj. done. }
  rewrite Hn, Z.bits_0. destruct (Z.ltb_spec (Z.of_nat j * 8 + i) (Z.of_nat 0)); [lia|]. rewrite andb_false_r. done.
Qed.

Lemma b2z_bit b i j : 0 <= i -> 0 <= j -> Z.testbit (Z.shiftl (Z.b2z b) i) j = (i =? j) && b.
Proof.
  intros Hi Hj. rewrite Z.shiftl_spec by exact Hj. destruct (Z.eqb_spec i j) as [->|Hne].
  - rewrite Z.sub_diag. destruct b; done.
  - cbn [andb]. destruct (Z.lt_ge_cases j i); [rewrite Z.testbit_neg_r by lia; done|].
    destruct b; cbn [Z.b2z]; [|apply Z.bits_0]. apply (Z.pow2_bits_false 0). lia.
Qed.

Lemma packed_step bits k ret : (k < length bits)%nat -> packed bits k ret ->
  packed bits (S k)
    (<[(k / 8)%nat := Z.lor ret.[(k / 8)%nat] (Z.shiftl (Z.b2z (nth k bits false)) (Z.of_nat (k mod 8)))]> ret).
Proof.
  intros Hk [Hlen Hbits]. pose proof (Nat.div_mod_eq k 8). pose proof (Nat.mod_upper_bound k 8 ltac:(lia)).
  assert (Hk8 : (k / 8 < length ret)%nat).
  { rewrite Hlen. apply Nat.Div0.div_lt_upper_bound. pose proof (Nat.div_mod_eq (length bits + 7) 8).
    pose proof (Nat.mod_upper_bound (length bits + 7) 8 ltac:(lia)). lia. }
  split; [rewrite length_insert; exact Hlen|]. intros j i Hj Hi. rewrite length_insert in Hj.
  destruct (Nat.eq_dec j (k / 8)%nat) as [->|Hne].
  - rewrite nth_insert_eq by lia. rewrite Z.lor_spec, Hbits, b2z_bit by (assumption || lia).
    destruct (Z.eqb_spec (Z.of_nat (k mod 8)) i) as [<-|Hi'].
    + replace (k / 8 * 8 + Z.to_nat (Z.of_nat (k mod 8)))%nat with k by lia.
      destruct (Z.ltb_spec (Z.of_nat (k mod 8)) 8); [|lia].
      destruct (Z.ltb_spec (Z.of_nat (k / 8) * 8 + Z.of_nat (k mod 8)) (Z.of_nat k)); [lia|].
      destruct (Z.ltb_spec (Z.of_nat (k / 8) * 8 + Z.of_nat (k mod 8)) (Z.of_nat (S k))); [|lia]. done.
    + rewrite orb_false_r. f_equal. f_equal. apply eq_true_iff_eq. rewrite !Z.ltb_lt. lia.
  - rewrite nth_insert_ne by congruence. rewrite Hbits by assumption.
    destruct (Z.ltb_spec i 8); [|done]. cbn [andb]. f_equal. apply eq_true_iff_eq. rewrite !Z.ltb_lt. lia.
Qed.

Lemma BitsToBytes_packed bits : packed bits (length bits) (BitsToBytes bits).
Proof.
  unfold BitsToBytes. apply for_up_ind; [apply packed_start|]. intros k ret Hk Hret. apply packed_step; assumption.
Qed.

(** Unpacking gives the bits back, padded with zeros to whole bytes. *)
Lemma BytesToBits_BitsToBytes bits :
  BytesToBits (BitsToBytes bits) = bits ++ replicate ((length bits + 7) / 8 * 8 - length bits)%nat false.
Proof.
  destruct (BitsToBytes_packed bits) as [Hlen Hbits].
  pose proof (Nat.div_mod_eq (length bits + 7) 8). pose proof (Nat.mod_upper_bound (length bits + 7) 8 ltac:(lia)).
  assert (HL : length (BytesToBits (BitsToBytes bits)) = ((length bits + 7) / 8 * 8)%nat)
    by (unfold BytesToBits; rewrite length_map, length_seq, Hlen; done).
  apply (nth_ext _ _ false false); [rewrite HL, length_app, length_replicate; lia|]. intros p Hp. rewrite HL in Hp.
  rewrite BytesToBits_spec by lia. pose proof (Nat.div_mod_eq p 8). pose proof (Nat.mod_upper_bound p 8 ltac:(lia)).
  rewrite Hbits by (rewrite ?Hlen; try apply Nat.Div0.div_lt_upper_bound; lia).
  destruct (Z.ltb_spec (Z.of_nat (p mod 8)) 8); [|lia]. cbn [andb].
  replace (p / 8 * 8 + Z.to_nat (Z.of_nat (p mod 8)))%nat with p by lia.
  destruct (Z.ltb_spec (Z.of_nat (p / 8) * 8 + Z.of_nat (p mod 8)) (Z.of_nat (length bits))) as [Hlt|Hge]; cbn [andb].
  - rewrite app_nth1 by lia. done.
  - rewrite app_nth2 by lia. rewrite nth_lookup, lookup_replicate_2 by lia. done.
Qed.

(** ** The tree of a list of transactions *)

Lemma width_pos n h : (0 < n)%nat -> (0 < width n h)%nat.
Proof. intros Hn. pose proof (width_ceil n h) as [_ Hw]. destruct (width n h); lia. Qed.

Lemma width_le n h : (width n h <= n)%nat.
Proof.
  induction h as [|h IH]; cbn [width]; [lia|]. rewrite Nat.div2_div.
  destruct (width n h) as [|w]; [cbn; lia|]. pose proof (Nat.div_mod_eq (S (S w)) 2). lia.
Qed.

Section built.
Context `{Cpu}.
Variable l : list uint256.
Variable m : list bool.
Notation n := (length l).
Notation N := (Z.of_nat n).
Notation nd := (node Hash_pair l).
Hypothesis Hn : (0 < n <= 2 ^ 31)%nat.

Lemma N_bound : 0 < N <= 2 ^ 31.
Proof. destruct Hn as [H0 H1]. apply Nat2Z.inj_le in H1. rewrite Nat2Z.inj_pow in H1. lia. Qed.

Lemma pow2_le_31 h : (h <= 31)%nat -> 0 < Z.of_nat (2 ^ h) <= 2 ^ 31.
Proof.
  intros Hh. rewrite Nat2Z.inj_pow. change (Z.of_nat 2) with 2. split; [apply pow2_pos; lia|].
  apply Z.pow_le_mono_r; lia.
Qed.

Lemma CalcTreeWidth_spec h : (h <= 31)%nat -> CalcTreeWidth N h = Z.of_nat (width n h).
Proof.
  intros Hh. unfold CalcTreeWidth. pose proof N_bound. pose proof (pow2_le_31 h Hh) as Hp.
  rewrite Z.shiftl_1_l, Z.shiftr_div_pow2 by lia.
  replace (2 ^ Z.of_nat h) with (Z.of_nat (2 ^ h)) by (rewrite Nat2Z.inj_pow; done).
  rewrite wrap_small by (unfold fits; lia). pose proof (width_ceil n h) as [H1 H2].
  symmetry. apply (Z.div_unique_pos _ _ _ (N + Z.of_nat (2 ^ h) - 1 - Z.of_nat (width n h * 2 ^ h))); lia.
Qed.

Lemma child_pos h pos : (pos < width n (S h))%nat ->
  u32 (Z.of_nat pos * 2) = Z.of_nat (2 * pos) /\ u32 (Z.of_nat pos * 2 + 1) = Z.of_nat (2 * pos + 1) /\
  (2 * pos < width n h)%nat.
Proof.
  intros Hpos. cbn [width] in Hpos. rewrite Nat.div2_div in Hpos. pose proof (Nat.div_mod_eq (S (width n h)) 2).
  pose proof (width_le n h). pose proof N_bound. rewrite !wrap_small by (unfold fits; lia). lia.
Qed.

Lemma child_test h pos : (h <= 31)%nat -> (pos < width n (S h))%nat ->
  (u32 (Z.of_nat pos * 2 + 1) <? CalcTreeWidth N h) = (2 * pos + 1 <? width n h)%nat.
Proof.
  intros Hh Hpos. destruct (child_pos h pos Hpos) as (_ & -> & _). rewrite CalcTreeWidth_spec by exact Hh.
  destruct (Z.ltb_spec (Z.of_nat (2 * pos + 1)) (Z.of_nat (width n h))), (Nat.ltb_spec (2 * pos + 1) (width n h)); lia.
Qed.

Lemma CalcHash_node h pos : (h <= 31)%nat -> (pos < width n h)%nat -> CalcHash N h (Z.of_nat pos) l = Some (nd h pos).
Proof.
  assert (Hl : (n =? 0)%nat = false) by (apply Nat.eqb_neq; lia).
  revert pos. induction h as [|h IH]; intros pos Hh Hpos; cbn [CalcHash node]; rewrite Hl.
  - rewrite Nat2Z.id. destruct (nth_lookup_or_length l pos null256) as [->|Hge]; [done|]. cbn [width] in Hpos. lia.
  - rewrite child_test by (assumption || lia). destruct (child_pos h pos Hpos) as (-> & -> & Hlt).
    rewrite (IH (2 * pos)%nat) by (assumption || lia). cbn [mbind option_bind].
    destruct (Nat.ltb_spec (2 * pos + 1) (width n h)); [rewrite IH by lia|]; done.
Qed.

(** the leaves below a node *)
Definition leaves_of (h pos : nat) : list nat := seq (pos * 2 ^ h) (Nat.min ((pos + 1) * 2 ^ h) n - pos * 2 ^ h).
Definition matched_of (h pos : nat) : list nat := base.filter (fun p => nth p m false = true) (leaves_of h pos).

Lemma leaf_start h pos : (pos < width n h)%nat -> (pos * 2 ^ h < n)%nat.
Proof. intros Hpos. pose proof (width_ceil n h) as [H1 _]. nia. Qed.

Lemma leaves_split h pos : (pos < width n (S h))%nat ->
  leaves_of (S h) pos = leaves_of h (2 * pos) ++ (if (2 * pos + 1 <? width n h)%nat then leaves_of h (2 * pos + 1) else []).
Proof.
  intros Hpos. destruct (child_pos h pos Hpos) as (_ & _ & Hlt). unfold leaves_of.
  pose proof (leaf_start h (2 * pos) Hlt). pose proof (Nat.pow_nonzero 2 h ltac:(lia)).
  cbn [Nat.pow]. replace (pos * (2 * 2 ^ h))%nat with (2 * pos * 2 ^ h)%nat by lia.
  replace ((pos + 1) * (2 * 2 ^ h))%nat with ((2 * pos + 1 + 1) * 2 ^ h)%nat by lia.
  destruct (Nat.ltb_spec (2 * pos + 1) (width n h)) as [Hr|Hr].
  - pose proof (leaf_start h (2 * pos + 1) Hr).
    replace (Nat.min ((2 * pos + 1) * 2 ^ h) n) with ((2 * pos + 1) * 2 ^ h)%nat by lia.
    replace ((2 * pos + 1) * 2 ^ h - 2 * pos * 2 ^ h)%nat with (2 ^ h)%nat by lia.
    replace ((2 * pos + 1) * 2 ^ h)%nat with (2 * pos * 2 ^ h + 2 ^ h)%nat by lia.
    rewrite <- seq_app. f_equal; lia.
  - rewrite app_nil_r. f_equal. pose proof (width_ceil n h) as [_ H2].
    assert (width n h = 2 * pos + 1)%nat by lia. nia.
Qed.

Lemma parent_of_match_spec h pos : (h <= 31)%nat -> (pos < width n h)%nat ->
  parent_of_match N h (Z.of_nat pos) m = existsb (fun p => nth p m false) (leaves_of h pos).
Proof.
  intros Hh Hpos. unfold parent_of_match, leaves_of. pose proof (leaf_start h pos Hpos). pose proof N_bound.
  pose proof (width_ceil n h) as [Hw _]. pose proof (pow2_le_31 h Hh) as Hp.
  rewrite !Z.shiftl_mul_pow2 by lia. replace (2 ^ Z.of_nat h) with (Z.of_nat (2 ^ h)) by (rewrite Nat2Z.inj_pow; done).
  rewrite !wrap_small by (unfold fits; nia). f_equal. f_equal; nia.
Qed.

Lemma parent_of_match_nil h pos : (h <= 31)%nat -> (pos < width n h)%nat ->
  parent_of_match N h (Z.of_nat pos) m = false -> matched_of h pos = [].
Proof.
  intros Hh Hpos. rewrite parent_of_match_spec by assumption. unfold matched_of. intros E.
  induction (leaves_of h pos) as [|p ps IH]; [done|]. cbn [existsb] in E. apply orb_false_iff in E as [E1 E2].
  rewrite filter_cons_False by congruence. apply IH, E2.
Qed.

Lemma matched_split h pos : (pos < width n (S h))%nat ->
  matched_of (S h) pos = matched_of h (2 * pos) ++ (if (2 * pos + 1 <? width n h)%nat then matched_of h (2 * pos + 1) else []).
Proof. intros Hpos. unfold matched_of. rewrite leaves_split, filter_app by exact Hpos. case_match; done. Qed.

(** *** What is built *)

(** the bits and hashes of the subtree at a node *)
Fixpoint built (h pos : nat) : list bool * list uint256 :=
  let b := parent_of_match N h (Z.of_nat pos) m in
  match h with
  | O => ([b], [nd 0 pos])
  | S k =>
      if negb b then ([b], [nd (S k) pos])
      else
        let r := if (2 * pos + 1 <? width n k)%nat then built k (2 * pos + 1) else ([], []) in
        (b :: (built k (2 * pos)).1 ++ r.1, (built k (2 * pos)).2 ++ r.2)
  end.

Lemma TraverseAndBuild_built h : forall pos b hs, (h <= 31)%nat -> (pos < width n h)%nat ->
  TraverseAndBuild N h (Z.of_nat pos) l m (b, hs) = Some (b ++ (built h pos).1, hs ++ (built h pos).2).
Proof.
  induction h as [|h IH]; intros pos b hs Hh Hpos; cbn [TraverseAndBuild built].
  - rewrite CalcHash_node by assumption. done.
  - destruct (negb (parent_of_match N (S h) (Z.of_nat pos) m)); [rewrite CalcHash_node by assumption; done|].
    rewrite child_test by (assumption || lia). destruct (child_pos h pos Hpos) as (-> & -> & Hlt).
    rewrite (IH (2 * pos)%nat) by (assumption || lia). cbn [mbind option_bind].
    destruct (Nat.ltb_spec (2 * pos + 1) (width n h)); cbn [fst snd].
    + rewrite IH by lia. rewrite <- !app_assoc. done.
    + rewrite !app_nil_r, <- app_assoc. done.
Qed.

Lemma built_S h pos : parent_of_match N (S h) (Z.of_nat pos) m = true ->
  built (S h) pos =
  let r := if (2 * pos + 1 <? width n h)%nat then built h (2 * pos + 1) else ([], []) in
  (true :: (built h (2 * pos)).1 ++ r.1, (built h (2 * pos)).2 ++ r.2).
Proof. intros Hm. cbn [built]. rewrite Hm. done. Qed.

Lemma built_bits h : forall pos, (length (built h pos).2 <= length (built h pos).1)%nat.
Proof.
  induction h as [|h IH]; intros pos; cbn [built]; [cbn; lia|].
  destruct (negb (parent_of_match N (S h) (Z.of_nat pos) m)); [cbn; lia|]. cbn [fst snd length]. rewrite !length_app.
  pose proof (IH (2 * pos)%nat). pose proof (IH (2 * pos + 1)%nat).
  destruct (2 * pos + 1 <? width n h)%nat; cbn [fst snd length]; lia.
Qed.

(** *** Extraction of what was built *)

(** neighbours combined in the tree are different *)
Hypothesis Hdistinct : forall h pos, (2 * pos + 1 < width n h)%nat -> blob_eqb (nd h (2 * pos + 1)) (nd h (2 * pos)) = false.

Variable tree : CPartialMerkleTree.
Hypothesis Htree : nTransactions tree = N.

(** cursors moved past [b] and [hs], matches of leaves [ps] appended *)
Definition advanced (st st' : Extract) (seg : list bool * list uint256) (ps : list nat) : Prop :=
  nBitsUsed st' = (nBitsUsed st + length seg.1)%nat /\ nHashUsed st' = (nHashUsed st + length seg.2)%nat /\
  vMatched st' = vMatched st ++ map (fun p => nth p l null256) ps /\ vnIndex st' = vnIndex st ++ map Z.of_nat ps /\
  te_bad st' = te_bad st.

(** the segment is what the tree holds from the cursors on *)
Definition ahead (st : Extract) (seg : list bool * list uint256) : Prop :=
  (exists post, drop (nBitsUsed st) (vBits tree) = seg.1 ++ post) /\ (exists post, drop (nHashUsed st) (vHash tree) = seg.2 ++ post).

Lemma drop_cons_lookup {A} k (xs : list A) x post : drop k xs = x :: post -> xs !! k = Some x /\ drop (S k) xs = post.
Proof.
  intros E. split.
  - rewrite <- (Nat.add_0_r k), <- lookup_drop, E. done.
  - replace (S k) with (k + 1)%nat by lia. rewrite <- drop_drop, E. done.
Qed.

Lemma drop_app_skip {A} k (xs a post : list A) : drop k xs = a ++ post -> drop (k + length a) xs = post.
Proof. intros E. rewrite <- drop_drop, E, drop_app_length. done. Qed.

Lemma built_leaf h pos :
  h = 0%nat \/ parent_of_match N h (Z.of_nat pos) m = false ->
  built h pos = ([parent_of_match N h (Z.of_nat pos) m], [nd h pos]).
Proof.
  intros Hc. destruct h as [|h]; [done|]. cbn [built]. destruct Hc as [?| ->]; done.
Qed.

(** the cursor over the bits after one bit *)
Definition bit_read (st : Extract) : Extract :=
  {| nBitsUsed := S (nBitsUsed st); nHashUsed := nHashUsed st; vMatched := vMatched st;
     vnIndex := vnIndex st; te_bad := te_bad st; te_pairs := te_pairs st |}.

Lemma use_hash_leaf h pos st b (matched : bool) : ahead st ([b], [nd h pos]) ->
  (if matched then matched_of h pos = [pos] /\ nth pos l null256 = nd h pos else matched_of h pos = []) ->
  exists st', te_use_hash tree matched (Z.of_nat pos) (bit_read st) = (nd h pos, st') /\
              advanced st st' ([b], [nd h pos]) (matched_of h pos).
Proof.
  intros [_ [post Hh]] Hm. apply drop_cons_lookup in Hh as [Hh _]. unfold te_use_hash. cbn [bit_read nHashUsed] in *. rewrite Hh.
  refine (ex_intro _ _ (conj eq_refl _)). unfold advanced.
  cbn [nBitsUsed nHashUsed vMatched vnIndex te_bad fst snd length bit_read]. destruct matched.
  - destruct Hm as [-> Hl]. cbn [map]. rewrite Hl. split_and!; lia || done.
  - rewrite Hm. cbn [map]. rewrite !app_nil_r. split_and!; lia || done.
Qed.

Lemma matched_leaf pos : (pos < n)%nat ->
  matched_of 0 pos = if parent_of_match N 0 (Z.of_nat pos) m then [pos] else [].
Proof.
  intros Hpos. assert (Hl : leaves_of 0 pos = [pos]).
  { unfold leaves_of. cbn [Nat.pow]. rewrite !Nat.mul_1_r. replace (Nat.min (pos + 1) n - pos)%nat with 1%nat by lia. done. }
  rewrite parent_of_match_spec by (cbn [width]; lia). unfold matched_of. rewrite Hl. cbn [existsb].
  rewrite orb_false_r. destruct (nth pos m false) eqn:E;
    [rewrite filter_cons_True by exact E; done|rewrite filter_cons_False by congruence; done].
Qed.

Lemma advanced_trans st1 st2 st3 b1 h1 b2 h2 ps qs :
  advanced st1 st2 (b1, h1) ps -> advanced st2 st3 (b2, h2) qs -> advanced st1 st3 (b1 ++ b2, h1 ++ h2) (ps ++ qs).
Proof.
  intros (H1 & H2 & H3 & H4 & H5) (G1 & G2 & G3 & G4 & G5). unfold advanced. cbn [fst snd] in *.
  rewrite G1, G2, G3, G4, G5, H1, H2, H3, H4, H5, !length_app, !map_app, !app_assoc. split_and!; lia || done.
Qed.

Lemma ahead_skip st st' b1 h1 b2 h2 ps : ahead st (b1 ++ b2, h1 ++ h2) -> advanced st st' (b1, h1) ps -> ahead st' (b2, h2).
Proof.
  intros [[p1 E1] [p2 E2]] (H1 & H2 & _). unfold ahead. cbn [fst snd] in *. rewrite H1, H2.
  rewrite <- app_assoc in E1, E2. split; [exists p1; exact (drop_app_skip _ _ _ _ E1)|exists p2; exact (drop_app_skip _ _ _ _ E2)].
Qed.

Lemma combine_advanced a b st st' seg ps :
  advanced st st' seg ps -> exists st'', te_combine a b false st' = (Hash_pair a b, st'') /\ advanced st st'' seg ps.
Proof.
  intros (H1 & H2 & H3 & H4 & H5). unfold te_combine. refine (ex_intro _ _ (conj eq_refl _)). unfold advanced. cbn. rewrite orb_false_r. done.
Qed.

Lemma extract_built h : forall pos st, (h <= 31)%nat -> (pos < width n h)%nat -> ahead st (built h pos) ->
  exists st', TraverseAndExtract tree h (Z.of_nat pos) st = (nd h pos, st') /\ advanced st st' (built h pos) (matched_of h pos).
Proof.
  induction h as [|h IH]; intros pos st Hh Hpos Hahead.
  - rewrite built_leaf in * by (assumption || (left; done)). pose proof Hahead as [[post Hb] _].
    apply drop_cons_lookup in Hb as [Hb _]. cbn [TraverseAndExtract]. rewrite Hb. apply use_hash_leaf; [exact Hahead|].
    rewrite matched_leaf by exact Hpos. destruct (parent_of_match N 0 (Z.of_nat pos) m); done.
  - destruct (parent_of_match N (S h) (Z.of_nat pos) m) eqn:Hpm.
    2: { rewrite built_leaf in * by (assumption || (right; assumption)). pose proof Hahead as [[post Hb] _].
         apply drop_cons_lookup in Hb as [Hb _]. cbn [TraverseAndExtract]. rewrite Hb, Hpm. cbn [negb].
         apply use_hash_leaf; [rewrite Hpm in Hahead; exact Hahead|]. apply parent_of_match_nil; assumption. }
    rewrite built_S in * by (assumption || lia). rewrite matched_split by exact Hpos.
    pose proof Hahead as [[post Hb] _]. apply drop_cons_lookup in Hb as [Hb _]. cbn [TraverseAndExtract].
    rewrite Hb. cbn [negb]. rewrite Htree, child_test by (assumption || lia).
    destruct (child_pos h pos Hpos) as (-> & -> & Hlt). fold (bit_read st).
    assert (Hread : advanced st (bit_read st) ([true], []) []).
    { unfold advanced, bit_read. cbn. rewrite !app_nil_r. split_and!; lia || done. }
    pose proof (ahead_skip st (bit_read st) [true] [] _ _ _ Hahead Hread) as Hahead1.
    destruct (IH (2 * pos)%nat (bit_read st)) as (st1 & -> & Hadv1); [lia|exact Hlt| |].
    { destruct Hahead1 as [[p1 E1] [p2 E2]]. split; cbn [fst snd] in *; rewrite <- app_assoc in *; eexists; eassumption. }
    rewrite (surjective_pairing (built h (2 * pos))) in Hadv1. pose proof (advanced_trans _ _ _ _ _ _ _ _ _ Hread Hadv1) as Hadv.
    cbn [app] in Hadv. cbn [node]. pose proof (ahead_skip _ _ _ _ _ _ _ Hahead1 Hadv1) as Hahead2.
    destruct (Nat.ltb_spec (2 * pos + 1) (width n h)) as [Hr|Hr].
    + destruct (IH (2 * pos + 1)%nat st1) as (st2 & -> & Hadv2); [lia|exact Hr|exact Hahead2|]. rewrite Hdistinct by exact Hr.
      rewrite (surjective_pairing (built h (2 * pos + 1))) in Hadv2.
      apply combine_advanced. exact (advanced_trans _ _ _ _ _ _ _ _ _ Hadv Hadv2).
    + apply combine_advanced. cbn [fst snd]. rewrite !app_nil_r. exact Hadv.
Qed.
End built.

(** ** The whole proof *)

Lemma blob_eqb_sym a b : blob_eqb a b = blob_eqb b a.
Proof.
  unfold blob_eqb. revert b. induction a as [|x a IH]; intros [|y b]; [done..|]. cbn [blob_Compare].
  rewrite (Z.eqb_sym y x). destruct (Z.eqb_spec x y) as [->|]; [apply IH|].
  destruct (Z.ltb_spec x y), (Z.ltb_spec y x); done || lia.
Qed.

Lemma has_equal_pair_nth k : has_equal_pair k = false -> forall pos, (2 * pos + 1 < length k)%nat ->
  blob_eqb (nth (2 * pos) k null256) (nth (2 * pos + 1) k null256) = false.
Proof.
  induction k as [|a|a b k IH] using pair_ind; cbn [has_equal_pair length]; intros E pos Hpos; [lia..|].
  apply orb_false_iff in E as [E1 E2]. destruct pos as [|pos]; [exact E1|].
  replace (2 * S pos)%nat with (S (S (2 * pos))) by lia. cbn [nth Nat.add]. apply IH; [exact E2|lia].
Qed.

Lemma not_mutated_level H k l : merkle_mutated H k l = false -> forall j, (j < k)%nat -> has_equal_pair (level H j l) = false.
Proof.
  revert l. induction k as [|k IH]; intros l E j Hj; [lia|]. cbn [merkle_mutated] in E.
  apply orb_false_iff in E as [E1 E2]. destruct j as [|j]; [exact E1|]. apply (IH (pair_up H l)); [exact E2|lia].
Qed.

Lemma not_mutated_distinct H l : (0 < length l)%nat -> merkle_mutated H (merkle_height l) l = false ->
  forall h pos, (2 * pos + 1 < width (length l) h)%nat -> blob_eqb (node H l h (2 * pos + 1)) (node H l h (2 * pos)) = false.
Proof.
  intros Hl E h pos Hpos. rewrite blob_eqb_sym, <- !level_node by lia.
  apply has_equal_pair_nth; [|rewrite level_width; exact Hpos].
  eapply not_mutated_level; [exact E|]. apply width_height; lia.
Qed.

Section whole.
Context `{Cpu}.
Variable l : list uint256.
Notation n := (length l).
Notation N := (Z.of_nat n).
Notation nd := (node Hash_pair l).
Hypothesis Hn : (0 < n <= 2 ^ 31)%nat.

Lemma tree_height_spec fuel k : (k + fuel >= 32)%nat -> (k <= merkle_height l)%nat -> tree_height fuel k N = merkle_height l.
Proof.
  pose proof (height_le l (proj2 Hn)) as H31. revert k. induction fuel as [|fuel IH]; intros k Hf Hk; [lia|].
  cbn [tree_height]. rewrite CalcTreeWidth_spec by (assumption || lia). pose proof (width_height l k ltac:(lia)) as Hw.
  destruct (Z.gtb_spec (Z.of_nat (width n k)) 1).
  - apply IH; lia.
  - lia.
Qed.

Lemma root_width : width n (merkle_height l) = 1%nat.
Proof.
  pose proof (width_height l (merkle_height l) ltac:(lia)) as Hw. pose proof (width_pos n (merkle_height l) ltac:(lia)). lia.
Qed.

Lemma leaves_root : leaves_of l (merkle_height l) 0 = seq 0 n.
Proof.
  unfold leaves_of. pose proof (width_ceil n (merkle_height l)) as [_ Hw]. rewrite root_width in Hw. f_equal. lia.
Qed.

Lemma Hash_pair_ok a b : hash_ok a -> hash_ok b -> hash_ok (Hash_pair a b).
Proof. intros [Ha _] [Hb _]. rewrite Hash_pair_spec by lia. apply blake3_blob. Qed.

Hypothesis Hok : Forall hash_ok l.

Lemma node_ok h : forall pos, (pos < width n h)%nat -> hash_ok (nd h pos).
Proof.
  induction h as [|h IH]; intros pos Hpos; cbn [node].
  - apply (proj1 (Forall_forall _ _) Hok), list_elem_of_In, nth_In, Hpos.
  - destruct (child_pos l Hn h pos Hpos) as (_ & _ & Hlt).
    destruct (Nat.ltb_spec (2 * pos + 1) (width n h)); apply Hash_pair_ok; apply IH; lia.
Qed.

Lemma built_hashes m h : forall pos, (h <= 31)%nat -> (pos < width n h)%nat ->
  Forall hash_ok (built l m h pos).2 /\ (length (built l m h pos).2 <= length (leaves_of l h pos))%nat /\
  (length (built l m h pos).1 <= (h + 1) * length (leaves_of l h pos))%nat.
Proof.
  assert (Hpos1 : forall h pos, (pos < width n h)%nat -> (1 <= length (leaves_of l h pos))%nat).
  { intros k pos Hpos. unfold leaves_of. rewrite length_seq. pose proof (leaf_start l Hn k pos Hpos).
    pose proof (Nat.pow_nonzero 2 k ltac:(lia)). lia. }
  induction h as [|h IH]; intros pos Hh Hpos; pose proof (Hpos1 _ _ Hpos) as H1.
  - rewrite built_leaf by (assumption || (left; done)). cbn [fst snd length]. split_and!; [|lia..].
    constructor; [apply node_ok, Hpos|constructor].
  - destruct (parent_of_match N (S h) (Z.of_nat pos) m) eqn:Hpm.
    2: { rewrite built_leaf by (assumption || (right; assumption)). cbn [fst snd length]. split_and!; [|lia..].
         constructor; [apply node_ok, Hpos|constructor]. }
    rewrite built_S by (assumption || lia). rewrite (leaves_split l Hn) by exact Hpos.
    destruct (child_pos l Hn h pos Hpos) as (_ & _ & Hlt). destruct (IH (2 * pos)%nat ltac:(lia) Hlt) as (F1 & L1 & B1).
    pose proof (Hpos1 _ _ Hlt). destruct (Nat.ltb_spec (2 * pos + 1) (width n h)) as [Hr|_].
    + destruct (IH (2 * pos + 1)%nat ltac:(lia) Hr) as (F2 & L2 & B2). cbn [fst snd length]. rewrite !length_app.
      split_and!; [apply Forall_app; done|lia|nia].
    + cbn [fst snd length]. rewrite !app_nil_r. split_and!; [exact F1|lia|nia].
Qed.
End whole.

(** *** Packing the proof for the wire *)

Lemma BitsToBytes_ok bits : limbs_ok 8 (BitsToBytes bits).
Proof.
  destruct (BitsToBytes_packed bits) as [_ Hbits]. apply Forall_forall. intros b Hb.
  apply list_elem_of_lookup in Hb as [j Hj]. assert (Hlt : (j < length (BitsToBytes bits))%nat) by (apply lookup_lt_is_Some; eauto).
  assert (Hb : (BitsToBytes bits).[j] = b) by (rewrite nth_lookup, Hj; done). subst b.
  set (b := (BitsToBytes bits).[j]) in *. assert (E : b = b mod 2 ^ 8).
  { apply Z.bits_inj'. intros i Hi. destruct (Z.lt_ge_cases i 8).
    - rewrite Z.mod_pow2_bits_low by lia. done.
    - rewrite Z.mod_pow2_bits_high by lia. unfold b. rewrite Hbits by assumption.
      destruct (Z.ltb_spec i 8); [lia|]. done. }
  rewrite E. apply Z.mod_pos_bound. lia.
Qed.

Lemma BitsToBytes_len bits : length (BitsToBytes bits) = ((length bits + 7) / 8)%nat.
Proof. apply BitsToBytes_packed. Qed.

(** what the receiver of the proof holds *)
Definition sent_tree (tree : CPartialMerkleTree) : CPartialMerkleTree :=
  {| nTransactions := nTransactions tree; vBits := BytesToBits (BitsToBytes (vBits tree)); vHash := vHash tree; fBad := false |}.

Lemma unser_ser_tree tree rest : fits 32 (nTransactions tree) -> vector_ok (blob_ok 32) (vHash tree) ->
  zlen (vBits tree) <= MAX_SIZE -> unser_CPartialMerkleTree (ser_CPartialMerkleTree tree ++ rest) = Some (sent_tree tree, rest).
Proof.
  intros Hn Hh Hb. unfold unser_CPartialMerkleTree, ser_CPartialMerkleTree. rewrite <- !app_assoc.
  rewrite (codec_roundtrip (ok := fits 32)) by exact Hn. cbn [mbind option_bind].
  rewrite (codec_roundtrip (ok := vector_ok (blob_ok 32))) by exact Hh. cbn [mbind option_bind].
  rewrite (codec_roundtrip (ok := bytes_ok)); [done|]. split; [|apply BitsToBytes_ok].
  rewrite BitsToBytes_len. assert ((length (vBits tree) + 7) / 8 <= length (vBits tree) + 7)%nat; [|unfold MAX_SIZE in *].
  { apply Nat.Div0.div_le_upper_bound. lia. }
  pose proof (Nat.div_mod_eq (length (vBits tree) + 7) 8). lia.
Qed.

(** the positions the mask selects *)
Definition selected (vMatch : list bool) (n : nat) : list nat := base.filter (fun p => nth p vMatch false = true) (seq 0 n).

(** Not more transactions than a block can hold. *)
Definition tx_count_ok (n : nat) : Prop := (0 < n)%nat /\ Z.of_nat n <= MAX_BLOCK_WEIGHT / MIN_TRANSACTION_WEIGHT.

Lemma tx_count_bound n : tx_count_ok n -> (0 < n <= 2 ^ 31)%nat /\ Z.of_nat n <= 16666.
Proof.
  intros [H0 H1]. change (MAX_BLOCK_WEIGHT / MIN_TRANSACTION_WEIGHT) with 16666 in H1. split; [|exact H1]. split; [exact H0|].
  apply Nat2Z.inj_le. rewrite Nat2Z.inj_pow. change (Z.of_nat 2 ^ Z.of_nat 31) with 2147483648. lia.
Qed.

(** the tree [CPartialMerkleTree_new] builds *)
Definition new_tree `{Cpu} (l : list uint256) (m : list bool) : CPartialMerkleTree :=
  {| nTransactions := Z.of_nat (length l); vBits := (built l m (merkle_height l) 0).1;
     vHash := (built l m (merkle_height l) 0).2; fBad := false |}.

Lemma new_tree_eq `{Cpu} l m : tx_count_ok (length l) -> CPartialMerkleTree_new l m = Some (new_tree l m).
Proof.
  intros Hc. destruct (tx_count_bound _ Hc) as [Hn H1]. unfold CPartialMerkleTree_new.
  rewrite wrap_small by (unfold fits; lia). rewrite tree_height_spec by (exact Hn || lia).
  pose proof (height_le l (proj2 Hn)). pose proof (root_width l Hn).
  rewrite (TraverseAndBuild_built l m Hn _ 0) by lia. done.
Qed.

Lemma div8_pad k : (((k + ((k + 7) / 8 * 8 - k)) + 7) / 8 = (k + 7) / 8)%nat.
Proof.
  pose proof (Nat.div_mod_eq (k + 7) 8). pose proof (Nat.mod_upper_bound (k + 7) 8 ltac:(lia)).
  symmetry. apply (Nat.div_unique _ _ _ 7); lia.
Qed.

Lemma ExtractMatches_accept `{Cpu} tree idx root st : 0 < nTransactions tree <= 16666 ->
  (length (vHash tree) <= length (vBits tree))%nat -> zlen (vHash tree) <= nTransactions tree ->
  TraverseAndExtract tree (tree_height 33 0 (nTransactions tree)) 0 (extract_start tree idx) = (root, st) ->
  te_bad st = false -> ((nBitsUsed st + 7) / 8 = (length (vBits tree) + 7) / 8)%nat -> nHashUsed st = length (vHash tree) ->
  ExtractMatches tree idx = (root, vMatched st, vnIndex st).
Proof.
  intros Hn Hb Hh E Hbad Hbits Hhash. unfold ExtractMatches. rewrite E, Hbad, Hbits, Hhash, Z.eqb_refl.
  change (Z.quot MAX_BLOCK_WEIGHT MIN_TRANSACTION_WEIGHT) with 16666.
  destruct (Z.eqb_spec (nTransactions tree) 0); [lia|]. destruct (Z.gtb_spec (nTransactions tree) 16666); [lia|].
  destruct (Z.gtb_spec (zlen (vHash tree)) (nTransactions tree)); [lia|].
  destruct (Z.ltb_spec (zlen (vBits tree)) (zlen (vHash tree))); [lia|].
  destruct (Z.eqb_spec (Z.of_nat ((length (vBits tree) + 7) / 8)) ((zlen (vBits tree) + 7) / 8)) as [|Hne]; [done|].
  exfalso. apply Hne. rewrite Nat2Z.inj_div, Nat2Z.inj_add. done.
Qed.

Lemma extract_sent `{Cpu} l m : tx_count_ok (length l) -> Forall hash_ok l ->
  merkle_mutated Hash_pair (merkle_height l) l = false ->
  ExtractMatches (sent_tree (new_tree l m)) [] =
  (merkle_root Hash_pair l, map (fun p => nth p l null256) (selected m (length l)), map Z.of_nat (selected m (length l))).
Proof.
  intros Hc Hok Hmut. destruct (tx_count_bound _ Hc) as [Hn H1].
  pose proof (height_le l (proj2 Hn)) as H31. pose proof (root_width l Hn) as Hw.
  destruct (built_hashes l Hn Hok m (merkle_height l) 0 H31 ltac:(lia)) as (_ & HL & _).
  pose proof (built_bits l m Hn (merkle_height l) 0) as HB.
  set (tree := sent_tree _). assert (Hbits : vBits tree = (built l m (merkle_height l) 0).1 ++
    replicate ((length (built l m (merkle_height l) 0).1 + 7) / 8 * 8 - length (built l m (merkle_height l) 0).1)%nat false)
    by apply BytesToBits_BitsToBytes.
  destruct (extract_built l m Hn (not_mutated_distinct Hash_pair l (proj1 Hn) Hmut) tree eq_refl
    (merkle_height l) 0 (extract_start tree []) H31 ltac:(lia)) as (st & E & Hb & Hh & HM & HI & Hbad).
  { split; [rewrite Hbits; eexists; reflexivity|exists []; rewrite app_nil_r; done]. }
  unfold matched_of in HM, HI. rewrite (leaves_root l Hn) in *. rewrite length_seq in HL. fold (selected m (length l)) in HM, HI.
  cbn [extract_start nBitsUsed nHashUsed vMatched vnIndex te_bad Nat.add app] in *.
  rewrite <- HM, <- HI, root_node by (intros ->; apply (Nat.lt_irrefl 0), Hn).
  apply ExtractMatches_accept; [cbn; lia|rewrite Hbits, length_app; cbn [tree sent_tree new_tree vHash]; lia|cbn; lia| |exact Hbad| |].
  - rewrite <- E. f_equal. apply tree_height_spec; [exact Hn|lia..].
  - rewrite Hb, Hbits, length_app, length_replicate, div8_pad. done.
  - rewrite Hh. done.
Qed.

(** Partial Merkle trees: for the transactions of a block (at most 16666, no two equal
    neighbours in the tree) and any selection, the proof built from them, packed,
    sent and read back, is accepted: the receiver obtains the root of the tree, exactly the selected
    transaction ids, in order, and their positions. *)
Theorem merkleblock_roundtrip `{Cpu} (vTxid : list uint256) (vMatch : list bool) (rest : list Z) :
  tx_count_ok (length vTxid) -> Forall hash_ok vTxid ->
  merkle_mutated Hash_pair (merkle_height vTxid) vTxid = false ->
  exists sent tree, CPartialMerkleTree_new vTxid vMatch = Some sent /\
  unser_CPartialMerkleTree (ser_CPartialMerkleTree sent ++ rest) = Some (tree, rest) /\
  ExtractMatches tree [] =
  (merkle_root Hash_pair vTxid, map (fun p => nth p vTxid null256) (selected vMatch (length vTxid)),
   map Z.of_nat (selected vMatch (length vTxid))).
Proof.
  intros Hc Hok Hmut. exists (new_tree vTxid vMatch), (sent_tree (new_tree vTxid vMatch)).
  split; [apply new_tree_eq; exact Hc|]. split; [|apply extract_sent; assumption].
  destruct (tx_count_bound _ Hc) as [Hn H1]. pose proof (height_le vTxid (proj2 Hn)) as H31.
  pose proof (root_width vTxid Hn) as Hw.
  destruct (built_hashes vTxid Hn Hok vMatch (merkle_height vTxid) 0 H31 ltac:(lia)) as (HF & HL & HB).
  rewrite (leaves_root vTxid Hn), length_seq in *.
  apply unser_ser_tree; unfold new_tree; cbn [nTransactions vHash vBits]; unfold MAX_SIZE.
  - unfold fits. lia.
  - split; [unfold MAX_SIZE; lia|exact HF].
  - nia.
Qed.

(** ** Soundness of extraction *)

Section soundness.
Context `{Cpu}.
Variable l : list uint256.
Notation n := (length l).
Notation nd := (node Hash_pair l).
Hypothesis Hn : (0 < n <= 2 ^ 31)%nat.
Variable tree : CPartialMerkleTree.
Hypothesis Htree : nTransactions tree = Z.of_nat n.

Definition right_child (h pos : nat) : uint256 :=
  if (2 * pos + 1 <? width n h)%nat then nd h (2 * pos + 1) else nd h (2 * pos).

(** a pair the verifier hashed that is not the pair of children of the node it hashes to *)
Definition second_preimage (ps : list (uint256 * uint256)) : Prop :=
  exists a b h pos, In (a, b) ps /\ (pos < width n (S h))%nat /\
    (a, b) <> (nd h (2 * pos), right_child h pos) /\ Hash_pair a b = nd (S h) pos.

Definition claims_true (ids : list uint256) (idx : list Z) : Prop :=
  Forall2 (fun id i => exists p, i = Z.of_nat p /\ (p < n)%nat /\ nth p l null256 = id) ids idx.

(** what extraction adds to its state is true, or the verifier was given a second preimage *)
Definition extends (st st' : Extract) : Prop :=
  (exists ps, te_pairs st' = te_pairs st ++ ps) /\ (te_bad st' = false -> te_bad st = false).
Definition honest (st st' : Extract) : Prop :=
  claims_true (vMatched st) (vnIndex st) -> claims_true (vMatched st') (vnIndex st') \/ second_preimage (te_pairs st').

Lemma extends_refl st st' : te_pairs st' = te_pairs st -> te_bad st' = te_bad st -> extends st st'.
Proof. intros E1 E2. split; [exists []; rewrite app_nil_r; exact E1|congruence]. Qed.

Lemma second_preimage_mono st st' : extends st st' -> second_preimage (te_pairs st) -> second_preimage (te_pairs st').
Proof.
  intros [[ps ->] _] (a & b & h & pos & Hin & Hrest). exists a, b, h, pos. split; [apply in_app_iff; tauto|exact Hrest].
Qed.

Lemma honest_trans st1 st2 st3 : extends st2 st3 -> honest st1 st2 -> honest st2 st3 -> honest st1 st3.
Proof.
  intros He H1 H2 Hc. destruct (H1 Hc) as [Hc2|Hs]; [exact (H2 Hc2)|]. right. eapply second_preimage_mono; eassumption.
Qed.

Lemma use_hash_sound matched h pos st x st' : te_use_hash tree matched (Z.of_nat pos) st = (x, st') ->
  (matched = true -> h = 0%nat) -> (pos < width n h)%nat ->
  extends st st' /\ (te_bad st' = false -> x = nd h pos -> honest st st').
Proof.
  unfold te_use_hash. destruct (vHash tree !! nHashUsed st) as [hash|]; intros [= <- <-] Hm Hpos.
  - split; [apply extends_refl; done|]. intros _ Hx Hc. left. cbn [vMatched vnIndex]. destruct matched; [|exact Hc].
    specialize (Hm eq_refl). subst h. apply Forall2_app; [exact Hc|]. constructor; [|constructor]. exists pos. done.
  - split; [|done]. split; [exists []; rewrite app_nil_r; done|done].
Qed.

Lemma combine_sound h pos st0 st x y bad z st' : te_combine x y bad st = (z, st') -> (pos < width n (S h))%nat -> extends st0 st ->
  (te_bad st = false -> x = nd h (2 * pos) -> y = right_child h pos -> honest st0 st) ->
  extends st0 st' /\ (te_bad st' = false -> z = nd (S h) pos -> honest st0 st').
Proof.
  unfold te_combine. intros [= <- <-] Hpos [[ps Eps] Hbad] Hon. split.
  - split; [cbn [te_pairs]; exists (ps ++ [(x, y)]); rewrite Eps, app_assoc; done|].
    cbn [te_bad]. intros E. apply orb_false_iff in E as [E _]. apply Hbad, E.
  - cbn [te_bad]. intros E Hz Hc. apply orb_false_iff in E as [E _].
    destruct (decide ((x, y) = (nd h (2 * pos), right_child h pos))) as [Exy|Hne].
    + injection Exy as -> ->. destruct (Hon E eq_refl eq_refl Hc) as [Hc'|Hs]; [left; exact Hc'|right].
      destruct Hs as (a & b & k & q & Hin & Hrest). exists a, b, k, q. split; [apply in_app_iff; tauto|exact Hrest].
    + right. exists x, y, h, pos. cbn [te_pairs]. split; [apply in_app_iff; cbn; tauto|]. done.
Qed.

Lemma extract_sound h : forall pos st x st', (h <= 31)%nat -> (pos < width n h)%nat ->
  TraverseAndExtract tree h (Z.of_nat pos) st = (x, st') ->
  extends st st' /\ (te_bad st' = false -> x = nd h pos -> honest st st').
Proof.
  induction h as [|h IH]; intros pos st x st' Hh Hpos E; cbn [TraverseAndExtract] in E;
    destruct (vBits tree !! nBitsUsed st) as [b|]; try (injection E as <- <-; split; [split; [exists []; rewrite app_nil_r; done|done]|done]).
  - apply (use_hash_sound _ 0 _ _ _ _ E); done.
  - fold (bit_read st) in E. destruct b; cbn [negb] in E.
    2: { apply (use_hash_sound _ (S h) _ _ _ _ E); done. }
    rewrite Htree, (child_test l Hn) in E by (assumption || lia).
    destruct (child_pos l Hn h pos Hpos) as (E1 & E2 & Hlt). rewrite E1, E2 in E.
    destruct (TraverseAndExtract tree h (Z.of_nat (2 * pos)) (bit_read st)) as [xl st1] eqn:El.
    destruct (IH (2 * pos)%nat _ _ _ ltac:(lia) Hlt El) as [Hex1 Hon1]. change (extends st st1) in Hex1. change (te_bad st1 = false -> xl = nd h (2 * pos) -> honest st st1) in Hon1.
    destruct (Nat.ltb_spec (2 * pos + 1) (width n h)) as [Hr|Hr].
    + destruct (TraverseAndExtract tree h (Z.of_nat (2 * pos + 1)) st1) as [xr st2] eqn:Er.
      destruct (IH (2 * pos + 1)%nat _ _ _ ltac:(lia) Hr Er) as [Hex2 Hon2].
      eapply combine_sound; [exact E|exact Hpos| |].
      * destruct Hex1 as [[p1 Q1] B1], Hex2 as [[p2 Q2] B2]. split; [exists (p1 ++ p2); rewrite Q2, Q1, app_assoc; done|tauto].
      * intros Hb -> Hy. unfold right_child in Hy. destruct (Nat.ltb_spec (2 * pos + 1) (width n h)); [|lia].
        eapply honest_trans; [exact Hex2|apply Hon1; [apply Hex2, Hb|done]|apply Hon2; assumption].
    + eapply combine_sound; [exact E|exact Hpos|exact Hex1|]. intros Hb -> _. apply Hon1; done.
Qed.
End soundness.

(** the state of the verifier after the traversal *)
Definition extraction `{Cpu} (tree : CPartialMerkleTree) : uint256 * Extract :=
  TraverseAndExtract tree (tree_height 33 0 (nTransactions tree)) 0 (extract_start tree []).

(** Proofs and their own tree: whatever proof a receiver is given, if its transaction count is the length of a list of
    ids and extraction returns the root of the BLAKE3 tree over that list, then every extracted id is
    the one at the extracted position, unless one of the pairs the receiver hashed is a second preimage of a node of the tree. *)
Theorem merkleblock_sound `{Cpu} (vTxid : list uint256) (tree : CPartialMerkleTree) (ids : list uint256) (idx : list Z) :
  tx_count_ok (length vTxid) -> Forall hash_ok vTxid -> nTransactions tree = Z.of_nat (length vTxid) ->
  merkle_root Hash_pair vTxid <> null256 ->
  ExtractMatches tree [] = (merkle_root Hash_pair vTxid, ids, idx) ->
  claims_true vTxid ids idx \/ second_preimage vTxid (te_pairs (extraction tree).2).
Proof.
  intros Hc Hok Htree Hnull E. destruct (tx_count_bound _ Hc) as [Hn H1].
  unfold ExtractMatches in E. fold (extraction tree) in E.
  repeat match type of E with (if ?b then _ else _) = _ => destruct b; [congruence|] end.
  assert (Ext : TraverseAndExtract tree (merkle_height vTxid) (Z.of_nat 0) (extract_start tree []) = extraction tree).
  { unfold extraction. rewrite Htree, (tree_height_spec vTxid Hn) by lia. done. }
  destruct (extraction tree) as [root st]. cbn [snd]. destruct (te_bad st) eqn:Hbad; [congruence|].
  repeat match type of E with (if ?b then _ else _) = _ => destruct b; [congruence|] end.
  injection E as -> <- <-. pose proof (height_le vTxid (proj2 Hn)). pose proof (root_width vTxid Hn).
  destruct (extract_sound vTxid Hn tree Htree _ 0 _ _ _ ltac:(eassumption) ltac:(lia) Ext) as [_ Hon].
  apply Hon; [exact Hbad| |constructor]. apply root_node. intros ->. apply (Nat.lt_irrefl 0), Hn.
Qed.

(** ** Extraction and the root of a block *)

Lemma root_pair H l : (1 < length l)%nat ->
  exists p, In p (merkle_pairs H (merkle_height l) l) /\ merkle_root H l = H p.1 p.2.
Proof.
  intros Hl. assert (Hne : l <> []) by (intros ->; cbn in Hl; lia). pose proof (level_root H l Hne) as Hroot.
  rewrite (merkle_height_step H l Hl) in *. set (k := merkle_height (pair_up H l)) in *.
  replace (S k) with (k + 1)%nat in * by lia. rewrite level_add in Hroot. cbn [level] in Hroot.
  assert (Hp : forall p, In p (pairs_of (level H k l)) -> In p (merkle_pairs H (k + 1) l)).
  { intros p Hp. apply pairs_above. cbn. rewrite app_nil_r. exact Hp. }
  destruct (level H k l) as [|a [|b t]]; [discriminate Hroot|..]; injection Hroot as Ha;
    [exists (a, a)|exists (a, b)]; (split; [apply Hp; left; reflexivity|symmetry; exact Ha]).
Qed.

(** a pair hashed with BLAKE3 and a pair hashed with double SHA-256 give the same hash *)
Definition cross_collision `{Cpu} (ps qs : list (uint256 * uint256)) : Prop :=
  exists p q, In p ps /\ In q qs /\ Hash_pair p.1 p.2 = sha256d_pair q.1 q.2.

Lemma use_hash_matched tree matched pos st x st' : te_use_hash tree matched pos st = (x, st') -> te_bad st' = false ->
  vMatched st' = vMatched st ++ (if matched then [x] else []).
Proof.
  unfold te_use_hash. destruct (vHash tree !! nHashUsed st); intros [= <- <-] Hbad; [|discriminate Hbad].
  destruct matched; [done|]. cbn [vMatched]. rewrite app_nil_r. done.
Qed.

(** what a traversal from the top returns: a stored hash, or the hash of the last pair *)
Lemma extraction_top `{Cpu} tree h root st : TraverseAndExtract tree h 0 (extract_start tree []) = (root, st) -> te_bad st = false ->
  vMatched st = [] \/ (h = 0%nat /\ vMatched st = [root]) \/ exists p, In p (te_pairs st) /\ root = Hash_pair p.1 p.2.
Proof.
  assert (Hpair : forall x y bad st0 z st1, te_combine x y bad st0 = (z, st1) -> exists p, In p (te_pairs st1) /\ z = Hash_pair p.1 p.2).
  { intros x y bad st0 z st1 [= <- <-]. exists (x, y). split; [apply in_app_iff; right; left; done|done]. }
  intros E Hbad. destruct h as [|h]; cbn [TraverseAndExtract] in E;
    (destruct (vBits tree !! nBitsUsed (extract_start tree [])) as [b|]; [|injection E as <- <-; discriminate Hbad]).
  - pose proof (use_hash_matched _ _ _ _ _ _ E Hbad) as Em. cbn in Em. destruct b; [right; left|left]; done.
  - destruct b; cbn [negb] in E; [|left; exact (use_hash_matched _ _ _ _ _ _ E Hbad)].
    right. right. destruct (TraverseAndExtract tree h (u32 (0 * 2)) _) as [xl st1].
    destruct (u32 (0 * 2 + 1) <? CalcTreeWidth (nTransactions tree) h); [|exact (Hpair _ _ _ _ _ _ E)].
    destruct (TraverseAndExtract tree h (u32 (0 * 2 + 1)) st1) as [xr st2]. exact (Hpair _ _ _ _ _ _ E).
Qed.

Lemma tree_height_zero f n : 0 < n -> fits 32 n -> tree_height (S f) 0 n = 0%nat -> n = 1.
Proof.
  intros Hn Hf Hh. cbn [tree_height] in Hh. unfold CalcTreeWidth in Hh at 1. change (Z.shiftl 1 (Z.of_nat 0)) with 1 in Hh.
  rewrite Z.add_simpl_r, wrap_small, Z.shiftr_0_r in Hh by exact Hf. destruct (Z.gtb_spec n 1) as [H1|H1]; [|lia].
  exfalso. revert Hh. assert (Hge : forall g k, (0 < k)%nat -> tree_height g k n <> 0%nat).
  { induction g as [|g IH]; intros k Hk; cbn [tree_height]; [lia|]. case_match; [apply IH; lia|lia]. }
  apply Hge. lia.
Qed.

(** C30: Partial Merkle trees do not reach the roots of blocks.  A proof hashes its nodes with [Hash], a BLAKE3, and [hashMerkleRoot] is a tree of double
    SHA-256: so whatever proof is presented for a block of two or more transactions, with whatever transaction count, flags and hashes, if extraction
    returns the Merkle root of the block (as verification of a proof demands), then it extracts no transaction, or the proof claims a block of a single
    transaction whose id is the root itself, or a pair the receiver hashed with BLAKE3 has the hash of a pair of the block's tree under
    double SHA-256.  No membership proof of such a block verifies, the ones the node makes included. *)
Theorem merkleblock_block_root `{Cpu} (vTxid : list uint256) (tree : CPartialMerkleTree) (ids : list uint256) (idx : list Z) :
  (1 < length vTxid)%nat -> Forall hash_ok vTxid -> fits 32 (nTransactions tree) ->
  (ComputeMerkleRoot vTxid).1 <> null256 ->
  ExtractMatches tree [] = ((ComputeMerkleRoot vTxid).1, ids, idx) ->
  ids = [] \/ (nTransactions tree = 1 /\ ids = [(ComputeMerkleRoot vTxid).1]) \/
  cross_collision (te_pairs (extraction tree).2) (merkle_pairs sha256d_pair (merkle_height vTxid) vTxid).
Proof.
  intros Hl Hok Hf. rewrite (ComputeMerkleRoot_spec vTxid Hok). cbn [fst]. intros Hnull E.
  destruct (root_pair sha256d_pair vTxid Hl) as (q & Hq & Eq).
  unfold ExtractMatches in E. fold (extraction tree) in E. destruct (Z.eqb_spec (nTransactions tree) 0) as [|Hn0]; [congruence|].
  repeat match type of E with (if ?b then _ else _) = _ => destruct b; [congruence|] end.
  destruct (extraction tree) as [root st] eqn:Ext. cbn [snd]. destruct (te_bad st) eqn:Hbad; [congruence|].
  repeat match type of E with (if ?b then _ else _) = _ => destruct b; [congruence|] end.
  injection E as -> <- <-. destruct (extraction_top _ _ _ _ Ext Hbad) as [Hm|[[Hh Hm]|(p & Hp & Ep)]]; [left; exact Hm| |].
  - right. left. split; [|exact Hm]. apply (tree_height_zero 32); [unfold fits in Hf; lia|exact Hf|exact Hh].
  - right. right. exists p, q. split; [exact Hp|]. split; [exact Hq|]. rewrite <- Ep. exact Eq.
Qed.

(** *** Concrete inputs *)

Lemma sample_count : tx_count_ok (length sample_hashes).
Proof. split; [cbn; lia|vm_compute; congruence]. Qed.

Lemma sample_hashes_ok : Forall hash_ok sample_hashes.
Proof. repeat constructor; vm_compute; congruence. Qed.

Lemma merkleblock_roundtrip_witness :
  exists sent tree, @CPartialMerkleTree_new portable_cpu sample_hashes [false; true; false] = Some sent /\
  unser_CPartialMerkleTree (ser_CPartialMerkleTree sent ++ []) = Some (tree, []) /\
  @ExtractMatches portable_cpu tree [] =
  (merkle_root (@Hash_pair portable_cpu) sample_hashes, [replicate 32 2], [1]).
Proof.
  exact (@merkleblock_roundtrip portable_cpu sample_hashes [false; true; false] [] sample_count sample_hashes_ok
    ltac:(vm_compute; reflexivity)).
Defined.

Lemma merkleblock_sound_witness :
  let tree := @new_tree portable_cpu sample_hashes [false; true; false] in
  claims_true sample_hashes [replicate 32 2] [1] \/
  @second_preimage portable_cpu sample_hashes (te_pairs (@extraction portable_cpu tree).2).
Proof.
  apply (@merkleblock_sound portable_cpu sample_hashes _ _ _ sample_count sample_hashes_ok).
  - vm_compute. reflexivity.
  - apply (bool_decide_eq_false_1 _). vm_compute. reflexivity.
  - vm_compute. reflexivity.
Defined.

(** a proof that claims one transaction, whose id is the root of the block *)
Lemma merkleblock_block_root_witness :
  let root := (ComputeMerkleRoot sample_hashes).1 in
  let tree := {| nTransactions := 1; vBits := true :: replicate 7 false; vHash := [root]; fBad := false |} in
  [root] = [] \/ (nTransactions tree = 1 /\ [root] = [root]) \/
  @cross_collision portable_cpu (te_pairs (@extraction portable_cpu tree).2)
    (merkle_pairs sha256d_pair (merkle_height sample_hashes) sample_hashes).
Proof.
  intros root tree. apply (@merkleblock_block_root portable_cpu sample_hashes tree [root] [0]).
  - cbn. lia.
  - exact sample_hashes_ok.
  - unfold fits. cbn. lia.
  - apply (bool_decide_eq_false_1 _). vm_compute. reflexivity.
  - vm_compute. reflexivity.
Defined.
