(* ===== verification/ChainParams.v ===== *)
(** * The networks

    src/kernel/chainparams.cpp: the genesis block, and the parameters of the main network, the
    two test networks, signet and regtest, each built as its constructor builds it.  The
    checks that the constructors assert are theorems. *)

From Stdlib Require Import ZArith Lia Bool String Ascii.
From stdpp Require Import base option list.
From S2P Require Import Prelude ArithUint Uint256 Arith256 Binary64 Params Blake3 Sha256 Sha256Proofs Hashes Serialize Primitives Opcodes Script Merkle.
Local Open Scope Z_scope.
Local Open Scope adonai_scope.

(** ** Literals *)

Definition bytes_of_string (s : string) : list Z := map (fun c => Z.of_N (N_of_ascii c)) (list_ascii_of_string s).

(** [uint256{"..."}]; a malformed literal does not compile *)
Definition hex256 (s : string) : uint256 := default uint256_null (uint256_of_hex s).

(** ["..."_hex] *)
Fixpoint hex_bytes (s : string) : list Z :=
  match s with
  | String a (String b s) =>
      match ConstevalHexDigit a, ConstevalHexDigit b with
      | Some x, Some y => (x * 16 + y) :: hex_bytes s
      | _, _ => []
      end
  | _ => []
  end.

(** ** The genesis block *)

Definition coinbase_input (sig : CScript) : CTxIn :=
  {| prevout := COutPoint_null; scriptSig := sig; nSequence := SEQUENCE_FINAL; scriptWitness := [] |}.

Definition CreateGenesisBlock_of (pszTimestamp : list Z) (genesisOutputScript : CScript) (time nonce bits ver genesisReward : Z) : CBlock :=
  let txNew := {|
    version := 1;
    vin := [coinbase_input (push_data (push_num (push_int64 [] 486604799) 4) pszTimestamp)];
    vout := [{| nValue := genesisReward; scriptPubKey := genesisOutputScript |}];
    nLockTime := 0 |} in
  let vtx := [txNew] in
  let genesis := {|
    nVersion := ver; hashPrevBlock := uint256_null; hashMerkleRoot := uint256_null;
    nTime := time; nBits := bits; nNonce := nonce |} in
  {| header := {| nVersion := ver; hashPrevBlock := uint256_null;
                  hashMerkleRoot := (BlockMerkleRoot {| header := genesis; vtx := vtx |}).1;
                  nTime := time; nBits := bits; nNonce := nonce |};
     vtx := vtx |}.

Definition genesis_timestamp : list Z := bytes_of_string "New world order is approaching.".
Definition genesis_pubkey : list Z := hex_bytes
  "04678afdb0fe5548271967f1a67130b7105cd6a828e03909a67962e0ea1f61deb649f6bc3f4cef38c4f35504e51ec112de5c384df7ba0b8d578a4c702b6bf11d5f".
Definition CreateGenesisBlock (time nonce bits ver genesisReward : Z) : CBlock :=
  CreateGenesisBlock_of genesis_timestamp (push_data [] genesis_pubkey ++ [OP_CHECKSIG]) time nonce bits ver genesisReward.

Section networks.
Context `{Cpu}.

(** [MineGenesis]: the search as a loop with fuel; [None] when it has not ended yet.  The block hash of a header
    with another nonce or time is all it computes; the rest is logging. *)
Definition with_nonce (b : CBlockHeader) (time nonce : Z) : CBlockHeader :=
  {| nVersion := nVersion b; hashPrevBlock := hashPrevBlock b; hashMerkleRoot := hashMerkleRoot b;
     nTime := time; nBits := nBits b; nNonce := nonce |}.
Definition target_of (bits : Z) : arith_uint256 := (SetCompact bits).1.1.
Fixpoint mine_loop (fuel : nat) (target : arith_uint256) (b : CBlockHeader) : option CBlockHeader :=
  match fuel with
  | O => None
  | S fuel =>
      if negb (arith_gt (UintToArith256 (CBlockHeader_GetHash b)) target) then Some b
      else
        let nonce := u32 (nNonce b + 1) in
        mine_loop fuel target (with_nonce b (if nonce =? 0 then u32 (nTime b + 1) else nTime b) nonce)
  end.
Definition MineGenesis (fuel : nat) (b : CBlockHeader) : option CBlockHeader :=
  let b := if nNonce b =? 2 ^ 32 - 1 then with_nonce b (u32 (nTime b + 1)) 0 else b in
  mine_loop fuel (target_of (nBits b)) b.

(** ** CChainParams *)

Inductive ChainType : Type := MAIN | TESTNET | SIGNET | REGTEST | TESTNET4.

#[export] Instance ChainType_eq_dec : EqDecision ChainType.
Proof. solve_decision. Defined.

Record Base58Prefixes : Type := {
  PUBKEY_ADDRESS : list Z; SCRIPT_ADDRESS : list Z; SECRET_KEY : list Z; EXT_PUBLIC_KEY : list Z; EXT_SECRET_KEY : list Z }.

Record AssumeutxoData : Type := { au_height : Z; hash_serialized : uint256; au_chain_tx_count : Z; blockhash : uint256 }.

Record CChainParams : Type := {
  m_chain_type : ChainType;
  consensus : Params;
  pchMessageStart : list Z;
  nDefaultPort : Z;
  nPruneAfterHeight : Z;
  m_assumed_blockchain_size : Z;
  m_assumed_chain_state_size : Z;
  base58Prefixes : Base58Prefixes;
  bech32_hrp : string;
  genesis : CBlock;
  fDefaultConsistencyChecks : bool;
  m_is_mockable_chain : bool;
  m_assumeutxo_data : list AssumeutxoData;
}.

Definition deployments (testdummy taproot : BIP9Deployment) : DeploymentPos -> BIP9Deployment := fun pos =>
  match pos with DEPLOYMENT_TESTDUMMY => testdummy | DEPLOYMENT_TAPROOT => taproot end.
Definition deployment (b start timeout threshold_ period_ : Z) : BIP9Deployment :=
  {| bit := b; nStartTime := start; nTimeout := timeout; min_activation_height := 0; threshold := threshold_; period := period_ |}.

Definition xpub_main : list Z := [0x04; 0x88; 0xB2; 0x1E].
Definition xprv_main : list Z := [0x04; 0x88; 0xAD; 0xE4].
Definition xpub_test : list Z := [0x04; 0x35; 0x87; 0xCF].
Definition xprv_test : list Z := [0x04; 0x35; 0x83; 0x94].
Definition prefixes_test : Base58Prefixes :=
  {| PUBKEY_ADDRESS := [111]; SCRIPT_ADDRESS := [196]; SECRET_KEY := [239]; EXT_PUBLIC_KEY := xpub_test; EXT_SECRET_KEY := xprv_test |}.

(** *** Main *)

Definition main_genesis : CBlock := CreateGenesisBlock 1723502400 1534261 0x1e0fffff 1 (50 * COIN).

Definition main_consensus : Params := {|
  signet_blocks := false;
  signet_challenge := [];
  nSubsidyHalvingInterval := 2803200;
  script_flag_exceptions := [];
  BIP34Height := 0;
  BIP34Hash := uint256_null;
  BIP65Height := 0;
  BIP66Height := 0;
  CSVHeight := 0;
  SegwitHeight := 0;
  MinBIP9WarningHeight := 0;
  powLimit := hex256 "00000fffffffffffffffffffffffffffffffffffffffffffffffffffffffffff";
  nPowTargetSpacing := 45;
  nPowAveragingWindow := 60;
  powSpacingRamps := [(0, 120); (3000, 90); (6000, 60); (10000, 45)];
  fPowAllowMinDifficultyBlocks := false;
  enforce_BIP94 := false;
  fPowNoRetargeting := false;
  nSubsidyInitial := 18 * COIN;
  nCoinbaseMaturity := Some 200;
  vDeployments := deployments (deployment 28 NEVER_ACTIVE NO_TIMEOUT 0 2016) (deployment 2 NEVER_ACTIVE NO_TIMEOUT 0 2016);
  nMinimumChainWork := uint256_null;
  defaultAssumeValid := uint256_null;
  hashGenesisBlock := CBlockHeader_GetHash (header main_genesis);
|}.

Definition CMainParams : CChainParams := {|
  m_chain_type := MAIN;
  consensus := main_consensus;
  pchMessageStart := [0xAD; 0x0D; 0x0A; 0x11];
  nDefaultPort := 17001;
  nPruneAfterHeight := 100000;
  m_assumed_blockchain_size := 720;
  m_assumed_chain_state_size := 14;
  base58Prefixes := {| PUBKEY_ADDRESS := [23]; SCRIPT_ADDRESS := [83]; SECRET_KEY := [153]; EXT_PUBLIC_KEY := xpub_main; EXT_SECRET_KEY := xprv_main |};
  bech32_hrp := "ad";
  genesis := main_genesis;
  fDefaultConsistencyChecks := false;
  m_is_mockable_chain := false;
  m_assumeutxo_data := [];
|}.

(** the two [assert]s of the constructor *)
Definition main_asserts : bool :=
  blob_eqb (CBlockHeader_GetHash (header main_genesis)) (hex256 "00000d250c9c1bfdfd933cabc32268b39d1556f6a29db879025019976f287d1e") &&
  blob_eqb (hashMerkleRoot (header main_genesis)) (hex256 "3c27610446c91576f0f18fa4e758b72565f678ae063346fe6d271d6d850783b6").

(** *** Testnet *)

Definition testnet_genesis : CBlock := CreateGenesisBlock 1296688602 414098458 0x1d00ffff 1 (50 * COIN).

(** [SCRIPT_VERIFY_NONE] *)
Definition testnet_consensus : Params := {|
  signet_blocks := false;
  signet_challenge := [];
  nSubsidyHalvingInterval := 1000000;
  script_flag_exceptions := [(hex256 "00000000dd30457c001f4095d208cc1296b0eed002427aa599874af7a432b105", 0)];
  BIP34Height := 21111;
  BIP34Hash := hex256 "0000000023b3a96d3484e5abb3755c413e7d41500f8e2a5c3f0dd01299cd8ef8";
  BIP65Height := 581885;
  BIP66Height := 330776;
  CSVHeight := 770112;
  SegwitHeight := 834624;
  MinBIP9WarningHeight := 836640;
  powLimit := hex256 "00000000ffffffffffffffffffffffffffffffffffffffffffffffffffffffff";
  nPowTargetSpacing := 10 * 60;
  nPowAveragingWindow := 60;
  powSpacingRamps := [];
  fPowAllowMinDifficultyBlocks := true;
  enforce_BIP94 := false;
  fPowNoRetargeting := false;
  nSubsidyInitial := 18 * COIN;
  nCoinbaseMaturity := None;
  vDeployments := deployments (deployment 28 NEVER_ACTIVE NO_TIMEOUT 1512 2016) (deployment 2 1619222400 1628640000 1512 2016);
  nMinimumChainWork := hex256 "0000000000000000000000000000000000000000000015f5e0c9f13455b0eb17";
  defaultAssumeValid := uint256_null;
  hashGenesisBlock := CBlockHeader_GetHash (header testnet_genesis);
|}.

Definition CTestNetParams : CChainParams := {|
  m_chain_type := TESTNET;
  consensus := testnet_consensus;
  pchMessageStart := [0xAD; 0x0E; 0xA1; 0x01];
  nDefaultPort := 18333;
  nPruneAfterHeight := 1000;
  m_assumed_blockchain_size := 200;
  m_assumed_chain_state_size := 19;
  base58Prefixes := prefixes_test;
  bech32_hrp := "tb";
  genesis := testnet_genesis;
  fDefaultConsistencyChecks := false;
  m_is_mockable_chain := false;
  m_assumeutxo_data := [{| au_height := 2500000;
    hash_serialized := hex256 "f841584909f68e47897952345234e37fcd9128cd818f41ee6c3ca68db8071be7"; au_chain_tx_count := 66484552;
    blockhash := hex256 "0000000000000093bcb68c03a9a168ae252572d348a2eaeba2cdf9231d73206f" |}];
|}.

(** *** Testnet 4 *)

Definition testnet4_genesis : CBlock :=
  CreateGenesisBlock_of (bytes_of_string "03/May/2024 000000000000000000001ebd58c244970b3aa9d783bb001011fbe8ea8e98e00e")
    (push_data [] (hex_bytes "000000000000000000000000000000000000000000000000000000000000000000") ++ [OP_CHECKSIG])
    1714777860 393743547 0x1d00ffff 1 (50 * COIN).

Definition testnet4_consensus : Params := {|
  signet_blocks := false;
  signet_challenge := [];
  nSubsidyHalvingInterval := 1000000;
  script_flag_exceptions := [];
  BIP34Height := 1;
  BIP34Hash := uint256_null;
  BIP65Height := 1;
  BIP66Height := 1;
  CSVHeight := 1;
  SegwitHeight := 1;
  MinBIP9WarningHeight := 0;
  powLimit := hex256 "00000000ffffffffffffffffffffffffffffffffffffffffffffffffffffffff";
  nPowTargetSpacing := 10 * 60;
  nPowAveragingWindow := 60;
  powSpacingRamps := [];
  fPowAllowMinDifficultyBlocks := true;
  enforce_BIP94 := true;
  fPowNoRetargeting := false;
  nSubsidyInitial := 18 * COIN;
  nCoinbaseMaturity := None;
  vDeployments := deployments (deployment 28 NEVER_ACTIVE NO_TIMEOUT 1512 2016) (deployment 2 ALWAYS_ACTIVE NO_TIMEOUT 1512 2016);
  nMinimumChainWork := hex256 "0000000000000000000000000000000000000000000001d6dce8651b6094e4c1";
  defaultAssumeValid := hex256 "0000000000003ed4f08dbdf6f7d6b271a6bcffce25675cb40aa9fa43179a89f3";
  hashGenesisBlock := CBlockHeader_GetHash (header testnet4_genesis);
|}.

(** [m_assumeutxo_data = {{}}]: one entry with default values *)
Definition CTestNet4Params : CChainParams := {|
  m_chain_type := TESTNET4;
  consensus := testnet4_consensus;
  pchMessageStart := [0x1c; 0x16; 0x3f; 0x28];
  nDefaultPort := 48333;
  nPruneAfterHeight := 1000;
  m_assumed_blockchain_size := 11;
  m_assumed_chain_state_size := 1;
  base58Prefixes := prefixes_test;
  bech32_hrp := "tb";
  genesis := testnet4_genesis;
  fDefaultConsistencyChecks := false;
  m_is_mockable_chain := false;
  m_assumeutxo_data := [{| au_height := 0; hash_serialized := uint256_null; au_chain_tx_count := 0; blockhash := uint256_null |}];
|}.

(** *** Signet *)

Definition signet_default_challenge : list Z := hex_bytes "512103aaaaaaaaaaaaaaaaaaaaaaaaaaaaaaaaaaaaaaaaaaaaaaaaaaaaaaaaaaaaaa51ae".

(** [mine] is the fuel of [MineGenesis] when [-minegenesis] is set; the genesis hash is then left null *)
Definition signet_genesis (mine : option nat) : option CBlock :=
  match mine with
  | None => Some main_genesis
  | Some fuel => h ← MineGenesis fuel (header main_genesis); Some {| header := h; vtx := vtx main_genesis |}
  end.

Definition signet_consensus (challenge : list Z) (genesis_hash : uint256) : Params := {|
  signet_blocks := true;
  signet_challenge := challenge;
  nSubsidyHalvingInterval := 1000000;
  script_flag_exceptions := [];
  BIP34Height := 1;
  BIP34Hash := uint256_null;
  BIP65Height := 1;
  BIP66Height := 1;
  CSVHeight := 1;
  SegwitHeight := 1;
  MinBIP9WarningHeight := 0;
  powLimit := hex256 "7fffffffffffffffffffffffffffffffffffffffffffffffffffffffffffffff";
  nPowTargetSpacing := 60;
  nPowAveragingWindow := 60;
  powSpacingRamps := [];
  fPowAllowMinDifficultyBlocks := true;
  enforce_BIP94 := false;
  fPowNoRetargeting := false;
  nSubsidyInitial := 18 * COIN;
  nCoinbaseMaturity := None;
  vDeployments := deployments (deployment 28 NEVER_ACTIVE NO_TIMEOUT 1815 2016) (deployment 2 ALWAYS_ACTIVE NO_TIMEOUT 1815 2016);
  nMinimumChainWork := uint256_null;
  defaultAssumeValid := uint256_null;
  hashGenesisBlock := genesis_hash;
|}.

(** [None]: mining has not ended *)
Definition SigNetParams (challenge : option (list Z)) (mine : option nat) : option CChainParams :=
  let challenge_bin := default signet_default_challenge challenge in
  g ← signet_genesis mine;
  Some {|
    m_chain_type := SIGNET;
    consensus := signet_consensus challenge_bin (if mine then uint256_null else CBlockHeader_GetHash (header g));
    pchMessageStart := take 4 (HashWriter_GetHash (HashWriter_write HashWriter_init (ser_bytes challenge_bin)));
    nDefaultPort := 28837;
    nPruneAfterHeight := 1000;
    m_assumed_blockchain_size := 0;
    m_assumed_chain_state_size := 0;
    base58Prefixes := {| PUBKEY_ADDRESS := [65]; SCRIPT_ADDRESS := [125]; SECRET_KEY := [153]; EXT_PUBLIC_KEY := xpub_main; EXT_SECRET_KEY := xprv_main |};
    bech32_hrp := "sado";
    genesis := g;
    fDefaultConsistencyChecks := false;
    m_is_mockable_chain := false;
    m_assumeutxo_data := [] |}.

(** *** Regtest *)

Definition regtest_genesis : CBlock := CreateGenesisBlock 1754122572 2 0x207fffff 1 (50 * COIN).

Record VersionBitsParameters : Type := { start_time : Z; timeout : Z; vb_min_activation_height : Z }.
Record RegTestOptions : Type := {
  version_bits_parameters : list (DeploymentPos * VersionBitsParameters);
  activation_heights : list (BuriedDeployment * Z);
  fastprune : bool;
  enforce_bip94 : bool;
}.

(** the last height given for a deployment, or the default *)
Definition buried_height (opts : RegTestOptions) (dep : BuriedDeployment) (dflt : Z) : Z :=
  foldl (fun h o => if decide (o.1 = dep) then o.2 else h) dflt (activation_heights opts).
Definition override_deployment (opts : RegTestOptions) (pos : DeploymentPos) (d : BIP9Deployment) : BIP9Deployment :=
  foldl (fun d o => if decide (o.1 = pos) then
    {| bit := bit d; nStartTime := start_time o.2; nTimeout := timeout o.2; min_activation_height := vb_min_activation_height o.2;
       threshold := threshold d; period := period d |} else d) d (version_bits_parameters opts).

Definition regtest_consensus (opts : RegTestOptions) : Params := {|
  signet_blocks := false;
  signet_challenge := [];
  nSubsidyHalvingInterval := 150;
  script_flag_exceptions := [];
  BIP34Height := buried_height opts DEPLOYMENT_HEIGHTINCB 1;
  BIP34Hash := uint256_null;
  BIP65Height := buried_height opts DEPLOYMENT_CLTV 1;
  BIP66Height := buried_height opts DEPLOYMENT_DERSIG 1;
  CSVHeight := buried_height opts DEPLOYMENT_CSV 1;
  SegwitHeight := buried_height opts DEPLOYMENT_SEGWIT 0;
  MinBIP9WarningHeight := 0;
  powLimit := hex256 "7fffffffffffffffffffffffffffffffffffffffffffffffffffffffffffffff";
  nPowTargetSpacing := 45;
  nPowAveragingWindow := 60;
  powSpacingRamps := [];
  fPowAllowMinDifficultyBlocks := true;
  enforce_BIP94 := enforce_bip94 opts;
  fPowNoRetargeting := true;
  nSubsidyInitial := 18 * COIN;
  nCoinbaseMaturity := None;
  vDeployments := fun pos => override_deployment opts pos
    (deployments (deployment 28 0 NO_TIMEOUT 108 144) (deployment 2 ALWAYS_ACTIVE NO_TIMEOUT 108 144) pos);
  nMinimumChainWork := uint256_null;
  defaultAssumeValid := uint256_null;
  hashGenesisBlock := CBlockHeader_GetHash (header regtest_genesis);
|}.

Definition regtest_asserts : bool :=
  blob_eqb (CBlockHeader_GetHash (header regtest_genesis)) (hex256 "4c4efcd0ae575f920e8fb827b9d4ccb552d53ab573726afa6788394bb2753492") &&
  blob_eqb (hashMerkleRoot (header regtest_genesis)) (hex256 "3c27610446c91576f0f18fa4e758b72565f678ae063346fe6d271d6d850783b6").

Definition CRegTestParams (opts : RegTestOptions) : CChainParams := {|
  m_chain_type := REGTEST;
  consensus := regtest_consensus opts;
  pchMessageStart := [0xfa; 0xbf; 0xb5; 0xda];
  nDefaultPort := 18444;
  nPruneAfterHeight := if fastprune opts then 100 else 1000;
  m_assumed_blockchain_size := 0;
  m_assumed_chain_state_size := 0;
  base58Prefixes := prefixes_test;
  bech32_hrp := "rado";
  genesis := regtest_genesis;
  fDefaultConsistencyChecks := true;
  m_is_mockable_chain := true;
  m_assumeutxo_data := [
    {| au_height := 110; hash_serialized := hex256 "b952555c8ab81fec46f3d4253b7af256d766ceb39fb7752b9d18cdf4a0141327"; au_chain_tx_count := 111;
       blockhash := hex256 "6affe030b7965ab538f820a56ef56c8149b7dc1d1c144af57113be080db7c397" |};
    {| au_height := 200; hash_serialized := hex256 "17dcc016d188d16068907cdeb38b75691a118d43053b8cd6a25969419381d13a"; au_chain_tx_count := 201;
       blockhash := hex256 "385901ccbd69dff6bbd00065d01fb8a9e464dede7cfe0372443884f9b1dcf6b9" |};
    {| au_height := 299; hash_serialized := hex256 "d2b051ff5e8eef46520350776f4100dd710a63447a8e01d917e92e79751a63e2"; au_chain_tx_count := 334;
       blockhash := hex256 "7cc695046fec709f8c9394b6f928f81e81fd3ac20977bb68760fa1faa7916ea2" |}];
|}.

Definition GetAvailableSnapshotHeights (params : CChainParams) : list Z := map au_height (m_assumeutxo_data params).
Definition AssumeutxoForHeight (params : CChainParams) (height : Z) : option AssumeutxoData :=
  List.find (fun d => au_height d =? height) (m_assumeutxo_data params).
Definition AssumeutxoForBlockhash (params : CChainParams) (h : uint256) : option AssumeutxoData :=
  List.find (fun d => blob_eqb (blockhash d) h) (m_assumeutxo_data params).

Definition default_regtest : RegTestOptions :=
  {| version_bits_parameters := []; activation_heights := []; fastprune := false; enforce_bip94 := false |}.

Definition GetNetworkForMagic (message : list Z) : option ChainType :=
  let signet_msg := from_option pchMessageStart [] (SigNetParams None None) in
  if decide (message = pchMessageStart CMainParams) then Some MAIN
  else if decide (message = pchMessageStart CTestNetParams) then Some TESTNET
  else if decide (message = pchMessageStart CTestNet4Params) then Some TESTNET4
  else if decide (message = pchMessageStart (CRegTestParams default_regtest)) then Some REGTEST
  else if decide (message = signet_msg) then Some SIGNET
  else None.
End networks.

(** ** Genesis blocks *)

Ltac header_by_eval := unfold header_ok, blob_ok; split_and!; vm_compute; repeat split; try congruence; repeat constructor; congruence.

Lemma main_genesis_ok : header_ok (header main_genesis).
Proof. header_by_eval. Qed.
Lemma regtest_genesis_ok : header_ok (header regtest_genesis).
Proof. header_by_eval. Qed.

Lemma main_hash : @CBlockHeader_GetHash portable_cpu (header main_genesis) = hex256 "00000d250c9c1bfdfd933cabc32268b39d1556f6a29db879025019976f287d1e".
Proof. vm_compute. reflexivity. Qed.
Lemma regtest_hash : @CBlockHeader_GetHash portable_cpu (header regtest_genesis) = hex256 "4c4efcd0ae575f920e8fb827b9d4ccb552d53ab573726afa6788394bb2753492".
Proof. vm_compute. reflexivity. Qed.
Lemma genesis_roots :
  blob_eqb (hashMerkleRoot (header main_genesis)) (hex256 "3c27610446c91576f0f18fa4e758b72565f678ae063346fe6d271d6d850783b6") = true /\
  hashMerkleRoot (header regtest_genesis) = hashMerkleRoot (header main_genesis).
Proof. split; vm_compute; reflexivity. Qed.

(** The genesis blocks: on every processor the main and regtest constructors pass their assertions on the
    genesis hash and Merkle root, and both genesis hashes are below the target their [nBits] encodes. *)
Theorem genesis_blocks `{cpu : Cpu} :
  main_asserts = true /\ regtest_asserts = true /\
  negb (arith_gt (UintToArith256 (CBlockHeader_GetHash (header main_genesis))) (target_of 0x1e0fffff)) = true /\
  negb (arith_gt (UintToArith256 (CBlockHeader_GetHash (header regtest_genesis))) (target_of 0x207fffff)) = true.
Proof.
  pose proof (eq_trans (GetHash_cpu cpu portable_cpu _ main_genesis_ok) main_hash) as Em.
  pose proof (eq_trans (GetHash_cpu cpu portable_cpu _ regtest_genesis_ok) regtest_hash) as Er.
  destruct genesis_roots as [Hroot Hsame]. unfold main_asserts, regtest_asserts.
  generalize dependent (@CBlockHeader_GetHash cpu (header main_genesis)).
  generalize dependent (@CBlockHeader_GetHash cpu (header regtest_genesis)).
  generalize dependent (hashMerkleRoot (header regtest_genesis)). intros r -> hr -> hm ->. rewrite Hroot. clear. split_and!; vm_compute; reflexivity.
Qed.

(** ** Block spacing of the main network *)

(** the ramp in exact arithmetic *)
Definition ramp_exact (h1 s1 h2 s2 height : Z) : Z := s1 + Z.quot ((s2 - s1) * (height - h1)) (h2 - h1).
Definition main_spacing (height : Z) : Z :=
  if height <=? 0 then 120
  else if height <=? 3000 then ramp_exact 0 120 3000 90 height
  else if height <=? 6000 then ramp_exact 3000 90 6000 60 height
  else if height <=? 10000 then ramp_exact 6000 60 10000 45 height
  else 45.

(** the interpolated offset after [i] of [n] blocks, in floating point and exactly *)
Definition ramp_offset_ok (n d : Z) (i : nat) : bool :=
  match double_trunc 64 (dmul (double_of d) (ddiv (double_of (Z.of_nat i)) (double_of n))) with
  | Some r => r =? Z.quot (d * Z.of_nat i) n
  | None => false
  end.

Lemma ramp_3000 : forallb (ramp_offset_ok 3000 (-30)) (seq 0 3001) = true.
Proof. vm_compute. reflexivity. Qed.
Lemma ramp_4000 : forallb (ramp_offset_ok 4000 (-15)) (seq 0 4001) = true.
Proof. vm_compute. reflexivity. Qed.

Lemma ramp_interpolate_exact h1 s1 h2 s2 height n : (0 <= height - h1 <= Z.of_nat n) ->
  forallb (ramp_offset_ok (h2 - h1) (s2 - s1)) (seq 0 (S n)) = true ->
  ramp_interpolate height h1 s1 h2 s2 = Some (ramp_exact h1 s1 h2 s2 height).
Proof.
  intros Hh Hall. rewrite forallb_forall in Hall. specialize (Hall (Z.to_nat (height - h1)) ltac:(apply in_seq; lia)).
  unfold ramp_offset_ok in Hall. rewrite Z2Nat.id in Hall by lia. unfold ramp_interpolate, ramp_exact.
  destruct (double_trunc _ _) as [r|]; [|done]. apply Z.eqb_eq in Hall. subst r. done.
Qed.

Lemma main_spacing_exact `{Cpu} (height : Z) : GetTargetSpacing main_consensus height = Some (main_spacing height).
Proof.
  unfold GetTargetSpacing, main_spacing, main_consensus. cbn [powSpacingRamps ramp_loop fst snd List.last].
  destruct (Z.leb_spec height 0); [done|]. destruct (Z.leb_spec height 0); [lia|].
  destruct (Z.leb_spec height 3000); [apply (ramp_interpolate_exact _ _ _ _ _ 3000); [lia|exact ramp_3000]|].
  destruct (Z.leb_spec height 6000); [apply (ramp_interpolate_exact _ _ _ _ _ 3000); [lia|exact ramp_3000]|].
  destruct (Z.leb_spec height 10000); [apply (ramp_interpolate_exact _ _ _ _ _ 4000); [lia|exact ramp_4000]|]. done.
Qed.

Lemma main_spacing_range (height : Z) : 45 <= main_spacing height <= 120.
Proof. unfold main_spacing, ramp_exact. repeat case_bool; Z.quot_rem_to_equations; lia. Qed.

(** The spacing schedule of the main network: for every height the [double] interpolation of [GetTargetSpacing] returns
    the exact integer ramp from 120 to 45 seconds; the result is between 45 and 120 and never grows with height. *)
Theorem main_target_spacing `{Cpu} (height : Z) :
  GetTargetSpacing main_consensus height = Some (main_spacing height) /\ 45 <= main_spacing height <= 120 /\
  main_spacing (height + 1) <= main_spacing height.
Proof.
  split; [apply main_spacing_exact|]. split; [apply main_spacing_range|].
  unfold main_spacing, ramp_exact. repeat case_bool; Z.quot_rem_to_equations; lia.
Qed.

(** ** Supply *)

(** The cap of [MoneyRange] is the supply of the main network. *)
Lemma main_supply_cap `{Cpu} n : 0 <= total_subsidy main_consensus n <= MAX_MONEY.
Proof. apply (total_subsidy_bound main_consensus); vm_compute; intuition congruence. Qed.

Lemma subsidy_schedule_witness : 0 <= total_subsidy (@main_consensus portable_cpu) 100 <= MAX_MONEY.
Proof.
  destruct (subsidy_schedule (@main_consensus portable_cpu)) as (_ & _ & Hsum); [vm_compute; reflexivity|vm_compute; intuition congruence|].
  exact (Hsum 100%nat).
Defined.
