(* ===== verification/Pow.v ===== *)
(** * Proof of work

    src/pow.h and src/pow.cpp: the check of a hash against a target, the difficulty adjustment
    over the last blocks, and the transitions that header synchronisation accepts.

    [GetNextWorkRequired] casts the [const] of its header away and stores the result in it; the
    model returns the header with the result.  [None] is a null dereference or the exception of a
    division by zero. *)

From Stdlib Require Import ZArith Lia Bool.
From stdpp Require Import base numbers list.
From S2P Require Import Prelude ArithUint Uint256 Arith256 Binary64 Params Hashes Serialize Primitives BlockIndex ChainParams.
Local Open Scope Z_scope.

(** ** Difficulty adjustment *)

(** [sum_target], [weighted_times] and [k] *)
Record Lwma : Type := { sum_target : arith_uint256; weighted_times : Z; lwma_k : Z }.

(** one iteration for [block] and its parent, with weight [i] *)
Definition lwma_step (params : Params) (s : Lwma) (i : Z) (block prev : CBlockIndex) : option Lwma :=
  T ← GetTargetSpacing params (nHeight block);
  let solvetime := index_GetBlockTime block - index_GetBlockTime prev in
  let solvetime := Z.min (Z.max solvetime (-6 * T)) (6 * T) in
  let target := (SetCompact (bi_nBits block)).1.1 in
  Some {| sum_target := arith_add (sum_target s) target;
          weighted_times := weighted_times s + solvetime * i;
          lwma_k := lwma_k s + i * T |}.

Fixpoint lwma_loop (n : nat) (params : Params) (t : BlockMap) (s : Lwma) (i : Z) (block : CBlockIndex) : option Lwma :=
  match n with
  | O => Some s
  | S n =>
      match pprev block with
      | None => Some s
      | Some q =>
          prev ← t !! q;
          s ← lwma_step params s i block prev;
          lwma_loop n params t s (i + 1) prev
      end
  end.

Definition set_nBits (pblock : option CBlockHeader) (bits : Z) : option CBlockHeader :=
  b ← pblock;
  Some {| nVersion := nVersion b; hashPrevBlock := hashPrevBlock b; hashMerkleRoot := hashMerkleRoot b;
          nTime := nTime b; nBits := bits; nNonce := nNonce b |}.

(** after the loop: average, weight, normalise, limit *)
Definition lwma_target (params : Params) (N : Z) (s : Lwma) : option arith_uint256 :=
  let pow_limit := UintToArith256 (powLimit params) in
  avg_target ← arith_div (sum_target s) (arith_of N);
  let weighted_times := if weighted_times s <? 1 then 1 else weighted_times s in
  let avg_target := arith_mul32 avg_target (u32 weighted_times) in
  avg_target ← arith_div avg_target (arith_of (lwma_k s));
  Some (if arith_gt avg_target pow_limit then pow_limit else avg_target).

Definition GetNextWorkRequired (t : BlockMap) (pindexLast : option nat) (pblock : option CBlockHeader) (params : Params)
    : option (Z * option CBlockHeader) :=
  if fPowNoRetargeting params then
    p ← pindexLast; last ← t !! p;
    Some (bi_nBits last, set_nBits pblock (bi_nBits last))
  else
    let N := DifficultyAdjustmentInterval params in
    let at_limit :=
      pow_limit ← GetCompact (UintToArith256 (powLimit params)) false;
      Some (pow_limit, set_nBits pblock pow_limit) in
    match pindexLast with
    | None => at_limit
    | Some p =>
        last ← t !! p;
        if nHeight last + 1 <=? N then at_limit
        else
          s ← lwma_loop (Z.to_nat N) params t {| sum_target := arith_of 0; weighted_times := 0; lwma_k := 0 |} 1 last;
          target ← lwma_target params N s;
          bits ← GetCompact target false;
          Some (bits, set_nBits pblock bits)
    end.

(** ** Checks *)

(** The parameters are not used. *)
Definition CheckProofOfWork_hash (hash : uint256) (bits : Z) (params : Params) : bool :=
  let '(bnTarget, fNegative, fOverflow) := SetCompact bits in
  negb (fNegative || arith_eq64 bnTarget 0 || fOverflow || arith_gt (UintToArith256 hash) bnTarget).

Definition CheckProofOfWork `{Cpu} (block : CBlockHeader) (params : Params) : bool :=
  CheckProofOfWork_hash (CBlockHeader_GetHash block) (nBits block) params.

Definition DeriveTarget (bits : Z) (pow_limit : uint256) : option arith_uint256 :=
  let '(target, fNegative, fOverflow) := SetCompact bits in
  if fNegative || arith_eq64 target 0 || fOverflow || arith_gt target (UintToArith256 pow_limit) then None
  else Some target.

(** The second argument of [SetCompact] is [pfNegative]: the variables called [overflow] hold the signs. *)
Definition PermittedDifficultyTransition (params : Params) (height oldBits newBits : Z) : bool :=
  if height <? 1 then true
  else
    let '(old_target, overflow1, _) := SetCompact oldBits in
    let '(new_target, overflow2, _) := SetCompact newBits in
    if overflow1 || overflow2 || arith_eq64 old_target 0 || arith_eq64 new_target 0 then false
    else if arith_gt new_target (arith_mul32 old_target 4) then false
    else if arith_gt old_target (arith_mul32 new_target 4) then false
    else true.

(** ** The checks on integers *)

(** a hash as a number *)
Definition hash_value (hash : uint256) : Z := digits (2 ^ 8) hash.

Lemma CheckProofOfWork_spec hash bits params : blob_ok 32 hash -> fits 32 bits ->
  CheckProofOfWork_hash hash bits params =
  match valid_target bits with None => false | Some v => hash_value hash <=? v end.
Proof.
  intros Hh Hb. destruct (UintToArith256_spec hash Hh) as [Hok Hv]. unfold CheckProofOfWork_hash.
  pose proof (SetCompact_valid bits Hb) as Hs. destruct (SetCompact bits) as [[a neg] ovf]. destruct Hs as [Ha Hs].
  destruct (valid_target bits) as [v|].
  - destruct Hs as (-> & -> & -> & <- & _). cbn [orb]. rewrite (arith_gt_val (UintToArith256 hash) a), Hv.
    unfold hash_value. rewrite Z.gtb_ltb, Z.leb_antisym. done.
  - destruct neg, ovf, (arith_eq64 a 0); done.
Qed.

Lemma DeriveTarget_spec bits limit : blob_ok 32 limit -> fits 32 bits ->
  match DeriveTarget bits limit with
  | Some a => Ok256 a /\ valid_target bits = Some (to_Z a) /\ to_Z a <= hash_value limit
  | None => forall v, valid_target bits = Some v -> hash_value limit < v
  end.
Proof.
  intros Hh Hb. destruct (UintToArith256_spec limit Hh) as [Hok Hv]. unfold DeriveTarget.
  pose proof (SetCompact_valid bits Hb) as Hs. destruct (SetCompact bits) as [[a neg] ovf]. destruct Hs as [Ha Hs].
  destruct (valid_target bits) as [v|].
  - destruct Hs as (-> & -> & -> & <- & _). cbn [orb]. rewrite (arith_gt_val a (UintToArith256 limit)), Hv, Z.gtb_ltb.
    fold (hash_value limit). destruct (Z.ltb_spec (hash_value limit) (to_Z a)); [|done]. intros v [= <-]. done.
  - destruct neg, ovf, (arith_eq64 a 0); done.
Qed.

(** ** The adjustment on integers *)

Definition clamp6 (T x : Z) : Z := Z.min (Z.max x (-6 * T)) (6 * T).

(** the last [n] blocks from [block] down, each with its parent *)
Fixpoint window (n : nat) (t : BlockMap) (block : CBlockIndex) : list (CBlockIndex * CBlockIndex) :=
  match n with
  | O => []
  | S n => match q ← pprev block; t !! q with None => [] | Some prev => (block, prev) :: window n t prev end
  end.

Fixpoint sum_targets (w : list (CBlockIndex * CBlockIndex)) : Z :=
  match w with [] => 0 | (b, _) :: w => compact_value (bi_nBits b) + sum_targets w end.

(** clamped solve times, the first one with weight [i] *)
Fixpoint sum_times (T : Z -> Z) (i : Z) (w : list (CBlockIndex * CBlockIndex)) : Z :=
  match w with
  | [] => 0
  | (b, prev) :: w => clamp6 (T (nHeight b)) (bi_nTime b - bi_nTime prev) * i + sum_times T (i + 1) w
  end.

Fixpoint sum_spacing (T : Z -> Z) (i : Z) (w : list (CBlockIndex * CBlockIndex)) : Z :=
  match w with [] => 0 | (b, _) :: w => i * T (nHeight b) + sum_spacing T (i + 1) w end.




Lemma mod_add3 a b c m : 0 < m -> ((a + b mod m) mod m + c) mod m = (a + (b + c)) mod m.
Proof.
  intros Hm. rewrite Z.add_mod_idemp_l, Z.add_comm, Z.add_assoc, Z.add_mod_idemp_r by lia. f_equal. lia.
Qed.

Section lwma.
Context (params : Params) (T : Z -> Z).
Context (HT : forall h, GetTargetSpacing params h = Some (T h) /\ 0 < T h < 2 ^ 20).
Context (t : BlockMap) (Htree : tree_ok t).
Let Ht : entries_ok t := tree_entries t Htree.

Lemma lwma_loop_spec n s i p b : t !! p = Some b -> Ok256 (sum_target s) ->
  exists s', lwma_loop n params t s i b = Some s' /\ Ok256 (sum_target s') /\
    to_Z (sum_target s') = (to_Z (sum_target s) + sum_targets (window n t b)) mod 2 ^ 256 /\
    weighted_times s' = weighted_times s + sum_times T i (window n t b) /\
    lwma_k s' = lwma_k s + sum_spacing T i (window n t b).
Proof.
  revert s i p b. induction n as [|n IH]; intros s i p b Hb Hs; cbn [lwma_loop window].
  { exists s. cbn [sum_targets sum_times sum_spacing]. rewrite !Z.add_0_r, Z.mod_small by (apply to_Z_256; done). done. }
  destruct (pprev b) as [q|] eqn:Hq; cbn [mbind option_bind].
  2:{ exists s. cbn [sum_targets sum_times sum_spacing]. rewrite !Z.add_0_r, Z.mod_small by (apply to_Z_256; done). done. }
  destruct (entry_parent t Ht p b q Hb Hq) as (_ & bq & Hbq & _). rewrite Hbq. cbn [mbind option_bind].
  unfold lwma_step. rewrite (proj1 (HT (nHeight b))). cbn [mbind option_bind].
  destruct (Ht p b Hb) as (_ & Hbits & _). pose proof (SetCompact_spec _ Hbits) as Hsc.
  destruct (SetCompact (bi_nBits b)) as [[a neg] ovf]. destruct Hsc as (Ha & Hav & _).
  destruct (IH {| sum_target := arith_add (sum_target s) a;
     weighted_times := weighted_times s + clamp6 (T (nHeight b)) (bi_nTime b - bi_nTime bq) * i;
     lwma_k := lwma_k s + i * T (nHeight b) |} (i + 1) q bq Hbq _) as (s' & Hl & Hok & H1 & H2 & H3).
  exists s'. split; [exact Hl|]. split; [done|]. cbn [sum_target weighted_times lwma_k sum_targets sum_times sum_spacing] in *.
  split; [|split; lia].
  rewrite H1, (arith_add_val (sum_target s) a), Hav. apply mod_add3. lia.
Qed.

Lemma window_length n p b : t !! p = Some b -> Z.of_nat n <= nHeight b -> length (window n t b) = n.
Proof.
  revert p b. induction n as [|n IH]; intros p b Hb Hn; [done|]. cbn [window].
  destruct (height_parent t Ht p b Hb ltac:(lia)) as (q & bq & -> & Hbq & Hh & _). cbn [mbind option_bind].
  rewrite Hbq. cbn [length]. rewrite (IH q bq Hbq) by lia. done.
Qed.

Lemma sum_spacing_bound w i : 1 <= i ->
  0 <= sum_spacing T i w <= 2 ^ 20 * (zlen w * (i + zlen w)) /\ (w <> [] -> 0 < sum_spacing T i w) /\
  - 6 * sum_spacing T i w <= sum_times T i w <= 6 * sum_spacing T i w.
Proof.
  revert i. induction w as [|[b prev] w IH]; intros i Hi; [split; [cbn; lia|split; [done|cbn; lia]]|].
  destruct (IH (i + 1) ltac:(lia)) as (H1 & _ & H3). cbn [sum_spacing sum_times length].
  destruct (HT (nHeight b)) as [_ HTb]. unfold clamp6. rewrite Nat2Z.inj_succ. set (x := bi_nTime b - bi_nTime prev).
  assert (0 < i * T (nHeight b) <= 2 ^ 20 * i) by nia.
  assert (-6 * (i * T (nHeight b)) <= Z.min (Z.max x (-6 * T (nHeight b))) (6 * T (nHeight b)) * i <= 6 * (i * T (nHeight b))) by nia.
  split; [|split; [lia|lia]]. nia.
Qed.

Context (N : Z) (HN : nPowAveragingWindow params = N) (HNr : 0 < N <= 2 ^ 12).
Context (Hlimit : blob_ok 32 (powLimit params)) (Hretarget : fPowNoRetargeting params = false).

(** the next target for a window *)
Definition next_target (w : list (CBlockIndex * CBlockIndex)) : Z :=
  Z.min (hash_value (powLimit params))
    ((sum_targets w mod 2 ^ 256 / N * u32 (Z.max 1 (sum_times T 1 w))) mod 2 ^ 256 / sum_spacing T 1 w).

Lemma window_spacing w : zlen w = N -> 0 < sum_spacing T 1 w < 2 ^ 46.
Proof.
  intros Hw. destruct (sum_spacing_bound w 1 ltac:(lia)) as (Hb & Hpos & _). rewrite Hw in Hb.
  assert (Hw0 : w <> []) by (intros ->; cbn in Hw; lia). specialize (Hpos Hw0).
  assert (N * (1 + N) <= 2 ^ 12 * (1 + 2 ^ 12)) by (apply Z.mul_le_mono_nonneg; lia). lia.
Qed.

Lemma lwma_target_spec s w : zlen w = N -> Ok256 (sum_target s) ->
  to_Z (sum_target s) = sum_targets w mod 2 ^ 256 -> weighted_times s = sum_times T 1 w -> lwma_k s = sum_spacing T 1 w ->
  exists a, lwma_target params N s = Some a /\ Ok256 a /\ to_Z a = next_target w.
Proof.
  intros Hw Hok Hs Hwt Hk. unfold lwma_target, next_target.
  pose proof (window_spacing w Hw) as HK.
  destruct (arith_div_Some (sum_target s) (arith_of N)) as (q & -> & Hq & Hqv).
  { rewrite arith_of_val. wrap_lia. }
  cbn [mbind option_bind]. rewrite arith_of_val in Hqv. rewrite (wrap_small 64 N) in Hqv by (unfold fits; lia).
  destruct (arith_mul32_spec q (u32 (if weighted_times s <? 1 then 1 else weighted_times s)) (wrap_fits 32 _ ltac:(lia))) as [Hm Hmv].
  destruct (arith_div_Some (arith_mul32 q (u32 (if weighted_times s <? 1 then 1 else weighted_times s))) (arith_of (lwma_k s))) as (r & -> & Hr & Hrv).
  { rewrite arith_of_val, Hk, wrap_small by (unfold fits; lia). lia. }
  cbn [mbind option_bind]. destruct (UintToArith256_spec _ Hlimit) as [Hl Hlv].
  rewrite arith_of_val, Hk, (wrap_small 64), Hmv, Hqv, Hs in Hrv by (unfold fits; lia).
  replace (if weighted_times s <? 1 then 1 else weighted_times s) with (Z.max 1 (sum_times T 1 w)) in *
    by (rewrite Hwt; destruct (Z.ltb_spec (sum_times T 1 w) 1); lia).
  eexists. split; [reflexivity|]. rewrite (arith_gt_val r (UintToArith256 (powLimit params))), Z.gtb_ltb, Hlv, Hrv.
  unfold hash_value. case_bool; (split; [done|lia]).
Qed.

Lemma GetNextWorkRequired_spec p last pblock : t !! p = Some last -> N <= nHeight last ->
  let w := window (Z.to_nat N) t last in
  let bits := compact_of (next_target w) in
  zlen w = N /\ 0 < sum_spacing T 1 w < 2 ^ 46 /\ 0 <= next_target w <= hash_value (powLimit params) /\
  GetNextWorkRequired t (Some p) pblock params = Some (bits, set_nBits pblock bits).
Proof.
  intros Hp Hh w bits. assert (Hw : zlen w = N) by (unfold w; rewrite (window_length _ p) by (done || lia); lia).
  pose proof (window_spacing w Hw) as HK.
  unfold GetNextWorkRequired, DifficultyAdjustmentInterval. rewrite Hretarget, HN, Hp. cbn [mbind option_bind].
  destruct (Z.leb_spec (nHeight last + 1) N); [lia|].
  destruct (lwma_loop_spec (Z.to_nat N) {| sum_target := arith_of 0; weighted_times := 0; lwma_k := 0 |} 1 p last Hp _)
    as (s & -> & Hok & Hs & Hwt & Hk).
  cbn [mbind option_bind sum_target weighted_times lwma_k] in *. fold w in Hs, Hwt, Hk.
  rewrite arith_of_val in Hs. change (u64 0) with 0 in Hs.
  destruct (lwma_target_spec s w Hw Hok Hs Hwt Hk) as (a & -> & Ha & Hav). cbn [mbind option_bind].
  rewrite (GetCompact_spec a), Hav. cbn [mbind option_bind].
  split_and!; try done; try lia; unfold next_target; pose proof (to_Z_256 a Ha); [rewrite Hav in *; unfold next_target in *; lia|lia].
Qed.

End lwma.

(** the hypotheses of the section for a set of parameters *)
Definition lwma_ok (params : Params) (T : Z -> Z) (N : Z) : Prop :=
  (forall h, GetTargetSpacing params h = Some (T h) /\ 0 < T h < 2 ^ 20) /\
  nPowAveragingWindow params = N /\ 0 < N <= 2 ^ 12 /\
  blob_ok 32 (powLimit params) /\ fPowNoRetargeting params = false.

Lemma main_lwma_ok `{Cpu} : lwma_ok main_consensus main_spacing 60.
Proof.
  split; [intros h; rewrite main_spacing_exact; pose proof (main_spacing_range h); split; [done|lia]|].
  split; [done|]. split; [lia|]. split; [|done].
  cbn [powLimit main_consensus]. apply (bool_decide_unpack _). vm_compute. exact I.
Qed.

Lemma next_target_exact params T N w :
  0 < N -> 0 < sum_spacing T 1 w -> sum_times T 1 w <= 6 * sum_spacing T 1 w ->
  0 <= sum_targets w < 2 ^ 256 -> sum_times T 1 w < 2 ^ 32 ->
  sum_targets w / N * Z.max 1 (sum_times T 1 w) < 2 ^ 256 ->
  next_target params T N w =
    Z.min (hash_value (powLimit params)) (sum_targets w / N * Z.max 1 (sum_times T 1 w) / sum_spacing T 1 w) /\
  next_target params T N w <= 6 * (sum_targets w / N).
Proof.
  intros HN HK HW HS HW32 Hnowrap. unfold next_target. pose proof (Z.div_pos (sum_targets w) N ltac:(lia) HN) as Hq.
  rewrite (Z.mod_small (sum_targets w)), (wrap_small 32) by (unfold fits; lia).
  rewrite Z.mod_small by nia. split; [done|].
  assert (sum_targets w / N * Z.max 1 (sum_times T 1 w) / sum_spacing T 1 w <= 6 * (sum_targets w / N)); [|lia].
  apply Z.div_le_upper_bound; [lia|]. nia.
Qed.



(** every block of the window has the bits [c] and came after exactly the target spacing *)
Definition on_schedule (T : Z -> Z) (c : Z) (w : list (CBlockIndex * CBlockIndex)) : Prop :=
  Forall (fun '(b, prev) => bi_nBits b = c /\ bi_nTime b - bi_nTime prev = T (nHeight b)) w.

Lemma on_schedule_sums T c w i : (forall h, 0 < T h) -> on_schedule T c w ->
  sum_targets w = zlen w * compact_value c /\ sum_times T i w = sum_spacing T i w.
Proof.
  intros HT H. revert i. induction H as [|[b q] w [Hb Ht] _ IH]; intros i; [done|].
  cbn [sum_targets sum_times sum_spacing length]. destruct (IH (i + 1)) as [-> ->]. rewrite Hb, Ht, Nat2Z.inj_succ.
  unfold clamp6. pose proof (HT (nHeight b)). split; [lia|]. f_equal. rewrite Z.mul_comm. f_equal. lia.
Qed.

(** ** Regular chains *)

(** a chain with [n] blocks after the first, [dt] seconds apart, all with the same bits; the work is the number of blocks *)
Fixpoint regular_chain (n : nat) (dt bits : Z) : BlockMap :=
  let entry (prev : option nat) (skip : option nat) (work : arith_uint256) : CBlockIndex := {|
    phashBlock := Some (Z.of_nat n :: replicate 31 0); pprev := prev; pskip := skip; nHeight := Z.of_nat n;
    nFile := 0; nDataPos := 0; nUndoPos := 0; nChainWork := work; nTx := 0; m_chain_tx_count := 0;
    nStatus := BLOCK_VALID_TREE; bi_nVersion := 1; bi_hashMerkleRoot := uint256_null;
    bi_nTime := 1723502400 + dt * Z.of_nat n; bi_nBits := bits; bi_nNonce := 0; nSequenceId := 0;
    nTimeMax := 1723502400 + dt * Z.of_nat n |} in
  let work := default (arith_of 0) (GetBlockProof (entry None None (arith_of 0))) in
  match n with
  | O => [entry None None work]
  | S m =>
      let t := regular_chain m dt bits in
      let parent := default CBlockIndex_default (t !! m) in
      t ++ [entry (Some m) (Some (Z.to_nat (GetSkipHeight (Z.of_nat n)))) (arith_add (nChainWork parent) work)]
  end.

Definition slow_chain : BlockMap := regular_chain 60 573 0x1e0fffff.
Definition slow_tip : CBlockIndex := default CBlockIndex_default (slow_chain !! 60%nat).

Lemma slow_chain_ok : tree_ok slow_chain.
Proof. apply tree_okb_ok. vm_compute. reflexivity. Qed.

(** parameters with which the adjustment always has a result *)
Definition retarget_ok (params : Params) : Prop := fPowNoRetargeting params = true \/ exists T N, lwma_ok params T N.

Lemma GetNextWorkRequired_total params t p last : retarget_ok params -> tree_ok t -> t !! p = Some last ->
  exists bits, fits 32 bits /\ forall pblock, GetNextWorkRequired t (Some p) pblock params = Some (bits, set_nBits pblock bits).
Proof.
  intros [Hno|(T & N & HT & HN & HNr & Hlim & Hret)] Ht Hp.
  { exists (bi_nBits last). split; [apply (tree_entries t Ht p last Hp)|]. intros pblock. unfold GetNextWorkRequired. rewrite Hno. cbn [mbind option_bind].
    rewrite Hp. done. }
  destruct (Z.lt_ge_cases (nHeight last) N) as [Hh|Hh].
  - destruct (UintToArith256_spec _ Hlim) as [Hok Hv]. exists (compact_of (to_Z (UintToArith256 (powLimit params)))).
    split; [apply compact_of_fields; exact (to_Z_256 _ Hok)|]. intros pblock.
    unfold GetNextWorkRequired, DifficultyAdjustmentInterval. rewrite Hret, HN, Hp.
    cbn [mbind option_bind]. destruct (Z.leb_spec (nHeight last + 1) N); [|lia].
    rewrite (GetCompact_spec (UintToArith256 (powLimit params))). done.
  - eexists. split; [|intros pblock; apply (GetNextWorkRequired_spec params T HT t Ht N HN HNr Hlim Hret p last pblock Hp Hh)].
    apply compact_of_fields. destruct (GetNextWorkRequired_spec params T HT t Ht N HN HNr Hlim Hret p last None Hp Hh) as (_ & _ & Hn & _).
    destruct (UintToArith256_spec _ Hlim) as [Hok Hv]. pose proof (to_Z_256 _ Hok). unfold hash_value in Hn. lia.
Qed.

(** ** Properties *)


(** A chain on schedule keeps its difficulty: when every block of the window came exactly after its target spacing with the same
    canonical bits below the limit, and the product fits 256 bits, [GetNextWorkRequired] returns those bits. *)
Theorem lwma_steady (params : Params) (T : Z -> Z) (N : Z) (t : BlockMap) (p : nat) (last : CBlockIndex) (c v : Z)
    (w := window (Z.to_nat N) t last) :
  lwma_ok params T N -> tree_ok t -> t !! p = Some last -> N <= nHeight last ->
  on_schedule T c w -> fits 32 c -> canonical_compact c = true -> valid_target c = Some v ->
  v <= hash_value (powLimit params) -> v * N < 2 ^ 256 -> sum_spacing T 1 w < 2 ^ 32 -> v * sum_spacing T 1 w < 2 ^ 256 ->
  GetNextWorkRequired t (Some p) None params = Some (c, None).
Proof.
  intros (HT & HN & HNr & Hlim & Hret) Ht Hp Hh Hs Hc Hcan Hv Hle HvN HK32 HvK.
  destruct (GetNextWorkRequired_spec params T HT t Ht N HN HNr Hlim Hret p last None Hp Hh) as (Hw & HK & _ & ->).
  fold w in Hw, HK |- *. destruct (on_schedule_sums T c w 1 ltac:(apply HT) Hs) as [HS HW].
  assert (Hcv : compact_value c = v /\ 0 < v).
  { pose proof (valid_target_range c v Hc Hv). unfold valid_target in Hv. repeat case_match; simplify_eq; lia. }
  destruct Hcv as [Hcv Hpos]. rewrite Hw, Hcv in HS.
  assert (Havg : sum_targets w / N = v) by (rewrite HS, Z.mul_comm, Z.div_mul; lia).
  assert (HW1 : Z.max 1 (sum_times T 1 w) = sum_spacing T 1 w) by lia.
  destruct (next_target_exact params T N w) as [-> _]; rewrite ?Havg, ?HW1; try lia.
  rewrite Z.div_mul, Z.min_r, <- Hcv, compact_of_value by (done || lia). done.
Qed.

(** The check of a hash.  [CheckProofOfWork] accepts exactly the hashes at or below the target the bits encode, whatever the
    network parameters; bits that are negative, zero or too large accept no hash.  [DeriveTarget] gives the encoded target exactly
    when it is at most the limit. *)
Theorem pow_check (hash limit : uint256) (bits : Z) (params : Params) :
  blob_ok 32 hash -> blob_ok 32 limit -> fits 32 bits ->
  (CheckProofOfWork_hash hash bits params = true <-> exists v, valid_target bits = Some v /\ hash_value hash <= v) /\
  (forall a, DeriveTarget bits limit = Some a -> Ok256 a /\ valid_target bits = Some (to_Z a) /\ to_Z a <= hash_value limit) /\
  (DeriveTarget bits limit = None <-> forall v, valid_target bits = Some v -> hash_value limit < v).
Proof.
  intros Hh Hl Hb. rewrite (CheckProofOfWork_spec hash bits params Hh Hb). pose proof (DeriveTarget_spec bits limit Hl Hb) as Hd.
  split; [|split].
  - destruct (valid_target bits) as [v|]; [|split; [discriminate|intros (v & ? & _); discriminate]].
    rewrite Z.leb_le. split; [intros Hle; exists v; split; [reflexivity|exact Hle]|]. intros (v' & [= <-] & Hle). exact Hle.
  - intros a E. rewrite E in Hd. exact Hd.
  - destruct (DeriveTarget bits limit) as [a|]; [|split; [intros _; exact Hd|reflexivity]]. split; [discriminate|]. intros H. destruct Hd as (_ & Hv & ?).
    specialize (H _ Hv). lia.
Qed.

Lemma PermittedDifficultyTransition_spec params height o n vo vn :
  1 <= height -> fits 32 o -> fits 32 n -> valid_target o = Some vo -> valid_target n = Some vn ->
  PermittedDifficultyTransition params height o n = (vn <=? (vo * 4) mod 2 ^ 256) && (vo <=? (vn * 4) mod 2 ^ 256).
Proof.
  intros Hh Ho Hn Hvo Hvn. unfold PermittedDifficultyTransition. destruct (Z.ltb_spec height 1); [lia|].
  pose proof (SetCompact_valid o Ho) as Hso. destruct (SetCompact o) as [[ao nego] ovfo].
  pose proof (SetCompact_valid n Hn) as Hsn. destruct (SetCompact n) as [[an negn] ovfn].
  rewrite Hvo in Hso. rewrite Hvn in Hsn. destruct Hso as (Hao & -> & _ & -> & <- & _), Hsn as (Han & -> & _ & -> & <- & _).
  cbn [orb]. destruct (arith_mul32_spec ao 4 ltac:(unfold fits; lia)) as [Hmo Hmov].
  destruct (arith_mul32_spec an 4 ltac:(unfold fits; lia)) as [Hmn Hmnv].
  rewrite (arith_gt_val an (arith_mul32 ao 4)), (arith_gt_val ao (arith_mul32 an 4)), Hmov, Hmnv, !Z.gtb_ltb, !Z.leb_antisym.
  destruct (_ <? to_Z an); [done|]. destruct (_ <? to_Z ao); done.
Qed.

(** The transitions of header synchronisation.  Between targets below a quarter of the 256-bit range
    [PermittedDifficultyTransition] holds after the first block exactly when neither target is more than four times the other, so a
    target may stay as it is and the check is symmetric. *)
Theorem permitted_transition (params : Params) (height o n vo vn : Z) :
  1 <= height -> fits 32 o -> fits 32 n -> valid_target o = Some vo -> valid_target n = Some vn -> vo < 2 ^ 254 -> vn < 2 ^ 254 ->
  (PermittedDifficultyTransition params height o n = true <-> vn <= 4 * vo /\ vo <= 4 * vn) /\
  PermittedDifficultyTransition params height o o = true /\
  PermittedDifficultyTransition params height n o = PermittedDifficultyTransition params height o n.
Proof.
  intros Hh Ho Hn Hvo Hvn Hlo Hln. pose proof (valid_target_range o vo Ho Hvo). pose proof (valid_target_range n vn Hn Hvn).
  rewrite (PermittedDifficultyTransition_spec params height o n vo vn), (PermittedDifficultyTransition_spec params height o o vo vo),
    (PermittedDifficultyTransition_spec params height n o vn vo) by done.
  rewrite !Z.mod_small by lia. rewrite !andb_true_iff, !Z.leb_le. split; [lia|]. split; [lia|]. apply andb_comm.
Qed.

(** Above a quarter of the range the comparison wraps: on signet the bits 0x20400000 encode a valid target below the limit, and
    [PermittedDifficultyTransition] rejects a header that keeps them. *)
Theorem permitted_transition_wraps (challenge : list Z) (genesis_hash : uint256) (height : Z)
    (params := signet_consensus challenge genesis_hash) : 1 <= height ->
  valid_target 0x20400000 = Some (2 ^ 254) /\ 2 ^ 254 <= hash_value (powLimit params) /\
  PermittedDifficultyTransition params height 0x20400000 0x20400000 = false.
Proof.
  intros Hh. split; [vm_compute; reflexivity|]. split; [vm_compute; discriminate|].
  rewrite (PermittedDifficultyTransition_spec params height _ _ (2 ^ 254) (2 ^ 254)) by (done || (unfold fits; lia)).
  vm_compute. reflexivity.
Qed.

(** The 256-bit product of the adjustment can wrap on the main network.  After sixty blocks at the limit that each took 573
    seconds, several times the spacing, the target of the next block is less than a fifteen thousandth of the limit instead of the
    limit, and header synchronisation does not permit the step. *)
Theorem lwma_wraps_main `{Cpu} :
  tree_ok slow_chain /\ slow_chain !! 60%nat = Some slow_tip /\ nHeight slow_tip = 60 /\
  (forall p b, slow_chain !! p = Some b -> bi_nBits b = 0x1e0fffff /\ bi_nTime b = 1723502400 + 573 * nHeight b) /\
  exists bits v, GetNextWorkRequired slow_chain (Some 60%nat) None main_consensus = Some (bits, None) /\
    valid_target bits = Some v /\ v * 15000 < hash_value (powLimit main_consensus) /\
    PermittedDifficultyTransition main_consensus 61 0x1e0fffff bits = false.
Proof.
  split; [exact slow_chain_ok|]. split; [vm_compute; reflexivity|]. split; [vm_compute; reflexivity|]. split.
  - intros p b Hp. apply list_elem_of_lookup_2 in Hp. revert b Hp. rewrite <- Forall_forall.
    apply (bool_decide_unpack _). vm_compute. exact I.
  - destruct main_lwma_ok as (HT & HN & HNr & Hlim & Hret).
    destruct (GetNextWorkRequired_spec main_consensus main_spacing HT slow_chain slow_chain_ok 60 HN HNr Hlim Hret 60 slow_tip None)
      as (_ & _ & _ & ->); [vm_compute; reflexivity|vm_compute; discriminate|].
    eexists _, _. split; [vm_compute; reflexivity|]. split; [vm_compute; reflexivity|]. split; [vm_compute; reflexivity|].
    vm_compute. reflexivity.
Qed.

(** The genesis blocks under this chain's hash: main and regtest satisfy their own bits, the blocks of testnet and testnet4, kept
    from the SHA-256 networks, do not. *)
Theorem genesis_pow (params : Params) :
  @CheckProofOfWork portable_cpu (header main_genesis) params = true /\
  @CheckProofOfWork portable_cpu (header regtest_genesis) params = true /\
  @CheckProofOfWork portable_cpu (header testnet_genesis) params = false /\
  @CheckProofOfWork portable_cpu (header testnet4_genesis) params = false.
Proof. split_and!; vm_compute; reflexivity. Qed.

(** ** Witnesses *)

Definition even_chain : BlockMap := regular_chain 60 120 0x1e0fffff.
Definition even_tip : CBlockIndex := default CBlockIndex_default (even_chain !! 60%nat).

Lemma even_chain_ok : tree_ok even_chain.
Proof. apply tree_okb_ok. vm_compute. reflexivity. Qed.


Lemma lwma_steady_witness : GetNextWorkRequired even_chain (Some 60%nat) None (@main_consensus portable_cpu) = Some (0x1e0fffff, None).
Proof.
  apply (lwma_steady (@main_consensus portable_cpu) main_spacing 60 even_chain 60 even_tip 0x1e0fffff (compact_value 0x1e0fffff)
    main_lwma_ok even_chain_ok); try (vm_compute; (reflexivity || discriminate)).
  - apply (bool_decide_unpack _). vm_compute. exact I.
  - split; [discriminate|reflexivity].
Defined.

Lemma pow_check_witness : hash_value uint256_null <= 0x7fffff * 2 ^ 232 /\
  CheckProofOfWork_hash uint256_null 0x207fffff (@main_consensus portable_cpu) = true.
Proof.
  assert (H0 : blob_ok 32 uint256_null) by (split; [reflexivity|apply (bool_decide_unpack _); vm_compute; exact I]).
  split; [vm_compute; discriminate|].
  apply (pow_check uint256_null uint256_null 0x207fffff (@main_consensus portable_cpu) H0 H0); [split; [discriminate|reflexivity]|].
  exists (0x7fffff * 2 ^ 232). split; [vm_compute; reflexivity|vm_compute; discriminate].
Defined.

Lemma permitted_transition_witness :
  PermittedDifficultyTransition (@main_consensus portable_cpu) 1 0x1e0fffff 0x1e07ffff = true.
Proof.
  apply (permitted_transition (@main_consensus portable_cpu) 1 0x1e0fffff 0x1e07ffff (compact_value 0x1e0fffff) (compact_value 0x1e07ffff));
    try (vm_compute; (reflexivity || (split; (reflexivity || discriminate)))). vm_compute. discriminate.
Defined.

Lemma permitted_transition_wraps_witness :
  PermittedDifficultyTransition (signet_consensus [] uint256_null) 5 0x20400000 0x20400000 = false.
Proof. apply (permitted_transition_wraps [] uint256_null 5). lia. Defined.
