(* ===== verification/BlockCheck.v ===== *)
(** * Checks of blocks and headers

    src/validation.cpp (block header, block and contextual checks, acceptance of a header), the block parts of
    src/consensus/validation.h and src/deploymentstatus.h.

    Signet block solutions need the script interpreter: the result of [CheckSignetBlockSolution] is an argument.
    The flags in which a block object remembers what was checked ([BlockMemo]) are passed and returned.  The clock is an
    argument in nanoseconds.

    [ContextualCheckBlockHeader] compares [block.nBits] with a call that stores into it.  C++ leaves open which
    operand is evaluated first: [bits_first] says whether this compiler reads the member before the call. *)

From Stdlib Require Import ZArith Lia Bool String.
From stdpp Require Import base numbers list gmap strings.
From S2P Require Import Prelude ArithUint Uint256 Arith256 Params Hashes Serialize Primitives Opcodes Script BlockIndex Coins TxVerify Merkle ChainParams Pow.
Local Open Scope Z_scope.

(** ** src/consensus/validation.h *)

Definition NO_WITNESS_COMMITMENT : Z := -1.
Definition MINIMUM_WITNESS_COMMITMENT : Z := 38.

(** the size of a block without witnesses *)
Definition stripped_block_size (block : CBlock) : Z :=
  zlen (ser_CBlockHeader (header block) ++ ser_vector (SerializeTransaction false) (vtx block)).

Definition GetBlockWeight (block : CBlock) : Z :=
  stripped_block_size block * (WITNESS_SCALE_FACTOR - 1) + zlen (ser_CBlock block).

Definition is_commitment (spk : CScript) : bool :=
  (zlen spk >=? MINIMUM_WITNESS_COMMITMENT) && (spk.[0] =? OP_RETURN) && (spk.[1] =? 0x24) && (spk.[2] =? 0xaa) &&
  (spk.[3] =? 0x21) && (spk.[4] =? 0xa9) && (spk.[5] =? 0xed).

Fixpoint commitment_loop (o : Z) (outs : list CTxOut) (commitpos : Z) : Z :=
  match outs with
  | [] => commitpos
  | vout :: outs => commitment_loop (o + 1) outs (if is_commitment (scriptPubKey vout) then o else commitpos)
  end.

Definition GetWitnessCommitmentIndex (block : CBlock) : Z :=
  match vtx block with
  | [] => NO_WITNESS_COMMITMENT
  | tx :: _ => commitment_loop 0 (vout tx) NO_WITNESS_COMMITMENT
  end.

(** ** src/deploymentstatus.h, buried deployments *)

Definition DeploymentActiveAfter (pindexPrev : option CBlockIndex) (params : Params) (dep : BuriedDeployment) : bool :=
  match pindexPrev with None => 0 | Some prev => nHeight prev + 1 end >=? DeploymentHeight params dep.

Definition DeploymentActiveAt (index : CBlockIndex) (params : Params) (dep : BuriedDeployment) : bool :=
  nHeight index >=? DeploymentHeight params dep.

Notation block_verdict := (verdict BlockValidationResult unit).

(** the mutable flags of [CBlock], memory of the checks that passed; a new block object has none of them set *)
Record BlockMemo : Type := { fChecked : bool; m_checked_witness_commitment : bool; m_checked_merkle_root : bool }.
Definition unset_memo : BlockMemo := {| fChecked := false; m_checked_witness_commitment := false; m_checked_merkle_root := false |}.

Section checks.
Context `{Cpu}.

(** ** src/validation.cpp *)

Definition CheckBlockHeader (block : CBlockHeader) (consensusParams : Params) (fCheckPOW : bool) : block_verdict :=
  if fCheckPOW && negb (CheckProofOfWork block consensusParams) then Invalid BLOCK_INVALID_HEADER "high-hash" else Valid tt.

Definition CheckMerkleRoot (memo : BlockMemo) (block : CBlock) : block_verdict * BlockMemo :=
  if m_checked_merkle_root memo then (Valid tt, memo)
  else
    let '(merkle_root, mutated) := BlockMerkleRoot block in
    if negb (blob_eqb (hashMerkleRoot (header block)) merkle_root) then (Invalid BLOCK_MUTATED "bad-txnmrklroot", memo)
    else if mutated then (Invalid BLOCK_MUTATED "bad-txns-duplicate", memo)
    else (Valid tt, {| fChecked := fChecked memo; m_checked_witness_commitment := m_checked_witness_commitment memo; m_checked_merkle_root := true |}).

Definition CheckWitnessMalleation (memo : BlockMemo) (block : CBlock) (expect_witness_commitment : bool) : option (block_verdict * BlockMemo) :=
  if expect_witness_commitment && m_checked_witness_commitment memo then Some (Valid tt, memo)
  else
    let commitpos := GetWitnessCommitmentIndex block in
    if expect_witness_commitment && negb (commitpos =? NO_WITNESS_COMMITMENT) then
      tx ← vtx block !! 0%nat;
      in0 ← vin tx !! 0%nat;
      match scriptWitness in0 with
      | [nonce] =>
          if negb (zlen nonce =? 32) then Some (Invalid BLOCK_MUTATED "bad-witness-nonce-size", memo)
          else
            let hash_witness := (BlockWitnessMerkleRoot block).1 in
            let hash_witness := (CHash256_Finalize (CHash256_Write (CHash256_Write [] hash_witness) nonce)).1 in
            out ← vout tx !! Z.to_nat commitpos;
            if negb (bool_decide (hash_witness = take 32 (drop 6 (scriptPubKey out)))) then
              Some (Invalid BLOCK_MUTATED "bad-witness-merkle-match", memo)
            else Some (Valid tt, {| fChecked := fChecked memo; m_checked_witness_commitment := true; m_checked_merkle_root := m_checked_merkle_root memo |})
      | _ => Some (Invalid BLOCK_MUTATED "bad-witness-nonce-size", memo)
      end
    else if existsb HasWitness (vtx block) then Some (Invalid BLOCK_MUTATED "unexpected-witness", memo)
    else Some (Valid tt, memo).

(** the loop over the transactions; the assertion on the kind of a rejection is [None] *)
Fixpoint check_transactions (txs : list CTransaction) : option block_verdict :=
  match txs with
  | [] => Some (Valid tt)
  | tx :: txs =>
      match CheckTransaction tx with
      | Valid _ => check_transactions txs
      | Invalid TX_CONSENSUS reason => Some (Invalid BLOCK_CONSENSUS reason)
      | Invalid _ _ => None
      end
  end.

Definition CheckBlock (signet_solution : bool) (memo : BlockMemo) (block : CBlock) (consensusParams : Params) (fCheckPOW fCheckMerkleRoot : bool)
    : option (block_verdict * BlockMemo) :=
  if fChecked memo then Some (Valid tt, memo)
  else
    match CheckBlockHeader (header block) consensusParams fCheckPOW with
    | Invalid r reason => Some (Invalid r reason, memo)
    | Valid _ =>
        if signet_blocks consensusParams && fCheckPOW && negb signet_solution then Some (Invalid BLOCK_CONSENSUS "bad-signet-blksig", memo)
        else
          match (if fCheckMerkleRoot then CheckMerkleRoot memo block else (Valid tt, memo)) with
          | (Invalid r reason, memo) => Some (Invalid r reason, memo)
          | (Valid _, memo) =>
              if (zlen (vtx block) =? 0) || (zlen (vtx block) * WITNESS_SCALE_FACTOR >? MAX_BLOCK_WEIGHT) ||
                 (stripped_block_size block * WITNESS_SCALE_FACTOR >? MAX_BLOCK_WEIGHT) then Some (Invalid BLOCK_CONSENSUS "bad-blk-length", memo)
              else if negb (match vtx block with tx :: _ => IsCoinBase tx | [] => false end) then Some (Invalid BLOCK_CONSENSUS "bad-cb-missing", memo)
              else if existsb IsCoinBase (tail (vtx block)) then Some (Invalid BLOCK_CONSENSUS "bad-cb-multiple", memo)
              else
                v ← check_transactions (vtx block);
                match v with
                | Invalid r reason => Some (Invalid r reason, memo)
                | Valid _ =>
                    let nSigOps := foldl (fun n tx => u32 (n + GetLegacySigOpCount tx)) 0 (vtx block) in
                    if u32 (nSigOps * WITNESS_SCALE_FACTOR) >? MAX_BLOCK_SIGOPS_COST then Some (Invalid BLOCK_CONSENSUS "bad-blk-sigops", memo)
                    else Some (Valid tt, {| fChecked := (fCheckPOW && fCheckMerkleRoot) || fChecked memo;
                                            m_checked_witness_commitment := m_checked_witness_commitment memo;
                                            m_checked_merkle_root := m_checked_merkle_root memo |})
                end
          end
    end.

(** The verdict and the header as [GetNextWorkRequired] leaves it. *)
Definition ContextualCheckBlockHeader (bits_first : bool) (t : BlockMap) (block : CBlockHeader) (consensusParams : Params) (pindexPrev : nat) (now : Z)
    : option (block_verdict * CBlockHeader) :=
  prev ← t !! pindexPrev;
  let height := nHeight prev + 1 in
  '(required, pblock) ← GetNextWorkRequired t (Some pindexPrev) (Some block) consensusParams;
  block' ← pblock;
  let nBits_read := nBits (if bits_first : bool then block else block') in
  let block := block' in
  if negb (nBits_read =? required) then Some (Invalid BLOCK_INVALID_HEADER "bad-diffbits", block)
  else
    mtp ← GetMedianTimePast t pindexPrev;
    if GetBlockTime block <=? mtp then Some (Invalid BLOCK_INVALID_HEADER "time-too-old", block)
    else if enforce_BIP94 consensusParams && (Z.rem height (DifficultyAdjustmentInterval consensusParams) =? 0) &&
            (GetBlockTime block <? index_GetBlockTime prev - MAX_TIMEWARP) then Some (Invalid BLOCK_INVALID_HEADER "time-timewarp-attack", block)
    else if nTime block * 10 ^ 9 >? now + MAX_FUTURE_BLOCK_TIME * 10 ^ 9 then Some (Invalid BLOCK_TIME_FUTURE "time-too-new", block)
    else if ((nVersion block <? 2) && DeploymentActiveAfter (Some prev) consensusParams DEPLOYMENT_HEIGHTINCB) ||
            ((nVersion block <? 3) && DeploymentActiveAfter (Some prev) consensusParams DEPLOYMENT_DERSIG) ||
            ((nVersion block <? 4) && DeploymentActiveAfter (Some prev) consensusParams DEPLOYMENT_CLTV)
         then Some (Invalid BLOCK_INVALID_HEADER "bad-version", block)
    else Some (Valid tt, block).

Definition ContextualCheckBlock (t : BlockMap) (memo : BlockMemo) (block : CBlock) (consensusParams : Params) (pindexPrev : option nat)
    : option (block_verdict * BlockMemo) :=
  prev ← match pindexPrev with None => Some None | Some p => b ← t !! p; Some (Some b) end;
  let height := match prev with None => 0 | Some b => nHeight b + 1 end in
  nLockTimeCutoff ←
    (if DeploymentActiveAfter prev consensusParams DEPLOYMENT_CSV then p ← pindexPrev; GetMedianTimePast t p
     else Some (GetBlockTime (header block)));
  if negb (forallb (fun tx => IsFinalTx tx height nLockTimeCutoff) (vtx block)) then Some (Invalid BLOCK_CONSENSUS "bad-txns-nonfinal", memo)
  else
    let check_height :=
      if DeploymentActiveAfter prev consensusParams DEPLOYMENT_HEIGHTINCB then
        tx ← vtx block !! 0%nat;
        in0 ← vin tx !! 0%nat;
        let expect := push_int64 [] height in
        Some (bool_decide (take (length expect) (scriptSig in0) = expect))
      else Some true in
    height_ok ← check_height;
    if negb height_ok then Some (Invalid BLOCK_CONSENSUS "bad-cb-height", memo)
    else
      '(v, memo) ← CheckWitnessMalleation memo block (DeploymentActiveAfter prev consensusParams DEPLOYMENT_SEGWIT);
      match v with
      | Invalid r reason => Some (Invalid r reason, memo)
      | Valid _ =>
          if GetBlockWeight block >? MAX_BLOCK_WEIGHT then Some (Invalid BLOCK_CONSENSUS "bad-blk-weight", memo) else Some (Valid tt, memo)
      end.

(** The position of the header in the index, or the rejection; the index; and the caller's header, which the check changes. *)
Definition AcceptBlockHeader (bits_first : bool) (s : BlockManager) (block : CBlockHeader) (consensusParams : Params) (now : Z) (min_pow_checked : bool)
    : option (verdict BlockValidationResult nat * BlockManager * CBlockHeader) :=
  let hash := CBlockHeader_GetHash block in
  let add block :=
    if negb min_pow_checked then Some (Invalid BLOCK_HEADER_LOW_WORK "too-little-chainwork", s, block)
    else '(s, p) ← AddToBlockIndex s block; Some (Valid p, s, block) in
  if blob_eqb hash (hashGenesisBlock consensusParams) then add block
  else
    match LookupBlockIndex (m_block_index s) hash with
    | Some p =>
        b ← m_block_index s !! p;
        if flag (nStatus b) BLOCK_FAILED_MASK then Some (Invalid BLOCK_CACHED_INVALID "duplicate-invalid", s, block)
        else Some (Valid p, s, block)
    | None =>
        match CheckBlockHeader block consensusParams true with
        | Invalid r reason => Some (Invalid r reason, s, block)
        | Valid _ =>
            match LookupBlockIndex (m_block_index s) (hashPrevBlock block) with
            | None => Some (Invalid BLOCK_MISSING_PREV "prev-blk-not-found", s, block)
            | Some pindexPrev =>
                prev ← m_block_index s !! pindexPrev;
                if flag (nStatus prev) BLOCK_FAILED_MASK then Some (Invalid BLOCK_INVALID_PREV "bad-prevblk", s, block)
                else
                  '(v, block) ← ContextualCheckBlockHeader bits_first (m_block_index s) block consensusParams pindexPrev now;
                  match v with
                  | Invalid r reason => Some (Invalid r reason, s, block)
                  | Valid _ => add block
                  end
            end
        end
    end.

(** ** Helpers of header synchronisation and mining *)

Definition HasValidProofOfWork (headers : list CBlockHeader) (consensusParams : Params) : bool :=
  forallb (fun h => CheckProofOfWork_hash (CBlockHeader_GetHash h) (nBits h) consensusParams) headers.

Fixpoint CalculateClaimedHeadersWork (headers : list CBlockHeader) (total_work : arith_uint256) : option arith_uint256 :=
  match headers with
  | [] => Some total_work
  | header :: headers =>
      w ← GetBlockProof (CBlockIndex_of header);
      CalculateClaimedHeadersWork headers (arith_add total_work w)
  end.

Definition IsBlockMutated (memo : BlockMemo) (block : CBlock) (check_witness_root : bool) : option (bool * BlockMemo) :=
  match CheckMerkleRoot memo block with
  | (Invalid _ _, memo) => Some (true, memo)
  | (Valid _, memo) =>
      match vtx block with
      | tx :: _ =>
          if IsCoinBase tx then
            '(v, memo) ← CheckWitnessMalleation memo block check_witness_root;
            Some (match v with Valid _ => false | Invalid _ _ => true end, memo)
          else Some (existsb (fun tx => zlen (SerializeTransaction false tx) =? 64) (vtx block), memo)
      | [] => Some (false, memo)
      end
  end.

Definition set_first_tx (block : CBlock) (tx : CTransaction) : CBlock := {| header := header block; vtx := tx :: tail (vtx block) |}.

Definition UpdateUncommittedBlockStructures (block : CBlock) (prev : option CBlockIndex) (params : Params) : option CBlock :=
  if negb (GetWitnessCommitmentIndex block =? NO_WITNESS_COMMITMENT) && DeploymentActiveAfter prev params DEPLOYMENT_SEGWIT then
    tx ← vtx block !! 0%nat;
    if HasWitness tx then Some block
    else
      match vin tx with
      | [] => None
      | in0 :: ins =>
          let in0 := {| prevout := prevout in0; scriptSig := scriptSig in0; nSequence := nSequence in0; scriptWitness := [replicate 32 0] |} in
          Some (set_first_tx block {| version := version tx; vin := in0 :: ins; vout := vout tx; nLockTime := nLockTime tx |})
      end
  else Some block.

(** the block and the commitment script, empty when the block already has one *)
Definition GenerateCoinbaseCommitment (block : CBlock) (prev : option CBlockIndex) (params : Params) : option (CBlock * list Z) :=
  if GetWitnessCommitmentIndex block =? NO_WITNESS_COMMITMENT then
    let witnessroot := (BlockWitnessMerkleRoot block).1 in
    let witnessroot := (CHash256_Finalize (CHash256_Write (CHash256_Write [] witnessroot) (replicate 32 0))).1 in
    let commitment := [OP_RETURN; 0x24; 0xaa; 0x21; 0xa9; 0xed] ++ witnessroot in
    tx ← vtx block !! 0%nat;
    let tx := {| version := version tx; vin := vin tx; vout := vout tx ++ [{| nValue := 0; scriptPubKey := commitment |}]; nLockTime := nLockTime tx |} in
    block ← UpdateUncommittedBlockStructures (set_first_tx block tx) prev params;
    Some (block, commitment)
  else
    block ← UpdateUncommittedBlockStructures block prev params;
    Some (block, []).

End checks.

(** ** What the checks establish *)

(** the rules [CheckBlock] enforces, apart from the header *)
Definition block_body_ok (block : CBlock) : Prop :=
  (exists cb txs, vtx block = cb :: txs /\ IsCoinBase cb = true /\ Forall (fun tx => IsCoinBase tx = false) txs) /\
  Forall well_formed_tx (vtx block) /\
  4 * zlen (vtx block) <= MAX_BLOCK_WEIGHT /\ 4 * stripped_block_size block <= MAX_BLOCK_WEIGHT /\
  u32 (foldl (fun n tx => u32 (n + GetLegacySigOpCount tx)) 0 (vtx block) * WITNESS_SCALE_FACTOR) <= MAX_BLOCK_SIGOPS_COST.

Lemma check_transactions_spec txs :
  exists v, check_transactions txs = Some v /\ (v = Valid tt <-> Forall well_formed_tx txs).
Proof.
  induction txs as [|tx txs (v & Hv & IH)]; cbn [check_transactions]; [exists (Valid tt); split; [done|split; [constructor|done]]|].
  rewrite Hv.   pose proof (CheckTransaction_spec tx) as Htx. destruct (CheckTransaction tx) as [[]|r reason].
  - exists v. split; [done|]. rewrite IH, Forall_cons. tauto.
  - destruct Htx as [-> Htx]. eexists. split; [done|]. rewrite Forall_cons. split; [done|tauto].
Qed.

Section spec.
Context `{Cpu}.

Definition merkle_ok (block : CBlock) : Prop := BlockMerkleRoot block = (hashMerkleRoot (header block), false).

(** the flags of a block object say only what is true of the block *)
Record memo_ok (signet_solution : bool) (params : Params) (block : CBlock) (memo : BlockMemo) : Prop := {
  memo_checked : fChecked memo = true -> CheckProofOfWork (header block) params = true /\ (signet_blocks params = true -> signet_solution = true) /\
    merkle_ok block /\ block_body_ok block;
  memo_witness : m_checked_witness_commitment memo = true -> exists memo', CheckWitnessMalleation unset_memo block true = Some (Valid tt, memo');
  memo_root : m_checked_merkle_root memo = true -> merkle_ok block;
}.

Lemma unset_memo_ok signet_solution params block : memo_ok signet_solution params block unset_memo.
Proof. split; done. Qed.

Lemma CheckMerkleRoot_spec signet_solution params memo block : length (hashMerkleRoot (header block)) = length (BlockMerkleRoot block).1 ->
  memo_ok signet_solution params block memo ->
  exists v memo', CheckMerkleRoot memo block = (v, memo') /\ memo_ok signet_solution params block memo' /\ fChecked memo' = fChecked memo /\
    (v = Valid tt <-> merkle_ok block).
Proof.
  intros Hlen Hm. unfold CheckMerkleRoot. destruct (m_checked_merkle_root memo) eqn:Er.
  { eexists _, _. split; [done|]. split; [done|]. split; [done|]. split; [|done]. intros _. exact (memo_root _ _ _ _ Hm Er). }
  unfold merkle_ok. destruct (BlockMerkleRoot block) as [root mutated] eqn:Eb. cbn [fst] in Hlen.
  destruct (blob_eqb (hashMerkleRoot (header block)) root) eqn:E; cbn [negb].
  2:{ eexists _, _. split; [done|]. split; [done|]. split; [done|]. split; [done|]. intros [= -> _].
      rewrite (proj2 (blob_eqb_eq _ _ eq_refl) eq_refl) in E. done. }
  apply blob_eqb_eq in E; [|done]. subst root. destruct mutated; eexists _, _; (split; [done|]); [split; [done|]; split; [done|]; split; congruence|].
  split; [|split; [done|split; congruence]]. split; cbn [fChecked m_checked_witness_commitment m_checked_merkle_root]; [apply (memo_checked _ _ _ _ Hm)|apply (memo_witness _ _ _ _ Hm)|intros _; exact Eb].
Qed.

Lemma coinbase_first block :
  (match vtx block with tx :: _ => IsCoinBase tx | [] => false end = true /\ existsb IsCoinBase (tail (vtx block)) = false) <->
  exists cb txs, vtx block = cb :: txs /\ IsCoinBase cb = true /\ Forall (fun tx => IsCoinBase tx = false) txs.
Proof.
  assert (Hex : forall txs, existsb IsCoinBase txs = false <-> Forall (fun tx => IsCoinBase tx = false) txs).
  { induction txs as [|tx txs IH]; cbn; [split; [constructor|done]|]. rewrite Forall_cons, orb_false_iff, IH. done. }
  destruct (vtx block) as [|tx txs]; cbn [tail].
  - split; [intros [? _]; done|intros (? & ? & ? & _); done].
  - rewrite Hex. split; [intros [? ?]; eauto|intros (? & ? & [= <- <-] & ? & ?); done].
Qed.

(** a rejection, with the flags as they are *)
#[local] Ltac rejects := eexists _, _; split; [done|]; split; [done|]; split; [done|].

Lemma CheckBlock_spec signet_solution memo block params fCheckPOW fCheckMerkleRoot :
  length (hashMerkleRoot (header block)) = length (BlockMerkleRoot block).1 -> memo_ok signet_solution params block memo ->
  exists v memo', CheckBlock signet_solution memo block params fCheckPOW fCheckMerkleRoot = Some (v, memo') /\ memo_ok signet_solution params block memo' /\
    (v = Valid tt <-> (fCheckPOW = true -> CheckProofOfWork (header block) params = true) /\
       (signet_blocks params = true -> fCheckPOW = true -> signet_solution = true) /\
       (fCheckMerkleRoot = true -> merkle_ok block) /\ block_body_ok block).
Proof.
  intros Hlen Hmemo. unfold CheckBlock, CheckBlockHeader. destruct (fChecked memo) eqn:Ec.
  { destruct (memo_checked _ _ _ _ Hmemo Ec) as (H1 & H2 & H3 & H4). eexists _, _. split; [done|]. split; [done|]. split; [tauto|done]. }
  pose proof (coinbase_first block) as Hcf. destruct (fCheckPOW && negb (CheckProofOfWork (header block) params)) eqn:Epow.
  { rejects. intros (Hp & _). apply andb_true_iff in Epow as [E1 Ep]. rewrite (Hp E1) in Ep. done. }
  assert (Hpow : fCheckPOW = true -> CheckProofOfWork (header block) params = true).
  { intros E1. rewrite E1 in Epow. destruct (CheckProofOfWork (header block) params); done. }
  destruct (signet_blocks params && fCheckPOW && negb signet_solution) eqn:Esig.
  { rejects. intros (_ & Hs & _). apply andb_true_iff in Esig as [[E1 E2]%andb_true_iff Es]. rewrite (Hs E1 E2) in Es. done. }
  assert (Hsig : signet_blocks params = true -> fCheckPOW = true -> signet_solution = true).
  { intros E1 E2. rewrite E1, E2 in Esig. destruct signet_solution; done. }
  assert (Hroot : exists v memo', (if fCheckMerkleRoot then CheckMerkleRoot memo block else (Valid tt, memo)) = (v, memo') /\
    memo_ok signet_solution params block memo' /\ fChecked memo' = false /\ (v = Valid tt <-> (fCheckMerkleRoot = true -> merkle_ok block))).
  { destruct fCheckMerkleRoot; [|eexists _, _; split; [done|]; split; [done|]; split; done].
    destruct (CheckMerkleRoot_spec _ _ memo block Hlen Hmemo) as (v & memo' & -> & Hok & E & Hv). exists v, memo'. rewrite E, Hv. tauto. }
  destruct Hroot as (v & memo1 & -> & Hmemo1 & Ec1 & Hv1). destruct v as [[]|r reason]; [|rejects; intros (_ & _ & ? & _); tauto].
  pose proof (proj1 Hv1 eq_refl) as Hmk. clear Hv1 Hmemo Ec. rewrite !Z.gtb_ltb. unfold WITNESS_SCALE_FACTOR at 1 2.
  unfold block_body_ok. destruct (Z.eqb_spec (zlen (vtx block)) 0) as [E0|E0]; cbn [orb].
  { rejects. intros (_ & _ & _ & (cb & txs & Hc & _) & _). apply zlen_nil_inv in E0. congruence. }
  destruct (Z.ltb_spec MAX_BLOCK_WEIGHT (zlen (vtx block) * 4)); cbn [orb].
  { rejects. intros (_ & _ & _ & _ & _ & ? & _). lia. }
  destruct (Z.ltb_spec MAX_BLOCK_WEIGHT (stripped_block_size block * 4)).
  { rejects. intros (_ & _ & _ & _ & _ & _ & ? & _). lia. }
  destruct (match vtx block with tx :: _ => IsCoinBase tx | [] => false end); cbn [negb].
  2:{ rejects. intros (_ & _ & _ & [? _]%Hcf & _). done. }
  destruct (existsb IsCoinBase (tail (vtx block))).
  { rejects. intros (_ & _ & _ & [_ ?]%Hcf & _). done. }
  destruct (check_transactions_spec (vtx block)) as (v & -> & Hv). cbn [mbind option_bind]. destruct v as [[]|r reason].
  2:{ rejects. intros (_ & _ & _ & _ & HF & _). apply Hv in HF. done. }
  destruct (Z.ltb_spec MAX_BLOCK_SIGOPS_COST (u32 (foldl (fun n tx => u32 (n + GetLegacySigOpCount tx)) 0 (vtx block) * WITNESS_SCALE_FACTOR))).
  { rejects. intros (_ & _ & _ & _ & _ & _ & _ & ?). lia. }
  assert (Hbody : block_body_ok block) by (split; [apply Hcf; done|]; split; [tauto|]; lia).
  eexists _, _. split; [done|]. split; [|split; [|done]; intros _; do 3 (split; [done|]); exact Hbody].
  split; cbn [fChecked m_checked_witness_commitment m_checked_merkle_root]; [|apply (memo_witness _ _ _ _ Hmemo1)|apply (memo_root _ _ _ _ Hmemo1)].
  rewrite Ec1, orb_false_r, andb_true_iff. tauto.
Qed.

End spec.

(** ** Witness commitments *)

(** the witness commitment of the block is there and right *)
Definition witness_memo : BlockMemo := {| fChecked := false; m_checked_witness_commitment := true; m_checked_merkle_root := false |}.
Definition checked_witness `{Cpu} (block : CBlock) : Prop := CheckWitnessMalleation unset_memo block true = Some (Valid tt, witness_memo).

Lemma commitment_loop_app o outs out pos :
  commitment_loop o (outs ++ [out]) pos = if is_commitment (scriptPubKey out) then o + zlen outs else commitment_loop o outs pos.
Proof.
  revert o pos. induction outs as [|out' outs IH]; intros o pos; cbn [app commitment_loop length].
  { rewrite Z.add_0_r. done. }
  rewrite IH. rewrite Nat2Z.inj_succ. destruct (is_commitment (scriptPubKey out)); [lia|done].
Qed.

(** the commitment of a block: BLAKE3 of the witness root and the reserved value *)
Definition witness_commitment `{Cpu} (block : CBlock) (nonce : list Z) : list Z :=
  (CHash256_Finalize (CHash256_Write (CHash256_Write [] (BlockWitnessMerkleRoot block).1) nonce)).1.

Lemma witness_commitment_ok `{Cpu} block nonce : Forall hash_ok (ComputeWitnessHash <$> tail (vtx block)) -> zlen nonce = 32 ->
  blob_ok 32 (witness_commitment block nonce).
Proof.
  intros Hl Hn. unfold witness_commitment. change (blob_ok 32 (Hash_pair (BlockWitnessMerkleRoot block).1 nonce)).
  rewrite Hash_pair_spec; [apply blake3_blob|]. unfold BlockWitnessMerkleRoot.
  assert (Hok : hash_ok (ComputeMerkleRoot (replicate 32 0 :: map ComputeWitnessHash (tail (vtx block)))).1).
  { apply ComputeMerkleRoot_ok. constructor; [|exact Hl]. split; [done|]. apply Forall_replicate. vm_compute. intuition congruence. }
  destruct Hok as [-> _]. lia.
Qed.

(** ** Acceptance of headers *)

Definition version_ok (prev : CBlockIndex) (params : Params) (v : Z) : Prop :=
  (DeploymentActiveAfter (Some prev) params DEPLOYMENT_HEIGHTINCB = true -> 2 <= v) /\
  (DeploymentActiveAfter (Some prev) params DEPLOYMENT_DERSIG = true -> 3 <= v) /\
  (DeploymentActiveAfter (Some prev) params DEPLOYMENT_CLTV = true -> 4 <= v).

(** the rules on a header after the block at [p], besides the one on its bits *)
Definition time_rules (t : BlockMap) (params : Params) (p : nat) (now time : Z) (v : Z) : Prop :=
  exists prev mtp, t !! p = Some prev /\ GetMedianTimePast t p = Some mtp /\ mtp < time /\
    (enforce_BIP94 params = true -> Z.rem (nHeight prev + 1) (nPowAveragingWindow params) = 0 -> bi_nTime prev - MAX_TIMEWARP <= time) /\
    time * 10 ^ 9 <= now + MAX_FUTURE_BLOCK_TIME * 10 ^ 9 /\ version_ok prev params v.

Lemma version_check prev params v :
  ((v <? 2) && DeploymentActiveAfter (Some prev) params DEPLOYMENT_HEIGHTINCB ||
   (v <? 3) && DeploymentActiveAfter (Some prev) params DEPLOYMENT_DERSIG ||
   (v <? 4) && DeploymentActiveAfter (Some prev) params DEPLOYMENT_CLTV) = false <-> version_ok prev params v.
Proof.
  unfold version_ok. destruct (DeploymentActiveAfter (Some prev) params DEPLOYMENT_HEIGHTINCB),
    (DeploymentActiveAfter (Some prev) params DEPLOYMENT_DERSIG), (DeploymentActiveAfter (Some prev) params DEPLOYMENT_CLTV);
    rewrite ?andb_true_r, ?andb_false_r, !orb_false_iff, ?Z.ltb_ge; intuition (lia || discriminate).
Qed.

Section headers.
Context `{Cpu}.

(** the comparison of the bits fails only when they are read first *)
#[local] Ltac other_answer := split; [done|]; let E := fresh in let Hx := fresh in intros E Hx;
  match goal with Hno : _ -> _ -> false = true |- _ => discriminate (Hno E Hx) end.

Lemma ContextualCheckBlockHeader_spec bits_first t block params p prev now :
  tree_ok t -> retarget_ok params -> t !! p = Some prev ->
  exists required v, fits 32 required /\ GetNextWorkRequired t (Some p) None params = Some (required, None) /\
    ContextualCheckBlockHeader bits_first t block params p now = Some (v, default block (set_nBits (Some block) required)) /\
    (v = Valid tt <-> (bits_first = true -> nBits block = required) /\ time_rules t params p now (nTime block) (nVersion block)) /\
    (bits_first = false -> v <> Invalid BLOCK_INVALID_HEADER "bad-diffbits") /\
    (bits_first = true -> nBits block <> required -> v = Invalid BLOCK_INVALID_HEADER "bad-diffbits").
Proof.
  intros Ht Hret Hp. destruct (GetNextWorkRequired_total params t p prev Hret Ht Hp) as (required & Hfits & Hreq).
  destruct (median_window_total t (tree_entries t Ht) nMedianTimeSpan p prev Hp) as (w & Hw & _).
  destruct (median_total t (tree_entries t Ht) p prev w Hp Hw) as (mtp & Hm & _).
  exists required. unfold ContextualCheckBlockHeader. rewrite Hp. cbn [mbind option_bind]. rewrite (Hreq (Some block)). cbn [mbind option_bind set_nBits].
  rewrite Hm. cbn [mbind option_bind default]. set (block' := {| nBits := required |}).
  assert (Hrules : time_rules t params p now (nTime block) (nVersion block) <->
    mtp < nTime block /\ (enforce_BIP94 params = true -> Z.rem (nHeight prev + 1) (nPowAveragingWindow params) = 0 -> bi_nTime prev - MAX_TIMEWARP <= nTime block) /\
    nTime block * 10 ^ 9 <= now + MAX_FUTURE_BLOCK_TIME * 10 ^ 9 /\ version_ok prev params (nVersion block)).
  { unfold time_rules. split; [intros (prev' & mtp' & Hp' & Hm' & ?)|intros; exists prev, mtp; done].
    assert (prev' = prev) as -> by congruence. assert (mtp' = mtp) as -> by congruence. done. }
  assert (Hbits : (nBits (if bits_first then block else block') =? required) = true <-> (bits_first = true -> nBits block = required)).
  { destruct bits_first; rewrite Z.eqb_eq; [tauto|]. split; [discriminate|done]. }
  destruct (nBits (if bits_first then block else block') =? required) eqn:Eb; cbn [negb].
  2:{ eexists. split; [done|]. split; [apply Hreq|]. split; [done|]. split; [split; [done|]; intros [Hx _]; apply Hbits in Hx; done|].
      split; [|done]. intros ->. cbn in Eb. rewrite Z.eqb_refl in Eb. done. }
  pose proof (proj1 Hbits eq_refl) as Hb. assert (Hno : bits_first = true -> nBits block <> required -> false = true) by (intros E Hx; destruct (Hx (Hb E))). change (GetBlockTime block') with (nTime block). change (nTime block') with (nTime block).
  change (nVersion block') with (nVersion block). unfold DifficultyAdjustmentInterval, index_GetBlockTime.
  destruct (Z.leb_spec (nTime block) mtp).
  { eexists. split; [done|]. split; [apply Hreq|]. split; [done|]. rewrite Hrules. split; [split; [done|lia]|other_answer]. }
  destruct (enforce_BIP94 params && (Z.rem (nHeight prev + 1) (nPowAveragingWindow params) =? 0) && (nTime block <? bi_nTime prev - MAX_TIMEWARP)) eqn:Ew.
  { apply andb_true_iff in Ew as [[E1 E2%Z.eqb_eq]%andb_true_iff E3%Z.ltb_lt]. eexists. split; [done|]. split; [apply Hreq|]. split; [done|].
    rewrite Hrules. split; [split; [done|]|other_answer]. intros (_ & _ & Hx & _). specialize (Hx E1 E2). lia. }
  assert (Hwarp : enforce_BIP94 params = true -> Z.rem (nHeight prev + 1) (nPowAveragingWindow params) = 0 -> bi_nTime prev - MAX_TIMEWARP <= nTime block).
  { intros E1 E2. rewrite E1, E2 in Ew. cbn in Ew. apply Z.ltb_ge in Ew. lia. }
  rewrite Z.gtb_ltb. destruct (Z.ltb_spec (now + MAX_FUTURE_BLOCK_TIME * 10 ^ 9) (nTime block * 10 ^ 9)).
  { eexists. split; [done|]. split; [apply Hreq|]. split; [done|]. rewrite Hrules. split; [split; [done|lia]|other_answer]. }
  pose proof (version_check prev params (nVersion block)) as Hv. destruct (_ || _) eqn:Ev.
  { eexists. split; [done|]. split; [apply Hreq|]. split; [done|]. rewrite Hrules, <- Hv. split; [split; [done|intuition discriminate]|other_answer]. }
  eexists. split; [done|]. split; [apply Hreq|]. split; [done|]. rewrite Hrules, <- Hv. split; [tauto|other_answer].
Qed.

(** an entry that satisfies the time rules keeps the index timely *)
Lemma entry_timely s block b q params now : manager_ok s -> LookupBlockIndex (m_block_index s) (hashPrevBlock block) = Some q ->
  entry_of (m_block_index s) (CBlockHeader_GetHash block) block b -> time_rules (m_block_index s) params q now (nTime block) (nVersion block) ->
  timely (m_block_index s) -> timely (m_block_index s ++ [b]).
Proof.
  intros [Ht _] Hq (_ & Hp & _ & _ & _ & Htime & _) (prev & mtp & Hprev & Hm & Hlt & _) Htl.
  apply (timely_snoc (m_block_index s) _ (tree_entries _ Ht) (grows_app _ _) b); [done|done| |]; intros q'; rewrite Hp, Hq.
  - intros [= <-]. exists prev. done.
  - intros m [= <-] Hm'. rewrite Hm in Hm'. injection Hm' as <-. rewrite Htime. done.
Qed.

(** what is asked of a header that is not in the index *)
Definition new_header_ok (t : BlockMap) (block : CBlockHeader) (params : Params) (now : Z) : Prop :=
  CheckProofOfWork block params = true /\
  exists q prev, LookupBlockIndex t (hashPrevBlock block) = Some q /\ t !! q = Some prev /\ flag (nStatus prev) BLOCK_FAILED_MASK = false /\
    GetNextWorkRequired t (Some q) None params = Some (nBits block, None) /\ time_rules t params q now (nTime block) (nVersion block).

(** what is asked of any header *)
Definition header_acceptable (t : BlockMap) (block : CBlockHeader) (params : Params) (now : Z) (min_pow_checked : bool) : Prop :=
  if blob_eqb (CBlockHeader_GetHash block) (hashGenesisBlock params) then min_pow_checked = true
  else match LookupBlockIndex t (CBlockHeader_GetHash block) with
       | Some p => exists b, t !! p = Some b /\ flag (nStatus b) BLOCK_FAILED_MASK = false
       | None => new_header_ok t block params now /\ min_pow_checked = true
       end.

(** the answer [v] with the index [s'] for a header that was checked against the index [s] *)
Definition header_answer (s : BlockManager) (block : CBlockHeader) (accepted : Prop) (v : verdict BlockValidationResult nat) (s' : BlockManager)
    (block' : CBlockHeader) : Prop :=
  ((exists p, v = Valid p) <-> accepted) /\
  (forall p, v = Valid p -> block' = block /\ manager_ok s' /\
     (exists b, m_block_index s' !! p = Some b /\ phashBlock b = Some (CBlockHeader_GetHash block)) /\
     (LookupBlockIndex (m_block_index s) (CBlockHeader_GetHash block) <> None -> s' = s) /\
     (LookupBlockIndex (m_block_index s) (CBlockHeader_GetHash block) = None ->
        exists b, m_block_index s' = m_block_index s ++ [b] /\ entry_of (m_block_index s) (CBlockHeader_GetHash block) block b)) /\
  ((forall p, v <> Valid p) -> s' = s).

Lemma answer_invalid s block (accepted : Prop) r reason block' : ~ accepted -> header_answer s block accepted (Invalid r reason) s block'.
Proof. intros Hn. split; [split; [intros [? ?]; done|done]|]. done. Qed.

Lemma answer_known s block (accepted : Prop) p b : manager_ok s -> accepted -> LookupBlockIndex (m_block_index s) (CBlockHeader_GetHash block) = Some p ->
  m_block_index s !! p = Some b -> phashBlock b = Some (CBlockHeader_GetHash block) -> header_answer s block accepted (Valid p) s block.
Proof.
  intros Hs Ha Hp Hb Hh. split; [split; eauto|]. split; [|done]. intros p' [= <-]. split; [done|]. split; [done|].
  split; [exists b; done|]. split; [done|]. rewrite Hp. done.
Qed.

(** adding an unknown header *)
Lemma answer_added s block (accepted : Prop) : manager_ok s -> header_ok block -> CBlockHeader_GetHash block <> hashPrevBlock block ->
  LookupBlockIndex (m_block_index s) (CBlockHeader_GetHash block) = None -> accepted ->
  exists p s', AddToBlockIndex s block = Some (s', p) /\ header_answer s block accepted (Valid p) s' block.
Proof.
  intros Hs Hok Hself Hnew Ha. destruct (AddToBlockIndex_new s block Hs ltac:(apply Hok) Hself Hnew) as (b & best & E & He & Ht & Hb).
  eexists _, _. split; [exact E|]. split; [split; eauto|]. split; [|intros Hn; destruct (Hn (length (m_block_index s))); done].
  intros p' [= <-]. cbn [m_block_index]. split; [done|]. split; [split; done|].
  split; [exists b; split; [apply (list_lookup_middle _ [] b); done|apply He]|]. split; [done|]. exists b. done.
Qed.

Lemma set_nBits_same block : set_nBits (Some block) (nBits block) = Some block.
Proof. destruct block. reflexivity. Qed.

(** a parent is known before its child *)
Lemma parent_differs (t : BlockMap) (block : CBlockHeader) q : LookupBlockIndex t (hashPrevBlock block) = Some q ->
  LookupBlockIndex t (CBlockHeader_GetHash block) = None -> CBlockHeader_GetHash block <> hashPrevBlock block.
Proof. congruence. Qed.

(** a header that is not in the index *)
Lemma new_header_step s block params now min_pow_checked : manager_ok s -> header_ok block -> retarget_ok params ->
  LookupBlockIndex (m_block_index s) (CBlockHeader_GetHash block) = None ->
  exists v s' block',
    match CheckBlockHeader block params true with
    | Invalid r reason => Some (Invalid r reason, s, block)
    | Valid _ =>
        match LookupBlockIndex (m_block_index s) (hashPrevBlock block) with
        | None => Some (Invalid BLOCK_MISSING_PREV "prev-blk-not-found", s, block)
        | Some pindexPrev =>
            prev ← m_block_index s !! pindexPrev;
            if flag (nStatus prev) BLOCK_FAILED_MASK then Some (Invalid BLOCK_INVALID_PREV "bad-prevblk", s, block)
            else
              '(v, block) ← ContextualCheckBlockHeader true (m_block_index s) block params pindexPrev now;
              match v with
              | Invalid r reason => Some (Invalid r reason, s, block)
              | Valid _ =>
                  if negb min_pow_checked then Some (Invalid BLOCK_HEADER_LOW_WORK "too-little-chainwork", s, block)
                  else '(s, p) ← AddToBlockIndex s block; Some (Valid p, s, block)
              end
        end
    end = Some (v, s', block') /\
    header_answer s block (new_header_ok (m_block_index s) block params now /\ min_pow_checked = true) v s' block' /\
    (blob_eqb (CBlockHeader_GetHash block) (hashGenesisBlock params) = false -> timely (m_block_index s) -> timely (m_block_index s')).
Proof.
  intros Hs Hok Hret Hnew. unfold CheckBlockHeader. cbn [andb].
  destruct (CheckProofOfWork block params) eqn:Hpow; cbn [negb].
  2:{ eexists _, s, block. split; [done|]. split; [apply answer_invalid; intros [[? _] _]; congruence|done]. }
  destruct (LookupBlockIndex (m_block_index s) (hashPrevBlock block)) as [q|] eqn:Hq.
  2:{ eexists _, s, block. split; [done|]. split; [apply answer_invalid; intros [(_ & ? & ? & ? & _) _]; congruence|done]. }
  destruct (LookupBlockIndex_Some _ _ _ Hq) as (prev & Hprev & _). rewrite Hprev. cbn [mbind option_bind].
  destruct (flag (nStatus prev) BLOCK_FAILED_MASK) eqn:Hfail.
  { eexists _, s, block. split; [done|]. split; [apply answer_invalid; intros [(_ & q' & prev' & Hq' & Hp' & Hf' & _) _]; congruence|done]. }
  destruct (ContextualCheckBlockHeader_spec true (m_block_index s) block params q prev now (proj1 Hs) Hret Hprev)
    as (required & v & _ & Hreq & -> & Hv & _). cbn [mbind option_bind].
  destruct v as [[]|r reason].
  2:{ eexists _, s, _. split; [done|]. split; [apply answer_invalid|done]. intros [(_ & q' & prev' & Hq' & _ & _ & Hb & Hr) _].
      assert (q' = q) as -> by congruence. rewrite Hreq in Hb. injection Hb as ->. discriminate (proj2 Hv (conj (fun _ => eq_refl) Hr)). }
  destruct (proj1 Hv eq_refl) as [Hbits Hrules]. specialize (Hbits eq_refl). subst required. rewrite set_nBits_same. change (default block (Some block)) with block.
  assert (Hn : new_header_ok (m_block_index s) block params now) by (split; [done|]; exists q, prev; done).
  destruct min_pow_checked; cbn [negb].
  2:{ eexists _, s, block. split; [done|]. split; [apply answer_invalid; intros [_ ?]; done|done]. }
  destruct (answer_added s block (new_header_ok (m_block_index s) block params now /\ true = true) Hs Hok (parent_differs _ block q Hq Hnew) Hnew (conj Hn eq_refl)) as (p & s' & -> & Ha). cbn [mbind option_bind].
  eexists _, s', block. split; [done|]. split; [exact Ha|]. intros _ Htl.
  destruct (proj1 (proj2 Ha) p eq_refl) as (_ & _ & _ & _ & Hext). destruct (Hext Hnew) as (b & -> & He).
  apply (entry_timely s block b q params now); done.
Qed.

(** the header with other bits *)
Definition with_bits (block : CBlockHeader) (bits : Z) : CBlockHeader := default block (set_nBits (Some block) bits).

(** neither the genesis header nor one of the index *)
Definition unknown_header (s : BlockManager) (block : CBlockHeader) (params : Params) : Prop :=
  blob_eqb (CBlockHeader_GetHash block) (hashGenesisBlock params) = false /\ LookupBlockIndex (m_block_index s) (CBlockHeader_GetHash block) = None.

(** proof of work for the bits the header claims, on a parent that is not marked as failed *)
Definition worked_on (s : BlockManager) (block : CBlockHeader) (params : Params) (q : nat) (prev : CBlockIndex) : Prop :=
  CheckProofOfWork block params = true /\ LookupBlockIndex (m_block_index s) (hashPrevBlock block) = Some q /\
  m_block_index s !! q = Some prev /\ flag (nStatus prev) BLOCK_FAILED_MASK = false.

End headers.

(** ** Properties *)

(** C10: Acceptance of a header where the compiler reads the claimed bits before the call that overwrites them.  On a well-formed index, for parameters
    [GetNextWorkRequired] is total for ([retarget_ok]) and a genesis header that is not its own parent, [AcceptBlockHeader] is total.  It accepts exactly
    the genesis header when the caller vouches for the work of its chain ([min_pow_checked]), a known header that is not marked as failed, and a new header
    with proof of work for its own bits, a known parent that is not marked as failed, the required bits, and a time and version within the rules, when the
    caller vouches.  An accepted header is unchanged and is that of the entry returned; an unknown one extends the index by its entry and keeps its invariant
    and, except for the genesis header, the order of times; in every other case the index is left alone. *)
Theorem accept_header_sound `{Cpu} (s : BlockManager) (block : CBlockHeader) (params : Params) (now : Z) (min_pow_checked : bool)
    (hash := CBlockHeader_GetHash block) :
  manager_ok s -> header_ok block -> retarget_ok params -> (blob_eqb hash (hashGenesisBlock params) = true -> hash <> hashPrevBlock block) ->
  exists v s' block', AcceptBlockHeader true s block params now min_pow_checked = Some (v, s', block') /\
    header_answer s block (header_acceptable (m_block_index s) block params now min_pow_checked) v s' block' /\
    (blob_eqb hash (hashGenesisBlock params) = false -> timely (m_block_index s) -> timely (m_block_index s')).
Proof.
  intros Hs Hok Hret Hgen. unfold AcceptBlockHeader, header_acceptable. fold hash.
  destruct (blob_eqb hash (hashGenesisBlock params)) eqn:Eg.
  { destruct min_pow_checked; cbn [negb];
      [|eexists _, s, block; split; [done|]; split; [apply answer_invalid; done|done]].
    destruct (LookupBlockIndex (m_block_index s) hash) as [q|] eqn:Hq.
    - destruct (LookupBlockIndex_Some _ _ _ Hq) as (b & Hb & Hh). unfold AddToBlockIndex. fold hash. rewrite Hq. cbn [mbind option_bind].
      eexists _, s, block. split; [done|]. split; [apply (answer_known s block _ q b); done|done].
    - destruct (answer_added s block (true = true) Hs Hok (Hgen eq_refl) Hq eq_refl) as (p & s' & -> & Ha). cbn [mbind option_bind].
      eexists _, s', block. split; [done|]. split; [exact Ha|done]. }
  destruct (LookupBlockIndex (m_block_index s) hash) as [q|] eqn:Hq.
  { destruct (LookupBlockIndex_Some _ _ _ Hq) as (b & Hb & Hh). rewrite Hb. cbn [mbind option_bind].
    destruct (flag (nStatus b) BLOCK_FAILED_MASK) eqn:Ef; eexists _, s, block; (split; [done|]); (split; [|done]).
    - apply answer_invalid. intros (b' & Hb' & ?). congruence.
    - apply (answer_known s block _ q b); try done. exists b. done. }
  destruct (new_header_step s block params now min_pow_checked Hs Hok Hret Hq) as (v & s' & block' & E & Ha & Ht).
  exists v, s', block'. split; [exact E|]. split; [exact Ha|]. intros _. exact (Ht Eg).
Qed.

(** Where the compiler evaluates the call first, the required bits are compared with themselves: [ContextualCheckBlockHeader] never answers
    that the bits are wrong, and overwrites the bits of the header with the required ones. *)
Theorem diffbits_vacuous `{Cpu} (t : BlockMap) (block : CBlockHeader) (params : Params) (p : nat) (prev : CBlockIndex) (now : Z) :
  tree_ok t -> retarget_ok params -> t !! p = Some prev ->
  exists required v, GetNextWorkRequired t (Some p) None params = Some (required, None) /\
    ContextualCheckBlockHeader false t block params p now = Some (v, default block (set_nBits (Some block) required)) /\
    (v = Valid tt <-> time_rules t params p now (nTime block) (nVersion block)) /\
    v <> Invalid BLOCK_INVALID_HEADER "bad-diffbits".
Proof.
  intros Ht Hret Hp. destruct (ContextualCheckBlockHeader_spec false t block params p prev now Ht Hret Hp) as (req & v & _ & H1 & H2 & H3 & H4).
  exists req, v. split; [done|]. split; [done|]. split; [|exact (proj1 H4 eq_refl)]. rewrite H3. split; [tauto|]. intros Hr. split; [discriminate|done].
Qed.

(** C38: A header without work enters the index where the call is evaluated first.  On a well-formed index, any unknown header with proof of work for the bits
    it claims, however easy, on a known parent that is not marked as failed and within the rules on time and version, is accepted: its bits are replaced
    by the required ones and it is indexed under the hash of the changed header, unless that is known too.  Nothing is asked of the work of the changed
    header.  Read in the other order, the header is rejected as [bad-diffbits] when its bits are not the required ones, and the index is left alone. *)
Theorem unworked_header_indexed `{Cpu} (s : BlockManager) (block : CBlockHeader) (params : Params) (now : Z) (q : nat) (prev : CBlockIndex) (required : Z)
    (block' := with_bits block required) :
  manager_ok s -> retarget_ok params -> unknown_header s block params -> worked_on s block params q prev ->
  GetNextWorkRequired (m_block_index s) (Some q) None params = Some (required, None) ->
  time_rules (m_block_index s) params q now (nTime block) (nVersion block) ->
  LookupBlockIndex (m_block_index s) (CBlockHeader_GetHash block') = None ->
  (exists s' b, AcceptBlockHeader false s block params now true = Some (Valid (length (m_block_index s)), s', block') /\
     m_block_index s' = m_block_index s ++ [b] /\ entry_of (m_block_index s) (CBlockHeader_GetHash block') block' b /\ manager_ok s') /\
  (nBits block <> required ->
     AcceptBlockHeader true s block params now true = Some (Invalid BLOCK_INVALID_HEADER "bad-diffbits", s, block')).
Proof.
  intros Hs Hret [Hgen Hnew] (Hpow & Hq & Hprev & Hfail) Hreq Hrules Hnew'. unfold AcceptBlockHeader, CheckBlockHeader.
  rewrite Hgen, Hnew, Hpow. cbn [andb negb]. rewrite Hq, Hprev. cbn [mbind option_bind]. rewrite Hfail.
  destruct (ContextualCheckBlockHeader_spec false (m_block_index s) block params q prev now (proj1 Hs) Hret Hprev) as (r & v & Hf & Hr & -> & Hv & _).
  destruct (ContextualCheckBlockHeader_spec true (m_block_index s) block params q prev now (proj1 Hs) Hret Hprev) as (r' & v' & _ & Hr' & E & Hv' & Hd).
  assert (r = required) as -> by congruence. assert (r' = required) as -> by congruence.
  assert (Ev : v = Valid tt) by (apply Hv; split; [discriminate|exact Hrules]). subst v. cbn [mbind option_bind].
  change (default block (set_nBits (Some block) required)) with block' in *. split.
  - destruct (AddToBlockIndex_new s block' Hs) as (b & best & -> & He & Ht & Hb); [exact Hf|exact (parent_differs _ block' q Hq Hnew')|exact Hnew'|].
    cbn [mbind option_bind]. eexists _, b. split; [done|]. split; [done|]. split; [exact He|]. split; done.
  - intros Hne. rewrite E, (proj2 Hd eq_refl Hne). done.
Qed.

(** C19: [CheckBlock] is total and accepts exactly the blocks with proof of work (when asked), a signet solution (on signet), the Merkle root of
    their transactions without duplication (when asked), a single coinbase in first place, well-formed transactions and bounded size and
    signature operations.  This holds whatever flags the block object carries from earlier checks, as long as they are true of the block, and the flags
    it leaves are true again. *)
Theorem check_block `{Cpu} (signet_solution : bool) (memo : BlockMemo) (block : CBlock) (params : Params) (fCheckPOW fCheckMerkleRoot : bool) :
  blob_ok 32 (hashMerkleRoot (header block)) -> Forall hash_ok (ComputeHash <$> vtx block) -> memo_ok signet_solution params block memo ->
  exists v memo', CheckBlock signet_solution memo block params fCheckPOW fCheckMerkleRoot = Some (v, memo') /\ memo_ok signet_solution params block memo' /\
    (v = Valid tt <-> (fCheckPOW = true -> CheckProofOfWork (header block) params = true) /\
       (signet_blocks params = true -> fCheckPOW = true -> signet_solution = true) /\
       (fCheckMerkleRoot = true -> merkle_ok block) /\ block_body_ok block).
Proof.
  intros [Hl _] Hh Hm. apply CheckBlock_spec; [|exact Hm]. pose proof (ComputeMerkleRoot_ok _ Hh) as [Hr _].
  unfold BlockMerkleRoot. rewrite Hl. symmetry. exact Hr.
Qed.

(** The commitment a miner generates is the one validation expects: with segwit active, [GenerateCoinbaseCommitment] on a block without a
    commitment and with an unwitnessed coinbase gives a block that [CheckWitnessMalleation] accepts, changing only the coinbase. *)
Theorem coinbase_commitment `{Cpu} (block : CBlock) (prev : option CBlockIndex) (params : Params) (cb : CTransaction) (in0 : CTxIn) (ins : list CTxIn)
    (txs : list CTransaction) :
  vtx block = cb :: txs -> vin cb = in0 :: ins -> HasWitness cb = false -> GetWitnessCommitmentIndex block = NO_WITNESS_COMMITMENT ->
  DeploymentActiveAfter prev params DEPLOYMENT_SEGWIT = true -> Forall hash_ok (ComputeWitnessHash <$> txs) ->
  exists block' commitment, GenerateCoinbaseCommitment block prev params = Some (block', commitment) /\
    checked_witness block' /\ header block' = header block /\ zlen commitment = MINIMUM_WITNESS_COMMITMENT /\
    vtx block' = {| version := version cb; nLockTime := nLockTime cb; vout := vout cb ++ [{| nValue := 0; scriptPubKey := commitment |}];
                    vin := {| prevout := prevout in0; scriptSig := scriptSig in0; nSequence := nSequence in0; scriptWitness := [replicate 32 0] |} :: ins |} :: txs.
Proof.
  intros Hv Hin Hw Hno Hseg Hok. unfold GenerateCoinbaseCommitment. rewrite Hno, Z.eqb_refl. fold (witness_commitment block (replicate 32 0)).
  assert (Hbok : Forall hash_ok (ComputeWitnessHash <$> tail (vtx block))) by (rewrite Hv; exact Hok).
  destruct (witness_commitment_ok block (replicate 32 0) Hbok eq_refl) as [Hwc _].
  remember (witness_commitment block (replicate 32 0)) as wc eqn:Ewc.
  set (commitment := [OP_RETURN; 0x24; 0xaa; 0x21; 0xa9; 0xed] ++ wc). rewrite Hv. cbn [lookup list_lookup mbind option_bind].
  set (cb1 := {| vout := vout cb ++ [{| nValue := 0; scriptPubKey := commitment |}] |}).
  assert (Hcom : is_commitment commitment = true).
  { unfold is_commitment. replace (zlen commitment) with 38; [reflexivity|]. unfold commitment. rewrite length_app, Hwc. done. }
  assert (Hpos : forall b, vtx b <> [] -> (forall tx0, vtx b !! 0%nat = Some tx0 -> vout tx0 = vout cb1) -> GetWitnessCommitmentIndex b = zlen (vout cb)).
  { intros b Hne Hb. unfold GetWitnessCommitmentIndex. destruct (vtx b) as [|tx0 ?]; [done|]. rewrite (Hb tx0 eq_refl).
    unfold cb1. cbn [vout]. rewrite commitment_loop_app. cbn [scriptPubKey]. rewrite Hcom. lia. }
  assert (Hneg : forall n : nat, (Z.of_nat n =? NO_WITNESS_COMMITMENT) = false) by (intros n; apply Z.eqb_neq; unfold NO_WITNESS_COMMITMENT; lia).
  unfold UpdateUncommittedBlockStructures. rewrite (Hpos (set_first_tx block cb1)), Hneg, Hseg; [|done|intros tx0 [= <-]; done].
  cbn [negb andb set_first_tx vtx lookup list_lookup mbind option_bind]. replace (HasWitness cb1) with false by (symmetry; exact Hw).
  change (vin cb1) with (vin cb). rewrite Hin. cbn [mbind option_bind].
  set (in1 := {| prevout := prevout in0; scriptSig := scriptSig in0; nSequence := nSequence in0; scriptWitness := [replicate 32 0] |}).
  set (cb2 := {| version := version cb; vin := in1 :: ins; vout := vout cb1; nLockTime := nLockTime cb |}).
  set (block' := {| header := header block; vtx := cb2 :: txs |}). exists block', commitment.
  split; [unfold set_first_tx; cbn [header vtx tail]; rewrite Hv; reflexivity|].
  split; [|split; [done|split; [unfold commitment; rewrite length_app, Hwc; done|done]]].
  unfold checked_witness, CheckWitnessMalleation. cbn [m_checked_witness_commitment unset_memo andb]. rewrite (Hpos block'), Hneg; [|done|intros tx0 [= <-]; done]. cbn [andb negb].
  change (vtx block' !! 0%nat) with (Some cb2). cbn [mbind option_bind]. change (vin cb2 !! 0%nat) with (Some in1). cbn [mbind option_bind].
  change (scriptWitness in1) with [replicate 32 0]. cbv iota.
  change (zlen (replicate 32 0) =? 32) with true. cbn [negb vout]. fold (witness_commitment block' (replicate 32 0)).
  replace (witness_commitment block' (replicate 32 0)) with wc.
  2:{ rewrite Ewc. unfold witness_commitment, BlockWitnessMerkleRoot. rewrite Hv. reflexivity. }
  change (vout cb2) with (vout cb ++ [{| nValue := 0; scriptPubKey := commitment |}]).
  rewrite Nat2Z.id, (list_lookup_middle (vout cb) [] _ _ eq_refl). cbn [mbind option_bind scriptPubKey].
  change (drop 6 commitment) with wc. rewrite take_ge by lia. rewrite bool_decide_eq_true_2 by done. done.
Qed.

(** ** Witnesses *)

(** the index of a node that has only a genesis block *)
Definition genesis_index (h : CBlockHeader) : BlockManager :=
  default empty_manager ('(s, _) ← @AddToBlockIndex portable_cpu empty_manager h; Some s).

Lemma genesis_index_ok h : header_ok h -> @CBlockHeader_GetHash portable_cpu h <> hashPrevBlock h -> manager_ok (genesis_index h).
Proof.
  intros Hok Hself. assert (H0 : manager_ok empty_manager) by (apply (@indexed_ok portable_cpu); constructor).
  destruct (@AddToBlockIndex_new portable_cpu empty_manager h H0 ltac:(apply Hok) Hself eq_refl) as (b & best & E & _ & Ht & Hb).
  unfold genesis_index. rewrite E. split; done.
Qed.

(** a header on the main genesis block, and one on the regtest genesis block, with the easiest bits there are *)
Definition easy_header (nonce : Z) : CBlockHeader := {|
  nVersion := 4; hashPrevBlock := hex256 "00000d250c9c1bfdfd933cabc32268b39d1556f6a29db879025019976f287d1e";
  hashMerkleRoot := replicate 32 7; nTime := 1723502520; nBits := 0x207fffff; nNonce := nonce |}.
Definition regtest_header (nonce : Z) : CBlockHeader := {|
  nVersion := 4; hashPrevBlock := hex256 "4c4efcd0ae575f920e8fb827b9d4ccb552d53ab573726afa6788394bb2753492";
  hashMerkleRoot := replicate 32 7; nTime := 1754122692; nBits := 0x207fffff; nNonce := nonce |}.

Lemma genesis_index_main_ok : manager_ok (genesis_index (header main_genesis)).
Proof.
  apply genesis_index_ok; [exact main_genesis_ok|]. rewrite main_hash. apply (bool_decide_eq_false_1 _). vm_compute. reflexivity.
Qed.

Lemma genesis_index_regtest_ok : manager_ok (genesis_index (header regtest_genesis)).
Proof.
  apply genesis_index_ok; [exact regtest_genesis_ok|]. rewrite regtest_hash. apply (bool_decide_eq_false_1 _). vm_compute. reflexivity.
Qed.

Lemma accept_header_sound_witness : exists p s' block',
  @AcceptBlockHeader portable_cpu true (genesis_index (header regtest_genesis)) (regtest_header 1) (@regtest_consensus portable_cpu default_regtest)
    (1754122692 * 10 ^ 9) true = Some (Valid p, s', block') /\ block' = regtest_header 1 /\ manager_ok s' /\ length (m_block_index s') = 2%nat.
Proof.
  destruct (@accept_header_sound portable_cpu (genesis_index (header regtest_genesis)) (regtest_header 1)
    (@regtest_consensus portable_cpu default_regtest) (1754122692 * 10 ^ 9) true genesis_index_regtest_ok) as (v & s' & b & E & (_ & Hv & _) & _).
  - unfold header_ok. split_and!; apply (bool_decide_unpack _); vm_compute; exact I.
  - left. reflexivity.
  - vm_compute. discriminate.
  - assert (Ev : match @AcceptBlockHeader portable_cpu true (genesis_index (header regtest_genesis)) (regtest_header 1)
      (@regtest_consensus portable_cpu default_regtest) (1754122692 * 10 ^ 9) true with Some (Valid _, s1, _) => Nat.eqb (length (m_block_index s1)) 2 | _ => false end = true)
      by (vm_compute; reflexivity).
    rewrite E in Ev. destruct v as [p|]; [|discriminate Ev]. destruct (Hv p eq_refl) as (H1 & H2 & _).
    exists p, s', b. split; [exact E|]. split; [exact H1|]. split; [exact H2|]. apply Nat.eqb_eq. exact Ev.
Defined.

Lemma unworked_header_indexed_witness (now := 1723502520 * 10 ^ 9) : exists s' block' b,
  @AcceptBlockHeader portable_cpu false (genesis_index (header main_genesis)) (easy_header 0) (@main_consensus portable_cpu) now true =
    Some (Valid (length (m_block_index (genesis_index (header main_genesis)))), s', block') /\
  m_block_index s' = m_block_index (genesis_index (header main_genesis)) ++ [b] /\ bi_nBits b = 0x1e0fffff /\
  block' = with_bits (easy_header 0) 0x1e0fffff /\
  @CheckProofOfWork portable_cpu (with_bits (easy_header 0) 0x1e0fffff) (@main_consensus portable_cpu) = false.
Proof.
  destruct (@unworked_header_indexed portable_cpu (genesis_index (header main_genesis)) (easy_header 0) (@main_consensus portable_cpu) now 0
    (default CBlockIndex_default (m_block_index (genesis_index (header main_genesis)) !! 0%nat)) 0x1e0fffff) as [(s' & b & E & Hi & He & _) _].
  - exact genesis_index_main_ok.
  - right. exists main_spacing, 60. exact main_lwma_ok.
  - split; vm_compute; reflexivity.
  - split; [vm_compute; reflexivity|]. split; [vm_compute; reflexivity|]. split; vm_compute; reflexivity.
  - vm_compute. reflexivity.
  - exists (default CBlockIndex_default (m_block_index (genesis_index (header main_genesis)) !! 0%nat)), 1723502400.
    split; [vm_compute; reflexivity|]. split; [vm_compute; reflexivity|]. split; [reflexivity|].
    split; [vm_compute; discriminate|]. split; [vm_compute; discriminate|]. unfold version_ok. split_and!; intros _; vm_compute; discriminate.
  - vm_compute. reflexivity.
  - exists s', (with_bits (easy_header 0) 0x1e0fffff), b. split; [exact E|]. split; [exact Hi|]. split; [apply He|]. split; [reflexivity|].
    vm_compute. reflexivity.
Defined.

Lemma diffbits_vacuous_witness : exists v,
  @ContextualCheckBlockHeader false (m_block_index (genesis_index (header main_genesis))) (easy_header 0) (@main_consensus portable_cpu) 0
    (1723502520 * 10 ^ 9) = Some v /\ v.1 <> Invalid BLOCK_INVALID_HEADER "bad-diffbits".
Proof.
  destruct (@diffbits_vacuous portable_cpu (m_block_index (genesis_index (header main_genesis))) (easy_header 0) (@main_consensus portable_cpu) 0
    (default CBlockIndex_default (m_block_index (genesis_index (header main_genesis)) !! 0%nat)) (1723502520 * 10 ^ 9) (proj1 genesis_index_main_ok))
    as (req & v & _ & E & _ & Hv).
  - right. exists main_spacing, 60. exact main_lwma_ok.
  - vm_compute. reflexivity.
  - eexists. split; [exact E|exact Hv].
Defined.

Lemma check_block_witness : exists v memo', @CheckBlock portable_cpu false unset_memo main_genesis (@main_consensus portable_cpu) true true = Some (v, memo') /\
  @memo_ok portable_cpu false (@main_consensus portable_cpu) main_genesis memo' /\ (v = Valid tt -> merkle_ok main_genesis).
Proof.
  destruct (@check_block portable_cpu false unset_memo main_genesis (@main_consensus portable_cpu) true true) as (v & memo' & E & Hm & Hv).
  - exact (proj1 (proj2 (proj2 main_genesis_ok))).
  - apply (bool_decide_unpack _). vm_compute. exact I.
  - apply unset_memo_ok.
  - exists v, memo'. split; [exact E|]. split; [exact Hm|]. intros H. apply (proj1 Hv H). reflexivity.
Defined.

(** a block of the genesis coinbase and one spending transaction *)
Definition sample_block : CBlock := {| header := header main_genesis; vtx := vtx main_genesis ++ [sample_spend] |}.
Definition sample_coinbase : CTransaction := default sample_spend (vtx main_genesis !! 0%nat).
Definition sample_coinbase_in : CTxIn := default {| prevout := COutPoint_null; scriptSig := []; nSequence := 0; scriptWitness := [] |} (vin sample_coinbase !! 0%nat).

Lemma coinbase_commitment_witness : exists block' commitment,
  @GenerateCoinbaseCommitment portable_cpu sample_block (m_block_index (genesis_index (header main_genesis)) !! 0%nat) (@main_consensus portable_cpu) =
    Some (block', commitment) /\ @checked_witness portable_cpu block'.
Proof.
  destruct (@coinbase_commitment portable_cpu sample_block (m_block_index (genesis_index (header main_genesis)) !! 0%nat) (@main_consensus portable_cpu)
    sample_coinbase sample_coinbase_in [] [sample_spend]) as (b & c & E & Hc & _).
  - vm_compute. reflexivity.
  - vm_compute. reflexivity.
  - vm_compute. reflexivity.
  - vm_compute. reflexivity.
  - vm_compute. reflexivity.
  - apply (bool_decide_unpack _). vm_compute. exact I.
  - exists b, c. split; [exact E|exact Hc].
Defined.
