(* ===== verification/VersionBits.v ===== *)
(** * Version bits

    The BIP9 deployment logic of src/versionbits.h, src/versionbits_impl.h and
    src/versionbits.cpp, with the tables of src/deploymentinfo.cpp and the
    version-bits overloads of src/deploymentstatus.h.

    [AbstractThresholdConditionChecker] is a class: an instance gives the virtual
    functions, and [Condition] may change a state of its own, which is how the
    checker for unknown bits fills the caches of the known deployments.  A
    [ThresholdConditionCache] maps the parent of a period's first block, a position
    in the block index or [None] for the null pointer, to the state of the period.

    The states that the cached walk returns are those of the cache-free automaton
    [period_state], which folds BIP9's transition over the boundaries of a branch. *)

From Stdlib Require Import ZArith Lia Bool String.
From stdpp Require Import base option list gmap strings decidable.
From S2P Require Import Prelude Uint256 Arith256 Params Hashes BlockIndex ChainParams.
Local Open Scope Z_scope.
Local Open Scope adonai_scope.

(** ** States, caches and checkers *)

Inductive ThresholdState : Type := DEFINED | STARTED | LOCKED_IN | ACTIVE | FAILED.

#[export] Instance ThresholdState_eq_dec : EqDecision ThresholdState.
Proof. solve_decision. Defined.

Definition StateName (state : ThresholdState) : string :=
  match state with
  | DEFINED => "defined" | STARTED => "started" | LOCKED_IN => "locked_in" | ACTIVE => "active" | FAILED => "failed"
  end.

Definition VERSIONBITS_TOP_BITS : Z := i32 0x20000000.
Definition VERSIONBITS_TOP_MASK : Z := i32 0xE0000000.
Definition VERSIONBITS_NUM_BITS : Z := 29.

Notation ThresholdConditionCache := (gmap (option nat) ThresholdState).

(** the virtual functions of a checker of type [C]; [St] is what [Condition] changes *)
Class AbstractThresholdConditionChecker (C St : Type) := {
  Condition : C -> BlockMap -> nat -> St -> option (bool * St);
  BeginTime : C -> Z;
  EndTime : C -> Z;
  MinActivationHeight : C -> Z;
  Period : C -> Z;
  Threshold : C -> Z;
}.

(** ** GetStateFor *)

Section checker.
Context {C St : Type} `{Chk : AbstractThresholdConditionChecker C St}.
Implicit Types (c : C) (t : BlockMap) (cache : ThresholdConditionCache) (st : St).

(** the last block before the period that contains the successor of [p]; the remainder by zero is undefined *)
Definition period_parent c t (p : nat) : option (option nat) :=
  b ← t !! p;
  if Period c =? 0 then None else GetAncestor t p (nHeight b - Z.rem (nHeight b + 1) (Period c)).

(** the walk backwards; the height of the first block bounds the number of steps *)
Fixpoint walk_back (fuel : nat) c t cache (pindexPrev : option nat) (vToCompute : list nat)
    : option (ThresholdConditionCache * option nat * list nat) :=
  match cache !! pindexPrev with
  | Some _ => Some (cache, pindexPrev, vToCompute)
  | None =>
      match pindexPrev with
      | None => Some (<[None := DEFINED]> cache, None, vToCompute)
      | Some p =>
          mtp ← GetMedianTimePast t p;
          if mtp <? BeginTime c then Some (<[Some p := DEFINED]> cache, Some p, vToCompute)
          else
            match fuel with
            | O => None
            | S fuel =>
                b ← t !! p;
                prev ← GetAncestor t p (nHeight b - Period c);
                walk_back fuel c t cache prev (p :: vToCompute)
            end
      end
  end.

(** [for (int i = 0; i < nPeriod; i++)]: how many of the [n] blocks that end at [pindexCount] meet the condition *)
Fixpoint count_loop (n : nat) c t (pindexCount : option nat) (count : Z) st : option (Z * St) :=
  match n with
  | O => Some (count, st)
  | S n =>
      p ← pindexCount; b ← t !! p;
      '((ok, st) : bool * St) ← Condition c t p st;
      count_loop n c t (pprev b) (if ok then count + 1 else count) st
  end.

(** the [switch] of the walk forward *)
Definition state_next c t (state : ThresholdState) (p : nat) st : option (ThresholdState * St) :=
  match state with
  | DEFINED => mtp ← GetMedianTimePast t p; Some (if mtp >=? BeginTime c then STARTED else DEFINED, st)
  | STARTED =>
      '(count, st) ← count_loop (Z.to_nat (Period c)) c t (Some p) 0 st;
      if count >=? Threshold c then Some (LOCKED_IN, st)
      else mtp ← GetMedianTimePast t p; Some (if mtp >=? EndTime c then FAILED else STARTED, st)
  | LOCKED_IN => b ← t !! p; Some (if nHeight b + 1 >=? MinActivationHeight c then ACTIVE else LOCKED_IN, st)
  | FAILED | ACTIVE => Some (state, st)
  end.

(** the walk forward, through the stack of blocks to compute *)
Fixpoint walk_forward c t (state : ThresholdState) (vToCompute : list nat) cache st
    : option (ThresholdState * ThresholdConditionCache * St) :=
  match vToCompute with
  | [] => Some (state, cache, st)
  | p :: rest =>
      '(next, st) ← state_next c t state p st;
      walk_forward c t next rest (<[Some p := next]> cache) st
  end.

Definition GetStateFor c t (pindexPrev : option nat) cache st : option (ThresholdState * ThresholdConditionCache * St) :=
  if BeginTime c =? ALWAYS_ACTIVE then Some (ACTIVE, cache, st)
  else if BeginTime c =? NEVER_ACTIVE then Some (FAILED, cache, st)
  else
    pindexPrev ← match pindexPrev with None => Some None | Some p => period_parent c t p end;
    let fuel := match pindexPrev ≫= (t !!.) with Some b => S (Z.to_nat (nHeight b)) | None => O end in
    '(cache, pindexPrev, vToCompute) ← walk_back fuel c t cache pindexPrev [];
    state ← cache !! pindexPrev;
    walk_forward c t state vToCompute cache st.

(** ** Statistics and heights *)

Record BIP9Stats : Type := { stats_period : Z; stats_threshold : Z; stats_elapsed : Z; stats_count : Z; stats_possible : bool }.

(** the [do] loop, which runs [blocks_in_period] times; [signalling] is the optional output vector *)
Fixpoint stats_loop (blocks_in_period : nat) c t (currentIndex : option nat) (elapsed count : Z) (signalling : option (list bool)) st
    : option (Z * Z * option (list bool) * St) :=
  match blocks_in_period with
  | O => Some (elapsed, count, signalling, st)
  | S n =>
      p ← currentIndex; b ← t !! p;
      '((ok, st) : bool * St) ← Condition c t p st;
      stats_loop n c t (pprev b) (elapsed + 1) (if ok then count + 1 else count)
        (if ok then (fun l => <[n := true]> l) <$> signalling else signalling) st
  end.

(** The members are [uint32_t], so that [possible] compares unsigned differences. *)
Definition GetStateStatisticsFor c t (pindex : option nat) (signalling_blocks : option (list bool)) st : option (BIP9Stats * option (list bool) * St) :=
  let period := u32 (Period c) in
  let threshold := u32 (Threshold c) in
  match pindex with
  | None => Some ({| stats_period := period; stats_threshold := threshold; stats_elapsed := 0; stats_count := 0; stats_possible := false |},
                  signalling_blocks, st)
  | Some p =>
      b ← t !! p;
      if period =? 0 then None
      else
        let blocks_in_period := Z.to_nat (1 + u32 (nHeight b) mod period) in
        '(elapsed, count, signalling, st) ← stats_loop blocks_in_period c t (Some p) 0 0
           ((fun _ => replicate blocks_in_period false) <$> signalling_blocks) st;
        Some ({| stats_period := period; stats_threshold := threshold; stats_elapsed := elapsed; stats_count := count;
                 stats_possible := u32 (period - threshold) >=? u32 (elapsed - count) |}, signalling, st)
  end.

(** the loop of [GetStateSinceHeightFor], down to the first period of the state *)
Fixpoint since_loop (fuel : nat) c t (initialState : ThresholdState) (pindexPrev : nat) (previousPeriodParent : option nat) cache st
    : option (nat * ThresholdConditionCache * St) :=
  match previousPeriodParent with
  | None => Some (pindexPrev, cache, st)
  | Some q =>
      '(state, cache, st) ← GetStateFor c t (Some q) cache st;
      if bool_decide (state = initialState) then
        match fuel with
        | O => None
        | S fuel =>
            b ← t !! q; prev ← GetAncestor t q (nHeight b - Period c);
            since_loop fuel c t initialState q prev cache st
        end
      else Some (pindexPrev, cache, st)
  end.

Definition GetStateSinceHeightFor c t (pindexPrev : option nat) cache st : option (Z * ThresholdConditionCache * St) :=
  if (BeginTime c =? ALWAYS_ACTIVE) || (BeginTime c =? NEVER_ACTIVE) then Some (0, cache, st)
  else
    '(initialState, cache, st) ← GetStateFor c t pindexPrev cache st;
    if bool_decide (initialState = DEFINED) then Some (0, cache, st)
    else
      p ← pindexPrev; q ← mjoin (period_parent c t p);
      b ← t !! q; previousPeriodParent ← GetAncestor t q (nHeight b - Period c);
      '(q, cache, st) ← since_loop (S (Z.to_nat (nHeight b))) c t initialState q previousPeriodParent cache st;
      b ← t !! q; Some (nHeight b + 1, cache, st).

End checker.

(** ** The checker of a deployment *)

Notation VersionBitsConditionChecker := BIP9Deployment.

Definition Mask (dep : VersionBitsConditionChecker) : Z := u32 (Z.shiftl 1 (bit dep)).

(** [Condition(int32_t nVersion)]; the second conjunction is in [uint32_t] *)
Definition signals (dep : VersionBitsConditionChecker) (nVersion : Z) : bool :=
  (Z.land nVersion VERSIONBITS_TOP_MASK =? VERSIONBITS_TOP_BITS) && negb (Z.land (u32 nVersion) (Mask dep) =? 0).

#[export] Instance deployment_checker : AbstractThresholdConditionChecker VersionBitsConditionChecker unit := {
  Condition dep t p st := b ← t !! p; Some (signals dep (bi_nVersion b), st);
  BeginTime := nStartTime;
  EndTime := nTimeout;
  MinActivationHeight := min_activation_height;
  Period dep := i32 (period dep);
  Threshold dep := i32 (threshold dep);
}.

(** ** The cache of all deployments *)

Definition MAX_VERSION_BITS_DEPLOYMENTS : list DeploymentPos := [DEPLOYMENT_TESTDUMMY; DEPLOYMENT_TAPROOT].

(** [std::array<ThresholdConditionCache, MAX_VERSION_BITS_DEPLOYMENTS>] *)
Notation DeploymentCaches := (DeploymentPos -> ThresholdConditionCache).
Definition set_cache (caches : DeploymentCaches) (pos : DeploymentPos) (cache : ThresholdConditionCache) : DeploymentCaches :=
  fun d => if decide (d = pos) then cache else caches d.

(** [GetStateFor] of the deployment at [pos] on its own cache *)
Definition deployment_state (t : BlockMap) (params : Params) (pos : DeploymentPos) (pindexPrev : option nat) (caches : DeploymentCaches)
    : option (ThresholdState * DeploymentCaches) :=
  '(state, cache, _) ← GetStateFor (vDeployments params pos) t pindexPrev (caches pos) tt;
  Some (state, set_cache caches pos cache).

(** the static [ComputeBlockVersion] *)
Fixpoint version_loop (deps : list DeploymentPos) (t : BlockMap) (pindexPrev : option nat) (params : Params) (nVersion : Z) (caches : DeploymentCaches)
    : option (Z * DeploymentCaches) :=
  match deps with
  | [] => Some (nVersion, caches)
  | pos :: deps =>
      '(state, caches) ← deployment_state t params pos pindexPrev caches;
      let nVersion := if bool_decide (state = LOCKED_IN) || bool_decide (state = STARTED)
                      then i32 (Z.lor (u32 nVersion) (Mask (vDeployments params pos))) else nVersion in
      version_loop deps t pindexPrev params nVersion caches
  end.
Definition ComputeBlockVersion (t : BlockMap) (pindexPrev : option nat) (params : Params) (caches : DeploymentCaches) : option (Z * DeploymentCaches) :=
  version_loop MAX_VERSION_BITS_DEPLOYMENTS t pindexPrev params VERSIONBITS_TOP_BITS caches.

(** ** The checker of unknown bits *)

Record WarningBitsConditionChecker : Type := { m_params : Params; m_bit : Z; w_period : Z; w_threshold : Z }.

Definition IsTestChain (chainparams : CChainParams) : bool := bool_decide (m_chain_type chainparams <> MAIN).

Definition WarningBitsConditionChecker_of (chainparams : CChainParams) (b : Z) : WarningBitsConditionChecker :=
  let p := i32 (DifficultyAdjustmentInterval (consensus chainparams)) in
  if IsTestChain chainparams
  then {| m_params := consensus chainparams; m_bit := b; w_period := p; w_threshold := Z.quot (p * 3) 4 |}
  else {| m_params := consensus chainparams; m_bit := b; w_period := 2016; w_threshold := 1815 |}.

(** The version that the known deployments ask for is computed last, on the caches of the deployments. *)
Definition warning_condition (w : WarningBitsConditionChecker) (t : BlockMap) (p : nat) (caches : DeploymentCaches) : option (bool * DeploymentCaches) :=
  b ← t !! p;
  if (nHeight b >=? MinBIP9WarningHeight (m_params w)) &&
     (Z.land (bi_nVersion b) VERSIONBITS_TOP_MASK =? VERSIONBITS_TOP_BITS) &&
     negb (Z.land (Z.shiftr (bi_nVersion b) (m_bit w)) 1 =? 0)
  then
    '(nVersion, caches) ← ComputeBlockVersion t (pprev b) (m_params w) caches;
    Some (Z.land (Z.shiftr nVersion (m_bit w)) 1 =? 0, caches)
  else Some (false, caches).

#[export] Instance warning_checker : AbstractThresholdConditionChecker WarningBitsConditionChecker DeploymentCaches := {
  Condition := warning_condition;
  BeginTime _ := 0;
  EndTime _ := 2 ^ 63 - 1;
  MinActivationHeight _ := 0;
  Period := w_period;
  Threshold := w_threshold;
}.

(** ** VersionBitsCache *)

Record VersionBitsCache : Type := { m_warning_caches : list ThresholdConditionCache; m_caches : DeploymentCaches }.

Definition VersionBitsCache_new : VersionBitsCache :=
  {| m_warning_caches := replicate (Z.to_nat VERSIONBITS_NUM_BITS) ∅; m_caches := fun _ => ∅ |}.
(** [Clear] empties the caches of the deployments only. *)
Definition Clear (vb : VersionBitsCache) : VersionBitsCache := {| m_warning_caches := m_warning_caches vb; m_caches := fun _ => ∅ |}.
Definition set_caches (vb : VersionBitsCache) (caches : DeploymentCaches) : VersionBitsCache :=
  {| m_warning_caches := m_warning_caches vb; m_caches := caches |}.

Definition IsActiveAfter (t : BlockMap) (pindexPrev : option nat) (params : Params) (pos : DeploymentPos) (vb : VersionBitsCache)
    : option (bool * VersionBitsCache) :=
  '(state, caches) ← deployment_state t params pos pindexPrev (m_caches vb);
  Some (bool_decide (state = ACTIVE), set_caches vb caches).

Definition cache_ComputeBlockVersion (t : BlockMap) (pindexPrev : option nat) (params : Params) (vb : VersionBitsCache)
    : option (Z * VersionBitsCache) :=
  '(nVersion, caches) ← ComputeBlockVersion t pindexPrev params (m_caches vb); Some (nVersion, set_caches vb caches).

(** the loop over the bits; [warning] holds the caches of the remaining bits *)
Fixpoint unknown_loop (bit_ : Z) (warning : list ThresholdConditionCache) (t : BlockMap) (pindex : option nat) (chainparams : CChainParams)
    (caches : DeploymentCaches) : option (list (Z * bool) * list ThresholdConditionCache * DeploymentCaches) :=
  match warning with
  | [] => Some ([], [], caches)
  | cache :: warning =>
      '(state, cache, caches) ← GetStateFor (WarningBitsConditionChecker_of chainparams bit_) t pindex cache caches;
      '(result, warning, caches) ← unknown_loop (bit_ + 1) warning t pindex chainparams caches;
      Some (if bool_decide (state = ACTIVE) || bool_decide (state = LOCKED_IN)
            then (bit_, bool_decide (state = ACTIVE)) :: result else result, cache :: warning, caches)
  end.

Definition CheckUnknownActivations (t : BlockMap) (pindex : option nat) (chainparams : CChainParams) (vb : VersionBitsCache)
    : option (list (Z * bool) * VersionBitsCache) :=
  '(result, warning, caches) ← unknown_loop 0 (m_warning_caches vb) t pindex chainparams (m_caches vb);
  Some (result, {| m_warning_caches := warning; m_caches := caches |}).

(** ** Reports *)

Record BIP9Info : Type := {
  since : Z; current_state : string; next_state : string; info_stats : option BIP9Stats; signalling_blocks : list bool; active_since : option Z }.

Definition Info (t : BlockMap) (p : nat) (params : Params) (id : DeploymentPos) (vb : VersionBitsCache) : option (BIP9Info * VersionBitsCache) :=
  let checker := vDeployments params id in
  b ← t !! p;
  '(current, cache, _) ← GetStateFor checker t (pprev b) (m_caches vb id) tt;
  '(next, cache, _) ← GetStateFor checker t (Some p) cache tt;
  '(since, cache, _) ← GetStateSinceHeightFor checker t (pprev b) cache tt;
  let has_signal := bool_decide (STARTED = current) || bool_decide (LOCKED_IN = current) in
  '((stats, blocks) : option BIP9Stats * list bool) ←
    (if has_signal then
       '(stats, blocks, _) ← GetStateStatisticsFor checker t (Some p) (Some []) tt;
       Some (Some (if bool_decide (LOCKED_IN = current)
                   then {| stats_period := stats_period stats; stats_threshold := 0; stats_elapsed := stats_elapsed stats;
                           stats_count := stats_count stats; stats_possible := false |}
                   else stats), default [] blocks)
     else Some (None, []));
  Some ({| since := since; current_state := StateName current; next_state := StateName next; info_stats := stats; signalling_blocks := blocks;
           active_since := if bool_decide (current = ACTIVE) then Some since
                           else if bool_decide (next = ACTIVE) then Some (nHeight b + 1) else None |},
        set_caches vb (set_cache (m_caches vb) id cache)).

(** src/deploymentinfo.cpp: the name and [gbt_optional_rule] of a deployment *)
Definition VersionBitsDeploymentInfo (pos : DeploymentPos) : string * bool :=
  match pos with DEPLOYMENT_TESTDUMMY => ("testdummy", true) | DEPLOYMENT_TAPROOT => ("taproot", true) end.

Definition DeploymentName (dep : BuriedDeployment) : string :=
  match dep with
  | DEPLOYMENT_HEIGHTINCB => "bip34" | DEPLOYMENT_CLTV => "bip65" | DEPLOYMENT_DERSIG => "bip66"
  | DEPLOYMENT_CSV => "csv" | DEPLOYMENT_SEGWIT => "segwit"
  end.

Definition GetBuriedDeployment (name : string) : option BuriedDeployment :=
  if (name =? "segwit")%string then Some DEPLOYMENT_SEGWIT
  else if (name =? "bip34")%string then Some DEPLOYMENT_HEIGHTINCB
  else if (name =? "dersig")%string then Some DEPLOYMENT_DERSIG
  else if (name =? "cltv")%string then Some DEPLOYMENT_CLTV
  else if (name =? "csv")%string then Some DEPLOYMENT_CSV
  else None.

Record GBTInfo : Type := { gbt_bit : Z; gbt_mask : Z; gbt_optional_rule : bool }.
Record BIP9GBTStatus : Type := { signalling : gmap string GBTInfo; locked_in : gmap string GBTInfo; active : gmap string GBTInfo }.

(** [try_emplace] *)
Definition gbt_emplace (m : gmap string GBTInfo) (k : string) (i : GBTInfo) : gmap string GBTInfo :=
  match m !! k with Some _ => m | None => <[k := i]> m end.

(** the [switch] of [GBTStatus] *)
Definition gbt_add (result : BIP9GBTStatus) (state : ThresholdState) (name : string) (i : GBTInfo) : BIP9GBTStatus :=
  match state with
  | DEFINED | FAILED => result
  | STARTED => {| signalling := gbt_emplace (signalling result) name i; locked_in := locked_in result; active := active result |}
  | LOCKED_IN => {| signalling := signalling result; locked_in := gbt_emplace (locked_in result) name i; active := active result |}
  | ACTIVE => {| signalling := signalling result; locked_in := locked_in result; active := gbt_emplace (active result) name i |}
  end.

Fixpoint gbt_loop (deps : list DeploymentPos) (t : BlockMap) (p : nat) (params : Params) (result : BIP9GBTStatus) (caches : DeploymentCaches)
    : option (BIP9GBTStatus * DeploymentCaches) :=
  match deps with
  | [] => Some (result, caches)
  | pos :: deps =>
      '(state, caches) ← deployment_state t params pos (Some p) caches;
      let '(name, optional) := VersionBitsDeploymentInfo pos in
      let dep := vDeployments params pos in
      gbt_loop deps t p params (gbt_add result state name {| gbt_bit := bit dep; gbt_mask := Mask dep; gbt_optional_rule := optional |}) caches
  end.
Definition GBTStatus (t : BlockMap) (p : nat) (params : Params) (vb : VersionBitsCache) : option (BIP9GBTStatus * VersionBitsCache) :=
  '(result, caches) ← gbt_loop MAX_VERSION_BITS_DEPLOYMENTS t p params {| signalling := ∅; locked_in := ∅; active := ∅ |} (m_caches vb);
  Some (result, set_caches vb caches).

(** ** src/deploymentstatus.h: the overloads for version-bits deployments *)

Definition vb_DeploymentActiveAfter (t : BlockMap) (pindexPrev : option nat) (params : Params) (dep : DeploymentPos) (vb : VersionBitsCache)
    : option (bool * VersionBitsCache) := IsActiveAfter t pindexPrev params dep vb.
Definition vb_DeploymentActiveAt (t : BlockMap) (index : CBlockIndex) (params : Params) (dep : DeploymentPos) (vb : VersionBitsCache)
    : option (bool * VersionBitsCache) := vb_DeploymentActiveAfter t (pprev index) params dep vb.
Definition vb_DeploymentEnabled (params : Params) (dep : DeploymentPos) : bool := negb (nStartTime (vDeployments params dep) =? NEVER_ACTIVE).
Definition DeploymentEnabled (params : Params) (dep : BuriedDeployment) : bool := negb (DeploymentHeight params dep =? 2 ^ 31 - 1).

(** ** The automaton of BIP9 *)

(** what a checker promises: a positive period, and a condition that is a function of the block while its state satisfies an invariant *)
Class LawfulChecker {C St : Type} `{AbstractThresholdConditionChecker C St} (c : C) (t : BlockMap) (cond : nat -> bool) (I : St -> Prop) : Prop := {
  Period_pos : 0 < Period c;
  Condition_pure p b st : t !! p = Some b -> I st -> exists st', Condition c t p st = Some (cond p, st') /\ I st';
}.

Section automaton.
Context {C St : Type} `{Chk : AbstractThresholdConditionChecker C St}.
Implicit Types (c : C) (t : BlockMap) (cond : nat -> bool).

(** how many of the [n] blocks that end at [o] signal *)
Fixpoint count_signals t cond (n : nat) (o : option nat) : Z :=
  match n, o with
  | S n, Some p => (if cond p then 1 else 0) + count_signals t cond n (t !! p ≫= pprev)
  | _, _ => 0
  end.

(** the state of the period after the one that ends at [p], given the state of that one *)
Definition transition c t cond (s : ThresholdState) (p : nat) : ThresholdState :=
  let mtp := default 0 (GetMedianTimePast t p) in
  match s with
  | DEFINED => if BeginTime c <=? mtp then STARTED else DEFINED
  | STARTED =>
      if Threshold c <=? count_signals t cond (Z.to_nat (Period c)) (Some p) then LOCKED_IN
      else if EndTime c <=? mtp then FAILED else STARTED
  | LOCKED_IN => if MinActivationHeight c <=? from_option nHeight 0 (t !! p) + 1 then ACTIVE else LOCKED_IN
  | ACTIVE => ACTIVE
  | FAILED => FAILED
  end.

(** the state of period [k], the blocks from height [k * Period c] on, of the branch that ends at [p] *)
Fixpoint period_state c t cond (p k : nat) : ThresholdState :=
  match k with
  | O => DEFINED
  | S j => from_option (transition c t cond (period_state c t cond p j)) (period_state c t cond p j)
             (ancestor t p (Z.of_nat k * Period c - 1))
  end.

(** the period of the successor of [p] *)
Definition period_after c t (p : nat) : nat := Z.to_nat ((from_option nHeight 0 (t !! p) + 1) / Period c).

(** the state of the block after [o] *)
Definition bip9_state c t cond (o : option nat) : ThresholdState :=
  match o with None => DEFINED | Some p => period_state c t cond p (period_after c t p) end.

Definition state_after c t cond (o : option nat) : ThresholdState :=
  if BeginTime c =? ALWAYS_ACTIVE then ACTIVE else if BeginTime c =? NEVER_ACTIVE then FAILED else bip9_state c t cond o.

(** [o] is the null pointer or the last block of a period *)
Definition boundary c t (o : option nat) : Prop :=
  match o with None => True | Some p => exists b, t !! p = Some b /\ (nHeight b + 1) mod Period c = 0 end.

Definition cache_ok c t cond (cache : ThresholdConditionCache) : Prop :=
  forall o s, cache !! o = Some s -> boundary c t o /\ s = bip9_state c t cond o.

End automaton.

Section refinement.
Context {C St : Type} `{Chk : AbstractThresholdConditionChecker C St} (c : C) (t : BlockMap) (cond : nat -> bool) (I : St -> Prop).
Context (Ht : entries_ok t) (Htl : timely t) `{L : !LawfulChecker c t cond I}.
Local Notation P := (Period c).

(** the boundary one period before [p] *)
Definition previous (p : nat) : option nat := t !! p ≫= fun b => ancestor t p (nHeight b - P).

Lemma period_state_ancestor p b a h k : t !! p = Some b -> ancestor t p h = Some a -> Z.of_nat k * P - 1 <= h ->
  period_state c t cond p k = period_state c t cond a k.
Proof.
  intros Hb Ha. induction k as [|k IH]; intros Hk; [done|]. cbn [period_state].
  pose proof Period_pos. rewrite IH by lia. rewrite (ancestor_trans t Ht p b h a (Z.of_nat (S k) * P - 1)) by (done || lia). done.
Qed.

Lemma period_after_eq p b k : t !! p = Some b -> nHeight b + 1 = Z.of_nat k * P -> period_after c t p = k.
Proof. intros Hb Hh. pose proof Period_pos. unfold period_after. rewrite Hb. cbn [from_option]. rewrite Hh, Z.div_mul by lia. lia. Qed.

Lemma boundary_period p b : t !! p = Some b -> (nHeight b + 1) mod P = 0 -> exists j, nHeight b + 1 = Z.of_nat (S j) * P.
Proof.
  intros Hb Hm. pose proof Period_pos. pose proof (height_bound t Ht p b Hb). apply Z.mod_divide in Hm as [k Hk]; [|lia].
  assert (0 < k) by nia. exists (Z.to_nat (k - 1)). rewrite Hk. f_equal. lia.
Qed.

Lemma boundary_ancestor p b k r : t !! p = Some b -> Z.of_nat k * P <= nHeight b + 1 -> ancestor t p (Z.of_nat k * P - 1) = r ->
  boundary c t r /\ period_state c t cond p k = bip9_state c t cond r.
Proof.
  intros Hb Hk Hr. pose proof Period_pos. destruct k as [|k].
  - rewrite (ancestor_None t p b) in Hr by (done || lia). subst r. done.
  - assert (0 < Z.of_nat (S k) * P) by (apply Z.mul_pos_pos; lia).
    destruct (ancestor_Some t Ht p b (Z.of_nat (S k) * P - 1)) as (q & bq & Hq & Hbq & Hhq & _); [done|lia|].
    assert (r = Some q) as -> by congruence. cbn [boundary bip9_state]. rewrite (period_after_eq q bq (S k)) by (done || lia). split.
    + exists bq. split; [done|]. replace (nHeight bq + 1) with (Z.of_nat (S k) * P) by lia. apply Z.mod_mul. lia.
    + apply (period_state_ancestor p b q (Z.of_nat (S k) * P - 1)); done || lia.
Qed.

(** the state at a boundary follows from the state one period before *)
Lemma bip9_step p b : t !! p = Some b -> (nHeight b + 1) mod P = 0 ->
  bip9_state c t cond (Some p) = transition c t cond (bip9_state c t cond (previous p)) p /\ boundary c t (previous p).
Proof.
  intros Hb Hm. destruct (boundary_period p b Hb Hm) as [j Hj]. pose proof Period_pos. unfold previous. rewrite Hb. cbn [mbind option_bind].
  replace (nHeight b - P) with (Z.of_nat j * P - 1) by lia.
  destruct (boundary_ancestor p b j _ Hb ltac:(lia) eq_refl) as [Hbd Heq]. rewrite <- Heq. split; [|done].
  cbn [bip9_state]. rewrite (period_after_eq p b (S j)) by done. cbn [period_state].
  rewrite <- Hj, Z.add_simpl_r, (ancestor_self t Ht p b Hb). done.
Qed.

(** the blocks of a period share its state *)
Lemma bip9_parent p b r : t !! p = Some b -> ancestor t p (nHeight b - (nHeight b + 1) mod P) = r ->
  boundary c t r /\ bip9_state c t cond (Some p) = bip9_state c t cond r.
Proof.
  intros Hb Hr. pose proof Period_pos. pose proof (height_bound t Ht p b Hb).
  assert (0 <= nHeight b + 1 /\ P <> 0) as [Hn Hp] by lia. pose proof (Z.div_mod (nHeight b + 1) P Hp) as Hd.
  pose proof (Z.div_pos (nHeight b + 1) P Hn Period_pos). pose proof (Z.mod_pos_bound (nHeight b + 1) P Period_pos).
  assert (Hk : period_after c t p = Z.to_nat ((nHeight b + 1) / P)) by (unfold period_after; rewrite Hb; done).
  cbn [bip9_state]. rewrite Hk. apply (boundary_ancestor p b); [done|lia|]. rewrite <- Hr. f_equal. lia.
Qed.

(** no period that ends before the start time has left the first state *)
Lemma bip9_early p b m : t !! p = Some b -> GetMedianTimePast t p = Some m -> m < BeginTime c -> bip9_state c t cond (Some p) = DEFINED.
Proof.
  intros Hb Hm Hlt. cbn [bip9_state]. generalize (period_after c t p). intros k. induction k as [|k IH]; [done|]. cbn [period_state].
  destruct (ancestor t p _) as [a|] eqn:Ha; cbn [from_option]; [|done]. rewrite IH. unfold transition.
  destruct (ancestor_inv t p b _ a Hb Ha) as [_ Hu]. destruct (up_Some t Ht _ p a b Hb Hu) as (ba & Hba & _).
  destruct (GetMedianTimePast_total t Ht a ba Hba) as [ma Hma]. rewrite Hma. change (default 0 (Some ma)) with ma.
  pose proof (median_ancestor t Ht _ p a ma m Htl Hu Hma Hm). destruct (Z.leb_spec (BeginTime c) ma); [lia|reflexivity].
Qed.

Lemma cache_ok_insert cache o s : cache_ok c t cond cache -> boundary c t o -> s = bip9_state c t cond o ->
  cache_ok c t cond (<[o := s]> cache).
Proof.
  intros Hc Ho Hs o' s'. destruct (decide (o = o')) as [<-|Hne].
  - rewrite lookup_insert_eq. intros [= <-]. done.
  - rewrite lookup_insert_ne by done. apply Hc.
Qed.

(** the stack of boundaries between [o'] and [o] *)
Fixpoint stacked (o' : option nat) (l : list nat) (o : option nat) : Prop :=
  match l with
  | [] => o' = o
  | p :: l => previous p = o' /\ boundary c t (Some p) /\ stacked (Some p) l o
  end.

Lemma walk_back_spec fuel cache o v e : cache_ok c t cond cache -> boundary c t o -> stacked o v e ->
  (forall b, o ≫= (t !!.) = Some b -> nHeight b < Z.of_nat fuel) ->
  exists cache' o' v', walk_back fuel c t cache o v = Some (cache', o', v') /\ cache_ok c t cond cache' /\ stacked o' v' e /\
    is_Some (cache' !! o').
Proof.
  revert o v. induction fuel as [|fuel IH]; intros o v Hc Ho Hv Hf; cbn [walk_back].
  all: destruct (cache !! o) as [s|] eqn:Hl; [eexists _, _, _; rewrite Hl; eauto|].
  all: destruct o as [p|]; [|eexists _, _, _; split; [done|]; rewrite lookup_insert_eq; split_and!; [apply cache_ok_insert|..]; eauto; done].
  all: destruct Ho as (b & Hb & Hm); specialize (Hf b Hb); pose proof (height_bound t Ht p b Hb). 1: lia.
  destruct (GetMedianTimePast_total t Ht p b Hb) as [m Hmtp]. rewrite Hmtp. cbn [mbind option_bind].
  destruct (Z.ltb_spec m (BeginTime c)) as [Hlt|_].
  - eexists _, _, _. split; [done|]. rewrite lookup_insert_eq. split_and!; eauto. apply cache_ok_insert; [done| |].
    + exists b. done.
    + symmetry. apply (bip9_early p b m); done.
  - rewrite Hb. cbn [mbind option_bind]. rewrite (GetAncestor_spec t Ht p b _ Hb). cbn [mbind option_bind].
    destruct (bip9_step p b Hb Hm) as [_ Hbd]. unfold previous in Hbd. rewrite Hb in Hbd. cbn [mbind option_bind] in Hbd.
    pose proof Period_pos. apply IH; [done|done| |].
    + cbn [stacked]. unfold previous. rewrite Hb. split; [done|]. split; [exists b|]; done.
    + intros bq Hbq. destruct (ancestor t p (nHeight b - P)) as [q|] eqn:Hq; [cbn in Hbq|done].
      destruct (ancestor_inv t p b _ q Hb Hq) as [Hr Hu]. destruct (up_Some t Ht _ p q b Hb Hu) as (bq' & Hbq' & Hh & _). simplify_eq. lia.
Qed.

Lemma count_loop_spec n p b count st : t !! p = Some b -> Z.of_nat n <= nHeight b + 1 -> I st ->
  exists st', count_loop n c t (Some p) count st = Some (count + count_signals t cond n (Some p), st') /\ I st'.
Proof.
  revert p b count st. induction n as [|n IH]; intros p b count st Hb Hn Hst.
  - exists st. cbn. rewrite Z.add_0_r. done.
  - cbn [count_loop count_signals mbind option_bind]. rewrite Hb. cbn [mbind option_bind].
    destruct (Condition_pure p b st Hb Hst) as (st1 & -> & Hst1). cbn [mbind option_bind].
    destruct (pprev b) as [q|] eqn:Hq.
    + destruct (entry_parent t Ht p b q Hb Hq) as (_ & bq & Hbq & Hh).
      destruct (IH q bq (if cond p then count + 1 else count) st1 Hbq ltac:(lia) Hst1) as (st2 & -> & Hst2).
      exists st2. split; [|done]. do 2 f_equal. destruct (cond p); lia.
    + destruct (Ht p b Hb) as (_ & _ & He). rewrite Hq in He. destruct He as (_ & Hh & _).
      assert (n = O) as -> by lia. exists st1. cbn. split; [|done]. do 2 f_equal. destruct (cond p); lia.
Qed.

Lemma state_next_spec s p b st : t !! p = Some b -> (nHeight b + 1) mod P = 0 -> I st ->
  exists st', state_next c t s p st = Some (transition c t cond s p, st') /\ I st'.
Proof.
  intros Hb Hm Hst. destruct (GetMedianTimePast_total t Ht p b Hb) as [m Hmtp]. destruct (boundary_period p b Hb Hm) as [j Hj].
  pose proof Period_pos. unfold state_next, transition. rewrite Hmtp, Hb. cbn [mbind option_bind from_option].
  change (default 0 (Some m)) with m.
  destruct s; try (eexists; split; [|eassumption]; rewrite ?Z.geb_leb; reflexivity).
  destruct (count_loop_spec (Z.to_nat P) p b 0 st Hb ltac:(nia) Hst) as (st' & -> & Hst'). cbn [mbind option_bind].
  exists st'. split; [|done]. rewrite !Z.geb_leb, Z.add_0_l. case_match; done.
Qed.

Lemma walk_forward_spec v o' o cache st : cache_ok c t cond cache -> stacked o' v o -> I st ->
  exists cache' st', walk_forward c t (bip9_state c t cond o') v cache st = Some (bip9_state c t cond o, cache', st') /\
    cache_ok c t cond cache' /\ I st'.
Proof.
  revert o' cache st. induction v as [|p v IH]; intros o' cache st Hc Hv Hst; cbn [walk_forward stacked] in *.
  - subst. eauto.
  - destruct Hv as (<- & (b & Hb & Hm) & Hv). destruct (state_next_spec (bip9_state c t cond (previous p)) p b st Hb Hm Hst) as (st1 & -> & Hst1).
    cbn [mbind option_bind]. destruct (bip9_step p b Hb Hm) as [<- _]. apply IH; [|done|done].
    apply cache_ok_insert; [done|exists b; done|done].
Qed.

Lemma period_parent_spec p b : t !! p = Some b -> exists r, period_parent c t p = Some r /\ boundary c t r /\
  ancestor t p (nHeight b - (nHeight b + 1) mod P) = r /\ bip9_state c t cond (Some p) = bip9_state c t cond r.
Proof.
  intros Hb. pose proof Period_pos. pose proof (height_bound t Ht p b Hb). unfold period_parent. rewrite Hb. cbn [mbind option_bind].
  destruct (Z.eqb_spec P 0); [lia|]. rewrite Z.rem_mod_nonneg by lia. eexists. split; [apply (GetAncestor_spec t Ht p b _ Hb)|].
  destruct (bip9_parent p b _ Hb eq_refl). done.
Qed.

(** the block after which a state is asked for is known *)
Definition known (o : option nat) : Prop := match o with None => True | Some p => is_Some (t !! p) end.

Lemma boundary_known o : boundary c t o -> known o.
Proof. destruct o as [p|]; [|done]. intros (b & Hb & _). exists b. done. Qed.

Lemma GetStateFor_spec o cache st : known o -> cache_ok c t cond cache -> I st ->
  exists cache' st', GetStateFor c t o cache st = Some (state_after c t cond o, cache', st') /\ cache_ok c t cond cache' /\ I st'.
Proof.
  intros Ho Hc Hst. unfold GetStateFor, state_after.
  destruct (BeginTime c =? ALWAYS_ACTIVE); [eauto|]. destruct (BeginTime c =? NEVER_ACTIVE); [eauto|].
  assert (exists r, match o with None => Some None | Some p => period_parent c t p end = Some r /\ boundary c t r /\
                    bip9_state c t cond o = bip9_state c t cond r) as (r & -> & Hr & ->).
  { destruct o as [p|]; [|exists None; done]. destruct Ho as [b Hb]. destruct (period_parent_spec p b Hb) as (r & -> & Hr & _ & Heq). eauto. }
  cbn [mbind option_bind]. match goal with |- context [walk_back ?n] => set (fuel := n) end.
  destruct (walk_back_spec fuel cache r [] r Hc Hr eq_refl) as (cache1 & o' & v & -> & Hc1 & Hv & [s Hs]).
  { intros b Hb. unfold fuel. change (option_bind _ _ _ r) with (r ≫= (t !!.)). rewrite Hb. destruct r as [p|]; [|done]. cbn in Hb. pose proof (height_bound t Ht p b Hb). lia. }
  cbn [mbind option_bind]. rewrite Hs. cbn [mbind option_bind]. destruct (Hc1 o' s Hs) as [_ ->]. apply walk_forward_spec; done.
Qed.

Lemma since_loop_spec p b s j fuel q cache st : BeginTime c <> ALWAYS_ACTIVE -> BeginTime c <> NEVER_ACTIVE -> s <> DEFINED ->
  t !! p = Some b -> (j <= fuel)%nat -> Z.of_nat (S j) * P <= nHeight b + 1 -> ancestor t p (Z.of_nat (S j) * P - 1) = Some q ->
  cache_ok c t cond cache -> I st ->
  exists i q' cache' st', since_loop fuel c t s q (ancestor t p (Z.of_nat j * P - 1)) cache st = Some (q', cache', st') /\
    ancestor t p (Z.of_nat (S i) * P - 1) = Some q' /\ (i <= j)%nat /\
    (forall n, (i < n <= j)%nat -> period_state c t cond p n = s) /\ period_state c t cond p i <> s /\ cache_ok c t cond cache' /\ I st'.
Proof.
  intros Hna Hnn Hs Hb. pose proof Period_pos.
  revert fuel q cache st. induction j as [|j IH]; intros fuel q cache st Hf Hj Hq Hc Hst.
  - rewrite (ancestor_None t p b) by (done || lia). exists O, q, cache, st. destruct fuel; cbn [since_loop]; split_and!; try done; intros; lia.
  - destruct fuel as [|fuel]; [lia|]. assert (0 < Z.of_nat (S j) * P <= nHeight b + 1) as [Hpos Hle] by nia.
    destruct (ancestor_Some t Ht p b (Z.of_nat (S j) * P - 1) Hb ltac:(lia)) as (q1 & b1 & Hq1 & Hb1 & Hh1 & _). rewrite Hq1. cbn [since_loop].
    destruct (boundary_ancestor p b (S j) _ Hb Hle Hq1) as [Hbd Heq].
    destruct (GetStateFor_spec (Some q1) cache st (boundary_known _ Hbd) Hc Hst) as (cache1 & st1 & -> & Hc1 & Hst1). cbn [mbind option_bind].
    unfold state_after. destruct (Z.eqb_spec (BeginTime c) ALWAYS_ACTIVE) as [|_]; [done|]. destruct (Z.eqb_spec (BeginTime c) NEVER_ACTIVE) as [|_]; [done|].
    rewrite <- Heq. case_bool_decide as Hst'.
    + rewrite Hb1. cbn [mbind option_bind]. rewrite (GetAncestor_spec t Ht q1 b1 _ Hb1). cbn [mbind option_bind].
      rewrite (ancestor_trans t Ht p b _ q1 (nHeight b1 - P) Hb Hq1) by lia. replace (nHeight b1 - P) with (Z.of_nat j * P - 1) by lia.
      destruct (IH fuel q1 cache1 st1 ltac:(lia) Hle Hq1 Hc1 Hst1) as (i & q' & cache' & st' & -> & Hq' & Hi & Hall & Hne & Hc' & Hst'').
      exists i, q', cache', st'. split_and!; try done; [lia|]. intros n Hn. destruct (decide (n = S j)) as [->|]; [done|]. apply Hall. lia.
    + exists (S j), q, cache1, st1. split_and!; try done. intros; lia.
Qed.

(** [h] is the height at which the state of the block after [o] began: the first of a run of periods in that state *)
Definition began (o : option nat) (h : Z) : Prop :=
  if bool_decide (BeginTime c = ALWAYS_ACTIVE \/ BeginTime c = NEVER_ACTIVE \/ bip9_state c t cond o = DEFINED) then h = 0
  else exists p b i, o = Some p /\ t !! p = Some b /\ h = Z.of_nat (S i) * P /\ h <= nHeight b + 1 /\
    period_state c t cond p i <> bip9_state c t cond o /\
    forall n, (i < n <= period_after c t p)%nat -> period_state c t cond p n = bip9_state c t cond o.

Lemma period_after_ancestor p b q bq j : t !! p = Some b -> t !! q = Some bq -> ancestor t p (nHeight b - (nHeight b + 1) mod P) = Some q ->
  nHeight bq + 1 = Z.of_nat (S j) * P ->
  period_after c t p = S j /\ nHeight bq <= nHeight b /\ ancestor t p (Z.of_nat (S j) * P - 1) = Some q.
Proof.
  intros Hb Hbq Hr Hj. pose proof (Z.mod_pos_bound (nHeight b + 1) P Period_pos).
  destruct (ancestor_inv t p b _ q Hb Hr) as [Hrange Hu]. destruct (up_Some t Ht _ p q b Hb Hu) as (bq' & Hbq' & Hhq & _).
  assert (bq' = bq) as -> by congruence. split; [|split; [lia|rewrite <- Hr; f_equal; lia]].
  unfold period_after. rewrite Hb. cbn [from_option].
  rewrite <- (Z.div_unique_pos (nHeight b + 1) P (Z.of_nat (S j)) ((nHeight b + 1) mod P)); [lia|done|lia].
Qed.

Lemma GetStateSinceHeightFor_spec o cache st : known o -> cache_ok c t cond cache -> I st ->
  exists h cache' st', GetStateSinceHeightFor c t o cache st = Some (h, cache', st') /\ cache_ok c t cond cache' /\ I st' /\ began o h.
Proof.
  intros Ho Hc Hst. pose proof Period_pos. unfold GetStateSinceHeightFor, began.
  destruct (Z.eqb_spec (BeginTime c) ALWAYS_ACTIVE) as [|Hna]; [rewrite bool_decide_true by tauto; eexists _, _, _; split_and!; done|].
  destruct (Z.eqb_spec (BeginTime c) NEVER_ACTIVE) as [|Hnn]; [rewrite bool_decide_true by tauto; eexists _, _, _; split_and!; done|]. cbn [orb].
  destruct (GetStateFor_spec o cache st Ho Hc Hst) as (cache1 & st1 & -> & Hc1 & Hst1). cbn [mbind option_bind].
  unfold state_after. rewrite (proj2 (Z.eqb_neq _ _) Hna), (proj2 (Z.eqb_neq _ _) Hnn).
  destruct (decide (bip9_state c t cond o = DEFINED)) as [Hs|Hs];
    [rewrite !bool_decide_true by tauto; eexists _, _, _; split_and!; done|rewrite !bool_decide_false by tauto].
  destruct o as [p|]; [|done]. destruct Ho as [b Hb]. cbn [mbind option_bind].
  destruct (period_parent_spec p b Hb) as (r & -> & Hbd & Hr & Heq). cbn [mbind option_bind mjoin option_join].
  destruct r as [q|]; [|rewrite Heq in Hs; done]. cbn [mbind option_bind]. destruct Hbd as (bq & Hbq & Hm). rewrite Hbq. cbn [mbind option_bind].
  rewrite (GetAncestor_spec t Ht q bq _ Hbq). cbn [mbind option_bind]. destruct (boundary_period q bq Hbq Hm) as [j Hj].
  destruct (period_after_ancestor p b q bq j Hb Hbq Hr Hj) as (Hk & Hle & Hqa).
  rewrite (ancestor_trans t Ht p b _ q _ Hb Hqa) by lia. replace (nHeight bq - P) with (Z.of_nat j * P - 1) by lia.
  destruct (since_loop_spec p b (bip9_state c t cond (Some p)) j (S (Z.to_nat (nHeight bq))) q cache1 st1)
    as (i & q' & cache' & st' & -> & Hq' & Hi & Hall & Hne & Hc' & Hst'); [done|done|done|done|nia|lia|done|done|done|]. cbn [mbind option_bind].
  destruct (ancestor_inv t p b _ q' Hb Hq') as [Hr' Hu']. destruct (up_Some t Ht _ p q' b Hb Hu') as (b' & Hb' & Hh' & _). rewrite Hb'. cbn [mbind option_bind].
  eexists _, _, _. split; [done|]. split_and!; try done. exists p, b, i. split_and!; try done; try lia.
  intros n Hn. rewrite Hk in Hn. destruct (decide (n = S j)) as [->|]; [|apply Hall; lia]. cbn [bip9_state]. rewrite Hk. done.
Qed.

(** ** Activation and statistics *)

(** locking in takes a period in state [STARTED] in which the threshold was met, and activation a later boundary of sufficient height *)
Lemma period_state_signalled p k : period_state c t cond p k = LOCKED_IN \/ period_state c t cond p k = ACTIVE ->
  exists j a, (j < k)%nat /\ period_state c t cond p j = STARTED /\ ancestor t p (Z.of_nat (S j) * P - 1) = Some a /\
    Threshold c <= count_signals t cond (Z.to_nat P) (Some a).
Proof.
  induction k as [|k IH]; cbn [period_state]; [intros [?|?]; done|]. intros Hk.
  assert (Hup : period_state c t cond p k = LOCKED_IN \/ period_state c t cond p k = ACTIVE ->
    exists j a, (j < S k)%nat /\ period_state c t cond p j = STARTED /\ ancestor t p (Z.of_nat (S j) * P - 1) = Some a /\
    Threshold c <= count_signals t cond (Z.to_nat P) (Some a)).
  { intros Hk'. destruct (IH Hk') as (j & a & Hj & Hrest). exists j, a. split; [lia|done]. }
  destruct (ancestor t p (Z.of_nat (S k) * P - 1)) as [a|] eqn:Ha; cbn [from_option] in Hk; [|apply Hup, Hk].
  destruct (period_state c t cond p k) eqn:Es; cbn [transition] in Hk; auto.
  - case_match; destruct Hk; done.
  - destruct (Z.leb_spec (Threshold c) (count_signals t cond (Z.to_nat P) (Some a))) as [Hle|_].
    + exists k, a. split_and!; try done. lia.
    + case_match; destruct Hk; done.
Qed.

Lemma period_state_active p b k : t !! p = Some b -> period_state c t cond p k = ACTIVE -> Z.of_nat k * P <= nHeight b + 1 ->
  exists j, (j < k)%nat /\ period_state c t cond p j = LOCKED_IN /\ MinActivationHeight c <= Z.of_nat (S j) * P.
Proof.
  intros Hb. pose proof Period_pos. induction k as [|k IH]; cbn [period_state]; [done|]. intros Hk Hh.
  assert (Hup : period_state c t cond p k = ACTIVE ->
    exists j, (j < S k)%nat /\ period_state c t cond p j = LOCKED_IN /\ MinActivationHeight c <= Z.of_nat (S j) * P).
  { intros Hk'. destruct (IH Hk' ltac:(lia)) as (j & Hj & Hrest). exists j. split; [lia|done]. }
  destruct (ancestor t p (Z.of_nat (S k) * P - 1)) as [a|] eqn:Ha; cbn [from_option] in Hk; [|apply Hup, Hk].
  destruct (ancestor_inv t p b _ a Hb Ha) as [_ Hu]. destruct (up_Some t Ht _ p a b Hb Hu) as (ba & Hba & Hha & _).
  destruct (period_state c t cond p k) eqn:Es; cbn [transition] in Hk; auto; try (repeat case_match; done).
  rewrite Hba in Hk. cbn [from_option] in Hk. exists k. split_and!; [lia|done|].
  destruct (Z.leb_spec (MinActivationHeight c) (nHeight ba + 1)); [lia|done].
Qed.

(** which of the [n] blocks that end at [o] signal, oldest first *)
Fixpoint signal_list (n : nat) (o : option nat) : list bool :=
  match n, o with
  | S n, Some p => signal_list n (t !! p ≫= pprev) ++ [cond p]
  | _, _ => []
  end.

Lemma insert_false n l : <[n := true]> (replicate (S n) false ++ l) = replicate n false ++ true :: l.
Proof. rewrite replicate_S_end, <- app_assoc, insert_app_r_alt by (rewrite length_replicate; lia). rewrite length_replicate, Nat.sub_diag. done. Qed.

Lemma stats_loop_spec n p b elapsed count l st : t !! p = Some b -> Z.of_nat n <= nHeight b + 1 -> I st ->
  exists st', stats_loop n c t (Some p) elapsed count (Some (replicate n false ++ l)) st =
    Some (elapsed + Z.of_nat n, count + count_signals t cond n (Some p), Some (signal_list n (Some p) ++ l), st') /\ I st'.
Proof.
  revert p b elapsed count l st. induction n as [|n IH]; intros p b elapsed count l st Hb Hn Hst.
  - exists st. cbn. rewrite !Z.add_0_r. done.
  - cbn [stats_loop count_signals signal_list mbind option_bind]. rewrite Hb. cbn [mbind option_bind].
    destruct (Condition_pure p b st Hb Hst) as (st1 & -> & Hst1). cbn [mbind option_bind fmap option_fmap option_map].
    assert (Hins : (if cond p then Some (<[n := true]> (replicate (S n) false ++ l)) else Some (replicate (S n) false ++ l)) =
                   Some (replicate n false ++ cond p :: l)).
    { destruct (cond p); [rewrite insert_false; done|]. rewrite replicate_S_end, <- app_assoc. done. }
    rewrite Hins. rewrite <- app_assoc. cbn [app]. destruct (pprev b) as [q|] eqn:Hq.
    + destruct (entry_parent t Ht p b q Hb Hq) as (_ & bq & Hbq & Hh).
      destruct (IH q bq (elapsed + 1) (if cond p then count + 1 else count) (cond p :: l) st1 Hbq ltac:(lia) Hst1) as (st2 & -> & Hst2).
      exists st2. split; [|done]. do 4 f_equal; [lia|]. destruct (cond p); lia.
    + destruct (Ht p b Hb) as (_ & _ & He). rewrite Hq in He. destruct He as (_ & Hh & _).
      assert (n = O) as -> by lia. exists st1. split; [|done]. cbn. do 4 f_equal. destruct (cond p); lia.
Qed.

Lemma count_signals_bound n o : 0 <= count_signals t cond n o <= Z.of_nat n.
Proof. revert o. induction n as [|n IH]; intros [p|]; cbn; try lia. specialize (IH (t !! p ≫= pprev)). destruct (cond p); lia. Qed.

Lemma GetStateStatisticsFor_spec p b v st (elapsed := 1 + nHeight b mod P) : t !! p = Some b -> I st -> sfits 32 P -> nHeight b < 2 ^ 31 ->
  0 <= Threshold c <= P ->
  exists stats st', GetStateStatisticsFor c t (Some p) (Some v) st = Some (stats, Some (signal_list (Z.to_nat elapsed) (Some p)), st') /\ I st' /\
    stats_period stats = P /\ stats_threshold stats = Threshold c /\ stats_elapsed stats = elapsed /\
    stats_count stats = count_signals t cond (Z.to_nat elapsed) (Some p) /\
    (stats_possible stats = true <-> Threshold c <= stats_count stats + (P - elapsed)).
Proof.
  intros Hb Hst HP Hh HT. pose proof Period_pos. pose proof (height_bound t Ht p b Hb). unfold sfits in HP.
  assert (0 <= nHeight b mod P <= nHeight b /\ nHeight b mod P < P) as [Hmod1 Hmod2].
  { pose proof (Z.mod_pos_bound (nHeight b) P Period_pos). pose proof (Z.mod_le (nHeight b) P ltac:(lia) Period_pos). lia. }
  unfold GetStateStatisticsFor. rewrite Hb. cbn [mbind option_bind fmap option_fmap option_map].
  rewrite !(wrap_small 32 P), !(wrap_small 32 (Threshold c)), (wrap_small 32 (nHeight b)) by (unfold fits; lia).
  destruct (Z.eqb_spec P 0); [lia|]. fold elapsed.
  destruct (stats_loop_spec (Z.to_nat elapsed) p b 0 0 [] st Hb ltac:(lia) Hst) as (st' & Hl & Hst'). rewrite app_nil_r in Hl. rewrite Hl.
  cbn [mbind option_bind]. rewrite app_nil_r. eexists _, st'. split; [done|]. cbn [stats_period stats_threshold stats_elapsed stats_count stats_possible].
  pose proof (count_signals_bound (Z.to_nat elapsed) (Some p)). rewrite !wrap_small by (unfold fits; lia).
  split_and!; try done; try lia. rewrite Z.geb_leb, Z.leb_le. lia.
Qed.

End refinement.

(** ** Growth of the block index *)

Section growth.
Context (t t' : BlockMap) (Ht : entries_ok t) (Hg : grows t t').
Context {C St : Type} `{Chk : AbstractThresholdConditionChecker C St} (c : C) (cond cond' : nat -> bool).
Context (Hcond : forall p b, t !! p = Some b -> cond' p = cond p).

Lemma grows_count n p b : t !! p = Some b -> count_signals t' cond' n (Some p) = count_signals t cond n (Some p).
Proof.
  revert p b. induction n as [|n IH]; intros p b Hb; [done|]. destruct (Hg p b Hb) as (b' & Hb' & Hp & _).
  cbn [count_signals]. rewrite (Hcond p b Hb), Hb, Hb'. cbn [mbind option_bind]. rewrite Hp. f_equal.
  destruct (pprev b) as [q|] eqn:Hq; [|destruct n; done]. destruct (entry_parent t Ht p b q Hb Hq) as (_ & bq & Hbq & _). apply (IH q bq Hbq).
Qed.

Lemma grows_transition s p b : t !! p = Some b -> transition c t' cond' s p = transition c t cond s p.
Proof.
  intros Hb. destruct (Hg p b Hb) as (b' & Hb' & _ & Hh & _). unfold transition.
  rewrite (grows_median t t' Ht Hg p b Hb), (grows_count _ p b Hb), Hb, Hb'. cbn [from_option]. rewrite Hh. done.
Qed.

Lemma grows_period_state p b k : t !! p = Some b -> period_state c t' cond' p k = period_state c t cond p k.
Proof.
  intros Hb. induction k as [|k IH]; [done|]. cbn [period_state]. rewrite IH, (grows_ancestor t t' Ht Hg p b _ Hb).
  destruct (ancestor t p _) as [a|] eqn:Ha; [|done]. cbn [from_option]. destruct (ancestor_inv t p b _ a Hb Ha) as [_ Hu].
  destruct (up_Some t Ht _ p a b Hb Hu) as (ba & Hba & _). apply (grows_transition _ a ba Hba).
Qed.

Lemma grows_state o : known t o -> state_after c t' cond' o = state_after c t cond o.
Proof.
  destruct o as [p|]; [|done]. intros [b Hb]. destruct (Hg p b Hb) as (b' & Hb' & _ & Hh & _).
  unfold state_after, bip9_state, period_after. rewrite Hb, Hb'. cbn [from_option]. rewrite Hh, (grows_period_state p b _ Hb). done.
Qed.

Lemma grows_bip9 o : known t o -> bip9_state c t' cond' o = bip9_state c t cond o.
Proof.
  destruct o as [p|]; [|done]. intros [b Hb]. destruct (Hg p b Hb) as (b' & Hb' & _ & Hh & _).
  unfold bip9_state, period_after. rewrite Hb, Hb'. cbn [from_option]. rewrite Hh, (grows_period_state p b _ Hb). done.
Qed.

(** what a cache holds stays right *)
Lemma grows_cache cache : cache_ok c t cond cache -> cache_ok c t' cond' cache.
Proof.
  intros Hc o s Hl. destruct (Hc o s Hl) as [Hb ->]. split; [|symmetry; apply grows_bip9, (boundary_known c), Hb].
  destruct o as [p|]; [|done]. destruct Hb as (b & Hb & Hm). destruct (Hg p b Hb) as (b' & Hb' & _ & Hh & _). exists b'. rewrite Hh. done.
Qed.

End growth.

(** ** The deployments *)

(** the condition of a deployment, of the unknown bit of a warning checker and the version that the deployments ask for *)
Definition dep_cond (dep : BIP9Deployment) (t : BlockMap) (p : nat) : bool := from_option (fun b => signals dep (bi_nVersion b)) false (t !! p).
Definition dep_state (t : BlockMap) (params : Params) (pos : DeploymentPos) (o : option nat) : ThresholdState :=
  state_after (vDeployments params pos) t (dep_cond (vDeployments params pos) t) o.
Definition asks (s : ThresholdState) : bool := bool_decide (s = LOCKED_IN) || bool_decide (s = STARTED).
Definition block_version (t : BlockMap) (params : Params) (o : option nat) : Z :=
  foldl (fun v pos => if asks (dep_state t params pos o) then Z.lor v (Mask (vDeployments params pos)) else v)
    VERSIONBITS_TOP_BITS MAX_VERSION_BITS_DEPLOYMENTS.
Definition warning_cond (w : WarningBitsConditionChecker) (t : BlockMap) (p : nat) : bool :=
  match t !! p with
  | None => false
  | Some b => (MinBIP9WarningHeight (m_params w) <=? nHeight b) && (Z.land (bi_nVersion b) VERSIONBITS_TOP_MASK =? VERSIONBITS_TOP_BITS) &&
              Z.testbit (bi_nVersion b) (m_bit w) && negb (Z.testbit (block_version t (m_params w) (pprev b)) (m_bit w))
  end.

(** the parameters of a network: positive periods, and bits below the top bits *)
Definition deployments_ok (params : Params) : Prop :=
  forall pos, 0 < i32 (period (vDeployments params pos)) /\ 0 <= bit (vDeployments params pos) < VERSIONBITS_NUM_BITS.

Definition caches_ok (t : BlockMap) (params : Params) (caches : DeploymentCaches) : Prop :=
  forall pos, cache_ok (vDeployments params pos) t (dep_cond (vDeployments params pos) t) (caches pos).

Lemma dep_lawful t params pos : deployments_ok params ->
  LawfulChecker (vDeployments params pos) t (dep_cond (vDeployments params pos) t) (fun _ : unit => True).
Proof.
  intros Hp. constructor; [apply Hp|]. intros p b st Hb _. exists st. cbn. unfold dep_cond. rewrite Hb. done.
Qed.

Section deployments.
Context (t : BlockMap) (Ht : entries_ok t) (Htl : timely t) (params : Params) (Hp : deployments_ok params).

Lemma set_cache_ok caches pos cache : caches_ok t params caches ->
  cache_ok (vDeployments params pos) t (dep_cond (vDeployments params pos) t) cache -> caches_ok t params (set_cache caches pos cache).
Proof. intros Hc Hn d. unfold set_cache. destruct (decide (d = pos)) as [->|]; [done|apply Hc]. Qed.

Lemma deployment_state_spec pos o caches : known t o -> caches_ok t params caches ->
  exists caches', deployment_state t params pos o caches = Some (dep_state t params pos o, caches') /\ caches_ok t params caches'.
Proof.
  intros Ho Hc. unfold deployment_state. pose proof (dep_lawful t params pos Hp) as Hl.
  destruct (GetStateFor_spec (vDeployments params pos) t _ _ Ht Htl o (caches pos) tt Ho (Hc pos) I) as (cache' & st' & -> & Hc' & _).
  cbn [mbind option_bind]. eexists. split; [done|]. apply set_cache_ok; done.
Qed.

Lemma lor_version v dep : 0 <= bit dep < VERSIONBITS_NUM_BITS -> fits 31 v ->
  i32 (Z.lor (u32 v) (Mask dep)) = Z.lor v (Mask dep) /\ fits 31 (Z.lor v (Mask dep)).
Proof.
  intros Hb Hv. unfold VERSIONBITS_NUM_BITS in Hb.
  assert (Hm : fits 31 (Z.shiftl 1 (bit dep))).
  { unfold fits. rewrite Z.shiftl_1_l. split; [apply Z.pow_nonneg; lia|]. apply Z.pow_lt_mono_r; lia. }
  assert (HM : Mask dep = Z.shiftl 1 (bit dep)) by (apply wrap_small; unfold fits in *; lia). rewrite HM.
  assert (Hl : fits 31 (Z.lor v (Z.shiftl 1 (bit dep)))) by (apply lor_fits; done || lia).
  split; [|done]. rewrite (wrap_small 32 v) by (unfold fits in *; lia). apply swrap_small; [lia|]. unfold fits, sfits in *. lia.
Qed.

Lemma version_loop_spec deps o v caches : known t o -> caches_ok t params caches -> fits 31 v ->
  exists caches', version_loop deps t o params v caches =
    Some (foldl (fun v pos => if asks (dep_state t params pos o) then Z.lor v (Mask (vDeployments params pos)) else v) v deps, caches') /\
    caches_ok t params caches'.
Proof.
  intros Ho. revert v caches. induction deps as [|pos deps IH]; intros v caches Hc Hv; cbn [version_loop foldl]; [eauto|].
  destruct (deployment_state_spec pos o caches Ho Hc) as (caches1 & -> & Hc1). cbn [mbind option_bind].
  destruct (lor_version v (vDeployments params pos) (proj2 (Hp pos)) Hv) as [-> Hv']. unfold asks. apply IH; [done|]. case_match; done.
Qed.

Lemma ComputeBlockVersion_spec o caches : known t o -> caches_ok t params caches ->
  exists caches', ComputeBlockVersion t o params caches = Some (block_version t params o, caches') /\ caches_ok t params caches'.
Proof. intros Ho Hc. apply version_loop_spec; [done|done|]. split; vm_compute; [discriminate|reflexivity]. Qed.

(** the bits of a version: the top bits and the bits of the deployments that are being signalled *)
Lemma block_version_testbit o i : 0 <= i ->
  Z.testbit (block_version t params o) i = (i =? 29) || existsb (fun pos => asks (dep_state t params pos o) && (bit (vDeployments params pos) =? i))
                                                          MAX_VERSION_BITS_DEPLOYMENTS.
Proof.
  intros Hi. unfold block_version, MAX_VERSION_BITS_DEPLOYMENTS. cbn [foldl existsb].
  assert (Hm : forall pos, Z.testbit (Mask (vDeployments params pos)) i = (bit (vDeployments params pos) =? i)).
  { intros pos. pose proof (proj2 (Hp pos)) as Hb. unfold VERSIONBITS_NUM_BITS in Hb. unfold Mask. rewrite wrap_small.
    - rewrite Z.shiftl_1_l, Z.pow2_bits_eqb by lia. done.
    - unfold fits. rewrite Z.shiftl_1_l. split; [apply Z.pow_nonneg; lia|apply Z.pow_lt_mono_r; lia]. }
  assert (Ht29 : Z.testbit VERSIONBITS_TOP_BITS i = (i =? 29)).
  { change VERSIONBITS_TOP_BITS with (2 ^ 29). rewrite Z.pow2_bits_eqb by lia. apply Z.eqb_sym. }
  destruct (asks (dep_state t params DEPLOYMENT_TESTDUMMY o)), (asks (dep_state t params DEPLOYMENT_TAPROOT o));
    cbn [andb]; rewrite ?Z.lor_spec, ?Ht29, ?Hm, ?orb_assoc, ?orb_false_r; done.
Qed.

Lemma shiftr_bit v i : 0 <= i -> (Z.land (Z.shiftr v i) 1 =? 0) = negb (Z.testbit v i).
Proof. intros Hi. change 1 with (Z.shiftl 1 0). rewrite land_bit by lia. rewrite Z.shiftr_spec, Z.add_0_l by lia. done. Qed.

Lemma pprev_known p b : t !! p = Some b -> known t (pprev b).
Proof.
  intros Hb. destruct (pprev b) as [q|] eqn:Hq; [|done]. destruct (entry_parent t Ht p b q Hb Hq) as (_ & bq & Hbq & _). exists bq. done.
Qed.

(** the checker of an unknown bit keeps its promise while the caches of the deployments are right *)
Lemma warning_lawful w : m_params w = params -> 0 < w_period w -> 0 <= m_bit w -> LawfulChecker w t (warning_cond w t) (caches_ok t params).
Proof.
  intros Hw HP Hbit. constructor; [done|]. intros p b caches Hb Hc. cbn [Condition warning_checker]. unfold warning_condition, warning_cond. rewrite Hw.
  rewrite Hb. cbn [mbind option_bind]. rewrite Z.geb_leb, shiftr_bit, negb_involutive by done.
  destruct ((_ <=? _) && _ && _); [|eauto].
  destruct (ComputeBlockVersion_spec (pprev b) caches (pprev_known p b Hb) Hc) as (caches' & -> & Hc'). cbn [mbind option_bind andb].
  rewrite shiftr_bit by done. eauto.
Qed.

End deployments.

(** ** The cache of all deployments *)

(** the network's window is positive, which makes the period of the warning checker positive *)
Definition network_ok (chainparams : CChainParams) : Prop :=
  deployments_ok (consensus chainparams) /\ 0 < i32 (DifficultyAdjustmentInterval (consensus chainparams)).

Definition unknown_cond (chainparams : CChainParams) (t : BlockMap) (i : Z) : nat -> bool := warning_cond (WarningBitsConditionChecker_of chainparams i) t.
Definition unknown_state (chainparams : CChainParams) (t : BlockMap) (o : option nat) (i : Z) : ThresholdState :=
  state_after (WarningBitsConditionChecker_of chainparams i) t (unknown_cond chainparams t i) o.

Definition warnings_ok (chainparams : CChainParams) (t : BlockMap) (first : Z) (warning : list ThresholdConditionCache) : Prop :=
  forall i cache, warning !! i = Some cache ->
    cache_ok (WarningBitsConditionChecker_of chainparams (first + Z.of_nat i)) t (unknown_cond chainparams t (first + Z.of_nat i)) cache.

Definition vb_ok (chainparams : CChainParams) (t : BlockMap) (vb : VersionBitsCache) : Prop :=
  caches_ok t (consensus chainparams) (m_caches vb) /\ length (m_warning_caches vb) = Z.to_nat VERSIONBITS_NUM_BITS /\
  warnings_ok chainparams t 0 (m_warning_caches vb).

(** the report of [CheckUnknownActivations] for the bits from [first] on *)
Fixpoint unknown_report (chainparams : CChainParams) (t : BlockMap) (o : option nat) (first : Z) (n : nat) : list (Z * bool) :=
  match n with
  | O => []
  | S n =>
      let s := unknown_state chainparams t o first in
      (if bool_decide (s = ACTIVE) || bool_decide (s = LOCKED_IN) then [(first, bool_decide (s = ACTIVE))] else []) ++
      unknown_report chainparams t o (first + 1) n
  end.

Lemma warning_of chainparams i : network_ok chainparams ->
  m_params (WarningBitsConditionChecker_of chainparams i) = consensus chainparams /\ m_bit (WarningBitsConditionChecker_of chainparams i) = i /\
  0 < w_period (WarningBitsConditionChecker_of chainparams i).
Proof. intros [_ Hw]. unfold WarningBitsConditionChecker_of. destruct (IsTestChain chainparams); done. Qed.

Lemma cache_ok_empty {C St} `{AbstractThresholdConditionChecker C St} (c : C) t cond : cache_ok c t cond ∅.
Proof. intros o s. rewrite lookup_empty. done. Qed.

Lemma vb_ok_new chainparams t : vb_ok chainparams t VersionBitsCache_new.
Proof.
  split; [intros pos; apply cache_ok_empty|]. split; [apply length_replicate|]. intros i cache Hl.
  apply lookup_replicate in Hl as [-> _]. apply cache_ok_empty.
Qed.

Lemma vb_ok_clear chainparams t vb : vb_ok chainparams t vb -> vb_ok chainparams t (Clear vb).
Proof. intros (_ & Hl & Hw). split; [intros pos; apply cache_ok_empty|done]. Qed.

Lemma vb_ok_set chainparams t vb caches : vb_ok chainparams t vb -> caches_ok t (consensus chainparams) caches -> vb_ok chainparams t (set_caches vb caches).
Proof. intros (_ & Hl & Hw) Hc. split_and!; done. Qed.

Section cache.
Context (chainparams : CChainParams) (Hn : network_ok chainparams).
Local Notation params := (consensus chainparams).

Lemma dep_cond_grows t t' dep p b : grows t t' -> t !! p = Some b -> dep_cond dep t' p = dep_cond dep t p.
Proof. intros Hg Hb. destruct (Hg p b Hb) as (b' & Hb' & _ & _ & _ & Hv). unfold dep_cond. rewrite Hb, Hb'. cbn [from_option]. rewrite Hv. done. Qed.

Lemma dep_state_grows t t' pos o : entries_ok t -> grows t t' -> known t o -> dep_state t' params pos o = dep_state t params pos o.
Proof. intros Ht Hg Ho. apply grows_state; [done|done| |done]. intros p b Hb. apply (dep_cond_grows t t' _ p b Hg Hb). Qed.

Lemma unknown_cond_grows t t' i p b : entries_ok t -> grows t t' -> t !! p = Some b -> unknown_cond chainparams t' i p = unknown_cond chainparams t i p.
Proof.
  intros Ht Hg Hb. destruct (Hg p b Hb) as (b' & Hb' & Hp & Hh & _ & Hv). unfold unknown_cond, warning_cond. rewrite Hb, Hb', Hp, Hh, Hv.
  destruct (warning_of chainparams i Hn) as (-> & _). do 3 f_equal. unfold block_version. cbn [foldl MAX_VERSION_BITS_DEPLOYMENTS].
  rewrite !(dep_state_grows t t') by (done || apply (pprev_known t Ht p b Hb)). done.
Qed.

Lemma vb_ok_grows t t' vb : entries_ok t -> grows t t' -> vb_ok chainparams t vb -> vb_ok chainparams t' vb.
Proof.
  intros Ht Hg (Hc & Hl & Hw). split; [|split; [done|]].
  - intros pos. apply (grows_cache t t' Ht Hg _ (dep_cond (vDeployments params pos) t)); [|apply Hc]. intros p b Hb. apply (dep_cond_grows t t' _ p b Hg Hb).
  - intros i cache Hi. apply (grows_cache t t' Ht Hg _ (unknown_cond chainparams t (0 + Z.of_nat i))); [|apply Hw, Hi].
    intros p b Hb. apply (unknown_cond_grows t t' _ p b Ht Hg Hb).
Qed.

Lemma unknown_loop_spec t o first warning caches : entries_ok t -> timely t -> known t o -> 0 <= first ->
  warnings_ok chainparams t first warning -> caches_ok t params caches ->
  exists warning' caches', unknown_loop first warning t o chainparams caches =
    Some (unknown_report chainparams t o first (length warning), warning', caches') /\
    length warning' = length warning /\ warnings_ok chainparams t first warning' /\ caches_ok t params caches'.
Proof.
  intros Ht Htl Ho. revert first caches. induction warning as [|cache warning IH]; intros first caches Hf Hw Hc; cbn [unknown_loop unknown_report length].
  - eexists _, _. split_and!; try done.
  - set (w := WarningBitsConditionChecker_of chainparams first). destruct (warning_of chainparams first Hn) as (Hmp & Hbit & HP).
    assert (Hlaw : LawfulChecker w t (unknown_cond chainparams t first) (caches_ok t params)).
    { apply (warning_lawful t Ht Htl params (proj1 Hn)); [done|done|]. unfold w. rewrite Hbit. done. }
    assert (H0 : cache_ok w t (unknown_cond chainparams t first) cache).
    { specialize (Hw O cache eq_refl). rewrite Z.add_0_r in Hw. exact Hw. }
    destruct (GetStateFor_spec w t _ _ Ht Htl o cache caches Ho H0 Hc) as (cache1 & caches1 & -> & Hc1 & Hcs1). cbn [mbind option_bind].
    assert (Hw' : warnings_ok chainparams t (first + 1) warning).
    { intros i x Hi. specialize (Hw (S i) x Hi). replace (first + 1 + Z.of_nat i) with (first + Z.of_nat (S i)) by lia. exact Hw. }
    destruct (IH (first + 1) caches1 ltac:(lia) Hw' Hcs1) as (warning2 & caches2 & -> & Hl & Hw2 & Hc2). cbn [mbind option_bind].
    eexists (cache1 :: warning2), caches2. split; [|split_and!; [cbn; lia| |done]].
    + unfold unknown_state. fold w. case_match; done.
    + intros [|i] x Hi; cbn in Hi.
      * injection Hi as <-. rewrite Z.add_0_r. exact Hc1.
      * specialize (Hw2 i x Hi). replace (first + Z.of_nat (S i)) with (first + 1 + Z.of_nat i) by lia. exact Hw2.
Qed.

End cache.

(** the entries for block templates: what the deployment at [pos] contributes *)
Definition gbt_entry (params : Params) (pos : DeploymentPos) : string * GBTInfo :=
  ((VersionBitsDeploymentInfo pos).1,
   {| gbt_bit := bit (vDeployments params pos); gbt_mask := Mask (vDeployments params pos); gbt_optional_rule := (VersionBitsDeploymentInfo pos).2 |}).

(** the entries of the deployments in state [s] *)
Definition gbt_map (t : BlockMap) (params : Params) (o : option nat) (s : ThresholdState) : gmap string GBTInfo :=
  list_to_map (gbt_entry params <$> filter (fun pos => dep_state t params pos o = s) MAX_VERSION_BITS_DEPLOYMENTS).

Section queries.
Context (chainparams : CChainParams) (Hn : network_ok chainparams) (t : BlockMap) (Ht : entries_ok t) (Htl : timely t).
Local Notation params := (consensus chainparams).

Lemma IsActiveAfter_spec o pos vb : known t o -> vb_ok chainparams t vb ->
  exists vb', IsActiveAfter t o params pos vb = Some (bool_decide (dep_state t params pos o = ACTIVE), vb') /\ vb_ok chainparams t vb'.
Proof.
  intros Ho Hv. unfold IsActiveAfter. destruct (deployment_state_spec t Ht Htl params (proj1 Hn) pos o _ Ho (proj1 Hv)) as (caches' & -> & Hc).
  cbn [mbind option_bind]. eexists. split; [done|]. apply vb_ok_set; done.
Qed.

Lemma cache_ComputeBlockVersion_spec o vb : known t o -> vb_ok chainparams t vb ->
  exists vb', cache_ComputeBlockVersion t o params vb = Some (block_version t params o, vb') /\ vb_ok chainparams t vb'.
Proof.
  intros Ho Hv. unfold cache_ComputeBlockVersion. destruct (ComputeBlockVersion_spec t Ht Htl params (proj1 Hn) o _ Ho (proj1 Hv)) as (caches' & -> & Hc).
  cbn [mbind option_bind]. eexists. split; [done|]. apply vb_ok_set; done.
Qed.

Lemma CheckUnknownActivations_spec o vb : known t o -> vb_ok chainparams t vb ->
  exists vb', CheckUnknownActivations t o chainparams vb = Some (unknown_report chainparams t o 0 (Z.to_nat VERSIONBITS_NUM_BITS), vb') /\
    vb_ok chainparams t vb'.
Proof.
  intros Ho (Hc & Hl & Hw). unfold CheckUnknownActivations.
  destruct (unknown_loop_spec chainparams Hn t o 0 (m_warning_caches vb) (m_caches vb)) as (w' & c' & -> & Hl' & Hw' & Hc'); [done..|].
  cbn [mbind option_bind]. rewrite Hl. eexists. split; [done|]. split_and!; [done| |done]. cbn [m_warning_caches]. congruence.
Qed.

Lemma GBTStatus_spec p b vb : t !! p = Some b -> vb_ok chainparams t vb ->
  exists vb', GBTStatus t p params vb =
    Some ({| signalling := gbt_map t params (Some p) STARTED; locked_in := gbt_map t params (Some p) LOCKED_IN;
             active := gbt_map t params (Some p) ACTIVE |}, vb') /\ vb_ok chainparams t vb'.
Proof.
  intros Hb Hv. unfold GBTStatus, MAX_VERSION_BITS_DEPLOYMENTS, gbt_map. cbn [gbt_loop]. assert (Ho : known t (Some p)) by (exists b; done).
  destruct (deployment_state_spec t Ht Htl params (proj1 Hn) DEPLOYMENT_TESTDUMMY _ _ Ho (proj1 Hv)) as (c1 & -> & Hc1). cbn [mbind option_bind].
  destruct (deployment_state_spec t Ht Htl params (proj1 Hn) DEPLOYMENT_TAPROOT _ _ Ho Hc1) as (c2 & -> & Hc2). cbn [mbind option_bind].
  eexists. split; [|apply vb_ok_set; eassumption]. do 2 f_equal. unfold MAX_VERSION_BITS_DEPLOYMENTS.
  rewrite !filter_cons, !filter_nil.
  destruct (dep_state t params DEPLOYMENT_TESTDUMMY (Some p)), (dep_state t params DEPLOYMENT_TAPROOT (Some p)); reflexivity.
Qed.

(** what [Info] reports of the deployment at [pos] for block [p] *)
Definition reports (pos : DeploymentPos) (p : nat) (b : CBlockIndex) (info : BIP9Info) : Prop :=
  let dep := vDeployments params pos in
  let cond := dep_cond dep t in
  let cur := dep_state t params pos (pprev b) in
  let next := dep_state t params pos (Some p) in
  let elapsed := 1 + nHeight b mod Period dep in
  current_state info = StateName cur /\ next_state info = StateName next /\ began dep t cond (pprev b) (since info) /\
  active_since info = (if bool_decide (cur = ACTIVE) then Some (since info) else if bool_decide (next = ACTIVE) then Some (nHeight b + 1) else None) /\
  (cur = STARTED -> signalling_blocks info = signal_list t cond (Z.to_nat elapsed) (Some p) /\
     exists stats, info_stats info = Some stats /\ stats_elapsed stats = elapsed /\ stats_threshold stats = Threshold dep /\
       stats_count stats = count_signals t cond (Z.to_nat elapsed) (Some p) /\
       (stats_possible stats = true <-> Threshold dep <= stats_count stats + (Period dep - elapsed))) /\
  (cur <> STARTED -> cur <> LOCKED_IN -> info_stats info = None).

Lemma Info_spec p b pos vb (dep := vDeployments params pos) : t !! p = Some b -> vb_ok chainparams t vb -> nHeight b < 2 ^ 31 ->
  0 <= Threshold dep <= Period dep ->
  exists info vb', Info t p params pos vb = Some (info, vb') /\ vb_ok chainparams t vb' /\ reports pos p b info.
Proof.
  intros Hb Hv Hh HT. pose proof (dep_lawful t params pos (proj1 Hn)) as Hl. pose proof (pprev_known t Ht p b Hb) as Hk.
  unfold Info. rewrite Hb. cbn [mbind option_bind]. fold dep.
  destruct (GetStateFor_spec dep t _ _ Ht Htl (pprev b) (m_caches vb pos) tt Hk (proj1 Hv pos) I) as (c1 & [] & -> & Hc1 & _). cbn [mbind option_bind].
  destruct (GetStateFor_spec dep t _ _ Ht Htl (Some p) c1 tt (ex_intro _ b Hb) Hc1 I) as (c2 & [] & -> & Hc2 & _). cbn [mbind option_bind].
  destruct (GetStateSinceHeightFor_spec dep t _ _ Ht Htl (pprev b) c2 tt Hk Hc2 I) as (h & c3 & [] & -> & Hc3 & _ & Hbegan). cbn [mbind option_bind].
  assert (HP : sfits 32 (Period dep)) by (apply swrap_fits; lia).
  destruct (GetStateStatisticsFor_spec dep t _ _ Ht p b [] tt Hb I HP Hh HT) as (stats & [] & Hstats & _ & Hper & Hthr & Hel & Hcnt & Hpos).
  assert (Hset : vb_ok chainparams t (set_caches vb (set_cache (m_caches vb) pos c3))) by (apply vb_ok_set, set_cache_ok; done || apply Hv).
  unfold reports, dep_state. fold dep. destruct (state_after dep t (dep_cond dep t) (pprev b)); cbn [bool_decide decide orb]; rewrite ?Hstats; cbn [mbind option_bind];
    eexists _, _; (split; [reflexivity|]); (split; [exact Hset|]); cbn [current_state next_state since active_since signalling_blocks info_stats];
    (split; [done|]); (split; [done|]); (split; [exact Hbegan|]); (split; [done|]); split; try done.
  intros _. split; [done|]. exists stats. done.
Qed.

End queries.

(** ** Histories *)

(** a block index and the cache beside it: the index grows, the cache answers queries and is cleared, in any order *)
Inductive vb_history (chainparams : CChainParams) : BlockMap -> VersionBitsCache -> Prop :=
  | history_new t : tree_ok t -> timely t -> vb_history chainparams t VersionBitsCache_new
  | history_grows t t' vb : vb_history chainparams t vb -> tree_ok t' -> timely t' -> grows t t' -> vb_history chainparams t' vb
  | history_clear t vb : vb_history chainparams t vb -> vb_history chainparams t (Clear vb)
  | history_active t vb o pos r vb' : vb_history chainparams t vb -> known t o ->
      IsActiveAfter t o (consensus chainparams) pos vb = Some (r, vb') -> vb_history chainparams t vb'
  | history_version t vb o v vb' : vb_history chainparams t vb -> known t o ->
      cache_ComputeBlockVersion t o (consensus chainparams) vb = Some (v, vb') -> vb_history chainparams t vb'
  | history_unknown t vb o l vb' : vb_history chainparams t vb -> known t o ->
      CheckUnknownActivations t o chainparams vb = Some (l, vb') -> vb_history chainparams t vb'
  | history_gbt t vb p b r vb' : vb_history chainparams t vb -> t !! p = Some b ->
      GBTStatus t p (consensus chainparams) vb = Some (r, vb') -> vb_history chainparams t vb'
  | history_info t vb p b pos r vb' : vb_history chainparams t vb -> t !! p = Some b -> nHeight b < 2 ^ 31 ->
      0 <= Threshold (vDeployments (consensus chainparams) pos) <= Period (vDeployments (consensus chainparams) pos) ->
      Info t p (consensus chainparams) pos vb = Some (r, vb') -> vb_history chainparams t vb'.

Lemma history_ok chainparams t vb : network_ok chainparams -> vb_history chainparams t vb -> entries_ok t /\ timely t /\ vb_ok chainparams t vb.
Proof.
  intros Hn. induction 1 as [t Ht Htl|t t' vb _ (Ht & _ & Hv) Ht' Htl' Hg|t vb _ (Ht & Htl & Hv)|t vb o pos r vb' _ (Ht & Htl & Hv) Ho E
    |t vb o v vb' _ (Ht & Htl & Hv) Ho E|t vb o l vb' _ (Ht & Htl & Hv) Ho E|t vb p b r vb' _ (Ht & Htl & Hv) Hb E
    |t vb p b pos r vb' _ (Ht & Htl & Hv) Hb Hr HT E].
  - split_and!; [apply tree_entries, Ht|done|apply vb_ok_new].
  - split_and!; [apply tree_entries, Ht'|done|]. apply (vb_ok_grows chainparams Hn t t'); done.
  - split_and!; [done|done|apply vb_ok_clear, Hv].
  - destruct (IsActiveAfter_spec chainparams Hn t Ht Htl o pos vb Ho Hv) as (vb1 & E1 & Hv1). simplify_eq. done.
  - destruct (cache_ComputeBlockVersion_spec chainparams Hn t Ht Htl o vb Ho Hv) as (vb1 & E1 & Hv1). simplify_eq. done.
  - destruct (CheckUnknownActivations_spec chainparams Hn t Ht Htl o vb Ho Hv) as (vb1 & E1 & Hv1). simplify_eq. done.
  - destruct (GBTStatus_spec chainparams Hn t Ht Htl p b vb Hb Hv) as (vb1 & E1 & Hv1). simplify_eq. done.
  - destruct (Info_spec chainparams Hn t Ht Htl p b pos vb Hb Hv Hr HT) as (info & vb1 & E1 & Hv1 & _). simplify_eq. done.
Qed.

(** ** Properties *)

(** C36: The version-bits cache is transparent: after any history of growth of the block index, queries and clearings, a query returns what the
    cache-free automaton of BIP9 gives on the branch asked for: whether a deployment is active, a version with the top bits and exactly
    the bits of the deployments in [STARTED] or [LOCKED_IN], and the unknown bits that locked in or activated. *)
Theorem versionbits_transparent (chainparams : CChainParams) (t : BlockMap) (vb : VersionBitsCache) (o : option nat) :
  network_ok chainparams -> vb_history chainparams t vb -> known t o ->
  (forall pos, exists vb', IsActiveAfter t o (consensus chainparams) pos vb =
     Some (bool_decide (dep_state t (consensus chainparams) pos o = ACTIVE), vb')) /\
  (exists v vb', cache_ComputeBlockVersion t o (consensus chainparams) vb = Some (v, vb') /\
     forall i, 0 <= i -> Z.testbit v i = (i =? 29) || existsb (fun pos => asks (dep_state t (consensus chainparams) pos o) &&
       (bit (vDeployments (consensus chainparams) pos) =? i)) MAX_VERSION_BITS_DEPLOYMENTS) /\
  (exists vb', CheckUnknownActivations t o chainparams vb = Some (unknown_report chainparams t o 0 (Z.to_nat VERSIONBITS_NUM_BITS), vb')).
Proof.
  intros Hn Hh Ho. destruct (history_ok chainparams t vb Hn Hh) as (Ht & Htl & Hv). split_and!.
  - intros pos. destruct (IsActiveAfter_spec chainparams Hn t Ht Htl o pos vb Ho Hv) as (vb' & E & _). eauto.
  - destruct (cache_ComputeBlockVersion_spec chainparams Hn t Ht Htl o vb Ho Hv) as (vb' & E & _). eexists _, _. split; [exact E|].
    intros i Hi. apply (block_version_testbit t (consensus chainparams) (proj1 Hn) o i Hi).
  - destruct (CheckUnknownActivations_spec chainparams Hn t Ht Htl o vb Ho Hv) as (vb' & E & _). eauto.
Qed.

(** C37: No activation without signalling: if a deployment that is not configured as always active is reported active after block [p], then
    on the branch of [p] some period in state [STARTED] had at least the threshold of signalling blocks, the deployment was locked in from
    the next period on and became active at the start of a later one, at or above the minimum activation height. *)
Theorem activation_signalled (chainparams : CChainParams) (t : BlockMap) (vb vb' : VersionBitsCache) (p : nat) (b : CBlockIndex)
    (pos : DeploymentPos) (dep := vDeployments (consensus chainparams) pos) :
  network_ok chainparams -> vb_history chainparams t vb -> t !! p = Some b -> nStartTime dep <> ALWAYS_ACTIVE ->
  IsActiveAfter t (Some p) (consensus chainparams) pos vb = Some (true, vb') ->
  exists i j a, (i < j)%nat /\ (j < period_after dep t p)%nat /\
    period_state dep t (dep_cond dep t) p i = STARTED /\ period_state dep t (dep_cond dep t) p j = LOCKED_IN /\
    ancestor t p (Z.of_nat (S i) * Period dep - 1) = Some a /\
    Threshold dep <= count_signals t (dep_cond dep t) (Z.to_nat (Period dep)) (Some a) /\
    MinActivationHeight dep <= Z.of_nat (S j) * Period dep <= nHeight b + 1.
Proof.
  intros Hn Hh Hb Hna Hact. destruct (history_ok chainparams t vb Hn Hh) as (Ht & Htl & Hv). pose proof (dep_lawful t _ pos (proj1 Hn)) as Hl.
  destruct (IsActiveAfter_spec chainparams Hn t Ht Htl (Some p) pos vb (ex_intro _ b Hb) Hv) as (vb1 & E1 & _).
  rewrite Hact in E1. injection E1 as E1 _. symmetry in E1. apply bool_decide_eq_true in E1.
  unfold dep_state, state_after in E1. fold dep in E1, Hl. change (BeginTime dep) with (nStartTime dep) in E1.
  rewrite (proj2 (Z.eqb_neq _ _) Hna) in E1. destruct (nStartTime dep =? NEVER_ACTIVE); [done|]. cbn [bip9_state] in E1.
  assert (Hk : Z.of_nat (period_after dep t p) * Period dep <= nHeight b + 1).
  { unfold period_after. rewrite Hb. cbn [from_option]. pose proof (height_bound t Ht p b Hb). pose proof (Period_pos (c := dep)) as HP.
    rewrite Z2Nat.id by (apply Z.div_pos; lia). pose proof (Z.mul_div_le (nHeight b + 1) (Period dep) HP). lia. }
  destruct (period_state_active dep t _ _ Ht p b _ Hb E1 Hk) as (j & Hj & Hlock & Hmin).
  destruct (period_state_signalled dep t _ p j (or_introl Hlock)) as (i & a & Hi & Hst & Ha & Hthr).
  pose proof (Period_pos (c := dep)). exists i, j, a. split_and!; try done. nia.
Qed.

(** The report on a deployment: [Info] returns the states of the automaton for a block and its successor, the height at which the
    current state began, the signalling blocks of the current period with their count, whether the threshold can still be met, and the
    height of activation, as soon as it is known. *)
Theorem versionbits_info (chainparams : CChainParams) (t : BlockMap) (vb : VersionBitsCache) (p : nat) (b : CBlockIndex) (pos : DeploymentPos) :
  network_ok chainparams -> vb_history chainparams t vb -> t !! p = Some b -> nHeight b < 2 ^ 31 ->
  0 <= Threshold (vDeployments (consensus chainparams) pos) <= Period (vDeployments (consensus chainparams) pos) ->
  exists info vb', Info t p (consensus chainparams) pos vb = Some (info, vb') /\ reports chainparams t pos p b info.
Proof.
  intros Hn Hh Hb Hr HT. destruct (history_ok chainparams t vb Hn Hh) as (Ht & Htl & Hv).
  destruct (Info_spec chainparams Hn t Ht Htl p b pos vb Hb Hv Hr HT) as (info & vb' & E & _ & Hrep). eauto.
Qed.

(** ** The networks and a sample branch *)

Lemma network_okb chainparams :
  forallb (fun pos => bool_decide (0 < i32 (period (vDeployments (consensus chainparams) pos)) /\
                                   0 <= bit (vDeployments (consensus chainparams) pos) < VERSIONBITS_NUM_BITS)) MAX_VERSION_BITS_DEPLOYMENTS = true ->
  0 < i32 (DifficultyAdjustmentInterval (consensus chainparams)) -> network_ok chainparams.
Proof.
  cbn [forallb MAX_VERSION_BITS_DEPLOYMENTS]. rewrite !andb_true_iff, !bool_decide_eq_true. intros (H1 & H2 & _) Hw. split; [|done]. intros []; done.
Qed.

(** the parameters of the networks satisfy what the theorems ask for; on the main network no deployment is ever active *)
Lemma networks_ok `{Cpu} opts : network_ok CMainParams /\ network_ok CTestNetParams /\ network_ok CTestNet4Params /\ network_ok (CRegTestParams opts) /\
  forall t o pos, dep_state t (consensus CMainParams) pos o = FAILED.
Proof.
  assert (Hdep : forall pos d, 0 < i32 (period d) /\ 0 <= bit d < VERSIONBITS_NUM_BITS ->
    0 < i32 (period (override_deployment opts pos d)) /\ 0 <= bit (override_deployment opts pos d) < VERSIONBITS_NUM_BITS).
  { intros pos d Hd. unfold override_deployment. revert d Hd. induction (version_bits_parameters opts) as [|o l IH]; intros d Hd; [done|].
    cbn [foldl]. apply IH. destruct (decide (o.1 = pos)); done. }
  split_and!; try (apply network_okb; reflexivity); [|intros ?? []; reflexivity].
  split; [|reflexivity]. intros pos. apply Hdep. destruct pos; vm_compute; done.
Qed.

(** a branch of ten blocks with one deployment of period three: signalling at heights 3 to 5, active from height 9 on *)
Definition vb_block (signal : bool) (t : BlockMap) : CBlockIndex :=
  let i := length t in {|
    phashBlock := Some (Z.of_nat i :: replicate 31 0);
    pprev := match i with O => None | S q => Some q end;
    pskip := match i with O => None | S q => ancestor t q (GetSkipHeight (Z.of_nat i)) end;
    nHeight := Z.of_nat i; nFile := 0; nDataPos := 0; nUndoPos := 0; nChainWork := arith_of 0; nTx := 0; m_chain_tx_count := 0; nStatus := 0;
    bi_nVersion := if signal then 0x30000000 else 0x20000000; bi_hashMerkleRoot := uint256_null; bi_nTime := 100 + Z.of_nat i; bi_nBits := 0; bi_nNonce := 0;
    nSequenceId := 0; nTimeMax := 100 + Z.of_nat i |}.
Definition sample_branch : BlockMap :=
  foldl (fun t signal => t ++ [vb_block signal t]) [] [false; false; false; true; true; true; false; false; false; false].

Definition sample_deployments : DeploymentPos -> BIP9Deployment :=
  deployments {| bit := 28; nStartTime := 0; nTimeout := NO_TIMEOUT; min_activation_height := 0; period := 3; threshold := 2 |}
              {| bit := 2; nStartTime := NEVER_ACTIVE; nTimeout := NO_TIMEOUT; min_activation_height := 0; period := 3; threshold := 2 |}.
Definition sample_network : CChainParams :=
  let base := @CRegTestParams portable_cpu {| version_bits_parameters := []; activation_heights := []; fastprune := false; enforce_bip94 := false |} in
  let p := consensus base in {|
    m_chain_type := m_chain_type base;
    consensus := {|
      nSubsidyInitial := nSubsidyInitial p; nCoinbaseMaturity := nCoinbaseMaturity p; hashGenesisBlock := hashGenesisBlock p;
      nSubsidyHalvingInterval := nSubsidyHalvingInterval p; script_flag_exceptions := script_flag_exceptions p; BIP34Height := BIP34Height p;
      BIP34Hash := BIP34Hash p; BIP65Height := BIP65Height p; BIP66Height := BIP66Height p; CSVHeight := CSVHeight p; SegwitHeight := SegwitHeight p;
      MinBIP9WarningHeight := MinBIP9WarningHeight p; vDeployments := sample_deployments; powLimit := powLimit p;
      fPowAllowMinDifficultyBlocks := fPowAllowMinDifficultyBlocks p; enforce_BIP94 := enforce_BIP94 p; fPowNoRetargeting := fPowNoRetargeting p;
      nPowTargetSpacing := nPowTargetSpacing p; nPowAveragingWindow := nPowAveragingWindow p; powSpacingRamps := powSpacingRamps p;
      nMinimumChainWork := nMinimumChainWork p; defaultAssumeValid := defaultAssumeValid p; signet_blocks := signet_blocks p;
      signet_challenge := signet_challenge p |};
    pchMessageStart := pchMessageStart base; nDefaultPort := nDefaultPort base; nPruneAfterHeight := nPruneAfterHeight base;
    m_assumed_blockchain_size := m_assumed_blockchain_size base; m_assumed_chain_state_size := m_assumed_chain_state_size base;
    base58Prefixes := base58Prefixes base; bech32_hrp := bech32_hrp base; genesis := genesis base;
    fDefaultConsistencyChecks := fDefaultConsistencyChecks base; m_is_mockable_chain := m_is_mockable_chain base;
    m_assumeutxo_data := m_assumeutxo_data base |}.

Lemma sample_network_ok : network_ok sample_network.
Proof. apply network_okb; reflexivity. Qed.

Lemma sample_branch_ok : tree_ok sample_branch /\ timely sample_branch.
Proof.
  split; [apply tree_okb_ok; vm_compute; reflexivity|]. intros p b q m Hb Hq Hm.
  assert (Hp : (p < 10)%nat) by (apply lookup_lt_Some in Hb; exact Hb).
  do 10 (destruct p as [|p]; [injection Hb as <-; cbn in Hq; try discriminate Hq; injection Hq as <-; vm_compute in Hm; injection Hm as <-; reflexivity|]). lia.
Qed.

Lemma sample_history : vb_history sample_network sample_branch VersionBitsCache_new.
Proof. apply history_new; apply sample_branch_ok. Qed.

Lemma versionbits_transparent_witness :
  exists vb', IsActiveAfter sample_branch (Some 8%nat) (consensus sample_network) DEPLOYMENT_TESTDUMMY VersionBitsCache_new = Some (true, vb').
Proof.
  destruct (versionbits_transparent sample_network sample_branch VersionBitsCache_new (Some 8%nat) sample_network_ok sample_history) as [H _].
  - eexists. reflexivity.
  - destruct (H DEPLOYMENT_TESTDUMMY) as [vb' E]. exists vb'. rewrite E. vm_compute. reflexivity.
Defined.

Lemma activation_signalled_witness : exists i j a, (i < j)%nat /\ ancestor sample_branch 8 (Z.of_nat (S i) * 3 - 1) = Some a.
Proof.
  destruct (IsActiveAfter sample_branch (Some 8%nat) (consensus sample_network) DEPLOYMENT_TESTDUMMY VersionBitsCache_new) as [[r vb']|] eqn:E;
    [|vm_compute in E; discriminate E].
  assert (r = true) as -> by (vm_compute in E; injection E as <- _; reflexivity).
  destruct (activation_signalled sample_network sample_branch VersionBitsCache_new vb' 8 (default CBlockIndex_default (sample_branch !! 8%nat))
    DEPLOYMENT_TESTDUMMY sample_network_ok sample_history) as (i & j & a & Hij & _ & _ & _ & Ha & _);
    [reflexivity|vm_compute; discriminate|exact E|]. exists i, j, a. split; [exact Hij|exact Ha].
Defined.

Lemma versionbits_info_witness : exists info vb',
  Info sample_branch 4 (consensus sample_network) DEPLOYMENT_TESTDUMMY VersionBitsCache_new = Some (info, vb') /\ current_state info = "started"%string.
Proof.
  destruct (versionbits_info sample_network sample_branch VersionBitsCache_new 4 (default CBlockIndex_default (sample_branch !! 4%nat))
    DEPLOYMENT_TESTDUMMY sample_network_ok sample_history) as (info & vb' & E & Hc & _);
    [reflexivity|reflexivity|vm_compute; split; discriminate|]. exists info, vb'. split; [exact E|]. rewrite Hc. vm_compute. reflexivity.
Defined.
