(* ===== verification/Connect.v ===== *)
(** * Connecting and disconnecting blocks

    src/validation.cpp: [UpdateCoins], [CheckInputScripts], [GetBlockScriptFlags], [ConnectBlock], [ApplyTxInUndo] and
    [DisconnectBlock], the BIP30 exceptions, the data of src/undo.h, and the part of [WriteBlockUndo]
    (src/node/blockstorage.cpp) that changes the block index.

    Running a script and the cache of script executions are fields of [ScriptVerifier] (see ScriptCheck.v); what configures a node and
    what its disk answers are fields of [ConnectOptions].  [None] is a failed assertion, the dereference of a null
    pointer or an uncaught exception.  A view passed by reference is returned, also when the block is rejected. *)

From Stdlib Require Import ZArith Lia Bool String.
From stdpp Require Import base numbers list gmap strings.
From S2P Require Import Prelude ArithUint Uint256 Arith256 Params Hashes Serialize Primitives Opcodes Script ScriptFlags SigHash BlockIndex Coins CoinsDB TxVerify Merkle ChainParams Pow BlockCheck.
Local Open Scope Z_scope.

(** ** src/undo.h *)

Notation CTxUndo := (list Coin).
Notation CBlockUndo := (list CTxUndo).

(** ** Script flags of a block *)

Definition GetBlockScriptFlags (block_index : CBlockIndex) (consensusparams : Params) : option Z :=
  hash ← phashBlock block_index;
  let flags := Z.lor (Z.lor SCRIPT_VERIFY_P2SH SCRIPT_VERIFY_WITNESS) SCRIPT_VERIFY_TAPROOT in
  let flags := default flags ((fun r => r.2.2) <$> list_find (fun e => e.1 = hash) (script_flag_exceptions consensusparams)) in
  let raise dep f flags := if DeploymentActiveAt block_index consensusparams dep then Z.lor flags f else flags in
  Some (raise DEPLOYMENT_SEGWIT SCRIPT_VERIFY_NULLDUMMY (raise DEPLOYMENT_CSV SCRIPT_VERIFY_CHECKSEQUENCEVERIFY
    (raise DEPLOYMENT_CLTV SCRIPT_VERIFY_CHECKLOCKTIMEVERIFY (raise DEPLOYMENT_DERSIG SCRIPT_VERIFY_DERSIG flags)))).

(** ** Scripts of the inputs *)

(** one [CScriptCheck]: input [check_in] of a transaction against the output it spends *)
Record CScriptCheck : Type := { check_tx : CTransaction; check_in : nat; check_out : CTxOut; check_flags : Z; check_txdata : PrecomputedTransactionData }.

(** Running a check gives the name of its script error, if any.  [execution_cached] is the lookup in the script execution
    cache, and [reported] the failure a queue of checks reports out of several. *)
Class ScriptVerifier : Type := {
  run_check : CScriptCheck -> option string;
  execution_cached : CTransaction -> Z -> bool;
  reported : list string -> string;
}.

Section connect.
Context `{Cpu} `{ScriptVerifier} {V : Type} `{CCoinsView V}.
Implicit Types c : CCoinsViewCache V.

Fixpoint spent_outputs (ins : list CTxIn) c : option (list CTxOut * CCoinsViewCache V) :=
  match ins with
  | [] => Some ([], c)
  | txin :: ins =>
      let '(coin, c) := AccessCoin c (prevout txin) in
      if IsSpent coin then None
      else '(outs, c) ← spent_outputs ins c; Some (coin_out coin :: outs, c)
  end.

(** the checks run at once; the first that fails decides *)
Fixpoint run_checks (flags : Z) (checks : list CScriptCheck) : verdict TxValidationResult unit :=
  match checks with
  | [] => Valid tt
  | check :: checks =>
      match run_check check with
      | None => run_checks flags checks
      | Some error =>
          if flag flags STANDARD_NOT_MANDATORY_VERIFY_FLAGS then
            match run_check {| check_tx := check_tx check; check_in := check_in check; check_out := check_out check;
                               check_flags := Z.land flags (u32 (Z.lnot STANDARD_NOT_MANDATORY_VERIFY_FLAGS)); check_txdata := check_txdata check |} with
            | None => Invalid TX_NOT_STANDARD ("non-mandatory-script-verify-flag (" +:+ error +:+ ")")
            | Some error => Invalid TX_CONSENSUS ("mandatory-script-verify-flag-failed (" +:+ error +:+ ")")
            end
          else Invalid TX_CONSENSUS ("mandatory-script-verify-flag-failed (" +:+ error +:+ ")")
      end
  end.

(** with a queue ([pvChecks]), the checks to add to it; [txdata] is new *)
Definition CheckInputScripts (tx : CTransaction) c (flags : Z) (queue : bool)
    : option (verdict TxValidationResult (list CScriptCheck) * CCoinsViewCache V) :=
  if IsCoinBase tx then Some (Valid [], c)
  else if execution_cached tx flags then Some (Valid [], c)
  else
    '(outs, c) ← spent_outputs (vin tx) c;
    txdata ← PrecomputedTransactionData_Init tx outs false;
    if negb (zlen (m_spent_outputs txdata) =? zlen (vin tx)) then None
    else
      let checks := imap (fun i out => {| check_tx := tx; check_in := i; check_out := out; check_flags := flags; check_txdata := txdata |})
        (m_spent_outputs txdata) in
      if queue then Some (Valid checks, c)
      else match run_checks flags checks with
           | Valid _ => Some (Valid [], c)
           | Invalid r reason => Some (Invalid r reason, c)
           end.

(** ** The coins of a transaction *)

Fixpoint spend_loop (ins : list CTxIn) c : option (CTxUndo * CCoinsViewCache V) :=
  match ins with
  | [] => Some ([], c)
  | txin :: ins =>
      match SpendCoin c (prevout txin) with
      | (true, Some coin, c) => '(undo, c) ← spend_loop ins c; Some (coin :: undo, c)
      | _ => None
      end
  end.

(** the coins spent, for the undo record of the transaction, and the view *)
Definition UpdateCoins (tx : CTransaction) c (nHeight : Z) : option (CTxUndo * CCoinsViewCache V) :=
  '(txundo, c) ← (if IsCoinBase tx then Some ([], c) else spend_loop (vin tx) c);
  c ← AddCoins c tx nHeight false;
  Some (txundo, c).

(** ** [ConnectBlock] *)

Definition IsBIP30Repeat (block_index : CBlockIndex) : option bool :=
  hash ← GetBlockHash block_index;
  Some (((nHeight block_index =? 91842) && blob_eqb hash (hex256 "00000000000a4d0a398161ffc163c503763b1f4360639393e0e4c8e300e0caec")) ||
        ((nHeight block_index =? 91880) && blob_eqb hash (hex256 "00000000000743f190a18c5577a3c2d2a1f610ae9601ac046a38084ccb7cd721"))).

Definition IsBIP30Unspendable (block_hash : uint256) (block_height : Z) : bool :=
  ((block_height =? 91722) && blob_eqb block_hash (hex256 "00000000000271a2dc26e7667f8419f2e15416dc6955e5a6c6cdf3f2574dd08e")) ||
  ((block_height =? 91812) && blob_eqb block_hash (hex256 "00000000000af0aed4792b1acee3d966af36cf5def14935db8de83d6f9306f2f")).

Definition BIP34_IMPLIES_BIP30_LIMIT : Z := 1983702.

(** whether the block at [p] is checked for outputs that exist already *)
Definition checks_BIP30 (t : BlockMap) (p : nat) (params : Params) : option bool :=
  pindex ← t !! p;
  repeat ← IsBIP30Repeat pindex;
  prev ← pprev pindex;
  pindexBIP34height ← GetAncestor t prev (BIP34Height params);
  on_chain ← match pindexBIP34height with
             | None => Some false
             | Some q => bq ← t !! q; hash ← GetBlockHash bq; Some (blob_eqb hash (BIP34Hash params))
             end;
  Some ((negb repeat && negb on_chain) || (nHeight pindex >=? BIP34_IMPLIES_BIP30_LIMIT)).

(** the lookups of one transaction's outputs, and of all; [true] when some output exists *)
Fixpoint have_outputs (txid : uint256) (o : Z) (outs : list CTxOut) c : bool * CCoinsViewCache V :=
  match outs with
  | [] => (false, c)
  | _ :: outs =>
      let '(b, c) := HaveCoin c {| out_hash := txid; out_n := u32 o |} in
      let '(b', c) := have_outputs txid (o + 1) outs c in
      (b || b', c)
  end.
Fixpoint bip30_loop (txs : list CTransaction) c : bool * CCoinsViewCache V :=
  match txs with
  | [] => (false, c)
  | tx :: txs =>
      let '(b, c) := have_outputs (ComputeHash tx) 0 (vout tx) c in
      let '(b', c) := bip30_loop txs c in
      (b || b', c)
  end.

Fixpoint prev_heights (ins : list CTxIn) c : list Z * CCoinsViewCache V :=
  match ins with
  | [] => ([], c)
  | txin :: ins =>
      let '(coin, c) := AccessCoin c (prevout txin) in
      let '(hs, c) := prev_heights ins c in
      (coin_nHeight coin :: hs, c)
  end.

(** what the loop over the transactions accumulates *)
Record connect_state : Type := { nFees : Z; nSigOpsCost : Z; blockundo : CBlockUndo; queued : list CScriptCheck }.

(** the checks of a transaction that need its inputs, and its fee *)
Definition check_spend (t : BlockMap) (p : nat) (nLockTimeFlags : Z) (tx : CTransaction) (fees : Z) c
    : option (verdict BlockValidationResult Z * CCoinsViewCache V) :=
  pindex ← t !! p;
  '(v, c) ← CheckTxInputs tx c (nHeight pindex);
  match v with
  | Invalid _ reason => Some (Invalid BLOCK_CONSENSUS reason, c)
  | Valid txfee =>
      let fees := fees + txfee in
      if negb (MoneyRange fees) then Some (Invalid BLOCK_CONSENSUS "bad-txns-accumulated-fee-outofrange", c)
      else
        let '(prevheights, c) := prev_heights (vin tx) c in
        locks ← SequenceLocks t tx nLockTimeFlags prevheights p;
        if negb locks then Some (Invalid BLOCK_CONSENSUS "bad-txns-nonfinal", c) else Some (Valid fees, c)
  end.

(** what does not change in the loop over the transactions *)
Record connect_context : Type := {
  index : BlockMap; position : nat; height : Z; lock_flags : Z; script_flags : Z; fScriptChecks : bool; queue : bool }.

(** the body of the loop for transaction [i] *)
Definition connect_tx (k : connect_context) (i : nat) (tx : CTransaction) (st : connect_state) c
    : option (verdict BlockValidationResult connect_state * CCoinsViewCache V) :=
  '(v, c) ← (if IsCoinBase tx then Some (Valid (nFees st), c)
             else check_spend (index k) (position k) (lock_flags k) tx (nFees st) c);
  match v with
  | Invalid r reason => Some (Invalid r reason, c)
  | Valid fees =>
      '(cost, c) ← GetTransactionSigOpCost tx c (script_flags k);
      let cost := nSigOpsCost st + cost in
      if cost >? MAX_BLOCK_SIGOPS_COST then Some (Invalid BLOCK_CONSENSUS "bad-blk-sigops", c)
      else
        '(v, c) ← (if negb (IsCoinBase tx) && fScriptChecks k then CheckInputScripts tx c (script_flags k) (queue k) else Some (Valid [], c));
        match v with
        | Invalid _ reason => Some (Invalid BLOCK_CONSENSUS reason, c)
        | Valid checks =>
            '(txundo, c) ← UpdateCoins tx c (height k);
            Some (Valid {| nFees := fees; nSigOpsCost := cost; queued := queued st ++ checks;
                           blockundo := match i with O => blockundo st | S _ => blockundo st ++ [txundo] end |}, c)
        end
  end.

Fixpoint connect_loop (k : connect_context) (i : nat) (txs : list CTransaction) (st : connect_state) c
    : option (verdict BlockValidationResult connect_state * CCoinsViewCache V) :=
  match txs with
  | [] => Some (Valid st, c)
  | tx :: txs =>
      '(v, c) ← connect_tx k i tx st c;
      match v with
      | Invalid r reason => Some (Invalid r reason, c)
      | Valid st => connect_loop k (S i) txs st c
      end
  end.

(** what configures the node, the answer of [CheckSignetBlockSolution], and where [FindUndoPos] and the file writes of
    [WriteBlockUndo] put the record, [None] when they fail *)
Record ConnectOptions : Type := {
  AssumedValidBlock : uint256; MinimumChainWork : arith_uint256; HasThreads : bool; signet_solution : bool; undo_pos : option Z }.

(** [fScriptChecks] of [ConnectBlock] *)
Definition needs_script_checks (opts : ConnectOptions) (s : BlockManager) (p : nat) (params : Params) : option bool :=
  let t := m_block_index s in
  if IsNull (AssumedValidBlock opts) then Some true
  else
    match LookupBlockIndex t (AssumedValidBlock opts) with
    | None => Some true
    | Some it =>
        pindex ← t !! p;
        a ← GetAncestor t it (nHeight pindex);
        if negb (bool_decide (a = Some p)) then Some true
        else
          best ← best_header s;
          m_best_header ← t !! best;
          a ← GetAncestor t best (nHeight pindex);
          if negb (bool_decide (a = Some p)) || arith_lt (nChainWork m_best_header) (MinimumChainWork opts) then Some true
          else
            time ← GetBlockProofEquivalentTime m_best_header pindex m_best_header params;
            Some (time <=? 60 * 60 * 24 * 7 * 2)
    end.

(** [WriteBlockUndo], with the changes to the index *)
Definition set_nUndoPos (b : CBlockIndex) (pos : Z) : CBlockIndex := {|
  phashBlock := phashBlock b; pprev := pprev b; pskip := pskip b; nHeight := nHeight b;
  nFile := nFile b; nDataPos := nDataPos b; nUndoPos := pos; nChainWork := nChainWork b;
  nTx := nTx b; m_chain_tx_count := m_chain_tx_count b; nStatus := Z.lor (nStatus b) BLOCK_HAVE_UNDO;
  bi_nVersion := bi_nVersion b; bi_hashMerkleRoot := bi_hashMerkleRoot b; bi_nTime := bi_nTime b;
  bi_nBits := bi_nBits b; bi_nNonce := bi_nNonce b; nSequenceId := nSequenceId b;
  nTimeMax := nTimeMax b |}.

Definition set_entry (s : BlockManager) (p : nat) (b : CBlockIndex) : BlockManager :=
  {| m_block_index := <[p := b]> (m_block_index s); best_header := best_header s; m_dirty_blockindex := p :: m_dirty_blockindex s |}.

Definition WriteBlockUndo (undo_pos : option Z) (s : BlockManager) (p : nat) : option (bool * BlockManager) :=
  block ← m_block_index s !! p;
  if (GetUndoPos block).1 =? -1 then
    match undo_pos with
    | None => Some (false, s)
    | Some pos => Some (true, set_entry s p (set_nUndoPos block pos))
    end
  else Some (true, s).

Inductive connect_result : Type :=
| Connected
| Rejected (r : BlockValidationResult) (reason : string)
| SystemError.

(** the verdict on a block whose loop over the transactions gave [v], and its undo record *)
Definition finish_checks (k : connect_context) (params : Params) (coinbase_out : Z) (v : verdict BlockValidationResult connect_state)
    : verdict BlockValidationResult CBlockUndo :=
  match v with
  | Invalid r reason => Invalid r reason
  | Valid st =>
      let blockReward := nFees st + GetBlockSubsidy (height k) params in
      if coinbase_out >? blockReward then Invalid BLOCK_CONSENSUS "bad-cb-amount"
      else
        match omap run_check (queued st) with
        | [] => Valid (blockundo st)
        | errors => Invalid BLOCK_CONSENSUS ("mandatory-script-verify-flag-failed (" +:+ reported errors +:+ ")")
        end
  end.

(** the part of [ConnectBlock] after the checks: the undo record, the block index and the best block of the view *)
Definition finish_connect (opts : ConnectOptions) (s : BlockManager) (p : nat) (block_hash : uint256) c
    : option (connect_result * BlockManager * CCoinsViewCache V) :=
  '(written, s) ← WriteBlockUndo (undo_pos opts) s p;
  if negb written then Some (SystemError, s, c)
  else
    pindex ← m_block_index s !! p;
    valid ← IsValid pindex BLOCK_VALID_SCRIPTS;
    s ← (if valid : bool then Some s else '(pindex, _) ← RaiseValidity pindex BLOCK_VALID_SCRIPTS; Some (set_entry s p pindex));
    Some (Connected, s, SetBestBlock c block_hash).

(** The undo record is the one given to [WriteBlockUndo].  The flags [memo] of the block object are read by [CheckBlock]; those it leaves are not
    returned, nothing after it reads them. *)
Definition ConnectBlock (opts : ConnectOptions) (params : Params) (s : BlockManager) (memo : BlockMemo) (block : CBlock) (p : nat) c (fJustCheck : bool)
    : option (connect_result * CBlockUndo * BlockManager * CCoinsViewCache V) :=
  let t := m_block_index s in
  pindex ← t !! p;
  hash ← phashBlock pindex;
  let block_hash := CBlockHeader_GetHash (header block) in
  if negb (blob_eqb hash block_hash) then None
  else
    '(v, _) ← CheckBlock (signet_solution opts) memo block params (negb fJustCheck) (negb fJustCheck);
    match v with
    | Invalid BLOCK_MUTATED _ => Some (SystemError, [], s, c)
    | Invalid r reason => Some (Rejected r reason, [], s, c)
    | Valid _ =>
        hashPrevBlock ← match pprev pindex with None => Some uint256_null | Some q => bq ← t !! q; GetBlockHash bq end;
        let '(best, c) := cache_GetBestBlock c in
        if negb (blob_eqb hashPrevBlock best) then None
        else if blob_eqb block_hash (hashGenesisBlock params) then
          Some (Connected, [], s, if fJustCheck then c else SetBestBlock c hash)
        else
          scripts ← needs_script_checks opts s p params;
          check30 ← checks_BIP30 t p params;
          let '(overwrites, c) := if check30 : bool then bip30_loop (vtx block) c else (false, c) in
          flags ← GetBlockScriptFlags pindex params;
          let k := {| index := t; position := p; height := nHeight pindex; script_flags := flags;
                      lock_flags := if DeploymentActiveAt pindex params DEPLOYMENT_CSV then LOCKTIME_VERIFY_SEQUENCE else 0;
                      fScriptChecks := scripts; queue := HasThreads opts && scripts |} in
          '(v, c) ← (if overwrites then Some (Invalid BLOCK_CONSENSUS "bad-txns-BIP30", c)
                     else connect_loop k 0 (vtx block) {| nFees := 0; nSigOpsCost := 0; blockundo := []; queued := [] |} c);
          coinbase ← vtx block !! 0%nat;
          coinbase_out ← GetValueOut coinbase;
          match finish_checks k params coinbase_out v with
          | Invalid r reason => Some (Rejected r reason, [], s, c)
          | Valid undo =>
              if fJustCheck then Some (Connected, undo, s, c)
              else '(r, s, c) ← finish_connect opts s p hash c; Some (r, undo, s, c)
          end
    end.

(** ** [DisconnectBlock] *)

Inductive DisconnectResult : Type := DISCONNECT_OK | DISCONNECT_UNCLEAN | DISCONNECT_FAILED.

Definition ApplyTxInUndo (undo : Coin) c (out : COutPoint) : option (DisconnectResult * CCoinsViewCache V) :=
  let '(have, c) := HaveCoin c out in
  let fClean := negb have in
  let add undo c :=
    c ← AddCoin c out undo (negb fClean);
    Some (if fClean then DISCONNECT_OK else DISCONNECT_UNCLEAN, c) in
  if coin_nHeight undo =? 0 then
    let '(alternate, c) := AccessByTxid c (out_hash out) in
    if negb (IsSpent alternate)
    then add {| coin_out := coin_out undo; fCoinBase := fCoinBase alternate; coin_nHeight := coin_nHeight alternate |} c
    else Some (DISCONNECT_FAILED, c)
  else add undo c.

(** the outputs of a transaction, spent and compared with the block's; [false] when one differs *)
Fixpoint remove_outputs (txid : uint256) (nHeight : Z) (is_coinbase : bool) (o : Z) (outs : list CTxOut) c : bool * CCoinsViewCache V :=
  match outs with
  | [] => (true, c)
  | out :: outs =>
      let '(clean, c) :=
        if negb (IsUnspendable (scriptPubKey out)) then
          let '(is_spent, coin, c) := SpendCoin c {| out_hash := txid; out_n := u32 o |} in
          let coin := default Coin_Clear coin in
          (is_spent && bool_decide (out = coin_out coin) && (nHeight =? coin_nHeight coin) && eqb is_coinbase (fCoinBase coin), c)
        else (true, c) in
      let '(clean', c) := remove_outputs txid nHeight is_coinbase (o + 1) outs c in
      (clean && clean', c)
  end.

(** the inputs, last first *)
Fixpoint restore_inputs (ins : list CTxIn) (undo : CTxUndo) c : option (DisconnectResult * CCoinsViewCache V) :=
  match ins, undo with
  | txin :: ins, coin :: undo =>
      '(res, c) ← restore_inputs ins undo c;
      match res with
      | DISCONNECT_FAILED => Some (DISCONNECT_FAILED, c)
      | _ =>
          '(res', c) ← ApplyTxInUndo coin c (prevout txin);
          Some (match res', res with
                | DISCONNECT_OK, r => r
                | r, _ => r
                end, c)
      end
  | _, _ => Some (DISCONNECT_OK, c)
  end.

(** transaction [i] of the block *)
Definition disconnect_tx (pindex : CBlockIndex) (fEnforceBIP30 : bool) (i : nat) (tx : CTransaction) (blockUndo : CBlockUndo) (fClean : bool) c
    : option (DisconnectResult * CCoinsViewCache V) :=
  let is_coinbase := IsCoinBase tx in
  let '(match_, c) := remove_outputs (ComputeHash tx) (nHeight pindex) is_coinbase 0 (vout tx) c in
  let fClean := fClean && (match_ || (is_coinbase && negb fEnforceBIP30)) in
  let clean (b : bool) := if b then DISCONNECT_OK else DISCONNECT_UNCLEAN in
  match i with
  | O => Some (clean fClean, c)
  | S j =>
      txundo ← blockUndo !! j;
      if negb (zlen txundo =? zlen (vin tx)) then Some (DISCONNECT_FAILED, c)
      else
        '(res, c) ← restore_inputs (vin tx) txundo c;
        match res with
        | DISCONNECT_FAILED => Some (DISCONNECT_FAILED, c)
        | DISCONNECT_UNCLEAN => Some (DISCONNECT_UNCLEAN, c)
        | DISCONNECT_OK => Some (clean fClean, c)
        end
  end.

Fixpoint disconnect_loop (pindex : CBlockIndex) (fEnforceBIP30 : bool) (i : nat) (txs : list CTransaction) (blockUndo : CBlockUndo) c
    : option (DisconnectResult * CCoinsViewCache V) :=
  match txs with
  | [] => Some (DISCONNECT_OK, c)
  | tx :: txs =>
      '(res, c) ← disconnect_loop pindex fEnforceBIP30 (S i) txs blockUndo c;
      match res with
      | DISCONNECT_FAILED => Some (DISCONNECT_FAILED, c)
      | DISCONNECT_UNCLEAN => disconnect_tx pindex fEnforceBIP30 i tx blockUndo false c
      | DISCONNECT_OK => disconnect_tx pindex fEnforceBIP30 i tx blockUndo true c
      end
  end.

(** [read_undo] is what [ReadBlockUndo] reads, [None] when it fails. *)
Definition DisconnectBlock (read_undo : option CBlockUndo) (t : BlockMap) (block : CBlock) (p : nat) c
    : option (DisconnectResult * CCoinsViewCache V) :=
  pindex ← t !! p;
  match read_undo with
  | None => Some (DISCONNECT_FAILED, c)
  | Some blockUndo =>
      if negb (zlen blockUndo + 1 =? zlen (vtx block)) then Some (DISCONNECT_FAILED, c)
      else
        hash ← GetBlockHash pindex;
        let fEnforceBIP30 := negb (IsBIP30Unspendable hash (nHeight pindex)) in
        '(res, c) ← disconnect_loop pindex fEnforceBIP30 0 (vtx block) blockUndo c;
        match res with
        | DISCONNECT_FAILED => Some (DISCONNECT_FAILED, c)
        | _ =>
            prev ← pprev pindex;
            bq ← t !! prev;
            prev_hash ← GetBlockHash bq;
            Some (res, SetBestBlock c prev_hash)
        end
  end.

End connect.
