(* ===== verification/Compressor.v ===== *)
(** * Compressed outputs, coins and undo records

    src/compressor.h and src/compressor.cpp: short encodings of common scripts and of
    round amounts; the formats of a coin in the database (src/coins.h, src/txdb.cpp)
    and of a block's undo record on disk (src/undo.h), which are built from them.

    Objects are read into new ones, whose script is empty.  [None] of a reader is an
    exception or a failed assertion. *)

From Stdlib Require Import ZArith Lia Bool.
From stdpp Require Import base option list decidable.
From S2P Require Import Prelude Uint256 Params Serialize PubKey Primitives Opcodes Script Coins Connect.
Local Open Scope Z_scope.
Local Open Scope adonai_scope.

Section compressor.
Context `{Secp256k1}.

(** ** Scripts *)

Definition IsToKeyID (script : CScript) : option (list Z) :=
  if (zlen script =? 25) && (script.[0] =? OP_DUP) && (script.[1] =? OP_HASH160) && (script.[2] =? 20) &&
     (script.[23] =? OP_EQUALVERIFY) && (script.[24] =? OP_CHECKSIG)
  then Some (ztake 20 (zdrop 3 script)) else None.
Definition IsToScriptID (script : CScript) : option (list Z) :=
  if (zlen script =? 23) && (script.[0] =? OP_HASH160) && (script.[1] =? 20) && (script.[22] =? OP_EQUAL)
  then Some (ztake 20 (zdrop 2 script)) else None.
Definition IsToPubKey (script : CScript) : option (list Z) :=
  if (zlen script =? 35) && (script.[0] =? 33) && (script.[34] =? OP_CHECKSIG) && ((script.[1] =? 0x02) || (script.[1] =? 0x03))
  then Some (CPubKey_Set (ztake 33 (zdrop 1 script)))
  else if (zlen script =? 67) && (script.[0] =? 65) && (script.[66] =? OP_CHECKSIG) && (script.[1] =? 0x04)
  then let pubkey := CPubKey_Set (ztake 65 (zdrop 1 script)) in if IsFullyValid pubkey then Some pubkey else None
  else None.

Definition CompressScript (script : CScript) : option (list Z) :=
  match IsToKeyID script with
  | Some keyID => Some (0x00 :: keyID)
  | None =>
      match IsToScriptID script with
      | Some scriptID => Some (0x01 :: scriptID)
      | None =>
          match IsToPubKey script with
          | Some pubkey =>
              if (pubkey.[0] =? 0x02) || (pubkey.[0] =? 0x03) then Some (pubkey.[0] :: ztake 32 (zdrop 1 pubkey))
              else if pubkey.[0] =? 0x04 then Some (Z.lor 0x04 (Z.land pubkey.[64] 0x01) :: ztake 32 (zdrop 1 pubkey))
              else None
          | None => None
          end
      end
  end.

Definition GetSpecialScriptSize (nSize : Z) : Z :=
  if (nSize =? 0) || (nSize =? 1) then 20
  else if (nSize =? 2) || (nSize =? 3) || (nSize =? 4) || (nSize =? 5) then 32
  else 0.

(** the script, or [None] where the source returns false; the outer [None] is the assertion *)
Definition DecompressScript (nSize : Z) (in_ : list Z) : option (option CScript) :=
  if nSize =? 0x00 then Some (Some ([OP_DUP; OP_HASH160; 20] ++ ztake 20 in_ ++ [OP_EQUALVERIFY; OP_CHECKSIG]))
  else if nSize =? 0x01 then Some (Some ([OP_HASH160; 20] ++ ztake 20 in_ ++ [OP_EQUAL]))
  else if (nSize =? 0x02) || (nSize =? 0x03) then Some (Some ([33; nSize] ++ ztake 32 in_ ++ [OP_CHECKSIG]))
  else if (nSize =? 0x04) || (nSize =? 0x05) then
    match Decompress (CPubKey_Set ((nSize - 2) :: ztake 32 in_)) with
    | None => Some None
    | Some pubkey => if CPubKey_size pubkey =? 65 then Some (Some ([65] ++ ztake 65 pubkey ++ [OP_CHECKSIG])) else None
    end
  else Some None.

Definition nSpecialScripts : Z := 6.

Definition ScriptCompression_Ser (script : CScript) : list Z :=
  match CompressScript script with
  | Some compr => compr
  | None => WriteVarInt (u32 (zlen script + nSpecialScripts)) ++ script
  end.
Definition ScriptCompression_Unser : reader CScript := fun s =>
  '(nSize, s) ← ReadVarInt (2 ^ 32 - 1) s;
  if nSize <? nSpecialScripts then
    '(vch, s) ← read_bytes (GetSpecialScriptSize nSize) s;
    script ← DecompressScript nSize vch;
    Some (default [] script, s)
  else
    let nSize := nSize - nSpecialScripts in
    if nSize >? MAX_SCRIPT_SIZE then
      '(_, s) ← read_bytes nSize s;
      Some ([OP_RETURN], s)
    else read_bytes nSize s.

(** ** Amounts *)

(** [while (((n % 10) == 0) && e < 9)]; the fuel is [9 - e] *)
Fixpoint strip_zeros (fuel : nat) (n e : Z) : Z * Z :=
  match fuel with
  | O => (n, e)
  | S fuel => if n mod 10 =? 0 then strip_zeros fuel (n / 10) (e + 1) else (n, e)
  end.
Definition CompressAmount (n : Z) : option Z :=
  if n =? 0 then Some 0
  else
    let '(n, e) := strip_zeros 9 n 0 in
    if e <? 9 then
      let d := n mod 10 in
      if (d >=? 1) && (d <=? 9) then Some (u64 (1 + (n / 10 * 9 + d - 1) * 10 + e)) else None
    else Some (u64 (1 + (n - 1) * 10 + 9)).

(** [while (e)] *)
Fixpoint scale_up (e : nat) (n : Z) : Z :=
  match e with
  | O => n
  | S e => scale_up e (u64 (n * 10))
  end.
Definition DecompressAmount (x : Z) : Z :=
  if x =? 0 then 0
  else
    let x := x - 1 in
    let e := x mod 10 in
    let x := x / 10 in
    let n := if e <? 9 then u64 (x / 9 * 10 + (x mod 9 + 1)) else u64 (x + 1) in
    scale_up (Z.to_nat e) n.

(** an amount is converted to and from an unsigned 64-bit number *)
Definition AmountCompression_Ser (val : Z) : option (list Z) := x ← CompressAmount (u64 val); Some (WriteVarInt x).
Definition AmountCompression_Unser : reader Z := fun s =>
  '(v, s) ← ReadVarInt (2 ^ 64 - 1) s; Some (i64 (DecompressAmount v), s).

Definition TxOutCompression_Ser (out : CTxOut) : option (list Z) :=
  amount ← AmountCompression_Ser (nValue out); Some (amount ++ ScriptCompression_Ser (scriptPubKey out)).
Definition TxOutCompression_Unser : reader CTxOut := fun s =>
  '(nValue, s) ← AmountCompression_Unser s;
  '(scriptPubKey, s) ← ScriptCompression_Unser s;
  Some ({| nValue := nValue; scriptPubKey := scriptPubKey |}, s).

(** ** Coins *)

Definition coin_code (coin : Coin) : Z := u32 (coin_nHeight coin * 2 + (if fCoinBase coin then 1 else 0)).

Definition ser_Coin (coin : Coin) : option (list Z) :=
  if IsSpent coin then None
  else out ← TxOutCompression_Ser (coin_out coin); Some (WriteVarInt (coin_code coin) ++ out).
Definition unser_Coin : reader Coin := fun s =>
  '(code, s) ← ReadVarInt (2 ^ 32 - 1) s;
  '(out, s) ← TxOutCompression_Unser s;
  Some ({| coin_out := out; fCoinBase := negb (Z.land code 1 =? 0); coin_nHeight := Z.shiftr code 1 |}, s).

(** the key of a coin in the database: DB_COIN, the transaction and the index *)
Definition DB_COIN : Z := 67.
Definition ser_CoinEntry (outpoint : COutPoint) : list Z := ser_writedata8 DB_COIN ++ ser_blob (out_hash outpoint) ++ WriteVarInt (out_n outpoint).

(** ** Undo records *)

Definition TxInUndo_Ser (txout : Coin) : option (list Z) :=
  out ← TxOutCompression_Ser (coin_out txout);
  Some (WriteVarInt (coin_code txout) ++ (if coin_nHeight txout >? 0 then ser_writedata8 0 else []) ++ out).
Definition TxInUndo_Unser : reader Coin := fun s =>
  '(nCode, s) ← ReadVarInt (2 ^ 32 - 1) s;
  let nHeight := Z.shiftr nCode 1 in
  '(_, s) ← (if nHeight >? 0 then ReadVarInt (2 ^ 32 - 1) s else Some (0, s));
  '(out, s) ← TxOutCompression_Unser s;
  Some ({| coin_out := out; fCoinBase := negb (Z.land nCode 1 =? 0); coin_nHeight := nHeight |}, s).

(** a vector whose elements may fail to be written *)
Definition ser_vector_opt {A : Type} (ser : A -> option (list Z)) (v : list A) : option (list Z) :=
  parts ← mapM ser v; Some (WriteCompactSize (zlen v) ++ concat parts).

Definition ser_CTxUndo (undo : CTxUndo) : option (list Z) := ser_vector_opt TxInUndo_Ser undo.
Definition unser_CTxUndo : reader CTxUndo := unser_vector TxInUndo_Unser.
Definition ser_CBlockUndo (undo : CBlockUndo) : option (list Z) := ser_vector_opt ser_CTxUndo undo.
Definition unser_CBlockUndo : reader CBlockUndo := unser_vector unser_CTxUndo.

End compressor.

(** ** Amounts *)

Lemma strip_zeros_spec fuel : forall n e, 0 < n -> let r := strip_zeros fuel n e in
  exists k : nat, r.2 = e + Z.of_nat k /\ (k <= fuel)%nat /\ n = r.1 * 10 ^ Z.of_nat k /\ 0 < r.1 /\ ((k < fuel)%nat -> r.1 mod 10 <> 0).
Proof.
  induction fuel as [|fuel IH]; intros n e Hn; cbn [strip_zeros fst snd].
  { exists 0%nat. cbn. split_and!; try lia. }
  destruct (Z.eqb_spec (n mod 10) 0) as [E|E].
  - destruct (IH (n / 10) (e + 1)) as (k & H2 & Hk & Hv & Hp & Hm); [Z.div_mod_to_equations; lia|]. exists (S k). rewrite H2.
    split_and!; [lia|lia| |exact Hp|intros Hlt; apply Hm; lia]. rewrite Nat2Z.inj_succ, Z.pow_succ_r by lia.
    assert (En : n = 10 * (n / 10)) by (Z.div_mod_to_equations; lia). rewrite En at 1. rewrite Hv at 1. ring.
  - exists 0%nat. cbn. split_and!; try lia.
Qed.

Lemma scale_up_spec e : forall n, 0 <= n -> n * 10 ^ Z.of_nat e < 2 ^ 64 -> scale_up e n = n * 10 ^ Z.of_nat e.
Proof.
  induction e as [|e IH]; intros n Hn Hb; [cbn; lia|]. cbn [scale_up]. rewrite Nat2Z.inj_succ, Z.pow_succ_r in Hb by lia.
  assert (Hp : 1 <= 10 ^ Z.of_nat e) by (change 1 with (10 ^ 0); apply Z.pow_le_mono_r; lia).
  rewrite wrap_small by (unfold fits; nia). rewrite IH by nia. rewrite Nat2Z.inj_succ, Z.pow_succ_r by lia. ring.
Qed.

(** the compressed form of an amount, and its inverse *)
Lemma CompressAmount_spec n : 0 <= n < 2 ^ 60 -> exists x, CompressAmount n = Some x /\ 0 <= x < 2 ^ 64 /\ DecompressAmount x = n.
Proof.
  intros Hn. unfold CompressAmount. destruct (Z.eqb_spec n 0) as [->|Hn0]; [exists 0; done|].
  destruct (strip_zeros_spec 9 n 0 ltac:(lia)) as (k & He & Hk & Hv & Hp & Hm). destruct (strip_zeros 9 n 0) as [m e]. cbn [fst snd] in *.
  assert (H10 : 1 <= 10 ^ Z.of_nat k) by (change 1 with (10 ^ 0); apply Z.pow_le_mono_r; lia). assert (Hmn : m <= n) by nia.
  assert (Hdec : forall y q, 1 + y * 10 + e = q -> 0 <= y -> (if e <? 9 then y / 9 * 10 + (y mod 9 + 1) else y + 1) = m -> 0 <= q < 2 ^ 64 -> DecompressAmount q = n).
  { intros y q Hq Hy Hval Hr. unfold DecompressAmount. destruct (Z.eqb_spec q 0); [lia|].
    replace ((q - 1) mod 10) with e by (Z.div_mod_to_equations; lia). replace ((q - 1) / 10) with y by (Z.div_mod_to_equations; lia).
    replace (if e <? 9 then u64 _ else u64 _) with m by (destruct (e <? 9); rewrite wrap_small; unfold fits; lia).
    replace (Z.to_nat e) with k by lia. rewrite scale_up_spec; lia. }
  destruct (Z.ltb_spec e 9) as [Hlt|Hge].
  - specialize (Hm ltac:(lia)). pose proof (Z.mod_pos_bound m 10 ltac:(lia)).
    replace ((m mod 10 >=? 1) && (m mod 10 <=? 9)) with true by (symmetry; apply andb_true_iff; rewrite Z.geb_le, Z.leb_le; lia).
    set (y := m / 10 * 9 + m mod 10 - 1). assert (Hy : 0 <= y <= m) by (unfold y; Z.div_mod_to_equations; lia).
    rewrite wrap_small by (unfold fits; lia). eexists. split; [reflexivity|]. split; [lia|]. apply (Hdec y); [done|lia| |lia].
    unfold y. Z.div_mod_to_equations. lia.
  - rewrite wrap_small by (unfold fits; lia). eexists. split; [reflexivity|]. split; [lia|]. apply (Hdec (m - 1)); lia.
Qed.

(** ** Scripts *)

(** what is relied on of the library: an uncompressed key it parses is printed back as
    it was, and the key's x coordinate with the parity of y is a form of the same key *)
Class LawfulCurve `{Secp256k1} : Prop := {
  parse_uncompressed k p : zlen k = 65 -> k.[0] = 4 -> secp256k1_ec_pubkey_parse k = Some p ->
    secp256k1_ec_pubkey_serialize false p = k /\
    secp256k1_ec_pubkey_parse (2 + Z.land k.[64] 1 :: ztake 32 (zdrop 1 k)) = Some p;
}.

Lemma slice_len {A} a n (l : list A) : 0 <= a -> 0 <= n -> a + n <= zlen l -> zlen (ztake n (zdrop a l)) = n.
Proof. intros. rewrite zlen_ztake; [done|]. rewrite zlen_zdrop; lia. Qed.

(** a list is its first [a] elements, the next [n] and the last [c] *)
Lemma frame_split (l : list Z) (a n c : nat) : length l = (a + n + c)%nat ->
  l = map (fun i => l.[i]) (seq 0 a) ++ take n (drop a l) ++ map (fun i => l.[(a + n + i)%nat]) (seq 0 c).
Proof.
  intros Hl. pose proof (slice_nth l a 0 ltac:(lia)) as Ha. pose proof (slice_nth l c (a + n) ltac:(lia)) as Hc.
  cbn [Nat.add] in Ha. rewrite drop_0 in Ha. rewrite <- Ha, <- Hc, (take_ge (drop (a + n) l)) by (rewrite length_drop; lia).
  rewrite <- drop_drop, !take_drop. done.
Qed.

Lemma CPubKey_Set_len k : zlen k <> 0 -> GetLen k.[0] = zlen k -> CPubKey_Set k = k.
Proof. intros H0 Hg. unfold CPubKey_Set. apply Z.eqb_neq in H0 as H0'. rewrite H0', Hg, H0', Z.eqb_refl. done. Qed.

Lemma parity_byte b : Z.lor 4 (Z.land b 1) = 4 + Z.land b 1 /\ (Z.land b 1 = 0 \/ Z.land b 1 = 1).
Proof.
  assert (E : Z.land b 1 = b mod 2) by (change 1 with (Z.ones 1); rewrite Z.land_ones by lia; done). rewrite E.
  assert (b mod 2 = 0 \/ b mod 2 = 1) as [-> | ->] by (Z.div_mod_to_equations; lia); split; (done || lia).
Qed.

(** a number below 128 is its own VARINT *)
Lemma ReadVarInt_small x s : 0 <= x < 128 -> ReadVarInt (2 ^ 32 - 1) (x :: s) = Some (x, s).
Proof.
  intros Hx. assert (W : WriteVarInt x = [x]).
  { unfold WriteVarInt. cbn [varint_digits]. rewrite Z.lor_0_r. destruct (Z.leb_spec x 0x7F); [|lia].
    change 0x7F with (Z.ones 7). rewrite Z.land_ones, Z.mod_small by lia. done. }
  assert (Hf : fits 32 x) by (unfold fits; lia). pose proof (codec_roundtrip (Codec := varint_codec 32 ltac:(lia)) x s Hf) as R.
  rewrite W in R. exact R.
Qed.

Section script_roundtrip.
Context `{Curve : Secp256k1} {Laws : LawfulCurve}.

Ltac bools := repeat match goal with
  | H : _ && _ = true |- _ => apply andb_true_iff in H as [? ?]
  | H : (_ =? _) = true |- _ => apply Z.eqb_eq in H
  end.

Ltac nths := repeat match goal with H : _.[_] = _ |- _ => rewrite H; clear H end.

Lemma IsToKeyID_spec script h : IsToKeyID script = Some h ->
  zlen h = 20 /\ script = [OP_DUP; OP_HASH160; 20] ++ h ++ [OP_EQUALVERIFY; OP_CHECKSIG].
Proof.
  unfold IsToKeyID. destruct (_ && _) eqn:E; [|done]. intros [= <-]. bools.
  split; [apply slice_len; lia|].
  pose proof (frame_split script 3 20 2 ltac:(lia)) as F. cbn [seq map Nat.add] in F.
  rewrite F at 1. nths. reflexivity.
Qed.

Lemma IsToScriptID_spec script h : IsToScriptID script = Some h ->
  zlen h = 20 /\ script = [OP_HASH160; 20] ++ h ++ [OP_EQUAL].
Proof.
  unfold IsToScriptID. destruct (_ && _) eqn:E; [|done]. intros [= <-]. bools.
  split; [apply slice_len; lia|].
  pose proof (frame_split script 2 20 1 ltac:(lia)) as F. cbn [seq map Nat.add] in F.
  rewrite F at 1. nths. reflexivity.
Qed.

(** a compressed key, or a valid uncompressed one *)
Lemma IsToPubKey_spec script k : IsToPubKey script = Some k ->
  (zlen k = 33 /\ (k.[0] = 2 \/ k.[0] = 3) /\ script = [33] ++ k ++ [OP_CHECKSIG]) \/
  (zlen k = 65 /\ k.[0] = 4 /\ is_Some (secp256k1_ec_pubkey_parse k) /\ script = [65] ++ k ++ [OP_CHECKSIG]).
Proof.
  assert (Hnth : forall n, (0 < n)%nat -> (ztake (Z.of_nat n) (zdrop 1 script)).[0] = script.[1]).
  { intros n Hn. unfold ztake, zdrop. rewrite Nat2Z.id. destruct script as [|a [|b l]], n; cbn; try done; lia. }
  unfold IsToPubKey. destruct (_ && _) eqn:E.
  - intros [= <-]. bools. pose proof (frame_split script 1 33 1 ltac:(lia)) as F. cbn [seq map Nat.add] in F.
    specialize (Hnth 33%nat ltac:(lia)). change (Z.of_nat 33) with 33 in Hnth.
    assert (Hl : zlen (ztake 33 (zdrop 1 script)) = 33) by (apply slice_len; lia).
    assert (Hb : script.[1] = 2 \/ script.[1] = 3) by (rewrite <- !Z.eqb_eq; apply orb_true_iff; assumption).
    rewrite CPubKey_Set_len by (rewrite Hl, ?Hnth; destruct Hb as [Eb | Eb]; rewrite ?Eb; done).
    left. rewrite Hnth. split_and!; [exact Hl|exact Hb|]. rewrite F at 1. nths. reflexivity.
  - clear E. destruct (_ && _) eqn:E; [|done]. bools. pose proof (frame_split script 1 65 1 ltac:(lia)) as F. cbn [seq map Nat.add] in F.
    specialize (Hnth 65%nat ltac:(lia)). change (Z.of_nat 65) with 65 in Hnth.
    assert (Hl : zlen (ztake 65 (zdrop 1 script)) = 65) by (apply slice_len; lia).
    assert (Hb : script.[1] = 4) by assumption. set (k' := ztake 65 (zdrop 1 script)) in *.
    rewrite CPubKey_Set_len by (rewrite ?Hl, ?Hnth, ?Hb; done). unfold IsFullyValid, IsValid, CPubKey_size. rewrite Hnth, Hb.
    change (GetLen 4) with 65. rewrite ztake_all by lia. cbn [Z.gtb Z.compare negb].
    destruct (secp256k1_ec_pubkey_parse k') eqn:Ep; [|done]. intros [= <-]. right. rewrite Hnth, Ep.
    split_and!; [exact Hl|exact Hb|done|]. rewrite F at 1. nths. reflexivity.
Qed.
Lemma cons_nth_0 (l : list Z) : 1 <= zlen l -> l = l.[0] :: ztake (zlen l - 1) (zdrop 1 l).
Proof. destruct l as [|x l]; cbn [length]; [lia|]. intros _. rewrite ztake_all; [done|]. unfold zdrop. change (Z.to_nat 1) with 1%nat. cbn [drop]. rewrite drop_0. lia. Qed.

(** a key is printed as its parity and its x coordinate, and read back *)
Lemma Decompress_parity k : zlen k = 65 -> k.[0] = 4 -> is_Some (secp256k1_ec_pubkey_parse k) ->
  Decompress (CPubKey_Set (2 + Z.land k.[64] 1 :: ztake 32 (zdrop 1 k))) = Some k.
Proof.
  intros Hl H4 [p Hp]. destruct (parse_uncompressed k p Hl H4 Hp) as [Hs Hc]. destruct (parity_byte k.[64]) as [_ Hb].
  set (c := _ :: _) in *. assert (Hcl : zlen c = 33) by (unfold c; cbn [length]; rewrite Nat2Z.inj_succ, slice_len by lia; done).
  assert (Hg : GetLen c.[0] = 33) by (unfold c; cbn [nth]; destruct Hb as [-> | ->]; done).
  rewrite CPubKey_Set_len by (rewrite ?Hg, Hcl; done). unfold Decompress, IsValid, CPubKey_size. rewrite Hg, ztake_all by lia.
  cbn [Z.gtb Z.compare negb]. rewrite Hc. cbn [mbind option_bind]. rewrite Hs, CPubKey_Set_len by (rewrite ?H4, ?Hl; done). done.
Qed.

(** a compressed script is a form number and its payload, from which the script is restored *)
Lemma CompressScript_spec script compr : CompressScript script = Some compr ->
  exists n payload, compr = n :: payload /\ 0 <= n < nSpecialScripts /\ zlen payload = GetSpecialScriptSize n /\
    DecompressScript n payload = Some (Some script).
Proof.
  unfold CompressScript. destruct (IsToKeyID script) as [h|] eqn:E1.
  { apply IsToKeyID_spec in E1 as [Hl ->]. intros [= <-]. exists 0, h. split_and!; try done. unfold DecompressScript.
    rewrite ztake_all by lia. done. }
  clear E1. destruct (IsToScriptID script) as [h|] eqn:E2.
  { apply IsToScriptID_spec in E2 as [Hl ->]. intros [= <-]. exists 1, h. split_and!; try done. unfold DecompressScript.
    rewrite ztake_all by lia. done. }
  clear E2. destruct (IsToPubKey script) as [k|] eqn:E3; [|done].
  assert (Hp : 33 <= zlen k -> zlen (ztake 32 (zdrop 1 k)) = 32) by (intros ?; apply slice_len; lia).
  apply IsToPubKey_spec in E3 as [(Hl & Hk & ->)|(Hl & Hk & Hv & ->)].
  - specialize (Hp ltac:(lia)). pose proof (cons_nth_0 k ltac:(lia)) as Ek. rewrite Hl in Ek. change (33 - 1) with 32 in Ek.
    destruct Hk as [Hk|Hk]; rewrite Hk in *; intros [= <-]; eexists _, _; (split_and!; [reflexivity|done|done|exact Hp|]);
      rewrite Ek at 2; unfold DecompressScript; rewrite (ztake_all 32 (ztake _ _)) by lia; reflexivity.
  - specialize (Hp ltac:(lia)). rewrite Hk. cbn [Z.eqb Pos.eqb orb]. intros [= <-]. destruct (parity_byte k.[64]) as [-> Hb].
    pose proof (Decompress_parity k Hl Hk Hv) as Hd. eexists _, _. split; [reflexivity|]. unfold nSpecialScripts. split; [lia|].
    unfold DecompressScript. rewrite (ztake_all 32 (ztake _ _)) by lia.
    destruct Hb as [Eb|Eb]; rewrite Eb in *;
      [change (2 + 0) with (4 - 2) in Hd; change (4 + 0) with 4|change (2 + 1) with (5 - 2) in Hd; change (4 + 1) with 5];
      (split; [exact Hp|]); cbn [Z.eqb Pos.eqb orb]; rewrite Hd; unfold CPubKey_size; rewrite Hk, ztake_all by lia; done.
Qed.

Lemma CompressScript_short script compr : CompressScript script = Some compr -> zlen script <= 67.
Proof.
  unfold CompressScript. destruct (IsToKeyID script) eqn:E1; [|destruct (IsToScriptID script) eqn:E2; [|destruct (IsToPubKey script) eqn:E3; [|done]]]; intros _.
  - apply IsToKeyID_spec in E1 as [Hl ->]. rewrite !zlen_app, Hl. cbn. lia.
  - apply IsToScriptID_spec in E2 as [Hl ->]. rewrite !zlen_app, Hl. cbn. lia.
  - apply IsToPubKey_spec in E3 as [(Hl & _ & ->)|(Hl & _ & _ & ->)]; rewrite !zlen_app, Hl; cbn; lia.
Qed.

(** what is read for a written script: itself, or a script that cannot be spent for one
    that is longer than any that can *)
Definition stored_script (script : CScript) : CScript := if zlen script >? MAX_SCRIPT_SIZE then [OP_RETURN] else script.

Lemma ScriptCompression_roundtrip script rest : zlen script < 2 ^ 32 - 6 ->
  ScriptCompression_Unser (ScriptCompression_Ser script ++ rest) = Some (stored_script script, rest).
Proof.
  intros Hlen. unfold ScriptCompression_Ser, ScriptCompression_Unser. destruct (CompressScript script) as [compr|] eqn:Ec.
  - destruct (CompressScript_spec _ _ Ec) as (n & payload & -> & Hn & Hl & Hd). unfold nSpecialScripts in *.
    cbn [app]. rewrite ReadVarInt_small by lia. cbn [mbind option_bind]. destruct (Z.ltb_spec n 6); [|lia].
    rewrite read_bytes_app by exact Hl. cbn [mbind option_bind]. rewrite Hd. cbn [mbind option_bind default id]. unfold stored_script.
    replace (zlen script >? MAX_SCRIPT_SIZE) with false; [done|]. symmetry. rewrite Z.gtb_ltb. apply Z.ltb_ge.
    pose proof (CompressScript_short _ _ Ec). unfold MAX_SCRIPT_SIZE. lia.
  - assert (Hf : fits 32 (zlen script + 6)) by (unfold fits; lia). unfold nSpecialScripts. rewrite wrap_small by exact Hf. rewrite <- app_assoc.
    rewrite (codec_roundtrip (Codec := varint_codec 32 ltac:(lia))) by exact Hf. cbn [mbind option_bind].
    destruct (Z.ltb_spec (zlen script + 6) 6); [lia|]. rewrite Z.add_simpl_r. unfold stored_script.
    destruct (zlen script >? MAX_SCRIPT_SIZE); rewrite read_bytes_app by done; done.
Qed.

(** ** Outputs, coins and undo records *)

(** an amount in range, a height of 31 bits and a script whose length is a 32-bit number *)
Definition storable (coin : Coin) : Prop :=
  0 <= nValue (coin_out coin) < 2 ^ 60 /\ fits 31 (coin_nHeight coin) /\ zlen (scriptPubKey (coin_out coin)) < 2 ^ 32 - 6.

Definition stored_coin (coin : Coin) : Coin :=
  {| coin_out := {| nValue := nValue (coin_out coin); scriptPubKey := stored_script (scriptPubKey (coin_out coin)) |};
     fCoinBase := fCoinBase coin; coin_nHeight := coin_nHeight coin |}.

Lemma TxOutCompression_roundtrip out : 0 <= nValue out < 2 ^ 60 -> zlen (scriptPubKey out) < 2 ^ 32 - 6 ->
  exists bytes, TxOutCompression_Ser out = Some bytes /\ forall rest,
    TxOutCompression_Unser (bytes ++ rest) = Some ({| nValue := nValue out; scriptPubKey := stored_script (scriptPubKey out) |}, rest).
Proof.
  intros Hv Hl. destruct (CompressAmount_spec (nValue out) Hv) as (x & Hx & Hf & Hd).
  unfold TxOutCompression_Ser, AmountCompression_Ser. rewrite wrap_small by (unfold fits; lia). rewrite Hx. cbn [mbind option_bind].
  eexists. split; [reflexivity|]. intros rest. unfold TxOutCompression_Unser, AmountCompression_Unser. rewrite <- app_assoc.
  rewrite (codec_roundtrip (Codec := varint_codec 64 ltac:(lia))) by exact Hf. cbn [mbind option_bind].
  rewrite ScriptCompression_roundtrip by exact Hl. cbn [mbind option_bind]. rewrite Hd, swrap_small by (unfold sfits; lia). done.
Qed.

Lemma coin_code_spec coin : fits 31 (coin_nHeight coin) -> fits 32 (coin_code coin) /\
  Z.shiftr (coin_code coin) 1 = coin_nHeight coin /\ negb (Z.land (coin_code coin) 1 =? 0) = fCoinBase coin.
Proof.
  unfold fits, coin_code. intros Hh. set (b := if fCoinBase coin then 1 else 0). assert (Hb : 0 <= b <= 1) by (unfold b; destruct (fCoinBase coin); lia).
  rewrite wrap_small by (unfold fits; lia). rewrite Z.shiftr_div_pow2 by lia.
  assert (E : Z.land (coin_nHeight coin * 2 + b) 1 = b) by (change 1 with (Z.ones 1); rewrite Z.land_ones by lia; Z.div_mod_to_equations; lia).
  rewrite E. split_and!; [lia..|Z.div_mod_to_equations; lia|]. unfold b. destruct (fCoinBase coin); done.
Qed.

Lemma Coin_roundtrip coin : storable coin -> exists bytes, ser_Coin coin = Some bytes /\ forall rest, unser_Coin (bytes ++ rest) = Some (stored_coin coin, rest).
Proof.
  intros (Hv & Hh & Hl). destruct (TxOutCompression_roundtrip _ Hv Hl) as (out & Ho & Hr). destruct (coin_code_spec coin Hh) as (Hf & E1 & E2).
  unfold ser_Coin. replace (IsSpent coin) with false by (symmetry; apply Z.eqb_neq; lia). rewrite Ho. cbn [mbind option_bind].
  eexists. split; [reflexivity|]. intros rest. unfold unser_Coin. rewrite <- app_assoc.
  rewrite (codec_roundtrip (Codec := varint_codec 32 ltac:(lia))) by exact Hf. cbn [mbind option_bind]. rewrite Hr. cbn [mbind option_bind].
  rewrite E1, E2. done.
Qed.

Lemma TxInUndo_roundtrip coin : storable coin -> exists bytes, TxInUndo_Ser coin = Some bytes /\ forall rest, TxInUndo_Unser (bytes ++ rest) = Some (stored_coin coin, rest).
Proof.
  intros (Hv & Hh & Hl). destruct (TxOutCompression_roundtrip _ Hv Hl) as (out & Ho & Hr). destruct (coin_code_spec coin Hh) as (Hf & E1 & E2).
  unfold TxInUndo_Ser. rewrite Ho. cbn [mbind option_bind].
  eexists. split; [reflexivity|]. intros rest. unfold TxInUndo_Unser. rewrite <- app_assoc.
  rewrite (codec_roundtrip (Codec := varint_codec 32 ltac:(lia))) by exact Hf. cbn [mbind option_bind]. rewrite E1, E2.
  destruct (coin_nHeight coin >? 0); rewrite <- app_assoc; [change (ser_writedata8 0 ++ ?x) with (0 :: x); rewrite ReadVarInt_small by lia|];
    cbn [mbind option_bind app]; rewrite Hr; done.
Qed.

(** a vector of elements each of which is written and read back as [f] of it *)
Lemma vector_opt_roundtrip {A} (ok : A -> Prop) (f : A -> A) ser (unser : reader A) v :
  (forall a, ok a -> exists bytes, ser a = Some bytes /\ forall rest, unser (bytes ++ rest) = Some (f a, rest)) ->
  zlen v <= MAX_SIZE -> Forall ok v ->
  exists bytes, ser_vector_opt ser v = Some bytes /\ forall rest, unser_vector unser (bytes ++ rest) = Some (f <$> v, rest).
Proof.
  intros Hser Hlen Hv. unfold ser_vector_opt, unser_vector.
  assert (exists parts, mapM ser v = Some parts /\ forall rest, unser_elems unser (length v) (concat parts ++ rest) = Some (f <$> v, rest)) as (parts & -> & Hp).
  { clear Hlen. induction Hv as [|a v Ha _ (parts & Hp & IH)]; [exists []; done|]. destruct (Hser a Ha) as (b & Hb & Hr).
    exists (b :: parts). cbn [mapM]. rewrite Hb. cbn [mbind option_bind]. rewrite Hp. split; [done|]. intros rest.
    cbn [concat length unser_elems]. rewrite <- app_assoc, Hr. cbn [mbind option_bind]. rewrite IH. done. }
  cbn [mbind option_bind]. eexists. split; [reflexivity|]. intros rest. rewrite <- app_assoc, codec_roundtrip by (apply size_compact_ok; assumption).
  cbn [mbind option_bind]. rewrite Nat2Z.id. apply Hp.
Qed.

(** a coin that can be in the set: an amount in range, a height of 31 bits and a script
    that [AddCoin] does not drop *)
Definition coin_kept (coin : Coin) : Prop :=
  MoneyRange (nValue (coin_out coin)) = true /\ fits 31 (coin_nHeight coin) /\ IsUnspendable (scriptPubKey (coin_out coin)) = false.

Lemma coin_kept_stored coin : coin_kept coin -> storable coin /\ stored_coin coin = coin.
Proof.
  intros (Hm & Hh & Hu). apply orb_false_iff in Hu as [_ Hu]. unfold stored_coin, stored_script. rewrite Hu. split; [|destruct coin as [[] ? ?]; done].
  apply andb_true_iff in Hm as [H0 H1]. rewrite Z.geb_le in H0. apply Z.leb_le in H1. rewrite Z.gtb_ltb in Hu. apply Z.ltb_ge in Hu.
  unfold MAX_MONEY, COIN, MAX_SCRIPT_SIZE in *. split_and!; [lia|lia|exact Hh|lia].
Qed.

Lemma fmap_kept undo : Forall coin_kept undo -> stored_coin <$> undo = undo.
Proof. induction 1 as [|c l Hc _ IH]; [done|]. cbn. rewrite (proj2 (coin_kept_stored c Hc)), IH. done. Qed.

Definition undo_kept (undo : CTxUndo) : Prop := zlen undo <= MAX_SIZE /\ Forall coin_kept undo.

Lemma CTxUndo_roundtrip undo : undo_kept undo -> exists bytes, ser_CTxUndo undo = Some bytes /\ forall rest, unser_CTxUndo (bytes ++ rest) = Some (undo, rest).
Proof.
  intros [Hl Hk]. destruct (vector_opt_roundtrip storable stored_coin TxInUndo_Ser TxInUndo_Unser undo TxInUndo_roundtrip Hl) as (b & Hb & Hr).
  - revert Hk. apply Forall_impl. intros c Hc. apply (coin_kept_stored c Hc).
  - exists b. split; [exact Hb|]. intros rest. unfold unser_CTxUndo. rewrite Hr, (fmap_kept undo Hk). done.
Qed.

(** the key under which a coin is stored determines the outpoint *)
Lemma CoinEntry_inj a b : outpoint_ok a -> outpoint_ok b -> ser_CoinEntry a = ser_CoinEntry b -> a = b.
Proof.
  intros [[Ha _] Hna] [[Hb _] Hnb] E. unfold ser_CoinEntry, ser_blob in E. apply app_inv_head in E. apply app_inj_1 in E as [Eh En]; [|lia].
  pose proof (codec_roundtrip (Codec := varint_codec 32 ltac:(lia)) _ [] Hna) as Ra. pose proof (codec_roundtrip (Codec := varint_codec 32 ltac:(lia)) _ [] Hnb) as Rb.
  rewrite En, Rb in Ra. destruct a, b. cbn in *. congruence.
Qed.
End script_roundtrip.

(** C17: the formats in which the node keeps its coins lose nothing.  A coin that can be in
    the set is written, and read back as it was whatever follows it; a block's undo record
    of such coins too; and two outpoints with the same database key are the same. *)
Theorem stored_formats `{Secp256k1} `{!LawfulCurve} coin (undo : CBlockUndo) a b rest :
  coin_kept coin -> zlen undo <= MAX_SIZE -> Forall undo_kept undo -> outpoint_ok a -> outpoint_ok b ->
  (exists bytes, ser_Coin coin = Some bytes /\ unser_Coin (bytes ++ rest) = Some (coin, rest)) /\
  (exists bytes, ser_CBlockUndo undo = Some bytes /\ unser_CBlockUndo (bytes ++ rest) = Some (undo, rest)) /\
  (ser_CoinEntry a = ser_CoinEntry b -> a = b).
Proof.
  intros Hc Hl Hu Ha Hb. split_and!; [| |exact (CoinEntry_inj a b Ha Hb)].
  - destruct (coin_kept_stored coin Hc) as [Hs He]. destruct (Coin_roundtrip coin Hs) as (b' & Hb' & Hr). rewrite He in Hr. eauto.
  - destruct (vector_opt_roundtrip undo_kept id ser_CTxUndo unser_CTxUndo undo CTxUndo_roundtrip Hl Hu) as (b' & Hb' & Hr).
    rewrite list_fmap_id in Hr. eauto.
Qed.

(** a toy curve: every x is on it, and y is its parity *)
Definition toy_uncompressed (p : Z * list Z) : list Z := 4 :: p.2 ++ repeat 0 31 ++ [p.1].
Definition toy_curve : Secp256k1 := {|
  secp_pubkey := Z * list Z; secp_signature := unit; secp_xonly := unit;
  secp256k1_ec_pubkey_parse k :=
    if zlen k =? 65 then let p := (Z.land k.[64] 1, ztake 32 (zdrop 1 k)) in if bool_decide (toy_uncompressed p = k) then Some p else None
    else Some (k.[0] - 2, zdrop 1 k);
  secp256k1_ec_pubkey_serialize _ p := toy_uncompressed p; secp256k1_ec_pubkey_tweak_add _ _ := None;
  secp256k1_ecdsa_signature_parse_compact _ := (true, tt); secp256k1_ecdsa_signature_normalize _ := (false, tt); secp256k1_ecdsa_verify _ _ _ := true;
  secp256k1_xonly_pubkey_parse _ := None; secp256k1_xonly_pubkey_tweak_add _ _ := None; secp256k1_xonly_pubkey_from_pubkey _ := None;
  secp256k1_xonly_pubkey_serialize _ := []; secp256k1_xonly_pubkey_tweak_add_check _ _ _ _ := false; secp256k1_schnorrsig_verify _ _ _ := false |}.

#[local] Instance toy_curve_lawful : @LawfulCurve toy_curve.
Proof.
  split. intros k p Hl _. cbn [secp256k1_ec_pubkey_parse secp256k1_ec_pubkey_serialize toy_curve]. rewrite Hl. cbn [Z.eqb Pos.eqb].
  case_bool_decide as E; [|done]. intros [= <-]. split; [exact E|]. cbn [length]. rewrite Nat2Z.inj_succ, slice_len by lia.
  cbn [nth Z.eqb Pos.eqb Z.succ Z.add Pos.add]. f_equal. f_equal. lia.
Qed.

Definition example_p2pk : CScript := 65 :: toy_uncompressed (1, repeat 9 32) ++ [OP_CHECKSIG].
Definition example_kept : Coin := {| coin_out := {| nValue := 50 * COIN; scriptPubKey := example_p2pk |}; fCoinBase := true; coin_nHeight := 7 |}.

Lemma stored_formats_witness :
  (exists bytes, @ser_Coin toy_curve example_kept = Some bytes /\ @unser_Coin toy_curve (bytes ++ [1]) = Some (example_kept, [1])) /\
  (fun bytes => zlen bytes) <$> @ser_Coin toy_curve example_kept = Some 35.
Proof.
  assert (Hk : coin_kept example_kept) by (split_and!; [reflexivity|vm_compute; split; congruence|reflexivity]).
  assert (Ho : outpoint_ok {| out_hash := repeat 0 32; out_n := 0 |}).
  { split; [split; [done|repeat constructor; vm_compute; congruence]|vm_compute; split; congruence]. }
  assert (Hu : Forall undo_kept [[example_kept]]) by (repeat constructor; (exact Hk || vm_compute; congruence)).
  split; [|vm_compute; reflexivity].
  exact (proj1 (@stored_formats toy_curve toy_curve_lawful example_kept [[example_kept]] _ _ [1] Hk ltac:(vm_compute; congruence) Hu Ho Ho)).
Defined.
