(* ===== verification/Miner.v ===== *)
(** * Block assembly

    src/node/miner.h and src/node/miner.cpp: the choice of transactions from the pool and the block
    template made of them, and [TestBlockValidity] of src/validation.cpp.

    [None] is a failed assertion, an exception or undefined behaviour.  Logging, timing
    and the statistics of the last block are left out. *)

From Stdlib Require Import ZArith Lia Bool String.
From stdpp Require Import base numbers list gmap strings.
From S2P Require Import Prelude ArithUint Uint256 Arith256 Binary64 Params FeeModel Hashes Serialize Primitives Opcodes Script ScriptFlags BlockIndex Coins CoinsDB TxVerify Merkle ChainParams Pow VersionBits BlockCheck Connect MempoolEntry TxMempool.
Local Open Scope Z_scope.

(** ** Options *)

Definition MINIMUM_BLOCK_RESERVED_WEIGHT : Z := 2000.
(** [blockMinFeeRate] is not read by the selection, and [print_modified_fee] only by the log *)
Record BlockAssemblerOptions : Type := {
  use_mempool : bool;
  nBlockMaxWeight : Z;
  block_reserved_weight : Z;
  coinbase_output_max_additional_sigops : Z;
  coinbase_output_script : CScript;
  blockMinFeeRate : CFeeRate;
  test_block_validity : bool;
  print_modified_fee : bool;
}.

Definition ClampOptions (options : BlockAssemblerOptions) : option BlockAssemblerOptions :=
  if (block_reserved_weight options <=? MAX_BLOCK_WEIGHT) && (block_reserved_weight options >=? MINIMUM_BLOCK_RESERVED_WEIGHT) &&
     (coinbase_output_max_additional_sigops options <=? MAX_BLOCK_SIGOPS_COST)
  then
    weight ← clamp (nBlockMaxWeight options) (block_reserved_weight options) MAX_BLOCK_WEIGHT;
    Some {| use_mempool := use_mempool options; nBlockMaxWeight := weight; block_reserved_weight := block_reserved_weight options;
            coinbase_output_max_additional_sigops := coinbase_output_max_additional_sigops options;
            coinbase_output_script := coinbase_output_script options; blockMinFeeRate := blockMinFeeRate options;
            test_block_validity := test_block_validity options; print_modified_fee := print_modified_fee options |}
  else None.

(** ** The block under construction *)

(** the selected transactions, without the coinbase, and the counters *)
Record BlockAssembler : Type := {
  selected : list CTransaction;
  vTxFees : list Z;
  vTxSigOpsCost : list Z;
  m_package_feerates : list (Z * Z);
  nBlockWeight : Z;
  nBlockTx : Z;
  nBlockSigOpsCost : Z;
  template_fees : Z;
  inBlock : gset uint256;
}.

Definition resetBlock (options : BlockAssemblerOptions) : BlockAssembler :=
  {| selected := []; vTxFees := []; vTxSigOpsCost := []; m_package_feerates := []; nBlockWeight := block_reserved_weight options; nBlockTx := 0;
     nBlockSigOpsCost := coinbase_output_max_additional_sigops options; template_fees := 0; inBlock := ∅ |}.

(** an entry of the pool with the totals over its ancestors that are not in the block *)
Record CTxMemPoolModifiedEntry : Type := { mod_nSizeWithAncestors : Z; mod_nModFeesWithAncestors : Z; mod_nSigOpCostWithAncestors : Z }.
Definition CTxMemPoolModifiedEntry_of (e : CTxMemPoolEntry) : CTxMemPoolModifiedEntry :=
  {| mod_nSizeWithAncestors := u64 (nSizeWithAncestors e); mod_nModFeesWithAncestors := nModFeesWithAncestors e;
     mod_nSigOpCostWithAncestors := nSigOpCostWithAncestors e |}.

Section miner.
Context `{MempoolEnv}.

Definition update_for_parent_inclusion (parent : CTxMemPoolEntry) (e : CTxMemPoolModifiedEntry) : option CTxMemPoolModifiedEntry :=
  fees ← int64 (mod_nModFeesWithAncestors e - m_modified_fee parent);
  sigops ← int64 (mod_nSigOpCostWithAncestors e - GetSigOpCost parent);
  Some {| mod_nSizeWithAncestors := u64 (mod_nSizeWithAncestors e - GetTxSize parent); mod_nModFeesWithAncestors := fees; mod_nSigOpCostWithAncestors := sigops |}.

Definition onlyUnconfirmed (b : BlockAssembler) (testSet : gset uint256) : gset uint256 := testSet ∖ inBlock b.

Definition TestPackage (options : BlockAssemblerOptions) (b : BlockAssembler) (packageSize packageSigOpsCost : Z) : bool :=
  if u64 (nBlockWeight b + WITNESS_SCALE_FACTOR * packageSize) >=? nBlockMaxWeight options then false
  else if u64 (nBlockSigOpsCost b + packageSigOpsCost) >=? MAX_BLOCK_SIGOPS_COST then false
  else true.

Definition TestPackageTransactions (m : txmap) (package : gset uint256) (nHeight m_lock_time_cutoff : Z) : option bool :=
  es ← mapM (fun h => m !! h) (by_hash package);
  Some (forallb (fun e => IsFinalTx (GetTx e) nHeight m_lock_time_cutoff) es).

Definition AddToBlock (h : uint256) (e : CTxMemPoolEntry) (b : BlockAssembler) : option BlockAssembler :=
  fees ← int64 (template_fees b + EntryFee e);
  Some {| selected := selected b ++ [GetTx e]; vTxFees := vTxFees b ++ [EntryFee e]; vTxSigOpsCost := vTxSigOpsCost b ++ [GetSigOpCost e];
          m_package_feerates := m_package_feerates b; nBlockWeight := u64 (nBlockWeight b + GetTxWeight e); nBlockTx := u64 (nBlockTx b + 1);
          nBlockSigOpsCost := u64 (nBlockSigOpsCost b + GetSigOpCost e); template_fees := fees; inBlock := {[h]} ∪ inBlock b |}.

(** ** Packages *)

Notation modified_set := (gmap uint256 CTxMemPoolModifiedEntry).

(** one descendant of an entry that is in the block *)
Definition update_modified (m : txmap) (alreadyAdded : gset uint256) (it : CTxMemPoolEntry) (desc : uint256) (mapModifiedTx : modified_set)
    : option modified_set :=
  if decide (desc ∈ alreadyAdded) then Some mapModifiedTx
  else
    x ← (match mapModifiedTx !! desc with Some x => Some x | None => e ← m !! desc; Some (CTxMemPoolModifiedEntry_of e) end);
    x ← update_for_parent_inclusion it x;
    Some (<[desc := x]> mapModifiedTx).
Definition UpdatePackagesForAdded (m : txmap) (alreadyAdded : gset uint256) (mapModifiedTx : modified_set) : option modified_set :=
  for_each (fun it mapModifiedTx =>
    e ← m !! it;
    descendants ← CalculateDescendants m it ∅;
    for_each (update_modified m alreadyAdded e) (by_hash descendants) mapModifiedTx) (by_hash alreadyAdded) mapModifiedTx.

Definition SortForBlock (m : txmap) (package : gset uint256) : option (list (uint256 * CTxMemPoolEntry)) :=
  es ← mapM (fun h => e ← m !! h; Some (h, e)) (by_hash package);
  Some (sorted_by (fun a b => CompareTxIterByAncestorCount a.2 b.2) es).

(** the first of [mapModifiedTx] in the order of ancestor fees *)
Definition modified_entries (m : txmap) (mapModifiedTx : modified_set) : list (uint256 * CTxMemPoolEntry * CTxMemPoolModifiedEntry) :=
  omap (fun kv => e ← m !! kv.1; Some (kv.1, e, kv.2)) (map_to_list mapModifiedTx).
Definition best_modified (m : txmap) (mapModifiedTx : modified_set) : option (uint256 * CTxMemPoolEntry * CTxMemPoolModifiedEntry) :=
  head (sorted_by (fun a b => CompareTxMemPoolEntryByAncestorFee (a.1.2, i64 (mod_nSizeWithAncestors a.2)) (b.1.2, i64 (mod_nSizeWithAncestors b.2)))
          (modified_entries m mapModifiedTx)).
(** the pool in that order *)
Definition by_ancestor_fee (m : txmap) : list uint256 :=
  map fst (sorted_by (fun a b => CompareTxMemPoolEntryByAncestorFee (a.2, nSizeWithAncestors a.2) (b.2, nSizeWithAncestors b.2)) (map_to_list m)).

Definition MAX_CONSECUTIVE_FAILURES : Z := 1000.
Definition BLOCK_FULL_ENOUGH_WEIGHT_DELTA : Z := 4000.

(** the variables of [addPackageTxs]; [mi] is what is left of the pool's order *)
Record Selection : Type := {
  assembler : BlockAssembler; mapModifiedTx : modified_set; failedTx : gset uint256; mi : list uint256; nConsecutiveFailed : Z }.

(** the entry to look at, its modified totals when it comes from [mapModifiedTx], and [mi] *)
Definition next_candidate (m : txmap) (s : Selection) : option (option (uint256 * option CTxMemPoolModifiedEntry * list uint256)) :=
  match mi s, best_modified m (mapModifiedTx s) with
  | [], None => Some None
  | [], Some (h, _, x) => Some (Some (h, Some x, []))
  | it :: rest, None => Some (Some (it, None, rest))
  | it :: rest, Some (h, e, x) =>
      eit ← m !! it;
      Some (Some (if CompareTxMemPoolEntryByAncestorFee (e, i64 (mod_nSizeWithAncestors x)) (eit, i64 (mod_nSizeWithAncestors (CTxMemPoolModifiedEntry_of eit)))
                  then (h, Some x, mi s) else (it, None, rest)))
  end.

(** a candidate of [mapModifiedTx] that does not make it *)
Definition erase_failed (iter : uint256) (using_modified : bool) (rest : list uint256) (failed : Z) (s : Selection) : Selection :=
  {| assembler := assembler s; mapModifiedTx := if using_modified then delete iter (mapModifiedTx s) else mapModifiedTx s;
     failedTx := if using_modified then {[iter]} ∪ failedTx s else failedTx s; mi := rest; nConsecutiveFailed := failed |}.

Definition skip_stale (s : Selection) (rest : list uint256) : Selection :=
  {| assembler := assembler s; mapModifiedTx := mapModifiedTx s; failedTx := failedTx s; mi := rest; nConsecutiveFailed := nConsecutiveFailed s |}.
Definition is_stale (s : Selection) (it : uint256) : bool :=
  bool_decide (it ∈ dom (mapModifiedTx s)) || bool_decide (it ∈ inBlock (assembler s)) || bool_decide (it ∈ failedTx s).

(** the package goes into the block *)
Definition add_package (m : txmap) (package : gset uint256) (packageFees packageSize : Z) (rest : list uint256) (s : Selection) : option Selection :=
  sortedEntries ← SortForBlock m package;
  b ← for_each (fun he => AddToBlock he.1 he.2) sortedEntries (assembler s);
  let b := {| selected := selected b; vTxFees := vTxFees b; vTxSigOpsCost := vTxSigOpsCost b;
              m_package_feerates := m_package_feerates b ++ [(packageFees, i32 packageSize)]; nBlockWeight := nBlockWeight b; nBlockTx := nBlockTx b;
              nBlockSigOpsCost := nBlockSigOpsCost b; template_fees := template_fees b; inBlock := inBlock b |} in
  let modified := foldl (fun mm he => delete (he : uint256 * CTxMemPoolEntry).1 mm) (mapModifiedTx s) sortedEntries in
  modified ← UpdatePackagesForAdded m package modified;
  Some {| assembler := b; mapModifiedTx := modified; failedTx := failedTx s; mi := rest; nConsecutiveFailed := 0 |}.

(** a turn of the loop ends it ([inl]) or not *)
Definition evaluate_package (options : BlockAssemblerOptions) (p : CTxMemPool) (nHeight m_lock_time_cutoff : Z) (s : Selection)
    (iter : uint256) (modified : option CTxMemPoolModifiedEntry) (rest : list uint256) (e : CTxMemPoolEntry) : option (Selection + Selection) :=
  let m := mapTx p in
  let using_modified := match modified with Some _ => true | None => false end in
  let x := match modified with Some x => x | None => CTxMemPoolModifiedEntry_of e end in
  let packageSize := mod_nSizeWithAncestors x in
  let packageFees := mod_nModFeesWithAncestors x in
  min_fee ← CalculateFee fee_model (i64 packageSize) (EntryValue e) (IsConsolidationTx (GetTx e));
  if packageFees <? min_fee then Some (inl s)
  else if negb (TestPackage options (assembler s) packageSize (mod_nSigOpCostWithAncestors x)) then
    let s := erase_failed iter using_modified rest (nConsecutiveFailed s + 1) s in
    if (nConsecutiveFailed s >? MAX_CONSECUTIVE_FAILURES) && (nBlockWeight (assembler s) >? u64 (nBlockMaxWeight options - BLOCK_FULL_ENOUGH_WEIGHT_DELTA))
    then Some (inl s) else Some (inr s)
  else
    ancestors ← AssumeCalculateMemPoolAncestors p e NoLimits false;
    let package := {[iter]} ∪ onlyUnconfirmed (assembler s) ancestors in
    final ← TestPackageTransactions m package nHeight m_lock_time_cutoff;
    if negb final then Some (inr (erase_failed iter using_modified rest (nConsecutiveFailed s) s))
    else s ← add_package m package packageFees packageSize rest s; Some (inr s).

Definition evaluate_next (options : BlockAssemblerOptions) (p : CTxMemPool) (nHeight m_lock_time_cutoff : Z) (s : Selection) : option (Selection + Selection) :=
  c ← next_candidate (mapTx p) s;
  match c with
  | None => Some (inl s)
  | Some (iter, modified, rest) =>
      e ← mapTx p !! iter;
      if decide (iter ∈ inBlock (assembler s)) then None else evaluate_package options p nHeight m_lock_time_cutoff s iter modified rest e
  end.

Definition package_turn (options : BlockAssemblerOptions) (p : CTxMemPool) (nHeight m_lock_time_cutoff : Z) (s : Selection) : option (Selection + Selection) :=
  match mi s with
  | it :: rest => if is_stale s it then Some (inr (skip_stale s rest)) else evaluate_next options p nHeight m_lock_time_cutoff s
  | [] => evaluate_next options p nHeight m_lock_time_cutoff s
  end.

Fixpoint package_loop (fuel : nat) (options : BlockAssemblerOptions) (p : CTxMemPool) (nHeight m_lock_time_cutoff : Z) (s : Selection) : option BlockAssembler :=
  match fuel with
  | O => None
  | S fuel =>
      r ← package_turn options p nHeight m_lock_time_cutoff s;
      match r with
      | inl s => Some (assembler s)
      | inr s => package_loop fuel options p nHeight m_lock_time_cutoff s
      end
  end.
(** between two packages every turn uses up an entry of [mi] or of [mapModifiedTx] *)
Definition package_fuel (n : nat) : nat := S ((n + 1) * (2 * n + 1)).
Definition addPackageTxs (options : BlockAssemblerOptions) (p : CTxMemPool) (nHeight m_lock_time_cutoff : Z) (b : BlockAssembler) : option BlockAssembler :=
  package_loop (package_fuel (size (mapTx p))) options p nHeight m_lock_time_cutoff
    {| assembler := b; mapModifiedTx := ∅; failedTx := ∅; mi := by_ancestor_fee (mapTx p); nConsecutiveFailed := 0 |}.
End miner.

(** ** Time and commitments *)

Definition set_header_time (b : CBlockHeader) (t : Z) : CBlockHeader :=
  {| nVersion := nVersion b; hashPrevBlock := hashPrevBlock b; hashMerkleRoot := hashMerkleRoot b; nTime := t; nBits := nBits b; nNonce := nNonce b |}.
Definition set_header_bits (b : CBlockHeader) (bits : Z) : CBlockHeader :=
  {| nVersion := nVersion b; hashPrevBlock := hashPrevBlock b; hashMerkleRoot := hashMerkleRoot b; nTime := nTime b; nBits := bits; nNonce := nNonce b |}.

Definition GetMinimumTime (t : BlockMap) (pindexPrev : nat) (difficulty_adjustment_interval : Z) : option Z :=
  prev ← t !! pindexPrev;
  mtp ← GetMedianTimePast t pindexPrev;
  let min_time := mtp + 1 in
  let height := nHeight prev + 1 in
  if difficulty_adjustment_interval =? 0 then None
  else Some (if Z.rem height difficulty_adjustment_interval =? 0 then Z.max min_time (index_GetBlockTime prev - MAX_TIMEWARP) else min_time).

(** the change of the time, and the header; [GetNextWorkRequired] writes the header it is given *)
Definition UpdateTime (t : BlockMap) (pblock : CBlockHeader) (params : Params) (pindexPrev : nat) (now : Z) : option (Z * CBlockHeader) :=
  min_time ← GetMinimumTime t pindexPrev (DifficultyAdjustmentInterval params);
  let nOldTime := nTime pblock in
  let nNewTime := Z.max min_time now in
  let pblock := if nOldTime <? nNewTime then set_header_time pblock (u32 nNewTime) else pblock in
  pblock ← (if fPowAllowMinDifficultyBlocks params then
              '(bits, b) ← GetNextWorkRequired t (Some pindexPrev) (Some pblock) params; b ← b; Some (set_header_bits b bits)
            else Some pblock);
  Some (nNewTime - nOldTime, pblock).

Definition RegenerateCommitments `{Cpu} (t : BlockMap) (params : Params) (block : CBlock) : option CBlock :=
  tx ← vtx block !! 0%nat;
  let commitpos := GetWitnessCommitmentIndex block in
  if (0 <=? commitpos) && (commitpos <? zlen (vout tx)) then
    let tx := {| version := version tx; vin := vin tx; vout := take (Z.to_nat commitpos) (vout tx) ++ drop (Z.to_nat commitpos + 1) (vout tx); nLockTime := nLockTime tx |} in
    let block := set_first_tx block tx in
    let prev_block := p ← LookupBlockIndex t (hashPrevBlock (header block)); t !! p in
    '(block, _) ← GenerateCoinbaseCommitment block prev_block params;
    let h := header block in
    Some {| header := {| nVersion := nVersion h; hashPrevBlock := hashPrevBlock h; hashMerkleRoot := (BlockMerkleRoot block).1; nTime := nTime h; nBits := nBits h; nNonce := nNonce h |};
            vtx := vtx block |}
  else None.

Definition AddMerkleRootAndCoinbase (block : CBlock) (coinbase : CTransaction) (version timestamp nonce : Z) : CBlock :=
  let txs := match vtx block with [] => [coinbase] | _ :: txs => coinbase :: txs end in
  let block := {| header := header block; vtx := txs |} in
  let h := header block in
  {| header := {| nVersion := i32 version; hashPrevBlock := hashPrevBlock h; hashMerkleRoot := (BlockMerkleRoot block).1; nTime := timestamp; nBits := nBits h; nNonce := nonce |};
     vtx := txs |}.

(** ** [TestBlockValidity] *)

Section validity.
Context `{Cpu} `{ScriptVerifier} {V : Type} `{CCoinsView V}.

(** the index with the temporary entry of a block on the tip, whose entry is [b] *)
Definition index_dummy (s : BlockManager) (tip : nat) (b : CBlockIndex) (h : CBlockHeader) : BlockManager :=
  let d := CBlockIndex_of h in
  let dummy := {| phashBlock := Some (CBlockHeader_GetHash h); pprev := Some tip; pskip := pskip d; nHeight := nHeight b + 1;
    nFile := nFile d; nDataPos := nDataPos d; nUndoPos := nUndoPos d; nChainWork := nChainWork d; nTx := nTx d; m_chain_tx_count := m_chain_tx_count d;
    nStatus := nStatus d; bi_nVersion := bi_nVersion d; bi_hashMerkleRoot := bi_hashMerkleRoot d; bi_nTime := bi_nTime d; bi_nBits := bi_nBits d;
    bi_nNonce := bi_nNonce d; nSequenceId := nSequenceId d; nTimeMax := nTimeMax d |} in
  {| m_block_index := m_block_index s ++ [dummy]; best_header := best_header s; m_dirty_blockindex := m_dirty_blockindex s |}.

(** the tip's coins are read through a cache of their own *)
Definition TestBlockValidity (bits_first : bool) (opts : ConnectOptions) (params : Params) (s : BlockManager) (tip : nat) (coins : CCoinsViewCache V)
    (memo : BlockMemo) (block : CBlock) (check_pow check_merkle_root : bool) (now : Z) : option connect_result :=
  let t := m_block_index s in
  b ← t !! tip;
  tip_hash ← phashBlock b;
  if negb (blob_eqb (hashPrevBlock (header block)) tip_hash) then Some (Rejected BLOCK_RESULT_UNSET "inconclusive-not-best-prevblk")
  else
    '(v, memo) ← CheckBlock (signet_solution opts) memo block params check_pow check_merkle_root;
    match v with
    | Invalid r reason => Some (Rejected r reason)
    | Valid _ =>
        '(v, h) ← ContextualCheckBlockHeader bits_first t (header block) params tip now;
        let block := {| header := h; vtx := vtx block |} in
        match v with
        | Invalid r reason => Some (Rejected r reason)
        | Valid _ =>
            '(v, memo) ← ContextualCheckBlock t memo block params (Some tip);
            match v with
            | Invalid r reason => Some (Rejected r reason)
            | Valid _ =>
                '(r, _, _, _) ← ConnectBlock opts params (index_dummy s tip b (header block)) memo block (length t) (CCoinsViewCache_new coins) true;
                Some r
            end
        end
    end.
End validity.

(** ** [CreateNewBlock] *)

Record CBlockTemplate : Type := { block : CBlock; template_state : BlockAssembler; vchCoinbaseCommitment : list Z }.

Section create.
Context `{Cpu} `{ScriptVerifier} {V : Type} `{CCoinsView V} `{MempoolEnv}.

Definition template_coinbase (options : BlockAssemblerOptions) (params : Params) (nHeight fees : Z) : option CTransaction :=
  value ← int64 (fees + GetBlockSubsidy nHeight params);
  if nHeight >? 0 then
    Some {| version := 2; vin := [{| prevout := COutPoint_null; scriptSig := push_int64 [] nHeight ++ [OP_0]; nSequence := MAX_SEQUENCE_NONFINAL; scriptWitness := [] |}];
            vout := [{| nValue := value; scriptPubKey := coinbase_output_script options |}]; nLockTime := u32 (nHeight - 1) |}
  else None.

(** [now] is the clock in seconds when the header is made and when its time is updated; [blockversion] is the option of that name *)
Definition CreateNewBlock (bits_first : bool) (copts : ConnectOptions) (params : Params) (s : BlockManager) (caches : DeploymentCaches) (tip : nat) (coins : CCoinsViewCache V)
    (options : BlockAssemblerOptions) (blockversion : option Z) (p : CTxMemPool) (now : Z) : option (CBlockTemplate * DeploymentCaches) :=
  let t := m_block_index s in
  let b := resetBlock options in
  prev ← t !! tip;
  let height := nHeight prev + 1 in
  '(nVersion, caches) ← ComputeBlockVersion t (Some tip) params caches;
  let nVersion := if fPowNoRetargeting params then default nVersion (i32 <$> blockversion) else nVersion in
  m_lock_time_cutoff ← GetMedianTimePast t tip;
  b ← (if use_mempool options then addPackageTxs options p height m_lock_time_cutoff b else Some b);
  coinbaseTx ← template_coinbase options params height (template_fees b);
  let h := {| nVersion := nVersion; hashPrevBlock := uint256_null; hashMerkleRoot := uint256_null; nTime := u32 now; nBits := 0; nNonce := 0 |} in
  let pblock := {| header := h; vtx := coinbaseTx :: selected b |} in
  '(pblock, commitment) ← GenerateCoinbaseCommitment pblock (Some prev) params;
  hash ← phashBlock prev;
  let h := header pblock in
  let h := {| nVersion := Primitives.nVersion h; hashPrevBlock := hash; hashMerkleRoot := hashMerkleRoot h; nTime := nTime h; nBits := nBits h; nNonce := nNonce h |} in
  '(_, h) ← UpdateTime t h params tip now;
  '(bits, h) ← GetNextWorkRequired t (Some tip) (Some h) params;
  h ← h;
  let h := set_header_bits h bits in
  let pblock := {| header := h; vtx := vtx pblock |} in
  let result := ({| block := pblock; template_state := b; vchCoinbaseCommitment := commitment |}, caches) in
  if test_block_validity options then
    r ← TestBlockValidity bits_first copts params s tip coins unset_memo pblock false false (now * 10 ^ 9);
    match r with Connected => Some result | _ => None end
  else Some result.
End create.
