(* ===== verification/MinerSelect.v ===== *)
(** * The selection of transactions for a block

    What the steps of [addPackageTxs] (Miner.v) do on a consistent pool: a package is put in the
    block with parents before children, and the modified entries keep totals that cover what
    is missing of each entry's ancestors. *)

From Stdlib Require Import ZArith Lia Bool Sorting.Sorted.
From stdpp Require Import base numbers list gmap fin_sets sorting relations.
From S2P Require Import Prelude Uint256 Binary64 Params FeeModel Serialize Primitives TxVerify Coins MempoolEntry TxMempool PoolGraph PoolInvariant PoolBooks PoolRemoval PoolAdd PoolOps PoolUpkeep Miner.
Local Open Scope Z_scope.

(** ** Sorting by ancestor count *)

Lemma blob_Compare_flip a : forall b, blob_Compare b a = - blob_Compare a b.
Proof.
  induction a as [|x a IH]; intros [|y b]; cbn [blob_Compare]; try done. rewrite (Z.eqb_sym y x), IH.
  destruct (Z.eqb_spec x y); [done|]. destruct (Z.ltb_spec x y), (Z.ltb_spec y x); lia.
Qed.
Lemma blob_ltb_asym a b : blob_ltb a b = true -> blob_ltb b a = false.
Proof. unfold blob_ltb. rewrite (blob_Compare_flip a b), Z.ltb_lt, Z.ltb_ge. lia. Qed.

(** a comparison that is asymmetric and never reverses a key sorts by the key *)
Lemma sorted_by_weak {A : Type} (lt : A -> A -> bool) (key : A -> Z) l : (forall a b, lt a b = true -> lt b a = false) ->
  (forall a b, key a < key b -> lt a b = true) -> StronglySorted (fun a b => key a <= key b) (sorted_by lt l).
Proof.
  intros Hasym Hkey. assert (Htot : Total (not_after lt)).
  { intros a b. unfold not_after. destruct (lt b a) eqn:E; [right; apply Hasym, E|left; done]. }
  pose proof (Sorted_merge_sort (not_after lt) l) as Hs. fold (sorted_by lt l) in Hs.
  apply Sorted_StronglySorted; [intros a b c; lia|]. induction Hs as [|a k _ IH Hd]; constructor; [exact IH|]. destruct Hd as [|b k Hab]; constructor.
  apply Z.le_ngt. intros Hlt. unfold not_after in Hab. rewrite (Hkey _ _ Hlt) in Hab. discriminate Hab.
Qed.

Lemma mapM_lookup_all {K A B} (f : K -> option A) (g : K -> A -> B) l : (forall k, k ∈ l -> is_Some (f k)) ->
  exists r, mapM (fun k => a ← f k; Some (g k a)) l = Some r /\ Forall2 (fun k b => exists a, f k = Some a /\ b = g k a) l r.
Proof.
  induction l as [|k l IH]; intros Hl; cbn [mapM]; [exists []; split; [done|constructor]|].
  destruct (Hl k ltac:(left)) as [a Ha]. destruct IH as (r & Er & Hr); [intros j Hj; apply Hl; right; exact Hj|].
  exists (g k a :: r). rewrite Ha. cbn [mbind option_bind mret option_ret]. rewrite Er. cbn [mbind option_bind mret option_ret]. split; [done|]. constructor; [eauto|exact Hr].
Qed.

Lemma sorted_lookup {A : Type} (R : A -> A -> Prop) l : StronglySorted R l -> forall i j a b, (i < j)%nat -> l !! i = Some a -> l !! j = Some b -> R a b.
Proof.
  induction 1 as [|x l _ IH Hx]; intros i j a b Hij Ha Hb; [done|]. destruct j as [|j]; [lia|]. destruct i as [|i]; cbn in Ha, Hb.
  - injection Ha as <-. rewrite Forall_forall in Hx. apply Hx, list_elem_of_lookup. eauto.
  - apply (IH i j); [lia|exact Ha|exact Hb].
Qed.

Lemma set_sum_scale c f X : set_sum (fun x => c * f x) X = c * set_sum f X.
Proof. unfold set_sum. induction (elements X); cbn [zsum]; lia. Qed.
Lemma set_sum_opp f X : set_sum (fun x => - f x) X = - set_sum f X.
Proof. unfold set_sum. induction (elements X); cbn [zsum]; lia. Qed.

Section select.
Context `{MempoolEnv}.
Implicit Type m : txmap.

Lemma elem_of_up m h z : z ∈ up m h <-> z = h \/ z ∈ anc_set m h.
Proof. unfold up. rewrite elem_of_union, elem_of_singleton. done. Qed.

Lemma parent_count m h e q x : graph_ok m -> m !! h = Some e -> m !! q = Some x -> q ∈ parents m h -> m_count_with_ancestors x < m_count_with_ancestors e.
Proof.
  intros Hg He Hx Hq. assert (Hd : h ∈ dom m) by (apply elem_of_dom; eauto). assert (Hdq : q ∈ dom m) by (apply elem_of_dom; eauto).
  rewrite (g_anc m Hg h e one m_count_with_ancestors He), (g_anc m Hg q x one m_count_with_ancestors Hx) by (unfold anc_stats; set_solver +).
  destruct (graph_bounds m (up m h) Hg (up_in_dom m h Hg Hd)) as (_ & _ & _ & _ & ->). destruct (graph_bounds m (up m q) Hg (up_in_dom m q Hg Hdq)) as (_ & _ & _ & _ & ->).
  apply inj_lt, subset_size. pose proof (g_links m Hg) as Hl. assert (Hqh : tc (parent_of m) h q) by (apply tc_once, Hq).
  assert (Hup : forall z, z ∈ up m q -> z ∈ anc_set m h).
  { intros z Hz. apply elem_of_anc; [exact Hl|]. apply elem_of_up in Hz as [->|Hz]; [exact Hqh|].
    apply elem_of_anc in Hz; [|exact Hl]. eapply tc_transitive; [exact Hqh|exact Hz]. }
  split; [intros z Hz; apply elem_of_up; right; apply Hup, Hz|]. intros Hsub. assert (Hh : h ∈ anc_set m h) by (apply Hup, Hsub, elem_of_up; left; done).
  apply elem_of_anc in Hh; [|exact Hl]. exact (g_acyclic m Hg h Hh).
Qed.

Lemma CompareTxIterByAncestorCount_asym a b : CompareTxIterByAncestorCount a b = true -> CompareTxIterByAncestorCount b a = false.
Proof.
  unfold CompareTxIterByAncestorCount. rewrite (Z.eqb_sym (m_count_with_ancestors b)). destruct (Z.eqb_spec (m_count_with_ancestors a) (m_count_with_ancestors b)); cbn [negb].
  - apply blob_ltb_asym.
  - rewrite Z.ltb_lt, Z.ltb_ge. lia.
Qed.
Lemma CompareTxIterByAncestorCount_count a b : m_count_with_ancestors a < m_count_with_ancestors b -> CompareTxIterByAncestorCount a b = true.
Proof.
  intros Hlt. unfold CompareTxIterByAncestorCount. destruct (Z.eqb_spec (m_count_with_ancestors a) (m_count_with_ancestors b)); [lia|]. cbn [negb]. apply Z.ltb_lt, Hlt.
Qed.

(** [SortForBlock] lists the package's entries once each, in the order of their ancestor counts *)
Lemma SortForBlock_spec m X : X ⊆ dom m -> exists l, SortForBlock m X = Some l /\ NoDup (map fst l) /\ list_to_set (map fst l) = X /\
  (forall h e, (h, e) ∈ l -> m !! h = Some e) /\ StronglySorted (fun a b => m_count_with_ancestors a.2 <= m_count_with_ancestors b.2) l.
Proof.
  intros HX. unfold SortForBlock. destruct (mapM_lookup_all (fun h => m !! h) (fun h e => (h, e)) (by_hash X)) as (r & Er & Hr).
  { intros h Hh. apply elem_of_by_hash in Hh. apply elem_of_dom, HX, Hh. }
  rewrite Er. cbn [mbind option_bind]. eexists. split; [done|]. assert (Hfst : map fst r = by_hash X).
  { clear Er. induction Hr as [|h b l k (e & He & ->) _ IH]; [done|]. cbn. rewrite IH. done. }
  assert (Hperm : map fst (sorted_by (fun a b : uint256 * CTxMemPoolEntry => CompareTxIterByAncestorCount a.2 b.2) r) ≡ₚ by_hash X) by (rewrite <- Hfst, sorted_by_perm; done).
  split_and!.
  - rewrite Hperm. apply by_hash_NoDup.
  - rewrite <- (set_of_by_hash X). apply set_eq. intros h. rewrite !elem_of_list_to_set, Hperm. done.
  - intros h e Hin. rewrite sorted_by_perm in Hin. apply list_elem_of_lookup in Hin as [i Hi]. apply (Forall2_lookup_r _ _ _ _ _ Hr) in Hi as (k & _ & x & Hx & [= -> ->]). exact Hx.
  - apply sorted_by_weak; [intros a b; apply CompareTxIterByAncestorCount_asym|intros a b; apply CompareTxIterByAncestorCount_count].
Qed.

(** ** The order of the block *)

(** entries of the pool, each once *)
Definition entries_of m (l : list (uint256 * CTxMemPoolEntry)) : Prop := NoDup (map fst l) /\ forall h e, (h, e) ∈ l -> m !! h = Some e.
(** parents come first *)
Definition parents_precede (l : list (uint256 * CTxMemPoolEntry)) : Prop :=
  forall i h e q, l !! i = Some (h, e) -> q ∈ m_parents e -> exists j x, (j < i)%nat /\ l !! j = Some (q, x).
Definition keys (l : list (uint256 * CTxMemPoolEntry)) : gset uint256 := list_to_set (map fst l).

Lemma elem_of_keys l h : h ∈ keys l <-> exists e, (h, e) ∈ l.
Proof.
  unfold keys. rewrite elem_of_list_to_set, list_elem_of_fmap. split; [intros ([k e] & -> & Hin); eauto|intros [e Hin]; exists (h, e); done].
Qed.

Lemma entries_of_take m l k : entries_of m (l ++ k) -> entries_of m l.
Proof. intros [Hn Hp]. rewrite map_app in Hn. apply NoDup_app in Hn as [Hn _]. split; [exact Hn|]. intros h e Hin. apply Hp, elem_of_app. left. exact Hin. Qed.

Lemma entries_keys m l : entries_of m l -> keys l ⊆ dom m.
Proof. intros [_ Hp] h Hh. apply elem_of_keys in Hh as [e He]. apply elem_of_dom. exists e. apply Hp, He. Qed.

Lemma entries_sum m f l : entries_of m l -> zsum (fun he => f he.2) l = set_sum (val m f) (keys l).
Proof.
  induction l as [|[h e] l IH] using rev_ind; intros He; [symmetry; apply set_sum_empty|]. pose proof (entries_of_take _ _ _ He) as Hl. destruct He as [Hn Hp].
  rewrite zsum_app, (IH Hl). unfold keys. rewrite map_app, list_to_set_app_L. cbn [map list_to_set zsum fst snd]. rewrite union_empty_r_L.
  rewrite map_app in Hn. apply NoDup_app in Hn as (_ & Hd & _). rewrite set_sum_union.
  - rewrite set_sum_singleton, (val_lookup m f h e); [lia|]. apply Hp, elem_of_app. right. left.
  - intros x Hx Hx'. apply elem_of_singleton in Hx' as ->. apply elem_of_list_to_set in Hx. apply (Hd h Hx). left.
Qed.

(** an ancestor of a listed entry is listed *)
Lemma listed_ancestors m l h : graph_ok m -> entries_of m l -> parents_precede l -> h ∈ keys l -> anc_set m h ⊆ keys l.
Proof.
  intros Hg [_ Hp] Hf Hh x Hx. apply elem_of_anc in Hx; [|apply Hg]. revert Hh. induction Hx as [h q Hq|h q x Hq _ IH]; intros Hh.
  all: assert (Hqk : q ∈ keys l).
  1, 3: apply elem_of_keys in Hh as [e He]; unfold parent_of in Hq; rewrite (parents_lookup m h e (Hp h e He)) in Hq; apply list_elem_of_lookup in He as [i Hi];
    destruct (Hf i h e q Hi Hq) as (j & y & _ & Hj); apply elem_of_keys; exists y; apply list_elem_of_lookup; eauto.
  - exact Hqk.
  - apply IH, Hqk.
Qed.

(** the package of an entry continues the order *)
Lemma package_precedes m l h : graph_ok m -> entries_of m l -> parents_precede l -> h ∈ dom m -> h ∉ keys l ->
  exists k, SortForBlock m ({[h]} ∪ anc_set m h ∖ keys l) = Some k /\ entries_of m (l ++ k) /\ parents_precede (l ++ k) /\ keys k = {[h]} ∪ anc_set m h ∖ keys l.
Proof.
  intros Hg Hl Hf Hh Hout. pose proof (anc_in_dom m h (g_links m Hg)) as Ha. set (X := {[h]} ∪ anc_set m h ∖ keys l).
  assert (HX : forall x, x ∈ X <-> x ∈ up m h /\ x ∉ keys l).
  { intros x. unfold X. rewrite elem_of_union, elem_of_difference, elem_of_singleton, elem_of_up. split; [intros [->|[H1 H2]]; auto|tauto]. }
  destruct (SortForBlock_spec m X) as (k & Ek & Hn & Hk & Hkp & Hs). { intros x Hx. apply HX in Hx as [Hx _]. revert x Hx. apply (up_in_dom m h Hg Hh). }
  fold (keys k) in Hk. exists k. split; [exact Ek|]. assert (Hin : forall x e, (x, e) ∈ l ++ k -> m !! x = Some e).
  { intros x e Hxe. apply elem_of_app in Hxe as [Hxe|Hxe]; [apply Hl, Hxe|apply Hkp, Hxe]. }
  split; [split; [|exact Hin]|split; [|exact Hk]].
  - rewrite map_app. apply NoDup_app. split; [apply Hl|]. split; [|exact Hn]. intros x Hx Hxk. assert (Hx' : x ∈ X) by (rewrite <- Hk; apply elem_of_list_to_set, Hxk).
    apply HX in Hx' as [_ Hx']. apply Hx', elem_of_list_to_set, Hx.
  - intros i x e q Hi Hq. destruct (decide (i < length l)%nat) as [Hlt|Hge].
    { rewrite lookup_app_l in Hi by exact Hlt. destruct (Hf i x e q Hi Hq) as (j & y & Hj & Ey). exists j, y. split; [exact Hj|]. rewrite lookup_app_l by lia. exact Ey. }
    assert (He : m !! x = Some e) by (apply Hin, list_elem_of_lookup; eauto). rewrite lookup_app_r in Hi by lia.
    assert (Hx : x ∈ X) by (rewrite <- Hk; apply elem_of_keys; exists e; apply list_elem_of_lookup; eauto). apply HX in Hx as [Hx _].
    assert (Hpar : q ∈ parents m x) by (rewrite (parents_lookup m x e He); exact Hq). assert (Hqa : q ∈ anc_set m h).
    { apply elem_of_anc; [apply Hg|]. apply elem_of_up in Hx as [->|Hx]; [apply tc_once, Hpar|]. apply elem_of_anc in Hx; [|apply Hg]. eapply tc_r; [exact Hx|exact Hpar]. }
    destruct (decide (q ∈ keys l)) as [Hql|Hql].
    + apply elem_of_keys in Hql as [y Hy]. apply list_elem_of_lookup in Hy as [j Hj]. pose proof (lookup_lt_Some _ _ _ Hj) as Hlt. exists j, y.
      split; [lia|]. rewrite lookup_app_l by exact Hlt. exact Hj.
    + assert (Hqk : q ∈ keys k) by (rewrite Hk; apply HX; split; [apply elem_of_up; right; exact Hqa|exact Hql]). apply elem_of_keys in Hqk as [y Hy].
      pose proof (parent_count m x e q y Hg He (Hkp q y Hy) Hpar) as Hc. apply list_elem_of_lookup in Hy as [j Hj]. exists (length l + j)%nat, y.
      split; [|rewrite lookup_app_r by lia; replace (length l + j - length l)%nat with j by lia; exact Hj].
      destruct (Nat.lt_trichotomy j (i - length l)) as [Hj'|[Hj'|Hj']]; [lia| |].
      * rewrite Hj', Hi in Hj. injection Hj as <- <-. lia.
      * pose proof (sorted_lookup _ k Hs _ _ _ _ Hj' Hi Hj) as Hle. cbn [snd] in Hle. lia.
Qed.

(** ** The counters of the block *)

(** the size of an entry covers its weight *)
Definition weights_ok m : Prop := forall h e, m !! h = Some e -> 0 <= GetTxWeight e <= WITNESS_SCALE_FACTOR * GetTxSize e.
(** the options of an assembler: [ClampOptions] returns such *)
Definition options_ok (options : BlockAssemblerOptions) : Prop :=
  0 <= block_reserved_weight options <= nBlockMaxWeight options /\ nBlockMaxWeight options <= MAX_BLOCK_WEIGHT /\
  0 <= coinbase_output_max_additional_sigops options <= MAX_BLOCK_SIGOPS_COST.

Lemma ClampOptions_ok options clamped : 0 <= coinbase_output_max_additional_sigops options -> ClampOptions options = Some clamped ->
  options_ok clamped /\ MINIMUM_BLOCK_RESERVED_WEIGHT <= block_reserved_weight clamped.
Proof.
  intros H0. unfold ClampOptions. destruct (Z.leb_spec (block_reserved_weight options) MAX_BLOCK_WEIGHT) as [H1|]; [|done].
  destruct (Z.geb_spec (block_reserved_weight options) MINIMUM_BLOCK_RESERVED_WEIGHT) as [H2|]; [|done].
  destruct (Z.leb_spec (coinbase_output_max_additional_sigops options) MAX_BLOCK_SIGOPS_COST) as [H3|]; [|done]. cbn [andb].
  unfold clamp. destruct (Z.ltb_spec MAX_BLOCK_WEIGHT (block_reserved_weight options)); [lia|]. cbn [mbind option_bind]. intros [= <-]. unfold options_ok. cbn.
  unfold MINIMUM_BLOCK_RESERVED_WEIGHT in *. destruct (Z.ltb_spec (nBlockMaxWeight options) (block_reserved_weight options)); [lia|]. destruct (Z.ltb_spec MAX_BLOCK_WEIGHT (nBlockMaxWeight options)); lia.
Qed.

Lemma ClampOptions_same options clamped : ClampOptions options = Some clamped ->
  coinbase_output_script clamped = coinbase_output_script options /\ test_block_validity clamped = test_block_validity options /\
  block_reserved_weight clamped = block_reserved_weight options.
Proof. unfold ClampOptions. destruct (_ && _); [|done]. destruct (clamp _ _ _); [|done]. intros [= <-]. done. Qed.

(** what the fields of the assembler are for a list of entries *)
Record counts (options : BlockAssemblerOptions) (l : list (uint256 * CTxMemPoolEntry)) (b : BlockAssembler) : Prop := {
  c_txs : selected b = map (fun he => GetTx he.2) l;
  c_tx_fees : vTxFees b = map (fun he => EntryFee he.2) l;
  c_tx_sigops : vTxSigOpsCost b = map (fun he => GetSigOpCost he.2) l;
  c_block : inBlock b = keys l;
  c_weight : nBlockWeight b = block_reserved_weight options + zsum (fun he => GetTxWeight he.2) l;
  c_sigops : nBlockSigOpsCost b = coinbase_output_max_additional_sigops options + zsum (fun he => GetSigOpCost he.2) l;
  c_fees : template_fees b = zsum (fun he => EntryFee he.2) l;
  c_number : nBlockTx b = zlen l;
}.

Lemma entries_fees p l : entries_of (mapTx p) l -> Z.abs (zsum (fun he => EntryFee he.2) l) <= pool_sum (mapTx p) (fun e => Z.abs (EntryFee e)).
Proof.
  intros Hl. rewrite (entries_sum (mapTx p) _ l Hl). etransitivity; [apply set_sum_abs|]. unfold pool_sum. etransitivity; [apply set_sum_mono; [exact (entries_keys _ _ Hl)|lia]|].
  apply Z.eq_le_incl, set_sum_ext. intros x _. unfold val. destruct (mapTx p !! x); done.
Qed.

(** sums over entries of the pool are in range *)
Lemma entries_bounds p l : pool_ok p -> weights_ok (mapTx p) -> entries_of (mapTx p) l ->
  0 <= zsum (fun he => GetTxWeight he.2) l <= WITNESS_SCALE_FACTOR * zsum (fun he => GetTxSize he.2) l /\ zsum (fun he => GetTxSize he.2) l < 2 ^ 31 /\
  0 <= zsum (fun he => GetSigOpCost he.2) l < 2 ^ 31 /\ Z.abs (zsum (fun he => EntryFee he.2) l) < 2 ^ 63 /\ zlen l < 2 ^ 31.
Proof.
  intros Hok Hw Hl. pose proof (po_graph p Hok) as Hg. pose proof (entries_keys _ _ Hl) as Hk. destruct (graph_bounds _ _ Hg Hk) as (Ho & Hs & Hsig & _ & Hone).
  assert (Hlen : zlen l = zsum (fun he => one he.2) l) by (clear; induction l; cbn [zsum length one]; unfold one in *; lia).
  rewrite Hlen, !(entries_sum (mapTx p) _ l Hl). split_and!; try lia.
  - apply set_sum_nonneg. intros x Hx. apply Hk, elem_of_dom in Hx as [e He]. rewrite (val_lookup _ _ _ _ He). apply (Hw x e He).
  - assert (H0 : 0 <= set_sum (fun x => WITNESS_SCALE_FACTOR * val (mapTx p) GetTxSize x + - val (mapTx p) GetTxWeight x) (keys l)).
    { apply set_sum_nonneg. intros x Hx. apply Hk, elem_of_dom in Hx as [e He]. rewrite !(val_lookup _ _ _ _ He). pose proof (Hw x e He). lia. }
    rewrite set_sum_add, set_sum_scale, set_sum_opp in H0. lia.
  - rewrite <- (entries_sum (mapTx p) EntryFee l Hl). eapply Z.le_lt_trans; [apply (entries_fees p l Hl)|exact (b_fees p (po_books p Hok))].
Qed.

Lemma AddToBlock_counts p options h e l b : pool_ok p -> weights_ok (mapTx p) -> options_ok options -> entries_of (mapTx p) (l ++ [(h, e)]) -> counts options l b ->
  exists b', AddToBlock h e b = Some b' /\ counts options (l ++ [(h, e)]) b' /\ m_package_feerates b' = m_package_feerates b.
Proof.
  intros Hok Hw (Ho1 & Ho2 & Ho3) He [H1 H2 H3 H4 H5 H6 H7 H8]. destruct (entries_bounds p _ Hok Hw He) as (Hb1 & Hb2 & Hb3 & Hb4 & Hb5).
  rewrite !zsum_app, ?app_length in *. cbn [zsum snd] in *. rewrite !Z.add_0_r in *. unfold MAX_BLOCK_WEIGHT, MAX_BLOCK_SIGOPS_COST, WITNESS_SCALE_FACTOR in *.
  unfold AddToBlock. rewrite int64_ok by (unfold sfits; rewrite H7; lia). cbn [mbind option_bind]. eexists. split; [done|]. split; [|done].
  split; cbn; rewrite ?zsum_app, ?map_app, ?app_length; cbn [zsum map snd length]; try congruence.
  - rewrite H4. unfold keys. rewrite map_app, list_to_set_app_L. cbn. set_solver +.
  - rewrite H5, wrap_small; [lia|]. unfold fits. lia.
  - rewrite H6, wrap_small; [lia|]. unfold fits. lia.
  - lia.
  - rewrite H8, wrap_small; [lia|]. unfold fits. lia.
Qed.

Lemma AddToBlock_loop p options k : pool_ok p -> weights_ok (mapTx p) -> options_ok options -> forall l b, entries_of (mapTx p) (l ++ k) -> counts options l b ->
  exists b', for_each (fun he => AddToBlock he.1 he.2) k b = Some b' /\ counts options (l ++ k) b' /\ m_package_feerates b' = m_package_feerates b.
Proof.
  intros Hok Hw Ho. induction k as [|[h e] k IH]; intros l b He Hc; cbn [for_each fst snd].
  - exists b. rewrite app_nil_r. done.
  - replace (l ++ (h, e) :: k) with ((l ++ [(h, e)]) ++ k) in * by (rewrite <- app_assoc; done).
    destruct (AddToBlock_counts p options h e l b Hok Hw Ho (entries_of_take _ _ _ He) Hc) as (b1 & -> & Hc1 & Hf1). cbn [mbind option_bind].
    destruct (IH _ b1 He Hc1) as (b2 & E2 & Hc2 & Hf2). exists b2. split_and!; [exact E2|exact Hc2|congruence].
Qed.
End select.
