(* ===== verification/MinerLoop.v ===== *)
(** * The loop of the block assembler

    The modified entries of [addPackageTxs] (Miner.v), one turn of its loop, and the loop: on a
    consistent pool it ends within its fuel, no assertion fails, and the block it leaves is
    a list of entries with parents first, within the limits. *)

From Stdlib Require Import ZArith Lia Bool Sorting.Sorted.
From stdpp Require Import base numbers list gmap fin_sets sorting relations.
From S2P Require Import Prelude Uint256 Binary64 Params FeeModel Serialize Primitives TxVerify Coins MempoolEntry TxMempool PoolGraph PoolInvariant PoolBooks PoolRemoval PoolAdd PoolOps PoolUpkeep Miner MinerSelect.
Local Open Scope Z_scope.

Section modified.
Context `{MempoolEnv}.
Implicit Type m : txmap.

(** ** Modified entries *)

Definition totals_over m (X : gset uint256) (x : CTxMemPoolModifiedEntry) : Prop :=
  mod_nSizeWithAncestors x = set_sum (val m GetTxSize) X /\ mod_nModFeesWithAncestors x = set_sum (val m m_modified_fee) X /\
  mod_nSigOpCostWithAncestors x = set_sum (val m GetSigOpCost) X.

(** the totals of an entry that is not in the block [B] leave out some of its ancestors in the
    block, and none of [R] *)
Definition tracked m (B R : gset uint256) (h : uint256) (x : CTxMemPoolModifiedEntry) : Prop :=
  h ∈ dom m /\ h ∉ B /\ exists D, D ⊆ anc_set m h /\ D ⊆ B /\ D ## R /\ totals_over m (up m h ∖ D) x.

Lemma tracked_less m B R R' h x : R' ⊆ R -> tracked m B R h x -> tracked m B R' h x.
Proof. intros HR (Hd & Hb & D & H1 & H2 & H3 & H4). split; [exact Hd|]. split; [exact Hb|]. exists D. split_and!; [exact H1|exact H2| |exact H4]. set_solver. Qed.

Lemma tracked_new m B R h e : graph_ok m -> m !! h = Some e -> h ∉ B -> tracked m B R h (CTxMemPoolModifiedEntry_of e).
Proof.
  intros Hg He Hb. assert (Hd : h ∈ dom m) by (apply elem_of_dom; eauto). split; [exact Hd|]. split; [exact Hb|]. exists ∅. split_and!; try (intros z Hz; apply elem_of_empty in Hz as []).
  rewrite difference_empty_L. destruct (graph_bounds m (up m h) Hg (up_in_dom m h Hg Hd)) as (H1 & H2 & _). unfold totals_over, CTxMemPoolModifiedEntry_of. cbn.
  rewrite (g_anc m Hg h e GetTxSize nSizeWithAncestors He), (g_anc m Hg h e m_modified_fee nModFeesWithAncestors He), (g_anc m Hg h e GetSigOpCost nSigOpCostWithAncestors He)
    by (unfold anc_stats; set_solver +). split; [|done]. apply wrap_small. unfold fits. lia.
Qed.

(** a parent or a further ancestor in the block is no longer counted *)
Lemma update_for_parent_inclusion_spec m X it e x : graph_ok m -> X ⊆ dom m -> it ∈ X -> m !! it = Some e -> totals_over m X x ->
  exists x', update_for_parent_inclusion e x = Some x' /\ totals_over m (X ∖ {[it]}) x'.
Proof.
  intros Hg HX Hit He (H1 & H2 & H3). assert (HX' : X ∖ {[it]} ⊆ dom m) by set_solver. destruct (graph_bounds m _ Hg HX') as (G1 & G2 & G3 & G4 & _).
  assert (Hrem : forall f, set_sum (val m f) X - f e = set_sum (val m f) (X ∖ {[it]})) by (intros f; rewrite (set_sum_remove _ it X Hit), (val_lookup m f it e He); lia).
  unfold update_for_parent_inclusion. rewrite H1, H2, H3, !Hrem. rewrite !int64_ok by (unfold sfits; lia). cbn [mbind option_bind].
  eexists. split; [done|]. unfold totals_over. cbn. split; [|done]. apply wrap_small. unfold fits. lia.
Qed.

Lemma up_without m h D it : it ∉ D -> it ∈ anc_set m h -> it ∈ up m h ∖ D /\ up m h ∖ D ∖ {[it]} = up m h ∖ ({[it]} ∪ D).
Proof.
  intros Hd Ha. split; [apply elem_of_difference; split; [apply elem_of_up; right; exact Ha|exact Hd]|]. generalize (up m h). intros U. set_solver +.
Qed.

Lemma tracked_update m B R h it e x : graph_ok m -> it ∈ R -> it ∈ B -> it ∈ anc_set m h -> m !! it = Some e -> tracked m B R h x ->
  exists x', update_for_parent_inclusion e x = Some x' /\ tracked m B (R ∖ {[it]}) h x'.
Proof.
  intros Hg HR HB Ha He (Hd & Hb & D & H1 & H2 & H3 & H4). assert (HD : it ∉ D) by set_solver. destruct (up_without m h D it HD Ha) as [Hin Heq].
  pose proof (up_in_dom m h Hg Hd) as Hup.
  destruct (update_for_parent_inclusion_spec m (up m h ∖ D) it e x Hg) as (x' & E & Hx'); [set_solver|exact Hin|exact He|exact H4|].
  exists x'. split; [exact E|]. split; [exact Hd|]. split; [exact Hb|]. exists ({[it]} ∪ D). rewrite Heq in Hx'. split_and!; [set_solver|set_solver|set_solver|exact Hx'].
Qed.

(** ** The descendants of a package *)

Section update.
Context m (B P : gset uint256) (Hg : graph_ok m) (HP : P ⊆ dom m) (HPB : P ## B) (HB : forall h, h ∈ B -> anc_set m h ⊆ B).
Notation modified_set := (gmap uint256 CTxMemPoolModifiedEntry).

Definition all_tracked (R : gset uint256) (mods : modified_set) : Prop := forall h x, mods !! h = Some x -> tracked m (B ∪ P) R h x.

Lemma update_modified_loop R it e l : it ∈ R -> it ∈ P -> m !! it = Some e -> NoDup l -> (forall d, d ∈ l -> d = it \/ it ∈ anc_set m d /\ d ∈ dom m) ->
  forall mods, all_tracked (R ∖ {[it]}) mods -> (forall h x, h ∈ l -> mods !! h = Some x -> tracked m (B ∪ P) R h x) ->
  exists mods', for_each (update_modified m P e) l mods = Some mods' /\ all_tracked (R ∖ {[it]}) mods'.
Proof.
  intros HR HitP He Hn. induction Hn as [|d l Hd _ IH]; intros Hl mods Hall Htodo; cbn [for_each]; [eauto|].
  assert (Hl' : forall d, d ∈ l -> d = it \/ it ∈ anc_set m d /\ d ∈ dom m) by (intros z Hz; apply Hl; right; exact Hz).
  assert (Hstep : exists mods1, update_modified m P e d mods = Some mods1 /\ all_tracked (R ∖ {[it]}) mods1 /\ forall h, h <> d -> mods1 !! h = mods !! h).
  { unfold update_modified. destruct (decide (d ∈ P)) as [Hin|Hout]; [eauto|]. destruct (Hl d ltac:(left)) as [->|[Ha Hdom]]; [done|].
    assert (HdB : d ∉ B ∪ P). { intros Hc. apply elem_of_union in Hc as [Hc|Hc]; [|exact (Hout Hc)]. apply (HPB it HitP), (HB d Hc), Ha. }
    apply elem_of_dom in Hdom as [ed Hed]. assert (Hx : exists x, match mods !! d with Some x => Some x | None => e ← m !! d; Some (CTxMemPoolModifiedEntry_of e) end = Some x /\ tracked m (B ∪ P) R d x).
    { destruct (mods !! d) as [x|] eqn:Ex; [exists x; split; [done|]; apply Htodo; [left|exact Ex]|]. rewrite Hed. cbn [mbind option_bind].
      eexists. split; [done|]. apply tracked_new; [exact Hg|exact Hed|exact HdB]. }
    destruct Hx as (x & -> & Hx). cbn [mbind option_bind]. destruct (tracked_update m (B ∪ P) R d it e x Hg HR) as (x' & -> & Hx'); [apply elem_of_union_r, HitP|exact Ha|exact He|exact Hx|].
    cbn [mbind option_bind]. eexists. split; [done|]. split; [|intros h Hh; apply lookup_insert_ne; congruence].
    intros h y. destruct (decide (h = d)) as [->|Hne]; [rewrite lookup_insert_eq; intros [= <-]; exact Hx'|rewrite lookup_insert_ne by congruence; apply Hall]. }
  destruct Hstep as (mods1 & -> & Hall1 & Hsame). cbn [mbind option_bind]. apply (IH Hl' mods1 Hall1).
  intros h x Hh Hx. rewrite Hsame in Hx by (intros ->; exact (Hd Hh)). apply Htodo; [right; exact Hh|exact Hx].
Qed.

Lemma UpdatePackages_loop l : NoDup l -> list_to_set l ⊆ P -> forall mods, all_tracked (list_to_set l) mods ->
  exists mods', for_each (fun it mods => e ← m !! it; descendants ← CalculateDescendants m it ∅; for_each (update_modified m P e) (by_hash descendants) mods) l mods = Some mods' /\
    all_tracked ∅ mods'.
Proof.
  induction 1 as [|it l Hit _ IH]; intros Hl mods Hall; cbn [for_each]; [eauto|]. cbn [list_to_set] in Hl, Hall.
  assert (HitP : it ∈ P) by (apply Hl, elem_of_union_l, elem_of_singleton; done). pose proof (HP it HitP) as Hdom. pose proof Hdom as Hd. apply elem_of_dom in Hd as [e He].
  rewrite He. cbn [mbind option_bind]. rewrite (CalculateDescendants_spec m it ∅) by (try apply Hg; try exact Hdom; intros d Hd; apply elem_of_empty in Hd as []).
  cbn [mbind option_bind]. rewrite union_empty_l_L. assert (HR : (({[it]} ∪ list_to_set l) ∖ {[it]} : gset uint256) = list_to_set l).
  { apply set_eq. intros z. rewrite elem_of_difference, elem_of_union, elem_of_singleton, elem_of_list_to_set. split; [tauto|]. intros Hz. split; [tauto|]. intros ->. exact (Hit Hz). }
  destruct (update_modified_loop ({[it]} ∪ list_to_set l) it e (by_hash ({[it]} ∪ desc_set m it))) with (mods := mods) as (mods1 & E1 & Hall1).
  - apply elem_of_union_l, elem_of_singleton. done.
  - exact HitP.
  - exact He.
  - apply by_hash_NoDup.
  - intros d Hd. apply elem_of_by_hash, elem_of_union in Hd as [Hd|Hd]; [left; apply elem_of_singleton in Hd; exact Hd|right]. split; [|exact (desc_in_dom m it d Hd)].
    apply elem_of_desc in Hd; [|apply Hg]. apply elem_of_anc; [apply Hg|exact Hd].
  - intros h x Hx. apply tracked_less with ({[it]} ∪ list_to_set l); [intros z Hz; apply elem_of_difference in Hz as [Hz _]; exact Hz|apply Hall, Hx].
  - intros h x _ Hx. apply Hall, Hx.
  - rewrite E1. cbn [mbind option_bind]. rewrite HR in Hall1. apply IH; [set_solver|exact Hall1].
Qed.

Lemma UpdatePackagesForAdded_spec mods : all_tracked P mods -> exists mods', UpdatePackagesForAdded m P mods = Some mods' /\ all_tracked ∅ mods'.
Proof. intros Hall. apply UpdatePackages_loop; [apply by_hash_NoDup|rewrite set_of_by_hash; done|rewrite set_of_by_hash; exact Hall]. Qed.
End update.
End modified.

(** ** One turn *)

Section loop.
Context `{MempoolEnv} (p : CTxMemPool) (options : BlockAssemblerOptions) (height cutoff : Z).
Notation m := (mapTx p).

(** the model asks for some fee, whatever the size of the package *)
Definition fees_defined : Prop := forall h e size, m !! h = Some e -> 0 <= size < 2 ^ 31 -> is_Some (CalculateFee fee_model size (EntryValue e) (IsConsolidationTx (GetTx e))).

Context (Hok : pool_ok p) (Hw : weights_ok m) (Hfee : fees_defined) (Hopt : options_ok options).

(** the block holds the entries of [l] *)
Record assembled (l : list (uint256 * CTxMemPoolEntry)) (b : BlockAssembler) : Prop := {
  as_entries : entries_of m l;
  as_first : parents_precede l;
  as_counts : counts options l b;
  as_final h e : (h, e) ∈ l -> IsFinalTx (GetTx e) height cutoff = true;
  as_fits : l = [] \/ nBlockWeight b < nBlockMaxWeight options /\ nBlockSigOpsCost b < MAX_BLOCK_SIGOPS_COST;
}.
Record selecting (l : list (uint256 * CTxMemPoolEntry)) (s : Selection) : Prop := {
  se_block : assembled l (assembler s);
  se_modified h x : mapModifiedTx s !! h = Some x -> tracked m (keys l) ∅ h x;
  se_mi h : h ∈ mi s -> h ∈ dom m;
  se_length : (length (mi s) <= size m)%nat;
}.

(** packages left, then candidates left *)
Definition measure (l : list (uint256 * CTxMemPoolEntry)) (s : Selection) : nat :=
  ((size m - length l) * (2 * size m + 1) + (length (mi s) + size (mapModifiedTx s)))%nat.

Lemma modified_size l s : selecting l s -> (size (mapModifiedTx s) <= size m)%nat.
Proof.
  intros Hs. rewrite <- (size_dom (mapModifiedTx s)), <- (size_dom m). apply subseteq_size. intros h Hh. apply elem_of_dom in Hh as [x Hx]. apply (se_modified l s Hs h x Hx).
Qed.

Lemma best_modified_spec mods h e x : best_modified m mods = Some (h, e, x) -> mods !! h = Some x /\ m !! h = Some e.
Proof.
  unfold best_modified. intros Eh. apply head_Some_elem_of in Eh as Hin. rewrite sorted_by_perm in Hin.
  unfold modified_entries in Hin. apply list_elem_of_omap in Hin as ([k y] & Hk & Ek). cbn [fst snd] in Ek. destruct (m !! k) as [ek|] eqn:Em; [|done]. injection Ek as -> -> ->.
  split; [apply elem_of_map_to_list, Hk|exact Em].
Qed.

Lemma next_candidate_spec l s : selecting l s -> exists c, next_candidate m s = Some c /\
  match c with
  | None => True
  | Some (iter, Some x, rest) => mapModifiedTx s !! iter = Some x /\ rest = mi s
  | Some (iter, None, rest) => mi s = iter :: rest
  end.
Proof.
  intros Hs. unfold next_candidate. destruct (mi s) as [|it rest] eqn:Emi; destruct (best_modified m (mapModifiedTx s)) as [[[h e] x]|] eqn:Eb.
  - eexists. split; [done|]. cbn. split; [apply (best_modified_spec _ _ _ _ Eb)|done].
  - eexists. split; done.
  - assert (Hit : it ∈ dom m) by (apply (se_mi l s Hs); rewrite Emi; left). apply elem_of_dom in Hit as [eit ->]. cbn [mbind option_bind]. eexists. split; [done|].
    destruct (CompareTxMemPoolEntryByAncestorFee _ _); [split; [apply (best_modified_spec _ _ _ _ Eb)|done]|done].
  - eexists. split; done.
Qed.

(** a candidate that does not make it is used up *)
Lemma erase_failed_selecting l s iter (x : option CTxMemPoolModifiedEntry) rest failed : selecting l s ->
  match x with Some x => mapModifiedTx s !! iter = Some x /\ rest = mi s | None => mi s = iter :: rest end ->
  let s' := erase_failed iter (match x with Some _ => true | None => false end) rest failed s in selecting l s' /\ (measure l s' < measure l s)%nat.
Proof.
  intros [H1 H2 H3 H4] Hx. destruct x as [x|]; cbn.
  - destruct Hx as [Hx ->]. split; [split; cbn; try assumption|].
    + intros h y Hy. apply lookup_delete_Some in Hy as [_ Hy]. apply H2, Hy.
    + unfold measure. cbn. pose proof (map_size_delete_Some iter (mapModifiedTx s) (ex_intro _ x Hx)) as Hd. assert (size (mapModifiedTx s) <> 0)%nat; [|lia].
      intros H0. apply map_size_empty_inv in H0. rewrite H0, lookup_empty in Hx. done.
  - split; [split; cbn; try assumption|].
    + intros h Hh. apply H3. rewrite Hx. right. exact Hh.
    + rewrite Hx in H4. cbn in H4. lia.
    + unfold measure. cbn. rewrite Hx. cbn. lia.
Qed.

Lemma skip_stale_selecting l s it rest : selecting l s -> mi s = it :: rest -> selecting l (skip_stale s rest) /\ (measure l (skip_stale s rest) < measure l s)%nat.
Proof.
  intros [H1 H2 H3 H4] Hmi. split; [split; cbn; try assumption|].
  - intros h Hh. apply H3. rewrite Hmi. right. exact Hh.
  - rewrite Hmi in H4. cbn in H4. lia.
  - unfold measure. cbn. rewrite Hmi. cbn. lia.
Qed.

(** the totals a candidate is judged by *)
Lemma candidate_totals l s iter e (x : option CTxMemPoolModifiedEntry) rest : selecting l s -> m !! iter = Some e -> iter ∉ keys l ->
  match x with Some x => mapModifiedTx s !! iter = Some x /\ rest = mi s | None => mi s = iter :: rest end ->
  tracked m (keys l) ∅ iter (match x with Some x => x | None => CTxMemPoolModifiedEntry_of e end).
Proof.
  intros Hs He Hout Hx. destruct x as [x|]; [apply (se_modified l s Hs), Hx|]. apply tracked_new; [apply Hok|exact He|exact Hout].
Qed.

(** the package of an entry weighs at most what its totals say *)
Lemma package_totals l iter x : tracked m (keys l) ∅ iter x ->
  0 <= mod_nSizeWithAncestors x < 2 ^ 31 /\ 0 <= mod_nSigOpCostWithAncestors x < 2 ^ 31 /\
  set_sum (val m GetTxSize) ({[iter]} ∪ anc_set m iter ∖ keys l) <= mod_nSizeWithAncestors x /\
  set_sum (val m GetSigOpCost) ({[iter]} ∪ anc_set m iter ∖ keys l) <= mod_nSigOpCostWithAncestors x.
Proof.
  intros (Hd & Hb & D & H1 & H2 & _ & Hs & _ & Ho). pose proof (po_graph p Hok) as Hg. pose proof (up_in_dom m iter Hg Hd) as Hup.
  assert (HX : up m iter ∖ D ⊆ dom m) by (intros z Hz; apply elem_of_difference in Hz as [Hz _]; apply Hup, Hz). destruct (graph_bounds m _ Hg HX) as (G1 & G2 & G3 & _).
  assert (Hsub : {[iter]} ∪ anc_set m iter ∖ keys l ⊆ up m iter ∖ D).
  { intros z Hz. apply elem_of_difference. rewrite elem_of_up. apply elem_of_union in Hz as [Hz|Hz].
    - apply elem_of_singleton in Hz as ->. split; [left; done|]. intros Hc. apply Hb, H2, Hc.
    - apply elem_of_difference in Hz as [Hz Hl]. split; [right; exact Hz|]. intros Hc. apply Hl, H2, Hc. }
  rewrite Hs, Ho. split_and!; try lia; apply set_sum_mono; try exact Hsub; intros y Hy; apply HX, elem_of_dom in Hy as [e He]; rewrite (val_lookup m _ _ _ He); destruct (g_sizes m Hg y e He); lia.
Qed.

Lemma delete_all_lookup (k : list (uint256 * CTxMemPoolEntry)) h x : forall mods : gmap uint256 CTxMemPoolModifiedEntry,
  foldl (fun mm he => delete (he : uint256 * CTxMemPoolEntry).1 mm) mods k !! h = Some x -> mods !! h = Some x /\ h ∉ keys k.
Proof.
  induction k as [|[i e] k IH]; intros mods; cbn [foldl fst]; [intros Hx; split; [exact Hx|apply not_elem_of_empty]|].
  intros Hx. apply IH in Hx as [Hx Hk]. apply lookup_delete_Some in Hx as [Hne Hx]. split; [exact Hx|].
  unfold keys. cbn [map list_to_set fst]. rewrite elem_of_union, elem_of_singleton. fold (keys k). intros [->|Hc]; [exact (Hne eq_refl)|exact (Hk Hc)].
Qed.

Lemma TestPackage_spec l b size sigops : counts options l b -> entries_of m l -> 0 <= size < 2 ^ 31 -> 0 <= sigops < 2 ^ 31 -> TestPackage options b size sigops = true ->
  nBlockWeight b + WITNESS_SCALE_FACTOR * size < nBlockMaxWeight options /\ nBlockSigOpsCost b + sigops < MAX_BLOCK_SIGOPS_COST.
Proof.
  intros Hc Hl Hsz Hsg. destruct (entries_bounds p l Hok Hw Hl) as (B1 & B2 & B3 & _). destruct Hopt as (O1 & O2 & O3).
  pose proof (c_weight _ _ _ Hc) as Hcw. pose proof (c_sigops _ _ _ Hc) as Hcs. unfold TestPackage, MAX_BLOCK_WEIGHT, MAX_BLOCK_SIGOPS_COST, WITNESS_SCALE_FACTOR in *.
  rewrite !wrap_small by (unfold fits; lia). destruct (Z.geb_spec (nBlockWeight b + 4 * size) (nBlockMaxWeight options)); [done|].
  destruct (Z.geb_spec (nBlockSigOpsCost b + sigops) 80000); [done|]. lia.
Qed.

Lemma TestPackageTransactions_spec X : X ⊆ dom m -> exists r, TestPackageTransactions m X height cutoff = Some r /\
  (r = true -> forall h e, h ∈ X -> m !! h = Some e -> IsFinalTx (GetTx e) height cutoff = true).
Proof.
  intros HX. unfold TestPackageTransactions. destruct (mapM (fun h => m !! h) (by_hash X)) as [es|] eqn:E.
  - cbn [mbind option_bind]. eexists. split; [done|]. rewrite forallb_forall. intros Hall h e Hh He. apply mapM_Some in E. apply elem_of_by_hash, list_elem_of_lookup in Hh as [i Hi].
    destruct (Forall2_lookup_l _ _ _ _ _ E Hi) as (e' & He' & Heq). cbn in Heq. replace e with e' by congruence. apply Hall, list_elem_of_In, list_elem_of_lookup. eauto.
  - exfalso. apply eq_None_not_Some in E. apply E, mapM_is_Some, Forall_forall. intros h Hh. apply elem_of_by_hash in Hh. apply elem_of_dom, HX, Hh.
Qed.

(** a package that passes the tests *)
Lemma add_package_spec l s iter x rest fees : selecting l s -> iter ∉ keys l -> tracked m (keys l) ∅ iter x -> (forall h, h ∈ rest -> h ∈ dom m) -> (length rest <= size m)%nat ->
  TestPackage options (assembler s) (mod_nSizeWithAncestors x) (mod_nSigOpCostWithAncestors x) = true ->
  (forall h e, h ∈ {[iter]} ∪ anc_set m iter ∖ keys l -> m !! h = Some e -> IsFinalTx (GetTx e) height cutoff = true) ->
  exists s' k, add_package m ({[iter]} ∪ anc_set m iter ∖ keys l) fees (mod_nSizeWithAncestors x) rest s = Some s' /\ selecting (l ++ k) s' /\ (0 < length k)%nat /\ mi s' = rest.
Proof.
  intros Hs Hout Hx Hrest Hlen Htest Hfin. pose proof (po_graph p Hok) as Hg. destruct (se_block l s Hs) as [A1 A2 A3 A4 _]. assert (Hd : iter ∈ dom m) by apply Hx.
  destruct (package_totals l iter x Hx) as (Hsz & Hsg & Hsz' & Hsg'). destruct (TestPackage_spec l _ _ _ A3 A1 Hsz Hsg Htest) as [Tw Ts].
  destruct (package_precedes m l iter Hg A1 A2 Hd Hout) as (k & Ek & Hk1 & Hk2 & Hkeys). set (P := {[iter]} ∪ anc_set m iter ∖ keys l) in *.
  destruct (AddToBlock_loop p options k Hok Hw Hopt l (assembler s) Hk1 A3) as (b & Eb & Hb & _). unfold add_package. rewrite Ek. cbn [mbind option_bind]. rewrite Eb. cbn [mbind option_bind].
  assert (Hent : entries_of m k). { destruct Hk1 as [Hn Hp]. rewrite map_app in Hn. apply NoDup_app in Hn as (_ & _ & Hn). split; [exact Hn|]. intros h e Hin. apply Hp, elem_of_app. right. exact Hin. }
  assert (HPd : P ⊆ dom m) by (rewrite <- Hkeys; apply entries_keys, Hent). assert (HPl : P ## keys l).
  { intros z Hz Hz'. apply elem_of_union in Hz as [Hz|Hz]; [apply elem_of_singleton in Hz as ->; exact (Hout Hz')|]. apply elem_of_difference in Hz as [_ Hz]. exact (Hz Hz'). }
  destruct (UpdatePackagesForAdded_spec m (keys l) P Hg HPd HPl (fun h Hh => listed_ancestors m l h Hg A1 A2 Hh) (foldl (fun mm he => delete he.1 mm) (mapModifiedTx s) k)) as (mods & Em & Hmods).
  { intros h y Hy. apply delete_all_lookup in Hy as [Hy Hhk]. rewrite Hkeys in Hhk. destruct (se_modified l s Hs h y Hy) as (D1 & D2 & D & D3 & D4 & _ & D5).
    split; [exact D1|]. split; [intros Hc; apply elem_of_union in Hc as [Hc|Hc]; [exact (D2 Hc)|exact (Hhk Hc)]|]. exists D. split_and!; [exact D3| | |exact D5].
    - intros z Hz. apply elem_of_union_l, D4, Hz.
    - intros z Hz Hz'. exact (HPl z Hz' (D4 z Hz)). }
  rewrite Em. cbn [mbind option_bind]. eexists _, k. split; [done|].
  assert (Hkl : keys (l ++ k) = keys l ∪ P) by (unfold keys; rewrite map_app, list_to_set_app_L; fold (keys k); rewrite Hkeys; done). destruct (entries_bounds p k Hok Hw Hent) as (K1 & _).
  split; [split; cbn; [split| | |]|split; [|done]].
  - exact Hk1.
  - exact Hk2.
  - destruct Hb. split; assumption.
  - intros h e Hin. pose proof Hin as Hin'. apply elem_of_app in Hin' as [Hin'|Hin']; [apply (A4 h e Hin')|]. apply (Hfin h e); [rewrite <- Hkeys; apply elem_of_keys; eauto|apply Hent, Hin'].
  - right. cbn. rewrite (c_weight _ _ _ Hb), (c_sigops _ _ _ Hb), !zsum_app. rewrite (c_weight _ _ _ A3) in Tw. rewrite (c_sigops _ _ _ A3) in Ts.
    rewrite <- Hkeys, <- (entries_sum m _ k Hent) in Hsz'. rewrite <- Hkeys, <- (entries_sum m _ k Hent) in Hsg'. unfold WITNESS_SCALE_FACTOR in *. lia.
  - intros h y Hy. rewrite Hkl. apply Hmods, Hy.
  - exact Hrest.
  - exact Hlen.
  - destruct k; cbn; [|lia]. exfalso. assert (Hi : iter ∈ keys []) by (rewrite Hkeys; apply elem_of_union_l, elem_of_singleton; done). apply not_elem_of_empty in Hi as [].
Qed.

Lemma added_measure l k s s' : selecting l s -> selecting (l ++ k) s' -> (0 < length k)%nat -> (measure (l ++ k) s' < measure l s)%nat.
Proof.
  intros Hs Hs' Hk. pose proof (modified_size _ _ Hs') as Hm. pose proof (se_length _ _ Hs') as Hl. unfold measure. rewrite length_app.
  assert (Hle : (length (l ++ k) <= size m)%nat).
  { rewrite <- (length_map fst), <- (size_list_to_set (C := gset uint256) (map fst (l ++ k))), <- (size_dom m) by apply (as_entries _ _ (se_block _ _ Hs')). apply subseteq_size, entries_keys, (se_block _ _ Hs'). }
  rewrite length_app in Hle. replace (size m - length l)%nat with ((size m - (length l + length k)) + length k)%nat by lia. nia.
Qed.

Definition turned l (s : Selection) (r : option (Selection + Selection)) : Prop :=
  exists t, r = Some t /\ match t with inl s' => assembler s' = assembler s | inr s' => exists l', selecting l' s' /\ (measure l' s' < measure l s)%nat end.

Lemma turned_failed l s iter (x : option CTxMemPoolModifiedEntry) rest failed : selecting l s ->
  match x with Some x => mapModifiedTx s !! iter = Some x /\ rest = mi s | None => mi s = iter :: rest end ->
  turned l s (Some (inr (erase_failed iter (match x with Some _ => true | None => false end) rest failed s))).
Proof. intros Hs Hx. eexists. split; [done|]. exists l. exact (erase_failed_selecting l s iter x rest failed Hs Hx). Qed.

Lemma candidate_rest l s iter (x : option CTxMemPoolModifiedEntry) rest : selecting l s ->
  match x with Some x => mapModifiedTx s !! iter = Some x /\ rest = mi s | None => mi s = iter :: rest end ->
  iter ∈ dom m /\ (forall h, h ∈ rest -> h ∈ dom m) /\ (length rest <= size m)%nat.
Proof.
  intros [_ H2 H3 H4] Hx. destruct x as [x|].
  - destruct Hx as [Hx ->]. split; [apply (H2 iter x Hx)|]. split; [exact H3|exact H4].
  - rewrite Hx in H3, H4. cbn in H4. split_and!; [apply H3; left|intros h Hh; apply H3; right; exact Hh|lia].
Qed.

(** the turn from the candidate on *)
Lemma turn_candidate l s iter e (x : option CTxMemPoolModifiedEntry) rest : selecting l s -> m !! iter = Some e -> iter ∉ keys l ->
  match x with Some x => mapModifiedTx s !! iter = Some x /\ rest = mi s | None => mi s = iter :: rest end ->
  turned l s (evaluate_package options p height cutoff s iter x rest e).
Proof.
  intros Hs He Hout Hx. pose proof (po_graph p Hok) as Hg. pose proof (candidate_totals l s iter e x rest Hs He Hout Hx) as Htr. destruct (candidate_rest l s iter x rest Hs Hx) as (Hd & Hr1 & Hr2).
  pose proof (fun failed => turned_failed l s iter x rest failed Hs Hx) as Hfail. unfold evaluate_package. cbv zeta. set (um := match x with Some _ => true | None => false end) in *. set (y := match x with Some x => x | None => CTxMemPoolModifiedEntry_of e end) in *.
  destruct (package_totals l iter y Htr) as (Hsz & _). rewrite swrap_small by (unfold sfits; lia). destruct (Hfee iter e _ He Hsz) as [f ->]. cbn [mbind option_bind].
  destruct (mod_nModFeesWithAncestors y <? f); [eexists; split; done|].
  destruct (TestPackage options (assembler s) (mod_nSizeWithAncestors y) (mod_nSigOpCostWithAncestors y)) eqn:Et; cbn [negb].
  2:{ destruct (_ && _); [eexists; split; done|apply Hfail]. }
  rewrite (AssumeCalculateMemPoolAncestors_spec p iter e (g_links m Hg) He (graph_roomy m iter e Hg He)). cbn [mbind option_bind].
  unfold onlyUnconfirmed. rewrite (c_block _ _ _ (as_counts _ _ (se_block l s Hs))).
  destruct (TestPackageTransactions_spec ({[iter]} ∪ anc_set m iter ∖ keys l)) as (final & -> & Hfin).
  { pose proof (anc_in_dom m iter (g_links m Hg)) as Ha. intros z Hz. apply elem_of_union in Hz as [Hz|Hz]; [apply elem_of_singleton in Hz as ->; exact Hd|]. apply elem_of_difference in Hz as [Hz _]. apply Ha, Hz. }
  cbn [mbind option_bind]. destruct final; cbn [negb]; [|apply Hfail].
  destruct (add_package_spec l s iter y rest (mod_nModFeesWithAncestors y) Hs Hout Htr Hr1 Hr2 Et (Hfin eq_refl)) as (s' & k & -> & Hs' & Hk & _). cbn [mbind option_bind].
  eexists. split; [done|]. exists (l ++ k). split; [exact Hs'|apply (added_measure l k s s' Hs Hs' Hk)].
Qed.

Lemma evaluate_next_spec l s : selecting l s -> (forall it rest, mi s = it :: rest -> is_stale s it = false) -> turned l s (evaluate_next options p height cutoff s).
Proof.
  intros Hs Hst. unfold evaluate_next. destruct (next_candidate_spec l s Hs) as (c & -> & Hc). cbn [mbind option_bind]. destruct c as [[[iter x] rest]|]; [|eexists; split; done].
  assert (Hx : match x with Some x => mapModifiedTx s !! iter = Some x /\ rest = mi s | None => mi s = iter :: rest end) by (destruct x; exact Hc).
  destruct (candidate_rest l s iter x rest Hs Hx) as (Hd & _). apply elem_of_dom in Hd as [e He]. rewrite He. cbn [mbind option_bind].
  assert (Hout : iter ∉ keys l).
  { destruct x as [x|]; [apply (se_modified l s Hs iter x (proj1 Hx))|]. specialize (Hst iter rest Hx). unfold is_stale in Hst. apply orb_false_iff in Hst as [Hst _]. apply orb_false_iff in Hst as [_ Hst].
    apply bool_decide_eq_false in Hst. rewrite (c_block _ _ _ (as_counts _ _ (se_block l s Hs))) in Hst. exact Hst. }
  rewrite decide_False by (rewrite (c_block _ _ _ (as_counts _ _ (se_block l s Hs))); exact Hout). apply (turn_candidate l s iter e x rest Hs He Hout Hx).
Qed.

Lemma package_turn_spec l s : selecting l s -> turned l s (package_turn options p height cutoff s).
Proof.
  intros Hs. unfold package_turn. destruct (mi s) as [|it rest] eqn:Emi; [apply (evaluate_next_spec l s Hs); intros it rest; rewrite Emi; discriminate|]. destruct (is_stale s it) eqn:Est.
  - eexists. split; [done|]. exists l. apply (skip_stale_selecting l s it rest Hs Emi).
  - apply (evaluate_next_spec l s Hs). intros it' rest'. rewrite Emi. intros [= <- <-]. exact Est.
Qed.

(** the loop ends, with a block of entries of the pool *)
Lemma package_loop_spec fuel : forall l s, selecting l s -> (measure l s < fuel)%nat -> exists b l', package_loop fuel options p height cutoff s = Some b /\ assembled l' b.
Proof.
  induction fuel as [|fuel IH]; intros l s Hs Hm; [lia|]. cbn [package_loop]. destruct (package_turn_spec l s Hs) as (t & -> & Ht). cbn [mbind option_bind]. destruct t as [s'|s'].
  - exists (assembler s'), l. split; [done|]. rewrite Ht. apply Hs.
  - destruct Ht as (l' & Hs' & Hlt). apply (IH l' s' Hs'). lia.
Qed.

Lemma elem_of_by_ancestor_fee h : h ∈ by_ancestor_fee m <-> h ∈ dom m.
Proof.
  unfold by_ancestor_fee. rewrite list_elem_of_fmap. split.
  - intros ([k e] & -> & Hin). rewrite sorted_by_perm in Hin. apply elem_of_map_to_list in Hin. apply elem_of_dom. eauto.
  - intros Hd. apply elem_of_dom in Hd as [e He]. exists (h, e). split; [done|]. rewrite sorted_by_perm. apply elem_of_map_to_list, He.
Qed.
Lemma by_ancestor_fee_length : length (by_ancestor_fee m) = size m.
Proof. unfold by_ancestor_fee. rewrite length_map, sorted_by_perm, length_map_to_list. done. Qed.

Lemma assembled_reset : assembled [] (resetBlock options).
Proof.
  split; [split; [constructor|intros h e Hin; inversion Hin]| | | |left; done].
  - intros i h e q Hi. done.
  - split; cbn; try done; lia.
  - intros h e Hin. inversion Hin.
Qed.

Lemma selecting_start : selecting [] {| assembler := resetBlock options; mapModifiedTx := ∅; failedTx := ∅; mi := by_ancestor_fee m; nConsecutiveFailed := 0 |}.
Proof.
  split; cbn; [apply assembled_reset|intros h x Hx; rewrite lookup_empty in Hx; done|intros h; apply elem_of_by_ancestor_fee|rewrite by_ancestor_fee_length; done].
Qed.

Lemma addPackageTxs_spec : exists b l, addPackageTxs options p height cutoff (resetBlock options) = Some b /\ assembled l b.
Proof.
  unfold addPackageTxs. eapply (package_loop_spec _ []); [apply selecting_start|].
  unfold measure, package_fuel. cbn. rewrite by_ancestor_fee_length, map_size_empty. nia.
Qed.
End loop.
