(* ===== verification/MinerComplete.v ===== *)
(** * When the block takes the whole pool

    As long as no candidate is refused, the modified entries of [addPackageTxs] (Miner.v) carry
    exactly the totals of what is missing from the block; so a pool in which every package pays
    what the model asks, which fits in the block and is final, is taken as a whole. *)

From Stdlib Require Import ZArith Lia Bool.
From stdpp Require Import base numbers list gmap fin_sets sorting relations.
From S2P Require Import Prelude Uint256 Binary64 Params FeeModel Serialize Primitives TxVerify Coins MempoolEntry TxMempool PoolGraph PoolInvariant PoolBooks PoolRemoval PoolAdd PoolOps PoolUpkeep Miner MinerSelect MinerLoop.
Local Open Scope Z_scope.

Section exact.
Context `{MempoolEnv}.
Implicit Type m : txmap.
Notation modified_set := (gmap uint256 CTxMemPoolModifiedEntry).

(** the totals an entry is judged by *)
Definition current (mods : modified_set) (h : uint256) (e : CTxMemPoolEntry) : CTxMemPoolModifiedEntry := default (CTxMemPoolModifiedEntry_of e) (mods !! h).

(** they leave out the block, but for [R] *)
Definition exact_totals m (B R : gset uint256) (mods : modified_set) h e : Prop := totals_over m (up m h ∖ (B ∖ R)) (current mods h e).
Definition exact m (B R : gset uint256) (mods : modified_set) : Prop := forall h e, m !! h = Some e -> h ∉ B -> exact_totals m B R mods h e.

Lemma totals_over_ext m X Y x : X = Y -> totals_over m X x -> totals_over m Y x.
Proof. intros ->. done. Qed.

Lemma exact_empty m : graph_ok m -> exact m ∅ ∅ ∅.
Proof.
  intros Hg h e He _. destruct (tracked_new m ∅ ∅ h e Hg He) as (_ & _ & D & _ & HD & _ & Ht); [apply not_elem_of_empty|].
  unfold exact_totals, current. rewrite lookup_empty. cbn [default id from_option]. revert Ht. apply totals_over_ext. set_solver.
Qed.

Lemma delete_all_other (k : list (uint256 * CTxMemPoolEntry)) h : h ∉ keys k -> forall mods : modified_set,
  foldl (fun mm he => delete (he : uint256 * CTxMemPoolEntry).1 mm) mods k !! h = mods !! h.
Proof.
  induction k as [|[i e] k IH]; intros Hh mods; cbn [foldl fst]; [done|]. unfold keys in Hh. cbn [map list_to_set fst] in Hh. rewrite elem_of_union, elem_of_singleton in Hh. fold (keys k) in Hh.
  rewrite IH by tauto. apply lookup_delete_ne. intros ->. tauto.
Qed.

Lemma update_modified_dom m P e d mods mods' : update_modified m P e d mods = Some mods' -> dom mods ⊆ dom mods'.
Proof.
  unfold update_modified. destruct (decide (d ∈ P)); [intros [= <-]; done|]. destruct (match mods !! d with Some x => Some x | None => _ end) as [x|]; [|done]. cbn [mbind option_bind].
  destruct (update_for_parent_inclusion e x); [|done]. cbn [mbind option_bind]. intros [= <-]. rewrite dom_insert. apply union_subseteq_r.
Qed.

Lemma UpdatePackages_dom m P mods mods' : UpdatePackagesForAdded m P mods = Some mods' -> dom mods ⊆ dom mods'.
Proof.
  intros E. revert E. refine (fun E => for_each_inv (fun k => dom mods ⊆ dom k) _ _ _ _ _ E (reflexivity _)). intros it k k' _. cbn beta. destruct (m !! it) as [e|]; [|done]. cbn [mbind option_bind].
  destruct (CalculateDescendants m it ∅) as [D|]; [|done]. cbn [mbind option_bind]. intros Ek. revert Ek. apply (for_each_inv (fun k => dom mods ⊆ dom k)).
  intros d j j' _ Ej Hj. apply update_modified_dom in Ej. etransitivity; [exact Hj|exact Ej].
Qed.

Section update.
Context m (B P : gset uint256) (Hg : graph_ok m) (HP : P ⊆ dom m).

(** one descendant *)
Lemma update_modified_exact R it e d mods mods' : it ∈ R -> R ⊆ B -> P ⊆ B -> m !! it = Some e -> (d ∈ P \/ it ∈ anc_set m d) -> update_modified m P e d mods = Some mods' ->
  (forall eh, m !! d = Some eh -> d ∉ B -> exact_totals m B R mods d eh) ->
  (forall eh, m !! d = Some eh -> d ∉ B -> exact_totals m B (R ∖ {[it]}) mods' d eh) /\ forall h eh, h <> d -> current mods' h eh = current mods h eh.
Proof.
  intros HR HRB HPB He Hd E Hex. unfold update_modified in E. destruct (decide (d ∈ P)) as [Hin|Hout].
  { injection E as <-. split; [intros eh _ Hb; destruct (Hb (HPB d Hin))|done]. }
  destruct Hd as [Hd|Ha]; [done|]. destruct (match mods !! d with Some x => Some x | None => _ end) as [x|] eqn:Ex; [|done]. cbn [mbind option_bind] in E.
  destruct (update_for_parent_inclusion e x) as [x'|] eqn:Ex'; [|done]. injection E as <-. split.
  2:{ intros h eh Hh. unfold current. rewrite lookup_insert_ne by congruence. done. }
  intros eh Heh Hb. specialize (Hex eh Heh Hb). unfold exact_totals, current in *. rewrite lookup_insert_eq. cbn [default id from_option].
  replace (default (CTxMemPoolModifiedEntry_of eh) (mods !! d)) with x in Hex.
  2:{ destruct (mods !! d); [cbn; congruence|]. rewrite Heh in Ex. cbn [mbind option_bind] in Ex. cbn. congruence. }
  assert (Hd : d ∈ dom m) by (apply elem_of_dom; eauto). pose proof (up_in_dom m d Hg Hd) as Hup. assert (Hit : it ∈ up m d ∖ (B ∖ R)) by (apply elem_of_difference; rewrite elem_of_up; set_solver).
  destruct (update_for_parent_inclusion_spec m (up m d ∖ (B ∖ R)) it e x Hg) as (y & Ey & Hy); [set_solver|exact Hit|exact He|exact Hex|].
  replace x' with y by congruence. revert Hy. apply totals_over_ext. generalize (up m d). intros U. apply set_eq. intros z. destruct (decide (z = it)) as [->|Hz]; set_solver.
Qed.

Lemma update_loop_exact R it e l : it ∈ R -> R ⊆ B -> P ⊆ B -> m !! it = Some e -> NoDup l -> (forall d, d ∈ l -> d ∈ P \/ it ∈ anc_set m d) ->
  forall mods mods', for_each (update_modified m P e) l mods = Some mods' ->
  (forall h eh, m !! h = Some eh -> h ∉ B -> exact_totals m B (if decide (h ∈ l) then R else R ∖ {[it]}) mods h eh) -> exact m B (R ∖ {[it]}) mods'.
Proof.
  intros HR HRB HPB He Hn. induction Hn as [|d l Hd _ IH]; intros Hl mods mods'; cbn [for_each].
  - intros [= <-] Hex h eh Heh Hb. specialize (Hex h eh Heh Hb). rewrite decide_False in Hex by (intros Hc; inversion Hc). exact Hex.
  - destruct (update_modified m P e d mods) as [mods1|] eqn:E1; [|done]. cbn [mbind option_bind]. intros E Hex.
    destruct (update_modified_exact R it e d mods mods1 HR HRB HPB He (Hl d ltac:(left)) E1) as [H1 H2].
    { intros eh Heh Hb. specialize (Hex d eh Heh Hb). rewrite decide_True in Hex by left. exact Hex. }
    apply (IH ltac:(intros z Hz; apply Hl; right; exact Hz) mods1 mods' E). intros h eh Heh Hb. destruct (decide (h = d)) as [->|Hne].
    + rewrite decide_False by exact Hd. apply H1; assumption.
    + specialize (Hex h eh Heh Hb). unfold exact_totals in *. rewrite H2 by exact Hne. destruct (decide (h ∈ l)) as [Hh|Hh].
      * rewrite decide_True in Hex by (right; exact Hh). exact Hex.
      * rewrite decide_False in Hex by (intros Hc; apply elem_of_cons in Hc as [?|?]; [exact (Hne H0)|exact (Hh H0)]). exact Hex.
Qed.

Lemma UpdatePackages_exact mods mods' : P ⊆ B -> UpdatePackagesForAdded m P mods = Some mods' -> exact m B P mods -> exact m B ∅ mods'.
Proof.
  intros HPB E Hex. assert (Hex' : exact m B (list_to_set (by_hash P)) mods) by (rewrite set_of_by_hash; exact Hex). clear Hex. revert E Hex'. unfold UpdatePackagesForAdded. assert (Hl : forall it, it ∈ by_hash P -> it ∈ P) by (intros it; apply elem_of_by_hash). revert mods Hl.
  generalize (by_hash_NoDup P). generalize (by_hash P). intros l Hn. induction Hn as [|it l Hit _ IH]; intros mods Hl; cbn [for_each].
  { intros [= <-]. done. }
  assert (HitP : it ∈ P) by (apply Hl; left). pose proof (HP it HitP) as Hdom. pose proof Hdom as Hd. apply elem_of_dom in Hd as [e He]. rewrite He. cbn [mbind option_bind].
  rewrite (CalculateDescendants_spec m it ∅) by (try apply Hg; try exact Hdom; intros d Hd; apply elem_of_empty in Hd as []). cbn [mbind option_bind]. rewrite union_empty_l_L.
  destruct (for_each _ (by_hash ({[it]} ∪ desc_set m it)) mods) as [mods1|] eqn:E1; [|done]. cbn [mbind option_bind]. intros E Hex. apply (IH mods1 ltac:(intros z Hz; apply Hl; right; exact Hz) E).
  assert (HR : list_to_set l = (({[it]} ∪ list_to_set l) ∖ {[it]} : gset uint256)).
  { apply set_eq. intros z. rewrite elem_of_difference, elem_of_union, elem_of_singleton, elem_of_list_to_set. split; [|tauto]. intros Hz. split; [tauto|]. intros ->. exact (Hit Hz). }
  rewrite HR. cbn [list_to_set] in Hex. set (R := {[it]} ∪ list_to_set l) in *. assert (HRP : R ⊆ P).
  { intros z Hz. apply elem_of_union in Hz as [Hz|Hz]; [apply elem_of_singleton in Hz as ->; exact HitP|]. apply elem_of_list_to_set in Hz. apply Hl. right. exact Hz. }
  apply (update_loop_exact R it e (by_hash ({[it]} ∪ desc_set m it))) with (mods := mods); [apply elem_of_union_l, elem_of_singleton; done|set_solver|exact HPB|exact He|apply by_hash_NoDup| |exact E1|].
  - intros d Hd. apply elem_of_by_hash, elem_of_union in Hd as [Hd|Hd]; [apply elem_of_singleton in Hd as ->; left; exact HitP|right].
    apply elem_of_desc in Hd; [|apply Hg]. apply elem_of_anc; [apply Hg|exact Hd].
  - intros h eh Heh Hb. pose proof (Hex h eh Heh Hb) as Hh. destruct (decide (h ∈ by_hash _)) as [Hin|Hout]; [exact Hh|]. revert Hh. apply totals_over_ext.
    assert (Hno : it ∉ up m h).
    { intros Hc. apply Hout, elem_of_by_hash. apply elem_of_up in Hc as [->|Hc]; [apply elem_of_union_l, elem_of_singleton; done|].
      apply elem_of_union_r, elem_of_desc; [apply Hg|]. apply elem_of_anc in Hc; [exact Hc|apply Hg]. }
    revert Hno. generalize (up m h). intros U Hno. apply set_eq. intros z. destruct (decide (z = it)) as [->|Hz]; set_solver.
Qed.
End update.
End exact.

(** ** A pool that pays and fits *)

Section complete.
Context `{MempoolEnv} (p : CTxMemPool) (options : BlockAssemblerOptions) (height cutoff : Z).
Notation m := (mapTx p).

(** every package pays what the model asks, all fits in a block and is final *)
Record abundant : Prop := {
  ab_pays h e D f : m !! h = Some e -> D ⊆ anc_set m h ->
    CalculateFee fee_model (set_sum (val m GetTxSize) (up m h ∖ D)) (EntryValue e) (IsConsolidationTx (GetTx e)) = Some f -> f <= set_sum (val m m_modified_fee) (up m h ∖ D);
  ab_weight : block_reserved_weight options + WITNESS_SCALE_FACTOR * pool_sum m GetTxSize < nBlockMaxWeight options;
  ab_sigops : coinbase_output_max_additional_sigops options + pool_sum m GetSigOpCost < MAX_BLOCK_SIGOPS_COST;
  ab_final h e : m !! h = Some e -> IsFinalTx (GetTx e) height cutoff = true;
}.

Context (Hok : pool_ok p) (Hw : weights_ok m) (Hfee : fees_defined p) (Hopt : options_ok options) (Hab : abundant).
Let Hg : graph_ok m := po_graph p Hok.

(** nothing was refused, the totals are exact, and what is not in the block is still to come *)
Record complete (s : Selection) : Prop := {
  co_failed : failedTx s = ∅;
  co_exact : exact m (inBlock (assembler s)) ∅ (mapModifiedTx s);
  co_left h : h ∈ dom m -> h ∈ inBlock (assembler s) \/ h ∈ mi s \/ h ∈ dom (mapModifiedTx s);
}.

Lemma TestPackage_room l b X size sigops : counts options l b -> entries_of m l -> X ⊆ dom m -> X ## keys l -> size = set_sum (val m GetTxSize) X -> sigops = set_sum (val m GetSigOpCost) X ->
  TestPackage options b size sigops = true.
Proof.
  intros Hc Hl HX Hd -> ->. destruct (entries_bounds p l Hok Hw Hl) as (B1 & B2 & B3 & _). destruct (graph_bounds m X Hg HX) as (G1 & G2 & G3 & _). pose proof (entries_keys m l Hl) as Hk.
  assert (Hsum : forall f, (forall h e, m !! h = Some e -> 0 <= f e) -> set_sum (val m f) X + set_sum (val m f) (keys l) <= pool_sum m f).
  { intros f Hf. rewrite <- set_sum_union by exact Hd. apply set_sum_mono; [intros z Hz; apply elem_of_union in Hz as [Hz|Hz]; [apply HX, Hz|apply Hk, Hz]|].
    intros y Hy. apply elem_of_dom in Hy as [e He]. rewrite (val_lookup m _ _ _ He). apply (Hf y e He). }
  pose proof (Hsum GetTxSize (fun h e He => Z.lt_le_incl _ _ (proj1 (g_sizes m Hg h e He)))) as S1. pose proof (Hsum GetSigOpCost (fun h e He => proj2 (g_sizes m Hg h e He))) as S2.
  pose proof (c_weight _ _ _ Hc) as Hcw. pose proof (c_sigops _ _ _ Hc) as Hcs. pose proof (ab_weight Hab). pose proof (ab_sigops Hab). destruct Hopt as (O1 & O2 & O3).
  rewrite (entries_sum m GetTxSize l Hl) in B1. rewrite (entries_sum m GetSigOpCost l Hl) in Hcs, B3. unfold TestPackage, MAX_BLOCK_WEIGHT, MAX_BLOCK_SIGOPS_COST, WITNESS_SCALE_FACTOR in *.
  rewrite !wrap_small by (unfold fits; lia). destruct (Z.geb_spec (nBlockWeight b + 4 * set_sum (val m GetTxSize) X) (nBlockMaxWeight options)); [lia|].
  destruct (Z.geb_spec (nBlockSigOpsCost b + set_sum (val m GetSigOpCost) X) 80000); [lia|]. done.
Qed.

(** after a package *)
Lemma add_package_complete l s iter rest fees size s' : selecting p options height cutoff l s -> complete s -> iter ∈ dom m -> iter ∉ keys l ->
  (forall h, h ∈ mi s -> h = iter \/ h ∈ rest) ->
  add_package m ({[iter]} ∪ anc_set m iter ∖ keys l) fees size rest s = Some s' -> complete s'.
Proof.
  intros Hs [C1 C2 C3] Hd Hout Hrest E. destruct (se_block _ _ _ _ _ _ Hs) as [A1 A2 A3 _ _].
  destruct (package_precedes m l iter Hg A1 A2 Hd Hout) as (k & Ek & Hk1 & _ & Hkeys). set (P := {[iter]} ∪ anc_set m iter ∖ keys l) in *. rewrite (c_block _ _ _ A3) in C2, C3.
  destruct (AddToBlock_loop p options k Hok Hw Hopt l (assembler s) Hk1 A3) as (b & Eb & Hb & _). unfold add_package in E. rewrite Ek in E. cbn [mbind option_bind] in E. rewrite Eb in E. cbn [mbind option_bind] in E.
  set (mods := foldl _ (mapModifiedTx s) k) in E. destruct (UpdatePackagesForAdded m P mods) as [mods'|] eqn:Em; [|done]. injection E as <-.
  assert (HPd : P ⊆ dom m) by (intros z Hz; rewrite <- Hkeys in Hz; apply (entries_keys m (l ++ k) Hk1); unfold keys; rewrite map_app, list_to_set_app_L; apply elem_of_union_r, Hz).
  assert (HPl : P ## keys l).
  { intros z Hz Hz'. apply elem_of_union in Hz as [Hz|Hz]; [apply elem_of_singleton in Hz as ->; exact (Hout Hz')|]. apply elem_of_difference in Hz as [_ Hz]. exact (Hz Hz'). }
  assert (Hkl : inBlock b = keys l ∪ P) by (rewrite (c_block _ _ _ Hb); unfold keys; rewrite map_app, list_to_set_app_L; fold (keys k); rewrite Hkeys; done).
  assert (Hmods : forall h, h ∉ P -> mods !! h = mapModifiedTx s !! h).
  { intros h Hh. unfold mods. rewrite <- Hkeys in Hh. apply delete_all_other, Hh. }
  split; cbn; [exact C1| |].
  - rewrite Hkl. apply (UpdatePackages_exact m (keys l ∪ P) P Hg HPd mods mods' ltac:(apply union_subseteq_r) Em). intros h e He Hb'. rewrite elem_of_union in Hb'.
    assert (Hhl : h ∉ keys l) by tauto. assert (HhP : h ∉ P) by tauto. pose proof (C2 h e He Hhl) as Hx. unfold exact_totals, current in *. rewrite (Hmods h HhP). revert Hx. apply totals_over_ext.
    revert HPl. clear. generalize (up m h). intros U HPl. apply set_eq. intros z. set_solver.
  - intros h Hh. rewrite Hkl, elem_of_union. destruct (decide (h ∈ P)) as [HhP|HhP]; [tauto|]. destruct (C3 h Hh) as [Hc|[Hc|Hc]]; [tauto| |].
    + destruct (Hrest h Hc) as [->|Hc']; [|tauto]. destruct HhP. apply elem_of_union_l, elem_of_singleton. done.
    + right. right. apply (UpdatePackages_dom m P mods mods' Em). apply elem_of_dom. rewrite (Hmods h HhP). apply elem_of_dom, Hc.
Qed.

Definition progress (t : Selection + Selection) : Prop := match t with inl s' => dom m ⊆ inBlock (assembler s') | inr s' => complete s' end.

Lemma evaluate_package_complete l s iter x rest e t : selecting p options height cutoff l s -> complete s -> m !! iter = Some e -> iter ∉ keys l ->
  match x with Some x => x | None => CTxMemPoolModifiedEntry_of e end = current (mapModifiedTx s) iter e -> (forall h, h ∈ mi s -> h = iter \/ h ∈ rest) ->
  evaluate_package options p height cutoff s iter x rest e = Some t -> progress t.
Proof.
  intros Hs Hc He Hout Hx Hrest. assert (Hd : iter ∈ dom m) by (apply elem_of_dom; eauto). pose proof (c_block _ _ _ (as_counts _ _ _ _ _ _ (se_block _ _ _ _ _ _ Hs))) as Hbl.
  pose proof (co_exact s Hc iter e He) as Hex. rewrite Hbl in Hex. specialize (Hex Hout). unfold exact_totals in Hex. rewrite difference_empty_L in Hex.
  unfold evaluate_package. cbv zeta. rewrite Hx. set (y := current (mapModifiedTx s) iter e) in *. destruct Hex as (Hsz & Hfs & Hsg). pose proof (up_in_dom m iter Hg Hd) as Hup.
  assert (HX : up m iter ∖ keys l ⊆ dom m) by (intros z Hz; apply elem_of_difference in Hz as [Hz _]; apply Hup, Hz). destruct (graph_bounds m _ Hg HX) as (G1 & G2 & _).
  rewrite swrap_small by (rewrite ?Hsz; unfold sfits; lia). destruct (Hfee iter e (mod_nSizeWithAncestors y) He ltac:(lia)) as [f Ef]. rewrite Ef. cbn [mbind option_bind].
  assert (Hpay : f <= mod_nModFeesWithAncestors y).
  { assert (HD : up m iter ∖ (anc_set m iter ∩ keys l) = up m iter ∖ keys l).
    { apply set_eq. intros z. rewrite !elem_of_difference, elem_of_intersection, elem_of_up. split; [|tauto]. intros [[->|Hz] Hn]; tauto. }
    rewrite Hfs, <- HD. apply (ab_pays Hab iter e (anc_set m iter ∩ keys l) f He); [set_solver +|]. rewrite HD, <- Hsz. exact Ef. }
  destruct (Z.ltb_spec (mod_nModFeesWithAncestors y) f); [lia|].
  rewrite (TestPackage_room l (assembler s) (up m iter ∖ keys l) _ _ (as_counts _ _ _ _ _ _ (se_block _ _ _ _ _ _ Hs)) (as_entries _ _ _ _ _ _ (se_block _ _ _ _ _ _ Hs)) HX ltac:(set_solver +) Hsz Hsg). cbn [negb].
  rewrite (AssumeCalculateMemPoolAncestors_spec p iter e (g_links m Hg) He (graph_roomy m iter e Hg He)). cbn [mbind option_bind]. unfold onlyUnconfirmed. rewrite Hbl.
  destruct (TestPackageTransactions m _ height cutoff) as [final|] eqn:Efin; [|done]. cbn [mbind option_bind]. assert (Hfin : final = true).
  { unfold TestPackageTransactions in Efin. destruct (mapM _ _) as [es|] eqn:Ees; [|done]. injection Efin as <-. apply forallb_forall. intros x' Hin. apply mapM_Some in Ees.
    apply list_elem_of_In, list_elem_of_lookup in Hin as [i Hi]. destruct (Forall2_lookup_r _ _ _ _ _ Ees Hi) as (h & _ & Hh). apply (ab_final Hab h x' Hh). }
  rewrite Hfin. cbn [negb]. destruct (add_package m _ _ _ rest s) as [s'|] eqn:Ea; [|done]. intros [= <-]. exact (add_package_complete l s iter rest _ _ s' Hs Hc Hd Hout Hrest Ea).
Qed.

Lemma no_candidate_left l s : selecting p options height cutoff l s -> mi s = [] -> best_modified m (mapModifiedTx s) = None -> dom (mapModifiedTx s) = ∅.
Proof.
  intros Hs Hmi Hb. apply elem_of_equiv_empty_L. intros h Hh. apply elem_of_dom in Hh as [x Hx]. assert (Hd : h ∈ dom m) by apply (se_modified _ _ _ _ _ _ Hs h x Hx). apply elem_of_dom in Hd as [e He].
  assert (Hin : (h, e, x) ∈ modified_entries m (mapModifiedTx s)).
  { unfold modified_entries. apply list_elem_of_omap. exists (h, x). split; [apply elem_of_map_to_list, Hx|]. cbn [fst snd]. rewrite He. done. }
  unfold best_modified in Hb. destruct (sorted_by _ (modified_entries m (mapModifiedTx s))) as [|y k] eqn:Es; [|done].
  pose proof (sorted_by_perm (fun a b : uint256 * CTxMemPoolEntry * CTxMemPoolModifiedEntry => CompareTxMemPoolEntryByAncestorFee (a.1.2, i64 (mod_nSizeWithAncestors a.2)) (b.1.2, i64 (mod_nSizeWithAncestors b.2))) (modified_entries m (mapModifiedTx s))) as Hp.
  rewrite Es in Hp. apply Permutation_nil in Hp. rewrite Hp in Hin. inversion Hin.
Qed.

Lemma evaluate_next_complete l s t : selecting p options height cutoff l s -> complete s -> (forall it rest, mi s = it :: rest -> is_stale s it = false) ->
  evaluate_next options p height cutoff s = Some t -> progress t.
Proof.
  intros Hs Hc Hst. unfold evaluate_next. pose proof (c_block _ _ _ (as_counts _ _ _ _ _ _ (se_block _ _ _ _ _ _ Hs))) as Hbl.
  destruct (next_candidate_spec _ _ _ _ l s Hs) as (c & Ec & Hcand). rewrite Ec. cbn [mbind option_bind]. destruct c as [[[iter x] rest]|].
  - destruct (m !! iter) as [e|] eqn:He; [|done]. cbn [mbind option_bind]. destruct (decide (iter ∈ inBlock (assembler s))) as [|Hout]; [done|]. rewrite Hbl in Hout.
    apply (evaluate_package_complete l s iter x rest e t Hs Hc He Hout).
    + unfold current. destruct x as [x|]; [rewrite (proj1 Hcand); done|]. specialize (Hst iter rest Hcand). unfold is_stale in Hst. apply orb_false_iff in Hst as [Hst _]. apply orb_false_iff in Hst as [Hst _].
      apply bool_decide_eq_false, not_elem_of_dom in Hst. rewrite Hst. done.
    + intros h Hh. destruct x as [x|]; [right; rewrite (proj2 Hcand); exact Hh|]. rewrite Hcand in Hh. apply elem_of_cons in Hh as [->|Hh]; auto.
  - intros [= <-]. intros h Hh. unfold next_candidate in Ec. destruct (mi s) as [|it rest] eqn:Emi.
    + destruct (best_modified m (mapModifiedTx s)) as [[[h' e'] x']|] eqn:Eb; [done|]. destruct (co_left s Hc h Hh) as [Hb|[Hm|Hm]]; [exact Hb| |].
      * rewrite Emi in Hm. inversion Hm.
      * rewrite (no_candidate_left l s Hs Emi Eb) in Hm. apply not_elem_of_empty in Hm as [].
    + destruct (best_modified m (mapModifiedTx s)) as [[[h' e'] x']|]; [|done]. destruct (m !! it); done.
Qed.

Lemma package_turn_complete l s t : selecting p options height cutoff l s -> complete s -> package_turn options p height cutoff s = Some t -> progress t.
Proof.
  intros Hs Hc. unfold package_turn. destruct (mi s) as [|it rest] eqn:Emi; [apply (evaluate_next_complete l s t Hs Hc); intros it rest; rewrite Emi; discriminate|].
  destruct (is_stale s it) eqn:Est; [|apply (evaluate_next_complete l s t Hs Hc); intros it' rest'; rewrite Emi; intros [= <- <-]; exact Est].
  intros [= <-]. destruct Hc as [C1 C2 C3]. split; cbn; [exact C1|exact C2|]. intros h Hh. destruct (C3 h Hh) as [Hb|[Hm|Hm]]; [tauto| |tauto].
  rewrite Emi in Hm. apply elem_of_cons in Hm as [->|Hm]; [|tauto]. unfold is_stale in Est. rewrite C1 in Est. apply orb_true_iff in Est as [Est|Est].
  - apply orb_true_iff in Est as [Est|Est]; apply bool_decide_eq_true in Est; tauto.
  - apply bool_decide_eq_true, not_elem_of_empty in Est as [].
Qed.

Lemma package_loop_complete fuel : forall l s b, selecting p options height cutoff l s -> complete s -> package_loop fuel options p height cutoff s = Some b -> dom m ⊆ inBlock b.
Proof.
  induction fuel as [|fuel IH]; intros l s b Hs Hc; cbn [package_loop]; [done|].
  destruct (package_turn_spec p options height cutoff Hok Hw Hfee Hopt l s Hs) as (t & Et & Ht). pose proof (package_turn_complete l s t Hs Hc Et) as Hp. rewrite Et. cbn [mbind option_bind].
  destruct t as [s'|s']; [intros [= <-]; exact Hp|]. destruct Ht as (l' & Hs' & _). apply (IH l' s' b Hs' Hp).
Qed.

Lemma addPackageTxs_complete b : addPackageTxs options p height cutoff (resetBlock options) = Some b -> dom m ⊆ inBlock b.
Proof.
  unfold addPackageTxs. apply (package_loop_complete _ []).
  - apply selecting_start.
  - split; cbn; [done|apply exact_empty, Hg|]. intros h Hh. right. left. apply elem_of_by_ancestor_fee, Hh.
Qed.
End complete.
