(* ===== verification/MinerTheorems.v ===== *)
(** * What block assembly guarantees

    The selection of [addPackageTxs] (Miner.v) on a consistent pool: it returns, what it selects can
    stand in a block in that order, and it takes everything when everything pays and fits; and
    a pool for which it takes nothing although other entries pay. *)

From Stdlib Require Import ZArith Lia Bool Sorting.Sorted.
From stdpp Require Import base numbers list gmap fin_sets sorting relations.
From S2P Require Import Prelude Uint256 Binary64 Params FeeModel Serialize Primitives TxVerify Coins MempoolEntry TxMempool PoolGraph PoolInvariant PoolBooks PoolRemoval PoolAdd PoolOps PoolUpkeep PoolTheorems Miner MinerSelect MinerLoop MinerComplete.
Local Open Scope Z_scope.

Section theorems.
Context `{MempoolEnv}.

(** ** Transactions in their order *)

Lemma elem_of_parent_transactions tx h : h ∈ parent_transactions tx <-> exists o, o ∈ prevouts tx /\ out_hash o = h.
Proof.
  unfold parent_transactions, prevouts. rewrite elem_of_list_to_set, list_elem_of_fmap. split.
  - intros (i & -> & Hin). exists (prevout i). split; [apply list_elem_of_fmap; eauto|done].
  - intros (o & Ho & <-). apply list_elem_of_fmap in Ho as (i & -> & Hin). eauto.
Qed.

Lemma selected_lookup p options height cutoff l b i tx : assembled p options height cutoff l b -> selected b !! i = Some tx -> exists h e, l !! i = Some (h, e) /\ mapTx p !! h = Some e /\ tx = GetTx e.
Proof.
  intros Ha Hi. rewrite (c_txs _ _ _ (as_counts _ _ _ _ _ _ Ha)), list_lookup_fmap in Hi. apply fmap_Some in Hi as ([h e] & Hl & ->).
  exists h, e. split; [exact Hl|]. split; [|done]. apply (as_entries _ _ _ _ _ _ Ha), list_elem_of_lookup. eauto.
Qed.

(** an input that spends the pool spends an earlier transaction of the block *)
Lemma selected_parents p options height cutoff l b i tx o : pool_ok p -> assembled p options height cutoff l b -> selected b !! i = Some tx -> o ∈ prevouts tx -> out_hash o ∈ dom (mapTx p) ->
  exists j tx', (j < i)%nat /\ selected b !! j = Some tx' /\ ComputeHash tx' = out_hash o.
Proof.
  intros Hok Ha Hi Ho Hd. destruct (selected_lookup _ _ _ _ _ _ _ _ Ha Hi) as (h & e & Hl & He & ->).
  assert (Hq : out_hash o ∈ m_parents e) by (rewrite (po_parents p Hok h e He); apply elem_of_filter; split; [exact Hd|]; apply elem_of_parent_transactions; eauto).
  destruct (as_first _ _ _ _ _ _ Ha i h e _ Hl Hq) as (j & x & Hj & Hlj). exists j, (GetTx x). split; [exact Hj|]. split.
  - rewrite (c_txs _ _ _ (as_counts _ _ _ _ _ _ Ha)), list_lookup_fmap, Hlj. done.
  - apply (pool_key p _ x Hok). apply (as_entries _ _ _ _ _ _ Ha), list_elem_of_lookup. eauto.
Qed.

(** no output is spent twice *)
Lemma selected_once p options height cutoff l b i j tx tx' o : pool_ok p -> assembled p options height cutoff l b -> selected b !! i = Some tx -> selected b !! j = Some tx' ->
  o ∈ prevouts tx -> o ∈ prevouts tx' -> i = j.
Proof.
  intros Hok Ha Hi Hj Ho Ho'. destruct (selected_lookup _ _ _ _ _ _ _ _ Ha Hi) as (h & e & Hl & He & ->). destruct (selected_lookup _ _ _ _ _ _ _ _ Ha Hj) as (k & x & Hl' & Hx & ->).
  pose proof (l_spends _ _ _ (b_ledger p (po_books p Hok)) o) as Hsp. pose proof (proj2 (Hsp h) (ex_intro _ e (conj He Ho))) as H1. pose proof (proj2 (Hsp k) (ex_intro _ x (conj Hx Ho'))) as H2.
  assert (h = k) as -> by congruence. apply (NoDup_lookup (map fst l) i j k); [apply (as_entries _ _ _ _ _ _ Ha)| |]; rewrite list_lookup_fmap; [rewrite Hl|rewrite Hl']; done.
Qed.

(** ** Properties *)

(** C13: The selection of a block.  On a consistent pool [addPackageTxs] returns: the loop ends,
    no assertion fails and nothing overflows.  It selects entries of the pool once each, final at
    the height and time of the block; an input that spends an entry of the pool spends one
    selected before, and no output is spent twice; the fees, the weight and the signature operations
    it reports are those of the selected entries, within the limits of a block. *)
Theorem block_selection p options clamped height cutoff : pool_ok p -> weights_ok (mapTx p) -> fees_defined p ->
  0 <= coinbase_output_max_additional_sigops options -> ClampOptions options = Some clamped ->
  exists b l, addPackageTxs clamped p height cutoff (resetBlock clamped) = Some b /\ selected b = map (fun he => GetTx he.2) l /\ NoDup (map fst l) /\
    (forall h e, (h, e) ∈ l -> mapTx p !! h = Some e /\ IsFinalTx (GetTx e) height cutoff = true) /\
    (forall i tx o, selected b !! i = Some tx -> o ∈ prevouts tx -> out_hash o ∈ dom (mapTx p) ->
       exists j tx', (j < i)%nat /\ selected b !! j = Some tx' /\ ComputeHash tx' = out_hash o) /\
    (forall i j tx tx' o, selected b !! i = Some tx -> selected b !! j = Some tx' -> o ∈ prevouts tx -> o ∈ prevouts tx' -> i = j) /\
    template_fees b = zsum (fun he => EntryFee he.2) l /\ nBlockWeight b = block_reserved_weight clamped + zsum (fun he => GetTxWeight he.2) l /\
    nBlockSigOpsCost b = coinbase_output_max_additional_sigops clamped + zsum (fun he => GetSigOpCost he.2) l /\
    nBlockWeight b <= MAX_BLOCK_WEIGHT /\ nBlockSigOpsCost b <= MAX_BLOCK_SIGOPS_COST.
Proof.
  intros Hok Hw Hf H0 Hc. destruct (ClampOptions_ok _ _ H0 Hc) as [Hopt _]. destruct (addPackageTxs_spec p clamped height cutoff Hok Hw Hf Hopt) as (b & l & E & Ha). exists b, l.
  pose proof (as_counts _ _ _ _ _ _ Ha) as Hcn. destruct Hopt as (O1 & O2 & O3).
  split_and!; [exact E|apply Hcn|apply Ha| | | |apply Hcn|apply Hcn|apply Hcn| |].
  - intros h e Hin. split; [apply (as_entries _ _ _ _ _ _ Ha), Hin|apply (as_final _ _ _ _ _ _ Ha h e Hin)].
  - intros i tx o. apply (selected_parents p clamped height cutoff l b i tx o Hok Ha).
  - intros i j tx tx' o. apply (selected_once p clamped height cutoff l b i j tx tx' o Hok Ha).
  - destruct (as_fits _ _ _ _ _ _ Ha) as [->|[Hx _]]; [rewrite (c_weight _ _ _ Hcn); cbn [zsum]|]; lia.
  - destruct (as_fits _ _ _ _ _ _ Ha) as [->|[_ Hx]]; [rewrite (c_sigops _ _ _ Hcn); cbn [zsum]|]; lia.
Qed.

(** C31: A pool that fits in a block, in which every entry is final and every entry with any of
    its ancestors left out pays what the model asks, is taken as a whole. *)
Theorem block_takes_all p options clamped height cutoff : pool_ok p -> weights_ok (mapTx p) -> fees_defined p ->
  0 <= coinbase_output_max_additional_sigops options -> ClampOptions options = Some clamped -> abundant p clamped height cutoff ->
  exists b, addPackageTxs clamped p height cutoff (resetBlock clamped) = Some b /\ inBlock b = dom (mapTx p) /\ template_fees b = m_total_fee p.
Proof.
  intros Hok Hw Hf H0 Hc Hab. destruct (ClampOptions_ok _ _ H0 Hc) as [Hopt _]. destruct (addPackageTxs_spec p clamped height cutoff Hok Hw Hf Hopt) as (b & l & E & Ha).
  pose proof (addPackageTxs_complete p clamped height cutoff Hok Hw Hf Hopt Hab b E) as Hall. pose proof (as_counts _ _ _ _ _ _ Ha) as Hcn. pose proof (as_entries _ _ _ _ _ _ Ha) as He.
  assert (Hkeys : keys l = dom (mapTx p)) by (apply set_eq; intros h; split; [apply (entries_keys _ _ He)|rewrite <- (c_block _ _ _ Hcn); apply Hall]).
  exists b. split; [exact E|]. split; [rewrite (c_block _ _ _ Hcn); exact Hkeys|]. rewrite (c_fees _ _ _ Hcn), (entries_sum _ _ _ He), Hkeys. symmetry. apply (b_fee p (po_books p Hok)).
Qed.

(** the fee by which an entry is ordered *)
Definition asked (e : CTxMemPoolEntry) : Z := Z.min (ordering_fee e (nSizeWithAncestors e)) (ordering_fee e (GetTxSize e)).

Lemma by_ancestor_fee_head m h e : m !! h = Some e -> (forall h' e', m !! h' = Some e' -> h' <> h -> asked e' < asked e) -> exists rest, by_ancestor_fee m = h :: rest.
Proof.
  intros He Hmax. unfold by_ancestor_fee. set (lt := fun a b : uint256 * CTxMemPoolEntry => _). pose proof (sorted_by_weak lt (fun a => - asked a.2) (map_to_list m)) as Hs.
  assert (Hin : (h, e) ∈ sorted_by lt (map_to_list m)) by (rewrite sorted_by_perm; apply elem_of_map_to_list, He).
  assert (Hall : forall a, a ∈ sorted_by lt (map_to_list m) -> m !! a.1 = Some a.2) by (intros [k x] Ha; rewrite sorted_by_perm in Ha; apply elem_of_map_to_list, Ha).
  assert (Hsorted : StronglySorted (fun a b => - asked a.2 <= - asked b.2) (sorted_by lt (map_to_list m))).
  { apply Hs; unfold lt, CompareTxMemPoolEntryByAncestorFee; cbn [fst snd]; intros a b; fold (asked a.2); fold (asked b.2).
    - rewrite (Z.eqb_sym (asked b.2)). destruct (Z.eqb_spec (asked a.2) (asked b.2)); [apply blob_ltb_asym|]. rewrite Z.gtb_lt, Z.gtb_ltb, Z.ltb_ge. lia.
    - intros Hlt. destruct (Z.eqb_spec (asked a.2) (asked b.2)); [lia|]. apply Z.gtb_lt. lia. }
  clear Hs. destruct (sorted_by lt (map_to_list m)) as [|[k x] rest]; [inversion Hin|]. exists (map fst rest). cbn [map fst]. f_equal.
  destruct (decide (k = h)) as [Hk|Hk]; [exact Hk|]. exfalso. pose proof (Hmax k x (Hall (k, x) ltac:(left)) Hk) as Hlt. inversion Hsorted as [|? ? _ Hf]; subst.
  apply elem_of_cons in Hin as [[= -> ->]|Hin]; [done|]. rewrite Forall_forall in Hf. specialize (Hf _ Hin). cbn [snd] in Hf. lia.
Qed.

(** C39: A pool that mines nothing.  The entries are tried in the order of the fee the model asks
    of them, and the first that pays less than that ends the selection: whatever the other
    entries of the pool pay, the block stays empty. *)
Theorem selection_stalls p options height cutoff h e fee : mapTx p !! h = Some e -> 0 <= nSizeWithAncestors e < 2 ^ 63 ->
  CalculateFee fee_model (nSizeWithAncestors e) (EntryValue e) (IsConsolidationTx (GetTx e)) = Some fee -> nModFeesWithAncestors e < fee ->
  (forall h' e', mapTx p !! h' = Some e' -> h' <> h -> asked e' < asked e) ->
  addPackageTxs options p height cutoff (resetBlock options) = Some (resetBlock options).
Proof.
  intros He Hsz Hfee Hlow Hmax. destruct (by_ancestor_fee_head _ h e He Hmax) as [rest Hmi]. unfold addPackageTxs, package_fuel. rewrite Hmi. cbn [package_loop].
  unfold package_turn. cbn [mi]. replace (is_stale _ h) with false by (unfold is_stale; cbn [mapModifiedTx inBlock assembler resetBlock failedTx]; rewrite !bool_decide_eq_false_2; set_solver +).
  unfold evaluate_next, next_candidate. cbn [mi mapModifiedTx]. replace (best_modified (mapTx p) ∅) with (@None (uint256 * CTxMemPoolEntry * CTxMemPoolModifiedEntry)) by done. cbn [mbind option_bind].
  rewrite He. cbn [mbind option_bind]. rewrite decide_False by (cbn; apply not_elem_of_empty). unfold evaluate_package, CTxMemPoolModifiedEntry_of. cbn [mod_nSizeWithAncestors mod_nModFeesWithAncestors].
  rewrite (wrap_small 64) by (unfold fits; lia). rewrite swrap_small by (unfold sfits; lia). rewrite Hfee. cbn [mbind option_bind]. destruct (Z.ltb_spec (nModFeesWithAncestors e) fee); [done|lia].
Qed.
End theorems.

(** ** Pools of one and two entries *)

(** the default model asks for a fee, for every amount in range *)
Lemma default_fees_defined `{MempoolEnv} p : fee_model = g_fee_model -> (forall h e, mapTx p !! h = Some e -> MoneyRange (EntryValue e) = true) -> fees_defined p.
Proof.
  intros Hm Hv h e size He Hsz. rewrite Hm. destruct (default_fee (EntryValue e) (IsConsolidationTx (GetTx e)) (Hv h e He)) as (r & _ & _ & Hf). rewrite Hf by (unfold fits; lia). eauto.
Qed.

Module Template.
#[local] Existing Instance Sample.env.
Definition options : BlockAssemblerOptions :=
  {| use_mempool := true; nBlockMaxWeight := 4000000; block_reserved_weight := 8000; coinbase_output_max_additional_sigops := 400; coinbase_output_script := [0x51];
     blockMinFeeRate := 1000; test_block_validity := false; print_modified_fee := false |}.

Lemma one_of n p h e : joined Sample.pool0 n Sample.entry p -> mapTx p !! h = Some e -> h = n /\ entry_data e = Sample.data /\ m_modified_fee e = 1000.
Proof.
  intros Hj He. pose proof (jo_entries _ _ _ _ Hj h) as Hh. rewrite He in Hh. cbn [fmap option_fmap option_map] in Hh. destruct (decide (h = n)) as [->|Hne].
  - injection Hh as Hd Hm _. done.
  - unfold Sample.pool0 in Hh. cbn [mapTx CTxMemPool_init] in Hh. rewrite lookup_empty in Hh. discriminate Hh.
Qed.

Lemma one_weights n p : joined Sample.pool0 n Sample.entry p -> weights_ok (mapTx p).
Proof. intros Hj h e He. destruct (one_of n p h e Hj He) as (_ & Hd & _). unfold GetTxWeight, GetTxSize. rewrite Hd. vm_compute. split; discriminate. Qed.

Lemma one_fees n p : joined Sample.pool0 n Sample.entry p -> fees_defined p.
Proof. intros Hj. apply default_fees_defined; [done|]. intros h e He. destruct (one_of n p h e Hj He) as (_ & Hd & _). unfold EntryValue. rewrite Hd. reflexivity. Qed.

Lemma one_sum n p f : joined Sample.pool0 n Sample.entry p -> pool_sum (mapTx p) f = val (mapTx p) f n.
Proof. intros Hj. unfold pool_sum. rewrite (joined_dom _ _ _ _ Hj). unfold Sample.pool0. cbn [mapTx CTxMemPool_init]. rewrite dom_empty_L, union_empty_r_L. apply set_sum_singleton. Qed.

Lemma one_abundant n p : joined Sample.pool0 n Sample.entry p -> abundant p options 5 100.
Proof.
  intros Hj. assert (Hn : exists e, mapTx p !! n = Some e). { pose proof (jo_entries _ _ _ _ Hj n) as Hh. rewrite decide_True in Hh by done. apply fmap_Some in Hh as (x & Hx & _). eauto. }
  destruct Hn as [en Hn]. destruct (one_of n p n en Hj Hn) as (_ & Hdn & Hmn). pose proof (po_graph p (jo_ok _ _ _ _ Hj)) as Hg. split.
  - intros h e D f He HD Hf. destruct (one_of n p h e Hj He) as (-> & Hd & Hm). assert (Hup : up (mapTx p) n ∖ D = {[n]}).
    { pose proof (up_in_dom _ n Hg ltac:(apply elem_of_dom; eauto)) as Hu. rewrite (joined_dom _ _ _ _ Hj) in Hu. unfold Sample.pool0 in Hu. cbn [mapTx CTxMemPool_init] in Hu. rewrite dom_empty_L, union_empty_r_L in Hu.
      apply set_eq. intros z. rewrite elem_of_difference, elem_of_singleton. split; [intros [Hz _]; apply Hu, elem_of_singleton in Hz; exact Hz|]. intros ->. split; [apply elem_of_up; left; done|].
      intros Hc. apply HD, elem_of_anc in Hc; [|apply Hg]. exact (g_acyclic _ Hg n Hc). }
    rewrite Hup, !set_sum_singleton, !(val_lookup _ _ _ _ He) in *. rewrite Hm. unfold EntryValue, GetTxSize in Hf. rewrite Hd in Hf.
    destruct (default_fee (entry_nValue Sample.data) (IsConsolidationTx (GetTx e)) ltac:(reflexivity)) as (r & Hr1 & Hr2 & Hr). change (fee_model (MempoolEnv := Sample.env)) with g_fee_model in Hf.
    change (data_size Sample.data) with (GetTxSize Sample.entry) in Hf. rewrite Sample.entry_size, Hr in Hf by (unfold fits; lia). injection Hf as <-. cbn [entry_nValue Sample.data] in Hr1. change ((61 + 9) / 10) with 7.
    cbv zeta. destruct (IsConsolidationTx (GetTx e)); [|lia]. assert ((7 + r) / 2 <= 7 + r) by (apply Z.div_le_upper_bound; lia). lia.
  - rewrite (one_sum n p _ Hj), (val_lookup _ _ _ _ Hn). unfold GetTxSize. rewrite Hdn. change (data_size Sample.data) with (GetTxSize Sample.entry). rewrite Sample.entry_size. reflexivity.
  - rewrite (one_sum n p _ Hj), (val_lookup _ _ _ _ Hn). unfold GetSigOpCost. rewrite Hdn. reflexivity.
  - intros h e He. destruct (one_of n p h e Hj He) as (_ & Hd & _). unfold GetTx. rewrite Hd. reflexivity.
Qed.

(** a transfer of 5000 coins that pays the relay fee *)
Definition rich_tx : CTransaction :=
  {| vin := [{| prevout := {| out_hash := replicate 32 8; out_n := 0 |}; scriptSig := []; nSequence := 0; scriptWitness := [] |}];
     vout := [{| nValue := 5000 * COIN; scriptPubKey := [0x51] |}]; version := 2; nLockTime := 0 |}.
Definition rich_data : EntryData :=
  {| entry_tx := rich_tx; entry_nFee := 1000; entry_nValue := 5000 * COIN; nTxWeight := GetTransactionWeight rich_tx; nUsageSize := RecursiveDynamicUsage rich_tx; entry_nTime := 10; entry_sequence := 1;
     entryHeight := 1; spendsCoinbase := false; sigOpCost := 4 |}.
Definition rich : CTxMemPoolEntry :=
  {| entry_data := rich_data; m_parents := ∅; m_children := ∅; m_modified_fee := 1000; lockPoints := {| lp_height := 0; lp_time := 0; maxInputBlock := None |};
     m_count_with_descendants := 1; nSizeWithDescendants := data_size rich_data; nModFeesWithDescendants := 1000; m_count_with_ancestors := 1;
     nSizeWithAncestors := data_size rich_data; nModFeesWithAncestors := 1000; nSigOpCostWithAncestors := 4; idx_randomized := 1 |}.
(** with the entry of [Sample], which pays ten times what is asked of it *)
Definition stalled (a b : uint256) : CTxMemPool := set_mapTx Sample.pool0 (<[a := rich]> {[b := Sample.entry]}) 0.

Lemma rich_size : nSizeWithAncestors rich = 61 /\ GetTxSize rich = 61.
Proof. vm_compute. done. Qed.

Lemma rich_fee : CalculateFee (fee_model (MempoolEnv := Sample.env)) 61 (EntryValue rich) (IsConsolidationTx (GetTx rich)) = Some 1000000.
Proof.
  change (fee_model (MempoolEnv := Sample.env)) with g_fee_model. change (IsConsolidationTx (GetTx rich)) with false. change (EntryValue rich) with (5000 * COIN).
  destruct (default_fee (5000 * COIN) false ltac:(reflexivity)) as (r & Hd & _ & ->); [|unfold fits; lia]. unfold COIN in Hd. change ((61 + 9) / 10) with 7. cbv zeta iota. f_equal. lia.
Qed.

Lemma fair_fee : ordering_fee Sample.entry 61 <= 100.
Proof.
  unfold ordering_fee, MempoolEntryFee. change (fee_model (MempoolEnv := Sample.env)) with g_fee_model. change (IsConsolidationTx (GetTx Sample.entry)) with false. change (EntryValue Sample.entry) with 5000.
  destruct (default_fee 5000 false ltac:(reflexivity)) as (r & Hd & _ & ->); [|unfold fits; lia]. change ((61 + 9) / 10) with 7. cbv zeta iota. cbn [default id from_option]. lia.
Qed.

Lemma stalled_asked : asked Sample.entry < asked rich.
Proof.
  unfold asked. change (nSizeWithAncestors Sample.entry) with (GetTxSize Sample.entry). rewrite Sample.entry_size. destruct rich_size as [-> ->]. rewrite !Z.min_id. pose proof fair_fee.
  unfold ordering_fee at 2. unfold MempoolEntryFee. rewrite rich_fee. cbn [default id from_option]. lia.
Qed.
End Template.

Lemma block_selection_witness : exists p b, apply_next (H := Sample.env) Sample.entry Sample.pool0 = Some p /\
  addPackageTxs (H := Sample.env) Template.options p 5 100 (resetBlock Template.options) = Some b /\ nBlockWeight b <= MAX_BLOCK_WEIGHT.
Proof.
  destruct Sample.added_entry as (p & E & Hj). destruct (block_selection (H := Sample.env) p Template.options Template.options 5 100 (jo_ok _ _ _ _ Hj) (Template.one_weights _ p Hj) (Template.one_fees _ p Hj)
    ltac:(discriminate) ltac:(reflexivity)) as (b & l & Eb & _ & _ & _ & _ & _ & _ & _ & _ & Hw & _). exists p, b. split; [exact E|]. split; [exact Eb|exact Hw].
Defined.

Lemma block_takes_all_witness : exists p b, apply_next (H := Sample.env) Sample.entry Sample.pool0 = Some p /\
  addPackageTxs (H := Sample.env) Template.options p 5 100 (resetBlock Template.options) = Some b /\ inBlock b = dom (mapTx p).
Proof.
  destruct Sample.added_entry as (p & E & Hj). destruct (block_takes_all (H := Sample.env) p Template.options Template.options 5 100 (jo_ok _ _ _ _ Hj) (Template.one_weights _ p Hj) (Template.one_fees _ p Hj)
    ltac:(discriminate) ltac:(reflexivity) (Template.one_abundant _ p Hj)) as (b & Eb & Hin & _). exists p, b. split; [exact E|]. split; [exact Eb|exact Hin].
Defined.

Lemma selection_stalls_witness : let p := Template.stalled (entry_hash Template.rich) (entry_hash Sample.entry) in
  addPackageTxs (H := Sample.env) Template.options p 5 100 (resetBlock Template.options) = Some (resetBlock Template.options).
Proof.
  generalize (entry_hash Template.rich), (entry_hash Sample.entry). intros a b. cbv zeta. destruct Template.rich_size as [Hs _].
  apply (selection_stalls (H := Sample.env) _ Template.options 5 100 a Template.rich 1000000).
  - apply lookup_insert_eq.
  - rewrite Hs. lia.
  - rewrite Hs. apply Template.rich_fee.
  - reflexivity.
  - intros h e He Hne. unfold Template.stalled in He. cbn [mapTx set_mapTx] in He. rewrite lookup_insert_ne in He by congruence. apply lookup_singleton_Some in He as [_ <-]. apply Template.stalled_asked.
Defined.
