(* ===== verification/MinerTemplate.v ===== *)
(** * The block template

    [CreateNewBlock] (Miner.v) on a consistent pool: it returns a block on the tip with the
    selected transactions, whose header and body pass the contextual checks of validation. *)

From Stdlib Require Import ZArith Lia Bool.
From stdpp Require Import base numbers list gmap fin_sets strings.
From S2P Require Import Prelude ArithUint Uint256 Arith256 Binary64 Params FeeModel Sha256 Sha256Proofs Hashes Serialize Primitives Opcodes Script ScriptFlags BlockIndex Coins CoinsDB TxVerify Merkle ChainParams Pow VersionBits BlockCheck Connect MempoolEntry TxMempool PoolGraph PoolInvariant PoolBooks PoolRemoval PoolAdd PoolOps PoolTheorems Miner MinerSelect MinerLoop MinerTheorems.
Local Open Scope Z_scope.

(** ** Sizes *)

Ltac sizes := rewrite ?length_app, ?Nat2Z.inj_add; cbn [length].

Lemma zlen_WriteLE n x : zlen (WriteLE n x) = Z.of_nat n.
Proof. unfold WriteLE. rewrite length_split_digits. done. Qed.

Lemma zlen_WriteCompactSize n : 0 <= n < 2 ^ 32 -> 1 <= zlen (WriteCompactSize n) <= 5 /\ (n < 253 -> zlen (WriteCompactSize n) = 1) /\ (n <= 0xffff -> zlen (WriteCompactSize n) <= 3).
Proof.
  intros Hn. unfold WriteCompactSize, ser_writedata8, ser_writedata16, ser_writedata32, ser_uint. destruct (Z.ltb_spec n 253); [cbn; lia|].
  destruct (Z.leb_spec n 0xffff); [sizes; rewrite zlen_WriteLE; lia|]. destruct (Z.leb_spec n 0xffffffff); [|lia]. sizes. rewrite zlen_WriteLE. lia.
Qed.

(** the weight of a transaction, before it is converted to 32 bits *)
Definition tx_weight (tx : CTransaction) : Z := zlen (SerializeTransaction false tx) * (WITNESS_SCALE_FACTOR - 1) + zlen (SerializeTransaction true tx).

Lemma zlen_flat_map {A} (f : A -> list Z) l : zlen (flat_map f l) = zsum (fun a => zlen (f a)) l.
Proof. induction l as [|a l IH]; [done|]. cbn [flat_map zsum]. sizes. lia. Qed.

Lemma header_size h : length (hashPrevBlock h) = 32%nat -> length (hashMerkleRoot h) = 32%nat -> zlen (ser_CBlockHeader h) = 80.
Proof.
  intros H1 H2. unfold ser_CBlockHeader, ser_int32, ser_writedata32, ser_uint, ser_blob. sizes. rewrite !zlen_WriteLE, H1, H2. done.
Qed.

Lemma block_weight block : length (hashPrevBlock (header block)) = 32%nat -> length (hashMerkleRoot (header block)) = 32%nat ->
  GetBlockWeight block = 4 * (80 + zlen (WriteCompactSize (zlen (vtx block)))) + zsum tx_weight (vtx block).
Proof.
  intros H1 H2. unfold GetBlockWeight, stripped_block_size, ser_CBlock, ser_vector, WITNESS_SCALE_FACTOR. sizes. rewrite !header_size, !zlen_flat_map by assumption.
  assert (Hz : zsum tx_weight (vtx block) = 3 * zsum (fun tx => zlen (SerializeTransaction false tx)) (vtx block) + zsum (fun tx => zlen (SerializeTransaction true tx)) (vtx block)).
  { induction (vtx block) as [|tx l IH]; cbn [zsum]; [done|]. rewrite IH. unfold tx_weight, WITNESS_SCALE_FACTOR. lia. }
  rewrite Hz. lia.
Qed.

Lemma serialize_size n : 0 < n < 2 ^ 31 -> 1 <= zlen (serialize n) <= 5.
Proof.
  intros Hn. destruct (serialize_abs n ltac:(lia) ltac:(lia)) as (low & h & _ & Hok & Hh & Hd & ->). rewrite Z.abs_eq in Hd by lia. 
  apply Forall_app in Hok as [Hl Hh']. inversion Hh' as [|? ? [Hh1 _] _]; subst. assert (Hlow : 0 <= digits (2 ^ 8) low) by (apply digits_nonneg; [lia|exact Hl]).
  assert (Hlen : zlen low <= 3). { apply Z.nlt_ge. intros Hgt. assert (2 ^ (8 * 4) <= 2 ^ (8 * zlen low)) by (apply Z.pow_le_mono_r; lia). nia. }
  destruct (h <? 128); sizes; lia.
Qed.

Lemma height_script_size n : 0 < n < 2 ^ 31 -> 1 <= zlen (push_int64 [] n) <= 6.
Proof.
  intros Hn. unfold push_int64, push_data, AppendDataSize. destruct (_ || _); [cbn; lia|]. destruct (Z.eqb_spec n 0); [lia|]. pose proof (serialize_size n Hn) as Hs.
  rewrite wrap_small by (unfold fits; lia). destruct (Z.ltb_spec (zlen (serialize n)) OP_PUSHDATA1) as [|Hge]; [sizes; lia|]. lia.
Qed.

(** ** The coinbase *)

Definition committed_coinbase (height value : Z) (spk commitment : CScript) : CTransaction :=
  {| version := 2; vin := [{| prevout := COutPoint_null; scriptSig := push_int64 [] height ++ [OP_0]; nSequence := MAX_SEQUENCE_NONFINAL; scriptWitness := [replicate 32 0] |}];
     vout := [{| nValue := value; scriptPubKey := spk |}; {| nValue := 0; scriptPubKey := commitment |}]; nLockTime := u32 (height - 1) |}.

Lemma zlen_ser_bytes b : zlen (ser_bytes b) = zlen (WriteCompactSize (zlen b)) + zlen b.
Proof. unfold ser_bytes. sizes. lia. Qed.

Lemma coinbase_weight height value spk commitment : 0 < height < 2 ^ 31 -> zlen spk < 2 ^ 32 -> zlen commitment = 38 ->
  tx_weight (committed_coinbase height value spk commitment) <= 4 * zlen spk + 520.
Proof.
  intros Hh Hs Hc. pose proof (height_script_size height Hh) as Hss. set (ss := push_int64 [] height ++ [OP_0]). assert (Hl : 2 <= zlen ss <= 7) by (unfold ss; sizes; lia).
  assert (Hw : HasWitness (committed_coinbase height value spk commitment) = true) by reflexivity. unfold tx_weight, SerializeTransaction. rewrite Hw. change (true && true) with true. change (false && true) with false. cbv iota. change (Z.land 1 1 =? 0) with false. change (Z.land 0 1 =? 0) with true. change (1 =? 0) with false. change (0 =? 0) with true. cbn [negb].
  unfold committed_coinbase. cbn [version vin vout nLockTime]. fold ss. unfold ser_vector, ser_CTxIn, ser_CTxOut, ser_COutPoint, ser_int64, ser_writedata32, ser_writedata64, ser_writedata8, ser_uint, ser_blob, ser_stack, ser_vector. cbn [flat_map scriptWitness prevout scriptSig nSequence nValue scriptPubKey].
  sizes. rewrite !zlen_WriteLE, !zlen_ser_bytes. sizes.
  destruct (zlen_WriteCompactSize (zlen ss) ltac:(lia)) as (_ & Hz & _). rewrite Hz by lia. destruct (zlen_WriteCompactSize (zlen commitment) ltac:(lia)) as (_ & Hz2 & _). rewrite Hz2 by lia.
  destruct (zlen_WriteCompactSize (zlen spk) ltac:(lia)) as (Hz3 & _). rewrite Hc. change (length (out_hash COutPoint_null)) with 32%nat. rewrite ?length_replicate.
  unfold WITNESS_SCALE_FACTOR. change (zlen (WriteCompactSize (Z.of_nat 1))) with 1. change (zlen (WriteCompactSize (Z.of_nat 2))) with 1. change (zlen (WriteCompactSize (Z.of_nat 32))) with 1. change (zlen (WriteCompactSize (Z.of_nat 0))) with 1.
  lia.
Qed.

(** ** The header *)

Section header.
Context (t : BlockMap) (params : Params) (tip : nat) (prev : CBlockIndex) (hash : uint256) (now : Z).

(** a tip of the index to build on, and a clock that is not far behind it *)
Record tip_ready : Prop := {
  ti_tree : tree_ok t;
  ti_timely : timely t;
  ti_tip : t !! tip = Some prev;
  ti_hash : phashBlock prev = Some hash;
  ti_length : length hash = 32%nat;
  ti_retarget : retarget_ok params;
  ti_deployments : deployments_ok params;
  ti_window : nPowAveragingWindow params <> 0;
  ti_height : 0 <= nHeight prev < LOCKTIME_THRESHOLD - 1;
  ti_segwit : DeploymentActiveAfter (Some prev) params DEPLOYMENT_SEGWIT = true;
  ti_clock : fits 32 now;
  ti_minimum mt : GetMinimumTime t tip (DifficultyAdjustmentInterval params) = Some mt -> fits 32 mt /\ mt <= now + MAX_FUTURE_BLOCK_TIME;
}.
Context (Hti : tip_ready).

Lemma minimum_time : exists mtp mt, GetMedianTimePast t tip = Some mtp /\ GetMinimumTime t tip (DifficultyAdjustmentInterval params) = Some mt /\ mtp < mt /\
  (Z.rem (nHeight prev + 1) (nPowAveragingWindow params) = 0 -> bi_nTime prev - MAX_TIMEWARP <= mt).
Proof.
  destruct (GetMedianTimePast_total t (tree_entries t (ti_tree Hti)) tip prev (ti_tip Hti)) as [mtp Hm]. exists mtp. unfold GetMinimumTime, DifficultyAdjustmentInterval.
  rewrite (ti_tip Hti), Hm. cbn [mbind option_bind]. destruct (Z.eqb_spec (nPowAveragingWindow params) 0) as [E|_]; [destruct (ti_window Hti E)|]. eexists. split; [done|]. split; [done|].
  unfold index_GetBlockTime. destruct (Z.eqb_spec (Z.rem (nHeight prev + 1) (nPowAveragingWindow params)) 0) as [E|E]; [lia|]. split; [lia|]. intros Hc. destruct (E Hc).
Qed.

(** [UpdateTime] moves the time of a header up to the least the rules allow *)
Lemma UpdateTime_spec h : nTime h = now -> exists mtp mt bits d h1, GetMedianTimePast t tip = Some mtp /\ mtp < mt /\ mt <= now + MAX_FUTURE_BLOCK_TIME /\ fits 32 mt /\
  (Z.rem (nHeight prev + 1) (nPowAveragingWindow params) = 0 -> bi_nTime prev - MAX_TIMEWARP <= mt) /\
  (forall pblock, GetNextWorkRequired t (Some tip) pblock params = Some (bits, set_nBits pblock bits)) /\
  UpdateTime t h params tip now = Some (d, h1) /\ nVersion h1 = nVersion h /\ hashPrevBlock h1 = hashPrevBlock h /\ hashMerkleRoot h1 = hashMerkleRoot h /\
  nTime h1 = Z.max mt now /\ nNonce h1 = nNonce h.
Proof.
  intros Hn. destruct minimum_time as (mtp & mt & Hm & Hmt & Hlt & Hw). destruct (ti_minimum Hti mt Hmt) as [Hf Hmax]. pose proof (ti_clock Hti) as Hc. unfold fits in Hf, Hc.
  destruct (GetNextWorkRequired_total params t tip prev (ti_retarget Hti) (ti_tree Hti) (ti_tip Hti)) as (bits & _ & Hb). exists mtp, mt, bits. unfold UpdateTime. rewrite Hmt. cbn [mbind option_bind].
  set (h0 := if nTime h <? Z.max mt now then set_header_time h (u32 (Z.max mt now)) else h).
  assert (H0 : nVersion h0 = nVersion h /\ hashPrevBlock h0 = hashPrevBlock h /\ hashMerkleRoot h0 = hashMerkleRoot h /\ nTime h0 = Z.max mt now /\ nNonce h0 = nNonce h).
  { unfold h0. destruct (Z.ltb_spec (nTime h) (Z.max mt now)); [cbn; rewrite wrap_small by (unfold fits; lia); done|]. split_and!; try done. lia. }
  destruct (fPowAllowMinDifficultyBlocks params).
  - rewrite Hb. cbn [mbind option_bind set_nBits]. eexists _, _. split_and!; try done; try lia; apply H0.
  - cbn [mbind option_bind]. eexists _, _. split_and!; try done; try lia; apply H0.
Qed.

Lemma block_version_large : 2 ^ 29 <= block_version t params (Some tip).
Proof.
  assert (H0 : 0 <= block_version t params (Some tip)).
  { unfold block_version. cbn [foldl MAX_VERSION_BITS_DEPLOYMENTS]. repeat case_match; rewrite ?Z.lor_nonneg; split_and?; try done; unfold Mask; apply Z.mod_pos_bound; lia. }
  apply Z.nlt_ge. intros Hlt. pose proof (block_version_testbit t params (ti_deployments Hti) (Some tip) 29 ltac:(lia)) as Hb. change (29 =? 29) with true in Hb. cbn [orb] in Hb.
  destruct (Z.eq_dec (block_version t params (Some tip)) 0) as [E|E]; [rewrite E, Z.bits_0 in Hb; done|]. rewrite Z.bits_above_log2 in Hb; [done|lia|]. apply Z.log2_lt_pow2; lia.
Qed.

(** a header filled in this way passes the checks on the header *)
Lemma filled_header_valid `{Cpu} bits_first h bits mtp mt : GetMedianTimePast t tip = Some mtp -> mtp < mt -> mt <= now + MAX_FUTURE_BLOCK_TIME ->
  (Z.rem (nHeight prev + 1) (nPowAveragingWindow params) = 0 -> bi_nTime prev - MAX_TIMEWARP <= mt) -> 4 <= nVersion h -> nTime h = Z.max mt now ->
  (forall pblock, GetNextWorkRequired t (Some tip) pblock params = Some (bits, set_nBits pblock bits)) -> nBits h = bits ->
  ContextualCheckBlockHeader bits_first t h params tip (now * 10 ^ 9) = Some (Valid tt, h).
Proof.
  intros Hm Hlt Hmax Hw Hv Ht Hreq Hb. destruct (ContextualCheckBlockHeader_spec bits_first t h params tip prev (now * 10 ^ 9) (ti_tree Hti) (ti_retarget Hti) (ti_tip Hti)) as (required & v & _ & Hr & -> & Hval & _).
  assert (required = bits) as -> by (rewrite Hreq in Hr; injection Hr; auto). replace v with (Valid (R := BlockValidationResult) tt).
  - f_equal. f_equal. rewrite <- Hb. destruct h. done.
  - symmetry. apply Hval. split; [auto|]. exists prev, mtp. rewrite Ht. split_and!; [apply Hti|exact Hm|lia| |unfold MAX_FUTURE_BLOCK_TIME in *; lia|].
    + intros _ Hrem. specialize (Hw Hrem). lia.
    + split_and!; intros _; lia.
Qed.
End header.

(** ** The body *)

Lemma IsFinalTx_later tx height time time' : time <= time' -> IsFinalTx tx height time = true -> IsFinalTx tx height time' = true.
Proof.
  intros Ht. unfold IsFinalTx. destruct (nLockTime tx =? 0); [done|]. destruct (nLockTime tx <? LOCKTIME_THRESHOLD); [done|].
  destruct (Z.ltb_spec (nLockTime tx) time), (Z.ltb_spec (nLockTime tx) time'); [done|lia|done|done].
Qed.

Lemma coinbase_final height value spk commitment time : 0 < height < LOCKTIME_THRESHOLD -> IsFinalTx (committed_coinbase height value spk commitment) height time = true.
Proof.
  intros Hh. unfold LOCKTIME_THRESHOLD in Hh. unfold IsFinalTx, committed_coinbase. cbn [nLockTime]. rewrite wrap_small by (unfold fits; lia). destruct (height - 1 =? 0); [done|]. unfold LOCKTIME_THRESHOLD.
  destruct (Z.ltb_spec (height - 1) 500000000); [|lia]. destruct (Z.ltb_spec (height - 1) height); [done|lia].
Qed.

Lemma witness_hash_ok tx : tx_weight tx < 2 ^ 60 -> hash_ok (ComputeWitnessHash tx).
Proof.
  intros Hw. unfold tx_weight, WITNESS_SCALE_FACTOR in Hw. unfold ComputeWitnessHash, ComputeHash. destruct (negb (HasWitness tx)); rewrite HashWriter_hash by lia; apply sha256_blob.
Qed.

Lemma checked_witness_vtx `{Cpu} h h' txs : checked_witness {| header := h; vtx := txs |} -> checked_witness {| header := h'; vtx := txs |}.
Proof. exact (fun Hw => Hw). Qed.

Lemma ContextualCheckBlock_template `{Cpu} t params tip prev hash now mtp h height value spk commitment txs : tip_ready t params tip prev hash now -> height = nHeight prev + 1 ->
  GetMedianTimePast t tip = Some mtp -> mtp <= nTime h -> (forall tx, tx ∈ txs -> IsFinalTx tx height mtp = true) ->
  checked_witness {| header := h; vtx := committed_coinbase height value spk commitment :: txs |} ->
  GetBlockWeight {| header := h; vtx := committed_coinbase height value spk commitment :: txs |} <= MAX_BLOCK_WEIGHT ->
  ContextualCheckBlock t unset_memo {| header := h; vtx := committed_coinbase height value spk commitment :: txs |} params (Some tip) = Some (Valid tt, witness_memo).
Proof.
  intros Hti Hheight Hm Htime Hfin Hwit Hw. pose proof (ti_height _ _ _ _ _ _ Hti) as Hh. unfold ContextualCheckBlock. rewrite (ti_tip _ _ _ _ _ _ Hti). cbn [mbind option_bind]. rewrite <- Hheight.
  assert (Hcut : exists cut, (if DeploymentActiveAfter (Some prev) params DEPLOYMENT_CSV then GetMedianTimePast t tip
      else Some (GetBlockTime h)) = Some cut /\ mtp <= cut) by (destruct (DeploymentActiveAfter _ _ _); [rewrite Hm|]; eexists; split; [done|lia|done|exact Htime]).
  destruct Hcut as (cut & Ecut & Hcut). cbn [header]. rewrite Ecut. cbn [mbind option_bind]. replace (forallb _ _) with true.
  2:{ symmetry. apply forallb_forall. intros tx [<-|Hin]; [apply coinbase_final; lia|]. apply IsFinalTx_later with mtp; [exact Hcut|]. apply Hfin, list_elem_of_In, Hin. }
  cbn [negb]. replace (if DeploymentActiveAfter (Some prev) params DEPLOYMENT_HEIGHTINCB then _ else Some true) with (Some true).
  2:{ destruct (DeploymentActiveAfter _ _ DEPLOYMENT_HEIGHTINCB); [|done]. cbn. rewrite take_app_length, bool_decide_eq_true_2 by done. done. }
  cbn [mbind option_bind negb]. unfold checked_witness in Hwit. rewrite (ti_segwit _ _ _ _ _ _ Hti), Hwit. cbn [mbind option_bind]. destruct (Z.gtb_spec (GetBlockWeight {| header := h; vtx := committed_coinbase height value spk commitment :: txs |}) MAX_BLOCK_WEIGHT); [lia|done].
Qed.

(** ** [CreateNewBlock] *)

Section create.
Context `{Cpu} `{ScriptVerifier} {V : Type} `{CCoinsView V} `{MempoolEnv}.

(** the weights that the entries carry are those of their transactions *)
Definition weighed (p : CTxMemPool) : Prop := forall h e, mapTx p !! h = Some e -> GetTxWeight e = tx_weight (GetTx e).

Lemma entry_size_bound p h e : pool_ok p -> mapTx p !! h = Some e -> GetTxSize e < 2 ^ 31.
Proof.
  intros Hok He. assert (Hd : {[h]} ⊆ dom (mapTx p)) by (apply singleton_subseteq_l, elem_of_dom; eauto). destruct (graph_bounds _ _ (po_graph p Hok) Hd) as (_ & Hb & _).
  rewrite set_sum_singleton, (val_lookup _ _ _ _ He) in Hb. exact Hb.
Qed.

Lemma template_selection p options height cutoff : pool_ok p -> weights_ok (mapTx p) -> fees_defined p -> options_ok options ->
  exists b l, (if use_mempool options then addPackageTxs options p height cutoff (resetBlock options) else Some (resetBlock options)) = Some b /\ assembled p options height cutoff l b.
Proof.
  intros Hok Hw Hf Ho. destruct (use_mempool options); [apply (addPackageTxs_spec p options height cutoff Hok Hw Hf Ho)|]. exists (resetBlock options), []. split; [done|apply assembled_reset].
Qed.

Lemma selected_weights p options height cutoff l b : weighed p -> assembled p options height cutoff l b -> zsum tx_weight (selected b) = zsum (fun he => GetTxWeight he.2) l.
Proof.
  intros Hwe Ha. rewrite (c_txs _ _ _ (as_counts _ _ _ _ _ _ Ha)). pose proof (proj2 (as_entries _ _ _ _ _ _ Ha)) as Hp. clear Ha. induction l as [|[h e] l IH]; [done|]. cbn [map zsum snd].
  rewrite IH by (intros k x Hx; apply Hp; right; exact Hx). rewrite (Hwe h e) by (apply Hp; left). done.
Qed.

(** the template with its coinbase fits in a block *)
Lemma template_weight p options height cutoff l b h cb : pool_ok p -> weights_ok (mapTx p) -> weighed p -> options_ok options -> assembled p options height cutoff l b ->
  length (hashPrevBlock h) = 32%nat -> length (hashMerkleRoot h) = 32%nat -> tx_weight cb + 340 <= block_reserved_weight options ->
  GetBlockWeight {| header := h; vtx := cb :: selected b |} <= MAX_BLOCK_WEIGHT.
Proof.
  intros Hok Hw Hwe (O1 & O2 & _) Ha Hl1 Hl2 Hcb. pose proof (as_counts _ _ _ _ _ _ Ha) as Hc. rewrite block_weight by assumption. cbn [vtx zsum]. rewrite (selected_weights _ _ _ _ _ _ Hwe Ha).
  destruct (entries_bounds p l Hok Hw (as_entries _ _ _ _ _ _ Ha)) as (_ & _ & _ & _ & Hlen). assert (Hn : zlen (cb :: selected b) < 2 ^ 32) by (rewrite (c_txs _ _ _ Hc); cbn [length]; rewrite length_map; lia).
  destruct (zlen_WriteCompactSize (zlen (cb :: selected b)) ltac:(lia)) as (Hz & _). pose proof (c_weight _ _ _ Hc) as Hcw.
  assert (nBlockWeight b <= MAX_BLOCK_WEIGHT). { destruct (as_fits _ _ _ _ _ _ Ha) as [->|[Hx _]]; [rewrite Hcw; cbn [zsum]|]; lia. }
  lia.
Qed.

Lemma witness_hashes p options height cutoff l b : pool_ok p -> weights_ok (mapTx p) -> weighed p -> assembled p options height cutoff l b -> Forall hash_ok (ComputeWitnessHash <$> selected b).
Proof.
  intros Hok Hw Hwe Ha. rewrite (c_txs _ _ _ (as_counts _ _ _ _ _ _ Ha)). apply Forall_fmap, Forall_forall. intros tx Hin. apply list_elem_of_fmap in Hin as ([k e] & -> & Hin).
  apply (proj2 (as_entries _ _ _ _ _ _ Ha)) in Hin. apply witness_hash_ok. cbn [snd]. rewrite <- (Hwe k e Hin). pose proof (Hw k e Hin). pose proof (entry_size_bound p k e Hok Hin).
  unfold WITNESS_SCALE_FACTOR in *. lia.
Qed.

(** the coinbase, before and after the commitment is added *)
Lemma committed_template options params prev height fees h txs : 0 < height -> sfits 64 (fees + GetBlockSubsidy height params) -> is_commitment (coinbase_output_script options) = false ->
  DeploymentActiveAfter (Some prev) params DEPLOYMENT_SEGWIT = true -> Forall hash_ok (ComputeWitnessHash <$> txs) ->
  exists cb commitment, template_coinbase options params height fees = Some cb /\
    GenerateCoinbaseCommitment {| header := h; vtx := cb :: txs |} (Some prev) params =
      Some ({| header := h; vtx := committed_coinbase height (fees + GetBlockSubsidy height params) (coinbase_output_script options) commitment :: txs |}, commitment) /\
    zlen commitment = MINIMUM_WITNESS_COMMITMENT /\
    forall h', checked_witness {| header := h'; vtx := committed_coinbase height (fees + GetBlockSubsidy height params) (coinbase_output_script options) commitment :: txs |}.
Proof.
  intros Hh Hv Hnc Hseg Hok. unfold template_coinbase. rewrite int64_ok by exact Hv. cbn [mbind option_bind]. destruct (Z.gtb_spec height 0); [|lia]. set (cb := {| version := 2 |}).
  destruct (coinbase_commitment {| header := h; vtx := cb :: txs |} (Some prev) params cb {| prevout := COutPoint_null; scriptSig := push_int64 [] height ++ [OP_0]; nSequence := MAX_SEQUENCE_NONFINAL; scriptWitness := [] |} [] txs)
    as (blk & commitment & Egen & Hwit & Hhead & Hlen & Hvtx); [done|done|done|unfold GetWitnessCommitmentIndex; cbn; rewrite Hnc; done|exact Hseg|exact Hok|].
  destruct blk as [hb tb]. cbn [header vtx] in Hhead, Hvtx. subst hb tb. exists cb, commitment. split_and!; [done|exact Egen|exact Hlen|]. intros h'. exact (checked_witness_vtx h h' _ Hwit).
Qed.

(** the test of a block that passes the contextual checks is that of [CheckBlock] and [ConnectBlock] *)
Definition connect_test (copts : ConnectOptions) (params : Params) (s : BlockManager) (tip : nat) (prev : CBlockIndex) (coins : CCoinsViewCache V) (blk : CBlock) : option connect_result :=
  '(v, _) ← CheckBlock (signet_solution copts) unset_memo blk params false false;
  match v with
  | Invalid r reason => Some (Rejected r reason)
  | Valid _ => '(r, _, _, _) ← ConnectBlock copts params (index_dummy s tip prev (header blk)) witness_memo blk (length (m_block_index s)) (CCoinsViewCache_new coins) true; Some r
  end.

Lemma CheckBlock_unset sig blk params v memo : CheckBlock sig unset_memo blk params false false = Some (v, memo) -> memo = unset_memo.
Proof.
  unfold CheckBlock, CheckBlockHeader. cbn [fChecked unset_memo andb]. rewrite andb_false_r. cbn [andb].
  destruct (_ || _ || _); [intros [= _ <-]; done|]. destruct (negb _); [intros [= _ <-]; done|]. destruct (existsb IsCoinBase _); [intros [= _ <-]; done|].
  destruct (check_transactions _) as [[[]|]|]; cbn [mbind option_bind]; [|intros [= _ <-]; done|done]. destruct (_ >? _); intros [= _ <-]; done.
Qed.

Lemma TestBlockValidity_contextual bits_first copts params s tip prev coins blk now : m_block_index s !! tip = Some prev -> phashBlock prev = Some (hashPrevBlock (header blk)) ->
  ContextualCheckBlockHeader bits_first (m_block_index s) (header blk) params tip now = Some (Valid tt, header blk) ->
  ContextualCheckBlock (m_block_index s) unset_memo blk params (Some tip) = Some (Valid tt, witness_memo) ->
  TestBlockValidity bits_first copts params s tip coins unset_memo blk false false now = connect_test copts params s tip prev coins blk.
Proof.
  intros Ht Hh Hhead Hbody. unfold TestBlockValidity, connect_test. rewrite Ht. cbn [mbind option_bind]. rewrite Hh. cbn [mbind option_bind].
  rewrite (proj2 (blob_eqb_eq _ _ eq_refl) eq_refl). cbn [negb]. destruct (CheckBlock _ _ _ _ _ _) as [[v memo]|] eqn:Ec; [|done]. cbn [mbind option_bind].
  rewrite (CheckBlock_unset _ _ _ _ _ Ec). destruct v as [[]|]; [|done]. rewrite Hhead. cbn [mbind option_bind]. destruct blk as [hd tx]. cbn [header vtx] in *. rewrite Hbody. done.
Qed.

(** the steps of [CreateNewBlock], when each of them returns *)
Lemma CreateNewBlock_steps bits_first copts params s caches tip coins options blockversion p now prev hash mtp v caches' b cb txs commitment d h2 bits
    (t := m_block_index s) (height := nHeight prev + 1)
    (version := if fPowNoRetargeting params then default v (i32 <$> blockversion) else v)
    (header_on := fun prev_hash => {| nVersion := version; hashPrevBlock := prev_hash; hashMerkleRoot := uint256_null; nTime := u32 now; nBits := 0; nNonce := 0 |})
    (blk := {| header := set_header_bits h2 bits; vtx := txs |}) (template := {| block := blk; template_state := b; vchCoinbaseCommitment := commitment |}) :
  t !! tip = Some prev -> phashBlock prev = Some hash -> ComputeBlockVersion t (Some tip) params caches = Some (v, caches') -> GetMedianTimePast t tip = Some mtp ->
  (if use_mempool options then addPackageTxs options p height mtp (resetBlock options) else Some (resetBlock options)) = Some b ->
  template_coinbase options params height (template_fees b) = Some cb ->
  GenerateCoinbaseCommitment {| header := header_on uint256_null; vtx := cb :: selected b |} (Some prev) params = Some ({| header := header_on uint256_null; vtx := txs |}, commitment) ->
  UpdateTime t (header_on hash) params tip now = Some (d, h2) ->
  (forall pblock, GetNextWorkRequired t (Some tip) pblock params = Some (bits, set_nBits pblock bits)) ->
  CreateNewBlock bits_first copts params s caches tip coins options blockversion p now =
    (if test_block_validity options
     then r ← TestBlockValidity bits_first copts params s tip coins unset_memo blk false false (now * 10 ^ 9); match r with Connected => Some (template, caches') | _ => None end
     else Some (template, caches')).
Proof.
  intros Ht Hh Ever Hm Eb Ecb Egen Eup Hreq. unfold CreateNewBlock. fold t. rewrite Ht. cbn [mbind option_bind]. rewrite Ever. cbn [mbind option_bind]. fold version. rewrite Hm.
  cbn [mbind option_bind]. fold height. rewrite Eb. cbn [mbind option_bind]. rewrite Ecb. cbn [mbind option_bind]. unfold header_on in *. rewrite Egen. cbn [mbind option_bind].
  rewrite Hh. cbn [mbind option_bind]. cbn [header Primitives.nVersion hashMerkleRoot nTime nBits nNonce]. rewrite Eup. cbn [mbind option_bind]. rewrite Hreq. cbn [mbind option_bind set_nBits]. reflexivity.
Qed.

(** C14: The template.  On a tip of a well-formed index with segwit active and a clock that is not far behind it ([tip_ready]), and a consistent pool whose entries
    carry the weights of their transactions, have fees the model is defined on and whose fees with the subsidy fit 64 bits, [CreateNewBlock] assembles a block on
    the tip with the selected transactions, whose coinbase pays the subsidy and their fees to the given script and commits to the witnesses; its header and
    its body pass the contextual checks of validation, whichever operand the compiler evaluates first, and its weight is within the limit.  The options are
    those of [ClampOptions]; the payout script fits the reserved weight and does not look like a commitment; a version set by -blockversion, which counts
    only without retargeting, is at least 4.  The template is returned without test_block_validity, and with it exactly when [TestBlockValidity] accepts the
    block, which is the verdict of [CheckBlock] and [ConnectBlock] alone; otherwise the code throws. *)
Theorem template_valid bits_first order_checked copts params s caches tip (coins : CCoinsViewCache V) options clamped blockversion p now prev hash (subsidy := GetBlockSubsidy (nHeight prev + 1) params) :
  pool_ok p -> weights_ok (mapTx p) -> weighed p -> fees_defined p -> pool_sum (mapTx p) (fun e => Z.abs (EntryFee e)) + Z.abs subsidy < 2 ^ 63 ->
  0 <= coinbase_output_max_additional_sigops options -> ClampOptions options = Some clamped ->
  4 * zlen (coinbase_output_script options) + 900 <= block_reserved_weight options -> is_commitment (coinbase_output_script options) = false ->
  (forall v, fPowNoRetargeting params = true -> blockversion = Some v -> 4 <= i32 v) ->
  tip_ready (m_block_index s) params tip prev hash now -> caches_ok (m_block_index s) params caches ->
  exists template caches', CreateNewBlock bits_first copts params s caches tip coins clamped blockversion p now =
      (if test_block_validity options then r ← connect_test copts params s tip prev coins (block template); match r with Connected => Some (template, caches') | _ => None end
       else Some (template, caches')) /\
    hashPrevBlock (header (block template)) = hash /\
    vtx (block template) = committed_coinbase (nHeight prev + 1) (template_fees (template_state template) + subsidy) (coinbase_output_script options) (vchCoinbaseCommitment template) ::
                           selected (template_state template) /\
    ContextualCheckBlockHeader order_checked (m_block_index s) (header (block template)) params tip (now * 10 ^ 9) = Some (Valid tt, header (block template)) /\
    ContextualCheckBlock (m_block_index s) unset_memo (block template) params (Some tip) = Some (Valid tt, witness_memo).
Proof.
  intros Hok Hw Hwe Hf Hfees Hsig Hcl Hspk Hnc Hver Hti Hca. destruct (ClampOptions_ok _ _ Hsig Hcl) as [Hopt Hmin]. set (t := m_block_index s) in *. set (height := nHeight prev + 1) in *.
  destruct (ClampOptions_same _ _ Hcl) as (Hscript & Htv & Hres). rewrite <- Hscript, <- Hres, <- Htv in *. pose proof (ti_height _ _ _ _ _ _ Hti) as Hh. unfold LOCKTIME_THRESHOLD in Hh. pose proof (ti_clock _ _ _ _ _ _ Hti) as Hclock.
  destruct (ComputeBlockVersion_spec t (tree_entries t (ti_tree _ _ _ _ _ _ Hti)) (ti_timely _ _ _ _ _ _ Hti) params (ti_deployments _ _ _ _ _ _ Hti) (Some tip) caches) as (caches' & Ever & _);
    [exists prev; apply Hti|exact Hca|].
  set (version := if fPowNoRetargeting params then default (block_version t params (Some tip)) (i32 <$> blockversion) else block_version t params (Some tip)).
  assert (Hv4 : 4 <= version). { pose proof (block_version_large t params tip prev hash now Hti). unfold version. destruct (fPowNoRetargeting params); [|lia]. destruct blockversion as [v|]; [|change (4 <= block_version t params (Some tip)); lia]. apply (Hver v); done. }
  set (h0 := {| nVersion := version; hashPrevBlock := uint256_null; hashMerkleRoot := uint256_null; nTime := u32 now; nBits := 0; nNonce := 0 |}).
  set (h1 := {| nVersion := version; hashPrevBlock := hash; hashMerkleRoot := uint256_null; nTime := u32 now; nBits := 0; nNonce := 0 |}).
  destruct (UpdateTime_spec t params tip prev hash now Hti h1) as (mtp & mt & bits & d & h2 & Hm & Hlt & Hmax & _ & Hwarp & Hreq & Eup & U1 & U2 & U3 & U4 & U5); [cbn; apply wrap_small, Hclock|].
  destruct (template_selection p clamped height mtp Hok Hw Hf Hopt) as (b & l & Eb & Ha). pose proof (as_counts _ _ _ _ _ _ Ha) as Hc. pose proof (entries_fees p l (as_entries _ _ _ _ _ _ Ha)) as Hfl. rewrite <- (c_fees _ _ _ Hc) in Hfl.
  destruct (committed_template clamped params prev height (template_fees b) h0 (selected b)) as (cb & commitment & Ecb & Egen & Hlen & Hwit);
    [lia|unfold sfits; fold subsidy; lia|exact Hnc|apply Hti|apply (witness_hashes p clamped height mtp l b Hok Hw Hwe Ha)|].
  set (h := set_header_bits h2 bits).
  assert (Hh1 : hashPrevBlock h = hash /\ hashMerkleRoot h = uint256_null /\ nVersion h = version /\ nTime h = Z.max mt now /\ nBits h = bits) by (cbn; rewrite U1, U2, U3, U4; done).
  destruct Hh1 as (V1 & V2 & V3 & V4 & V5). set (blk := {| header := h; vtx := committed_coinbase height (template_fees b + subsidy) (coinbase_output_script clamped) commitment :: selected b |}).
  assert (Hhead : forall first, ContextualCheckBlockHeader first t (header blk) params tip (now * 10 ^ 9) = Some (Valid tt, header blk)).
  { intros first. apply (filled_header_valid t params tip prev hash now Hti first h bits mtp mt Hm Hlt Hmax Hwarp); [rewrite V3; lia|exact V4|exact Hreq|exact V5]. }
  assert (Hbody : ContextualCheckBlock t unset_memo blk params (Some tip) = Some (Valid tt, witness_memo)).
  { apply (ContextualCheckBlock_template t params tip prev hash now mtp h height _ _ commitment (selected b) Hti eq_refl Hm); [lia| |apply Hwit|].
    + intros tx Hin. rewrite (c_txs _ _ _ Hc) in Hin. apply list_elem_of_fmap in Hin as ([k e] & -> & Hin). exact (as_final _ _ _ _ _ _ Ha k e Hin).
    + apply (template_weight p clamped height mtp l b h _ Hok Hw Hwe Hopt Ha); [rewrite V1; apply Hti|rewrite V2; done|]. destruct Hopt as (O1 & O2 & _). unfold MAX_BLOCK_WEIGHT in *.
      pose proof (coinbase_weight height (template_fees b + subsidy) (coinbase_output_script clamped) commitment ltac:(lia) ltac:(lia) Hlen). lia. }
  exists {| block := blk; template_state := b; vchCoinbaseCommitment := commitment |}, caches'. cbn [block template_state vchCoinbaseCommitment]. split; [|split_and!; [exact V1|done|apply Hhead|exact Hbody]].
  rewrite <- (TestBlockValidity_contextual bits_first copts params s tip prev coins blk (now * 10 ^ 9) (ti_tip _ _ _ _ _ _ Hti)); [|change (phashBlock prev = Some (hashPrevBlock h)); rewrite V1; apply Hti|apply Hhead|exact Hbody].
  apply (CreateNewBlock_steps bits_first copts params s caches tip coins clamped blockversion p now prev hash mtp (block_version t params (Some tip)) caches' b cb _ commitment d h2 bits);
    [apply Hti|apply Hti|exact Ever|exact Hm|exact Eb|exact Ecb|exact Egen|exact Eup|exact Hreq].
Qed.
End create.

(** ** A template on a short chain *)

Module ShortChain.
Import PoolTheorems.Sample.
#[local] Existing Instance portable_cpu.
#[local] Existing Instance env.
#[local] Instance accept_all : ScriptVerifier := {| run_check := fun _ => None; execution_cached := fun _ _ => false; reported := fun _ => "" |}.
Definition params : Params := regtest_consensus default_regtest.
Definition manager : BlockManager := {| m_block_index := sample_branch; best_header := Some 8%nat; m_dirty_blockindex := [] |}.
Definition prev : CBlockIndex := default CBlockIndex_default (sample_branch !! 8%nat).
Definition copts : ConnectOptions :=
  {| AssumedValidBlock := uint256_null; MinimumChainWork := replicate 8 0; HasThreads := false; signet_solution := false; undo_pos := Some 0 |}.
Definition caches : DeploymentCaches := fun _ => ∅.

Lemma chain_tip : tip_ready sample_branch params 8 prev (8 :: replicate 31 0) 2000.
Proof.
  split.
  - apply sample_branch_ok.
  - apply sample_branch_ok.
  - vm_compute. reflexivity.
  - vm_compute. reflexivity.
  - reflexivity.
  - left. reflexivity.
  - destruct (networks_ok default_regtest) as (_ & _ & _ & [Hd _] & _). exact Hd.
  - discriminate.
  - vm_compute. split; [discriminate|reflexivity].
  - vm_compute. reflexivity.
  - split; [discriminate|reflexivity].
  - intros mt. replace (GetMinimumTime _ _ _) with (Some 105) by (vm_compute; reflexivity). intros [= <-]. unfold fits, MAX_FUTURE_BLOCK_TIME. lia.
Qed.

Lemma one_weighed n p : joined pool0 n entry p -> weighed p.
Proof. intros Hj h e He. destruct (Template.one_of n p h e Hj He) as (_ & Hd & _). unfold GetTxWeight, GetTx. rewrite Hd. vm_compute. reflexivity. Qed.
End ShortChain.

Lemma template_valid_witness : exists p template caches',
  apply_next (H := PoolTheorems.Sample.env) PoolTheorems.Sample.entry PoolTheorems.Sample.pool0 = Some p /\
  CreateNewBlock (H := portable_cpu) (H0 := ShortChain.accept_all) (H1 := @CoinsDB_view small_batches) (H2 := PoolTheorems.Sample.env) true ShortChain.copts ShortChain.params ShortChain.manager ShortChain.caches 8
    (CCoinsViewCache_new {| db_coins := ∅; db_best := None; db_heads := None |}) Template.options (Some 5) p 2000 = Some (template, caches') /\
  ContextualCheckBlock (H := portable_cpu) sample_branch unset_memo (block template) ShortChain.params (Some 8%nat) = Some (Valid tt, witness_memo).
Proof.
  destruct PoolTheorems.Sample.added_entry as (p & E & Hj). exists p.
  destruct (template_valid (H := portable_cpu) (H0 := ShortChain.accept_all) (H1 := @CoinsDB_view small_batches) (H2 := PoolTheorems.Sample.env) true true ShortChain.copts ShortChain.params ShortChain.manager ShortChain.caches 8
    (CCoinsViewCache_new {| db_coins := ∅; db_best := None; db_heads := None |}) Template.options Template.options (Some 5) p 2000 ShortChain.prev (8 :: replicate 31 0) (jo_ok _ _ _ _ Hj)
    (Template.one_weights _ p Hj) (ShortChain.one_weighed _ p Hj) (Template.one_fees _ p Hj)) as (template & caches' & Ec & _ & _ & _ & Hv).
  - rewrite (Template.one_sum _ p _ Hj). pose proof (jo_entries _ _ _ _ Hj (entry_hash PoolTheorems.Sample.entry)) as Hh. rewrite decide_True in Hh by exact eq_refl. apply fmap_Some in Hh as (x & Hx & Hee).
    rewrite (val_lookup _ _ _ _ Hx). injection Hee as Hd _ _. unfold EntryFee. rewrite <- Hd. vm_compute. reflexivity.
  - discriminate.
  - reflexivity.
  - discriminate.
  - reflexivity.
  - intros v _ [= <-]. discriminate.
  - exact ShortChain.chain_tip.
  - intros pos o st Hl. unfold ShortChain.caches in Hl. rewrite lookup_empty in Hl. discriminate Hl.
  - exists template, caches'. split; [exact E|]. split; [exact Ec|exact Hv].
Defined.
