(* ===== verification/ConnectProofs.v ===== *)
(** * Blocks and the set of unspent coins

    The effect of [UpdateCoins], [ConnectBlock] and [DisconnectBlock] on the coins a view shows, written as a finite map:
    a connected block creates no more than its subsidy, and disconnecting it restores the coins before it. *)

From Stdlib Require Import ZArith Lia Bool String.
From stdpp Require Import base numbers list gmap strings fin_maps.
From S2P Require Import Prelude ArithUint Uint256 Arith256 Params Hashes Serialize Primitives Opcodes Script ScriptFlags SigHash BlockIndex Coins CoinsDB TxVerify Merkle ChainParams Pow BlockCheck Connect.
Local Open Scope Z_scope.

(** ** The map of unspent coins *)

Notation UTXO := (gmap COutPoint Coin).

Definition coin_value (coin : Coin) : Z := nValue (coin_out coin).

(** the value of all coins *)
Definition total (m : UTXO) : Z := map_fold (fun _ coin acc => coin_value coin + acc) 0 m.

(** A coin of a chain of height [h] was created above the genesis block, has a value and can be spent. *)
Definition coin_ok (h : Z) (coin : Coin) : Prop :=
  0 < coin_nHeight coin <= h /\ 0 <= coin_value coin /\ IsUnspendable (scriptPubKey (coin_out coin)) = false.
Definition utxo_ok (h : Z) (m : UTXO) : Prop := map_Forall (fun _ coin => coin_ok h coin) m.

Fixpoint spend_map (ins : list CTxIn) (m : UTXO) : UTXO :=
  match ins with [] => m | i :: ins => spend_map ins (delete (prevout i) m) end.

Fixpoint add_map (txid : uint256) (h : Z) (cb : bool) (i : Z) (outs : list CTxOut) (m : UTXO) : UTXO :=
  match outs with
  | [] => m
  | out :: outs =>
      add_map txid h cb (i + 1) outs
        (if IsUnspendable (scriptPubKey out) then m else <[{| out_hash := txid; out_n := i |} := Coin_of out h cb]> m)
  end.

(** a transaction, and the transactions of a block *)
Definition tx_map (h : Z) (tx : CTransaction) (m : UTXO) : UTXO :=
  add_map (ComputeHash tx) h (IsCoinBase tx) 0 (vout tx) (if IsCoinBase tx then m else spend_map (vin tx) m).
Definition txs_map (h : Z) (txs : list CTransaction) (m : UTXO) : UTXO := foldl (fun m tx => tx_map h tx m) m txs.

(** no coin of [m] is an output of [tx] *)
Definition new_outputs (m : UTXO) (tx : CTransaction) : Prop :=
  forall n, 0 <= n < zlen (vout tx) -> m !! {| out_hash := ComputeHash tx; out_n := n |} = None.

(** [coins] are the coins of the inputs *)
Notation spent_coins m ins coins := (Forall2 (fun i coin => m !! prevout i = Some coin) ins coins).

Lemma total_insert m o coin : m !! o = None -> total (<[o := coin]> m) = coin_value coin + total m.
Proof.
  intros Ho. unfold total. rewrite map_fold_insert_L; [done| |done]. intros. lia.
Qed.

Lemma total_delete m o coin : m !! o = Some coin -> total m = coin_value coin + total (delete o m).
Proof. intros Ho. rewrite <- (insert_delete_id m o coin) at 1 by done. apply total_insert. apply lookup_delete_eq. Qed.

Lemma total_nonneg h m : utxo_ok h m -> 0 <= total m.
Proof.
  unfold total. induction m as [|o coin m Ho IH] using map_ind; intros Hm; [rewrite map_fold_empty; lia|].
  fold (total (<[o := coin]> m)). rewrite total_insert by done. apply map_Forall_insert in Hm as [(_ & ? & _) Hm]; [|done].
  specialize (IH Hm). unfold total. lia.
Qed.

(** *** Spending *)

Lemma spend_map_lookup ins m o : spend_map ins m !! o = if bool_decide (o ∈ prevout <$> ins) then None else m !! o.
Proof.
  revert m. induction ins as [|i ins IH]; intros m; cbn [spend_map fmap list_fmap].
  { rewrite bool_decide_eq_false_2 by apply not_elem_of_nil. done. }
  rewrite IH. destruct (decide (o = prevout i)) as [->|Hne].
  - rewrite lookup_delete_eq, (bool_decide_eq_true_2 (_ ∈ _ :: _)) by apply list_elem_of_here. case_bool_decide; done.
  - rewrite lookup_delete_ne by done. apply (f_equal (fun b : bool => if b then None else m !! o)).
    apply bool_decide_ext. rewrite elem_of_cons. tauto.
Qed.

Lemma spent_coins_ext (m m' : UTXO) ins coins : spent_coins m ins coins -> Forall (fun i => m' !! prevout i = m !! prevout i) ins -> spent_coins m' ins coins.
Proof. induction 1; inversion 1; subst; constructor; [congruence|auto]. Qed.

(** spending one input leaves the coins of the others *)
Lemma spent_coins_delete (m : UTXO) i ins coins : prevout i ∉ prevout <$> ins -> spent_coins m ins coins -> spent_coins (delete (prevout i) m) ins coins.
Proof.
  intros Hnot HF. apply (spent_coins_ext m); [done|]. apply Forall_forall. intros j Hj. rewrite lookup_delete_ne; [done|].
  intros E. apply Hnot. rewrite E. apply list_elem_of_fmap_2. done.
Qed.

Lemma spend_map_total ins m coins : NoDup (prevout <$> ins) -> spent_coins m ins coins ->
  total m = coins_sum coins + total (spend_map ins m).
Proof.
  revert m coins. induction ins as [|i ins IH]; intros m coins Hnd HF; inversion HF as [|? coin ? cs Hi HF']; subst; [done|].
  cbn [fmap list_fmap] in Hnd. apply NoDup_cons in Hnd as [Hnot Hnd]. cbn [spend_map].
  change (coins_sum (coin :: cs)) with (coin_value coin + coins_sum cs). rewrite (total_delete m _ _ Hi), (IH (delete (prevout i) m) cs); [lia|done|].
  apply spent_coins_delete; done.
Qed.

Lemma spend_map_ok h ins m : utxo_ok h m -> utxo_ok h (spend_map ins m).
Proof. revert m. induction ins as [|i ins IH]; intros m Hm; [done|]. apply IH. apply map_Forall_delete. done. Qed.

(** *** Creating *)

Lemma add_map_lookup_ne txid h cb i outs m o : out_hash o <> txid \/ out_n o < i -> add_map txid h cb i outs m !! o = m !! o.
Proof.
  revert i m. induction outs as [|out outs IH]; intros i m Ho; cbn [add_map]; [done|]. rewrite IH by (destruct Ho; [tauto|right; lia]).
  destruct (IsUnspendable _); [done|]. apply lookup_insert_ne. intros <-. cbn in Ho. destruct Ho; [done|lia].
Qed.

Lemma add_map_spec txid h cb i outs f m : 0 <= i -> i + zlen outs <= 2 ^ 32 -> (forall o, f o = m !! o) ->
  forall o, add_outputs txid h cb i outs f o = add_map txid h cb i outs m !! o.
Proof.
  revert i f m. induction outs as [|out outs IH]; intros i f m Hi Hlen Hf o; cbn [add_outputs add_map]; [done|]. cbn [length] in Hlen.
  apply IH; [lia|lia|]. intros p. destruct (IsUnspendable _); [done|]. rewrite wrap_small by (unfold fits; lia). unfold set_utxo.
  case_bool_decide as E; [subst; rewrite lookup_insert_eq; done|rewrite lookup_insert_ne by congruence; done].
Qed.

Lemma add_map_total txid h cb i outs m : Forall (fun o => MoneyRange (nValue o) = true) outs ->
  (forall n, i <= n < i + zlen outs -> m !! {| out_hash := txid; out_n := n |} = None) ->
  total m <= total (add_map txid h cb i outs m) <= total m + value_sum outs.
Proof.
  revert i m. induction outs as [|out outs IH]; intros i m Hv Habs; cbn [add_map]; [cbn; lia|]. inversion Hv as [|? ? Hr Hv']; subst.
  apply MoneyRange_iff in Hr. change (value_sum (out :: outs)) with (nValue out + value_sum outs). cbn [length] in Habs.
  destruct (IsUnspendable _).
  - specialize (IH (i + 1) m Hv' ltac:(intros; apply Habs; lia)). lia.
  - destruct (IH (i + 1) (<[{| out_hash := txid; out_n := i |} := Coin_of out h cb]> m) Hv') as [H1 H2].
    { intros n Hn. rewrite lookup_insert_ne; [apply Habs; lia|]. intros [= ->]. lia. }
    rewrite total_insert in H1, H2 by (apply Habs; lia). unfold coin_value in *. cbn [Coin_of coin_out] in *. lia.
Qed.

Lemma add_map_ok txid h cb i outs m : 0 < h < 2 ^ 31 -> utxo_ok h m -> Forall (fun o => MoneyRange (nValue o) = true) outs ->
  utxo_ok h (add_map txid h cb i outs m).
Proof.
  intros Hh. revert i m. induction outs as [|out outs IH]; intros i m Hm Hv; cbn [add_map]; [done|]. inversion Hv as [|? ? Hr Hv']; subst.
  apply IH; [|done]. destruct (IsUnspendable _) eqn:Hu; [done|]. apply map_Forall_insert_2; [|done]. apply MoneyRange_iff in Hr.
  unfold coin_ok, coin_value. cbn [Coin_of coin_out coin_nHeight]. rewrite wrap_small by (unfold fits; lia). split; [lia|]. split; [lia|done].
Qed.

(** the outpoint of an output of the transaction *)
Definition output_of (tx : CTransaction) (o : COutPoint) : Prop := out_hash o = ComputeHash tx /\ 0 <= out_n o < zlen (vout tx).

Lemma add_map_lookup_out txid h cb i outs m o : ~ (out_hash o = txid /\ i <= out_n o < i + zlen outs) -> add_map txid h cb i outs m !! o = m !! o.
Proof.
  revert i m. induction outs as [|out outs IH]; intros i m Ho; cbn [add_map]; [done|]. cbn [length] in Ho. rewrite IH by (intros [? ?]; apply Ho; split; [done|lia]).
  destruct (IsUnspendable _); [done|]. apply lookup_insert_ne. intros <-. apply Ho. split; [done|]. cbn [out_n]. lia.
Qed.

(** *** A transaction *)

Lemma new_outputs_absent m tx o : new_outputs m tx -> output_of tx o -> m !! o = None.
Proof. intros Hnew [Hh Hn]. destruct o as [h n]. cbn in Hh, Hn. subst h. apply Hnew. exact Hn. Qed.

(** the inputs of the transaction are gone, and what was not there is not there unless the transaction creates it *)
Lemma tx_map_spent h tx m i : IsCoinBase tx = false -> i ∈ vin tx -> ~ output_of tx (prevout i) -> tx_map h tx m !! prevout i = None.
Proof.
  intros Hcb Hi Ho. unfold tx_map. rewrite Hcb, add_map_lookup_out by (rewrite Z.add_0_l; exact Ho). rewrite spend_map_lookup, bool_decide_eq_true_2; [done|].
  apply list_elem_of_fmap_2. exact Hi.
Qed.
Lemma tx_map_absent h tx m o : m !! o = None -> ~ output_of tx o -> tx_map h tx m !! o = None.
Proof.
  intros Hm Ho. unfold tx_map. rewrite add_map_lookup_out by (rewrite Z.add_0_l; exact Ho). destruct (IsCoinBase tx); [done|].
  rewrite spend_map_lookup. case_bool_decide; done.
Qed.

Lemma tx_map_ok h tx m : 0 < h < 2 ^ 31 -> utxo_ok h m -> Forall (fun o => MoneyRange (nValue o) = true) (vout tx) -> utxo_ok h (tx_map h tx m).
Proof. intros Hh Hm Hv. apply add_map_ok; [done| |done]. destruct (IsCoinBase tx); [done|apply spend_map_ok; done]. Qed.

Lemma spend_map_absent ins m o : m !! o = None -> spend_map ins m !! o = None.
Proof. intros Ho. rewrite spend_map_lookup. case_bool_decide; done. Qed.

(** the outputs of other transactions stay absent *)
Lemma new_outputs_tx_map h tx tx' m : ComputeHash tx' <> ComputeHash tx -> new_outputs m tx' -> new_outputs (tx_map h tx m) tx'.
Proof.
  intros Hne Hnew n Hn. unfold tx_map. rewrite add_map_lookup_ne by (left; cbn; done).
  destruct (IsCoinBase tx); [|apply spend_map_absent]; apply Hnew; done.
Qed.

(** value is conserved up to the fee; a coinbase creates its outputs *)
Lemma tx_map_total h tx m : new_outputs m tx -> Forall (fun o => MoneyRange (nValue o) = true) (vout tx) ->
  if IsCoinBase tx then total (tx_map h tx m) <= total m + value_sum (vout tx)
  else forall coins, NoDup (prevout <$> vin tx) -> spent_coins m (vin tx) coins ->
         total (tx_map h tx m) + coins_sum coins <= total m + value_sum (vout tx).
Proof.
  intros Hnew Hv. unfold tx_map. destruct (IsCoinBase tx).
  - apply add_map_total; [done|exact Hnew].
  - intros coins Hnd Hc. rewrite (spend_map_total _ _ _ Hnd Hc).
    pose proof (add_map_total (ComputeHash tx) h false 0 (vout tx) (spend_map (vin tx) m) Hv) as Ht.
    destruct Ht as [_ Ht]; [|lia]. intros n Hn. apply spend_map_absent, Hnew. lia.
Qed.

(** ** The operations on views *)

Section views.
Context `{Cpu} `{ScriptVerifier} {V : Type} `{LawfulView V}.
Implicit Types c : CCoinsViewCache V.

(** the view shows the coins [m] *)
Definition shows_map c (m : UTXO) : Prop := cache_ok c /\ forall o, cache_coins c o = m !! o.

Lemma same_view_refl c : cache_ok c -> same_view c c.
Proof. intros Hc. split; [done|]. split; done. Qed.

Lemma same_view_shows c c' m : same_view c c' -> shows_map c m -> shows_map c' m.
Proof. intros (Hc & Hco & _) [_ Hm]. split; [done|]. intros o. rewrite Hco. apply Hm. Qed.

Lemma shows_unspent c m o coin : shows_map c m -> m !! o = Some coin -> IsSpent coin = false.
Proof. intros [Hc Hm] Ho. apply (cache_unspent c Hc o). rewrite Hm. done. Qed.

Lemma AccessCoin_map c m o : shows_map c m ->
  exists coin c', AccessCoin c o = (coin, c') /\ same_view c c' /\ shows_map c' m /\ unspent coin = m !! o.
Proof.
  intros Hs. destruct (AccessCoin_spec c o (proj1 Hs)) as (coin & c' & -> & Hu & Hsame). exists coin, c'. split; [done|].
  split; [done|]. split; [exact (same_view_shows _ _ _ Hsame Hs)|]. rewrite Hu. apply Hs.
Qed.

(** an input whose coin is there *)
Lemma AccessCoin_found c m o coin : shows_map c m -> m !! o = Some coin ->
  exists c', AccessCoin c o = (coin, c') /\ same_view c c' /\ shows_map c' m /\ IsSpent coin = false.
Proof.
  intros Hs Ho. destruct (AccessCoin_map c m o Hs) as (coin' & c' & -> & Hsame & Hs' & Hu). rewrite Ho in Hu. unfold unspent in Hu.
  destruct (IsSpent coin') eqn:E; [done|]. injection Hu as ->. eauto.
Qed.

Lemma spent_outputs_spec ins c m coins : shows_map c m -> spent_coins m ins coins ->
  exists c', spent_outputs ins c = Some (coin_out <$> coins, c') /\ same_view c c'.
Proof.
  intros Hs HF. revert c Hs. induction HF as [|i coin ins coins Hi HF IH]; intros c Hs; cbn [spent_outputs].
  { exists c. split; [done|]. apply same_view_refl, Hs. }
  destruct (AccessCoin_found c m _ _ Hs Hi) as (c1 & -> & Hsame & Hs1 & ->). destruct (IH c1 Hs1) as (c2 & -> & Hsame2).
  cbn [mbind option_bind]. exists c2. split; [done|]. exact (same_view_trans _ _ _ Hsame Hsame2).
Qed.

Lemma CheckInputScripts_spec tx c m flags q coins : shows_map c m -> spent_coins m (vin tx) coins ->
  exists v c', CheckInputScripts tx c flags q = Some (v, c') /\ same_view c c'.
Proof.
  intros Hs HF. unfold CheckInputScripts. destruct (IsCoinBase tx); [eexists _, c; split; [done|apply same_view_refl, Hs]|].
  destruct (execution_cached tx flags); [eexists _, c; split; [done|apply same_view_refl, Hs]|].
  destruct (spent_outputs_spec _ c m coins Hs HF) as (c' & -> & Hsame). cbn [mbind option_bind].
  destruct (Init_ready tx (coin_out <$> coins) false) as (txdata & -> & Eouts); [rewrite length_fmap, (Forall2_length _ _ _ HF); done|].
  cbn [mbind option_bind]. rewrite Eouts, length_fmap, (Forall2_length _ _ _ HF), Z.eqb_refl. cbn [negb].
  destruct q; [eauto|]. destruct (run_checks _ _); eauto.
Qed.

Lemma p2sh_sigops_spec ins c m coins n : shows_map c m -> spent_coins m ins coins ->
  exists n' c', p2sh_sigops_loop ins n c = Some (n', c') /\ same_view c c'.
Proof.
  intros Hs HF. revert c n Hs. induction HF as [|i coin ins coins Hi HF IH]; intros c n Hs; cbn [p2sh_sigops_loop].
  { eexists _, c. split; [done|]. apply same_view_refl, Hs. }
  destruct (AccessCoin_found c m _ _ Hs Hi) as (c1 & -> & Hsame & Hs1 & ->).
  edestruct (IH c1) as (n' & c2 & -> & Hsame2); [done|]. exists n', c2. split; [done|]. exact (same_view_trans _ _ _ Hsame Hsame2).
Qed.

(** flags that count witness operations count those of script hashes *)
Definition flags_ok (flags : Z) : Prop := flag flags SCRIPT_VERIFY_WITNESS = true -> flag flags SCRIPT_VERIFY_P2SH = true.

Lemma CountWitnessSigOps_total sig spk w flags : flags_ok flags -> exists n, CountWitnessSigOps sig spk w flags = Some n.
Proof.
  intros Hf. unfold CountWitnessSigOps, flags_ok in *. destruct (flag flags SCRIPT_VERIFY_WITNESS); cbn [negb]; [|eauto].
  rewrite (Hf eq_refl). cbn [negb]. destruct (IsWitnessProgram spk) as [[]|]; [eauto|]. destruct (_ && _); [|eauto].
  destruct (IsWitnessProgram _) as [[]|]; eauto.
Qed.

Lemma witness_sigops_spec flags ins c m coins n : flags_ok flags -> shows_map c m -> spent_coins m ins coins ->
  exists n' c', witness_sigops_loop ins flags n c = Some (n', c') /\ same_view c c'.
Proof.
  intros Hf Hs HF. revert c n Hs. induction HF as [|i coin ins coins Hi HF IH]; intros c n Hs; cbn [witness_sigops_loop].
  { eexists _, c. split; [done|]. apply same_view_refl, Hs. }
  destruct (AccessCoin_found c m _ _ Hs Hi) as (c1 & -> & Hsame & Hs1 & ->).
  destruct (CountWitnessSigOps_total (scriptSig i) (scriptPubKey (coin_out coin)) (scriptWitness i) flags Hf) as (w & ->). cbn [mbind option_bind].
  edestruct (IH c1) as (n' & c2 & -> & Hsame2); [done|]. exists n', c2. split; [done|]. exact (same_view_trans _ _ _ Hsame Hsame2).
Qed.

Lemma sigop_cost_spec tx c m flags coins : flags_ok flags -> shows_map c m -> (IsCoinBase tx = false -> spent_coins m (vin tx) coins) ->
  exists n c', GetTransactionSigOpCost tx c flags = Some (n, c') /\ same_view c c'.
Proof.
  intros Hf Hs HF. unfold GetTransactionSigOpCost, GetP2SHSigOpCount.
  destruct (IsCoinBase tx); [eexists _, c; split; [done|apply same_view_refl, Hs]|]. specialize (HF eq_refl).
  destruct (flag flags SCRIPT_VERIFY_P2SH); [|cbn [mbind option_bind]; apply (witness_sigops_spec _ _ _ m coins); done].
  edestruct p2sh_sigops_spec as (n & c1 & -> & Hsame); [exact Hs|exact HF|]. cbn [mbind option_bind].
  edestruct (witness_sigops_spec flags) as (n' & c2 & -> & Hsame2); [exact Hf|exact (same_view_shows _ _ _ Hsame Hs)|exact HF|].
  eexists _, c2. split; [done|]. exact (same_view_trans _ _ _ Hsame Hsame2).
Qed.

Lemma prev_heights_spec ins c m coins : shows_map c m -> spent_coins m ins coins ->
  exists c', prev_heights ins c = (coin_nHeight <$> coins, c') /\ same_view c c'.
Proof.
  intros Hs HF. revert c Hs. induction HF as [|i coin ins coins Hi HF IH]; intros c Hs; cbn [prev_heights].
  { exists c. split; [done|]. apply same_view_refl, Hs. }
  destruct (AccessCoin_found c m _ _ Hs Hi) as (c1 & -> & Hsame & Hs1 & _). destruct (IH c1 Hs1) as (c2 & -> & Hsame2).
  exists c2. split; [done|]. exact (same_view_trans _ _ _ Hsame Hsame2).
Qed.

Lemma spend_loop_spec ins c m coins : shows_map c m -> NoDup (prevout <$> ins) -> spent_coins m ins coins ->
  exists c', spend_loop ins c = Some (coins, c') /\ shows_map c' (spend_map ins m) /\ cache_best c' = cache_best c.
Proof.
  intros Hs Hnd HF. revert c m Hs HF Hnd. revert coins. induction ins as [|i ins IH]; intros coins c m Hs HF Hnd;
    inversion HF as [|? coin ? cs Hi HF']; subst; cbn [spend_loop spend_map]; [exists c; done|].
  cbn [fmap list_fmap] in Hnd. apply NoDup_cons in Hnd as [Hnot Hnd].
  destruct (SpendCoin_spec c (prevout i) (proj1 Hs)) as (b & moved & c1 & -> & Hc1 & Hb1 & Hco & _ & Hm & _).
  destruct (Hm coin) as [-> ->]; [rewrite (proj2 Hs); done|].
  destruct (IH cs c1 (delete (prevout i) m)) as (c2 & -> & Hs2 & Hb2); [| |done|].
  - split; [done|]. intros o. rewrite Hco. case_bool_decide as E; [subst; rewrite lookup_delete_eq; done|].
    rewrite lookup_delete_ne by done. apply Hs.
  - apply spent_coins_delete; done.
  - cbn [mbind option_bind]. exists c2. split; [done|]. split; [done|]. congruence.
Qed.

(** what spending [coins] with [fee] left over means for a transaction *)
Definition tx_effect (tx : CTransaction) (m : UTXO) (coins : list Coin) (fee : Z) : Prop :=
  0 <= fee /\
  if IsCoinBase tx then coins = [] /\ fee = 0
  else NoDup (prevout <$> vin tx) /\ spent_coins m (vin tx) coins /\ coins_sum coins = value_sum (vout tx) + fee.

Definition outputs_ok (tx : CTransaction) : Prop := Forall (fun o => MoneyRange (nValue o) = true) (vout tx) /\ zlen (vout tx) <= 2 ^ 32.

Lemma UpdateCoins_spec tx c m h coins fee : shows_map c m -> outputs_ok tx -> new_outputs m tx -> tx_effect tx m coins fee ->
  exists c', UpdateCoins tx c h = Some (coins, c') /\ shows_map c' (tx_map h tx m) /\ cache_best c' = cache_best c.
Proof.
  intros Hs [Hv Hlen] Hnew [_ He]. unfold UpdateCoins, tx_map.
  assert (Hsp : exists c1, (if IsCoinBase tx then Some ([], c) else spend_loop (vin tx) c) = Some (coins, c1) /\
    shows_map c1 (if IsCoinBase tx then m else spend_map (vin tx) m) /\ cache_best c1 = cache_best c).
  { destruct (IsCoinBase tx); [destruct He as [-> _]; exists c; done|]. apply spend_loop_spec; tauto. }
  destruct Hsp as (c1 & -> & Hs1 & Hb1). cbn [mbind option_bind]. set (m1 := if IsCoinBase tx then m else _) in *.
  assert (Hnew1 : forall n, 0 <= n < zlen (vout tx) -> m1 !! {| out_hash := ComputeHash tx; out_n := n |} = None).
  { intros n Hn. unfold m1. destruct (IsCoinBase tx); [|apply spend_map_absent]; apply Hnew; done. }
  destruct (AddCoins_spec c1 tx h false (proj1 Hs1)) as (c2 & -> & Hc2 & Hb2 & Hco2); [|done|..].
  { eapply Forall_impl; [exact Hv|]. intros o Ho%MoneyRange_iff. unfold CTxOut_IsNull. apply Z.eqb_neq. lia. }
  { intros _ _ n Hn. rewrite (proj2 Hs1). apply Hnew1. done. }
  cbn [mbind option_bind]. exists c2. split; [done|]. split; [|congruence]. split; [done|]. intros o. rewrite Hco2.
  apply add_map_spec; [lia|lia|apply Hs1].
Qed.

(** *** The loop over the transactions *)

Context (k : connect_context) (b : CBlockIndex) (q : nat) (mtp : Z).
Context (Htree : tree_ok (index k)) (Hb : index k !! position k = Some b) (Hq : pprev b = Some q).
Context (Hmtp : GetMedianTimePast (index k) q = Some mtp) (Hheight : height k = nHeight b) (Hrange : 0 < height k < 2 ^ 31).
Context (Hflags : flags_ok (script_flags k)).

Lemma coin_heights m ins coins : utxo_ok (height k) m -> spent_coins m ins coins -> Forall (fun h => h - 1 <= nHeight b) (coin_nHeight <$> coins).
Proof.
  intros Hm HF. induction HF as [|i coin ins coins Hi _ IH]; constructor; [|done]. destruct (Hm _ _ Hi) as [? _]. rewrite <- Hheight. lia.
Qed.

Lemma check_spend_spec tx fees c m : shows_map c m -> utxo_ok (height k) m -> well_formed_tx tx -> IsCoinBase tx = false -> 0 <= fees <= MAX_MONEY ->
  exists v c', check_spend (index k) (position k) (lock_flags k) tx fees c = Some (v, c') /\ same_view c c' /\
    forall fees', v = Valid fees' -> exists coins fee, fees' = fees + fee /\ fees' <= MAX_MONEY /\ tx_effect tx m coins fee.
Proof.
  intros Hs Hm Hwf Hcb Hfees. destruct Hwf as (_ & _ & _ & Hv & Hsum & Hnd & _).
  assert (Hout : GetValueOut tx = Some (value_sum (vout tx))).
  { apply value_out_loop_spec; [vm_compute; intuition congruence|]. done. }
  unfold check_spend. rewrite Hb. cbn [mbind option_bind].
  destruct (CheckTxInputs_spec tx c (nHeight b) _ (proj1 Hs) Hcb Hout) as (v & c1 & -> & Hsame & Hiff). cbn [mbind option_bind].
  destruct v as [fee|r reason]; [|eexists _, c1; split; [done|]; split; [done|]; done].
  destruct (proj1 (Hiff fee) eq_refl) as (coins & HF & _ & Hfee & Hnn).
  assert (Hsc : spent_coins m (vin tx) coins).
  { clear -HF Hs. induction HF as [|? ? ? ? (E & _)]; constructor; [rewrite <- (proj2 Hs); done|done]. }
  destruct (MoneyRange (fees + fee)) eqn:Hr; cbn [negb]; [|eexists _, c1; split; [done|]; split; [done|]; done].
  apply MoneyRange_iff in Hr.
  destruct (prev_heights_spec (vin tx) c1 m coins (same_view_shows _ _ _ Hsame Hs) Hsc) as (c2 & -> & Hsame2).
  destruct (SequenceLocks_total (index k) tx (lock_flags k) (coin_nHeight <$> coins) (position k) q b mtp) as (r & ->); try done.
  { rewrite length_fmap. symmetry. exact (Forall2_length _ _ _ HF). }
  { exact (coin_heights m _ _ Hm Hsc). }
  cbn [mbind option_bind]. pose proof (same_view_trans _ _ _ Hsame Hsame2) as Hs2.
  destruct r; cbn [negb]; (eexists _, c2; split; [done|]; split; [done|]); [|done].
  intros fees' [= <-]. exists coins, fee. split; [done|]. split; [lia|]. unfold tx_effect. rewrite Hcb. done.
Qed.

(** an input of the transaction is not there *)
Definition lacks_input (m : UTXO) (tx : CTransaction) : Prop := IsCoinBase tx = false /\ exists i, i ∈ vin tx /\ m !! prevout i = None.

Lemma lacks_input_effect m tx coins fee : lacks_input m tx -> ~ tx_effect tx m coins fee.
Proof.
  intros (Hcb & i & Hi & Hm) [_ He]. rewrite Hcb in He. destruct He as (_ & HF & _). apply list_elem_of_lookup_1 in Hi as [j Hj].
  destruct (Forall2_lookup_l _ _ _ _ _ HF Hj) as (coin & _ & Hc). congruence.
Qed.

Lemma connect_tx_spec i tx st c m : shows_map c m -> utxo_ok (height k) m -> well_formed_tx tx -> outputs_ok tx -> new_outputs m tx \/ lacks_input m tx ->
  0 <= nFees st <= MAX_MONEY ->
  exists v c', connect_tx k i tx st c = Some (v, c') /\
    forall st', v = Valid st' -> shows_map c' (tx_map (height k) tx m) /\ cache_best c' = cache_best c /\ new_outputs m tx /\
      exists coins fee, nFees st' = nFees st + fee /\ nFees st' <= MAX_MONEY /\ tx_effect tx m coins fee /\
        blockundo st' = match i with O => blockundo st | S _ => blockundo st ++ [coins] end.
Proof.
  intros Hs Hm Hwf Hok Hnew Hfees. unfold connect_tx.
  assert (Hfirst : exists v c1, (if IsCoinBase tx then Some (Valid (nFees st), c)
      else check_spend (index k) (position k) (lock_flags k) tx (nFees st) c) = Some (v, c1) /\ same_view c c1 /\
      forall fees, v = Valid fees -> exists coins fee, fees = nFees st + fee /\ fees <= MAX_MONEY /\ tx_effect tx m coins fee).
  { destruct (IsCoinBase tx) eqn:Hcb; [|apply check_spend_spec; done]. eexists _, c. split; [done|]. split; [apply same_view_refl, Hs|].
    intros fees [= <-]. exists [], 0. unfold tx_effect. rewrite Hcb. split_and!; lia || done. }
  destruct Hfirst as (v & c1 & -> & Hsame & Hv). cbn [mbind option_bind]. destruct v as [fees|r reason]; [|eexists _, c1; done].
  destruct (Hv fees eq_refl) as (coins & fee & Hfee & Hle & Heff). destruct Hnew as [Hnew|Hl]; [|destruct (lacks_input_effect _ _ _ _ Hl Heff)]. pose proof (same_view_shows _ _ _ Hsame Hs) as Hs1.
  assert (Hsc : IsCoinBase tx = false -> spent_coins m (vin tx) coins) by (destruct Heff as [_ He]; intros E; rewrite E in He; tauto).
  destruct (sigop_cost_spec tx c1 m (script_flags k) coins Hflags Hs1 Hsc) as (n & c2 & -> & Hsame2). cbn [mbind option_bind].
  destruct (_ >? _); [eexists _, c2; done|]. pose proof (same_view_shows _ _ _ Hsame2 Hs1) as Hs2.
  assert (Hscr : exists v c3, (if negb (IsCoinBase tx) && fScriptChecks k then CheckInputScripts tx c2 (script_flags k) (queue k) else Some (Valid [], c2)) =
      Some (v, c3) /\ same_view c2 c3).
  { destruct (IsCoinBase tx); cbn [negb andb]; [eexists _, c2; split; [done|apply same_view_refl, Hs2]|].
    destruct (fScriptChecks k); [|eexists _, c2; split; [done|apply same_view_refl, Hs2]].
    apply (CheckInputScripts_spec tx c2 m _ _ coins); [done|]. apply Hsc. done. }
  destruct Hscr as (v & c3 & -> & Hsame3). cbn [mbind option_bind]. destruct v as [checks|r reason]; [|eexists _, c3; done].
  destruct (UpdateCoins_spec tx c3 m (height k) coins fee (same_view_shows _ _ _ Hsame3 Hs2) Hok Hnew Heff) as (c4 & -> & Hs4 & Hb4).
  cbn [mbind option_bind]. eexists _, c4. split; [done|]. intros st' [= <-]. cbn [nFees blockundo]. split; [done|].
  split; [destruct Hsame as (_ & _ & E1), Hsame2 as (_ & _ & E2), Hsame3 as (_ & _ & E3); congruence|].
  split; [done|]. exists coins, fee. done.
Qed.

(** the transactions of a block connect to [m], spending [undo] (with an empty record for a coinbase) and leaving [fees] *)
Inductive connects (h : Z) : list CTransaction -> UTXO -> CBlockUndo -> Z -> Prop :=
| connects_nil m : connects h [] m [] 0
| connects_cons tx txs m coins undo fee fees : outputs_ok tx -> new_outputs m tx -> tx_effect tx m coins fee ->
    connects h txs (tx_map h tx m) undo fees -> connects h (tx :: txs) m (coins :: undo) (fee + fees).

(** transactions with the same identifier spend the same outputs *)
Definition same_spends (txs : list CTransaction) : Prop :=
  forall tx tx', tx ∈ txs -> tx' ∈ txs -> ComputeHash tx = ComputeHash tx' -> prevout <$> vin tx = prevout <$> vin tx'.

Lemma same_spends_coinbase tx tx' : prevout <$> vin tx = prevout <$> vin tx' -> IsCoinBase tx = IsCoinBase tx'.
Proof.
  unfold IsCoinBase. destruct (vin tx) as [|i [|]], (vin tx') as [|i' [|]]; cbn; intros E; simplify_eq; try done. congruence.
Qed.

(** Between two transactions: those of [pre] are connected and those of [txs] are not.  A transaction that repeats no identifier has new outputs; the
    inputs of the connected ones are spent and are not outputs of such a transaction. *)
Record between (pre txs : list CTransaction) (m : UTXO) : Prop := {
  between_new : forall tx, tx ∈ txs -> ComputeHash tx ∉ ComputeHash <$> pre -> new_outputs m tx;
  between_spent : forall tx0 i, tx0 ∈ pre -> IsCoinBase tx0 = false -> i ∈ vin tx0 -> m !! prevout i = None /\
    forall tx, tx ∈ txs -> ComputeHash tx ∉ ComputeHash <$> pre -> ~ output_of tx (prevout i);
}.

Lemma between_start txs m : Forall (new_outputs m) txs -> between [] txs m.
Proof. rewrite Forall_forall. intros Hn. split; [auto|]. intros tx0 i Hin. apply not_elem_of_nil in Hin as []. Qed.

(** the next transaction has new outputs, or repeats one whose inputs are spent *)
Lemma between_next pre tx txs m : between pre (tx :: txs) m -> same_spends (pre ++ tx :: txs) -> vin tx <> [] ->
  (pre <> [] -> IsCoinBase tx = false) -> (ComputeHash tx ∉ ComputeHash <$> pre /\ new_outputs m tx) \/ lacks_input m tx.
Proof.
  intros [Hnew Hspent] Hsame Hvin Hcb. destruct (decide (ComputeHash tx ∈ ComputeHash <$> pre)) as [Hin|Hout].
  2:{ left. split; [exact Hout|]. apply Hnew; [apply list_elem_of_here|exact Hout]. }
  right. apply list_elem_of_fmap in Hin as (tx0 & E & Hin0). assert (Hpre : pre <> []) by (intros ->; apply not_elem_of_nil in Hin0 as []).
  specialize (Hcb Hpre). split; [exact Hcb|].
  assert (Ev : prevout <$> vin tx = prevout <$> vin tx0) by (apply Hsame; [apply elem_of_app; right; apply list_elem_of_here|apply elem_of_app; left; exact Hin0|exact E]).
  destruct (vin tx) as [|i ins] eqn:Ei; [done|]. exists i. split; [apply list_elem_of_here|]. rewrite <- Ei in Ev.
  assert (Hi : prevout i ∈ prevout <$> vin tx0) by (rewrite <- Ev, Ei; apply list_elem_of_here). apply list_elem_of_fmap in Hi as (i0 & -> & Hi0).
  apply (Hspent tx0 i0 Hin0); [|exact Hi0]. rewrite <- (same_spends_coinbase tx tx0 Ev). exact Hcb.
Qed.

Lemma between_step h pre tx txs m coins fee : between pre (tx :: txs) m -> ComputeHash tx ∉ ComputeHash <$> pre -> new_outputs m tx -> tx_effect tx m coins fee ->
  between (pre ++ [tx]) txs (tx_map h tx m).
Proof.
  intros [Hnew Hspent] Hout Hn [_ He]. assert (Hless : forall tx', tx' ∈ txs -> ComputeHash tx' ∉ ComputeHash <$> (pre ++ [tx]) ->
    tx' ∈ tx :: txs /\ ComputeHash tx' ∉ ComputeHash <$> pre /\ ComputeHash tx' <> ComputeHash tx).
  { intros tx' Hin Hx. rewrite fmap_app, elem_of_app in Hx. split; [apply list_elem_of_further; exact Hin|]. split; [tauto|].
    intros E. apply Hx. right. rewrite E. apply list_elem_of_here. }
  split.
  - intros tx' Hin Hx. destruct (Hless tx' Hin Hx) as (H1' & H2' & H3'). apply new_outputs_tx_map; [exact H3'|]. exact (Hnew tx' H1' H2').
  - intros tx0 i [Hin|Hin]%elem_of_app Hcb Hi.
    + destruct (Hspent tx0 i Hin Hcb Hi) as [Hm Hno]. split.
      * apply tx_map_absent; [exact Hm|]. apply Hno; [apply list_elem_of_here|exact Hout].
      * intros tx' Hin' Hx. destruct (Hless tx' Hin' Hx) as (H1' & H2' & _). exact (Hno tx' H1' H2').
    + apply list_elem_of_singleton in Hin as ->. rewrite Hcb in He. destruct He as (_ & HF & _). apply list_elem_of_lookup_1 in Hi as Hj. destruct Hj as [j Hj].
      destruct (Forall2_lookup_l _ _ _ _ _ HF Hj) as (coin & _ & Hc). split.
      * apply tx_map_spent; [exact Hcb|exact Hi|]. intros Ho. rewrite (new_outputs_absent _ _ _ Hn Ho) in Hc. discriminate Hc.
      * intros tx' Hin' Hx Ho. destruct (Hless tx' Hin' Hx) as (H1' & H2' & _). rewrite (new_outputs_absent _ _ _ (Hnew tx' H1' H2') Ho) in Hc. discriminate Hc.
Qed.

Lemma connect_loop_spec pre i txs st c m : shows_map c m -> utxo_ok (height k) m -> Forall (fun tx => well_formed_tx tx /\ outputs_ok tx) txs ->
  between pre txs m -> same_spends (pre ++ txs) -> Forall (fun tx => IsCoinBase tx = false) (match pre with [] => tail txs | _ => txs end) ->
  0 <= nFees st <= MAX_MONEY ->
  exists v c', connect_loop k i txs st c = Some (v, c') /\
    forall st', v = Valid st' -> shows_map c' (txs_map (height k) txs m) /\ cache_best c' = cache_best c /\ utxo_ok (height k) (txs_map (height k) txs m) /\
      exists undo fees, nFees st' = nFees st + fees /\ connects (height k) txs m undo fees /\
        blockundo st' = blockundo st ++ match i with O => tail undo | S _ => undo end.
Proof.
  revert pre i st c m. induction txs as [|tx txs IH]; intros pre i st c m Hs Hm Hwf Hbt Hsame Hcb Hfees; cbn [connect_loop].
  { eexists _, c. split; [done|]. intros st' [= <-]. split; [done|]. split; [done|]. split; [done|]. exists [], 0. split; [lia|].
    split; [constructor|]. destruct i; cbn [tail]; rewrite app_nil_r; done. }
  inversion Hwf as [|? ? [Hw Hok] Hwf']; subst.
  assert (Hcb1 : (pre <> [] -> IsCoinBase tx = false) /\ Forall (fun tx => IsCoinBase tx = false) txs).
  { destruct pre; [split; [done|exact Hcb]|]. inversion Hcb; subst. done. }
  destruct Hcb1 as [Hcb1 Hcb2]. pose proof (between_next pre tx txs m Hbt Hsame (proj1 Hw) Hcb1) as Hn.
  destruct (connect_tx_spec i tx st c m Hs Hm Hw Hok ltac:(tauto) Hfees) as (v & c1 & -> & Hv). cbn [mbind option_bind].
  destruct v as [st1|r reason]; [|eexists _, c1; done].
  destruct (Hv st1 eq_refl) as (Hs1 & Hb1 & Hnew & coins & fee & Hf1 & Hle & Heff & Hu1). pose proof Heff as [Hpos _].
  destruct Hn as [[Hout _]|Hl]; [|destruct (lacks_input_effect _ _ _ _ Hl Heff)].
  destruct (IH (pre ++ [tx]) (S i) st1 c1 (tx_map (height k) tx m) Hs1 (tx_map_ok _ _ _ Hrange Hm (proj1 Hok)) Hwf') as (v & c2 & -> & Hv2); [| | |lia|].
  { apply (between_step (height k) pre tx txs m coins fee); done. }
  { rewrite <- app_assoc. exact Hsame. }
  { destruct pre; exact Hcb2. }
  eexists _, c2. split; [done|]. intros st' ->. destruct (Hv2 st' eq_refl) as (Hs2 & Hb2 & Hm2 & undo & fees & Hf2 & Hcon & Hu2).
  split; [done|]. split; [congruence|]. split; [done|]. exists (coins :: undo), (fee + fees). split; [lia|]. split; [constructor; done|].
  rewrite Hu2, Hu1. destruct i; cbn [tail]; [done|]. rewrite <- app_assoc. done.
Qed.

Lemma have_outputs_spec txid o outs c m : shows_map c m -> 0 <= o -> o + zlen outs <= 2 ^ 32 ->
  exists r c', have_outputs txid o outs c = (r, c') /\ same_view c c' /\
    (r = false <-> forall n, o <= n < o + zlen outs -> m !! {| out_hash := txid; out_n := n |} = None).
Proof.
  revert o c. induction outs as [|out outs IH]; intros o c Hs Ho Hlen; cbn [have_outputs].
  { exists false, c. split; [done|]. split; [apply same_view_refl, Hs|]. split; [|done]. intros _ n Hn. cbn in Hn. lia. }
  cbn [length] in Hlen. destruct (HaveCoin_spec c {| out_hash := txid; out_n := u32 o |} (proj1 Hs)) as (c1 & -> & Hsame).
  destruct (IH (o + 1) c1 (same_view_shows _ _ _ Hsame Hs) ltac:(lia) ltac:(lia)) as (r & c2 & -> & Hsame2 & Hr).
  eexists _, c2. split; [done|]. split; [exact (same_view_trans _ _ _ Hsame Hsame2)|]. rewrite wrap_small by (unfold fits; lia).
  rewrite orb_false_iff, bool_decide_eq_false, Hr, (proj2 Hs), <- eq_None_not_Some. cbn [length]. split.
  - intros [Hfst Hrest] n Hn. destruct (decide (n = o)) as [->|]; [done|]. apply Hrest. lia.
  - intros Hall. split; [apply Hall; lia|]. intros n Hn. apply Hall. lia.
Qed.

Lemma bip30_loop_spec txs c m : shows_map c m -> Forall outputs_ok txs ->
  exists r c', bip30_loop txs c = (r, c') /\ same_view c c' /\ (r = false <-> Forall (new_outputs m) txs).
Proof.
  revert c. induction txs as [|tx txs IH]; intros c Hs Hok; cbn [bip30_loop].
  { exists false, c. split; [done|]. split; [apply same_view_refl, Hs|]. split; [constructor|done]. }
  inversion Hok as [|? ? [_ Hlen] Hok']; subst.
  destruct (have_outputs_spec (ComputeHash tx) 0 (vout tx) c m Hs ltac:(lia) ltac:(lia)) as (r1 & c1 & -> & Hsame & Hr1).
  destruct (IH c1 (same_view_shows _ _ _ Hsame Hs) Hok') as (r2 & c2 & -> & Hsame2 & Hr2).
  eexists _, c2. split; [done|]. split; [exact (same_view_trans _ _ _ Hsame Hsame2)|]. rewrite orb_false_iff, Hr1, Hr2, Forall_cons. done.
Qed.

Lemma GetBestBlock_spec c : cache_ok c -> exists c', cache_GetBestBlock c = (cache_best c, c') /\ same_view c c'.
Proof. intros Hc. destruct (@GetBestBlock_law _ _ CCoinsViewCache_lawful c Hc) as (c' & E & Hok). exists c'. split; [exact E|]. exact Hok. Qed.

Lemma SetBestBlock_shows c m h : shows_map c m -> IsNull h = false -> shows_map (SetBestBlock c h) m /\ cache_best (SetBestBlock c h) = h.
Proof. intros [Hc Hm] Hh. split; [split; [exact Hc|exact Hm]|]. unfold cache_best, SetBestBlock. cbn [hashBlock]. rewrite Hh. done. Qed.

End views.

(** ** What a connected block does to the coins *)

Lemma connects_total h txs m undo fees : connects h txs m undo fees -> Forall (fun tx => IsCoinBase tx = false) txs ->
  total (txs_map h txs m) + fees <= total m.
Proof.
  induction 1 as [m|tx txs m coins undo fee fees [Hv _] Hnew [_ He] _ IH]; intros Hcb; [cbn; lia|].
  inversion Hcb as [|? ? Hc Hcb']; subst. specialize (IH Hcb'). pose proof (tx_map_total h tx m Hnew Hv) as Ht.
  rewrite Hc in He, Ht. destruct He as (Hnd & Hsc & Hsum). specialize (Ht coins Hnd Hsc). cbn [txs_map foldl] in *. unfold txs_map in IH. lia.
Qed.

Lemma connects_block_total h cb txs m undo fees : connects h (cb :: txs) m undo fees -> IsCoinBase cb = true ->
  Forall (fun tx => IsCoinBase tx = false) txs -> total (txs_map h (cb :: txs) m) + fees <= total m + value_sum (vout cb).
Proof.
  intros Hc Hcb Hncb. inversion Hc as [|? ? ? coins undo' fee fees' [Hv _] Hnew [_ He] Hrest]; subst. pose proof (tx_map_total h cb m Hnew Hv) as Ht.
  rewrite Hcb in He, Ht. destruct He as [_ ->]. pose proof (connects_total _ _ _ _ _ Hrest Hncb) as Hle. cbn [txs_map foldl]. unfold txs_map in Hle. lia.
Qed.

(** a transaction has fewer outputs than bytes *)
Lemma flat_map_length {A} (f : A -> list Z) l : (forall x, f x <> []) -> zlen l <= zlen (flat_map f l).
Proof.
  intros Hf. induction l as [|x l IH]; cbn [flat_map]; [done|]. rewrite length_app. specialize (Hf x). destruct (f x); [done|]. cbn [length]. lia.
Qed.

Lemma well_formed_outputs tx : well_formed_tx tx -> outputs_ok tx.
Proof.
  intros (_ & _ & Hsz & Hv & _). split; [done|].
  assert (zlen (vout tx) <= zlen (SerializeTransaction false tx)); [|unfold MAX_BLOCK_WEIGHT in Hsz; lia].
  assert (Hne : forall o, ser_CTxOut o <> []) by (intros o; unfold ser_CTxOut, ser_int64, ser_writedata64; discriminate).
  pose proof (flat_map_length ser_CTxOut (vout tx) Hne). unfold SerializeTransaction, ser_vector. rewrite !length_app. lia.
Qed.

(** ** [ConnectBlock] *)

Lemma flag_lor_disjoint x f mask : Z.land f mask = 0 -> flag (Z.lor x f) mask = flag x mask.
Proof. intros Hf. unfold flag. rewrite Z.land_lor_distr_l, Hf, Z.lor_0_r. done. Qed.

Lemma flags_ok_raise x f : Z.land f SCRIPT_VERIFY_WITNESS = 0 -> Z.land f SCRIPT_VERIFY_P2SH = 0 -> flags_ok x -> flags_ok (Z.lor x f).
Proof. unfold flags_ok. intros H1 H2. rewrite !flag_lor_disjoint by done. done. Qed.

Lemma GetBlockScriptFlags_spec b hash params : phashBlock b = Some hash -> Forall (fun e => flags_ok e.2) (script_flag_exceptions params) ->
  exists flags, GetBlockScriptFlags b params = Some flags /\ flags_ok flags.
Proof.
  intros Hh Hexc. unfold GetBlockScriptFlags. rewrite Hh. cbn [mbind option_bind]. eexists. split; [reflexivity|].
  assert (Hbase : flags_ok (default (Z.lor (Z.lor SCRIPT_VERIFY_P2SH SCRIPT_VERIFY_WITNESS) SCRIPT_VERIFY_TAPROOT)
    ((fun r => r.2.2) <$> list_find (fun e => e.1 = hash) (script_flag_exceptions params)))).
  { destruct (list_find _ _) as [[i e]|] eqn:E; [|intros _; reflexivity]. apply list_find_Some in E as (He & _).
    rewrite Forall_lookup in Hexc. exact (Hexc i e He). }
  repeat (case_match; [apply flags_ok_raise; [reflexivity|reflexivity|]|]); exact Hbase.
Qed.

(** ** The questions [ConnectBlock] asks of the index *)

Lemma EquivalentTime_total to from tip params : Ok256 (nChainWork to) -> Ok256 (nChainWork from) -> fits 32 (bi_nBits tip) ->
  valid_target (bi_nBits tip) <> None -> is_Some (GetBlockProofEquivalentTime to from tip params).
Proof.
  intros Hto Hfrom Hbits Hv. unfold GetBlockProofEquivalentTime. destruct (GetBlockProof_spec tip Hbits) as (w & -> & Hw & Ew).
  assert (Hpos : to_Z w <> 0).
  { rewrite Ew. unfold work_of. destruct (valid_target (bi_nBits tip)) as [v|] eqn:E; [|done]. pose proof (valid_target_range _ v Hbits E).
    assert (1 <= 2 ^ 256 / (v + 1)); [|lia]. apply Z.div_le_lower_bound; lia. }
  assert (Hdiv : forall r sign, Ok256 r -> is_Some (proof ← Some w; r ← arith_div (arith_mul r (arith_of (nPowTargetSpacing params))) proof;
    if arith_bits r >? 63 then Some (sign * (2 ^ 63 - 1)) else Some (sign * i64 (GetLow64 r)))).
  { intros r sign Hr. cbn [mbind option_bind]. pose proof (arith_div_spec (arith_mul r (arith_of (nPowTargetSpacing params))) w) as Hd.
    destruct (arith_div _ w) as [r'|]; [|done]. cbn [mbind option_bind]. case_match; eauto. }
  destruct (arith_gt _ _); apply Hdiv; typeclasses eauto.
Qed.

(** the best header is an entry with a target *)
Definition best_known (s : BlockManager) : Prop :=
  exists best b, best_header s = Some best /\ m_block_index s !! best = Some b /\ valid_target (bi_nBits b) <> None.

Lemma needs_script_checks_total opts s p b params : tree_ok (m_block_index s) -> m_block_index s !! p = Some b -> best_known s ->
  is_Some (needs_script_checks opts s p params).
Proof.
  intros Ht Hb (best & bb & Hbest & Hbb & Hv). unfold needs_script_checks. destruct (IsNull _); [eauto|].
  destruct (LookupBlockIndex _ _) as [it|] eqn:Hit; [|eauto]. destruct (LookupBlockIndex_Some _ _ _ Hit) as (bi & Hbi & _). rewrite Hb. cbn [mbind option_bind].
  rewrite (GetAncestor_spec _ (tree_entries _ Ht) it bi _ Hbi). cbn [mbind option_bind]. destruct (negb _); [eauto|]. rewrite Hbest. cbn [mbind option_bind]. rewrite Hbb.
  cbn [mbind option_bind]. rewrite (GetAncestor_spec _ (tree_entries _ Ht) best bb _ Hbb). cbn [mbind option_bind]. destruct (_ || _); [eauto|].
  destruct (tree_entries _ Ht best bb Hbb) as (Hw & Hf & _), (tree_entries _ Ht p b Hb) as (Hw' & _).
  destruct (EquivalentTime_total bb b bb params Hw Hw' Hf Hv) as [time ->]. cbn [mbind option_bind]. eauto.
Qed.

Lemma checks_BIP30_total t p b q params : tree_ok t -> t !! p = Some b -> pprev b = Some q -> is_Some (checks_BIP30 t p params).
Proof.
  intros Ht Hb Hq. pose proof (tree_entries _ Ht) as He. unfold checks_BIP30. rewrite Hb. cbn [mbind option_bind]. unfold IsBIP30Repeat, GetBlockHash.
  destruct (phashBlock b) as [hash|] eqn:Eh; [|destruct (proj1 (proj2 Ht) p b Hb Eh)]. cbn [mbind option_bind]. rewrite Hq. cbn [mbind option_bind].
  destruct (entry_parent _ He p b q Hb Hq) as (_ & bq & Hbq & _). rewrite (GetAncestor_spec _ He q bq _ Hbq). cbn [mbind option_bind].
  destruct (decide (0 <= BIP34Height params <= nHeight bq)) as [Hh|Hh]; [|rewrite (ancestor_None t q bq) by (done || lia); cbn [mbind option_bind]; eauto].
  destruct (ancestor_Some t He q bq _ Hbq Hh) as (a & ba & -> & Hba & _). cbn [mbind option_bind]. rewrite Hba. cbn [mbind option_bind].
  destruct (phashBlock ba) as [h|] eqn:Ea; [|destruct (proj1 (proj2 Ht) a ba Hba Ea)]. cbn [mbind option_bind]. eauto.
Qed.

Section block.
Context `{Cpu} `{ScriptVerifier} {V : Type} `{LawfulView V}.
Implicit Types c : CCoinsViewCache V.

(** what is asked of the data of a block that is connected: hashes of 32 bytes, and flags that are true of the block *)
Record block_data (opts : ConnectOptions) (params : Params) (memo : BlockMemo) (block : CBlock) (b : CBlockIndex) : Prop := {
  data_hash : phashBlock b = Some (CBlockHeader_GetHash (header block));
  data_not_null : IsNull (CBlockHeader_GetHash (header block)) = false;
  data_root : blob_ok 32 (hashMerkleRoot (header block));
  data_txids : Forall hash_ok (ComputeHash <$> vtx block);
  data_memo : memo_ok (signet_solution opts) params block memo;
}.

(** A block that [ConnectBlock] may be called for: it is the block of an entry of the index below the best block of the view, which shows coins created up
    to that height; transactions with the same identifier spend the same outputs; where the BIP30 rule is not in force the outputs are new. *)
Record block_ready (opts : ConnectOptions) (params : Params) (s : BlockManager) (memo : BlockMemo) (block : CBlock) (p : nat) (b : CBlockIndex) c (m : UTXO) : Prop := {
  ready_tree : tree_ok (m_block_index s);
  ready_best : best_known s;
  ready_entry : m_block_index s !! p = Some b;
  ready_data : block_data opts params memo block b;
  ready_parent : exists q bq, pprev b = Some q /\ m_block_index s !! q = Some bq /\ phashBlock bq = Some (cache_best c);
  ready_height : nHeight b < 2 ^ 31;
  ready_not_genesis : blob_eqb (CBlockHeader_GetHash (header block)) (hashGenesisBlock params) = false;
  ready_view : shows_map c m;
  ready_coins : utxo_ok (nHeight b) m;
  ready_same : same_spends (vtx block);
  ready_bip30 : checks_BIP30 (m_block_index s) p params = Some false -> Forall (new_outputs m) (vtx block);
  ready_flags : Forall (fun e => flags_ok e.2) (script_flag_exceptions params);
}.

(** the genesis block on a view without a best block *)
Record genesis_ready (opts : ConnectOptions) (params : Params) (s : BlockManager) (memo : BlockMemo) (block : CBlock) (p : nat) (b : CBlockIndex) c (m : UTXO) : Prop := {
  genesis_entry : m_block_index s !! p = Some b;
  genesis_data : block_data opts params memo block b;
  genesis_root : pprev b = None;
  genesis_best : cache_best c = uint256_null;
  genesis_hash : blob_eqb (CBlockHeader_GetHash (header block)) (hashGenesisBlock params) = true;
  genesis_view : shows_map c m;
}.

(** what a block of the index is and where it stands, apart from its status and its place on disk *)
Definition links (t : BlockMap) : list (option uint256 * option nat * Z) := (fun b => (phashBlock b, pprev b, nHeight b)) <$> t.

Lemma links_set (t : BlockMap) p b b' : t !! p = Some b -> phashBlock b' = phashBlock b -> pprev b' = pprev b -> nHeight b' = nHeight b ->
  links (<[p := b']> t) = links t.
Proof.
  intros Hp E1 E2 E3. unfold links. rewrite list_fmap_insert. apply list_insert_id. rewrite list_lookup_fmap, Hp. cbn. congruence.
Qed.

(** The block connects to the coins [m] at height [h] with the undo record [undo], and its coinbase claims no more than the fees and the subsidy. *)
Definition block_effect (params : Params) (block : CBlock) (h : Z) (m : UTXO) (undo : CBlockUndo) : Prop :=
  exists cb txs cbundo fees, vtx block = cb :: txs /\ IsCoinBase cb = true /\ Forall (fun tx => IsCoinBase tx = false) txs /\
    connects h (vtx block) m (cbundo :: undo) fees /\ value_sum (vout cb) <= fees + GetBlockSubsidy h params.

(** what holds of a block that was connected *)
Record block_connected (params : Params) (block : CBlock) (h : Z) (m : UTXO) (undo : CBlockUndo) (c' : CCoinsViewCache V) : Prop := {
  connected_effect : block_effect params block h m undo;
  connected_view : shows_map c' (txs_map h (vtx block) m);
  connected_coins : utxo_ok h (txs_map h (vtx block) m);
  connected_best : cache_best c' = CBlockHeader_GetHash (header block);
  connected_work : CheckProofOfWork (header block) params = true;
  connected_root : merkle_ok block;
}.

Lemma blob_eqb_refl a : blob_eqb a a = true.
Proof. apply blob_eqb_eq; done. Qed.

Lemma RaiseValidity_links b n b' r : RaiseValidity b n = Some (b', r) -> phashBlock b' = phashBlock b /\ pprev b' = pprev b /\ nHeight b' = nHeight b.
Proof. unfold RaiseValidity. intros Hr. repeat (case_match; simplify_eq; try done). Qed.

Lemma finish_connect_spec opts s p b hash c : m_block_index s !! p = Some b ->
  exists r s' c', finish_connect opts s p hash c = Some (r, s', c') /\ (r = Connected -> c' = SetBestBlock c hash /\ links (m_block_index s') = links (m_block_index s)).
Proof.
  intros Hb. unfold finish_connect, WriteBlockUndo. rewrite Hb. cbn [mbind option_bind].
  assert (Hvalid : forall s1 b1, m_block_index s1 !! p = Some b1 -> links (m_block_index s1) = links (m_block_index s) ->
     exists r s' c', (pindex ← m_block_index s1 !! p;
      valid ← IsValid pindex BLOCK_VALID_SCRIPTS;
      s ← (if valid : bool then Some s1 else '(pindex, _) ← RaiseValidity pindex BLOCK_VALID_SCRIPTS; Some (set_entry s1 p pindex));
      Some (Connected, s, SetBestBlock c hash)) = Some (r, s', c') /\
     (r = Connected -> c' = SetBestBlock c hash /\ links (m_block_index s') = links (m_block_index s))).
  { intros s1 b1 Hb1 Hlk. rewrite Hb1. cbn [mbind option_bind]. assert (Hv : exists v, IsValid b1 BLOCK_VALID_SCRIPTS = Some v).
    { unfold IsValid. change (flag BLOCK_VALID_SCRIPTS (u32 (Z.lnot BLOCK_VALID_MASK))) with false. cbv iota. case_match; eauto. }
    destruct Hv as [v ->]. cbn [mbind option_bind]. destruct v; [eexists _, _, _; split; [done|]; done|].
    assert (Hr : exists b' r, RaiseValidity b1 BLOCK_VALID_SCRIPTS = Some (b', r)).
    { unfold RaiseValidity. change (flag BLOCK_VALID_SCRIPTS (u32 (Z.lnot BLOCK_VALID_MASK))) with false. cbv iota. repeat case_match; eauto. }
    destruct Hr as (b' & r & Hr). rewrite Hr. cbn [mbind option_bind]. eexists _, _, _. split; [done|]. intros _. split; [done|].
    destruct (RaiseValidity_links _ _ _ _ Hr) as (E1 & E2 & E3). cbn [set_entry m_block_index]. rewrite (links_set _ p b1 b'); done. }
  destruct (_ =? -1); [|cbn [mbind option_bind negb]; apply (Hvalid s b Hb eq_refl)].
  destruct (undo_pos opts) as [pos|]; cbn [mbind option_bind negb]; [|eexists _, _, _; split; [done|done]].
  apply (Hvalid _ (set_nUndoPos b pos)); cbn [set_entry m_block_index].
  - apply list_lookup_insert_eq. apply lookup_lt_Some in Hb. done.
  - apply (links_set _ p b); done.
Qed.

(** the checks after the loop *)
Lemma finish_checks_spec k params out v undo : finish_checks k params out v = Valid undo ->
  exists st, v = Valid st /\ undo = blockundo st /\ out <= nFees st + GetBlockSubsidy (height k) params.
Proof.
  unfold finish_checks. destruct v as [st|]; [|done]. rewrite Z.gtb_ltb. destruct (Z.ltb_spec (nFees st + GetBlockSubsidy (height k) params) out); [done|].
  destruct (omap run_check (queued st)); [|done]. intros [= <-]. eauto.
Qed.

(** the checks of [CheckBlock], which come first *)
Lemma connect_checks opts params memo block b : block_data opts params memo block b ->
  exists v memo', CheckBlock (signet_solution opts) memo block params true true = Some (v, memo') /\
    (v = Valid tt <-> CheckProofOfWork (header block) params = true /\ (signet_blocks params = true -> signet_solution opts = true) /\
       merkle_ok block /\ block_body_ok block).
Proof.
  intros [_ _ [Hroot _] Hids Hmemo]. destruct (CheckBlock_spec (signet_solution opts) memo block params true true) as (v & memo' & E & _ & Hv); [|exact Hmemo|].
  { rewrite Hroot. symmetry. exact (proj1 (ComputeMerkleRoot_ok _ Hids)). }
  exists v, memo'. split; [exact E|]. rewrite Hv. tauto.
Qed.

(** the genesis block is connected without its coins *)
Lemma ConnectBlock_genesis opts params s memo block p b c m : genesis_ready opts params s memo block p b c m ->
  exists r s' c', ConnectBlock opts params s memo block p c false = Some (r, [], s', c') /\
    (r = Connected -> s' = s /\ CheckProofOfWork (header block) params = true /\ merkle_ok block /\ shows_map c' m /\
       cache_best c' = CBlockHeader_GetHash (header block)).
Proof.
  intros [Hb Hdata Hroot Hbest Hgen Hs]. pose proof Hdata as [Hhash Hnull _ _ _]. unfold ConnectBlock. rewrite Hb. cbn [mbind option_bind]. rewrite Hhash.
  cbn [mbind option_bind]. rewrite blob_eqb_refl. cbn [negb]. destruct (connect_checks _ _ _ _ _ Hdata) as (v & memo' & -> & Hv). cbn [mbind option_bind].
  destruct v as [[]|r reason]; [|destruct r; eexists _, _, _; split; done]. destruct (proj1 Hv eq_refl) as (Hpow & _ & Hmk & _). rewrite Hroot.
  cbn [mbind option_bind]. destruct (GetBestBlock_spec c (proj1 Hs)) as (c1 & -> & Hsame). rewrite Hbest, blob_eqb_refl. cbn [negb]. rewrite Hgen.
  eexists _, _, _. split; [done|]. intros _. split; [done|]. split; [done|]. split; [done|]. apply SetBestBlock_shows; [|exact Hnull].
  exact (same_view_shows _ _ _ Hsame Hs).
Qed.

Lemma ConnectBlock_spec opts params s memo block p b c m : block_ready opts params s memo block p b c m ->
  exists r undo s' c', ConnectBlock opts params s memo block p c false = Some (r, undo, s', c') /\
    (r = Connected -> block_connected params block (nHeight b) m undo c' /\ links (m_block_index s') = links (m_block_index s)).
Proof.
  intros [Htree Hbk Hb Hdata (q & bq & Hq & Hbq & Hbest) Hheight Hgen Hs Hm Hspends H30 Hexc]. pose proof Hdata as [Hhash Hnull _ _ _].
  unfold ConnectBlock. rewrite Hb. cbn [mbind option_bind]. rewrite Hhash. cbn [mbind option_bind]. rewrite blob_eqb_refl. cbn [negb].
  destruct (connect_checks _ _ _ _ _ Hdata) as (v & memo' & -> & Hv).
  cbn [mbind option_bind]. destruct v as [[]|r reason]; [|destruct r; eexists _, _, _, _; split; done].
  destruct (proj1 Hv eq_refl) as (Hpow & _ & Hmerkle & (cb & txs & Hvtx & Hcb & Hncb) & Hwf & _).
  rewrite Hq. cbn [mbind option_bind]. rewrite Hbq. cbn [mbind option_bind]. unfold GetBlockHash at 1. rewrite Hbest. cbn [mbind option_bind].
  destruct (GetBestBlock_spec c (proj1 Hs)) as (c1 & -> & Hsame1). rewrite blob_eqb_refl. cbn [negb]. rewrite Hgen.
  destruct (needs_script_checks_total opts s p b params Htree Hb Hbk) as [scripts ->], (checks_BIP30_total _ p b q params Htree Hb Hq) as [check30 E30]. rewrite E30.
  cbn [mbind option_bind].
  destruct (GetBlockScriptFlags_spec b _ params Hhash Hexc) as (flags & -> & Hflags). cbn [mbind option_bind].
  assert (Hok : Forall outputs_ok (vtx block)) by (eapply Forall_impl; [exact Hwf|apply well_formed_outputs]).
  assert (H30' : exists over c2, (if check30 then bip30_loop (vtx block) c1 else (false, c1)) = (over, c2) /\ same_view c1 c2 /\
    (over = false -> Forall (new_outputs m) (vtx block))).
  { destruct check30; [|exists false, c1; split; [done|]; split; [apply same_view_refl, (same_view_shows _ _ _ Hsame1 Hs)|]; intros _; apply H30, E30].
    destruct (bip30_loop_spec (vtx block) c1 m (same_view_shows _ _ _ Hsame1 Hs) Hok) as (over & c2 & E & Hsame2 & Hover). exists over, c2. tauto. }
  destruct H30' as (over & c2 & -> & Hsame2 & Hover).
  pose proof (same_view_trans _ _ _ Hsame1 Hsame2) as Hsame. pose proof (same_view_shows _ _ _ Hsame Hs) as Hs2.
  assert (Hout : exists out, GetValueOut cb = Some out /\ out = value_sum (vout cb)).
  { rewrite Hvtx in Hwf. inversion Hwf as [|? ? (_ & _ & _ & Hmr & Hsum & _) _]; subst. eexists. split; [|done].
    apply value_out_loop_spec; [vm_compute; intuition congruence|]. done. }
  destruct Hout as (out & Hout & Hsum).
  assert (Hfin : forall (k : connect_context) (v : verdict BlockValidationResult connect_state) c3, height k = nHeight b ->
     (forall st, v = Valid st -> exists cbundo fees, nFees st = fees /\ connects (nHeight b) (vtx block) m (cbundo :: blockundo st) fees /\
        shows_map c3 (txs_map (nHeight b) (vtx block) m) /\ utxo_ok (nHeight b) (txs_map (nHeight b) (vtx block) m)) ->
     exists r undo s' c', (coinbase ← vtx block !! 0%nat; coinbase_out ← GetValueOut coinbase;
       match finish_checks k params coinbase_out v with
       | Invalid r reason => Some (Rejected r reason, [], s, c3)
       | Valid undo => '(r, s, c) ← finish_connect opts s p (CBlockHeader_GetHash (header block)) c3; Some (r, undo, s, c)
       end) = Some (r, undo, s', c') /\ (r = Connected -> block_connected params block (nHeight b) m undo c' /\ links (m_block_index s') = links (m_block_index s))).
  { intros k w c3 Hk Hw. replace (vtx block !! 0%nat) with (Some cb) by (rewrite Hvtx; done). cbn [mbind option_bind]. rewrite Hout. cbn [mbind option_bind].
    destruct (finish_checks k params out w) as [undo|r reason] eqn:Hf; [|eexists _, _, _, _; split; [done|done]].
    apply finish_checks_spec in Hf as (st & -> & -> & Hle). destruct (Hw st eq_refl) as (cbundo & fees & Hfee & Hcon & Hs3 & Hm3).
    destruct (finish_connect_spec opts s p b (CBlockHeader_GetHash (header block)) c3 Hb) as (r & s' & c' & -> & Hr). cbn [mbind option_bind].
    eexists _, _, _, _. split; [done|]. intros Hrc. destruct (Hr Hrc) as [-> Hlk]. split; [|exact Hlk].
    destruct (SetBestBlock_shows c3 _ (CBlockHeader_GetHash (header block)) Hs3 Hnull) as [Hs4 Hb4]. split; [|done..| |].
    - exists cb, txs, cbundo, fees. rewrite Hk in Hle. split; [done|]. split; [done|]. split; [done|]. split; [done|]. lia.
    - exact Hpow.
    - exact Hmerkle. }
  destruct over; cbn [mbind option_bind]; [apply Hfin; [done|]; done|]. pose proof (Hover eq_refl) as Hnew.
  destruct (entry_parent _ (tree_entries _ Htree) p b q Hb Hq) as (_ & bq' & Hbq' & Hh). pose proof (height_bound _ (tree_entries _ Htree) q bq' Hbq') as Hhq.
  destruct (median_window_total _ (tree_entries _ Htree) nMedianTimeSpan q bq Hbq) as (w & Hw & _).
  destruct (median_total _ (tree_entries _ Htree) q bq w Hbq Hw) as (mtp & Hmtp & _).
  match goal with |- context [connect_loop ?k0 _ _ _ _] => set (k := k0) end.
  destruct (connect_loop_spec k b q mtp Htree Hb Hq Hmtp eq_refl ltac:(cbn; lia) Hflags [] 0 (vtx block)
    {| nFees := 0; nSigOpsCost := 0; blockundo := []; queued := [] |} c2 m Hs2 Hm) as (w' & c3 & -> & Hw');
    [|apply between_start, Hnew|exact Hspends|rewrite Hvtx; exact Hncb|vm_compute; intuition congruence|].
  { apply Forall_forall. intros tx Htx. rewrite Forall_forall in Hwf, Hok. auto. }
  cbn [mbind option_bind]. apply Hfin; [done|]. intros st ->. destruct (Hw' st eq_refl) as (Hs3 & _ & Hm3 & undo & fees & Hf & Hcon & Hu).
  cbn [nFees blockundo] in Hf, Hu. cbn [k height] in *. destruct undo as [|coins undo]; [rewrite Hvtx in Hcon; inversion Hcon|].
  exists coins, fees. rewrite Hu. split; [lia|]. split; [exact Hcon|]. split; [exact Hs3|exact Hm3].
Qed.

(** ** [DisconnectBlock] *)

Lemma add_map_delete txid h cb i outs m o : out_n o < i -> delete o (add_map txid h cb i outs m) = add_map txid h cb i outs (delete o m).
Proof.
  revert i m. induction outs as [|out outs IH]; intros i m Ho; cbn [add_map]; [done|]. rewrite IH by lia. f_equal.
  destruct (IsUnspendable _); [done|]. apply delete_insert_ne. intros ->. cbn in Ho. lia.
Qed.

Lemma remove_outputs_spec txid h cb i outs c m : shows_map c (add_map txid h cb i outs m) -> 0 <= i -> i + zlen outs <= 2 ^ 32 -> 0 <= h < 2 ^ 31 ->
  (forall n, i <= n < i + zlen outs -> m !! {| out_hash := txid; out_n := n |} = None) ->
  exists c', remove_outputs txid h cb i outs c = (true, c') /\ shows_map c' m /\ cache_best c' = cache_best c.
Proof.
  revert i c m. induction outs as [|out outs IH]; intros i c m Hs Hi Hlen Hh Habs; cbn [remove_outputs add_map] in *; [exists c; done|].
  cbn [length] in Hlen, Habs. destruct (IsUnspendable (scriptPubKey out)); cbn [negb].
  { destruct (IH (i + 1) c m Hs ltac:(lia) ltac:(lia) Hh ltac:(intros; apply Habs; lia)) as (c' & -> & Hs' & Hb'). exists c'. done. }
  rewrite wrap_small by (unfold fits; lia). set (o := {| out_hash := txid; out_n := i |}) in *.
  destruct (SpendCoin_spec c o (proj1 Hs)) as (b & moved & c1 & -> & Hc1 & Hb1 & Hco & _ & Hm & _).
  destruct (Hm (Coin_of out h cb)) as [-> ->].
  { rewrite (proj2 Hs), add_map_lookup_ne by (right; cbn; lia). apply lookup_insert_eq. }
  change (default Coin_Clear (Some (Coin_of out h cb))) with (Coin_of out h cb). cbn [Coin_of coin_out coin_nHeight fCoinBase]. rewrite wrap_small by (unfold fits; lia).
  rewrite bool_decide_eq_true_2, Z.eqb_refl, Bool.eqb_reflx by done. cbn [andb].
  destruct (IH (i + 1) c1 m) as (c' & -> & Hs' & Hb'); [|lia|lia|done|intros; apply Habs; lia|exists c'; split; [done|]; split; [done|congruence]].
  split; [done|]. intros p. rewrite Hco.
  assert (E : add_map txid h cb (i + 1) outs m = delete o (add_map txid h cb (i + 1) outs (<[o := Coin_of out h cb]> m))).
  { rewrite add_map_delete by (cbn; lia). rewrite delete_insert_id; [done|]. apply Habs. lia. }
  rewrite E. case_bool_decide as Ep; [subst; rewrite lookup_delete_eq; done|]. rewrite lookup_delete_ne by done. apply Hs.
Qed.

Lemma ApplyTxInUndo_spec h coin c m o : shows_map c m -> m !! o = None -> coin_ok h coin ->
  exists c', ApplyTxInUndo coin c o = Some (DISCONNECT_OK, c') /\ shows_map c' (<[o := coin]> m) /\ cache_best c' = cache_best c.
Proof.
  intros Hs Ho (Hh & Hval & Hsp). unfold ApplyTxInUndo. destruct (HaveCoin_spec c o (proj1 Hs)) as (c1 & -> & Hsame).
  rewrite bool_decide_eq_false_2 by (rewrite (proj2 Hs), Ho; apply is_Some_None). cbn [negb].
  destruct (Z.eqb_spec (coin_nHeight coin) 0); [lia|]. pose proof (same_view_shows _ _ _ Hsame Hs) as Hs1.
  destruct (AddCoin_spec c1 o coin false (proj1 Hs1)) as (c2 & -> & Hc2 & Hb2 & Hco2).
  { unfold IsSpent, CTxOut_IsNull. apply Z.eqb_neq. unfold coin_value in Hval. lia. }
  { intros _. rewrite (proj2 Hs1). done. }
  cbn [mbind option_bind]. exists c2. split; [done|]. split; [|destruct Hsame as (_ & _ & ?); congruence]. split; [done|]. intros p.
  rewrite Hco2, Hsp. case_bool_decide as E; [subst; rewrite lookup_insert_eq; done|]. rewrite lookup_insert_ne by congruence. apply Hs1.
Qed.

Lemma restore_inputs_spec h ins coins c m : shows_map c (spend_map ins m) -> utxo_ok h m -> NoDup (prevout <$> ins) -> spent_coins m ins coins ->
  exists c', restore_inputs ins coins c = Some (DISCONNECT_OK, c') /\ shows_map c' m /\ cache_best c' = cache_best c.
Proof.
  revert coins c m. induction ins as [|i ins IH]; intros coins c m Hs Hm Hnd HF; inversion HF as [|? coin ? cs Hi HF']; subst; cbn [restore_inputs]; [exists c; done|].
  cbn [fmap list_fmap] in Hnd. apply NoDup_cons in Hnd as [Hnot Hnd]. cbn [spend_map] in Hs.
  destruct (IH cs c (delete (prevout i) m) Hs) as (c1 & -> & Hs1 & Hb1); [apply map_Forall_delete; done|done| |].
  { apply spent_coins_delete; done. }
  cbn [mbind option_bind]. destruct (ApplyTxInUndo_spec h coin c1 _ (prevout i) Hs1 (lookup_delete_eq _ _) (Hm _ _ Hi)) as (c2 & -> & Hs2 & Hb2).
  cbn [mbind option_bind]. exists c2. split; [done|]. rewrite insert_delete_id in Hs2 by done. split; [done|congruence].
Qed.

(** *** Transactions, last first *)

Context (b : CBlockIndex) (e : bool) (Hb : 0 < nHeight b < 2 ^ 31).

Lemma disconnect_tx_spec i tx blockUndo c m coins fee : shows_map c (tx_map (nHeight b) tx m) -> utxo_ok (nHeight b) m -> outputs_ok tx -> new_outputs m tx ->
  tx_effect tx m coins fee -> match i with O => IsCoinBase tx = true | S j => IsCoinBase tx = false /\ blockUndo !! j = Some coins end ->
  exists c', disconnect_tx b e i tx blockUndo true c = Some (DISCONNECT_OK, c') /\ shows_map c' m /\ cache_best c' = cache_best c.
Proof.
  intros Hs Hm [_ Hlen] Hnew [_ He] Hi. unfold disconnect_tx, tx_map in *. set (m1 := if IsCoinBase tx then m else _) in *.
  destruct (remove_outputs_spec (ComputeHash tx) (nHeight b) (IsCoinBase tx) 0 (vout tx) c m1 Hs) as (c1 & -> & Hs1 & Hb1); [lia|lia|lia| |].
  { intros n Hn. unfold m1. destruct (IsCoinBase tx); [|apply spend_map_absent]; apply Hnew; lia. }
  cbn [andb orb]. destruct i as [|j].
  { unfold m1 in Hs1. rewrite Hi in Hs1. exists c1. done. }
  destruct Hi as [Hcb Hj]. unfold m1 in Hs1. rewrite Hcb in He, Hs1. destruct He as (Hnd & HF & _). rewrite Hj. cbn [mbind option_bind].
  rewrite (Forall2_length _ _ _ HF), Z.eqb_refl. cbn [negb].
  destruct (restore_inputs_spec (nHeight b) _ _ c1 m Hs1 Hm Hnd HF) as (c2 & -> & Hs2 & Hb2). cbn [mbind option_bind]. exists c2. split; [done|].
  split; [done|congruence].
Qed.

Lemma disconnect_txs_spec txs m undo fees pre c : connects (nHeight b) txs m undo fees -> Forall (fun tx => IsCoinBase tx = false) txs ->
  shows_map c (txs_map (nHeight b) txs m) -> utxo_ok (nHeight b) m ->
  exists c', disconnect_loop b e (S (length pre)) txs (pre ++ undo) c = Some (DISCONNECT_OK, c') /\ shows_map c' m /\ cache_best c' = cache_best c.
Proof.
  intros Hcon. revert pre c. induction Hcon as [m|tx txs m coins undo fee fees Hok Hnew Heff _ IH]; intros pre c Hcb Hs Hm; [exists c; done|].
  inversion Hcb as [|? ? Hc Hcb']; subst. cbn [disconnect_loop txs_map foldl] in *.
  destruct (IH (pre ++ [coins]) c Hcb' Hs (tx_map_ok _ _ _ Hb Hm (proj1 Hok))) as (c1 & E & Hs1 & Hb1).
  rewrite length_app, Nat.add_1_r, <- app_assoc in E. cbn [app] in E. rewrite E. cbn [mbind option_bind].
  destruct (disconnect_tx_spec (S (length pre)) tx (pre ++ coins :: undo) c1 m coins fee Hs1 Hm Hok Hnew Heff) as (c2 & -> & Hs2 & Hb2).
  { split; [done|]. apply list_lookup_middle. done. }
  exists c2. split; [done|]. split; [done|congruence].
Qed.

Lemma connects_length h txs m undo fees : connects h txs m undo fees -> length undo = length txs.
Proof. induction 1; cbn [length]; congruence. Qed.

End block.

(** the coins after a block are worth at most its subsidy more *)
Lemma block_effect_total params block h m undo : block_effect params block h m undo ->
  total (txs_map h (vtx block) m) <= total m + GetBlockSubsidy h params.
Proof.
  intros (cb & txs & cbundo & fees & Hv & Hcb & Hncb & Hcon & Hcap). rewrite Hv in *. pose proof (connects_block_total _ _ _ _ _ _ Hcon Hcb Hncb). lia.
Qed.

Section disconnect.
Context `{Cpu} `{ScriptVerifier} {V : Type} `{LawfulView V}.
Implicit Types c : CCoinsViewCache V.

Lemma DisconnectBlock_spec t block p b q bq prev_hash m c params undo :
  t !! p = Some b -> pprev b = Some q -> t !! q = Some bq -> phashBlock bq = Some prev_hash -> IsNull prev_hash = false -> phashBlock b <> None ->
  0 < nHeight b < 2 ^ 31 -> utxo_ok (nHeight b) m ->
  block_effect params block (nHeight b) m undo -> shows_map c (txs_map (nHeight b) (vtx block) m) ->
  exists c', DisconnectBlock (Some undo) t block p c = Some (DISCONNECT_OK, c') /\ shows_map c' m /\ cache_best c' = prev_hash.
Proof.
  intros Hb Hq Hbq Hprev Hnull Hhash Hh Hm (cb & txs & cbundo & fees & Hv & Hcb & Hncb & Hcon & _) Hs.
  pose proof (connects_length _ _ _ _ _ Hcon) as Hlen. unfold DisconnectBlock. rewrite Hb. cbn [mbind option_bind]. rewrite <- Hlen. cbn [length].
  replace (zlen undo + 1 =? Z.of_nat (S (length undo))) with true by (symmetry; apply Z.eqb_eq; lia). cbn [negb].
  change (GetBlockHash b) with (phashBlock b). destruct (phashBlock b) as [hash|]; [|done]. cbn [mbind option_bind].
  rewrite Hv in *. inversion Hcon as [|? ? ? ? ? fee fees' Hok Hnew Heff Hrest]; subst. cbn [disconnect_loop txs_map foldl] in *.
  destruct (disconnect_txs_spec b (negb (IsBIP30Unspendable hash (nHeight b))) Hh txs _ undo fees' [] c Hrest Hncb Hs (tx_map_ok _ _ _ Hh Hm (proj1 Hok)))
    as (c1 & E & Hs1 & _). cbn [length app] in E. rewrite E. cbn [mbind option_bind].
  destruct (disconnect_tx_spec b (negb (IsBIP30Unspendable hash (nHeight b))) Hh 0 cb undo c1 m cbundo fee Hs1 Hm Hok Hnew Heff Hcb) as (c2 & -> & Hs2 & _).
  cbn [mbind option_bind]. rewrite Hq. cbn [mbind option_bind]. rewrite Hbq. cbn [mbind option_bind]. unfold GetBlockHash. rewrite Hprev. cbn [mbind option_bind].
  destruct (SetBestBlock_shows c2 m prev_hash Hs2 Hnull) as [H1' H2']. eexists. split; [reflexivity|]. done.
Qed.

End disconnect.

(** ** Properties *)

(** C2: Connecting a block never creates money.  [ConnectBlock] returns for every block of an entry of a well-formed index whose parent is the best
    block of the view ([block_ready]), and for the genesis block on a view without a best block ([genesis_ready]).  When it connects the block, the block had
    its work and its Merkle root, the view has the block as its best one, the index keeps its links, and the coins are worth at most the block's subsidy
    more than before; the genesis block leaves them as they are.  [block_ready] asks that the best header has a target, that the coins of the view were created
    up to the height of the block, that transactions of the block with the same identifier spend the same outputs (those that differ are a collision of the
    hash), and that the outputs are new where the BIP30 rule, which checks this, is not in force. *)
Theorem connect_block_supply `{Cpu} `{ScriptVerifier} {V : Type} `{LawfulView V} (opts : ConnectOptions) (params : Params) (s : BlockManager)
    (memo : BlockMemo) (block : CBlock) (p : nat) (b : CBlockIndex) (c : CCoinsViewCache V) (m : UTXO) :
  block_ready opts params s memo block p b c m \/ genesis_ready opts params s memo block p b c m ->
  exists r undo s' c', ConnectBlock opts params s memo block p c false = Some (r, undo, s', c') /\
    (r = Connected -> CheckProofOfWork (header block) params = true /\ merkle_ok block /\
       cache_best c' = CBlockHeader_GetHash (header block) /\ links (m_block_index s') = links (m_block_index s) /\
       exists m', shows_map c' m' /\ (utxo_ok (nHeight b) m -> utxo_ok (nHeight b) m') /\
         total m' <= total m + (if pprev b then GetBlockSubsidy (nHeight b) params else 0) /\ (pprev b = None -> m' = m)).
Proof.
  intros [Hready|Hready].
  - destruct (ConnectBlock_spec opts params s memo block p b c m Hready) as (r & undo & s' & c' & E & Hr).
    exists r, undo, s', c'. split; [exact E|]. intros Hc. destruct (Hr Hc) as [[He Hv Hm' Hbest Hpow Hroot] Hlk].
    do 4 (split; [done|]). eexists. split; [exact Hv|]. split; [done|]. destruct (ready_parent _ _ _ _ _ _ _ _ _ Hready) as (q & _ & -> & _).
    split; [exact (block_effect_total _ _ _ _ _ He)|done].
  - destruct (ConnectBlock_genesis opts params s memo block p b c m Hready) as (r & s' & c' & E & Hr).
    exists r, [], s', c'. split; [exact E|]. intros Hc. destruct (Hr Hc) as (-> & Hpow & Hroot & Hv & Hbest). do 4 (split; [done|]).
    exists m. split; [exact Hv|]. split; [done|]. rewrite (genesis_root _ _ _ _ _ _ _ _ _ Hready). split; [lia|done].
Qed.

(** C3: Disconnecting undoes connecting: from the view a connected block left, [DisconnectBlock] with the undo record of the block returns
    cleanly and gives a view with the coins and the best block from before. *)
Theorem disconnect_connect `{Cpu} `{ScriptVerifier} {V : Type} `{LawfulView V} (opts : ConnectOptions) (params : Params) (s : BlockManager)
    (memo : BlockMemo) (block : CBlock) (p : nat) (b : CBlockIndex) (c : CCoinsViewCache V) (m : UTXO) (undo : CBlockUndo) (s' : BlockManager) (c' : CCoinsViewCache V) :
  block_ready opts params s memo block p b c m -> IsNull (cache_best c) = false ->
  ConnectBlock opts params s memo block p c false = Some (Connected, undo, s', c') ->
  exists c'', DisconnectBlock (Some undo) (m_block_index s') block p c' = Some (DISCONNECT_OK, c'') /\
    shows_map c'' m /\ cache_best c'' = cache_best c.
Proof.
  intros Hready Hnull E. destruct (ConnectBlock_spec opts params s memo block p b c m Hready) as (r & undo0 & s0 & c0 & E0 & Hr). rewrite E in E0.
  simplify_eq E0. intros <- <- <- <-. destruct (Hr eq_refl) as [Hcon Hlk].
  destruct Hready as [Htree _ Hb [Hhash _ _ _ _] (q & bq & Hq & Hbq & Hbest) Hmax _ _ Hm _ _ _].
  destruct (entry_parent _ (tree_entries _ Htree) p b q Hb Hq) as (_ & bq' & Hbq' & Hh). pose proof (height_bound _ (tree_entries _ Htree) q bq' Hbq') as Hhq.
  assert (Hget : forall i x, m_block_index s !! i = Some x -> exists x', m_block_index s' !! i = Some x' /\ phashBlock x' = phashBlock x /\ pprev x' = pprev x /\ nHeight x' = nHeight x).
  { intros i x Hx. pose proof (f_equal (lookup i) Hlk) as Hl. unfold links in Hl. rewrite !list_lookup_fmap, Hx in Hl.
    destruct (m_block_index s' !! i) as [x'|]; [|done]. cbn in Hl. injection Hl as E1 E2 E3. exists x'. done. }
  destruct (Hget p b Hb) as (b' & Hb' & E1 & E2 & E3), (Hget q bq Hbq) as (bq'' & Hbq'' & E4 & _ & _). rewrite <- E3 in Hcon, Hm.
  apply (DisconnectBlock_spec _ block p b' q bq'' (cache_best c) m c' params undo); try congruence; [lia|exact Hm|apply Hcon|apply Hcon].
Qed.
