(* ===== verification/Supply.v ===== *)
(** * The supply of coins along a chain

    Views change by connecting a block, disconnecting the last one, and writing the cache through ([Chainstate] in
    src/validation.cpp does these one at a time).  In every state so reached the coins are those of the blocks that remain
    connected, and their value is bounded by the subsidies of these blocks. *)

From Stdlib Require Import ZArith Lia Bool String.
From stdpp Require Import base numbers list gmap strings relations.
From S2P Require Import Prelude ArithUint Uint256 Arith256 Params Hashes Serialize Primitives Opcodes Script ScriptFlags BlockIndex Coins CoinsDB TxVerify Merkle ChainParams Pow BlockCheck Connect ConnectProofs.
Local Open Scope Z_scope.

(** the connected blocks after the genesis block, last first, with their undo records *)
Notation history := (list (CBlock * CBlockUndo)).

Definition tip_height (hist : history) : Z := zlen hist.

(** [m] are the coins of the blocks of [hist] *)
Inductive chain_coins (params : Params) : history -> UTXO -> Prop :=
| chain_genesis : chain_coins params [] ∅
| chain_block hist block undo m (h := tip_height hist + 1) : chain_coins params hist m -> utxo_ok (h - 1) m ->
    block_effect params block h m undo -> chain_coins params ((block, undo) :: hist) (txs_map h (vtx block) m).

Lemma chain_coins_total params hist m : (forall n : nat, 0 <= GetBlockSubsidy (Z.of_nat n) params) -> chain_coins params hist m ->
  total m <= total_subsidy params (S (length hist)).
Proof.
  intros Hsub. induction 1 as [|hist block undo m h _ IH _ He].
  { unfold total. rewrite map_fold_empty. cbn. specialize (Hsub 0%nat). lia. }
  pose proof (block_effect_total params block h m undo He) as Ht.
  change (total_subsidy params (S (length ((block, undo) :: hist)))) with
    (total_subsidy params (S (length hist)) + GetBlockSubsidy (Z.of_nat (S (length hist))) params).
  replace (Z.of_nat (S (length hist))) with h by (unfold h, tip_height; lia). lia.
Qed.

Section chain.
Context `{Cpu} `{ScriptVerifier} {V : Type} `{LawfulView V} (params : Params).

Definition chainstate : Type := CCoinsViewCache V * history.

(** the entry of [block] in an index, at height [h], with the hash of its parent *)
Definition entry_at (t : BlockMap) (p : nat) (h : Z) (prev_hash : uint256) : Prop :=
  exists b q bq, t !! p = Some b /\ nHeight b = h /\ phashBlock b <> None /\ pprev b = Some q /\ t !! q = Some bq /\ phashBlock bq = Some prev_hash.

Unset Elimination Schemes.

(** The steps of a chainstate; a view in which a block was not connected is discarded. *)
Inductive chain_step : chainstate -> chainstate -> Prop :=
| step_connect opts s memo block p b (c : CCoinsViewCache V) m undo s' (c' : CCoinsViewCache V) hist :
    block_ready (V := V) opts params s memo block p b c m -> nHeight b = tip_height hist + 1 ->
    ConnectBlock (V := V) opts params s memo block p c false = Some (Connected, undo, s', c') ->
    chain_step (c, hist) (c', (block, undo) :: hist)
| step_disconnect t block undo p prev_hash (c : CCoinsViewCache V) hist r (c' : CCoinsViewCache V) :
    entry_at t p (tip_height hist + 1) prev_hash -> IsNull prev_hash = false -> tip_height hist + 1 < 2 ^ 31 ->
    DisconnectBlock (V := V) (Some undo) t block p c = Some (r, c') ->
    chain_step (c, (block, undo) :: hist) (c', hist)
| step_flush (c c' : CCoinsViewCache V) hist : IsNull (hashBlock c) = false -> Flush c = Some (true, c') -> chain_step (c, hist) (c', hist)
| step_sync (c c' : CCoinsViewCache V) hist : IsNull (hashBlock c) = false -> Sync c = Some (true, c') -> chain_step (c, hist) (c', hist).

Set Elimination Schemes.

Definition chainstate_ok (st : chainstate) : Prop :=
  exists m, shows_map st.1 m /\ utxo_ok (tip_height st.2) m /\ chain_coins params st.2 m.

Lemma shows_map_unique (c : CCoinsViewCache V) (m m' : UTXO) : shows_map c m -> shows_map c m' -> m = m'.
Proof. intros [_ E] [_ E']. apply map_eq. intros o. rewrite <- E. apply E'. Qed.

Lemma utxo_ok_le h h' m : h <= h' -> utxo_ok h m -> utxo_ok h' m.
Proof. intros Hle Hm o coin Ho. destruct (Hm o coin Ho) as (? & ?). split; [lia|done]. Qed.

Lemma chain_step_ok st st' : chain_step st st' -> chainstate_ok st -> chainstate_ok st'.
Proof.
  intros [opts s memo block p b c m undo s' c' hist Hready Hh Hc|t block undo p prev_hash c hist r c' (b & q & bq & Hb & Hh & Hhash & Hq & Hbq & Hprev) Hnull Hmax Hd
    |c c' hist Hn Hf|c c' hist Hn Hf] (m1 & Hs & Hm & Hch); cbn [fst snd] in *.
  - destruct (ConnectBlock_spec opts params s memo block p b c m Hready) as (r & undo0 & s0 & c0 & E & Hr). rewrite Hc in E. simplify_eq E. intros <- <- <- <-.
    destruct (Hr eq_refl) as [Hcon _]. rewrite (shows_map_unique c m1 m Hs (ready_view _ _ _ _ _ _ _ _ _ Hready)) in *. rewrite Hh in Hcon.
    exists (txs_map (tip_height hist + 1) (vtx block) m). split; [apply Hcon|]. unfold tip_height in *. cbn [fst snd length].
    replace (Z.of_nat (S (length hist))) with (zlen hist + 1) by lia. split; [apply Hcon|]. constructor; [done| |apply Hcon].
    unfold tip_height. rewrite Z.add_simpl_r. done.
  - inversion Hch as [|hist0 block0 undo0 m h Hch0 Hm0 He]; subst. fold (tip_height hist) in h.
    destruct (DisconnectBlock_spec t block p b q bq prev_hash m c params undo Hb Hq Hbq Hprev Hnull Hhash) as (c0 & E & Hs0 & _); try rewrite Hh; try done.
    { unfold tip_height in *. lia. }
    { eapply utxo_ok_le; [|exact Hm0]. unfold h. lia. }
    rewrite Hd in E. simplify_eq E. intros -> <-. exists m. split; [done|]. split; [|done]. unfold h in Hm0. rewrite Z.add_simpl_r in Hm0. done.
  - destruct (Flush_spec c (proj1 Hs) Hn) as (c0 & E & Hsame & _). rewrite Hf in E. simplify_eq E. intros <-. exists m1.
    split; [exact (same_view_shows _ _ _ Hsame Hs)|]. done.
  - destruct (Sync_spec c (proj1 Hs) Hn) as (c0 & E & Hsame & _). rewrite Hf in E. simplify_eq E. intros <-. exists m1.
    split; [exact (same_view_shows _ _ _ Hsame Hs)|]. done.
Qed.

Lemma chain_steps_ok st st' : rtc chain_step st st' -> chainstate_ok st -> chainstate_ok st'.
Proof. induction 1 as [|st1 st2 st3 Hstep _ IH]; [done|]. intros Hok. apply IH. exact (chain_step_ok _ _ Hstep Hok). Qed.

Lemma start_ok c : shows_map c ∅ -> chainstate_ok (c, []).
Proof. intros Hs. exists ∅. split; [done|]. split; [apply map_Forall_empty|constructor]. Qed.

End chain.

(** ** Properties *)

(** C1: The supply is bounded in every state: whatever blocks are connected and disconnected, with flushes in between, starting from no coins,
    the coins of the view are worth between nothing and the subsidies up to its height, and so at most twice the initial subsidy times the
    halving interval (on the main network, [MAX_MONEY]). *)
Theorem supply_bounded `{Cpu} `{ScriptVerifier} {V : Type} `{LawfulView V} (params : Params) (c0 c : CCoinsViewCache V) (hist : history) :
  0 < nSubsidyHalvingInterval params -> 0 <= nSubsidyInitial params < 2 ^ 63 -> shows_map c0 ∅ -> rtc (chain_step params) (c0, []) (c, hist) ->
  exists m, shows_map c m /\ 0 <= total m <= total_subsidy params (S (length hist)) /\
    total m <= 2 * nSubsidyHalvingInterval params * nSubsidyInitial params.
Proof.
  intros Hi H0' Hs Hsteps. destruct (chain_steps_ok params _ _ Hsteps (start_ok params c0 Hs)) as (m & Hm & Hok & Hch). cbn [fst snd] in *.
  assert (Hnn : forall n : nat, 0 <= GetBlockSubsidy (Z.of_nat n) params).
  { intros n. unfold GetBlockSubsidy. destruct (_ >=? _); [lia|]. apply Z.shiftr_nonneg. lia. }
  pose proof (chain_coins_total params hist m Hnn Hch). pose proof (total_nonneg _ _ Hok).
  pose proof (total_subsidy_bound params Hi H0' (S (length hist))) as [_ ?]. exists m. split; [done|]. lia.
Qed.

(** ** Witnesses *)

(** a first block after the genesis block of the regtest network, connected to an empty set of coins *)
Definition reg_coinbase : CTransaction := {|
  version := 2; vin := [{| prevout := COutPoint_null; scriptSig := [0x51; 0x00]; nSequence := 0xffffffff; scriptWitness := [] |}];
  vout := [{| nValue := 18 * COIN; scriptPubKey := [0x51] |}]; nLockTime := 0 |}.
Definition reg_block : CBlock := {|
  header := {| nVersion := 4; hashPrevBlock := hex256 "4c4efcd0ae575f920e8fb827b9d4ccb552d53ab573726afa6788394bb2753492";
    hashMerkleRoot := [104; 221; 131; 189; 194; 113; 123; 137; 200; 55; 62; 110; 144; 132; 64; 253; 24; 112; 158; 172; 43; 65; 183; 70; 83; 22;
                       136; 209; 23; 249; 114; 149];
    nTime := 1754122692; nBits := 0x207fffff; nNonce := 3 |};
  vtx := [reg_coinbase] |}.
Definition reg_params : Params := @regtest_consensus portable_cpu default_regtest.
Definition reg_manager : BlockManager :=
  default empty_manager ('(s, _) ← @AddToBlockIndex portable_cpu (genesis_index (header regtest_genesis)) (header reg_block); Some s).
Definition reg_entry : CBlockIndex := default CBlockIndex_default (m_block_index reg_manager !! 1%nat).
Definition reg_genesis_hash : uint256 := hex256 "4c4efcd0ae575f920e8fb827b9d4ccb552d53ab573726afa6788394bb2753492".
Definition reg_view : CCoinsViewCache CoinsDB := CCoinsViewCache_new {| db_coins := ∅; db_best := Some reg_genesis_hash; db_heads := None |}.
Definition reg_opts : ConnectOptions :=
  {| AssumedValidBlock := uint256_null; MinimumChainWork := arith_of 0; HasThreads := true; signet_solution := false; undo_pos := Some 8 |}.

#[local] Instance accept_all : ScriptVerifier := {| run_check := fun _ => None; execution_cached := fun _ _ => false; reported := fun _ => "" |}.
#[local] Existing Instance portable_cpu.
#[local] Existing Instance small_batches.

Lemma reg_view_shows : shows_map reg_view ∅.
Proof.
  split; [|intros o; unfold cache_coins, overlay; cbn [reg_view CCoinsViewCache_new entries cacheCoins base]; rewrite lookup_empty; apply lookup_empty].
  split; [|apply empty_entries_ok]. split; [|done]. intros o coin E. unfold db_coins_of in E. cbn [db_coins base reg_view CCoinsViewCache_new] in E.
  rewrite lookup_empty in E. done.
Qed.

Lemma reg_manager_ok : manager_ok reg_manager.
Proof.
  destruct (AddToBlockIndex_new (genesis_index (header regtest_genesis)) (header reg_block) genesis_index_regtest_ok) as (b & best & E & _ & Ht & Hb).
  - split; [discriminate|reflexivity].
  - apply (bool_decide_eq_false_1 _). vm_compute. reflexivity.
  - vm_compute. reflexivity.
  - unfold reg_manager. rewrite E. split; done.
Qed.

Lemma reg_ready : block_ready reg_opts reg_params reg_manager unset_memo reg_block 1 reg_entry reg_view ∅.
Proof.
  split.
  - exact (proj1 reg_manager_ok).
  - exists 1%nat, reg_entry. split; [vm_compute; reflexivity|]. split; [vm_compute; reflexivity|]. vm_compute. discriminate.
  - vm_compute. reflexivity.
  - split; [vm_compute; reflexivity|vm_compute; reflexivity| | |apply unset_memo_ok]; apply (bool_decide_unpack _); vm_compute; exact I.
  - exists 0%nat, (default CBlockIndex_default (m_block_index reg_manager !! 0%nat)). split_and!; vm_compute; reflexivity.
  - vm_compute. reflexivity.
  - vm_compute. reflexivity.
  - apply reg_view_shows.
  - apply map_Forall_empty.
  - intros tx tx' H1 H2 _. apply list_elem_of_singleton in H1, H2. subst. reflexivity.
  - intros _. constructor; [|constructor]. intros n _. apply lookup_empty.
  - constructor.
Qed.

Lemma reg_connects : exists s' c', ConnectBlock reg_opts reg_params reg_manager unset_memo reg_block 1 reg_view false = Some (Connected, [], s', c').
Proof.
  assert (E : match ConnectBlock reg_opts reg_params reg_manager unset_memo reg_block 1 reg_view false with Some (Connected, [], _, _) => true | _ => false end = true)
    by (vm_compute; reflexivity).
  destruct (ConnectBlock _ _ _ _ _ _ _ _) as [[[[[|?|] [|]] s'] c']|]; try discriminate E. exists s', c'. reflexivity.
Qed.

Lemma connect_block_supply_witness : exists r undo s' c',
  ConnectBlock reg_opts reg_params reg_manager unset_memo reg_block 1 reg_view false = Some (r, undo, s', c') /\
  (r = Connected -> exists m', shows_map c' m' /\ total m' <= total ∅ + (if pprev reg_entry then GetBlockSubsidy (nHeight reg_entry) reg_params else 0)).
Proof.
  destruct (connect_block_supply reg_opts reg_params reg_manager unset_memo reg_block 1 reg_entry reg_view ∅ (or_introl reg_ready)) as (r & undo & s' & c' & E & Hr).
  exists r, undo, s', c'. split; [exact E|]. intros Hc. destruct (Hr Hc) as (_ & _ & _ & _ & m' & Hm & _ & Ht & _). exists m'. split; [exact Hm|exact Ht].
Defined.

Lemma disconnect_connect_witness : exists s' c' c'',
  ConnectBlock reg_opts reg_params reg_manager unset_memo reg_block 1 reg_view false = Some (Connected, [], s', c') /\
  DisconnectBlock (Some []) (m_block_index s') reg_block 1 c' = Some (DISCONNECT_OK, c'') /\ shows_map c'' ∅.
Proof.
  destruct reg_connects as (s' & c' & E). exists s', c'.
  destruct (disconnect_connect reg_opts reg_params reg_manager unset_memo reg_block 1 reg_entry reg_view ∅ [] s' c' reg_ready eq_refl E) as (c'' & Ed & Hs & _).
  exists c''. split; [exact E|]. split; [exact Ed|exact Hs].
Defined.

Lemma supply_bounded_witness : exists (c : CCoinsViewCache CoinsDB) hist m, rtc (chain_step reg_params) (reg_view, []) (c, hist) /\ length hist = 1%nat /\
  shows_map c m /\ total m <= 2 * 150 * (18 * COIN).
Proof.
  destruct reg_connects as (s' & c' & E).
  assert (Hsteps : rtc (chain_step reg_params) (reg_view, []) (c', [(reg_block, [])])).
  { apply rtc_once. apply (step_connect reg_params reg_opts reg_manager unset_memo reg_block 1 reg_entry reg_view ∅ [] s' c' []); [exact reg_ready| |exact E].
    vm_compute. reflexivity. }
  destruct (supply_bounded reg_params reg_view c' [(reg_block, [])]) as (m & Hm & _ & Ht).
  - reflexivity.
  - split; [discriminate|reflexivity].
  - exact reg_view_shows.
  - exact Hsteps.
  - exists c', [(reg_block, [])], m. split; [exact Hsteps|]. split; [reflexivity|]. split; [exact Hm|exact Ht].
Defined.
