(* ===== verification/ScriptCheck.v ===== *)
(** * Script checks of a transaction

    [CScriptCheck::operator()] of src/validation.cpp runs [VerifyScript] on one input, with the checker of the
    transaction that remembers signatures (SigCache.v), and src/script/script_error.cpp names what is wrong.
    [consensus_verifier] is what ConnectBlock and CheckInputScripts are given as their [ScriptVerifier] when
    scripts are those of VerifyScript.v, and [CheckInputScripts_cached] is CheckInputScripts with the cache of script
    executions that it reads and fills. *)

From Stdlib Require Import ZArith Lia Bool String.
From stdpp Require Import base numbers list gmap strings.
From S2P Require Import Prelude Uint256 Params Sha256 Hashes Serialize PubKey Primitives Opcodes Script ScriptFlags Interpreter InterpreterProofs SigHash VerifyScript CheckerOrder CuckooCache SigCache BlockIndex Coins CoinsDB TxVerify BlockCheck Connect ConnectProofs Supply.
Local Open Scope Z_scope.
Local Open Scope adonai_scope.

Definition ScriptErrorString (serror : ScriptError) : string :=
  match serror with
  | SCRIPT_ERR_OK => "No error"
  | SCRIPT_ERR_EVAL_FALSE => "Script evaluated without error but finished with a false/empty top stack element"
  | SCRIPT_ERR_VERIFY => "Script failed an OP_VERIFY operation"
  | SCRIPT_ERR_EQUALVERIFY => "Script failed an OP_EQUALVERIFY operation"
  | SCRIPT_ERR_CHECKMULTISIGVERIFY => "Script failed an OP_CHECKMULTISIGVERIFY operation"
  | SCRIPT_ERR_CHECKSIGVERIFY => "Script failed an OP_CHECKSIGVERIFY operation"
  | SCRIPT_ERR_NUMEQUALVERIFY => "Script failed an OP_NUMEQUALVERIFY operation"
  | SCRIPT_ERR_SCRIPT_SIZE => "Script is too big"
  | SCRIPT_ERR_PUSH_SIZE => "Push value size limit exceeded"
  | SCRIPT_ERR_OP_COUNT => "Operation limit exceeded"
  | SCRIPT_ERR_STACK_SIZE => "Stack size limit exceeded"
  | SCRIPT_ERR_SIG_COUNT => "Signature count negative or greater than pubkey count"
  | SCRIPT_ERR_PUBKEY_COUNT => "Pubkey count negative or limit exceeded"
  | SCRIPT_ERR_BAD_OPCODE => "Opcode missing or not understood"
  | SCRIPT_ERR_DISABLED_OPCODE => "Attempted to use a disabled opcode"
  | SCRIPT_ERR_INVALID_STACK_OPERATION => "Operation not valid with the current stack size"
  | SCRIPT_ERR_INVALID_ALTSTACK_OPERATION => "Operation not valid with the current altstack size"
  | SCRIPT_ERR_OP_RETURN => "OP_RETURN was encountered"
  | SCRIPT_ERR_UNBALANCED_CONDITIONAL => "Invalid OP_IF construction"
  | SCRIPT_ERR_NEGATIVE_LOCKTIME => "Negative locktime"
  | SCRIPT_ERR_UNSATISFIED_LOCKTIME => "Locktime requirement not satisfied"
  | SCRIPT_ERR_SIG_HASHTYPE => "Signature hash type missing or not understood"
  | SCRIPT_ERR_SIG_DER => "Non-canonical DER signature"
  | SCRIPT_ERR_MINIMALDATA => "Data push larger than necessary"
  | SCRIPT_ERR_SIG_PUSHONLY => "Only push operators allowed in signatures"
  | SCRIPT_ERR_SIG_HIGH_S => "Non-canonical signature: S value is unnecessarily high"
  | SCRIPT_ERR_SIG_NULLDUMMY => "Dummy CHECKMULTISIG argument must be zero"
  | SCRIPT_ERR_MINIMALIF => "OP_IF/NOTIF argument must be minimal"
  | SCRIPT_ERR_SIG_NULLFAIL => "Signature must be zero for failed CHECK(MULTI)SIG operation"
  | SCRIPT_ERR_DISCOURAGE_UPGRADABLE_NOPS => "NOPx reserved for soft-fork upgrades"
  | SCRIPT_ERR_DISCOURAGE_UPGRADABLE_WITNESS_PROGRAM => "Witness version reserved for soft-fork upgrades"
  | SCRIPT_ERR_DISCOURAGE_UPGRADABLE_TAPROOT_VERSION => "Taproot version reserved for soft-fork upgrades"
  | SCRIPT_ERR_DISCOURAGE_OP_SUCCESS => "OP_SUCCESSx reserved for soft-fork upgrades"
  | SCRIPT_ERR_DISCOURAGE_UPGRADABLE_PUBKEYTYPE => "Public key version reserved for soft-fork upgrades"
  | SCRIPT_ERR_PUBKEYTYPE => "Public key is neither compressed or uncompressed"
  | SCRIPT_ERR_CLEANSTACK => "Stack size must be exactly one after execution"
  | SCRIPT_ERR_WITNESS_PROGRAM_WRONG_LENGTH => "Witness program has incorrect length"
  | SCRIPT_ERR_WITNESS_PROGRAM_WITNESS_EMPTY => "Witness program was passed an empty witness"
  | SCRIPT_ERR_WITNESS_PROGRAM_MISMATCH => "Witness program hash mismatch"
  | SCRIPT_ERR_WITNESS_MALLEATED => "Witness requires empty scriptSig"
  | SCRIPT_ERR_WITNESS_MALLEATED_P2SH => "Witness requires only-redeemscript scriptSig"
  | SCRIPT_ERR_WITNESS_UNEXPECTED => "Witness provided for non-witness script"
  | SCRIPT_ERR_WITNESS_PUBKEYTYPE => "Using non-compressed keys in segwit"
  | SCRIPT_ERR_SCHNORR_SIG_SIZE => "Invalid Schnorr signature size"
  | SCRIPT_ERR_SCHNORR_SIG_HASHTYPE => "Invalid Schnorr signature hash type"
  | SCRIPT_ERR_SCHNORR_SIG => "Invalid Schnorr signature"
  | SCRIPT_ERR_TAPROOT_WRONG_CONTROL_SIZE => "Invalid Taproot control block size"
  | SCRIPT_ERR_TAPSCRIPT_VALIDATION_WEIGHT => "Too much signature validation relative to witness weight"
  | SCRIPT_ERR_TAPSCRIPT_CHECKMULTISIG => "OP_CHECKMULTISIG(VERIFY) is not available in tapscript"
  | SCRIPT_ERR_TAPSCRIPT_MINIMALIF => "OP_IF/NOTIF argument must be minimal in tapscript"
  | SCRIPT_ERR_OP_CODESEPARATOR => "Using OP_CODESEPARATOR in non-witness script"
  | SCRIPT_ERR_SIG_FINDANDDELETE => "Signature is found in scriptCode"
  | SCRIPT_ERR_UNKNOWN_ERROR => "unknown error"
  end.

Section check.
Context `{Cpu} `{Host} `{Secp256k1}.

(** the input of a check *)
Definition check_txin (check : CScriptCheck) : CTxIn := nth (check_in check) (vin (check_tx check)) null_txin.
Definition check_checker (verifier : SignatureVerifier) (check : CScriptCheck) : BaseSignatureChecker :=
  @TransactionSignatureChecker verifier (check_tx check) ASSERT_FAIL (Z.of_nat (check_in check)) (nValue (check_out check)) (Some (check_txdata check)).
Definition check_with (verifier : SignatureVerifier) (check : CScriptCheck) : outcome unit :=
  @VerifyScript _ _ (check_checker verifier check) (check_flags check) (scriptSig (check_txin check)) (scriptPubKey (check_out check))
    (scriptWitness (check_txin check)).
(** the check, with [cacheStore] and the signature cache as its requests find it *)
Definition script_check (cacheStore : bool) (cache_at : request -> SignatureCache) (check : CScriptCheck) : outcome unit :=
  check_with (caching_verifier cacheStore cache_at) check.

(** [CScriptCheck::operator()]: the name of the error; a [false] without one keeps that of the last script that succeeded,
    and a check that aborts has no result ([input_scripts_verdict] says there is none) *)
Definition script_error (m : outcome unit) : option string :=
  match m with
  | Ok _ => None
  | Fail (Some error) => Some (ScriptErrorString error)
  | Fail None => Some (ScriptErrorString SCRIPT_ERR_OK)
  | Throw | Abort => Some "aborted"%string
  end.

(** the error a queue reports stays open *)
Definition consensus_verifier (cacheSigStore : bool) (cache_at : request -> SignatureCache) (cached : CTransaction -> Z -> bool)
    (pick : list string -> string) : ScriptVerifier := {|
  run_check check := script_error (script_check cacheSigStore cache_at check);
  execution_cached := cached;
  reported := pick;
|}.

(** ** The cache of script executions *)

(** the signature cache beside it is the [cache_at] of the checks *)
Record ValidationCache : Type := { m_script_execution_cache_hasher : CSHA256; m_script_execution_cache : cache uint256 }.
Definition ValidationCache_new (nonce : uint256) (script_execution_cache_bytes : Z) : ValidationCache := {|
  m_script_execution_cache_hasher := CSHA256_Write (CSHA256_Write CSHA256_init nonce) nonce;
  m_script_execution_cache := (setup_bytes 32 script_execution_cache_bytes).1;
|}.
Definition with_executions (v : ValidationCache) (s : cache uint256) : ValidationCache :=
  {| m_script_execution_cache_hasher := m_script_execution_cache_hasher v; m_script_execution_cache := s |}.

(** [hashCacheEntry]; the flags are written as they are in memory *)
Definition execution_entry (hasher : CSHA256) (tx : CTransaction) (flags : Z) : uint256 :=
  CSHA256_Finalize (CSHA256_Write (CSHA256_Write hasher (ComputeWitnessHash tx)) (if host_little_endian then WriteLE32 flags else WriteBE32 flags)).

(** [CheckInputScripts] with its caches: the lookup decides whether there is anything to check, and a transaction whose scripts were all
    run is remembered *)
Definition CheckInputScripts_cached {V : Type} `{CCoinsView V} (pick : list string -> string) (cache_at : request -> SignatureCache)
    (validation_cache : ValidationCache) (tx : CTransaction) (inputs : CCoinsViewCache V) (flags : Z) (cacheSigStore cacheFullScriptStore queue : bool)
    : option (verdict TxValidationResult (list CScriptCheck) * CCoinsViewCache V * ValidationCache) :=
  if IsCoinBase tx then Some (Valid [], inputs, validation_cache)
  else
    let hashCacheEntry := execution_entry (m_script_execution_cache_hasher validation_cache) tx flags in
    let '(found, s) := contains (m_script_execution_cache validation_cache) hashCacheEntry (negb cacheFullScriptStore) in
    '(v, inputs) ← @CheckInputScripts (consensus_verifier cacheSigStore cache_at (fun _ _ => found) pick) V _ tx inputs flags queue;
    let store := match v with Valid _ => negb found && cacheFullScriptStore && negb queue | Invalid _ _ => false end in
    Some (v, inputs, with_executions validation_cache (if store : bool then CuckooCache.insert s hashCacheEntry else s)).
End check.

(** ** Checks return *)

(** scripts and witnesses are bytes *)
Definition input_bytes (i : CTxIn) : Prop := limbs_ok 8 (scriptSig i) /\ witness_ok (scriptWitness i).
Definition coin_bytes (coin : Coin) : Prop := limbs_ok 8 (scriptPubKey (coin_out coin)) /\ 0 <= nValue (coin_out coin).

Section returns.
Context `{Cpu} `{Host} `{Secp256k1}.

(** the check by the curve alone *)
Notation plain_check := (check_with curve_verifier).

Lemma plain_check_returns check spent i out : PrecomputedTransactionData_Init (check_tx check) spent false = Some (check_txdata check) ->
  zlen spent = zlen (vin (check_tx check)) -> zlen (vin (check_tx check)) < 2 ^ 32 ->
  vin (check_tx check) !! check_in check = Some i -> spent !! check_in check = Some out -> check_out check = out ->
  input_bytes i -> limbs_ok 8 (scriptPubKey out) -> 0 <= nValue out -> script_flags_ok (check_flags check) = true ->
  returns (fun _ => True) (plain_check check).
Proof.
  intros Hinit Hl Hvin Hi Ho <- [Hsig Hw] Hspk Hval Hf. unfold check_with, check_txin. rewrite nth_lookup, Hi; cbn [default].
  assert (Hn : 0 <= Z.of_nat (check_in check) < zlen (vin (check_tx check))) by (apply lookup_lt_Some in Hi; lia).
  pose proof (checker_lawful (H0 := curve_verifier) (check_tx check) ASSERT_FAIL (Z.of_nat (check_in check)) (nValue (check_out check)) (Some (check_txdata check)) Hn
    (or_intror Hval)) as Hlaw.
  apply (VerifyScript_ok (H2 := Hlaw)); try assumption. intros Htap Hne. destruct (Init_spec _ _ _ _ Hinit) as (_ & _ & Hready).
  destruct (Hready _ _ _ Hi Ho Hne Htap) as [Hr1 Hr2]. exact (checker_schnorr_reports _ _ _ _ _ Hn _ eq_refl Hr1 Hr2).
Qed.

Lemma check_agrees (V V' : SignatureVerifier) check : VerifiersAgree V V' -> agrees (check_with V check) (check_with V' check).
Proof. intros HV. unfold check_with, check_checker. apply (VerifyScript_agrees _ _ (CheckersAgree0 := transaction_checkers_agree V V' _ _ _ _ _)). Qed.

(** The signature cache changes no verdict: when it is sound for the signatures a check asks for, the check has the result of the curve. *)
Lemma script_check_cached nonce log asked store cache_at check : (forall n, 2 <= n < 2 ^ 32 -> 1 <= host_log2 n < 256) -> zlen nonce = 32 ->
  caches_sound nonce log asked cache_at -> check_with (asked_only asked) check <> Abort ->
  script_check store cache_at check = plain_check check.
Proof.
  intros Hlog Hn Hs Hask.
  destruct (check_agrees _ _ check (asked_agrees_cached nonce log asked store cache_at Hlog Hn Hs)) as [Hc|Hc]; [destruct (Hask Hc)|].
  destruct (check_agrees _ _ check (asked_agrees_curve asked)) as [Hp|Hp]; [destruct (Hask Hp)|]. unfold script_check. rewrite <- Hc. exact Hp.
Qed.

(** the check of input [n] of [tx], which spends [out] *)
Definition check_of (tx : CTransaction) (txdata : PrecomputedTransactionData) (flags : Z) (n : nat) (out : CTxOut) : CScriptCheck :=
  {| check_tx := tx; check_in := n; check_out := out; check_flags := flags; check_txdata := txdata |}.
Definition mandatory (flags : Z) : Z := Z.land flags (u32 (Z.lnot STANDARD_NOT_MANDATORY_VERIFY_FLAGS)).
Lemma mandatory_same flags : 0 <= flags < 2 ^ 32 -> flag flags STANDARD_NOT_MANDATORY_VERIFY_FLAGS = false -> mandatory flags = flags.
Proof.
  intros Hr Hf. unfold flag in Hf. apply negb_false_iff, Z.eqb_eq in Hf. unfold mandatory. apply Z.bits_inj'. intros n Hn.
  assert (Hbit : Z.testbit flags n && Z.testbit STANDARD_NOT_MANDATORY_VERIFY_FLAGS n = false) by (rewrite <- Z.land_spec, Hf; apply Z.bits_0).
  rewrite Z.land_spec. change (u32 ?x) with (x mod 2 ^ 32). destruct (Z.lt_ge_cases n 32) as [Hlt|Hge].
  - rewrite Z.mod_pow2_bits_low, Z.lnot_spec by lia. destruct (Z.testbit flags n), (Z.testbit STANDARD_NOT_MANDATORY_VERIFY_FLAGS n); done.
  - rewrite (Z.bits_above_log2 flags n); [done|lia|]. destruct (Z.eq_dec flags 0) as [->|]; [cbn; lia|]. pose proof (Z.log2_lt_pow2 flags 32 ltac:(lia)). lia.
Qed.
(** every input verifies *)
Definition accepted (tx : CTransaction) (txdata : PrecomputedTransactionData) (flags : Z) (outs : list CTxOut) : Prop :=
  forall n out, outs !! n = Some out -> plain_check (check_of tx txdata flags n out) = Ok tt.

Lemma script_error_none m : script_error m = None <-> m = Ok tt.
Proof. destruct m as [[]|[]| |]; cbn; split; congruence. Qed.

Section verdicts.
Variables (store : bool) (cache_at : request -> SignatureCache) (cached : CTransaction -> Z -> bool) (pick : list string -> string).
Notation verifier := (consensus_verifier store cache_at cached pick).

(** what the checks of a transaction give without a queue, from input [n] on, when their answers are those of the curve *)
Lemma run_checks_spec tx txdata flags outs : forall n,
  (forall f i out, f = flags \/ f = mandatory flags -> outs !! i = Some out ->
     script_check store cache_at (check_of tx txdata f (n + i) out) = plain_check (check_of tx txdata f (n + i) out)) ->
  match @run_checks verifier flags (imap (fun i => check_of tx txdata flags (n + i)) outs) with
  | Valid _ => forall i out, outs !! i = Some out -> plain_check (check_of tx txdata flags (n + i) out) = Ok tt
  | Invalid r _ => (exists i out, outs !! i = Some out /\ plain_check (check_of tx txdata flags (n + i) out) <> Ok tt /\
      (r = TX_CONSENSUS -> flag flags STANDARD_NOT_MANDATORY_VERIFY_FLAGS = true -> plain_check (check_of tx txdata (mandatory flags) (n + i) out) <> Ok tt)) /\
      (r = TX_CONSENSUS \/ r = TX_NOT_STANDARD)
  end.
Proof.
  induction outs as [|out outs IH]; intros n Hsame; [intros i out Hi; rewrite lookup_nil in Hi; discriminate|].
  assert (Hhere : forall f, f = flags \/ f = mandatory flags -> script_check store cache_at (check_of tx txdata f n out) = plain_check (check_of tx txdata f n out)).
  { intros f Hf. rewrite <- (Nat.add_0_r n). apply Hsame; [exact Hf|reflexivity]. }
  rewrite imap_cons. cbn [run_checks]. rewrite Nat.add_0_r. change (@run_check verifier ?c) with (script_error (script_check store cache_at c)).
  rewrite (Hhere flags) by auto. destruct (script_error (plain_check (check_of tx txdata flags n out))) as [error|] eqn:E.
  - assert (Hbad : plain_check (check_of tx txdata flags n out) <> Ok tt) by (rewrite <- script_error_none, E; discriminate).
    change {| check_tx := _; check_in := _; check_out := _; check_flags := _; check_txdata := _ |} with (check_of tx txdata (mandatory flags) n out).
    rewrite (Hhere (mandatory flags)) by auto.
    destruct (flag flags _) eqn:Ef; [destruct (script_error (plain_check (check_of tx txdata (mandatory flags) n out))) as [error'|] eqn:E'|];
      (split; [exists 0%nat, out; rewrite Nat.add_0_r|]); auto.
    split_and!; [done|exact Hbad|]. intros _ _. rewrite <- script_error_none, E'. discriminate.
  - apply script_error_none in E. specialize (IH (S n)).
    rewrite (imap_ext _ (fun i => check_of tx txdata flags (S n + i)) outs) by (intros i x _; cbn; f_equal; lia).
    assert (Hnext : forall f i out', f = flags \/ f = mandatory flags -> outs !! i = Some out' ->
      script_check store cache_at (check_of tx txdata f (S n + i) out') = plain_check (check_of tx txdata f (S n + i) out')).
    { intros f i out' Hf Hi. rewrite Nat.add_succ_comm. apply Hsame; [exact Hf|exact Hi]. }
    specialize (IH Hnext). destruct (@run_checks verifier _ _) as [|r reason].
    + intros [|i] out' Hi; [injection Hi as <-; rewrite Nat.add_0_r; exact E|]. rewrite <- Nat.add_succ_comm. apply IH, Hi.
    + destruct IH as [(i & out' & Hi & Hbad) Hr]. split; [|exact Hr]. exists (S i), out'. rewrite <- Nat.add_succ_comm. split; [exact Hi|exact Hbad].
Qed.
End verdicts.

(** ** Executions that are remembered *)

(** a transaction with the outputs it spends, under some flags *)
Definition execution : Type := CTransaction * Z * list CTxOut.
Definition execution_ok (e : execution) : Prop :=
  forall txdata, PrecomputedTransactionData_Init e.1.1 e.2 false = Some txdata -> accepted e.1.1 txdata e.1.2 e.2.
Definition entry_of (hasher : CSHA256) (e : execution) : uint256 := execution_entry hasher e.1.1 e.1.2.

(** what is stored are the entries of executions that were accepted *)
Record executions_inv (hasher : CSHA256) (log : list execution) (v : ValidationCache) : Prop := {
  ex_hasher : m_script_execution_cache_hasher v = hasher;
  ex_ok : cuckoo_ok (m_script_execution_cache v);
  ex_placed : placed (m_script_execution_cache v);
  ex_accepted : forall x, x ∈ table (m_script_execution_cache v) -> x = zrep 32 0 \/ exists e, e ∈ log /\ execution_ok e /\ x = entry_of hasher e;
}.
(** an execution whose entry is stored was stored itself *)
Definition fresh_execution (hasher : CSHA256) (log : list execution) (e : execution) : Prop :=
  entry_of hasher e <> zrep 32 0 /\ forall e', e' ∈ log -> entry_of hasher e' = entry_of hasher e -> e' = e.

Section executions.
Hypothesis log2_ok : forall n, 2 <= n < 2 ^ 32 -> 1 <= host_log2 n < 256.
Existing Instance hasher_lawful.

Lemma executions_new nonce bytes : 0 <= bytes <= 32 * (2 ^ 32 - 8) ->
  executions_inv (m_script_execution_cache_hasher (ValidationCache_new nonce bytes)) [] (ValidationCache_new nonce bytes).
Proof.
  intros Hb. assert (Hn : 0 <= Z.min (bytes / 32) (2 ^ 32 - 1) <= 2 ^ 32 - 8) by (Z.div_mod_to_equations; lia).
  destruct (@setup_ok uint256 _ (hasher_lawful log2_ok) _ Hn) as [Hok Hp]. split; [reflexivity|exact Hok|exact Hp|].
  intros x Hx. left. cbn in Hx. apply list_elem_of_lookup in Hx as [i Hi]. apply lookup_replicate in Hi as [-> _]. done.
Qed.

Lemma executions_lookup hasher log v e erase : executions_inv hasher log v -> fresh_execution hasher log e ->
  let (found, s) := contains (m_script_execution_cache v) (entry_of hasher e) erase in
  executions_inv hasher log (with_executions v s) /\ (found = true -> execution_ok e).
Proof.
  intros [] [Hz Hf]. destruct (@contains_spec uint256 _ (hasher_lawful log2_ok) (m_script_execution_cache v) (entry_of hasher e) erase) as (Hok & Hp & Et & Hyes & _);
    [assumption..|]. destruct (contains _ _ _) as [found s]. cbn [fst snd] in *. split.
  - split; cbn; try assumption. rewrite Et. assumption.
  - intros Hx. destruct (ex_accepted0 _ (Hyes Hx)) as [?|(e' & Hin & He & E)]; [done|]. rewrite <- (Hf e' Hin (eq_sym E)). exact He.
Qed.

Lemma executions_more hasher log v e : executions_inv hasher log v -> executions_inv hasher (e :: log) v.
Proof.
  intros []. split; try assumption. intros x Hx. destruct (ex_accepted0 x Hx) as [?|(e' & Hin & He)]; [auto|]. right. exists e'. split; [right; exact Hin|exact He].
Qed.

Lemma executions_store hasher log v e : executions_inv hasher log v -> execution_ok e ->
  executions_inv hasher (e :: log) (with_executions v (CuckooCache.insert (m_script_execution_cache v) (entry_of hasher e))).
Proof.
  intros [] He. destruct (@insert_spec uint256 _ (hasher_lawful log2_ok) (m_script_execution_cache v) (entry_of hasher e)) as (Hok & Hp & d & _ & Hnew & _); [assumption..|].
  split; cbn; try assumption. intros x Hx. destruct (Hnew x Hx) as [->|Hold]; [right; exists e; split; [left|done]|].
  destruct (ex_accepted0 x Hold) as [?|(e' & Hin & He')]; [auto|]. right. exists e'. split; [right; exact Hin|exact He'].
Qed.
End executions.
End returns.

(** ** The flags of a block *)

Lemma raised_flags_ok flags f : script_flags_ok flags = true -> Z.land f SCRIPT_VERIFY_WITNESS = 0 -> Z.land f SCRIPT_VERIFY_CLEANSTACK = 0 ->
  Z.land f SCRIPT_VERIFY_P2SH = 0 -> script_flags_ok (Z.lor flags f) = true.
Proof.
  intros Hok Hw Hc Hp. unfold script_flags_ok, has_flag in *. rewrite !Z.land_lor_distr_l, Hw, Hc, Hp, !Z.lor_0_r. exact Hok.
Qed.

(** the flags [ConnectBlock] checks scripts with are ones [VerifyScript] allows, if those of the exceptional blocks are *)
Lemma block_flags_ok block_index params flags : GetBlockScriptFlags block_index params = Some flags ->
  Forall (fun e => script_flags_ok e.2 = true) (script_flag_exceptions params) -> script_flags_ok flags = true.
Proof.
  unfold GetBlockScriptFlags. intros E Hex. destruct (phashBlock block_index) as [hash|]; [|discriminate]. cbn [mbind option_bind] in E. injection E as <-.
  set (start := default _ _). assert (Hstart : script_flags_ok start = true).
  { unfold start. destruct (list_find _ _) as [[i e]|] eqn:Ef; [|reflexivity]. cbn. apply list_find_Some in Ef as (Hi & _ & _). exact (Forall_lookup_1 _ _ _ _ Hex Hi). }
  clearbody start. repeat case_match; repeat (apply raised_flags_ok; [|reflexivity..]); exact Hstart.
Qed.

(** ** Properties *)

(** the run of [CheckInputScripts] on a transaction that is not remembered *)
Lemma uncached_run `{Cpu} `{Host} `{Secp256k1} {V : Type} `{LawfulView V} store cache_at pick tx (c : CCoinsViewCache V) m flags coins (outs := coin_out <$> coins) :
  shows_map c m -> spent_coins m (vin tx) coins -> IsCoinBase tx = false ->
  exists txdata c', PrecomputedTransactionData_Init tx outs false = Some txdata /\
  forall queue, @CheckInputScripts (consensus_verifier store cache_at (fun _ _ => false) pick) V _ tx c flags queue =
    if queue then Some (Valid (imap (check_of tx txdata flags) outs), c')
    else match @run_checks (consensus_verifier store cache_at (fun _ _ => false) pick) flags (imap (check_of tx txdata flags) outs) with
         | Valid _ => Some (Valid [], c')
         | Invalid r reason => Some (Invalid r reason, c')
         end.
Proof.
  intros Hs HF Hcb. destruct (spent_outputs_spec (vin tx) c m coins Hs HF) as (c' & Eouts & _).
  assert (Hl : zlen outs = zlen (vin tx)) by (unfold outs; rewrite length_fmap, (Forall2_length _ _ _ HF); done).
  destruct (Init_ready tx outs false Hl) as (txdata & Einit & Espent). exists txdata, c'. split; [exact Einit|]. intros queue. unfold CheckInputScripts.
  rewrite Hcb. cbn [execution_cached consensus_verifier]. rewrite Eouts. cbn [mbind option_bind]. fold outs. rewrite Einit. cbn [mbind option_bind].
  rewrite Espent, Hl, Z.eqb_refl. reflexivity.
Qed.

Lemma plain_checks_return `{Cpu} `{Host} `{Secp256k1} tx (m : UTXO) flags coins txdata (outs := coin_out <$> coins) :
  spent_coins m (vin tx) coins -> Forall input_bytes (vin tx) -> Forall coin_bytes coins -> zlen (vin tx) < 2 ^ 32 -> script_flags_ok flags = true ->
  PrecomputedTransactionData_Init tx outs false = Some txdata ->
  forall n out, outs !! n = Some out -> returns (fun _ => True) (check_with curve_verifier (check_of tx txdata flags n out)).
Proof.
  intros HF Hin Hcoins Hvin Hflags Hinit n out Hn. unfold outs in Hn. rewrite list_lookup_fmap_Some in Hn. destruct Hn as (coin & -> & Hn).
  destruct (lookup_lt_is_Some_2 (vin tx) n) as [i Hi]; [rewrite (Forall2_length _ _ _ HF); exact (lookup_lt_Some _ _ _ Hn)|].
  destruct (Forall_lookup_1 _ _ _ _ Hcoins Hn) as [Hspk Hval].
  apply (plain_check_returns _ outs i (coin_out coin)); try assumption; try reflexivity.
  - unfold outs. cbn. rewrite length_fmap, (Forall2_length _ _ _ HF). done.
  - unfold outs. cbn. rewrite list_lookup_fmap, Hn. done.
  - exact (Forall_lookup_1 _ _ _ _ Hin Hi).
Qed.

(** the verdict on the inputs of a transaction *)
Definition scripts_verdict `{Cpu} `{Host} `{Secp256k1} (tx : CTransaction) (txdata : PrecomputedTransactionData) (flags : Z) (outs : list CTxOut)
    (v : verdict TxValidationResult (list CScriptCheck)) : Prop :=
  match v with
  | Valid checks => checks = [] /\ accepted tx txdata flags outs
  | Invalid r _ => ~ accepted tx txdata flags outs /\ (r = TX_CONSENSUS \/ r = TX_NOT_STANDARD) /\
      (r = TX_CONSENSUS -> ~ accepted tx txdata (mandatory flags) outs)
  end.

Lemma run_checks_verdict `{Cpu} `{Host} `{Secp256k1} store cache_at cached pick tx txdata flags outs : 0 <= flags < 2 ^ 32 ->
  (forall f i out, f = flags \/ f = mandatory flags -> outs !! i = Some out ->
     script_check store cache_at (check_of tx txdata f i out) = check_with curve_verifier (check_of tx txdata f i out)) ->
  scripts_verdict tx txdata flags outs
    match @run_checks (consensus_verifier store cache_at cached pick) flags (imap (check_of tx txdata flags) outs) with
    | Valid _ => Valid [] | Invalid r reason => Invalid r reason end.
Proof.
  intros Hrange Hsame. pose proof (run_checks_spec store cache_at cached pick tx txdata flags outs 0 Hsame) as Hrun.
  change (imap (fun i => check_of tx txdata flags (0 + i)) outs) with (imap (check_of tx txdata flags) outs) in Hrun.
  destruct (run_checks _ _) as [|r reason]; cbn [scripts_verdict]; [exact (conj eq_refl Hrun)|].
  destruct Hrun as [(n & out & Hn & Hbad & Hmand) Hr]. split_and!; [intros Ha; exact (Hbad (Ha n out Hn))|exact Hr|]. intros ->.
  destruct (flag flags STANDARD_NOT_MANDATORY_VERIFY_FLAGS) eqn:Ef; [intros Ha; exact (Hmand eq_refl eq_refl (Ha n out Hn))|].
  rewrite mandatory_same by assumption. intros Ha. exact (Hbad (Ha n out Hn)).
Qed.

(** C4: The scripts of a transaction, with both caches.  Let a transaction that is not a coinbase spend coins of a view, with flags [VerifyScript]
    allows (witness rules come with P2SH, the clean stack rule with both).  Let the signature caches the checks meet hold only entries of signatures that
    verified, and the execution cache only entries of transactions that were accepted, and let no entry have by accident the salted hash of a signature
    asked for now or of this transaction under these flags.  Then [CheckInputScripts] returns and leaves such an execution cache; no check fails an assertion; run at once,
    it accepts exactly when every input verifies against the curve under the flags, whether or not it found the transaction in the execution cache,
    rejects as TX_CONSENSUS only when some input also fails the mandatory rules, and otherwise as TX_NOT_STANDARD; with a queue it hands out the
    checks of all inputs, or none for a transaction it found, which then verifies. *)
Theorem input_scripts_verdict `{Cpu} `{Host} `{Secp256k1} {V : Type} `{LawfulView V} (pick : list string -> string)
  (nonce : uint256) (siglog asked : list request) (cache_at : request -> SignatureCache)
  (hasher : CSHA256) (log : list execution) (validation_cache : ValidationCache) (cacheSigStore cacheFullScriptStore : bool)
  (tx : CTransaction) (c : CCoinsViewCache V) (m : UTXO) (flags : Z) (coins : list Coin) (outs := coin_out <$> coins) :
  (forall n, 2 <= n < 2 ^ 32 -> 1 <= host_log2 n < 256) ->
  shows_map c m -> spent_coins m (vin tx) coins -> Forall input_bytes (vin tx) -> Forall coin_bytes coins -> zlen (vin tx) < 2 ^ 32 ->
  script_flags_ok flags = true -> 0 <= flags < 2 ^ 32 -> IsCoinBase tx = false ->
  zlen nonce = 32 -> caches_sound nonce siglog asked cache_at ->
  (forall txdata f n out, PrecomputedTransactionData_Init tx outs false = Some txdata -> f = flags \/ f = mandatory flags -> outs !! n = Some out ->
     check_with (asked_only asked) (check_of tx txdata f n out) <> Abort) ->
  executions_inv hasher log validation_cache -> fresh_execution hasher log (tx, flags, outs) ->
  let run := CheckInputScripts_cached pick cache_at validation_cache tx c flags cacheSigStore cacheFullScriptStore in
  exists txdata, PrecomputedTransactionData_Init tx outs false = Some txdata /\
  (forall n out, outs !! n = Some out -> script_check cacheSigStore cache_at (check_of tx txdata flags n out) = check_with curve_verifier (check_of tx txdata flags n out) /\
     returns (fun _ => True) (check_with curve_verifier (check_of tx txdata flags n out))) /\
  (exists v c' s', run false = Some (v, c', s') /\ executions_inv hasher ((tx, flags, outs) :: log) s' /\ scripts_verdict tx txdata flags outs v) /\
  (exists checks c' s', run true = Some (Valid checks, c', s') /\ executions_inv hasher log s' /\
     (checks = imap (check_of tx txdata flags) outs \/ checks = [] /\ accepted tx txdata flags outs)).
Proof.
  intros Hlog Hs HF Hin Hcoins Hvin Hflags Hrange Hcb Hnonce Hsound Hask Hex Hfresh run.
  destruct (uncached_run cacheSigStore cache_at pick tx c m flags coins Hs HF Hcb) as (txdata & c' & Hinit & Hrun). fold outs in Hinit, Hrun.
  exists txdata. split; [exact Hinit|].
  assert (Hsame : forall f n out, f = flags \/ f = mandatory flags -> outs !! n = Some out ->
    script_check cacheSigStore cache_at (check_of tx txdata f n out) = check_with curve_verifier (check_of tx txdata f n out)).
  { intros f n out Hf Hn. apply (script_check_cached nonce siglog asked); try assumption. apply (Hask txdata f n out Hinit Hf Hn). }
  split; [intros n out Hn; split; [apply Hsame; auto|exact (plain_checks_return tx m flags coins txdata HF Hin Hcoins Hvin Hflags Hinit n out Hn)]|].
  pose proof (executions_lookup Hlog hasher log validation_cache (tx, flags, outs) (negb cacheFullScriptStore) Hex Hfresh) as Hlook.
  unfold run, CheckInputScripts_cached. rewrite Hcb, (ex_hasher _ _ _ Hex). change (execution_entry hasher tx flags) with (entry_of hasher (tx, flags, outs)).
  destruct (contains _ _ _) as [found s]. destruct Hlook as [Hs' Hhit]. destruct found.
  - assert (Hacc : accepted tx txdata flags outs) by exact (Hhit eq_refl txdata Hinit).
    assert (Hskip : forall queue, @CheckInputScripts (consensus_verifier cacheSigStore cache_at (fun _ _ => true) pick) V _ tx c flags queue = Some (Valid [], c)).
    { intros queue. unfold CheckInputScripts. rewrite Hcb. reflexivity. }
    rewrite !Hskip. cbn [mbind option_bind negb andb]. split; eexists _, _, _; (split; [reflexivity|]); [|auto].
    split; [apply executions_more, Hs'|]. exact (conj eq_refl Hacc).
  - pose proof (run_checks_verdict cacheSigStore cache_at (fun _ _ => false) pick tx txdata flags outs Hrange Hsame) as Hv. rewrite !Hrun. split.
    + destruct (run_checks _ _) as [|r reason]; cbn [mbind option_bind negb andb]; eexists _, _, _; (split; [reflexivity|split; [|exact Hv]]).
      * destruct cacheFullScriptStore; [|apply executions_more, Hs']. apply (executions_store Hlog hasher log _ (tx, flags, outs) Hs').
        intros d Hd. cbn [fst snd] in *. rewrite Hinit in Hd. injection Hd as <-. exact (proj2 Hv).
      * apply executions_more, Hs'.
    + cbn [mbind option_bind negb andb]. rewrite andb_false_r. eexists _, _, _. split; [reflexivity|]. split; [exact Hs'|left; reflexivity].
Qed.

(** ** The property at a concrete input *)

#[local] Existing Instance small_batches.

Definition example_outpoint : COutPoint := {| out_hash := zrep 32 5; out_n := 0 |}.
Definition example_coin : Coin := {| coin_out := {| nValue := 5; scriptPubKey := [OP_1] |}; fCoinBase := false; coin_nHeight := 1 |}.
Definition example_spend : CTransaction :=
  {| version := 2; vin := [{| prevout := example_outpoint; scriptSig := []; nSequence := 0; scriptWitness := [] |}]; vout := []; nLockTime := 0 |}.

Lemma example_view : exists c : CCoinsViewCache CoinsDB, shows_map c {[example_outpoint := example_coin]}.
Proof.
  destruct reg_view_shows as [Hok Hm]. destruct (AddCoin_spec reg_view example_outpoint example_coin false Hok) as (c & _ & Hc & _ & Hp);
    [reflexivity|intros _; rewrite Hm; apply lookup_empty|].
  exists c. split; [exact Hc|]. intros o. rewrite Hp. change (IsUnspendable _) with false. cbv iota.
  destruct (bool_decide_reflect (o = example_outpoint)) as [->|Hne]; [rewrite lookup_singleton_eq; done|].
  rewrite lookup_singleton_ne by congruence. rewrite Hm. apply lookup_empty.
Qed.

Definition example_validation : ValidationCache := @ValidationCache_new example_host (zrep 32 7) 4096.
Definition example_signatures : request -> SignatureCache := fun _ => @SignatureCache_new example_host (zrep 32 9) 4096.

Lemma example_log2 : forall n, 2 <= n < 2 ^ 32 -> 1 <= @host_log2 example_host n < 256.
Proof.
  intros n Hn. cbn. pose proof (Z.log2_le_mono 2 n ltac:(lia)). pose proof (Z.log2_lt_pow2 n 32 ltac:(lia)). change (Z.log2 2) with 1 in *. lia.
Qed.

Lemma example_fresh_execution : @fresh_execution example_host (m_script_execution_cache_hasher example_validation) [] (example_spend, consensus_flags, coin_out <$> [example_coin]).
Proof. split; [apply (bool_decide_eq_false_1 _); vm_compute; reflexivity|]. intros e He. apply not_elem_of_nil in He as []. Qed.

Lemma input_scripts_verdict_witness : exists (c c' : CCoinsViewCache CoinsDB) s',
  @CheckInputScripts_cached portable_cpu example_host no_curve CoinsDB _ (fun _ => "") example_signatures example_validation example_spend c consensus_flags true true false =
    Some (Valid [], c', s').
Proof.
  destruct example_view as [c Hc]. exists c.
  destruct (@input_scripts_verdict portable_cpu example_host no_curve CoinsDB _ _ (fun _ => "") (zrep 32 9) [] [] example_signatures
    (m_script_execution_cache_hasher example_validation) [] example_validation true true example_spend c {[example_outpoint := example_coin]} consensus_flags [example_coin])
    as (txdata & Hinit & _ & (v & c' & s' & E & _ & Hv) & _).
  - exact example_log2.
  - exact Hc.
  - repeat constructor.
  - repeat constructor.
  - repeat constructor; vm_compute; congruence.
  - reflexivity.
  - reflexivity.
  - vm_compute. split; congruence.
  - reflexivity.
  - reflexivity.
  - constructor.
  - intros txdata f [|[|n]] out [= <-] Hf Hn; try discriminate Hn. injection Hn as <-. destruct Hf as [-> | ->]; vm_compute; discriminate.
  - apply (@executions_new portable_cpu example_host no_curve example_log2). lia.
  - exact example_fresh_execution.
  - exists c', s'. rewrite E. injection Hinit as <-. destruct v as [l|r reason]; [destruct Hv as [-> _]; reflexivity|].
    destruct Hv as [[] _]. intros [|[|n]] out Hn; try discriminate Hn. injection Hn as <-. vm_compute. reflexivity.
Defined.
